(* ===== verification/_CoqProject ===== *)
-Q . S2P
Prelude.v
Machine.v
Loopback.v
Minilibc.v
StreamIO.v
Memory.v
RtldTable.v
Printf.v
RtldReloc.v
RtldStubs.v
RtldElf.v
RtldElfProofs.v
RtldCopy.v
Translator.v
TranslatorProofs.v
TranslatorLive.v
State.v
Dispatch.v
DispatchProofs.v
MathF.v
MathFProofs.v
ElfLoader.v
ElfLoaderProofs.v
ElfLoaderFds.v
Signals.v
SignalsProofs.v
Emulate.v
EmulateProofs.v
EmulateFrame.v
Frvdec.v
FrvIsa.v
FrvdecImm.v
FrvdecProofs.v
FrvRvc.v
FrvdecFormat.v
Farmdec.v
FarmdecProofs.v
FarmdecMem.v
FarmdecFp.v
FarmdecSimd.v
FarmdecDecode.v
FarmdecWf.v
FarmdecDecodeProofs.v
FarmdecSimdProofs.v
FarmdecMemProofs.v
Main.v
MainProofs.v
MainReloc.v
MainReady.v
ServerCache.v
ServerCacheProofs.v
ServerConn.v
ServerConnProofs.v
Fadec.v
FadecProofs.v
FadecEnc.v
FadecEncProofs.v
FadecRoundtrip.v
ServerDecode.v
ServerDecodeProofs.v
ServerTranslate.v
ServerTranslateProofs.v
ServerSession.v
RvSem.v
Rellume.v
RellumeProofs.v
RellumeRv64.v
RellumeRv64Proofs.v
RellumeRv64Refine.v
RellumeRv64Step.v
RellumePacks.v
RellumePacksProofs.v
RellumeA64.v
A64Sem.v
RellumeA64Proofs.v
RellumeA64Alu.v
RellumeA64Refine.v
RellumeA64Data.v
RellumeA64Mem.v
RellumeA64Step.v
