(* ===== verification/Prelude.v ===== *)
(** * Instrew: a verification library

    Instrew runs a guest program (x86-64, RISC-V or AArch64 code) on an x86-64
    or AArch64 host by dynamic binary translation.  A small freestanding client
    ([src/client]) is the process the guest runs in: it loads the guest's ELF
    file, asks a separate translation server for machine code one guest address
    at a time, links the object files it receives into its code arena, caches
    where each guest address was translated to, jumps into that code, and
    emulates the guest's system calls and signals.  The server ([src/server])
    walks the guest's code, which it reads from the client's memory over the
    connection, lifts and compiles it with LLVM, and keeps the objects in a
    cache on disk.  This library models the whole of the client in C, the
    server up to the calls into LLVM, the decoders the server and its lifter use
    for RISC-V ([src/subprojects/frvdec]), AArch64 ([src/subprojects/farmdec])
    and x86-64 ([src/subprojects/fadec], which has an encoder too), and of the
    lifter ([src/subprojects/rellume]) the register file, the calling
    conventions, the lifting of RISC-V and that of AArch64 but for its vector
    instructions, as executable functions, and proves what makes each part
    correct.

    ** The model

    Memory is a finite map from addresses to bytes ([memory], [Machine.v]); a
    C integer is a [Z] with explicit wrap-around ([wrap], [swrap], below).  A
    function of the client is a function in the state monad [ST (Proc W)] over
    the process (memory, the two arenas, the page size, the stack area for
    locals whose address is taken) and the state [W] of the kernel, which is a
    parameter: the class [Kernel] gives the result and effects of each system
    call.  What the client relies on of the kernel is stated in classes of its
    own ([KernelAbi], [StreamKernel], [InputKernel], [FileKernel], [FdKernel]),
    each with an instance by a concrete kernel ([Loopback.v], [Disk] in
    [ElfLoaderProofs.v]).  Functions that may end the process live in the monad
    [CM] of [State.v].  The client's own structures ([State], [CpuState]) are
    records apart from memory, which the guest cannot reach in the model; in the
    process it can, with pointers and mappings it hands to the kernel, and
    [emulate.c] does not prevent it.  Translated code and the addresses of the client's own
    functions ([link]) are parameters too.  The server has a state and a monad
    of its own ([SM], [ServerConn.v]), with outcomes for [exit], for a failed
    assertion and for a run that does not end, over the byte streams of the
    connection and a small file system ([ServerCache.v]) in which the
    environment decides the outcome of every call.  The lifter builds LLVM
    instructions; a call of the builder is modelled by what the instruction it
    emits computes, in the monad [L] of [Rellume.v], so that running the model of
    a lifting function is running the code it lifts to.  Undefined behaviour and
    failed assertions are the outcome [None]; floating-point arithmetic is a
    parameter.  The tables the build generates for [fadec] are parameters.

    ** Parts, files and theorems

    - [Prelude.v]: integers, bits, the macros of [common.h], tactics and hints.
      [Machine.v]: memory, the process, system calls.
    - [Minilibc.v], [StreamIO.v], [Printf.v] ([minilibc.c]): system call
      wrappers, string and memory routines, [read_full] and [write_full] (they
      move exactly the bytes asked for despite short transfers), [printf_driver]
      with its two back ends (the output is the rendering of the format; the
      buffer bound of [snprintf] is respected).
    - [Memory.v] ([memory.c]): the arenas.  Allocations are aligned, inside the
      arena and disjoint, for single requests and for sequences; exactly which
      requests are refused.
    - [RtldTable.v] ([rtld_set], [rtld_resolve] of [rtld.c]): the open-addressing
      index refines a finite map; with one writer and one lookup interleaved
      access by access the lookup returns the old or the new value, and every
      schedule completes within two passes over the table.
    - [RtldReloc.v], [RtldStubs.v] ([rtld.c]): relocations of both hosts make
      the field denote symbol plus addend and change nothing else, an AArch64
      branch out of reach by way of a stub; PLT slots, stubs and patch stubs
      branch where they should (checked against a decoder of the emitted
      instructions).
    - [RtldElf.v], [RtldElfProofs.v], [RtldCopy.v] ([rtld.c]): the loader of
      relocatable objects.  Sections are placed disjointly and aligned in the
      code block, their contents are copied there, every defined global
      function is resolvable afterwards, symbol names round-trip.
    - [Translator.v], [TranslatorProofs.v], [TranslatorLive.v] ([translator.c],
      [shared/instrew-protocol.inc]): the connection.  A whole session answers
      each memory request with the memory contents and delivers the object;
      a request always returns; the reply to a request that faults half way is
      out of step with the protocol.
    - [State.v], [Dispatch.v], [DispatchProofs.v] ([state.h], [dispatch.c]): the
      dispatch loops only enter code that is the translation of the guest's
      program counter, the quick TLB agrees with the index, and the assembly
      dispatchers do what the C one does.
    - [MathF.v], [MathFProofs.v] ([math.c]): the rounding functions on bit
      patterns give the integer of their rounding direction.
    - [ElfLoader.v], [ElfLoaderProofs.v], [ElfLoaderFds.v] ([elf-loader.c]):
      mapped segments hold the file's bytes and zeros after them; no file
      descriptor stays open on any path.
    - [Signals.v], [SignalsProofs.v], [Emulate.v], [EmulateProofs.v],
      [EmulateFrame.v] ([emulate.c]): signal masks and dispositions; system
      calls passed on reach the host with the guest's arguments; [struct stat]
      is converted; emulation itself assigns to nothing the dispatcher relies on.
    - [Main.v], [MainProofs.v], [MainReloc.v], [MainReady.v] ([main.c] and
      [__start_main]): self-relocation, the guest's initial stack, and that the
      state in which [main] enters the dispatch loop satisfies what the
      theorems on the dispatcher assume.
    - [Frvdec.v], [FrvIsa.v], [FrvdecImm.v], [FrvdecProofs.v], [FrvRvc.v],
      [FrvdecFormat.v] ([frvdec.c], [frvdec.h]): against a reference table of the
      instruction set, every instruction with any operands is decoded to itself,
      every decoded instruction is well formed, every halfword is decoded to the
      expansion that a reference of the compressed instructions gives, the
      exceptions named, and the printed text is right and within its buffer.
    - [Farmdec.v] (integer groups), [FarmdecMem.v] (loads and stores),
      [FarmdecFp.v] (scalar floating point), [FarmdecSimd.v] (vectors),
      [FarmdecDecode.v] (the loop of [fad_decode]), with [FarmdecProofs.v],
      [FarmdecMemProofs.v], [FarmdecSimdProofs.v], [FarmdecWf.v] and
      [FarmdecDecodeProofs.v] ([farmdec/decode.c], [farmdec.h]): logical and
      vector immediates are the values the architecture defines, aliases of bit
      field and select instructions compute what the base instructions do,
      branches, loads and stores survive encoding and decoding, every decoded
      instruction is well formed, errors carry their text, and exactly the words
      with a reserved bit mask have no defined decoding.
    - [ServerCache.v], [ServerCacheProofs.v] ([server/cache.cc]): the cache.  The
      file of a hash holds what it held before or the complete object at every
      moment, whichever calls fail; what is put is found again.
    - [ServerConn.v], [ServerConnProofs.v] ([server/connection.cc]): the server's
      end of the connection.  Reading the client's memory delivers its bytes up
      to the first unreadable page, with one request for each page that is needed
      and not yet there; the descriptors on the client's command line
      arrive.
    - [ServerDecode.v], [ServerDecodeProofs.v] ([server/decode.cc]): the server
      sees the control flow the architectures define, for RISC-V instructions of
      32 bits, AArch64 branches and exceptions, and x86 jumps with an 8-bit
      offset.
    - [ServerTranslate.v], [ServerTranslateProofs.v] ([server/rewriteserver.cc]):
      predecoding ends and lists exactly the reachable instructions, in blocks;
      the bytes that are hashed do not determine the code.
    - [ServerSession.v]: the start of a session, and a translation from the
      client's request to the object in its buffer, with both ends.
    - [Fadec.v], [FadecProofs.v] ([fadec/decode.c]), [FadecEnc.v],
      [FadecEncProofs.v] ([fadec/encode.c]), [FadecRoundtrip.v]: whatever the
      tables, the decoder stays inside its buffer and appended bytes do not
      change its answer; the encoder ends and is all or nothing; what it writes
      for operands in a ModR/M byte is decoded to these operands.
    - [Rellume.v], [RellumeProofs.v] ([rellume/src/facet.cc], [regfile.cc],
      [lifter-base.cc], [callconv.cc]): the register file with its facets, and
      the relation [refines] between it and a hart.  [RvSem.v]: a reference
      semantics of RISC-V.  [RellumeRv64.v] ([rv64/lifter.cc]) with
      [RellumeRv64Proofs.v], [RellumeRv64Refine.v], [RellumeRv64Step.v]: the code
      lifted from an instruction, and from a block, refines it.
    - [RellumeA64.v] ([a64/main.cc], and of [a64/simd.cc] what it uses): the
      lifter for AArch64.  [A64Sem.v]: a reference semantics of the integer,
      branch, system, load, store and register move instructions.
      [RellumeA64Proofs.v] has the relation [arefines] and the rules for
      registers, flags and memory, [RellumeA64Alu.v] what sequences of builder
      calls compute, [RellumeA64Refine.v], [RellumeA64Data.v] and
      [RellumeA64Mem.v] the groups of instructions, [RellumeA64Step.v] the
      theorems on instructions and blocks, the conditions under which they hold
      ([exact]), and examples outside of them.
    - [RellumePacks.v], [RellumePacksProofs.v] ([OptimizePacks] of [callconv.cc],
      [basicblock.cc]): the analysis that removes stores of registers ends, and
      the stores that are left are enough.

    ** Fuel

    Loops over C data are bounded by what they run over: the bytes of memory
    ([strlen], [getauxval], the environment), the entries of a table (program
    headers, sections, symbols, the index), the bytes still to transfer
    ([read_full], [write_full], whose every round moves at least one byte).  The
    theorems show these bounds are enough where it matters.  [translator_get]
    takes the number of memory requests it serves; [translator_get_returns]
    bounds it by the bytes the server sends.  The dispatch loop is endless;
    the theorems hold for every number of rounds.  A relocation table whose
    size is no multiple of its entry size is the only case [Runaway] stands
    for.  Predecoding takes a bound on its rounds: more than twice the number of
    instructions that control flow reaches is shown to be enough.  The server's
    loop takes the number of messages.  The encoder of [fadec] takes at most as
    many turns as there are descriptions, [OptimizePacks] a number of rounds
    bounded by the blocks and registers; both bounds are shown to be enough.

    ** Not modelled

    Of the server: optimisation and code generation, its Polly passes and the
    plugins are C++ over LLVM and appear as parameters, like SHA-1; the creation
    of the client's process and the option parser are left out.  Of the lifter:
    x86-64 and the vector instructions of AArch64, the decoding of functions,
    the conventions that pass registers as arguments, and full facets (an option
    that is off).  Of [fadec]:
    [encode2.c] and [format.c], which are mostly generated.  Of the client:
    [fma] and [fmaf] of [math.c] (float expressions the compiler may contract)
    and its test driver, the assembly trap sequences, the register saving of the
    assembly dispatchers, [memset-aarch64.S], cache maintenance.  Concurrency is
    modelled where the code provides for it, in the index. *)

From Stdlib Require Import ZArith Lia Bool Ascii String.
From stdpp Require Import base numbers list list_numbers option gmap.

(** ** Machine integers

    A [w]-bit C integer is a [Z].  [wrap w] is the conversion to the unsigned
    type of width [w], [swrap w] the conversion to the signed type (two's
    complement, as GCC and Clang define it). *)

Open Scope list_scope.
Open Scope Z_scope.

Definition wrap (w x : Z) : Z := x `mod` 2 ^ w.
Definition swrap (w x : Z) : Z := (x + 2 ^ (w - 1)) `mod` 2 ^ w - 2 ^ (w - 1).

Abbreviation u8 := (wrap 8).
Abbreviation u16 := (wrap 16).
Abbreviation u32 := (wrap 32).
Abbreviation u64 := (wrap 64).
Abbreviation s32 := (swrap 32).
Abbreviation s64 := (swrap 64).

(** The value fits the unsigned (signed) type of width [w]. *)
Definition in_u (w x : Z) : Prop := 0 <= x < 2 ^ w.
Definition in_s (w x : Z) : Prop := - 2 ^ (w - 1) <= x < 2 ^ (w - 1).

#[global] Instance in_u_dec w x : Decision (in_u w x).
Proof. unfold in_u. apply _. Defined.
#[global] Instance in_s_dec w x : Decision (in_s w x).
Proof. unfold in_s. apply _. Defined.

(** ** Automation *)

Create HintDb cint.
Create Rewrite HintDb cint.
Create Rewrite HintDb bits.

(** Arithmetic with division and modulo by constants. *)
Ltac zdm := Z.div_mod_to_equations; lia.

(** Split a boolean test on integers into its two cases. *)
Ltac btest :=
  match goal with
  | |- context [?x =? ?y] => destruct (Z.eqb_spec x y)
  | |- context [?x <? ?y] => destruct (Z.ltb_spec x y)
  | |- context [?x <=? ?y] => destruct (Z.leb_spec x y)
  | H : context [?x =? ?y] |- _ => destruct (Z.eqb_spec x y)
  | H : context [?x <? ?y] |- _ => destruct (Z.ltb_spec x y)
  | H : context [?x <=? ?y] |- _ => destruct (Z.leb_spec x y)
  end.

(** ** Lemmas on machine integers *)

Lemma wrap_range w x : 0 <= w -> in_u w (wrap w x).
Proof. intros. apply Z.mod_pos_bound. lia. Qed.

Lemma wrap_small w x : in_u w x -> wrap w x = x.
Proof. apply Z.mod_small. Qed.

Lemma wrap_wrap w x : 0 <= w -> wrap w (wrap w x) = wrap w x.
Proof. intros. by apply wrap_small, wrap_range. Qed.

Lemma wrap_add_l w x y : wrap w (wrap w x + y) = wrap w (x + y).
Proof. apply Zplus_mod_idemp_l. Qed.

Lemma wrap_add_r w x y : wrap w (x + wrap w y) = wrap w (x + y).
Proof. apply Zplus_mod_idemp_r. Qed.

Lemma wrap_sub_l w x y : wrap w (wrap w x - y) = wrap w (x - y).
Proof. apply Zminus_mod_idemp_l. Qed.

Lemma wrap_sub_r w x y : wrap w (x - wrap w y) = wrap w (x - y).
Proof. apply Zminus_mod_idemp_r. Qed.

Lemma swrap_range w x : 0 < w -> in_s w (swrap w x).
Proof.
  intros. unfold in_s, swrap.
  pose proof (Z.mod_pos_bound (x + 2 ^ (w - 1)) (2 ^ w)) as Hm.
  replace (2 ^ w) with (2 * 2 ^ (w - 1)) in *
    by (rewrite <- Z.pow_succ_r by lia; f_equal; lia).
  lia.
Qed.

Lemma swrap_small w x : 0 < w -> in_s w x -> swrap w x = x.
Proof.
  unfold in_s, swrap. intros Hw Hx.
  replace (2 ^ w) with (2 * 2 ^ (w - 1)) by (rewrite <- Z.pow_succ_r by lia; f_equal; lia).
  rewrite Z.mod_small; lia.
Qed.

Lemma swrap_wrap w x : swrap w (wrap w x) = swrap w x.
Proof. unfold swrap, wrap. by rewrite Zplus_mod_idemp_l. Qed.

Lemma wrap_swrap w x : wrap w (swrap w x) = wrap w x.
Proof.
  unfold swrap, wrap. rewrite Zminus_mod_idemp_l. f_equal. lia.
Qed.

(** A conversion to the unsigned type followed by one to the signed type is
    the identity on values of the signed type. *)
Lemma swrap_of_wrap w x : 0 < w -> in_s w x -> swrap w (wrap w x) = x.
Proof. intros. rewrite swrap_wrap. by apply swrap_small. Qed.

#[export] Hint Rewrite wrap_add_l wrap_add_r wrap_sub_l wrap_sub_r swrap_wrap wrap_swrap : cint.
#[export] Hint Resolve wrap_range swrap_range : cint.

(** ** Bit fields *)

(** [UBFX(val, start, end)]: the bits [start..end] of [val]. *)
Definition ubfx (val start_ end_ : Z) : Z :=
  Z.land (Z.shiftr val start_) (Z.shiftl 1 (end_ - start_ + 1) - 1).

Lemma ubfx_div v a b :
  0 <= a <= b -> ubfx v a b = (v / 2 ^ a) `mod` 2 ^ (b - a + 1).
Proof.
  intros. unfold ubfx.
  rewrite Z.shiftl_mul_pow2, Z.mul_1_l by lia.
  replace (2 ^ (b - a + 1) - 1) with (Z.ones (b - a + 1))
    by (rewrite Z.ones_equiv; lia).
  by rewrite Z.land_ones, Z.shiftr_div_pow2 by lia.
Qed.

Lemma ubfx_range v a b : 0 <= a <= b -> in_u (b - a + 1) (ubfx v a b).
Proof.
  intros. rewrite ubfx_div by lia. apply Z.mod_pos_bound. lia.
Qed.

(** The index of the highest set bit plus one, [8*sizeof(x) - clz(x)]. *)
Definition bit_length (x : Z) : Z := if x =? 0 then 0 else Z.log2 x + 1.

Lemma bits_above w x i : 0 <= w -> in_u w x -> w <= i -> Z.testbit x i = false.
Proof.
  unfold in_u. intros Hw Hx Hi. destruct (Z.eqb_spec x 0) as [-> | Hne].
  - apply Z.bits_0.
  - apply Z.bits_above_log2; [lia|].
    apply Z.log2_lt_pow2; [lia|].
    pose proof (Z.pow_le_mono_r 2 w i). lia.
Qed.

Lemma testbit_wrap w x i :
  0 <= w -> Z.testbit (wrap w x) i = Z.testbit x i && (i <? w).
Proof.
  intros Hw. unfold wrap. destruct (Z.ltb_spec i w) as [Hi|Hi].
  - destruct (Z.leb_spec 0 i).
    + rewrite Z.mod_pow2_bits_low by lia. by rewrite andb_true_r.
    + rewrite !Z.testbit_neg_r by lia. done.
  - rewrite Z.mod_pow2_bits_high by lia. by rewrite andb_false_r.
Qed.

Lemma testbit_ubfx v a b i :
  0 <= a <= b -> 0 <= i -> Z.testbit (ubfx v a b) i = Z.testbit v (i + a) && (i <? b - a + 1).
Proof.
  intros Hab Hi. rewrite ubfx_div by lia. fold (wrap (b - a + 1) (v / 2 ^ a)).
  rewrite testbit_wrap by lia. by rewrite <- Z.shiftr_div_pow2, Z.shiftr_spec by lia.
Qed.

Lemma testbit_swrap w x i :
  0 < w -> 0 <= i -> Z.testbit (swrap w x) i = Z.testbit x (Z.min i (w - 1)).
Proof.
  intros Hw Hi. destruct (Z.ltb_spec i w) as [Hlt|Hge].
  - assert (Z.testbit (wrap w (swrap w x)) i = Z.testbit (wrap w x) i) as E
      by (by rewrite wrap_swrap).
    rewrite !testbit_wrap in E by lia.
    rewrite (proj2 (Z.ltb_lt i w) Hlt), !andb_true_r in E.
    rewrite E. destruct (Z.eqb_spec i (w - 1)); f_equal; lia.
  - rewrite Z.min_r by lia.
    pose proof (swrap_range w x Hw) as Hr. unfold in_s in Hr.
    assert (Z.testbit (swrap w x) (w - 1) = Z.testbit x (w - 1)) as E.
    { assert (Z.testbit (wrap w (swrap w x)) (w - 1) = Z.testbit (wrap w x) (w - 1)) as E
        by (by rewrite wrap_swrap).
      rewrite !testbit_wrap in E by lia.
      rewrite (proj2 (Z.ltb_lt (w - 1) w)), !andb_true_r in E by lia. done. }
    rewrite <- E. clear E. set (y := swrap w x) in *.
    assert (2 ^ (w - 1) <= 2 ^ i) by (apply Z.pow_le_mono_r; lia).
    rewrite !Z.testbit_eqb by lia.
    destruct (Z.leb_spec 0 y).
    + rewrite !Z.div_small by lia. done.
    + replace (y / 2 ^ i) with (-1) by (apply Z.div_unique with (y + 2 ^ i); lia).
      replace (y / 2 ^ (w - 1)) with (-1)
        by (apply Z.div_unique with (y + 2 ^ (w - 1)); lia).
      done.
Qed.

(** Narrowing conversions compose. *)
Lemma wrap_wrap_le w w' x : 0 <= w <= w' -> wrap w (wrap w' x) = wrap w x.
Proof.
  intros Hw. apply Z.bits_inj'. intros i Hi. rewrite !testbit_wrap by lia.
  destruct (Z.ltb_spec i w), (Z.ltb_spec i w'); rewrite ?andb_true_r, ?andb_false_r; done || lia.
Qed.

Lemma swrap_wrap_le w w' x : 0 <= w <= w' -> swrap w (wrap w' x) = swrap w x.
Proof. intros. by rewrite <- swrap_wrap, wrap_wrap_le, swrap_wrap by lia. Qed.

(** Equality of two integers from equality of their bits. *)
Lemma bits_eq x y : (forall i, 0 <= i -> Z.testbit x i = Z.testbit y i) -> x = y.
Proof. apply Z.bits_inj'. Qed.

#[export] Hint Rewrite Z.land_spec Z.lor_spec Z.lxor_spec Z.ldiff_spec Z.bits_0 : bits.
#[export] Hint Rewrite Z.lnot_spec Z.shiftr_spec Z.shiftl_spec using lia : bits.
#[export] Hint Rewrite testbit_wrap testbit_swrap using lia : bits.

(** Disjoint bit patterns add up. *)
Lemma lor_add_disjoint x y : Z.land x y = 0 -> Z.lor x y = x + y.
Proof.
  intros H. pose proof (Z.add_lor_land x y). lia.
Qed.

(** A value below [2^k] and a multiple of [2^k] share no bit. *)
Lemma lor_shiftl_add x y k :
  0 <= k -> 0 <= x < 2 ^ k -> Z.lor x (Z.shiftl y k) = x + y * 2 ^ k.
Proof.
  intros Hk Hx. rewrite lor_add_disjoint.
  - by rewrite Z.shiftl_mul_pow2 by lia.
  - apply bits_eq. intros i Hi. autorewrite with bits.
    destruct (Z.ltb_spec i k).
    + rewrite (Z.testbit_neg_r y) by lia. by rewrite andb_false_r.
    + rewrite (bits_above k x i) by (done || lia). done.
Qed.

(** ** Alignment macros of [common.h] *)

(** [ALIGN_DOWN(v,a)] and [ALIGN_UP(v,a)] at 64 bits. *)
Definition ALIGN_DOWN (v a : Z) : Z := Z.land v (u64 (Z.lnot (u64 (a - 1)))).
Definition ALIGN_UP (v a : Z) : Z :=
  Z.land (u64 (v + u64 (a - 1))) (u64 (Z.lnot (u64 (a - 1)))).

(** [BAD_ADDR(a)]: the pointer encodes a negative error number. *)
Definition BAD_ADDR (a : Z) : bool := 0xfffffffffffff000 <? u64 a.

Definition is_pow2 (a : Z) : Prop := exists k, 0 <= k < 64 /\ a = 2 ^ k.

Lemma land_lnot_ones v k :
  0 <= k <= 64 -> in_u 64 v -> Z.land v (u64 (Z.lnot (Z.ones k))) = v - v `mod` 2 ^ k.
Proof.
  intros Hk Hv.
  replace (v - v `mod` 2 ^ k) with (Z.shiftl (Z.shiftr v k) k)
    by (rewrite Z.shiftl_mul_pow2, Z.shiftr_div_pow2 by lia; pose proof (Z.div_mod v (2 ^ k)); lia).
  apply bits_eq. intros i Hi. autorewrite with bits.
  destruct (Z.ltb_spec i k) as [H1|H1].
  - rewrite Z.ones_spec_low by lia. rewrite (Z.testbit_neg_r (Z.shiftr v k)) by lia.
    by rewrite andb_false_r.
  - rewrite Z.ones_spec_high by lia. rewrite Z.shiftr_spec by lia.
    replace (i - k + k) with i by lia.
    destruct (Z.ltb_spec i 64) as [H2|H2].
    + by rewrite andb_true_r.
    + by rewrite (bits_above 64 v i) by (done || lia).
Qed.

Lemma align_mask a k :
  0 <= k < 64 -> a = 2 ^ k -> u64 (Z.lnot (u64 (a - 1))) = u64 (Z.lnot (Z.ones k)).
Proof.
  intros Hk ->. do 2 f_equal. rewrite Z.ones_equiv, wrap_small; [lia|].
  unfold in_u. pose proof (Z.pow_lt_mono_r 2 k 64). lia.
Qed.

Lemma ALIGN_DOWN_spec v a :
  is_pow2 a -> in_u 64 v -> ALIGN_DOWN v a = v - v `mod` a.
Proof.
  intros (k & Hk & ->) Hv. unfold ALIGN_DOWN.
  rewrite (align_mask _ k) by done. apply land_lnot_ones; [lia | done].
Qed.

(** Without 64-bit overflow, [ALIGN_UP] is the least multiple not below. *)
Lemma ALIGN_UP_spec v a :
  is_pow2 a -> 0 <= v -> v + a <= 2 ^ 64 ->
  let r := ALIGN_UP v a in v <= r < v + a /\ r `mod` a = 0.
Proof.
  intros (k & Hk & ->) Hv Hlt. cbn zeta. unfold ALIGN_UP.
  assert (0 < 2 ^ k) by lia.
  rewrite (align_mask _ k) by done.
  rewrite (wrap_small 64 (2 ^ k - 1)) by (unfold in_u; lia).
  rewrite (wrap_small 64 (v + (2 ^ k - 1))) by (unfold in_u; lia).
  rewrite land_lnot_ones by (unfold in_u; lia).
  set (x := v + (2 ^ k - 1)).
  pose proof (Z.mod_pos_bound x (2 ^ k)).
  pose proof (Z.div_mod x (2 ^ k)) as E.
  split; [lia|].
  replace (x - x `mod` 2 ^ k) with (x / 2 ^ k * 2 ^ k) by lia.
  apply Z_mod_mult.
Qed.

(** The non-zero values that pass the test [a & (a - 1)] of the allocator. *)
Lemma land_pred_pow2 a :
  0 < a < 2 ^ 64 -> Z.land a (a - 1) = 0 -> is_pow2 a.
Proof.
  intros Ha Hl. exists (Z.log2 a).
  pose proof (Z.log2_spec a ltac:(lia)) as Hs.
  assert (0 <= Z.log2 a < 64).
  { split; [apply Z.log2_nonneg|]. apply Z.log2_lt_pow2; lia. }
  split; [done|].
  destruct (Z.eqb_spec a (2 ^ Z.log2 a)) as [E|Hne]; [done|].
  exfalso. assert (2 ^ Z.log2 a <= a - 1) by lia.
  assert (Z.log2 (a - 1) = Z.log2 a) as El.
  { apply Z.log2_unique; [lia|]. lia. }
  assert (Z.testbit (Z.land a (a - 1)) (Z.log2 a) = true) as Hb.
  { rewrite Z.land_spec. rewrite Z.bit_log2 by lia.
    rewrite <- El at 1. apply Z.bit_log2. lia. }
  rewrite Hl, Z.bits_0 in Hb. done.
Qed.

(** ** Error numbers of the Linux ABI used by the sources *)

Definition EPERM : Z := 1.
Definition ENOENT : Z := 2.
Definition EIO : Z := 5.
Definition ENOEXEC : Z := 8.
Definition EBADF : Z := 9.
Definition ENOMEM : Z := 12.
Definition EFAULT : Z := 14.
Definition EEXIST : Z := 17.
Definition EINVAL : Z := 22.
Definition ENOSPC : Z := 28.
Definition ENOSYS : Z := 38.
Definition EPROTO : Z := 71.
Definition ELIBBAD : Z := 80.
Definition EOPNOTSUPP : Z := 95.

(** ** String literals as bytes *)

Fixpoint bytes_of_string (s : String.string) : list Z :=
  match s with
  | String.EmptyString => []
  | String.String c s' => Z.of_N (N_of_ascii c) :: bytes_of_string s'
  end.

(** ** Tables by number *)

Fixpoint assocZ {A} (m : Z) (l : list (Z * A)) : option A :=
  match l with [] => None | (k, a) :: l => if k =? m then Some a else assocZ m l end.

Lemma assocZ_Forall {A} (P : Z * A -> Prop) m l a : Forall P l -> assocZ m l = Some a -> P (m, a).
Proof.
  induction 1 as [|[k x] l Hp _ IH]; [done|]. cbn. destruct (Z.eqb_spec k m) as [->|]; [|done]. by intros [= ->].
Qed.
