(* ===== verification/Machine.v ===== *)
(** * The process: memory, the kernel interface and the state monad

    The client is a freestanding process: it owns a flat byte memory and
    reaches the outside world only through system calls ([client/minilibc.c]
    wraps each one in a [syscallN] function).  This file holds that memory,
    the kernel as a parameter, the state every function threads, and the
    interface (a class with laws) that client theorems assume of the kernel's
    byte streams. *)

From Stdlib Require Import ZArith Lia.
From stdpp Require Import base numbers list list_numbers option gmap.
From S2P Require Import Prelude.

(** ** Byte memory *)

(** A byte that was never written reads as zero (fresh anonymous pages);
    page faults are outside the model. *)
Abbreviation memory := (gmap Z Z).

Definition getb (m : memory) (a : Z) : Z := default 0 (m !! a).

Fixpoint load_bytes (m : memory) (a : Z) (n : nat) : list Z :=
  match n with
  | O => []
  | S n' => getb m a :: load_bytes m (a + 1) n'
  end.

Fixpoint store_bytes (m : memory) (a : Z) (bs : list Z) : memory :=
  match bs with
  | [] => m
  | b :: bs' => store_bytes (<[a := b]> m) (a + 1) bs'
  end.

(** Little-endian loads and stores of [n] bytes. *)
Definition loadZ (m : memory) (n : nat) (a : Z) : Z := little_endian_to_Z 8 (load_bytes m a n).
Definition storeZ (m : memory) (n : nat) (a v : Z) : memory :=
  store_bytes m a (Z_to_little_endian (Z.of_nat n) 8 v).

(** Every stored cell is a byte. *)
Definition mem_ok (m : memory) : Prop := map_Forall (fun _ b => in_u 8 b) m.

Lemma length_load_bytes m a n : length (load_bytes m a n) = n.
Proof. revert a; induction n as [|n IH]; intros a; simpl; [done|]. by rewrite IH. Qed.

Lemma load_bytes_lookup m a n i :
  (i < n)%nat -> load_bytes m a n !! i = Some (getb m (a + Z.of_nat i)).
Proof.
  revert a i; induction n as [|n IH]; intros a [|i] Hi; simpl; try lia.
  - do 2 f_equal. lia.
  - rewrite IH by lia. do 2 f_equal. lia.
Qed.

Lemma load_bytes_app m a n1 n2 :
  load_bytes m a (n1 + n2) = load_bytes m a n1 ++ load_bytes m (a + Z.of_nat n1) n2.
Proof.
  revert a; induction n1 as [|n1 IH]; intros a; simpl.
  - f_equal. lia.
  - rewrite IH. do 3 f_equal. lia.
Qed.

Lemma getb_store_bytes m a bs x :
  getb (store_bytes m a bs) x =
  if decide (a <= x < a + Z.of_nat (length bs))
  then default 0 (bs !! Z.to_nat (x - a)) else getb m x.
Proof.
  revert m a; induction bs as [|b bs IH]; intros m a; simpl.
  - destruct (decide _); [lia | done].
  - rewrite IH. unfold getb. destruct (decide (a + 1 <= x < _)) as [Hin|Hout].
    + rewrite decide_True by lia.
      replace (Z.to_nat (x - a)) with (S (Z.to_nat (x - (a + 1)))) by lia. done.
    + destruct (decide (x = a)) as [->|Hne].
      * rewrite lookup_insert_eq, decide_True by lia. by rewrite Z.sub_diag.
      * rewrite lookup_insert_ne by done. rewrite decide_False by lia. done.
Qed.

Lemma getb_store_in m a bs x :
  a <= x < a + Z.of_nat (length bs) ->
  getb (store_bytes m a bs) x = default 0 (bs !! Z.to_nat (x - a)).
Proof. intros. rewrite getb_store_bytes, decide_True by lia. done. Qed.

Lemma getb_store_out m a bs x :
  x < a \/ a + Z.of_nat (length bs) <= x -> getb (store_bytes m a bs) x = getb m x.
Proof. intros. rewrite getb_store_bytes, decide_False by lia. done. Qed.

(** Two memories that agree on a range load the same bytes from it. *)
Lemma load_bytes_ext m1 m2 a n :
  (forall x, a <= x < a + Z.of_nat n -> getb m1 x = getb m2 x) ->
  load_bytes m1 a n = load_bytes m2 a n.
Proof.
  revert a; induction n as [|n IH]; intros a H; simpl; [done|].
  f_equal; [apply H; lia|]. apply IH. intros; apply H; lia.
Qed.

Lemma load_store_disjoint m a bs b n :
  b + Z.of_nat n <= a \/ a + Z.of_nat (length bs) <= b ->
  load_bytes (store_bytes m a bs) b n = load_bytes m b n.
Proof. intros H. apply load_bytes_ext. intros x Hx. apply getb_store_out. lia. Qed.

Lemma load_store_same m a bs : load_bytes (store_bytes m a bs) a (length bs) = bs.
Proof.
  apply list_eq. intros i. destruct (decide (i < length bs)%nat) as [Hi|Hi].
  - rewrite load_bytes_lookup, getb_store_in by lia.
    replace (Z.to_nat _) with i by lia.
    destruct (bs !! i) eqn:E; [done|]. apply lookup_ge_None in E. lia.
  - rewrite !lookup_ge_None_2; rewrite ?length_load_bytes; done || lia.
Qed.

Lemma load_store_same' m a bs n : length bs = n -> load_bytes (store_bytes m a bs) a n = bs.
Proof. intros <-. apply load_store_same. Qed.

(** A sub-range of a stored block. *)
Lemma load_store_inside m a bs off n :
  0 <= off -> off + Z.of_nat n <= Z.of_nat (length bs) ->
  load_bytes (store_bytes m a bs) (a + off) n = take n (drop (Z.to_nat off) bs).
Proof.
  intros H0 H1. apply list_eq. intros i. destruct (decide (i < n)%nat) as [Hi|Hi].
  - rewrite load_bytes_lookup, getb_store_in by lia.
    rewrite lookup_take_lt, lookup_drop by lia.
    replace (Z.to_nat (a + off + Z.of_nat i - a)) with (Z.to_nat off + i)%nat by lia.
    destruct (bs !! _) eqn:E; [done|]. apply lookup_ge_None in E. lia.
  - rewrite !lookup_ge_None_2; rewrite ?length_load_bytes, ?length_take; done || lia.
Qed.

Lemma length_le n v : length (Z_to_little_endian (Z.of_nat n) 8 v) = n.
Proof. apply Nat2Z.inj. apply length_Z_to_little_endian. lia. Qed.

Lemma loadZ_ext m1 m2 a k :
  (forall x, a <= x < a + Z.of_nat k -> getb m1 x = getb m2 x) -> loadZ m1 k a = loadZ m2 k a.
Proof. intros Hx. unfold loadZ. f_equal. by apply load_bytes_ext. Qed.

Lemma store_bytes_app m a bs1 bs2 :
  store_bytes m a (bs1 ++ bs2) =
  store_bytes (store_bytes m a bs1) (a + Z.of_nat (length bs1)) bs2.
Proof.
  revert m a; induction bs1 as [|b bs1 IH]; intros m a; simpl.
  - f_equal. lia.
  - rewrite IH. f_equal. lia.
Qed.

Lemma loadZ_storeZ m n a v : loadZ (storeZ m n a v) n a = wrap (8 * Z.of_nat n) v.
Proof.
  unfold loadZ, storeZ, wrap. rewrite <- (length_le n v) at 2.
  rewrite load_store_same, little_endian_to_Z_to_little_endian by lia.
  f_equal. f_equal. lia.
Qed.

Lemma loadZ_storeZ_disjoint m n k a b v :
  b + Z.of_nat k <= a \/ a + Z.of_nat n <= b ->
  loadZ (storeZ m n a v) k b = loadZ m k b.
Proof.
  intros H. unfold loadZ, storeZ. rewrite load_store_disjoint; [done|].
  rewrite length_le. done.
Qed.

Lemma getb_ok m a : mem_ok m -> in_u 8 (getb m a).
Proof.
  intros Hm. unfold getb. destruct (m !! a) as [b|] eqn:E; simpl.
  - by apply (Hm a).
  - unfold in_u. lia.
Qed.

Lemma load_bytes_ok m a n : mem_ok m -> Forall (fun b => in_u 8 b) (load_bytes m a n).
Proof.
  intros Hm. revert a; induction n as [|n IH]; intros a; simpl; constructor; auto using getb_ok.
Qed.

Lemma loadZ_range m n a : mem_ok m -> in_u (8 * Z.of_nat n) (loadZ m n a).
Proof.
  intros Hm. unfold loadZ, in_u.
  pose proof (little_endian_to_Z_bound 8 (load_bytes m a n)) as Hb.
  rewrite length_load_bytes in Hb.
  replace (8 * Z.of_nat n) with (Z.of_nat n * 8) by lia. apply Hb; [lia|].
  by apply load_bytes_ok.
Qed.

Lemma mem_ok_store m a bs :
  mem_ok m -> Forall (fun b => in_u 8 b) bs -> mem_ok (store_bytes m a bs).
Proof.
  intros Hm Hbs. revert m a Hm; induction Hbs as [|b bs Hb _ IH]; intros m a Hm; simpl; [done|].
  apply IH. by apply map_Forall_insert_2.
Qed.

Lemma mem_ok_storeZ m n a v : mem_ok m -> mem_ok (storeZ m n a v).
Proof. intros. apply mem_ok_store; [done|]. apply Z_to_little_endian_bound; lia. Qed.

#[export] Hint Resolve getb_ok loadZ_range mem_ok_store mem_ok_storeZ load_bytes_ok : cint.

(** ** The state monad

    Every function of the client that touches memory or the kernel is a state
    transformer; C return codes stay explicit integers. *)

Definition ST (S A : Type) : Type := S -> A * S.

#[global] Instance ST_ret S : MRet (ST S) := fun A a s => (a, s).
#[global] Instance ST_bind S : MBind (ST S) :=
  fun A B f c s => let '(a, s') := c s in f a s'.

Lemma bind_unfold {S A B} (c : ST S A) (f : A -> ST S B) s a s' :
  c s = (a, s') -> (c ≫= f) s = f a s'.
Proof. intros H. unfold mbind, ST_bind. by rewrite H. Qed.

(** ** System calls *)

(** The calls the sources name, [__NR_x] in [linux/unistd.h]. *)
Inductive Sysno :=
  | NR_read | NR_write | NR_close | NR_lseek | NR_mmap | NR_mprotect | NR_munmap | NR_brk
  | NR_ioctl | NR_pread64 | NR_pwrite64 | NR_readv | NR_writev | NR_select
  | NR_sched_yield | NR_mremap | NR_madvise | NR_dup | NR_dup3 | NR_getpid | NR_getppid
  | NR_gettid | NR_socket | NR_connect | NR_uname | NR_truncate | NR_ftruncate | NR_getcwd
  | NR_chdir | NR_fchdir | NR_fchmod | NR_fchown | NR_gettimeofday | NR_getrlimit | NR_sysinfo
  | NR_getuid | NR_getgid | NR_geteuid | NR_getegid | NR_getgroups | NR_setgroups | NR_statfs
  | NR_chroot | NR_getxattr | NR_lgetxattr | NR_fgetxattr | NR_futex | NR_getdents64
  | NR_set_tid_address | NR_fadvise64 | NR_clock_gettime | NR_clock_getres
  | NR_clock_nanosleep | NR_nanosleep | NR_fchownat | NR_fchmodat | NR_pselect6 | NR_ppoll
  | NR_set_robust_list | NR_get_robust_list | NR_pipe2 | NR_prlimit64 | NR_getrandom
  | NR_openat | NR_faccessat | NR_renameat | NR_renameat2 | NR_mkdirat | NR_unlinkat
  | NR_readlinkat | NR_newfstatat | NR_fstat | NR_fcntl | NR_exit | NR_exit_group
  | NR_rt_sigaction | NR_rt_sigprocmask | NR_rt_sigpending | NR_rt_sigsuspend | NR_kill
  | NR_tgkill | NR_wait4 | NR_execve | NR_arch_prctl.

#[global] Instance Sysno_eq_dec : EqDecision Sysno.
Proof. solve_decision. Defined.

(** The kernel: its result is the [size_t] left in the return register; it may
    read and write the memory of the process and its own state [W]. *)
Class Kernel (W : Type) :=
  kernel : Sysno -> list Z -> memory * W -> Z * (memory * W).

(** ** The globals of the client *)

(** [struct Arena] of [client/memory.c]. *)
Record Arena := mkArena { start : Z; end_ : Z; brk : Z; brkp : Z }.

(** The process: memory, kernel, the two arenas of [memory.c], the page size
    [minilibc.c] took from the auxiliary vector, and the first free address of
    the stack area that holds locals whose address is taken. *)
Record Proc (W : Type) := mkProc {
  mem : memory;
  kst : W;
  main_arena_code : Arena;
  main_arena_data : Arena;
  pagesize : Z;
  sp : Z;
}.
Arguments mkProc {W}.
Arguments mem {W}.
Arguments kst {W}.
Arguments main_arena_code {W}.
Arguments main_arena_data {W}.
Arguments pagesize {W}.
Arguments sp {W}.

Definition set_mem {W} (m : memory) (p : Proc W) : Proc W :=
  mkProc m (kst p) (main_arena_code p) (main_arena_data p) (pagesize p) (sp p).
Definition set_kernel {W} (m : memory) (w : W) (p : Proc W) : Proc W :=
  mkProc m w (main_arena_code p) (main_arena_data p) (pagesize p) (sp p).
Definition set_code {W} (a : Arena) (p : Proc W) : Proc W :=
  mkProc (mem p) (kst p) a (main_arena_data p) (pagesize p) (sp p).
Definition set_data {W} (a : Arena) (p : Proc W) : Proc W :=
  mkProc (mem p) (kst p) (main_arena_code p) a (pagesize p) (sp p).

Definition set_sp {W} (a : Z) (p : Proc W) : Proc W :=
  mkProc (mem p) (kst p) (main_arena_code p) (main_arena_data p) (pagesize p) a.

(** [syscallN]: trap into the kernel. *)
Definition syscall {W} `{Kernel W} (nr : Sysno) (args : list Z) : ST (Proc W) Z :=
  fun p => let '(r, (m, w)) := kernel nr args (mem p, kst p) in
           (u64 r, set_kernel m w p).

Definition gets {W A} (f : Proc W -> A) : ST (Proc W) A := fun p => (f p, p).
Definition modify {W} (f : Proc W -> Proc W) : ST (Proc W) unit := fun p => (tt, f p).

(** A local variable of [n] bytes whose address is taken. *)
Definition with_local {W A} (n : Z) (f : Z -> ST (Proc W) A) : ST (Proc W) A :=
  a ← gets sp;
  modify (set_sp (a + n));;
  r ← f a;
  modify (set_sp a);;
  mret r.

(** A system call leaves the globals of the client alone. *)
Lemma syscall_globals {W} `{Kernel W} nr args (p : Proc W) :
  let p' := (syscall nr args p).2 in
  main_arena_code p' = main_arena_code p /\ main_arena_data p' = main_arena_data p /\
  pagesize p' = pagesize p /\ sp p' = sp p.
Proof. unfold syscall. destruct (kernel _ _ _) as [r [m w]]. done. Qed.

(** ** What the client relies on of the kernel *)

(** Documented behaviour of [mmap(2)] and [mprotect(2)] for page size [ps]:
    error returns are small negative numbers, [mprotect] does not touch the
    contents of memory, and a mapping starts at a page boundary of the user
    address space. *)
Class KernelAbi (W : Type) `{Kernel W} (ps : Z) : Prop := {
  abi_pagesize : is_pow2 ps /\ 4096 <= ps <= 65536;
  abi_mprotect : forall args st r st',
    kernel NR_mprotect args st = (r, st') -> s32 r < 0 -> -4096 < s32 r;
  abi_mprotect_mem : forall args st r st',
    kernel NR_mprotect args st = (r, st') -> st'.1 = st.1;
  abi_mmap : forall addr len prot flags fd off st r st',
    kernel NR_mmap [addr; len; prot; flags; fd; off] st = (r, st') ->
    BAD_ADDR r = false -> u64 r `mod` ps = 0 /\ u64 r + len <= 2 ^ 57;
}.

(** Byte streams (pipes, sockets) behind file descriptors.  [incoming w fd] are
    the bytes the peer has sent and will send on [fd] before closing it,
    [outgoing w fd] the bytes written so far; [readable w a n] says that the
    kernel can copy [n] bytes from address [a].  A read or write of a positive
    number of bytes transfers at least one byte and at most the bytes asked
    for, a read at the end of the stream returns 0, a write whose first byte is
    not readable fails with [EFAULT] and writes nothing, and [mprotect] moves no
    bytes. *)
Class StreamKernel (W : Type) `{Kernel W} := {
  incoming : W -> Z -> list Z;
  outgoing : W -> Z -> list Z;
  readable : W -> Z -> Z -> Prop;
  stream_read : forall fd buf n m w,
    0 < n -> incoming w fd <> [] ->
    exists (r : nat) w',
      (0 < r <= length (incoming w fd))%nat /\ Z.of_nat r <= n /\
      kernel NR_read [fd; buf; n] (m, w) =
        (Z.of_nat r, (store_bytes m buf (take r (incoming w fd)), w')) /\
      incoming w' fd = drop r (incoming w fd) /\
      (forall fd', fd' <> fd -> incoming w' fd' = incoming w fd') /\
      (forall fd', outgoing w' fd' = outgoing w fd') /\
      (forall a k, readable w' a k <-> readable w a k);
  stream_eof : forall fd buf n m w,
    0 < n -> incoming w fd = [] ->
    exists w', kernel NR_read [fd; buf; n] (m, w) = (0, (m, w')) /\
      (forall fd', incoming w' fd' = incoming w fd') /\
      (forall fd', outgoing w' fd' = outgoing w fd') /\
      (forall a k, readable w' a k <-> readable w a k);
  stream_write : forall fd buf n m w,
    0 < n -> readable w buf n ->
    exists (r : nat) w',
      (0 < r)%nat /\ Z.of_nat r <= n /\
      kernel NR_write [fd; buf; n] (m, w) = (Z.of_nat r, (m, w')) /\
      outgoing w' fd = outgoing w fd ++ load_bytes m buf r /\
      (forall fd', fd' <> fd -> outgoing w' fd' = outgoing w fd') /\
      (forall fd', incoming w' fd' = incoming w fd') /\
      (forall a k, readable w' a k <-> readable w a k);
  stream_fault : forall fd buf n m w,
    0 < n -> ~ readable w buf 1 ->
    exists w', kernel NR_write [fd; buf; n] (m, w) = (- EFAULT, (m, w')) /\
      (forall fd', incoming w' fd' = incoming w fd') /\
      (forall fd', outgoing w' fd' = outgoing w fd') /\
      (forall a k, readable w' a k <-> readable w a k);
  stream_mprotect : forall args m w r st,
    kernel NR_mprotect args (m, w) = (r, st) ->
    (forall fd, incoming st.2 fd = incoming w fd) /\ (forall fd, outgoing st.2 fd = outgoing w fd);
  readable_suffix : forall w a n k,
    0 <= k <= n -> readable w a n -> readable w (a + k) (n - k);
}.
