(* ===== verification/Loopback.v ===== *)
(** * A concrete kernel

    A small executable kernel, used to run the model on concrete inputs and to
    show that the laws assumed of the kernel are satisfiable: pipes with
    bounded transfers, an address limit above which the process has no memory,
    and a trivial [mmap]/[mprotect]. *)

From Stdlib Require Import ZArith Lia.
From stdpp Require Import base numbers list list_numbers option gmap.
From S2P Require Import Prelude Machine.

Record Pipes := mkPipes {
  lk_in : gmap Z (list Z);
  lk_out : gmap Z (list Z);
  lk_chunk : nat;              (* one less than the bytes moved by one call *)
  lk_limit : Z;                (* addresses from here on are not mapped *)
}.

Definition lk_incoming (w : Pipes) (fd : Z) : list Z := default [] (lk_in w !! fd).
Definition lk_outgoing (w : Pipes) (fd : Z) : list Z := default [] (lk_out w !! fd).
Definition lk_readable (w : Pipes) (a n : Z) : Prop := 0 < n -> a + n <= lk_limit w.

Definition lk_read (fd buf n : Z) (st : memory * Pipes) : Z * (memory * Pipes) :=
  let '(m, w) := st in
  let bs := lk_incoming w fd in
  let r := Nat.min (Z.to_nat n) (Nat.min (S (lk_chunk w)) (length bs)) in
  (Z.of_nat r, (store_bytes m buf (take r bs),
    mkPipes (<[fd := drop r bs]> (lk_in w)) (lk_out w) (lk_chunk w) (lk_limit w))).

Definition lk_write (fd buf n : Z) (st : memory * Pipes) : Z * (memory * Pipes) :=
  let '(m, w) := st in
  if (0 <? n) && (lk_limit w <=? buf) then (- EFAULT, (m, w))
  else
    let r := Nat.min (Z.to_nat (Z.min n (lk_limit w - buf))) (S (lk_chunk w)) in
    (Z.of_nat r, (m, mkPipes (lk_in w) (<[fd := lk_outgoing w fd ++ load_bytes m buf r]> (lk_out w))
                       (lk_chunk w) (lk_limit w))).

Definition lk_mmap (addr len : Z) : Z :=
  if (addr `mod` 4096 =? 0) && (0 <? addr) && (0 <=? len) && (addr + len <=? 2 ^ 57)
  then addr else - ENOMEM.

#[global] Instance loopback : Kernel Pipes := fun nr args st =>
  match nr, args with
  | NR_read, [fd; buf; n] => lk_read fd buf n st
  | NR_write, [fd; buf; n] => lk_write fd buf n st
  | NR_mmap, [addr; len; _; _; _; _] => (lk_mmap addr len, st)
  | NR_mprotect, _ => (0, st)
  | NR_close, _ => (0, st)
  | NR_munmap, _ => (0, st)
  | _, _ => (- ENOSYS, st)
  end.

#[global] Instance loopback_abi : KernelAbi Pipes 4096.
Proof.
  split.
  - split; [exists 12; lia | lia].
  - intros args st r st' Hk. simpl in Hk. injection Hk as <- _.
    by vm_compute.
  - intros args st r st' Hk. simpl in Hk. by injection Hk as _ <-.
  - intros addr len prot flags fd off st r st' Hk. simpl in Hk. injection Hk as <- _.
    unfold lk_mmap. destruct (_ && _ && _ && _) eqn:Et; intros Hb; [|by vm_compute in Hb].
    rewrite !andb_true_iff, Z.eqb_eq, Z.ltb_lt, !Z.leb_le in Et.
    rewrite wrap_small by (unfold in_u; lia). lia.
Qed.

Lemma lk_lookup_insert (f : gmap Z (list Z)) fd bs fd' :
  default [] (<[fd := bs]> f !! fd') = if decide (fd = fd') then bs else default [] (f !! fd').
Proof. rewrite lookup_insert. by case_decide. Qed.

#[global, refine] Instance loopback_stream : StreamKernel Pipes := {
  incoming := lk_incoming; outgoing := lk_outgoing; readable := lk_readable }.
Proof.
  - intros fd buf n m w Hn Hin.
    exists (Nat.min (Z.to_nat n) (Nat.min (S (lk_chunk w)) (length (lk_incoming w fd)))).
    assert (0 < length (lk_incoming w fd))%nat
      by (destruct (lk_incoming w fd); simpl; [done | lia]).
    eexists. split; [lia|]. split; [lia|]. split; [reflexivity|].
    unfold lk_incoming at 1; simpl. rewrite lk_lookup_insert, decide_True by done.
    split; [done|]. split; [|done].
    intros fd' Hne. unfold lk_incoming at 1; simpl.
    by rewrite lk_lookup_insert, decide_False by done.
  - intros fd buf n m w Hn Hin. eexists. unfold kernel, loopback, lk_read.
    rewrite Hin. cbn [length]. rewrite !Nat.min_0_r. simpl.
    split; [reflexivity|]. split; [|done].
    intros fd'. unfold lk_incoming in *. simpl. rewrite lk_lookup_insert. case_decide; [subst; by rewrite Hin | done].
  - intros fd buf n m w Hn Hr. specialize (Hr Hn).
    unfold kernel, loopback, lk_write.
    rewrite (proj2 (Z.ltb_lt 0 n)), (proj2 (Z.leb_gt (lk_limit w) buf)) by lia. cbn [andb].
    eexists _, _. split; [|split; [|split; [reflexivity|]]]; [lia | lia |].
    unfold lk_outgoing at 1; simpl. rewrite lk_lookup_insert, decide_True by done.
    split; [done|]. split; [|done].
    intros fd' Hne. unfold lk_outgoing at 1; simpl.
    by rewrite lk_lookup_insert, decide_False by done.
  - intros fd buf n m w Hn Hr. unfold lk_readable in Hr.
    unfold kernel, loopback, lk_write.
    rewrite (proj2 (Z.ltb_lt 0 n)), (proj2 (Z.leb_le (lk_limit w) buf)) by lia.
    cbn [andb]. eexists. done.
  - intros args m w r st Hk. simpl in Hk. by injection Hk as _ <-.
  - unfold lk_readable. intros w a n k Hk Hr Hp. lia.
Defined.
