(* ===== verification/Minilibc.v ===== *)
(** * The client's C library, [client/minilibc.c]

    System call wrappers, the retrying [read_full]/[write_full], string and
    memory routines, signal sets and the auxiliary vector.  The formatted
    output functions are in [Printf.v]. *)

From Stdlib Require Import ZArith Lia.
From stdpp Require Import base numbers list list_numbers option gmap.
From S2P Require Import Prelude Machine Loopback.

Definition AT_FDCWD : Z := -100.
Definition F_GETFL : Z := 3.

Section Minilibc.
Context {W : Type} `{Kernel W}.

(** ** System call wrappers *)

(** An [int] argument is sign-extended to the [size_t] register. *)
Definition openat (dirfd pathname flags mode : Z) : ST (Proc W) Z :=
  r ← syscall NR_openat [u64 dirfd; pathname; u64 flags; u64 mode]; mret (s32 r).
Definition open (pathname flags mode : Z) : ST (Proc W) Z :=
  openat AT_FDCWD pathname flags mode.
Definition lseek (fd offset whence : Z) : ST (Proc W) Z :=
  r ← syscall NR_lseek [u64 fd; u64 offset; u64 whence]; mret (s64 r).
Definition read (fd buf count : Z) : ST (Proc W) Z :=
  r ← syscall NR_read [u64 fd; buf; count]; mret (s64 r).
Definition write (fd buf count : Z) : ST (Proc W) Z :=
  r ← syscall NR_write [u64 fd; buf; count]; mret (s64 r).
Definition close (fd : Z) : ST (Proc W) Z :=
  r ← syscall NR_close [u64 fd]; mret (s32 r).
Definition mmap (addr length prot flags fd offset : Z) : ST (Proc W) Z :=
  syscall NR_mmap [addr; length; u64 prot; u64 flags; u64 fd; u64 offset].
Definition mprotect (addr len prot : Z) : ST (Proc W) Z :=
  r ← syscall NR_mprotect [addr; len; u64 prot]; mret (s32 r).
Definition munmap (addr length : Z) : ST (Proc W) Z :=
  r ← syscall NR_munmap [addr; length]; mret (s32 r).
Definition getpid : ST (Proc W) Z := r ← syscall NR_getpid []; mret (s32 r).
Definition gettid : ST (Proc W) Z := r ← syscall NR_gettid []; mret (s32 r).
Definition kill (pid sig : Z) : ST (Proc W) Z :=
  r ← syscall NR_kill [u64 pid; u64 sig]; mret (s32 r).
Definition clock_gettime (clk_id tp : Z) : ST (Proc W) Z :=
  r ← syscall NR_clock_gettime [u64 clk_id; tp]; mret (s32 r).
Definition nanosleep (req rem : Z) : ST (Proc W) Z := r ← syscall NR_nanosleep [req; rem]; mret (s32 r).
Definition execve (filename argv envp : Z) : ST (Proc W) Z :=
  r ← syscall NR_execve [filename; argv; envp]; mret (s32 r).
Definition pipe2 (pipefd flags : Z) : ST (Proc W) Z := r ← syscall NR_pipe2 [pipefd; u64 flags]; mret (s32 r).
Definition getpagesize : ST (Proc W) Z := gets pagesize.

Definition dup2 (oldfd newfd : Z) : ST (Proc W) Z :=
  if oldfd =? newfd then
    ret ← syscall NR_fcntl [u64 oldfd; F_GETFL];
    mret (if s32 ret <? 0 then s32 ret else newfd)
  else r ← syscall NR_dup3 [u64 oldfd; u64 newfd; 0]; mret (s32 r).

(** ** Complete reads and writes *)

(** Every round transfers at least one byte, so [nbytes] rounds are enough:
    when the fuel is used up the loop condition is false. *)
Fixpoint read_full_loop (fuel : nat) (fd buf nbytes total_read : Z) : ST (Proc W) Z :=
  match fuel with
  | O => mret (s64 total_read)
  | S fuel' =>
      if total_read <? nbytes then
        bytes_read ← read fd (u64 (buf + total_read)) (u64 (nbytes - total_read));
        if bytes_read <? 0 then mret bytes_read
        else if bytes_read =? 0 then mret (- EIO)
        else read_full_loop fuel' fd buf nbytes (u64 (total_read + bytes_read))
      else mret (s64 total_read)
  end.
Definition read_full (fd buf nbytes : Z) : ST (Proc W) Z :=
  read_full_loop (Z.to_nat nbytes) fd buf nbytes 0.

Fixpoint write_full_loop (fuel : nat) (fd buf nbytes total_written : Z) : ST (Proc W) Z :=
  match fuel with
  | O => mret (s64 total_written)
  | S fuel' =>
      if total_written <? nbytes then
        bytes_written ← write fd (u64 (buf + total_written)) (u64 (nbytes - total_written));
        if bytes_written <? 0 then mret bytes_written
        else if bytes_written =? 0 then mret (- EIO)
        else write_full_loop fuel' fd buf nbytes (u64 (total_written + bytes_written))
      else mret (s64 total_written)
  end.
Definition write_full (fd buf nbytes : Z) : ST (Proc W) Z :=
  write_full_loop (Z.to_nat nbytes) fd buf nbytes 0.

(** Write a local variable that holds the bytes [bs]. *)
Definition write_full_local (fd : Z) (bs : list Z) : ST (Proc W) Z :=
  with_local (Z.of_nat (length bs)) (fun a =>
    modify (fun p => set_mem (store_bytes (mem p) a bs) p);;
    write_full fd a (Z.of_nat (length bs))).

(** ** Memory routines *)

Fixpoint memset_loop (m : memory) (sptr c : Z) (n : nat) : memory :=
  match n with
  | O => m
  | S n' => memset_loop (<[sptr := u8 c]> m) (sptr + 1) c n'
  end.
Definition memset (s c n : Z) : ST (Proc W) Z :=
  modify (fun p => set_mem (memset_loop (mem p) s c (Z.to_nat n)) p);; mret s.

(** Forward byte copy: on overlapping ranges a copied byte may be read again. *)
Fixpoint memcpy_loop (m : memory) (s1ptr s2ptr : Z) (n : nat) : memory :=
  match n with
  | O => m
  | S n' => memcpy_loop (<[s1ptr := getb m s2ptr]> m) (s1ptr + 1) (s2ptr + 1) n'
  end.
Definition memcpy (dest src n : Z) : ST (Proc W) Z :=
  modify (fun p => set_mem (memcpy_loop (mem p) dest src (Z.to_nat n)) p);; mret dest.

End Minilibc.

(** ** Strings *)

(** A [const char*] as the bytes at and after it. *)
Abbreviation cptr := (Z -> Z).
Definition mptr (m : memory) (a : Z) : cptr := fun i => getb m (a + i).
Definition lit (bs : list Z) : cptr := fun i => default 0 (bs !! Z.to_nat i).

Fixpoint memcmp_loop (s1 s2 : cptr) (i : Z) (n : nat) : Z :=
  match n with
  | O => 0
  | S n' => if negb (s1 i =? s2 i) then s1 i - s2 i else memcmp_loop s1 s2 (i + 1) n'
  end.
Definition memcmp (s1 s2 : cptr) (n : Z) : Z := memcmp_loop s1 s2 0 (Z.to_nat n).

(** The loops of the string functions stop at a NUL; [fuel] bounds the number
    of rounds, and every caller passes more than the string is long. *)
Fixpoint strlen_loop (fuel : nat) (s : cptr) (len : Z) : Z :=
  match fuel with
  | O => len
  | S fuel' => if negb (s len =? 0) then strlen_loop fuel' s (len + 1) else len
  end.
Definition strlen (fuel : nat) (s : cptr) : Z := strlen_loop fuel s 0.

Fixpoint strcmp_loop (fuel : nat) (s1 s2 : cptr) (i : Z) : Z :=
  match fuel with
  | O => s1 i - s2 i
  | S fuel' =>
      if negb (s1 i =? 0) && (s1 i =? s2 i) then strcmp_loop fuel' s1 s2 (i + 1)
      else s1 i - s2 i
  end.
Definition strcmp (fuel : nat) (s1 s2 : cptr) : Z := strcmp_loop fuel s1 s2 0.

(** [for (; --n && *s1 && *s1 == *s2; s1++, s2++);]: [n] rounds at most. *)
Fixpoint strncmp_loop (n : nat) (s1 s2 : cptr) (i : Z) : Z :=
  match n with
  | O => s1 i - s2 i
  | S n' =>
      if negb (s1 i =? 0) && (s1 i =? s2 i) then strncmp_loop n' s1 s2 (i + 1)
      else s1 i - s2 i
  end.
Definition strncmp (s1 s2 : cptr) (n : Z) : Z :=
  if 0 <? n then strncmp_loop (Z.to_nat (n - 1)) s1 s2 0 else 0.

(** [char] is signed on x86-64; [None] is [NULL], otherwise the offset of the
    character found. *)
Fixpoint strchr_loop (fuel : nat) (s : cptr) (c i : Z) : option Z :=
  match fuel with
  | O => if swrap 8 (s i) =? c then Some i else None
  | S fuel' =>
      if negb (s i =? 0) && negb (swrap 8 (s i) =? c) then strchr_loop fuel' s c (i + 1)
      else if swrap 8 (s i) =? c then Some i else None
  end.
Definition strchr (fuel : nat) (s : cptr) (c : Z) : option Z := strchr_loop fuel s c 0.

(** ** Signal sets (x86-64: one [unsigned long]) *)

Definition NSIG : Z := 64.
Definition sigsetmsk (signum : Z) : Z := u64 (Z.shiftl 1 (signum - 1)).
Definition sigemptyset : Z := 0.
Definition sigfillset : Z := 2 ^ 64 - 1.
Definition sigaddset (set signum : Z) : Z * Z :=
  if (signum <=? 0) || (NSIG <? signum) then (- EINVAL, set)
  else (0, Z.lor set (sigsetmsk signum)).
Definition sigdelset (set signum : Z) : Z * Z :=
  if (signum <=? 0) || (NSIG <? signum) then (- EINVAL, set)
  else (0, Z.land set (u64 (Z.lnot (sigsetmsk signum)))).
Definition sigismember (set signum : Z) : Z :=
  if (signum <=? 0) || (NSIG <? signum) then - EINVAL
  else if negb (Z.land set (sigsetmsk signum) =? 0) then 1 else 0.

(** ** The auxiliary vector *)

(** Pairs of words up to a zero type word. *)
Fixpoint getauxval_loop (fuel : nat) (m : memory) (aux type : Z) : Z :=
  match fuel with
  | O => 0
  | S fuel' =>
      let t := loadZ m 8 aux in
      if t =? 0 then 0
      else if t =? type then loadZ m 8 (aux + 8)
      else getauxval_loop fuel' m (aux + 16) type
  end.
Definition getauxval (m : memory) (auxvptr type : Z) : Z :=
  getauxval_loop (S (size m)) m auxvptr type.

(** ** Lemmas *)

(** A forward copy is a block copy when the destination does not start inside
    the source range. *)
Lemma memcpy_loop_block m d s n :
  d <= s \/ s + Z.of_nat n <= d -> memcpy_loop m d s n = store_bytes m d (load_bytes m s n).
Proof.
  revert m d s; induction n as [|n IH]; intros m d s Hd; simpl; [done|].
  rewrite IH by lia. f_equal. apply load_bytes_ext. intros x Hx.
  unfold getb. rewrite lookup_insert_ne by lia. done.
Qed.

Lemma memset_loop_block m s c n : memset_loop m s c n = store_bytes m s (replicate n (u8 c)).
Proof. revert m s; induction n as [|n IH]; intros m s; simpl; [done|]. by rewrite IH. Qed.

Lemma strcmp_loop_zero fuel s1 s2 i :
  strcmp_loop fuel s1 s2 i = 0 ->
  exists j, i <= j <= i + Z.of_nat fuel /\ (forall k, i <= k <= j -> s1 k = s2 k) /\
    (s1 j = 0 \/ j = i + Z.of_nat fuel) /\ (forall k, i <= k < j -> s1 k <> 0).
Proof.
  revert i; induction fuel as [|fuel IH]; intros i; simpl.
  - intros. exists i. repeat split; try lia. intros k Hk. replace k with i by lia. lia.
  - destruct (Z.eqb_spec (s1 i) 0) as [Hz|Hz]; cbn [negb andb].
    + intros. exists i. repeat split; try lia. intros k Hk. replace k with i by lia. lia.
    + destruct (Z.eqb_spec (s1 i) (s2 i)) as [He|He]; [|lia].
      intros (j & Hj & Heq & Hend & Hnz)%IH. exists j.
      split; [lia|]. split; [|split; [destruct Hend; lia|]].
      * intros k Hk. destruct (Z.eqb_spec k i) as [->|]; [done | apply Heq; lia].
      * intros k Hk. destruct (Z.eqb_spec k i) as [->|]; [done | apply Hnz; lia].
Qed.

Lemma strcmp_loop_eq fuel s1 s2 i j :
  i <= j <= i + Z.of_nat fuel -> (forall k, i <= k <= j -> s1 k = s2 k) -> s1 j = 0 ->
  strcmp_loop fuel s1 s2 i = 0.
Proof.
  revert i; induction fuel as [|fuel IH]; intros i Hj Heq Hz; simpl.
  - rewrite Heq by lia. lia.
  - destruct (Z.eqb_spec (s1 i) 0); cbn [negb andb]; [rewrite Heq by lia; lia|].
    rewrite (proj2 (Z.eqb_eq _ _)) by (apply Heq; lia).
    apply IH; [|intros; apply Heq; lia | done].
    destruct (Z.eqb_spec i j) as [->|]; [done | lia].
Qed.

(** A literal without NUL bytes: [strcmp] against it decides equality of the
    bytes up to and including the terminator. *)
Lemma strcmp_lit_spec m a bs :
  Forall (fun b => b <> 0) bs ->
  strcmp (S (length bs)) (mptr m a) (lit bs) = 0 <->
  load_bytes m a (S (length bs)) = bs ++ [0].
Proof.
  intros Hnz.
  assert (forall k, (k <= length bs)%nat -> lit bs (Z.of_nat k) = default 0 ((bs ++ [0]) !! k)) as Hlit.
  { intros k Hk. unfold lit. rewrite Nat2Z.id. destruct (decide (k < length bs)%nat).
    - by rewrite lookup_app_l.
    - assert (k = length bs) as -> by lia. rewrite list_lookup_middle by done.
      by rewrite lookup_ge_None_2 by lia. }
  assert (lit bs (Z.of_nat (length bs)) = 0) as Hend.
  { rewrite Hlit by lia. by rewrite list_lookup_middle. }
  split.
  - intros (j & Hj & Heq & Hz & Hn)%strcmp_loop_zero.
    assert (Z.of_nat (length bs) <= j) as Hge.
    { destruct (Z.leb_spec (Z.of_nat (length bs)) j) as [|Hlt]; [done|exfalso].
      assert (mptr m a j = 0) as H0 by (destruct Hz; [done | lia]).
      rewrite Heq in H0 by lia. rewrite <- (Z2Nat.id j) in H0 by lia.
      rewrite Hlit, lookup_app_l in H0 by lia.
      destruct (lookup_lt_is_Some_2 bs (Z.to_nat j)) as [b Hb]; [lia|].
      rewrite Hb in H0. simpl in H0.
      rewrite Forall_lookup in Hnz. by apply (Hnz _ _ Hb). }
    apply list_eq. intros i. destruct (decide (i < S (length bs))%nat) as [Hi|Hi].
    + rewrite load_bytes_lookup by done. change (getb m (a + Z.of_nat i)) with (mptr m a (Z.of_nat i)).
      rewrite Heq by lia. rewrite Hlit by lia.
      destruct ((bs ++ [0]) !! i) eqn:E; [done|].
      apply lookup_ge_None in E. rewrite length_app in E. simpl in E. lia.
    + rewrite !lookup_ge_None_2; rewrite ?length_load_bytes, ?length_app; simpl; done || lia.
  - intros Hl. apply strcmp_loop_eq with (j := Z.of_nat (length bs)); [lia| |].
    + intros k Hk. rewrite <- (Z2Nat.id k) by lia. rewrite Hlit by lia.
      rewrite <- Hl, load_bytes_lookup by lia. done.
    + assert (load_bytes m a (S (length bs)) !! length bs = Some 0) as H1
        by (rewrite Hl; by rewrite list_lookup_middle).
      rewrite load_bytes_lookup in H1 by lia. by injection H1.
Qed.

Lemma sigsetmsk_bit s i : 1 <= s <= 64 -> 0 <= i -> Z.testbit (sigsetmsk s) i = (i =? s - 1).
Proof.
  intros Hs Hi. unfold sigsetmsk. rewrite testbit_wrap, Z.shiftl_1_l, Z.pow2_bits_eqb by lia.
  destruct (Z.eqb_spec (s - 1) i), (Z.eqb_spec i (s - 1)), (Z.ltb_spec i 64); done || lia.
Qed.

Lemma sigismember_bit set s : 1 <= s <= 64 -> sigismember set s = Z.b2z (Z.testbit set (s - 1)).
Proof.
  intros Hs. unfold sigismember, NSIG.
  rewrite (proj2 (Z.leb_gt s 0)), (proj2 (Z.ltb_ge 64 s)) by lia. cbn [orb].
  assert (Z.land set (sigsetmsk s) = if Z.testbit set (s - 1) then sigsetmsk s else 0) as ->.
  { apply bits_eq. intros i Hi. rewrite Z.land_spec, sigsetmsk_bit by lia.
    destruct (Z.eqb_spec i (s - 1)) as [->|Hne].
    - rewrite andb_true_r. destruct (Z.testbit set (s - 1)).
      + rewrite sigsetmsk_bit by lia. by rewrite Z.eqb_refl.
      + by rewrite Z.bits_0.
    - rewrite andb_false_r. destruct (Z.testbit set (s - 1)); rewrite ?Z.bits_0; [|done].
      rewrite sigsetmsk_bit by lia. symmetry. by apply Z.eqb_neq. }
  destruct (Z.testbit set (s - 1)); [|done].
  destruct (Z.eqb_spec (sigsetmsk s) 0) as [E|]; [|done].
  pose proof (sigsetmsk_bit s (s - 1) Hs ltac:(lia)) as Hb.
  by rewrite E, Z.bits_0, Z.eqb_refl in Hb.
Qed.

(** Signal sets behave as sets of the numbers 1 to 64: adding or removing
    a signal changes the membership of that signal and of no other, and every
    number outside the range is refused with [-EINVAL]. *)
Theorem sigset_ops set s t :
  (1 <= s <= 64 -> 1 <= t <= 64 ->
     sigismember (sigaddset set s).2 t = (if s =? t then 1 else sigismember set t) /\
     sigismember (sigdelset set s).2 t = (if s =? t then 0 else sigismember set t) /\
     sigismember sigfillset t = 1 /\ sigismember sigemptyset t = 0) /\
  (~ (1 <= s <= 64) -> sigaddset set s = (- EINVAL, set) /\ sigdelset set s = (- EINVAL, set) /\
     sigismember set s = - EINVAL).
Proof.
  split.
  - intros Hs Ht. rewrite !sigismember_bit by lia. unfold sigaddset, sigdelset, NSIG.
    rewrite (proj2 (Z.leb_gt s 0)), (proj2 (Z.ltb_ge 64 s)) by lia. cbn [orb snd].
    rewrite Z.lor_spec, Z.land_spec, testbit_wrap, Z.lnot_spec, sigsetmsk_bit by lia.
    rewrite (proj2 (Z.ltb_lt (t - 1) 64)) by lia. split_and!.
    + destruct (Z.eqb_spec (t - 1) (s - 1)), (Z.eqb_spec s t); try lia;
        rewrite ?orb_true_r, ?orb_false_r; done.
    + destruct (Z.eqb_spec (t - 1) (s - 1)), (Z.eqb_spec s t); try lia; simpl;
        rewrite ?andb_false_r, ?andb_true_r; done.
    + unfold sigfillset. change (2 ^ 64 - 1) with (Z.ones 64).
      rewrite Z.ones_spec_low by lia. done.
    + unfold sigemptyset. by rewrite Z.bits_0.
  - intros Hs. unfold sigaddset, sigdelset, sigismember, NSIG.
    destruct (Z.leb_spec s 0); [done|]. rewrite (proj2 (Z.ltb_lt 64 s)) by lia. done.
Qed.

Lemma sigset_ops_witness :
  sigismember (sigaddset 5 7).2 7 = 1 /\ sigdelset 5 65 = (- EINVAL, 5).
Proof.
  split.
  - apply (sigset_ops 5 7 7); lia.
  - apply (sigset_ops 5 65 1). lia.
Defined.

(** [strcmp] of a string in memory with a literal returns zero exactly when
    the memory holds the literal's bytes followed by a NUL. *)
Theorem strcmp_literal m a bs :
  Forall (fun b => b <> 0) bs ->
  strcmp (S (length bs)) (mptr m a) (lit bs) = 0 <->
  load_bytes m a (S (length bs)) = bs ++ [0].
Proof. apply strcmp_lit_spec. Qed.

Lemma strcmp_literal_witness :
  strcmp 3 (mptr (store_bytes ∅ 16 [104; 105; 0]) 16) (lit [104; 105]) = 0.
Proof.
  apply (strcmp_literal (store_bytes ∅ 16 [104; 105; 0]) 16 [104; 105]).
  - repeat constructor; lia.
  - reflexivity.
Defined.

(** [memcpy] copies a block when the destination does not start strictly
    inside the source: afterwards the destination holds the bytes the source
    held before, and no other byte has changed. *)
Theorem memcpy_block {W} `{Kernel W} d s n (p : Proc W) :
  0 <= n -> d <= s \/ s + n <= d ->
  let p' := (memcpy d s n p).2 in
  load_bytes (mem p') d (Z.to_nat n) = load_bytes (mem p) s (Z.to_nat n) /\
  forall x, x < d \/ d + n <= x -> getb (mem p') x = getb (mem p) x.
Proof.
  intros Hn Hd. simpl. rewrite memcpy_loop_block by lia. split.
  - rewrite <- (length_load_bytes (mem p) s (Z.to_nat n)) at 2. apply load_store_same.
  - intros x Hx. apply getb_store_out. rewrite length_load_bytes. lia.
Qed.

Lemma memcpy_block_witness :
  let p := mkProc (store_bytes ∅ 100 [1; 2; 3]) (mkPipes ∅ ∅ 0 0) (mkArena 0 0 0 0)
             (mkArena 0 0 0 0) 4096 0 in
  let p' := (memcpy 98 100 3 p).2 in
  load_bytes (mem p') 98 3 = load_bytes (mem p) 100 3 /\
  forall x, x < 98 \/ 98 + 3 <= x -> getb (mem p') x = getb (mem p) x.
Proof. intros p. apply (memcpy_block 98 100 3 p); lia. Defined.
