(* ===== verification/StreamIO.v ===== *)
(** * [read_full] and [write_full] over byte streams

    The retry loops of [client/minilibc.c], proved against the stream
    interface of the kernel: they hide short transfers, so that the protocol
    layer can treat a descriptor as a byte stream. *)

From Stdlib Require Import ZArith Lia.
From stdpp Require Import base numbers list list_numbers option gmap.
From S2P Require Import Prelude Machine Loopback Minilibc.

Section StreamIO.
Context {W : Type} `{StreamKernel W}.

(** Exactly the bytes [bs] were received on (sent to) [fd] between two states
    of the kernel, and nothing else moved. *)
Record received (fd : Z) (bs : list Z) (w w' : W) : Prop := {
  recv_in : incoming w fd = bs ++ incoming w' fd;
  recv_other : forall fd', fd' <> fd -> incoming w' fd' = incoming w fd';
  recv_out : forall fd', outgoing w' fd' = outgoing w fd';
  recv_readable : forall a k, readable w' a k <-> readable w a k;
}.

Record sent (fd : Z) (bs : list Z) (w w' : W) : Prop := {
  sent_out : outgoing w' fd = outgoing w fd ++ bs;
  sent_other : forall fd', fd' <> fd -> outgoing w' fd' = outgoing w fd';
  sent_in : forall fd', incoming w' fd' = incoming w fd';
  sent_readable : forall a k, readable w' a k <-> readable w a k;
}.

Lemma received_nil fd w : received fd [] w w.
Proof. by split. Qed.

Lemma received_app fd bs1 bs2 w1 w2 w3 :
  received fd bs1 w1 w2 -> received fd bs2 w2 w3 -> received fd (bs1 ++ bs2) w1 w3.
Proof.
  intros [A1 A2 A3 A4] [B1 B2 B3 B4]. split.
  - by rewrite A1, B1, app_assoc.
  - intros. by rewrite B2, A2.
  - intros. by rewrite B3, A3.
  - intros. by rewrite B4, A4.
Qed.

Lemma sent_nil fd w : sent fd [] w w.
Proof. split; try done. by rewrite app_nil_r. Qed.

Lemma sent_app fd bs1 bs2 w1 w2 w3 :
  sent fd bs1 w1 w2 -> sent fd bs2 w2 w3 -> sent fd (bs1 ++ bs2) w1 w3.
Proof.
  intros [A1 A2 A3 A4] [B1 B2 B3 B4]. split.
  - by rewrite B1, A1, app_assoc.
  - intros. by rewrite B2, A2.
  - intros. by rewrite B3, A3.
  - intros. by rewrite B4, A4.
Qed.

(** A descriptor as it appears in a system call register. *)
Definition fd_ok (fd : Z) : Prop := 0 <= fd < 2 ^ 31.

Lemma fd_ok_u64 fd : fd_ok fd -> u64 fd = fd.
Proof. unfold fd_ok. intros. apply wrap_small. unfold in_u. lia. Qed.

Definition buffer_ok (buf n : Z) : Prop := 0 <= buf /\ 0 <= n < 2 ^ 62 /\ buf + n < 2 ^ 64.

Lemma count_s64 r n : 0 <= r <= n -> n < 2 ^ 62 -> s64 (u64 r) = r.
Proof. intros. rewrite swrap_wrap. apply swrap_small; unfold in_s; lia. Qed.

(** One read of a non-empty stream. *)
Lemma read_some fd buf n (p : Proc W) :
  fd_ok fd -> 0 < n < 2 ^ 62 -> incoming (kst p) fd <> [] ->
  exists r w', (0 < r <= length (incoming (kst p) fd))%nat /\ Z.of_nat r <= n /\
    read fd buf n p =
      (Z.of_nat r, set_kernel (store_bytes (mem p) buf (take r (incoming (kst p) fd))) w' p) /\
    received fd (take r (incoming (kst p) fd)) (kst p) w'.
Proof.
  intros Hfd Hn Hin.
  destruct (stream_read fd buf n (mem p) (kst p) ltac:(lia) Hin)
    as (r & w' & Hr & Hrn & Hk & Hi & Ho & Hout & Hrd).
  exists r, w'. split; [done|]. split; [done|]. split.
  - unfold read, syscall, mbind, ST_bind, mret, ST_ret.
    rewrite fd_ok_u64, Hk by done. by rewrite (count_s64 _ n) by lia.
  - split; try done. by rewrite Hi, take_drop.
Qed.

Lemma read_full_loop_ok fuel fd buf n total (p : Proc W) :
  fd_ok fd -> buffer_ok buf n -> 0 <= total <= n -> n - total <= Z.of_nat fuel ->
  n - total <= Z.of_nat (length (incoming (kst p) fd)) ->
  let bs := take (Z.to_nat (n - total)) (incoming (kst p) fd) in
  exists w', read_full_loop fuel fd buf n total p =
      (n, set_kernel (store_bytes (mem p) (buf + total) bs) w' p) /\
    received fd bs (kst p) w'.
Proof.
  intros Hfd (Hb & Hn & Hbn). revert total p.
  induction fuel as [|fuel IH]; intros total p Ht Hfuel Hlen bs.
  - assert (total = n) as -> by lia. subst bs. rewrite Z.sub_diag. simpl.
    exists (kst p). split; [|apply received_nil].
    unfold mret, ST_ret. rewrite swrap_small by (unfold in_s; lia). by destruct p.
  - simpl. destruct (Z.ltb_spec total n) as [Hlt|Hge].
    2: { assert (total = n) as -> by lia. subst bs. rewrite Z.sub_diag. simpl.
         exists (kst p). split; [|apply received_nil].
         unfold mret, ST_ret. rewrite swrap_small by (unfold in_s; lia). by destruct p. }
    assert (incoming (kst p) fd <> []) as Hne by (intros E; rewrite E in Hlen; simpl in Hlen; lia).
    rewrite (wrap_small 64 (buf + total)) by (unfold in_u; lia).
    rewrite (wrap_small 64 (n - total)) by (unfold in_u; lia).
    destruct (read_some fd (buf + total) (n - total) p Hfd ltac:(lia) Hne)
      as (r & w1 & Hr & Hrn & Hrun & Hrec).
    erewrite bind_unfold by exact Hrun.
    rewrite (proj2 (Z.ltb_ge _ _)), (proj2 (Z.eqb_neq _ _)) by lia.
    rewrite wrap_small by (unfold in_u; lia).
    set (p1 := set_kernel _ w1 p).
    pose proof (recv_in _ _ _ _ Hrec) as Hin.
    assert (length (incoming w1 fd) = length (incoming (kst p) fd) - r)%nat as Hlen1.
    { rewrite Hin, length_app, length_take. lia. }
    destruct (IH (total + Z.of_nat r) p1) as (w2 & Hrun2 & Hrec2);
      [lia | lia | change (kst p1) with w1; lia |].
    exists w2. rewrite Hrun2. change (kst p1) with w1 in *.
    assert (bs = take r (incoming (kst p) fd) ++
                 take (Z.to_nat (n - (total + Z.of_nat r))) (incoming w1 fd)) as ->.
    { subst bs. rewrite Hin at 1. rewrite take_app, take_take, length_take.
      f_equal; f_equal; lia. }
    split; [|by eapply received_app].
    subst p1. unfold set_kernel; simpl. do 2 f_equal.
    rewrite store_bytes_app, length_take. f_equal. lia.
Qed.

(** A stream that ends early: everything is consumed and [-EIO] returned. *)
Lemma read_full_loop_eof fuel fd buf n total (p : Proc W) :
  fd_ok fd -> buffer_ok buf n -> 0 <= total -> n - total <= Z.of_nat fuel ->
  Z.of_nat (length (incoming (kst p) fd)) < n - total ->
  exists p', read_full_loop fuel fd buf n total p = (- EIO, p') /\
    received fd (incoming (kst p) fd) (kst p) (kst p').
Proof.
  intros Hfd (Hb & Hn & Hbn). revert total p.
  induction fuel as [|fuel IH]; intros total p Ht Hfuel Hlen; [lia|].
  simpl. rewrite (proj2 (Z.ltb_lt total n)) by lia.
  rewrite (wrap_small 64 (buf + total)) by (unfold in_u; lia).
  rewrite (wrap_small 64 (n - total)) by (unfold in_u; lia).
  destruct (decide (incoming (kst p) fd = [])) as [Hnil|Hne].
  - destruct (stream_eof fd (buf + total) (n - total) (mem p) (kst p) ltac:(lia) Hnil)
      as (w' & Hk & Hi & Ho & Hrd).
    exists (set_kernel (mem p) w' p). split.
    + unfold read, syscall, mbind, ST_bind, mret, ST_ret. rewrite fd_ok_u64, Hk by done. done.
    + rewrite Hnil. split; simpl; congruence || done.
  - destruct (read_some fd (buf + total) (n - total) p Hfd ltac:(lia) Hne)
      as (r & w1 & Hr & Hrn & Hrun & Hrec).
    erewrite bind_unfold by exact Hrun.
    rewrite (proj2 (Z.ltb_ge _ _)), (proj2 (Z.eqb_neq _ _)) by lia.
    rewrite wrap_small by (unfold in_u; lia).
    set (p1 := set_kernel _ w1 p).
    pose proof (recv_in _ _ _ _ Hrec) as Hin.
    assert (length (incoming w1 fd) = length (incoming (kst p) fd) - r)%nat as Hlen1.
    { rewrite Hin, length_app, length_take. lia. }
    destruct (IH (total + Z.of_nat r) p1) as (p2 & Hrun2 & Hrec2);
      [lia | lia | change (kst p1) with w1; lia |].
    exists p2. split; [exact Hrun2|].
    change (kst p1) with w1 in Hrec2. rewrite Hin. by eapply received_app.
Qed.

(** One write from readable memory. *)
Lemma write_some fd buf n (p : Proc W) :
  fd_ok fd -> 0 < n < 2 ^ 62 -> readable (kst p) buf n ->
  exists r w', (0 < r)%nat /\ Z.of_nat r <= n /\
    write fd buf n p = (Z.of_nat r, set_kernel (mem p) w' p) /\
    sent fd (load_bytes (mem p) buf r) (kst p) w'.
Proof.
  intros Hfd Hn Hrd.
  destruct (stream_write fd buf n (mem p) (kst p) ltac:(lia) Hrd)
    as (r & w' & Hr & Hrn & Hk & Ho & Hoth & Hi & Hrd').
  exists r, w'. split; [done|]. split; [done|]. split; [|done].
  unfold write, syscall, mbind, ST_bind, mret, ST_ret.
  rewrite fd_ok_u64, Hk by done. by rewrite (count_s64 _ n) by lia.
Qed.

Lemma write_full_loop_ok fuel fd buf n total (p : Proc W) :
  fd_ok fd -> buffer_ok buf n -> 0 <= total <= n -> n - total <= Z.of_nat fuel ->
  readable (kst p) (buf + total) (n - total) ->
  exists w', write_full_loop fuel fd buf n total p = (n, set_kernel (mem p) w' p) /\
    sent fd (load_bytes (mem p) (buf + total) (Z.to_nat (n - total))) (kst p) w'.
Proof.
  intros Hfd (Hb & Hn & Hbn). revert total p.
  assert (forall p : Proc W, (s64 n, p) = (n, set_kernel (mem p) (kst p) p)) as Hdone.
  { intros p. rewrite swrap_small by (unfold in_s; lia). by destruct p. }
  induction fuel as [|fuel IH]; intros total p Ht Hfuel Hrd.
  - assert (total = n) as -> by lia. rewrite Z.sub_diag. simpl.
    exists (kst p). split; [apply Hdone | apply sent_nil].
  - simpl. destruct (Z.ltb_spec total n) as [Hlt|Hge].
    2: { assert (total = n) as -> by lia. rewrite Z.sub_diag. simpl.
         exists (kst p). split; [apply Hdone | apply sent_nil]. }
    rewrite (wrap_small 64 (buf + total)) by (unfold in_u; lia).
    rewrite (wrap_small 64 (n - total)) by (unfold in_u; lia).
    destruct (write_some fd (buf + total) (n - total) p Hfd ltac:(lia) Hrd)
      as (r & w1 & Hr & Hrn & Hrun & Hsent).
    erewrite bind_unfold by exact Hrun.
    rewrite (proj2 (Z.ltb_ge _ _)), (proj2 (Z.eqb_neq _ _)) by lia.
    rewrite wrap_small by (unfold in_u; lia).
    set (p1 := set_kernel _ w1 p).
    destruct (IH (total + Z.of_nat r) p1) as (w2 & Hrun2 & Hsent2); [lia | lia | |].
    { change (kst p1) with w1. apply (sent_readable _ _ _ _ Hsent).
      replace (buf + (total + Z.of_nat r)) with (buf + total + Z.of_nat r) by lia.
      replace (n - (total + Z.of_nat r)) with (n - total - Z.of_nat r) by lia.
      apply readable_suffix; [lia | done]. }
    exists w2. rewrite Hrun2. split; [done|].
    change (kst p1) with w1 in Hsent2. change (mem p1) with (mem p) in Hsent2.
    replace (Z.to_nat (n - total)) with (r + Z.to_nat (n - (total + Z.of_nat r)))%nat by lia.
    rewrite load_bytes_app.
    replace (buf + total + Z.of_nat r) with (buf + (total + Z.of_nat r)) by lia.
    by eapply sent_app.
Qed.

Lemma read_full_run fd buf n (p : Proc W) :
  fd_ok fd -> buffer_ok buf n -> n <= Z.of_nat (length (incoming (kst p) fd)) ->
  let bs := take (Z.to_nat n) (incoming (kst p) fd) in
  exists w', read_full fd buf n p = (n, set_kernel (store_bytes (mem p) buf bs) w' p) /\
    received fd bs (kst p) w'.
Proof.
  intros Hfd Hb Hlen. destruct (read_full_loop_ok (Z.to_nat n) fd buf n 0 p) as (w' & Hr & Hw);
    try done; try (destruct Hb; lia).
  exists w'. rewrite Z.sub_0_r, Z.add_0_r in *. done.
Qed.

Lemma write_full_run fd buf n (p : Proc W) :
  fd_ok fd -> buffer_ok buf n -> readable (kst p) buf n ->
  exists w', write_full fd buf n p = (n, set_kernel (mem p) w' p) /\
    sent fd (load_bytes (mem p) buf (Z.to_nat n)) (kst p) w'.
Proof.
  intros Hfd Hb Hrd. destruct (write_full_loop_ok (Z.to_nat n) fd buf n 0 p) as (w' & Hr & Hw);
    try done; try (destruct Hb; lia).
  { by rewrite Z.add_0_r, Z.sub_0_r. }
  exists w'. rewrite Z.sub_0_r, Z.add_0_r in *. done.
Qed.

(** [read_full] hides short reads: if the stream holds [n] bytes it
    returns [n], the buffer holds exactly the first [n] bytes of the stream,
    and exactly these are consumed; if it holds fewer it consumes them and
    returns [-EIO]. *)
Theorem read_full_stream fd buf n (p : Proc W) :
  fd_ok fd -> buffer_ok buf n ->
  let s := incoming (kst p) fd in
  let bs := take (Z.to_nat n) s in
  exists p',
    read_full fd buf n p = ((if n <=? Z.of_nat (length s) then n else - EIO), p') /\
    received fd bs (kst p) (kst p') /\
    (n <= Z.of_nat (length s) -> load_bytes (mem p') buf (Z.to_nat n) = bs /\
       forall x, x < buf \/ buf + n <= x -> getb (mem p') x = getb (mem p) x).
Proof.
  intros Hfd Hb s bs. destruct (Z.leb_spec n (Z.of_nat (length s))) as [Hle|Hgt].
  - destruct (read_full_run fd buf n p Hfd Hb Hle) as (w' & Hr & Hrec).
    eexists. split; [exact Hr|]. split; [done|]. intros _. simpl. fold s bs.
    assert (length bs = Z.to_nat n) as Hlen by (subst bs; rewrite length_take; lia).
    split; [by rewrite <- Hlen, load_store_same|].
    intros x Hx. apply getb_store_out. destruct Hb. lia.
  - destruct (read_full_loop_eof (Z.to_nat n) fd buf n 0 p) as (p' & Hr & Hrec);
      try done; try (fold s; lia).
    exists p'. split; [done|]. split; [|lia].
    subst bs. rewrite take_ge by lia. done.
Qed.

(** [write_full] hides short writes: from readable memory it returns
    [nbytes], and the peer receives exactly these bytes in order. *)
Theorem write_full_stream fd buf n (p : Proc W) :
  fd_ok fd -> buffer_ok buf n -> readable (kst p) buf n ->
  exists p', write_full fd buf n p = (n, p') /\ mem p' = mem p /\
    sent fd (load_bytes (mem p) buf (Z.to_nat n)) (kst p) (kst p').
Proof.
  intros Hfd Hb Hrd. destruct (write_full_run fd buf n p Hfd Hb Hrd) as (w' & Hr & Hs).
  eexists. split; [exact Hr|]. done.
Qed.

End StreamIO.

(** A pipe that moves three bytes per call. *)
Definition pipe0 (input : list Z) : Proc Pipes :=
  mkProc (store_bytes ∅ 0x500 [1; 2; 3; 4; 5; 6; 7]) (mkPipes {[3 := input]} ∅ 2 0x10000)
    (mkArena 0 0 0 0) (mkArena 0 0 0 0) 4096 0x8000.

Lemma read_full_stream_witness :
  exists p', read_full 3 0x600 5 (pipe0 [9; 8; 7; 6; 5; 4]) = (5, p') /\
    received 3 [9; 8; 7; 6; 5] (kst (pipe0 [9; 8; 7; 6; 5; 4])) (kst p') /\
    (5 <= 6 -> load_bytes (mem p') 0x600 5 = [9; 8; 7; 6; 5] /\
       forall x, x < 0x600 \/ 0x600 + 5 <= x ->
       getb (mem p') x = getb (mem (pipe0 [9; 8; 7; 6; 5; 4])) x).
Proof.
  pose proof (read_full_stream 3 0x600 5 (pipe0 [9; 8; 7; 6; 5; 4])
    ltac:(unfold fd_ok; lia) ltac:(unfold buffer_ok; lia)) as T.
  replace (incoming (kst (pipe0 [9; 8; 7; 6; 5; 4])) 3) with [9; 8; 7; 6; 5; 4] in T
    by (vm_compute; reflexivity).
  exact T.
Defined.

Lemma write_full_stream_witness :
  exists p', write_full 4 0x500 7 (pipe0 []) = (7, p') /\ mem p' = mem (pipe0 []) /\
    sent 4 [1; 2; 3; 4; 5; 6; 7] (kst (pipe0 [])) (kst p').
Proof.
  assert (readable (kst (pipe0 [])) 0x500 7) as Hrd by (intros _; simpl; lia).
  pose proof (write_full_stream 4 0x500 7 (pipe0 []) ltac:(unfold fd_ok; lia)
    ltac:(unfold buffer_ok; lia) Hrd) as T.
  replace (load_bytes (mem (pipe0 [])) 0x500 (Z.to_nat 7)) with [1; 2; 3; 4; 5; 6; 7] in T
    by (vm_compute; reflexivity).
  exact T.
Defined.
