(* ===== verification/Memory.v ===== *)
(** * The arena allocator, [client/memory.c]

    Two bump allocators, one for translated code and one for client data, each
    over a region reserved with [mmap(PROT_NONE)] and made accessible page by
    page with [mprotect].  [brk] is the end of the allocated bytes and [brkp]
    the end of the accessible pages. *)

From Stdlib Require Import ZArith Lia.
From stdpp Require Import base numbers list list_numbers option gmap.
From S2P Require Import Prelude Machine Loopback Minilibc.

(** Protection and mapping flags of the Linux ABI. *)
Definition PROT_NONE : Z := 0.
Definition PROT_READ : Z := 1.
Definition PROT_WRITE : Z := 2.
Definition PROT_EXEC : Z := 4.
Definition MAP_PRIVATE : Z := 0x2.
Definition MAP_FIXED : Z := 0x10.
Definition MAP_ANONYMOUS : Z := 0x20.
Definition MAP_NORESERVE : Z := 0x4000.

Definition MEM_BASE : Z := 0x0000400000000000.
Definition MEM_CODE_SIZE : Z := 0x40000000.
Definition MEM_DATA_SIZE : Z := 0x01000000.

Section Memory.
Context {W : Type} `{Kernel W}.

(** [arena_init]: the arena is only written on success. *)
Definition arena_init (arena : Arena) (base size : Z) : ST (Proc W) (Z * Arena) :=
  mem ← mmap base size PROT_NONE
          (Z.lor (Z.lor MAP_PRIVATE MAP_ANONYMOUS) MAP_NORESERVE) (-1) 0;
  if BAD_ADDR mem then mret (s32 mem, arena)
  else mret (0, {| start := mem; end_ := u64 (mem + size); brk := mem; brkp := mem |}).

Definition arena_alloc (arena : Arena) (size alignment : Z) (exec : bool) :
    ST (Proc W) (Z * Arena) :=
  let alignment := if alignment <? 0x40 then 0x40 else alignment in
  if negb (Z.land alignment (alignment - 1) =? 0) then mret (u64 (- EINVAL), arena)
  else
    let brk_al := ALIGN_UP (brk arena) alignment in
    if u64 (brk_al + size) <=? brkp arena then
      mret (brk_al, {| start := start arena; end_ := end_ arena;
                       brk := u64 (brk_al + size); brkp := brkp arena |})
    else
      ps ← getpagesize;
      let newpgsz := ALIGN_UP (u64 (size - (brkp arena - brk_al))) ps in
      if end_ arena <? u64 (brk arena + newpgsz) then mret (u64 (- ENOMEM), arena)
      else
        let prot := Z.lor (Z.lor PROT_READ PROT_WRITE) (if exec then PROT_EXEC else 0) in
        ret ← mprotect (brkp arena) newpgsz prot;
        if ret <? 0 then mret (u64 ret, arena)
        else mret (brk_al, {| start := start arena; end_ := end_ arena;
                              brk := u64 (brk_al + size);
                              brkp := u64 (brkp arena + newpgsz) |}).

Definition mem_init : ST (Proc W) Z :=
  d ← gets main_arena_data;
  '(ret, d') ← arena_init d MEM_BASE MEM_DATA_SIZE;
  modify (set_data d');;
  if negb (ret =? 0) then mret ret
  else
    let code_arena_base := u64 (MEM_BASE + MEM_DATA_SIZE) in
    c ← gets main_arena_code;
    '(ret, c') ← arena_init c code_arena_base MEM_CODE_SIZE;
    modify (set_code c');;
    if negb (ret =? 0) then mret ret else mret 0.

Definition mem_alloc_data (size alignment : Z) : ST (Proc W) Z :=
  d ← gets main_arena_data;
  '(ptr, d') ← arena_alloc d size alignment false;
  modify (set_data d');; mret ptr.

Definition mem_alloc_code (size alignment : Z) : ST (Proc W) Z :=
  c ← gets main_arena_code;
  '(ptr, c') ← arena_alloc c size alignment true;
  modify (set_code c');; mret ptr.

(** [mem_write_code]; the instruction cache is outside the model. *)
Definition mem_write_code (dst src size : Z) : ST (Proc W) Z :=
  memcpy dst src size;; mret 0.

(** ** Invariant *)

(** Page size, then: the arena lies below [2^62] between page boundaries; the
    accessible part is a whole number of pages inside it and less than a page
    larger than the allocated part. *)
Record arena_wf (ps : Z) (a : Arena) : Prop := {
  wf_ps : is_pow2 ps;
  wf_order : 0 <= start a <= brk a /\ brk a <= brkp a <= end_ a;
  wf_slack : brkp a < brk a + ps;
  wf_high : end_ a + ps <= 2 ^ 62;
  wf_brkp : brkp a `mod` ps = 0;
  wf_end : end_ a `mod` ps = 0;
}.

(** Requests the client makes: far below the 64-bit limit. *)
Definition request_ok (size alignment : Z) : Prop :=
  0 <= size < 2 ^ 62 /\ 0 <= alignment <= 2 ^ 61.

Definition effective_align (alignment : Z) : Z := if alignment <? 0x40 then 0x40 else alignment.

Lemma effective_align_pow2 size alignment :
  request_ok size alignment ->
  Z.land (effective_align alignment) (effective_align alignment - 1) = 0 ->
  is_pow2 (effective_align alignment) /\ 0x40 <= effective_align alignment <= 2 ^ 61.
Proof.
  unfold request_ok, effective_align. intros Hr Hl.
  destruct (Z.ltb_spec alignment 0x40).
  - split; [exists 6; lia | lia].
  - split; [apply land_pred_pow2; lia | lia].
Qed.

Lemma pow2_pos a : is_pow2 a -> 0 < a.
Proof. intros (k & Hk & ->). lia. Qed.

Lemma u64_small x : 0 <= x < 2 ^ 64 -> u64 x = x.
Proof. apply wrap_small. Qed.

(** What a call did to its arena: [ptr] is returned, [a'] left behind. *)
Inductive alloc_outcome (a : Arena) (size al ps : Z) (ptr : Z) (a' : Arena) : Prop :=
  | alloc_fails :
      BAD_ADDR ptr = true -> a' = a -> alloc_outcome a size al ps ptr a'
  | alloc_succeeds :
      brk a <= ptr < brk a + al -> ptr `mod` al = 0 ->
      start a' = start a -> end_ a' = end_ a ->
      brk a' = ptr + size -> brkp a <= brkp a' -> arena_wf ps a' ->
      alloc_outcome a size al ps ptr a'.

Lemma bad_errno e : 0 < e < 4096 -> BAD_ADDR (u64 (- e)) = true.
Proof.
  intros. unfold BAD_ADDR. rewrite wrap_wrap by lia. unfold wrap.
  replace (- e) with (2 ^ 64 - e + (-1) * 2 ^ 64) by lia.
  rewrite Z_mod_plus_full, Z.mod_small by lia. apply Z.ltb_lt. lia.
Qed.

(** Page arithmetic of the slow path: growing by whole pages keeps [brkp]
    inside the region although the code compares [brk], not [brkp]. *)
Lemma grow_in_bounds ps a need :
  arena_wf ps a -> 0 < need <= 2 ^ 63 + 2 ^ 61 ->
  let pg := ALIGN_UP need ps in
  u64 (brk a + pg) <= end_ a ->
  need <= pg < need + ps /\ brkp a + pg <= end_ a /\ (brkp a + pg) `mod` ps = 0.
Proof.
  intros [Hps Ho Hs Hh Hb He] Hn pg Hchk.
  pose proof (pow2_pos _ Hps) as Hpos.
  destruct (ALIGN_UP_spec need ps Hps ltac:(lia) ltac:(lia)) as [Hpg Hmod].
  fold pg in Hpg, Hmod. split; [done|].
  rewrite u64_small in Hchk by lia.
  assert ((brkp a + pg) `mod` ps = 0) as Hm.
  { rewrite Z.add_mod, Hb, Hmod by lia. done. }
  split; [|done].
  apply Z.mod_divide in Hm; [|lia]. apply Z.mod_divide in He; [|lia].
  destruct Hm as [x Hx], He as [y Hy]. rewrite Hx, Hy in *.
  assert (x < y + 1) by nia. nia.
Qed.

Lemma arena_alloc_outcome a size alignment exec (p : Proc W) ptr a' p' :
  arena_wf (pagesize p) a -> request_ok size alignment ->
  KernelAbi W (pagesize p) ->
  arena_alloc a size alignment exec p = ((ptr, a'), p') ->
  alloc_outcome a size (effective_align alignment) (pagesize p) ptr a'.
Proof.
  intros Hwf Hreq Habi Hrun. unfold arena_alloc in Hrun. fold (effective_align alignment) in Hrun.
  destruct (Z.eqb_spec (Z.land (effective_align alignment) (effective_align alignment - 1)) 0)
    as [Hl|Hl]; cbn [negb] in Hrun.
  2: { injection Hrun as <- <- <-. apply alloc_fails; [by apply bad_errno | done]. }
  destruct (effective_align_pow2 _ _ Hreq Hl) as [Hp2 Hal].
  set (al := effective_align alignment) in *.
  pose proof Hwf as [Hps Ho Hs Hh Hb He]. destruct Hreq as [Hsz _].
  destruct (ALIGN_UP_spec (brk a) al Hp2 ltac:(lia) ltac:(lia)) as [Hr Hm].
  set (b := ALIGN_UP (brk a) al) in *. rewrite (u64_small (b + size)) in Hrun by lia.
  destruct (Z.leb_spec (b + size) (brkp a)) as [Hle|Hgt].
  { injection Hrun as <- <- <-. apply alloc_succeeds; simpl; try (done || lia).
    constructor; simpl; try done; lia. }
  unfold getpagesize, gets, mbind, ST_bind in Hrun.
  assert (u64 (size - (brkp a - b)) = size - (brkp a - b)) as Eneed by (apply u64_small; lia).
  rewrite Eneed in Hrun. set (pg := ALIGN_UP (size - (brkp a - b)) (pagesize p)) in *.
  destruct (Z.ltb_spec (end_ a) (u64 (brk a + pg))) as [Hlt|Hge].
  { injection Hrun as <- <- <-. apply alloc_fails; [by apply bad_errno | done]. }
  destruct (grow_in_bounds _ _ (size - (brkp a - b)) Hwf ltac:(lia) Hge) as (Hg1 & Hg2 & Hg3).
  fold pg in Hg1, Hg2, Hg3.
  unfold mprotect, syscall, mbind, ST_bind, mret, ST_ret in Hrun.
  destruct (kernel NR_mprotect _ _) as [r [m w]] eqn:Ek.
  rewrite swrap_wrap_le in Hrun by lia.
  destruct (Z.ltb_spec (s32 r) 0) as [Hneg|Hok].
  { injection Hrun as <- <- <-. apply alloc_fails; [|done].
    replace (s32 r) with (- (- s32 r)) by lia. apply bad_errno.
    pose proof (abi_mprotect _ _ _ _ Ek Hneg). lia. }
  injection Hrun as <- <- <-. rewrite (u64_small (brkp a + pg)) by lia.
  apply alloc_succeeds; simpl; try (done || lia).
  constructor; simpl; try done; lia.
Qed.

(** The process around an allocation: only the kernel state changes. *)
Lemma arena_alloc_frame a size al exec (p : Proc W) :
  KernelAbi W (pagesize p) ->
  let p' := (arena_alloc a size al exec p).2 in
  mem p' = mem p /\ sp p' = sp p /\ pagesize p' = pagesize p /\
  main_arena_code p' = main_arena_code p /\ main_arena_data p' = main_arena_data p.
Proof.
  intros Habi. cbn zeta. unfold arena_alloc, getpagesize, gets, mprotect, syscall, mbind, ST_bind, mret, ST_ret.
  destruct (negb _); [done|]. destruct (_ <=? _); [done|]. destruct (_ <? _); [done|].
  destruct (kernel NR_mprotect _ _) as [r [m w]] eqn:Ek.
  pose proof (abi_mprotect_mem _ _ _ _ Ek) as Em. simpl in Em. subst m.
  destruct (_ <? 0); done.
Qed.

(** The kernel is entered at most once, for [mprotect]. *)
Lemma arena_alloc_kst a size al exec (p : Proc W) :
  let p' := (arena_alloc a size al exec p).2 in
  kst p' = kst p \/ exists args r st, kernel NR_mprotect args (mem p, kst p) = (r, st) /\ kst p' = st.2.
Proof.
  cbn zeta. unfold arena_alloc, getpagesize, gets, mprotect, syscall, mbind, ST_bind, mret, ST_ret.
  destruct (negb _); [by left|]. destruct (_ <=? _); [by left|]. destruct (_ <? _); [by left|].
  destruct (kernel NR_mprotect _ _) as [r [m w]] eqn:Ek. right.
  eexists _, r, (m, w). split; [exact Ek|]. destruct (_ <? 0); done.
Qed.

Lemma mem_alloc_code_ok size al (p : Proc W) ptr p' :
  arena_wf (pagesize p) (main_arena_code p) -> request_ok size al -> KernelAbi W (pagesize p) ->
  mem_alloc_code size al p = (ptr, p') ->
  alloc_outcome (main_arena_code p) size (effective_align al) (pagesize p) ptr (main_arena_code p') /\
  mem p' = mem p /\ sp p' = sp p /\ pagesize p' = pagesize p /\
  main_arena_data p' = main_arena_data p.
Proof.
  intros Hwf Hreq Habi Hrun. unfold mem_alloc_code in Hrun.
  rewrite (bind_unfold _ _ _ (main_arena_code p) p) in Hrun by done.
  pose proof (arena_alloc_frame (main_arena_code p) size al true p Habi) as Hf.
  destruct (arena_alloc _ _ _ _ p) as [[ptr1 a1] p1] eqn:E.
  rewrite (bind_unfold _ _ _ _ _ E) in Hrun. injection Hrun as <- <-.
  split; [by apply (arena_alloc_outcome _ _ _ _ _ _ _ _ Hwf Hreq Habi E)|].
  simpl in *. tauto.
Qed.

Lemma mem_alloc_data_ok size al (p : Proc W) ptr p' :
  arena_wf (pagesize p) (main_arena_data p) -> request_ok size al -> KernelAbi W (pagesize p) ->
  mem_alloc_data size al p = (ptr, p') ->
  alloc_outcome (main_arena_data p) size (effective_align al) (pagesize p) ptr (main_arena_data p') /\
  mem p' = mem p /\ sp p' = sp p /\ pagesize p' = pagesize p /\
  (kst p' = kst p \/ exists args r st, kernel NR_mprotect args (mem p, kst p) = (r, st) /\ kst p' = st.2).
Proof.
  intros Hwf Hreq Habi Hrun. unfold mem_alloc_data in Hrun.
  rewrite (bind_unfold _ _ _ (main_arena_data p) p) in Hrun by done.
  pose proof (arena_alloc_frame (main_arena_data p) size al false p Habi) as Hf.
  pose proof (arena_alloc_kst (main_arena_data p) size al false p) as Hk.
  destruct (arena_alloc _ _ _ _ p) as [[ptr1 a1] p1] eqn:E.
  rewrite (bind_unfold _ _ _ _ _ E) in Hrun. injection Hrun as <- <-.
  split; [by apply (arena_alloc_outcome _ _ _ _ _ _ _ _ Hwf Hreq Habi E)|].
  simpl in *. tauto.
Qed.

(** ** Sequences of allocations *)

(** Serve the requests in order; the blocks handed out, in order, with their
    sizes (failed requests hand out nothing). *)
Fixpoint alloc_all (a : Arena) (exec : bool) (reqs : list (Z * Z)) :
    ST (Proc W) (list (Z * Z) * Arena) :=
  match reqs with
  | [] => mret ([], a)
  | (size, al) :: reqs' =>
      '(ptr, a') ← arena_alloc a size al exec;
      '(blocks, a'') ← alloc_all a' exec reqs';
      mret (if BAD_ADDR ptr then blocks else (ptr, size) :: blocks, a'')
  end.

(** Blocks are laid out upwards from [lo] to [hi] without overlap. *)
Fixpoint stacked (lo hi : Z) (blocks : list (Z * Z)) : Prop :=
  match blocks with
  | [] => lo <= hi
  | (ptr, size) :: bs => lo <= ptr /\ 0 <= size /\ stacked (ptr + size) hi bs
  end.

Lemma stacked_hi lo hi bs : stacked lo hi bs -> lo <= hi.
Proof.
  revert lo; induction bs as [|[ptr size] bs IH]; simpl; [done|].
  intros lo (H1 & H2 & H3). apply IH in H3. lia.
Qed.

Lemma stacked_weaken lo lo' hi bs : lo' <= lo -> stacked lo hi bs -> stacked lo' hi bs.
Proof. destruct bs as [|[ptr size] bs]; simpl; [lia|]. intros Hle (H1 & H2 & H3). split; [lia | done]. Qed.

Lemma stacked_inside lo hi bs ptr size :
  stacked lo hi bs -> (ptr, size) ∈ bs -> lo <= ptr /\ 0 <= size /\ ptr + size <= hi.
Proof.
  revert lo; induction bs as [|[ptr' size'] bs IH]; simpl; intros lo Hs Hin.
  - by apply not_elem_of_nil in Hin.
  - destruct Hs as (H1 & H2 & H3). apply elem_of_cons in Hin as [[= -> ->]|Hin].
    + apply stacked_hi in H3. lia.
    + destruct (IH _ H3 Hin). lia.
Qed.

(** Stacked blocks are pairwise disjoint. *)
Lemma stacked_disjoint lo hi bs i j b1 b2 :
  stacked lo hi bs -> (i < j)%nat -> bs !! i = Some b1 -> bs !! j = Some b2 ->
  b1.1 + b1.2 <= b2.1.
Proof.
  revert lo i j; induction bs as [|[ptr size] bs IH]; intros lo i j Hs Hij H1 H2; [done|].
  destruct Hs as (Hlo & Hsz & Hs). destruct j as [|j]; [lia|]. simpl in H2.
  destruct i as [|i]; simpl in H1.
  - injection H1 as <-. destruct b2 as [p2 s2].
    pose proof (stacked_inside _ _ _ _ _ Hs (list_elem_of_lookup_2 _ _ _ H2)). simpl. lia.
  - eapply (IH _ i j); eauto. lia.
Qed.

Lemma arena_alloc_pagesize a size al exec (p : Proc W) :
  pagesize (arena_alloc a size al exec p).2 = pagesize p.
Proof.
  unfold arena_alloc, getpagesize, gets, mprotect, syscall, mbind, ST_bind, mret, ST_ret.
  repeat (case_match; simpl in *; simplify_eq; try done).
Qed.

Lemma alloc_all_stacked reqs a exec (p : Proc W) blocks a' p' :
  arena_wf (pagesize p) a -> Forall (fun r => request_ok r.1 r.2) reqs ->
  KernelAbi W (pagesize p) ->
  alloc_all a exec reqs p = ((blocks, a'), p') ->
  arena_wf (pagesize p) a' /\ start a' = start a /\ end_ a' = end_ a /\
  stacked (brk a) (brk a') blocks.
Proof.
  intros Hwf Hreqs. revert a p blocks p' Hwf.
  induction Hreqs as [|[size al] reqs Hreq _ IH]; intros a p blocks p' Hwf Habi Hrun; simpl in Hrun.
  - injection Hrun as <- <- <-. simpl. split_and!; done || lia.
  - unfold mbind, ST_bind, mret, ST_ret in Hrun.
    destruct (arena_alloc a size al exec p) as [[ptr a1] p1] eqn:E1.
    destruct (alloc_all a1 exec reqs p1) as [[bs a2] p2] eqn:E2.
    injection Hrun as <- <- <-.
    pose proof (arena_alloc_pagesize a size al exec p) as Hpg. rewrite E1 in Hpg. simpl in Hpg.
    destruct (arena_alloc_outcome _ _ _ _ _ _ _ _ Hwf Hreq Habi E1)
      as [Hbad -> | Hr Hm Hs He Hb Hp Hwf1].
    + rewrite Hbad. rewrite <- Hpg in Hwf, Habi |- *. by apply (IH _ _ _ _ Hwf Habi E2).
    + rewrite <- Hpg in Hwf1, Habi |- *. destruct (IH _ _ _ _ Hwf1 Habi E2) as (H1 & H2 & H3 & H4).
      destruct Hreq as [Hsz _]. simpl in Hsz.
      split; [done|]. split; [congruence|]. split; [congruence|].
      cbn [fst snd] in *. rewrite Hb in H4. destruct (BAD_ADDR ptr).
      * eapply stacked_weaken; [|exact H4]. lia.
      * simpl. split; [lia|]. split; [lia | done].
Qed.

(** The address a request is served at, and the test that it fits. *)
Definition alloc_addr (a : Arena) (alignment : Z) : Z :=
  ALIGN_UP (brk a) (effective_align alignment).

(** The slow path's comparison of [brk] decides whether the block fits. *)
Lemma grow_check_exact ps a b size :
  arena_wf ps a -> 0 <= size < 2 ^ 62 -> brk a <= b <= 2 ^ 62 + 2 ^ 61 -> brkp a < b + size ->
  let pg := ALIGN_UP (u64 (size - (brkp a - b))) ps in
  (end_ a <? u64 (brk a + pg)) = negb (b + size <=? end_ a).
Proof.
  intros Hwf Hsz Hb Hgt. rewrite u64_small by (destruct Hwf; lia). intros pg.
  destruct (Z.ltb_spec (end_ a) (u64 (brk a + pg))) as [Hlt|Hge];
    destruct (Z.leb_spec (b + size) (end_ a)) as [Hfit|Hno]; try done; exfalso.
  - pose proof Hwf as [Hps Ho Hs Hh Hp He]. pose proof (pow2_pos _ Hps).
    destruct (ALIGN_UP_spec (size - (brkp a - b)) ps Hps ltac:(lia) ltac:(lia)) as [Hr Hm].
    fold pg in Hr, Hm. rewrite u64_small in Hlt by lia.
    assert (brkp a + pg < end_ a + ps) by lia.
    assert ((brkp a + pg) `mod` ps = 0) as Hmm by (rewrite Z.add_mod, Hp, Hm by lia; done).
    apply Z.mod_divide in Hmm; [|lia]. apply Z.mod_divide in He; [|lia].
    destruct Hmm as [x Hx], He as [y Hy]. rewrite Hy in *. assert (x < y + 1) by nia. nia.
  - pose proof (grow_in_bounds ps a (size - (brkp a - b)) Hwf) as Hg. fold pg in Hg.
    destruct Hwf. destruct Hg; lia.
Qed.

(** C1. A successful [arena_alloc] returns a pointer with the requested
    alignment (at least 64), at or above the old break; the block ends at the
    new break, inside the accessible pages, which stay inside the arena; the
    invariant holds again. *)
Theorem arena_alloc_sound a size alignment exec (p : Proc W) ptr a' p' :
  arena_wf (pagesize p) a -> request_ok size alignment -> KernelAbi W (pagesize p) ->
  arena_alloc a size alignment exec p = ((ptr, a'), p') -> BAD_ADDR ptr = false ->
  ptr `mod` effective_align alignment = 0 /\ brk a <= ptr /\ ptr + size = brk a' /\
  brk a' <= brkp a' <= end_ a /\ arena_wf (pagesize p) a'.
Proof.
  intros Hwf Hreq Habi Hrun Hok.
  destruct (arena_alloc_outcome _ _ _ _ _ _ _ _ Hwf Hreq Habi Hrun)
    as [Hbad _ | Hr Hm Hs He Hb Hp Hwf']; [congruence|].
  rewrite <- He. split_and!; try (done || lia); destruct Hwf'; lia.
Qed.

(** The blocks handed out by any sequence of requests are pairwise
    disjoint and lie between the old and the new break, inside the arena. *)
Theorem alloc_all_disjoint reqs a exec (p : Proc W) blocks a' p' :
  arena_wf (pagesize p) a -> Forall (fun r => request_ok r.1 r.2) reqs ->
  KernelAbi W (pagesize p) ->
  alloc_all a exec reqs p = ((blocks, a'), p') ->
  (forall i j b1 b2, (i < j)%nat -> blocks !! i = Some b1 -> blocks !! j = Some b2 ->
     b1.1 + b1.2 <= b2.1) /\
  (forall ptr size, (ptr, size) ∈ blocks -> start a <= ptr /\ ptr + size <= end_ a).
Proof.
  intros Hwf Hreqs Habi Hrun.
  destruct (alloc_all_stacked _ _ _ _ _ _ _ Hwf Hreqs Habi Hrun) as (Hwf' & Hs & He & Hst).
  split.
  - intros i j b1 b2. by apply stacked_disjoint with (lo := brk a) (hi := brk a').
  - intros ptr size Hin. destruct (stacked_inside _ _ _ _ _ Hst Hin) as (H1 & H2 & H3).
    destruct Hwf, Hwf'. lia.
Qed.

(** When [mprotect] succeeds, a request is refused exactly when its
    alignment is not a power of two ([-EINVAL]) or the aligned block does not
    fit before the end of the arena ([-ENOMEM]); a refused request leaves the
    arena as it was. *)
Theorem arena_alloc_refusal a size alignment exec (p : Proc W) :
  arena_wf (pagesize p) a -> request_ok size alignment ->
  (forall args st, s32 (kernel NR_mprotect args st).1 = 0) ->
  let al := effective_align alignment in
  (arena_alloc a size alignment exec p).1 =
    if negb (Z.land al (al - 1) =? 0) then (u64 (- EINVAL), a)
    else if negb (alloc_addr a alignment + size <=? end_ a) then (u64 (- ENOMEM), a)
    else (alloc_addr a alignment, ((arena_alloc a size alignment exec p).1).2).
Proof.
  intros Hwf Hreq Hmp al. subst al. unfold arena_alloc. fold (effective_align alignment).
  fold (alloc_addr a alignment).
  destruct (Z.eqb_spec (Z.land (effective_align alignment) (effective_align alignment - 1)) 0)
    as [Hl|Hl]; cbn [negb]; [|done].
  destruct (effective_align_pow2 _ _ Hreq Hl) as [Hp2 Hal].
  pose proof Hwf as [Hps Ho Hs Hh Hb He]. destruct Hreq as [Hsz _].
  destruct (ALIGN_UP_spec (brk a) _ Hp2 ltac:(lia) ltac:(lia)) as [Hr Hm].
  fold (alloc_addr a alignment) in Hr, Hm. set (b := alloc_addr a alignment) in *.
  rewrite (u64_small (b + size)) by lia.
  destruct (Z.leb_spec (b + size) (brkp a)) as [Hle|Hgt].
  { rewrite (proj2 (Z.leb_le (b + size) (end_ a))) by lia. done. }
  unfold getpagesize, gets, mprotect, syscall, mbind, ST_bind, mret, ST_ret.
  pose proof (grow_check_exact (pagesize p) a b size Hwf Hsz ltac:(lia) Hgt) as Hex.
  cbn zeta in Hex. rewrite Hex. destruct (b + size <=? end_ a); cbn [negb]; [|done].
  cbv beta zeta.
  match goal with |- context [kernel NR_mprotect ?l ?st] => specialize (Hmp l st) end.
  destruct (kernel NR_mprotect _ _) as [r [m w]]. simpl in Hmp.
  rewrite swrap_wrap_le, Hmp by lia. done.
Qed.

(** A successful [mem_init] leaves two arenas of the configured sizes that
    satisfy the invariant. *)
Theorem mem_init_wf (p p' : Proc W) :
  KernelAbi W (pagesize p) -> mem_init p = (0, p') ->
  arena_wf (pagesize p) (main_arena_data p') /\ arena_wf (pagesize p) (main_arena_code p') /\
  end_ (main_arena_data p') - start (main_arena_data p') = MEM_DATA_SIZE /\
  end_ (main_arena_code p') - start (main_arena_code p') = MEM_CODE_SIZE.
Proof.
  intros Habi Hrun.
  assert (forall a base size q a' q', size = MEM_DATA_SIZE \/ size = MEM_CODE_SIZE ->
    arena_init a base size q = ((0, a'), q') ->
    arena_wf (pagesize p) a' /\ end_ a' - start a' = size) as Hinit.
  { intros a base size q a' q' Hsize Hi.
    unfold arena_init, mmap, syscall, mbind, ST_bind, mret, ST_ret in Hi.
    destruct (kernel NR_mmap _ _) as [r [m w]] eqn:Ek.
    destruct (BAD_ADDR (u64 r)) eqn:Eb.
    { exfalso. unfold BAD_ADDR in Eb. rewrite wrap_wrap in Eb by lia. apply Z.ltb_lt in Eb.
      injection Hi as Hi _ _. pose proof (wrap_range 64 r ltac:(lia)) as Hr.
      unfold in_u in Hr. unfold swrap in Hi. zdm. }
    injection Hi as <- _.
    assert (BAD_ADDR r = false) as Eb' by (unfold BAD_ADDR in *; by rewrite wrap_wrap in Eb by lia).
    destruct (abi_mmap _ _ _ _ _ _ _ _ _ Ek Eb') as [Hal Hhi].
    destruct abi_pagesize as [Hp2 Hps]. pose proof (wrap_range 64 r ltac:(lia)) as Hr.
    unfold in_u in Hr. unfold MEM_DATA_SIZE, MEM_CODE_SIZE in Hsize.
    assert ((u64 r + size) `mod` pagesize p = 0) as Hend.
    { destruct Hp2 as (k & Hk & Hpk).
      assert (k <= 16).
      { apply (Z.pow_le_mono_r_iff 2); lia. }
      rewrite Z.add_mod, Hal by lia. rewrite Z.add_0_l, Z.mod_mod by lia.
      rewrite Hpk. replace size with (size / 2 ^ 16 * 2 ^ 16) by (destruct Hsize; subst; done).
      replace (2 ^ 16) with (2 ^ (16 - k) * 2 ^ k) by (rewrite <- Z.pow_add_r by lia; f_equal; lia).
      rewrite Z.mul_assoc. apply Z_mod_mult. }
    rewrite (u64_small (u64 r + size)) by lia.
    split; [constructor; simpl; try done; lia | simpl; lia]. }
  unfold mem_init, gets, modify, mbind, ST_bind, mret, ST_ret in Hrun.
  destruct (arena_init (main_arena_data p) _ _ p) as [[r1 d] p1] eqn:E1.
  destruct (Z.eqb_spec r1 0) as [->|Hne]; cbn [negb] in Hrun; [|injection Hrun; lia].
  destruct (arena_init _ _ MEM_CODE_SIZE _) as [[r2 c] p2] eqn:E2.
  destruct (Z.eqb_spec r2 0) as [->|Hne]; cbn [negb] in Hrun; [|injection Hrun; lia].
  injection Hrun as <-.
  destruct (Hinit _ _ _ _ _ _ (or_introl eq_refl) E1) as [Hd1 Hd2].
  destruct (Hinit _ _ _ _ _ _ (or_intror eq_refl) E2) as [Hc1 Hc2].
  assert (main_arena_data p2 = d) as Hd.
  { unfold arena_init, mmap, syscall, mbind, ST_bind, mret, ST_ret in E2.
    repeat (case_match; simpl in *; simplify_eq; try done). }
  simpl. rewrite Hd. done.
Qed.

End Memory.

(** ** Concrete runs *)

Definition arena0 : Arena :=
  {| start := 0x10000; end_ := 0x20000; brk := 0x10000; brkp := 0x10000 |}.
Definition proc0 : Proc Pipes := mkProc ∅ (mkPipes ∅ ∅ 0 0) arena0 arena0 4096 0.

Lemma arena0_wf : arena_wf 4096 arena0.
Proof. constructor; simpl; try (exists 12); done || lia. Qed.

Lemma arena_alloc_sound_witness :
  0x10000 `mod` 0x80 = 0 /\ 0x10000 <= 0x10000 /\ 0x10000 + 100 = 0x10064 /\
  0x10064 <= 0x11000 <= 0x20000 /\
  arena_wf 4096 {| start := 0x10000; end_ := 0x20000; brk := 0x10064; brkp := 0x11000 |}.
Proof.
  apply (arena_alloc_sound arena0 100 0x80 true proc0 0x10000
           {| start := 0x10000; end_ := 0x20000; brk := 0x10064; brkp := 0x11000 |} proc0).
  - exact arena0_wf.
  - unfold request_ok; lia.
  - exact loopback_abi.
  - vm_compute. reflexivity.
  - vm_compute. reflexivity.
Defined.

Lemma alloc_all_disjoint_witness :
  let blocks := [(0x10000, 100); (0x10080, 0x2000); (0x13000, 5)] in
  (forall i j b1 b2, (i < j)%nat -> blocks !! i = Some b1 -> blocks !! j = Some b2 ->
     b1.1 + b1.2 <= b2.1) /\
  (forall ptr size, (ptr, size) ∈ blocks -> 0x10000 <= ptr /\ ptr + size <= 0x20000).
Proof.
  apply (alloc_all_disjoint [(100, 0); (0x2000, 0x80); (0x100000, 8); (5, 0x1000); (1, 0x41)]
           arena0 true proc0 _
           {| start := 0x10000; end_ := 0x20000; brk := 0x13005; brkp := 0x14000 |} proc0).
  - exact arena0_wf.
  - repeat constructor; simpl; lia.
  - exact loopback_abi.
  - vm_compute. reflexivity.
Defined.

Lemma arena_alloc_refusal_witness :
  (arena_alloc arena0 0x10001 0x40 false proc0).1 = (u64 (- ENOMEM), arena0).
Proof.
  rewrite (arena_alloc_refusal arena0 0x10001 0x40 false proc0).
  - vm_compute. reflexivity.
  - exact arena0_wf.
  - unfold request_ok; lia.
  - intros args st. reflexivity.
Defined.

Lemma mem_init_wf_witness :
  let p' := (mem_init proc0).2 in
  arena_wf 4096 (main_arena_data p') /\ arena_wf 4096 (main_arena_code p') /\
  end_ (main_arena_data p') - start (main_arena_data p') = MEM_DATA_SIZE /\
  end_ (main_arena_code p') - start (main_arena_code p') = MEM_CODE_SIZE.
Proof.
  apply (mem_init_wf proc0 (mem_init proc0).2).
  - exact loopback_abi.
  - vm_compute. reflexivity.
Defined.
