(* ===== verification/RtldTable.v ===== *)
(** * The code cache index, [rtld_set] and [rtld_resolve] of [client/rtld.c]

    An open-addressing hash table with linear probing from guest addresses to
    translated entry points.  Entries are never removed; address 0 marks a
    free slot.  The table is proved to refine a finite map, and a concurrent
    reader is proved to see either the old or the new contents. *)

From Stdlib Require Import ZArith Lia.
From stdpp Require Import base numbers list list_numbers option gmap.
From S2P Require Import Prelude.

Definition RTLD_HASH_BITS : Z := 17.
Definition RTLD_HASH_MASK : Z := Z.shiftl 1 RTLD_HASH_BITS - 1.
Definition RTLD_HASH (addr : Z) : Z := Z.land (Z.shiftr addr 2) RTLD_HASH_MASK.

(** [struct RtldObject]. *)
Record RtldObject := mkObj { addr : Z; entry : Z; base : Z; size : Z }.

(** The zero-initialised array [r->objects]. *)
Abbreviation table := (gmap Z RtldObject).
Definition obj0 : RtldObject := mkObj 0 0 0 0.
Definition slot (objects : table) (j : Z) : RtldObject := default obj0 (objects !! j).

(** Number of slots, the bound of both loops. *)
Definition RTLD_SLOTS : nat := Z.to_nat (RTLD_HASH_MASK + 1).

Fixpoint rtld_resolve_loop (n : nat) (objects : table) (a hash i : Z) : Z * option Z :=
  match n with
  | O => (- ENOENT, None)
  | S n' =>
      let obj := slot objects (Z.land (hash + i) RTLD_HASH_MASK) in
      let obj_addr := addr obj in
      if obj_addr =? 0 then (- ENOENT, None)
      else if obj_addr =? a then (0, Some (entry obj))
      else rtld_resolve_loop n' objects a hash (i + 1)
  end.

(** The return code, and what is stored to [*out_entry] if anything. *)
Definition rtld_resolve (objects : table) (a : Z) : Z * option Z :=
  if a =? 0 then (- ENOENT, None)
  else rtld_resolve_loop RTLD_SLOTS objects a (RTLD_HASH a) 0.

Fixpoint rtld_set_loop (n : nat) (objects : table) (a e b s hash i : Z) : Z * table :=
  match n with
  | O => (- ENOSPC, objects)
  | S n' =>
      let j := Z.land (hash + i) RTLD_HASH_MASK in
      let obj_addr := addr (slot objects j) in
      if obj_addr =? a then (- EEXIST, objects)
      else if obj_addr =? 0 then (0, <[j := mkObj a e b s]> objects)
      else rtld_set_loop n' objects a e b s hash (i + 1)
  end.

Definition rtld_set (objects : table) (a e obj_base obj_size : Z) : Z * table :=
  if a =? 0 then (- EINVAL, objects)
  else rtld_set_loop RTLD_SLOTS objects a e obj_base obj_size (RTLD_HASH a) 0.

(** ** Probing *)

Definition SIZE : Z := 2 ^ RTLD_HASH_BITS.

Lemma land_mask x : Z.land x RTLD_HASH_MASK = x `mod` SIZE.
Proof. unfold RTLD_HASH_MASK, SIZE. apply (Z.land_ones x RTLD_HASH_BITS). unfold RTLD_HASH_BITS. lia. Qed.

Lemma slots_size : Z.of_nat RTLD_SLOTS = SIZE.
Proof. unfold RTLD_SLOTS. rewrite Z2Nat.id; [reflexivity | vm_compute; discriminate]. Qed.

Lemma size_pos : 0 < SIZE.
Proof. unfold SIZE, RTLD_HASH_BITS. lia. Qed.

(** The [i]-th slot probed for a key with hash [h]. *)
Definition probed (t : table) (h i : Z) : RtldObject := slot t ((h + i) `mod` SIZE).

(** The slots before the [k]-th are taken by other keys. *)
Definition passed (t : table) (a k : Z) : Prop :=
  forall i, 0 <= i < k -> addr (probed t (RTLD_HASH a) i) <> 0 /\ addr (probed t (RTLD_HASH a) i) <> a.

(** The probe for [a] stops at step [k]: a free slot or the key itself. *)
Definition stops (t : table) (a k : Z) : Prop :=
  0 <= k < SIZE /\ passed t a k /\
  (addr (probed t (RTLD_HASH a) k) = 0 \/ addr (probed t (RTLD_HASH a) k) = a).

Lemma probe_cases n t a i :
  0 <= i -> passed t a i -> i + Z.of_nat n = SIZE ->
  passed t a SIZE \/ exists k, i <= k /\ stops t a k.
Proof.
  revert i; induction n as [|n IH]; intros i Hi Hp Hn.
  - left. by replace SIZE with i by lia.
  - destruct (decide (addr (probed t (RTLD_HASH a) i) = 0 \/ addr (probed t (RTLD_HASH a) i) = a))
      as [Hs|Hs].
    + right. exists i. split; [lia|]. split; [lia|]. done.
    + destruct (IH (i + 1)) as [|(k & Hk & Hst)]; [lia| |lia|by left|].
      * intros i' Hi'. destruct (decide (i' = i)) as [->|]; [tauto | apply Hp; lia].
      * right. exists k. split; [lia | done].
Qed.

Lemma probe_stop t a : passed t a SIZE \/ exists k, stops t a k.
Proof.
  destruct (probe_cases RTLD_SLOTS t a 0) as [|(k & _ & Hk)]; [lia | | | by left | eauto].
  - intros i Hi. lia.
  - rewrite slots_size. lia.
Qed.

Lemma resolve_loop_stop n t a i k :
  0 <= i <= k -> k < i + Z.of_nat n -> stops t a k ->
  rtld_resolve_loop n t a (RTLD_HASH a) i =
    let o := probed t (RTLD_HASH a) k in
    if addr o =? 0 then (- ENOENT, None) else (0, Some (entry o)).
Proof.
  intros Hi Hk (Hk0 & Hp & Hs). revert i Hi Hk; induction n as [|n IH]; intros i Hi Hk; [lia|].
  simpl. rewrite land_mask. fold (probed t (RTLD_HASH a) i).
  destruct (decide (i = k)) as [->|Hne].
  - destruct (Z.eqb_spec (addr (probed t (RTLD_HASH a) k)) 0) as [|Hz]; [done|].
    rewrite (proj2 (Z.eqb_eq _ _)) by tauto. done.
  - destruct (Hp i) as [Hz Ha]; [lia|].
    rewrite (proj2 (Z.eqb_neq _ _) Hz), (proj2 (Z.eqb_neq _ _) Ha). apply IH; lia.
Qed.

Lemma resolve_loop_full n t a i :
  0 <= i -> i + Z.of_nat n <= SIZE -> passed t a SIZE ->
  rtld_resolve_loop n t a (RTLD_HASH a) i = (- ENOENT, None).
Proof.
  intros Hi Hn Hp. revert i Hi Hn; induction n as [|n IH]; intros i Hi Hn; [done|].
  simpl. rewrite land_mask. fold (probed t (RTLD_HASH a) i).
  destruct (Hp i) as [Hz Ha]; [lia|].
  rewrite (proj2 (Z.eqb_neq _ _) Hz), (proj2 (Z.eqb_neq _ _) Ha). apply IH; lia.
Qed.

Lemma set_loop_stop n t a e b s i k :
  a <> 0 -> 0 <= i <= k -> k < i + Z.of_nat n -> stops t a k ->
  rtld_set_loop n t a e b s (RTLD_HASH a) i =
    if addr (probed t (RTLD_HASH a) k) =? 0
    then (0, <[(RTLD_HASH a + k) `mod` SIZE := mkObj a e b s]> t) else (- EEXIST, t).
Proof.
  intros Ha0 Hi Hk (Hk0 & Hp & Hs). revert i Hi Hk; induction n as [|n IH]; intros i Hi Hk; [lia|].
  simpl. rewrite land_mask. fold (probed t (RTLD_HASH a) i).
  destruct (decide (i = k)) as [->|Hne].
  - destruct (Z.eqb_spec (addr (probed t (RTLD_HASH a) k)) 0) as [Hz|Hz].
    + rewrite (proj2 (Z.eqb_neq _ _)) by lia. done.
    + rewrite (proj2 (Z.eqb_eq _ _)) by tauto. done.
  - destruct (Hp i) as [Hz Ha]; [lia|].
    rewrite (proj2 (Z.eqb_neq _ _) Hz), (proj2 (Z.eqb_neq _ _) Ha). apply IH; lia.
Qed.

Lemma set_loop_full n t a e b s i :
  0 <= i -> i + Z.of_nat n <= SIZE -> passed t a SIZE ->
  rtld_set_loop n t a e b s (RTLD_HASH a) i = (- ENOSPC, t).
Proof.
  intros Hi Hn Hp. revert i Hi Hn; induction n as [|n IH]; intros i Hi Hn; [done|].
  simpl. rewrite land_mask. fold (probed t (RTLD_HASH a) i).
  destruct (Hp i) as [Hz Ha]; [lia|].
  rewrite (proj2 (Z.eqb_neq _ _) Hz), (proj2 (Z.eqb_neq _ _) Ha). apply IH; lia.
Qed.

(** ** Invariant *)

(** Every key sits where its probe sequence finds it: the slots probed before
    are taken by other keys. *)
Definition table_wf (t : table) : Prop :=
  forall j, 0 <= j < SIZE -> addr (slot t j) <> 0 ->
  exists i, 0 <= i < SIZE /\ (RTLD_HASH (addr (slot t j)) + i) `mod` SIZE = j /\
    passed t (addr (slot t j)) i.

(** The key [a] is stored with entry point [e]. *)
Definition stored (t : table) (a e : Z) : Prop :=
  exists j, 0 <= j < SIZE /\ addr (slot t j) = a /\ entry (slot t j) = e.

Lemma resolve_spec t a :
  table_wf t -> a <> 0 ->
  match rtld_resolve t a with
  | (r, Some e) => r = 0 /\ stored t a e
  | (r, None) => r = - ENOENT /\ forall e, ~ stored t a e
  end.
Proof.
  intros Hwf Ha. unfold rtld_resolve. rewrite (proj2 (Z.eqb_neq a 0) Ha).
  pose proof size_pos as Hsz.
  destruct (probe_stop t a) as [Hfull|(k & Hk)].
  - rewrite resolve_loop_full by (rewrite ?slots_size; done || lia). split; [done|].
    intros e (j & Hj & Hja & _). destruct (Hwf j Hj) as (i & Hi & Hij & _); [lia|].
    rewrite Hja in Hij. destruct (Hfull i Hi) as [_ Hne]. apply Hne.
    unfold probed. by rewrite Hij.
  - pose proof Hk as (Hk0 & Hp & Hs).
    rewrite (resolve_loop_stop _ _ _ _ k) by (rewrite ?slots_size; done || lia). cbn zeta.
    destruct (Z.eqb_spec (addr (probed t (RTLD_HASH a) k)) 0) as [Hz|Hz]; split; try done.
    + intros e (j & Hj & Hja & _). destruct (Hwf j Hj) as (i & Hi & Hij & Hpi); [lia|].
      rewrite Hja in Hij, Hpi.
      assert (addr (probed t (RTLD_HASH a) i) = a) as Hai by (unfold probed; by rewrite Hij).
      destruct (Z.lt_trichotomy i k) as [Hlt|[->|Hgt]].
      * destruct (Hp i); [lia|]. done.
      * lia.
      * destruct (Hpi k); [lia|]. done.
    + exists ((RTLD_HASH a + k) `mod` SIZE). split; [apply Z.mod_pos_bound; lia|].
      split; [|done]. unfold probed in *. tauto.
Qed.

Lemma slot_insert t j o j' : slot (<[j := o]> t) j' = if decide (j = j') then o else slot t j'.
Proof. unfold slot. rewrite lookup_insert. by case_decide. Qed.

(** Filling a free slot leaves the probes past taken slots as they were. *)
Lemma passed_insert t j o a k :
  addr (slot t j) = 0 -> passed t a k -> passed (<[j := o]> t) a k.
Proof.
  intros Hz Hp i Hi. destruct (Hp i Hi) as [H1 H2]. unfold probed in *.
  rewrite slot_insert. destruct (decide _) as [E|]; [exfalso; congruence | done].
Qed.

Lemma insert_wf t a k e b s :
  table_wf t -> a <> 0 -> stops t a k -> addr (probed t (RTLD_HASH a) k) = 0 ->
  table_wf (<[(RTLD_HASH a + k) `mod` SIZE := mkObj a e b s]> t).
Proof.
  intros Hwf Ha (Hk & Hp & _) Hz j Hj. rewrite slot_insert.
  destruct (decide _) as [<-|Hne]; simpl; intros Hnz.
  - exists k. split; [done|]. split; [done|]. by apply passed_insert.
  - destruct (Hwf j Hj Hnz) as (i & Hi & Hij & Hpi).
    exists i. split; [done|]. split; [done|]. by apply passed_insert.
Qed.

Lemma stored_insert t a k e b s a' e' :
  a' <> 0 -> addr (probed t (RTLD_HASH a) k) = 0 ->
  stored (<[(RTLD_HASH a + k) `mod` SIZE := mkObj a e b s]> t) a' e' <->
  (a' = a /\ e' = e) \/ stored t a' e'.
Proof.
  intros Ha' Hz. unfold stored. setoid_rewrite slot_insert.
  set (j0 := (RTLD_HASH a + k) `mod` SIZE) in *.
  assert (0 <= j0 < SIZE) as Hj0 by (apply Z.mod_pos_bound, size_pos).
  change (addr (slot t j0) = 0) in Hz. split.
  - intros (j & Hj & H1 & H2). destruct (decide (j0 = j)); simpl in *; [left | right]; eauto.
  - intros [[-> ->]|(j & Hj & H1 & H2)].
    + exists j0. rewrite decide_True by done. done.
    + exists j. rewrite decide_False by (intros <-; congruence). done.
Qed.

(** ** Refinement of a finite map *)

(** The table implements the map [m] from guest addresses to entry points. *)
Definition refines (t : table) (m : gmap Z Z) : Prop :=
  table_wf t /\ m !! 0 = None /\ forall a e, a <> 0 -> m !! a = Some e <-> stored t a e.

Lemma refines_resolve t m a : refines t m -> (rtld_resolve t a).2 = m !! a.
Proof.
  intros (Hwf & H0 & Hm). destruct (decide (a = 0)) as [->|Ha]; [by rewrite H0|].
  pose proof (resolve_spec t a Hwf Ha) as Hr.
  destruct (rtld_resolve t a) as [r [e|]]; destruct Hr as [_ Hr]; simpl.
  - symmetry. by apply Hm.
  - destruct (m !! a) as [e|] eqn:E; [|done]. apply Hm in E; [|done]. by apply Hr in E.
Qed.

Lemma table_empty_refines : refines ∅ ∅.
Proof.
  split; [|split; [done|]].
  - intros j Hj Hnz. unfold slot in Hnz. by rewrite lookup_empty in Hnz.
  - intros a e Ha. rewrite lookup_empty. split; [done|].
    intros (j & Hj & H1 & _). unfold slot in H1. rewrite lookup_empty in H1. simpl in H1. lia.
Qed.

Lemma refines_set t m a e b s :
  refines t m -> a <> 0 ->
  match rtld_set t a e b s with
  | (r, t') =>
      (r = 0 /\ m !! a = None /\ refines t' (<[a := e]> m)) \/
      (r = - EEXIST /\ is_Some (m !! a) /\ t' = t) \/
      (r = - ENOSPC /\ m !! a = None /\ t' = t /\ forall j, 0 <= j < SIZE -> addr (slot t j) <> 0)
  end.
Proof.
  intros Href Ha. pose proof Href as (Hwf & H0 & Hm).
  pose proof (refines_resolve t m a Href) as Hres. unfold rtld_resolve in Hres.
  unfold rtld_set. rewrite (proj2 (Z.eqb_neq a 0) Ha) in *. pose proof size_pos as Hsz.
  destruct (probe_stop t a) as [Hfull|(k & Hk)].
  - rewrite set_loop_full by (rewrite ?slots_size; done || lia).
    rewrite resolve_loop_full in Hres by (rewrite ?slots_size; done || lia).
    right; right. repeat split; try done.
    intros j Hj. destruct (Hfull ((j - RTLD_HASH a) `mod` SIZE)) as [Hnz _];
      [apply Z.mod_pos_bound; lia|].
    unfold probed in Hnz. rewrite Zplus_mod_idemp_r in Hnz.
    replace (RTLD_HASH a + (j - RTLD_HASH a)) with j in Hnz by lia.
    by rewrite Z.mod_small in Hnz by lia.
  - rewrite (set_loop_stop _ _ _ _ _ _ _ k) by (rewrite ?slots_size; destruct Hk; done || lia).
    rewrite (resolve_loop_stop _ _ _ _ k) in Hres by (rewrite ?slots_size; destruct Hk; done || lia).
    cbn zeta in Hres.
    destruct (Z.eqb_spec (addr (probed t (RTLD_HASH a) k)) 0) as [Hz|Hz]; simpl in Hres.
    + left. split; [done|]. split; [done|]. split; [by apply insert_wf|].
      split; [by rewrite lookup_insert_ne|].
      intros a' e' Ha'. rewrite stored_insert by done. rewrite lookup_insert.
      case_decide as Heq.
      * subst a'. split; [intros [= ->]; by left|].
        intros [[_ ->]|Hst]; [done|]. apply Hm in Hst; [|done]. congruence.
      * rewrite Hm by done. split; [by right|]. intros [[-> _]|]; done.
    + right; left. split; [done|]. split; [|done]. rewrite <- Hres. eauto.
Qed.

(** ** Capacity *)

Lemma slot_keys_unique t j1 j2 :
  table_wf t -> 0 <= j1 < SIZE -> 0 <= j2 < SIZE ->
  addr (slot t j1) <> 0 -> addr (slot t j1) = addr (slot t j2) -> j1 = j2.
Proof.
  intros Hwf H1 H2 Hnz Heq.
  destruct (Hwf j1 H1 Hnz) as (i1 & Hi1 & E1 & P1).
  destruct (Hwf j2 H2) as (i2 & Hi2 & E2 & P2); [congruence|].
  rewrite <- Heq in E2, P2.
  destruct (Z.lt_trichotomy i1 i2) as [Hlt|[->|Hgt]]; [|congruence|]; exfalso.
  - destruct (P2 i1) as [_ Hne]; [lia|]. apply Hne. unfold probed. by rewrite E1.
  - destruct (P1 i2) as [_ Hne]; [lia|]. apply Hne. unfold probed. rewrite E2. done.
Qed.

#[local] Opaque SIZE.

(** A full table stores as many keys as it has slots. *)
Lemma full_size t m :
  refines t m -> (forall j, 0 <= j < SIZE -> addr (slot t j) <> 0) ->
  SIZE <= Z.of_nat (base.size m).
Proof.
  intros (Hwf & H0 & Hm) Hfull.
  set (keys := (fun j => addr (slot t j)) <$> seqZ 0 SIZE).
  assert (length keys = Z.to_nat SIZE) as Hlen by (subst keys; rewrite length_fmap, length_seqZ; reflexivity).
  assert (NoDup keys) as Hnd.
  { apply NoDup_fmap_2_strong; [|apply NoDup_seqZ].
    intros j1 j2 Hj1%elem_of_seqZ Hj2%elem_of_seqZ Heq.
    apply (slot_keys_unique t j1 j2 Hwf); [lia | lia | apply Hfull; lia | exact Heq]. }
  assert ((list_to_set keys : gset Z) ⊆ dom m) as Hsub.
  { intros a Ha. apply elem_of_list_to_set in Ha. subst keys.
    apply list_elem_of_fmap in Ha as (j & -> & Hj%elem_of_seqZ).
    apply elem_of_dom. exists (entry (slot t j)). apply Hm; [apply Hfull; lia|].
    exists j. split; [lia | split; reflexivity]. }
  apply subseteq_size in Hsub. rewrite size_list_to_set, size_dom in Hsub by exact Hnd.
  pose proof size_pos. lia.
Qed.

(** ** Sequences of insertions *)

Fixpoint set_all (t : table) (ops : list (Z * Z * Z * Z)) : table :=
  match ops with
  | [] => t
  | (a, e, b, s) :: ops' => set_all (rtld_set t a e b s).2 ops'
  end.

(** The abstract contents: the first entry point stored for an address stays. *)
Fixpoint spec_all (m : gmap Z Z) (ops : list (Z * Z * Z * Z)) : gmap Z Z :=
  match ops with
  | [] => m
  | (a, e, _, _) :: ops' =>
      spec_all (if (a =? 0) then m else match m !! a with Some _ => m | None => <[a := e]> m end) ops'
  end.

Lemma set_all_refines ops t m :
  refines t m -> Z.of_nat (base.size m + length ops) <= SIZE ->
  refines (set_all t ops) (spec_all m ops).
Proof.
  revert t m; induction ops as [|[[[a e] b] s] ops IH]; intros t m Href Hlen; [done|].
  simpl in *. destruct (Z.eqb_spec a 0) as [->|Ha].
  - unfold rtld_set. rewrite Z.eqb_refl. apply IH; [done | lia].
  - pose proof (refines_set t m a e b s Href Ha) as Hs.
    destruct (rtld_set t a e b s) as [r t']. simpl.
    destruct Hs as [(_ & Hn & Hr)|[(_ & [x Hx] & ->)|(_ & Hn & -> & Hfull)]].
    + rewrite Hn. apply IH; [done|]. rewrite map_size_insert_None by done. lia.
    + rewrite Hx. apply IH; [done | lia].
    + pose proof (full_size t m Href Hfull). lia.
Qed.

(** C2. The hash table refines a finite map: starting from the zeroed table,
    after any sequence of at most [2^17] calls of [rtld_set], [rtld_resolve]
    returns 0 and the first entry point stored for the address, or [-ENOENT]
    for addresses never stored. *)
Theorem rtld_table_refines_map ops a :
  Z.of_nat (length ops) <= SIZE ->
  rtld_resolve (set_all ∅ ops) a =
  match spec_all ∅ ops !! a with Some e => (0, Some e) | None => (- ENOENT, None) end.
Proof.
  intros Hlen. pose proof (set_all_refines ops ∅ ∅ table_empty_refines Hlen) as Href.
  pose proof (refines_resolve _ _ a Href) as Hr. rewrite <- Hr. clear Hr.
  destruct (decide (a = 0)) as [->|Ha]; [done|].
  pose proof (resolve_spec _ a (proj1 Href) Ha) as Hs.
  destruct (rtld_resolve (set_all ∅ ops) a) as [r [e|]]; destruct Hs as [-> _]; done.
Qed.

Lemma rtld_table_refines_map_witness :
  rtld_resolve (set_all ∅ [(0x1000, 5, 0, 0); (0x81000, 6, 0, 0); (0x1000, 7, 0, 0)]) 0x81000
  = (0, Some 6).
Proof.
  rewrite (rtld_table_refines_map [(0x1000, 5, 0, 0); (0x81000, 6, 0, 0); (0x1000, 7, 0, 0)] 0x81000).
  - reflexivity.
  - vm_compute. discriminate.
Defined.

(** Every outcome of [rtld_set] on a table that implements the map [m]:
    success exactly on a new key, and then the table implements the extended
    map; [-EEXIST] on a stored key and [-ENOSPC] only when all [2^17] slots are
    taken, with the table unchanged. *)
Theorem rtld_set_outcomes t m a e b s :
  refines t m ->
  let '(r, t') := rtld_set t a e b s in
  (r = 0 /\ a <> 0 /\ m !! a = None /\ refines t' (<[a := e]> m)) \/
  (r = - EINVAL /\ a = 0 /\ t' = t) \/
  (r = - EEXIST /\ is_Some (m !! a) /\ t' = t) \/
  (r = - ENOSPC /\ m !! a = None /\ t' = t /\ SIZE <= Z.of_nat (base.size m)).
Proof.
  intros Href. destruct (decide (a = 0)) as [->|Ha].
  - unfold rtld_set. rewrite Z.eqb_refl. right; left. done.
  - pose proof (refines_set t m a e b s Href Ha) as Hs.
    destruct (rtld_set t a e b s) as [r t'].
    destruct Hs as [(-> & Hn & Hr)|[(-> & Hs & ->)|(-> & Hn & -> & Hfull)]].
    + left. done.
    + right; right; left. done.
    + right; right; right. split_and!; try done. by eapply full_size.
Qed.

Lemma rtld_set_outcomes_witness :
  let '(r, t') := rtld_set ∅ 0x400000 0x77 1 2 in
  (r = 0 /\ 0x400000 <> 0 /\ (∅ : gmap Z Z) !! 0x400000 = None /\
    refines t' (<[0x400000 := 0x77]> ∅)) \/
  (r = - EINVAL /\ 0x400000 = 0 /\ t' = ∅) \/
  (r = - EEXIST /\ is_Some ((∅ : gmap Z Z) !! 0x400000) /\ t' = ∅) \/
  (r = - ENOSPC /\ (∅ : gmap Z Z) !! 0x400000 = None /\ t' = ∅ /\
    SIZE <= Z.of_nat (base.size (∅ : gmap Z Z))).
Proof. apply (rtld_set_outcomes ∅ ∅ 0x400000 0x77 1 2). exact table_empty_refines. Defined.

(** ** Concurrent readers

    The comment in [rtld_set]: "We first find a spot, then populate the data,
    and then write the address, so that concurrent readers only ever see valid
    data."  One writer running [rtld_set] and one reader running
    [rtld_resolve] as interleaved memory accesses (the release store and the
    acquire load order the address after the data). *)

Inductive writer :=
  | WFind (i : Z)      (* about to load the address of probe [i] *)
  | WEntry (j : Z)     (* found the free slot [j]; the four stores, in order *)
  | WBase (j : Z)
  | WSize (j : Z)
  | WAddr (j : Z)
  | WDone (r : Z).

Inductive reader :=
  | RProbe (i : Z)     (* about to load the address of probe [i] *)
  | RFound (j : Z)     (* the address matched; about to load the entry *)
  | RDone (res : option Z).

Definition upd_entry (e : Z) (o : RtldObject) := mkObj (addr o) e (base o) (size o).
Definition upd_base (b : Z) (o : RtldObject) := mkObj (addr o) (entry o) b (size o).
Definition upd_size (s : Z) (o : RtldObject) := mkObj (addr o) (entry o) (base o) s.
Definition upd_addr (a : Z) (o : RtldObject) := mkObj a (entry o) (base o) (size o).

Section Concurrent.
Variables (a e b s : Z) (key : Z).

Definition at_probe (h i : Z) : Z := Z.land (h + i) RTLD_HASH_MASK.

Inductive wstep : table * writer -> table * writer -> Prop :=
  | w_exists t i : i <= RTLD_HASH_MASK -> addr (slot t (at_probe (RTLD_HASH a) i)) = a ->
      wstep (t, WFind i) (t, WDone (- EEXIST))
  | w_free t i : i <= RTLD_HASH_MASK -> addr (slot t (at_probe (RTLD_HASH a) i)) <> a ->
      addr (slot t (at_probe (RTLD_HASH a) i)) = 0 ->
      wstep (t, WFind i) (t, WEntry (at_probe (RTLD_HASH a) i))
  | w_next t i : i <= RTLD_HASH_MASK -> addr (slot t (at_probe (RTLD_HASH a) i)) <> a ->
      addr (slot t (at_probe (RTLD_HASH a) i)) <> 0 ->
      wstep (t, WFind i) (t, WFind (i + 1))
  | w_full t i : RTLD_HASH_MASK < i -> wstep (t, WFind i) (t, WDone (- ENOSPC))
  | w_entry t j : wstep (t, WEntry j) (<[j := upd_entry e (slot t j)]> t, WBase j)
  | w_base t j : wstep (t, WBase j) (<[j := upd_base b (slot t j)]> t, WSize j)
  | w_size t j : wstep (t, WSize j) (<[j := upd_size s (slot t j)]> t, WAddr j)
  | w_addr t j : wstep (t, WAddr j) (<[j := upd_addr a (slot t j)]> t, WDone 0).

Inductive rstep (t : table) : reader -> reader -> Prop :=
  | r_empty i : i <= RTLD_HASH_MASK -> addr (slot t (at_probe (RTLD_HASH key) i)) = 0 ->
      rstep t (RProbe i) (RDone None)
  | r_match i : i <= RTLD_HASH_MASK -> addr (slot t (at_probe (RTLD_HASH key) i)) <> 0 ->
      addr (slot t (at_probe (RTLD_HASH key) i)) = key ->
      rstep t (RProbe i) (RFound (at_probe (RTLD_HASH key) i))
  | r_next i : i <= RTLD_HASH_MASK -> addr (slot t (at_probe (RTLD_HASH key) i)) <> 0 ->
      addr (slot t (at_probe (RTLD_HASH key) i)) <> key ->
      rstep t (RProbe i) (RProbe (i + 1))
  | r_end i : RTLD_HASH_MASK < i -> rstep t (RProbe i) (RDone None)
  | r_load j : rstep t (RFound j) (RDone (Some (entry (slot t j)))).

(** Any interleaving of the two. *)
Inductive cstep : table * writer * reader -> table * writer * reader -> Prop :=
  | c_writer t w t' w' r : wstep (t, w) (t', w') -> cstep (t, w, r) (t', w', r)
  | c_reader t w r r' : rstep t r r' -> cstep (t, w, r) (t, w, r').

(** What the writer's program counter says about the table: before the last
    store it still implements [m], afterwards the extended map. *)
Definition winv (m : gmap Z Z) (t : table) (w : writer) : Prop :=
  match w with
  | WFind i => refines t m /\ 0 <= i /\ passed t a i
  | WEntry j | WBase j | WSize j | WAddr j =>
      refines t m /\ (exists i, stops t a i /\ j = (RTLD_HASH a + i) `mod` SIZE) /\
      addr (slot t j) = 0 /\
      match w with
      | WBase _ => entry (slot t j) = e
      | WSize _ => entry (slot t j) = e /\ base (slot t j) = b
      | WAddr _ => slot t j = mkObj 0 e b s
      | _ => True
      end
  | WDone r => if r =? 0 then refines t (<[a := e]> m) else refines t m
  end.

(** The reader's result is the lookup in the old or in the extended map. *)
Definition rinv (m : gmap Z Z) (t : table) (r : reader) : Prop :=
  match r with
  | RProbe i => 0 <= i /\ passed t key i
  | RFound j => 0 <= j < SIZE /\ addr (slot t j) = key
  | RDone res => res = m !! key \/ res = <[a := e]> m !! key
  end.
End Concurrent.

Lemma at_probe_mod h i : at_probe h i = (h + i) `mod` SIZE.
Proof. apply land_mask. Qed.

Lemma mask_size i : i <= RTLD_HASH_MASK <-> i < SIZE.
Proof.
  replace SIZE with (RTLD_HASH_MASK + 1) by (vm_compute; reflexivity). lia.
Qed.

(** Writing the data of a free slot is invisible to the abstraction. *)
Lemma refines_free_slot t m j o :
  refines t m -> addr (slot t j) = 0 -> addr o = 0 -> refines (<[j := o]> t) m.
Proof.
  intros (Hwf & H0 & Hm) Hz Ho. split; [|split; [done|]].
  - intros j' Hj'. rewrite slot_insert. destruct (decide _) as [E|]; [congruence|].
    intros Hnz. destruct (Hwf j' Hj' Hnz) as (i & Hi & Hij & Hp).
    exists i. split; [done|]. split; [done|]. by apply passed_insert.
  - intros a' e' Ha'. rewrite (Hm a' e' Ha'). unfold stored. split; intros (j' & Hj' & H1 & H2); exists j'.
    + rewrite slot_insert, decide_False by congruence. done.
    + rewrite slot_insert in H1, H2. destruct (decide _); [congruence | done].
Qed.

Lemma stops_free_slot t a i j o :
  stops t a i -> j = (RTLD_HASH a + i) `mod` SIZE -> addr (slot t j) = 0 -> addr o = 0 ->
  stops (<[j := o]> t) a i.
Proof.
  intros (Hi & Hp & _) Hj Hz Ho. split; [done|]. split; [by apply passed_insert|].
  left. unfold probed. rewrite slot_insert, <- Hj, decide_True by done. done.
Qed.

Lemma refines_publish t m a e b s i j :
  refines t m -> a <> 0 -> stops t a i -> j = (RTLD_HASH a + i) `mod` SIZE ->
  addr (slot t j) = 0 -> refines (<[j := mkObj a e b s]> t) (<[a := e]> m).
Proof.
  intros Href Ha Hst -> Hz. pose proof Href as (Hwf & H0 & Hm).
  assert (m !! a = None) as Hn.
  { rewrite <- (refines_resolve t m a Href). unfold rtld_resolve.
    rewrite (proj2 (Z.eqb_neq a 0) Ha).
    rewrite (resolve_loop_stop _ _ _ _ i) by (rewrite ?slots_size; destruct Hst; done || lia).
    cbn zeta. unfold probed. rewrite Hz. done. }
  split; [by apply insert_wf|]. split; [by rewrite lookup_insert_ne|].
  intros a' e' Ha'. rewrite stored_insert by done. rewrite lookup_insert. case_decide as Heq.
  - subst a'. split; [intros [= ->]; by left|].
    intros [[_ ->]|Hs]; [done|]. apply Hm in Hs; [congruence | done].
  - rewrite Hm by done. split; [by right|]. intros [[-> _]|]; done.
Qed.

Lemma wstep_inv a e b s m t w t' w' :
  a <> 0 -> wstep a e b s (t, w) (t', w') -> winv a e b s m t w -> winv a e b s m t' w'.
Proof.
  intros Ha Hstep Hinv.
  inversion Hstep as [t0 i Hi Heq|t0 i Hi Hne Hz|t0 i Hi Hne Hnz|t0 i Hi|t0 j|t0 j|t0 j|t0 j];
    subst; simpl in *.
  - apply Hinv.
  - destruct Hinv as (Href & Hi0 & Hp). rewrite at_probe_mod in *. apply mask_size in Hi.
    split_and!; try done. exists i. split; [|done]. split; [lia|]. split; [done|].
    left. done.
  - destruct Hinv as (Href & Hi0 & Hp). rewrite at_probe_mod in *. split_and!; [done|lia|].
    intros i' Hi'. destruct (decide (i' = i)) as [->|]; [done | apply Hp; lia].
  - apply Hinv.
  - destruct Hinv as (Href & (i & Hs & Hj) & Hz & _). rewrite slot_insert, decide_True by done.
    split_and!; simpl; try done; [by apply refines_free_slot|].
    exists i. split; [|done]. by apply stops_free_slot.
  - destruct Hinv as (Href & (i & Hs & Hj) & Hz & He). rewrite slot_insert, decide_True by done.
    split_and!; simpl; try done; [by apply refines_free_slot|].
    exists i. split; [|done]. by apply stops_free_slot.
  - destruct Hinv as (Href & (i & Hs & Hj) & Hz & He & Hb). rewrite slot_insert, decide_True by done.
    split_and!; simpl; try done; [by apply refines_free_slot| |].
    + exists i. split; [|done]. by apply stops_free_slot.
    + unfold upd_size. by rewrite Hz, He, Hb.
  - destruct Hinv as (Href & (i & Hs & Hj) & Hz & Ho). rewrite Ho. unfold upd_addr. simpl.
    by eapply refines_publish.
Qed.

(** A writer's step never disturbs what a reader has established. *)
Lemma wstep_rinv a e b s key m t w t' w' r :
  key <> 0 -> wstep a e b s (t, w) (t', w') -> winv a e b s m t w ->
  rinv a e key m t r -> rinv a e key m t' r.
Proof.
  intros Hkey Hstep Hinv Hr.
  assert (t' = t \/ exists j o, t' = <[j := o]> t /\ addr (slot t j) = 0) as [->|(j & o & -> & Hz)].
  { inversion Hstep; subst; try (by left); right; simpl in Hinv; destruct_and?; eauto. }
  - done.
  - destruct r as [i|j'|res]; simpl in *; [|..|done].
    + destruct Hr as [Hi Hp]. split; [done|]. by apply passed_insert.
    + destruct Hr as [Hj Ha]. split; [done|]. rewrite slot_insert, decide_False by congruence. done.
Qed.

Lemma winv_refines a e b s m t w :
  winv a e b s m t w -> refines t m \/ refines t (<[a := e]> m).
Proof.
  destruct w as [i|j|j|j|j|r]; simpl; intros Hw; try (left; by apply Hw).
  destruct (r =? 0); [by right | by left].
Qed.

Lemma rstep_inv a e b s key m t w r r' :
  key <> 0 -> rstep key t r r' -> winv a e b s m t w ->
  rinv a e key m t r -> rinv a e key m t r'.
Proof.
  intros Hkey Hstep Hw Hr.
  assert (forall i, passed t key i -> 0 <= i ->
    (i < SIZE -> addr (probed t (RTLD_HASH key) i) = 0) -> (rtld_resolve t key).2 = None) as Hnone.
  { intros i Hp Hi Hz. unfold rtld_resolve. rewrite (proj2 (Z.eqb_neq key 0) Hkey).
    destruct (decide (i < SIZE)) as [Hlt|Hge].
    - rewrite (resolve_loop_stop _ _ _ _ i); rewrite ?slots_size; try lia.
      + cbn zeta. by rewrite Hz.
      + split; [lia|]. split; [done|]. left. by apply Hz.
    - rewrite resolve_loop_full; rewrite ?slots_size; try done; try lia.
      intros i' Hi'. apply Hp. lia. }
  inversion Hstep as [i Hi Hz|i Hi Hnz Heq|i Hi Hnz Hne|i Hi|j]; subst; simpl in *;
    rewrite ?at_probe_mod in *.
  - destruct Hr as [Hi0 Hp]. apply winv_refines in Hw as [Href|Href];
      [left | right]; rewrite <- (refines_resolve _ _ _ Href); symmetry; by eapply (Hnone i).
  - split; [|congruence]. apply Z.mod_pos_bound, size_pos.
  - destruct Hr as [Hi0 Hp]. split; [lia|].
    intros i' Hi'. destruct (decide (i' = i)) as [->|]; [done | apply Hp; lia].
  - destruct Hr as [Hi0 Hp]. apply winv_refines in Hw as [Href|Href];
      [left | right]; rewrite <- (refines_resolve _ _ _ Href); symmetry; eapply (Hnone i); try done;
      intros Hlt; apply mask_size in Hlt; lia.
  - destruct Hr as [Hj Ha].
    assert (stored t key (entry (slot t j))) as Hst by (exists j; done).
    apply winv_refines in Hw as [(_ & _ & Hm)|(_ & _ & Hm)]; [left | right];
      symmetry; by apply Hm.
Qed.

(** C3. Concurrent readers only ever see valid data: in every interleaving of
    one [rtld_set] of a new key with one [rtld_resolve], a finished lookup
    returns what the map held before the insertion or what it holds after. *)
Theorem rtld_concurrent_resolve a e b s key m t t' w' res :
  a <> 0 -> key <> 0 -> refines t m ->
  rtc (cstep a e b s key) (t, WFind 0, RProbe 0) (t', w', RDone res) ->
  res = m !! key \/ res = <[a := e]> m !! key.
Proof.
  intros Ha Hkey Href Hsteps.
  assert (forall c c', rtc (cstep a e b s key) c c' ->
    winv a e b s m c.1.1 c.1.2 /\ rinv a e key m c.1.1 c.2 ->
    winv a e b s m c'.1.1 c'.1.2 /\ rinv a e key m c'.1.1 c'.2) as Hpres.
  { intros c c' Hrtc. induction Hrtc as [|c1 c2 c3 Hst _ IH]; [done|].
    intros [Hw Hr]. apply IH. inversion Hst; subst; simpl in *.
    - split; [by eapply wstep_inv | by eapply wstep_rinv].
    - split; [done | by eapply rstep_inv]. }
  destruct (Hpres _ _ Hsteps) as [_ Hr].
  - simpl. split_and!; try done; try lia; intros i Hi; lia.
  - exact Hr.
Qed.

(** The writer stores all data before the reader, and the reader finds it. *)
Lemma rtld_concurrent_resolve_witness :
  Some 9 = (∅ : gmap Z Z) !! 4 \/ Some 9 = <[4 := 9]> (∅ : gmap Z Z) !! 4.
Proof.
  apply (rtld_concurrent_resolve 4 9 1 2 4 ∅ ∅
    (<[1 := mkObj 4 9 1 2]> (<[1 := mkObj 0 9 1 2]> (<[1 := mkObj 0 9 1 0]> (<[1 := mkObj 0 9 0 0]> ∅))))
    (WDone 0) (Some 9)); [lia | lia | exact table_empty_refines |].
  assert (at_probe (RTLD_HASH 4) 0 = 1) as E by reflexivity.
  eapply rtc_l; [apply c_writer, w_free; [vm_compute; discriminate | vm_compute; discriminate | reflexivity]|].
  rewrite E.
  eapply rtc_l; [apply c_writer, w_entry|]. eapply rtc_l; [apply c_writer, w_base|].
  eapply rtc_l; [apply c_writer, w_size|]. eapply rtc_l; [apply c_writer, w_addr|].
  eapply rtc_l; [apply c_reader, r_match; [vm_compute; discriminate | vm_compute; discriminate | reflexivity]|].
  rewrite E. eapply rtc_l; [apply c_reader, r_load|]. apply rtc_refl.
Defined.

(** ** Progress *)

(** Steps a writer or a reader can still take. *)
Definition wleft (w : writer) : Z :=
  match w with
  | WFind i => SIZE - i + 6 | WEntry _ => 4 | WBase _ => 3 | WSize _ => 2 | WAddr _ => 1 | WDone _ => 0
  end.
Definition rleft (r : reader) : Z :=
  match r with RProbe i => SIZE - i + 2 | RFound _ => 1 | RDone _ => 0 end.
Definition wpos (w : writer) : Prop := match w with WFind i => 0 <= i <= SIZE | _ => True end.
Definition rpos (r : reader) : Prop := match r with RProbe i => 0 <= i <= SIZE | _ => True end.

Lemma wstep_left a e b s t w t' w' :
  wstep a e b s (t, w) (t', w') -> wpos w -> wleft w' < wleft w /\ wpos w'.
Proof.
  intros Hs. inversion Hs; subst; cbn [wleft wpos]; rewrite ?mask_size in *; lia.
Qed.
Lemma rstep_left key t r r' : rstep key t r r' -> rpos r -> rleft r' < rleft r /\ rpos r'.
Proof.
  intros Hs. inversion Hs; subst; cbn [rleft rpos]; rewrite ?mask_size in *; lia.
Qed.

(** Neither side ever waits for the other. *)
Lemma wstep_progress a e b s t w : (exists r, w = WDone r) \/ exists t' w', wstep a e b s (t, w) (t', w').
Proof.
  destruct w as [i|j|j|j|j|r]; [|right; eauto using wstep..|by left; exists r]. right.
  destruct (Z.leb_spec i RTLD_HASH_MASK); [|by eauto using wstep].
  destruct (decide (addr (slot t (at_probe (RTLD_HASH a) i)) = a)); [by eauto using wstep|].
  destruct (decide (addr (slot t (at_probe (RTLD_HASH a) i)) = 0)); by eauto using wstep.
Qed.
Lemma rstep_progress key t r : (exists res, r = RDone res) \/ exists r', rstep key t r r'.
Proof.
  destruct r as [i|j|res]; [|right; eauto using rstep|by left; exists res]. right.
  destruct (Z.leb_spec i RTLD_HASH_MASK); [|by eauto using rstep].
  destruct (decide (addr (slot t (at_probe (RTLD_HASH key) i)) = 0)); [by eauto using rstep|].
  destruct (decide (addr (slot t (at_probe (RTLD_HASH key) i)) = key)); by eauto using rstep.
Qed.

(** C31. Every schedule of an insertion and a lookup on any table completes: at
    every point each side that has not finished can take its next step without
    waiting for the other, no schedule is longer than two passes over the
    table, and a schedule that cannot be extended has finished both. *)
Theorem rtld_concurrent_completes a e b s key t n t' w r :
  nsteps (cstep a e b s key) n (t, WFind 0, RProbe 0) (t', w, r) ->
  Z.of_nat n <= 2 * SIZE + 8 /\
  ((exists ret, w = WDone ret) \/ exists t2 w2, wstep a e b s (t', w) (t2, w2)) /\
  ((exists res, r = RDone res) \/ exists r2, rstep key t' r r2) /\
  (nf (cstep a e b s key) (t', w, r) -> (exists ret, w = WDone ret) /\ exists res, r = RDone res).
Proof.
  intros Hn.
  assert (forall n c c', nsteps (cstep a e b s key) n c c' -> wpos c.1.2 -> rpos c.2 ->
    Z.of_nat n + wleft c'.1.2 + rleft c'.2 <= wleft c.1.2 + rleft c.2 /\ wpos c'.1.2 /\ rpos c'.2) as Hm.
  { clear. intros n c c' H. induction H as [c|n c1 c2 c3 Hst _ IH]; intros Hw Hr; [split; [lia | done]|].
    inversion Hst as [t w t' w' r Hs|t w r r' Hs]; subst; cbn [fst snd] in *.
    - apply wstep_left in Hs as [? ?]; [|done]. destruct IH as (? & ? & ?); try done. split; [lia | done].
    - apply rstep_left in Hs as [? ?]; [|done]. destruct IH as (? & ? & ?); try done. split; [lia | done]. }
  pose proof size_pos.
  destruct (Hm n _ _ Hn) as (Hle & Hw & Hr); [cbn [fst snd wpos rpos]; lia..|]. cbn [fst snd wleft rleft] in *.
  pose proof (wstep_progress a e b s t' w) as Pw. pose proof (rstep_progress key t' r) as Pr.
  assert (0 <= wleft w /\ 0 <= rleft r) as [? ?].
  { destruct w, r; cbn [wleft rleft wpos rpos] in *; lia. }
  split; [lia|]. split; [done|]. split; [done|]. intros Hnf.
  split; [destruct Pw as [?|(t2 & w2 & Hs)] | destruct Pr as [?|(r2 & Hs)]]; try done; exfalso; apply Hnf;
    eexists; [by eapply c_writer | by eapply c_reader].
Qed.

(** After the five steps of the writer the reader is not done and can go on. *)
Lemma rtld_concurrent_completes_witness :
  exists r2, rstep 4 (<[1 := mkObj 4 9 1 2]> (<[1 := mkObj 0 9 1 2]> (<[1 := mkObj 0 9 1 0]> (<[1 := mkObj 0 9 0 0]> ∅)))) (RProbe 0) r2.
Proof.
  destruct (rtld_concurrent_completes 4 9 1 2 4 ∅ 5
    (<[1 := mkObj 4 9 1 2]> (<[1 := mkObj 0 9 1 2]> (<[1 := mkObj 0 9 1 0]> (<[1 := mkObj 0 9 0 0]> ∅)))) (WDone 0) (RProbe 0))
    as (_ & _ & [[res E]|H] & _); [|discriminate E|exact H].
  assert (at_probe (RTLD_HASH 4) 0 = 1) as E by reflexivity.
  eapply nsteps_l; [apply c_writer, w_free; [vm_compute; discriminate | vm_compute; discriminate | reflexivity]|].
  rewrite E.
  eapply nsteps_l; [apply c_writer, w_entry|]. eapply nsteps_l; [apply c_writer, w_base|].
  eapply nsteps_l; [apply c_writer, w_size|]. eapply nsteps_l; [apply c_writer, w_addr|]. apply nsteps_O.
Defined.
