(* ===== verification/Printf.v ===== *)
(** * Formatted output of [client/minilibc.c]

    [printf_driver] scans a format and hands pieces of output to a callback;
    [snprintf] instantiates it with a bounded buffer, [dprintf] with a
    1024-byte buffer in front of [write(2)].  The driver is proved against a
    character-by-character rendering of the format. *)

From Stdlib Require Import ZArith Lia String.
From stdpp Require Import base numbers list list_numbers option gmap.
From S2P Require Import Prelude Machine Loopback Minilibc.

(** Where the bytes handed to the callback live: in memory, or in a local
    buffer or literal of the driver. *)
Inductive source := InMem (a : Z) | Local (bs : list Z).

(** The variadic arguments, one per directive that consumes one. *)
Inductive varg := VStr (s : source) | VInt (v : Z).

Definition source_ptr (m : memory) (s : source) : cptr :=
  match s with InMem a => mptr m a | Local bs => lit bs end.
Definition source_bytes (m : memory) (s : source) (n : nat) : list Z :=
  match s with InMem a => load_bytes m a n | Local bs => take n bs end.

(** [strlen]; a string in memory is no longer than the memory has cells. *)
Definition strlen_src (m : memory) (s : source) : Z :=
  match s with
  | InMem a => strlen (S (size m)) (mptr m a)
  | Local bs => strlen (S (length bs)) (lit bs)
  end.

Definition va_arg_ptr (args : list varg) : source * list varg :=
  match args with
  | VStr s :: args' => (s, args')
  | VInt v :: args' => (InMem v, args')
  | [] => (InMem 0, [])
  end.
Definition va_arg_int (args : list varg) : Z * list varg :=
  match args with
  | VInt v :: args' => (v, args')
  | VStr (InMem a) :: args' => (a, args')
  | VStr (Local _) :: args' => (0, args')
  | [] => (0, [])
  end.

(** [__builtin_clz] of a non-zero value of [w] bits. *)
Definition clz (w v : Z) : Z := w - 1 - Z.log2 v.

Definition chr (c : String.string) : Z := hd 0 (bytes_of_string c).

(** ["0123456789abcdef"[nibble]]. *)
Definition hexdigit (nibble : Z) : Z :=
  default 0 (bytes_of_string "0123456789abcdef" !! Z.to_nat nibble).

(** [for (int i = nibbles - 1; i >= 0; i--) buffer[buflen++] = ...;] *)
Fixpoint hex_loop (n : nat) (value : Z) (buffer : list Z) (buflen : Z) : list Z * Z :=
  match n with
  | O => (buffer, buflen)
  | S i =>
      let nibble := Z.land (Z.shiftr value (4 * Z.of_nat i)) 0xf in
      hex_loop i value (<[Z.to_nat buflen := hexdigit nibble]> buffer) (buflen + 1)
  end.

Definition nibbles (w value : Z) : Z :=
  let highest_bit := w - clz w value in Z.shiftr (highest_bit + 3) 2.

(** [while (value > 0) ...]: ten rounds are enough for 32 bits. *)
Fixpoint dec_loop (fuel : nat) (value : Z) (buffer : list Z) (buf_idx : Z) : list Z * Z :=
  match fuel with
  | O => (buffer, buf_idx)
  | S fuel' =>
      if 0 <? value then
        let digit := value `mod` 10 in
        dec_loop fuel' (value / 10) (<[Z.to_nat buf_idx := chr "0" + digit]> buffer) (buf_idx - 1)
      else (buffer, buf_idx)
  end.

Definition BUFSZ : Z := 32.

Section Driver.
Context {W : Type} `{Kernel W} {D : Type}.

(** [PrintfWriteFunc]; the callback's data is threaded through. *)
Context (write_func : D -> source -> Z -> ST (Proc W) D).

(** The directive after a [%]: callback data, local buffer, remaining format
    and arguments, and the number of bytes written. *)
Definition conversion (format_spec : Z) (data : D) (buffer format : list Z) (args : list varg)
    : ST (Proc W) (D * list Z * list Z * list varg * Z) :=
  if format_spec =? chr "s" then
    let '(str, args') := va_arg_ptr args in
    m ← gets mem;
    let len := strlen_src m str in
    data ← write_func data str len;
    mret (data, buffer, format, args', len)
  else if format_spec =? chr "c" then
    let '(c, args') := va_arg_int args in
    data ← write_func data (Local [u8 c]) 1;
    mret (data, buffer, format, args', 1)
  else if format_spec =? chr "p" then
    let '(v, args') := va_arg_int args in
    let value := u64 v in
    if value =? 0 then
      data ← write_func data (Local (bytes_of_string "(nil)")) 5;
      mret (data, buffer, format, args', 5)
    else
      let buffer := <[1%nat := chr "x"]> (<[0%nat := chr "0"]> buffer) in
      let '(buffer, buflen) := hex_loop (Z.to_nat (nibbles 64 value)) value buffer 2 in
      data ← write_func data (Local buffer) buflen;
      mret (data, buffer, format, args', buflen)
  else if format_spec =? chr "u" then
    let '(v, args') := va_arg_int args in
    let value := u32 v in
    let buf_idx := BUFSZ - 1 in
    let '(buffer, buf_idx) :=
      if value =? 0 then (<[Z.to_nat buf_idx := chr "0"]> buffer, buf_idx)
      else let '(b, i) := dec_loop 10 value buffer buf_idx in (b, i + 1) in
    data ← write_func data (Local (drop (Z.to_nat buf_idx) buffer)) (BUFSZ - buf_idx);
    mret (data, buffer, format, args', BUFSZ - buf_idx)
  else if format_spec =? chr "x" then
    let '(v, args') := va_arg_int args in
    let value := u32 v in
    let n := if negb (value =? 0) then nibbles 32 value else 1 in
    let '(buffer, buflen) := hex_loop (Z.to_nat n) value buffer 0 in
    data ← write_func data (Local buffer) buflen;
    mret (data, buffer, format, args', buflen)
  else if (format_spec =? chr "l") && (lit format 0 =? chr "x") then
    let format := drop 1 format in
    let '(v, args') := va_arg_int args in
    let value := u64 v in
    let n := if negb (value =? 0) then nibbles 64 value else 1 in
    let '(buffer, buflen) := hex_loop (Z.to_nat n) value buffer 0 in
    data ← write_func data (Local buffer) buflen;
    mret (data, buffer, format, args', buflen)
  else mret (data, buffer, format, args, 0).

(** The [while] loop; [format] are the characters before the terminator.  A
    round that goes on drops at least the [%], so the length is enough fuel. *)
Fixpoint printf_loop (fuel : nat) (data : D) (buffer format : list Z) (args : list varg)
    (bytes_written : Z) : ST (Proc W) (D * Z) :=
  match fuel with
  | O => mret (data, bytes_written)
  | S fuel' =>
      if lit format 0 =? 0 then mret (data, bytes_written)
      else
        match strchr (length format) (lit format) (chr "%") with
        | None =>
            let len := strlen (length format) (lit format) in
            data ← write_func data (Local format) len;
            mret (data, u64 (bytes_written + len))
        | Some next_format =>
            '(data, bytes_written) ←
              (if negb (next_format =? 0) then
                 data ← write_func data (Local format) next_format;
                 mret (data, u64 (bytes_written + next_format))
               else mret (data, bytes_written));
            (* skip the percent sign *)
            let format := drop (Z.to_nat next_format + 1) format in
            let format_spec := lit format 0 in
            if format_spec =? 0 then
              data ← write_func data (Local (bytes_of_string "%")) 1;
              mret (data, u64 (bytes_written + 1))
            else
              '(data, buffer, format, args, n) ←
                conversion format_spec data buffer (drop 1 format) args;
              printf_loop fuel' data buffer format args (u64 (bytes_written + n))
        end
  end.

Definition printf_driver (data : D) (format : list Z) (args : list varg) : ST (Proc W) (D * Z) :=
  printf_loop (S (length format)) data (replicate (Z.to_nat BUFSZ) 0) format args 0.
End Driver.

Section Output.
Context {W : Type} `{Kernel W}.

(** [memcpy] from a source. *)
Definition memcpy_src (dest : Z) (s : source) (n : Z) : ST (Proc W) unit :=
  match s with
  | InMem a => memcpy dest a n;; mret tt
  | Local bs => modify (fun p => set_mem (store_bytes (mem p) dest (take (Z.to_nat n) bs)) p)
  end.

(** [write(2)] from a source. *)
Definition write_src (fd : Z) (s : source) (n : Z) : ST (Proc W) Z :=
  match s with
  | InMem a => write fd a n
  | Local bs =>
      with_local (Z.of_nat (length bs)) (fun a =>
        modify (fun p => set_mem (store_bytes (mem p) a bs) p);;
        write fd a n)
  end.

Definition puts (s : source) : ST (Proc W) Z :=
  m ← gets mem;
  write_src 1 s (strlen_src m s);;
  write_src 1 (Local [10]) 1;;
  mret 0.

(** [struct SPrintfHelperData]. *)
Record SPrintfHelperData := mkSData { sp_buf : Z; sp_len : Z }.

Definition sprintf_helper (data : SPrintfHelperData) (buf : source) (len : Z)
    : ST (Proc W) SPrintfHelperData :=
  if sp_len data =? 0 then
    memcpy_src (sp_buf data) buf len;;
    mret (mkSData (sp_buf data + len) (sp_len data))
  else if len <? sp_len data then
    memcpy_src (sp_buf data) buf len;;
    mret (mkSData (sp_buf data + len) (sp_len data - len))
  else
    memcpy_src (sp_buf data) buf (sp_len data - 1);;
    mret (mkSData (sp_buf data + (sp_len data - 1)) 1).

Definition vsnprintf (str size : Z) (format : list Z) (args : list varg) : ST (Proc W) Z :=
  '(data, result) ← printf_driver sprintf_helper (mkSData str size) format args;
  modify (fun p => set_mem (<[sp_buf data := 0]> (mem p)) p);;
  mret (s32 result).

Definition snprintf (str size : Z) (format : list Z) (args : list varg) : ST (Proc W) Z :=
  vsnprintf str size format args.

(** [struct DPrintfHelperData]; [dp_buf] is the address of the member array. *)
Record DPrintfHelperData := mkDData { dp_fd : Z; dp_off : Z; dp_buf : Z }.
Definition DP_BUFSZ : Z := 1024.

Definition dprintf_helper (data : DPrintfHelperData) (buf : source) (count : Z)
    : ST (Proc W) DPrintfHelperData :=
  if count <=? DP_BUFSZ - dp_off data then
    memcpy_src (dp_buf data + dp_off data) buf count;;
    mret (mkDData (dp_fd data) (dp_off data + count) (dp_buf data))
  else
    write (dp_fd data) (dp_buf data) (dp_off data);;
    if count <=? DP_BUFSZ then
      memcpy_src (dp_buf data) buf count;;
      mret (mkDData (dp_fd data) count (dp_buf data))
    else
      write_src (dp_fd data) buf count;;
      mret (mkDData (dp_fd data) 0 (dp_buf data)).

Definition vdprintf (fd : Z) (format : list Z) (args : list varg) : ST (Proc W) Z :=
  with_local DP_BUFSZ (fun buf =>
    '(data, result) ← printf_driver dprintf_helper (mkDData fd 0 buf) format args;
    (if negb (dp_off data =? 0)
     then write (dp_fd data) (dp_buf data) (dp_off data);; mret tt
     else mret tt);;
    mret (s32 result)).

Definition dprintf (fd : Z) (format : list Z) (args : list varg) : ST (Proc W) Z :=
  vdprintf fd format args.
Definition printf (format : list Z) (args : list varg) : ST (Proc W) Z :=
  vdprintf 1 format args.
End Output.

(** ** The reference rendering *)

(** Digits of a number, most significant first. *)
Fixpoint digits (fuel : nat) (b v : Z) (acc : list Z) : list Z :=
  match fuel with
  | O => acc
  | S fuel' => if v =? 0 then acc else digits fuel' b (v / b) (v `mod` b :: acc)
  end.
Definition numeral (b v : Z) : list Z := if v =? 0 then [0] else digits 64 b v [].

Definition hex (v : Z) : list Z := hexdigit <$> numeral 16 v.
Definition dec (v : Z) : list Z := (fun d => chr "0" + d) <$> numeral 10 v.

(** What an argument prints, with strings given by their contents. *)
Inductive rarg := RStr (bs : list Z) | RInt (v : Z).

Definition show_int (d v : Z) : list Z :=
  if d =? chr "c" then [u8 v]
  else if d =? chr "p" then
    if u64 v =? 0 then bytes_of_string "(nil)" else bytes_of_string "0x" ++ hex (u64 v)
  else if d =? chr "u" then dec (u32 v)
  else hex (u32 v).

(** One character at a time; [None] when an argument is missing or of the wrong
    kind. *)
Fixpoint render (format : list Z) (args : list rarg) : option (list Z) :=
  match format with
  | [] => Some []
  | c :: rest =>
      if negb (c =? chr "%") then (cons c) <$> render rest args
      else
        match rest with
        | [] => Some [chr "%"]
        | d :: rest' =>
            if d =? chr "s" then
              match args with
              | RStr bs :: args' => (app bs) <$> render rest' args'
              | _ => None
              end
            else if (d =? chr "c") || (d =? chr "p") || (d =? chr "u") || (d =? chr "x") then
              match args with
              | RInt v :: args' => (app (show_int d v)) <$> render rest' args'
              | _ => None
              end
            else
              match rest' with
              | e :: rest'' =>
                  if (d =? chr "l") && (e =? chr "x") then
                    match args with
                    | RInt v :: args' => (app (hex (u64 v))) <$> render rest'' args'
                    | _ => None
                    end
                  else render rest' args
              | [] => Some []
              end
        end
  end.

(** ** Digits *)

(** The [n] low nibbles, most significant first, as [hex_loop] visits them. *)
Fixpoint nibs (n : nat) (v : Z) : list Z :=
  match n with
  | O => []
  | S i => Z.land (Z.shiftr v (4 * Z.of_nat i)) 0xf :: nibs i v
  end.

Lemma nib_at v i : 0 <= i -> Z.land (Z.shiftr v (4 * i)) 0xf = (v / 16 ^ i) `mod` 16.
Proof.
  intros Hi. change 0xf with (Z.ones 4). rewrite Z.land_ones, Z.shiftr_div_pow2 by lia.
  by rewrite Z.pow_mul_r by lia.
Qed.

Lemma nibs_snoc n v : nibs (S n) v = nibs n (v / 16) ++ [v `mod` 16].
Proof.
  induction n as [|n IH].
  - cbn [nibs app]. rewrite nib_at by lia. by rewrite Z.pow_0_r, Z.div_1_r.
  - change (nibs (S (S n)) v) with (Z.land (Z.shiftr v (4 * Z.of_nat (S n))) 0xf :: nibs (S n) v).
    rewrite IH. cbn [nibs app]. f_equal. rewrite !nib_at by lia.
    rewrite Z.div_div by lia. do 2 f_equal. rewrite <- Z.pow_succ_r by lia. f_equal. lia.
Qed.

Lemma digits_acc fuel b v acc : digits fuel b v acc = digits fuel b v [] ++ acc.
Proof.
  revert v acc; induction fuel as [|fuel IH]; intros v acc; simpl; [done|].
  destruct (v =? 0); [done|]. rewrite IH, (IH _ [_]), <- app_assoc. done.
Qed.

Lemma digits_fuel f1 f2 b v acc :
  1 < b -> 0 <= v < b ^ Z.of_nat f1 -> (f1 <= f2)%nat -> digits f1 b v acc = digits f2 b v acc.
Proof.
  intros Hb. revert f2 v acc; induction f1 as [|f1 IH]; intros f2 v acc Hv Hf.
  - replace v with 0 by lia. by destruct f2.
  - destruct f2 as [|f2]; [lia|]. simpl. btest; [done|]. apply IH; [|lia].
    rewrite Nat2Z.inj_succ, Z.pow_succ_r in Hv by lia.
    split; [apply Z.div_pos; lia | apply Z.div_lt_upper_bound; lia].
Qed.

Lemma nibs_digits n fuel v :
  0 <= v -> (n <= fuel)%nat -> (0 < n)%nat -> 16 ^ (Z.of_nat n - 1) <= v < 16 ^ Z.of_nat n ->
  nibs n v = digits fuel 16 v [].
Proof.
  revert fuel v; induction n as [|n IH]; intros fuel v Hv Hf Hn Hr; [lia|].
  destruct fuel as [|fuel]; [lia|]. rewrite nibs_snoc. simpl.
  rewrite Nat2Z.inj_succ, Z.pow_succ_r in Hr by lia.
  replace (Z.succ (Z.of_nat n) - 1) with (Z.of_nat n) in Hr by lia.
  assert (0 < 16 ^ Z.of_nat n) by lia.
  rewrite (proj2 (Z.eqb_neq v 0)) by lia. rewrite digits_acc. f_equal.
  destruct n as [|n].
  - replace (v / 16) with 0 by (symmetry; apply Z.div_small; lia). by destruct fuel.
  - apply IH; [apply Z.div_pos; lia | lia | lia |].
    rewrite Nat2Z.inj_succ, Z.pow_succ_r in Hr by lia.
    rewrite Nat2Z.inj_succ, Z.pow_succ_r by lia.
    replace (Z.succ (Z.of_nat n) - 1) with (Z.of_nat n) by lia.
    split; [apply Z.div_le_lower_bound; lia | apply Z.div_lt_upper_bound; lia].
Qed.

(** Reading a numeral back gives the number. *)
Lemma numeral_value b v :
  1 < b -> 0 <= v < b ^ 64 -> foldl (fun a d => a * b + d) 0 (numeral b v) = v.
Proof.
  intros Hb Hv. unfold numeral. btest; [by subst|].
  assert (forall fuel v, 0 <= v < b ^ Z.of_nat fuel ->
    foldl (fun a d => a * b + d) 0 (digits fuel b v []) = v) as Hd; [|by apply (Hd 64%nat)].
  clear -Hb. intros fuel. induction fuel as [|fuel IH]; intros v Hv; simpl; [lia|].
  btest; [by subst|]. rewrite digits_acc, foldl_app. simpl. rewrite IH.
  - pose proof (Z.div_mod v b). lia.
  - rewrite Nat2Z.inj_succ, Z.pow_succ_r in Hv by lia.
    split; [apply Z.div_pos; lia | apply Z.div_lt_upper_bound; lia].
Qed.

(** The nibble count covers the value exactly. *)
Lemma nibbles_spec w v :
  0 < v < 2 ^ w -> 0 <= w ->
  let n := nibbles w v in 1 <= n /\ 4 * n <= w + 3 /\ 16 ^ (n - 1) <= v < 16 ^ n.
Proof.
  intros Hv Hw. cbn zeta. unfold nibbles, clz.
  pose proof (Z.log2_spec v ltac:(lia)) as Hs.
  pose proof (Z.log2_nonneg v) as Hl0.
  assert (Z.log2 v < w) by (apply Z.log2_lt_pow2; lia).
  rewrite Z.shiftr_div_pow2 by lia. change (2 ^ 2) with 4. change 16 with (2 ^ 4).
  set (l := Z.log2 v) in *. set (n := (w - (w - 1 - l) + 3) / 4).
  assert (4 * n - 4 <= l < 4 * n) as Hn by (subst n; zdm).
  rewrite <- !Z.pow_mul_r by lia. split; [lia|]. split; [lia|].
  pose proof (Z.pow_le_mono_r 2 (4 * (n - 1)) l). pose proof (Z.pow_le_mono_r 2 (Z.succ l) (4 * n)).
  lia.
Qed.

(** The hexadecimal loops fill the buffer with the digits. *)
Lemma hex_loop_spec n v buf k :
  0 <= k -> k + Z.of_nat n <= Z.of_nat (length buf) ->
  let '(buf', k') := hex_loop n v buf k in
  k' = k + Z.of_nat n /\ length buf' = length buf /\
  take (Z.to_nat k') buf' = take (Z.to_nat k) buf ++ (hexdigit <$> nibs n v).
Proof.
  revert buf k; induction n as [|n IH]; intros buf k Hk Hl; simpl.
  - split; [lia|]. split; [done|]. by rewrite app_nil_r.
  - specialize (IH (<[Z.to_nat k:=hexdigit (Z.land (Z.shiftr v (4 * Z.of_nat n)) 0xf)]> buf) (k + 1)).
    rewrite length_insert in IH.
    destruct (hex_loop _ _ _ _) as [buf' k']. destruct IH as (E1 & E2 & E3); [lia | lia|].
    split; [lia|]. split; [done|]. rewrite E3.
    replace (Z.to_nat (k + 1)) with (S (Z.to_nat k)) by lia.
    rewrite (take_S_r _ _ (hexdigit (Z.land (Z.shiftr v (4 * Z.of_nat n)) 0xf)))
      by (apply list_lookup_insert_eq; lia).
    rewrite take_insert_ge by lia. by rewrite <- app_assoc.
Qed.

Lemma hex_loop_hex n v buf k :
  0 <= v -> 0 <= k -> k + n <= Z.of_nat (length buf) -> 1 <= n <= 64 ->
  (v = 0 -> n = 1) -> (v <> 0 -> 16 ^ (n - 1) <= v < 16 ^ n) ->
  let '(buf', k') := hex_loop (Z.to_nat n) v buf k in
  k' = k + Z.of_nat (length (hex v)) /\ length buf' = length buf /\
  take (Z.to_nat k') buf' = take (Z.to_nat k) buf ++ hex v.
Proof.
  intros Hv Hk Hl Hn H0 Hnz. pose proof (hex_loop_spec (Z.to_nat n) v buf k) as Hs.
  destruct (hex_loop _ _ _ _) as [buf' k']. destruct Hs as (E1 & E2 & E3); [lia | lia |].
  assert (nibs (Z.to_nat n) v = numeral 16 v) as Hd.
  { unfold numeral. destruct (Z.eqb_spec v 0) as [->|Hne].
    - rewrite H0 by done. done.
    - apply nibs_digits; rewrite ?Z2Nat.id by lia; [lia | lia | lia | auto]. }
  unfold hex. rewrite <- Hd, length_fmap.
  assert (forall n, length (nibs n v) = n) as Hlen by (intros n'; induction n'; simpl; congruence).
  rewrite Hlen. split; [lia|]. split; [done|]. by rewrite E3.
Qed.

Lemma dec_loop_digits fuel v buf idx :
  0 <= v -> idx < Z.of_nat (length buf) -> Z.of_nat fuel <= idx + 1 ->
  let '(buf', idx') := dec_loop fuel v buf idx in
  drop (Z.to_nat (idx' + 1)) buf' =
    ((fun d => chr "0" + d) <$> digits fuel 10 v []) ++ drop (Z.to_nat (idx + 1)) buf /\
  length buf' = length buf /\ idx' + Z.of_nat (length (digits fuel 10 v [])) = idx.
Proof.
  revert v buf idx; induction fuel as [|fuel IH]; intros v buf idx Hv Hi Hf; simpl.
  - split; [done|]. split; [done | lia].
  - destruct (Z.ltb_spec 0 v) as [Hp|Hp].
    + rewrite (proj2 (Z.eqb_neq v 0)) by lia.
      specialize (IH (v / 10) (<[Z.to_nat idx:=chr "0" + v `mod` 10]> buf) (idx - 1)).
      rewrite length_insert in IH. destruct (dec_loop _ _ _ _) as [buf' idx'].
      destruct IH as (E1 & E2 & E3); [apply Z.div_pos; lia | lia | lia |].
      rewrite digits_acc, length_app, fmap_app. simpl. rewrite E1.
      split; [|split; [done | lia]]. rewrite <- app_assoc. f_equal. simpl.
      replace (Z.to_nat (idx - 1 + 1)) with (Z.to_nat idx) by lia.
      replace (Z.to_nat (idx + 1)) with (S (Z.to_nat idx)) by lia.
      rewrite drop_insert_ge by lia. rewrite Nat.sub_diag.
      destruct (drop (Z.to_nat idx) buf) as [|x l] eqn:E.
      * apply (f_equal length) in E. rewrite length_drop in E. simpl in E. lia.
      * simpl. f_equal. change l with (drop 1 (x :: l)). rewrite <- E, drop_drop. f_equal. lia.
    + replace v with 0 by lia. simpl. split; [done|]. split; [done | lia].
Qed.

(** ** The driver against the rendering *)

(** A byte of a C string. *)
Definition cchar (c : Z) : Prop := 0 < c < 256.

(** The source holds the string [bs]. *)
Definition holds_str (m : memory) (s : source) (bs : list Z) : Prop :=
  Forall cchar bs /\
  match s with
  | InMem a => load_bytes m a (S (length bs)) = bs ++ [0]
  | Local bs' => bs' = bs
  end.

Definition arg_match (m : memory) (a : varg) (r : rarg) : Prop :=
  match a, r with
  | VInt v, RInt v' => v = v'
  | VStr s, RStr bs => holds_str m s bs
  | _, _ => False
  end.

Lemma strlen_loop_spec fuel s i j :
  i <= j <= i + Z.of_nat fuel -> (forall k, i <= k < j -> s k <> 0) -> s j = 0 ->
  strlen_loop fuel s i = j.
Proof.
  revert i; induction fuel as [|fuel IH]; intros i Hj Hnz Hz; simpl; [lia|].
  destruct (Z.eqb_spec i j) as [->|Hne].
  - by rewrite Hz.
  - rewrite (proj2 (Z.eqb_neq _ _)) by (apply Hnz; lia). cbn [negb].
    apply IH; [lia | intros; apply Hnz; lia | done].
Qed.

(** A block of [n] non-zero bytes needs [n] cells. *)
Lemma nonzero_block_size m a n :
  (forall k, 0 <= k < Z.of_nat n -> getb m (a + k) <> 0) -> (n <= size m)%nat.
Proof.
  intros Hnz.
  assert ((list_to_set (seqZ a (Z.of_nat n)) : gset Z) ⊆ dom m) as Hsub.
  { intros x Hx. apply elem_of_list_to_set, elem_of_seqZ in Hx. apply elem_of_dom.
    specialize (Hnz (x - a)). replace (a + (x - a)) with x in Hnz by lia. unfold getb in Hnz.
    destruct (m !! x); [eauto|]. exfalso. apply Hnz; [lia | done]. }
  apply subseteq_size in Hsub.
  rewrite size_list_to_set, size_dom, length_seqZ in Hsub by apply NoDup_seqZ. lia.
Qed.

Lemma lit_at bs i : 0 <= i -> lit bs i = default 0 (bs !! Z.to_nat i).
Proof. done. Qed.

Lemma lit_nonzero bs i : Forall cchar bs -> 0 <= i < Z.of_nat (length bs) -> lit bs i <> 0.
Proof.
  intros Hb Hi. unfold lit. destruct (lookup_lt_is_Some_2 bs (Z.to_nat i)) as [x Hx]; [lia|].
  rewrite Hx. simpl. rewrite Forall_lookup in Hb. specialize (Hb _ _ Hx). unfold cchar in Hb. lia.
Qed.

Lemma lit_end bs : lit bs (Z.of_nat (length bs)) = 0.
Proof. unfold lit. by rewrite lookup_ge_None_2 by lia. Qed.

Lemma strlen_src_spec m s bs :
  holds_str m s bs ->
  strlen_src m s = Z.of_nat (length bs) /\ source_bytes m s (length bs) = bs.
Proof.
  intros [Hc Hs]. destruct s as [a|bs']; simpl in *.
  - assert (forall k, 0 <= k <= Z.of_nat (length bs) ->
      getb m (a + k) = default 0 ((bs ++ [0]) !! Z.to_nat k)) as Hk.
    { intros k Hk. rewrite <- Hs. change (getb m a :: load_bytes m (a + 1) (length bs))
        with (load_bytes m a (S (length bs))).
      rewrite load_bytes_lookup by lia. simpl. f_equal. lia. }
    assert (forall k, 0 <= k < Z.of_nat (length bs) -> getb m (a + k) <> 0) as Hnz.
    { intros k Hk'. rewrite Hk, lookup_app_l by lia. by apply (lit_nonzero bs k). }
    split.
    + apply strlen_loop_spec.
      * apply nonzero_block_size in Hnz. lia.
      * intros k Hk'. by apply Hnz.
      * unfold mptr. rewrite Hk, Nat2Z.id, list_lookup_middle by lia. done.
    + change (getb m a :: load_bytes m (a + 1) (length bs))
        with (load_bytes m a (S (length bs))) in Hs.
      rewrite <- Nat.add_1_r, load_bytes_app in Hs. by apply app_inj_tail in Hs as [-> _].
  - subst bs'. split; [|by rewrite firstn_all].
    apply strlen_loop_spec; [lia | intros; by apply lit_nonzero | apply lit_end].
Qed.

Lemma swrap8_percent c : cchar c -> (swrap 8 c =? chr "%") = (c =? chr "%").
Proof.
  unfold cchar, swrap. intros Hc. change (chr "%") with 37. change (2 ^ (8 - 1)) with 128.
  change (2 ^ 8) with 256. repeat btest; zdm.
Qed.

(** Where [strchr] finds the next directive. *)
Lemma strchr_percent fuel pre format :
  Forall cchar format -> (length format <= fuel)%nat ->
  strchr_loop fuel (lit (pre ++ format)) (chr "%") (Z.of_nat (length pre)) =
  match list_find (fun c => c = chr "%") format with
  | Some (i, _) => Some (Z.of_nat (length pre + i))
  | None => None
  end.
Proof.
  revert fuel pre; induction format as [|c format IH]; intros fuel pre Hc Hf.
  - assert (lit (pre ++ []) (Z.of_nat (length pre)) = 0) as E by (rewrite app_nil_r; apply lit_end).
    destruct fuel; simpl; rewrite E; done.
  - assert (lit (pre ++ c :: format) (Z.of_nat (length pre)) = c) as E.
    { unfold lit. rewrite Nat2Z.id, list_lookup_middle by done. done. }
    destruct fuel as [|fuel]; simpl in Hf; [lia|]. inversion Hc as [|? ? Hcc Hc']; subst.
    simpl. rewrite E, swrap8_percent by done.
    rewrite (proj2 (Z.eqb_neq c 0)) by (unfold cchar in Hcc; lia). cbn [negb andb].
    destruct (Z.eqb_spec c (chr "%")) as [->|Hne].
    + rewrite decide_True by done. f_equal. lia.
    + rewrite decide_False by done. simpl.
      specialize (IH fuel (pre ++ [c]) Hc' ltac:(lia)).
      rewrite <- app_assoc, length_app in IH. simpl in IH.
      replace (Z.of_nat (length pre) + 1) with (Z.of_nat (length pre + 1)) by lia.
      rewrite IH. destruct (list_find _ format) as [[i x]|]; simpl; [|done]. f_equal. lia.
Qed.

(** Text before a directive renders as itself. *)
Lemma render_text pre rest args :
  Forall (fun c => c <> chr "%") pre -> render (pre ++ rest) args = (app pre) <$> render rest args.
Proof.
  induction 1 as [|c pre Hc _ IH]; simpl; [by destruct (render rest args)|].
  rewrite (proj2 (Z.eqb_neq c _) Hc). cbn [negb]. rewrite IH. by destruct (render rest args).
Qed.

(** The output of one directive and what remains of format and arguments. *)
Definition directive (d : Z) (format : list Z) (args : list rarg)
    : option (list Z * list Z * list rarg) :=
  if d =? chr "s" then
    match args with RStr bs :: args' => Some (bs, format, args') | _ => None end
  else if (d =? chr "c") || (d =? chr "p") || (d =? chr "u") || (d =? chr "x") then
    match args with RInt v :: args' => Some (show_int d v, format, args') | _ => None end
  else if (d =? chr "l") && (lit format 0 =? chr "x") then
    match args with RInt v :: args' => Some (hex (u64 v), drop 1 format, args') | _ => None end
  else Some ([], format, args).

Lemma render_directive d format args :
  render (chr "%" :: d :: format) args =
  match directive d format args with
  | Some (out, format', args') => (app out) <$> render format' args'
  | None => None
  end.
Proof.
  cbn [render]. rewrite Z.eqb_refl. cbn [negb]. unfold directive.
  destruct (d =? chr "s"); [by destruct args as [|[] ?]|].
  destruct (_ || _ || _ || _); [by destruct args as [|[] ?]|].
  destruct format as [|e format].
  - by rewrite andb_false_r.
  - change (lit (e :: format) 0) with e.
    destruct ((d =? chr "l") && (e =? chr "x")).
    + by destruct args as [|[] ?].
    + by destruct (render (e :: format) args).
Qed.

Section DriverSpec.
Context {W : Type} `{Kernel W} {D : Type}.
Context (write_func : D -> source -> Z -> ST (Proc W) D).
(** [R T d p]: with [T] written so far, the callback's data is [d] and the
    process [p]; [src_ok] restricts the sources, [args0] are the arguments with
    what they print. *)
Context (R : list Z -> D -> Proc W -> Prop) (src_ok : source -> list Z -> Prop).
Context (args0 : list (varg * rarg)).
Hypothesis R_write : forall T d p s bs,
  R T d p -> src_ok s bs -> source_bytes (mem p) s (length bs) = bs ->
  let '(d', p') := write_func d s (Z.of_nat (length bs)) p in R (T ++ bs) d' p'.
Hypothesis local_ok : forall buf bs, src_ok (Local buf) bs.
Hypothesis R_args : forall T d p a r, R T d p -> (a, r) ∈ args0 ->
  arg_match (mem p) a r /\
  match a, r with VStr s, RStr bs => src_ok s bs | _, _ => True end.

Abbreviation args_rel := (Forall2 (fun a r => (a, r) ∈ args0)).

Lemma R_local T d p buf n bs :
  R T d p -> take (Z.to_nat n) buf = bs -> n = Z.of_nat (length bs) ->
  exists d' p', write_func d (Local buf) n p = (d', p') /\ R (T ++ bs) d' p'.
Proof.
  intros HR Ht ->. rewrite Nat2Z.id in Ht.
  pose proof (R_write T d p (Local buf) bs HR (local_ok _ _) Ht) as Hw.
  destruct (write_func _ _ _ _) as [d' p']. eauto.
Qed.

Lemma R_str T d p s bs :
  R T d p -> (VStr s, RStr bs) ∈ args0 ->
  exists d' p', write_func d s (strlen_src (mem p) s) p = (d', p') /\ R (T ++ bs) d' p' /\
    strlen_src (mem p) s = Z.of_nat (length bs).
Proof.
  intros HR Hin. destruct (R_args T d p _ _ HR Hin) as [Hm Hs].
  apply strlen_src_spec in Hm as [Hl Hb]. rewrite Hl.
  pose proof (R_write T d p s bs HR Hs Hb) as Hw.
  destruct (write_func _ _ _ _) as [d' p']. eauto.
Qed.

(** What a directive must achieve. *)
Definition converted (T out : list Z) (format' : list Z) (rargs' : list rarg)
    (res : (D * list Z * list Z * list varg * Z) * Proc W) : Prop :=
  exists d' buf' args' p',
    res = ((d', buf', format', args', Z.of_nat (length out)), p') /\
    R (T ++ out) d' p' /\ length buf' = 32%nat /\ args_rel args' rargs'.

Lemma converted_hex T d p buf pre n v format' args' rargs' :
  R T d p -> length buf = 32%nat -> args_rel args' rargs' ->
  0 <= v -> 1 <= n <= 16 -> (v = 0 -> n = 1) -> (v <> 0 -> 16 ^ (n - 1) <= v < 16 ^ n) ->
  (length pre <= 2)%nat -> take (length pre) buf = pre ->
  converted T (pre ++ hex v) format' rargs'
    ((let '(buffer, buflen) := hex_loop (Z.to_nat n) v buf (Z.of_nat (length pre)) in
      data ← write_func d (Local buffer) buflen;
      mret (data, buffer, format', args', buflen)) p).
Proof.
  intros HR Hb Ha Hv Hn H0 Hnz Hl Hp.
  pose proof (hex_loop_hex n v buf (Z.of_nat (length pre))) as Hh.
  destruct (hex_loop _ _ _ _) as [buf' k']. destruct Hh as (E1 & E2 & E3); try lia; try done.
  rewrite Nat2Z.id, Hp in E3.
  destruct (R_local T d p buf' k' (pre ++ hex v) HR E3) as (d' & p' & Hw & HR');
    [rewrite length_app; lia|].
  rewrite (bind_unfold _ _ _ _ _ Hw). exists d', buf', args', p'.
  split; [|split_and!; done || lia]. unfold mret, ST_ret. do 3 f_equal. rewrite length_app. lia.
Qed.

Lemma converted_dec T d p buf v format' args' rargs' :
  R T d p -> length buf = 32%nat -> args_rel args' rargs' -> in_u 32 v ->
  converted T (dec v) format' rargs'
    ((let '(buffer, buf_idx) :=
        if v =? 0 then (<[Z.to_nat (BUFSZ - 1) := chr "0"]> buf, BUFSZ - 1)
        else let '(b, i) := dec_loop 10 v buf (BUFSZ - 1) in (b, i + 1) in
      data ← write_func d (Local (drop (Z.to_nat buf_idx) buffer)) (BUFSZ - buf_idx);
      mret (data, buffer, format', args', BUFSZ - buf_idx)) p).
Proof.
  intros HR Hb Ha Hv. unfold in_u in Hv.
  set (res := if v =? 0 then _ else _).
  assert (drop (Z.to_nat res.2) res.1 = dec v /\ length res.1 = 32%nat /\
    BUFSZ - res.2 = Z.of_nat (length (dec v))) as (E1 & E2 & E3).
  { subst res. unfold dec, numeral. destruct (Z.eqb_spec v 0) as [->|Hne].
    - simpl. rewrite length_insert, drop_insert_ge by (unfold BUFSZ; lia).
      split_and!; [|done|done]. change (Z.to_nat (BUFSZ - 1)) with 31%nat. rewrite Nat.sub_diag.
      destruct (drop 31 buf) as [|x l] eqn:E; apply (f_equal length) in E;
        rewrite length_drop in E; simpl in E; [lia|]. destruct l; simpl in *; [done | lia].
    - pose proof (dec_loop_digits 10 v buf (BUFSZ - 1)) as Hd.
      destruct (dec_loop _ _ _ _) as [b i]. unfold BUFSZ in *.
      destruct Hd as (E1 & E2 & E3); [lia | lia | lia |].
      rewrite <- (digits_fuel 10 64) by lia. rewrite length_fmap. simpl fst. simpl snd.
      rewrite E1. split_and!; [|lia|lia].
      rewrite drop_ge by (change (Z.to_nat (32 - 1 + 1)) with 32%nat; lia). by rewrite app_nil_r. }
  destruct res as [buf' idx]. simpl in E1, E2, E3.
  destruct (R_local T d p (drop (Z.to_nat idx) buf') (BUFSZ - idx) (dec v) HR) as (d' & p' & Hw & HR');
    [rewrite E1, E3, Nat2Z.id; apply firstn_all | done |].
  rewrite (bind_unfold _ _ _ _ _ Hw). exists d', buf', args', p'. by rewrite E3.
Qed.

Lemma nibbles_bounds w v :
  w = 32 \/ w = 64 -> in_u w v ->
  let n := if negb (v =? 0) then nibbles w v else 1 in
  1 <= n <= 16 /\ (v = 0 -> n = 1) /\ (v <> 0 -> 16 ^ (n - 1) <= v < 16 ^ n).
Proof.
  intros Hw Hv. unfold in_u in Hv. cbn zeta. destruct (Z.eqb_spec v 0) as [->|Hne]; cbn [negb].
  - split; [lia|]. split; [done | lia].
  - destruct (nibbles_spec w v) as (H1 & H2 & H3); [lia | lia |]. split; [lia|]. split; [lia | done].
Qed.

Lemma conversion_spec T d p buf c format args rargs out format' rargs' :
  R T d p -> length buf = 32%nat -> args_rel args rargs ->
  directive c format rargs = Some (out, format', rargs') ->
  converted T out format' rargs' (conversion write_func c d buf format args p).
Proof.
  intros HR Hb Hargs Hd. unfold directive in Hd. unfold conversion.
  destruct (c =? chr "s").
  { destruct rargs as [|[bs|] rargs]; simplify_eq.
    inversion Hargs as [|a ? args1 ? Hin Hrel]; subst.
    destruct (R_args T d p _ _ HR Hin) as [Hm _]. destruct a as [s|]; [|done]. simpl.
    destruct (R_str T d p s out HR Hin) as (d' & p' & Hw & HR' & Hl).
    rewrite (bind_unfold _ _ _ (mem p) p) by done. rewrite (bind_unfold _ _ _ _ _ Hw).
    exists d', buf, args1, p'. rewrite Hl. done. }
  destruct (_ || _ || _ || _) eqn:Hor.
  - destruct rargs as [|[|v] rargs]; simplify_eq.
    inversion Hargs as [|a ? args1 ? Hin Hrel]; subst.
    destruct (R_args T d p _ _ HR Hin) as [Hm _]. destruct a as [|v']; [done|].
    simpl in Hm; subst v'. unfold show_int. cbn [va_arg_int].
    destruct (c =? chr "c").
    { destruct (R_local T d p [u8 v] 1 [u8 v] HR) as (d' & p' & Hw & HR'); [done | done |].
      rewrite (bind_unfold _ _ _ _ _ Hw). exists d', buf, args1, p'. done. }
    destruct (c =? chr "p").
    { destruct (u64 v =? 0) eqn:E0.
      - destruct (R_local T d p (bytes_of_string "(nil)") 5 (bytes_of_string "(nil)") HR)
          as (d' & p' & Hw & HR'); [done | done |].
        rewrite (bind_unfold _ _ _ _ _ Hw). exists d', buf, args1, p'. done.
      - destruct (nibbles_bounds 64 (u64 v)) as (H1 & H2 & H3); [lia | by apply wrap_range |].
        rewrite E0 in H1, H2, H3. cbn [negb] in *.
        apply (converted_hex T d p _ (bytes_of_string "0x")); try done.
        + by rewrite !length_insert.
        + by apply wrap_range.
        + destruct buf as [|x [|y l]]; done. }
    destruct (c =? chr "u").
    { apply converted_dec; try done. by apply wrap_range. }
    destruct (c =? chr "x"); [|done].
    destruct (nibbles_bounds 32 (u32 v)) as (H1 & H2 & H3); [lia | by apply wrap_range |].
    apply (converted_hex T d p buf []); try done; [by apply wrap_range | simpl; lia].
  - apply orb_false_iff in Hor as [Hor ->]. apply orb_false_iff in Hor as [Hor ->].
    apply orb_false_iff in Hor as [-> ->].
    destruct ((c =? chr "l") && (lit format 0 =? chr "x")).
    + destruct rargs as [|[|v] rargs]; simplify_eq.
      inversion Hargs as [|a ? args1 ? Hin Hrel]; subst.
      destruct (R_args T d p _ _ HR Hin) as [Hm _]. destruct a as [|v']; [done|].
      simpl in Hm; subst v'. cbn [va_arg_int].
      destruct (nibbles_bounds 64 (u64 v)) as (H1 & H2 & H3); [lia | by apply wrap_range |].
      apply (converted_hex T d p buf []); try done; [by apply wrap_range | simpl; lia].
    + simplify_eq. exists d, buf, args, p. by rewrite app_nil_r.
Qed.

(** The text up to the next directive. *)
Lemma next_directive format :
  Forall cchar format ->
  match strchr (length format) (lit format) (chr "%") with
  | None => Forall (fun c => c <> chr "%") format
  | Some k => exists pre rest, format = pre ++ chr "%" :: rest /\ k = Z.of_nat (length pre) /\
      Forall (fun c => c <> chr "%") pre
  end.
Proof.
  intros Hc. unfold strchr. pose proof (strchr_percent (length format) [] format Hc (le_n _)) as E.
  change (Z.of_nat (length [])) with 0 in E. cbn [app] in E. rewrite E.
  destruct (list_find _ format) as [[i x]|] eqn:Hf.
  - apply list_find_Some in Hf as (Hx & -> & Hn). exists (take i format), (drop (S i) format).
    assert (i < length format)%nat by (by eapply lookup_lt_Some).
    split; [by rewrite take_drop_middle|]. rewrite length_take. split; [simpl; lia|].
    apply Forall_lookup. intros j y Hj. apply lookup_take_Some in Hj as [Hj Hlt]. by eapply Hn.
  - by apply list_find_None in Hf.
Qed.

Lemma write_text T d p pre rest n :
  R T d p -> in_u 64 n ->
  exists d' p',
    (if negb (Z.of_nat (length pre) =? 0) then
       data ← write_func d (Local (pre ++ rest)) (Z.of_nat (length pre));
       mret (data, u64 (n + Z.of_nat (length pre)))
     else mret (d, n)) p = ((d', u64 (n + Z.of_nat (length pre))), p') /\ R (T ++ pre) d' p'.
Proof.
  intros HR Hn. destruct pre as [|c pre].
  - exists d, p. simpl. rewrite Z.add_0_r, wrap_small, app_nil_r by done. done.
  - destruct (R_local T d p ((c :: pre) ++ rest) (Z.of_nat (length (c :: pre))) (c :: pre) HR)
      as (d' & p' & Hw & HR'); [by rewrite Nat2Z.id, take_app_length | done |].
    exists d', p'. split; [|done]. rewrite (proj2 (Z.eqb_neq _ 0)) by (simpl; lia). cbn [negb].
    by rewrite (bind_unfold _ _ _ _ _ Hw).
Qed.

(** The loop hands exactly the rendering of the format to the callback. *)
Lemma printf_loop_spec fuel T d p buf format args rargs out n :
  R T d p -> length buf = 32%nat -> args_rel args rargs -> in_u 64 n ->
  Forall cchar format -> (length format < fuel)%nat -> render format rargs = Some out ->
  exists d' p',
    printf_loop write_func fuel d buf format args n p = ((d', u64 (n + Z.of_nat (length out))), p') /\
    R (T ++ out) d' p'.
Proof.
  revert T d p buf format args rargs out n.
  induction fuel as [|fuel IH]; intros T d p buf format args rargs out n HR Hb Ha Hn Hc Hf Hr; [lia|].
  cbn [printf_loop]. destruct format as [|c0 format0].
  { simplify_eq/=. exists d, p. by rewrite Z.add_0_r, wrap_small, app_nil_r. }
  set (format := c0 :: format0) in *.
  rewrite (proj2 (Z.eqb_neq (lit format 0) 0)) by (apply lit_nonzero; [done | simpl; lia]).
  pose proof (next_directive format Hc) as Hnext. destruct (strchr _ _ _) as [k|].
  - destruct Hnext as (pre & rest & Hfmt & -> & Hpre). rewrite Hfmt in *.
    rewrite render_text in Hr by done. apply Forall_app in Hc as [_ Hc].
    inversion Hc as [|? ? _ Hc']; subst. rewrite length_app in Hf. simpl in Hf.
    destruct (render (chr "%" :: rest) rargs) as [out2|] eqn:Hr2; [|done]. injection Hr as <-.
    destruct (write_text T d p pre (chr "%" :: rest) n HR Hn) as (d1 & p1 & Hw & HR1).
    rewrite (bind_unfold _ _ _ _ _ Hw). cbn beta iota.
    replace (drop _ (pre ++ _)) with rest
      by (rewrite Nat2Z.id, Nat.add_1_r, (cons_middle _ pre rest), app_assoc, drop_app_length'; [done|];
          rewrite length_app; simpl; lia).
    rewrite length_app, Nat2Z.inj_add, Z.add_assoc, app_assoc.
    destruct rest as [|e rest].
    + simplify_eq/=.
      destruct (R_local (T ++ pre) d1 p1 (bytes_of_string "%") 1 [chr "%"] HR1)
        as (d' & p' & Hw' & HR'); [done | done |].
      rewrite (bind_unfold _ _ _ _ _ Hw'). exists d', p'.
      split; [|done]. unfold mret, ST_ret. by rewrite wrap_add_l.
    + rewrite render_directive in Hr2.
      destruct (directive e rest rargs) as [[[out1 format'] rargs']|] eqn:Hd; [|done].
      destruct (render format' rargs') as [out'|] eqn:Hr'; [|done]. simplify_eq/=.
      inversion Hc' as [|? ? He Hc'']; subst. change (lit (e :: rest) 0) with e.
      rewrite (proj2 (Z.eqb_neq e 0)) by (unfold cchar in He; lia).
      destruct (conversion_spec (T ++ pre) d1 p1 buf e rest args rargs out1 format' rargs' HR1 Hb Ha Hd)
        as (d2 & buf2 & args2 & p2 & Hconv & HR2 & Hb2 & Ha2).
      change (drop 0 rest) with rest. rewrite (bind_unfold _ _ _ _ _ Hconv). cbn beta iota.
      assert (format' = rest \/ format' = drop 1 rest) as Hfm.
      { clear -Hd. unfold directive in Hd.
        repeat case_match; simplify_eq; first [by left | by right]. }
      destruct (IH ((T ++ pre) ++ out1) d2 p2 buf2 format' args2 rargs' out'
        (u64 (u64 (n + Z.of_nat (length pre)) + Z.of_nat (length out1)))) as (d' & p' & Hl & HR');
        try done; [by apply wrap_range | | |].
      * destruct Hfm as [->| ->]; [done | by apply Forall_drop].
      * destruct Hfm as [->| ->]; [|rewrite length_drop]; simpl in Hf; lia.
      * exists d', p'. rewrite Hl, app_assoc. split; [|done].
        rewrite length_app, wrap_add_l, <- Z.add_assoc, wrap_add_l. do 3 f_equal. lia.
  - assert (out = format) as ->.
    { rewrite <- (app_nil_r format), render_text in Hr by done. simplify_eq/=. by rewrite app_nil_r. }
    unfold strlen. rewrite (strlen_loop_spec _ _ _ (Z.of_nat (length format)));
      [|lia | intros; by apply lit_nonzero | apply lit_end].
    destruct (R_local T d p format (Z.of_nat (length format)) format HR) as (d' & p' & Hw & HR');
      [by rewrite Nat2Z.id, firstn_all | done |].
    rewrite (bind_unfold _ _ _ _ _ Hw). by exists d', p'.
Qed.
End DriverSpec.

(** ** [snprintf] *)

Lemma memcpy_src_block {W} `{Kernel W} dest s n bs (p : Proc W) :
  0 <= n <= Z.of_nat (length bs) -> source_bytes (mem p) s (length bs) = bs ->
  match s with InMem a => dest <= a \/ a + n <= dest | Local _ => True end ->
  memcpy_src dest s n p = (tt, set_mem (store_bytes (mem p) dest (take (Z.to_nat n) bs)) p).
Proof.
  intros Hn Hb Hd. destruct s as [a|buf]; unfold memcpy_src.
  - unfold memcpy, mbind, ST_bind, modify, mret, ST_ret. rewrite memcpy_loop_block by lia.
    do 3 f_equal. simpl in Hb. rewrite <- Hb.
    replace (length bs) with (Z.to_nat n + (length bs - Z.to_nat n))%nat by lia.
    rewrite load_bytes_app, take_app_length'; [done | by rewrite length_load_bytes].
  - unfold modify. do 3 f_equal. simpl in Hb. rewrite <- Hb, take_take. f_equal. lia.
Qed.

Lemma zip_elem {A B} (P : A -> B -> Prop) l k x y : Forall2 P l k -> (x, y) ∈ zip l k -> P x y.
Proof.
  intros HF Hin. apply elem_of_lookup_zip_with in Hin as (i & x' & y' & [= <- <-] & Hx & Hy).
  by eapply Forall2_lookup_lr.
Qed.

Lemma zip_related {A B} (P : A -> B -> Prop) l k :
  Forall2 P l k -> Forall2 (fun x y => (x, y) ∈ zip l k) l k.
Proof.
  intros HF. apply Forall2_same_length_lookup. split; [by eapply Forall2_length|].
  intros i x y Hx Hy. apply elem_of_lookup_zip_with. eauto 6.
Qed.

Section Snprintf.
Context {W : Type} `{Kernel W}.
Context (p0 : Proc W) (str size : Z) (args0 : list (varg * rarg)).

(** The string argument lies outside the destination buffer. *)
Definition apart (s : source) (bs : list Z) : Prop :=
  match s with
  | InMem a => a + Z.of_nat (length bs) < str \/ str + size <= a
  | Local _ => True
  end.

(** Output [T] so far: its first [size - 1] bytes are in the buffer. *)
Definition sprinted (T : list Z) (d : SPrintfHelperData) (p : Proc W) : Prop :=
  let k := Z.min (Z.of_nat (length T)) (size - 1) in
  d = mkSData (str + k) (size - k) /\
  load_bytes (mem p) str (Z.to_nat k) = take (Z.to_nat k) T /\
  (forall x, x < str \/ str + size <= x -> getb (mem p) x = getb (mem p0) x) /\
  exists m, p = set_mem m p0.

(** Storing the next [n] bytes of output behind the first [k]. *)
Lemma sprinted_store T bs d p n :
  1 <= size -> sprinted T d p ->
  n = Z.min (Z.of_nat (length bs)) (size - 1 - Z.min (Z.of_nat (length T)) (size - 1)) ->
  sprinted (T ++ bs) (mkSData (sp_buf d + n) (sp_len d - n))
    (set_mem (store_bytes (mem p) (sp_buf d) (take (Z.to_nat n) bs)) p).
Proof.
  intros Hs (Hd & Hl & Hx & m & Hp) Hn. unfold sprinted. rewrite length_app.
  set (k := Z.min (Z.of_nat (length T)) (size - 1)) in *.
  assert (0 <= n <= Z.of_nat (length bs)) as Hn0 by lia.
  assert (length (take (Z.to_nat n) bs) = Z.to_nat n) as Hlen by (rewrite length_take; lia).
  replace (Z.min (Z.of_nat (length T + length bs)) (size - 1)) with (k + n) by lia.
  subst d. simpl. split; [f_equal; lia|]. split; [|split].
  - rewrite Z2Nat.inj_add, load_bytes_app by lia. rewrite Z2Nat.id by lia. f_equal.
    rewrite load_store_disjoint by lia. rewrite Hl.
    rewrite (load_store_same' _ _ _ _ Hlen).
    destruct (decide (n = 0)) as [->|Hne].
    + rewrite take_0, app_nil_r, Nat.add_0_r. rewrite take_app_le by lia. done.
    + assert (k = Z.of_nat (length T)) as Hk by lia.
      rewrite Hk, Nat2Z.id, firstn_all, take_app_add. done.
  - intros x Hxo. rewrite getb_store_out by lia. by apply Hx.
  - exists (store_bytes (mem p) (str + k) (take (Z.to_nat n) bs)). by rewrite Hp.
Qed.

Lemma sprintf_helper_spec T d p s bs :
  1 <= size -> sprinted T d p -> apart s bs -> source_bytes (mem p) s (length bs) = bs ->
  let '(d', p') := sprintf_helper d s (Z.of_nat (length bs)) p in sprinted (T ++ bs) d' p'.
Proof.
  intros Hs HR Ha Hb. pose proof HR as (Hd & _).
  set (k := Z.min (Z.of_nat (length T)) (size - 1)) in *.
  assert (sp_len d = size - k /\ sp_buf d = str + k) as [El Eb] by (subst d; done).
  unfold sprintf_helper. rewrite (proj2 (Z.eqb_neq (sp_len d) 0)) by lia.
  assert (forall n, n <= size - k -> match s with
    | InMem a => sp_buf d <= a \/ a + n <= sp_buf d | Local _ => True end \/ n > Z.of_nat (length bs)) as Hdis.
  { intros n Hn. destruct s as [a|]; [simpl in Ha; lia | by left]. }
  destruct (Z.ltb_spec (Z.of_nat (length bs)) (sp_len d)) as [Hlt|Hge].
  - erewrite bind_unfold; [|apply (memcpy_src_block _ _ _ bs); [lia | done |]].
    + apply sprinted_store; [done..|]. lia.
    + destruct (Hdis (Z.of_nat (length bs))); [lia | done | lia].
  - erewrite bind_unfold; [|apply (memcpy_src_block _ _ _ bs); [lia | done |]].
    + replace (mkSData _ 1) with
        (mkSData (sp_buf d + (sp_len d - 1)) (sp_len d - (sp_len d - 1))) by (f_equal; lia).
      apply sprinted_store; [done..|]. lia.
    + destruct (Hdis (sp_len d - 1)); [lia | done | lia].
Qed.
End Snprintf.

(** The arguments of a call: values with what they print, strings in memory
    outside the buffer. *)
Definition call_args (m : memory) (str size : Z) (args : list varg) (rargs : list rarg) : Prop :=
  Forall2 (fun a r => arg_match m a r /\
    match a, r with VStr s, RStr bs => apart str size s bs | _, _ => True end) args rargs.

(** [snprintf] with a buffer of [size >= 1] bytes: the buffer receives the
    rendering of the format, cut off after [size - 1] bytes, and a NUL; no byte
    outside the buffer changes; the result is the length of the whole rendering. *)
Theorem snprintf_correct {W} `{Kernel W} (p : Proc W) str size format args rargs out :
  1 <= size -> Forall cchar format -> call_args (mem p) str size args rargs ->
  render format rargs = Some out -> Z.of_nat (length out) < 2 ^ 31 ->
  let '(r, p') := snprintf str size format args p in
  let k := Z.to_nat (Z.min (Z.of_nat (length out)) (size - 1)) in
  r = Z.of_nat (length out) /\
  load_bytes (mem p') str (S k) = take k out ++ [0] /\
  (forall x, x < str \/ str + size <= x -> getb (mem p') x = getb (mem p) x) /\
  kst p' = kst p.
Proof.
  intros Hs Hc Ha Hr Hlen.
  unfold snprintf, vsnprintf, printf_driver.
  destruct (printf_loop_spec sprintf_helper (sprinted p str size) (apart str size) (zip args rargs))
    with (fuel := S (length format)) (T := @nil Z) (d := mkSData str size) (p := p)
      (buf := replicate (Z.to_nat BUFSZ) 0) (format := format) (args := args) (rargs := rargs)
      (out := out) (n := 0) as (d' & p' & Hl & HR); try done.
  - intros T d q s bs HR Hok Hb. by apply (sprintf_helper_spec p str size).
  - intros T d q a r (_ & _ & Hx & _) Hin.
    destruct (zip_elem _ _ _ _ _ Ha Hin) as [Hm Hok]. split; [|done].
    destruct a as [[a|]|], r; try done. destruct Hm as [Hcc Hm]. split; [done|].
    rewrite <- Hm. apply load_bytes_ext. intros x Hxx. apply Hx. simpl in Hok. lia.
  - unfold sprinted. change (Z.of_nat (length [])) with 0. rewrite Z.min_l by lia.
    split; [f_equal; lia|]. split_and!; [done | done | by exists (mem p); destruct p].
  - by eapply zip_related.
  - simpl. lia.
  - rewrite (bind_unfold _ _ _ _ _ Hl). destruct HR as (-> & Hld & Hx & m & ->).
    cbn. rewrite Z.add_0_l, wrap_small, swrap_small by (unfold in_u, in_s; lia).
    split; [done|].
    set (k := Z.min _ _) in *. split; [|split; [|done]].
    + change (mem _) with (store_bytes m (str + k) [0]).
      change (getb ?mm str :: load_bytes ?mm (str + 1) ?n) with (load_bytes mm str (S n)).
      rewrite <- Nat.add_1_r, load_bytes_app, Z2Nat.id by lia.
      rewrite (load_store_same' _ (str + k)) by done. f_equal.
      rewrite load_store_disjoint by lia. done.
    + intros x Hxo. rewrite <- Hx by done. change (mem (set_mem (<[_ := 0]> _) _)) with
        (store_bytes m (str + k) [0]). apply getb_store_out. simpl. lia.
Qed.

Lemma snprintf_correct_witness :
  let p := mkProc (store_bytes ∅ 100 [104; 105; 0]) (mkPipes ∅ ∅ 0 0) (mkArena 0 0 0 0)
             (mkArena 0 0 0 0) 4096 0 in
  let '(r, p') := snprintf 200 6 (bytes_of_string "<%s>%x") [VStr (InMem 100); VInt 0xbeef] p in
  r = 8 /\ load_bytes (mem p') 200 6 = bytes_of_string "<hi>b" ++ [0].
Proof.
  intros p.
  pose proof (snprintf_correct p 200 6 (bytes_of_string "<%s>%x") [VStr (InMem 100); VInt 0xbeef]
    [RStr [104; 105]; RInt 0xbeef] (bytes_of_string "<hi>beef")) as T.
  destruct (snprintf _ _ _ _ p) as [r p']. destruct T as (T1 & T2 & _).
  - lia.
  - repeat constructor; unfold cchar; vm_compute; done.
  - repeat constructor; try (vm_compute; done); simpl; lia.
  - reflexivity.
  - vm_compute. done.
  - split; [exact T1 | exact T2].
Defined.

(** ** [dprintf] *)

(** Files whose writes complete: [write(2)] appends all its bytes (regular
    files and terminals; [dprintf_helper] ignores the result of [write]). *)
Class Sink (W : Type) `{Kernel W} := {
  sunk : W -> Z -> list Z;
  sink_write : forall fd buf n m w, 0 <= n ->
    exists w', kernel NR_write [fd; buf; n] (m, w) = (n, (m, w')) /\
      sunk w' fd = sunk w fd ++ load_bytes m buf (Z.to_nat n) /\
      forall fd', fd' <> fd -> sunk w' fd' = sunk w fd';
}.

Section Dprintf.
Context {W : Type} `{Sink W}.
Context (p0 : Proc W) (fd buf : Z).

(** The argument string lies below the stack area of the call. *)
Definition below (s : source) (bs : list Z) : Prop :=
  match s with InMem a => a + Z.of_nat (length bs) < buf | Local _ => True end.

(** The process differs from [p0] by the bytes [out] written to [fd] and by the
    stack area from [buf] on; [buf] is the 1024-byte member array. *)
Definition flushed (out : list Z) (p : Proc W) : Prop :=
  sunk (kst p) (u64 fd) = sunk (kst p0) (u64 fd) ++ out /\
  (forall fd', fd' <> u64 fd -> sunk (kst p) fd' = sunk (kst p0) fd') /\
  (forall x, x < buf -> getb (mem p) x = getb (mem p0) x) /\ sp p = buf + DP_BUFSZ.

Lemma flushed_store out p a bs :
  flushed out p -> buf <= a -> flushed out (set_mem (store_bytes (mem p) a bs) p).
Proof.
  intros (H1 & H2 & H3 & H4) Ha. split_and!; try done.
  intros x Hx. simpl. rewrite getb_store_out by lia. by apply H3.
Qed.

Lemma write_flushed out p a n bs :
  flushed out p -> 0 <= n -> load_bytes (mem p) a (Z.to_nat n) = bs ->
  exists r p', write fd a n p = (r, p') /\ flushed (out ++ bs) p' /\ mem p' = mem p.
Proof.
  intros (H1 & H2 & H3 & H4) Hn Hb. unfold write, syscall, mbind, ST_bind.
  destruct (sink_write (u64 fd) a n (mem p) (kst p) Hn) as (w' & -> & Hs & Ho).
  eexists _, _. split; [done|]. split; [|done]. split_and!; simpl; try done.
  - rewrite Hs, H1, Hb. by rewrite app_assoc.
  - intros fd' Hf. rewrite Ho by done. by apply H2.
Qed.

Lemma write_src_flushed out p s bs :
  flushed out p -> source_bytes (mem p) s (length bs) = bs ->
  exists r p', write_src fd s (Z.of_nat (length bs)) p = (r, p') /\ flushed (out ++ bs) p'.
Proof.
  intros Hf Hb. destruct s as [a|b]; simpl.
  - destruct (write_flushed out p a (Z.of_nat (length bs)) bs Hf) as (r & p' & Hw & Hf' & _);
      [lia | by rewrite Nat2Z.id | eauto].
  - pose proof Hf as (_ & _ & _ & Hsp).
    unfold with_local, gets, modify, mbind, ST_bind, mret, ST_ret. simpl.
    set (p1 := set_mem _ _).
    assert (flushed out (set_sp (sp p) p1)) as Hf1.
    { replace (set_sp (sp p) p1) with (set_mem (store_bytes (mem p) (sp p) b) p) by (by destruct p).
      apply flushed_store; [done | unfold DP_BUFSZ in *; lia]. }
    assert (load_bytes (mem p1) (sp p) (Z.to_nat (Z.of_nat (length bs))) = bs) as Hl.
    { subst p1. simpl in *. rewrite Nat2Z.id.
      assert (length bs <= length b)%nat by (rewrite <- Hb, length_take; lia).
      pose proof (load_store_inside (mem p) (sp p) b 0 (length bs)) as E.
      rewrite Z.add_0_r in E. rewrite E by lia. done. }
    unfold write, syscall, mbind, ST_bind.
    destruct (sink_write (u64 fd) (sp p) (Z.of_nat (length bs)) (mem p1) (kst p1)) as (w' & -> & Hs & Ho);
      [lia|].
    eexists _, _. split; [done|]. destruct Hf1 as (H1 & H2 & H3 & H4). split_and!; simpl; try done.
    + rewrite Hs, Hl. change (kst p1) with (kst p). simpl in H1. by rewrite H1, app_assoc.
    + intros fd' Hf'. rewrite Ho by done. by apply H2.
Qed.

(** Output [T] so far: a flushed part and a pending part in the buffer. *)
Definition dprinted (T : list Z) (d : DPrintfHelperData) (p : Proc W) : Prop :=
  exists out pending, T = out ++ pending /\ flushed out p /\
    d = mkDData fd (Z.of_nat (length pending)) buf /\ Z.of_nat (length pending) <= DP_BUFSZ /\
    load_bytes (mem p) buf (length pending) = pending.

Lemma dprinted_append out pending p s bs :
  flushed out p -> load_bytes (mem p) buf (length pending) = pending ->
  Z.of_nat (length pending + length bs) <= DP_BUFSZ ->
  below s bs -> source_bytes (mem p) s (length bs) = bs ->
  exists p', memcpy_src (buf + Z.of_nat (length pending)) s (Z.of_nat (length bs)) p = (tt, p') /\
    dprinted (out ++ pending ++ bs) (mkDData fd (Z.of_nat (length pending + length bs)) buf) p'.
Proof.
  intros Hf Hl Hlen Hbel Hb. eexists. split.
  - apply (memcpy_src_block _ _ _ bs); [lia | done |].
    destruct s as [a|]; [simpl in Hbel; lia | done].
  - rewrite Nat2Z.id, firstn_all. exists out, (pending ++ bs). rewrite length_app.
    split; [done|]. split; [apply flushed_store; [done | lia]|]. split; [done|]. split; [lia|].
    simpl. rewrite load_bytes_app, load_store_same, load_store_disjoint by lia. by rewrite Hl.
Qed.

Lemma dprintf_helper_spec T d p s bs :
  dprinted T d p -> below s bs -> source_bytes (mem p) s (length bs) = bs ->
  let '(d', p') := dprintf_helper d s (Z.of_nat (length bs)) p in dprinted (T ++ bs) d' p'.
Proof.
  intros (out & pending & -> & Hf & -> & Hlen & Hl) Hbel Hb. unfold dprintf_helper.
  cbn [dp_fd dp_off dp_buf]. rewrite <- app_assoc.
  destruct (Z.leb_spec (Z.of_nat (length bs)) (DP_BUFSZ - Z.of_nat (length pending))) as [Hfit|Hbig].
  - destruct (dprinted_append out pending p s bs) as (p' & Hm & Hd); try done; [lia|].
    rewrite (bind_unfold _ _ _ _ _ Hm). by rewrite Nat2Z.inj_add in Hd.
  - destruct (write_flushed out p buf (Z.of_nat (length pending)) pending Hf) as (r & p1 & Hw & Hf1 & Hm1);
      [lia | by rewrite Nat2Z.id |].
    rewrite (bind_unfold _ _ _ _ _ Hw). cbn beta. rewrite <- Hm1 in Hb.
    destruct (Z.leb_spec (Z.of_nat (length bs)) DP_BUFSZ) as [Hfit|Hbig'].
    + destruct (dprinted_append (out ++ pending) [] p1 s bs) as (p' & Hm & Hd); try done.
      simpl in Hm. rewrite Z.add_0_r in Hm. rewrite (bind_unfold _ _ _ _ _ Hm).
      by rewrite <- app_assoc in Hd.
    + destruct (write_src_flushed (out ++ pending) p1 s bs Hf1 Hb) as (r2 & p2 & Hw2 & Hf2).
      rewrite (bind_unfold _ _ _ _ _ Hw2). exists ((out ++ pending) ++ bs), [].
      rewrite app_nil_r, <- app_assoc. split_and!; try done. by rewrite app_assoc.
Qed.

(** The last [write] of [vdprintf]. *)
Lemma final_flush T d p :
  dprinted T d p ->
  exists p', (if negb (dp_off d =? 0)
              then write (dp_fd d) (dp_buf d) (dp_off d);; mret tt else mret tt) p = (tt, p') /\
    flushed T p'.
Proof.
  intros (out & pe & -> & Hf & -> & Hle & Hpe). cbn [dp_fd dp_off dp_buf]. btest; cbn [negb].
  - destruct pe; [|simpl in *; lia]. exists p. by rewrite app_nil_r.
  - destruct (write_flushed out p buf (Z.of_nat (length pe)) pe Hf) as (r & p1 & Hw & Hf1 & _);
      [lia | by rewrite Nat2Z.id |].
    exists p1. by rewrite (bind_unfold _ _ _ _ _ Hw).
Qed.
End Dprintf.

(** [dprintf] on a file whose writes complete: what arrives on the
    descriptor is exactly the rendering of the format, in order, whatever the
    way the 1024-byte buffer splits it; the other descriptors and the memory
    below the stack area are unchanged, and the length is returned. *)
Theorem dprintf_correct {W} `{Sink W} (p : Proc W) fd format args rargs out :
  Forall cchar format ->
  Forall2 (fun a r => arg_match (mem p) a r /\
    match a, r with VStr s, RStr bs => below (sp p) s bs | _, _ => True end) args rargs ->
  render format rargs = Some out -> Z.of_nat (length out) < 2 ^ 31 ->
  let '(r, p') := dprintf fd format args p in
  r = Z.of_nat (length out) /\
  sunk (kst p') (u64 fd) = sunk (kst p) (u64 fd) ++ out /\
  (forall fd', fd' <> u64 fd -> sunk (kst p') fd' = sunk (kst p) fd') /\
  (forall x, x < sp p -> getb (mem p') x = getb (mem p) x) /\ sp p' = sp p.
Proof.
  intros Hc Ha Hr Hlen. unfold dprintf, vdprintf, with_local.
  set (p1 := set_sp (sp p + DP_BUFSZ) p).
  rewrite (bind_unfold _ _ _ (sp p) p) by done. rewrite (bind_unfold _ _ _ tt p1) by done.
  destruct (printf_loop_spec dprintf_helper (dprinted p fd (sp p)) (below (sp p)) (zip args rargs))
    with (fuel := S (length format)) (T := @nil Z) (d := mkDData fd 0 (sp p)) (p := p1)
      (buf := replicate (Z.to_nat BUFSZ) 0) (format := format) (args := args) (rargs := rargs)
      (out := out) (n := 0) as (d' & p2 & Hl & HR); try done.
  - intros T d q s bs HR Hok Hb. by apply dprintf_helper_spec.
  - intros T d q a r (o & pe & _ & (_ & _ & Hx & _) & _) Hin.
    destruct (zip_elem _ _ _ _ _ Ha Hin) as [Hm Hok]. split; [|done].
    destruct a as [[a|]|], r; try done. destruct Hm as [Hcc Hm]. split; [done|].
    rewrite <- Hm. apply load_bytes_ext. intros x Hxx. apply Hx. simpl in Hok. lia.
  - exists [], []. split_and!; try done. split_and!; try done. by rewrite app_nil_r.
  - by eapply zip_related.
  - simpl. lia.
  - destruct (final_flush p fd (sp p) _ _ _ HR) as (p3 & Hfl & H1 & H2 & H3 & H4).
    unfold printf_driver.
    rewrite (bind_unfold _ _ _ (s32 (u64 (0 + Z.of_nat (length out)))) p3);
      [|by rewrite (bind_unfold _ _ _ _ _ Hl), (bind_unfold _ _ _ _ _ Hfl)].
    rewrite Z.add_0_l, wrap_small, swrap_small by (unfold in_u, in_s; lia).
    rewrite (bind_unfold _ _ _ tt (set_sp (sp p) p3)) by done. split_and!; done.
Qed.

(** A kernel whose writes complete: a log per descriptor. *)
Record Logs := mkLogs { logs : gmap Z (list Z) }.
Definition log_of (w : Logs) (fd : Z) : list Z := default [] (logs w !! fd).
#[global] Instance log_kernel : Kernel Logs := fun nr args st =>
  match nr, args with
  | NR_write, [fd; buf; n] =>
      (n, (st.1, mkLogs (<[fd := log_of st.2 fd ++ load_bytes st.1 buf (Z.to_nat n)]> (logs st.2))))
  | _, _ => (- ENOSYS, st)
  end.
#[global] Instance log_sink : Sink Logs.
Proof.
  refine {| sunk := log_of |}. intros fd buf n m w Hn. eexists. split; [reflexivity|].
  unfold log_of. simpl. rewrite lookup_insert_eq. split; [reflexivity|].
  intros fd' Hf. rewrite lookup_insert_ne by congruence. reflexivity.
Defined.

Lemma dprintf_correct_witness :
  let p := mkProc ∅ (mkLogs ∅) (mkArena 0 0 0 0) (mkArena 0 0 0 0) 4096 0x7000 in
  let '(r, p') := dprintf 2 (bytes_of_string "%u%%s") [VInt 42; VStr (Local [65])] p in
  r = 3 /\ log_of (kst p') 2 = bytes_of_string "42s".
Proof.
  intros p.
  pose proof (dprintf_correct p 2 (bytes_of_string "%u%%s") [VInt 42; VStr (Local [65])]
    [RInt 42; RStr [65]] (bytes_of_string "42s")) as T.
  destruct (dprintf _ _ _ p) as [r p']. destruct T as (T1 & T2 & _).
  - repeat constructor; unfold cchar; vm_compute; done.
  - repeat constructor; vm_compute; done.
  - reflexivity.
  - vm_compute. done.
  - split; [exact T1 | exact T2].
Defined.
