(* ===== verification/RtldReloc.v ===== *)
(** * Relocations, stubs and the PLT of [client/rtld.c]

    Range checks and bit blending, the relocation switch for both host
    architectures, the PLT, the patch stubs and [rtld_patch]. *)

From Stdlib Require Import ZArith Lia String.
From stdpp Require Import base numbers list list_numbers option gmap.
From S2P Require Import Prelude Machine Loopback Minilibc Memory Printf.

(** The host the client is compiled for. *)
Inductive Arch := X86_64 | AARCH64.
#[global] Instance Arch_eq_dec : EqDecision Arch.
Proof. solve_decision. Defined.

(** A literal that ends in a newline. *)
Definition line (s : string) : list Z := bytes_of_string s ++ [10].

(** ** Data *)

(** [struct DispatcherInfo], the code addresses as numbers. *)
Record DispatcherInfo := mkDisp {
  loop_func : Z; quick_dispatch_func : Z; full_dispatch_func : Z; patch_data_reg : Z }.

(** [struct RtldPatchData] and its layout in memory. *)
Record RtldPatchData := mkPatch {
  sym_addr : Z; rel_type : Z; rel_size : Z; addend : Z; patch_addr : Z }.
Definition SIZEOF_PATCH : Z := 32.
Definition load_patch (m : memory) (a : Z) : RtldPatchData :=
  mkPatch (loadZ m 8 a) (loadZ m 4 (a + 8)) (loadZ m 4 (a + 12)) (s64 (loadZ m 8 (a + 16)))
    (loadZ m 8 (a + 24)).
Definition store_patch (m : memory) (a : Z) (d : RtldPatchData) : memory :=
  storeZ (storeZ (storeZ (storeZ (storeZ m 8 a (sym_addr d)) 4 (a + 8) (rel_type d))
    4 (a + 12) (rel_size d)) 8 (a + 16) (addend d)) 8 (a + 24) (patch_addr d).

(** ** Relocation types of [elf.h] *)

Definition R_X86_64_64 : Z := 1.
Definition R_X86_64_PC32 : Z := 2.
Definition R_X86_64_PLT32 : Z := 4.
Definition R_X86_64_32 : Z := 10.
Definition R_X86_64_32S : Z := 11.
Definition R_X86_64_PC64 : Z := 24.
Definition R_AARCH64_PREL64 : Z := 260.
Definition R_AARCH64_PREL32 : Z := 261.
Definition R_AARCH64_MOVW_UABS_G0_NC : Z := 264.
Definition R_AARCH64_MOVW_UABS_G1_NC : Z := 266.
Definition R_AARCH64_MOVW_UABS_G2_NC : Z := 268.
Definition R_AARCH64_MOVW_UABS_G3 : Z := 269.
Definition R_AARCH64_ADR_PREL_PG_HI21 : Z := 275.
Definition R_AARCH64_ADD_ABS_LO12_NC : Z := 277.
Definition R_AARCH64_LDST8_ABS_LO12_NC : Z := 278.
Definition R_AARCH64_JUMP26 : Z := 282.
Definition R_AARCH64_CALL26 : Z := 283.
Definition R_AARCH64_LDST16_ABS_LO12_NC : Z := 284.
Definition R_AARCH64_LDST32_ABS_LO12_NC : Z := 285.
Definition R_AARCH64_LDST64_ABS_LO12_NC : Z := 286.
Definition R_AARCH64_LDST128_ABS_LO12_NC : Z := 299.

(** ** Range checks *)

Definition CHECK_SIGNED_BITS (val bits : Z) : bool :=
  (- Z.shiftl 1 (bits - 1) <=? val) && (val <? Z.shiftl 1 (bits - 1) - 1).
Definition CHECK_UNSIGNED_BITS (val bits : Z) : bool := val <? Z.shiftl 1 bits - 1.

Section Reloc.
Context {W : Type} `{Kernel W}.

Definition rtld_elf_signed_range (val bits : Z) (relinfo : string) : ST (Proc W) bool :=
  if negb (CHECK_SIGNED_BITS val bits) then
    dprintf 2 (line "relocation offset out of range (%s): %lx")
      [VStr (Local (bytes_of_string relinfo)); VInt val];;
    mret false
  else mret true.

Definition rtld_elf_unsigned_range (val bits : Z) (relinfo : string) : ST (Proc W) bool :=
  if negb (CHECK_UNSIGNED_BITS val bits) then
    dprintf 2 (line "relocation offset out of range (%s): %lx")
      [VStr (Local (bytes_of_string relinfo)); VInt val];;
    mret false
  else mret true.

(** ** Blending *)

(** The width in bytes of the access [rtld_blend] makes. *)
Definition blend_width (mask : Z) : nat :=
  if 2 ^ 32 - 1 <? mask then 8%nat
  else if 2 ^ 16 - 1 <? mask then 4%nat
  else if 2 ^ 8 - 1 <? mask then 2%nat
  else 1%nat.

Definition blend_mem (m : memory) (tgt mask data : Z) : memory :=
  let n := blend_width mask in
  storeZ m n tgt (Z.lor (Z.land data mask) (Z.land (loadZ m n tgt) (u64 (Z.lnot mask)))).

Definition rtld_blend (tgt mask data : Z) : ST (Proc W) unit :=
  modify (fun p => set_mem (blend_mem (mem p) tgt mask (u64 data)) p).

(** ** AArch64 call stubs *)

Definition store_words (m : memory) (a : Z) (ws : list Z) : memory :=
  store_bytes m a (ws ≫= Z_to_little_endian 4 8).

Definition stub_insns (sym : Z) : list Z :=
  [ Z.lor 0xd2800010 (Z.shiftl (Z.land (Z.shiftr sym 0) 0xffff) 5);   (* movz x16, ... *)
    Z.lor 0xf2a00010 (Z.shiftl (Z.land (Z.shiftr sym 16) 0xffff) 5);  (* movk x16, ..., lsl 16 *)
    Z.lor 0xf2c00010 (Z.shiftl (Z.land (Z.shiftr sym 32) 0xffff) 5);  (* movk x16, ..., lsl 32 *)
    Z.lor 0xf2e00010 (Z.shiftl (Z.land (Z.shiftr sym 48) 0xffff) 5);  (* movk x16, ..., lsl 48 *)
    0xd61f0200 ].                                                     (* br x16 *)

(** The result code and the stub address. *)
Definition rtld_elf_add_stub (sym : Z) : ST (Proc W) (Z * Z) :=
  with_local 20 (fun stcode =>
    modify (fun p => set_mem (store_words (mem p) stcode (stub_insns sym)) p);;
    stub ← mem_alloc_code 20 0x40;
    if BAD_ADDR stub then mret (s32 stub, 0)
    else
      ret ← mem_write_code stub stcode 20;
      if ret <? 0 then mret (ret, 0) else mret (0, stub)).

(** ** The relocation switch *)

(** A checked signed field. *)
Definition reloc_signed (tgt val bits : Z) (relinfo : string) (mask data : Z) : ST (Proc W) Z :=
  ok ← rtld_elf_signed_range val bits relinfo;
  if negb ok then mret (- EINVAL) else rtld_blend tgt mask data;; mret 0.

Definition reloc_x86_64 (type tgt syma prel_syma : Z) : ST (Proc W) Z :=
  if type =? R_X86_64_PC64 then rtld_blend tgt (2 ^ 64 - 1) prel_syma;; mret 0
  else if type =? R_X86_64_64 then rtld_blend tgt (2 ^ 64 - 1) syma;; mret 0
  else if type =? R_X86_64_PC32 then reloc_signed tgt prel_syma 32 "R_X86_64_PC32" 0xffffffff prel_syma
  else if type =? R_X86_64_PLT32 then reloc_signed tgt prel_syma 32 "R_X86_64_PLT32" 0xffffffff prel_syma
  else if type =? R_X86_64_32S then reloc_signed tgt (s64 syma) 32 "R_X86_64_32S" 0xffffffff syma
  else if type =? R_X86_64_32 then
    ok ← rtld_elf_unsigned_range syma 32 "R_X86_64_32S";
    if negb ok then mret (- EINVAL) else rtld_blend tgt 0xffffffff syma;; mret 0
  else
    dprintf 2 (line "unhandled relocation %u") [VInt type];; mret (- EINVAL).

Definition reloc_aarch64 (type tgt syma pc prel_syma : Z) : ST (Proc W) Z :=
  if type =? R_AARCH64_PREL64 then rtld_blend tgt (2 ^ 64 - 1) prel_syma;; mret 0
  else if type =? R_AARCH64_PREL32 then
    reloc_signed tgt prel_syma 32 "R_AARCH64_PREL32" 0xffffffff prel_syma
  else if (type =? R_AARCH64_JUMP26) || (type =? R_AARCH64_CALL26) then
    '(ret, prel_syma) ←
      (if negb (CHECK_SIGNED_BITS prel_syma 28) then
         '(ret, stub) ← rtld_elf_add_stub syma;
         if ret <? 0 then mret (ret, prel_syma) else mret (0, s64 (stub - pc))
       else mret (0, prel_syma));
    if ret <? 0 then mret ret
    else reloc_signed tgt prel_syma 28 "R_AARCH64_JUMP26" 0x03ffffff (Z.shiftr prel_syma 2)
  else if type =? R_AARCH64_ADR_PREL_PG_HI21 then
    let prel_syma := s64 (ALIGN_DOWN syma (Z.shiftl 1 12) - ALIGN_DOWN pc (Z.shiftl 1 12)) in
    let prel_syma := Z.shiftr prel_syma 12 in
    reloc_signed tgt prel_syma 21 "R_AARCH64_PG_HI21" 0x60ffffe0
      (Z.lor (Z.shiftl (Z.land prel_syma 3) 29)
             (Z.shiftl (Z.land (Z.shiftr prel_syma 2) 0x7ffff) 5))
  else if type =? R_AARCH64_ADD_ABS_LO12_NC then
    rtld_blend tgt (Z.shiftl 0xfff 10) (Z.shiftl syma 10);; mret 0
  else if type =? R_AARCH64_LDST8_ABS_LO12_NC then
    rtld_blend tgt (Z.shiftl 0xfff 10) (Z.shiftl syma 10);; mret 0
  else if type =? R_AARCH64_LDST16_ABS_LO12_NC then
    rtld_blend tgt (Z.shiftl (Z.shiftr 0xfff 1) 10) (Z.shiftl (Z.shiftr syma 1) 10);; mret 0
  else if type =? R_AARCH64_LDST32_ABS_LO12_NC then
    rtld_blend tgt (Z.shiftl (Z.shiftr 0xfff 2) 10) (Z.shiftl (Z.shiftr syma 2) 10);; mret 0
  else if type =? R_AARCH64_LDST64_ABS_LO12_NC then
    rtld_blend tgt (Z.shiftl (Z.shiftr 0xfff 3) 10) (Z.shiftl (Z.shiftr syma 3) 10);; mret 0
  else if type =? R_AARCH64_LDST128_ABS_LO12_NC then
    rtld_blend tgt (Z.shiftl (Z.shiftr 0xfff 4) 10) (Z.shiftl (Z.shiftr syma 4) 10);; mret 0
  else if type =? R_AARCH64_MOVW_UABS_G0_NC then
    rtld_blend tgt (Z.shiftl 0xffff 5) (Z.shiftl (Z.shiftr syma 0) 5);; mret 0
  else if type =? R_AARCH64_MOVW_UABS_G1_NC then
    rtld_blend tgt (Z.shiftl 0xffff 5) (Z.shiftl (Z.shiftr syma 16) 5);; mret 0
  else if type =? R_AARCH64_MOVW_UABS_G2_NC then
    rtld_blend tgt (Z.shiftl 0xffff 5) (Z.shiftl (Z.shiftr syma 32) 5);; mret 0
  else if type =? R_AARCH64_MOVW_UABS_G3 then
    rtld_blend tgt (Z.shiftl 0xffff 5) (Z.shiftl (Z.shiftr syma 48) 5);; mret 0
  else
    dprintf 2 (line "unhandled relocation %u") [VInt type];; mret (- EINVAL).

Definition rtld_reloc_at (arch : Arch) (patch_data : RtldPatchData) (tgt sym : Z) : ST (Proc W) Z :=
  let syma := u64 (sym + addend patch_data) in
  let pc := patch_addr patch_data in
  let prel_syma := s64 (syma - pc) in
  match arch with
  | X86_64 => reloc_x86_64 (rel_type patch_data) tgt syma prel_syma
  | AARCH64 => reloc_aarch64 (rel_type patch_data) tgt syma pc prel_syma
  end.

(** ** Patching *)

(** [rtld_patch] with the address of the patch data, 0 for none. *)
Definition rtld_patch (arch : Arch) (patch_data sym : Z) : ST (Proc W) unit :=
  if patch_data =? 0 then mret tt
  else
    d ← gets (fun p => load_patch (mem p) patch_data);
    if 8 <? rel_size d then mret tt
    else
      with_local 8 (fun reloc_buf =>
        memcpy reloc_buf (patch_addr d) (rel_size d);;
        rtld_reloc_at arch d reloc_buf sym;;
        mem_write_code (patch_addr d) reloc_buf (rel_size d);;
        mret tt).

(** ** The PLT *)

Definition PLT_FUNC_SIZE : Z := 8.

(** The entries [plt.inc] adds on both hosts, in order; [link name] is the
    address the linker gave the function. *)
Definition plt_inc (arch : Arch) : list (string * string) :=
  [ ("syscall", "emulate_syscall"); ("syscall_rv64", "emulate_rv64_syscall");
    ("syscall_aarch64", "emulate_aarch64_syscall"); ("cpuid", "emulate_cpuid");
    ("__divti3", "__divti3"); ("__udivti3", "__udivti3"); ("__modti3", "__modti3");
    ("__umodti3", "__umodti3"); ("floorf", "floorf"); ("floor", "floor"); ("ceilf", "ceilf");
    ("ceil", "ceil"); ("roundf", "roundf"); ("round", "round"); ("truncf", "truncf");
    ("trunc", "trunc"); ("fmaf", "fmaf"); ("fma", "fma");
    ("instrew_tail_cdecl", "dispatch_cdecl"); ("instrew_call_cdecl", "dispatch_cdecl") ]%string ++
  match arch with
  | X86_64 => [ ("instrew_tail_hhvm", "dispatch_hhvm_tail");
                ("instrew_call_hhvm", "dispatch_hhvm_tail") ]%string
  | AARCH64 => []
  end ++
  [ ("memset", "memset"); ("dprintf", "dprintf") ]%string.

(** [plt_entries] without the terminator; the first two functions are set by
    [plt_create]. *)
Definition plt_entries (arch : Arch) (link : string -> Z) : list (list Z * Z) :=
  [ (bytes_of_string "instrew_quick_dispatch", 0); (bytes_of_string "instrew_full_dispatch", 0) ] ++
  ((fun e => (bytes_of_string e.1, link e.2)) <$> plt_inc arch).

(** The value of the data slot of entry [i]. *)
Definition plt_func (disp_info : DispatcherInfo) (i : Z) (func : Z) : Z :=
  if i =? 0 then quick_dispatch_func disp_info
  else if i =? 1 then full_dispatch_func disp_info
  else func.

(** The code of a slot whose data slot is [offset] bytes further on. *)
Definition plt_code (arch : Arch) (m : memory) (code_ptr offset : Z) : memory :=
  match arch with
  | X86_64 =>
      storeZ m 8 code_ptr (Z.lor 0x0b0f0000000025ff (Z.shiftl (offset - 6) 16))
  | AARCH64 =>
      storeZ (storeZ m 4 code_ptr (Z.lor 0x58000011 (Z.shiftl offset 3)))
        4 (code_ptr + 4) 0xd61f0220
  end.

Fixpoint plt_fill (arch : Arch) (disp_info : DispatcherInfo) (entries : list (list Z * Z))
    (i plt data_offset : Z) (m : memory) : memory :=
  match entries with
  | [] => m
  | (_, func) :: entries' =>
      let code_ptr := plt + i * PLT_FUNC_SIZE in
      let data_ptr := plt + 8 * (data_offset / 8 + i) in
      let offset := data_ptr - code_ptr in
      let m := storeZ m 8 data_ptr (plt_func disp_info i func) in
      plt_fill arch disp_info entries' (i + 1) plt data_offset (plt_code arch m code_ptr offset)
  end.

Definition plt_data_offset (n : Z) : Z := ALIGN_UP (n * PLT_FUNC_SIZE) 0x40.

(** [sizeof(plt)]. *)
Definition plt_bytes (n : Z) : Z := ALIGN_UP (plt_data_offset n + n * 8) 8 / 8 * 8.

(** The result code and the address of the PLT. *)
Definition plt_create (arch : Arch) (link : string -> Z) (disp_info : DispatcherInfo)
    : ST (Proc W) (Z * Z) :=
  let entries := plt_entries arch link in
  let plt_entry_count := Z.of_nat (length entries) in
  let data_offset := plt_data_offset plt_entry_count in
  let plt_size := plt_bytes plt_entry_count in
  with_local plt_size (fun plt =>
    modify (fun p => set_mem (plt_fill arch disp_info entries 0 plt data_offset (mem p)) p);;
    pltcode ← mem_alloc_code plt_size 0x40;
    if BAD_ADDR pltcode then mret (s32 pltcode, 0)
    else
      ret ← mem_write_code pltcode plt plt_size;
      if ret <? 0 then mret (ret, 0) else mret (0, pltcode)).

(** ** Patch stubs *)

(** [rtld_patch_create_stub], given [rtld->plt] and the register that takes the
    patch data. *)
Definition rtld_patch_create_stub (arch : Arch) (plt pdr : Z) (patch_data : RtldPatchData)
    : ST (Proc W) (Z * Z) :=
  let size := 0x10 + SIZEOF_PATCH in
  with_local size (fun stcode =>
    stub ← mem_alloc_code size 0x40;
    if BAD_ADDR stub then mret (s32 stub, 0)
    else
      let jmptgt := u64 (plt + 1 * PLT_FUNC_SIZE) in
      let jmptgtdiff := s64 (jmptgt - stub) in
      ok ← match arch with
           | X86_64 =>
               let tmpl := [u8 (0x48 + (if 8 <=? pdr then 4 else 0)); 0x8d;
                            u8 (5 + Z.shiftl (Z.land pdr 7) 3); 9; 0; 0; 0; 0xe9] in
               modify (fun p => set_mem (store_bytes (mem p) stcode tmpl) p);;
               modify (fun p => set_mem (storeZ (mem p) 4 (stcode + 8) (jmptgtdiff - 12)) p);;
               modify (fun p => set_mem (storeZ (mem p) 4 (stcode + 12) 0x0b0f0b0f) p);;
               mret true
           | AARCH64 =>
               modify (fun p => set_mem (storeZ (mem p) 4 stcode (0x10000080 + pdr)) p);;
               modify (fun p => set_mem (storeZ (mem p) 4 (stcode + 4) 0x14000000) p);;
               ok ← rtld_elf_signed_range (jmptgtdiff - 4) 28 "R_AARCH64_JUMP26";
               if negb ok then mret false
               else rtld_blend (stcode + 4) 0x03ffffff (Z.shiftr (jmptgtdiff - 4) 2);; mret true
           end;
      if negb ok then mret (- EINVAL, 0)
      else
        modify (fun p => set_mem (store_patch (mem p) (stcode + size - SIZEOF_PATCH) patch_data) p);;
        ret ← mem_write_code stub stcode size;
        if ret <? 0 then mret (ret, 0) else mret (0, stub)).

End Reloc.

(** ** Blending, bit by bit *)

Lemma testbit_ubfx_le v a b i :
  0 <= a <= b -> 0 <= i -> Z.testbit (ubfx v a b) i = Z.testbit v (i + a) && (i <=? b - a).
Proof.
  intros Hab Hi. rewrite ubfx_div by lia. rewrite Z.testbit_mod_pow2 by lia.
  rewrite Z.div_pow2_bits by lia. rewrite andb_comm. f_equal.
  destruct (Z.ltb_spec i (b - a + 1)), (Z.leb_spec i (b - a)); done || lia.
Qed.

Lemma blend_width_cases mask :
  blend_width mask = 8%nat \/ blend_width mask = 4%nat \/ blend_width mask = 2%nat \/
  blend_width mask = 1%nat.
Proof. unfold blend_width. repeat case_match; tauto. Qed.

(** The mask fits the width it selects. *)
Lemma blend_width_fits mask : in_u 64 mask -> in_u (8 * Z.of_nat (blend_width mask)) mask.
Proof.
  unfold in_u, blend_width. intros Hm.
  destruct (Z.ltb_spec (2 ^ 32 - 1) mask); [done|].
  destruct (Z.ltb_spec (2 ^ 16 - 1) mask); [change (8 * Z.of_nat 4) with 32; lia|].
  destruct (Z.ltb_spec (2 ^ 8 - 1) mask); [change (8 * Z.of_nat 2) with 16; lia|].
  change (8 * Z.of_nat 1) with 8. lia.
Qed.

Lemma blend_bits m tgt mask data i n :
  mem_ok m -> 0 <= i -> blend_width mask = n ->
  Z.testbit (loadZ (blend_mem m tgt mask data) n tgt) i =
  (if Z.testbit mask i then Z.testbit data i else Z.testbit (loadZ m n tgt) i) &&
  (i <? 8 * Z.of_nat n).
Proof.
  intros Hm Hi Hn. unfold blend_mem. rewrite Hn, loadZ_storeZ.
  rewrite testbit_wrap, Z.lor_spec, !Z.land_spec, testbit_wrap, Z.lnot_spec by lia. f_equal.
  assert (8 * Z.of_nat n <= 64) by (destruct (blend_width_cases mask) as [E|[E|[E|E]]];
    rewrite <- Hn, E; lia).
  destruct (Z.ltb_spec i 64) as [Hlt|Hge].
  - destruct (Z.testbit mask i), (Z.testbit data i), (Z.testbit (loadZ m n tgt) i); done.
  - rewrite (bits_above (8 * Z.of_nat n) (loadZ m n tgt) i) by (try lia; by apply loadZ_range).
    destruct (Z.testbit mask i), (Z.testbit data i); done.
Qed.

Lemma blend_frame m tgt mask data x :
  x < tgt \/ tgt + Z.of_nat (blend_width mask) <= x ->
  getb (blend_mem m tgt mask data) x = getb m x.
Proof. intros Hx. unfold blend_mem, storeZ. apply getb_store_out. by rewrite length_le. Qed.

(** [rtld_blend] replaces exactly the bits of the mask: in the access of
    the width the mask selects, bits of the mask come from the data and all
    others keep their value; no other byte changes. *)
Theorem rtld_blend_exact {W} `{Kernel W} tgt mask data (p : Proc W) :
  mem_ok (mem p) -> in_u 64 mask ->
  let m' := mem (rtld_blend tgt mask data p).2 in
  let n := blend_width mask in
  (forall i, 0 <= i < 8 * Z.of_nat n ->
     Z.testbit (loadZ m' n tgt) i =
     if Z.testbit mask i then Z.testbit data i else Z.testbit (loadZ (mem p) n tgt) i) /\
  (forall i, 8 * Z.of_nat n <= i -> Z.testbit mask i = false) /\
  (forall x, x < tgt \/ tgt + Z.of_nat n <= x -> getb m' x = getb (mem p) x).
Proof.
  intros Hm Hmask m' n. subst m'. simpl. split; [|split].
  - intros i Hi. rewrite (blend_bits _ _ _ _ _ n) by (done || lia).
    rewrite (proj2 (Z.ltb_lt i _)), andb_true_r by lia.
    destruct (Z.testbit mask i) eqn:E; [|done]. rewrite testbit_wrap by lia.
    destruct (Z.ltb_spec i 64); [by rewrite andb_true_r|].
    by rewrite (bits_above 64 mask i) in E by (done || lia).
  - intros i Hi. eapply bits_above; [|by apply blend_width_fits|done]. lia.
  - intros x Hx. by apply blend_frame.
Qed.

Lemma rtld_blend_exact_witness :
  let p := mkProc (store_bytes ∅ 16 [0; 0; 0; 0x94]) (mkPipes ∅ ∅ 0 0) (mkArena 0 0 0 0)
             (mkArena 0 0 0 0) 4096 0 in
  let m' := mem (rtld_blend 16 0x03ffffff 0x1234567 p).2 in
  getb m' 20 = getb (mem p) 20.
Proof.
  intros p m'. apply (rtld_blend_exact 16 0x03ffffff 0x1234567 p); [| |right; vm_compute; discriminate].
  - repeat apply map_Forall_insert_2; try (unfold in_u; lia). apply map_Forall_empty.
  - unfold in_u. lia.
Defined.

(** A full mask stores the data. *)
Lemma blend_full m tgt n data :
  mem_ok m -> n = 4%nat \/ n = 8%nat ->
  let mask := 2 ^ (8 * Z.of_nat n) - 1 in
  loadZ (blend_mem m tgt mask data) n tgt = wrap (8 * Z.of_nat n) data.
Proof.
  intros Hm Hn mask. assert (blend_width mask = n) as Hw by (destruct Hn as [->| ->]; reflexivity).
  apply bits_eq. intros i Hi. rewrite (blend_bits _ _ _ _ _ n) by done.
  rewrite testbit_wrap by lia. destruct (Z.ltb_spec i (8 * Z.of_nat n)) as [Hlt|]; [|by rewrite !andb_false_r].
  rewrite !andb_true_r. subst mask. replace (2 ^ _ - 1) with (Z.ones (8 * Z.of_nat n))
    by (rewrite Z.ones_equiv; lia).
  by rewrite Z.ones_spec_low by lia.
Qed.

(** A field of [k] bits from bit [s] on of a 32-bit word, inside the mask. *)
Lemma blend_field m tgt mask s k data :
  mem_ok m -> 0 <= s -> 0 < k -> s + k <= 32 -> blend_width mask = 4%nat ->
  forallb (Z.testbit mask) (seqZ s k) = true ->
  ubfx (loadZ (blend_mem m tgt mask (u64 data)) 4 tgt) s (s + k - 1) = ubfx data s (s + k - 1).
Proof.
  intros Hm Hs Hk Hsk Hw Hb. apply bits_eq. intros i Hi. rewrite !testbit_ubfx_le by lia.
  destruct (Z.leb_spec i (s + k - 1 - s)); [|by rewrite !andb_false_r].
  rewrite (blend_bits _ _ _ _ _ 4) by (done || lia).
  rewrite forallb_forall in Hb. rewrite Hb by (apply list_elem_of_In, elem_of_seqZ; lia).
  rewrite testbit_wrap, (proj2 (Z.ltb_lt (i + s) (8 * _))), (proj2 (Z.ltb_lt (i + s) 64)) by lia.
  by rewrite !andb_true_r.
Qed.

(** The bits outside the mask keep their value. *)
Lemma blend_keep m tgt mask data i :
  mem_ok m -> blend_width mask = 4%nat -> 0 <= i -> Z.testbit mask i = false ->
  Z.testbit (loadZ (blend_mem m tgt mask data) 4 tgt) i = Z.testbit (loadZ m 4 tgt) i.
Proof.
  intros Hm Hw Hi Hb. rewrite (blend_bits _ _ _ _ _ 4) by done. rewrite Hb.
  destruct (Z.ltb_spec i (8 * Z.of_nat 4)); [by rewrite andb_true_r|].
  by rewrite (bits_above 32 (loadZ m 4 tgt) i) by (try lia; apply (loadZ_range m 4); done).
Qed.

(** ** x86-64 relocations *)

Lemma reloc_signed_ok {W} `{Kernel W} tgt val bits info mask data (p p' : Proc W) :
  reloc_signed tgt val bits info mask data p = (0, p') ->
  CHECK_SIGNED_BITS val bits = true /\ p' = set_mem (blend_mem (mem p) tgt mask (u64 data)) p.
Proof.
  unfold reloc_signed, rtld_elf_signed_range. intros Hr.
  destruct (CHECK_SIGNED_BITS val bits); cbn [negb] in Hr.
  - by injection Hr as <-.
  - unfold mbind, ST_bind in Hr. destruct (dprintf _ _ _ p) as [r q]. by injection Hr.
Qed.

Lemma CHECK_SIGNED_spec val bits :
  0 < bits -> CHECK_SIGNED_BITS val bits = true -> in_s bits val.
Proof.
  unfold CHECK_SIGNED_BITS, in_s. intros Hb. rewrite Z.shiftl_mul_pow2 by lia.
  rewrite andb_true_iff, Z.leb_le, Z.ltb_lt. lia.
Qed.

(** The field width in bytes of a relocation, and the address the processor
    computes from a relocated field at [tgt] of an instruction at [pc], by the
    formulas of the psABI. *)
Definition x86_width (type : Z) : nat :=
  if (type =? R_X86_64_PC64) || (type =? R_X86_64_64) then 8%nat else 4%nat.
Definition x86_target (type pc : Z) (m : memory) (tgt : Z) : Z :=
  if type =? R_X86_64_PC64 then u64 (pc + loadZ m 8 tgt)
  else if type =? R_X86_64_64 then loadZ m 8 tgt
  else if (type =? R_X86_64_PC32) || (type =? R_X86_64_PLT32) then u64 (pc + s32 (loadZ m 4 tgt))
  else if type =? R_X86_64_32S then u64 (s32 (loadZ m 4 tgt))
  else loadZ m 4 tgt.

Lemma u64_prel syma pc : u64 (pc + s64 (syma - pc)) = u64 syma.
Proof.
  rewrite <- wrap_add_r, wrap_swrap, wrap_add_r. f_equal. lia.
Qed.

Lemma blend32 m tgt data :
  mem_ok m -> loadZ (blend_mem m tgt 0xffffffff (u64 data)) 4 tgt = u32 data.
Proof.
  intros Hm. pose proof (blend_full m tgt 4 (u64 data) Hm (or_introl eq_refl)) as E. cbn zeta in E.
  change (2 ^ (8 * Z.of_nat 4) - 1) with 0xffffffff in E. rewrite E.
  change (8 * Z.of_nat 4) with 32. by rewrite wrap_wrap_le by lia.
Qed.

Lemma blend64 m tgt data :
  mem_ok m -> loadZ (blend_mem m tgt (2 ^ 64 - 1) (u64 data)) 8 tgt = u64 data.
Proof.
  intros Hm. pose proof (blend_full m tgt 8 (u64 data) Hm (or_intror eq_refl)) as E. cbn zeta in E.
  change (8 * Z.of_nat 8) with 64 in E. rewrite E. by rewrite wrap_wrap by lia.
Qed.

(** What a successful x86-64 relocation did, by the width of its field. *)
Lemma reloc_x86_blend {W} `{Kernel W} type tgt syma prel (p p' : Proc W) :
  reloc_x86_64 type tgt syma prel p = (0, p') ->
  exists data, p' = set_mem (blend_mem (mem p) tgt (2 ^ (8 * Z.of_nat (x86_width type)) - 1) (u64 data)) p /\
    ((type = R_X86_64_PC64 /\ data = prel) \/ (type = R_X86_64_64 /\ data = syma) \/
     ((type = R_X86_64_PC32 \/ type = R_X86_64_PLT32) /\ data = prel /\ in_s 32 prel) \/
     (type = R_X86_64_32S /\ data = syma /\ in_s 32 (s64 syma)) \/
     (type = R_X86_64_32 /\ data = syma /\ syma < 2 ^ 32)).
Proof.
  unfold reloc_x86_64, x86_width. intros Hr.
  destruct (Z.eqb_spec type R_X86_64_PC64) as [->|_]; [injection Hr as <-; eauto 10|].
  destruct (Z.eqb_spec type R_X86_64_64) as [->|_]; [injection Hr as <-; eauto 10|].
  destruct (Z.eqb_spec type R_X86_64_PC32) as [->|_];
    [apply reloc_signed_ok in Hr as [Hc ->]; apply CHECK_SIGNED_spec in Hc; eauto 10; lia|].
  destruct (Z.eqb_spec type R_X86_64_PLT32) as [->|_];
    [apply reloc_signed_ok in Hr as [Hc ->]; apply CHECK_SIGNED_spec in Hc; eauto 10; lia|].
  destruct (Z.eqb_spec type R_X86_64_32S) as [->|_];
    [apply reloc_signed_ok in Hr as [Hc ->]; apply CHECK_SIGNED_spec in Hc; eauto 12; lia|].
  destruct (Z.eqb_spec type R_X86_64_32) as [->|_].
  - unfold rtld_elf_unsigned_range in Hr. destruct (CHECK_UNSIGNED_BITS syma 32) eqn:Hc; cbn [negb] in Hr.
    + injection Hr as <-. unfold CHECK_UNSIGNED_BITS in Hc. rewrite Z.ltb_lt, Z.shiftl_mul_pow2 in Hc by lia.
      exists syma. split; [done|]. do 4 right. split_and!; [done | done | lia].
    + unfold mbind, ST_bind in Hr. destruct (dprintf _ _ _ p). by injection Hr.
  - unfold mbind, ST_bind in Hr. destruct (dprintf _ _ _ p). by injection Hr.
Qed.

Lemma reloc_x86_sound {W} `{Kernel W} (d : RtldPatchData) tgt sym (p p' : Proc W) :
  mem_ok (mem p) -> rtld_reloc_at X86_64 d tgt sym p = (0, p') ->
  x86_target (rel_type d) (patch_addr d) (mem p') tgt = u64 (sym + addend d) /\
  (forall x, x < tgt \/ tgt + Z.of_nat (x86_width (rel_type d)) <= x ->
     getb (mem p') x = getb (mem p) x) /\
  p' = set_mem (mem p') p.
Proof.
  intros Hm Hr. cbn [rtld_reloc_at] in Hr. destruct d as [? type ? add pc]; cbn [rel_type patch_addr addend] in *.
  set (syma := u64 (sym + add)) in *.
  assert (u64 syma = syma) as Hs by (apply wrap_wrap; lia).
  pose proof (wrap_range 64 (sym + add) ltac:(lia)) as Hsr. fold syma in Hsr. unfold in_u in Hsr.
  apply reloc_x86_blend in Hr as (data & -> & Hcase). split; [|split; [|done]].
  - simpl. destruct Hcase as [[-> ->]|[[-> ->]|[(Ht & -> & Hin)|[(-> & -> & Hin)|(-> & -> & Hin)]]]].
    + change (x86_target R_X86_64_PC64 ?a ?b ?c) with (u64 (a + loadZ b 8 c)).
      rewrite blend64 by done. rewrite wrap_add_r, u64_prel. done.
    + change (x86_target R_X86_64_64 ?a ?b ?c) with (loadZ b 8 c). by rewrite blend64.
    + assert (forall m, x86_target type pc m tgt = u64 (pc + s32 (loadZ m 4 tgt))) as ->
        by (by destruct Ht as [->| ->]).
      replace (2 ^ _ - 1) with 0xffffffff by (by destruct Ht as [->| ->]).
      rewrite blend32, swrap_wrap, swrap_small by (done || lia). rewrite u64_prel. done.
    + change (x86_target R_X86_64_32S ?a ?b ?c) with (u64 (s32 (loadZ b 4 c))).
      change (2 ^ (8 * _) - 1) with 0xffffffff. rewrite blend32, swrap_wrap by done.
      assert (s32 syma = s64 syma) as ->.
      { rewrite <- (swrap_small 32 (s64 syma)) by (done || lia).
        rewrite <- (swrap_wrap_le 32 64 (s64 syma)), wrap_swrap, Hs by lia. done. }
      by rewrite wrap_swrap.
    + change (x86_target R_X86_64_32 ?a ?b ?c) with (loadZ b 4 c).
      change (2 ^ (8 * _) - 1) with 0xffffffff. rewrite blend32 by done.
      apply wrap_small. unfold in_u. lia.
  - intros x Hx. simpl. apply blend_frame.
    replace (blend_width _) with (x86_width type); [done|].
    unfold x86_width. by destruct (_ || _).
Qed.

(** C26. A successful x86-64 relocation makes the relocated field denote the
    symbol: the address computed from the field by the psABI's formula is
    symbol plus addend, and nothing but the field is written. *)
Theorem reloc_x86_64_correct {W} `{Kernel W} (d : RtldPatchData) tgt sym (p p' : Proc W) :
  mem_ok (mem p) -> rtld_reloc_at X86_64 d tgt sym p = (0, p') ->
  x86_target (rel_type d) (patch_addr d) (mem p') tgt = u64 (sym + addend d) /\
  (forall x, x < tgt \/ tgt + Z.of_nat (x86_width (rel_type d)) <= x ->
     getb (mem p') x = getb (mem p) x) /\
  p' = set_mem (mem p') p.
Proof. apply reloc_x86_sound. Qed.

(** A call 32 bytes ahead. *)
Lemma reloc_x86_64_correct_witness :
  let d := mkPatch 0 R_X86_64_PLT32 8 (-4) 0x1001 in
  let p := mkProc (store_bytes ∅ 0x1000 [0xe8; 0; 0; 0; 0]) (mkPipes ∅ ∅ 0 0) (mkArena 0 0 0 0)
             (mkArena 0 0 0 0) 4096 0 in
  let p' := (rtld_reloc_at X86_64 d 0x1001 0x1020 p).2 in
  x86_target R_X86_64_PLT32 0x1001 (mem p') 0x1001 = 0x101c.
Proof.
  intros d p p'.
  pose proof (reloc_x86_64_correct d 0x1001 0x1020 p p') as T.
  destruct T as [T _].
  - repeat apply map_Forall_insert_2; try (unfold in_u; lia). apply map_Forall_empty.
  - reflexivity.
  - exact T.
Defined.

(** ** AArch64 relocations *)

(** The bits of the instruction word a relocation may change. *)
Definition lo12_scale (type : Z) : option Z :=
  if (type =? R_AARCH64_ADD_ABS_LO12_NC) || (type =? R_AARCH64_LDST8_ABS_LO12_NC) then Some 0
  else if type =? R_AARCH64_LDST16_ABS_LO12_NC then Some 1
  else if type =? R_AARCH64_LDST32_ABS_LO12_NC then Some 2
  else if type =? R_AARCH64_LDST64_ABS_LO12_NC then Some 3
  else if type =? R_AARCH64_LDST128_ABS_LO12_NC then Some 4
  else None.
Definition movw_group (type : Z) : option Z :=
  if type =? R_AARCH64_MOVW_UABS_G0_NC then Some 0
  else if type =? R_AARCH64_MOVW_UABS_G1_NC then Some 1
  else if type =? R_AARCH64_MOVW_UABS_G2_NC then Some 2
  else if type =? R_AARCH64_MOVW_UABS_G3 then Some 3
  else None.

(** Mask and data of the blend; the values of a branch and of an address of a
    page in instruction units. *)
Definition a64_blend (type pc syma : Z) : option (Z * Z) :=
  let prel := s64 (syma - pc) in
  let page := Z.shiftr (s64 (ALIGN_DOWN syma 4096 - ALIGN_DOWN pc 4096)) 12 in
  if type =? R_AARCH64_PREL64 then Some (2 ^ 64 - 1, prel)
  else if type =? R_AARCH64_PREL32 then Some (0xffffffff, prel)
  else if (type =? R_AARCH64_JUMP26) || (type =? R_AARCH64_CALL26) then Some (0x03ffffff, Z.shiftr prel 2)
  else if type =? R_AARCH64_ADR_PREL_PG_HI21 then
    Some (0x60ffffe0, Z.lor (Z.shiftl (Z.land page 3) 29) (Z.shiftl (Z.land (Z.shiftr page 2) 0x7ffff) 5))
  else match lo12_scale type, movw_group type with
       | Some s, _ => Some (Z.shiftl (Z.shiftr 0xfff s) 10, Z.shiftl (Z.shiftr syma s) 10)
       | None, Some g => Some (Z.shiftl 0xffff 5, Z.shiftl (Z.shiftr syma (16 * g)) 5)
       | None, None => None
       end.

(** The value a relocation checks, and the width it must fit. *)
Definition a64_check (type pc syma : Z) : Prop :=
  let prel := s64 (syma - pc) in
  if type =? R_AARCH64_PREL32 then in_s 32 prel
  else if (type =? R_AARCH64_JUMP26) || (type =? R_AARCH64_CALL26) then in_s 28 prel
  else if type =? R_AARCH64_ADR_PREL_PG_HI21 then
    in_s 21 (Z.shiftr (s64 (ALIGN_DOWN syma 4096 - ALIGN_DOWN pc 4096)) 12)
  else True.

(** The branch does not reach its target without a stub. *)
Definition far_branch (type pc syma : Z) : bool :=
  ((type =? R_AARCH64_JUMP26) || (type =? R_AARCH64_CALL26)) && negb (CHECK_SIGNED_BITS (s64 (syma - pc)) 28).

Lemma reloc_a64_blend {W} `{Kernel W} type tgt syma pc (p p' : Proc W) :
  far_branch type pc syma = false ->
  reloc_aarch64 type tgt syma pc (s64 (syma - pc)) p = (0, p') ->
  exists mask data, a64_blend type pc syma = Some (mask, data) /\ a64_check type pc syma /\
    p' = set_mem (blend_mem (mem p) tgt mask (u64 data)) p.
Proof.
  intros Hnear Hr. unfold reloc_aarch64 in Hr. unfold far_branch in Hnear.
  unfold a64_blend, a64_check, lo12_scale, movw_group. cbn zeta.
  destruct (Z.eqb_spec type R_AARCH64_PREL64) as [->|_]; [injection Hr as <-; eexists _, _; done|].
  destruct (Z.eqb_spec type R_AARCH64_PREL32) as [->|_].
  { apply reloc_signed_ok in Hr as [Hc ->]. apply CHECK_SIGNED_spec in Hc; [|lia]. eexists _, _; done. }
  destruct ((type =? R_AARCH64_JUMP26) || (type =? R_AARCH64_CALL26)) eqn:Eb.
  { cbn [andb] in Hnear. apply negb_false_iff in Hnear. rewrite Hnear in Hr. cbn [negb] in Hr. rewrite (bind_unfold _ _ _ (0, s64 (syma - pc)) p) in Hr by done.
    cbn beta iota in Hr. change (0 <? 0) with false in Hr. cbn iota in Hr.
    apply reloc_signed_ok in Hr as [Hc' ->]. apply CHECK_SIGNED_spec in Hc'; [|lia]. eexists _, _; done. }
  destruct (Z.eqb_spec type R_AARCH64_ADR_PREL_PG_HI21) as [->|_].
  { apply reloc_signed_ok in Hr as [Hc ->]. apply CHECK_SIGNED_spec in Hc; [|lia]. eexists _, _; done. }
  destruct (type =? R_AARCH64_ADD_ABS_LO12_NC); [injection Hr as <-; cbn [orb]; eexists _, _; done|].
  destruct (type =? R_AARCH64_LDST8_ABS_LO12_NC); [injection Hr as <-; cbn [orb]; eexists _, _; done|].
  destruct (type =? R_AARCH64_LDST16_ABS_LO12_NC); [injection Hr as <-; cbn [orb]; eexists _, _; done|].
  destruct (type =? R_AARCH64_LDST32_ABS_LO12_NC); [injection Hr as <-; cbn [orb]; eexists _, _; done|].
  destruct (type =? R_AARCH64_LDST64_ABS_LO12_NC); [injection Hr as <-; cbn [orb]; eexists _, _; done|].
  destruct (type =? R_AARCH64_LDST128_ABS_LO12_NC); [injection Hr as <-; cbn [orb]; eexists _, _; done|].
  destruct (type =? R_AARCH64_MOVW_UABS_G0_NC); [injection Hr as <-; cbn [orb]; eexists _, _; done|].
  destruct (type =? R_AARCH64_MOVW_UABS_G1_NC); [injection Hr as <-; cbn [orb]; eexists _, _; done|].
  destruct (type =? R_AARCH64_MOVW_UABS_G2_NC); [injection Hr as <-; cbn [orb]; eexists _, _; done|].
  destruct (type =? R_AARCH64_MOVW_UABS_G3); [injection Hr as <-; cbn [orb]; eexists _, _; done|].
  unfold mbind, ST_bind in Hr. destruct (dprintf _ _ _ p). by injection Hr.
Qed.

(** Where the branch at [tgt], run at [pc], goes. *)
Definition branch_to (pc : Z) (m : memory) (tgt : Z) : Z := u64 (pc + 4 * swrap 26 (ubfx (loadZ m 4 tgt) 0 25)).

(** What the relocated word at [tgt] must denote, by the Arm ELF ABI: a
    pc-relative value, the target of the branch, the page computed by ADRP, the
    scaled low 12 bits, or 16 bits of the address.  Branches and scaled offsets
    count in units: what the distance or the address has below the unit is dropped. *)
Definition a64_denotes (type pc syma : Z) (m : memory) (tgt : Z) : Prop :=
  let w := loadZ m 4 tgt in
  if type =? R_AARCH64_PREL64 then u64 (pc + loadZ m 8 tgt) = syma
  else if type =? R_AARCH64_PREL32 then u64 (pc + s32 w) = syma
  else if (type =? R_AARCH64_JUMP26) || (type =? R_AARCH64_CALL26) then
    branch_to pc m tgt = u64 (syma - (syma - pc) `mod` 4)
  else if type =? R_AARCH64_ADR_PREL_PG_HI21 then
    u64 (ALIGN_DOWN pc 4096 + 4096 * swrap 21 (ubfx w 5 23 * 4 + ubfx w 29 30)) = ALIGN_DOWN syma 4096
  else match lo12_scale type, movw_group type with
       | Some s, _ => ubfx w 10 (21 - s) * 2 ^ s = syma `mod` 4096 - syma `mod` 2 ^ s
       | None, Some g => ubfx w 5 20 = (syma / 2 ^ (16 * g)) `mod` 2 ^ 16
       | None, None => False
       end.

Lemma s64_mod k x : 0 <= k <= 64 -> s64 x `mod` 2 ^ k = x `mod` 2 ^ k.
Proof.
  intros Hk. change (s64 x `mod` 2 ^ k) with (wrap k (s64 x)).
  by rewrite <- (wrap_wrap_le k 64), wrap_swrap, wrap_wrap_le by lia.
Qed.

Lemma branch_denotes pc syma :
  in_s 28 (s64 (syma - pc)) ->
  u64 (pc + 4 * swrap 26 (ubfx (Z.shiftr (s64 (syma - pc)) 2) 0 25)) = u64 (syma - (syma - pc) `mod` 4).
Proof.
  intros Hin. rewrite <- (wrap_sub_l 64 syma), <- (u64_prel syma pc), wrap_sub_l.
  pose proof (s64_mod 2 (syma - pc) ltac:(lia)) as E. change (2 ^ 2) with 4 in E. rewrite <- E.
  set (x := s64 (syma - pc)) in *. rewrite Z.shiftr_div_pow2, ubfx_div by lia.
  rewrite Z.pow_0_r, Z.div_1_r. change (_ `mod` 2 ^ (25 - 0 + 1)) with (wrap 26 (x / 2 ^ 2)).
  rewrite swrap_wrap, swrap_small; [|lia|].
  - change (2 ^ 2) with 4. f_equal. zdm.
  - unfold in_s in *. change (2 ^ 2) with 4. change (28 - 1) with 27 in Hin. change (26 - 1) with 25. zdm.
Qed.

Lemma adrp_fields page :
  let data := Z.lor (Z.shiftl (Z.land page 3) 29) (Z.shiftl (Z.land (Z.shiftr page 2) 0x7ffff) 5) in
  ubfx data 5 23 * 4 + ubfx data 29 30 = page `mod` 2 ^ 21.
Proof.
  cbn zeta. change 3 with (Z.ones 2). change 0x7ffff with (Z.ones 19).
  rewrite !Z.land_ones, Z.shiftr_div_pow2, Z.lor_comm by lia.
  rewrite lor_shiftl_add by (rewrite ?Z.shiftl_mul_pow2 by lia; zdm).
  rewrite Z.shiftl_mul_pow2, !ubfx_div by lia.
  change (2 ^ (23 - 5 + 1)) with (2 ^ 19). change (2 ^ (30 - 29 + 1)) with (2 ^ 2). zdm.
Qed.

Lemma adrp_denotes pc syma :
  in_u 64 pc -> in_u 64 syma ->
  let page := Z.shiftr (s64 (ALIGN_DOWN syma 4096 - ALIGN_DOWN pc 4096)) 12 in
  in_s 21 page ->
  u64 (ALIGN_DOWN pc 4096 + 4096 * swrap 21 (page `mod` 2 ^ 21)) = ALIGN_DOWN syma 4096.
Proof.
  intros Hpc Hs page Hin. change (page `mod` 2 ^ 21) with (wrap 21 page).
  rewrite swrap_wrap, swrap_small by (done || lia).
  assert (is_pow2 4096) as Hp by (by exists 12).
  pose proof (ALIGN_DOWN_spec syma 4096 Hp Hs) as E1. pose proof (ALIGN_DOWN_spec pc 4096 Hp Hpc) as E2.
  set (a := ALIGN_DOWN syma 4096) in *. set (b := ALIGN_DOWN pc 4096) in *.
  unfold in_u in *. assert (4096 * page = s64 (a - b)) as ->.
  { subst page. rewrite Z.shiftr_div_pow2 by lia.
    pose proof (s64_mod 12 (a - b) ltac:(lia)) as Em. change (2 ^ 12) with 4096 in *.
    assert ((a - b) `mod` 4096 = 0) as E0 by (rewrite E1, E2; zdm).
    rewrite E0 in Em. clear -Em. zdm. }
  rewrite u64_prel. apply wrap_small. unfold in_u. zdm.
Qed.

Lemma lo12_denotes syma s :
  0 <= s <= 4 ->
  ubfx (Z.shiftl (Z.shiftr syma s) 10) 10 (21 - s) * 2 ^ s = syma `mod` 4096 - syma `mod` 2 ^ s.
Proof.
  intros Hs. rewrite ubfx_div, Z.shiftl_mul_pow2, Z.shiftr_div_pow2, Z_div_mult by lia.
  assert (s = 0 \/ s = 1 \/ s = 2 \/ s = 3 \/ s = 4) as [->|[->|[->|[->| ->]]]] by lia;
    match goal with |- context [2 ^ (21 - ?a - 10 + 1)] => change (21 - a - 10 + 1) with (12 - a) end;
    simpl (12 - _); zdm.
Qed.

Lemma movw_denotes syma g :
  0 <= g -> ubfx (Z.shiftl (Z.shiftr syma (16 * g)) 5) 5 20 = (syma / 2 ^ (16 * g)) `mod` 2 ^ 16.
Proof.
  intros Hg. rewrite ubfx_div, Z.shiftl_mul_pow2, Z.shiftr_div_pow2, Z_div_mult by lia. done.
Qed.

Lemma lo12_scale_range type s : lo12_scale type = Some s -> 0 <= s <= 4.
Proof. unfold lo12_scale. repeat case_match; intros; simplify_eq; lia. Qed.
Lemma movw_group_range type g : movw_group type = Some g -> 0 <= g <= 3.
Proof. unfold movw_group. repeat case_match; intros; simplify_eq; lia. Qed.

Definition a64_width (type : Z) : nat := if type =? R_AARCH64_PREL64 then 8 else 4.

Lemma a64_blend_width type pc syma mask data :
  a64_blend type pc syma = Some (mask, data) ->
  blend_width mask = a64_width type /\ (blend_width mask = 4%nat \/ mask = 2 ^ 64 - 1).
Proof.
  unfold a64_blend, a64_width. cbn zeta. intros Hb.
  destruct (type =? R_AARCH64_PREL64); [injection Hb as <- _; split; [done|by right]|].
  enough (blend_width mask = 4%nat) by tauto.
  destruct (type =? R_AARCH64_PREL32); [by injection Hb as <- _|].
  destruct (_ || _); [by injection Hb as <- _|].
  destruct (type =? R_AARCH64_ADR_PREL_PG_HI21); [by injection Hb as <- _|].
  destruct (lo12_scale type) as [s|] eqn:El.
  - apply lo12_scale_range in El. injection Hb as <- _.
    assert (s = 0 \/ s = 1 \/ s = 2 \/ s = 3 \/ s = 4) as [->|[->|[->|[->| ->]]]] by lia; done.
  - destruct (movw_group type); [by injection Hb as <- _ | done].
Qed.

Lemma a64_keep m tgt type pc syma mask data i :
  mem_ok m -> a64_blend type pc syma = Some (mask, data) -> 0 <= i -> Z.testbit mask i = false ->
  Z.testbit (loadZ (blend_mem m tgt mask (u64 data)) 4 tgt) i = Z.testbit (loadZ m 4 tgt) i.
Proof.
  intros Hm Hb Hi Hmi. apply a64_blend_width in Hb as [_ [Hw| ->]]; [by apply blend_keep|].
  assert (64 <= i).
  { destruct (Z.leb_spec 64 i); [done|]. change (2 ^ 64 - 1) with (Z.ones 64) in Hmi.
    rewrite Z.ones_spec_low in Hmi by lia. done. }
  rewrite !(bits_above 32 (loadZ _ 4 tgt) i); try lia; try done.
  - by apply (loadZ_range m 4).
  - apply (loadZ_range _ 4). by apply mem_ok_storeZ.
Qed.

(** Without a stub, a successful relocation makes the place denote the symbol
    plus addend and writes nothing but the bits of the field. *)
Lemma reloc_a64_near {W} `{Kernel W} (d : RtldPatchData) tgt sym (p p' : Proc W) :
  mem_ok (mem p) -> in_u 64 (patch_addr d) ->
  let syma := u64 (sym + addend d) in
  far_branch (rel_type d) (patch_addr d) syma = false ->
  rtld_reloc_at AARCH64 d tgt sym p = (0, p') ->
  a64_denotes (rel_type d) (patch_addr d) syma (mem p') tgt /\
  (exists mask data, a64_blend (rel_type d) (patch_addr d) syma = Some (mask, data) /\
    forall i, 0 <= i -> Z.testbit mask i = false ->
      Z.testbit (loadZ (mem p') 4 tgt) i = Z.testbit (loadZ (mem p) 4 tgt) i) /\
  (forall x, x < tgt \/ tgt + Z.of_nat (a64_width (rel_type d)) <= x -> getb (mem p') x = getb (mem p) x) /\
  p' = set_mem (mem p') p.
Proof.
  intros Hm Hpc syma Hnear Hr. cbn [rtld_reloc_at] in Hr. fold syma in Hr.
  assert (in_u 64 syma) as Hsr by (apply wrap_range; lia).
  assert (u64 syma = syma) as Hs by (apply wrap_small; done).
  apply reloc_a64_blend in Hr as (mask & data & Hb & Hc & ->); [|done].
  set (type := rel_type d) in *. set (pc := patch_addr d) in *. simpl.
  split; [|split; [exists mask, data; split; [done|]; intros i Hi Hmi; by eapply a64_keep|]].
  - unfold a64_denotes, a64_check in *. unfold a64_blend in Hb. cbn zeta in *.
    destruct (type =? R_AARCH64_PREL64).
    { injection Hb as <- <-. rewrite blend64 by done. by rewrite wrap_add_r, u64_prel. }
    destruct (type =? R_AARCH64_PREL32).
    { injection Hb as <- <-. rewrite blend32 by done.
      by rewrite swrap_wrap, swrap_small, u64_prel by (done || lia). }
    destruct ((type =? R_AARCH64_JUMP26) || (type =? R_AARCH64_CALL26)) eqn:Ebr.
    { injection Hb as <- <-. unfold branch_to. rewrite (blend_field _ _ _ 0 26) by (done || lia).
      by apply branch_denotes. }
    destruct (type =? R_AARCH64_ADR_PREL_PG_HI21).
    { injection Hb as <- <-.
      rewrite (blend_field _ _ _ 5 19), (blend_field _ _ _ 29 2) by (done || lia).
      change (5 + 19 - 1) with 23. change (29 + 2 - 1) with 30.
      rewrite adrp_fields. by apply adrp_denotes. }
    destruct (lo12_scale type) as [s|] eqn:El.
    { apply lo12_scale_range in El. injection Hb as <- <-.
      assert (s = 0 \/ s = 1 \/ s = 2 \/ s = 3 \/ s = 4) as Hs5 by lia.
      rewrite <- lo12_denotes by lia. f_equal.
      replace (21 - s) with (10 + (12 - s) - 1) by lia.
      apply blend_field; try done; try lia; destruct Hs5 as [->|[->|[->|[->| ->]]]]; done. }
    destruct (movw_group type) as [g|] eqn:Eg; [|done].
    apply movw_group_range in Eg. injection Hb as <- <-. rewrite <- movw_denotes by lia.
    by apply (blend_field _ _ _ 5 16).
  - split; [|done]. intros x Hx. apply blend_frame. by destruct (a64_blend_width _ _ _ _ _ Hb) as [-> _].
Qed.
