(* ===== verification/RtldStubs.v ===== *)
(** * The code the client emits: PLT, call stubs and patch stubs

    Theorems about [plt_create], [rtld_elf_add_stub], [rtld_patch_create_stub]
    and [rtld_patch] of [client/rtld.c]: the emitted instructions are decoded
    by small definitions of the instructions' meaning and shown to reach the
    intended targets. *)

From Stdlib Require Import ZArith Lia String.
From stdpp Require Import base numbers list list_numbers option gmap.
From S2P Require Import Prelude Machine Loopback Minilibc Memory Printf RtldReloc.

(** ** Emitting code *)

(** The process can emit code: a well-formed code arena below the stack. *)
Record code_ready {W} `{Kernel W} (p : Proc W) : Prop := {
  ready_arena : arena_wf (pagesize p) (main_arena_code p);
  ready_stack : end_ (main_arena_code p) <= sp p;
  ready_mem : mem_ok (mem p);
  ready_abi : KernelAbi W (pagesize p);
}.

Lemma loadZ_bytes_eq m1 m2 a b n k off :
  load_bytes m1 a n = load_bytes m2 b n -> 0 <= off -> off + Z.of_nat k <= Z.of_nat n ->
  loadZ m1 k (a + off) = loadZ m2 k (b + off).
Proof.
  intros Heq H0 Hle. unfold loadZ. f_equal. apply list_eq. intros i.
  destruct (decide (i < k)%nat) as [Hi|Hi].
  - rewrite !load_bytes_lookup by done. f_equal.
    assert (load_bytes m1 a n !! (Z.to_nat off + i)%nat = load_bytes m2 b n !! (Z.to_nat off + i)%nat)
      as E by (by rewrite Heq).
    rewrite !load_bytes_lookup in E by lia. injection E as E.
    replace (a + off + Z.of_nat i) with (a + Z.of_nat (Z.to_nat off + i)) by lia.
    by replace (b + off + Z.of_nat i) with (b + Z.of_nat (Z.to_nat off + i)) by lia.
  - rewrite !lookup_ge_None_2; rewrite ?length_load_bytes; done || lia.
Qed.

Lemma mem_write_code_block {W} `{Kernel W} dst src n (p : Proc W) :
  0 <= n -> dst <= src \/ src + n <= dst ->
  mem_write_code dst src n p =
    (0, set_mem (store_bytes (mem p) dst (load_bytes (mem p) src (Z.to_nat n))) p).
Proof.
  intros Hn Hd. unfold mem_write_code, memcpy, modify, mbind, ST_bind, mret, ST_ret.
  rewrite memcpy_loop_block by lia. done.
Qed.

Lemma mem_ok_memcpy m d s n : mem_ok m -> mem_ok (memcpy_loop m d s n).
Proof.
  revert m d s; induction n as [|n IH]; intros m d s Hm; simpl; [done|].
  apply IH, map_Forall_insert_2; [by apply getb_ok | done].
Qed.

Section Emit.
Context {W : Type} `{Kernel W}.

(** Fill a local buffer, allocate, copy. *)
Definition emit (n : Z) (fill : Z -> memory -> memory) : ST (Proc W) (Z * Z) :=
  with_local n (fun a =>
    modify (fun p => set_mem (fill a (mem p)) p);;
    stub ← mem_alloc_code n 0x40;
    if BAD_ADDR stub then mret (s32 stub, 0)
    else
      ret ← mem_write_code stub a n;
      if ret <? 0 then mret (ret, 0) else mret (0, stub)).

(** [stub] is a fresh block of [n] bytes in the code arena. *)
Definition fresh_code (p p' : Proc W) (n stub : Z) : Prop :=
  stub `mod` 64 = 0 /\ brk (main_arena_code p) <= stub /\
  stub + n = brk (main_arena_code p') /\ brk (main_arena_code p') <= end_ (main_arena_code p) /\
  arena_wf (pagesize p') (main_arena_code p') /\ pagesize p' = pagesize p /\
  end_ (main_arena_code p') = end_ (main_arena_code p) /\ sp p' = sp p.

Lemma bad_addr_s32 r : BAD_ADDR r = true -> s32 r < 0.
Proof.
  unfold BAD_ADDR. rewrite Z.ltb_lt. intros Hr. rewrite <- (swrap_wrap_le 32 64) by lia.
  pose proof (wrap_range 64 r ltac:(lia)) as Hu. unfold in_u in Hu. unfold swrap.
  set (x := u64 r) in *. change (2 ^ (32 - 1)) with 2147483648.
  replace (x + 2147483648) with (x - (2 ^ 64 - 2 ^ 32) + 2147483648 + (2 ^ 32 - 1) * 2 ^ 32) by lia.
  rewrite Z_mod_plus_full.
  replace (x - (2 ^ 64 - 2 ^ 32) + 2147483648) with (x - 2 ^ 64 + 2147483648 + 1 * 2 ^ 32) by lia.
  rewrite Z_mod_plus_full, Z.mod_small by lia. lia.
Qed.

Lemma alloc_code_cases n (p p' : Proc W) stub :
  code_ready p -> 0 <= n < 2 ^ 62 -> mem_alloc_code n 0x40 p = (stub, p') ->
  mem p' = mem p /\ sp p' = sp p /\
  (BAD_ADDR stub = false -> fresh_code p p' n stub).
Proof.
  intros [Hwf Hst Hok Habi] Hn Ha.
  destruct (mem_alloc_code_ok n 0x40 p stub p' Hwf) as (Hout & Hm & Hsp & Hps & _);
    [split; lia | done | done |].
  split; [done|]. split; [done|]. intros Hb. unfold fresh_code. rewrite Hps.
  change (effective_align 64) with 64 in Hout.
  destruct Hout as [Hbad _|Hr Hmod Hs He Hbrk Hp Hwf']; [congruence|].
  split_and!; try done; try lia. rewrite <- He. destruct Hwf'. lia.
Qed.

Lemma emit_spec n fill (p p' : Proc W) r stub :
  code_ready p -> 0 <= n < 2 ^ 62 ->
  emit n fill p = ((r, stub), p') ->
  r <= 0 /\
  (r = 0 -> fresh_code p p' n stub /\
    load_bytes (mem p') stub (Z.to_nat n) = load_bytes (fill (sp p) (mem p)) (sp p) (Z.to_nat n) /\
    (forall x, x < stub \/ stub + n <= x -> getb (mem p') x = getb (fill (sp p) (mem p)) x)).
Proof.
  intros Hready Hn Hrun. unfold emit, with_local in Hrun.
  set (p1 := set_mem (fill (sp p) (mem p)) (set_sp (sp p + n) p)).
  rewrite (bind_unfold _ _ _ (sp p) p) in Hrun by done.
  rewrite (bind_unfold _ _ _ tt (set_sp (sp p + n) p)) in Hrun by done.
  unfold mbind, ST_bind, modify, mret, ST_ret in Hrun. fold p1 in Hrun. cbn beta iota in Hrun.
  change (set_mem _ (set_sp (sp p + n) p)) with p1 in Hrun.
  destruct (mem_alloc_code n 64 p1) as [stub1 p2] eqn:Ha.
  pose proof Hready as [Hwf Hst Hok Habi].
  destruct (mem_alloc_code_ok n 0x40 p1 stub1 p2 Hwf) as (Hout & Hm & Hsp & Hps & _);
    [split; lia | done | done |].
  change (effective_align 64) with 64 in Hout.
  destruct (BAD_ADDR stub1) eqn:Hb.
  { injection Hrun as <- <- <-. apply bad_addr_s32 in Hb. split; lia. }
  destruct Hout as [Hbad _|Hr Hmod Hs He Hbrk Hp Hwf']; [congruence|].
  change (main_arena_code p1) with (main_arena_code p) in *.
  change (pagesize p1) with (pagesize p) in *.
  rewrite mem_write_code_block in Hrun by (destruct Hwf'; lia).
  change (0 <? 0) with false in Hrun. injection Hrun as <- <- <-. split; [done|]. intros _.
  rewrite Hm. change (mem p1) with (fill (sp p) (mem p)). simpl. split; [|split].
  - unfold fresh_code. simpl. rewrite Hps. destruct Hwf'. split_and!; done || lia.
  - by rewrite load_store_same' by apply length_load_bytes.
  - intros x Hx. rewrite getb_store_out; [done|]. rewrite length_load_bytes. lia.
Qed.

Lemma emit_mem_ok n fill (p p' : Proc W) r :
  code_ready p -> 0 <= n < 2 ^ 62 -> mem_ok (fill (sp p) (mem p)) ->
  emit n fill p = (r, p') -> mem_ok (mem p').
Proof.
  intros [Hwf Hst Hok Habi] Hn Hfill Hrun. unfold emit, with_local in Hrun.
  unfold mbind, ST_bind, modify, mret, ST_ret, gets in Hrun. cbn beta iota in Hrun.
  destruct (mem_alloc_code n 64 _) as [stub1 p2] eqn:Ha.
  apply mem_alloc_code_ok in Ha as (_ & Hm & _); [|done | split; lia | done].
  assert (mem_ok (mem p2)) as Hm2 by (by rewrite Hm).
  destruct (BAD_ADDR stub1); [by injection Hrun as _ <-|].
  unfold mem_write_code, memcpy, mbind, ST_bind, modify, mret, ST_ret in Hrun.
  change (0 <? 0) with false in Hrun. injection Hrun as _ <-. simpl. by apply mem_ok_memcpy.
Qed.
End Emit.

(** ** AArch64 call stubs *)

(** The meaning of the instructions of a stub, on register [x16]: 64-bit MOVZ
    and MOVK with a shifted 16-bit immediate, and BR, which ends it. *)
Definition movk (x hw imm : Z) : Z :=
  x - ubfx x (16 * hw) (16 * hw + 15) * 2 ^ (16 * hw) + imm * 2 ^ (16 * hw).
Fixpoint a64_run (ws : list Z) (x16 : Z) : option Z :=
  match ws with
  | [] => None
  | w :: ws' =>
      if w =? 0xd61f0000 + 16 * 32 then Some x16
      else if negb (ubfx w 0 4 =? 16) then None
      else if ubfx w 23 31 =? 0x1a5 then
        a64_run ws' (ubfx w 5 20 * 2 ^ (16 * ubfx w 21 22))
      else if ubfx w 23 31 =? 0x1e5 then a64_run ws' (movk x16 (ubfx w 21 22) (ubfx w 5 20))
      else None
  end.

(** The [n] instruction words at [a]. *)
Definition words (m : memory) (a : Z) (n : nat) : list Z :=
  (fun i => loadZ m 4 (a + 4 * Z.of_nat i)) <$> seq 0 n.

Lemma lor_imm16 c h : Z.land c (Z.shiftl 0xffff 5) = 0 -> 0 <= h < 2 ^ 16 ->
  Z.lor c (Z.shiftl h 5) = c + h * 32.
Proof.
  intros Hc Hh. rewrite lor_add_disjoint; [by rewrite Z.shiftl_mul_pow2 by lia|].
  apply bits_eq. intros i Hi. rewrite Z.land_spec, Z.bits_0.
  destruct (Z.testbit (Z.shiftl h 5) i) eqn:E; [|apply andb_false_r].
  assert (Z.testbit (Z.shiftl 0xffff 5) i = true) as E1.
  { rewrite Z.shiftl_spec in * by lia. destruct (Z.ltb_spec (i - 5) 0).
    - by rewrite Z.testbit_neg_r in E by lia.
    - change 0xffff with (Z.ones 16). apply Z.ones_spec_low. split; [done|].
      destruct (Z.ltb_spec (i - 5) 16); [done|].
      by rewrite (bits_above 16 h) in E by (done || lia). }
  assert (Z.testbit (Z.land c (Z.shiftl 0xffff 5)) i = false) as E2 by (by rewrite Hc, Z.bits_0).
  rewrite Z.land_spec, E1, andb_true_r in E2. by rewrite E2.
Qed.

(** The fields of a move with immediate [h]. *)
Lemma mov_fields q h :
  0 <= q < 2 ^ 11 -> 0 <= h < 2 ^ 16 ->
  let w := q * 2 ^ 21 + 16 + h * 32 in
  ubfx w 0 4 = 16 /\ ubfx w 5 20 = h /\ ubfx w 21 22 = q `mod` 4 /\ ubfx w 23 31 = q / 4.
Proof.
  intros Hq Hh w. subst w. rewrite !ubfx_div by lia.
  change (2 ^ 21) with 2097152. change (2 ^ (4 - 0 + 1)) with 32. change (2 ^ 5) with 32.
  change (2 ^ (20 - 5 + 1)) with 65536. change (2 ^ (22 - 21 + 1)) with 4.
  change (2 ^ 23) with 8388608. change (2 ^ (31 - 23 + 1)) with 512. change (2 ^ 0) with 1.
  change (2 ^ 11) with 2048 in Hq. change (2 ^ 16) with 65536 in Hh.
  split_and!; zdm.
Qed.

Lemma a64_run_movz q h ws x :
  0 <= h < 2 ^ 16 -> 0x694 <= q < 0x698 ->
  a64_run (q * 2 ^ 21 + 16 + h * 32 :: ws) x = a64_run ws (h * 2 ^ (16 * (q `mod` 4))).
Proof.
  intros Hh Hq. cbn [a64_run]. destruct (mov_fields q h) as (E1 & E2 & E3 & E4); [lia | done |].
  rewrite E1, E2, E3, E4. rewrite (proj2 (Z.eqb_neq _ (0xd61f0000 + 16 * 32))) by lia.
  replace (q / 4) with 0x1a5 by zdm. done.
Qed.

Lemma a64_run_movk q h ws x :
  0 <= h < 2 ^ 16 -> 0x794 <= q < 0x798 ->
  a64_run (q * 2 ^ 21 + 16 + h * 32 :: ws) x = a64_run ws (movk x (q `mod` 4) h).
Proof.
  intros Hh Hq. cbn [a64_run]. destruct (mov_fields q h) as (E1 & E2 & E3 & E4); [lia | done |].
  rewrite E1, E2, E3, E4. rewrite (proj2 (Z.eqb_neq _ (0xd61f0000 + 16 * 32))) by lia.
  replace (q / 4) with 0x1e5 by zdm. done.
Qed.

Lemma movk_high x k h : 0 <= k -> 0 <= x < 2 ^ (16 * k) -> movk x k h = x + h * 2 ^ (16 * k).
Proof.
  intros Hk Hx. unfold movk. rewrite ubfx_div by lia. rewrite (Z.div_small x) by lia.
  rewrite Zmod_0_l. lia.
Qed.

(** Executing the stub branches to the symbol. *)
Lemma stub_insns_run sym x : in_u 64 sym -> a64_run (stub_insns sym) x = Some sym.
Proof.
  intros Hs. unfold in_u in Hs. unfold stub_insns.
  change 0xffff with (Z.ones 16). rewrite !Z.land_ones, !Z.shiftr_div_pow2 by lia.
  rewrite !lor_imm16 by (done || apply Z.mod_pos_bound; lia).
  change 0xd2800010 with (0x694 * 2 ^ 21 + 16). change 0xf2a00010 with (0x795 * 2 ^ 21 + 16).
  change 0xf2c00010 with (0x796 * 2 ^ 21 + 16). change 0xf2e00010 with (0x797 * 2 ^ 21 + 16).
  rewrite a64_run_movz, !a64_run_movk by (lia || apply Z.mod_pos_bound; lia).
  change (0x694 `mod` 4) with 0. change (0x795 `mod` 4) with 1. change (0x796 `mod` 4) with 2.
  change (0x797 `mod` 4) with 3.
  change (2 ^ (16 * 0)) with 1. change (2 ^ 0) with 1. rewrite Z.div_1_r, Z.mul_1_r.
  change (2 ^ 16) with 65536. change (2 ^ 32) with 4294967296. change (2 ^ 48) with 281474976710656.
  rewrite (movk_high _ 1) by (change (2 ^ (16 * 1)) with 65536; zdm).
  change (2 ^ (16 * 1)) with 65536.
  rewrite (movk_high _ 2) by (change (2 ^ (16 * 2)) with 4294967296; zdm).
  change (2 ^ (16 * 2)) with 4294967296.
  rewrite (movk_high _ 3) by (change (2 ^ (16 * 3)) with 281474976710656; zdm).
  change (2 ^ (16 * 3)) with 281474976710656.
  cbn [a64_run]. rewrite Z.eqb_refl. f_equal. zdm.
Qed.

#[local] Opaque Z_to_little_endian.

Lemma take_drop_words ws i w :
  ws !! i = Some w -> take 4 (drop (4 * i) (ws ≫= Z_to_little_endian 4 8)) = Z_to_little_endian 4 8 w.
Proof.
  revert i; induction ws as [|v ws IH]; intros [|i] Hi; [done | done | |];
    change ((v :: ws) ≫= Z_to_little_endian 4 8)
      with (Z_to_little_endian 4 8 v ++ (ws ≫= Z_to_little_endian 4 8)).
  - injection Hi as ->. change (drop (4 * 0) ?l) with l. rewrite take_app_length'; [done|]. by rewrite (length_le 4).
  - replace (4 * S i)%nat with (4 + 4 * i)%nat by lia.
    rewrite <- drop_drop. rewrite drop_app_length'; [by apply IH|]. by rewrite (length_le 4).
Qed.

Lemma length_words_bytes ws : length (ws ≫= Z_to_little_endian 4 8) = (4 * length ws)%nat.
Proof.
  induction ws as [|w ws IH]; [done|]. rewrite bind_cons, length_app, IH. cbn [length].
  pose proof (length_le 4 w) as E. change (Z.of_nat 4) with 4 in E. lia.
Qed.

Lemma words_bytes_ok ws : Forall (fun b => in_u 8 b) (ws ≫= Z_to_little_endian 4 8).
Proof.
  induction ws as [|w ws IH]; [constructor|]. rewrite bind_cons. apply Forall_app. split; [|done].
  apply Z_to_little_endian_bound; lia.
Qed.

Lemma load_word m a ws i w :
  ws !! i = Some w -> loadZ (store_words m a ws) 4 (a + 4 * Z.of_nat i) = u32 w.
Proof.
  intros Hi. pose proof (lookup_lt_Some _ _ _ Hi). unfold loadZ, store_words.
  rewrite load_store_inside by (rewrite ?length_words_bytes; lia).
  replace (Z.to_nat (4 * Z.of_nat i)) with (4 * i)%nat by lia.
  rewrite (take_drop_words _ _ w) by done.
  by rewrite little_endian_to_Z_to_little_endian by lia.
Qed.

(** Words read back from a copy of a stored block. *)
Lemma words_copy m m' a b ws :
  load_bytes m' b (4 * length ws) = load_bytes (store_words m a ws) a (4 * length ws) ->
  words m' b (length ws) = u32 <$> ws.
Proof.
  intros Heq. apply list_eq. intros i. unfold words. rewrite !list_lookup_fmap.
  destruct (decide (i < length ws)%nat) as [Hi|Hi].
  - rewrite lookup_seq_lt by done. destruct (lookup_lt_is_Some_2 ws i Hi) as [w Hw]. rewrite Hw. simpl.
    f_equal. rewrite (loadZ_bytes_eq _ _ _ _ _ 4 (4 * Z.of_nat i) Heq) by lia.
    by apply load_word.
  - rewrite !lookup_ge_None_2; rewrite ?length_seq; done || lia.
Qed.

Lemma stub_insns_u32 sym : u32 <$> stub_insns sym = stub_insns sym.
Proof.
  unfold stub_insns. cbn [fmap list_fmap].
  change 0xffff with (Z.ones 16). rewrite !Z.land_ones by lia.
  rewrite !lor_imm16 by (done || apply Z.mod_pos_bound; lia).
  repeat f_equal; apply wrap_small; unfold in_u;
    first [lia | match goal with |- context [?x `mod` 2 ^ 16] =>
      pose proof (Z.mod_pos_bound x (2 ^ 16)); lia end].
Qed.

Section Stubs.
Context {W : Type} `{Kernel W}.

Lemma add_stub_emit sym :
  rtld_elf_add_stub sym = emit (W := W) 20 (fun a m => store_words m a (stub_insns sym)).
Proof. reflexivity. Qed.

Lemma add_stub_ok sym (p p' : Proc W) r stub x :
  code_ready p -> in_u 64 sym -> rtld_elf_add_stub sym p = ((r, stub), p') ->
  r <= 0 /\
  (r = 0 -> fresh_code p p' 20 stub /\ a64_run (words (mem p') stub 5) x = Some sym /\
    (forall y, y < stub \/ stub + 20 <= y -> y < sp p -> getb (mem p') y = getb (mem p) y) /\
    mem_ok (mem p')).
Proof.
  intros Hready Hsym Hrun. rewrite add_stub_emit in Hrun.
  assert (mem_ok (mem p')) as Hok'.
  { eapply emit_mem_ok; [done | | | done]; [lia|]. apply mem_ok_store; [apply Hready|].
    apply words_bytes_ok. }
  apply emit_spec in Hrun as [Hr Hs]; [|done|lia]. split; [done|]. intros ->.
  destruct (Hs eq_refl) as (Hf & Hl & Hx). split; [done|]. split; [|split; [|done]].
  - pose proof (words_copy _ _ _ _ (stub_insns sym) Hl) as Hw.
    change (length (stub_insns sym)) with 5%nat in Hw. rewrite Hw, stub_insns_u32.
    by apply stub_insns_run.
  - intros y Hy Hsp. rewrite Hx by done. unfold store_words. apply getb_store_out. lia.
Qed.
End Stubs.

(** The block [[a, a+n)] lies outside the code arena's free part and the stack. *)
Definition settled {W} (p : Proc W) (a n : Z) : Prop :=
  a + n <= brk (main_arena_code p) \/ (end_ (main_arena_code p) <= a /\ a + n <= sp p).

(** A branch out of reach goes through a stub: after a successful
    relocation of an AArch64 branch whose target is not within 128 MiB, the
    branch leads to a fresh block of the code arena whose instructions load
    exactly the symbol's address and branch to it. *)
Definition reaches_by_stub {W} `{Kernel W} (p p' : Proc W) (pc tgt syma : Z) : Prop :=
  let stub := branch_to pc (mem p') tgt in
  fresh_code p p' 20 stub /\ (forall x16, a64_run (words (mem p') stub 5) x16 = Some syma) /\
  (forall y, y < stub \/ stub + 20 <= y -> y < tgt \/ tgt + 4 <= y -> y < sp p -> getb (mem p') y = getb (mem p) y).

Lemma reloc_far_branch {W} `{Kernel W} (d : RtldPatchData) tgt sym (p p' : Proc W) :
  let syma := u64 (sym + addend d) in
  let pc := patch_addr d in
  code_ready p -> settled p tgt 4 -> pc `mod` 4 = 0 -> far_branch (rel_type d) pc syma = true ->
  rtld_reloc_at AARCH64 d tgt sym p = (0, p') ->
  reaches_by_stub p p' pc tgt syma /\
  (forall i, 26 <= i -> Z.testbit (loadZ (mem p') 4 tgt) i = Z.testbit (loadZ (mem p) 4 tgt) i).
Proof.
  intros syma pc Hready Hset Hpc Hfar Hr. apply andb_true_iff in Hfar as [Htype Hfar]. apply negb_true_iff in Hfar.
  cbn [rtld_reloc_at] in Hr. fold syma pc in Hr. unfold reloc_aarch64 in Hr. rewrite Htype in Hr.
  replace (rel_type d =? R_AARCH64_PREL64) with false in Hr by (by apply orb_true_iff in Htype as [->%Z.eqb_eq| ->%Z.eqb_eq]).
  replace (rel_type d =? R_AARCH64_PREL32) with false in Hr by (by apply orb_true_iff in Htype as [->%Z.eqb_eq| ->%Z.eqb_eq]).
  cbn iota in Hr. rewrite Hfar in Hr. cbn [negb] in Hr.
  unfold mbind at 1 2, ST_bind at 1 2 in Hr.
  destruct (rtld_elf_add_stub syma p) as [[r stub] p1] eqn:Es.
  assert (forall x, _) as Hadd by (intros x; exact (add_stub_ok _ _ _ _ _ x Hready (wrap_range 64 _ ltac:(lia)) Es)).
  destruct (Hadd 0) as [Hr0 Hs0].
  destruct (Z.ltb_spec r 0) as [Hneg|Hnn].
  { unfold mret, ST_ret in Hr. cbv beta iota in Hr. rewrite (proj2 (Z.ltb_lt r 0) Hneg) in Hr. injection Hr as Hr _. lia. }
  assert (r = 0) as -> by lia. destruct (Hs0 eq_refl) as (Hf & _ & Hx & Hok). unfold mret, ST_ret in Hr. cbv beta iota in Hr.
  change (0 <? 0) with false in Hr. cbv iota in Hr. apply reloc_signed_ok in Hr as [Hc ->]. apply CHECK_SIGNED_spec in Hc; [|lia].
  change (mem (set_mem ?m ?q)) with m. destruct Hf as (Hf1 & Hf2 & Hf3 & Hf4 & Hf5 & Hf6 & Hf7 & Hf8).
  pose proof (ready_arena _ Hready) as [Hps Ho _ Hh _ _]. apply pow2_pos in Hps. pose proof (ready_stack _ Hready) as Hst.
  set (q := set_mem _ p1). assert (branch_to pc (mem q) tgt = stub) as Hb.
  { unfold branch_to, q. change (mem (set_mem ?m ?q)) with m. rewrite (blend_field _ _ _ 0 26) by (done || lia).
    rewrite branch_denotes by done. replace ((stub - pc) `mod` 4) with 0 by (rewrite Zminus_mod, Hpc; zdm).
    rewrite Z.sub_0_r. apply wrap_small. unfold in_u. lia. }
  unfold reaches_by_stub. rewrite Hb. split; [split; [by unfold fresh_code|split]|].
  - intros x16. destruct (Hadd x16) as [_ Hsx]. destruct (Hsx eq_refl) as (_ & Hrun & _). fold syma in Hrun. rewrite <- Hrun. f_equal. unfold words. apply list_fmap_ext. intros i j Hj.
    apply lookup_seq in Hj as [-> Hi]. apply loadZ_ext. intros y Hy. apply blend_frame.
    change (blend_width _) with 4%nat. destruct Hset; lia.
  - intros y Hy1 Hy2 Hy3. rewrite <- Hx by done. apply blend_frame. change (blend_width _) with 4%nat. lia.
  - intros i Hi. change (mem q) with (blend_mem (mem p1) tgt 0x03ffffff (u64 (Z.shiftr (s64 (stub - pc)) 2))).
    rewrite blend_keep; [|done|done|lia|by rewrite (bits_above 26) by (done || lia)].
    f_equal. apply loadZ_ext. intros y Hy. apply Hx; destruct Hset; lia.
Qed.

(** C27. A successful AArch64 relocation makes the relocated place denote the
    symbol plus addend by the formulas of the Arm ELF ABI.  Data, the ADRP
    page, the scaled low 12 bits, the MOVZ/MOVK part and a branch that reaches
    its target: the field has this value, where a branch and a scaled offset
    drop what is below their unit (4 for a branch).  A branch whose target is
    not within 128 MiB, in a word that is aligned and outside the free part of
    the code arena: it leads to a fresh block of the code arena whose
    instructions load exactly symbol plus addend and branch there.  In both
    cases the bits of the instruction outside the relocation's mask keep their
    value, and no other byte changes, that of the new block and of the stack's
    free part aside. *)
Theorem reloc_aarch64_correct {W} `{Kernel W} (d : RtldPatchData) tgt sym (p p' : Proc W) :
  let syma := u64 (sym + addend d) in
  let pc := patch_addr d in
  let far := far_branch (rel_type d) pc syma in
  mem_ok (mem p) -> in_u 64 pc -> (far = true -> code_ready p /\ settled p tgt 4 /\ pc `mod` 4 = 0) ->
  rtld_reloc_at AARCH64 d tgt sym p = (0, p') ->
  (if far then reaches_by_stub p p' pc tgt syma
   else a64_denotes (rel_type d) pc syma (mem p') tgt /\
     (forall x, x < tgt \/ tgt + Z.of_nat (a64_width (rel_type d)) <= x -> getb (mem p') x = getb (mem p) x) /\
     p' = set_mem (mem p') p) /\
  exists mask data, a64_blend (rel_type d) pc syma = Some (mask, data) /\
    forall i, 0 <= i -> Z.testbit mask i = false ->
      Z.testbit (loadZ (mem p') 4 tgt) i = Z.testbit (loadZ (mem p) 4 tgt) i.
Proof.
  intros syma pc far Hm Hpc Hready Hr. unfold far in *. destruct (far_branch (rel_type d) pc syma) eqn:Hfar.
  - destruct (Hready eq_refl) as (H1 & H2 & H3). destruct (reloc_far_branch d tgt sym p p' H1 H2 H3 Hfar Hr) as [Hs Hk].
    split; [done|]. apply andb_true_iff in Hfar as [Ht _]. unfold a64_blend. rewrite Ht.
    replace (rel_type d =? R_AARCH64_PREL64) with false by (by apply orb_true_iff in Ht as [->%Z.eqb_eq| ->%Z.eqb_eq]).
    replace (rel_type d =? R_AARCH64_PREL32) with false by (by apply orb_true_iff in Ht as [->%Z.eqb_eq| ->%Z.eqb_eq]).
    eexists _, _. split; [done|]. intros i Hi Hb. apply Hk. destruct (Z.leb_spec 26 i); [done|].
    change 0x03ffffff with (Z.ones 26) in Hb. by rewrite Z.ones_spec_low in Hb by lia.
  - destruct (reloc_a64_near d tgt sym p p' Hm Hpc Hfar Hr) as (Hd & Hk & Hx & Hp). by split.
Qed.

Definition arena64 : Arena := mkArena 0x400000000000 0x400040000000 0x400000000100 0x400000001000.
Definition proc64 : Proc Pipes :=
  mkProc (store_bytes ∅ 0x400000000000 [0; 0; 0; 0x94]) (mkPipes ∅ ∅ 0 0) arena64 arena64 4096
    0x7ff000000000.

Lemma proc64_ready : code_ready proc64.
Proof.
  split.
  - constructor; simpl; try lia; try reflexivity. exists 12. lia.
  - simpl. lia.
  - repeat apply map_Forall_insert_2; try (unfold in_u; lia). apply map_Forall_empty.
  - apply loopback_abi.
Defined.

(** [bl] to a function 64 bytes ahead, and to one that is out of reach. *)
Lemma reloc_aarch64_correct_witness :
  let d := mkPatch 0 R_AARCH64_CALL26 8 0 0x400000000000 in
  let near := (rtld_reloc_at AARCH64 d 0x400000000000 0x400000000040 proc64).2 in
  let far := (rtld_reloc_at AARCH64 d 0x400000000000 0x1234567890 proc64).2 in
  branch_to 0x400000000000 (mem near) 0x400000000000 = 0x400000000040 /\
  branch_to 0x400000000000 (mem far) 0x400000000000 = 0x400000000100 /\
  a64_run (words (mem far) 0x400000000100 5) 0 = Some 0x1234567890.
Proof.
  intros d near far.
  pose proof (reloc_aarch64_correct d 0x400000000000 0x400000000040 proc64 near) as N.
  pose proof (reloc_aarch64_correct d 0x400000000000 0x1234567890 proc64 far) as F.
  cbv zeta in N, F. destruct N as [[N _] _].
  - apply proc64_ready.
  - unfold in_u. simpl. lia.
  - intros E. vm_compute in E. discriminate E.
  - vm_compute. reflexivity.
  - destruct F as [(_ & F & _) _].
    + apply proc64_ready.
    + unfold in_u. simpl. lia.
    + intros _. split; [exact proc64_ready|]. split; [left; vm_compute; discriminate|reflexivity].
    + vm_compute. reflexivity.
    + split; [exact N|]. assert (branch_to 0x400000000000 (mem far) 0x400000000000 = 0x400000000100) as E by (vm_compute; reflexivity).
      split; [exact E|]. change (branch_to (patch_addr d) (mem far) 0x400000000000) with (branch_to 0x400000000000 (mem far) 0x400000000000) in F.
      rewrite E in F. apply F.
Defined.

(** ** The PLT *)

(** The code stored for a slot. *)
Definition plt_encodes (arch : Arch) (m : memory) (code_ptr offset : Z) : Prop :=
  match arch with
  | X86_64 => loadZ m 8 code_ptr = u64 (Z.lor 0x0b0f0000000025ff (Z.shiftl (offset - 6) 16))
  | AARCH64 => loadZ m 4 code_ptr = u32 (Z.lor 0x58000011 (Z.shiftl offset 3)) /\
               loadZ m 4 (code_ptr + 4) = 0xd61f0220
  end.

Lemma plt_code_encodes arch m c off : plt_encodes arch (plt_code arch m c off) c off.
Proof.
  destruct arch; simpl.
  - by rewrite loadZ_storeZ.
  - rewrite loadZ_storeZ_disjoint, !loadZ_storeZ by lia. done.
Qed.

Lemma getb_storeZ_out m n a v x : x < a \/ a + Z.of_nat n <= x -> getb (storeZ m n a v) x = getb m x.
Proof. intros. unfold storeZ. apply getb_store_out. by rewrite length_le. Qed.

Lemma plt_code_frame arch m c off x : x < c \/ c + 8 <= x -> getb (plt_code arch m c off) x = getb m x.
Proof.
  intros Hx. destruct arch; simpl.
  - apply getb_storeZ_out. lia.
  - rewrite !getb_storeZ_out by lia. done.
Qed.

Lemma plt_encodes_ext arch m1 m2 c off :
  (forall x, c <= x < c + 8 -> getb m1 x = getb m2 x) -> plt_encodes arch m1 c off -> plt_encodes arch m2 c off.
Proof.
  intros Hx. destruct arch; simpl.
  - rewrite (loadZ_ext m1 m2) by (intros; apply Hx; lia). done.
  - rewrite (loadZ_ext m1 m2 c), (loadZ_ext m1 m2 (c + 4)) by (intros; apply Hx; lia). done.
Qed.

(** Filling the slots from [i] on: each has its code and its data, nothing else
    is written. *)
Lemma plt_fill_spec arch disp entries i plt doff m :
  0 <= i -> 8 * (i + Z.of_nat (length entries)) <= doff -> doff `mod` 8 = 0 ->
  let m' := plt_fill arch disp entries i plt doff m in
  (forall j e, entries !! j = Some e ->
     loadZ m' 8 (plt + doff + 8 * (i + Z.of_nat j)) = u64 (plt_func disp (i + Z.of_nat j) e.2) /\
     plt_encodes arch m' (plt + 8 * (i + Z.of_nat j)) doff) /\
  (forall x, x < plt + 8 * i \/ plt + 8 * (i + Z.of_nat (length entries)) <= x ->
     x < plt + doff + 8 * i \/ plt + doff + 8 * (i + Z.of_nat (length entries)) <= x ->
     getb m' x = getb m x).
Proof.
  revert i m; induction entries as [|[name func] entries IH]; intros i m Hi Hlen Hdo; cbn zeta.
  { split; [intros j e Hj; by rewrite lookup_nil in Hj | done]. }
  cbn [plt_fill length]. cbn [length] in Hlen. unfold PLT_FUNC_SIZE.
  replace (plt + 8 * (doff / 8 + i)) with (plt + doff + 8 * i) by zdm.
  replace (plt + doff + 8 * i - (plt + i * 8)) with doff by lia.
  replace (plt + i * 8) with (plt + 8 * i) by lia.
  set (m1 := storeZ m 8 (plt + doff + 8 * i) (plt_func disp i func)).
  set (m2 := plt_code arch m1 (plt + 8 * i) doff).
  destruct (IH (i + 1) m2) as [IH1 IH2]; [lia | lia | done |].
  set (m' := plt_fill _ _ _ _ _ _ m2) in *. split.
  - intros [|j] e Hj.
    + injection Hj as <-. rewrite Z.add_0_r. cbn [snd]. split.
      * rewrite (loadZ_ext m' m2) by (intros x Hx; apply IH2; lia).
        rewrite (loadZ_ext m2 m1) by (intros x Hx; apply plt_code_frame; lia).
        apply loadZ_storeZ.
      * eapply plt_encodes_ext; [|apply plt_code_encodes].
        intros x Hx. symmetry. apply IH2; lia.
    + destruct (IH1 j e Hj) as [E1 E2].
      replace (i + Z.of_nat (S j)) with (i + 1 + Z.of_nat j) by lia. done.
  - intros x Hx1 Hx2. rewrite IH2 by lia. subst m2. rewrite plt_code_frame by lia.
    apply getb_storeZ_out. lia.
Qed.

(** The function reached by executing the slot at [c]: [jmp [rip+disp]], or a
    literal load into [x17] followed by [br x17]. *)
Definition plt_target (arch : Arch) (m : memory) (c : Z) : option Z :=
  match arch with
  | X86_64 =>
      let insn := loadZ m 8 c in
      if ubfx insn 0 15 =? 0x25ff then Some (loadZ m 8 (c + 6 + s32 (ubfx insn 16 47))) else None
  | AARCH64 =>
      let ldr := loadZ m 4 c in
      let br := loadZ m 4 (c + 4) in
      if (ubfx ldr 24 31 =? 0x58) && (br =? 0xd61f0000 + 32 * ubfx ldr 0 4)
      then Some (loadZ m 8 (c + 4 * swrap 19 (ubfx ldr 5 23))) else None
  end.

Lemma plt_encodes_target arch m c off :
  plt_encodes arch m c off -> 8 <= off < 2 ^ 20 -> off `mod` 8 = 0 ->
  plt_target arch m c = Some (loadZ m 8 (c + off)).
Proof.
  intros He Ho Hm. destruct arch; unfold plt_encodes in He; unfold plt_target.
  - rewrite He. change 0x0b0f0000000025ff with (0x25ff + Z.shiftl 0xb0f 32 * 2 ^ 16).
    set (k := off - 6).
    assert (Z.lor (0x25ff + Z.shiftl 0xb0f 32 * 2 ^ 16) (Z.shiftl k 16) =
      0x25ff + (k + 0xb0f * 2 ^ 32) * 2 ^ 16) as ->.
    { rewrite <- (lor_shiftl_add 0x25ff (Z.shiftl 0xb0f 32) 16) by lia.
      rewrite <- Z.lor_assoc, <- Z.shiftl_lor, (Z.lor_comm (Z.shiftl 0xb0f 32)).
      rewrite (lor_shiftl_add k) by (subst k; lia). apply lor_shiftl_add; lia. }
    rewrite wrap_small by (unfold in_u; subst k; lia). rewrite !ubfx_div by lia.
    change (2 ^ (47 - 16 + 1)) with 4294967296. change (2 ^ (15 - 0 + 1)) with 65536.
    change (2 ^ 0) with 1. change (2 ^ 16) with 65536. change (2 ^ 32) with 4294967296.
    replace (_ `mod` 65536) with 0x25ff by zdm. rewrite Z.eqb_refl. do 2 f_equal.
    replace (_ `mod` 4294967296) with k by (subst k; zdm).
    rewrite swrap_small by (unfold in_s; subst k; lia). subst k. lia.
  - destruct He as [E1 E2]. rewrite E1, E2.
    assert (Z.lor 0x58000011 (Z.shiftl off 3) = 0x58000011 + off / 4 * 32) as ->.
    { set (rhs := 0x58000011 + off / 4 * 32).
      replace (Z.shiftl off 3) with (Z.shiftl (off / 4) 5) by (rewrite !Z.shiftl_mul_pow2 by lia; zdm).
      change 0x58000011 with (0x11 + 0x2c00000 * 2 ^ 5).
      rewrite <- (lor_shiftl_add 0x11 0x2c00000 5) by lia.
      rewrite <- Z.lor_assoc, <- Z.shiftl_lor.
      rewrite (Z.lor_comm 0x2c00000). change 0x2c00000 with (Z.shiftl 0x58 19).
      rewrite (lor_shiftl_add (off / 4)) by zdm. rewrite lor_shiftl_add by lia. subst rhs. lia. }
    rewrite wrap_small by (unfold in_u; zdm). rewrite !ubfx_div by lia.
    change (2 ^ (31 - 24 + 1)) with 256. change (2 ^ (4 - 0 + 1)) with 32.
    change (2 ^ (23 - 5 + 1)) with 524288. change (2 ^ 24) with 16777216.
    change (2 ^ 0) with 1. change (2 ^ 5) with 32. change (2 ^ 20) with 1048576 in Ho.
    replace (_ `mod` 256) with 0x58 by zdm. replace (_ `mod` 32) with 17 by zdm.
    replace (_ `mod` 524288) with (off / 4) by zdm.
    rewrite swrap_small by (unfold in_s; zdm).
    change ((_ =? _) && (_ =? _)) with true. cbv iota. do 2 f_equal. zdm.
Qed.

Lemma plt_sizes arch link :
  let n := Z.of_nat (length (plt_entries arch link)) in
  let doff := plt_data_offset n in
  8 * n <= doff < 2 ^ 20 /\ 8 <= doff /\ doff `mod` 8 = 0 /\ doff + 8 * n <= plt_bytes n < 2 ^ 20.
Proof. destruct arch; vm_compute; split_and!; done. Qed.

(** Every PLT slot reaches its function: after [plt_create], the code at
    [plt + 8 * i] jumps to the dispatcher functions for the first two entries
    and to the linked function of entry [i] otherwise, on both hosts. *)
Theorem plt_create_slots {W} `{Kernel W} arch link disp_info (p p' : Proc W) plt :
  code_ready p -> plt_create arch link disp_info p = ((0, plt), p') ->
  forall i name func, plt_entries arch link !! i = Some (name, func) ->
  plt_target arch (mem p') (plt + Z.of_nat i * PLT_FUNC_SIZE) =
    Some (u64 (plt_func disp_info (Z.of_nat i) func)).
Proof.
  intros Hready Hrun i name func Hi.
  destruct (plt_sizes arch link) as (Hd1 & Hd2 & Hd3 & Hd4).
  pose proof (lookup_lt_Some _ _ _ Hi) as Hlt.
  set (n := Z.of_nat (length (plt_entries arch link))) in *. set (doff := plt_data_offset n) in *.
  change (plt_create arch link disp_info) with
    (emit (W := W) (plt_bytes n) (fun a m => plt_fill arch disp_info (plt_entries arch link) 0 a doff m)) in Hrun.
  apply emit_spec in Hrun as [_ Hs]; [|done|lia]. destruct (Hs eq_refl) as (_ & Hl & _).
  destruct (plt_fill_spec arch disp_info (plt_entries arch link) 0 (sp p) doff (mem p)) as [Hfill _];
    [lia | unfold n in *; lia | done |].
  set (fill := plt_fill _ _ _ _ _ _ _) in *.
  assert (forall k off, 0 <= off -> off + Z.of_nat k <= plt_bytes n ->
    loadZ (mem p') k (plt + off) = loadZ fill k (sp p + off)) as Hcopy.
  { intros k off Ho Hk. eapply loadZ_bytes_eq; [exact Hl | done | lia]. }
  destruct (Hfill i (name, func) Hi) as [Hdata Hcode]. rewrite Z.add_0_l in Hdata, Hcode. cbn [snd] in Hdata.
  replace (plt + Z.of_nat i * PLT_FUNC_SIZE) with (plt + 8 * Z.of_nat i) by (unfold PLT_FUNC_SIZE; lia).
  rewrite (plt_encodes_target _ _ _ doff); [|destruct arch; unfold plt_encodes in *|lia|done].
  - f_equal. rewrite <- Hdata. rewrite <- !Z.add_assoc, Hcopy by lia. f_equal. lia.
  - by rewrite Hcopy by lia.
  - destruct Hcode as [C1 C2]. rewrite <- !Z.add_assoc, !Hcopy by lia. rewrite !Z.add_assoc.
    exact (conj C1 C2).
Qed.

Lemma plt_create_slots_witness :
  let disp := mkDisp 1 0x1111 0x2222 14 in
  let link := fun s : string => Z.of_nat (String.length s) in
  let p' := (plt_create X86_64 link disp proc64).2 in
  plt_target X86_64 (mem p') (0x400000000100 + 2 * 8) = Some 15.
Proof.
  intros disp link p'.
  apply (plt_create_slots X86_64 link disp proc64 p' 0x400000000100 proc64_ready) with
    (i := 2%nat) (name := bytes_of_string "syscall") (func := 15).
  - apply injective_projections; [vm_compute; reflexivity | reflexivity].
  - reflexivity.
Defined.

(** ** Patch stubs *)

Lemma load_store_patch m a d :
  in_u 64 (sym_addr d) -> in_u 32 (rel_type d) -> in_u 32 (rel_size d) -> in_s 64 (addend d) ->
  in_u 64 (patch_addr d) -> load_patch (store_patch m a d) a = d.
Proof.
  intros H1 H2 H3 H4 H5. unfold load_patch, store_patch.
  repeat first [rewrite loadZ_storeZ | rewrite loadZ_storeZ_disjoint by lia].
  change (8 * Z.of_nat 8) with 64. change (8 * Z.of_nat 4) with 32.
  rewrite swrap_wrap, swrap_small, !wrap_small by (done || lia). by destruct d.
Qed.

(** The buffer [rtld_patch_create_stub] fills, given the distance from the stub
    to the jump target. *)
Definition stub_tmpl (pdr : Z) : list Z :=
  [u8 (0x48 + (if 8 <=? pdr then 4 else 0)); 0x8d; u8 (5 + Z.shiftl (Z.land pdr 7) 3); 9; 0; 0; 0; 0xe9].
Definition stub_code (arch : Arch) (a jd pdr : Z) (m : memory) : memory :=
  match arch with
  | X86_64 => storeZ (storeZ (store_bytes m a (stub_tmpl pdr)) 4 (a + 8) (jd - 12)) 4 (a + 12) 0x0b0f0b0f
  | AARCH64 => blend_mem (storeZ (storeZ m 4 a (0x10000080 + pdr)) 4 (a + 4) 0x14000000)
                 (a + 4) 0x03ffffff (u64 (Z.shiftr (jd - 4) 2))
  end.

Lemma patch_stub_run {W} `{Kernel W} arch plt pdr d (p p' : Proc W) stub :
  code_ready p -> rtld_patch_create_stub arch plt pdr d p = ((0, stub), p') ->
  let jd := s64 (u64 (plt + 8) - stub) in
  fresh_code p p' 48 stub /\ (arch = AARCH64 -> in_s 28 (jd - 4)) /\
  load_bytes (mem p') stub 48 =
    load_bytes (store_patch (stub_code arch (sp p) jd pdr (mem p)) (sp p + 16) d) (sp p) 48.
Proof.
  intros Hready Hrun. unfold rtld_patch_create_stub, with_local in Hrun.
  change (0x10 + SIZEOF_PATCH) with 48 in Hrun. unfold SIZEOF_PATCH in Hrun.
  unfold mbind, ST_bind, gets, modify, mret, ST_ret in Hrun. cbv beta iota in Hrun.
  destruct (mem_alloc_code 48 64 (set_sp (sp p + 48) p)) as [stub1 p1] eqn:Ha.
  pose proof Hready as [Hwf Hst Hok Habi].
  destruct (mem_alloc_code_ok 48 0x40 (set_sp (sp p + 48) p) stub1 p1 Hwf) as (Hout & Hm & Hsp & Hps & _);
    [split; lia | done | done |].
  change (effective_align 64) with 64 in Hout.
  destruct (BAD_ADDR stub1) eqn:Hb.
  { injection Hrun as Hr _ _. apply bad_addr_s32 in Hb. lia. }
  destruct Hout as [Hbad _|Hr Hmod Hs He Hbrk Hp Hwf']; [congruence|].
  change (main_arena_code (set_sp _ p)) with (main_arena_code p) in *.
  change (pagesize (set_sp _ p)) with (pagesize p) in *.
  change (mem (set_sp _ p)) with (mem p) in *.
  change (1 * PLT_FUNC_SIZE) with 8 in Hrun.
  set (jd := s64 (u64 (plt + 8) - stub1)) in *.
  assert (stub1 + 48 <= sp p) as Hlow by (destruct Hwf'; lia).
  assert (forall q, mem q = store_patch (stub_code arch (sp p) jd pdr (mem p)) (sp p + 48 - 32) d ->
    main_arena_code q = main_arena_code p1 -> pagesize q = pagesize p1 ->
    (let '(ret, q') := mem_write_code stub1 (sp p) 48 q in
     let '(res, q') := (if ret <? 0 then fun s => ((ret, 0), s) else fun s => ((0, stub1), s)) q' in
     (res, set_sp (sp p) q')) = ((0, stub), p') ->
    stub = stub1 /\ fresh_code p p' 48 stub /\
    load_bytes (mem p') stub 48 =
      load_bytes (store_patch (stub_code arch (sp p) jd pdr (mem p)) (sp p + 16) d) (sp p) 48) as Hfin.
  { intros q Hq Hqa Hqp Hw. rewrite mem_write_code_block in Hw by lia.
    change (0 <? 0) with false in Hw. cbv beta iota in Hw.
    apply pair_equal_spec in Hw as [[= <-] <-]. split; [reflexivity|]. split.
    - unfold fresh_code. change (main_arena_code (set_sp _ (set_mem _ q))) with (main_arena_code q).
      change (pagesize (set_sp _ (set_mem _ q))) with (pagesize q).
      rewrite Hqa, Hqp, Hps. destruct Hwf'. split_and!; done || lia.
    - change (mem (set_sp _ (set_mem ?mm q))) with mm. rewrite Hq.
      rewrite load_store_same' by apply length_load_bytes.
      replace (sp p + 48 - 32) with (sp p + 16) by lia. done. }
  destruct arch.
  - destruct (Hfin (set_mem (store_patch (stub_code X86_64 (sp p) jd pdr (mem p)) (sp p + 48 - 32) d) p1))
      as (-> & Hf & Hl); [done | done | done | |].
    + rewrite <- Hrun. unfold stub_code. rewrite <- Hm. reflexivity.
    + split; [done|]. split; [done | exact Hl].
  - unfold rtld_elf_signed_range in Hrun. destruct (CHECK_SIGNED_BITS (jd - 4) 28) eqn:Hc; cbn [negb] in Hrun.
    + destruct (Hfin (set_mem (store_patch (stub_code AARCH64 (sp p) jd pdr (mem p)) (sp p + 48 - 32) d) p1))
        as (-> & Hf & Hl); [done | done | done | |].
      * rewrite <- Hrun. unfold stub_code. rewrite <- Hm. reflexivity.
      * split; [done|]. split; [|exact Hl]. intros _. apply CHECK_SIGNED_spec; [lia | done].
    + unfold mbind, ST_bind, mret, ST_ret in Hrun. destruct (dprintf _ _ _ _). cbv beta iota in Hrun.
      cbn [negb] in Hrun. by injection Hrun.
Qed.

(** The meaning of a stub: the register that receives an address, the address,
    and the jump target ([lea reg, [rip+disp]; jmp rel32], or [adr; b]). *)
Definition stub_meaning (arch : Arch) (m : memory) (s : Z) : option (Z * Z * Z) :=
  match arch with
  | X86_64 =>
      let w := loadZ m 8 s in
      if (ubfx w 3 7 =? 9) && (ubfx w 8 18 =? 0x58d) && (ubfx w 22 23 =? 0) && (ubfx w 56 63 =? 0xe9)
      then Some (ubfx w 19 21 + 8 * ubfx w 2 2, u64 (s + 7 + s32 (ubfx w 24 55)),
                 u64 (s + 12 + s32 (loadZ m 4 (s + 8))))
      else None
  | AARCH64 =>
      let w := loadZ m 4 s in
      let w' := loadZ m 4 (s + 4) in
      if (ubfx w 24 28 =? 0x10) && (ubfx w 31 31 =? 0) && (ubfx w' 26 31 =? 5)
      then Some (ubfx w 0 4, u64 (s + swrap 21 (4 * ubfx w 5 23 + ubfx w 29 30)),
                 u64 (s + 4 + 4 * swrap 26 (ubfx w' 0 25)))
      else None
  end.

Lemma small_reg_cases (P : Z -> Prop) n :
  (forall k, (k < n)%nat -> P (Z.of_nat k)) -> forall r, 0 <= r < Z.of_nat n -> P r.
Proof. intros HP r Hr. rewrite <- (Z2Nat.id r) by lia. apply HP. lia. Qed.

Lemma tmpl_word pdr : 0 <= pdr < 16 ->
  let w := little_endian_to_Z 8 (stub_tmpl pdr) in
  ubfx w 3 7 = 9 /\ ubfx w 8 18 = 0x58d /\ ubfx w 22 23 = 0 /\ ubfx w 56 63 = 0xe9 /\
  ubfx w 19 21 + 8 * ubfx w 2 2 = pdr /\ ubfx w 24 55 = 9.
Proof.
  revert pdr. apply (small_reg_cases _ 16). intros k Hk.
  do 16 (destruct k as [|k]; [vm_compute; split_and!; reflexivity|]). lia.
Qed.

Lemma adr_word pdr : 0 <= pdr < 32 ->
  let w := u32 (0x10000080 + pdr) in
  ubfx w 24 28 = 0x10 /\ ubfx w 31 31 = 0 /\ ubfx w 0 4 = pdr /\ 4 * ubfx w 5 23 + ubfx w 29 30 = 16.
Proof.
  revert pdr. apply (small_reg_cases _ 32). intros k Hk.
  do 32 (destruct k as [|k]; [vm_compute; split_and!; reflexivity|]). lia.
Qed.

(** The stub code in the buffer, as seen after the patch data was appended. *)
Lemma load_under_patch m a d k off :
  0 <= off -> off + Z.of_nat k <= 16 -> loadZ (store_patch m (a + 16) d) k (a + off) = loadZ m k (a + off).
Proof. intros. unfold store_patch. rewrite !loadZ_storeZ_disjoint by lia. done. Qed.

Lemma stub_meaning_x86 m s jd pdr :
  0 <= pdr < 16 -> in_s 32 (jd - 12) ->
  loadZ m 8 s = little_endian_to_Z 8 (stub_tmpl pdr) ->
  loadZ m 4 (s + 8) = u32 (jd - 12) ->
  stub_meaning X86_64 m s = Some (pdr, u64 (s + 16), u64 (s + jd)).
Proof.
  intros Hp Hj Hw Hr. unfold stub_meaning. rewrite Hw, Hr, swrap_wrap, (swrap_small 32 (jd - 12)) by (done || lia).
  destruct (tmpl_word pdr Hp) as (E1 & E2 & E3 & E4 & E5 & E6). rewrite E1, E2, E3, E4, E5, E6.
  change (s32 9) with 9. change ((9 =? 9) && _ && _ && _) with true. cbv iota.
  replace (s + 7 + 9) with (s + 16) by lia. by replace (s + 12 + (jd - 12)) with (s + jd) by lia.
Qed.

Lemma stub_meaning_a64 m s jd pdr :
  0 <= pdr < 32 -> in_s 28 (jd - 4) -> jd `mod` 4 = 0 ->
  loadZ m 4 s = u32 (0x10000080 + pdr) ->
  (let w := loadZ m 4 (s + 4) in ubfx w 26 31 = 5 /\ ubfx w 0 25 = ubfx (Z.shiftr (jd - 4) 2) 0 25) ->
  stub_meaning AARCH64 m s = Some (pdr, u64 (s + 16), u64 (s + jd)).
Proof.
  intros Hp Hj Hm Hw [Hb1 Hb2]. unfold stub_meaning. rewrite Hw, Hb1, Hb2.
  destruct (adr_word pdr Hp) as (E1 & E2 & E3 & E4). rewrite E1, E2, E3, E4.
  change (swrap 21 16) with 16. change ((0x10 =? 0x10) && _ && _) with true. cbv iota.
  do 3 f_equal. rewrite Z.shiftr_div_pow2, ubfx_div by lia. change (2 ^ 0) with 1. rewrite Z.div_1_r.
  change (_ `mod` 2 ^ (25 - 0 + 1)) with (wrap 26 ((jd - 4) / 2 ^ 2)).
  change (2 ^ 2) with 4. unfold in_s in Hj. change (28 - 1) with 27 in Hj.
  rewrite swrap_wrap, swrap_small; [zdm | lia |]. unfold in_s. change (26 - 1) with 25. zdm.
Qed.

(** The code arena spans less than a gigabyte and holds the PLT. *)
Definition plt_near {W} (p : Proc W) (plt : Z) : Prop :=
  start (main_arena_code p) <= plt /\ plt + 16 <= end_ (main_arena_code p) /\
  end_ (main_arena_code p) - start (main_arena_code p) <= 2 ^ 30 /\ plt `mod` 8 = 0.

Definition patch_ok (d : RtldPatchData) : Prop :=
  in_u 64 (sym_addr d) /\ in_u 32 (rel_type d) /\ in_u 32 (rel_size d) /\ in_s 64 (addend d) /\
  in_u 64 (patch_addr d).

(** A patch stub hands its own patch data to the full dispatcher: the code
    at the new stub puts the address [stub + 16] into the patch data register
    and jumps to the second PLT slot, and the patch data stored at [stub + 16]
    reads back unchanged. *)
Theorem patch_stub_correct {W} `{Kernel W} arch plt pdr d (p p' : Proc W) stub :
  code_ready p -> plt_near p plt -> patch_ok d ->
  0 <= pdr < match arch with X86_64 => 16 | AARCH64 => 32 end ->
  rtld_patch_create_stub arch plt pdr d p = ((0, stub), p') ->
  stub_meaning arch (mem p') stub = Some (pdr, stub + 16, plt + PLT_FUNC_SIZE) /\
  load_patch (mem p') (stub + 16) = d /\ fresh_code p p' 48 stub.
Proof.
  intros Hready (Hn1 & Hn2 & Hn3 & Hn4) (D1 & D2 & D3 & D4 & D5) Hpdr Hrun.
  apply patch_stub_run in Hrun as (Hf & Hchk & Hl); [|done].
  pose proof (ready_arena _ Hready) as [Hps Ho _ Hh _ _]. apply pow2_pos in Hps.
  pose proof Hf as (Hf1 & Hf2 & Hf3 & Hf4 & _). unfold PLT_FUNC_SIZE.
  rewrite (wrap_small 64 (plt + 8)) in * by (unfold in_u; lia).
  assert (s64 (plt + 8 - stub) = plt + 8 - stub) as Ejd by (apply swrap_small; unfold in_s; lia).
  rewrite Ejd in *. set (jd := plt + 8 - stub) in *.
  set (buf := stub_code arch (sp p) jd pdr (mem p)) in *.
  assert (forall k off, 0 <= off -> off + Z.of_nat k <= 48 ->
    loadZ (mem p') k (stub + off) = loadZ (store_patch buf (sp p + 16) d) k (sp p + off)) as Hcopy.
  { intros k off H0 Hk. eapply (loadZ_bytes_eq _ _ _ _ 48); [exact Hl | done | lia]. }
  assert (forall k off, 0 <= off -> off + Z.of_nat k <= 16 ->
    loadZ (mem p') k (stub + off) = loadZ buf k (sp p + off)) as Hcode.
  { intros k off H0 Hk. rewrite Hcopy by lia. by apply load_under_patch. }
  pose proof (Hcode 8%nat 0) as Hc0. pose proof (Hcode 4%nat 0) as Hc4. rewrite !Z.add_0_r in Hc0, Hc4.
  split; [|split; [|done]].
  - replace (Some (pdr, stub + 16, plt + 8)) with (Some (pdr, u64 (stub + 16), u64 (stub + jd)))
      by (rewrite !wrap_small by (unfold in_u, jd; lia); do 2 f_equal; unfold jd; lia).
    destruct arch.
    + apply stub_meaning_x86; [lia | unfold in_s; lia | |].
      * rewrite Hc0 by lia. unfold buf, stub_code. rewrite !loadZ_storeZ_disjoint by lia.
        unfold loadZ. f_equal. by apply load_store_same'.
      * rewrite Hcode by lia. unfold buf, stub_code. rewrite loadZ_storeZ_disjoint by lia.
        apply loadZ_storeZ.
    + apply stub_meaning_a64; [lia | by apply Hchk | unfold jd; zdm | |].
      * rewrite Hc4 by lia. unfold buf, stub_code, blend_mem.
        change (blend_width _) with 4%nat. rewrite !loadZ_storeZ_disjoint by lia. apply loadZ_storeZ.
      * rewrite Hcode by lia. unfold buf, stub_code.
        set (m0 := storeZ (storeZ (mem p) 4 (sp p) _) 4 (sp p + 4) 0x14000000).
        assert (mem_ok m0) as Hm0 by (apply mem_ok_storeZ, mem_ok_storeZ, Hready).
        split; [|by rewrite (blend_field _ _ _ 0 26) by (done || lia)].
        apply bits_eq. intros i Hi. rewrite testbit_ubfx by lia.
        rewrite blend_keep by (done || lia || apply bits_above with 26; unfold in_u; lia).
        change (loadZ m0 4 (sp p + 4)) with (loadZ (storeZ (storeZ (mem p) 4 (sp p) (268435584 + pdr))
          4 (sp p + 4) 0x14000000) 4 (sp p + 4)).
        rewrite loadZ_storeZ. change (wrap _ _) with 0x14000000.
        rewrite <- (testbit_ubfx 0x14000000 26 31) by lia. done.
  - unfold load_patch. rewrite <- !Z.add_assoc, !Hcopy by lia. rewrite !Z.add_assoc.
    apply (load_store_patch buf (sp p + 16) d D1 D2 D3 D4 D5).
Qed.

Lemma patch_stub_correct_witness :
  let d := mkPatch 0x401000 R_X86_64_PLT32 8 (-4) 0x400000000010 in
  let p' := (rtld_patch_create_stub X86_64 0x400000000040 14 d proc64).2 in
  stub_meaning X86_64 (mem p') 0x400000000100 = Some (14, 0x400000000110, 0x400000000048) /\
  load_patch (mem p') 0x400000000110 = d.
Proof.
  intros d p'.
  destruct (patch_stub_correct X86_64 0x400000000040 14 d proc64 p' 0x400000000100 proc64_ready)
    as (T1 & T2 & _).
  - split; [|split; [|split]]; vm_compute; done.
  - repeat split; vm_compute; done.
  - lia.
  - apply injective_projections; [vm_compute; reflexivity | reflexivity].
  - split; [exact T1 | exact T2].
Defined.

(** ** Patching *)

Lemma x86_target_ext type pc m1 m2 a b :
  loadZ m1 4 a = loadZ m2 4 b -> loadZ m1 8 a = loadZ m2 8 b ->
  x86_target type pc m1 a = x86_target type pc m2 b.
Proof. intros H4 H8. unfold x86_target. by rewrite H4, H8. Qed.

Lemma reloc_pc32_succeeds {W} `{Kernel W} d tgt sym (p : Proc W) :
  rel_type d = R_X86_64_PLT32 \/ rel_type d = R_X86_64_PC32 ->
  CHECK_SIGNED_BITS (s64 (u64 (sym + addend d) - patch_addr d)) 32 = true ->
  exists p', rtld_reloc_at X86_64 d tgt sym p = (0, p').
Proof.
  intros Ht Hc. unfold rtld_reloc_at, reloc_x86_64, reloc_signed, rtld_elf_signed_range.
  destruct Ht as [-> | ->]; rewrite Hc; eexists; reflexivity.
Qed.

(** [rtld_patch] makes a call site jump directly: when the distance fits,
    the pc-relative field at the patch address denotes the new code afterwards,
    and apart from these four bytes no memory below the stack changes. *)
Theorem rtld_patch_direct {W} `{Kernel W} pd sym (p : Proc W) :
  let d := load_patch (mem p) pd in
  mem_ok (mem p) -> pd <> 0 -> rel_size d = 8 -> patch_addr d + 8 <= sp p ->
  rel_type d = R_X86_64_PLT32 \/ rel_type d = R_X86_64_PC32 ->
  CHECK_SIGNED_BITS (s64 (u64 (sym + addend d) - patch_addr d)) 32 = true ->
  let p' := (rtld_patch X86_64 pd sym p).2 in
  x86_target (rel_type d) (patch_addr d) (mem p') (patch_addr d) = u64 (sym + addend d) /\
  (forall x, x < sp p -> x < patch_addr d \/ patch_addr d + 4 <= x ->
     getb (mem p') x = getb (mem p) x).
Proof.
  intros d Hm Hpd Hsz Hlow Ht Hc p'. subst p'. unfold rtld_patch.
  rewrite (proj2 (Z.eqb_neq pd 0) Hpd). rewrite (bind_unfold _ _ _ d p) by reflexivity.
  rewrite Hsz. change (8 <? 8) with false. cbv iota. unfold with_local.
  set (pa := patch_addr d) in *. set (a := sp p) in *.
  rewrite (bind_unfold _ _ _ a p), (bind_unfold _ _ _ tt (set_sp (a + 8) p)) by reflexivity.
  set (m1 := store_bytes (mem p) a (load_bytes (mem p) pa 8)).
  set (p1 := set_mem m1 (set_sp (a + 8) p)).
  assert (memcpy a pa 8 (set_sp (a + 8) p) = (a, p1)) as E1.
  { unfold memcpy, modify, mbind, ST_bind, mret, ST_ret. rewrite memcpy_loop_block by lia. reflexivity. }
  assert (mem_ok m1) as Hm1 by (apply mem_ok_store; [done | by apply load_bytes_ok]).
  destruct (reloc_pc32_succeeds d a sym p1 Ht Hc) as [p2 E2].
  destruct (reloc_x86_sound d a sym p1 p2 Hm1 E2) as (Htgt & Hframe & Hp2).
  assert (x86_width (rel_type d) = 4%nat) as Hw by (by destruct Ht as [-> | ->]).
  rewrite Hw in Hframe.
  pose proof (mem_write_code_block pa a 8 p2 ltac:(lia) ltac:(lia)) as E3.
  change (Z.to_nat 8) with 8%nat in E3. set (m3 := store_bytes (mem p2) pa _) in E3.
  match goal with |- context [(?c ≫= ?k) (set_sp (a + 8) p)] =>
    rewrite (bind_unfold c k (set_sp (a + 8) p) tt (set_mem m3 p2)) end;
    [|rewrite (bind_unfold _ _ _ _ _ E1), (bind_unfold _ _ _ _ _ E2), (bind_unfold _ _ _ _ _ E3); reflexivity].
  match goal with |- context [mem (snd ?q)] => change (mem (snd q)) with m3 end. split.
  - rewrite <- Htgt. assert (load_bytes m3 pa 8 = load_bytes (mem p2) a 8) as Hb
      by (apply load_store_same', length_load_bytes).
    fold pa. apply x86_target_ext; [pose proof (loadZ_bytes_eq _ _ _ _ _ 4 0 Hb) as E |
      pose proof (loadZ_bytes_eq _ _ _ _ _ 8 0 Hb) as E]; rewrite !Z.add_0_r in E; apply E; lia.
  - intros x Hx Hout. assert (forall y, y < a -> getb (mem p2) y = getb (mem p) y) as Hbelow.
    { intros y Hy. rewrite Hframe by lia. apply getb_store_out. lia. }
    unfold m3. rewrite getb_store_bytes, length_load_bytes. case_decide as Hin; [|by apply Hbelow].
    rewrite load_bytes_lookup by lia. simpl. rewrite Hframe by lia.
    change (mem p1) with m1. unfold m1. rewrite getb_store_in by (rewrite length_load_bytes; lia).
    rewrite load_bytes_lookup by lia. simpl. f_equal. lia.
Qed.

Lemma rtld_patch_direct_witness :
  let d := mkPatch 0x401000 R_X86_64_PLT32 8 (-4) 0x1001 in
  let m := store_patch (store_bytes ∅ 0x1000 [0xe8; 0; 0; 0; 0]) 0x3000 d in
  let p := mkProc m (mkPipes ∅ ∅ 0 0) (mkArena 0 0 0 0) (mkArena 0 0 0 0) 4096 0x8000 in
  x86_target R_X86_64_PLT32 0x1001 (mem (rtld_patch X86_64 0x3000 0x2000 p).2) 0x1001 = 0x1ffc.
Proof.
  intros d m p.
  pose proof (rtld_patch_direct 0x3000 0x2000 p) as T.
  replace (load_patch (mem p) 0x3000) with d in T by (vm_compute; reflexivity).
  destruct T as [T _];
    [| lia | reflexivity | cbn [patch_addr d sp p]; lia | left; reflexivity | vm_compute; reflexivity |
     exact T].
  change (mem p) with m. unfold m. repeat apply mem_ok_storeZ. repeat apply map_Forall_insert_2; try (unfold in_u; lia).
  apply map_Forall_empty.
Defined.
