(* ===== verification/RtldElf.v ===== *)
(** * Loading translated objects, [client/rtld.c]

    The translator sends relocatable ELF objects.  [rtld_add_object] lays the
    sections out in the code arena, resolves symbols and relocations, copies
    the code into place and enters the functions into the code cache index.
    The object stays in memory as bytes; headers are read and written at their
    offsets. *)

From Stdlib Require Import ZArith Lia String.
From stdpp Require Import base numbers list list_numbers option gmap.
From S2P Require Import Prelude Machine Loopback Minilibc Memory Printf RtldTable RtldReloc.

(** ** ELF structures *)

Definition SIZEOF_EHDR : Z := 64.
Definition e_type (m : memory) (h : Z) : Z := loadZ m 2 (h + 16).
Definition e_machine (m : memory) (h : Z) : Z := loadZ m 2 (h + 18).
Definition e_shoff (m : memory) (h : Z) : Z := loadZ m 8 (h + 40).
Definition e_shentsize (m : memory) (h : Z) : Z := loadZ m 2 (h + 58).
Definition e_shnum (m : memory) (h : Z) : Z := loadZ m 2 (h + 60).

Definition SIZEOF_SHDR : Z := 64.
Definition sh_type (m : memory) (s : Z) : Z := loadZ m 4 (s + 4).
Definition sh_flags (m : memory) (s : Z) : Z := loadZ m 8 (s + 8).
Definition sh_addr (m : memory) (s : Z) : Z := loadZ m 8 (s + 16).
Definition set_sh_addr (m : memory) (s v : Z) : memory := storeZ m 8 (s + 16) v.
Definition sh_offset (m : memory) (s : Z) : Z := loadZ m 8 (s + 24).
Definition sh_size (m : memory) (s : Z) : Z := loadZ m 8 (s + 32).
Definition sh_link (m : memory) (s : Z) : Z := loadZ m 4 (s + 40).
Definition sh_info (m : memory) (s : Z) : Z := loadZ m 4 (s + 44).
Definition sh_addralign (m : memory) (s : Z) : Z := loadZ m 8 (s + 48).
Definition sh_entsize (m : memory) (s : Z) : Z := loadZ m 8 (s + 56).

Definition SIZEOF_SYM : Z := 24.
Definition st_name (m : memory) (s : Z) : Z := loadZ m 4 s.
Definition st_info (m : memory) (s : Z) : Z := loadZ m 1 (s + 4).
Definition st_other (m : memory) (s : Z) : Z := loadZ m 1 (s + 5).
Definition st_shndx (m : memory) (s : Z) : Z := loadZ m 2 (s + 6).
Definition st_value (m : memory) (s : Z) : Z := loadZ m 8 (s + 8).
Definition st_size (m : memory) (s : Z) : Z := loadZ m 8 (s + 16).

Definition SIZEOF_RELA : Z := 24.
Definition r_offset (m : memory) (r : Z) : Z := loadZ m 8 r.
Definition r_info (m : memory) (r : Z) : Z := loadZ m 8 (r + 8).
Definition r_addend (m : memory) (r : Z) : Z := s64 (loadZ m 8 (r + 16)).

Definition ET_REL : Z := 1.
Definition ELFCLASS64 : Z := 2.
Definition EM_CURRENT (arch : Arch) : Z := match arch with X86_64 => 62 | AARCH64 => 183 end.
Definition SHN_UNDEF : Z := 0.
Definition SHN_ABS : Z := 0xfff1.
Definition SHT_PROGBITS : Z := 1.
Definition SHT_SYMTAB : Z := 2.
Definition SHT_STRTAB : Z := 3.
Definition SHT_RELA : Z := 4.
Definition SHF_ALLOC : Z := 0x2.
Definition SHF_EXECINSTR : Z := 0x4.
Definition SHF_MERGE : Z := 0x10.
Definition SHF_STRINGS : Z := 0x20.
Definition SHF_INFO_LINK : Z := 0x40.
Definition STB_GLOBAL : Z := 1.
Definition STT_FUNC : Z := 2.
Definition STV_DEFAULT : Z := 0.
Definition ELF64_R_SYM (i : Z) : Z := Z.shiftr i 32.
Definition ELF64_R_TYPE (i : Z) : Z := u32 i.
Definition ELF64_ST_BIND (i : Z) : Z := Z.shiftr i 4.
Definition ELF64_ST_TYPE (i : Z) : Z := Z.land i 0xf.
Definition ELF64_ST_VISIBILITY (o : Z) : Z := Z.land o 3.

(** ** State *)

(** [struct Rtld]; the array behind [objects] is kept as a typed table. *)
Record Rtld := mkRtld {
  perfmap_fd : Z; perfdump_fd : Z; disp_info : DispatcherInfo;
  objects_addr : Z; objects : table; plt : Z }.

Definition set_objects (t : table) (r : Rtld) : Rtld :=
  mkRtld (perfmap_fd r) (perfdump_fd r) (disp_info r) (objects_addr r) t (plt r).

(** [struct RtldElf]; the ELF header is at [re_base]. *)
Record RtldElf := mkRe { re_base : Z; re_size : Z; skew : Z; re_shdr : Z }.

(** The section header with index [i]. *)
Definition shdr (re : RtldElf) (i : Z) : Z := re_shdr re + SIZEOF_SHDR * i.

(** ** Names *)

(** Octal digits up to the end of the name or an underscore; [None] when the
    loop returns early on another character. *)
Fixpoint decode_digits (fuel : nat) (name : cptr) (k addr : Z) : option Z :=
  match fuel with
  | O => Some addr
  | S fuel' =>
      if negb (name k =? 0) && negb (name k =? chr "_") then
        if (swrap 8 (name k) <? chr "0") || (chr "8" <=? swrap 8 (name k)) then None
        else decode_digits fuel' name (k + 1) (Z.lor (u64 (Z.shiftl addr 3)) (name k - chr "0"))
      else Some addr
  end.

(** The result code and what is stored to [*out_addr], if anything. *)
Definition rtld_elf_decode_name (fuel : nat) (skew : Z) (name : cptr) : Z * option Z :=
  if negb (name 0 =? chr "Z") && negb (name 0 =? chr "S") then (- EINVAL, None)
  else
    match decode_digits fuel name 1 0 with
    | None => (0, None)
    | Some addr => (0, Some (if name 0 =? chr "S" then u64 (addr + skew) else addr))
    end.

(** A string in memory is no longer than the memory has cells. *)
Definition src_fuel (m : memory) (s : source) : nat :=
  match s with InMem _ => S (base.size m) | Local bs => S (length bs) end.

Section RtldElf.
Context {W : Type} `{Kernel W}.
Context (arch : Arch) (link : string -> Z).

Definition rtld_elf_init (obj_base obj_size skew : Z) : ST (Proc W) (Z * RtldElf) :=
  m ← gets mem;
  let h := obj_base in
  let re := mkRe obj_base obj_size skew (u64 (obj_base + e_shoff m h)) in
  if obj_size <? SIZEOF_EHDR then mret (- EINVAL, re)
  else if negb (memcmp (mptr m h) (lit [0x7f; 69; 76; 70]) 4 =? 0) then mret (- EINVAL, re)
  else if negb (e_type m h =? ET_REL) then mret (- EINVAL, re)
  else if negb (getb m (h + 4) =? ELFCLASS64) then mret (- EINVAL, re)
  else if negb (e_machine m h =? EM_CURRENT arch) then mret (- EINVAL, re)
  else if negb (e_shentsize m h =? SIZEOF_SHDR) then mret (- EINVAL, re)
  else if obj_size <? u64 (e_shoff m h + e_shentsize m h * e_shnum m h) then mret (- EINVAL, re)
  else mret (0, re).

(** The string's address, if the index is valid. *)
Definition rtld_elf_resolve_str (m : memory) (re : RtldElf) (strtab_idx str_idx : Z) : Z * option Z :=
  if (strtab_idx =? 0) || (e_shnum m (re_base re) <=? strtab_idx) then (- EINVAL, None)
  else
    let str_shdr := shdr re strtab_idx in
    if negb (sh_type m str_shdr =? SHT_STRTAB) then (- EINVAL, None)
    else if sh_size m str_shdr <=? str_idx then (- EINVAL, None)
    else (0, Some (u64 (re_base re + sh_offset m str_shdr + str_idx))).

(** [for (size_t i = 0; plt_entries[i].name; i++)]. *)
Fixpoint plt_search (m : memory) (entries : list (list Z * Z)) (name : source) (i : Z) : option Z :=
  match entries with
  | [] => None
  | (n, _) :: entries' =>
      if strcmp (S (length n)) (source_ptr m name) (lit n) =? 0 then Some i
      else plt_search m entries' name (i + 1)
  end.

(** The result code, the value stored to [*out_addr] (0 if none) and the patch
    data, whose symbol address a new stub sets. *)
Definition rtld_elf_resolve_sym (r : Rtld) (re : RtldElf) (symtab_idx sym_idx : Z)
    (patch_data : RtldPatchData) : ST (Proc W) (Z * Z * RtldPatchData) :=
  m ← gets mem;
  let bad : ST (Proc W) _ := mret (- EINVAL, 0, patch_data) in
  if (symtab_idx =? 0) || (e_shnum m (re_base re) <=? symtab_idx) then bad
  else
    let sym_shdr := shdr re symtab_idx in
    if negb (sh_type m sym_shdr =? SHT_SYMTAB) then bad
    else if negb (sh_entsize m sym_shdr =? SIZEOF_SYM) then bad
    else if (sym_idx =? 0) || (sh_size m sym_shdr / SIZEOF_SYM <=? sym_idx) then bad
    else
      let sym := re_base re + sh_offset m sym_shdr + SIZEOF_SYM * sym_idx in
      if st_shndx m sym =? SHN_UNDEF then
        let name := match (rtld_elf_resolve_str m re (sh_link m sym_shdr) (st_name m sym)).2 with
                    | Some a => InMem a
                    | None => Local (bytes_of_string "<unknown>")
                    end in
        if strncmp (source_ptr m name) (lit (bytes_of_string "glob_")) 5 =? 0 then
          dprintf 2 (line "undefined symbol reference to %s") [VStr name];; bad
        else if strcmp 17 (source_ptr m name) (lit (bytes_of_string "instrew_baseaddr")) =? 0 then
          mret (0, skew re, patch_data)
        else
          match rtld_elf_decode_name (src_fuel m name) (skew re) (source_ptr m name) with
          | (0, out) =>
              let addr := default 0 out in
              match rtld_resolve (objects r) addr with
              | (_, Some entry) => mret (0, entry, patch_data)
              | (_, None) =>
                  let patch_data := mkPatch addr (rel_type patch_data) (rel_size patch_data)
                                      (addend patch_data) (patch_addr patch_data) in
                  '(ret, stub) ← rtld_patch_create_stub arch (plt r) (patch_data_reg (disp_info r)) patch_data;
                  mret (ret, stub, patch_data)
              end
          | _ =>
              match plt_search m (plt_entries arch link) name 0 with
              | Some i => mret (0, u64 (plt r + i * PLT_FUNC_SIZE), patch_data)
              | None => dprintf 2 (line "undefined symbol reference to %s") [VStr name];; bad
              end
          end
      else if st_shndx m sym =? SHN_ABS then mret (0, st_value m sym, patch_data)
      else if st_shndx m sym <? e_shnum m (re_base re) then
        let tgt_shdr := shdr re (st_shndx m sym) in
        mret (0, u64 (sh_addr m tgt_shdr + st_value m sym), patch_data)
      else bad.

(** ** Relocation sections *)

Fixpoint rela_loop (n : nat) (r : Rtld) (re : RtldElf) (elf_rela tgt_shdr symtab_idx sec_write_addr : Z)
    : ST (Proc W) Z :=
  match n with
  | O => mret 0
  | S n' =>
      m ← gets mem;
      if sh_size m tgt_shdr <=? r_offset m elf_rela then mret (- EINVAL)
      else
        let off := r_offset m elf_rela in
        let reloc_patch := mkPatch 0 (ELF64_R_TYPE (r_info m elf_rela)) 8 (r_addend m elf_rela)
                             (u64 (sh_addr m tgt_shdr + off)) in
        '(ret, sym, reloc_patch) ←
          rtld_elf_resolve_sym r re symtab_idx (ELF64_R_SYM (r_info m elf_rela)) reloc_patch;
        if ret <? 0 then mret (- EINVAL)
        else
          m' ← gets mem;
          let tgt := u64 (sec_write_addr + r_offset m' elf_rela) in
          retval ← rtld_reloc_at arch reloc_patch tgt sym;
          if retval <? 0 then mret retval
          else rela_loop n' r re (elf_rela + SIZEOF_RELA) tgt_shdr symtab_idx sec_write_addr
  end.

Definition rtld_elf_process_rela (r : Rtld) (re : RtldElf) (rela_idx : Z) : ST (Proc W) Z :=
  m ← gets mem;
  if (rela_idx =? 0) || (e_shnum m (re_base re) <=? rela_idx) then mret (- EINVAL)
  else
    let rela_shdr := shdr re rela_idx in
    if negb (sh_type m rela_shdr =? SHT_RELA) then mret (- EINVAL)
    else if negb (sh_entsize m rela_shdr =? SIZEOF_RELA) then mret (- EINVAL)
    else
      let elf_rela := u64 (re_base re + sh_offset m rela_shdr) in
      let count := sh_size m rela_shdr / SIZEOF_RELA in
      if (sh_info m rela_shdr =? 0) || (e_shnum m (re_base re) <=? sh_info m rela_shdr)
      then mret (- EINVAL)
      else
        let tgt_shdr := shdr re (sh_info m rela_shdr) in
        if Z.land (sh_flags m tgt_shdr) SHF_ALLOC =? 0 then mret (- EINVAL)
        else
          rela_loop (Z.to_nat count) r re elf_rela tgt_shdr (sh_link m rela_shdr)
            (u64 (re_base re + sh_offset m tgt_shdr)).

(** ** Perf support *)

Definition CLOCK_MONOTONIC : Z := 1.
Definition rtld_perf_timestamp : ST (Proc W) Z :=
  with_local 16 (fun ts =>
    ret ← clock_gettime CLOCK_MONOTONIC ts;
    m ← gets mem;
    mret (if ret =? 0 then u64 (loadZ m 8 ts * 1000000000 + loadZ m 8 (ts + 8)) else 0)).

Definition le4 (v : Z) : list Z := Z_to_little_endian 4 8 v.
Definition le8 (v : Z) : list Z := Z_to_little_endian 8 8 v.

Definition rtld_perf_notify (r : Rtld) (addr entry codesize : Z) (name : source) : ST (Proc W) unit :=
  (if 0 <=? perfmap_fd r then
     dprintf (perfmap_fd r) (line "%lx %lx %lx_%s") [VInt entry; VInt codesize; VInt addr; VStr name];;
     mret tt
   else mret tt);;
  if 0 <=? perfdump_fd r then
    with_local 64 (fun namebuf =>
      n ← snprintf namebuf 64 (bytes_of_string "%lx_%s") [VInt addr; VStr name];
      let namelen := if 64 <=? u64 n then 63 else u64 n in
      timestamp ← rtld_perf_timestamp;
      pid ← getpid;
      tid ← gettid;
      let record := le4 0 ++ le4 (u32 (56 + namelen + 1 + codesize)) ++ le8 timestamp ++
                    le4 (u32 pid) ++ le4 (u32 tid) ++ le8 entry ++ le8 entry ++ le8 codesize ++ le8 addr in
      write_full_local (perfdump_fd r) record;;
      write_full (perfdump_fd r) namebuf (namelen + 1);;
      write_full (perfdump_fd r) entry codesize;;
      mret tt)
  else mret tt.

Definition O_WRONLY : Z := 0x1.
Definition O_RDWR : Z := 0x2.
Definition O_CREAT : Z := 0x40.
Definition O_TRUNC : Z := 0x200.
Definition O_NOFOLLOW : Z := 0x20000.
Definition O_CLOEXEC : Z := 0x80000.

Definition set_perfmap (fd : Z) (r : Rtld) : Rtld :=
  mkRtld fd (perfdump_fd r) (disp_info r) (objects_addr r) (objects r) (plt r).
Definition set_perfdump (fd : Z) (r : Rtld) : Rtld :=
  mkRtld (perfmap_fd r) fd (disp_info r) (objects_addr r) (objects r) (plt r).

Definition open_flags (acc : Z) : Z :=
  Z.lor (Z.lor (Z.lor (Z.lor O_CREAT O_TRUNC) O_NOFOLLOW) acc) O_CLOEXEC.

Definition rtld_perf_init (r : Rtld) (mode : Z) : ST (Proc W) (Z * Rtld) :=
  if mode <? 1 then mret (0, r)
  else
    pid ← getpid;
    with_local 32 (fun name =>
      snprintf name 32 (bytes_of_string "/tmp/perf-%u.map") [VInt pid];;
      map_fd ← open name (open_flags O_WRONLY) 0x180;
      if map_fd <? 0 then mret (map_fd, r)
      else
        let r := set_perfmap map_fd r in
        if mode <? 2 then mret (0, r)
        else
          snprintf name 32 (bytes_of_string "/tmp/jit-%u.dump") [VInt pid];;
          dump_fd ← open name (open_flags O_RDWR) 0x180;
          if dump_fd <? 0 then mret (dump_fd, r)
          else
            pid2 ← getpid;
            timestamp ← rtld_perf_timestamp;
            let header := le4 0x4A695444 ++ le4 1 ++ le4 40 ++ le4 (EM_CURRENT arch) ++ le4 0 ++
                          le4 (u32 pid2) ++ le8 timestamp ++ le8 0 in
            w ← write_full_local dump_fd header;
            if w <? 0 then close dump_fd;; mret (- EIO, r)
            else
              ps ← getpagesize;
              marker ← mmap 0 ps (Z.lor PROT_READ PROT_EXEC) MAP_PRIVATE dump_fd 0;
              if BAD_ADDR marker then close dump_fd;; mret (- EIO, r)
              else mret (0, set_perfdump dump_fd r)).

(** ** Adding an object *)

Definition SECTIONS : nat := Z.to_nat 65536.

Definition SUPPORTED_FLAGS : Z :=
  Z.lor (Z.lor (Z.lor (Z.lor SHF_ALLOC SHF_EXECINSTR) SHF_MERGE) SHF_STRINGS) SHF_INFO_LINK.

(** First pass: the offset of each allocated section, the total size and the
    alignment; the result code. *)
Fixpoint layout_pass (fuel : nat) (re : RtldElf) (i totsz totalign : Z) : ST (Proc W) (Z * Z * Z) :=
  match fuel with
  | O => mret (0, totsz, totalign)
  | S fuel' =>
      m ← gets mem;
      if i <? e_shnum m (re_base re) then
        let s := shdr re i in
        if negb (Z.land (sh_flags m s) (u64 (Z.lnot SUPPORTED_FLAGS)) =? 0) then
          dprintf 2 (line "unsupported section flags") [];;
          mret (- EINVAL, totsz, totalign)
        else if negb (Z.land (sh_flags m s) SHF_ALLOC =? 0) then
          let totsz := ALIGN_UP totsz (sh_addralign m s) in
          modify (set_mem (set_sh_addr m s totsz));;
          let align := sh_addralign m s in
          layout_pass fuel' re (i + 1) (u64 (totsz + sh_size m s))
            (if totalign <? align then align else totalign)
        else layout_pass fuel' re (i + 1) totsz totalign
      else mret (0, totsz, totalign)
  end.

(** [elf_shnt->sh_addr += (uintptr_t) base]. *)
Fixpoint base_pass (fuel : nat) (re : RtldElf) (i base : Z) : ST (Proc W) unit :=
  match fuel with
  | O => mret tt
  | S fuel' =>
      m ← gets mem;
      if i <? e_shnum m (re_base re) then
        let s := shdr re i in
        (if negb (Z.land (sh_flags m s) SHF_ALLOC =? 0)
         then modify (set_mem (set_sh_addr m s (u64 (sh_addr m s + base))))
         else mret tt);;
        base_pass fuel' re (i + 1) base
      else mret tt
  end.

Fixpoint rela_pass (fuel : nat) (r : Rtld) (re : RtldElf) (i : Z) : ST (Proc W) Z :=
  match fuel with
  | O => mret 0
  | S fuel' =>
      m ← gets mem;
      if i <? e_shnum m (re_base re) then
        if negb (sh_type m (shdr re i) =? SHT_RELA) then rela_pass fuel' r re (i + 1)
        else
          retval ← rtld_elf_process_rela r re i;
          if retval <? 0 then mret retval else rela_pass fuel' r re (i + 1)
      else mret 0
  end.

Fixpoint copy_pass (fuel : nat) (re : RtldElf) (i : Z) : ST (Proc W) Z :=
  match fuel with
  | O => mret 0
  | S fuel' =>
      m ← gets mem;
      if i <? e_shnum m (re_base re) then
        let s := shdr re i in
        if negb (sh_type m s =? SHT_PROGBITS) then copy_pass fuel' re (i + 1)
        else
          retval ← mem_write_code (sh_addr m s) (u64 (re_base re + sh_offset m s)) (sh_size m s);
          if retval <? 0 then mret retval else copy_pass fuel' re (i + 1)
      else mret 0
  end.

(** The symbols of one table: the result code, the index, and whether the
    function returns from here ([goto out]). *)
Fixpoint syms_loop (n : nat) (r : Rtld) (re : RtldElf) (elf_shnt elf_sym : Z)
    : ST (Proc W) (Z * Rtld * bool) :=
  match n with
  | O => mret (0, r, false)
  | S n' =>
      m ← gets mem;
      let next := elf_sym + SIZEOF_SYM in
      if negb (ELF64_ST_BIND (st_info m elf_sym) =? STB_GLOBAL) then syms_loop n' r re elf_shnt next
      else if negb (ELF64_ST_TYPE (st_info m elf_sym) =? STT_FUNC) then syms_loop n' r re elf_shnt next
      else if negb (ELF64_ST_VISIBILITY (st_other m elf_sym) =? STV_DEFAULT)
      then syms_loop n' r re elf_shnt next
      else if st_shndx m elf_sym =? SHN_UNDEF then syms_loop n' r re elf_shnt next
      else if e_shnum m (re_base re) <=? st_shndx m elf_sym then mret (- EINVAL, r, true)
      else
        let entry := u64 (sh_addr m (shdr re (st_shndx m elf_sym)) + st_value m elf_sym) in
        match (rtld_elf_resolve_str m re (sh_link m elf_shnt) (st_name m elf_sym)).2 with
        | None => mret (- EINVAL, r, true)
        | Some name =>
            let '(retval, out) :=
              rtld_elf_decode_name (S (base.size m)) (skew re) (mptr m name) in
            let addr := default 0 out in
            if (retval <? 0) || (addr =? 0) then
              dprintf 2 (line "invalid function name %s") [VStr (InMem name)];;
              mret (retval, r, true)
            else
              let '(retval, t) := rtld_set (objects r) addr entry (re_base re) (re_size re) in
              if retval <? 0 then mret (retval, r, true)
              else
                let r := set_objects t r in
                rtld_perf_notify r addr entry (st_size m elf_sym) (InMem name);;
                syms_loop n' r re elf_shnt next
        end
  end.

Fixpoint symtab_pass (fuel : nat) (r : Rtld) (re : RtldElf) (i : Z) : ST (Proc W) (Z * Rtld) :=
  match fuel with
  | O => mret (0, r)
  | S fuel' =>
      m ← gets mem;
      if i <? e_shnum m (re_base re) then
        let s := shdr re i in
        if negb (sh_type m s =? SHT_SYMTAB) then symtab_pass fuel' r re (i + 1)
        else if negb (sh_entsize m s =? SIZEOF_SYM) then mret (- EINVAL, r)
        else
          '(retval, r, out) ← syms_loop (Z.to_nat (sh_size m s / SIZEOF_SYM)) r re s
                                (u64 (re_base re + sh_offset m s));
          if (out : bool) then mret (retval, r) else symtab_pass fuel' r re (i + 1)
      else mret (0, r)
  end.

Definition rtld_add_object (r : Rtld) (obj_base obj_size skew : Z) : ST (Proc W) (Z * Rtld) :=
  '(retval, re) ← rtld_elf_init obj_base obj_size skew;
  if retval <? 0 then mret (retval, r)
  else
    '(ret, totsz, totalign) ← layout_pass SECTIONS re 0 0 1;
    if ret <? 0 then mret (ret, r)
    else
      base ← mem_alloc_code totsz totalign;
      if BAD_ADDR base then mret (s32 base, r)
      else
        base_pass SECTIONS re 0 base;;
        retval ← rela_pass SECTIONS r re 0;
        if retval <? 0 then mret (retval, r)
        else
          retval ← copy_pass SECTIONS re 0;
          if retval <? 0 then mret (retval, r)
          else symtab_pass SECTIONS r re 0.

(** [rtld_init]; the table of fresh pages is all zero. *)
Definition rtld_init (r : Rtld) (disp : DispatcherInfo) : ST (Proc W) (Z * Rtld) :=
  ps ← getpagesize;
  objects ← mem_alloc_data (32 * Z.shiftl 1 RTLD_HASH_BITS) ps;
  if BAD_ADDR objects then mret (s32 objects, r)
  else
    let r := mkRtld (-1) (-1) disp objects ∅ (plt r) in
    '(retval, pltaddr) ← plt_create arch link disp;
    if retval <? 0 then mret (retval, r)
    else mret (0, mkRtld (-1) (-1) disp objects ∅ pltaddr).

End RtldElf.
