(* ===== verification/RtldElfProofs.v ===== *)
(** * Loading translated objects: theorems

    Names decode to the addresses they encode, sections are placed without
    overlap, and the functions of an object are entered into the code cache
    index. *)

From Stdlib Require Import ZArith Lia String.
From stdpp Require Import base numbers list list_numbers option gmap.
From S2P Require Import Prelude Machine Loopback Minilibc Memory Printf RtldTable RtldReloc RtldElf.

(** ** Symbol names *)

(** The name the server gives the function at guest address [a]. *)
Definition octal (a : Z) : list Z := (fun d => chr "0" + d) <$> numeral 8 a.
Definition encode_name (prefix a : Z) (rest : list Z) : list Z := prefix :: octal a ++ rest.

(** What may follow the digits: nothing, or an underscore and a comment. *)
Definition name_tail (rest : list Z) : Prop := rest = [] \/ exists r, rest = chr "_" :: r.

Lemma lit_middle pre c rest : lit (pre ++ c :: rest) (Z.of_nat (length pre)) = c.
Proof. unfold lit. by rewrite Nat2Z.id, list_lookup_middle. Qed.

Lemma digit_char d : 0 <= d < 8 -> swrap 8 (chr "0" + d) = chr "0" + d.
Proof. intros Hd. change (chr "0") with 48. apply swrap_small; unfold in_s; lia. Qed.

Lemma foldl_digits_ge b ds acc :
  1 <= b -> 0 <= acc -> Forall (fun d => 0 <= d) ds -> acc <= foldl (fun a d => a * b + d) acc ds.
Proof.
  intros Hb. revert acc; induction ds as [|d ds IH]; intros acc Ha Hd; simpl; [lia|].
  inversion Hd; subst. assert (acc <= acc * b + d) by nia. etrans; [|apply IH]; [lia | nia | done].
Qed.

Lemma decode_digits_run fuel ds pre rest acc :
  Forall (fun d => 0 <= d < 8) ds -> (length ds < fuel)%nat ->
  0 <= acc -> foldl (fun a d => a * 8 + d) acc ds < 2 ^ 64 ->
  decode_digits fuel (lit (pre ++ ((fun d => chr "0" + d) <$> ds) ++ rest)) (Z.of_nat (length pre)) acc =
  decode_digits (fuel - length ds) (lit (pre ++ ((fun d => chr "0" + d) <$> ds) ++ rest))
    (Z.of_nat (length pre + length ds)) (foldl (fun a d => a * 8 + d) acc ds).
Proof.
  revert fuel pre acc; induction ds as [|d ds IH]; intros fuel pre acc Hd Hf Ha Hlt.
  { simpl. by rewrite Nat.sub_0_r, Nat.add_0_r. }
  inversion Hd as [|? ? Hd0 Hds]; subst. destruct fuel as [|fuel]; [simpl in Hf; lia|].
  cbn [fmap list_fmap foldl length] in *.
  assert (acc * 8 + d < 2 ^ 64).
  { eapply Z.le_lt_trans; [apply (foldl_digits_ge 8 ds); [lia | lia |] | exact Hlt].
    eapply Forall_impl; [exact Hds|]. simpl. lia. }
  cbn [decode_digits app].
  assert (lit (pre ++ (chr "0" + d) :: ((fun d => chr "0" + d) <$> ds) ++ rest) (Z.of_nat (length pre))
    = chr "0" + d) as El by apply lit_middle.
  rewrite !El, digit_char by done.
  change (chr "0") with 48 in *. change (chr "_") with 95 in *. change (chr "8") with 56.
  rewrite (proj2 (Z.eqb_neq (48 + d) 0)), (proj2 (Z.eqb_neq (48 + d) 95)) by lia. cbn [negb andb].
  rewrite (proj2 (Z.ltb_ge (48 + d) 48)), (proj2 (Z.leb_gt 56 (48 + d))) by lia. cbn [orb].
  replace (48 + d - 48) with d by lia.
  replace (Z.lor (u64 (Z.shiftl acc 3)) d) with (acc * 8 + d).
  2: { rewrite Z.shiftl_mul_pow2 by lia. rewrite wrap_small by (unfold in_u; lia).
       rewrite <- Z.shiftl_mul_pow2, Z.lor_comm, lor_shiftl_add by lia. lia. }
  specialize (IH fuel (pre ++ [48 + d]) (acc * 8 + d) Hds ltac:(lia) ltac:(lia) Hlt).
  rewrite <- !app_assoc, length_app in IH. cbn [app length] in IH.
  replace (Z.of_nat (length pre) + 1) with (Z.of_nat (length pre + 1)) by lia.
  rewrite IH. replace (length pre + S (length ds))%nat with (length pre + 1 + length ds)%nat by lia. done.
Qed.

Lemma digits_bound fuel b v acc :
  1 < b -> 0 <= v -> Forall (fun d => 0 <= d < b) acc -> Forall (fun d => 0 <= d < b) (digits fuel b v acc).
Proof.
  intros Hb. revert v acc; induction fuel as [|fuel IH]; intros v acc Hv Ha; simpl; [done|].
  destruct (v =? 0); [done|]. apply IH; [apply Z.div_pos; lia|].
  constructor; [apply Z.mod_pos_bound; lia | done].
Qed.

Lemma numeral_bound b v : 1 < b -> 0 <= v -> Forall (fun d => 0 <= d < b) (numeral b v).
Proof.
  intros Hb Hv. unfold numeral. destruct (v =? 0).
  - constructor; [lia | constructor].
  - apply digits_bound; [done | done | constructor].
Qed.

(** The digits of an encoded name are read back. *)
Lemma decode_octal fuel prefix a rest :
  in_u 64 a -> (length (encode_name prefix a rest) <= fuel)%nat ->
  decode_digits fuel (lit (encode_name prefix a rest)) 1 0 =
  decode_digits (fuel - length (octal a)) (lit (encode_name prefix a rest))
    (Z.of_nat (S (length (octal a)))) a.
Proof.
  intros Ha Hf. unfold in_u in Ha. unfold encode_name in *. cbn [length] in Hf.
  rewrite length_app in Hf.
  pose proof (numeral_value 8 a ltac:(lia) ltac:(lia)) as Hv.
  pose proof (decode_digits_run fuel (numeral 8 a) [prefix] rest 0) as H. rewrite Hv in H.
  unfold octal in *. rewrite length_fmap in *. apply H; [|lia|lia|lia].
  apply numeral_bound; lia.
Qed.

(** Decoding inverts the encoding of guest addresses in symbol names:
    [Z<octal>] and [Z<octal>_...] give the address, [S<octal>] the address plus
    the skew modulo [2^64]; any other first character is refused. *)
Theorem decode_name_roundtrip fuel skew a rest :
  in_u 64 a -> name_tail rest ->
  (length (encode_name 0 a rest) <= fuel)%nat ->
  rtld_elf_decode_name fuel skew (lit (encode_name (chr "Z") a rest)) = (0, Some a) /\
  rtld_elf_decode_name fuel skew (lit (encode_name (chr "S") a rest)) = (0, Some (u64 (a + skew))) /\
  (forall c, c <> chr "Z" -> c <> chr "S" ->
     rtld_elf_decode_name fuel skew (lit (encode_name c a rest)) = (- EINVAL, None)).
Proof.
  intros Ha Ht Hf.
  assert (forall prefix, decode_digits fuel (lit (encode_name prefix a rest)) 1 0 = Some a) as Hd.
  { intros prefix. rewrite decode_octal by (done || exact Hf).
    assert (exists k, (fuel - length (octal a))%nat = S k) as [k ->].
    { unfold encode_name in Hf. cbn [length] in Hf. rewrite length_app in Hf.
      exists (fuel - length (octal a) - 1)%nat. lia. }
    cbn [decode_digits].
    assert (let c := lit (encode_name prefix a rest) (Z.of_nat (S (length (octal a)))) in
      negb (c =? 0) && negb (c =? chr "_") = false) as ->; [|done].
    unfold encode_name. rewrite app_comm_cons. cbn zeta.
    change (S (length (octal a))) with (length (prefix :: octal a)).
    destruct Ht as [->|[r ->]].
    - rewrite app_nil_r, lit_end. done.
    - rewrite lit_middle, Z.eqb_refl. apply andb_false_r. }
  unfold rtld_elf_decode_name. rewrite !Hd. split; [done|]. split; [done|].
  intros c H1 H2. change (lit (encode_name c a rest) 0) with c.
  by rewrite (proj2 (Z.eqb_neq c (chr "Z"))), (proj2 (Z.eqb_neq c (chr "S"))) by done.
Qed.

Lemma decode_name_roundtrip_witness :
  rtld_elf_decode_name 100 0 (lit (bytes_of_string "Z20000012345_foo")) = (0, Some 0x800014e5) /\
  rtld_elf_decode_name 100 0x1000 (lit (bytes_of_string "S20000012345_foo")) = (0, Some 0x800024e5).
Proof.
  destruct (decode_name_roundtrip 100 0x1000 0x800014e5 (bytes_of_string "_foo")) as (_ & T2 & _);
    [unfold in_u; lia | right; by eexists | vm_compute; lia |].
  destruct (decode_name_roundtrip 100 0 0x800014e5 (bytes_of_string "_foo")) as (T1 & _);
    [unfold in_u; lia | right; by eexists | vm_compute; lia |].
  split; [exact T1 | exact T2].
Defined.

(** A name with a prefix but another character among the digits is not
    refused: the decoder returns 0 and stores no address, so the caller goes on
    with address 0. *)
Theorem decode_name_garbage fuel skew prefix a c rest :
  prefix = chr "Z" \/ prefix = chr "S" -> in_u 64 a ->
  c < chr "0" \/ chr "8" <= c -> 0 < c < 128 -> c <> chr "_" ->
  (length (encode_name prefix a (c :: rest)) <= fuel)%nat ->
  rtld_elf_decode_name fuel skew (lit (encode_name prefix a (c :: rest))) = (0, None).
Proof.
  intros Hp Ha Hc Hr Hu Hf. unfold rtld_elf_decode_name. rewrite decode_octal by done.
  assert (exists k, (fuel - length (octal a))%nat = S k) as [k ->].
  { unfold encode_name in Hf. cbn [length] in Hf. rewrite length_app in Hf.
    exists (fuel - length (octal a) - 1)%nat. cbn [length] in Hf. lia. }
  cbn [decode_digits].
  assert (lit (encode_name prefix a (c :: rest)) (Z.of_nat (S (length (octal a)))) = c) as ->.
  { unfold encode_name. rewrite app_comm_cons.
    change (S (length (octal a))) with (length (prefix :: octal a)). apply lit_middle. }
  rewrite (swrap_small 8 c) by (unfold in_s; lia).
  rewrite (proj2 (Z.eqb_neq c 0)), (proj2 (Z.eqb_neq c (chr "_"))) by (done || lia). cbn [negb andb].
  replace ((c <? chr "0") || (chr "8" <=? c)) with true
    by (destruct Hc; [rewrite (proj2 (Z.ltb_lt c _)) by lia; done |
        rewrite (proj2 (Z.leb_le _ c)), orb_true_r by lia; done]).
  change (lit (encode_name prefix a (c :: rest)) 0) with prefix. by destruct Hp as [-> | ->].
Qed.

Lemma decode_name_garbage_witness :
  rtld_elf_decode_name 100 0 (lit (bytes_of_string "Z129")) = (0, None).
Proof.
  apply (decode_name_garbage 100 0 (chr "Z") 10 (chr "9") []);
    [by left | unfold in_u; lia | right; vm_compute; discriminate | vm_compute; done |
     vm_compute; discriminate | vm_compute; lia].
Defined.

(** ** Section placement *)

(** The section headers follow the ELF header, which they do not overlap. *)
Definition headers_apart (re : RtldElf) (n : Z) : Prop :=
  re_base re + SIZEOF_EHDR <= re_shdr re \/ re_shdr re + SIZEOF_SHDR * n <= re_base re.

Definition is_alloc (m : memory) (re : RtldElf) (i : Z) : Prop :=
  Z.land (sh_flags m (shdr re i)) SHF_ALLOC <> 0.

(** Allocated sections have a power-of-two alignment and a 32-bit size. *)
Definition sections_ok (m : memory) (re : RtldElf) : Prop :=
  forall i, 0 <= i < e_shnum m (re_base re) -> is_alloc m re i ->
    is_pow2 (sh_addralign m (shdr re i)) /\ sh_addralign m (shdr re i) <= 2 ^ 32 /\
    0 <= sh_size m (shdr re i) <= 2 ^ 32.

(** Two memories that differ at most in the [sh_addr] fields. *)
Definition same_headers (m m' : memory) (re : RtldElf) : Prop :=
  e_shnum m' (re_base re) = e_shnum m (re_base re) /\
  forall j, 0 <= j -> sh_flags m' (shdr re j) = sh_flags m (shdr re j) /\
    sh_size m' (shdr re j) = sh_size m (shdr re j) /\
    sh_addralign m' (shdr re j) = sh_addralign m (shdr re j).

Lemma same_headers_trans m1 m2 m3 re :
  same_headers m1 m2 re -> same_headers m2 m3 re -> same_headers m1 m3 re.
Proof.
  intros [E1 F1] [E2 F2]. split; [congruence|]. intros j Hj.
  destruct (F1 j Hj) as (? & ? & ?), (F2 j Hj) as (? & ? & ?). split_and!; congruence.
Qed.

Lemma set_sh_addr_headers m re n i v :
  headers_apart re n -> 0 <= i < n -> same_headers m (set_sh_addr m (shdr re i) v) re.
Proof.
  intros Ha Hi. unfold headers_apart, SIZEOF_EHDR, SIZEOF_SHDR in Ha. split.
  - unfold e_shnum, set_sh_addr, shdr, SIZEOF_SHDR. apply loadZ_storeZ_disjoint. lia.
  - intros j Hj. unfold sh_flags, sh_size, sh_addralign, set_sh_addr, shdr, SIZEOF_SHDR.
    rewrite !loadZ_storeZ_disjoint by lia. done.
Qed.

Lemma sh_addr_set m re i j v :
  sh_addr (set_sh_addr m (shdr re i) v) (shdr re j) =
  if decide (i = j) then u64 v else sh_addr m (shdr re j).
Proof.
  unfold sh_addr, set_sh_addr, shdr, SIZEOF_SHDR. case_decide as E.
  - subst. by rewrite loadZ_storeZ.
  - apply loadZ_storeZ_disjoint. lia.
Qed.

Lemma pow2_le_divide a b : is_pow2 a -> is_pow2 b -> a <= b -> (a | b).
Proof.
  intros (k & Hk & ->) (l & Hl & ->) Hle.
  assert (k <= l) by (apply (Z.pow_le_mono_r_iff 2); lia).
  exists (2 ^ (l - k)). rewrite <- Z.pow_add_r by lia. f_equal. lia.
Qed.

(** The layout of the sections from [i] on, starting at offset [lo]. *)
Record laid_out (m : memory) (re : RtldElf) (i n lo tot al : Z) : Prop := {
  lay_at : forall j, i <= j < n -> is_alloc m re j ->
    lo <= sh_addr m (shdr re j) /\
    sh_addr m (shdr re j) `mod` sh_addralign m (shdr re j) = 0 /\
    sh_addr m (shdr re j) + sh_size m (shdr re j) <= tot /\ sh_addralign m (shdr re j) <= al;
  lay_order : forall j k, i <= j < k -> k < n -> is_alloc m re j -> is_alloc m re k ->
    sh_addr m (shdr re j) + sh_size m (shdr re j) <= sh_addr m (shdr re k);
}.

Section Layout.
Context {W : Type} `{Kernel W}.

Lemma layout_pass_spec fuel re n i totsz totalign (p p' : Proc W) tot al :
  n = e_shnum (mem p) (re_base re) -> 0 <= i <= n -> n - i <= Z.of_nat fuel -> n <= 2 ^ 16 ->
  headers_apart re n -> sections_ok (mem p) re ->
  0 <= totsz <= i * 2 ^ 33 -> is_pow2 totalign ->
  layout_pass fuel re i totsz totalign p = ((0, tot, al), p') ->
  laid_out (mem p') re i n totsz tot al /\ totsz <= tot <= n * 2 ^ 33 /\
  totalign <= al /\ is_pow2 al /\ (al <= totalign \/ al <= 2 ^ 32) /\ same_headers (mem p) (mem p') re /\
  (forall j, 0 <= j < i -> sh_addr (mem p') (shdr re j) = sh_addr (mem p) (shdr re j)) /\
  p' = set_mem (mem p') p.
Proof.
  revert i totsz totalign p. induction fuel as [|fuel IH];
    intros i totsz totalign p Hn Hi Hf Hmax Ha Hok Htot Hal Hrun.
  { injection Hrun as <- <- <-. split; [split; lia|].
    split_and!; try done; try lia; by destruct p. }
  cbn [layout_pass] in Hrun. rewrite (bind_unfold _ _ _ (mem p) p) in Hrun by done.
  rewrite <- Hn in Hrun. destruct (Z.ltb_spec i n) as [Hlt|Hge].
  2: { injection Hrun as <- <- <-. split; [split; lia|].
       split_and!; try done; try lia; by destruct p. }
  destruct (negb (Z.land _ (u64 _) =? 0)).
  { unfold mbind, ST_bind in Hrun. destruct (dprintf _ _ _ p). by injection Hrun. }
  destruct (Z.eqb_spec (Z.land (sh_flags (mem p) (shdr re i)) SHF_ALLOC) 0) as [Hz|Hnz]; cbn [negb] in Hrun.
  - apply IH in Hrun as ([L1 L2] & R1 & R2 & R3 & R4 & R5 & R6 & R7); try done; try lia.
    assert (forall j, is_alloc (mem p') re j -> 0 <= j -> j <> i) as Hne.
    { intros j Hj Hj0 ->. apply Hj. destruct R5 as [_ R5]. destruct (R5 i Hj0) as [-> _]. done. }
    split; [split|split_and!; try done; try lia].
    + intros j Hj Hja. specialize (Hne j Hja). apply L1; [lia | done].
    + intros j k Hj Hk Hja Hka. pose proof (Hne j Hja). apply L2; [lia | done..].
    + intros j Hj. apply R6. lia.
  - destruct (Hok i ltac:(lia) Hnz) as (Hp2 & Hal32 & Hsz).
    pose proof (pow2_pos _ Hp2) as Hpos.
    destruct (ALIGN_UP_spec totsz (sh_addralign (mem p) (shdr re i)) Hp2) as [Hup Hmod]; [lia | lia |].
    set (off := ALIGN_UP totsz (sh_addralign (mem p) (shdr re i))) in *.
    rewrite (wrap_small 64 (off + _)) in Hrun by (unfold in_u; lia).
    set (m1 := set_sh_addr (mem p) (shdr re i) off) in *.
    rewrite (bind_unfold _ _ _ tt (set_mem m1 p)) in Hrun by done.
    assert (same_headers (mem p) m1 re) as Hsame by (apply (set_sh_addr_headers _ _ n); [done | lia]).
    pose proof Hsame as [Hs1 Hs2].
    apply IH in Hrun as ([L1 L2] & R1 & R2 & R3 & R4 & R5 & R6 & R7); try done; try lia.
    2: { simpl. by rewrite Hs1. }
    2: { intros j Hj Hja. simpl in *. rewrite Hs1 in Hj. unfold is_alloc in Hja.
         destruct (Hs2 j ltac:(lia)) as (Ef & Es & Eal). rewrite Ef in Hja. rewrite Es, Eal. by apply Hok. }
    2: { destruct (_ <? _); done. }
    cbn [mem set_mem] in R5, R6.
    assert (sh_addr (mem p') (shdr re i) = off) as Eoff.
    { rewrite R6 by lia. unfold m1. rewrite sh_addr_set, decide_True by done.
      apply wrap_small. unfold in_u. lia. }
    destruct (same_headers_trans _ _ _ _ Hsame R5) as [Hs1' Hs2'].
    destruct (Hs2' i ltac:(lia)) as (_ & Esz & Eali).
    assert (sh_addralign (mem p) (shdr re i) <= al) as Hale
      by (destruct (Z.ltb_spec totalign (sh_addralign (mem p) (shdr re i))); lia).
    split; [split|split_and!; try done; try lia].
    + intros j Hj Hja. destruct (decide (j = i)) as [->|].
      * rewrite Eoff, Esz, Eali. split_and!; try done; try lia.
      * destruct (L1 j) as (? & ? & ? & ?); [lia | done |]. split_and!; done || lia.
    + intros j k Hj Hk Hja Hka. destruct (decide (j = i)) as [->|].
      * rewrite Eoff, Esz. destruct (L1 k) as (? & _); [lia | done |]. lia.
      * apply L2; [lia | done..].
    + destruct (Z.ltb_spec totalign (sh_addralign (mem p) (shdr re i))); lia.
    + destruct (Z.ltb_spec totalign (sh_addralign (mem p) (shdr re i))); lia.
    + intros j Hj. rewrite R6 by lia. unfold m1. rewrite sh_addr_set, decide_False by lia. done.
Qed.

Lemma base_pass_spec fuel re n i b (p p' : Proc W) :
  n = e_shnum (mem p) (re_base re) -> 0 <= i <= n -> n - i <= Z.of_nat fuel ->
  headers_apart re n -> base_pass fuel re i b p = (tt, p') ->
  same_headers (mem p) (mem p') re /\
  (forall j, 0 <= j < n -> sh_addr (mem p') (shdr re j) =
     if decide (i <= j /\ is_alloc (mem p) re j) then u64 (sh_addr (mem p) (shdr re j) + b)
     else sh_addr (mem p) (shdr re j)) /\
  p' = set_mem (mem p') p.
Proof.
  revert i p. induction fuel as [|fuel IH]; intros i p Hn Hi Hf Ha Hrun.
  { injection Hrun as <-. split; [done|]. split; [|by destruct p].
    intros j Hj. rewrite decide_False by lia. done. }
  cbn [base_pass] in Hrun. rewrite (bind_unfold _ _ _ (mem p) p) in Hrun by done.
  rewrite <- Hn in Hrun. destruct (Z.ltb_spec i n) as [Hlt|Hge].
  2: { injection Hrun as <-. split; [done|]. split; [|by destruct p].
       intros j Hj. rewrite decide_False by lia. done. }
  set (m1 := if negb (Z.land (sh_flags (mem p) (shdr re i)) SHF_ALLOC =? 0)
             then set_sh_addr (mem p) (shdr re i) (u64 (sh_addr (mem p) (shdr re i) + b)) else mem p).
  match type of Hrun with (?c ≫= ?k) p = _ => rewrite (bind_unfold c k p tt (set_mem m1 p)) in Hrun end;
    [|unfold m1; destruct (negb _); [done | by destruct p]].
  assert (same_headers (mem p) m1 re) as Hsame.
  { unfold m1. destruct (negb _); [apply (set_sh_addr_headers _ _ n); [done | lia] | done]. }
  pose proof Hsame as [Hs1 Hs2].
  apply IH in Hrun as (R1 & R2 & R3); [| simpl; by rewrite Hs1 | lia | lia | done].
  cbn [mem set_mem] in R1, R2. split; [by eapply same_headers_trans|]. split; [|done].
  intros j Hj. rewrite R2 by lia.
  assert (is_alloc m1 re j <-> is_alloc (mem p) re j) as Hiff.
  { unfold is_alloc. destruct (Hs2 j ltac:(lia)) as [-> _]. done. }
  assert (sh_addr m1 (shdr re j) = if decide (i = j /\ is_alloc (mem p) re j)
    then u64 (sh_addr (mem p) (shdr re j) + b) else sh_addr (mem p) (shdr re j)) as Em1.
  { unfold m1. destruct (Z.eqb_spec (Z.land (sh_flags (mem p) (shdr re i)) SHF_ALLOC) 0) as [Hz|Hnz];
      cbn [negb].
    - rewrite decide_False; [done|]. by intros [-> Hal].
    - rewrite sh_addr_set. destruct (decide (i = j)) as [->|].
      + rewrite decide_True by done. by rewrite wrap_wrap by lia.
      + rewrite decide_False by tauto. done. }
  rewrite Em1. destruct (decide (is_alloc (mem p) re j)) as [Hal|Hna].
  - destruct (decide (i <= j)).
    + rewrite (decide_True (P := i <= j /\ is_alloc (mem p) re j)) by done.
      destruct (decide (i = j)) as [->|].
      * rewrite decide_False by lia. by rewrite decide_True.
      * rewrite decide_True by (rewrite Hiff; split; [lia | done]). by rewrite decide_False by tauto.
    + rewrite !decide_False by lia. done.
  - rewrite !decide_False by tauto. done.
Qed.

(** Placement of an object's sections: after the layout pass, the
    allocation and the base pass of [rtld_add_object], every allocated section
    has an address with its alignment, lies inside the block obtained from the
    code arena, and no two of them overlap. *)
Theorem sections_placed re (p p1 p2 p3 : Proc W) tot al b :
  let n := e_shnum (mem p) (re_base re) in
  0 <= n < 2 ^ 16 -> headers_apart re n -> sections_ok (mem p) re ->
  arena_wf (pagesize p) (main_arena_code p) -> KernelAbi W (pagesize p) ->
  layout_pass SECTIONS re 0 0 1 p = ((0, tot, al), p1) ->
  mem_alloc_code tot al p1 = (b, p2) -> BAD_ADDR b = false ->
  base_pass SECTIONS re 0 b p2 = (tt, p3) ->
  (forall i, 0 <= i < n -> is_alloc (mem p) re i ->
     let a := sh_addr (mem p3) (shdr re i) in
     a `mod` sh_addralign (mem p) (shdr re i) = 0 /\ b <= a /\
     a + sh_size (mem p) (shdr re i) <= b + tot) /\
  (forall i j, 0 <= i < j -> j < n -> is_alloc (mem p) re i -> is_alloc (mem p) re j ->
     sh_addr (mem p3) (shdr re i) + sh_size (mem p) (shdr re i) <= sh_addr (mem p3) (shdr re j)) /\
  brk (main_arena_code p) <= b /\ b + tot <= end_ (main_arena_code p).
Proof.
  intros n Hn Hap Hok Hwf Habi Hlay Halloc Hbad Hbase.
  assert (n <= Z.of_nat SECTIONS) as HnS by (unfold SECTIONS; lia).
  apply (layout_pass_spec _ _ n) in Hlay as ([L1 L2] & R1 & R2 & R3 & R4 & R5 & _ & R7);
    try done; try lia; [|by exists 0].
  rewrite R7 in Halloc.
  apply mem_alloc_code_ok in Halloc as (Hout & Hm & _ & _ & _); [|done | split; lia | done].
  cbn [mem set_mem main_arena_code pagesize] in *.
  destruct Hout as [Hb _|Hr Hmod Hs He Hbrk Hp Hwf']; [congruence|].
  pose proof R5 as [Es1 Es2].
  apply (base_pass_spec _ _ n) in Hbase as (B1 & B2 & _); try done; try lia; [|by rewrite Hm, Es1].
  rewrite Hm in B1, B2.
  assert (forall i, 0 <= i < n -> is_alloc (mem p) re i -> is_alloc (mem p1) re i /\
    sh_addr (mem p3) (shdr re i) = sh_addr (mem p1) (shdr re i) + b /\
    sh_size (mem p1) (shdr re i) = sh_size (mem p) (shdr re i) /\
    sh_addralign (mem p1) (shdr re i) = sh_addralign (mem p) (shdr re i)) as Hsec.
  { intros i Hi Hia. destruct (Es2 i ltac:(lia)) as (Ef & Esz & Eal).
    assert (is_alloc (mem p1) re i) as Hia1 by (unfold is_alloc; by rewrite Ef).
    split_and!; try done. rewrite B2 by done. rewrite decide_True by (split; [lia | done]).
    destruct (L1 i ltac:(lia) Hia1) as (? & ? & ? & ?).
    destruct (Hok i ltac:(lia) Hia) as (_ & _ & ?).
    apply wrap_small. unfold in_u. destruct Hwf, Hwf'. pose proof (pow2_pos _ wf_ps). lia. }
  split; [|split].
  - intros i Hi Hia. cbn zeta. destruct (Hsec i Hi Hia) as (Hia1 & -> & Esz & Eal).
    destruct (L1 i ltac:(lia) Hia1) as (A1 & A2 & A3 & A4). rewrite Esz, Eal in *.
    split_and!; try lia. destruct (Hok i ltac:(lia) Hia) as (Hp2 & _ & _).
    assert ((sh_addralign (mem p) (shdr re i) | b)) as Hdiv.
    { transitivity (effective_align al).
      - apply pow2_le_divide; [done | |]; unfold effective_align; destruct (Z.ltb_spec al 64); try done; try lia.
        by exists 6.
      - apply Z.mod_divide; [|done]. unfold effective_align. pose proof (pow2_pos _ R3).
        destruct (al <? 64); lia. }
    pose proof (pow2_pos _ Hp2). apply Z.mod_divide in Hdiv; [|lia].
    rewrite Z.add_mod, A2, Hdiv by lia. done.
  - intros i j Hi Hj Hia Hja. destruct (Hsec i ltac:(lia) Hia) as (Hia1 & -> & Esz & _).
    destruct (Hsec j ltac:(lia) Hja) as (Hja1 & -> & _).
    pose proof (L2 i j ltac:(lia) ltac:(lia) Hia1 Hja1). lia.
  - split; [lia|]. destruct Hwf'. lia.
Qed.
End Layout.

(** An object with two allocated sections behind the null section. *)
Definition shdr_bytes (flags size align : Z) : list Z :=
  le4 0 ++ le4 SHT_PROGBITS ++ le8 flags ++ le8 0 ++ le8 0 ++ le8 size ++ le4 0 ++ le4 0 ++ le8 align ++ le8 0.
Definition obj_mem : memory :=
  store_bytes (storeZ ∅ 2 (0x1000 + 60) 3) 0x1040
    (shdr_bytes 0 0 0 ++ shdr_bytes 6 5 16 ++ shdr_bytes 2 8 128).
Definition obj_re : RtldElf := mkRe 0x1000 0x1000 0 0x1040.
Definition obj_proc : Proc Pipes :=
  let a := mkArena 0x400000000000 0x400040000000 0x400000000000 0x400000000000 in
  mkProc obj_mem (mkPipes ∅ ∅ 0 0) a a 4096 0x7ff000000000.

Lemma sections_placed_witness :
  let p1 := (layout_pass SECTIONS obj_re 0 0 1 obj_proc).2 in
  let p2 := (mem_alloc_code 136 128 p1).2 in
  let p3 := (base_pass SECTIONS obj_re 0 0x400000000000 p2).2 in
  sh_addr (mem p3) (shdr obj_re 1) + 5 <= sh_addr (mem p3) (shdr obj_re 2).
Proof.
  intros p1 p2 p3.
  destruct (sections_placed obj_re obj_proc p1 p2 p3 136 128 0x400000000000) as (_ & T & _).
  - vm_compute. split; [discriminate | reflexivity].
  - left. vm_compute. discriminate.
  - intros i Hi. assert (e_shnum (mem obj_proc) (re_base obj_re) = 3) as E by reflexivity. rewrite E in Hi.
    assert (i = 0 \/ i = 1 \/ i = 2) as [->|[->| ->]] by lia; intros Ha.
    + exfalso. apply Ha. reflexivity.
    + split; [exists 4; split; [lia | reflexivity] | vm_compute; split_and!; discriminate].
    + split; [exists 7; split; [lia | reflexivity] | vm_compute; split_and!; discriminate].
  - constructor; simpl; try lia; try reflexivity. exists 12. lia.
  - apply loopback_abi.
  - apply injective_projections; [vm_compute; reflexivity | reflexivity].
  - apply injective_projections; [vm_compute; reflexivity | reflexivity].
  - reflexivity.
  - unfold p3. destruct (base_pass _ _ _ _ p2) as [[] q]. reflexivity.
  - exact (T 1 2 ltac:(lia) ltac:(vm_compute; reflexivity)
      ltac:(vm_compute; discriminate) ltac:(vm_compute; discriminate)).
Defined.

(** ** Entering the functions into the index *)

(** The guest address and the entry point of the symbol at [sym], if it is a
    defined global function of default visibility with a valid name. *)
Definition exported (m : memory) (re : RtldElf) (elf_shnt sym : Z) : option (Z * Z) :=
  if (ELF64_ST_BIND (st_info m sym) =? STB_GLOBAL) && (ELF64_ST_TYPE (st_info m sym) =? STT_FUNC) &&
     (ELF64_ST_VISIBILITY (st_other m sym) =? STV_DEFAULT) && negb (st_shndx m sym =? SHN_UNDEF)
  then
    name ← (rtld_elf_resolve_str m re (sh_link m elf_shnt) (st_name m sym)).2;
    addr ← (rtld_elf_decode_name (S (base.size m)) (skew re) (mptr m name)).2;
    Some (addr, u64 (sh_addr m (shdr re (st_shndx m sym)) + st_value m sym))
  else None.

Lemma perf_off {W} `{Kernel W} r addr entry size name (p : Proc W) :
  perfmap_fd r < 0 -> perfdump_fd r < 0 -> rtld_perf_notify r addr entry size name p = (tt, p).
Proof.
  intros H1 H2. unfold rtld_perf_notify.
  rewrite (proj2 (Z.leb_gt 0 (perfmap_fd r))), (proj2 (Z.leb_gt 0 (perfdump_fd r))) by lia. done.
Qed.

Lemma syms_loop_spec {W} `{Kernel W} n r re shnt sym (p : Proc W) (M : gmap Z Z) r' p' code :
  perfmap_fd r < 0 -> perfdump_fd r < 0 -> refines (objects r) M ->
  syms_loop n r re shnt sym p = ((code, r', false), p') ->
  p' = p /\ exists M', refines (objects r') M' /\ M ⊆ M' /\
    r' = set_objects (objects r') r /\
    forall k addr entry, 0 <= k < Z.of_nat n ->
      exported (mem p) re shnt (sym + SIZEOF_SYM * k) = Some (addr, entry) -> M' !! addr = Some entry.
Proof.
  intros Hm Hd. revert r sym M Hm Hd. induction n as [|n IH]; intros r sym M Hm Hd Href Hrun.
  { injection Hrun as <- <- <-. split; [done|]. exists M. split_and!; try done; [by destruct r | lia]. }
  cbn [syms_loop] in Hrun. rewrite (bind_unfold _ _ _ (mem p) p) in Hrun by done.
  assert (exported (mem p) re shnt sym = None ->
    syms_loop n r re shnt (sym + SIZEOF_SYM) p = ((code, r', false), p') ->
    p' = p /\ exists M', refines (objects r') M' /\ M ⊆ M' /\ r' = set_objects (objects r') r /\
    forall k addr entry, 0 <= k < Z.of_nat (S n) ->
      exported (mem p) re shnt (sym + SIZEOF_SYM * k) = Some (addr, entry) -> M' !! addr = Some entry) as Hskip.
  { intros Hnone Hl. apply (IH _ _ M) in Hl as [-> (M' & R1 & R2 & R3 & R4)]; try done.
    split; [done|]. exists M'. split_and!; try done. intros k addr entry Hk He.
    destruct (decide (k = 0)) as [->|]; [rewrite Z.mul_0_r, Z.add_0_r in He; congruence|].
    apply (R4 (k - 1)); [lia|]. rewrite <- He. f_equal. lia. }
  unfold exported in Hskip at 1.
  destruct (ELF64_ST_BIND _ =? STB_GLOBAL) eqn:E1; cbn [negb andb] in *; [|by apply Hskip].
  destruct (ELF64_ST_TYPE _ =? STT_FUNC) eqn:E2; cbn [negb andb] in *; [|by apply Hskip].
  destruct (ELF64_ST_VISIBILITY _ =? STV_DEFAULT) eqn:E3; cbn [negb andb] in *; [|by apply Hskip].
  destruct (st_shndx (mem p) sym =? SHN_UNDEF) eqn:Eund; cbn [negb andb] in *; [by apply Hskip|].
  destruct (e_shnum _ _ <=? _); [by injection Hrun|].
  destruct (rtld_elf_resolve_str _ _ _ _).2 as [name|] eqn:Ename; [|by injection Hrun].
  destruct (rtld_elf_decode_name _ _ _) as [retval out] eqn:Edec. cbv beta iota in Hrun.
  destruct ((retval <? 0) || (default 0 out =? 0)) eqn:Ebad.
  { unfold mbind, ST_bind in Hrun. destruct (dprintf _ _ _ p). by injection Hrun. }
  apply orb_false_iff in Ebad as [_ Haddr]. apply Z.eqb_neq in Haddr.
  destruct out as [addr|]; [simpl in Haddr|done]. cbn [default] in Hrun.
  set (entry := u64 _) in Hrun.
  pose proof (refines_set (objects r) M addr entry (re_base re) (re_size re) Href Haddr) as Hset.
  change (default 0 (Some addr)) with addr in Hrun.
  destruct (rtld_set _ _ _ _ _) as [code2 t]. cbv beta iota in Hrun.
  destruct (Z.ltb_spec code2 0) as [Hneg|Hnn]; [by injection Hrun|].
  destruct Hset as [(-> & Hnew & Href')|[(-> & _)|(-> & _)]]; [|vm_compute in Hnn; done..].
  rewrite (bind_unfold _ _ _ tt p) in Hrun by (by apply perf_off).
  apply (IH (set_objects t r) _ (<[addr := entry]> M)) in Hrun as [-> (M' & R1 & R2 & R3 & R4)]; try done.
  split; [done|]. exists M'. split_and!; try done.
  - etrans; [|exact R2]. by apply insert_subseteq.
  - intros k a e Hk He. destruct (decide (k = 0)) as [->|].
    + rewrite Z.mul_0_r, Z.add_0_r in He. clear Hskip.
      assert (Some (addr, entry) = Some (a, e)) as Hae.
      { rewrite <- He. unfold exported. rewrite E1, E2, E3, Eund. cbn [negb andb].
        rewrite Ename. cbn [mbind option_bind]. by rewrite Edec. }
      injection Hae as <- <-. eapply lookup_weaken; [|exact R2]. apply lookup_insert_eq.
    + apply (R4 (k - 1)); [lia|]. rewrite <- He. f_equal. lia.
Qed.

(** Loading the symbols of an object makes its functions resolvable: when
    the loop over a symbol table runs to its end (with perf support off),
    [rtld_resolve] finds, for every defined global function symbol, the section
    address plus the symbol's value under the guest address in its name; what
    the index held before is kept. *)
Theorem symbols_resolvable {W} `{Kernel W} n r re shnt sym (p p' : Proc W) M r' code :
  perfmap_fd r < 0 -> perfdump_fd r < 0 -> refines (objects r) M ->
  syms_loop n r re shnt sym p = ((code, r', false), p') ->
  (forall k addr entry, 0 <= k < Z.of_nat n ->
     exported (mem p) re shnt (sym + SIZEOF_SYM * k) = Some (addr, entry) ->
     rtld_resolve (objects r') addr = (0, Some entry)) /\
  (forall addr entry, M !! addr = Some entry -> rtld_resolve (objects r') addr = (0, Some entry)).
Proof.
  intros Hm Hd Href Hrun.
  destruct (syms_loop_spec _ _ _ _ _ _ _ _ _ _ Hm Hd Href Hrun) as [-> (M' & R1 & R2 & _ & R4)].
  assert (forall a e, M' !! a = Some e -> rtld_resolve (objects r') a = (0, Some e)) as Hres.
  { intros a e Hae. pose proof (refines_resolve _ _ a R1) as Hr. rewrite Hae in Hr.
    destruct (decide (a = 0)) as [->|Ha]; [done|].
    pose proof (resolve_spec _ a (proj1 R1) Ha) as Hs.
    destruct (rtld_resolve (objects r') a) as [c [e'|]]; simpl in Hr; [|done].
    injection Hr as ->. by destruct Hs as [-> _]. }
  split; [by intros; eapply Hres, R4|]. intros a e Hae. apply Hres. by eapply lookup_weaken.
Qed.

(** One symbol table with a local and a global function, the latter named
    [Z10] in section 1. *)
Definition sym_bytes (name info shndx value : Z) : list Z :=
  le4 name ++ [info; 0] ++ Z_to_little_endian 2 8 shndx ++ le8 value ++ le8 4.
Definition sym_mem : memory :=
  store_bytes (store_bytes (store_bytes (storeZ ∅ 2 (0x1000 + 60) 3) 0x1040
    (shdr_bytes 0 0 0 ++ (le4 0 ++ le4 SHT_PROGBITS ++ le8 6 ++ le8 0x400000000040 ++ le8 0 ++ le8 5 ++
       le4 0 ++ le4 0 ++ le8 16 ++ le8 0) ++
     (le4 0 ++ le4 SHT_STRTAB ++ le8 0 ++ le8 0 ++ le8 0x200 ++ le8 8 ++ le4 0 ++ le4 0 ++ le8 1 ++ le8 0)))
    0x1200 ([0] ++ bytes_of_string "Z10" ++ [0])) 0x1300
    (sym_bytes 0 2 1 0 ++ sym_bytes 1 18 1 8).
Definition sym_shnt : Z := 0x1500.
Definition sym_proc : Proc Pipes :=
  mkProc (storeZ sym_mem 4 (sym_shnt + 40) 2) (mkPipes ∅ ∅ 0 0) (mkArena 0 0 0 0) (mkArena 0 0 0 0) 4096 0x8000.
Definition sym_rtld : Rtld := mkRtld (-1) (-1) (mkDisp 0 0 0 0) 0 ∅ 0.

Lemma symbols_resolvable_witness :
  let r' := (syms_loop 2 sym_rtld obj_re sym_shnt 0x1300 sym_proc).1.1.2 in
  rtld_resolve (objects r') 8 = (0, Some 0x400000000048).
Proof.
  intros r'.
  destruct (symbols_resolvable 2 sym_rtld obj_re sym_shnt 0x1300 sym_proc
    (syms_loop 2 sym_rtld obj_re sym_shnt 0x1300 sym_proc).2 ∅ r' 0) as [T _].
  - reflexivity.
  - reflexivity.
  - apply table_empty_refines.
  - apply injective_projections; [|reflexivity].
    apply injective_projections; [|vm_compute; reflexivity].
    apply injective_projections; [vm_compute; reflexivity | reflexivity].
  - apply (T 1 8 0x400000000048); [lia | vm_compute; reflexivity].
Defined.
