(* ===== verification/RtldCopy.v ===== *)
(** * Copying an object into the code arena

    The last pass of [rtld_add_object] over the sections: with the placement
    that [RtldElfProofs.v] establishes, the contents of every section, as
    relocated in the receive buffer, arrive at the address of the section. *)

From Stdlib Require Import ZArith Lia String.
From stdpp Require Import base numbers list list_numbers option gmap.
From S2P Require Import Prelude Machine Loopback Minilibc Memory Printf RtldTable RtldReloc RtldStubs RtldElf RtldElfProofs.

Section Copy.
Context (m : memory) (re : RtldElf) (lo hi : Z).

Definition sec_to (i : Z) : Z := sh_addr m (shdr re i).
Definition sec_from (i : Z) : Z := u64 (re_base re + sh_offset m (shdr re i)).
Definition sec_size (i : Z) : Z := sh_size m (shdr re i).
Definition progbits (i : Z) : Prop := 0 <= i < e_shnum m (re_base re) /\ sh_type m (shdr re i) = SHT_PROGBITS.

(** The object lies in [lo, hi) with its headers and contents; the places of
    its sections are outside and pairwise disjoint. *)
Record copy_ok : Prop := {
  ok_header : lo <= re_base re /\ re_base re + 64 <= hi;
  ok_count : e_shnum m (re_base re) <= 65536;
  ok_shdrs : forall i, 0 <= i < e_shnum m (re_base re) -> lo <= shdr re i /\ shdr re i + SIZEOF_SHDR <= hi;
  ok_from : forall i, progbits i -> 0 <= sec_size i /\ lo <= sec_from i /\ sec_from i + sec_size i <= hi;
  ok_to : forall i, progbits i -> sec_to i + sec_size i <= lo \/ hi <= sec_to i;
  ok_apart : forall i j, progbits i -> progbits j -> i < j ->
    sec_to i + sec_size i <= sec_to j \/ sec_to j + sec_size j <= sec_to i }.

Definition in_place (x i : Z) : Prop := sec_to i <= x < sec_to i + sec_size i.

Context {W : Type} `{Kernel W} (Hok : copy_ok).

Lemma object_field m' a k :
  (forall x, lo <= x < hi -> getb m' x = getb m x) -> lo <= a -> a + Z.of_nat k <= hi -> loadZ m' k a = loadZ m k a.
Proof. intros Hx Ha Hk. apply loadZ_ext. intros x Hr. apply Hx. lia. Qed.

Lemma copy_pass_run fuel i (p : Proc W) :
  (forall x, lo <= x < hi -> getb (mem p) x = getb m x) -> 0 <= i -> e_shnum m (re_base re) - i <= Z.of_nat fuel ->
  exists p', copy_pass fuel re i p = (0, p') /\
    (forall j, progbits j -> i <= j ->
       load_bytes (mem p') (sec_to j) (Z.to_nat (sec_size j)) = load_bytes m (sec_from j) (Z.to_nat (sec_size j))) /\
    (forall x, (forall j, progbits j -> i <= j -> ~ in_place x j) -> getb (mem p') x = getb (mem p) x).
Proof.
  revert i p; induction fuel as [|fuel IH]; intros i p Hm Hi Hf; cbn [copy_pass].
  { exists p. split; [done|]. split; [|done]. intros j [Hj _] ?. lia. }
  destruct (ok_header Hok) as [H1 H2]. unfold mbind at 1, ST_bind at 1, gets.
  assert (e_shnum (mem p) (re_base re) = e_shnum m (re_base re)) as En by (apply object_field; [done|lia|lia]).
  rewrite En. destruct (Z.ltb_spec i (e_shnum m (re_base re))) as [Hlt|Hge].
  2: { exists p. split; [done|]. split; [|done]. intros j [Hj _] ?. lia. }
  destruct (ok_shdrs Hok i ltac:(lia)) as [S1 S2]. unfold SIZEOF_SHDR in S2.
  assert (sh_type (mem p) (shdr re i) = sh_type m (shdr re i)) as Et by (apply object_field; [done|lia|lia]).
  assert (sh_addr (mem p) (shdr re i) = sec_to i) as Ea by (apply object_field; [done|lia|lia]).
  assert (sh_offset (mem p) (shdr re i) = sh_offset m (shdr re i)) as Eo by (apply object_field; [done|lia|lia]).
  assert (sh_size (mem p) (shdr re i) = sec_size i) as Es by (apply object_field; [done|lia|lia]).
  cbv zeta. rewrite Et. destruct (Z.eqb_spec (sh_type m (shdr re i)) SHT_PROGBITS) as [Hp|Hp]; cbn [negb].
  2: { destruct (IH (i + 1) p Hm ltac:(lia) ltac:(lia)) as (p' & E & I1 & I2). exists p'. split; [exact E|]. split.
       - intros j Hj Hle. apply I1; [done|]. destruct Hj as [_ Hj]. assert (i <> j) by congruence. lia.
       - intros x Hx. apply I2. intros j Hj ?. apply Hx; [done|lia]. }
  assert (progbits i) as Hpi by (split; [lia|done]).
  destruct (ok_from Hok i Hpi) as (F0 & F1 & F2). pose proof (ok_to Hok i Hpi) as T.
  rewrite Ea, Eo, Es. fold (sec_from i). unfold mbind at 1, ST_bind at 1.
  rewrite mem_write_code_block by lia. change (0 <? 0) with false. cbv beta iota.
  set (q := set_mem _ p).
  assert (forall x, ~ in_place x i -> getb (mem q) x = getb (mem p) x) as Hq.
  { intros x Hx. apply getb_store_out. rewrite length_load_bytes. unfold in_place in Hx. lia. }
  destruct (IH (i + 1) q) as (p' & E & I1 & I2); [|lia|lia|].
  { intros x Hx. rewrite <- Hm by done. apply Hq. unfold in_place. lia. }
  exists p'. split; [exact E|]. split.
  - intros j Hj Hle. destruct (decide (i = j)) as [<-|Hne]; [|apply I1; [done|lia]].
    transitivity (load_bytes (mem q) (sec_to i) (Z.to_nat (sec_size i))).
    + apply load_bytes_ext. intros x Hx. apply I2. intros k Hk Hik Hin.
      pose proof (ok_apart Hok i k Hpi Hk ltac:(lia)). unfold in_place in Hin. lia.
    + unfold q. cbn [mem set_mem]. rewrite load_store_same' by apply length_load_bytes.
      apply load_bytes_ext. intros x Hx. apply Hm. lia.
  - intros x Hx. rewrite I2; [apply Hq, Hx; [done|lia]|]. intros j Hj ?. apply Hx; [done|lia].
Qed.
End Copy.

(** The copy pass always succeeds, and afterwards the code arena holds every
    section with contents: the bytes at the address of the section are those
    of the object, and nothing else in memory has changed. *)
Theorem sections_copied {W} `{Kernel W} re lo hi (p : Proc W) :
  copy_ok (mem p) re lo hi ->
  exists p', copy_pass SECTIONS re 0 p = (0, p') /\
    (forall i, progbits (mem p) re i ->
       load_bytes (mem p') (sec_to (mem p) re i) (Z.to_nat (sec_size (mem p) re i)) =
       load_bytes (mem p) (sec_from (mem p) re i) (Z.to_nat (sec_size (mem p) re i))) /\
    (forall x, (forall i, progbits (mem p) re i -> ~ in_place (mem p) re x i) -> getb (mem p') x = getb (mem p) x).
Proof.
  intros Hok. pose proof (ok_count _ _ _ _ Hok).
  destruct (copy_pass_run (mem p) re lo hi Hok SECTIONS 0 p) as (p' & E & C1 & C2); [done|lia|unfold SECTIONS; lia|].
  exists p'. split; [done|]. split.
  - intros i Hi. apply C1; [done|]. by destruct Hi as [[? ?] ?].
  - intros x Hx. apply C2. intros j Hj _. by apply Hx.
Qed.

(** An object at 0x1000 with one section of four bytes at offset 0x200. *)
Definition copy_mem : memory :=
  store_bytes (store_bytes (storeZ ∅ 2 (0x1000 + 60) 2) 0x1040
    (replicate 64 0 ++ le4 0 ++ le4 SHT_PROGBITS ++ le8 6 ++ le8 0x40000000 ++ le8 0x200 ++ le8 4 ++ replicate 24 0))
    0x1200 [0xde; 0xad; 0xbe; 0xef].

Lemma sections_copied_witness :
  exists p', copy_pass SECTIONS obj_re 0 (set_mem copy_mem obj_proc) = (0, p') /\
    load_bytes (mem p') 0x40000000 4 = [0xde; 0xad; 0xbe; 0xef].
Proof.
  assert (forall i, progbits copy_mem obj_re i -> i = 1) as Hp.
  { intros i [Hi Ht]. assert (e_shnum copy_mem (re_base obj_re) = 2) as E by (vm_compute; reflexivity). rewrite E in Hi.
    assert (i = 0 \/ i = 1) as [->| ->] by lia; [vm_compute in Ht; discriminate|reflexivity]. }
  destruct (sections_copied obj_re 0x1000 0x2000 (set_mem copy_mem obj_proc)) as (p' & E & T & _).
  - constructor.
    + split; vm_compute; discriminate.
    + vm_compute; discriminate.
    + intros i Hi. assert (e_shnum copy_mem (re_base obj_re) = 2) as E by (vm_compute; reflexivity).
      cbn [mem set_mem] in Hi. rewrite E in Hi. unfold shdr, SIZEOF_SHDR, obj_re. cbn [re_shdr]. lia.
    + intros i Hi. rewrite (Hp i Hi). vm_compute. split_and!; discriminate.
    + intros i Hi. rewrite (Hp i Hi). right. vm_compute. discriminate.
    + intros i j Hi Hj Hlt. pose proof (Hp i Hi). pose proof (Hp j Hj). lia.
  - exists p'. split; [exact E|].
    refine (eq_trans (T 1 _) _); [split; [split; vm_compute; [discriminate|reflexivity]|vm_compute; reflexivity]|].
    vm_compute. reflexivity.
Defined.
