(* ===== verification/Translator.v ===== *)
(** * The connection to the translation server, [client/translator.c]

    Messages are a header (identifier and size) followed by a payload.  The
    client keeps at most one received header that was not yet consumed, in
    [last_hdr]: [MSGID_UNKNOWN] stands for none. *)

From Stdlib Require Import ZArith Lia String.
From stdpp Require Import base numbers list list_numbers option gmap.
From S2P Require Import Prelude Machine Loopback Minilibc StreamIO Memory Printf RtldReloc RtldElf.

(** ** Messages, [shared/instrew-protocol.inc] *)

Definition MSGID_UNKNOWN : Z := 0.
Definition MSGID_C_EXIT : Z := 1.
Definition MSGID_C_TRANSLATE : Z := 2.
Definition MSGID_S_MEMREQ : Z := 3.
Definition MSGID_C_MEMBUF : Z := 4.
Definition MSGID_S_OBJECT : Z := 5.
Definition MSGID_C_INIT : Z := 9.
Definition MSGID_S_INIT : Z := 10.

(** [struct TranslatorServerConfig] (five 32-bit integers) and
    [struct TranslatorConfig], packed. *)
Record TranslatorServerConfig := mkTsc {
  tsc_guest_arch : Z; tsc_host_arch : Z; tsc_host_cpu_features : Z; tsc_server_mode : Z;
  tsc_stack_alignment : Z }.
Definition tsc_bytes (c : TranslatorServerConfig) : list Z :=
  le4 (tsc_guest_arch c) ++ le4 (tsc_host_arch c) ++ le4 (tsc_host_cpu_features c) ++
  le4 (tsc_server_mode c) ++ le4 (tsc_stack_alignment c).

Record TranslatorConfig := mkTc {
  tc_callconv : Z; tc_profile : Z; tc_perf : Z; tc_print_trace : Z; tc_print_regs : Z }.
Definition SIZEOF_TC : Z := 20.
Definition load_tc (m : memory) (a : Z) : TranslatorConfig :=
  mkTc (s32 (loadZ m 4 a)) (s32 (loadZ m 4 (a + 4))) (s32 (loadZ m 4 (a + 8)))
    (s32 (loadZ m 4 (a + 12))) (s32 (loadZ m 4 (a + 16))).

(** [struct Translator]. *)
Record Translator := mkTr {
  rd_fd : Z; wr_fd : Z; written_bytes : Z; last_id : Z; last_sz : Z; recvbuf : Z; recvbuf_sz : Z }.

Definition set_last (id sz : Z) (t : Translator) : Translator :=
  mkTr (rd_fd t) (wr_fd t) (written_bytes t) id sz (recvbuf t) (recvbuf_sz t).
Definition set_recvbuf (b sz : Z) (t : Translator) : Translator :=
  mkTr (rd_fd t) (wr_fd t) (written_bytes t) (last_id t) (last_sz t) b sz.
Definition add_written (n : Z) (t : Translator) : Translator :=
  mkTr (rd_fd t) (wr_fd t) (u64 (written_bytes t + n)) (last_id t) (last_sz t) (recvbuf t) (recvbuf_sz t).

Section Translator.
Context {W : Type} `{Kernel W}.

Definition translator_hdr_send (t : Translator) (id sz : Z) : ST (Proc W) Z :=
  if negb (last_id t =? MSGID_UNKNOWN) then mret (- EPROTO)
  else
    ret ← write_full_local (wr_fd t) (le4 id ++ le4 sz);
    if negb (s32 ret =? 8) then mret (s32 ret) else mret 0.

Definition translator_hdr_recv (t : Translator) (id : Z) : ST (Proc W) (Z * Translator) :=
  '(ret, t) ←
    (if last_id t =? MSGID_UNKNOWN then
       with_local 8 (fun hdr =>
         modify (fun p => set_mem (store_bytes (mem p) hdr (le4 (last_id t) ++ le4 (last_sz t))) p);;
         ret ← read_full (rd_fd t) hdr 8;
         m ← gets mem;
         mret (s32 ret, set_last (loadZ m 4 hdr) (s32 (loadZ m 4 (hdr + 4))) t))
     else mret (8, t));
  if negb (ret =? 8) then mret (ret, t)
  else if negb (last_id t =? id) then mret (- EPROTO, t)
  else
    let sz := last_sz t in
    mret (sz, set_last MSGID_UNKNOWN 0 t).

(** [for (size_t i = 0; server_config[i]; i++)]. *)
Fixpoint fds_raw (server_config : list Z) (i raw : Z) : Z :=
  match server_config with
  | [] => raw
  | c :: rest =>
      fds_raw rest (i + 1) (Z.lor raw (u64 (Z.shiftl (Z.land (c - chr "0") 7) (Z.land (3 * i) 63))))
  end.

Definition translator_init (server_config : list Z) (tsc : TranslatorServerConfig)
    : ST (Proc W) (Z * Translator) :=
  let raw := fds_raw server_config 0 0 in
  let t := mkTr (s32 (Z.land raw 0xffffffff)) (s32 (Z.shiftr raw 32)) 0 MSGID_UNKNOWN 0 0 0 in
  ret ← translator_hdr_send t MSGID_C_INIT 20;
  if negb (ret =? 0) then mret (ret, t)
  else
    ret ← write_full_local (wr_fd t) (tsc_bytes tsc);
    if negb (s32 ret =? 20) then mret (s32 ret, t) else mret (0, t).

Definition translator_fini (t : Translator) : ST (Proc W) Z :=
  close (rd_fd t);; close (wr_fd t);; mret 0.

(** The configuration is read to the address [cfg]. *)
Definition translator_config_fetch (t : Translator) (cfg : Z) : ST (Proc W) (Z * Translator) :=
  '(sz, t) ← translator_hdr_recv t MSGID_S_INIT;
  if sz <? 0 then mret (sz, t)
  else if negb (sz =? SIZEOF_TC) then mret (- EPROTO, t)
  else
    ret ← read_full (rd_fd t) cfg sz;
    if negb (ret =? sz) then mret (s32 ret, t) else mret (0, t).

(** The object's address and size, if one is returned. *)
Definition translator_get_object (t : Translator) : ST (Proc W) (Z * Translator * option (Z * Z)) :=
  '(sz, t) ← translator_hdr_recv t MSGID_S_OBJECT;
  if sz <? 0 then mret (sz, t, None)
  else
    '(err, t) ←
      (if recvbuf_sz t <=? sz then
         ps ← getpagesize;
         let newsz := ALIGN_UP sz ps in
         buf ← mem_alloc_data newsz ps;
         if BAD_ADDR buf then mret (true, set_recvbuf buf (recvbuf_sz t) t)
         else mret (false, set_recvbuf buf newsz t)
       else mret (false, t));
    if (err : bool) then mret (s32 (recvbuf t), t, None)
    else
      ret ← read_full (rd_fd t) (recvbuf t) sz;
      if negb (s32 ret =? sz) then mret (s32 ret, t, None)
      else mret (0, t, Some (recvbuf t, sz)).

(** [for (size_t i = 0; i < memrq.buf_sz; i++) if (write_full(t->wr_fd, "", 1) != 1) ...]. *)
Fixpoint send_padding (n : nat) (fd : Z) : ST (Proc W) bool :=
  match n with
  | O => mret true
  | S n' =>
      r ← write_full_local fd [0];
      if negb (r =? 1) then mret false else send_padding n' fd
  end.

(** One round of the loop of [translator_get]: a memory request is answered and
    the loop goes on ([inl]), or the function returns ([inr]). *)
Definition translator_get_round (t : Translator)
    : ST (Proc W) (Translator + Z * Translator * option (Z * Z)) :=
  '(sz, t) ← translator_hdr_recv t MSGID_S_MEMREQ;
  if sz =? - EPROTO then r ← translator_get_object t; mret (inr r)
  else if sz <? 0 then mret (inr (sz, t, None))
  else if negb (sz =? 16) then mret (inr (-1, t, None))
  else
    '(ret, (rq_addr, rq_sz)) ←
      with_local 16 (fun memrq =>
        ret ← read_full (rd_fd t) memrq 16;
        m ← gets mem;
        mret (s32 ret, (loadZ m 8 memrq, loadZ m 8 (memrq + 8))));
    if negb (ret =? 16) then mret (inr (ret, t, None))
    else
      let buf_sz := if 0x1000 <? rq_sz then 0x1000 else rq_sz in
      ret ← translator_hdr_send t MSGID_C_MEMBUF (buf_sz + 1);
      if ret <? 0 then mret (inr (ret, t, None))
      else
        ret ← write_full (wr_fd t) rq_addr buf_sz;
        '(go, failed) ←
          (if negb (s32 ret =? buf_sz) then
             if s32 ret =? - EFAULT then
               ok ← send_padding (Z.to_nat buf_sz) (wr_fd t);
               mret (ok, 1)
             else
               dprintf 2 (line "translator_get: failed writing from address 0x%lx") [VInt rq_addr];;
               mret (false, 0)
           else mret (true, 0));
        if negb (go : bool) then mret (inr (s32 ret, t, None))
        else
          ret ← write_full_local (wr_fd t) [failed];
          if negb (s32 ret =? 1) then mret (inr (s32 ret, t, None))
          else mret (inl (add_written buf_sz t)).

(** [while (true)]: one unit of fuel per memory request of the server; [None]
    when the server asks more often. *)
Fixpoint translator_get_loop (fuel : nat) (t : Translator)
    : ST (Proc W) (option (Z * Translator * option (Z * Z))) :=
  match fuel with
  | O => mret None
  | S fuel' =>
      r ← translator_get_round t;
      match r with
      | inl t => translator_get_loop fuel' t
      | inr res => mret (Some res)
      end
  end.

Definition translator_get (fuel : nat) (t : Translator) (addr : Z)
    : ST (Proc W) (option (Z * Translator * option (Z * Z))) :=
  ret ← translator_hdr_send t MSGID_C_TRANSLATE 8;
  if negb (ret =? 0) then mret (Some (ret, t, None))
  else
    ret ← write_full_local (wr_fd t) (le8 addr);
    if negb (s32 ret =? 8) then mret (Some (s32 ret, t, None))
    else translator_get_loop fuel t.

End Translator.
