(* ===== verification/TranslatorProofs.v ===== *)
(** * The translation protocol: theorems

    The descriptor encoding is inverted, the one-header state machine, and a
    whole translation session over byte streams with arbitrary short reads and
    writes. *)

From Stdlib Require Import ZArith Lia String.
From stdpp Require Import base numbers list list_numbers option gmap.
From S2P Require Import Prelude Machine Loopback Minilibc StreamIO Memory Printf RtldReloc RtldElf Translator.

(** ** The descriptors on the command line *)

(** How the server writes the two descriptors: octal digits, lowest first. *)
Fixpoint encode_fds (fuel : nat) (raw : Z) : list Z :=
  match fuel with
  | O => []
  | S fuel' => if raw =? 0 then [] else chr "0" + raw `mod` 8 :: encode_fds fuel' (raw / 8)
  end.

Lemma fds_raw_digits fuel raw i acc :
  0 <= i -> 0 <= acc < 2 ^ (3 * i) -> 0 <= raw < 2 ^ (64 - 3 * i) -> 3 * i <= 64 ->
  raw < 8 ^ Z.of_nat fuel ->
  fds_raw (encode_fds fuel raw) i acc = acc + raw * 2 ^ (3 * i).
Proof.
  revert raw i acc; induction fuel as [|fuel IH]; intros raw i acc Hi Hacc Hraw Hi64 Hf.
  { simpl in *. replace raw with 0 by lia. lia. }
  cbn [encode_fds]. destruct (Z.eqb_spec raw 0) as [->|Hne]; [simpl; lia|].
  cbn [fds_raw]. assert (3 * i < 64).
  { destruct (Z.ltb_spec (3 * i) 64); [done|]. assert (64 - 3 * i = 0) as E by lia. rewrite E in Hraw. lia. }
  replace (chr "0" + raw `mod` 8 - chr "0") with (raw `mod` 8) by lia.
  change 7 with (Z.ones 3). change 63 with (Z.ones 6). rewrite !Z.land_ones by lia.
  rewrite (Z.mod_mod raw) by lia. change (2 ^ 3) with 8. change (2 ^ 6) with 64.
  rewrite (Z.mod_small (3 * i)) by lia. rewrite Z.shiftl_mul_pow2 by lia.
  assert (raw `mod` 8 * 2 ^ (3 * i) < 2 ^ 64) as Hlt.
  { assert (raw `mod` 8 <= raw) by (apply Z.mod_le; lia).
    assert (raw * 2 ^ (3 * i) < 2 ^ 64); [|nia].
    replace (2 ^ 64) with (2 ^ (64 - 3 * i) * 2 ^ (3 * i)) by (rewrite <- Z.pow_add_r by lia; f_equal; lia).
    apply Z.mul_lt_mono_pos_r; lia. }
  pose proof (Z.mod_pos_bound raw 8 ltac:(lia)) as Hm.
  rewrite wrap_small by (unfold in_u; nia).
  rewrite <- Z.shiftl_mul_pow2 by lia. rewrite lor_shiftl_add by lia.
  destruct (Z.eqb_spec (raw / 8) 0) as [E0|Hnz].
  { rewrite E0. destruct fuel; cbn [encode_fds]; [|rewrite Z.eqb_refl]; cbn [fds_raw];
      pose proof (Z.div_mod raw 8); nia. }
  assert (3 * (i + 1) <= 64).
  { assert (8 <= raw) by (destruct (Z.leb_spec 8 raw); [done|]; rewrite Z.div_small in Hnz; lia).
    destruct (Z.leb_spec (3 * (i + 1)) 64); [done|].
    assert (2 ^ (64 - 3 * i) <= 2 ^ 2) by (apply Z.pow_le_mono_r; lia). lia. }
  assert (2 ^ (3 * (i + 1)) = 8 * 2 ^ (3 * i)) as E8.
  { replace (3 * (i + 1)) with (3 + 3 * i) by lia. rewrite Z.pow_add_r by lia. done. }
  assert (2 ^ (64 - 3 * i) = 8 * 2 ^ (64 - 3 * (i + 1))) as E9.
  { replace (64 - 3 * i) with (3 + (64 - 3 * (i + 1))) by lia. rewrite Z.pow_add_r by lia. done. }
  rewrite IH; try lia.
  - rewrite E8. pose proof (Z.div_mod raw 8). nia.
  - rewrite E8. nia.
  - split; [apply Z.div_pos; lia | apply Z.div_lt_upper_bound; lia].
  - rewrite Nat2Z.inj_succ, Z.pow_succ_r in Hf by lia. apply Z.div_lt_upper_bound; lia.
Qed.

(** The client recovers both descriptors from the string the server put
    on its command line. *)
Theorem fds_roundtrip rd wr :
  0 <= rd < 2 ^ 31 -> 0 <= wr < 2 ^ 31 ->
  let raw := fds_raw (encode_fds 22 (rd + wr * 2 ^ 32)) 0 0 in
  s32 (Z.land raw 0xffffffff) = rd /\ s32 (Z.shiftr raw 32) = wr.
Proof.
  intros Hr Hw raw. subst raw. rewrite fds_raw_digits; [|lia..|].
  2: { change (8 ^ Z.of_nat 22) with (2 ^ 66). lia. }
  rewrite Z.mul_1_r, Z.add_0_l. change 0xffffffff with (Z.ones 32).
  rewrite Z.land_ones, Z.shiftr_div_pow2 by lia.
  rewrite Z_mod_plus_full, Z_div_plus_full, Z.mod_small, Z.div_small by lia.
  split; apply swrap_small; unfold in_s; lia.
Qed.

Lemma fds_roundtrip_witness :
  let raw := fds_raw (encode_fds 22 (5 + 8 * 2 ^ 32)) 0 0 in
  s32 (Z.land raw 0xffffffff) = 5 /\ s32 (Z.shiftr raw 32) = 8.
Proof. apply (fds_roundtrip 5 8); lia. Defined.

(** ** Steps of a session *)

Lemma bind_ext_in {A B} (f g : A -> list B) l : (forall x, x ∈ l -> f x = g x) -> l ≫= f = l ≫= g.
Proof.
  induction l as [|x l IH]; intros Hx; [done|]. rewrite !bind_cons. f_equal.
  - apply Hx. by left.
  - apply IH. intros y Hy. apply Hx. by right.
Qed.


Section Session.
Context {W : Type} `{StreamKernel W}.

(** What a part of the session did to the connection: bytes taken from the read
    descriptor and bytes added to the write descriptor. *)
Record io (rd wr : Z) (ins outs : list Z) (w w' : W) : Prop := {
  io_in : incoming w rd = ins ++ incoming w' rd;
  io_out : outgoing w' wr = outgoing w wr ++ outs;
  io_readable : forall a k, readable w' a k <-> readable w a k;
}.

Lemma io_trans rd wr i1 o1 i2 o2 w1 w2 w3 :
  io rd wr i1 o1 w1 w2 -> io rd wr i2 o2 w2 w3 -> io rd wr (i1 ++ i2) (o1 ++ o2) w1 w3.
Proof.
  intros [A1 A2 A3] [B1 B2 B3]. split.
  - by rewrite A1, B1, app_assoc.
  - by rewrite B2, A2, app_assoc.
  - intros. by rewrite B3, A3.
Qed.

Lemma io_received rd wr bs w w' : received rd bs w w' -> io rd wr bs [] w w'.
Proof. intros [A1 A2 A3 A4]. split; try done. by rewrite A3, app_nil_r. Qed.
Lemma io_sent rd wr bs w w' : sent wr bs w w' -> io rd wr [] bs w w'.
Proof. intros [A1 A2 A3 A4]. split; try done. by rewrite A3. Qed.

(** The process outside the kernel: memory below the stack and the globals. *)
Record frame (p p' : Proc W) : Prop := {
  fr_sp : sp p' = sp p;
  fr_mem : forall x, x < sp p -> getb (mem p') x = getb (mem p) x;
  fr_data : main_arena_data p' = main_arena_data p;
  fr_code : main_arena_code p' = main_arena_code p;
  fr_ps : pagesize p' = pagesize p;
}.

Lemma frame_refl p : frame p p.
Proof. by split. Qed.
Lemma frame_trans p1 p2 p3 : frame p1 p2 -> frame p2 p3 -> frame p1 p3.
Proof.
  intros [A1 A2 A3 A4 A5] [B1 B2 B3 B4 B5]. split; try congruence.
  intros x Hx. rewrite B2 by lia. by apply A2.
Qed.

(** Descriptors and stack fit for a session. *)
Record session_ok (t : Translator) (p : Proc W) : Prop := {
  so_rd : fd_ok (rd_fd t);
  so_wr : fd_ok (wr_fd t);
  so_sp : 0 <= sp p /\ sp p + 64 < 2 ^ 62;
  so_stack : forall n, 0 <= n <= 64 -> readable (kst p) (sp p) n;
}.

Lemma session_step t t' p p' ins outs :
  session_ok t p -> io (rd_fd t) (wr_fd t) ins outs (kst p) (kst p') -> frame p p' ->
  rd_fd t' = rd_fd t -> wr_fd t' = wr_fd t -> session_ok t' p'.
Proof.
  intros [S1 S2 S3 S4] [_ _ I3] [F1 _ _ _ _] Er Ew. split; rewrite ?Er, ?Ew, ?F1; try done.
  intros n Hn. rewrite I3. by apply S4.
Qed.

Lemma write_local_ok t bs (p : Proc W) :
  session_ok t p -> Z.of_nat (length bs) <= 64 ->
  exists p', write_full_local (wr_fd t) bs p = (Z.of_nat (length bs), p') /\
    io (rd_fd t) (wr_fd t) [] bs (kst p) (kst p') /\ frame p p'.
Proof.
  intros [S1 S2 S3 S4] Hlen. unfold write_full_local, with_local.
  set (a := sp p). set (n := Z.of_nat (length bs)).
  set (p1 := set_mem (store_bytes (mem p) a bs) (set_sp (a + n) p)).
  rewrite (bind_unfold _ _ _ a p), (bind_unfold _ _ _ tt (set_sp (a + n) p)) by done.
  destruct (write_full_run (wr_fd t) a n p1) as (w' & Hw & Hsent).
  - done.
  - unfold buffer_ok. lia.
  - apply S4. lia.
  - exists (set_sp a (set_kernel (mem p1) w' p1)). split; [|split].
    + match goal with |- (?c ≫= ?k) ?q = _ => rewrite (bind_unfold c k q n (set_kernel (mem p1) w' p1)) end;
        [done|]. rewrite (bind_unfold _ _ _ tt p1) by done. exact Hw.
    + apply io_sent. change (kst p1) with (kst p) in Hsent.
      replace (load_bytes (mem p1) a (Z.to_nat n)) with bs in Hsent; [exact Hsent|].
      unfold n. rewrite Nat2Z.id. symmetry. apply load_store_same.
    + split; try done. intros x Hx. simpl. apply getb_store_out. fold a in Hx. lia.
Qed.

Lemma with_local_run {A} n (f : Z -> ST (Proc W) A) p r q :
  f (sp p) (set_sp (sp p + n) p) = (r, q) -> with_local n f p = (r, set_sp (sp p) q).
Proof. intros Hf. unfold with_local, gets, modify, mbind, ST_bind. by rewrite Hf. Qed.

(** Reading [n] bytes to [a] and inspecting them. *)
Lemma read_inspect {A} t n (k : memory -> A) bs rest (p : Proc W) a :
  fd_ok (rd_fd t) -> 0 <= a -> a + 64 < 2 ^ 62 -> Z.of_nat (length bs) = n -> n <= 64 ->
  incoming (kst p) (rd_fd t) = bs ++ rest ->
  exists w',
    (ret ← read_full (rd_fd t) a n; m ← gets mem; mret (s32 ret, k m)) p =
      ((n, k (store_bytes (mem p) a bs)), set_kernel (store_bytes (mem p) a bs) w' p) /\
    received (rd_fd t) bs (kst p) w' /\ incoming w' (rd_fd t) = rest.
Proof.
  intros Hfd Ha0 Ha1 Hlen Hn Hin.
  destruct (read_full_run (rd_fd t) a n p) as (w' & Hr & Hrec).
  - done.
  - unfold buffer_ok. lia.
  - rewrite Hin, length_app. lia.
  - rewrite Hin in Hr, Hrec.
    replace (take (Z.to_nat n) (bs ++ rest)) with bs in *
      by (rewrite take_app_length' by lia; done).
    exists w'. split; [|split; [done|]].
    + rewrite (bind_unfold _ _ _ _ _ Hr). unfold gets, mbind, ST_bind, mret, ST_ret.
      rewrite swrap_small by (unfold in_s; lia). done.
    + pose proof (recv_in _ _ _ _ Hrec) as E. rewrite Hin in E. by apply app_inv_head in E.
Qed.

Lemma length_le4 v : length (le4 v) = 4%nat.
Proof. apply (length_le 4). Qed.
Lemma length_le8 v : length (le8 v) = 8%nat.
Proof. apply (length_le 8). Qed.

(** Fields at the front of a stored block. *)
Lemma load_front m a k v rest :
  loadZ (store_bytes m a (Z_to_little_endian (Z.of_nat k) 8 v ++ rest)) k a = wrap (8 * Z.of_nat k) v.
Proof.
  unfold loadZ. pose proof (load_store_inside m a (Z_to_little_endian (Z.of_nat k) 8 v ++ rest) 0 k) as E.
  rewrite Z.add_0_r in E. rewrite E by (rewrite ?length_app, ?length_le; lia).
  rewrite drop_0, take_app_length' by (by rewrite length_le).
  rewrite little_endian_to_Z_to_little_endian by lia. unfold wrap. do 2 f_equal. lia.
Qed.

Lemma load_behind m a bs k v rest :
  loadZ (store_bytes m a (bs ++ Z_to_little_endian (Z.of_nat k) 8 v ++ rest)) k (a + Z.of_nat (length bs))
  = wrap (8 * Z.of_nat k) v.
Proof. rewrite store_bytes_app. apply load_front. Qed.

Lemma load4_first m a v rest : loadZ (store_bytes m a (le4 v ++ rest)) 4 a = u32 v.
Proof. apply (load_front m a 4). Qed.
Lemma load4_second m a u v : loadZ (store_bytes m a (le4 u ++ le4 v)) 4 (a + 4) = u32 v.
Proof.
  pose proof (load_behind m a (le4 u) 4 v []) as E. rewrite app_nil_r, length_le4 in E. exact E.
Qed.
Lemma load8_first m a v rest : loadZ (store_bytes m a (le8 v ++ rest)) 8 a = u64 v.
Proof. apply (load_front m a 8). Qed.
Lemma load8_second m a u v : loadZ (store_bytes m a (le8 u ++ le8 v)) 8 (a + 8) = u64 v.
Proof.
  pose proof (load_behind m a (le8 u) 8 v []) as E. rewrite app_nil_r, length_le8 in E. exact E.
Qed.

(** ** Headers *)

Lemma hdr_send_ok t id sz (p : Proc W) :
  session_ok t p -> last_id t = MSGID_UNKNOWN ->
  exists p', translator_hdr_send t id sz p = (0, p') /\
    io (rd_fd t) (wr_fd t) [] (le4 id ++ le4 sz) (kst p) (kst p') /\ frame p p'.
Proof.
  intros Hs Hl. unfold translator_hdr_send. rewrite Hl. cbn [negb].
  destruct (write_local_ok t (le4 id ++ le4 sz) p Hs) as (p' & Hw & Hio & Hf);
    [rewrite length_app, !length_le4; lia|].
  rewrite length_app, !length_le4 in Hw. exists p'. split; [|done].
  change (MSGID_UNKNOWN =? MSGID_UNKNOWN) with true. cbn [negb].
  by rewrite (bind_unfold _ _ _ _ _ Hw).
Qed.

(** Receiving a header when none is pending: consumed if it is the expected
    one, kept pending otherwise. *)
Lemma hdr_recv_ok t id id' sz rest (p : Proc W) :
  session_ok t p -> last_id t = MSGID_UNKNOWN -> in_u 32 id' -> in_s 32 sz ->
  incoming (kst p) (rd_fd t) = le4 id' ++ le4 sz ++ rest ->
  exists p', translator_hdr_recv t id p =
      (if id' =? id then (sz, set_last MSGID_UNKNOWN 0 t) else (- EPROTO, set_last id' sz t), p') /\
    io (rd_fd t) (wr_fd t) (le4 id' ++ le4 sz) [] (kst p) (kst p') /\ incoming (kst p') (rd_fd t) = rest /\ frame p p'.
Proof.
  intros Hs Hl Hid Hsz Hin. pose proof Hs as [S1 S2 S3 S4]. rewrite app_assoc in Hin.
  unfold translator_hdr_recv. rewrite Hl.
  set (a := sp p).
  set (p1 := set_mem (store_bytes (mem p) a (le4 MSGID_UNKNOWN ++ le4 (last_sz t))) (set_sp (a + 8) p)).
  destruct (read_inspect t 8 (fun m => set_last (loadZ m 4 a) (s32 (loadZ m 4 (a + 4))) t)
    (le4 id' ++ le4 sz) rest p1 a) as (w' & Hr & Hrec & Hrest);
    [done | lia | lia | by rewrite length_app, !length_le4 | lia | done |].
  rewrite load4_first, load4_second in Hr. rewrite (wrap_small 32 id'), swrap_wrap, swrap_small in Hr by (done || lia).
  set (p2 := set_kernel _ w' p1) in Hr.
  change (MSGID_UNKNOWN =? MSGID_UNKNOWN) with true. cbv iota.
  erewrite bind_unfold.
  2: { apply (with_local_run 8 _ p (8, set_last id' sz t) p2). fold a.
       rewrite (bind_unfold _ _ _ tt p1) by done. exact Hr. }
  fold a. exists (set_sp a p2). cbv beta iota. change (8 =? 8) with true. cbn [negb].
  change (last_id (set_last id' sz t)) with id'. split; [|split; [by apply io_received|split; [done|]]].
  - by destruct (Z.eqb_spec id' id).
  - split; try done. intros x Hx. fold a in Hx.
    change (mem (set_sp a p2)) with (store_bytes (store_bytes (mem p) a
      (le4 MSGID_UNKNOWN ++ le4 (last_sz t))) a (le4 id' ++ le4 sz)).
    rewrite !getb_store_out by (rewrite length_app, !length_le4; lia). done.
Qed.

(** A pending header is consumed without reading. *)
Lemma hdr_recv_pending t id (p : Proc W) :
  last_id t <> MSGID_UNKNOWN ->
  translator_hdr_recv t id p =
    (if last_id t =? id then (last_sz t, set_last MSGID_UNKNOWN 0 t) else (- EPROTO, t), p).
Proof.
  intros Hl. unfold translator_hdr_recv. rewrite (proj2 (Z.eqb_neq _ _) Hl).
  unfold mbind, ST_bind, mret, ST_ret. change (8 =? 8) with true. cbn [negb].
  by destruct (last_id t =? id).
Qed.

(** ** Memory requests *)

(** A scripted request of the server: address, size, and whether the client can
    read the memory. *)
Definition request : Type := Z * Z * bool.
Definition clip (size : Z) : Z := if 0x1000 <? size then 0x1000 else size.
Definition request_msg (rq : request) : list Z :=
  let '(a, size, _) := rq in le4 MSGID_S_MEMREQ ++ le4 16 ++ le8 a ++ le8 size.

(** The reply: the announced size, that many bytes, and the failure flag. *)
Definition reply_msg (m : memory) (rq : request) : list Z :=
  let '(a, size, ok) := rq in
  let n := clip size in
  le4 MSGID_C_MEMBUF ++ le4 (n + 1) ++
  (if (ok : bool) then load_bytes m a (Z.to_nat n) ++ [0] else replicate (Z.to_nat n) 0 ++ [1]).

(** The client can read all of the block, or not even its first byte; the block
    is not part of the client's stack. *)
Definition request_fits (w : W) (stack : Z) (rq : request) : Prop :=
  let '(a, size, ok) := rq in
  in_u 64 a /\ in_u 64 size /\ a + clip size <= stack /\
  if (ok : bool) then readable w a (clip size) else 0 < clip size /\ ~ readable w a 1.

Lemma clip_range size : in_u 64 size -> 0 <= clip size <= 0x1000.
Proof. unfold in_u, clip. intros. destruct (Z.ltb_spec 0x1000 size); lia. Qed.

Lemma write_full_fault fd buf n (p : Proc W) :
  fd_ok fd -> buffer_ok buf n -> 0 < n -> ~ readable (kst p) buf 1 ->
  exists w', write_full fd buf n p = (- EFAULT, set_kernel (mem p) w' p) /\
    sent fd [] (kst p) w'.
Proof.
  intros Hfd Hb Hn Hr. unfold buffer_ok in Hb.
  destruct (stream_fault fd buf n (mem p) (kst p) Hn Hr) as (w' & Hk & H1 & H2 & H3).
  exists w'. split; [|split; try done; by rewrite H2, app_nil_r].
  unfold write_full. replace (Z.to_nat n) with (S (Z.to_nat (n - 1))) by lia. cbn [write_full_loop].
  rewrite (proj2 (Z.ltb_lt 0 n)), Z.add_0_r, Z.sub_0_r by lia.
  rewrite !wrap_small by (unfold in_u; lia).
  assert (write fd buf n p = (- EFAULT, set_kernel (mem p) w' p)) as Hw.
  { unfold write, syscall, mbind, ST_bind, mret, ST_ret. rewrite fd_ok_u64, Hk by done. done. }
  by rewrite (bind_unfold _ _ _ _ _ Hw).
Qed.

Lemma send_padding_ok n t (p : Proc W) :
  session_ok t p ->
  exists p', send_padding n (wr_fd t) p = (true, p') /\
    io (rd_fd t) (wr_fd t) [] (replicate n 0) (kst p) (kst p') /\ frame p p'.
Proof.
  revert p; induction n as [|n IH]; intros p Hs; cbn [send_padding].
  - exists p. split; [done|]. split; [|apply frame_refl]. split; try done. simpl. by rewrite app_nil_r.
  - destruct (write_local_ok t [0] p Hs) as (p1 & Hw & Hio & Hf); [simpl; lia|].
    destruct (IH p1) as (p2 & Hp & Hio2 & Hf2); [by eapply session_step|].
    exists p2. rewrite (bind_unfold _ _ _ _ _ Hw). split; [exact Hp|].
    split; [apply (io_trans _ _ _ _ _ _ _ _ _ Hio Hio2) | by eapply frame_trans].
Qed.

(** Sending the block and the flag. *)
Lemma reply_body_ok t rq (p : Proc W) :
  session_ok t p -> request_fits (kst p) (sp p) rq ->
  let '(a, size, ok) := rq in
  let n := clip size in
  exists ret failed p1 p2,
    write_full (wr_fd t) a n p = (ret, p1) /\
    (if negb (s32 ret =? n) then
       if s32 ret =? - EFAULT then
         ok ← send_padding (Z.to_nat n) (wr_fd t); mret (ok, 1)
       else
         dprintf 2 (line "translator_get: failed writing from address 0x%lx") [VInt a];; mret (false, 0)
     else mret (true, 0)) p1 = ((true, failed), p2) /\
    io (rd_fd t) (wr_fd t) [] (if ok then load_bytes (mem p) a (Z.to_nat n) else replicate (Z.to_nat n) 0) (kst p) (kst p2) /\
    frame p p2 /\ failed = if ok then 0 else 1.
Proof.
  intros Hs Hfit. destruct rq as [[a size] ok]. destruct Hfit as (Ha & Hsz & Hst & Hok).
  pose proof (clip_range size Hsz) as Hc. set (n := clip size) in *. cbn zeta.
  unfold in_u in Ha. pose proof Hs as [S1 S2 S3 S4].
  assert (buffer_ok a n) as Hbuf by (unfold buffer_ok; lia).
  destruct ok.
  - destruct (write_full_run (wr_fd t) a n p S2 Hbuf Hok) as (w' & Hw & Hsent).
    exists n, 0, (set_kernel (mem p) w' p), (set_kernel (mem p) w' p). split; [done|].
    rewrite swrap_small by (unfold in_s; lia). rewrite Z.eqb_refl. cbn [negb].
    split; [done|]. split; [by apply io_sent|]. by split.
  - destruct Hok as [Hn Hnr].
    destruct (write_full_fault (wr_fd t) a n p S2 Hbuf Hn Hnr) as (w' & Hw & Hsent).
    set (p1 := set_kernel (mem p) w' p) in *.
    assert (io (rd_fd t) (wr_fd t) [] [] (kst p) (kst p1)) as Hio by (by apply io_sent).
    assert (frame p p1) as Hf by (by split).
    destruct (send_padding_ok (Z.to_nat n) t p1) as (p2 & Hp & Hio2 & Hf2); [by eapply session_step|].
    exists (- EFAULT), 1, p1, p2. split; [done|].
    change (s32 (- EFAULT)) with (- EFAULT).
    rewrite (proj2 (Z.eqb_neq (- EFAULT) n)) by (unfold EFAULT; lia). cbn [negb]. rewrite Z.eqb_refl.
    rewrite (bind_unfold _ _ _ _ _ Hp). split; [done|].
    split; [apply (io_trans _ _ _ _ _ _ _ _ _ Hio Hio2)|]. split; [by eapply frame_trans | done].
Qed.

(** One memory request is answered. *)
Lemma round_request t rq rest (p : Proc W) :
  session_ok t p -> last_id t = MSGID_UNKNOWN -> request_fits (kst p) (sp p) rq ->
  incoming (kst p) (rd_fd t) = request_msg rq ++ rest ->
  exists p', translator_get_round t p = (inl (add_written (clip rq.1.2) (set_last MSGID_UNKNOWN 0 t)), p') /\
    io (rd_fd t) (wr_fd t) (request_msg rq) (reply_msg (mem p) rq) (kst p) (kst p') /\ frame p p' /\
    incoming (kst p') (rd_fd t) = rest.
Proof.
  intros Hs Hl Hfit Hin. pose proof Hs as [S1 S2 S3 S4].
  destruct rq as [[a size] ok] eqn:Erq. pose proof Hfit as (Ha & Hsz & Hst & Hok). cbn [fst snd].
  pose proof (clip_range size Hsz) as Hc.
  unfold request_msg in Hin. rewrite <- !app_assoc in Hin.
  destruct (hdr_recv_ok t MSGID_S_MEMREQ MSGID_S_MEMREQ 16 _ p Hs Hl ltac:(unfold in_u; vm_compute; done)
    ltac:(unfold in_s; lia) Hin) as (p1 & H1 & Hio1 & Hin1 & Hf1).
  rewrite Z.eqb_refl in H1. set (t1 := set_last MSGID_UNKNOWN 0 t) in *.
  assert (session_ok t1 p1) as Hs1 by (by eapply session_step).
  unfold translator_get_round. rewrite (bind_unfold _ _ _ _ _ H1). cbv beta iota.
  change (16 =? - EPROTO) with false. change (16 <? 0) with false. change (16 =? 16) with true. cbn [negb].
  (* the request itself *)
  pose proof Hs1 as [S1' S2' S3' S4'].
  rewrite app_assoc in Hin1.
  destruct (read_inspect t1 16 (fun m => (loadZ m 8 (sp p1), loadZ m 8 (sp p1 + 8))) (le8 a ++ le8 size) rest
    (set_sp (sp p1 + 16) p1) (sp p1)) as (w2 & H2 & Hrec2 & Hin2);
    [done | lia | lia | by rewrite length_app, !length_le8 | lia | exact Hin1 |].
  rewrite load8_first, load8_second, !(wrap_small 64) in H2 by done.
  set (p2 := set_sp (sp p1) (set_kernel (store_bytes (mem p1) (sp p1) (le8 a ++ le8 size)) w2
    (set_sp (sp p1 + 16) p1))).
  assert (io (rd_fd t) (wr_fd t) (le8 a ++ le8 size) [] (kst p1) (kst p2)) as Hio2 by (by apply io_received).
  assert (frame p1 p2) as Hf2.
  { split; try done. intros x Hx. change (mem p2) with (store_bytes (mem p1) (sp p1) (le8 a ++ le8 size)).
    apply getb_store_out. lia. }
  rewrite (bind_unfold _ _ _ _ _ (with_local_run 16 _ p1 _ _ H2)). fold p2.
  cbv beta iota. change (16 =? 16) with true. cbn [negb]. fold (clip size).
  assert (session_ok t1 p2) as Hs2 by (by eapply session_step).
  destruct (hdr_send_ok t1 MSGID_C_MEMBUF (clip size + 1) p2 Hs2 eq_refl) as (p3 & H3 & Hio3 & Hf3).
  rewrite (bind_unfold _ _ _ _ _ H3). change (0 <? 0) with false. cbv iota.
  assert (session_ok t1 p3) as Hs3 by (by eapply session_step).
  pose proof (frame_trans _ _ _ (frame_trans _ _ _ Hf1 Hf2) Hf3) as Hf13.
  assert (io (rd_fd t) (wr_fd t) (le4 MSGID_S_MEMREQ ++ le4 16 ++ le8 a ++ le8 size)
    (le4 MSGID_C_MEMBUF ++ le4 (clip size + 1)) (kst p) (kst p3)) as Hio13.
  { pose proof (io_trans _ _ _ _ _ _ _ _ _ (io_trans _ _ _ _ _ _ _ _ _ Hio1 Hio2) Hio3) as E.
    rewrite app_nil_r, <- !app_assoc in E. exact E. }
  assert (request_fits (kst p3) (sp p3) (a, size, ok)) as Hfit3.
  { split; [done|]. split; [done|]. rewrite (fr_sp _ _ Hf13). split; [done|].
    destruct ok; [|destruct Hok as [Hn Hnr]; split; [done|]];
      rewrite (io_readable _ _ _ _ _ _ Hio13); done. }
  destruct (reply_body_ok t1 _ p3 Hs3 Hfit3) as (ret & failed & p4 & p5 & H4 & H5 & Hio5 & Hf5 & Hfl).
  rewrite (bind_unfold _ _ _ _ _ H4), (bind_unfold _ _ _ _ _ H5). cbn [negb].
  assert (session_ok t1 p5) as Hs5 by (by eapply session_step).
  destruct (write_local_ok t1 [failed] p5 Hs5) as (p6 & H6 & Hio6 & Hf6); [simpl; lia|].
  rewrite (bind_unfold _ _ _ _ _ H6). change (s32 (Z.of_nat (length [failed])) =? 1) with true. cbn [negb].
  pose proof (frame_trans _ _ _ (frame_trans _ _ _ Hf13 Hf5) Hf6) as Hf16.
  pose proof (io_trans _ _ _ _ _ _ _ _ _ (io_trans _ _ _ _ _ _ _ _ _ Hio13 Hio5) Hio6) as Hio16.
  exists p6. split; [done|]. split; [|split; [done|]].
  - rewrite !app_nil_r in Hio16. unfold request_msg, reply_msg.
    replace (load_bytes (mem p) a _) with (load_bytes (mem p3) a (Z.to_nat (clip size))).
    + subst failed. destruct ok; rewrite <- !app_assoc in Hio16; exact Hio16.
    + apply load_bytes_ext. intros x Hx. apply (fr_mem _ _ Hf13). lia.
  - pose proof (io_in _ _ _ _ _ _ Hio16) as E. rewrite Hin, !app_nil_r, <- !app_assoc in E.
    repeat apply app_inv_head in E. done.
Qed.

(** ** The object *)

Lemma swrap32_high x : 0xfffffffffffff000 < x -> in_u 64 x -> s32 x < 0.
Proof.
  intros Hx Hu. unfold in_u in Hu. unfold swrap. change (2 ^ (32 - 1)) with 2147483648.
  replace (x + 2147483648) with (x - 2 ^ 64 + 2147483648 + 2 ^ 32 * 2 ^ 32) by lia.
  rewrite Z_mod_plus_full, Z.mod_small by lia. lia.
Qed.


(** The receive buffer and the data arena lie below the stack. *)
Record recv_ok (t : Translator) (p : Proc W) : Prop := {
  ro_buf : 0 <= recvbuf t /\ recvbuf t + recvbuf_sz t <= sp p;
  ro_arena : arena_wf (pagesize p) (main_arena_data p);
  ro_below : end_ (main_arena_data p) <= sp p;
  ro_abi : KernelAbi W (pagesize p);
}.

Lemma alloc_data_streams n al (p p' : Proc W) ptr fd :
  arena_wf (pagesize p) (main_arena_data p) -> request_ok n al -> KernelAbi W (pagesize p) ->
  mem_alloc_data n al p = (ptr, p') ->
  incoming (kst p') fd = incoming (kst p) fd /\ outgoing (kst p') fd = outgoing (kst p) fd.
Proof.
  intros Hwf Hreq Habi Ha.
  apply mem_alloc_data_ok in Ha as (_ & _ & _ & _ & [->|(args & r & st & Hk & ->)]); try done.
  apply stream_mprotect in Hk as [H1 H2]. by rewrite H1, H2.
Qed.

(** The buffer for an object of [n] bytes: the old one, a new one, or none. *)
Lemma recv_buffer t n (p : Proc W) :
  recv_ok t p -> 0 <= n < 2 ^ 31 ->
  exists err t' p',
    (if recvbuf_sz t <=? n then
       ps ← getpagesize;
       let newsz := ALIGN_UP n ps in
       buf ← mem_alloc_data newsz ps;
       if BAD_ADDR buf then mret (true, set_recvbuf buf (recvbuf_sz t) t)
       else mret (false, set_recvbuf buf newsz t)
     else mret (false, t)) p = ((err, t'), p') /\
    (forall fd, incoming (kst p') fd = incoming (kst p) fd /\ outgoing (kst p') fd = outgoing (kst p) fd) /\
    mem p' = mem p /\ sp p' = sp p /\ rd_fd t' = rd_fd t /\ wr_fd t' = wr_fd t /\ last_id t' = last_id t /\
    if (err : bool) then recvbuf_sz t <= n /\ s32 (recvbuf t') < 0
    else 0 <= recvbuf t' /\ recvbuf t' + n <= sp p.
Proof.
  intros [[Hb0 Hb1] Hwf Hbel Habi] Hn. destruct (Z.leb_spec (recvbuf_sz t) n) as [Hle|Hgt].
  2: { exists false, t, p. split_and!; try done; lia. }
  rewrite (bind_unfold _ _ _ (pagesize p) p) by done. cbv zeta.
  pose proof (abi_pagesize (W := W) (ps := pagesize p)) as [Hp2 Hps].
  destruct (ALIGN_UP_spec n (pagesize p) Hp2) as [Hup Hmod]; [lia | lia |].
  set (newsz := ALIGN_UP n (pagesize p)) in *.
  destruct (mem_alloc_data newsz (pagesize p) p) as [buf p1] eqn:Ha.
  assert (request_ok newsz (pagesize p)) as Hreq by (split; lia).
  pose proof (fun fd => alloc_data_streams _ _ _ _ _ fd Hwf Hreq Habi Ha) as Hstr.
  rewrite (bind_unfold _ _ _ _ _ Ha).
  apply mem_alloc_data_ok in Ha as (Hout & Hm & Hsp & _); try done.
  destruct (BAD_ADDR buf) eqn:Hbad.
  - exists true, (set_recvbuf buf (recvbuf_sz t) t), p1. split_and!; try done.
    revert Hbad. unfold BAD_ADDR. rewrite Z.ltb_lt. intros Hr. simpl.
    rewrite <- (swrap_wrap_le 32 64) by lia. apply swrap32_high; [done|]. by apply wrap_range.
  - exists false, (set_recvbuf buf newsz t), p1.
    destruct Hout as [?|Hr _ Hs He Hbrk Hp Hwf']; [congruence|].
    split_and!; try done; simpl; destruct Hwf, Hwf'; lia.
Qed.

Lemma get_object_pending t obj rest (p : Proc W) :
  fd_ok (rd_fd t) -> recv_ok t p -> sp p < 2 ^ 62 ->
  last_id t = MSGID_S_OBJECT -> last_sz t = Z.of_nat (length obj) -> last_sz t < 2 ^ 31 ->
  incoming (kst p) (rd_fd t) = obj ++ rest ->
  exists ret t' o p', translator_get_object t p = ((ret, t', o), p') /\
    (forall fd, outgoing (kst p') fd = outgoing (kst p) fd) /\
    ((ret = 0 /\ o = Some (recvbuf t', last_sz t) /\ last_id t' = MSGID_UNKNOWN /\
      load_bytes (mem p') (recvbuf t') (length obj) = obj /\ incoming (kst p') (rd_fd t) = rest) \/
     (ret < 0 /\ o = None /\ recvbuf_sz t <= last_sz t)).
Proof.
  intros Hfd Hro Hsp Hid Hsz Hlt Hin. unfold translator_get_object.
  assert (translator_hdr_recv t MSGID_S_OBJECT p = ((last_sz t, set_last MSGID_UNKNOWN 0 t), p)) as H1.
  { rewrite hdr_recv_pending by (rewrite Hid; discriminate). by rewrite Hid, Z.eqb_refl. }
  rewrite (bind_unfold _ _ _ _ _ H1). cbv beta iota.
  rewrite (proj2 (Z.ltb_ge (last_sz t) 0)) by lia.
  set (t1 := set_last MSGID_UNKNOWN 0 t) in *.
  assert (recv_ok t1 p) as Hro1 by (by destruct Hro).
  destruct (recv_buffer t1 (last_sz t) p Hro1) as (err & t2 & p2 & H2 & Hstr & Hm & Hsp2 & Er & Ew & El & Hres);
    [lia|].
  rewrite (bind_unfold _ _ _ _ _ H2). cbv beta iota. destruct err.
  - eexists _, t2, None, p2. split; [done|]. split; [intros fd; apply Hstr|]. right.
    destruct Hres. by split_and!.
  - destruct Hres as [Hb0 Hb1].
    destruct (read_full_run (rd_fd t2) (recvbuf t2) (last_sz t) p2) as (w' & Hr & Hrec).
    + by rewrite Er.
    + unfold buffer_ok. lia.
    + rewrite Er. change (rd_fd t1) with (rd_fd t). destruct (Hstr (rd_fd t)) as [-> _].
      rewrite Hin, length_app. lia.
    + rewrite Er in Hr, Hrec. change (rd_fd t1) with (rd_fd t) in *.
      destruct (Hstr (rd_fd t)) as [Ei _]. rewrite Ei, Hin in Hr, Hrec.
      replace (take _ (obj ++ rest)) with obj in *
        by (rewrite Hsz, Nat2Z.id, take_app_length; done).
      rewrite Er. change (rd_fd t1) with (rd_fd t).
      rewrite (bind_unfold _ _ _ _ _ Hr). rewrite swrap_small by (unfold in_s; lia).
      rewrite Z.eqb_refl. cbn [negb].
      eexists 0, t2, _, _. split; [done|]. split.
      { intros fd. simpl. rewrite (recv_out _ _ _ _ Hrec). apply Hstr. }
      left. split_and!; try done.
      * simpl. apply load_store_same.
      * pose proof (recv_in _ _ _ _ Hrec) as E. rewrite Ei, Hin in E. by apply app_inv_head in E.
Qed.

(** ** The session *)

Lemma request_fits_readable w w' stack rq :
  (forall a k, readable w' a k <-> readable w a k) -> request_fits w stack rq -> request_fits w' stack rq.
Proof.
  intros Hrd. destruct rq as [[a size] ok]. intros (Ha & Hsz & Hst & Hok).
  split; [done|]. split; [done|]. split; [done|].
  destruct ok; [|destruct Hok as [Hn Hnr]; split; [done|]]; by rewrite Hrd.
Qed.

(** The replies only depend on the memory below the stack. *)
Lemma replies_ext m m' w stack script :
  Forall (request_fits w stack) script -> (forall x, x < stack -> getb m x = getb m' x) ->
  script ≫= reply_msg m = script ≫= reply_msg m'.
Proof.
  intros Hfit Hx. apply bind_ext_in. intros rq Hrq. rewrite Forall_forall in Hfit.
  specialize (Hfit rq Hrq). destruct rq as [[a size] ok]. destruct Hfit as (Ha & Hsz & Hst & _).
  unfold reply_msg. pose proof (clip_range size Hsz).
  replace (load_bytes m a (Z.to_nat (clip size))) with (load_bytes m' a (Z.to_nat (clip size))); [done|].
  apply load_bytes_ext. intros y Hy. symmetry. apply Hx. lia.
Qed.

(** The object message reaches the loop as a header that does not match. *)
Lemma round_object t obj rest (p : Proc W) :
  session_ok t p -> recv_ok t p -> last_id t = MSGID_UNKNOWN -> Z.of_nat (length obj) < 2 ^ 31 ->
  incoming (kst p) (rd_fd t) = le4 MSGID_S_OBJECT ++ le4 (Z.of_nat (length obj)) ++ obj ++ rest ->
  exists ret t' o p', translator_get_round t p = (inr (ret, t', o), p') /\
    outgoing (kst p') (wr_fd t) = outgoing (kst p) (wr_fd t) /\
    ((ret = 0 /\ o = Some (recvbuf t', Z.of_nat (length obj)) /\ last_id t' = MSGID_UNKNOWN /\
      load_bytes (mem p') (recvbuf t') (length obj) = obj /\ incoming (kst p') (rd_fd t) = rest) \/
     (ret < 0 /\ o = None /\ recvbuf_sz t <= Z.of_nat (length obj))).
Proof.
  intros Hs Hro Hl Hlen Hin. pose proof Hs as [S1 S2 S3 S4].
  destruct (hdr_recv_ok t MSGID_S_MEMREQ MSGID_S_OBJECT (Z.of_nat (length obj)) _ p Hs Hl
    ltac:(unfold in_u; vm_compute; done) ltac:(unfold in_s; lia) Hin) as (p1 & H1 & Hio1 & Hin1 & Hf1).
  change (MSGID_S_OBJECT =? MSGID_S_MEMREQ) with false in H1. cbv iota in H1.
  unfold translator_get_round. rewrite (bind_unfold _ _ _ _ _ H1). cbv beta iota. rewrite Z.eqb_refl.
  set (t1 := set_last _ _ t) in *. pose proof Hf1 as [F1 F2 F3 F4 F5].
  destruct (get_object_pending t1 obj rest p1) as (ret & t' & o & p' & H2 & Hout & Hres); try done.
  - destruct Hro as [R1 R2 R3 R4]. split; rewrite ?F1, ?F3, ?F5; done.
  - rewrite F1. lia.
  - exists ret, t', o, p'. rewrite (bind_unfold _ _ _ _ _ H2). split; [done|]. split; [|done].
    rewrite Hout. pose proof (io_out _ _ _ _ _ _ Hio1) as E. by rewrite app_nil_r in E.
Qed.

Lemma loop_session script fuel t obj rest (p : Proc W) :
  session_ok t p -> recv_ok t p -> last_id t = MSGID_UNKNOWN -> Z.of_nat (length obj) < 2 ^ 31 ->
  Forall (request_fits (kst p) (sp p)) script -> (length script < fuel)%nat ->
  incoming (kst p) (rd_fd t) = (script ≫= request_msg) ++
    le4 MSGID_S_OBJECT ++ le4 (Z.of_nat (length obj)) ++ obj ++ rest ->
  exists ret t' o p', translator_get_loop fuel t p = (Some (ret, t', o), p') /\
    outgoing (kst p') (wr_fd t) = outgoing (kst p) (wr_fd t) ++ (script ≫= reply_msg (mem p)) /\
    ((ret = 0 /\ o = Some (recvbuf t', Z.of_nat (length obj)) /\ last_id t' = MSGID_UNKNOWN /\
      load_bytes (mem p') (recvbuf t') (length obj) = obj /\ incoming (kst p') (rd_fd t) = rest) \/
     (ret < 0 /\ o = None /\ recvbuf_sz t <= Z.of_nat (length obj))).
Proof.
  revert fuel t p. induction script as [|rq script IH]; intros fuel t p Hs Hro Hl Hlen Hfit Hf Hin;
    (destruct fuel as [|fuel]; [simpl in Hf; lia|]); cbn [translator_get_loop].
  - destruct (round_object t obj rest p Hs Hro Hl Hlen Hin) as (ret & t' & o & p' & H1 & Hout & Hres).
    exists ret, t', o, p'. rewrite (bind_unfold _ _ _ _ _ H1). split; [done|].
    split; [|done]. change ([] ≫= reply_msg (mem p)) with (@nil Z). by rewrite app_nil_r.
  - rewrite bind_cons, <- app_assoc in Hin. inversion Hfit as [|? ? Hfit0 Hfit']; subst.
    destruct (round_request t rq _ p Hs Hl Hfit0 Hin) as (p1 & H1 & Hio1 & Hf1 & Hin1).
    rewrite (bind_unfold _ _ _ _ _ H1). set (t1 := add_written _ _) in *.
    pose proof Hf1 as [F1 F2 F3 F4 F5].
    destruct (IH fuel t1 p1) as (ret & t' & o & p' & H2 & Hout & Hres); try done.
    + by eapply session_step.
    + destruct Hro as [R1 R2 R3 R4]. split; rewrite ?F1, ?F3, ?F5; done.
    + eapply Forall_impl; [exact Hfit'|]. intros rq' Hrq. rewrite F1.
      by apply (request_fits_readable _ _ _ _ (io_readable _ _ _ _ _ _ Hio1)).
    + simpl in Hf. lia.
    + exists ret, t', o, p'. split; [done|]. split; [|done].
      change (wr_fd t1) with (wr_fd t) in Hout. rewrite Hout, (io_out _ _ _ _ _ _ Hio1).
      rewrite bind_cons, <- app_assoc. do 2 f_equal.
      apply (replies_ext _ _ (kst p) (sp p)); [done|]. intros x Hx. by apply F2.
Qed.
End Session.

(** Sending the request, and the loop. *)
Lemma get_session {W} `{StreamKernel W} script fuel t addr obj rest (p : Proc W) :
  session_ok t p -> recv_ok t p -> last_id t = MSGID_UNKNOWN -> Z.of_nat (length obj) < 2 ^ 31 ->
  Forall (request_fits (kst p) (sp p)) script -> (length script < fuel)%nat ->
  incoming (kst p) (rd_fd t) = (script ≫= request_msg) ++
    le4 MSGID_S_OBJECT ++ le4 (Z.of_nat (length obj)) ++ obj ++ rest ->
  exists ret t' o p', translator_get fuel t addr p = (Some (ret, t', o), p') /\
    outgoing (kst p') (wr_fd t) = outgoing (kst p) (wr_fd t) ++
      (le4 MSGID_C_TRANSLATE ++ le4 8 ++ le8 addr) ++ (script ≫= reply_msg (mem p)) /\
    ((ret = 0 /\ o = Some (recvbuf t', Z.of_nat (length obj)) /\ last_id t' = MSGID_UNKNOWN /\
      load_bytes (mem p') (recvbuf t') (length obj) = obj /\ incoming (kst p') (rd_fd t) = rest) \/
     (ret < 0 /\ o = None /\ recvbuf_sz t <= Z.of_nat (length obj))).
Proof.
  intros Hs Hro Hl Hlen Hfit Hf Hin. unfold translator_get.
  destruct (hdr_send_ok t MSGID_C_TRANSLATE 8 p Hs Hl) as (p1 & H1 & Hio1 & Hf1).
  rewrite (bind_unfold _ _ _ _ _ H1). cbn [Z.eqb negb].
  assert (session_ok t p1) as Hs1 by (by eapply session_step).
  destruct (write_local_ok t (le8 addr) p1 Hs1) as (p2 & H2 & Hio2 & Hf2); [rewrite length_le8; lia|].
  rewrite length_le8 in H2. rewrite (bind_unfold _ _ _ _ _ H2).
  change (s32 (Z.of_nat 8) =? 8) with true. cbn [negb].
  pose proof (io_trans _ _ _ _ _ _ _ _ _ Hio1 Hio2) as Hio. pose proof (frame_trans _ _ _ Hf1 Hf2) as Hfr.
  pose proof Hfr as [F1 F2 F3 F4 F5].
  destruct (loop_session script fuel t obj rest p2) as (ret & t' & o & p' & H3 & Hout & Hres); try done.
  - by eapply session_step.
  - destruct Hro as [R1 R2 R3 R4]. split; rewrite ?F1, ?F3, ?F5; done.
  - eapply Forall_impl; [exact Hfit|]. intros rq Hrq. rewrite F1.
    by apply (request_fits_readable _ _ _ _ (io_readable _ _ _ _ _ _ Hio)).
  - pose proof (io_in _ _ _ _ _ _ Hio) as E. simpl in E. by rewrite <- E.
  - exists ret, t', o, p'. split; [done|]. split; [|done].
    rewrite Hout, (io_out _ _ _ _ _ _ Hio), <- !app_assoc. do 4 f_equal.
    apply replies_ext with (stack := sp p) (w := kst p); [done|]. intros x Hx. by apply F2.
Qed.

(** C28. A translation session, over a connection that may split reads and
    writes anywhere: against a server that sends any number of memory requests
    and then an object, [translator_get] sends the translation request and one
    reply per memory request (header with the announced size, that many bytes
    of memory or of padding, and the failure flag) and returns 0 with exactly
    the bytes of the object in the receive buffer, unless the buffer had to
    grow and the arena is exhausted. *)
Theorem translator_session {W} `{StreamKernel W} script fuel t addr obj rest (p : Proc W) :
  session_ok t p -> recv_ok t p -> last_id t = MSGID_UNKNOWN -> Z.of_nat (length obj) < 2 ^ 31 ->
  Forall (request_fits (kst p) (sp p)) script -> (length script < fuel)%nat ->
  incoming (kst p) (rd_fd t) = (script ≫= request_msg) ++
    le4 MSGID_S_OBJECT ++ le4 (Z.of_nat (length obj)) ++ obj ++ rest ->
  exists ret t' o p', translator_get fuel t addr p = (Some (ret, t', o), p') /\
    outgoing (kst p') (wr_fd t) = outgoing (kst p) (wr_fd t) ++
      (le4 MSGID_C_TRANSLATE ++ le4 8 ++ le8 addr) ++ (script ≫= reply_msg (mem p)) /\
    ((ret = 0 /\ o = Some (recvbuf t', Z.of_nat (length obj)) /\ last_id t' = MSGID_UNKNOWN /\
      load_bytes (mem p') (recvbuf t') (length obj) = obj /\ incoming (kst p') (rd_fd t) = rest) \/
     (ret < 0 /\ o = None /\ recvbuf_sz t <= Z.of_nat (length obj))).
Proof. apply get_session. Qed.

(** A server that asks for three bytes and then sends an object of five; the
    connection moves three bytes per call. *)
Definition tr0 : Translator := mkTr 3 4 0 MSGID_UNKNOWN 0 0x600 16.
Definition script0 : list request := [(0x501, 3, true)].
Definition obj0 : list Z := [10; 20; 30; 40; 50].
Definition session_proc (input : list Z) : Proc Pipes :=
  mkProc (store_bytes ∅ 0x500 [1; 2; 3; 4; 5; 6; 7]) (mkPipes {[3 := input]} ∅ 2 0x10000)
    (mkArena 0 0 0 0) (mkArena 0x2000 0x4000 0x2000 0x2000) 4096 0x8000.

Lemma translator_session_witness :
  let input := (script0 ≫= request_msg) ++ le4 MSGID_S_OBJECT ++ le4 5 ++ obj0 ++ [] in
  exists ret t' o p',
    translator_get 2 tr0 0x401000 (session_proc input) = (Some (ret, t', o), p') /\
    lk_outgoing (kst p') 4 =
      [] ++ (le4 MSGID_C_TRANSLATE ++ le4 8 ++ le8 0x401000) ++
      (le4 MSGID_C_MEMBUF ++ le4 4 ++ [2; 3; 4] ++ [0]) /\
    ((ret = 0 /\ o = Some (recvbuf t', 5) /\ last_id t' = MSGID_UNKNOWN /\
      load_bytes (mem p') (recvbuf t') 5 = obj0 /\ lk_incoming (kst p') 3 = []) \/
     (ret < 0 /\ o = None /\ 16 <= 5)).
Proof.
  intros input.
  pose proof (translator_session script0 2 tr0 0x401000 obj0 [] (session_proc input)) as T.
  replace (script0 ≫= reply_msg (mem (session_proc input)))
    with (le4 MSGID_C_MEMBUF ++ le4 4 ++ [2; 3; 4] ++ [0]) in T by (vm_compute; reflexivity).
  apply T.
  - split; [unfold fd_ok; simpl; lia | unfold fd_ok; simpl; lia | simpl; lia | intros n Hn _; simpl; lia].
  - split; [simpl; lia | constructor; simpl; try lia; try reflexivity; exists 12; lia | simpl; lia |
      apply loopback_abi].
  - reflexivity.
  - simpl. lia.
  - constructor; [|constructor].
    split; [unfold in_u; lia|]. split; [unfold in_u; lia|]. split; [vm_compute; discriminate|].
    intros _. vm_compute. discriminate.
  - simpl. lia.
  - reflexivity.
Defined.

(** A memory request that runs into unreadable memory after some bytes
    desynchronises the connection: the client announces five bytes (four and
    the flag) but sends the two readable bytes, four bytes of padding and the
    flag. *)
Theorem translator_partial_fault :
  let input := request_msg (0xfffe, 4, false) in
  let p := mkProc (store_bytes ∅ 0xfffe [7; 8]) (mkPipes {[3 := input]} ∅ 2 0x10000)
             (mkArena 0 0 0 0) (mkArena 0 0 0 0) 4096 0x8000 in
  let '(r, p') := translator_get_round tr0 p in
  r = inl (add_written 4 tr0) /\
  lk_outgoing (kst p') 4 = le4 MSGID_C_MEMBUF ++ le4 5 ++ [7; 8] ++ [0; 0; 0; 0] ++ [1].
Proof. vm_compute. split; reflexivity. Qed.
