(* ===== verification/TranslatorLive.v ===== *)
(** * The translation request returns, for [Translator.v]

    The loop of [translator_get] has no bound of its own: the server decides how
    often it asks for memory.  Every round consumes bytes of the connection, so
    a server that sends finitely many bytes is answered finitely often,
    whatever the bytes are and whichever calls fail. *)

From Stdlib Require Import ZArith Lia.
From stdpp Require Import base numbers list list_numbers option gmap.
From S2P Require Import Prelude Machine Loopback Minilibc Printf RtldReloc RtldElf Translator TranslatorProofs.

(** What is assumed of the kernel: [pending w fd] bounds the bytes that can
    still be read from [fd]; a read uses up what it returns, which is at most
    what was asked for, or fails with a small negative number; writing gives
    nothing to read. *)
Class InputKernel (W : Type) `{Kernel W} := {
  pending : W -> Z -> Z;
  pending_nonneg : forall w fd, 0 <= pending w fd;
  input_read : forall fd buf n m w r m' w', 0 <= n < 2 ^ 31 ->
    kernel NR_read [fd; buf; n] (m, w) = (r, (m', w')) ->
    pending w' fd + Z.max 0 (s64 r) <= pending w fd /\ -4096 < s64 r <= n;
  input_write : forall args m w r m' w' fd,
    kernel NR_write args (m, w) = (r, (m', w')) -> pending w' fd <= pending w fd;
}.

Section Live.
Context {W : Type} `{InputKernel W}.
Context (fd : Z).

Definition left_ (p : Proc W) : Z := pending (kst p) (u64 fd).

(** The computation adds nothing to the input. *)
Definition quiet {A} (c : ST (Proc W) A) : Prop := forall p, left_ (c p).2 <= left_ p.

Lemma quiet_ret {A} (a : A) : quiet (mret a).
Proof. intros p. done. Qed.
Lemma quiet_bind {A B} (c : ST (Proc W) A) (f : A -> ST (Proc W) B) :
  quiet c -> (forall a, quiet (f a)) -> quiet (c ≫= f).
Proof.
  intros Hc Hf p. unfold mbind, ST_bind. specialize (Hc p). destruct (c p) as [a p1]. specialize (Hf a p1).
  cbn in *. lia.
Qed.
Lemma quiet_gets {A} (f : Proc W -> A) : quiet (gets f).
Proof. intros p. done. Qed.
Lemma quiet_set_mem (f : memory -> memory) : quiet (modify (fun p => set_mem (f (mem p)) p)).
Proof. intros p. done. Qed.
Lemma quiet_set_sp a : quiet (modify (set_sp a)).
Proof. intros p. done. Qed.
Lemma quiet_local {A} n (f : Z -> ST (Proc W) A) : (forall a, quiet (f a)) -> quiet (with_local n f).
Proof.
  intros Hf. unfold with_local. repeat (apply quiet_bind; [|intros ?]); auto using quiet_gets, quiet_set_sp, quiet_ret.
Qed.
Lemma quiet_write fd' buf n : quiet (write fd' buf n).
Proof.
  apply quiet_bind; [|intros; apply quiet_ret]. intros p. unfold syscall, left_.
  destruct (kernel _ _ _) as [r [m w]] eqn:E. cbn. by eapply input_write.
Qed.
Lemma quiet_write_loop fuel fd' buf n total : quiet (write_full_loop fuel fd' buf n total).
Proof.
  revert total; induction fuel as [|fuel IH]; intros total; cbn [write_full_loop]; [apply quiet_ret|].
  destruct (total <? n); [|apply quiet_ret]. apply quiet_bind; [apply quiet_write|]. intros r.
  destruct (r <? 0); [apply quiet_ret|]. destruct (r =? 0); [apply quiet_ret | apply IH].
Qed.
Lemma quiet_write_local fd' bs : quiet (write_full_local fd' bs).
Proof.
  apply quiet_local. intros a.
  apply quiet_bind; [apply (quiet_set_mem (fun m => store_bytes m a bs))|]. intros _. apply quiet_write_loop.
Qed.
Lemma quiet_padding n fd' : quiet (send_padding n fd').
Proof.
  induction n as [|n IH]; cbn [send_padding]; [apply quiet_ret|].
  apply quiet_bind; [apply quiet_write_local|]. intros r. destruct (negb (r =? 1)); [apply quiet_ret | apply IH].
Qed.
Lemma quiet_hdr_send t id sz : quiet (translator_hdr_send t id sz).
Proof.
  unfold translator_hdr_send. destruct (negb _); [apply quiet_ret|].
  apply quiet_bind; [apply quiet_write_local|]. intros r. destruct (negb _); apply quiet_ret.
Qed.

(** Reading: a result of [n] bytes has used them up. *)
Lemma read_loop_left fuel buf n total (p : Proc W) :
  0 <= total <= n -> n < 2 ^ 31 ->
  let '(r, p') := read_full_loop fuel fd buf n total p in
  left_ p' <= left_ p /\ (r = n -> left_ p' + (n - total) <= left_ p) /\ -4096 < r <= n.
Proof.
  intros Ht Hn. revert total p Ht; induction fuel as [|fuel IH]; intros total p Ht; cbn [read_full_loop].
  - unfold mret, ST_ret. rewrite swrap_small by (unfold in_s; lia). lia.
  - destruct (Z.ltb_spec total n).
    2: { unfold mret, ST_ret. rewrite swrap_small by (unfold in_s; lia). lia. }
    unfold read, syscall, mbind, ST_bind, mret, ST_ret.
    destruct (kernel _ _ _) as [r [m w]] eqn:E. rewrite (wrap_small 64 (n - total)) in E by (unfold in_u; lia).
    apply input_read in E as [E1 E2]; [|lia]. cbn [set_kernel]. rewrite swrap_wrap.
    destruct (Z.ltb_spec (s64 r) 0).
    { unfold left_. cbn [kst set_kernel]. lia. }
    destruct (Z.eqb_spec (s64 r) 0).
    { unfold left_, EIO. cbn [kst set_kernel]. lia. }
    rewrite wrap_small by (unfold in_u; lia).
    specialize (IH (total + s64 r) (set_kernel m w p) ltac:(lia)).
    destruct (read_full_loop _ _ _ _ _ _) as [r' p']. unfold left_ in *. cbn [kst set_kernel] in *. lia.
Qed.

Lemma read_full_left buf n (p : Proc W) :
  0 <= n < 2 ^ 31 ->
  let '(r, p') := read_full fd buf n p in
    left_ p' <= left_ p /\ (r = n -> left_ p' + n <= left_ p) /\ -4096 < r <= n.
Proof.
  intros Hn. pose proof (read_loop_left (Z.to_nat n) buf n 0 p) as L. unfold read_full.
  destruct (read_full_loop _ _ _ _ _ _) as [r p']. lia.
Qed.
Lemma quiet_read buf n : 0 <= n < 2 ^ 31 -> quiet (read_full fd buf n).
Proof. intros Hn p. pose proof (read_full_left buf n p Hn) as L. destruct (read_full fd buf n p) as [r p']. cbn. lia. Qed.

(** The header comes from the connection, or from the one kept back. *)
Lemma quiet_hdr_recv t id : rd_fd t = fd -> quiet (translator_hdr_recv t id).
Proof.
  intros Hfd. unfold translator_hdr_recv. apply quiet_bind.
  - destruct (_ =? _); [|apply quiet_ret]. apply quiet_local. intros a.
    apply quiet_bind; [apply (quiet_set_mem (fun m => store_bytes m a _))|]. intros _. rewrite Hfd.
    apply quiet_bind; [apply quiet_read; lia|]. intros r. apply quiet_bind; [apply quiet_gets|]. intros m. apply quiet_ret.
  - intros [r t']. destruct (negb _); [apply quiet_ret|]. destruct (negb _); apply quiet_ret.
Qed.

Lemma hdr_recv_fds t id (p : Proc W) : rd_fd (translator_hdr_recv t id p).1.2 = rd_fd t.
Proof.
  unfold translator_hdr_recv, mbind, ST_bind.
  destruct (_ =? _); [|cbn; repeat case_match; done].
  destruct (with_local _ _ _) as [[r t'] p'] eqn:E.
  assert (rd_fd t' = rd_fd t) as Ht; [|destruct (negb _); [done|]; destruct (negb _); done].
  revert E. unfold with_local, mbind, ST_bind, gets, modify, mret, ST_ret.
  destruct (read_full _ _ _ _) as [r' p1]. by intros [= <- <- <-].
Qed.

(** The request itself. *)
Lemma request_left t (p : Proc W) :
  rd_fd t = fd ->
  let '((ret, _), p') := with_local 16 (fun memrq =>
    ret ← read_full (rd_fd t) memrq 16;
    m ← gets mem;
    mret (s32 ret, (loadZ m 8 memrq, loadZ m 8 (memrq + 8)))) p in
  left_ p' <= left_ p /\ (ret = 16 -> left_ p' + 16 <= left_ p).
Proof.
  intros Hfd. unfold with_local, mbind, ST_bind, gets, modify, mret, ST_ret. rewrite Hfd.
  pose proof (read_full_left (sp p) 16 (set_sp (sp p + 16) p) ltac:(lia)) as R.
  destruct (read_full fd (sp p) 16 (set_sp (sp p + 16) p)) as [r p2]. destruct R as (R1 & R2 & R3).
  rewrite swrap_small by (unfold in_s; lia). exact (conj R1 R2).
Qed.

(** A round that goes on has received the sixteen bytes of a request. *)
Lemma round_left t (p : Proc W) t' p' :
  rd_fd t = fd -> translator_get_round t p = (inl t', p') -> left_ p' + 16 <= left_ p /\ rd_fd t' = fd.
Proof.
  intros Hfd. unfold translator_get_round. unfold mbind at 1, ST_bind at 1.
  pose proof (quiet_hdr_recv t MSGID_S_MEMREQ Hfd p) as K0. pose proof (hdr_recv_fds t MSGID_S_MEMREQ p) as F0.
  destruct (translator_hdr_recv t MSGID_S_MEMREQ p) as [[sz t1] p1]. cbn [fst snd] in *.
  destruct (sz =? - EPROTO); [unfold mbind, ST_bind; by destruct (translator_get_object t1 p1)|].
  destruct (sz <? 0); [done|]. destruct (negb (sz =? 16)); [done|].
  unfold mbind at 1, ST_bind at 1. pose proof (request_left t1 p1 ltac:(congruence)) as R.
  destruct (with_local 16 _ p1) as [[ret [rq_addr rq_sz]] p2]. destruct R as [R1 R2].
  destruct (Z.eqb_spec ret 16) as [->|]; [|done]. specialize (R2 eq_refl). cbn [negb]. cbv zeta.
  set (buf_sz := if 0x1000 <? rq_sz then 0x1000 else rq_sz).
  assert (forall p3, left_ p3 <= left_ p2 -> left_ p3 + 16 <= left_ p) as Hend by (intros; lia).
  unfold mbind at 1, ST_bind at 1. pose proof (quiet_hdr_send t1 MSGID_C_MEMBUF (buf_sz + 1) p2) as K1.
  destruct (translator_hdr_send _ _ _ p2) as [r1 p3]. destruct (r1 <? 0); [done|].
  unfold mbind at 1, ST_bind at 1. pose proof (quiet_write_loop (Z.to_nat buf_sz) (wr_fd t1) rq_addr buf_sz 0 p3) as K2.
  fold (write_full (wr_fd t1) rq_addr buf_sz) in K2.
  destruct (write_full _ _ _ p3) as [r2 p4]. cbn [fst snd] in *.
  assert (forall go failed p5, left_ p5 <= left_ p2 ->
    ((if negb go then mret (inr (s32 r2, t1, None)) else
       ret ← write_full_local (wr_fd t1) [failed];
       if negb (s32 ret =? 1) then mret (inr (s32 ret, t1, None)) else mret (inl (add_written buf_sz t1)))
      : ST (Proc W) (Translator + Z * Translator * option (Z * Z))) p5
      = (inl t', p') -> left_ p' + 16 <= left_ p /\ rd_fd t' = fd) as Hlast.
  { intros go failed p5 H5. destruct go; [|done]. cbn [negb]. unfold mbind, ST_bind.
    pose proof (quiet_write_local (wr_fd t1) [failed] p5) as K3.
    destruct (write_full_local _ _ p5) as [r3 p6]. cbn [fst snd] in *. destruct (negb _); [done|].
    intros [= <- <-]. split; [apply Hend; lia | cbn; congruence]. }
  unfold mbind at 1, ST_bind at 1. destruct (negb (s32 r2 =? buf_sz)).
  2: { apply (Hlast true 0). lia. }
  destruct (s32 r2 =? - EFAULT).
  - unfold mbind at 1, ST_bind at 1. pose proof (quiet_padding (Z.to_nat buf_sz) (wr_fd t1) p4) as K3.
    destruct (send_padding _ _ p4) as [ok p5]. cbn [fst snd] in *.
    apply (Hlast ok 1). lia.
  - unfold mbind at 1, ST_bind at 1. by destruct (dprintf _ _ _ p4).
Qed.

Lemma loop_returns fuel t (p : Proc W) :
  rd_fd t = fd -> left_ p < 16 * Z.of_nat fuel -> exists res p', translator_get_loop fuel t p = (Some res, p').
Proof.
  revert t p; induction fuel as [|fuel IH]; intros t p Hfd Hl.
  - pose proof (pending_nonneg (kst p) (u64 fd)). unfold left_ in Hl. lia.
  - cbn [translator_get_loop]. unfold mbind, ST_bind. destruct (translator_get_round t p) as [[t'|res] p'] eqn:E.
    + apply round_left in E as [E1 E2]; [|done]. apply IH; [done | lia].
    + by exists res, p'.
Qed.
End Live.

(** C30. A translation request always returns: if the server sends [n] more bytes
    on the connection, whatever they are and whichever system calls fail,
    [n / 16 + 1] rounds are enough for [translator_get] to return a result. *)
Theorem translator_get_returns {W} `{InputKernel W} fuel t addr (p : Proc W) :
  pending (kst p) (u64 (rd_fd t)) < 16 * Z.of_nat fuel ->
  exists res p', translator_get fuel t addr p = (Some res, p').
Proof.
  intros Hf. unfold translator_get. unfold mbind at 1, ST_bind at 1.
  pose proof (quiet_hdr_send (rd_fd t) t MSGID_C_TRANSLATE 8 p) as K1.
  destruct (translator_hdr_send _ _ _ p) as [r1 p1]. destruct (negb (r1 =? 0)); [by eexists _, _|].
  unfold mbind at 1, ST_bind at 1. pose proof (quiet_write_local (rd_fd t) (wr_fd t) (le8 addr) p1) as K2.
  destruct (write_full_local _ _ p1) as [r2 p2]. destruct (negb _); [by eexists _, _|].
  apply (loop_returns (rd_fd t)); [done|]. unfold left_ in *. cbn [fst snd] in *. lia.
Qed.

(** The loopback kernel is such a kernel. *)
#[global, refine] Instance loopback_input : InputKernel Pipes := {
  pending w fd := Z.of_nat (length (lk_incoming w fd)) }.
Proof.
  - lia.
  - intros fd buf n m w r m' w' Hn E. unfold kernel, loopback, lk_read in E.
    set (k := Nat.min (Z.to_nat n) _) in E.
    assert (k <= Z.to_nat n /\ k <= length (lk_incoming w fd))%nat as Hk by lia. clearbody k.
    injection E as <- <- <-. unfold lk_incoming at 1. cbn [lk_in].
    rewrite lk_lookup_insert, decide_True, length_drop by done.
    rewrite swrap_small by (unfold in_s; lia). lia.
  - intros args m w r m' w' fd E. unfold kernel, loopback in E.
    repeat case_match; simplify_eq; try lia. unfold lk_write in E. case_match; simplify_eq; [lia|]. done.
Defined.

Lemma translator_get_returns_witness :
  exists res p', translator_get 2 tr0 0x401000 (session_proc [3; 0; 0; 0; 16; 0; 0; 0; 1; 2; 3]) = (Some res, p').
Proof. apply translator_get_returns. vm_compute. reflexivity. Defined.
