(* ===== verification/State.v ===== *)
(** * The state of the emulator, [client/state.h]

    [struct State] and [struct CpuState], the client with both of them, and
    the monad of the functions that may end the process.  The records are apart
    from the memory of the process: a theorem that relies on it does not exclude
    that the guest reaches the client's structures with a pointer or a mapping
    it hands to the kernel, which [emulate.c] leaves open. *)

From Stdlib Require Import ZArith Lia.
From stdpp Require Import base numbers list list_numbers option gmap.
From S2P Require Import Prelude Machine RtldElf Translator.

(** ** Signal actions, [struct sigaction] of [asm/signal.h] (32 bytes) *)

Record SigAction := mkAct { sa_handler : Z; sa_flags : Z; sa_restorer : Z; sa_mask : Z }.
Definition act0 : SigAction := mkAct 0 0 0 0.
Definition load_act (m : memory) (a : Z) : SigAction :=
  mkAct (loadZ m 8 a) (loadZ m 8 (a + 8)) (loadZ m 8 (a + 16)) (loadZ m 8 (a + 24)).
Definition store_act (m : memory) (a : Z) (s : SigAction) : memory :=
  storeZ (storeZ (storeZ (storeZ m 8 a (sa_handler s)) 8 (a + 8) (sa_flags s))
    8 (a + 16) (sa_restorer s)) 8 (a + 24) (sa_mask s).

(** ** [struct State] *)

(** [sigact] is indexed by the signal number minus one; an absent entry is
    zero. *)
Record State := mkState {
  rtld : Rtld; translator : Translator; rew_time : Z; sigact : gmap Z SigAction;
  tsc : TranslatorServerConfig; tc : TranslatorConfig }.

Definition sigact_at (s : State) (i : Z) : SigAction := default act0 (sigact s !! i).
Definition set_rtld (r : Rtld) (s : State) : State :=
  mkState r (translator s) (rew_time s) (sigact s) (tsc s) (tc s).
Definition set_translator (t : Translator) (s : State) : State :=
  mkState (rtld s) t (rew_time s) (sigact s) (tsc s) (tc s).
Definition set_rew_time (n : Z) (s : State) : State :=
  mkState (rtld s) (translator s) n (sigact s) (tsc s) (tc s).
Definition set_sigact (i : Z) (a : SigAction) (s : State) : State :=
  mkState (rtld s) (translator s) (rew_time s) (<[i := a]> (sigact s)) (tsc s) (tc s).

(** ** [struct CpuState] *)

(** [self] is its own address; [regs] are the words of [regdata]; the entries
    of [quick_tlb] are pairs.  Words that were never written are zero, as the
    structure starts out zeroed.  [sigaltstack] and [siginfo] stay bytes. *)
Record CpuState := mkCpu {
  self : Z; regs : gmap Z Z; quick_tlb : gmap Z (Z * Z); sigpending : Z; sigmask : Z;
  sigaltstack : list Z; siginfo : list Z }.

Definition CPU_STATE_REGDATA_OFFSET : Z := 0x40.
Definition CPU_STATE_QTLB_OFFSET : Z := 0x440.

Definition reg (c : CpuState) (i : Z) : Z := default 0 (regs c !! i).
Definition tlb (c : CpuState) (h : Z) : Z * Z := default (0, 0) (quick_tlb c !! h).
Definition set_reg (i v : Z) (c : CpuState) : CpuState :=
  mkCpu (self c) (<[i := v]> (regs c)) (quick_tlb c) (sigpending c) (sigmask c)
    (sigaltstack c) (siginfo c).
Definition set_tlb (h : Z) (e : Z * Z) (c : CpuState) : CpuState :=
  mkCpu (self c) (regs c) (<[h := e]> (quick_tlb c)) (sigpending c) (sigmask c)
    (sigaltstack c) (siginfo c).
Definition set_sigpending (s : Z) (c : CpuState) : CpuState :=
  mkCpu (self c) (regs c) (quick_tlb c) s (sigmask c) (sigaltstack c) (siginfo c).
Definition set_sigmask (s : Z) (c : CpuState) : CpuState :=
  mkCpu (self c) (regs c) (quick_tlb c) (sigpending c) s (sigaltstack c) (siginfo c).
Definition set_sigaltstack (s : list Z) (c : CpuState) : CpuState :=
  mkCpu (self c) (regs c) (quick_tlb c) (sigpending c) (sigmask c) s (siginfo c).
Definition set_siginfo (s : list Z) (c : CpuState) : CpuState :=
  mkCpu (self c) (regs c) (quick_tlb c) (sigpending c) (sigmask c) (sigaltstack c) s.

(** The structure after [memset], at address [a]. *)
Definition cpu0 (a : Z) : CpuState :=
  mkCpu a ∅ ∅ 0 0 (replicate 24 0) (replicate 128 0).

(** The aligned 64-bit word at a byte offset from the start of the structure,
    for the fields the assembly code reads. *)
Definition cpu_word (c : CpuState) (off : Z) : Z :=
  if off =? 0 then self c
  else if off <? CPU_STATE_QTLB_OFFSET then reg c ((off - CPU_STATE_REGDATA_OFFSET) / 8)
  else
    let e := tlb c ((off - CPU_STATE_QTLB_OFFSET) / 16) in
    if (off - CPU_STATE_QTLB_OFFSET) `mod` 16 =? 0 then e.1 else e.2.

(** ** The client *)

(** [warnmap] is the static array of [unhandled_syscall] in [emulate.c]. *)
Record Client (W : Type) := mkClient {
  proc : Proc W; state : State; cpu : CpuState; warnmap : gmap Z Z }.
Arguments mkClient {W}.
Arguments proc {W}.
Arguments state {W}.
Arguments cpu {W}.
Arguments warnmap {W}.

(** How a call ends: it returns, or the process exits or is killed by a
    signal; [Waiting] when the server still sends requests after the rounds
    the model runs. *)
Inductive outcome (A : Type) :=
  | Done (a : A)
  | Exit (status : Z)
  | Killed (sig : Z)
  | Waiting.
Arguments Done {A}.
Arguments Exit {A}.
Arguments Killed {A}.
Arguments Waiting {A}.

Definition CM (W A : Type) : Type := Client W -> outcome A * Client W.

#[global] Instance CM_ret W : MRet (CM W) := fun A a c => (Done a, c).
#[global] Instance CM_bind W : MBind (CM W) :=
  fun A B f x c =>
    match x c with
    | (Done a, c') => f a c'
    | (Exit s, c') => (Exit s, c')
    | (Killed s, c') => (Killed s, c')
    | (Waiting, c') => (Waiting, c')
    end.

Section Client.
Context {W : Type}.

Definition lift {A} (f : ST (Proc W) A) : CM W A :=
  fun c => let '(a, p) := f (proc c) in (Done a, mkClient p (state c) (cpu c) (warnmap c)).
Definition ask {A} (f : Client W -> A) : CM W A := fun c => (Done (f c), c).
Definition upd_state (f : State -> State) : CM W unit :=
  fun c => (Done tt, mkClient (proc c) (f (state c)) (cpu c) (warnmap c)).
Definition upd_cpu (f : CpuState -> CpuState) : CM W unit :=
  fun c => (Done tt, mkClient (proc c) (state c) (f (cpu c)) (warnmap c)).
Definition upd_mem (f : memory -> memory) : CM W unit :=
  lift (modify (fun p => set_mem (f (mem p)) p)).
Definition stop {A} (o : outcome A) : CM W A := fun c => (o, c).

(** A call that ends well keeps the property; one that does not return is
    left alone. *)
Definition holds {A} (P : Client W -> Prop) (Q : A -> Client W -> Prop) (x : CM W A) : Prop :=
  forall c, P c -> match x c with (Done a, c') => Q a c' | (Killed _, _) => False | _ => True end.

Lemma holds_ret {A} (P : Client W -> Prop) (Q : A -> Client W -> Prop) a :
  (forall c, P c -> Q a c) -> holds P Q (mret a).
Proof. intros H c Hc. by apply H. Qed.

Lemma holds_bind {A B} P (R : A -> Client W -> Prop) (Q : B -> Client W -> Prop) x f :
  holds P R x -> (forall a, holds (R a) Q (f a)) -> holds P Q (x ≫= f).
Proof.
  intros Hx Hf c Hc. specialize (Hx c Hc). unfold mbind, CM_bind.
  destruct (x c) as [[a| | |] c']; try done. by apply Hf.
Qed.

Lemma holds_lift {A} (P Q : Client W -> Prop) (f : ST (Proc W) A) :
  (forall p s u w p', P (mkClient p s u w) -> Q (mkClient p' s u w)) ->
  holds P (fun _ => Q) (lift f).
Proof.
  intros H [p s u w] Hc. unfold lift. cbn. destruct (f p) as [a p']. by apply (H p).
Qed.

Lemma holds_weaken {A} (P P' : Client W -> Prop) (Q Q' : A -> Client W -> Prop) x :
  (forall c, P' c -> P c) -> (forall a c, Q a c -> Q' a c) -> holds P Q x -> holds P' Q' x.
Proof.
  intros HP HQ Hx c Hc. specialize (Hx c (HP c Hc)).
  destruct (x c) as [[a| | |] c']; auto.
Qed.

End Client.
