(* ===== verification/Dispatch.v ===== *)
(** * Dispatching, [client/dispatch.c]

    The dispatcher finds the translated code for the guest's program counter:
    first in the small direct-mapped cache of the CPU state ([quick_tlb]),
    then in the code cache index, and last by asking the server for a
    translation.  There is a C dispatcher and one in assembly per host; all
    share [resolve_func].  Translated code is a parameter. *)

From Stdlib Require Import ZArith Lia String.
From stdpp Require Import base numbers list list_numbers option gmap.
From S2P Require Import Prelude Machine Minilibc Printf RtldTable RtldReloc RtldElf Translator State.

Definition QUICK_TLB_BITS : Z := 10.
Definition QUICK_TLB_BITOFF : Z := 4.
Definition QUICK_TLB_IDXSCALE : Z := 1.
Definition QUICK_TLB_HASH (addr : Z) : Z :=
  Z.land (Z.shiftr addr QUICK_TLB_BITOFF) (Z.shiftl 1 QUICK_TLB_BITS - 1).

Section Dispatch.
Context {W : Type} `{Kernel W}.
Context (arch : Arch) (link : string -> Z).

(** ** Resolving *)

Definition print_trace (addr : Z) : CM W unit :=
  c ← ask cpu;
  t ← ask (fun c => tc (state c));
  let r i := VInt (reg c i) in
  lift (dprintf 2 (line "Trace 0x%lx") [VInt addr]);;
  if tc_print_regs t =? 0 then mret tt
  else
    lift (dprintf 2 (line "RAX=%lx RBX=%lx RCX=%lx RDX=%lx") [r 1; r 4; r 2; r 3]);;
    lift (dprintf 2 (line "RSI=%lx RDI=%lx RBP=%lx RSP=%lx") [r 7; r 8; r 6; r 5]);;
    lift (dprintf 2 (line "R8 =%lx R9 =%lx R10=%lx R11=%lx") [r 9; r 10; r 11; r 12]);;
    lift (dprintf 2 (line "R12=%lx R13=%lx R14=%lx R15=%lx") [r 13; r 14; r 15; r 16]);;
    lift (dprintf 2 (line "RIP=%lx") [VInt addr]);;
    lift (dprintf 2 (line "XMM0=%lx:%lx XMM1=%lx:%lx") [r 18; r 19; r 20; r 21]);;
    lift (dprintf 2 (line "XMM2=%lx:%lx XMM3=%lx:%lx") [r 22; r 23; r 24; r 25]);;
    lift (dprintf 2 (line "XMM4=%lx:%lx XMM5=%lx:%lx") [r 26; r 27; r 28; r 29]);;
    lift (dprintf 2 (line "XMM6=%lx:%lx XMM7=%lx:%lx") [r 30; r 31; r 32; r 33]);;
    mret tt.

(** The seconds and nanoseconds [clock_gettime] leaves in a [struct timespec]. *)
Definition read_timespec : ST (Proc W) (Z * Z) :=
  with_local 16 (fun ts =>
    clock_gettime CLOCK_MONOTONIC ts;;
    m ← gets mem;
    mret (s64 (loadZ m 8 ts), s64 (loadZ m 8 (ts + 8)))).

(** [goto error]: the process ends with status 0. *)
Definition error {A} : CM W A := stop (Exit 0).

(** The part of [resolve_func] for an address the index does not have: a
    translation is requested, added and looked up. *)
Definition translate (fuel : nat) (addr : Z) : CM W Z :=
  profile ← ask (fun c => negb (tc_profile (tc (state c)) =? 0));
  start_time ← (if (profile : bool) then lift read_timespec else mret (0, 0));
  t ← ask (fun c => translator (state c));
  res ← lift (translator_get fuel t addr);
  match res with
  | None => stop Waiting
  | Some (retval, t, obj) =>
      upd_state (set_translator t);;
      if retval <? 0 then error
      else
        let '(obj_base, obj_size) := default (0, 0) obj in
        r ← ask (fun c => rtld (state c));
        '(retval, r) ← lift (rtld_add_object arch link r obj_base obj_size addr);
        upd_state (set_rtld r);;
        if retval <? 0 then error
        else
          let '(retval, func) := rtld_resolve (objects r) addr in
          if retval <? 0 then error
          else
            (if (profile : bool) then
               end_time ← lift read_timespec;
               let time_ns := u64 ((end_time.1 - start_time.1) * 1000000000
                                   + (end_time.2 - start_time.2)) in
               upd_state (fun s => set_rew_time (u64 (rew_time s + time_ns)) s)
             else mret tt);;
            mret (default 0 func)
  end.

(** [resolve_func]; [patch_data] is an address, 0 for none, and the fuel bounds
    the requests the server may make before it answers. *)
Definition resolve_func (fuel : nat) (addr patch_data : Z) : CM W Z :=
  m ← ask (fun c => mem (proc c));
  let addr := if negb (patch_data =? 0) then sym_addr (load_patch m patch_data) else addr in
  s ← ask state;
  let '(retval, func) := rtld_resolve (objects (rtld s)) addr in
  func ← (if retval <? 0 then translate fuel addr else mret (default 0 func));
  (if tc_print_trace (tc s) =? 0 then
     lift (rtld_patch arch patch_data func);;
     upd_cpu (set_tlb (QUICK_TLB_HASH addr) (addr, func))
   else print_trace addr);;
  mret func.

(** ** The C dispatcher *)

(** The function [dispatch_cdecl] calls. *)
Definition cdecl_target (fuel : nat) : CM W Z :=
  c ← ask cpu;
  let addr := reg c 0 in
  let hash := QUICK_TLB_HASH addr in
  let func := (tlb c hash).2 in
  if negb ((tlb c hash).1 =? addr) then resolve_func fuel addr 0 else mret func.

(** [call func] runs the translated code at [func]. *)
Definition dispatch_cdecl (call : Z -> CM W unit) (fuel : nat) : CM W unit :=
  func ← cdecl_target fuel; call func.

(** The first [n] rounds of [while (true)]. *)
Fixpoint dispatch_cdecl_loop (call : Z -> CM W unit) (fuel n : nat) : CM W unit :=
  match n with
  | O => mret tt
  | S n' => dispatch_cdecl call fuel;; dispatch_cdecl_loop call fuel n'
  end.

(** ** The x86-64 assembly dispatcher *)

(** [dispatch_hhvm_fullresolve]: [rbx] is the guest address, [r14] the patch
    data; the CPU state is found through [self].  The jump target. *)
Definition dispatch_hhvm_fullresolve (fuel : nat) (rbx r14 : Z) : CM W Z :=
  resolve_func fuel rbx r14.

(** The lookup [dispatch_hhvm_tail], [dispatch_hhvm_call] and [dispatch_hhvm]
    share: [r12] points to [regdata]; the loaded function if the address
    matches. *)
Definition hhvm_lookup (c : CpuState) (rbx : Z) : option Z :=
  let r12 := self c + CPU_STATE_REGDATA_OFFSET in
  let r14 := Z.land rbx (Z.shiftl (Z.shiftl 1 QUICK_TLB_BITS - 1) QUICK_TLB_BITOFF) in
  let at_ := r12 + QUICK_TLB_IDXSCALE * r14 - CPU_STATE_REGDATA_OFFSET + CPU_STATE_QTLB_OFFSET in
  if rbx =? cpu_word c (at_ - self c) then Some (cpu_word c (at_ + 8 - self c)) else None.

Definition dispatch_hhvm_tail (fuel : nat) (rbx : Z) : CM W Z :=
  c ← ask cpu;
  match hhvm_lookup c rbx with
  | Some func => mret func
  | None => dispatch_hhvm_fullresolve fuel rbx 0
  end.

(** The loop from label 3 on; [call func rbx] returns the next guest address
    in [rbx]. *)
Fixpoint hhvm_loop (call : Z -> Z -> CM W Z) (fuel n : nat) (rbx : Z) : CM W Z :=
  match n with
  | O => mret rbx
  | S n' =>
      c ← ask cpu;
      func ← match hhvm_lookup c rbx with
             | Some func => mret func
             | None => dispatch_hhvm_fullresolve fuel rbx 0
             end;
      rbx ← call func rbx;
      hhvm_loop call fuel n' rbx
  end.

(** [dispatch_hhvm] enters at label 4, so its first call resolves in full. *)
Definition dispatch_hhvm (call : Z -> Z -> CM W Z) (fuel n : nat) : CM W Z :=
  rbx ← ask (fun c => cpu_word (cpu c) CPU_STATE_REGDATA_OFFSET);
  func ← dispatch_hhvm_fullresolve fuel rbx 0;
  rbx ← call func rbx;
  hhvm_loop call fuel n rbx.

(** ** The AArch64 assembly dispatcher *)

Definition dispatch_aapcsx_fullresolve (fuel : nat) (x0 x16 : Z) : CM W Z :=
  resolve_func fuel x0 x16.

Definition aapcsx_lookup (c : CpuState) (x0 : Z) : option Z :=
  let x20 := self c + CPU_STATE_REGDATA_OFFSET in
  let x17 := x20 + (- CPU_STATE_REGDATA_OFFSET + CPU_STATE_QTLB_OFFSET) in
  let x16 := Z.land x0 (Z.shiftl (Z.shiftl 1 QUICK_TLB_BITS - 1) QUICK_TLB_BITOFF) in
  let x17 := x17 + Z.shiftl x16 (4 - QUICK_TLB_BITOFF) in
  if cpu_word c (x17 - self c) =? x0 then Some (cpu_word c (x17 + 8 - self c)) else None.

Definition dispatch_aapcsx (fuel : nat) (x0 : Z) : CM W Z :=
  c ← ask cpu;
  match aapcsx_lookup c x0 with
  | Some func => mret func
  | None => dispatch_aapcsx_fullresolve fuel x0 0
  end.

Fixpoint aapcsx_loop (call : Z -> Z -> CM W Z) (fuel n : nat) (x0 : Z) : CM W Z :=
  match n with
  | O => mret x0
  | S n' =>
      c ← ask cpu;
      func ← match aapcsx_lookup c x0 with
             | Some func => mret func
             | None => dispatch_aapcsx_fullresolve fuel x0 0
             end;
      x0 ← call func x0;
      aapcsx_loop call fuel n' x0
  end.
Definition dispatch_aapcsx_loop (call : Z -> Z -> CM W Z) (fuel n : nat) : CM W Z :=
  x0 ← ask (fun c => cpu_word (cpu c) CPU_STATE_REGDATA_OFFSET);
  aapcsx_loop call fuel n x0.

(** ** [dispatch_get] *)

(** The static array; the initialisers leave gaps of zeros. *)
Definition infos : list DispatcherInfo :=
  mkDisp (link "dispatch_cdecl_loop") (link "dispatch_cdecl") (link "dispatch_cdecl") 6 ::
  match arch with
  | X86_64 =>
      [mkDisp (link "dispatch_hhvm") (link "dispatch_hhvm_tail") (link "dispatch_hhvm_fullresolve") 14]
  | AARCH64 =>
      [mkDisp 0 0 0 0; mkDisp 0 0 0 0;
       mkDisp (link "dispatch_aapcsx_loop") (link "dispatch_aapcsx")
         (link "dispatch_aapcsx_fullresolve") 16]
  end.

(** The entry, or [NULL]. *)
Definition dispatch_get (s : State) : option DispatcherInfo :=
  let callconv := u32 (tc_callconv (tc s)) in
  if callconv <? Z.of_nat (length infos) then infos !! Z.to_nat callconv else None.

End Dispatch.
