(* ===== verification/DispatchProofs.v ===== *)
(** * Correctness of the dispatcher

    The quick TLB only ever holds pairs the code cache index confirms, the
    index only grows, and the three dispatchers look entries up alike; hence
    every piece of translated code that is entered is the translation of the
    guest's program counter. *)

From Stdlib Require Import ZArith Lia String.
From stdpp Require Import base numbers list list_numbers option gmap.
From S2P Require Import Prelude Machine Loopback Minilibc Printf RtldTable RtldReloc RtldElf Translator State Dispatch.

(** ** The index only grows *)

Definition extends (r r' : Rtld) : Prop :=
  forall m, refines (objects r) m -> exists m', refines (objects r') m' /\ m ⊆ m'.

Lemma extends_refl r : extends r r.
Proof. intros m Hm. by exists m. Qed.

Lemma extends_trans r1 r2 r3 : extends r1 r2 -> extends r2 r3 -> extends r1 r3.
Proof.
  intros H1 H2 m Hm. destruct (H1 m Hm) as (m' & Hm' & Hs). destruct (H2 m' Hm') as (m'' & ? & ?).
  exists m''. split; [done|]. by etrans.
Qed.

Lemma extends_set r a e b s ret t :
  a <> 0 -> rtld_set (objects r) a e b s = (ret, t) -> extends r (set_objects t r).
Proof.
  intros Ha Hset m Hm. pose proof (refines_set _ _ a e b s Hm Ha) as Hr. rewrite Hset in Hr.
  destruct Hr as [(_ & Hn & Hr)|[(_ & _ & ->)|(_ & _ & -> & _)]]; [|by exists m..].
  exists (<[a := e]> m). split; [done|]. by apply insert_subseteq.
Qed.

Section Extends.
Context {W : Type} `{Kernel W}.

Lemma syms_loop_extends n r re shnt sym (p : Proc W) :
  extends r (syms_loop n r re shnt sym p).1.1.2.
Proof.
  revert r sym p. induction n as [|n IH]; intros r sym p; [apply extends_refl|].
  cbn [syms_loop]. unfold mbind at 1, ST_bind at 1, gets at 1.
  do 3 (destruct (negb _); [apply IH|]). destruct (_ =? SHN_UNDEF); [apply IH|].
  destruct (_ <=? _); [apply extends_refl|].
  destruct (rtld_elf_resolve_str _ _ _ _).2 as [name|]; [|apply extends_refl].
  destruct (rtld_elf_decode_name _ _ _) as [ret out]. cbv zeta.
  destruct ((ret <? 0) || _) eqn:Hbad.
  - unfold mbind at 1, ST_bind at 1. destruct (dprintf _ _ _ p). apply extends_refl.
  - destruct (rtld_set _ _ _ _ _) as [ret' t] eqn:E.
    apply extends_set in E; [|destruct (Z.eqb_spec (default 0 out) 0); [|done];
      by rewrite orb_true_r in Hbad].
    destruct (ret' <? 0); [apply extends_refl|].
    unfold mbind at 1, ST_bind at 1. destruct (rtld_perf_notify _ _ _ _ _ p) as [[] p'].
    eapply extends_trans; [done|]. apply IH.
Qed.

Lemma symtab_pass_extends fuel r re i (p : Proc W) : extends r (symtab_pass fuel r re i p).1.2.
Proof.
  revert r i p. induction fuel as [|fuel IH]; intros r i p; [apply extends_refl|].
  cbn [symtab_pass]. unfold mbind at 1, ST_bind at 1, gets at 1.
  repeat (case_match; [try apply IH; try apply extends_refl|]); try apply extends_refl.
  all: try apply IH.
  unfold mbind at 1, ST_bind at 1.
  pose proof (syms_loop_extends (Z.to_nat (sh_size (mem p) (shdr re i) / SIZEOF_SYM)) r re
    (shdr re i) (u64 (re_base re + sh_offset (mem p) (shdr re i))) p) as Hs.
  destruct (syms_loop _ _ _ _ _ p) as [[[ret r'] out] p']. cbn in Hs.
  destruct out; [done|]. eapply extends_trans; [done|]. apply IH.
Qed.

Lemma add_object_extends arch link r b sz sk (p : Proc W) :
  extends r (rtld_add_object arch link r b sz sk p).1.2.
Proof.
  unfold rtld_add_object. unfold mbind at 1, ST_bind at 1.
  destruct (rtld_elf_init _ _ _ _ p) as [[ret re] p1].
  destruct (ret <? 0); [apply extends_refl|]. unfold mbind at 1, ST_bind at 1.
  destruct (layout_pass _ _ _ _ _ p1) as [[[ret2 tot] al] p2].
  destruct (ret2 <? 0); [apply extends_refl|]. unfold mbind at 1, ST_bind at 1.
  destruct (Memory.mem_alloc_code _ _ p2) as [b' p3].
  destruct (BAD_ADDR b'); [apply extends_refl|]. unfold mbind at 1, ST_bind at 1.
  destruct (base_pass _ _ _ _ p3) as [[] p4]. unfold mbind at 1, ST_bind at 1.
  destruct (rela_pass _ _ _ _ _ _ p4) as [ret3 p5].
  destruct (ret3 <? 0); [apply extends_refl|]. unfold mbind at 1, ST_bind at 1.
  destruct (copy_pass _ _ _ p5) as [ret4 p6].
  destruct (ret4 <? 0); [apply extends_refl|]. apply symtab_pass_extends.
Qed.

End Extends.

(** ** The lookup is the same in C and in assembly *)

Lemma tlb_offset a :
  Z.land a (Z.shiftl (Z.shiftl 1 QUICK_TLB_BITS - 1) QUICK_TLB_BITOFF) = 16 * QUICK_TLB_HASH a.
Proof.
  unfold QUICK_TLB_HASH, QUICK_TLB_BITS, QUICK_TLB_BITOFF.
  change (Z.shiftl 1 10 - 1) with (Z.ones 10). rewrite Z.mul_comm. change 16 with (2 ^ 4).
  rewrite <- Z.shiftl_mul_pow2, Z.shiftl_land by lia. apply Z.bits_inj'. intros i Hi.
  rewrite !Z.land_spec, !Z.shiftl_spec by lia.
  destruct (Z.ltb_spec i 4).
  - by rewrite !(Z.testbit_neg_r _ (i - 4)), !andb_false_r by lia.
  - rewrite Z.shiftr_spec by lia. do 2 f_equal. lia.
Qed.

Lemma tlb_hash_range a : 0 <= QUICK_TLB_HASH a < 1024.
Proof.
  unfold QUICK_TLB_HASH, QUICK_TLB_BITS, QUICK_TLB_BITOFF. change (Z.shiftl 1 10 - 1) with (Z.ones 10).
  rewrite Z.land_ones by lia. change 1024 with (2 ^ 10). apply Z.mod_pos_bound. lia.
Qed.

Definition quick_lookup (c : CpuState) (a : Z) : option Z :=
  let e := tlb c (QUICK_TLB_HASH a) in if e.1 =? a then Some e.2 else None.

Lemma cpu_word_tlb c h :
  0 <= h -> cpu_word c (CPU_STATE_QTLB_OFFSET + 16 * h) = (tlb c h).1 /\
  cpu_word c (CPU_STATE_QTLB_OFFSET + 16 * h + 8) = (tlb c h).2.
Proof.
  intros Hh. unfold cpu_word, CPU_STATE_QTLB_OFFSET, CPU_STATE_REGDATA_OFFSET.
  rewrite (proj2 (Z.eqb_neq (0x440 + 16 * h) 0)), (proj2 (Z.ltb_ge (0x440 + 16 * h) 0x440)),
    (proj2 (Z.eqb_neq (0x440 + 16 * h + 8) 0)), (proj2 (Z.ltb_ge (0x440 + 16 * h + 8) 0x440)) by lia.
  replace (0x440 + 16 * h - 0x440) with (h * 16) by lia.
  replace (0x440 + 16 * h + 8 - 0x440) with (8 + h * 16) by lia.
  rewrite Z.div_mul, Z.mod_mul, Z.div_add, Z.mod_add by lia.
  change (8 / 16) with 0. change (8 `mod` 16) with 8. by rewrite Z.add_0_l.
Qed.

Lemma hhvm_lookup_quick c a : hhvm_lookup c a = quick_lookup c a.
Proof.
  unfold hhvm_lookup, quick_lookup. rewrite tlb_offset. unfold QUICK_TLB_IDXSCALE.
  pose proof (tlb_hash_range a) as Hh.
  destruct (cpu_word_tlb c (QUICK_TLB_HASH a)) as [E1 E2]; [lia|].
  match goal with |- context [cpu_word c ?x =? _] => idtac | |- context [_ =? cpu_word c ?x] =>
    replace x with (CPU_STATE_QTLB_OFFSET + 16 * QUICK_TLB_HASH a) by lia end.
  rewrite E1, Z.eqb_sym. destruct (_ =? a); [|done].
  match goal with |- Some (cpu_word c ?x) = _ =>
    replace x with (CPU_STATE_QTLB_OFFSET + 16 * QUICK_TLB_HASH a + 8) by lia end.
  by rewrite E2.
Qed.

Lemma aapcsx_lookup_quick c a : aapcsx_lookup c a = quick_lookup c a.
Proof.
  unfold aapcsx_lookup, quick_lookup. rewrite tlb_offset.
  change (4 - QUICK_TLB_BITOFF) with 0. rewrite Z.shiftl_0_r.
  pose proof (tlb_hash_range a) as Hh.
  destruct (cpu_word_tlb c (QUICK_TLB_HASH a)) as [E1 E2]; [lia|].
  match goal with |- context [cpu_word c ?x =? _] =>
    replace x with (CPU_STATE_QTLB_OFFSET + 16 * QUICK_TLB_HASH a) by lia end.
  rewrite E1. destruct (_ =? a); [|done].
  match goal with |- Some (cpu_word c ?x) = _ =>
    replace x with (CPU_STATE_QTLB_OFFSET + 16 * QUICK_TLB_HASH a + 8) by lia end.
  by rewrite E2.
Qed.

(** The three dispatchers agree: the AArch64 and x86-64 assembly code, with
    its scaled offsets into the CPU state, enters the same function as the C
    dispatcher for the same program counter, and leaves the same state. *)
Theorem dispatchers_agree {W} `{Kernel W} arch link fuel (c : Client W) :
  dispatch_hhvm_tail arch link fuel (reg (cpu c) 0) c = cdecl_target arch link fuel c /\
  dispatch_aapcsx arch link fuel (reg (cpu c) 0) c = cdecl_target arch link fuel c.
Proof.
  unfold dispatch_hhvm_tail, dispatch_aapcsx, cdecl_target.
  unfold mbind, CM_bind, ask. rewrite hhvm_lookup_quick, aapcsx_lookup_quick.
  unfold quick_lookup. by destruct (_ =? _).
Qed.

(** ** The invariant *)

Section Inv.
Context {W : Type} `{Kernel W}.

Definition tlb_ok (m : gmap Z Z) (u : CpuState) : Prop :=
  forall h, (tlb u h).1 <> 0 -> m !! (tlb u h).1 = Some (tlb u h).2.

(** The index contains at least [m0], the quick TLB agrees with it, and
    the guest registers are [rs]. *)
Definition dinv (m0 rs : gmap Z Z) (c : Client W) : Prop :=
  exists m, m0 ⊆ m /\ refines (objects (rtld (state c))) m /\ tlb_ok m (cpu c) /\ regs (cpu c) = rs.

(** [f] is the translation of [a]. *)
Definition translated (a f : Z) (c : Client W) : Prop :=
  rtld_resolve (objects (rtld (state c))) a = (0, Some f).

Lemma resolve_loop_cases n t a h i :
  (exists f, rtld_resolve_loop n t a h i = (0, Some f)) \/
  rtld_resolve_loop n t a h i = (- ENOENT, None).
Proof.
  revert i. induction n as [|n IH]; intros i; cbn [rtld_resolve_loop]; [by right|].
  cbv zeta. destruct (_ =? 0); [by right|]. destruct (_ =? a); [left; eauto|]. apply IH.
Qed.

Lemma resolve_cases t a :
  (exists f, rtld_resolve t a = (0, Some f)) \/ rtld_resolve t a = (- ENOENT, None).
Proof. unfold rtld_resolve. destruct (a =? 0); [by right|]. apply resolve_loop_cases. Qed.

Lemma translated_lookup m a f c :
  refines (objects (rtld (state c))) m -> translated a f c <-> m !! a = Some f.
Proof.
  intros Hm. rewrite <- (refines_resolve _ _ a Hm). unfold translated.
  destruct (resolve_cases (objects (rtld (state c))) a) as [[g ->]| ->]; cbn.
  - split; congruence.
  - split; [intros [=]|done].
Qed.

Lemma tlb_ok_mono m m' u : m ⊆ m' -> tlb_ok m u -> tlb_ok m' u.
Proof. intros Hs Ht h Hh. eapply lookup_weaken; [by apply Ht|done]. Qed.

Lemma tlb_set h e u h' : tlb (set_tlb h e u) h' = if decide (h = h') then e else tlb u h'.
Proof.
  unfold tlb, set_tlb. cbn. destruct (decide (h = h')) as [->|Hn].
  - by rewrite lookup_insert_eq.
  - by rewrite lookup_insert_ne.
Qed.

(** [dinv] only looks at the index and the quick TLB. *)
Lemma dinv_proc m0 rs p p' s u w : dinv m0 rs (mkClient p s u w) -> dinv m0 rs (mkClient p' s u w).
Proof. done. Qed.

Lemma dinv_weaken m0 rs m1 c : m0 ⊆ m1 -> dinv m1 rs c -> dinv m0 rs c.
Proof. intros Hs (m & ? & ?). exists m. split; [by etrans|done]. Qed.

Lemma dinv_lift {A} m0 rs (f : ST (Proc W) A) : holds (dinv m0 rs) (fun _ => dinv m0 rs) (lift f).
Proof. apply holds_lift. intros *. apply dinv_proc. Qed.

(** What is translated and cached is not touched by memory and the kernel. *)
Definition dinv_at (m0 rs : gmap Z Z) (a f : Z) (c : Client W) : Prop := dinv m0 rs c /\ translated a f c.

Lemma dinv_at_lift {A} m0 rs a f (g : ST (Proc W) A) :
  holds (dinv_at m0 rs a f) (fun _ => dinv_at m0 rs a f) (lift g).
Proof. apply holds_lift. intros p s u w p' [H1 H2]. split; [exact H1 | exact H2]. Qed.

Lemma dinv_at_ask {A} m0 rs a f (g : Client W -> A) :
  holds (dinv_at m0 rs a f) (fun _ => dinv_at m0 rs a f) (ask g).
Proof. by intros c Hc. Qed.

Lemma dinv_ask {A} m0 rs (g : Client W -> A) : holds (dinv m0 rs) (fun _ => dinv m0 rs) (ask g).
Proof. by intros c Hc. Qed.

Lemma add_object_holds arch link m0 rs b sz a (k : Z -> CM W Z) :
  (forall f, holds (dinv_at m0 rs a f) (fun g => dinv_at m0 rs a g) (k f)) ->
  holds (dinv m0 rs) (fun g => dinv_at m0 rs a g)
    (r ← ask (fun c => rtld (state c));
     '(retval, r) ← lift (rtld_add_object arch link r b sz a);
     upd_state (set_rtld r);;
     if retval <? 0 then error
     else
       let '(retval, func) := rtld_resolve (objects r) a in
       if retval <? 0 then error else k (default 0 func)).
Proof.
  intros Hk [p s u w] (m & Hs & Hm & Ht & Hr). unfold mbind, CM_bind, ask, lift. cbn [proc state cpu warnmap] in *.
  pose proof (add_object_extends arch link (rtld s) b sz a p) as Hext.
  destruct (rtld_add_object _ _ _ _ _ _ p) as [[ret r'] p']. cbn in Hext.
  destruct (Hext m Hm) as (m' & Hm' & Hs'). unfold upd_state. cbn [proc state cpu warnmap].
  destruct (ret <? 0); [done|].
  destruct (resolve_cases (objects r') a) as [[f Hf]|Hf]; rewrite Hf; [|done].
  change (0 <? 0) with false. unfold default. apply Hk. split; [|done].
  exists m'. split; [by etrans|]. split; [done|]. split; [by apply (tlb_ok_mono m)|done].
Qed.

Lemma translate_holds arch link fuel m0 rs a :
  holds (dinv m0 rs) (fun f => dinv_at m0 rs a f) (translate arch link fuel a).
Proof.
  unfold translate. eapply holds_bind; [apply dinv_ask|]. intros profile.
  eapply (holds_bind _ (fun _ => dinv m0 rs));
    [by destruct profile; [apply dinv_lift|apply holds_ret]|]. intros start_time.
  eapply holds_bind; [apply dinv_ask|]. intros t.
  eapply holds_bind; [apply dinv_lift|]. intros [[[ret t'] obj]|]; [|by intros c Hc].
  eapply (holds_bind _ (fun _ => dinv m0 rs)); [by intros c Hc|]. intros [].
  destruct (ret <? 0); [by intros c Hc|]. destruct (default (0, 0) obj) as [b sz].
  apply (add_object_holds arch link m0 rs b sz a (fun func =>
    (if profile then
       end_time ← lift read_timespec;
       upd_state (fun s => set_rew_time (u64 (rew_time s +
         u64 ((end_time.1 - start_time.1) * 1000000000 + (end_time.2 - start_time.2)))) s)
     else mret tt);; mret func)).
  intros f.
  eapply (holds_bind _ (fun _ => dinv_at m0 rs a f)).
  - destruct profile; [|by apply holds_ret].
    eapply holds_bind; [apply dinv_at_lift|]. intros e. by intros c Hc.
  - intros []. by apply holds_ret.
Qed.

Lemma print_trace_holds m0 rs a f :
  holds (dinv_at m0 rs a f) (fun _ => dinv_at m0 rs a f) (print_trace a).
Proof.
  unfold print_trace. eapply holds_bind; [apply dinv_at_ask|]. intros c.
  eapply holds_bind; [apply dinv_at_ask|]. intros t. cbv zeta.
  eapply holds_bind; [apply dinv_at_lift|]. intros ?.
  destruct (_ =? 0); [by apply holds_ret|].
  repeat (eapply holds_bind; [apply dinv_at_lift|]; intros ?). by apply holds_ret.
Qed.

Lemma tlb_insert_holds m0 rs a f :
  holds (dinv_at m0 rs a f)
    (fun _ c => dinv_at m0 rs a f c /\ tlb (cpu c) (QUICK_TLB_HASH a) = (a, f))
    (upd_cpu (set_tlb (QUICK_TLB_HASH a) (a, f))).
Proof.
  intros [p s u w] [(m & Hs & Hm & Ht & Hr) Ha]. unfold upd_cpu. cbn [proc state cpu warnmap] in *.
  split; [split; [|done]|].
  - exists m. split; [done|]. split; [done|]. split; [|done]. intros h. cbn. rewrite tlb_set.
    destruct (decide _); [|apply Ht]. intros _. by apply (translated_lookup m a f (mkClient p s u w) Hm).
  - cbn. rewrite tlb_set. by rewrite decide_True.
Qed.

(** The address a call of [resolve_func] resolves. *)
Definition requested (addr patch_data : Z) (c : Client W) : Z :=
  if negb (patch_data =? 0) then sym_addr (load_patch (mem (proc c)) patch_data) else addr.

Lemma resolve_func_holds arch link fuel addr pd m0 rs a :
  holds (fun c => dinv m0 rs c /\ requested addr pd c = a)
    (fun f c => dinv_at m0 rs a f c) (resolve_func arch link fuel addr pd).
Proof.
  intros c [Hc Hreq]. unfold resolve_func.
  unfold mbind at 1, CM_bind at 1, ask at 1. fold (requested addr pd c). rewrite Hreq. cbv zeta.
  unfold mbind at 1, CM_bind at 1, ask at 1.
  destruct (rtld_resolve (objects (rtld (state c))) a) as [ret func] eqn:Hres.
  revert c Hc Hreq Hres. intros c Hc _ Hres.
  match goal with |- match ?x c with _ => _ end =>
    assert (holds (fun d => d = c) (fun f c => dinv_at m0 rs a f c) x) as Hx; [|by apply Hx] end.
  eapply (holds_bind _ (fun f => dinv_at m0 rs a f)).
  - destruct (resolve_cases (objects (rtld (state c))) a) as [[f Hf]|Hf];
      rewrite Hf in Hres; injection Hres as <- <-.
    + apply holds_ret. by intros d ->.
    + change (- ENOENT <? 0) with true. eapply holds_weaken; [| |apply translate_holds]; [|done].
      by intros d ->.
  - intros f. eapply (holds_bind _ (fun _ => dinv_at m0 rs a f)); [|intros []; by apply holds_ret].
    destruct (_ =? 0); [|apply print_trace_holds].
    eapply holds_bind; [apply dinv_at_lift|]. intros ?.
    eapply holds_weaken; [| |apply tlb_insert_holds]; [done|]. by intros _ d [Hd _].
Qed.

(** ** Resolving *)

Lemma cdecl_target_holds arch link fuel m0 rs pc :
  default 0 (rs !! 0) = pc ->
  holds (dinv m0 rs)
    (fun f c => dinv m0 rs c /\ (pc <> 0 -> translated pc f c)) (cdecl_target arch link fuel).
Proof.
  intros Hpc c Hc. unfold cdecl_target. unfold mbind, CM_bind, ask.
  assert (reg (cpu c) 0 = pc) as -> by (destruct Hc as (? & _ & _ & _ & <-); done). cbv zeta.
  destruct (Z.eqb_spec (tlb (cpu c) (QUICK_TLB_HASH pc)).1 pc) as [Hhit|Hmiss]; cbn [negb].
  - unfold mret, CM_ret. split; [done|]. intros Hnz. destruct Hc as (m & Hs & Hm & Ht & Hr).
    apply (translated_lookup m); [done|]. rewrite <- Hhit at 1. apply Ht. congruence.
  - pose proof (resolve_func_holds arch link fuel pc 0 m0 rs pc c) as Hf.
    destruct (resolve_func _ _ _ _ _ c) as [[f| | |] c']; try done; [|by apply Hf].
    destruct Hf as [H1 H2]; [done|]. done.
Qed.

(** The lookup of the assembly dispatchers, with its fall-back. *)
Lemma lookup_holds arch link fuel m0 rs pc (look : CpuState -> Z -> option Z) (c : Client W) :
  (forall u a, look u a = quick_lookup u a) -> dinv m0 rs c ->
  match (match look (cpu c) pc with
         | Some func => mret func
         | None => resolve_func arch link fuel pc 0
         end : CM W Z) c with
  | (Done f, c') => dinv m0 rs c' /\ (pc <> 0 -> translated pc f c')
  | (Killed _, _) => False
  | _ => True
  end.
Proof.
  intros Hlook Hc. rewrite Hlook. unfold quick_lookup.
  destruct (Z.eqb_spec (tlb (cpu c) (QUICK_TLB_HASH pc)).1 pc) as [Hhit|Hmiss].
  - unfold mret, CM_ret. split; [done|]. intros Hnz. destruct Hc as (m & Hs & Hm & Ht & Hr).
    apply (translated_lookup m); [done|]. rewrite <- Hhit at 1. apply Ht. congruence.
  - pose proof (resolve_func_holds arch link fuel pc 0 m0 rs pc c) as Hf.
    destruct (resolve_func _ _ _ _ _ c) as [[f| | |] c']; try done; [|by apply Hf].
    destruct Hf as [H1 H2]; [done|]. done.
Qed.

(** Translated code in the C convention (the program counter in the first
    register) and in the conventions that keep it in a host register.  It may
    do anything, if it was entered for its program counter, but keep the
    dispatcher's own state in order. *)
Definition dispatch_ok (m0 : gmap Z Z) (c : Client W) : Prop := dinv m0 (regs (cpu c)) c.
Definition safe_cdecl (m0 : gmap Z Z) (call : Z -> CM W unit) : Prop :=
  forall f, holds (fun c => dispatch_ok m0 c /\
                     (reg (cpu c) 0 <> 0 -> translated (reg (cpu c) 0) f c))
              (fun _ => dispatch_ok m0) (call f).
Definition safe_reg (m0 : gmap Z Z) (call : Z -> Z -> CM W Z) : Prop :=
  forall pc f, holds (fun c => dispatch_ok m0 c /\ (pc <> 0 -> translated pc f c))
                 (fun _ => dispatch_ok m0) (call f pc).

Lemma dinv_ok m0 rs c : dinv m0 rs c -> dispatch_ok m0 c /\ regs (cpu c) = rs.
Proof. intros (m & H1 & H2 & H3 & Hr). split; [|done]. exists m. done. Qed.

Lemma cdecl_loop_holds arch link m0 call fuel n :
  safe_cdecl m0 call ->
  holds (dispatch_ok m0) (fun _ => dispatch_ok m0) (dispatch_cdecl_loop arch link call fuel n).
Proof.
  intros Hcall. induction n as [|n IH]; cbn [dispatch_cdecl_loop]; [by apply holds_ret|].
  eapply (holds_bind _ (fun _ => dispatch_ok m0)); [|intros []; apply IH]. unfold dispatch_cdecl.
  eapply holds_bind; [|apply Hcall]. intros c Hc.
  pose proof (cdecl_target_holds arch link fuel m0 (regs (cpu c)) _ eq_refl c Hc) as Ht.
  destruct (cdecl_target _ _ _ c) as [[f| | |] c']; try done.
  destruct Ht as [Hd Ht]. apply dinv_ok in Hd as [Hd Hr]. split; [done|].
  unfold reg at 1 2. by rewrite Hr.
Qed.

Lemma reg_loop_step arch link m0 call fuel pc look k :
  (forall u a, look u a = quick_lookup u a) -> safe_reg m0 call ->
  (forall pc, holds (dispatch_ok m0) (fun _ => dispatch_ok m0) (k pc)) ->
  holds (dispatch_ok m0) (fun _ => dispatch_ok m0)
    (c ← ask cpu;
     func ← (match look c pc with
             | Some func => mret func
             | None => resolve_func arch link fuel pc 0
             end : CM W Z);
     pc ← call func pc; (k pc : CM W Z)).
Proof.
  intros Hlook Hcall Hk c Hc. unfold mbind at 1, CM_bind at 1, ask at 1.
  pose proof (lookup_holds arch link fuel m0 (regs (cpu c)) pc look c Hlook Hc) as Hl.
  unfold mbind at 1, CM_bind at 1.
  match type of Hl with match ?x with _ => _ end => destruct x as [[f| | |] c'] end; try done.
  destruct Hl as [Hd Ht]. apply dinv_ok in Hd as [Hd _].
  eapply holds_bind; [apply (Hcall pc f)| |by split]. apply Hk.
Qed.

Lemma hhvm_loop_holds arch link m0 call fuel n pc :
  safe_reg m0 call ->
  holds (dispatch_ok m0) (fun _ => dispatch_ok m0) (hhvm_loop arch link call fuel n pc).
Proof.
  intros Hcall. revert pc. induction n as [|n IH]; intros pc; cbn [hhvm_loop]; [by apply holds_ret|].
  by apply (reg_loop_step _ _ _ _ _ _ hhvm_lookup _ hhvm_lookup_quick).
Qed.

Lemma aapcsx_loop_holds arch link m0 call fuel n pc :
  safe_reg m0 call ->
  holds (dispatch_ok m0) (fun _ => dispatch_ok m0) (aapcsx_loop arch link call fuel n pc).
Proof.
  intros Hcall. revert pc. induction n as [|n IH]; intros pc; cbn [aapcsx_loop]; [by apply holds_ret|].
  by apply (reg_loop_step _ _ _ _ _ _ aapcsx_lookup _ aapcsx_lookup_quick).
Qed.

Lemma hhvm_holds arch link m0 call fuel n :
  safe_reg m0 call ->
  holds (dispatch_ok m0) (fun _ => dispatch_ok m0) (dispatch_hhvm arch link call fuel n).
Proof.
  intros Hcall. unfold dispatch_hhvm. eapply (holds_bind _ (fun _ => dispatch_ok m0)); [by intros c Hc|].
  intros pc. eapply (holds_bind _ (fun f c => dispatch_ok m0 c /\ (pc <> 0 -> translated pc f c))).
  - intros c Hc. pose proof (resolve_func_holds arch link fuel pc 0 m0 (regs (cpu c)) pc c) as Hf.
    unfold dispatch_hhvm_fullresolve.
    destruct (resolve_func _ _ _ _ _ c) as [[f| | |] c']; try done; [|by apply Hf].
    destruct Hf as [H1 H2]; [done|]. apply dinv_ok in H1 as [H1 _]. done.
  - intros f. eapply holds_bind; [apply Hcall|]. intros pc'. by apply hhvm_loop_holds.
Qed.

End Inv.

(** C4. Whatever translated code does to the guest, and however long the
    dispatch loops of the three calling conventions run, a function is entered
    only for the guest address it is the translation of (address 0 apart,
    which no function has), and the quick TLB stays in agreement with the code
    cache index, which never loses or changes an entry ([m0]). *)
Theorem dispatch_loops_sound {W} `{Kernel W} arch link m0 (callc : Z -> CM W unit) callr fuel n :
  safe_cdecl m0 callc -> safe_reg m0 callr ->
  holds (dispatch_ok m0) (fun _ => dispatch_ok m0) (dispatch_cdecl_loop arch link callc fuel n) /\
  holds (dispatch_ok m0) (fun _ => dispatch_ok m0) (dispatch_hhvm arch link callr fuel n) /\
  holds (dispatch_ok m0) (fun _ => dispatch_ok m0) (dispatch_aapcsx_loop arch link callr fuel n).
Proof.
  intros Hc Hr. split; [by apply cdecl_loop_holds|]. split; [by apply hhvm_holds|].
  eapply (holds_bind _ (fun _ => dispatch_ok m0)); [by intros c Hok|].
  intros pc. by apply aapcsx_loop_holds.
Qed.

(** Guest code that dies (SIGILL) when it is entered at the wrong function and
    goes to 0x1000 otherwise. *)
Definition picky_reg (f pc : Z) : CM Pipes Z :=
  r ← ask (fun c => rtld_resolve (objects (rtld (state c))) pc);
  if (pc =? 0) || bool_decide (r = (0, Some f)) then mret 0x1000 else stop (Killed 4).
Definition picky (f : Z) : CM Pipes unit :=
  pc ← ask (fun c => reg (cpu c) 0);
  pc ← picky_reg f pc;
  upd_cpu (set_reg 0 pc).

Lemma picky_reg_safe : safe_reg ∅ picky_reg.
Proof.
  intros pc f c [Hok Ht]. unfold picky_reg, mbind, CM_bind, ask.
  destruct (Z.eqb_spec pc 0) as [->|Hn]; [done|]. cbn [orb].
  rewrite bool_decide_true; [done|]. by apply Ht.
Qed.

Lemma picky_safe : safe_cdecl ∅ picky.
Proof.
  intros f c [Hok Ht]. unfold picky. unfold mbind at 1, CM_bind at 1, ask at 1.
  unfold mbind at 1, CM_bind at 1.
  pose proof (picky_reg_safe (reg (cpu c) 0) f c (conj Hok Ht)) as Hp.
  destruct (picky_reg _ _ c) as [[pc| | |] c']; try done.
  destruct Hp as (m & H1 & H2 & H3 & _). exists m. done.
Qed.

(** One translated address. *)
Definition disp_client : Client Pipes :=
  mkClient (mkProc ∅ (mkPipes ∅ ∅ 0 0) (mkArena 0 0 0 0) (mkArena 0 0 0 0) 4096 0x8000)
    (mkState (mkRtld (-1) (-1) (mkDisp 0 0 0 0) 0 (rtld_set ∅ 0x1000 0x7000 0 0).2 0)
       (mkTr 3 4 0 0 0 0 0) 0 ∅ (mkTsc 62 62 0 0 8) (mkTc 0 0 0 0 0))
    (set_reg 0 0x1000 (cpu0 0x9000)) ∅.

Lemma dispatch_loops_sound_witness :
  holds (dispatch_ok ∅) (fun _ => dispatch_ok ∅)
    (dispatch_cdecl_loop X86_64 (fun _ => 0) picky 1 3) /\
  (dispatch_cdecl_loop X86_64 (fun _ => 0) picky 1 3 disp_client).1 = Done tt.
Proof.
  split.
  - apply (dispatch_loops_sound X86_64 (fun _ => 0) ∅ picky picky_reg 1 3 picky_safe picky_reg_safe).
  - vm_compute. reflexivity.
Defined.

(** [resolve_func], from the dispatcher or from a patchable call site (whose
    patch data names the address), returns the index's entry for the requested
    address; if the address was unknown it has been added, entries known
    before are kept, and guest registers are not touched. *)
Theorem resolve_func_sound {W} `{Kernel W} arch link fuel addr pd m0 (c c' : Client W) f :
  dispatch_ok m0 c -> resolve_func arch link fuel addr pd c = (Done f, c') ->
  translated (requested addr pd c) f c' /\ dispatch_ok m0 c' /\ regs (cpu c') = regs (cpu c).
Proof.
  intros Hok Hr.
  pose proof (resolve_func_holds arch link fuel addr pd m0 (regs (cpu c)) _ c (conj Hok eq_refl)) as Hf.
  rewrite Hr in Hf. destruct Hf as [Hd Ht]. apply dinv_ok in Hd as [Hd Hreg]. done.
Qed.

Lemma dispatch_ok_init : dispatch_ok ∅ disp_client.
Proof.
  exists {[0x1000 := 0x7000]}. split; [apply map_empty_subseteq|]. split; [|split; [|done]].
  - pose proof (refines_set ∅ ∅ 0x1000 0x7000 0 0 table_empty_refines) as Hr.
    destruct Hr as [(_ & _ & Hr)|[(_ & [? Hl] & _)|(_ & _ & _ & Hs)]]; try done.
    specialize (Hs 0). vm_compute in Hs. by destruct Hs.
  - intros h Hh. unfold tlb, disp_client, set_reg, cpu0 in Hh. cbn in Hh. by rewrite lookup_empty in Hh.
Qed.

Lemma resolve_func_sound_witness :
  translated 0x1000 0x7000 (resolve_func X86_64 (fun _ => 0) 1 0x1000 0 disp_client).2.
Proof.
  apply (resolve_func_sound X86_64 (fun _ => 0) 1 0x1000 0 ∅ disp_client
    (resolve_func X86_64 (fun _ => 0) 1 0x1000 0 disp_client).2 0x7000 dispatch_ok_init).
  apply injective_projections; [vm_compute; reflexivity | reflexivity].
Defined.

(** A known address is resolved without the server: nothing changes but the
    quick TLB, and the next dispatch of that address is a hit that changes
    nothing at all. *)
Theorem resolve_known {W} `{Kernel W} arch link fuel a f (c : Client W) :
  translated a f c -> tc_print_trace (tc (state c)) = 0 ->
  let c' := mkClient (proc c) (state c) (set_tlb (QUICK_TLB_HASH a) (a, f) (cpu c)) (warnmap c) in
  resolve_func arch link fuel a 0 c = (Done f, c') /\
  (reg (cpu c) 0 = a -> cdecl_target arch link fuel c' = (Done f, c')).
Proof.
  intros Ht Htr c'. split.
  - destruct c as [p s u w]. cbn [proc state cpu warnmap] in *. unfold resolve_func.
    unfold mbind, CM_bind, ask, lift. cbn [proc state cpu warnmap].
    change (negb (0 =? 0)) with false. cbv iota zeta. unfold translated in Ht. cbn in Ht.
    rewrite Ht, Htr. change (0 <? 0) with false. change (0 =? 0) with true. done.
  - intros Hpc. unfold cdecl_target, mbind, CM_bind, ask.
    change (reg (cpu c') 0) with (reg (cpu c) 0). rewrite Hpc. cbv zeta.
    unfold c'. cbn [proc state cpu warnmap]. rewrite tlb_set, decide_True by done.
    cbn [fst snd]. rewrite Z.eqb_refl. done.
Qed.

Lemma resolve_known_witness :
  (cdecl_target X86_64 (fun _ => 0) 0
     (resolve_func X86_64 (fun _ => 0) 0 0x1000 0 disp_client).2).1 = Done 0x7000.
Proof.
  destruct (resolve_known X86_64 (fun _ => 0) 0 0x1000 0x7000 disp_client) as [E1 E2].
  - vm_compute. reflexivity.
  - reflexivity.
  - rewrite E1. cbn [snd]. rewrite E2; reflexivity.
Defined.
