(* ===== verification/MathF.v ===== *)
(** * Rounding functions, [client/math.c]

    [floor], [ceil], [round] and [trunc] for [float] and [double], on bit
    patterns.  The single and double precision versions differ in the widths
    only; the section is over the width of the mantissa and of the exponent.
    [fmaf] and [fma] are not modelled. *)

From Stdlib Require Import ZArith Lia.
From stdpp Require Import base numbers list option.
From S2P Require Import Prelude.

Section Float.
Context (mant ebits : Z).

Definition width : Z := 1 + ebits + mant.
Definition bias : Z := 2 ^ (ebits - 1) - 1.

(** [F32_AS_I32]: the bits as a signed integer; [I32_AS_F32] back. *)
Definition F_AS_I (v : Z) : Z := swrap width v.
Definition I_AS_F (vi : Z) : Z := wrap width vi.
Definition INT_MIN : Z := - 2 ^ (width - 1).

(** [EXP_F32]: the unbiased exponent. *)
Definition EXP_F (vi : Z) : Z := Z.land (Z.shiftr vi mant) (Z.ones ebits) - bias.

(** The constants 0.0, -0.0, 1.0 and -1.0. *)
Definition ZERO : Z := 0.
Definition NEG_ZERO : Z := 2 ^ (width - 1).
Definition ONE : Z := bias * 2 ^ mant.
Definition NEG_ONE : Z := 2 ^ (width - 1) + bias * 2 ^ mant.

(** [0x7fffff >> exp]. *)
Definition MASK (exp : Z) : Z := Z.shiftr (Z.ones mant) exp.

Definition floor_ (v : Z) : Z :=
  let vi := F_AS_I v in
  let exp := EXP_F vi in
  if exp <? 0 then
    if vi =? INT_MIN then NEG_ZERO else if vi <? 0 then NEG_ONE else ZERO
  else if exp <? mant then
    let msk := MASK exp in
    I_AS_F (Z.land (vi + (if vi <? 0 then msk else 0)) (Z.lnot msk))
  else v.

Definition ceil_ (v : Z) : Z :=
  let vi := F_AS_I v in
  let exp := EXP_F vi in
  if exp <? 0 then
    if vi <? 0 then NEG_ZERO else if vi =? 0 then ZERO else ONE
  else if exp <? mant then
    let msk := MASK exp in
    I_AS_F (Z.land (vi + (if 0 <=? vi then msk else 0)) (Z.lnot msk))
  else v.

Definition round_ (v : Z) : Z :=
  let vi := F_AS_I v in
  let exp := EXP_F vi in
  if exp <? -1 then I_AS_F (Z.land vi NEG_ZERO)
  else if exp =? -1 then if vi <? 0 then NEG_ONE else ONE
  else if exp <? mant then
    let msk := MASK exp in
    if negb (Z.land vi msk =? 0)
    then I_AS_F (Z.land (vi + (1 + Z.shiftr msk 1)) (Z.lnot msk))
    else v
  else v.

Definition trunc_ (v : Z) : Z :=
  let vi := F_AS_I v in
  let exp := EXP_F vi in
  if exp <? 0 then if vi <? 0 then NEG_ZERO else ZERO
  else if exp <? mant then
    let msk := MASK exp in
    I_AS_F (Z.land vi (Z.lnot msk))
  else v.

End Float.

(** The functions of the C library, on 32-bit and on 64-bit patterns. *)
Definition floorf : Z -> Z := floor_ 23 8.
Definition floor : Z -> Z := floor_ 52 11.
Definition ceilf : Z -> Z := ceil_ 23 8.
Definition ceil : Z -> Z := ceil_ 52 11.
Definition roundf : Z -> Z := round_ 23 8.
Definition round : Z -> Z := round_ 52 11.
Definition truncf : Z -> Z := trunc_ 23 8.
Definition trunc : Z -> Z := trunc_ 52 11.

(** Some of the cases of the test program at the end of [math.c]. *)
Example floorf_cases :
  floorf 0xbf000000 = 0xbf800000 /\ floorf 0x3f900000 = 0x3f800000 /\
  floorf 0xbf900000 = 0xc0000000 /\ floorf 0xc27e0000 = 0xc2800000.
Proof. vm_compute. done. Qed.
