(* ===== verification/MathFProofs.v ===== *)
(** * The rounding functions round

    The value of a bit pattern as an exact number (an integer multiple of the
    smallest positive value of the format), and the proofs that the bit
    manipulations of [client/math.c] round it as their names say. *)

From Stdlib Require Import ZArith Lia.
From stdpp Require Import base numbers list option.
From S2P Require Import Prelude MathF.

(** ** Exact values *)

Section Value.
Context (mant ebits : Z).

Definition sign_bit (v : Z) : Z := v / 2 ^ (ebits + mant).
Definition expo (v : Z) : Z := (v / 2 ^ mant) `mod` 2 ^ ebits.
Definition frac (v : Z) : Z := v `mod` 2 ^ mant.

(** Not an infinity and not a NaN. *)
Definition finite (v : Z) : Prop := expo v < 2 ^ ebits - 1.

(** The magnitude and the value in units of the least positive number; [UNIT]
    is the number of such units in 1.0. *)
Definition mag (v : Z) : Z :=
  if expo v =? 0 then frac v else (2 ^ mant + frac v) * 2 ^ (expo v - 1).
Definition value (v : Z) : Z := if sign_bit v =? 0 then mag v else - mag v.
Definition UNIT : Z := 2 ^ (bias ebits + mant - 1).

End Value.

(** Rounding of [x] to a multiple of [u]. *)
Definition down (x u : Z) : Z := x / u * u.
Definition up (x u : Z) : Z := - down (- x) u.
Definition toward_zero (x u : Z) : Z := Z.sgn x * down (Z.abs x) u.
Definition half_away (x u : Z) : Z := Z.sgn x * (down (2 * Z.abs x + u) (2 * u) / 2).

(** Decide an equation between boolean comparisons. *)
Ltac zcmp :=
  repeat match goal with
         | |- context [?a <? ?b] => destruct (Z.ltb_spec a b)
         | |- context [?a <=? ?b] => destruct (Z.leb_spec a b)
         | |- context [?a =? ?b] => destruct (Z.eqb_spec a b)
         end; first [reflexivity | exfalso; lia].

(** Evaluate the tests of a known sign. *)
Ltac sbool :=
  change (0 =? 1) with false; change (1 =? 1) with true; change (0 =? 0) with true;
  change (1 =? 0) with false; cbn [andb negb]; cbv iota.

(** ** Arithmetic *)

Lemma div_up q m : 0 < m -> - ((- q) / m) = (q + m - 1) / m.
Proof.
  intros Hm. pose proof (Z.div_mod (- q) m) as H1. pose proof (Z.mod_pos_bound (- q) m) as H2.
  pose proof (Z.div_mod (q + m - 1) m) as H3. pose proof (Z.mod_pos_bound (q + m - 1) m) as H4.
  nia.
Qed.

Lemma down_scale x u c : 0 < u -> 0 < c -> down (x * c) (u * c) = down x u * c.
Proof. intros Hu Hc. unfold down. rewrite Z.div_mul_cancel_r by lia. lia. Qed.

Lemma down_mod x u : 0 < u -> down x u = x - x `mod` u.
Proof. intros Hu. unfold down. pose proof (Z.div_mod x u). lia. Qed.

Lemma down_shift x u k : 0 < u -> down (k * u + x) u = k * u + down x u.
Proof. intros Hu. unfold down. rewrite Z.div_add_l by lia. lia. Qed.

Lemma down_small x u : 0 <= x < u -> down x u = 0.
Proof. intros Hx. unfold down. rewrite Z.div_small by lia. lia. Qed.

Lemma up_down x u : 0 < u -> up x u = down (x + u - 1) u.
Proof. intros Hu. unfold up, down. rewrite <- div_up by lia. lia. Qed.

Lemma half_down x u : 0 < u -> down (2 * x + u) (2 * u) / 2 = down (x + u / 2) u.
Proof.
  intros Hu. unfold down.
  replace ((2 * x + u) / (2 * u) * (2 * u)) with (((2 * x + u) / (2 * u) * u) * 2) by lia.
  rewrite Z.div_mul by lia. f_equal.
  pose proof (Z.div_mod (2 * x + u) (2 * u)) as H1. pose proof (Z.mod_pos_bound (2 * x + u) (2 * u)) as H2.
  apply (Z.div_unique _ _ _ (x + u / 2 - u * ((2 * x + u) / (2 * u)))); [|lia].
  left. pose proof (Z.div_mod u 2) as H3.
  pose proof (Z.mod_pos_bound u 2) as H4. lia.
Qed.

Lemma land_lnot_down x k : 0 <= k -> Z.land x (Z.lnot (Z.ones k)) = down x (2 ^ k).
Proof.
  intros Hk. rewrite <- Z.ldiff_land, Z.ldiff_ones_r by lia.
  rewrite Z.shiftl_mul_pow2, Z.shiftr_div_pow2 by lia. done.
Qed.

(** ** Bit patterns from their parts *)

Section Parts.
Context (mant ebits : Z) (Hmant : 1 <= mant) (Hebits : 3 <= ebits)
  (Hwide : mant <= MathF.bias ebits).

Abbreviation width := (MathF.width mant ebits).
Abbreviation bias := (MathF.bias ebits).
Abbreviation UNIT := (UNIT mant ebits).
Abbreviation finite := (finite mant ebits).
Abbreviation value := (value mant ebits).

(** Sign, exponent and fraction; the fraction may carry into the exponent. *)
Definition enc (s E M : Z) : Z := s * 2 ^ (ebits + mant) + (E * 2 ^ mant + M).

Lemma powers :
  0 < 2 ^ mant /\ 0 < 2 ^ ebits /\ 2 ^ (ebits + mant) = 2 ^ ebits * 2 ^ mant /\
  2 ^ width = 2 * 2 ^ (ebits + mant) /\ 2 ^ (width - 1) = 2 ^ (ebits + mant) /\
  2 ^ ebits = 2 * (bias + 1) /\ 3 <= bias.
Proof.
  assert (2 ^ (ebits + mant) = 2 ^ ebits * 2 ^ mant) by (apply Z.pow_add_r; lia).
  assert (2 ^ width = 2 * 2 ^ (ebits + mant)).
  { unfold MathF.width. replace (1 + ebits + mant) with (Z.succ (ebits + mant)) by lia.
    apply Z.pow_succ_r. lia. }
  assert (2 ^ (width - 1) = 2 ^ (ebits + mant)) by (f_equal; unfold MathF.width; lia).
  assert (2 ^ ebits = 2 * (bias + 1)).
  { unfold MathF.bias. rewrite Z.sub_add, <- Z.pow_succ_r by lia. f_equal. lia. }
  pose proof (Z.pow_le_mono_r 2 2 (ebits - 1)).
  assert (0 < 2 ^ mant) by lia. assert (3 <= bias) by (unfold MathF.bias; lia). lia.
Qed.

Lemma enc_exists v :
  in_u width v ->
  exists s E M, (s = 0 \/ s = 1) /\ 0 <= E < 2 ^ ebits /\ 0 <= M < 2 ^ mant /\ v = enc s E M.
Proof.
  destruct powers as (Hp & He & Hem & Hw & _). unfold in_u. rewrite Hw. intros Hv.
  exists (v / 2 ^ (ebits + mant)), ((v `mod` 2 ^ (ebits + mant)) / 2 ^ mant),
    ((v `mod` 2 ^ (ebits + mant)) `mod` 2 ^ mant).
  set (T := 2 ^ (ebits + mant)) in *. assert (0 < T) by nia.
  pose proof (Z.mod_pos_bound v T). pose proof (Z.div_mod v T).
  assert (0 <= v / T < 2) by (split; [apply Z.div_pos; lia | apply Z.div_lt_upper_bound; lia]).
  pose proof (Z.mod_pos_bound (v `mod` T) (2 ^ mant)). pose proof (Z.div_mod (v `mod` T) (2 ^ mant)).
  split; [lia|]. split; [split; [apply Z.div_pos; lia | apply Z.div_lt_upper_bound; nia]|].
  split; [lia|]. unfold enc. fold T. lia.
Qed.

Lemma enc_range s E M :
  (s = 0 \/ s = 1) -> 0 <= E < 2 ^ ebits -> 0 <= M < 2 ^ mant -> in_u width (enc s E M).
Proof.
  intros Hs HE HM. destruct powers as (Hp & He & Hem & Hw & _). unfold in_u, enc. rewrite Hw, Hem. nia.
Qed.

Lemma enc_parts s E M :
  (s = 0 \/ s = 1) -> 0 <= E < 2 ^ ebits -> 0 <= M < 2 ^ mant ->
  sign_bit mant ebits (enc s E M) = s /\ expo mant ebits (enc s E M) = E /\ frac mant (enc s E M) = M.
Proof.
  intros Hs HE HM. destruct powers as (Hp & He & Hem & Hw & _).
  unfold sign_bit, expo, frac, enc. rewrite Hem. split; [|split].
  - rewrite Z.div_add_l by nia. rewrite Z.div_small by nia. lia.
  - replace (s * (2 ^ ebits * 2 ^ mant) + (E * 2 ^ mant + M)) with ((s * 2 ^ ebits + E) * 2 ^ mant + M) by lia.
    rewrite Z.div_add_l, (Z.div_small M) by lia. rewrite Z.add_0_r, Z.add_comm, Z.mod_add by lia.
    by apply Z.mod_small.
  - replace (s * (2 ^ ebits * 2 ^ mant) + (E * 2 ^ mant + M)) with (M + (s * 2 ^ ebits + E) * 2 ^ mant) by lia.
    rewrite Z.mod_add by lia. by apply Z.mod_small.
Qed.

Lemma enc_F_AS_I s E M :
  (s = 0 \/ s = 1) -> 0 <= E < 2 ^ ebits -> 0 <= M < 2 ^ mant ->
  F_AS_I mant ebits (enc s E M) = - s * 2 ^ (ebits + mant) + (E * 2 ^ mant + M).
Proof.
  intros Hs HE HM. destruct powers as (Hp & He & Hem & Hw & Hw1 & _).
  unfold F_AS_I, swrap, enc. rewrite Hw, Hw1. set (T := 2 ^ (ebits + mant)) in *.
  assert (0 <= E * 2 ^ mant + M < T) by nia.
  destruct Hs as [-> | ->].
  - rewrite Z.mod_small by lia. lia.
  - replace (1 * T + (E * 2 ^ mant + M) + T) with ((E * 2 ^ mant + M) + 1 * (2 * T)) by lia.
    rewrite Z.mod_add, Z.mod_small by lia. lia.
Qed.

Lemma enc_EXP s E M :
  (s = 0 \/ s = 1) -> 0 <= E < 2 ^ ebits -> 0 <= M < 2 ^ mant ->
  EXP_F mant ebits (F_AS_I mant ebits (enc s E M)) = E - bias.
Proof.
  intros Hs HE HM. rewrite enc_F_AS_I by done. destruct powers as (Hp & He & Hem & _).
  unfold EXP_F. rewrite Z.shiftr_div_pow2, Z.land_ones by lia. rewrite Hem.
  replace (- s * (2 ^ ebits * 2 ^ mant) + (E * 2 ^ mant + M)) with ((E + - s * 2 ^ ebits) * 2 ^ mant + M) by lia.
  rewrite Z.div_add_l, (Z.div_small M), Z.add_0_r, Z.mod_add by lia. rewrite Z.mod_small; lia.
Qed.

Lemma enc_I_AS_F s y :
  (s = 0 \/ s = 1) -> 0 <= y < 2 ^ (ebits + mant) ->
  I_AS_F mant ebits (- s * 2 ^ (ebits + mant) + y) = s * 2 ^ (ebits + mant) + y.
Proof.
  intros Hs Hy. destruct powers as (Hp & He & Hem & Hw & _). unfold I_AS_F, wrap. rewrite Hw.
  destruct Hs as [-> | ->].
  - rewrite Z.mod_small; lia.
  - replace (- (1) * 2 ^ (ebits + mant) + y) with
      ((1 * 2 ^ (ebits + mant) + y) + (-1) * (2 * 2 ^ (ebits + mant))) by lia.
    rewrite Z.mod_add, Z.mod_small; lia.
Qed.

Definition sg (s : Z) : Z := 1 - 2 * s.

Lemma value_parts s E M :
  (s = 0 \/ s = 1) -> 0 <= E < 2 ^ ebits -> 0 <= M < 2 ^ mant ->
  value (enc s E M) = sg s * (if E =? 0 then M else (2 ^ mant + M) * 2 ^ (E - 1)).
Proof.
  intros Hs HE HM. unfold MathFProofs.value, mag.
  destruct (enc_parts s E M Hs HE HM) as (-> & -> & ->). unfold sg.
  destruct Hs as [-> | ->]; destruct (E =? 0); cbn [Z.eqb]; lia.
Qed.

(** A carry out of the fraction leads to the next exponent. *)
Lemma value_carry s E M :
  (s = 0 \/ s = 1) -> 1 <= E < 2 ^ ebits - 1 -> 0 <= M <= 2 ^ mant ->
  value (enc s E M) = sg s * ((2 ^ mant + M) * 2 ^ (E - 1)) /\
  sign_bit mant ebits (enc s E M) = s /\ in_u width (enc s E M).
Proof.
  intros Hs HE HM. destruct powers as (Hp & _).
  destruct (decide (M = 2 ^ mant)) as [-> |Hn].
  - assert (enc s E (2 ^ mant) = enc s (E + 1) 0) as -> by (unfold enc; lia).
    rewrite value_parts, (proj2 (Z.eqb_neq (E + 1) 0)) by lia. split; [|split].
    + replace (E + 1 - 1) with (Z.succ (E - 1)) by lia. rewrite Z.pow_succ_r by lia. lia.
    + apply enc_parts; lia.
    + apply enc_range; lia.
  - rewrite value_parts, (proj2 (Z.eqb_neq E 0)) by lia. split; [done|]. split.
    + apply enc_parts; lia.
    + apply enc_range; lia.
Qed.

Lemma MASK_ones e : 0 <= e <= mant -> MASK mant e = Z.ones (mant - e).
Proof. intros He. unfold MASK. rewrite Z.shiftr_div_pow2 by lia. apply Z.ones_div_pow2. lia. Qed.

Lemma UNIT_split E k :
  k = mant - (E - bias) -> 0 <= E - bias < mant -> UNIT = 2 ^ k * 2 ^ (E - 1).
Proof.
  intros -> He. destruct powers as (_ & _ & _ & _ & _ & _ & Hb). unfold MathFProofs.UNIT.
  rewrite <- Z.pow_add_r by lia. f_equal. lia.
Qed.

(** The common step: add [d] below the mask and clear the masked bits. *)
Lemma mid_step s E M d k :
  (s = 0 \/ s = 1) -> 0 <= E < 2 ^ ebits -> 0 <= M < 2 ^ mant ->
  k = mant - (E - bias) -> 0 <= E - bias < mant -> 0 <= d < 2 ^ k ->
  let r := I_AS_F mant ebits (Z.land (F_AS_I mant ebits (enc s E M) + d)
             (Z.lnot (MASK mant (E - bias)))) in
  value r = sg s * (down (2 ^ mant + M + d) (2 ^ k) * 2 ^ (E - 1)) /\
  sign_bit mant ebits r = s /\ in_u width r.
Proof.
  intros Hs HE HM Hk He Hd r.
  destruct powers as (Hp & Heb & Hem & Hw & Hw1 & Hb & Hb3).
  assert (0 < 2 ^ k) by lia.
  assert (E < 2 ^ ebits - 1) as HEm by lia.
  assert (2 ^ mant = 2 ^ (E - bias) * 2 ^ k) as Hj by (rewrite <- Z.pow_add_r by lia; f_equal; lia).
  assert (0 < 2 ^ (E - bias)) by lia.
  set (j := 2 ^ (E - bias)) in *. set (q := 2 ^ k) in *.
  assert (0 <= down (M + d) q <= 2 ^ mant) as HM'.
  { unfold down. assert (0 <= (M + d) / q) by (apply Z.div_pos; lia).
    assert ((M + d) / q < j + 1) by (apply Z.div_lt_upper_bound; nia). nia. }
  assert (r = enc s E (down (M + d) q)) as ->.
  { unfold r. rewrite MASK_ones, <- Hk, land_lnot_down by lia. fold q.
    rewrite enc_F_AS_I by done.
    replace (- s * 2 ^ (ebits + mant) + (E * 2 ^ mant + M) + d)
      with ((- s * (2 ^ ebits * j) + E * j) * q + (M + d)) by (rewrite Hem, Hj; lia).
    rewrite down_shift by lia.
    replace ((- s * (2 ^ ebits * j) + E * j) * q + down (M + d) q)
      with (- s * 2 ^ (ebits + mant) + (E * 2 ^ mant + down (M + d) q)) by (rewrite Hem, Hj; lia).
    rewrite enc_I_AS_F by (done || nia). done. }
  destruct (value_carry s E (down (M + d) q) Hs ltac:(lia) HM') as (-> & H1 & H2).
  split; [|done]. do 2 f_equal. rewrite Hj, <- down_shift by lia. f_equal; lia.
Qed.

(** *** Small and large exponents *)

Lemma small_value E M :
  0 <= E < 2 ^ ebits -> 0 <= M < 2 ^ mant ->
  let m := if E =? 0 then M else (2 ^ mant + M) * 2 ^ (E - 1) in
  0 <= m /\ (E < bias -> m < UNIT) /\ (E < bias - 1 -> 2 * m < UNIT) /\
  (E = bias - 1 -> UNIT <= 2 * m) /\ (m = 0 <-> E = 0 /\ M = 0).
Proof.
  intros HE HM m. destruct powers as (Hp & Heb & Hem & Hw & Hw1 & Hb & Hb3).
  assert (UNIT = 2 ^ mant * 2 ^ (bias - 1)) as HU.
  { unfold MathFProofs.UNIT. rewrite <- Z.pow_add_r by lia. f_equal. lia. }
  unfold m. destruct (Z.eqb_spec E 0) as [-> |Hn].
  - assert (2 <= 2 ^ (bias - 1)) by (pose proof (Z.pow_le_mono_r 2 1 (bias - 1)); lia). nia.
  - assert (0 < 2 ^ (E - 1)) by lia. repeat split; try nia.
    + intros Hlt. assert (2 ^ E <= 2 ^ (bias - 1)) by (apply Z.pow_le_mono_r; lia).
      assert (2 ^ E = 2 * 2 ^ (E - 1)) by (rewrite <- Z.pow_succ_r by lia; f_equal; lia). nia.
    + intros Hlt. assert (2 ^ (E + 1) <= 2 ^ (bias - 1)) by (apply Z.pow_le_mono_r; lia).
      assert (2 ^ (E + 1) = 4 * 2 ^ (E - 1)) by (change 4 with (2 ^ 2); rewrite <- Z.pow_add_r by lia; f_equal; lia).
      nia.
    + intros ->. assert (2 ^ (bias - 1) = 2 * 2 ^ (bias - 1 - 1))
        by (rewrite <- Z.pow_succ_r by lia; f_equal; lia). nia.
Qed.

Lemma large_value E M :
  mant <= E - bias -> E < 2 ^ ebits ->
  exists n, (2 ^ mant + M) * 2 ^ (E - 1) = n * UNIT.
Proof.
  intros He HE. destruct powers as (_ & _ & _ & _ & _ & _ & Hb).
  exists ((2 ^ mant + M) * 2 ^ (E - bias - mant)). unfold MathFProofs.UNIT.
  rewrite <- Z.mul_assoc, <- Z.pow_add_r by lia. do 2 f_equal. lia.
Qed.

Lemma UNIT_pos : 0 < UNIT.
Proof. destruct powers as (_ & _ & _ & _ & _ & _ & Hb). unfold MathFProofs.UNIT. lia. Qed.

(** The constants. *)
Lemma one_value s :
  (s = 0 \/ s = 1) ->
  value (enc s bias 0) = sg s * UNIT /\ sign_bit mant ebits (enc s bias 0) = s /\
  in_u width (enc s bias 0).
Proof.
  intros Hs. destruct powers as (Hp & _ & _ & _ & _ & Hb & Hb3).
  destruct (value_carry s bias 0 Hs) as (-> & H1 & H2); [lia..|].
  split; [|done]. f_equal. rewrite (UNIT_split bias mant) by lia. lia.
Qed.

Lemma zero_value s :
  (s = 0 \/ s = 1) ->
  value (enc s 0 0) = 0 /\ sign_bit mant ebits (enc s 0 0) = s /\ in_u width (enc s 0 0).
Proof.
  intros Hs. destruct powers as (Hp & Heb & _). rewrite value_parts by lia. change (0 =? 0) with true.
  split; [lia|]. split; [apply enc_parts; lia | apply enc_range; lia].
Qed.

Lemma consts :
  ZERO = enc 0 0 0 /\ NEG_ZERO mant ebits = enc 1 0 0 /\ ONE mant ebits = enc 0 bias 0 /\
  NEG_ONE mant ebits = enc 1 bias 0 /\ INT_MIN mant ebits = - 2 ^ (ebits + mant).
Proof.
  destruct powers as (_ & _ & _ & _ & Hw1 & _).
  unfold ZERO, NEG_ZERO, ONE, NEG_ONE, INT_MIN, enc. rewrite Hw1. lia.
Qed.

(** What a rounding function promises. *)
Definition rounds (f : Z -> Z) (rd : Z -> Z -> Z) (v : Z) : Prop :=
  value (f v) = rd (value v) UNIT /\ sign_bit mant ebits (f v) = sign_bit mant ebits v /\
  in_u width (f v).

Lemma F_AS_I_cases s E M :
  (s = 0 \/ s = 1) -> 0 <= E < 2 ^ ebits -> 0 <= M < 2 ^ mant ->
  let vi := F_AS_I mant ebits (enc s E M) in
  (vi <? 0) = (s =? 1) /\ (0 <=? vi) = (s =? 0) /\
  (vi =? INT_MIN mant ebits) = (s =? 1) && ((E =? 0) && (M =? 0)) /\
  (vi =? 0) = (s =? 0) && ((E =? 0) && (M =? 0)).
Proof.
  intros Hs HE HM vi. destruct powers as (Hp & Heb & Hem & _).
  destruct consts as (_ & _ & _ & _ & ->). unfold vi. rewrite enc_F_AS_I, Hem by done.
  assert (0 <= E * 2 ^ mant + M < 2 ^ ebits * 2 ^ mant) by nia.
  assert ((E =? 0) && (M =? 0) = (E * 2 ^ mant + M =? 0)) as -> by
    (destruct (Z.eqb_spec E 0), (Z.eqb_spec M 0); cbn [andb]; symmetry; rewrite ?Z.eqb_eq, ?Z.eqb_neq; nia).
  repeat split; zcmp.
Qed.

Lemma down_multiple n : down (n * UNIT) UNIT = n * UNIT.
Proof. pose proof UNIT_pos. unfold down. rewrite Z.div_mul by lia. done. Qed.

Lemma up_multiple n : up (n * UNIT) UNIT = n * UNIT.
Proof. unfold up. rewrite <- Z.mul_opp_l, down_multiple. lia. Qed.

Lemma down_neg x : 0 < x < UNIT -> down (- x) UNIT = - UNIT.
Proof.
  intros Hx. pose proof UNIT_pos as HU. unfold down.
  rewrite <- (Z.div_unique (- x) UNIT (-1) (UNIT - x)) by lia. lia.
Qed.

Lemma sg_abs s x : (s = 0 \/ s = 1) -> 0 <= x -> Z.abs ((1 - 2 * s) * x) = x.
Proof. intros [-> | ->] Hx; lia. Qed.

Lemma sg_sgn s x : (s = 0 \/ s = 1) -> 0 < x -> Z.sgn ((1 - 2 * s) * x) = sg s.
Proof. intros [-> | ->] Hx; unfold sg; lia. Qed.

(** [sg s * x] rounded toward zero and to nearest is rounded by magnitude. *)
Lemma toward_zero_sg s x u :
  (s = 0 \/ s = 1) -> 0 <= x -> 0 < u -> toward_zero (sg s * x) u = sg s * down x u.
Proof.
  intros Hs Hx Hu. unfold toward_zero, sg. destruct (Z.eq_dec x 0) as [-> |Hn].
  - rewrite Z.mul_0_r. cbn [Z.sgn]. rewrite (down_small 0 u) by lia. lia.
  - rewrite sg_abs, sg_sgn by lia. unfold sg. lia.
Qed.

Lemma half_away_sg s x u :
  (s = 0 \/ s = 1) -> 0 <= x -> 1 < u -> half_away (sg s * x) u = sg s * down (x + u / 2) u.
Proof.
  intros Hs Hx Hu. unfold half_away, sg. rewrite half_down by lia. destruct (Z.eq_dec x 0) as [-> |Hn].
  - rewrite Z.mul_0_r. cbn [Z.sgn]. rewrite (down_small (0 + u / 2) u); [lia|].
    split; [|pose proof (Z.div_lt u 2); lia]. pose proof (Z.div_pos u 2). lia.
  - rewrite sg_abs, sg_sgn by lia. unfold sg. lia.
Qed.

(** *** The functions *)

(** A finite pattern is small, middle or large; each function is proved on the
    three. *)
Lemma by_exponent (P : Z -> Prop) :
  (forall s E M, (s = 0 \/ s = 1) -> 0 <= E < bias -> 0 <= M < 2 ^ mant -> P (enc s E M)) ->
  (forall s E M, (s = 0 \/ s = 1) -> 0 <= E - bias < mant -> 0 <= M < 2 ^ mant -> P (enc s E M)) ->
  (forall s E M n, (s = 0 \/ s = 1) -> mant <= E - bias -> E < 2 ^ ebits -> 0 <= M < 2 ^ mant ->
     value (enc s E M) = n * UNIT -> P (enc s E M)) ->
  forall v, in_u width v -> finite v -> P v.
Proof.
  intros Hsm Hmid Hlg v Hv Hfin. destruct (enc_exists v Hv) as (s & E & M & Hs & HE & HM & ->).
  destruct powers as (_ & _ & _ & _ & _ & _ & Hb).
  destruct (decide (E < bias)); [apply Hsm; lia|].
  destruct (decide (E - bias < mant)); [apply Hmid; lia|].
  destruct (large_value E M) as [n' Hn]; [lia..|].
  apply (Hlg s E M (sg s * n')); try lia. rewrite value_parts, (proj2 (Z.eqb_neq E 0)) by lia.
  rewrite Hn. lia.
Qed.

Lemma mid_value s E M k :
  (s = 0 \/ s = 1) -> k = mant - (E - bias) -> 0 <= E - bias < mant -> 0 <= M < 2 ^ mant ->
  value (enc s E M) = sg s * ((2 ^ mant + M) * 2 ^ (E - 1)) /\
  sign_bit mant ebits (enc s E M) = s /\
  F_AS_I mant ebits (enc s E M) = - s * 2 ^ (ebits + mant) + (E * 2 ^ mant + M) /\
  UNIT = 2 ^ k * 2 ^ (E - 1) /\ 2 <= 2 ^ k /\ 0 < 2 ^ (E - 1) /\ 0 <= E < 2 ^ ebits.
Proof.
  intros Hs Hk He HM. destruct powers as (_ & _ & _ & _ & _ & Hb & Hb3).
  rewrite value_parts, (proj2 (Z.eqb_neq E 0)) by lia. split; [done|].
  split; [apply enc_parts; lia|]. split; [apply enc_F_AS_I; lia|].
  split; [by apply UNIT_split|]. split; [pose proof (Z.pow_le_mono_r 2 1 k); lia|]. lia.
Qed.

Lemma floor_rounds v : in_u width v -> finite v -> rounds (floor_ mant ebits) down v.
Proof.
  pose proof UNIT_pos as HU. destruct powers as (Hp & Heb & _ & _ & _ & Hb & Hb3).
  revert v. apply by_exponent.
  - intros s E M Hs HE HM. destruct consts as (C0 & C1 & C2 & C3 & _).
    destruct (F_AS_I_cases s E M) as (F1 & F2 & F3 & F4); [lia..|].
    destruct (small_value E M) as (S0 & S1 & _ & _ & S4); [lia..|]. specialize (S1 ltac:(lia)).
    unfold rounds, floor_. cbv zeta. rewrite enc_EXP, F1, F3 by lia.
    rewrite (proj2 (Z.ltb_lt (E - bias) 0)) by lia. rewrite value_parts by lia.
    destruct (enc_parts s E M) as (-> & _ & _); [lia..|].
    set (m := if E =? 0 then M else _) in *.
    destruct Hs as [-> | ->]; sbool.
    + rewrite C0. destruct (zero_value 0) as (-> & Z1 & Z2); [lia|]. split; [|done].
      unfold sg. rewrite down_small; lia.
    + destruct ((E =? 0) && (M =? 0)) eqn:HEM.
      * assert (m = 0) as -> by (apply S4; lia). rewrite C1.
        destruct (zero_value 1) as (-> & Z1 & Z2); [lia|]. split; [|done].
        rewrite Z.mul_0_r, down_small; lia.
      * assert (0 < m) by (destruct (Z.eq_dec m 0) as [Hz|]; [apply S4 in Hz; lia|lia]).
        rewrite C3. destruct (one_value 1) as (-> & Z1 & Z2); [lia|]. split; [|done].
        unfold sg. replace ((1 - 2 * 1) * m) with (- m) by lia. rewrite down_neg; lia.
  - intros s E M Hs He HM. set (k := mant - (E - bias)).
    destruct (mid_value s E M k Hs eq_refl He HM) as (Hv & Hsb & HF & HUk & Hq & Hc & HE).
    unfold rounds. rewrite Hv, Hsb. unfold floor_. cbv zeta.
    destruct (F_AS_I_cases s E M) as (F1 & _); [lia..|]. rewrite enc_EXP, F1 by lia.
    rewrite (proj2 (Z.ltb_ge (E - bias) 0)), (proj2 (Z.ltb_lt (E - bias) mant)) by lia.
    destruct (mid_step s E M (if s =? 1 then MASK mant (E - bias) else 0) k) as (R1 & R2 & R3);
      [lia..| |].
    { rewrite MASK_ones, Z.ones_equiv by lia. fold k. destruct (s =? 1); lia. }
    rewrite R1. split; [|done]. rewrite HUk.
    rewrite MASK_ones, Z.ones_equiv by lia. fold k. unfold sg.
    destruct Hs as [-> | ->]; sbool.
    + replace (2 ^ mant + M + 0) with (2 ^ mant + M) by lia.
      rewrite <- down_scale by lia. replace ((1 - 2 * 0) * ((2 ^ mant + M) * 2 ^ (E - 1)))
        with ((2 ^ mant + M) * 2 ^ (E - 1)) by lia. lia.
    + replace (2 ^ mant + M + Z.pred (2 ^ k)) with (2 ^ mant + M + 2 ^ k - 1) by lia.
      rewrite <- up_down by lia. unfold up.
      replace ((1 - 2 * 1) * ((2 ^ mant + M) * 2 ^ (E - 1))) with ((- (2 ^ mant + M)) * 2 ^ (E - 1)) by lia.
      rewrite down_scale by lia. lia.
  - intros s E M n Hs He HE HM Hv. unfold rounds, floor_. cbv zeta. rewrite enc_EXP by lia.
    rewrite (proj2 (Z.ltb_ge (E - bias) 0)), (proj2 (Z.ltb_ge (E - bias) mant)) by lia.
    rewrite Hv, down_multiple. split; [done|]. split; [done|]. apply enc_range; lia.
Qed.

Lemma ceil_rounds v : in_u width v -> finite v -> rounds (ceil_ mant ebits) up v.
Proof.
  pose proof UNIT_pos as HU. destruct powers as (Hp & Heb & _ & _ & _ & Hb & Hb3).
  revert v. apply by_exponent.
  - intros s E M Hs HE HM. destruct consts as (C0 & C1 & C2 & C3 & _).
    destruct (F_AS_I_cases s E M) as (F1 & F2 & F3 & F4); [lia..|].
    destruct (small_value E M) as (S0 & S1 & _ & _ & S4); [lia..|]. specialize (S1 ltac:(lia)).
    unfold rounds, ceil_. cbv zeta. rewrite enc_EXP, F1, F4 by lia.
    rewrite (proj2 (Z.ltb_lt (E - bias) 0)) by lia. rewrite value_parts by lia.
    destruct (enc_parts s E M) as (-> & _ & _); [lia..|].
    set (m := if E =? 0 then M else _) in *. unfold up.
    destruct Hs as [-> | ->]; sbool.
    + destruct ((E =? 0) && (M =? 0)) eqn:HEM.
      * assert (m = 0) as -> by (apply S4; lia). rewrite C0.
        destruct (zero_value 0) as (-> & Z1 & Z2); [lia|]. split; [|done].
        rewrite Z.mul_0_r, down_small; lia.
      * assert (0 < m) by (destruct (Z.eq_dec m 0) as [Hz|]; [apply S4 in Hz; lia|lia]).
        rewrite C2. destruct (one_value 0) as (-> & Z1 & Z2); [lia|]. split; [|done].
        unfold sg. replace (- ((1 - 2 * 0) * m)) with (- m) by lia. rewrite down_neg; lia.
    + rewrite C1. destruct (zero_value 1) as (-> & Z1 & Z2); [lia|]. split; [|done].
      unfold sg. replace (- ((1 - 2 * 1) * m)) with m by lia. rewrite down_small; lia.
  - intros s E M Hs He HM. set (k := mant - (E - bias)).
    destruct (mid_value s E M k Hs eq_refl He HM) as (Hv & Hsb & HF & HUk & Hq & Hc & HE).
    unfold rounds. rewrite Hv, Hsb. unfold ceil_. cbv zeta.
    destruct (F_AS_I_cases s E M) as (_ & F2 & _); [lia..|]. rewrite enc_EXP, F2 by lia.
    rewrite (proj2 (Z.ltb_ge (E - bias) 0)), (proj2 (Z.ltb_lt (E - bias) mant)) by lia.
    destruct (mid_step s E M (if s =? 0 then MASK mant (E - bias) else 0) k) as (R1 & R2 & R3);
      [lia..| |].
    { rewrite MASK_ones, Z.ones_equiv by lia. fold k. destruct (s =? 0); lia. }
    rewrite R1. split; [|done]. rewrite HUk.
    rewrite MASK_ones, Z.ones_equiv by lia. fold k. unfold sg.
    destruct Hs as [-> | ->]; sbool.
    + replace (2 ^ mant + M + Z.pred (2 ^ k)) with (2 ^ mant + M + 2 ^ k - 1) by lia.
      rewrite <- up_down by lia. unfold up.
      replace (- ((1 - 2 * 0) * ((2 ^ mant + M) * 2 ^ (E - 1)))) with ((- (2 ^ mant + M)) * 2 ^ (E - 1)) by lia.
      rewrite down_scale by lia. lia.
    + replace (2 ^ mant + M + 0) with (2 ^ mant + M) by lia. unfold up.
      replace (- ((1 - 2 * 1) * ((2 ^ mant + M) * 2 ^ (E - 1)))) with ((2 ^ mant + M) * 2 ^ (E - 1)) by lia.
      rewrite down_scale by lia. lia.
  - intros s E M n Hs He HE HM Hv. unfold rounds, ceil_. cbv zeta. rewrite enc_EXP by lia.
    rewrite (proj2 (Z.ltb_ge (E - bias) 0)), (proj2 (Z.ltb_ge (E - bias) mant)) by lia.
    rewrite Hv, up_multiple. split; [done|]. split; [done|]. apply enc_range; lia.
Qed.

(** A large value is rounded to itself by magnitude too. *)
Lemma large_id s E M n :
  (s = 0 \/ s = 1) -> mant <= E - bias -> E < 2 ^ ebits -> 0 <= M < 2 ^ mant ->
  value (enc s E M) = n * UNIT ->
  toward_zero (n * UNIT) UNIT = n * UNIT /\ half_away (n * UNIT) UNIT = n * UNIT.
Proof.
  intros Hs He HE HM Hv. pose proof UNIT_pos as HU.
  assert (1 < UNIT) as HU1.
  { unfold MathFProofs.UNIT. destruct powers as (_ & _ & _ & _ & _ & _ & Hb3).
    pose proof (Z.pow_le_mono_r 2 1 (bias + mant - 1)). lia. }
  assert (exists s' n', (s' = 0 \/ s' = 1) /\ 0 <= n' /\ n * UNIT = sg s' * (n' * UNIT)) as (s' & n' & Hs' & Hn' & ->).
  { unfold sg. destruct (Z.ltb_spec n 0); [exists 1, (- n) | exists 0, n]; lia. }
  rewrite toward_zero_sg, half_away_sg by nia. rewrite down_multiple. split; [done|].
  rewrite (down_shift (UNIT / 2) UNIT n') by lia. rewrite down_small; [lia|].
  split; [apply Z.div_pos; lia | apply Z.div_lt; lia].
Qed.

Lemma trunc_rounds v : in_u width v -> finite v -> rounds (trunc_ mant ebits) toward_zero v.
Proof.
  pose proof UNIT_pos as HU. destruct powers as (Hp & Heb & _ & _ & _ & Hb & Hb3).
  revert v. apply by_exponent.
  - intros s E M Hs HE HM. destruct consts as (C0 & C1 & C2 & C3 & _).
    destruct (F_AS_I_cases s E M) as (F1 & _); [lia..|].
    destruct (small_value E M) as (S0 & S1 & _); [lia..|]. specialize (S1 ltac:(lia)).
    unfold rounds, trunc_. cbv zeta. rewrite enc_EXP, F1 by lia.
    rewrite (proj2 (Z.ltb_lt (E - bias) 0)) by lia. rewrite value_parts by lia.
    destruct (enc_parts s E M) as (-> & _ & _); [lia..|].
    rewrite toward_zero_sg, (down_small _ UNIT) by lia.
    assert ((if s =? 1 then NEG_ZERO mant ebits else ZERO) = enc s 0 0) as ->
      by (destruct Hs as [-> | ->]; sbool; done).
    destruct (zero_value s Hs) as (-> & Z1 & Z2). split; [lia|done].
  - intros s E M Hs He HM. set (k := mant - (E - bias)).
    destruct (mid_value s E M k Hs eq_refl He HM) as (Hv & Hsb & HF & HUk & Hq & Hc & HE).
    unfold rounds. rewrite Hv, Hsb. unfold trunc_. cbv zeta. rewrite enc_EXP by lia.
    rewrite (proj2 (Z.ltb_ge (E - bias) 0)), (proj2 (Z.ltb_lt (E - bias) mant)) by lia.
    destruct (mid_step s E M 0 k) as (R1 & R2 & R3); [lia..|].
    rewrite Z.add_0_r in R1, R2, R3. rewrite R1. split; [|done]. rewrite HUk.
    rewrite toward_zero_sg, down_scale by (lia || nia). do 3 f_equal. lia.
  - intros s E M n Hs He HE HM Hv. unfold rounds, trunc_. cbv zeta. rewrite enc_EXP by lia.
    rewrite (proj2 (Z.ltb_ge (E - bias) 0)), (proj2 (Z.ltb_ge (E - bias) mant)) by lia.
    rewrite Hv. destruct (large_id s E M n Hs He HE HM Hv) as [-> _].
    split; [done|]. split; [done|]. apply enc_range; lia.
Qed.

Lemma land_sign s E M :
  (s = 0 \/ s = 1) -> 0 <= E < 2 ^ ebits -> 0 <= M < 2 ^ mant ->
  I_AS_F mant ebits (Z.land (F_AS_I mant ebits (enc s E M)) (NEG_ZERO mant ebits)) = enc s 0 0.
Proof.
  intros Hs HE HM. destruct powers as (Hp & Heb & Hem & _ & Hw1 & _).
  unfold NEG_ZERO. rewrite Hw1, enc_F_AS_I by done. set (n := ebits + mant).
  assert (0 <= E * 2 ^ mant + M < 2 ^ n) as Hb by (unfold n; nia).
  set (b := E * 2 ^ mant + M) in *.
  assert (Z.land (- s * 2 ^ n + b) (2 ^ n) = s * 2 ^ n) as ->.
  { assert ((- s * 2 ^ n + b) / 2 ^ n = - s) as Hd by (rewrite Z.div_add_l, Z.div_small by lia; lia).
    assert (Z.testbit (- s * 2 ^ n + b) n = (s =? 1)) as Ht.
    { destruct (Z.eqb_spec s 1) as [Hs1|Hs1].
      - apply Z.testbit_true; [lia|]. rewrite Hd. subst s. done.
      - apply Z.testbit_false; [lia|]. rewrite Hd. assert (s = 0) as -> by lia. done. }
    apply Z.bits_inj'. intros i Hi. rewrite Z.land_spec, Z.pow2_bits_eqb by lia.
    destruct (Z.eqb_spec n i) as [<- |Hne].
    - rewrite Ht, andb_true_r. destruct Hs as [-> | ->]; sbool; [by rewrite Z.bits_0|].
      rewrite Z.mul_1_l, Z.pow2_bits_eqb, Z.eqb_refl by lia. done.
    - rewrite andb_false_r. destruct Hs as [-> | ->]; [by rewrite Z.bits_0|].
      rewrite Z.mul_1_l, Z.pow2_bits_eqb by lia. symmetry. by apply Z.eqb_neq. }
  unfold enc. replace (s * 2 ^ n) with (- s * 2 ^ n + 2 * s * 2 ^ n) by lia.
  unfold I_AS_F, wrap. destruct powers as (_ & _ & _ & Hw & _). rewrite Hw. fold n.
  rewrite Z.mod_small by (destruct Hs as [-> | ->]; lia). lia.
Qed.

Lemma half_unit E k :
  UNIT = 2 ^ k * 2 ^ (E - 1) -> 1 <= k -> UNIT / 2 = 2 ^ (k - 1) * 2 ^ (E - 1).
Proof.
  intros -> Hk. replace k with (Z.succ (k - 1)) at 1 by lia. rewrite Z.pow_succ_r by lia.
  replace (2 * 2 ^ (k - 1) * 2 ^ (E - 1)) with (2 ^ (k - 1) * 2 ^ (E - 1) * 2) by lia.
  by rewrite Z.div_mul.
Qed.

Lemma round_small s E M :
  (s = 0 \/ s = 1) -> 0 <= E < bias -> 0 <= M < 2 ^ mant ->
  rounds (round_ mant ebits) half_away (enc s E M).
Proof.
  intros Hs HE HM. pose proof UNIT_pos as HU. destruct powers as (Hp & Heb & _ & _ & _ & Hb & Hb3).
  destruct consts as (_ & _ & C2 & C3 & _).
  destruct (F_AS_I_cases s E M) as (F1 & _); [lia..|].
  destruct (small_value E M) as (S0 & S1 & S2 & S3 & _); [lia..|]. specialize (S1 ltac:(lia)).
  assert (1 < UNIT) as HU1.
  { unfold MathFProofs.UNIT. pose proof (Z.pow_le_mono_r 2 1 (bias + mant - 1)). lia. }
  assert (2 * (UNIT / 2) = UNIT) as Hhalf.
  { rewrite (half_unit bias mant) by (apply UNIT_split || lia; lia).
    rewrite (UNIT_split bias mant) by lia.
    replace (2 ^ mant) with (2 * 2 ^ (mant - 1)) by (rewrite <- Z.pow_succ_r by lia; f_equal; lia). lia. }
  unfold rounds. rewrite value_parts by lia. destruct (enc_parts s E M) as (-> & _ & _); [lia..|].
  rewrite half_away_sg by lia. set (m := if E =? 0 then M else _) in *.
  unfold round_. cbv zeta. rewrite enc_EXP, F1 by lia.
  destruct (Z.ltb_spec (E - bias) (-1)) as [Hlt|Hge].
  - rewrite land_sign by lia. destruct (zero_value s Hs) as (-> & Z1 & Z2). split; [|done].
    specialize (S2 ltac:(lia)). rewrite down_small; lia.
  - assert (E = bias - 1) as -> by lia.
    replace (bias - 1 - bias =? -1) with true by (symmetry; apply Z.eqb_eq; lia).
    assert ((if s =? 1 then NEG_ONE mant ebits else ONE mant ebits) = enc s bias 0) as ->
      by (destruct Hs as [-> | ->]; sbool; done).
    destruct (one_value s Hs) as (-> & Z1 & Z2). split; [|done]. specialize (S3 eq_refl).
    f_equal. replace (m + UNIT / 2) with (1 * UNIT + (m + UNIT / 2 - UNIT)) by lia.
    rewrite down_shift, down_small; lia.
Qed.

Lemma round_mid s E M :
  (s = 0 \/ s = 1) -> 0 <= E - bias < mant -> 0 <= M < 2 ^ mant ->
  rounds (round_ mant ebits) half_away (enc s E M).
Proof.
  intros Hs He HM. set (k := mant - (E - bias)). destruct powers as (_ & _ & Hem & _ & _ & _ & Hb3).
  destruct (mid_value s E M k Hs eq_refl He HM) as (Hv & Hsb & HF & HUk & Hq & Hc & HE).
  pose proof (half_unit E k HUk ltac:(lia)) as Hh.
  assert (2 ^ k = 2 * 2 ^ (k - 1)) as Hk2 by (rewrite <- Z.pow_succ_r by lia; f_equal; lia).
  unfold rounds. rewrite Hv, Hsb. rewrite half_away_sg by (lia || nia).
  rewrite Hh, HUk, <- Z.mul_add_distr_r, down_scale by lia.
  unfold round_. cbv zeta. rewrite enc_EXP by lia.
  rewrite (proj2 (Z.ltb_ge (E - bias) (-1))), (proj2 (Z.eqb_neq (E - bias) (-1))),
    (proj2 (Z.ltb_lt (E - bias) mant)) by lia.
  destruct (Z.eqb_spec (Z.land (F_AS_I mant ebits (enc s E M)) (MASK mant (E - bias))) 0) as [Hz|Hnz];
    cbn [negb].
  - assert (down (2 ^ mant + M + 2 ^ (k - 1)) (2 ^ k) = 2 ^ mant + M) as ->.
    { rewrite MASK_ones, Z.land_ones in Hz by lia. fold k in Hz. rewrite HF in Hz.
      assert (2 ^ mant = 2 ^ (E - bias) * 2 ^ k) as Hj by (rewrite <- Z.pow_add_r by lia; f_equal; lia).
      rewrite Hem, Hj in Hz.
      replace (- s * (2 ^ ebits * (2 ^ (E - bias) * 2 ^ k)) + (E * (2 ^ (E - bias) * 2 ^ k) + M))
        with (M + (- s * 2 ^ ebits * 2 ^ (E - bias) + E * 2 ^ (E - bias)) * 2 ^ k) in Hz by lia.
      rewrite Z.mod_add in Hz by lia. pose proof (Z.div_mod M (2 ^ k)) as HM'. rewrite Hz in HM'.
      replace (2 ^ mant + M + 2 ^ (k - 1)) with ((2 ^ (E - bias) + M / 2 ^ k) * 2 ^ k + 2 ^ (k - 1)) by lia.
      rewrite down_shift, down_small; lia. }
    rewrite Hv, Hsb. split; [done|]. split; [done|]. apply enc_range; lia.
  - destruct (mid_step s E M (1 + Z.shiftr (MASK mant (E - bias)) 1) k) as (R1 & R2 & R3); [lia..| |].
    { rewrite MASK_ones by lia. fold k. rewrite Z.shiftr_div_pow2, Z.ones_div_pow2, Z.ones_equiv by lia. lia. }
    split; [|done]. rewrite R1. do 3 f_equal. rewrite MASK_ones by lia. fold k.
    rewrite Z.shiftr_div_pow2, Z.ones_div_pow2, Z.ones_equiv by lia. lia.
Qed.

Lemma round_rounds v : in_u width v -> finite v -> rounds (round_ mant ebits) half_away v.
Proof.
  revert v. apply by_exponent.
  - intros. by apply round_small.
  - intros. by apply round_mid.
  - intros s E M n Hs He HE HM Hv. destruct powers as (_ & _ & _ & _ & _ & _ & Hb3).
    unfold rounds, round_. cbv zeta. rewrite enc_EXP by lia.
    rewrite (proj2 (Z.ltb_ge (E - bias) (-1))), (proj2 (Z.eqb_neq (E - bias) (-1))),
      (proj2 (Z.ltb_ge (E - bias) mant)) by lia.
    rewrite Hv. destruct (large_id s E M n Hs He HE HM Hv) as [_ ->].
    split; [done|]. split; [done|]. apply enc_range; lia.
Qed.

(** Infinities and NaNs are returned as they are. *)
Lemma special_id v :
  in_u width v -> ~ finite v ->
  floor_ mant ebits v = v /\ ceil_ mant ebits v = v /\ round_ mant ebits v = v /\ trunc_ mant ebits v = v.
Proof.
  intros Hv Hfin. destruct (enc_exists v Hv) as (s & E & M & Hs & HE & HM & ->).
  destruct powers as (_ & _ & _ & _ & _ & Hb & Hb3).
  unfold MathFProofs.finite in Hfin. destruct (enc_parts s E M Hs HE HM) as (_ & HEx & _).
  rewrite HEx in Hfin. unfold floor_, ceil_, round_, trunc_. cbv zeta. rewrite enc_EXP by lia.
  rewrite (proj2 (Z.ltb_ge (E - bias) 0)), (proj2 (Z.ltb_ge (E - bias) (-1))),
    (proj2 (Z.eqb_neq (E - bias) (-1))), (proj2 (Z.ltb_ge (E - bias) mant)) by lia.
  done.
Qed.

End Parts.

(** [floorf], [ceilf], [roundf] and [truncf] return the exact value of the
    argument rounded down, up, to nearest with halves away from zero, and
    toward zero, with the sign bit (also of a zero result) of the argument;
    infinities and NaNs are returned unchanged. *)
Theorem float_rounding v :
  in_u 32 v ->
  (finite 23 8 v ->
   rounds 23 8 floorf down v /\ rounds 23 8 ceilf up v /\
   rounds 23 8 roundf half_away v /\ rounds 23 8 truncf toward_zero v) /\
  (~ finite 23 8 v -> floorf v = v /\ ceilf v = v /\ roundf v = v /\ truncf v = v).
Proof.
  intros Hv. assert (23 <= bias 8) by (vm_compute; done). split; intros Hf.
  - split; [by apply floor_rounds|]. split; [by apply ceil_rounds|].
    split; [by apply round_rounds | by apply trunc_rounds].
  - by apply special_id.
Qed.

(** -63.5 and its neighbours; 1.0 has 2^149 units. *)
Lemma float_rounding_witness :
  value 23 8 (floorf 0xc27e0000) = -64 * 2 ^ 149 /\ value 23 8 (roundf 0xc27e0000) = -64 * 2 ^ 149 /\
  value 23 8 (truncf 0xc27e0000) = -63 * 2 ^ 149.
Proof.
  destruct (float_rounding 0xc27e0000) as [T _]; [vm_compute; split; [discriminate | reflexivity]|].
  destruct T as ((-> & _) & _ & (-> & _) & (-> & _)); [vm_compute; reflexivity|].
  vm_compute. repeat split; reflexivity.
Defined.

(** The same for [floor], [ceil], [round] and [trunc] on doubles. *)
Theorem double_rounding v :
  in_u 64 v ->
  (finite 52 11 v ->
   rounds 52 11 floor down v /\ rounds 52 11 ceil up v /\
   rounds 52 11 round half_away v /\ rounds 52 11 trunc toward_zero v) /\
  (~ finite 52 11 v -> floor v = v /\ ceil v = v /\ round v = v /\ trunc v = v).
Proof.
  intros Hv. assert (52 <= bias 11) by (vm_compute; done). split; intros Hf.
  - split; [by apply floor_rounds|]. split; [by apply ceil_rounds|].
    split; [by apply round_rounds | by apply trunc_rounds].
  - by apply special_id.
Qed.

Lemma double_rounding_witness :
  value 52 11 (ceil 0xbfe0000000000000) = 0 /\ sign_bit 52 11 (ceil 0xbfe0000000000000) = 1.
Proof.
  destruct (double_rounding 0xbfe0000000000000) as [T _]; [vm_compute; split; [discriminate | reflexivity]|].
  destruct T as (_ & (-> & -> & _) & _); [vm_compute; reflexivity|].
  vm_compute. split; reflexivity.
Defined.
