(* ===== verification/ElfLoader.v ===== *)
(** * Loading the guest binary, [client/elf-loader.c]

    The program headers are read into a page of their own, the segments are
    mapped from the file, the part of a segment without file contents is
    cleared, and the program interpreter is loaded like the program. *)

From Stdlib Require Import ZArith Lia String.
From stdpp Require Import base numbers list list_numbers option gmap.
From S2P Require Import Prelude Machine Loopback Minilibc Memory Printf RtldReloc RtldElf.

(** ** Headers *)

Definition e_entry (m : memory) (h : Z) : Z := loadZ m 8 (h + 24).
Definition e_phoff (m : memory) (h : Z) : Z := loadZ m 8 (h + 32).
Definition e_phentsize (m : memory) (h : Z) : Z := loadZ m 2 (h + 54).
Definition e_phnum (m : memory) (h : Z) : Z := loadZ m 2 (h + 56).

Definition SIZEOF_PHDR : Z := 56.
Definition p_type (m : memory) (a : Z) : Z := loadZ m 4 a.
Definition p_flags (m : memory) (a : Z) : Z := loadZ m 4 (a + 4).
Definition p_offset (m : memory) (a : Z) : Z := loadZ m 8 (a + 8).
Definition p_vaddr (m : memory) (a : Z) : Z := loadZ m 8 (a + 16).
Definition p_filesz (m : memory) (a : Z) : Z := loadZ m 8 (a + 32).
Definition p_memsz (m : memory) (a : Z) : Z := loadZ m 8 (a + 40).

Definition ET_EXEC : Z := 2.
Definition ET_DYN : Z := 3.
Definition PT_LOAD : Z := 1.
Definition PT_DYNAMIC : Z := 2.
Definition PT_INTERP : Z := 3.
Definition PF_W : Z := 2.
Definition PF_R : Z := 4.
Definition SEEK_SET : Z := 0.
Definition PATH_MAX : Z := 4096.
Definition O_RDONLY : Z := 0.
Definition ELFMAG : list Z := [0x7f; 69; 76; 70].

(** [struct BinaryInfo]. *)
Record BinaryInfo := mkInfo {
  exec_entry : Z; elf_entry : Z; machine : Z; phdr : Z; phnum : Z; phent : Z }.

Section ElfLoader.
Context {W : Type} `{Kernel W}.

Definition message (s : string) : ST (Proc W) Z := puts (Local (bytes_of_string s)).

Definition elf_read (fd off buf nbytes : Z) : ST (Proc W) Z :=
  r ← lseek fd off SEEK_SET;
  if r =? -1 then mret (-1)
  else
    r ← read_full fd buf nbytes;
    if r =? -1 then mret (-1) else mret 0.

(** The address of the headers, 0 on failure. *)
Definition load_elf_phdrs (elf_ex fd : Z) : ST (Proc W) Z :=
  m ← gets mem;
  if negb (e_phentsize m elf_ex =? SIZEOF_PHDR) then mret 0
  else if (e_phnum m elf_ex <? 1) || (65536 / SIZEOF_PHDR <? e_phnum m elf_ex) then mret 0
  else
    let size := SIZEOF_PHDR * e_phnum m elf_ex in
    if 0x1000 <? size then mret 0
    else
      phdata ← mmap 0 0x1000 (Z.lor PROT_READ PROT_WRITE) (Z.lor MAP_PRIVATE MAP_ANONYMOUS) (-1) 0;
      if BAD_ADDR phdata then mret 0
      else
        off ← gets (fun p => e_phoff (mem p) elf_ex);
        r ← elf_read fd off phdata size;
        if r =? -1 then munmap phdata 0x1000;; mret 0 else mret phdata.

(** The loop over the program headers: where the first loadable segment
    starts and where the last one ends. *)
Fixpoint segment_span (n : nat) (m : memory) (ps ppnt : Z) (has_first : bool) (start end_ : Z) : Z * Z :=
  match n with
  | O => (start, end_)
  | S n' =>
      if negb (p_type m ppnt =? PT_LOAD)
      then segment_span n' m ps (ppnt + SIZEOF_PHDR) has_first start end_
      else
        segment_span n' m ps (ppnt + SIZEOF_PHDR) true
          (if has_first then start else ALIGN_DOWN (p_vaddr m ppnt) ps)
          (u64 (p_vaddr m ppnt + p_memsz m ppnt))
  end.

Definition elf_determine_load_bias (num_ph elf_phdata : Z) : ST (Proc W) Z :=
  m ← gets mem;
  ps ← getpagesize;
  let '(start, end_) := segment_span (Z.to_nat num_ph) m ps elf_phdata false 0 0 in
  if end_ <=? start then mret (u64 (- ENOEXEC))
  else
    let total_size := end_ - start in
    load_bias_ptr ← mmap 0 total_size PROT_NONE
                      (Z.lor (Z.lor MAP_PRIVATE MAP_NORESERVE) MAP_ANONYMOUS) (-1) 0;
    if BAD_ADDR load_bias_ptr then mret load_bias_ptr
    else munmap load_bias_ptr total_size;; mret (u64 (load_bias_ptr - start)).

(** The zeroing of [dataend .. zeropage) and of whole pages after it. *)
Definition elf_map_zero (prot pagesz dataend allocend : Z) : ST (Proc W) Z :=
  let up := ALIGN_UP dataend pagesz in
  let zeropage := if allocend <? up then allocend else up in
  retval ←
    (if dataend <? zeropage then
       retval ←
         (if Z.land prot PROT_WRITE =? 0 then
            message "zero (page end)";;
            mprotect (ALIGN_DOWN dataend pagesz) pagesz (Z.lor prot PROT_WRITE)
          else mret 0);
       if retval <? 0 then mret retval
       else
         memset dataend 0 (zeropage - dataend);;
         (if Z.land prot PROT_WRITE =? 0
          then mprotect (ALIGN_DOWN dataend pagesz) pagesz prot;; mret tt
          else mret tt);;
         mret 0
     else mret 0);
  if retval <? 0 then mret retval
  else if zeropage <? allocend then
    mapret ← mmap zeropage (allocend - zeropage) prot
               (Z.lor (Z.lor MAP_PRIVATE MAP_FIXED) MAP_ANONYMOUS) (-1) 0;
    if BAD_ADDR mapret then message "map (zero)";; mret (s32 mapret) else mret 0
  else mret 0.

Definition prot_of (flags : Z) : Z :=
  Z.lor (if Z.land flags PF_R =? 0 then 0 else PROT_READ)
    (if Z.land flags PF_W =? 0 then 0 else PROT_WRITE).

Definition elf_map (addr elf_ppnt fd : Z) : ST (Proc W) Z :=
  m ← gets mem;
  let prot := prot_of (p_flags m elf_ppnt) in
  pagesz ← getpagesize;
  let mapstart := ALIGN_DOWN addr pagesz in
  let mapend := ALIGN_UP (u64 (addr + p_filesz m elf_ppnt)) pagesz in
  let dataend := u64 (addr + p_filesz m elf_ppnt) in
  let allocend := u64 (addr + p_memsz m elf_ppnt) in
  let allocend := if Z.land prot PROT_WRITE =? 0 then allocend else ALIGN_UP allocend pagesz in
  let mapoff := ALIGN_DOWN (p_offset m elf_ppnt) pagesz in
  if negb (Z.land (p_vaddr m elf_ppnt) (pagesz - 1) =? Z.land (p_offset m elf_ppnt) (pagesz - 1)) then
    printf (line "mapoff (%lx %lx pgsz=%lx)")
      [VInt (p_vaddr m elf_ppnt); VInt (p_offset m elf_ppnt); VInt pagesz];;
    mret (- ENOEXEC)
  else
    retval ←
      (if mapstart <? mapend then
         mapret ← mmap mapstart (mapend - mapstart) prot (Z.lor MAP_PRIVATE MAP_FIXED) fd mapoff;
         if BAD_ADDR mapret then message "map (file)";; mret (Some (s32 mapret)) else mret None
       else mret None);
    match retval with
    | Some retval => mret retval
    | None =>
        if dataend <? allocend then elf_map_zero prot pagesz dataend allocend else mret 0
    end.

(** The segments of the interpreter. *)
Fixpoint interp_loop (n : nat) (load_bias ppnt fd : Z) : ST (Proc W) Z :=
  match n with
  | O => mret load_bias
  | S n' =>
      m ← gets mem;
      if negb (p_type m ppnt =? PT_LOAD) then interp_loop n' load_bias (ppnt + SIZEOF_PHDR) fd
      else
        retval ← elf_map (u64 (load_bias + p_vaddr m ppnt)) ppnt fd;
        if retval <? 0 then mret (u64 retval)
        else interp_loop n' load_bias (ppnt + SIZEOF_PHDR) fd
  end.

Definition load_elf_interp (interp_ehdr interp_phdata interp_fd : Z) : ST (Proc W) Z :=
  m ← gets mem;
  load_bias ← (if e_type m interp_ehdr =? ET_DYN
               then elf_determine_load_bias (e_phnum m interp_ehdr) interp_phdata
               else mret 0);
  if (e_type m interp_ehdr =? ET_DYN) && BAD_ADDR load_bias then mret load_bias
  else interp_loop (Z.to_nat (e_phnum m interp_ehdr)) load_bias interp_phdata interp_fd.

(** The two ends of [load_elf_binary]: [out_close] and [out_free_ph]. *)
Definition out_close (fd interp_fd retval : Z) : ST (Proc W) Z :=
  close fd;;
  (if 0 <=? interp_fd then close interp_fd;; mret tt else mret tt);;
  mret retval.
Definition out_free_ph (elf_phdata interp_phdata fd interp_fd retval : Z) : ST (Proc W) Z :=
  munmap elf_phdata 0x1000;;
  (if negb (interp_phdata =? 0) then munmap interp_phdata 0x1000;; mret tt else mret tt);;
  out_close fd interp_fd retval.

(** The interpreter named by a [PT_INTERP] header: whether loading goes on,
    the return code if not, the descriptor and the headers. *)
Definition open_interp (elfhdr_ex interp_ehdr elf_ppnt fd retval : Z)
    : ST (Proc W) (bool * Z * Z * Z) :=
  m ← gets mem;
  if (PATH_MAX <? p_filesz m elf_ppnt) || (p_filesz m elf_ppnt <? 2) then mret (false, retval, -1, 0)
  else
    with_local PATH_MAX (fun interp_name =>
      retval ← elf_read fd (p_offset m elf_ppnt) interp_name (p_filesz m elf_ppnt);
      if retval <? 0 then mret (false, retval, -1, 0)
      else
        m ← gets mem;
        if negb (getb m (interp_name + p_filesz m elf_ppnt) =? 0) then mret (false, - ENOEXEC, -1, 0)
        else
          interp_fd ← open interp_name (Z.lor O_RDONLY O_CLOEXEC) 0;
          if interp_fd <? 0 then mret (false, interp_fd, interp_fd, 0)
          else
            retval ← elf_read interp_fd 0 interp_ehdr SIZEOF_EHDR;
            if retval <? 0 then mret (false, retval, interp_fd, 0)
            else
              m ← gets mem;
              let bad : ST (Proc W) _ := mret (false, - ELIBBAD, interp_fd, 0) in
              if negb (memcmp (mptr m interp_ehdr) (lit ELFMAG) 4 =? 0) then bad
              else if negb (getb m (interp_ehdr + 4) =? ELFCLASS64) then bad
              else if negb (e_type m interp_ehdr =? ET_EXEC) && negb (e_type m interp_ehdr =? ET_DYN) then bad
              else if negb (e_machine m interp_ehdr =? e_machine m elfhdr_ex) then bad
              else
                interp_phdata ← load_elf_phdrs interp_ehdr interp_fd;
                if interp_phdata =? 0 then message "Could not load interp phdata";; bad
                else mret (true, - ELIBBAD, interp_fd, interp_phdata)).

(** The search for the first [PT_INTERP] header. *)
Fixpoint find_interp (n : nat) (elfhdr_ex interp_ehdr elf_ppnt fd retval : Z)
    : ST (Proc W) (bool * Z * Z * Z) :=
  match n with
  | O => mret (true, retval, -1, 0)
  | S n' =>
      m ← gets mem;
      if negb (p_type m elf_ppnt =? PT_INTERP)
      then find_interp n' elfhdr_ex interp_ehdr (elf_ppnt + SIZEOF_PHDR) fd retval
      else open_interp elfhdr_ex interp_ehdr elf_ppnt fd retval
  end.

(** The segments of the program: the return code if one fails, and the address
    the start of the file is loaded to. *)
Fixpoint load_loop (n : nat) (load_bias elf_ppnt fd : Z) (load_addr : option Z)
    : ST (Proc W) (option Z * Z) :=
  match n with
  | O => mret (None, default 0 load_addr)
  | S n' =>
      m ← gets mem;
      if negb (p_type m elf_ppnt =? PT_LOAD)
      then load_loop n' load_bias (elf_ppnt + SIZEOF_PHDR) fd load_addr
      else
        let load_addr := match load_addr with
                         | Some a => a
                         | None => u64 (p_vaddr m elf_ppnt - p_offset m elf_ppnt + load_bias)
                         end in
        retval ← elf_map (u64 (load_bias + p_vaddr m elf_ppnt)) elf_ppnt fd;
        if retval <? 0 then mret (Some retval, load_addr)
        else load_loop n' load_bias (elf_ppnt + SIZEOF_PHDR) fd (Some load_addr)
  end.

(** From the load bias of the program on. *)
Definition load_program (elfhdr_ex interp_ehdr elf_phdata interp_phdata fd interp_fd : Z)
    : ST (Proc W) (Z * option BinaryInfo) :=
  let fail retval := r ← out_free_ph elf_phdata interp_phdata fd interp_fd retval; mret (r, None) in
  m ← gets mem;
  load_bias ← (if e_type m elfhdr_ex =? ET_DYN
               then elf_determine_load_bias (e_phnum m elfhdr_ex) elf_phdata else mret 0);
  if (e_type m elfhdr_ex =? ET_DYN) && BAD_ADDR load_bias then fail (s32 load_bias)
  else
    '(failed, load_addr) ← load_loop (Z.to_nat (e_phnum m elfhdr_ex)) load_bias elf_phdata fd None;
    match failed with
    | Some retval => fail retval
    | None =>
        m ← gets mem;
        let elf_entry := u64 (load_bias + e_entry m elfhdr_ex) in
        entry ← (if 0 <=? interp_fd then
                   interp_load_bias ← load_elf_interp interp_ehdr interp_phdata interp_fd;
                   m ← gets mem;
                   mret (if BAD_ADDR interp_load_bias then inl (s32 interp_load_bias)
                         else inr (u64 (interp_load_bias + e_entry m interp_ehdr)))
                 else mret (inr elf_entry));
        match entry with
        | inl retval => fail retval
        | inr entry =>
            m ← gets mem;
            let info := mkInfo entry elf_entry (e_machine m elfhdr_ex)
                          (u64 (load_addr + e_phoff m elfhdr_ex)) (e_phnum m elfhdr_ex)
                          (e_phentsize m elfhdr_ex) in
            r ← out_free_ph elf_phdata interp_phdata fd interp_fd 0;
            mret (r, Some info)
        end
    end.

(** From the opened file on. *)
Definition load_opened (fd : Z) : ST (Proc W) (Z * option BinaryInfo) :=
  with_local SIZEOF_EHDR (fun elfhdr_ex =>
  with_local SIZEOF_EHDR (fun interp_ehdr =>
    let out_close retval := r ← out_close fd (-1) retval; mret (r, None) in
    retval ← read_full fd elfhdr_ex SIZEOF_EHDR;
    if s32 retval <? 0 then out_close (s32 retval)
    else
      m ← gets mem;
      if negb (memcmp (mptr m elfhdr_ex) (lit ELFMAG) 4 =? 0) then out_close (- ENOEXEC)
      else if negb (getb m (elfhdr_ex + 4) =? ELFCLASS64) then out_close (- ENOEXEC)
      else if negb (e_type m elfhdr_ex =? ET_EXEC) && negb (e_type m elfhdr_ex =? ET_DYN)
      then out_close (- ENOEXEC)
      else
        elf_phdata ← load_elf_phdrs elfhdr_ex fd;
        if elf_phdata =? 0 then message "Could not load phdata";; out_close (- ENOEXEC)
        else
          m ← gets mem;
          '(go, retval, interp_fd, interp_phdata) ←
            find_interp (Z.to_nat (e_phnum m elfhdr_ex)) elfhdr_ex interp_ehdr elf_phdata fd (- ENOEXEC);
          if negb (go : bool) then
            r ← out_free_ph elf_phdata interp_phdata fd interp_fd retval; mret (r, None)
          else load_program elfhdr_ex interp_ehdr elf_phdata interp_phdata fd interp_fd)).

(** The return code, and what is stored to [*out_info] if anything. *)
Definition load_elf_binary (filename : Z) : ST (Proc W) (Z * option BinaryInfo) :=
  fd ← open filename O_RDONLY 0;
  if fd <? 0 then mret (fd, None) else load_opened fd.

End ElfLoader.
