(* ===== verification/ElfLoaderProofs.v ===== *)
(** * The guest binary ends up in memory

    What [elf_map] leaves in memory, where [elf_determine_load_bias] puts a
    position-independent program, and that [load_elf_binary] closes every
    descriptor it opens.  The kernel's side of file mappings and of descriptors
    is stated as classes, with instances that show they can be met. *)

From Stdlib Require Import ZArith Lia String.
From stdpp Require Import base numbers list list_numbers option gmap.
From S2P Require Import Prelude Machine Loopback Minilibc Memory Printf RtldReloc RtldElf ElfLoader.

(** ** What is assumed of file mappings *)

(** Documented behaviour of [mmap(2)] with [MAP_FIXED]: on success the pages that
    contain the range hold the contents of the file from the offset on (zero
    beyond its end), or zeros for an anonymous mapping; other memory and, on
    failure, all memory is left alone.  [write(2)] does not change memory. *)
Class FileKernel (W : Type) `{Kernel W} (ps : Z) := {
  file : W -> Z -> Z -> Z;
  file_map : forall addr len prot fd off m w r st,
    kernel NR_mmap [addr; len; prot; u64 (Z.lor MAP_PRIVATE MAP_FIXED); fd; off] (m, w) = (r, st) ->
    addr `mod` ps = 0 -> off `mod` ps = 0 -> len `mod` ps = 0 -> 0 < len ->
    BAD_ADDR r = false ->
    forall x, getb st.1 x = if decide (addr <= x < addr + len) then file w fd (off + (x - addr)) else getb m x;
  zero_map : forall addr len prot m w r st,
    kernel NR_mmap [addr; len; prot; u64 (Z.lor (Z.lor MAP_PRIVATE MAP_FIXED) MAP_ANONYMOUS); u64 (-1); 0]
      (m, w) = (r, st) ->
    addr `mod` ps = 0 -> 0 < len -> BAD_ADDR r = false ->
    forall x, getb st.1 x =
      if decide (addr <= x < addr + len + (- len) `mod` ps) then 0 else getb m x;
  write_mem : forall args m w r st, kernel NR_write args (m, w) = (r, st) -> st.1 = m;
}.

Section Image.
Context {W : Type} `{Kernel W} (ps : Z) `{!KernelAbi W ps} `{!FileKernel W ps}.

(** *** Messages only touch the scratch area of the stack. *)

Definition SCRATCH : Z := 32.
Definition same_but_scratch (p p' : Proc W) : Prop :=
  sp p' = sp p /\ pagesize p' = pagesize p /\
  forall x, x < sp p \/ sp p + SCRATCH <= x -> getb (mem p') x = getb (mem p) x.

Lemma scratch_refl p : same_but_scratch p p.
Proof. done. Qed.

Lemma scratch_trans p1 p2 p3 :
  same_but_scratch p1 p2 -> same_but_scratch p2 p3 -> same_but_scratch p1 p3.
Proof.
  intros (H1 & H2 & H3) (H4 & H5 & H6). split; [congruence|]. split; [congruence|].
  intros x Hx. rewrite H6 by (rewrite H1; done). by apply H3.
Qed.

Lemma syscall_write_frame args (p : Proc W) : 
  let p' := (syscall NR_write args p).2 in
  mem p' = mem p /\ sp p' = sp p /\ pagesize p' = pagesize p.
Proof.
  unfold syscall. destruct (kernel NR_write args (mem p, kst p)) as [r [m w]] eqn:E.
  apply write_mem in E. done.
Qed.

Lemma write_local_scratch fd bs n (p : Proc W) :
  Z.of_nat (length bs) <= SCRATCH -> same_but_scratch p (write_src fd (Local bs) n p).2.
Proof.
  intros Hlen. unfold write_src, with_local, write, mbind, ST_bind, gets, modify. cbv beta iota.
  match goal with |- context [syscall NR_write ?args ?q] =>
    pose proof (syscall_write_frame args q) as Hw; destruct (syscall NR_write args q) as [r q'] end.
  cbn in Hw. destruct Hw as (Hm & Hs & Hp). split; [done|]. split; [done|].
  intros x Hx. cbn. rewrite Hm. apply getb_store_out. lia.
Qed.

Lemma message_scratch s (p : Proc W) :
  Z.of_nat (length (bytes_of_string s)) <= SCRATCH -> same_but_scratch p (message s p).2.
Proof.
  intros Hlen. unfold message, puts. unfold mbind at 1, ST_bind at 1, gets at 1. cbv beta iota.
  unfold mbind at 1, ST_bind at 1.
  match goal with |- context [write_src 1 (Local ?bs) ?n p] =>
    pose proof (write_local_scratch 1 bs n p Hlen) as H1; destruct (write_src 1 (Local bs) n p) as [r1 p1] end.
  unfold mbind at 1, ST_bind at 1.
  pose proof (write_local_scratch 1 [10] 1 p1 ltac:(unfold SCRATCH; cbn; lia)) as H2.
  destruct (write_src 1 (Local [10]) 1 p1) as [r2 p2]. cbn in *. by apply (scratch_trans p p1).
Qed.

(** *** Single steps *)

Lemma mprotect_frame a l pr (p p' : Proc W) r :
  mprotect a l pr p = (r, p') -> mem p' = mem p /\ sp p' = sp p /\ pagesize p' = pagesize p.
Proof.
  unfold mprotect, mbind, ST_bind, syscall.
  destruct (kernel NR_mprotect _ (mem p, kst p)) as [r' [m w]] eqn:E.
  pose proof (abi_mprotect_mem (ps := ps) _ _ _ _ E) as Hm. cbn in Hm. intros [= _ <-]. cbn. done.
Qed.

Lemma u64_bad r : BAD_ADDR (u64 r) = BAD_ADDR r.
Proof. unfold BAD_ADDR. by rewrite wrap_wrap. Qed.

Lemma mmap_file_step a l pr fd off (p p' : Proc W) r :
  mmap a l pr (Z.lor MAP_PRIVATE MAP_FIXED) fd off p = (r, p') -> BAD_ADDR r = false ->
  a `mod` ps = 0 -> u64 off `mod` ps = 0 -> l `mod` ps = 0 -> 0 < l ->
  sp p' = sp p /\ pagesize p' = pagesize p /\
  forall x, getb (mem p') x =
    if decide (a <= x < a + l) then file (kst p) (u64 fd) (u64 off + (x - a)) else getb (mem p) x.
Proof.
  unfold mmap, syscall.
  destruct (kernel NR_mmap _ (mem p, kst p)) as [r' [m w]] eqn:E. intros [= <- <-] Hb Ha Ho Hl Hl0.
  rewrite u64_bad in Hb. split; [done|]. split; [done|].
  apply (file_map (ps := ps) _ _ _ _ _ _ _ _ _ E Ha Ho Hl Hl0 Hb).
Qed.

Lemma mmap_zero_step a l pr (p p' : Proc W) r :
  mmap a l pr (Z.lor (Z.lor MAP_PRIVATE MAP_FIXED) MAP_ANONYMOUS) (-1) 0 p = (r, p') ->
  BAD_ADDR r = false -> a `mod` ps = 0 -> 0 < l ->
  sp p' = sp p /\ pagesize p' = pagesize p /\
  forall x, getb (mem p') x =
    if decide (a <= x < a + l + (- l) `mod` ps) then 0 else getb (mem p) x.
Proof.
  unfold mmap, syscall. change (u64 0) with 0.
  destruct (kernel NR_mmap _ (mem p, kst p)) as [r' [m w]] eqn:E. intros [= <- <-] Hb Ha Hl0.
  rewrite u64_bad in Hb. split; [done|]. split; [done|].
  apply (zero_map (ps := ps) _ _ _ _ _ _ _ E Ha Hl0 Hb).
Qed.

(** *** Page arithmetic *)

Lemma ps_pow2 : is_pow2 ps /\ 4096 <= ps <= 65536.
Proof. apply abi_pagesize. Qed.

Lemma up_eq v : 0 <= v -> v + ps <= 2 ^ 64 -> ALIGN_UP v ps = v + (- v) `mod` ps.
Proof.
  intros Hv Hlt. destruct ps_pow2 as [Hp Hr]. destruct (ALIGN_UP_spec v ps Hp Hv Hlt) as [H1 H2].
  pose proof (Z.mod_pos_bound (- v) ps). pose proof (Z.div_mod (ALIGN_UP v ps) ps) as E1.
  pose proof (Z.div_mod (- v) ps) as E2. rewrite H2 in E1.
  assert (ALIGN_UP v ps / ps = - ((- v) / ps)) by nia. nia.
Qed.

Lemma up_props v :
  0 <= v -> v + ps <= 2 ^ 64 -> v <= ALIGN_UP v ps < v + ps /\ ALIGN_UP v ps `mod` ps = 0.
Proof. intros. by apply ALIGN_UP_spec; [apply ps_pow2| |]. Qed.

Lemma down_props v : in_u 64 v -> v - ps < ALIGN_DOWN v ps <= v /\ ALIGN_DOWN v ps `mod` ps = 0 /\
  ALIGN_DOWN v ps = v - v `mod` ps.
Proof.
  intros Hv. destruct ps_pow2 as [Hp Hr]. rewrite ALIGN_DOWN_spec by done.
  pose proof (Z.mod_pos_bound v ps). pose proof (Z.div_mod v ps) as E. split; [lia|]. split; [|done].
  replace (v - v `mod` ps) with (v / ps * ps) by lia. apply Z_mod_mult.
Qed.

Lemma round_len up a : up `mod` ps = 0 -> (- (a - up)) `mod` ps = (- a) `mod` ps.
Proof.
  intros Hu. destruct ps_pow2 as [_ Hr]. pose proof (Z.div_mod up ps) as E. rewrite Hu in E.
  replace (- (a - up)) with (- a + (up / ps) * ps) by lia. apply Z.mod_add. lia.
Qed.

(** *** Clearing the end of a segment *)

(** The scratch area is not in the pages of the segment. *)
Definition stack_apart (p : Proc W) (lo hi : Z) : Prop := sp p + SCRATCH <= lo \/ hi <= sp p.

Lemma zero_part prot dataend zeropage (p p' : Proc W) r :
  dataend < zeropage ->
  (retval ←
     (if Z.land prot PROT_WRITE =? 0 then
        message "zero (page end)";;
        mprotect (ALIGN_DOWN dataend ps) ps (Z.lor prot PROT_WRITE)
      else mret 0);
   if retval <? 0 then mret retval
   else
     memset dataend 0 (zeropage - dataend);;
     (if Z.land prot PROT_WRITE =? 0
      then mprotect (ALIGN_DOWN dataend ps) ps prot;; mret tt
      else mret tt);;
     mret 0) p = (r, p') -> (r <? 0) = false ->
  sp p' = sp p /\ pagesize p' = pagesize p /\
  forall x, x < sp p \/ sp p + SCRATCH <= x ->
    getb (mem p') x = if decide (dataend <= x < zeropage) then 0 else getb (mem p) x.
Proof.
  intros Hlt Hrun Hr. unfold mbind at 1, ST_bind at 1 in Hrun.
  match type of Hrun with (let '(_, _) := ?c p in _) = _ =>
    assert (same_but_scratch p (c p).2) as Hs; [|destruct (c p) as [r1 p1]] end.
  { destruct (_ =? 0); [|apply scratch_refl]. unfold mbind, ST_bind.
    pose proof (message_scratch "zero (page end)" p ltac:(vm_compute; discriminate)) as Hm.
    destruct (message _ p) as [r1 p1]. destruct (mprotect _ _ _ p1) as [r2 p2] eqn:E.
    apply mprotect_frame in E as (E1 & E2 & E3). cbn in *. destruct Hm as (M1 & M2 & M3).
    split; [congruence|]. split; [congruence|]. intros x Hx. rewrite E1. by apply M3. }
  cbn [snd] in Hs. destruct (r1 <? 0) eqn:Er1; [injection Hrun as <- <-; congruence|].
  unfold memset in Hrun. unfold mbind, ST_bind, modify, mret, ST_ret in Hrun. cbv beta iota in Hrun.
  set (p2 := set_mem _ p1) in Hrun.
  assert (sp p' = sp p2 /\ pagesize p' = pagesize p2 /\ mem p' = mem p2) as (F1 & F2 & F3).
  { destruct (_ =? 0); [|by injection Hrun as _ <-].
    destruct (mprotect _ _ _ p2) as [r2 p3] eqn:E. apply mprotect_frame in E as (E1 & E2 & E3).
    injection Hrun as _ <-. done. }
  destruct Hs as (S1 & S2 & S3). rewrite F1, F2. split; [done|]. split; [done|].
  intros x Hx. rewrite F3. unfold p2. cbn [mem set_mem]. rewrite memset_loop_block, getb_store_bytes.
  rewrite length_replicate. rewrite <- S3 by done.
  destruct (decide (dataend <= x < zeropage)); [|rewrite decide_False by lia; done].
  rewrite decide_True by lia. rewrite lookup_replicate_2 by lia. done.
Qed.

Lemma elf_map_zero_spec prot dataend allocend (p p' : Proc W) :
  0 <= dataend < allocend -> allocend + ps <= 2 ^ 64 ->
  stack_apart p dataend (ALIGN_UP allocend ps) ->
  elf_map_zero prot ps dataend allocend p = (0, p') ->
  sp p' = sp p /\ pagesize p' = pagesize p /\
  (forall x, dataend <= x < allocend -> getb (mem p') x = 0) /\
  (forall x, x < dataend \/ ALIGN_UP allocend ps <= x -> x < sp p \/ sp p + SCRATCH <= x ->
     getb (mem p') x = getb (mem p) x).
Proof.
  intros Hda Hmax Hst Hrun. destruct ps_pow2 as [_ Hps].
  destruct (up_props dataend) as [U1 U2]; [lia..|]. destruct (up_props allocend) as [A1 A2]; [lia..|].
  pose proof (up_eq allocend ltac:(lia) Hmax) as Aeq.
  unfold elf_map_zero in Hrun. cbv zeta in Hrun. set (up := ALIGN_UP dataend ps) in *.
  set (zp := if allocend <? up then allocend else up) in *.
  assert (dataend <= zp <= allocend /\ (zp < allocend -> zp = up)) as [Hz1 Hz2]
    by (unfold zp; destruct (Z.ltb_spec allocend up); lia).
  unfold mbind at 1, ST_bind at 1 in Hrun.
  match type of Hrun with (let '(_, _) := ?c p in _) = _ => destruct (c p) as [r1 p1] eqn:E1 end.
  destruct (r1 <? 0) eqn:Er1; [injection Hrun as -> _; done|].
  assert (sp p1 = sp p /\ pagesize p1 = pagesize p /\
    forall x, x < sp p \/ sp p + SCRATCH <= x ->
      getb (mem p1) x = if decide (dataend <= x < zp) then 0 else getb (mem p) x) as (S1 & S2 & S3).
  { destruct (Z.ltb_spec dataend zp) as [Hlt|Hge].
    - by apply (zero_part prot dataend zp p p1 r1).
    - injection E1 as _ <-. split; [done|]. split; [done|]. intros x _. by rewrite decide_False by lia. }
  clear E1. destruct (Z.ltb_spec zp allocend) as [Hlt|Hge].
  - specialize (Hz2 Hlt). unfold mbind at 1, ST_bind at 1 in Hrun.
    destruct (mmap _ _ _ _ _ _ p1) as [r2 p2] eqn:E2.
    destruct (BAD_ADDR r2) eqn:Hbad.
    { exfalso. unfold mbind, ST_bind in Hrun. destruct (message _ p2). injection Hrun as Hr2 _.
      revert Hr2 Hbad. unfold BAD_ADDR. clear. intros Hr2 Hbad. apply Z.ltb_lt in Hbad.
      unfold swrap, wrap in *. change (2 ^ (32 - 1)) with (2 ^ 31) in *. zdm. }
    injection Hrun as <-. apply mmap_zero_step in E2 as (M1 & M2 & M3); [|done|by rewrite Hz2|lia].
    rewrite Hz2, round_len in M3 by done.
    split; [congruence|]. split; [congruence|]. split.
    + intros x Hx. rewrite M3. destruct (decide _); [done|].
      rewrite S3 by (destruct Hst; lia). rewrite decide_True by lia. done.
    + intros x Hx Hxs. rewrite M3, decide_False by lia. rewrite S3 by done.
      rewrite decide_False by lia. done.
  - injection Hrun as <-. split; [done|]. split; [done|]. split.
    + intros x Hx. rewrite S3 by (destruct Hst; lia). rewrite decide_True by lia. done.
    + intros x Hx Hxs. rewrite S3 by done. rewrite decide_False by lia. done.
Qed.

Lemma land_page x : 0 <= x -> Z.land x (ps - 1) = x `mod` ps.
Proof.
  intros Hx. destruct ps_pow2 as [(k & Hk & ->) _]. replace (2 ^ k - 1) with (Z.ones k) by (rewrite Z.ones_equiv; lia).
  apply Z.land_ones. lia.
Qed.

Lemma up_idem v : 0 <= v -> v + 2 * ps <= 2 ^ 64 -> ALIGN_UP (ALIGN_UP v ps) ps = ALIGN_UP v ps.
Proof.
  intros Hv Hm. destruct ps_pow2 as [_ Hps]. destruct (up_props v) as [H1 H2]; [lia..|].
  rewrite (up_eq (ALIGN_UP v ps)) by lia. rewrite Z.mod_opp_l_z by lia. lia.
Qed.

(** The mapping of the file part. *)
Lemma file_part prot addr filesz offset fd (p p' : Proc W) :
  0 <= addr -> 0 <= filesz -> addr + filesz + ps <= 2 ^ 64 -> in_u 64 offset -> 0 <= fd < 2 ^ 31 ->
  addr `mod` ps = offset `mod` ps ->
  let mapstart := ALIGN_DOWN addr ps in
  let mapend := ALIGN_UP (addr + filesz) ps in
  (if mapstart <? mapend then
     mapret ← mmap mapstart (mapend - mapstart) prot (Z.lor MAP_PRIVATE MAP_FIXED) fd
                (ALIGN_DOWN offset ps);
     if BAD_ADDR mapret then message "map (file)";; mret (Some (s32 mapret)) else mret None
   else mret None) p = (None, p') ->
  sp p' = sp p /\ pagesize p' = pagesize p /\
  forall x, getb (mem p') x =
    if decide (mapstart <= x < mapend) then file (kst p) fd (offset + (x - addr)) else getb (mem p) x.
Proof.
  intros Ha Hf Hm Ho Hfd Hmod mapstart mapend Hrun. destruct ps_pow2 as [_ Hps].
  assert (in_u 64 addr) as Hau by (unfold in_u; lia).
  destruct (down_props addr Hau) as (D1 & D2 & D3). destruct (down_props offset Ho) as (O1 & O2 & O3).
  destruct (up_props (addr + filesz)) as [U1 U2]; [lia..|].
  fold mapstart in D1, D2, D3. fold mapend in U1, U2.
  destruct (Z.ltb_spec mapstart mapend) as [Hlt|Hge].
  - unfold mbind at 1, ST_bind at 1 in Hrun. destruct (mmap _ _ _ _ _ _ p) as [r1 p1] eqn:E.
    destruct (BAD_ADDR r1) eqn:Hbad.
    { unfold mbind, ST_bind in Hrun. destruct (message _ p1). done. }
    injection Hrun as <-.
    assert (u64 (ALIGN_DOWN offset ps) = ALIGN_DOWN offset ps) as Hu.
    { apply u64_small. pose proof (Z.mod_le offset ps). unfold in_u in Ho. lia. }
    apply mmap_file_step in E as (M1 & M2 & M3); [|done..| | |lia].
    + split; [done|]. split; [done|]. intros x. rewrite M3, Hu, (u64_small fd) by lia.
      replace (mapstart + (mapend - mapstart)) with mapend by lia.
      destruct (decide _); [|done]. f_equal. lia.
    + by rewrite Hu.
    + rewrite Zminus_mod, U2, D2. by rewrite Z.sub_0_r, Z.mod_0_l by lia.
  - injection Hrun as <-. split; [done|]. split; [done|]. intros x. rewrite decide_False by lia. done.
Qed.

(** C29. A segment that [elf_map] reports as mapped is in memory as its program
    header says: the file's bytes, then zeros up to the memory size; memory
    outside the segment's pages (and outside the stack space used by
    messages) is unchanged. *)
Theorem elf_map_image addr ppnt fd (p p' : Proc W) :
  let filesz := p_filesz (mem p) ppnt in
  let memsz := p_memsz (mem p) ppnt in
  let offset := p_offset (mem p) ppnt in
  pagesize p = ps -> mem_ok (mem p) -> 0 <= addr -> 0 <= fd < 2 ^ 31 ->
  addr `mod` ps = p_vaddr (mem p) ppnt `mod` ps ->
  filesz <= memsz -> addr + memsz + 2 * ps <= 2 ^ 64 ->
  stack_apart p (ALIGN_DOWN addr ps) (ALIGN_UP (addr + memsz) ps) ->
  elf_map addr ppnt fd p = (0, p') ->
  (forall x, addr <= x < addr + filesz -> getb (mem p') x = file (kst p) fd (offset + (x - addr))) /\
  (forall x, addr + filesz <= x < addr + memsz -> getb (mem p') x = 0) /\
  (forall x, x < ALIGN_DOWN addr ps \/ ALIGN_UP (addr + memsz) ps <= x ->
     x < sp p \/ sp p + SCRATCH <= x -> getb (mem p') x = getb (mem p) x).
Proof.
  intros filesz memsz offset Hpg Hmem Ha Hfd Hmod Hfm Hmax Hst Hrun. destruct ps_pow2 as [_ Hps].
  assert (0 <= filesz) as Hf0 by (unfold filesz, p_filesz; apply (loadZ_range _ 8); done).
  assert (in_u 64 offset) as Ho by (unfold offset, p_offset; apply (loadZ_range _ 8); done).
  assert (in_u 64 (p_vaddr (mem p) ppnt)) as Hv by (unfold p_vaddr; apply (loadZ_range _ 8); done).
  unfold elf_map in Hrun. unfold mbind at 1, ST_bind at 1, gets at 1 in Hrun. cbv zeta beta in Hrun.
  unfold getpagesize in Hrun. unfold mbind at 1, ST_bind at 1, gets at 1 in Hrun. cbv beta iota in Hrun.
  rewrite Hpg in Hrun. fold filesz memsz offset in Hrun.
  rewrite !(u64_small (addr + filesz)), !(u64_small (addr + memsz)) in Hrun by lia.
  rewrite !land_page in Hrun by (unfold in_u in *; lia).
  set (prot := prot_of _) in Hrun. destruct (negb _) eqn:Hcong.
  { unfold mbind, ST_bind in Hrun. destruct (printf _ _ p). done. }
  apply negb_false_iff, Z.eqb_eq in Hcong.
  unfold mbind at 1, ST_bind at 1 in Hrun.
  match type of Hrun with (let '(_, _) := ?c p in _) = _ => destruct (c p) as [[r1|] p1] eqn:E1 end.
  { exfalso. destruct (_ <? _); [|done]. unfold mbind at 1, ST_bind at 1 in E1.
    destruct (mmap _ _ _ _ _ _ p) as [r2 p2]. destruct (BAD_ADDR r2) eqn:Hbad; [|done].
    unfold mbind, ST_bind in E1. destruct (message _ p2). injection E1 as <- _. injection Hrun as Hr2 _.
    revert Hr2 Hbad. unfold BAD_ADDR. clear. intros Hr2 Hbad. apply Z.ltb_lt in Hbad.
    unfold swrap, wrap in *. change (2 ^ (32 - 1)) with (2 ^ 31) in *. zdm. }
  apply file_part in E1 as (F1 & F2 & F3); [|lia..|done|lia|lia].
  assert (in_u 64 addr) as Hau by (unfold in_u; lia).
  destruct (down_props addr Hau) as (D1 & _). destruct (up_props (addr + filesz)) as [U1 _]; [lia..|].
  destruct (up_props (addr + memsz)) as [A1 _]; [lia..|].
  assert (ALIGN_UP (addr + filesz) ps <= ALIGN_UP (addr + memsz) ps) as Hle.
  { rewrite !up_eq by lia. pose proof (Z.div_mod (- (addr + filesz)) ps). pose proof (Z.div_mod (- (addr + memsz)) ps).
    pose proof (Z.div_le_mono (- (addr + memsz)) (- (addr + filesz)) ps). nia. }
  set (allocend := if _ =? 0 then _ else _) in Hrun.
  assert (addr + memsz <= allocend /\ ALIGN_UP allocend ps = ALIGN_UP (addr + memsz) ps /\
          allocend <= ALIGN_UP (addr + memsz) ps) as (B1 & B2 & B3).
  { unfold allocend. destruct (_ =? 0); [lia|]. rewrite up_idem by lia. lia. }
  clearbody allocend. destruct (Z.ltb_spec (addr + filesz) allocend) as [Hlt|Hge].
  - apply elf_map_zero_spec in Hrun as (Z1 & Z2 & Z3 & Z4); [|lia|lia|].
    + split; [|split].
      * intros x Hx. assert (x < sp p1 \/ sp p1 + SCRATCH <= x) by (rewrite F1; destruct Hst; lia).
        rewrite Z4 by lia. rewrite F3, decide_True by lia. done.
      * intros x Hx. apply Z3. lia.
      * intros x Hx Hxs. rewrite Z4 by lia. rewrite F3, decide_False by lia. done.
    + unfold stack_apart in *. rewrite F1, B2. lia.
  - injection Hrun as <-. split; [|split].
    + intros x Hx. rewrite F3, decide_True by lia. done.
    + intros x Hx. lia.
    + intros x Hx Hxs. rewrite F3, decide_False by lia. done.
Qed.

End Image.

(** ** A kernel with a file *)

(** One file [dk_image], open any number of times ([dk_fds] holds the position
    of each descriptor); mappings without an address are placed at
    [dk_nextmap]. *)
Record Disk := mkDisk { dk_image : list Z; dk_fds : gmap Z Z; dk_nextfd : Z; dk_nextmap : Z }.

Definition dk_file (w : Disk) (fd off : Z) : Z := default 0 (dk_image w !! Z.to_nat off).

Definition dk_map (addr len flags off : Z) (m : memory) (w : Disk) : Z * (memory * Disk) :=
  let fixed := negb (Z.land flags MAP_FIXED =? 0) in
  let addr' := if (fixed : bool) then addr else dk_nextmap w in
  let n := Z.to_nat (len + (- len) `mod` 4096) in
  let r := lk_mmap addr' len in
  if r =? addr' then
    (r, (store_bytes m r
           (if Z.land flags MAP_ANONYMOUS =? 0
            then (fun i => dk_file w 0 (off + Z.of_nat i)) <$> seq 0 n
            else replicate n 0),
         mkDisk (dk_image w) (dk_fds w) (dk_nextfd w)
           (if fixed then dk_nextmap w else dk_nextmap w + (len + (- len) `mod` 4096))))
  else (- ENOMEM, (m, w)).

Definition dk_read (fd buf n : Z) (m : memory) (w : Disk) : Z * (memory * Disk) :=
  match dk_fds w !! fd with
  | None => (- EBADF, (m, w))
  | Some pos =>
      let bs := take (Z.to_nat n) (drop (Z.to_nat pos) (dk_image w)) in
      (Z.of_nat (length bs),
       (store_bytes m buf bs,
        mkDisk (dk_image w) (<[fd := pos + Z.of_nat (length bs)]> (dk_fds w)) (dk_nextfd w) (dk_nextmap w)))
  end.

Definition dk_seek (fd off : Z) (m : memory) (w : Disk) : Z * (memory * Disk) :=
  match dk_fds w !! fd with
  | None => (- EBADF, (m, w))
  | Some _ => (off, (m, mkDisk (dk_image w) (<[fd := off]> (dk_fds w)) (dk_nextfd w) (dk_nextmap w)))
  end.

#[global] Instance disk : Kernel Disk := fun nr args st =>
  let '(m, w) := st in
  match nr, args with
  | NR_read, [fd; buf; n] => dk_read fd buf n m w
  | NR_lseek, [fd; off; _] => dk_seek fd off m w
  | NR_mmap, [addr; len; _; flags; _; off] => dk_map addr len flags off m w
  | NR_openat, _ =>
      if (0 <=? dk_nextfd w) && (dk_nextfd w <? 1024) && bool_decide (dk_fds w !! dk_nextfd w = None)
      then (dk_nextfd w, (m, mkDisk (dk_image w) (<[dk_nextfd w := 0]> (dk_fds w)) (dk_nextfd w + 1) (dk_nextmap w)))
      else (- EBADF, (m, w))
  | NR_close, [fd] => (0, (m, mkDisk (dk_image w) (delete fd (dk_fds w)) (dk_nextfd w) (dk_nextmap w)))
  | NR_write, [_; _; n] => (n, (m, w))
  | NR_mprotect, _ => (0, (m, w))
  | NR_munmap, _ => (0, (m, w))
  | _, _ => (- ENOSYS, (m, w))
  end.

Lemma lk_mmap_ok a len :
  lk_mmap a len = a -> BAD_ADDR a = false -> a `mod` 4096 = 0 /\ 0 < a /\ 0 <= len /\ a + len <= 2 ^ 57.
Proof.
  unfold lk_mmap. destruct (_ && _ && _ && _) eqn:E.
  - intros _ _. apply andb_prop in E as [E E4]. apply andb_prop in E as [E E3]. apply andb_prop in E as [E1 E2].
    apply Z.eqb_eq in E1. apply Z.ltb_lt in E2. apply Z.leb_le in E3, E4. done.
  - intros <- Hb. vm_compute in Hb. done.
Qed.

Lemma dk_map_ok addr len flags off m w r st :
  dk_map addr len flags off m w = (r, st) -> BAD_ADDR r = false ->
  let a := if negb (Z.land flags MAP_FIXED =? 0) then addr else dk_nextmap w in
  r = a /\ u64 a = a /\ a `mod` 4096 = 0 /\ a + len <= 2 ^ 57 /\
  st.1 = store_bytes m a
    (if Z.land flags MAP_ANONYMOUS =? 0
     then (fun i => dk_file w 0 (off + Z.of_nat i)) <$> seq 0 (Z.to_nat (len + (- len) `mod` 4096))
     else replicate (Z.to_nat (len + (- len) `mod` 4096)) 0).
Proof.
  unfold dk_map. cbv zeta. set (a := if negb _ then _ else _).
  destruct (lk_mmap a len =? a) eqn:E.
  - apply Z.eqb_eq in E. intros Hst Hb. apply pair_equal_spec in Hst as [<- <-]. rewrite E in *.
    destruct (lk_mmap_ok a len E Hb) as (H1 & H2 & H3 & H4).
    split; [done|]. split; [apply u64_small; lia|]. done.
  - intros Hst Hb. apply pair_equal_spec in Hst as [<- _]. vm_compute in Hb. done.
Qed.

#[global] Instance disk_abi : KernelAbi Disk 4096.
Proof.
  split.
  - split; [exists 12; lia | lia].
  - intros args [m w] r st' Hk. simpl in Hk. injection Hk as <- _. by vm_compute.
  - intros args [m w] r st' Hk. simpl in Hk. by injection Hk as _ <-.
  - intros addr len prot flags fd off [m w] r st' Hk Hb.
    destruct (dk_map_ok _ _ _ _ _ _ _ _ Hk Hb) as (-> & Hu & H1 & H2 & _). rewrite Hu. done.
Defined.

#[global] Instance disk_files : FileKernel Disk 4096.
Proof.
  refine {| file := dk_file |}.
  - intros addr len prot fd off m w r st Hk Ha Ho Hl Hl0 Hb x.
    destruct (dk_map_ok _ _ _ _ _ _ _ _ Hk Hb) as (_ & _ & _ & _ & ->).
    change (negb (Z.land (u64 (Z.lor MAP_PRIVATE MAP_FIXED)) MAP_FIXED =? 0)) with true.
    change (Z.land (u64 (Z.lor MAP_PRIVATE MAP_FIXED)) MAP_ANONYMOUS =? 0) with true. cbv iota.
    rewrite Z.mod_opp_l_z, Z.add_0_r by lia.
    rewrite getb_store_bytes, length_fmap, length_seq, Z2Nat.id by lia.
    destruct (decide _) as [Hx|Hx]; [|done].
    rewrite list_lookup_fmap, lookup_seq_lt by lia. cbn. f_equal. lia.
  - intros addr len prot m w r st Hk Ha Hl0 Hb x.
    destruct (dk_map_ok _ _ _ _ _ _ _ _ Hk Hb) as (_ & _ & _ & _ & ->).
    change (negb (Z.land (u64 (Z.lor (Z.lor MAP_PRIVATE MAP_FIXED) MAP_ANONYMOUS)) MAP_FIXED =? 0)) with true.
    change (Z.land (u64 (Z.lor (Z.lor MAP_PRIVATE MAP_FIXED) MAP_ANONYMOUS)) MAP_ANONYMOUS =? 0) with false.
    cbv iota. pose proof (Z.mod_pos_bound (- len) 4096).
    rewrite getb_store_bytes, length_replicate, Z2Nat.id by lia. rewrite Z.add_assoc.
    destruct (decide _) as [Hx|Hx]; [|done].
    rewrite lookup_replicate_2 by lia. done.
  - intros args m w r st Hk. unfold kernel, disk in Hk.
    destruct args as [|? [|? [|? [|]]]]; injection Hk as _ <-; done.
Defined.

(** A header at 0x1000: five bytes of the file at offset 16 go to 0x400010, four
    zero bytes follow. *)
Definition seg_mem : memory :=
  storeZ (storeZ (storeZ (storeZ (storeZ (storeZ ∅ 4 0x1000 1) 4 0x1004 6) 8 0x1008 16) 8 0x1010 0x400010)
    8 0x1020 5) 8 0x1028 9.
Definition seg_proc : Proc Disk :=
  mkProc seg_mem (mkDisk (Z.of_nat <$> seq 1 32) ∅ 3 0x10000000) (mkArena 0 0 0 0) (mkArena 0 0 0 0) 4096 0x8000.

Lemma elf_map_image_witness :
  let p' := (elf_map 0x400010 0x1000 3 seg_proc).2 in
  getb (mem p') 0x400012 = 19 /\ getb (mem p') 0x400015 = 0.
Proof.
  intros p'.
  destruct (elf_map_image 4096 0x400010 0x1000 3 seg_proc p') as (T1 & T2 & _).
  - reflexivity.
  - unfold seg_proc, seg_mem. cbn [mem]. repeat apply mem_ok_storeZ. apply map_Forall_empty.
  - lia.
  - lia.
  - vm_compute. reflexivity.
  - vm_compute. discriminate.
  - vm_compute. discriminate.
  - left. vm_compute. discriminate.
  - apply injective_projections; [vm_compute; reflexivity | reflexivity].
  - split.
    + rewrite T1; [vm_compute; reflexivity|]. vm_compute. split; [discriminate | reflexivity].
    + apply T2. vm_compute. split; [discriminate | reflexivity].
Defined.

(** ** The load bias *)

Section Bias.
Context {W : Type} `{Kernel W} (ps : Z) `{!KernelAbi W ps}.

(** The [i]-th program header, and the loadable ones. *)
Definition ph (base : Z) (i : nat) : Z := base + SIZEOF_PHDR * Z.of_nat i.
Definition loadable (m : memory) (base : Z) (i : nat) : Prop := p_type m (ph base i) = PT_LOAD.
Definition seg_start (m : memory) (base : Z) (i : nat) : Z := p_vaddr m (ph base i).
Definition seg_end (m : memory) (base : Z) (i : nat) : Z := p_vaddr m (ph base i) + p_memsz m (ph base i).

(** Loadable segments are in ascending order (the ELF standard asks for it) and
    end inside the address space. *)
Definition ascending (m : memory) (base : Z) (n : nat) : Prop :=
  (forall i, (i < n)%nat -> loadable m base i -> seg_end m base i < 2 ^ 64) /\
  (forall i j, (i < j < n)%nat -> loadable m base i -> loadable m base j ->
     seg_start m base i <= seg_start m base j /\ seg_end m base i <= seg_end m base j).

Lemma ph_tail base i : ph (base + SIZEOF_PHDR) i = ph base (S i).
Proof. unfold ph. lia. Qed.

Lemma ascending_tail m base n : ascending m base (S n) -> ascending m (base + SIZEOF_PHDR) n.
Proof.
  intros [H1 H2]. split.
  - intros i Hi. unfold loadable, seg_end. rewrite ph_tail. apply (H1 (S i)). lia.
  - intros i j Hij. unfold loadable, seg_start, seg_end. rewrite !ph_tail. apply (H2 (S i) (S j)). lia.
Qed.

Lemma seg_bounds m base i : mem_ok m -> in_u 64 (seg_start m base i) /\ seg_start m base i <= seg_end m base i.
Proof.
  intros Hm. unfold seg_start, seg_end, p_vaddr, p_memsz.
  pose proof (loadZ_range m 8 (ph base i + 16) Hm). pose proof (loadZ_range m 8 (ph base i + 40) Hm) as H2.
  unfold in_u in *. split; [done|]. lia.
Qed.

Lemma segment_span_spec m n base hf start end_ s e :
  mem_ok m -> ascending m base n -> segment_span n m ps base hf start end_ = (s, e) ->
  (hf = true -> s = start) /\
  (e = end_ \/ exists i, (i < n)%nat /\ loadable m base i /\ e = seg_end m base i) /\
  (forall i, (i < n)%nat -> loadable m base i -> seg_end m base i <= e /\
     (hf = false -> s <= seg_start m base i /\ s `mod` ps = 0)).
Proof.
  intros Hm. revert base hf start end_. induction n as [|n IH]; intros base hf start end_ Hasc Hrun.
  - injection Hrun as <- <-. split; [done|]. split; [by left|]. intros i Hi. lia.
  - cbn [segment_span] in Hrun. pose proof (ascending_tail _ _ _ Hasc) as Hasc'. destruct Hasc as [A1 A2].
    assert (base = ph base 0) as Hb0 by (unfold ph; lia).
    destruct (Z.eqb_spec (p_type m base) PT_LOAD) as [Hld|Hld]; cbn [negb] in Hrun;
      apply IH in Hrun as (I1 & I2 & I3); try done.
    + assert (loadable m base 0) as Hl0 by (unfold loadable; rewrite <- Hb0; done).
      specialize (I1 eq_refl). pose proof (A1 0%nat ltac:(lia) Hl0) as B2.
      destruct (seg_bounds m base 0 Hm) as [B1 B3]. unfold in_u in B1.
      assert (u64 (p_vaddr m base + p_memsz m base) = seg_end m base 0) as Hend
        by (unfold seg_end, seg_start in *; rewrite <- Hb0 in *; apply u64_small; lia).
      rewrite Hend in I2.
      assert (e = seg_end m base 0 \/ exists i, (i < n)%nat /\ loadable m base (S i) /\ e = seg_end m base (S i)) as He.
      { destruct I2 as [->|(i & Hi & Hli & ->)]; [by left|right]. exists i.
        unfold loadable, seg_end in *. rewrite ph_tail in *. done. }
      assert (seg_end m base 0 <= e) as Hle0.
      { destruct He as [->|(i & Hi & Hli & ->)]; [lia|]. by apply (A2 0%nat (S i)); [lia|..]. }
      split; [intros ->; done|]. split.
      { right. destruct He as [->|(i & Hi & Hli & ->)]; [exists 0%nat | exists (S i)]; (split; [lia|done]). }
      assert (hf = false -> s <= seg_start m base 0 /\ s `mod` ps = 0) as Hs.
      { intros ->. rewrite I1. unfold seg_start in *. rewrite <- Hb0 in *.
        destruct (down_props ps (p_vaddr m base)) as (D1 & D2 & _); [done|lia]. }
      intros [|i] Hi Hli; [split; [done|apply Hs]|].
      specialize (I3 i ltac:(lia)). unfold loadable, seg_end in I3. rewrite ph_tail in I3.
      destruct (I3 Hli) as [I4 _]. split; [done|]. intros Hf. destruct (Hs Hf) as [Hs1 Hs2].
      split; [|done]. destruct (A2 0%nat (S i)) as [A3 _]; [lia|done|done|lia].
    + split; [done|]. split.
      { destruct I2 as [->|(i & Hi & Hli & ->)]; [by left|right]. exists (S i).
        unfold loadable, seg_end in *. rewrite ph_tail in *. split; [lia|done]. }
      intros [|i] Hi Hli; [unfold loadable in Hli; rewrite <- Hb0 in Hli; done|].
      specialize (I3 i ltac:(lia)). unfold loadable, seg_end, seg_start in *. rewrite !ph_tail in I3.
      by apply I3.
Qed.

(** The load bias of a position-independent program: the kernel granted a
    range (and only then a bias is returned) such that every loadable segment,
    moved by the bias, lies inside it, at the same offset in its page. *)
Theorem load_bias_fits num_ph base (p p' : Proc W) bias :
  pagesize p = ps -> mem_ok (mem p) -> ascending (mem p) base (Z.to_nat num_ph) ->
  elf_determine_load_bias num_ph base p = (bias, p') -> BAD_ADDR bias = false ->
  exists ptr size,
    (mmap 0 size PROT_NONE (Z.lor (Z.lor MAP_PRIVATE MAP_NORESERVE) MAP_ANONYMOUS) (-1) 0 p).1 = ptr /\
    BAD_ADDR ptr = false /\
    forall i, (i < Z.to_nat num_ph)%nat -> loadable (mem p) base i ->
      let addr := u64 (bias + seg_start (mem p) base i) in
      ptr <= addr /\ addr + p_memsz (mem p) (ph base i) <= ptr + size /\
      addr `mod` ps = seg_start (mem p) base i `mod` ps.
Proof.
  intros Hpg Hmem Hasc Hrun Hbad. unfold elf_determine_load_bias in Hrun.
  unfold getpagesize in Hrun. unfold mbind at 1 2, ST_bind at 1 2, gets in Hrun. cbv beta iota in Hrun.
  rewrite Hpg in Hrun. destruct (segment_span _ _ _ _ _ _ _) as [s e] eqn:Espan.
  apply segment_span_spec in Espan as (_ & He & Hseg); [|done|done].
  destruct (Z.leb_spec e s) as [Hle|Hlt]; [injection Hrun as <- _; vm_compute in Hbad; done|].
  unfold mbind at 1, ST_bind at 1 in Hrun.
  destruct (mmap 0 (e - s) PROT_NONE _ _ _ p) as [ptr p1] eqn:Em.
  destruct (BAD_ADDR ptr) eqn:Hptr; [injection Hrun as <- _; congruence|].
  unfold mbind, ST_bind in Hrun. destruct (munmap ptr (e - s) p1) as [r2 p2]. injection Hrun as <- _.
  exists ptr, (e - s). rewrite Em. split; [done|]. split; [done|].
  assert (0 <= ptr /\ ptr `mod` ps = 0 /\ ptr + (e - s) <= 2 ^ 57) as (P0 & P1 & P2).
  { unfold mmap, syscall in Em. destruct (kernel NR_mmap _ _) as [r [m w]] eqn:Ek. injection Em as <- _.
    rewrite u64_bad in Hptr. destruct (abi_mmap (ps := ps) _ _ _ _ _ _ _ _ _ Ek Hptr) as [H1 H2].
    split; [apply wrap_range; lia|]. done. }
  intros i Hi Hli. destruct (Hseg i Hi Hli) as [S1 S2]. destruct (S2 eq_refl) as [S3 S4].
  destruct (seg_bounds (mem p) base i Hmem) as [B1 B3]. unfold in_u in B1.
  assert (seg_end (mem p) base i = seg_start (mem p) base i + p_memsz (mem p) (ph base i)) as Eend by done.
  rewrite wrap_add_l. rewrite u64_small by lia. split; [lia|]. split; [lia|].
  destruct (ps_pow2 ps) as [_ Hps].
  replace (ptr - s + seg_start (mem p) base i) with (seg_start (mem p) base i + (ptr - s)) by lia.
  pose proof (Z.div_mod ptr ps) as E1. pose proof (Z.div_mod s ps) as E2. rewrite P1 in E1. rewrite S4 in E2.
  replace (ptr - s) with ((ptr / ps - s / ps) * ps) by lia. apply Z.mod_add. lia.
Qed.

End Bias.

(** Two segments at 0x400010 and 0x402000. *)
Definition pie_mem : memory :=
  storeZ (storeZ (storeZ seg_mem 4 0x1038 1) 8 0x1048 0x402000) 8 0x1060 0x100.
Definition pie_proc : Proc Disk :=
  mkProc pie_mem (mkDisk [] ∅ 3 0x10000000) (mkArena 0 0 0 0) (mkArena 0 0 0 0) 4096 0x8000.

Lemma load_bias_fits_witness :
  let bias := (elf_determine_load_bias 2 0x1000 pie_proc).1 in
  u64 (bias + 0x402000) = 0x10002000 /\
  exists ptr, ptr <= u64 (bias + seg_start pie_mem 0x1000 1).
Proof.
  intros bias. split; [vm_compute; reflexivity|].
  destruct (load_bias_fits 4096 2 0x1000 pie_proc (elf_determine_load_bias 2 0x1000 pie_proc).2 bias)
    as (ptr & size & _ & _ & T).
  - reflexivity.
  - unfold pie_proc, pie_mem, seg_mem. cbn [mem]. repeat apply mem_ok_storeZ. apply map_Forall_empty.
  - split.
    + intros [|[|i]] Hi _; [vm_compute; reflexivity..|]. exfalso. change (Z.to_nat 2) with 2%nat in Hi. lia.
    + intros [|i] [|[|j]] Hij _ _; change (Z.to_nat 2) with 2%nat in Hij; try lia.
      vm_compute. split; discriminate.
  - apply injective_projections; reflexivity.
  - vm_compute. reflexivity.
  - exists ptr. apply (T 1%nat); [change (Z.to_nat 2) with 2%nat; lia | vm_compute; reflexivity].
Defined.
