(* ===== verification/ElfLoaderFds.v ===== *)
(** * [load_elf_binary] leaks no descriptors

    Every path through the loader, with its jumps to [out_close] and
    [out_free_ph], closes exactly the descriptors it opened. *)

From Stdlib Require Import ZArith Lia String.
From stdpp Require Import base numbers list list_numbers option gmap.
From S2P Require Import Prelude Machine Loopback Minilibc Memory Printf RtldReloc RtldElf ElfLoader ElfLoaderProofs.

(** Documented behaviour of descriptors: a successful [openat] returns one that
    was not open, [close] closes the one it names, and the other calls of the
    loader open and close none. *)
Class FdKernel (W : Type) `{Kernel W} := {
  open_fds : W -> gset Z;
  fd_open : forall args m w r st,
    kernel NR_openat args (m, w) = (r, st) ->
    (s32 r < 0 /\ open_fds st.2 = open_fds w) \/
    (0 <= r < 2 ^ 31 /\ ~ (r ∈ open_fds w) /\ open_fds st.2 = ({[r]} ∪ open_fds w));
  fd_close : forall fd m w r st,
    kernel NR_close [fd] (m, w) = (r, st) -> open_fds st.2 = open_fds w ∖ {[fd]};
  fd_other : forall nr args m w r st,
    nr ∈ [NR_read; NR_write; NR_lseek; NR_mmap; NR_munmap; NR_mprotect] ->
    kernel nr args (m, w) = (r, st) -> open_fds st.2 = open_fds w;
}.

Lemma remove_one (X : gset Z) a : ~ (a ∈ X) -> ({[a]} ∪ X) ∖ {[a]} = X.
Proof. intros Ha. apply leibniz_equiv. set_solver. Qed.
Lemma remove_both (X : gset Z) a b :
  ~ (a ∈ X) -> ~ (b ∈ ({[a]} ∪ X)) -> (({[b]} ∪ ({[a]} ∪ X)) ∖ {[a]}) ∖ {[b]} = X.
Proof. intros Ha Hb. apply leibniz_equiv. set_solver. Qed.

Section Fds.
Context {W : Type} `{FdKernel W}.

Definition fds (p : Proc W) : gset Z := open_fds (kst p).

(** The computation leaves the set of open descriptors as it is. *)
Definition keeps {A} (c : ST (Proc W) A) : Prop := forall p, fds (c p).2 = fds p.

Lemma keeps_ret {A} (a : A) : keeps (mret a).
Proof. done. Qed.
Lemma keeps_gets {A} (f : Proc W -> A) : keeps (gets f).
Proof. done. Qed.
Lemma keeps_modify f : (forall p, kst (f p) = kst p) -> keeps (modify f).
Proof. intros Hf p. unfold fds. cbn. by rewrite Hf. Qed.
Lemma keeps_bind {A B} (c : ST (Proc W) A) (f : A -> ST (Proc W) B) :
  keeps c -> (forall a, keeps (f a)) -> keeps (c ≫= f).
Proof.
  intros Hc Hf p. specialize (Hc p). unfold mbind, ST_bind. destruct (c p) as [a p']. cbn in Hc.
  by rewrite Hf.
Qed.
Lemma keeps_local {A} n (f : Z -> ST (Proc W) A) : (forall a, keeps (f a)) -> keeps (with_local n f).
Proof.
  intros Hf. unfold with_local. apply keeps_bind; [apply keeps_gets|]. intros a.
  apply keeps_bind; [by apply keeps_modify|]. intros _. apply keeps_bind; [apply Hf|]. intros r.
  apply keeps_bind; [by apply keeps_modify|]. intros _. apply keeps_ret.
Qed.
Lemma keeps_syscall nr args :
  nr ∈ [NR_read; NR_write; NR_lseek; NR_mmap; NR_munmap; NR_mprotect] -> keeps (syscall nr args).
Proof.
  intros Hnr p. unfold syscall, fds. destruct (kernel nr args (mem p, kst p)) as [r [m w]] eqn:E.
  by apply fd_other in E.
Qed.

Create HintDb fds.
Hint Resolve keeps_ret keeps_gets : fds.
Hint Extern 1 (keeps (modify _)) => apply keeps_modify; reflexivity : fds.
Hint Extern 1 (keeps (syscall _ _)) => apply keeps_syscall; set_solver : fds.

(** Walk through a computation. *)
Ltac keep :=
  repeat (match goal with
          | |- keeps (_ ≫= _) => apply keeps_bind; [|intros ?]
          | |- keeps (with_local _ _) => apply keeps_local; intros ?
          | |- keeps (let '_ := ?x in _) => destruct x
          | |- keeps (if ?b then _ else _) => destruct b
          | |- keeps (match ?x with _ => _ end) => destruct x
          | |- keeps ((fun _ => _) _) => cbv beta
          | |- keeps (let _ := _ in _) => cbv zeta
          | |- forall _, _ => intros ?
          end || (progress auto with fds)).

Lemma keeps_read fd b n : keeps (Minilibc.read fd b n).
Proof. unfold Minilibc.read. keep. Qed.
Lemma keeps_write fd b n : keeps (Minilibc.write fd b n).
Proof. unfold Minilibc.write. keep. Qed.
Lemma keeps_lseek fd o wh : keeps (lseek fd o wh).
Proof. unfold lseek. keep. Qed.
Lemma keeps_mmap a l pr fl fd o : keeps (mmap a l pr fl fd o).
Proof. unfold mmap. keep. Qed.
Lemma keeps_munmap a l : keeps (munmap a l).
Proof. unfold munmap. keep. Qed.
Lemma keeps_mprotect a l pr : keeps (mprotect a l pr).
Proof. unfold mprotect. keep. Qed.
Hint Resolve keeps_read keeps_write keeps_lseek keeps_mmap keeps_munmap keeps_mprotect : fds.

Lemma keeps_read_full fd b n : keeps (read_full fd b n).
Proof.
  unfold read_full. generalize 0 as k. induction (Z.to_nat n) as [|fuel IH]; intros k; cbn [read_full_loop]; keep.
Qed.
Lemma keeps_memset s c n : keeps (memset s c n).
Proof. unfold memset. keep. Qed.
Lemma keeps_memcpy_src d s n : keeps (memcpy_src d s n).
Proof. unfold memcpy_src, memcpy. keep. Qed.
Lemma keeps_write_src fd s n : keeps (write_src fd s n).
Proof. unfold write_src. keep. Qed.
Hint Resolve keeps_read_full keeps_memset keeps_memcpy_src keeps_write_src : fds.

Lemma keeps_message s : keeps (message s).
Proof. unfold message, puts. keep. Qed.

Lemma keeps_helper d s n : keeps (dprintf_helper d s n).
Proof. unfold dprintf_helper. keep. Qed.
Hint Resolve keeps_message keeps_helper : fds.

Lemma keeps_conversion c d b f args : keeps (conversion dprintf_helper c d b f args).
Proof. unfold conversion. keep. Qed.
Hint Resolve keeps_conversion : fds.

Lemma keeps_printf_loop fuel d b f args n : keeps (printf_loop dprintf_helper fuel d b f args n).
Proof. revert d b f args n. induction fuel as [|fuel IH]; intros d b f args n; cbn [printf_loop]; keep. Qed.
Lemma keeps_printf f args : keeps (printf f args).
Proof. unfold printf, vdprintf, printf_driver. pose proof keeps_printf_loop. keep. Qed.
Hint Resolve keeps_printf : fds.

(** ** The loader between open and close *)

Lemma keeps_elf_read fd o b n : keeps (elf_read fd o b n).
Proof. unfold elf_read. keep. Qed.
Hint Resolve keeps_elf_read : fds.
Lemma keeps_phdrs h fd : keeps (load_elf_phdrs h fd).
Proof. unfold load_elf_phdrs. keep. Qed.
Lemma keeps_bias n ph : keeps (elf_determine_load_bias n ph).
Proof. unfold elf_determine_load_bias, getpagesize. keep. Qed.
Lemma keeps_map_zero pr ps d a : keeps (elf_map_zero pr ps d a).
Proof. unfold elf_map_zero. keep. Qed.
Hint Resolve keeps_phdrs keeps_bias keeps_map_zero : fds.
Lemma keeps_elf_map a ph fd : keeps (elf_map a ph fd).
Proof. unfold elf_map, getpagesize. keep. Qed.
Hint Resolve keeps_elf_map : fds.
Lemma keeps_interp_loop n b ph fd : keeps (interp_loop n b ph fd).
Proof. revert ph. induction n as [|n IH]; intros ph; cbn [interp_loop]; keep. Qed.
Hint Resolve keeps_interp_loop : fds.
Lemma keeps_interp h ph fd : keeps (load_elf_interp h ph fd).
Proof. unfold load_elf_interp. keep. Qed.
Lemma keeps_load_loop n b ph fd a : keeps (load_loop n b ph fd a).
Proof. revert ph a. induction n as [|n IH]; intros ph a; cbn [load_loop]; keep. Qed.
Hint Resolve keeps_interp keeps_load_loop : fds.

(** ** Opening and closing *)

(** The descriptor [fd], when there is one, was not open before and is now. *)
Definition opened (before after : gset Z) (fd : Z) : Prop :=
  if 0 <=? fd then fd < 2 ^ 31 /\ ~ (fd ∈ before) /\ after = ({[fd]} ∪ before) else after = before.

Lemma open_opens path flags mode (p : Proc W) :
  opened (fds p) (fds (open path flags mode p).2) (open path flags mode p).1.
Proof.
  unfold open, openat, mbind, ST_bind, syscall, fds.
  destruct (kernel NR_openat _ (mem p, kst p)) as [r [m w]] eqn:E.
  apply fd_open in E as [[Hr Hf]|(Hr & Hn & Hf)]; cbn in *; unfold opened.
  - rewrite swrap_wrap_le by lia. rewrite (proj2 (Z.leb_gt 0 _)) by lia. done.
  - rewrite swrap_wrap_le, swrap_small by (unfold in_s; lia). rewrite (proj2 (Z.leb_le 0 r)) by lia.
    split; [lia|]. done.
Qed.

Lemma close_closes fd (p : Proc W) :
  0 <= fd < 2 ^ 31 -> fds (close fd p).2 = fds p ∖ {[fd]}.
Proof.
  intros Hfd. unfold close, mbind, ST_bind, syscall, fds.
  destruct (kernel NR_close _ (mem p, kst p)) as [r [m w]] eqn:E.
  apply fd_close in E. cbn in *. rewrite E. rewrite wrap_small by (unfold in_u; lia). done.
Qed.

(** Both descriptors are closed; [X] are the descriptors open at the start. *)
Lemma out_close_closes X Y fd interp_fd retval (p : Proc W) :
  0 <= fd -> opened X Y fd -> opened Y (fds p) interp_fd ->
  fds (out_close fd interp_fd retval p).2 = X /\ (out_close fd interp_fd retval p).1 = retval.
Proof.
  intros Hfd HX HY. unfold opened in *. rewrite (proj2 (Z.leb_le 0 fd)) in HX by lia.
  destruct HX as (Hlt & Hn & ->). unfold out_close, mbind, ST_bind, mret, ST_ret.
  pose proof (close_closes fd p ltac:(lia)) as Hc. destruct (close fd p) as [r p1]. cbn in Hc.
  destruct (Z.leb_spec 0 interp_fd).
  - pose proof (close_closes interp_fd p1 ltac:(lia)) as Hc2.
    destruct (close interp_fd p1) as [r2 p2]. cbn in *. rewrite Hc2, Hc. destruct HY as (_ & Hn2 & ->).
    split; [by apply remove_both|done].
  - cbn. rewrite Hc, HY. split; [by apply remove_one|done].
Qed.

Lemma out_free_ph_closes X Y ph iph fd interp_fd retval (p : Proc W) :
  0 <= fd -> opened X Y fd -> opened Y (fds p) interp_fd ->
  fds (out_free_ph ph iph fd interp_fd retval p).2 = X.
Proof.
  intros Hfd HX HY. unfold out_free_ph. unfold mbind at 1, ST_bind at 1.
  pose proof (keeps_munmap ph 0x1000 p) as K. destruct (munmap ph 0x1000 p) as [r p1]. cbn in K.
  unfold mbind at 1, ST_bind at 1. set (c := if negb _ then _ else _).
  assert (keeps c) as Kc by (unfold c; keep). specialize (Kc p1). destruct (c p1) as [[] p2]. cbn in Kc.
  apply (out_close_closes X Y); [done..|]. by rewrite Kc, K.
Qed.

(** A computation that may open one descriptor, the one [fd_of] tells. *)
Definition opens {A} (fd_of : A -> Z) (c : ST (Proc W) A) : Prop :=
  forall p, opened (fds p) (fds (c p).2) (fd_of (c p).1).

Lemma opens_ret {A} (fd_of : A -> Z) a : (0 <=? fd_of a) = false -> opens fd_of (mret a).
Proof. intros Ha p. unfold opened. cbn. by rewrite Ha. Qed.
Lemma opens_bind_keeps {A B} (fd_of : B -> Z) (c : ST (Proc W) A) f :
  keeps c -> (forall a, opens fd_of (f a)) -> opens fd_of (c ≫= f).
Proof.
  intros Hc Hf p. specialize (Hc p). unfold mbind, ST_bind. destruct (c p) as [a p']. cbn in Hc.
  rewrite <- Hc. apply Hf.
Qed.
Lemma opens_keeps {A} (fd_of : A -> Z) fd X (c : ST (Proc W) A) :
  keeps c -> (forall p, fd_of (c p).1 = fd) -> forall p, opened X (fds p) fd ->
  opened X (fds (c p).2) (fd_of (c p).1).
Proof. intros Hc Hfd p Hp. by rewrite Hc, Hfd. Qed.
Lemma opens_local {A} (fd_of : A -> Z) n (f : Z -> ST (Proc W) A) :
  (forall a, opens fd_of (f a)) -> opens fd_of (with_local n f).
Proof.
  intros Hf p. unfold with_local, mbind, ST_bind, gets, modify, mret, ST_ret. cbv beta iota.
  pose proof (Hf (sp p) (set_sp (sp p + n) p)) as Ho.
  destruct (f (sp p) (set_sp (sp p + n) p)) as [r p1]. exact Ho.
Qed.

Lemma opens_bind_open {A} (fd_of : A -> Z) path flags mode f :
  (forall fd X p, opened X (fds p) fd -> opened X (fds (f fd p).2) (fd_of (f fd p).1)) ->
  opens fd_of (open path flags mode ≫= f).
Proof.
  intros Hf p. unfold mbind, ST_bind. pose proof (open_opens path flags mode p) as Ho.
  destruct (open path flags mode p) as [fd p1]. by apply Hf.
Qed.

Definition interp_fd_of (r : bool * Z * Z * Z) : Z := r.1.2.

(** From the opened interpreter on, its descriptor stays the one in the result. *)
Definition returns_fd (fd : Z) (c : ST (Proc W) (bool * Z * Z * Z)) : Prop :=
  forall p, interp_fd_of (c p).1 = fd.
Lemma returns_bind {A} fd (c : ST (Proc W) A) f :
  (forall a, returns_fd fd (f a)) -> returns_fd fd (c ≫= f).
Proof. intros Hf p. unfold mbind, ST_bind. destruct (c p). apply Hf. Qed.
Lemma returns_ret fd a b c : returns_fd fd (mret (a, b, fd, c)).
Proof. done. Qed.

Ltac returns :=
  repeat match goal with
         | |- returns_fd _ (_ ≫= _) => apply returns_bind; intros ?
         | |- returns_fd _ (mret _) => apply returns_ret
         | |- returns_fd _ (let _ := _ in _) => cbv zeta
         | |- returns_fd _ (if ?b then _ else _) => destruct b
         end.

Lemma open_interp_opens h ih ph fd retval : opens interp_fd_of (open_interp h ih ph fd retval).
Proof.
  unfold open_interp. apply opens_bind_keeps; [apply keeps_gets|]. intros m.
  destruct (_ || _); [by apply opens_ret|]. apply opens_local. intros name.
  apply opens_bind_keeps; [apply keeps_elf_read|]. intros r.
  destruct (_ <? 0); [by apply opens_ret|].
  apply opens_bind_keeps; [apply keeps_gets|]. intros m'. destruct (negb _); [by apply opens_ret|].
  apply opens_bind_open. intros ifd X p1 Ho. destruct (ifd <? 0); [done|].
  match goal with |- opened _ (fds (?c p1).2) _ => apply (opens_keeps interp_fd_of ifd _ c); [| |done] end.
  - keep.
  - match goal with |- forall p, interp_fd_of (?c p).1 = _ => change (returns_fd ifd c) end. returns.
Qed.

Lemma find_interp_opens n h ih ph fd retval : opens interp_fd_of (find_interp n h ih ph fd retval).
Proof.
  revert ph. induction n as [|n IH]; intros ph; cbn [find_interp]; [by apply opens_ret|].
  apply opens_bind_keeps; [apply keeps_gets|]. intros m.
  destruct (negb _); [apply IH | apply open_interp_opens].
Qed.

(** ** The whole loader *)

(** Started with [interp_fd] opened on top of [Y], the computation ends with the
    descriptors [X]. *)
Definition ends {A} (X Y : gset Z) (interp_fd : Z) (c : ST (Proc W) A) : Prop :=
  forall p, opened Y (fds p) interp_fd -> fds (c p).2 = X.

Lemma ends_keeps_bind {A B} X Y ifd (c : ST (Proc W) A) (f : A -> ST (Proc W) B) :
  keeps c -> (forall a, ends X Y ifd (f a)) -> ends X Y ifd (c ≫= f).
Proof.
  intros Hc Hf p Hp. specialize (Hc p). unfold mbind, ST_bind. destruct (c p) as [a p']. cbn in Hc.
  apply Hf. by rewrite Hc.
Qed.
Lemma ends_bind_keeps {A B} X Y ifd (c : ST (Proc W) A) (f : A -> ST (Proc W) B) :
  ends X Y ifd c -> (forall a, keeps (f a)) -> ends X Y ifd (c ≫= f).
Proof.
  intros Hc Hf p Hp. specialize (Hc p Hp). unfold mbind, ST_bind. destruct (c p) as [a p'].
  cbn in Hc. by rewrite Hf.
Qed.
Lemma ends_local {A} X Y ifd n (f : Z -> ST (Proc W) A) :
  (forall a, ends X Y ifd (f a)) -> ends X Y ifd (with_local n f).
Proof.
  intros Hf p Hp. unfold with_local, mbind, ST_bind, gets, modify, mret, ST_ret. cbv beta iota.
  pose proof (Hf (sp p) (set_sp (sp p + n) p) Hp) as Ho.
  destruct (f (sp p) (set_sp (sp p + n) p)) as [r p1]. exact Ho.
Qed.

Section Ends.
Context (X Y : gset Z) (fd : Z) (Hfd : 0 <= fd) (HX : opened X Y fd).

Lemma ends_free ph iph ifd retval : ends X Y ifd (out_free_ph ph iph fd ifd retval).
Proof. intros p Hp. by apply (out_free_ph_closes X Y). Qed.

Lemma ends_close retval : ends X Y (-1) (out_close fd (-1) retval).
Proof. intros p Hp. by apply (out_close_closes X Y). Qed.

Ltac finish :=
  repeat match goal with
         | |- ends _ _ _ (out_free_ph _ _ _ _ _ ≫= _) => apply ends_bind_keeps; [apply ends_free|]; keep
         | |- ends _ _ _ (out_close _ _ _ ≫= _) => apply ends_bind_keeps; [apply ends_close|]; keep
         | |- ends _ _ _ (_ ≫= _) => apply ends_keeps_bind; [solve [keep]|intros ?]
         | |- ends _ _ _ (let '_ := ?x in _) => destruct x
         | |- ends _ _ _ (if ?b then _ else _) => destruct b
         | |- ends _ _ _ (match ?x with _ => _ end) => destruct x
         | |- ends _ _ _ ((fun _ => _) _) => cbv beta
         | |- ends _ _ _ (let _ := _ in _) => cbv zeta
         | |- ends _ _ _ (with_local _ _) => apply ends_local; intros ?
         end.

Lemma load_program_ends h ih ph iph ifd : ends X Y ifd (load_program h ih ph iph fd ifd).
Proof. unfold load_program. finish. Qed.

Lemma ends_find {A} n h ih ph retval (f : _ -> ST (Proc W) A) :
  (forall go r ifd iph, ends X Y ifd (f (go, r, ifd, iph))) ->
  ends X Y (-1) (find_interp n h ih ph fd retval ≫= f).
Proof.
  intros Hf p Hp. pose proof (find_interp_opens n h ih ph fd retval p) as Ho.
  unfold mbind, ST_bind. destruct (find_interp _ _ _ _ _ _ p) as [[[[go r] ifd] iph] p1].
  apply Hf. unfold opened at 1 in Hp. cbn in Hp. rewrite Hp in Ho. exact Ho.
Qed.

Lemma load_opened_ends : ends X Y (-1) (load_opened fd).
Proof.
  unfold load_opened. apply ends_local. intros h. apply ends_local. intros ih. cbv zeta.
  apply ends_keeps_bind; [keep|]. intros retval. destruct (_ <? 0); [finish|].
  apply ends_keeps_bind; [keep|]. intros m. do 2 (destruct (negb _); [finish|]).
  destruct (_ && _); [finish|].
  apply ends_keeps_bind; [keep|]. intros ph. destruct (ph =? 0); [finish|].
  apply ends_keeps_bind; [keep|]. intros m'. apply ends_find. intros go r ifd iph.
  destruct (negb go); [finish | apply load_program_ends].
Qed.

End Ends.

(** C40. On every path through [load_elf_binary] (bad headers, missing
    interpreter, failed mappings, success) exactly the descriptors it opened
    are closed again. *)
Theorem load_elf_binary_closes filename (p : Proc W) :
  open_fds (kst (load_elf_binary filename p).2) = open_fds (kst p).
Proof.
  unfold load_elf_binary, mbind, ST_bind. pose proof (open_opens filename O_RDONLY 0 p) as Ho.
  destruct (open filename O_RDONLY 0 p) as [fd p1]. cbn in Ho.
  destruct (Z.ltb_spec fd 0) as [Hneg|Hpos].
  - unfold opened in Ho. rewrite (proj2 (Z.leb_gt 0 fd)) in Ho by lia. exact Ho.
  - apply (load_opened_ends (fds p) (fds p1) fd Hpos Ho). done.
Qed.

End Fds.

(** ** A kernel with descriptors *)

#[global] Instance disk_fds : FdKernel Disk.
Proof.
  refine {| open_fds := fun w => dom (dk_fds w) |}.
  - intros args m w r st Hk. unfold kernel, disk in Hk.
    destruct (_ && _ && _) eqn:E; apply pair_equal_spec in Hk as [<- <-].
    + right. apply andb_prop in E as [E E3]. apply andb_prop in E as [E1 E2].
      apply Z.leb_le in E1. apply Z.ltb_lt in E2. apply bool_decide_eq_true in E3.
      split; [lia|]. split; [by apply not_elem_of_dom|]. cbn. by rewrite dom_insert_L.
    + left. split; [|done]. by vm_compute.
  - intros fd m w r st Hk. apply pair_equal_spec in Hk as [_ <-]. cbn. by rewrite dom_delete_L.
  - intros nr args m w r st Hnr Hk. unfold kernel, disk in Hk.
    assert (forall fd pos, is_Some (dk_fds w !! fd) -> dom (<[fd := pos]> (dk_fds w)) = dom (dk_fds w)) as Hdom.
    { intros fd pos Hfd. rewrite dom_insert_L. apply elem_of_dom in Hfd. apply leibniz_equiv. set_solver. }
    repeat (apply elem_of_cons in Hnr as [->|Hnr]); [..|by apply not_elem_of_nil in Hnr];
      repeat (destruct args as [|? args]; try (apply pair_equal_spec in Hk as [_ <-]; done)).
    + unfold dk_read in Hk. destruct (dk_fds w !! z) as [pos|] eqn:E; apply pair_equal_spec in Hk as [_ <-]; [|done].
      cbn. apply Hdom. eauto.
    + unfold dk_seek in Hk. destruct (dk_fds w !! z) as [pos|] eqn:E; apply pair_equal_spec in Hk as [_ <-]; [|done].
      cbn. apply Hdom. eauto.
    + unfold dk_map in Hk. cbv zeta in Hk. destruct (_ =? _); apply pair_equal_spec in Hk as [_ <-]; done.
Defined.

(** A file that is not an ELF binary, opened as descriptor 3 and closed. *)
Definition text_proc : Proc Disk :=
  mkProc ∅ (mkDisk (replicate 64 35) {[0 := 0]} 3 0x10000000) (mkArena 0 0 0 0) (mkArena 0 0 0 0) 4096 0x8000.

Lemma load_elf_binary_closes_witness :
  (load_elf_binary 0x5000 text_proc).1 = (- ENOEXEC, None) /\
  open_fds (kst (load_elf_binary 0x5000 text_proc).2) = {[0]}.
Proof.
  split; [vm_compute; reflexivity|]. rewrite load_elf_binary_closes. vm_compute. reflexivity.
Defined.
