(* ===== verification/Signals.v ===== *)
(** * Guest signals, the first part of [client/emulate.c]

    The guest's signal actions and mask live in the emulator's state; the
    host's are set so that at most one asynchronous signal is pending. *)

From Stdlib Require Import ZArith Lia String.
From stdpp Require Import base numbers list list_numbers option gmap.
From S2P Require Import Prelude Machine Minilibc Printf RtldReloc RtldElf Translator State.

Definition SIGABRT : Z := 6.
Definition SIGBUS : Z := 7.
Definition SIGKILL : Z := 9.
Definition SIGSEGV : Z := 11.
Definition SIGSTOP : Z := 19.
Definition SIG_DFL : Z := 0.
Definition SIG_IGN : Z := 1.
Definition SA_SIGINFO : Z := 0x4.
Definition SA_RESTORER : Z := 0x04000000.
Definition SA_RESTART : Z := 0x10000000.
Definition SIG_BLOCK : Z := 0.
Definition SIG_UNBLOCK : Z := 1.
Definition SIG_SETMASK : Z := 2.
Definition SIZEOF_SIGSET : Z := 8.

Section Signals.
Context {W : Type} `{Kernel W}.
Context (arch : Arch) (link : string -> Z).

(** ** The wrappers of [minilibc.c] *)

(** [sigaction] with a new action and no place for the old one. *)
Definition sigaction (num : Z) (act : SigAction) : ST (Proc W) Z :=
  let kact := mkAct (sa_handler act) (Z.lor (sa_flags act) SA_RESTORER) (link "__restore") (sa_mask act) in
  with_local 32 (fun a =>
    modify (fun p => set_mem (store_act (mem p) a kact) p);;
    r ← syscall NR_rt_sigaction [u64 num; a; 0; SIZEOF_SIGSET];
    mret (s32 r)).

(** A [sigset_t] in a local variable. *)
Definition with_set {A} (set : Z) (f : Z -> ST (Proc W) A) : ST (Proc W) A :=
  with_local 8 (fun a => modify (fun p => set_mem (storeZ (mem p) 8 a set) p);; f a).

Definition sigprocmask (how set : Z) : ST (Proc W) Z :=
  with_set set (fun a => r ← syscall NR_rt_sigprocmask [u64 how; a; 0; SIZEOF_SIGSET]; mret (s32 r)).
Definition sigsuspend (set : Z) : ST (Proc W) Z :=
  with_set set (fun a => r ← syscall NR_rt_sigsuspend [a; SIZEOF_SIGSET]; mret (s32 r)).

(** ** Signals of the guest *)

(** Does not return: the signal ends the process. *)
Definition abort_with_signal {A} (sig : Z) : CM W A :=
  lift (sigaction sig (mkAct SIG_DFL 0 0 sigfillset));;
  pid ← lift getpid;
  lift (kill pid sig);;
  lift (sigsuspend (sigdelset sigfillset sig).2);;
  stop (Killed sig).

Definition signal_update_hostmask : CM W Z :=
  mask ← ask (fun c => sigmask (cpu c));
  let hostmask := (sigdelset (sigdelset mask SIGSEGV).2 SIGBUS).2 in
  lift (sigprocmask SIG_SETMASK hostmask).

Definition signal_handle : CM W unit :=
  sig ← ask (fun c => sigpending (cpu c));
  upd_cpu (set_sigpending 0);;
  act ← ask (fun c => sigact_at (state c) (sig - 1));
  if sa_handler act =? SIG_DFL then abort_with_signal sig
  else if sa_handler act =? SIG_IGN then mret tt
  else
    lift (dprintf 2 (line "guest signal handling not implemented! %d") [VInt sig]);;
    abort_with_signal sig.

Definition signal_sigreturn : CM W unit :=
  lift (dprintf 2 (line "guest sigreturn not implemented!") []);;
  abort_with_signal SIGABRT.

(** Where [struct ucontext] keeps its signal mask. *)
Definition UC_SIGMASK : Z := match arch with X86_64 => 296 | AARCH64 => 40 end.
Definition si_code (m : memory) (info : Z) : Z := s32 (loadZ m 4 (info + 8)).

(** The host's handler. *)
Definition signal_handler (sig info ucp : Z) : CM W unit :=
  m ← ask (fun c => mem (proc c));
  (if ((sig =? SIGSEGV) || (sig =? SIGBUS)) && (0 <? si_code m info) then
     act ← ask (fun c => sigact_at (state c) (sig - 1));
     (if negb (sa_handler act =? SIG_DFL)
      then lift (dprintf 2 (line "handling of synchronous signals not implemented") []);; mret tt
      else mret tt);;
     abort_with_signal sig
   else mret tt);;
  mask ← ask (fun c => sigmask (cpu c));
  if negb (sigismember mask sig =? 0) then
    lift (dprintf 2 (line "dropping asynchronous blocked signal %d") [VInt sig]);; mret tt
  else
    upd_cpu (set_sigpending sig);;
    m ← ask (fun c => mem (proc c));
    upd_cpu (set_siginfo (load_bytes m info 128));;
    upd_mem (fun m => storeZ m 8 (ucp + UC_SIGMASK)
                        (sigdelset (sigdelset sigfillset SIGSEGV).2 SIGBUS).2).

(** [nact] and [oact] are guest addresses, 0 for none. *)
Definition signal_sigaction (sig nact oact : Z) : CM W Z :=
  if (sig <=? 0) || (NSIG <? sig) then mret (- EINVAL)
  else
    old ← ask (fun c => sigact_at (state c) (sig - 1));
    (if negb (oact =? 0) then upd_mem (fun m => store_act m oact old) else mret tt);;
    if nact =? 0 then mret 0
    else
      new ← ask (fun c => load_act (mem (proc c)) nact);
      upd_state (set_sigact (sig - 1) new);;
      if (sig =? SIGSEGV) || (sig =? SIGBUS) then mret 0
      else
        let handler := if (sa_handler new =? SIG_DFL) || (sa_handler new =? SIG_IGN)
                       then sa_handler new else link "signal_handler" in
        let flags := if negb (Z.land (sa_flags new) SA_RESTART =? 0)
                     then Z.lor SA_SIGINFO SA_RESTART else SA_SIGINFO in
        lift (sigaction sig (mkAct handler flags 0 sigfillset)).

(** [for (int i = 1; i <= _NSIG; i++) if (sigismember(set, i)) f(mask, i)]. *)
Fixpoint mask_loop (n : nat) (i : Z) (f : Z -> Z -> Z) (set mask : Z) : Z :=
  match n with
  | O => mask
  | S n' => mask_loop n' (i + 1) f set (if negb (sigismember set i =? 0) then f mask i else mask)
  end.

Definition signal_sigprocmask (how set oldset : Z) : CM W Z :=
  (if negb (oldset =? 0) then
     old ← ask (fun c => sigmask (cpu c));
     upd_mem (fun m => storeZ m 8 oldset old)
   else mret tt);;
  if set =? 0 then mret 0
  else
    s ← ask (fun c => loadZ (mem (proc c)) 8 set);
    mask ← ask (fun c => sigmask (cpu c));
    let new :=
      if how =? SIG_BLOCK then Some (mask_loop 64 1 (fun m i => (sigaddset m i).2) s mask)
      else if how =? SIG_UNBLOCK then Some (mask_loop 64 1 (fun m i => (sigdelset m i).2) s mask)
      else if how =? SIG_SETMASK then Some s
      else None in
    match new with
    | None => mret (- EINVAL)
    | Some new =>
        upd_cpu (set_sigmask (sigdelset (sigdelset new SIGKILL).2 SIGSTOP).2);;
        pending ← ask (fun c => sigpending (cpu c));
        if pending =? 0 then signal_update_hostmask else mret 0
    end.

Definition signal_sigaltstack (ss old_ss : Z) : CM W Z :=
  (if negb (old_ss =? 0) then
     old ← ask (fun c => sigaltstack (cpu c));
     upd_mem (fun m => store_bytes m old_ss old)
   else mret tt);;
  if ss =? 0 then mret 0
  else
    new ← ask (fun c => load_bytes (mem (proc c)) ss 24);
    upd_cpu (set_sigaltstack new);;
    mret 0.

Definition signal_init : ST (Proc W) unit :=
  let act := mkAct (link "signal_handler") SA_SIGINFO 0 sigfillset in
  sigaction SIGSEGV act;;
  sigaction SIGBUS act;;
  mret tt.

End Signals.
