(* ===== verification/SignalsProofs.v ===== *)
(** * The guest's signal mask and actions *)

From Stdlib Require Import ZArith Lia String.
From stdpp Require Import base numbers list list_numbers option gmap.
From S2P Require Import Prelude Machine Loopback Minilibc Printf RtldReloc RtldElf Translator State Signals.

(** ** Masks bit by bit *)

Lemma sigaddset_bit m s j :
  1 <= s <= 64 -> 0 <= j -> Z.testbit (sigaddset m s).2 j = Z.testbit m j || (j =? s - 1).
Proof.
  intros Hs Hj. unfold sigaddset, NSIG.
  rewrite (proj2 (Z.leb_gt s 0)), (proj2 (Z.ltb_ge 64 s)) by lia. cbn [orb snd].
  rewrite Z.lor_spec, sigsetmsk_bit by lia. done.
Qed.

Lemma sigdelset_bit m s j :
  1 <= s <= 64 -> 0 <= j < 64 -> Z.testbit (sigdelset m s).2 j = Z.testbit m j && negb (j =? s - 1).
Proof.
  intros Hs Hj. unfold sigdelset, NSIG.
  rewrite (proj2 (Z.leb_gt s 0)), (proj2 (Z.ltb_ge 64 s)) by lia. cbn [orb snd].
  rewrite Z.land_spec, testbit_wrap, Z.lnot_spec, sigsetmsk_bit by lia.
  rewrite (proj2 (Z.ltb_lt j 64)) by lia. by rewrite andb_true_r.
Qed.

Lemma member_bit set i : 1 <= i <= 64 -> negb (sigismember set i =? 0) = Z.testbit set (i - 1).
Proof. intros Hi. rewrite sigismember_bit by lia. by destruct (Z.testbit _ _). Qed.

Definition between (j i : Z) (n : nat) : bool := (i - 1 <=? j) && (j <? i - 1 + Z.of_nat n).

Lemma between_step j i n : between j i (S n) = (j =? i - 1) || between j (i + 1) n.
Proof.
  unfold between. destruct (Z.eqb_spec j (i - 1)), (Z.leb_spec (i - 1) j), (Z.ltb_spec j (i - 1 + Z.of_nat (S n))),
    (Z.leb_spec (i + 1 - 1) j), (Z.ltb_spec j (i + 1 - 1 + Z.of_nat n)); cbn; (done || lia).
Qed.

Lemma mask_loop_add n i set mask j :
  1 <= i -> i + Z.of_nat n <= 65 -> 0 <= j ->
  Z.testbit (mask_loop n i (fun m i => (sigaddset m i).2) set mask) j =
  Z.testbit mask j || (Z.testbit set j && between j i n).
Proof.
  revert i mask. induction n as [|n IH]; intros i mask Hi Hn Hj; cbn [mask_loop].
  - unfold between. replace (j <? i - 1 + Z.of_nat 0) with (j <? i - 1) by (f_equal; lia).
    destruct (Z.leb_spec (i - 1) j), (Z.ltb_spec j (i - 1)); try lia; by rewrite andb_false_r, orb_false_r.
  - rewrite IH by lia. rewrite member_bit, between_step by lia.
    destruct (Z.eqb_spec j (i - 1)) as [->|Hne].
    + destruct (Z.testbit set (i - 1)).
      * rewrite sigaddset_bit, Z.eqb_refl by lia. cbn [orb andb]. by rewrite !orb_true_r.
      * done.
    + cbn [orb]. destruct (Z.testbit set (i - 1)); [|done].
      rewrite sigaddset_bit, (proj2 (Z.eqb_neq j (i - 1))) by (done || lia). by rewrite orb_false_r.
Qed.

Lemma mask_loop_del n i set mask j :
  1 <= i -> i + Z.of_nat n <= 65 -> 0 <= j < 64 ->
  Z.testbit (mask_loop n i (fun m i => (sigdelset m i).2) set mask) j =
  Z.testbit mask j && negb (Z.testbit set j && between j i n).
Proof.
  revert i mask. induction n as [|n IH]; intros i mask Hi Hn Hj; cbn [mask_loop].
  - unfold between. replace (j <? i - 1 + Z.of_nat 0) with (j <? i - 1) by (f_equal; lia).
    destruct (Z.leb_spec (i - 1) j), (Z.ltb_spec j (i - 1)); try lia; by rewrite andb_false_r, andb_true_r.
  - rewrite IH by lia. rewrite member_bit, between_step by lia.
    destruct (Z.eqb_spec j (i - 1)) as [->|Hne].
    + destruct (Z.testbit set (i - 1)).
      * rewrite sigdelset_bit, Z.eqb_refl by lia. cbn [orb andb negb]. by rewrite !andb_false_r.
      * done.
    + cbn [orb]. destruct (Z.testbit set (i - 1)); [|done].
      rewrite sigdelset_bit, (proj2 (Z.eqb_neq j (i - 1))) by (done || lia). by rewrite andb_true_r.
Qed.

(** ** [rt_sigprocmask] *)

(** The mask a call asks for, before the signals that cannot be blocked are
    removed. *)
Definition wanted (how : Z) (old set : bool) : bool :=
  if how =? SIG_BLOCK then old || set else if how =? SIG_UNBLOCK then old && negb set else set.

Lemma upd_mem_run {W} f (c : Client W) :
  upd_mem f c = (Done tt, mkClient (set_mem (f (mem (proc c))) (proc c)) (state c) (cpu c) (warnmap c)).
Proof. done. Qed.

(** Updating the host's mask leaves the emulator's state alone. *)
Lemma hostmask_frame {W} `{Kernel W} (c c' : Client W) r :
  signal_update_hostmask c = (Done r, c') -> cpu c' = cpu c /\ state c' = state c.
Proof.
  unfold signal_update_hostmask, mbind, CM_bind, ask, lift. destruct (sigprocmask _ _ _) as [r' p'].
  intros [= _ <-]. done.
Qed.

Lemma store_mask {W} `{Kernel W} new (c c' : Client W) r :
  (upd_cpu (set_sigmask (sigdelset (sigdelset new SIGKILL).2 SIGSTOP).2);;
   pending ← ask (fun c => sigpending (cpu c));
   if pending =? 0 then signal_update_hostmask else mret 0) c = (Done r, c') ->
  sigmask (cpu c') = (sigdelset (sigdelset new SIGKILL).2 SIGSTOP).2.
Proof.
  unfold mbind, CM_bind, ask, upd_cpu. cbn [cpu set_sigmask sigpending]. intros Hrun.
  destruct (_ =? 0); [apply hostmask_frame in Hrun as [-> _]; done|]. injection Hrun as _ <-. done.
Qed.

(** [rt_sigprocmask] for the guest: blocking, unblocking and setting act on
    the guest's mask as on sets of signals, SIGKILL and SIGSTOP are never
    blocked, and an unknown operation fails without changing the mask. *)
Theorem sigprocmask_spec {W} `{Kernel W} how set oldset (c c' : Client W) r :
  set <> 0 -> oldset = 0 -> signal_sigprocmask how set oldset c = (Done r, c') ->
  let s := loadZ (mem (proc c)) 8 set in
  (how = SIG_BLOCK \/ how = SIG_UNBLOCK \/ how = SIG_SETMASK ->
   forall j, 0 <= j < 64 ->
     Z.testbit (sigmask (cpu c')) j =
     wanted how (Z.testbit (sigmask (cpu c)) j) (Z.testbit s j) &&
       negb (j =? SIGKILL - 1) && negb (j =? SIGSTOP - 1)) /\
  (how <> SIG_BLOCK -> how <> SIG_UNBLOCK -> how <> SIG_SETMASK -> r = - EINVAL /\ c' = c).
Proof.
  intros Hset -> Hrun s. unfold signal_sigprocmask in Hrun. change (negb (0 =? 0)) with false in Hrun.
  rewrite (proj2 (Z.eqb_neq set 0)) in Hrun by done.
  unfold mbind at 1 2 3, CM_bind at 1 2 3, mret at 1, CM_ret at 1, ask at 1 2 in Hrun.
  cbv beta iota zeta in Hrun. fold s in Hrun. split.
  - intros Hhow j Hj.
    assert (between j 1 64 = true) as Hbt by (unfold between; destruct (Z.leb_spec (1 - 1) j),
      (Z.ltb_spec j (1 - 1 + Z.of_nat 64)); done || lia).
    assert (exists new, sigmask (cpu c') = (sigdelset (sigdelset new SIGKILL).2 SIGSTOP).2 /\
      Z.testbit new j = wanted how (Z.testbit (sigmask (cpu c)) j) (Z.testbit s j)) as (new & Hm & Hb).
    { destruct Hhow as [->|[->| ->]]; eexists; (split; [by apply (store_mask _ _ _ _ Hrun)|]).
      - rewrite mask_loop_add, Hbt, andb_true_r by lia. done.
      - rewrite mask_loop_del, Hbt, andb_true_r by lia. done.
      - done. }
    rewrite Hm, !sigdelset_bit, Hb by (unfold SIGKILL, SIGSTOP; lia). done.
  - intros H1 H2 H3. rewrite !(proj2 (Z.eqb_neq how _)) in Hrun by done. by injection Hrun as <- <-.
Qed.

Definition sig_client : Client Pipes :=
  mkClient (mkProc (storeZ ∅ 8 0x5000 (2 ^ 64 - 1)) (mkPipes ∅ ∅ 0 0) (mkArena 0 0 0 0) (mkArena 0 0 0 0) 4096 0x8000)
    (mkState (mkRtld (-1) (-1) (mkDisp 0 0 0 0) 0 ∅ 0) (mkTr 3 4 0 0 0 0 0) 0 ∅ (mkTsc 62 62 0 0 8) (mkTc 0 0 0 0 0))
    (cpu0 0x9000) ∅.

Lemma sigprocmask_spec_witness :
  let c' := (signal_sigprocmask SIG_SETMASK 0x5000 0 sig_client).2 in
  Z.testbit (sigmask (cpu c')) 1 = true /\ Z.testbit (sigmask (cpu c')) 8 = false.
Proof.
  intros c'.
  destruct (sigprocmask_spec SIG_SETMASK 0x5000 0 sig_client c' (- ENOSYS)) as [T _].
  - discriminate.
  - reflexivity.
  - apply injective_projections; [vm_compute; reflexivity | reflexivity].
  - split; rewrite T by (lia || (right; right; reflexivity)); vm_compute; reflexivity.
Defined.

(** ** [rt_sigaction] *)

Lemma load_store_act m a s :
  in_u 64 (sa_handler s) -> in_u 64 (sa_flags s) -> in_u 64 (sa_restorer s) -> in_u 64 (sa_mask s) ->
  load_act (store_act m a s) a = s.
Proof.
  intros H1 H2 H3 H4. unfold load_act, store_act.
  rewrite !(loadZ_storeZ_disjoint _ 8 8 _ a) by lia.
  rewrite !(loadZ_storeZ_disjoint _ 8 8 _ (a + 8)) by lia.
  rewrite !(loadZ_storeZ_disjoint _ 8 8 _ (a + 16)) by lia.
  rewrite !loadZ_storeZ. change (8 * Z.of_nat 8) with 64. rewrite !wrap_small by done. by destruct s.
Qed.

Lemma load_act_range m a :
  mem_ok m -> in_u 64 (sa_handler (load_act m a)) /\ in_u 64 (sa_flags (load_act m a)) /\
  in_u 64 (sa_restorer (load_act m a)) /\ in_u 64 (sa_mask (load_act m a)).
Proof. intros Hm. repeat split; by apply (loadZ_range m 8). Qed.

Lemma sigact_set s i a j : sigact_at (set_sigact i a s) j = if decide (i = j) then a else sigact_at s j.
Proof.
  unfold sigact_at, set_sigact. cbn. destruct (decide (i = j)) as [->|]; [by rewrite lookup_insert_eq|].
  by rewrite lookup_insert_ne.
Qed.

(** What setting an action stores. *)
Lemma sigaction_stores {W} `{Kernel W} link sig nact (c c' : Client W) r :
  1 <= sig <= 64 -> nact <> 0 -> signal_sigaction link sig nact 0 c = (Done r, c') ->
  state c' = set_sigact (sig - 1) (load_act (mem (proc c)) nact) (state c) /\ cpu c' = cpu c.
Proof.
  intros Hs Hn Hrun. unfold signal_sigaction, NSIG in Hrun.
  rewrite (proj2 (Z.leb_gt sig 0)), (proj2 (Z.ltb_ge 64 sig)), (proj2 (Z.eqb_neq nact 0)) in Hrun by (done || lia).
  cbn [orb] in Hrun. change (negb (0 =? 0)) with false in Hrun.
  unfold mbind, CM_bind, mret, CM_ret, ask, upd_state, lift in Hrun. cbn [proc state cpu warnmap] in Hrun.
  destruct (_ || _); [by injection Hrun as _ <-|]. cbv zeta in Hrun. cbn [proc state cpu warnmap] in Hrun.
  destruct (sigaction _ _ _ _) as [r' p']. by injection Hrun as _ <-.
Qed.

(** [rt_sigaction] for the guest: an action that was set is returned by a
    later query, unchanged by the handler the host got instead; the actions of
    other signals are kept, and an invalid signal number is refused without
    effect. *)
Theorem sigaction_roundtrip {W} `{Kernel W} link sig nact oact (c c1 c2 : Client W) r :
  mem_ok (mem (proc c)) -> nact <> 0 -> oact <> 0 ->
  (1 <= sig <= 64 -> signal_sigaction link sig nact 0 c = (Done r, c1) ->
   signal_sigaction link sig 0 oact c1 = (Done 0, c2) ->
   load_act (mem (proc c2)) oact = load_act (mem (proc c)) nact /\
   (forall i, i <> sig - 1 -> sigact_at (state c2) i = sigact_at (state c) i)) /\
  (~ (1 <= sig <= 64) -> signal_sigaction link sig nact oact c = (Done (- EINVAL), c)).
Proof.
  intros Hm Hn Ho. split.
  - intros Hs Hset Hget. apply sigaction_stores in Hset as [Hst _]; [|done|done].
    unfold signal_sigaction, NSIG in Hget.
    rewrite (proj2 (Z.leb_gt sig 0)), (proj2 (Z.ltb_ge 64 sig)), (proj2 (Z.eqb_neq oact 0)) in Hget by (done || lia).
    cbn [orb negb] in Hget. change (0 =? 0) with true in Hget.
    unfold mbind, CM_bind, mret, CM_ret, ask in Hget. rewrite upd_mem_run in Hget. cbv iota in Hget.
    injection Hget as <-. cbn [proc mem set_mem state]. rewrite Hst. split.
    + rewrite sigact_set, decide_True by done.
      destruct (load_act_range (mem (proc c)) nact Hm) as (R1 & R2 & R3 & R4). by apply load_store_act.
    + intros i Hi. by rewrite sigact_set, decide_False.
  - intros Hs. unfold signal_sigaction, NSIG.
    destruct (Z.leb_spec sig 0), (Z.ltb_spec 64 sig); cbn [orb]; done || lia.
Qed.

Lemma sigaction_roundtrip_witness :
  let c1 := (signal_sigaction (fun _ => 0x700000) 10 0x5000 0 sig_client).2 in
  let c2 := (signal_sigaction (fun _ => 0x700000) 10 0 0x6000 c1).2 in
  load_act (mem (proc c2)) 0x6000 = load_act (mem (proc sig_client)) 0x5000.
Proof.
  intros c1 c2.
  destruct (sigaction_roundtrip (fun _ => 0x700000) 10 0x5000 0x6000 sig_client c1 c2 (- ENOSYS)) as [T _].
  - apply mem_ok_storeZ. apply map_Forall_empty.
  - discriminate.
  - discriminate.
  - apply T; [lia|..]; (apply injective_projections; [vm_compute; reflexivity | reflexivity]).
Defined.
