(* ===== verification/Emulate.v ===== *)
(** * Emulated system calls, [client/emulate.c]

    System calls and [cpuid] of the guest.  A guest call is passed on to the
    host under the host's own number, replaced by a newer call, converted (the
    layouts of [struct stat] differ), or answered from the emulator's state. *)

From Stdlib Require Import ZArith Lia String.
From stdpp Require Import base numbers list list_numbers option gmap.
From S2P Require Import Prelude Machine Minilibc Printf RtldReloc RtldElf Translator State Signals.

(** ** Flags of [openat] *)

(** The flags that differ between the architectures, as the AArch64 host
    defines them. *)
Definition O_DIRECTORY_A64 : Z := 0x4000.
Definition O_NOFOLLOW_A64 : Z := 0x8000.
Definition O_DIRECT_A64 : Z := 0x10000.
Definition O_LARGEFILE_A64 : Z := 0x20000.

(** [00740000], [00040000], ... *)
Definition OPEN_SWAPPED : Z := 0x3c000.

Definition emulate_openat_flags (uapi_flags : Z) : Z :=
  let res := Z.land uapi_flags (u32 (Z.lnot OPEN_SWAPPED)) in
  let res := if negb (Z.land uapi_flags 0x4000 =? 0) then Z.lor res O_DIRECT_A64 else res in
  let res := if negb (Z.land uapi_flags 0x8000 =? 0) then Z.lor res O_LARGEFILE_A64 else res in
  let res := if negb (Z.land uapi_flags 0x10000 =? 0) then Z.lor res O_DIRECTORY_A64 else res in
  let res := if negb (Z.land uapi_flags 0x20000 =? 0) then Z.lor res O_NOFOLLOW_A64 else res in
  res.

(** The [openat] case of [emulate_aarch64_syscall]. *)
Definition aarch64_openat_flags (a2 : Z) : Z :=
  let new_a2 := Z.land a2 (u64 (Z.lnot OPEN_SWAPPED)) in
  let new_a2 := if negb (Z.land a2 0x4000 =? 0) then Z.lor new_a2 0x10000 else new_a2 in
  let new_a2 := if negb (Z.land a2 0x8000 =? 0) then Z.lor new_a2 0x20000 else new_a2 in
  let new_a2 := if negb (Z.land a2 0x10000 =? 0) then Z.lor new_a2 0x4000 else new_a2 in
  let new_a2 := if negb (Z.land a2 0x20000 =? 0) then Z.lor new_a2 0x8000 else new_a2 in
  new_a2.

(** ** [cpuid] *)

(** The four words of [struct CpuidResult]: eax, ecx, edx, ebx. *)
Definition emulate_cpuid (rax rcx : Z) : list Z :=
  if rax =? 0 then [7; 0x6c65746e; 0x49656e69; 0x756e6547]
  else if rax =? 1 then [0; 0x00400000; 0x07808141; 0]
  else if rax =? 2 then [0x80000001; 0x000000ec; 0x80000000; 0x80000000]
  else if rax =? 3 then [0; 0; 0; 0]
  else if rax =? 4 then [0; 0; 0; 0]
  else if rax =? 5 then [0; 0; 0; 0]
  else if rax =? 6 then [0; 0; 0; 0]
  else if rcx =? 0 then [0; 0; 0; 0x00002200]
  else [0; 0; 0; 0].

(** ** [struct stat] *)

Module Stat.

Inductive StatField :=
  | st_dev | st_ino | st_nlink | st_mode | st_uid | st_gid | st_rdev | st_size | st_blksize
  | st_blocks | st_atime | st_atime_nsec | st_mtime | st_mtime_nsec | st_ctime | st_ctime_nsec.

(** Offset and size of a field in the layout of x86-64 and in the generic
    layout, which AArch64 and RISC-V use. *)
Definition stat_x86 (f : StatField) : Z * Z :=
  match f with
  | st_dev => (0, 8) | st_ino => (8, 8) | st_nlink => (16, 8) | st_mode => (24, 4)
  | st_uid => (28, 4) | st_gid => (32, 4) | st_rdev => (40, 8) | st_size => (48, 8)
  | st_blksize => (56, 8) | st_blocks => (64, 8) | st_atime => (72, 8) | st_atime_nsec => (80, 8)
  | st_mtime => (88, 8) | st_mtime_nsec => (96, 8) | st_ctime => (104, 8) | st_ctime_nsec => (112, 8)
  end.
Definition stat_generic (f : StatField) : Z * Z :=
  match f with
  | st_dev => (0, 8) | st_ino => (8, 8) | st_mode => (16, 4) | st_nlink => (20, 4)
  | st_uid => (24, 4) | st_gid => (28, 4) | st_rdev => (32, 8) | st_size => (48, 8)
  | st_blksize => (56, 4) | st_blocks => (64, 8) | st_atime => (72, 8) | st_atime_nsec => (80, 8)
  | st_mtime => (88, 8) | st_mtime_nsec => (96, 8) | st_ctime => (104, 8) | st_ctime_nsec => (112, 8)
  end.
Definition SIZEOF_STAT : Z := 144.

Definition host_stat (arch : Arch) : StatField -> Z * Z :=
  match arch with X86_64 => stat_x86 | AARCH64 => stat_generic end.

(** Sizes, times and block counts are signed. *)
Definition stat_signed (f : StatField) : bool :=
  match f with st_size | st_blksize | st_blocks => true | _ => false end.

Definition load_stat (layout : StatField -> Z * Z) (m : memory) (a : Z) (f : StatField) : Z :=
  let '(off, n) := layout f in
  let v := loadZ m (Z.to_nat n) (a + off) in
  if stat_signed f then swrap (8 * n) v else v.
Definition store_stat (layout : StatField -> Z * Z) (a : Z) (f : StatField) (v : Z) (m : memory) : memory :=
  let '(off, n) := layout f in storeZ m (Z.to_nat n) (a + off) v.

(** The assignments, in their order. *)
Definition stat_fields : list StatField :=
  [st_dev; st_ino; st_nlink; st_mode; st_uid; st_gid; st_rdev; st_size; st_blksize; st_blocks;
   st_atime; st_atime_nsec; st_mtime; st_mtime_nsec; st_ctime; st_ctime_nsec].
Fixpoint stat_copy (host guest : StatField -> Z * Z) (fs : list StatField) (tmp tgt : Z) (m : memory) : memory :=
  match fs with
  | [] => m
  | f :: fs' => stat_copy host guest fs' tmp tgt (store_stat guest tgt f (load_stat host m tmp f) m)
  end.

End Stat.

(** ** System call numbers that are passed on *)

(** [case N: nr = __NR_x; goto native;] of [emulate_syscall]. *)
Definition x86_native (arch : Arch) (nr : Z) : option Sysno :=
  match nr with
  | 0 => Some NR_read | 1 => Some NR_write | 3 => Some NR_close | 8 => Some NR_lseek
  | 9 => Some NR_mmap | 10 => Some NR_mprotect | 11 => Some NR_munmap | 12 => Some NR_brk
  | 16 => Some NR_ioctl | 17 => Some NR_pread64 | 18 => Some NR_pwrite64 | 19 => Some NR_readv
  | 20 => Some NR_writev
  | 23 => match arch with X86_64 => Some NR_select | AARCH64 => None end
  | 24 => Some NR_sched_yield | 25 => Some NR_mremap | 28 => Some NR_madvise | 32 => Some NR_dup
  | 39 => Some NR_getpid | 41 => Some NR_socket | 42 => Some NR_connect | 63 => Some NR_uname
  | 76 => Some NR_truncate | 77 => Some NR_ftruncate | 79 => Some NR_getcwd | 80 => Some NR_chdir
  | 81 => Some NR_fchdir | 91 => Some NR_fchmod | 96 => Some NR_gettimeofday | 97 => Some NR_getrlimit
  | 99 => Some NR_sysinfo | 102 => Some NR_getuid | 104 => Some NR_getgid | 107 => Some NR_geteuid
  | 108 => Some NR_getegid | 115 => Some NR_getgroups | 116 => Some NR_setgroups
  | 137 => Some NR_statfs | 161 => Some NR_chroot | 186 => Some NR_gettid | 191 => Some NR_getxattr
  | 192 => Some NR_lgetxattr | 193 => Some NR_fgetxattr | 202 => Some NR_futex
  | 217 => Some NR_getdents64 | 218 => Some NR_set_tid_address | 221 => Some NR_fadvise64
  | 228 => Some NR_clock_gettime | 229 => Some NR_clock_getres | 230 => Some NR_clock_nanosleep
  | 260 => Some NR_fchownat | 268 => Some NR_fchmodat | 270 => Some NR_pselect6 | 271 => Some NR_ppoll
  | 273 => Some NR_set_robust_list | 274 => Some NR_get_robust_list | 292 => Some NR_dup3
  | 293 => Some NR_pipe2 | 302 => Some NR_prlimit64 | 318 => Some NR_getrandom
  | _ => None
  end.

(** The same of [emulate_syscall_generic]. *)
Definition generic_native (nr : Z) : option Sysno :=
  match nr with
  | 17 => Some NR_getcwd | 23 => Some NR_dup | 24 => Some NR_dup3 | 29 => Some NR_ioctl
  | 35 => Some NR_unlinkat | 38 => Some NR_renameat | 46 => Some NR_ftruncate | 48 => Some NR_faccessat
  | 49 => Some NR_chdir | 50 => Some NR_fchdir | 51 => Some NR_chroot | 52 => Some NR_fchmod
  | 53 => Some NR_fchmodat | 54 => Some NR_fchownat | 55 => Some NR_fchown | 57 => Some NR_close
  | 59 => Some NR_pipe2 | 61 => Some NR_getdents64 | 62 => Some NR_lseek | 63 => Some NR_read
  | 64 => Some NR_write | 65 => Some NR_readv | 66 => Some NR_writev | 67 => Some NR_pread64
  | 68 => Some NR_pwrite64 | 73 => Some NR_ppoll | 78 => Some NR_readlinkat | 93 => Some NR_exit
  | 94 => Some NR_exit_group | 96 => Some NR_set_tid_address | 99 => Some NR_set_robust_list
  | 100 => Some NR_get_robust_list | 113 => Some NR_clock_gettime | 114 => Some NR_clock_getres
  | 115 => Some NR_clock_nanosleep | 124 => Some NR_sched_yield | 131 => Some NR_tgkill
  | 169 => Some NR_gettimeofday | 172 => Some NR_getpid | 173 => Some NR_getppid | 174 => Some NR_getuid
  | 175 => Some NR_geteuid | 176 => Some NR_getgid | 177 => Some NR_getegid | 178 => Some NR_gettid
  | 179 => Some NR_sysinfo | 214 => Some NR_brk | 215 => Some NR_munmap | 216 => Some NR_mremap
  | 222 => Some NR_mmap | 223 => Some NR_fadvise64 | 226 => Some NR_mprotect | 233 => Some NR_madvise
  | 260 => Some NR_wait4 | 261 => Some NR_prlimit64 | 276 => Some NR_renameat2 | 278 => Some NR_getrandom
  | _ => None
  end.

(** [case F_DUPFD: ... case F_GETLK:] *)
Definition fcntl_known (x : Z) : bool :=
  existsb (Z.eqb x) [0; 1030; 1; 2; 3; 4; 8; 6; 7; 5].

(** ** Calling the host *)

Section Emulate.
Context {W : Type} `{Kernel W}.
Context (arch : Arch) (link : string -> Z).

(** What the compiler makes of [1 << n] for an [int] and [n >= 31], which C
    leaves undefined. *)
Context (ub_shift : Z -> Z).

(** [syscall(nr, arg0, ..., arg5)] of [minilibc.c]; [exit] and [exit_group] end
    the process. *)
Definition host_call (nr : Sysno) (args : list Z) : CM W Z :=
  r ← lift (syscall nr args);
  match nr with
  | NR_exit | NR_exit_group => stop (Exit (s32 (default 0 (head args))))
  | _ => mret (s64 r)
  end.

Definition int_shift (n : Z) : Z := if n <? 31 then Z.shiftl 1 n else ub_shift n.

(** The warning is printed once per call number, which [warnmap] records. *)
Definition unhandled_syscall (nr arg0 arg1 arg2 arg3 arg4 arg5 : Z) : CM W Z :=
  w ← ask (fun c => default 0 (warnmap c !! (nr / 64)));
  let bit := u64 (int_shift (nr `mod` 64)) in
  let known := nr <? 1024 in
  if known && negb (Z.land w bit =? 0) then mret (- ENOSYS)
  else
    (if (known : bool)
     then fun c => (Done tt, mkClient (proc c) (state c) (cpu c) (<[nr / 64 := Z.lor w bit]> (warnmap c)))
     else mret tt);;
    lift (dprintf 2 (bytes_of_string "unhandled syscall %u (%lx %lx %lx %lx %lx %lx) = -ENOSYS" ++
                     line " -- please file a bug with these numbers and the architecture")
            [VInt nr; VInt arg0; VInt arg1; VInt arg2; VInt arg3; VInt arg4; VInt arg5]);;
    mret (- ENOSYS).

(** [fcntl]: the test is on [arg0]. *)
Definition emulate_fcntl (nr : Z) (args : list Z) : CM W Z :=
  match args with
  | [arg0; arg1; arg2; arg3; arg4; arg5] =>
      if fcntl_known arg0 then host_call NR_fcntl args
      else unhandled_syscall nr arg0 arg1 arg2 arg3 arg4 arg5
  | _ => mret (- ENOSYS)
  end.

(** [fstat_common]: after the host call [call] on a local [struct stat], convert
    it to the guest's layout at [tgt] if it succeeded. *)
Definition emulate_stat (guest : Stat.StatField -> Z * Z) (call : Z -> Sysno * list Z) (tgt : Z) : CM W Z :=
  lift (with_local Stat.SIZEOF_STAT (fun tmp =>
    let '(nr, args) := call tmp in
    r ← syscall nr args;
    (if s64 r =? 0
     then modify (fun p => set_mem (Stat.stat_copy (Stat.host_stat arch) guest Stat.stat_fields tmp tgt (mem p)) p)
     else mret tt);;
    mret (s64 r))).

Definition AT_FDCWD_ARG : Z := u64 AT_FDCWD.
Definition AT_REMOVEDIR : Z := 0x200.
Definition AT_SYMLINK_NOFOLLOW : Z := 0x100.

Definition host_openat (arg0 arg1 arg2 arg3 arg4 arg5 : Z) : CM W Z :=
  let arg2 := match arch with X86_64 => arg2 | AARCH64 => emulate_openat_flags (u32 arg2) end in
  host_call NR_openat [arg0; arg1; arg2; arg3; arg4; arg5].

(** Signal calls: the numbers differ, the cases do not. *)
Definition with_sigsetsize (size : Z) (c : CM W Z) : CM W Z :=
  if negb (size =? SIZEOF_SIGSET) then mret (- EINVAL) else c.

(** ** x86-64 guests *)

(** Calls replaced by newer ones. *)
Definition x86_replaced (nr arg0 arg1 arg2 : Z) : option (Sysno * list Z) :=
  match nr with
  | 21 => Some (NR_faccessat, [AT_FDCWD_ARG; arg0; arg1; 0; 0; 0])
  | 22 => Some (NR_pipe2, [arg0; 0; 0; 0; 0; 0])
  | 82 => Some (NR_renameat, [AT_FDCWD_ARG; arg0; AT_FDCWD_ARG; arg1; 0; 0])
  | 83 => Some (NR_mkdirat, [AT_FDCWD_ARG; arg0; arg1; 0; 0; 0])
  | 84 => Some (NR_unlinkat, [AT_FDCWD_ARG; arg0; AT_REMOVEDIR; 0; 0; 0])
  | 87 => Some (NR_unlinkat, [AT_FDCWD_ARG; arg0; 0; 0; 0; 0])
  | 89 => Some (NR_readlinkat, [AT_FDCWD_ARG; arg0; arg1; arg2; 0; 0])
  | 90 => Some (NR_fchmodat, [AT_FDCWD_ARG; arg0; arg1; 0; 0; 0])
  | 92 => Some (NR_fchownat, [AT_FDCWD_ARG; arg0; arg1; arg2; 0; 0])
  | 94 => Some (NR_fchownat, [AT_FDCWD_ARG; arg0; arg1; arg2; AT_SYMLINK_NOFOLLOW; 0])
  | 34 => Some (NR_ppoll, [0; 0; 0; 0; 0; 0])
  | _ => None
  end.

(** [newfstatat], [stat], [fstat], [lstat]: the host call and the target. *)
Definition x86_stat (nr arg0 arg1 arg2 arg3 : Z) : option ((Z -> Sysno * list Z) * Z) :=
  match nr with
  | 262 => Some (fun tmp => (NR_newfstatat, [arg0; arg1; tmp; arg3; 0; 0]), arg2)
  | 4 => Some (fun tmp => (NR_newfstatat, [AT_FDCWD_ARG; arg0; tmp; 0; 0; 0]), arg1)
  | 5 => Some (fun tmp => (NR_fstat, [arg0; tmp; 0; 0; 0; 0]), arg1)
  | 6 => Some (fun tmp => (NR_newfstatat, [AT_FDCWD_ARG; arg0; tmp; AT_SYMLINK_NOFOLLOW; 0; 0]), arg1)
  | _ => None
  end.

Definition x86_poll (arg0 arg1 arg2 : Z) : CM W Z :=
  if 0 <=? s64 arg2 then
    r ← lift (with_local 16 (fun ts =>
      modify (fun p => set_mem (storeZ (storeZ (mem p) 8 ts (arg2 / 1000)) 8 (ts + 8)
                                  (arg2 `mod` 1000 * 1000000)) p);;
      syscall NR_ppoll [arg0; arg1; ts; 0; NSIG / 8; 0]));
    mret (s64 r)
  else host_call NR_ppoll [arg0; arg1; 0; 0; NSIG / 8; 0].

Definition x86_dup2 (arg0 arg1 : Z) : CM W Z :=
  if arg0 =? arg1 then
    res ← host_call NR_fcntl [arg0; F_GETFL; 0; 0; 0; 0];
    mret (if 0 <=? res then s64 arg1 else res)
  else host_call NR_dup3 [arg0; arg1; 0; 0; 0; 0].

Definition x86_arch_prctl (arg0 arg1 : Z) : CM W Z :=
  if arg0 =? 0x1001 then upd_cpu (set_reg 19 arg1);; mret 0
  else if arg0 =? 0x1002 then upd_cpu (set_reg 18 arg1);; mret 0
  else mret (- EINVAL).

Definition CLOCK_REALTIME_COARSE : Z := 5.
Definition x86_time (arg0 : Z) : CM W Z :=
  lift (with_local 16 (fun ts =>
    clock_gettime CLOCK_REALTIME_COARSE ts;;
    m ← gets mem;
    let tv_sec := s64 (loadZ m 8 ts) in
    (if negb (arg0 =? 0) then modify (fun p => set_mem (storeZ (mem p) 8 arg0 tv_sec) p) else mret tt);;
    mret tv_sec)).

Definition x86_exit_group (args : list Z) : CM W Z :=
  s ← ask state;
  (if negb (tc_profile (tc s) =? 0) then
     lift (dprintf 2 (line "Rewriting %u bytes took %u ms")
             [VInt (u32 (written_bytes (translator s))); VInt (u32 (rew_time s / 1000000))]);;
     mret tt
   else mret tt);;
  host_call NR_exit_group args.

(** The other cases; [None] for [rt_sigreturn], which has no result. *)
Definition x86_special (nr arg0 arg1 arg2 arg3 arg4 arg5 : Z) : CM W (option Z) :=
  let args := [arg0; arg1; arg2; arg3; arg4; arg5] in
  match nr with
  | 2 => res ← host_openat AT_FDCWD_ARG arg0 arg1 arg2 arg4 arg5; mret (Some res)
  | 257 => res ← host_openat arg0 arg1 arg2 arg3 arg4 arg5; mret (Some res)
  | 7 => res ← x86_poll arg0 arg1 arg2; mret (Some res)
  | 33 => res ← x86_dup2 arg0 arg1; mret (Some res)
  | 72 => res ← emulate_fcntl nr args; mret (Some res)
  | 157 => mret (Some (- EINVAL))
  | 158 => res ← x86_arch_prctl arg0 arg1; mret (Some res)
  | 201 => res ← x86_time arg0; mret (Some res)
  | 231 => res ← x86_exit_group args; mret (Some res)
  | 203 | 204 | 334 => mret (Some (- ENOSYS))
  | 13 => res ← with_sigsetsize arg3 (signal_sigaction link (s32 arg0) arg1 arg2); mret (Some res)
  | 14 => res ← with_sigsetsize arg3 (signal_sigprocmask (s32 arg0) arg1 arg2); mret (Some res)
  | 15 => signal_sigreturn link;; mret None
  | 127 => res ← with_sigsetsize arg1 (host_call NR_rt_sigpending [arg0; arg1; 0; 0; 0; 0]); mret (Some res)
  | 130 => res ← with_sigsetsize arg1 (host_call NR_rt_sigsuspend [arg0; arg1; 0; 0; 0; 0]); mret (Some res)
  | 131 => res ← signal_sigaltstack arg0 arg1; mret (Some res)
  | _ => res ← unhandled_syscall nr arg0 arg1 arg2 arg3 arg4 arg5; mret (Some res)
  end.

Definition x86_result (nr arg0 arg1 arg2 arg3 arg4 arg5 : Z) : CM W (option Z) :=
  match x86_native arch nr with
  | Some sysno => res ← host_call sysno [arg0; arg1; arg2; arg3; arg4; arg5]; mret (Some res)
  | None =>
      match x86_replaced nr arg0 arg1 arg2 with
      | Some (sysno, args) => res ← host_call sysno args; mret (Some res)
      | None =>
          match x86_stat nr arg0 arg1 arg2 arg3 with
          | Some (call, tgt) => res ← emulate_stat Stat.stat_x86 call tgt; mret (Some res)
          | None => x86_special nr arg0 arg1 arg2 arg3 arg4 arg5
          end
      end
  end.

(** [if (cpu_state->sigpending) signal_handle(cpu_state)]. *)
Definition handle_pending : CM W unit :=
  pending ← ask (fun c => sigpending (cpu c));
  if negb (pending =? 0) then signal_handle link else mret tt.

Definition emulate_syscall : CM W unit :=
  c ← ask cpu;
  res ← x86_result (reg c 1) (reg c 8) (reg c 7) (reg c 3) (reg c 11) (reg c 9) (reg c 10);
  match res with
  | None => mret tt
  | Some res => upd_cpu (set_reg 1 (u64 res));; handle_pending
  end.

(** ** Guests with the generic numbers *)

Definition generic_stat (nr arg0 arg1 arg2 arg3 : Z) : option ((Z -> Sysno * list Z) * Z) :=
  match nr with
  | 80 => Some (fun tmp => (NR_fstat, [arg0; tmp; 0; 0; 0; 0]), arg1)
  | 79 => Some (fun tmp => (NR_newfstatat, [arg0; arg1; tmp; arg3; 0; 0]), arg2)
  | _ => None
  end.

(** [char] is signed on x86-64 and unsigned on AArch64. *)
Definition char_value (b : Z) : Z := match arch with X86_64 => swrap 8 b | AARCH64 => b end.

(** The field [release] is the third of 65 bytes. *)
Definition generic_uname (arg0 : Z) : CM W Z :=
  res ← host_call NR_uname [arg0; 0; 0; 0; 0; 0];
  m ← ask (fun c => mem (proc c));
  let release := arg0 + 130 in
  (if (res =? 0) && (char_value (getb m release) <=? chr "4") && (getb m (release + 1) =? chr ".")
   then upd_mem (fun m => store_bytes m release (bytes_of_string "5.0.0" ++ [0]))
   else mret tt);;
  mret res.

Definition generic_special (nr arg0 arg1 arg2 arg3 arg4 arg5 : Z) : CM W (option Z) :=
  let args := [arg0; arg1; arg2; arg3; arg4; arg5] in
  match nr with
  | 25 => res ← emulate_fcntl nr args; mret (Some res)
  | 56 => res ← host_openat arg0 arg1 arg2 arg3 arg4 arg5; mret (Some res)
  | 160 => res ← generic_uname arg0; mret (Some res)
  | 122 | 123 | 293 => mret (Some (- ENOSYS))
  | 134 => res ← with_sigsetsize arg3 (signal_sigaction link (s32 arg0) arg1 arg2); mret (Some res)
  | 135 => res ← with_sigsetsize arg3 (signal_sigprocmask (s32 arg0) arg1 arg2); mret (Some res)
  | 139 => signal_sigreturn link;; mret None
  | 136 => res ← with_sigsetsize arg1 (host_call NR_rt_sigpending [arg0; arg1; 0; 0; 0; 0]); mret (Some res)
  | 133 => res ← with_sigsetsize arg1 (host_call NR_rt_sigsuspend [arg0; arg1; 0; 0; 0; 0]); mret (Some res)
  | 132 => res ← signal_sigaltstack arg0 arg1; mret (Some res)
  | _ => res ← unhandled_syscall nr arg0 arg1 arg2 arg3 arg4 arg5; mret (Some res)
  end.

(** The result for [*resp]; [None] when [false] is returned. *)
Definition emulate_syscall_generic (nr arg0 arg1 arg2 arg3 arg4 arg5 : Z) : CM W (option Z) :=
  match generic_native nr with
  | Some sysno => res ← host_call sysno [arg0; arg1; arg2; arg3; arg4; arg5]; mret (Some res)
  | None =>
      match generic_stat nr arg0 arg1 arg2 arg3 with
      | Some (call, tgt) => res ← emulate_stat Stat.stat_generic call tgt; mret (Some res)
      | None => generic_special nr arg0 arg1 arg2 arg3 arg4 arg5
      end
  end.

(** The end of both functions below: the result goes to register [r]. *)
Definition generic_result (r : Z) (res : option Z) : CM W unit :=
  match res with
  | None => mret tt
  | Some res => upd_cpu (set_reg r (u64 res));; handle_pending
  end.

Definition emulate_rv64_syscall : CM W unit :=
  c ← ask cpu;
  res ← emulate_syscall_generic (reg c 18) (reg c 11) (reg c 12) (reg c 13) (reg c 14) (reg c 15) (reg c 16);
  generic_result 11 res.

Definition emulate_aarch64_syscall : CM W unit :=
  c ← ask cpu;
  let a2 := if reg c 10 =? 56 then aarch64_openat_flags (reg c 4) else reg c 4 in
  res ← emulate_syscall_generic (reg c 10) (reg c 2) (reg c 3) a2 (reg c 5) (reg c 6) (reg c 7);
  generic_result 2 res.

End Emulate.
