(* ===== verification/EmulateProofs.v ===== *)
(** * Properties of the emulated system calls *)

From Stdlib Require Import ZArith Lia String.
From stdpp Require Import base numbers list list_numbers option gmap.
From S2P Require Import Prelude Machine Loopback Minilibc Printf RtldTable RtldReloc RtldElf Translator State Dispatch DispatchProofs Signals Emulate.

(** ** Call numbers *)

(** The numbers of the Linux ABI, from [asm/unistd_64.h] and from
    [asm-generic/unistd.h]; -1 where the architecture has no such call. *)
Definition unistd_64 (s : Sysno) : Z :=
  match s with
  | NR_read => 0 | NR_write => 1 | NR_close => 3 | NR_lseek => 8 | NR_mmap => 9 | NR_mprotect => 10
  | NR_munmap => 11 | NR_brk => 12 | NR_ioctl => 16 | NR_pread64 => 17 | NR_pwrite64 => 18
  | NR_readv => 19 | NR_writev => 20 | NR_select => 23 | NR_sched_yield => 24 | NR_mremap => 25
  | NR_madvise => 28 | NR_dup => 32 | NR_dup3 => 292 | NR_getpid => 39 | NR_getppid => 110
  | NR_gettid => 186 | NR_socket => 41 | NR_connect => 42 | NR_uname => 63 | NR_truncate => 76
  | NR_ftruncate => 77 | NR_getcwd => 79 | NR_chdir => 80 | NR_fchdir => 81 | NR_fchmod => 91
  | NR_fchown => 93 | NR_gettimeofday => 96 | NR_getrlimit => 97 | NR_sysinfo => 99
  | NR_getuid => 102 | NR_getgid => 104 | NR_geteuid => 107 | NR_getegid => 108
  | NR_getgroups => 115 | NR_setgroups => 116 | NR_statfs => 137 | NR_chroot => 161
  | NR_getxattr => 191 | NR_lgetxattr => 192 | NR_fgetxattr => 193 | NR_futex => 202
  | NR_getdents64 => 217 | NR_set_tid_address => 218 | NR_fadvise64 => 221
  | NR_clock_gettime => 228 | NR_clock_getres => 229 | NR_clock_nanosleep => 230
  | NR_nanosleep => 35 | NR_fchownat => 260 | NR_fchmodat => 268 | NR_pselect6 => 270
  | NR_ppoll => 271 | NR_set_robust_list => 273 | NR_get_robust_list => 274 | NR_pipe2 => 293
  | NR_prlimit64 => 302 | NR_getrandom => 318 | NR_openat => 257 | NR_faccessat => 269
  | NR_renameat => 264 | NR_renameat2 => 316 | NR_mkdirat => 258 | NR_unlinkat => 263
  | NR_readlinkat => 267 | NR_newfstatat => 262 | NR_fstat => 5 | NR_fcntl => 72 | NR_exit => 60
  | NR_exit_group => 231 | NR_rt_sigaction => 13 | NR_rt_sigprocmask => 14
  | NR_rt_sigpending => 127 | NR_rt_sigsuspend => 130 | NR_kill => 62 | NR_tgkill => 234
  | NR_wait4 => 61 | NR_execve => 59 | NR_arch_prctl => 158
  end.
Definition unistd_generic (s : Sysno) : Z :=
  match s with
  | NR_read => 63 | NR_write => 64 | NR_close => 57 | NR_lseek => 62 | NR_mmap => 222
  | NR_mprotect => 226 | NR_munmap => 215 | NR_brk => 214 | NR_ioctl => 29 | NR_pread64 => 67
  | NR_pwrite64 => 68 | NR_readv => 65 | NR_writev => 66 | NR_select => -1 | NR_sched_yield => 124
  | NR_mremap => 216 | NR_madvise => 233 | NR_dup => 23 | NR_dup3 => 24 | NR_getpid => 172
  | NR_getppid => 173 | NR_gettid => 178 | NR_socket => 198 | NR_connect => 203 | NR_uname => 160
  | NR_truncate => 45 | NR_ftruncate => 46 | NR_getcwd => 17 | NR_chdir => 49 | NR_fchdir => 50
  | NR_fchmod => 52 | NR_fchown => 55 | NR_gettimeofday => 169 | NR_getrlimit => 163
  | NR_sysinfo => 179 | NR_getuid => 174 | NR_getgid => 176 | NR_geteuid => 175 | NR_getegid => 177
  | NR_getgroups => 158 | NR_setgroups => 159 | NR_statfs => 43 | NR_chroot => 51
  | NR_getxattr => 8 | NR_lgetxattr => 9 | NR_fgetxattr => 10 | NR_futex => 98
  | NR_getdents64 => 61 | NR_set_tid_address => 96 | NR_fadvise64 => 223 | NR_clock_gettime => 113
  | NR_clock_getres => 114 | NR_clock_nanosleep => 115 | NR_nanosleep => 101 | NR_fchownat => 54
  | NR_fchmodat => 53 | NR_pselect6 => 72 | NR_ppoll => 73 | NR_set_robust_list => 99
  | NR_get_robust_list => 100 | NR_pipe2 => 59 | NR_prlimit64 => 261 | NR_getrandom => 278
  | NR_openat => 56 | NR_faccessat => 48 | NR_renameat => 38 | NR_renameat2 => 276
  | NR_mkdirat => 34 | NR_unlinkat => 35 | NR_readlinkat => 78 | NR_newfstatat => 79
  | NR_fstat => 80 | NR_fcntl => 25 | NR_exit => 93 | NR_exit_group => 94 | NR_rt_sigaction => 134
  | NR_rt_sigprocmask => 135 | NR_rt_sigpending => 136 | NR_rt_sigsuspend => 133 | NR_kill => 129
  | NR_tgkill => 131 | NR_wait4 => 260 | NR_execve => 221 | NR_arch_prctl => -1
  end.

(** A guest call that is passed on is passed on as the same call: the tables
    of [emulate_syscall] and [emulate_syscall_generic] take the number of a
    call in the guest's ABI to that call. *)
Theorem native_numbers :
  (forall arch nr s, x86_native arch nr = Some s -> unistd_64 s = nr) /\
  (forall nr s, generic_native nr = Some s -> unistd_generic s = nr).
Proof.
  split.
  - intros arch nr s Hn. unfold x86_native in Hn.
    repeat (case_match; try discriminate); injection Hn as <-; reflexivity.
  - intros nr s Hn. unfold generic_native in Hn.
    repeat (case_match; try discriminate); injection Hn as <-; reflexivity.
Qed.

(** ** Flags *)

Lemma land_bit x k : 0 <= k -> negb (Z.land x (2 ^ k) =? 0) = Z.testbit x k.
Proof.
  intros Hk. assert (Z.land x (2 ^ k) = if Z.testbit x k then 2 ^ k else 0) as ->.
  { apply Z.bits_inj'. intros i Hi. rewrite Z.land_spec, Z.pow2_bits_eqb by lia.
    destruct (Z.eqb_spec k i) as [<- |Hn].
    - rewrite andb_true_r. destruct (Z.testbit x k); [rewrite Z.pow2_bits_eqb, Z.eqb_refl by lia; done|].
      by rewrite Z.bits_0.
    - rewrite andb_false_r. destruct (Z.testbit x k); [|by rewrite Z.bits_0].
      rewrite Z.pow2_bits_eqb by lia. symmetry. by apply Z.eqb_neq. }
  destruct (Z.testbit x k); [|done]. assert (0 < 2 ^ k) by lia. destruct (Z.eqb_spec (2 ^ k) 0); [lia|done].
Qed.

(** Bit [i] of the result, by the four swapped positions. *)
Definition swapped (i : Z) : Z :=
  if i =? 14 then 16 else if i =? 15 then 17 else if i =? 16 then 14 else if i =? 17 then 15 else i.

Lemma testbit_lor_if (b : bool) r k i :
  0 <= k -> 0 <= i ->
  Z.testbit (if b then Z.lor r (2 ^ k) else r) i = Z.testbit r i || (b && (k =? i)).
Proof.
  intros Hk Hi. destruct b; [|by rewrite orb_false_r].
  rewrite Z.lor_spec, Z.pow2_bits_eqb by lia. done.
Qed.

Lemma testbit_swapped_mask i :
  0 <= i -> Z.testbit OPEN_SWAPPED i = ((i =? 14) || (i =? 15) || (i =? 16) || (i =? 17)).
Proof.
  intros Hi. unfold OPEN_SWAPPED. change 0x3c000 with (Z.shiftl (Z.ones 4) 14).
  rewrite Z.shiftl_spec by lia. destruct (decide (14 <= i)) as [H1|H1].
  - destruct (decide (i < 18)) as [H2|H2].
    + rewrite Z.ones_spec_low by lia. symmetry. assert (i = 14 \/ i = 15 \/ i = 16 \/ i = 17) as Hc by lia.
      destruct Hc as [->|[->|[->| ->]]]; reflexivity.
    + rewrite Z.ones_spec_high by lia. symmetry. rewrite !(proj2 (Z.eqb_neq _ _)) by lia. done.
  - rewrite Z.testbit_neg_r by lia. symmetry. rewrite !(proj2 (Z.eqb_neq _ _)) by lia. done.
Qed.

(** The chain of the four tests, for both functions. *)
Definition swap_flags (w f : Z) : Z :=
  let r := Z.land f (wrap w (Z.lnot OPEN_SWAPPED)) in
  let r := if Z.testbit f 14 then Z.lor r (2 ^ 16) else r in
  let r := if Z.testbit f 15 then Z.lor r (2 ^ 17) else r in
  let r := if Z.testbit f 16 then Z.lor r (2 ^ 14) else r in
  if Z.testbit f 17 then Z.lor r (2 ^ 15) else r.

Lemma emulate_openat_flags_swap f : emulate_openat_flags f = swap_flags 32 f.
Proof.
  unfold emulate_openat_flags, swap_flags. cbv zeta.
  change 0x4000 with (2 ^ 14). change 0x8000 with (2 ^ 15). change 0x10000 with (2 ^ 16).
  change 0x20000 with (2 ^ 17). rewrite !land_bit by lia. done.
Qed.
Lemma aarch64_openat_flags_swap f : aarch64_openat_flags f = swap_flags 64 f.
Proof.
  unfold aarch64_openat_flags, swap_flags. cbv zeta.
  change (Z.land f 0x4000) with (Z.land f (2 ^ 14)). change (Z.land f 0x8000) with (Z.land f (2 ^ 15)).
  change (Z.land f 0x10000) with (Z.land f (2 ^ 16)). change (Z.land f 0x20000) with (Z.land f (2 ^ 17)).
  rewrite !land_bit by lia. done.
Qed.

Lemma swap_flags_bit w f i :
  18 <= w -> in_u w f -> 0 <= i -> Z.testbit (swap_flags w f) i = Z.testbit f (swapped i).
Proof.
  intros Hw Hf Hi. unfold swap_flags. cbv zeta. rewrite !testbit_lor_if by lia.
  rewrite Z.land_spec, testbit_wrap, Z.lnot_spec, testbit_swapped_mask by lia. unfold swapped.
  destruct (decide (14 <= i <= 17)) as [Hr|Hr].
  - rewrite (proj2 (Z.ltb_lt i w)) by lia.
    assert (i = 14 \/ i = 15 \/ i = 16 \/ i = 17) as Hc by lia.
    destruct Hc as [->|[->|[->| ->]]]; cbn [Z.eqb Pos.eqb orb andb negb];
      rewrite ?andb_false_r, ?andb_true_r, ?orb_false_r, ?orb_false_l; done.
  - rewrite !(proj2 (Z.eqb_neq _ _)) by lia. cbn [orb negb]. rewrite !andb_false_r, !orb_false_r.
    destruct (Z.ltb_spec i w); cbn [andb]; rewrite ?andb_true_r, ?andb_false_r; [done|].
    symmetry. apply (bits_above w); [lia|done|lia].
Qed.

Lemma swapped_invol i : swapped (swapped i) = i.
Proof.
  unfold swapped.
  destruct (Z.eqb_spec i 14) as [->|]; [done|]. destruct (Z.eqb_spec i 15) as [->|]; [done|].
  destruct (Z.eqb_spec i 16) as [->|]; [done|]. destruct (Z.eqb_spec i 17) as [->|]; [done|].
  rewrite !(proj2 (Z.eqb_neq _ _)) by done. done.
Qed.

(** [openat] flags between x86-64 and AArch64: the conversion exchanges
    O_DIRECT with O_DIRECTORY and O_LARGEFILE with O_NOFOLLOW and keeps all
    other bits; for an AArch64 guest on an AArch64 host the two conversions on
    the way to the kernel cancel out. *)
Theorem openat_flags_swap f :
  in_u 32 f ->
  (forall i, 0 <= i -> Z.testbit (emulate_openat_flags f) i = Z.testbit f (swapped i)) /\
  emulate_openat_flags (u32 (aarch64_openat_flags f)) = f.
Proof.
  intros Hf. assert (in_u 64 f) as Hf64 by (unfold in_u in *; lia). split.
  - intros i Hi. rewrite emulate_openat_flags_swap. apply swap_flags_bit; [lia|done|done].
  - rewrite emulate_openat_flags_swap, aarch64_openat_flags_swap.
    apply bits_eq. intros i Hi. rewrite swap_flags_bit; [|lia|apply wrap_range; lia|done].
    assert (0 <= swapped i) by (unfold swapped; repeat case_match; lia).
    rewrite testbit_wrap, swap_flags_bit, swapped_invol by (done || lia).
    destruct (Z.ltb_spec (swapped i) 32) as [Hlt|Hge]; cbn [andb]; rewrite ?andb_true_r, ?andb_false_r; [done|].
    symmetry. apply (bits_above 32); [lia|done|]. unfold swapped in Hge. repeat case_match; lia.
Qed.

Lemma openat_flags_swap_witness :
  emulate_openat_flags (u32 (aarch64_openat_flags 0x84241)) = 0x84241.
Proof. apply openat_flags_swap. unfold in_u. lia. Defined.

(** ** [struct stat] *)

Section Stat.
Import Stat.

#[local] Instance StatField_eq_dec : EqDecision StatField.
Proof. solve_decision. Defined.

(** Fields lie inside the structure and do not overlap. *)
Definition layout_ok (l : StatField -> Z * Z) : Prop :=
  (forall f, 0 <= (l f).1 /\ 0 < (l f).2 /\ (l f).1 + (l f).2 <= SIZEOF_STAT) /\
  (forall f g, f <> g -> (l f).1 + (l f).2 <= (l g).1 \/ (l g).1 + (l g).2 <= (l f).1).

Lemma stat_x86_ok : layout_ok stat_x86.
Proof.
  split; [intros []; unfold SIZEOF_STAT; cbn; lia|]. intros [] [] Hne; cbn; (lia || done).
Qed.
Lemma stat_generic_ok : layout_ok stat_generic.
Proof.
  split; [intros []; unfold SIZEOF_STAT; cbn; lia|]. intros [] [] Hne; cbn; (lia || done).
Qed.
Lemma host_stat_ok arch : layout_ok (host_stat arch).
Proof. destruct arch; [apply stat_x86_ok | apply stat_generic_ok]. Qed.

Lemma stat_fields_nodup : NoDup stat_fields.
Proof. apply (bool_decide_unpack _). vm_compute. done. Qed.
Lemma stat_fields_all f : f ∈ stat_fields.
Proof. destruct f; apply (bool_decide_unpack _); vm_compute; done. Qed.

Context (host guest : StatField -> Z * Z) (Hhost : layout_ok host) (Hguest : layout_ok guest).
Context (tmp tgt : Z) (Hapart : tmp + SIZEOF_STAT <= tgt \/ tgt + SIZEOF_STAT <= tmp).

(** The bytes of a field of the guest. *)
Definition raw (m : memory) (f : StatField) : Z :=
  loadZ m (Z.to_nat (guest f).2) (tgt + (guest f).1).

Lemma raw_store m f g v :
  raw (store_stat guest tgt f v m) g = if decide (f = g) then wrap (8 * (guest g).2) v else raw m g.
Proof.
  destruct Hguest as [Hin Hdis]. unfold raw, store_stat. destruct (guest f) as [off n] eqn:Ef.
  pose proof (Hin f) as Hf. pose proof (Hin g) as Hg. rewrite Ef in Hf. cbn [fst snd] in Hf.
  destruct (decide (f = g)) as [<- |Hne].
  - rewrite Ef. cbn [fst snd]. rewrite loadZ_storeZ. f_equal. lia.
  - apply loadZ_storeZ_disjoint. destruct (Hdis f g Hne) as [Hd|Hd]; rewrite Ef in Hd; cbn [fst snd] in Hd; lia.
Qed.

Lemma host_store m f g v : load_stat host (store_stat guest tgt f v m) tmp g = load_stat host m tmp g.
Proof.
  destruct Hguest as [Hin _]. destruct Hhost as [Hhin _]. unfold load_stat, store_stat.
  pose proof (Hin f) as Hf. pose proof (Hhin g) as Hg.
  destruct (guest f) as [off n], (host g) as [off' n']. cbn [fst snd] in *.
  rewrite loadZ_storeZ_disjoint by lia. done.
Qed.

Lemma stat_copy_spec fs m f :
  NoDup fs ->
  raw (stat_copy host guest fs tmp tgt m) f =
    if decide (f ∈ fs) then wrap (8 * (guest f).2) (load_stat host m tmp f) else raw m f.
Proof.
  intros Hnd. revert m. induction Hnd as [|g fs Hg Hnd IH]; intros m; cbn [stat_copy].
  - rewrite decide_False by apply not_elem_of_nil. done.
  - rewrite IH. destruct (decide (f ∈ fs)) as [Hin|Hni].
    + rewrite decide_True by (right; done). by rewrite host_store.
    + rewrite raw_store. destruct (decide (g = f)) as [->|Hne].
      * rewrite decide_True by left. done.
      * rewrite decide_False; [done|]. intros [->|]%elem_of_cons; done.
Qed.

Lemma stat_copy_outside fs m x :
  x < tgt \/ tgt + SIZEOF_STAT <= x -> getb (stat_copy host guest fs tmp tgt m) x = getb m x.
Proof.
  intros Hx. destruct Hguest as [Hin _]. revert m. induction fs as [|f fs IH]; intros m; cbn [stat_copy]; [done|].
  rewrite IH. unfold store_stat. pose proof (Hin f) as Hf. destruct (guest f) as [off n]. cbn [fst snd] in Hf.
  unfold storeZ. apply getb_store_out. rewrite length_le. lia.
Qed.

End Stat.


(** A kernel that fills in a [struct stat] and knows its process number. *)
#[global] Instance statk : Kernel unit := fun nr args st =>
  let '(m, w) := st in
  match nr, args with
  | NR_fstat, _ :: a :: _ => (0, (store_bytes m a (Z.of_nat <$> seq 1 144), w))
  | NR_getpid, _ => (1234, (m, w))
  | NR_write, [_; _; n] => (n, (m, w))
  | NR_rt_sigprocmask, _ => (0, (m, w))
  | _, _ => (- ENOSYS, (m, w))
  end.
Definition emu_client : Client unit :=
  mkClient (mkProc ∅ tt (mkArena 0 0 0 0) (mkArena 0 0 0 0) 4096 0x8000) (state disp_client) (cpu0 0x9000) ∅.

Definition fstat_call (tmp : Z) : Sysno * list Z := (NR_fstat, [1; tmp; 0; 0; 0; 0]).


(** ** Passing on *)

Definition not_exit (s : Sysno) : Prop := s <> NR_exit /\ s <> NR_exit_group.

Lemma host_call_run {W} `{Kernel W} s args (c : Client W) r p' :
  not_exit s -> syscall s args (proc c) = (r, p') ->
  host_call s args c = (Done (s64 r), mkClient p' (state c) (cpu c) (warnmap c)).
Proof.
  intros [H1 H2] Hs. unfold host_call, mbind, CM_bind, lift. rewrite Hs. by destruct s.
Qed.

Lemma x86_native_not_exit arch nr s : x86_native arch nr = Some s -> not_exit s.
Proof.
  intros Hn. unfold x86_native in Hn. split; intros ->; repeat (case_match; try discriminate).
Qed.

(** A call that is passed on from an x86-64 guest: the host kernel gets the
    six arguments from rdi, rsi, rdx, r10, r8 and r9, its result is in rax
    afterwards, and no other guest register and nothing else of the emulator's
    state changes. *)
Theorem x86_passed_on {W} `{Kernel W} arch link ub nr s (c : Client W) r p' :
  let u := cpu c in
  reg u 1 = nr -> x86_native arch nr = Some s -> sigpending u = 0 ->
  syscall s [reg u 8; reg u 7; reg u 3; reg u 11; reg u 9; reg u 10] (proc c) = (r, p') ->
  emulate_syscall arch link ub c =
    (Done tt, mkClient p' (state c) (set_reg 1 (u64 (s64 r)) u) (warnmap c)).
Proof.
  intros u Hnr Hs Hp Hsys. unfold emulate_syscall. unfold mbind at 1, CM_bind at 1, ask at 1. fold u.
  rewrite Hnr. unfold x86_result. rewrite Hs.
  pose proof (host_call_run s _ c r p' (x86_native_not_exit arch nr s Hs) Hsys) as Hh.
  unfold mbind, CM_bind. rewrite Hh. unfold mret, CM_ret. cbv beta iota.
  unfold upd_cpu. cbn [proc state cpu warnmap]. unfold handle_pending, mbind, CM_bind, ask.
  cbn [proc state cpu warnmap]. change (sigpending (set_reg _ _ (cpu c))) with (sigpending (cpu c)).
  fold u. rewrite Hp. done.
Qed.

Lemma x86_passed_on_witness :
  let c := mkClient (proc emu_client) (state emu_client) (set_reg 1 39 (cpu0 0x9000)) ∅ in
  reg (cpu (emulate_syscall X86_64 (fun _ => 0) (fun _ => 0) c).2) 1 = 1234.
Proof.
  intros c. rewrite (x86_passed_on X86_64 (fun _ => 0) (fun _ => 0) 39 NR_getpid c 1234 (proc c)).
  - vm_compute. reflexivity.
  - reflexivity.
  - reflexivity.
  - reflexivity.
  - apply injective_projections; reflexivity.
Defined.
