(* ===== verification/EmulateFrame.v ===== *)
(** * What emulation leaves alone

    Translated code calls the emulation functions and returns to the
    dispatcher, so they must not disturb what the dispatcher relies on.  The
    proof follows the structure of the code with one rule per construct.  It
    covers the emulation's own assignments: the client's state and the guest's
    registers are records apart from the memory of the process, so a system call
    that is passed on cannot reach them here, which in the real process it can
    when the guest hands the kernel an address of the client. *)

From Stdlib Require Import ZArith Lia String.
From stdpp Require Import base numbers list list_numbers option gmap.
From S2P Require Import Prelude Machine Loopback Minilibc Printf RtldTable RtldReloc RtldElf Translator State Dispatch DispatchProofs Signals SignalsProofs Emulate.

Section Frame.
Context {W : Type} `{Kernel W}.

(** [SIGKILL] and [SIGSTOP] are not blocked. *)
Definition unblocked (u : CpuState) : Prop :=
  Z.testbit (sigmask u) (SIGKILL - 1) = false /\ Z.testbit (sigmask u) (SIGSTOP - 1) = false.

(** The index, the connection and the configuration are the same, and so are
    the quick TLB and all guest registers but [ws]; the mask stays legal. *)
Record kept (ws : list Z) (c c' : Client W) : Prop := {
  kept_rtld : rtld (state c') = rtld (state c);
  kept_translator : translator (state c') = translator (state c);
  kept_tsc : tsc (state c') = tsc (state c);
  kept_tc : tc (state c') = tc (state c);
  kept_self : self (cpu c') = self (cpu c);
  kept_tlb : quick_tlb (cpu c') = quick_tlb (cpu c);
  kept_regs : forall i, ~ In i ws -> reg (cpu c') i = reg (cpu c) i;
  kept_mask : unblocked (cpu c) -> unblocked (cpu c') }.

#[global] Instance kept_refl ws : Reflexive (kept ws).
Proof. by intros c; constructor. Qed.
#[global] Instance kept_trans ws : Transitive (kept ws).
Proof.
  intros a b c [] []. constructor; try congruence; [|by auto].
  intros i Hi. rewrite kept_regs1 by done. by apply kept_regs0.
Qed.

Lemma kept_dispatch_ok ws m0 c c' : kept ws c c' -> dispatch_ok m0 c -> dispatch_ok m0 c'.
Proof.
  intros [Hr _ _ _ _ Ht _ _] (m & Hm & Hf & Hl & _). exists m. rewrite Hr. split; [done|]. split; [done|].
  split; [|done]. intros h. unfold tlb. rewrite Ht. apply Hl.
Qed.

(** ** A computation that keeps *)

Definition keeping (ws : list Z) {A} (x : CM W A) : Prop := forall c, kept ws c (x c).2.

Lemma keeping_ret ws {A} (a : A) : keeping ws (mret a).
Proof. by intros c. Qed.
Lemma keeping_bind ws {A B} (x : CM W A) (f : A -> CM W B) :
  keeping ws x -> (forall a, keeping ws (f a)) -> keeping ws (x ≫= f).
Proof.
  intros Hx Hf c. unfold mbind, CM_bind. specialize (Hx c). destruct (x c) as [[a|s|s|] c']; try exact Hx.
  by transitivity c'; [|apply Hf].
Qed.
Lemma keeping_lift ws {A} (f : ST (Proc W) A) : keeping ws (lift f).
Proof. intros c. unfold lift. by destruct (f (proc c)). Qed.
Lemma keeping_ask ws {A} (f : Client W -> A) : keeping ws (ask f).
Proof. by intros c. Qed.
Lemma keeping_stop ws {A} (o : outcome A) : keeping ws (stop o).
Proof. by intros c. Qed.
Lemma keeping_upd_mem ws f : keeping ws (upd_mem f).
Proof. apply keeping_lift. Qed.
Lemma keeping_set_reg ws i v : In i ws -> keeping ws (upd_cpu (set_reg i v)).
Proof.
  intros Hi c. constructor; try done. intros j Hj. unfold reg. cbn. rewrite lookup_insert_ne; [done|]. congruence.
Qed.
Lemma keeping_sigpending ws v : keeping ws (upd_cpu (set_sigpending v)).
Proof. by intros c. Qed.
Lemma keeping_siginfo ws v : keeping ws (upd_cpu (set_siginfo v)).
Proof. by intros c. Qed.
Lemma keeping_sigaltstack ws v : keeping ws (upd_cpu (set_sigaltstack v)).
Proof. by intros c. Qed.
Lemma keeping_sigact ws i a : keeping ws (upd_state (set_sigact i a)).
Proof. by intros c. Qed.
Lemma keeping_warnmap ws (f : Client W -> gmap Z Z) :
  keeping ws (fun c => (Done tt, mkClient (proc c) (state c) (cpu c) (f c))).
Proof. by intros c. Qed.
Lemma keeping_sigmask ws v :
  keeping ws (upd_cpu (set_sigmask (sigdelset (sigdelset v SIGKILL).2 SIGSTOP).2)).
Proof.
  intros c. constructor; try done. intros _. unfold unblocked. cbn [upd_cpu snd cpu set_sigmask sigmask].
  unfold SIGKILL, SIGSTOP. rewrite !sigdelset_bit by lia. by rewrite andb_false_r, andb_false_r.
Qed.
End Frame.

Create HintDb frame.
#[export] Hint Resolve keeping_ret keeping_lift keeping_ask keeping_stop keeping_upd_mem keeping_sigpending
  keeping_siginfo keeping_sigaltstack keeping_sigact keeping_warnmap keeping_sigmask : frame.
#[export] Hint Extern 1 (In _ _) => (cbn; tauto) : frame.
#[export] Hint Resolve keeping_set_reg : frame.

(** Down to the leaves, which the hints know. *)
Ltac frame :=
  repeat (cbv zeta; first
    [ lazymatch goal with
      | |- keeping _ (_ ≫= _) => apply keeping_bind; [|intros ?]
      | |- keeping _ (if ?b then _ else _) => destruct b
      | |- keeping _ (match ?x with _ => _ end) => destruct x
      end
    | solve [auto with frame] ]).

Section Emulation.
Context {W : Type} `{Kernel W}.
Context (arch : Arch) (link : string -> Z) (ub : Z -> Z).

Lemma abort_keeping ws {A} sig : keeping (W := W) ws (abort_with_signal (A := A) link sig).
Proof. unfold abort_with_signal. frame. Qed.
Hint Resolve abort_keeping : frame.
Lemma hostmask_keeping ws : keeping (W := W) ws (signal_update_hostmask).
Proof. unfold signal_update_hostmask. frame. Qed.
Hint Resolve hostmask_keeping : frame.
Lemma signal_handle_keeping ws : keeping (W := W) ws (signal_handle link).
Proof. unfold signal_handle. frame. Qed.
Hint Resolve signal_handle_keeping : frame.
Lemma sigreturn_keeping ws : keeping (W := W) ws (signal_sigreturn link).
Proof. unfold signal_sigreturn. frame. Qed.
Lemma sigaction_keeping ws sig n o : keeping (W := W) ws (signal_sigaction link sig n o).
Proof. unfold signal_sigaction. frame. Qed.
Lemma sigprocmask_keeping ws how s o : keeping (W := W) ws (signal_sigprocmask how s o).
Proof. unfold signal_sigprocmask. frame. Qed.
Lemma sigaltstack_keeping ws s o : keeping (W := W) ws (signal_sigaltstack s o).
Proof. unfold signal_sigaltstack. frame. Qed.
Lemma handler_keeping ws sig info ucp : keeping (W := W) ws (signal_handler arch link sig info ucp).
Proof. unfold signal_handler. frame. Qed.
Hint Resolve sigreturn_keeping sigaction_keeping sigprocmask_keeping sigaltstack_keeping : frame.

Lemma host_call_keeping ws nr args : keeping (W := W) ws (host_call nr args).
Proof. unfold host_call. apply keeping_bind; [apply keeping_lift|]. intros r. destruct nr; auto with frame. Qed.
Hint Resolve host_call_keeping : frame.
Lemma unhandled_keeping ws nr a0 a1 a2 a3 a4 a5 : keeping (W := W) ws (unhandled_syscall ub nr a0 a1 a2 a3 a4 a5).
Proof. unfold unhandled_syscall. frame. Qed.
Hint Resolve unhandled_keeping : frame.
Lemma fcntl_keeping ws nr args : keeping (W := W) ws (emulate_fcntl ub nr args).
Proof. unfold emulate_fcntl. frame. Qed.
Lemma stat_keeping ws guest call tgt : keeping (W := W) ws (emulate_stat arch guest call tgt).
Proof. unfold emulate_stat. frame. Qed.
Lemma openat_keeping ws a0 a1 a2 a3 a4 a5 : keeping (W := W) ws (host_openat arch a0 a1 a2 a3 a4 a5).
Proof. unfold host_openat. frame. Qed.
Lemma sigsetsize_keeping ws sz (x : CM W Z) : keeping ws x -> keeping ws (with_sigsetsize sz x).
Proof. intros Hx. unfold with_sigsetsize. frame. Qed.
Lemma handle_pending_keeping ws : keeping (W := W) ws (handle_pending link).
Proof. unfold handle_pending. frame. Qed.
Hint Resolve fcntl_keeping stat_keeping openat_keeping sigsetsize_keeping handle_pending_keeping : frame.

(** *** The cases of the guests *)

Lemma x86_special_keeping nr a0 a1 a2 a3 a4 a5 :
  keeping (W := W) [1; 18; 19] (x86_special arch link ub nr a0 a1 a2 a3 a4 a5).
Proof.
  assert (forall x : CM W Z, keeping [1; 18; 19] x -> keeping [1; 18; 19] (res ← x; mret (Some res))) as Hb by (intros; frame).
  assert (keeping [1; 18; 19] (x86_poll (W := W) a0 a1 a2)) by (unfold x86_poll; frame).
  assert (keeping [1; 18; 19] (x86_dup2 (W := W) a0 a1)) by (unfold x86_dup2; frame).
  assert (keeping [1; 18; 19] (x86_arch_prctl (W := W) a0 a1)) by (unfold x86_arch_prctl; frame).
  assert (keeping [1; 18; 19] (x86_time (W := W) a0)) by (unfold x86_time; frame).
  assert (keeping [1; 18; 19] (x86_exit_group (W := W) [a0; a1; a2; a3; a4; a5])) by (unfold x86_exit_group; frame).
  unfold x86_special. cbv zeta.
  repeat match goal with |- keeping _ (match ?x with _ => _ end) => destruct x end; try (apply Hb; auto with frame); frame.
Qed.

Lemma generic_special_keeping ws nr a0 a1 a2 a3 a4 a5 :
  keeping (W := W) ws (generic_special arch link ub nr a0 a1 a2 a3 a4 a5).
Proof.
  assert (forall x : CM W Z, keeping ws x -> keeping ws (res ← x; mret (Some res))) as Hb by (intros; frame).
  assert (keeping ws (generic_uname (W := W) arch a0)) by (unfold generic_uname; frame).
  unfold generic_special. cbv zeta.
  repeat match goal with |- keeping _ (match ?x with _ => _ end) => destruct x end; try (apply Hb; auto with frame); frame.
Qed.
Hint Resolve x86_special_keeping generic_special_keeping : frame.

Lemma emulate_syscall_keeping : keeping (W := W) [1; 18; 19] (emulate_syscall arch link ub).
Proof. unfold emulate_syscall, x86_result. frame. Qed.
Lemma emulate_generic_keeping ws nr a0 a1 a2 a3 a4 a5 :
  keeping (W := W) ws (emulate_syscall_generic arch link ub nr a0 a1 a2 a3 a4 a5).
Proof. unfold emulate_syscall_generic. frame. Qed.
Hint Resolve emulate_generic_keeping : frame.
Lemma emulate_rv64_keeping : keeping (W := W) [11] (emulate_rv64_syscall arch link ub).
Proof. unfold emulate_rv64_syscall, generic_result. frame. Qed.
Lemma emulate_aarch64_keeping : keeping (W := W) [2] (emulate_aarch64_syscall arch link ub).
Proof. unfold emulate_aarch64_syscall, generic_result. frame. Qed.
End Emulation.

(** As far as the client's own assignments go, emulating a system call, for each
    guest architecture, and handling a host signal keep what the dispatcher
    relies on: the code index, the server connection, the configuration and
    the quick TLB are not assigned to, of the guest registers only the result
    (and the segment bases on x86-64) are, and [SIGKILL] and [SIGSTOP] never
    become blocked; hence the invariant of the dispatch loop is preserved. *)
Theorem emulation_keeps {W} `{Kernel W} arch link ub (c : Client W) sig info ucp :
  let after := [([1; 18; 19], emulate_syscall arch link ub c); ([11], emulate_rv64_syscall arch link ub c);
                ([2], emulate_aarch64_syscall arch link ub c); ([], signal_handler arch link sig info ucp c)] in
  Forall (fun x => kept x.1 c x.2.2 /\ forall m0, dispatch_ok m0 c -> dispatch_ok m0 x.2.2) after.
Proof.
  assert (forall ws (x : CM W unit), keeping ws x ->
    kept ws c (x c).2 /\ forall m0, dispatch_ok m0 c -> dispatch_ok m0 (x c).2) as E.
  { intros ws x Hx. split; [apply Hx|]. intros m0. apply (kept_dispatch_ok ws), Hx. }
  apply Forall_cons_2; [apply E, emulate_syscall_keeping|]. apply Forall_cons_2; [apply E, emulate_rv64_keeping|].
  apply Forall_cons_2; [apply E, emulate_aarch64_keeping|]. apply Forall_cons_2; [apply E, handler_keeping|].
  apply Forall_nil_2.
Qed.
