(* ===== verification/Frvdec.v ===== *)
(** * RISC-V decoder and formatter, [subprojects/frvdec]

    [frv_decode] turns the bytes at a guest address into a [FrvInst], for
    32-bit and compressed instructions; [frv_format] prints one.  An instruction
    record is an out-parameter: fields that the C code does not assign keep
    their old value. *)

From Stdlib Require Import ZArith Lia String.
From stdpp Require Import base numbers list list_numbers option gmap.
From S2P Require Import Prelude Machine Minilibc.

(** ** [frvdec.h] *)

Definition FRV_RV32 : Z := 0.
Definition FRV_RV64 : Z := 1.
Definition FRV_RV128 : Z := 2.
Definition FRV_RVMSK : Z := 3.
Definition FRV_UNDEF : Z := -1.
Definition FRV_PARTIAL : Z := -2.
Definition FRV_REG_INV : Z := 255.

(** The mnemonics, an enumeration that starts at zero. *)
Definition FRV_INVALID : Z := 0.
Definition FRV_LB : Z := 1.
Definition FRV_LH : Z := 2.
Definition FRV_LW : Z := 3.
Definition FRV_LD : Z := 4.
Definition FRV_LBU : Z := 5.
Definition FRV_LHU : Z := 6.
Definition FRV_LWU : Z := 7.
Definition FRV_SB : Z := 8.
Definition FRV_SH : Z := 9.
Definition FRV_SW : Z := 10.
Definition FRV_SD : Z := 11.
Definition FRV_ADDI : Z := 12.
Definition FRV_SLLI : Z := 13.
Definition FRV_SLTI : Z := 14.
Definition FRV_SLTIU : Z := 15.
Definition FRV_XORI : Z := 16.
Definition FRV_SRAI : Z := 17.
Definition FRV_SRLI : Z := 18.
Definition FRV_ORI : Z := 19.
Definition FRV_ANDI : Z := 20.
Definition FRV_ADD : Z := 21.
Definition FRV_SLL : Z := 22.
Definition FRV_SLT : Z := 23.
Definition FRV_SLTU : Z := 24.
Definition FRV_XOR : Z := 25.
Definition FRV_SRL : Z := 26.
Definition FRV_OR : Z := 27.
Definition FRV_AND : Z := 28.
Definition FRV_SUB : Z := 29.
Definition FRV_SRA : Z := 30.
Definition FRV_FENCE : Z := 31.
Definition FRV_FENCEI : Z := 32.
Definition FRV_AUIPC : Z := 33.
Definition FRV_LUI : Z := 34.
Definition FRV_JAL : Z := 35.
Definition FRV_JALR : Z := 36.
Definition FRV_BEQ : Z := 37.
Definition FRV_BNE : Z := 38.
Definition FRV_BLT : Z := 39.
Definition FRV_BGE : Z := 40.
Definition FRV_BLTU : Z := 41.
Definition FRV_BGEU : Z := 42.
Definition FRV_ECALL : Z := 43.
Definition FRV_ADDIW : Z := 44.
Definition FRV_SLLIW : Z := 45.
Definition FRV_SRAIW : Z := 46.
Definition FRV_SRLIW : Z := 47.
Definition FRV_ADDW : Z := 48.
Definition FRV_SLLW : Z := 49.
Definition FRV_SRLW : Z := 50.
Definition FRV_SUBW : Z := 51.
Definition FRV_SRAW : Z := 52.
Definition FRV_MUL : Z := 53.
Definition FRV_MULH : Z := 54.
Definition FRV_MULHSU : Z := 55.
Definition FRV_MULHU : Z := 56.
Definition FRV_DIV : Z := 57.
Definition FRV_DIVU : Z := 58.
Definition FRV_REM : Z := 59.
Definition FRV_REMU : Z := 60.
Definition FRV_MULW : Z := 61.
Definition FRV_DIVW : Z := 62.
Definition FRV_DIVUW : Z := 63.
Definition FRV_REMW : Z := 64.
Definition FRV_REMUW : Z := 65.
Definition FRV_LRW : Z := 66.
Definition FRV_SCW : Z := 67.
Definition FRV_LRD : Z := 68.
Definition FRV_SCD : Z := 69.
Definition FRV_AMOADDW : Z := 70.
Definition FRV_AMOSWAPW : Z := 71.
Definition FRV_AMOXORW : Z := 72.
Definition FRV_AMOORW : Z := 73.
Definition FRV_AMOANDW : Z := 74.
Definition FRV_AMOMINW : Z := 75.
Definition FRV_AMOMAXW : Z := 76.
Definition FRV_AMOMINUW : Z := 77.
Definition FRV_AMOMAXUW : Z := 78.
Definition FRV_AMOADDD : Z := 79.
Definition FRV_AMOSWAPD : Z := 80.
Definition FRV_AMOXORD : Z := 81.
Definition FRV_AMOORD : Z := 82.
Definition FRV_AMOANDD : Z := 83.
Definition FRV_AMOMIND : Z := 84.
Definition FRV_AMOMAXD : Z := 85.
Definition FRV_AMOMINUD : Z := 86.
Definition FRV_AMOMAXUD : Z := 87.
Definition FRV_CSRRW : Z := 88.
Definition FRV_CSRRS : Z := 89.
Definition FRV_CSRRC : Z := 90.
Definition FRV_CSRRWI : Z := 91.
Definition FRV_CSRRSI : Z := 92.
Definition FRV_CSRRCI : Z := 93.
Definition FRV_FLW : Z := 94.
Definition FRV_FSW : Z := 95.
Definition FRV_FMVXW : Z := 96.
Definition FRV_FMVWX : Z := 97.
Definition FRV_FCLASSS : Z := 98.
Definition FRV_FMADDS : Z := 99.
Definition FRV_FMSUBS : Z := 100.
Definition FRV_FNMSUBS : Z := 101.
Definition FRV_FNMADDS : Z := 102.
Definition FRV_FADDS : Z := 103.
Definition FRV_FSUBS : Z := 104.
Definition FRV_FMULS : Z := 105.
Definition FRV_FDIVS : Z := 106.
Definition FRV_FSQRTS : Z := 107.
Definition FRV_FSGNJS : Z := 108.
Definition FRV_FSGNJNS : Z := 109.
Definition FRV_FSGNJXS : Z := 110.
Definition FRV_FMINS : Z := 111.
Definition FRV_FMAXS : Z := 112.
Definition FRV_FLES : Z := 113.
Definition FRV_FLTS : Z := 114.
Definition FRV_FEQS : Z := 115.
Definition FRV_FCVTWS : Z := 116.
Definition FRV_FCVTWUS : Z := 117.
Definition FRV_FCVTLS : Z := 118.
Definition FRV_FCVTLUS : Z := 119.
Definition FRV_FCVTSW : Z := 120.
Definition FRV_FCVTSWU : Z := 121.
Definition FRV_FCVTSL : Z := 122.
Definition FRV_FCVTSLU : Z := 123.
Definition FRV_FLD : Z := 124.
Definition FRV_FSD : Z := 125.
Definition FRV_FMVXD : Z := 126.
Definition FRV_FMVDX : Z := 127.
Definition FRV_FCLASSD : Z := 128.
Definition FRV_FMADDD : Z := 129.
Definition FRV_FMSUBD : Z := 130.
Definition FRV_FNMSUBD : Z := 131.
Definition FRV_FNMADDD : Z := 132.
Definition FRV_FADDD : Z := 133.
Definition FRV_FSUBD : Z := 134.
Definition FRV_FMULD : Z := 135.
Definition FRV_FDIVD : Z := 136.
Definition FRV_FSQRTD : Z := 137.
Definition FRV_FSGNJD : Z := 138.
Definition FRV_FSGNJND : Z := 139.
Definition FRV_FSGNJXD : Z := 140.
Definition FRV_FMIND : Z := 141.
Definition FRV_FMAXD : Z := 142.
Definition FRV_FLED : Z := 143.
Definition FRV_FLTD : Z := 144.
Definition FRV_FEQD : Z := 145.
Definition FRV_FCVTSD : Z := 146.
Definition FRV_FCVTDS : Z := 147.
Definition FRV_FCVTWD : Z := 148.
Definition FRV_FCVTWUD : Z := 149.
Definition FRV_FCVTLD : Z := 150.
Definition FRV_FCVTLUD : Z := 151.
Definition FRV_FCVTDW : Z := 152.
Definition FRV_FCVTDWU : Z := 153.
Definition FRV_FCVTDL : Z := 154.
Definition FRV_FCVTDLU : Z := 155.

Record FrvInst := mkFrv {
  mnem : Z; rd : Z; rs1 : Z; rs2 : Z; rs3 : Z; misc : Z; imm : Z }.

(** ** 32-bit instructions *)

(** The operands an encoding has, as bits. *)
Definition ENC_F_RD : Z := 1.
Definition ENC_F_RS1 : Z := 2.
Definition ENC_F_RS2 : Z := 4.
Definition ENC_F_RS3 : Z := 8.
Definition ENC_F_IMM_MASK : Z := 0x70.
Definition ENC_F_IMM_U : Z := 0x10.
Definition ENC_F_IMM_I : Z := 0x20.
Definition ENC_F_IMM_S : Z := 0x30.
Definition ENC_F_IMM_J : Z := 0x40.
Definition ENC_F_IMM_B : Z := 0x50.
Definition ENC_F_IMM_SHAMT : Z := 0x60.
Definition ENC_F_IMM_AMO : Z := 0x70.
Definition ENC_F_RM : Z := 0x80.
Definition ENC_R : Z := Z.lor (Z.lor ENC_F_RD ENC_F_RS1) ENC_F_RS2.
Definition ENC_R2 : Z := Z.lor ENC_F_RD ENC_F_RS1.
Definition ENC_R4 : Z := Z.lor (Z.lor (Z.lor ENC_F_RD ENC_F_RS1) ENC_F_RS2) ENC_F_RS3.
Definition ENC_I : Z := Z.lor (Z.lor ENC_F_RD ENC_F_RS1) ENC_F_IMM_I.
Definition ENC_I_SHAMT : Z := Z.lor (Z.lor ENC_F_RD ENC_F_RS1) ENC_F_IMM_SHAMT.
Definition ENC_S : Z := Z.lor (Z.lor ENC_F_RS1 ENC_F_RS2) ENC_F_IMM_S.
Definition ENC_B : Z := Z.lor (Z.lor ENC_F_RS1 ENC_F_RS2) ENC_F_IMM_B.
Definition ENC_U : Z := Z.lor ENC_F_RD ENC_F_IMM_U.
Definition ENC_J : Z := Z.lor ENC_F_RD ENC_F_IMM_J.

(** [(const uint16_t[n]) {...}[i]]: the elements after the last initialiser
    are zero. *)
Definition elem (l : list Z) (i : Z) : Z := default 0 (l !! Z.to_nat i).

(** Each switch yields the mnemonic and the encoding, or [None] for
    [return FRV_UNDEF]. *)
Definition frv_imm_op (funct3 funct7 : Z) : option (Z * Z) :=
  match funct3 with
  | 0 => Some (FRV_ADDI, ENC_I)
  | 1 => Some (FRV_SLLI, ENC_I_SHAMT)
  | 2 => Some (FRV_SLTI, ENC_I)
  | 3 => Some (FRV_SLTIU, ENC_I)
  | 4 => Some (FRV_XORI, ENC_I)
  | 5 => Some (if negb (Z.land funct7 0x20 =? 0) then FRV_SRAI else FRV_SRLI, ENC_I_SHAMT)
  | 6 => Some (FRV_ORI, ENC_I)
  | 7 => Some (FRV_ANDI, ENC_I)
  | _ => Some (0, 0)
  end.

Definition frv_imm_op32 (funct3 funct7 : Z) : option (Z * Z) :=
  match funct3 with
  | 0 => Some (FRV_ADDIW, ENC_I)
  | 1 => Some (FRV_SLLIW, ENC_I_SHAMT)
  | 5 => Some (if negb (Z.land funct7 0x20 =? 0) then FRV_SRAIW else FRV_SRLIW, ENC_I_SHAMT)
  | _ => None
  end.

Definition frv_amo (funct3 funct7 : Z) : option (Z * Z) :=
  let wd w d := Some (elem [0; 0; w; d; 0; 0; 0; 0] funct3, Z.lor ENC_R ENC_F_IMM_AMO) in
  match Z.shiftr funct7 2 with
  | 0x00 => wd FRV_AMOADDW FRV_AMOADDD
  | 0x01 => wd FRV_AMOSWAPW FRV_AMOSWAPD
  | 0x02 => wd FRV_LRW FRV_LRD
  | 0x03 => wd FRV_SCW FRV_SCD
  | 0x04 => wd FRV_AMOXORW FRV_AMOXORD
  | 0x08 => wd FRV_AMOORW FRV_AMOORD
  | 0x0c => wd FRV_AMOANDW FRV_AMOANDD
  | 0x10 => wd FRV_AMOMINW FRV_AMOMIND
  | 0x14 => wd FRV_AMOMAXW FRV_AMOMAXD
  | 0x18 => wd FRV_AMOMINUW FRV_AMOMINUD
  | 0x1c => wd FRV_AMOMAXUW FRV_AMOMAXUD
  | _ => None
  end.

Definition frv_op (funct3 funct7 : Z) : option (Z * Z) :=
  match funct7 with
  | 0x00 => Some (elem [FRV_ADD; FRV_SLL; FRV_SLT; FRV_SLTU; FRV_XOR; FRV_SRL; FRV_OR; FRV_AND] funct3, ENC_R)
  | 0x01 => Some (elem [FRV_MUL; FRV_MULH; FRV_MULHSU; FRV_MULHU; FRV_DIV; FRV_DIVU; FRV_REM; FRV_REMU] funct3, ENC_R)
  | 0x20 => Some (elem [FRV_SUB; 0; 0; 0; 0; FRV_SRA; 0; 0] funct3, ENC_R)
  | _ => None
  end.

Definition frv_op32 (funct3 funct7 : Z) : option (Z * Z) :=
  match funct7 with
  | 0x00 => Some (elem [FRV_ADDW; FRV_SLLW; 0; 0; 0; FRV_SRLW; 0; 0] funct3, ENC_R)
  | 0x01 => Some (elem [FRV_MULW; 0; 0; 0; FRV_DIVW; FRV_DIVUW; FRV_REMW; FRV_REMUW] funct3, ENC_R)
  | 0x20 => Some (elem [FRV_SUBW; 0; 0; 0; 0; FRV_SRAW; 0; 0] funct3, ENC_R)
  | _ => None
  end.

(** Floating point; [rs2f] is the field of the second source register, which
    selects the conversion. *)
Definition frv_fp (funct3 funct7 rs2f : Z) : option (Z * Z) :=
  let r_rm := Z.lor ENC_R ENC_F_RM in
  let r2_rm := Z.lor ENC_R2 ENC_F_RM in
  match funct7 with
  | 0x00 => Some (FRV_FADDS, r_rm)
  | 0x01 => Some (FRV_FADDD, r_rm)
  | 0x04 => Some (FRV_FSUBS, r_rm)
  | 0x05 => Some (FRV_FSUBD, r_rm)
  | 0x08 => Some (FRV_FMULS, r_rm)
  | 0x09 => Some (FRV_FMULD, r_rm)
  | 0x0c => Some (FRV_FDIVS, r_rm)
  | 0x0d => Some (FRV_FDIVD, r_rm)
  | 0x20 => Some (elem [0; FRV_FCVTSD] rs2f, r2_rm)
  | 0x21 => Some (elem [FRV_FCVTDS] rs2f, r2_rm)
  | 0x2c => Some (FRV_FSQRTS, r2_rm)
  | 0x2d => Some (FRV_FSQRTD, r2_rm)
  | 0x10 => Some (elem [FRV_FSGNJS; FRV_FSGNJNS; FRV_FSGNJXS; 0; 0; 0; 0; 0] funct3, ENC_R)
  | 0x11 => Some (elem [FRV_FSGNJD; FRV_FSGNJND; FRV_FSGNJXD; 0; 0; 0; 0; 0] funct3, ENC_R)
  | 0x14 => Some (elem [FRV_FMINS; FRV_FMAXS; 0; 0; 0; 0; 0; 0] funct3, ENC_R)
  | 0x15 => Some (elem [FRV_FMIND; FRV_FMAXD; 0; 0; 0; 0; 0; 0] funct3, ENC_R)
  | 0x50 => Some (elem [FRV_FLES; FRV_FLTS; FRV_FEQS; 0; 0; 0; 0; 0] funct3, ENC_R)
  | 0x51 => Some (elem [FRV_FLED; FRV_FLTD; FRV_FEQD; 0; 0; 0; 0; 0] funct3, ENC_R)
  | 0x60 => Some (elem [FRV_FCVTWS; FRV_FCVTWUS; FRV_FCVTLS; FRV_FCVTLUS] rs2f, r2_rm)
  | 0x61 => Some (elem [FRV_FCVTWD; FRV_FCVTWUD; FRV_FCVTLD; FRV_FCVTLUD] rs2f, r2_rm)
  | 0x68 => Some (elem [FRV_FCVTSW; FRV_FCVTSWU; FRV_FCVTSL; FRV_FCVTSLU] rs2f, r2_rm)
  | 0x69 => Some (elem [FRV_FCVTDW; FRV_FCVTDWU; FRV_FCVTDL; FRV_FCVTDLU] rs2f, r2_rm)
  | 0x70 => Some (elem [FRV_FMVXW; FRV_FCLASSS; 0; 0; 0; 0; 0; 0] funct3, ENC_R2)
  | 0x71 => Some (elem [FRV_FMVXD; FRV_FCLASSD; 0; 0; 0; 0; 0; 0] funct3, ENC_R2)
  | 0x78 => Some (elem [FRV_FMVWX; 0; 0; 0; 0; 0; 0; 0] funct3, ENC_R2)
  | 0x79 => Some (elem [FRV_FMVDX; 0; 0; 0; 0; 0; 0; 0] funct3, ENC_R2)
  | _ => None
  end.

(** [switch (opcode)]. *)
Definition frv_switch4 (inst opcode funct3 funct7 : Z) : option (Z * Z) :=
  let r4_rm := Z.lor ENC_R4 ENC_F_RM in
  match opcode with
  | 0x00 => Some (elem [FRV_LB; FRV_LH; FRV_LW; FRV_LD; FRV_LBU; FRV_LHU; FRV_LWU; 0] funct3, ENC_I)
  | 0x01 => Some (elem [0; 0; FRV_FLW; FRV_FLD; 0; 0; 0; 0] funct3, ENC_I)
  | 0x03 => Some (elem [FRV_FENCE; FRV_FENCEI; 0; 0; 0; 0; 0; 0] funct3, ENC_I)
  | 0x04 => frv_imm_op funct3 funct7
  | 0x05 => Some (FRV_AUIPC, ENC_U)
  | 0x06 => frv_imm_op32 funct3 funct7
  | 0x08 => Some (elem [FRV_SB; FRV_SH; FRV_SW; FRV_SD; 0; 0; 0; 0] funct3, ENC_S)
  | 0x09 => Some (elem [0; 0; FRV_FSW; FRV_FSD; 0; 0; 0; 0] funct3, ENC_S)
  | 0x0b => frv_amo funct3 funct7
  | 0x0c => frv_op funct3 funct7
  | 0x0d => Some (FRV_LUI, ENC_U)
  | 0x0e => frv_op32 funct3 funct7
  | 0x10 => Some (elem [FRV_FMADDS; FRV_FMADDD] (ubfx inst 25 26), r4_rm)
  | 0x11 => Some (elem [FRV_FMSUBS; FRV_FMSUBD] (ubfx inst 25 26), r4_rm)
  | 0x12 => Some (elem [FRV_FNMSUBS; FRV_FNMSUBD] (ubfx inst 25 26), r4_rm)
  | 0x13 => Some (elem [FRV_FNMADDS; FRV_FNMADDD] (ubfx inst 25 26), r4_rm)
  | 0x14 => frv_fp funct3 funct7 (ubfx inst 20 24)
  | 0x18 => Some (elem [FRV_BEQ; FRV_BNE; 0; 0; FRV_BLT; FRV_BGE; FRV_BLTU; FRV_BGEU] funct3, ENC_B)
  | 0x19 => Some (FRV_JALR, ENC_I)
  | 0x1b => Some (FRV_JAL, ENC_J)
  | 0x1c => Some (elem [FRV_ECALL; FRV_CSRRW; FRV_CSRRS; FRV_CSRRC; 0; FRV_CSRRWI; FRV_CSRRSI; FRV_CSRRCI]
                   funct3, ENC_I)
  | _ => Some (0, 0)
  end.

(** The immediates. *)
Definition imm4_u (inst : Z) : Z := s32 (u32 (Z.shiftl (ubfx inst 12 31) 12)).
Definition imm4_i (inst : Z) : Z := Z.shiftr (s32 inst) 20.
Definition imm4_s (inst : Z) : Z :=
  Z.lor (Z.land (Z.shiftr (s32 inst) 20) (Z.lnot 0x1f)) (ubfx inst 7 11).
Definition imm4_j (inst : Z) : Z :=
  s32 (Z.lor (Z.lor (Z.lor (Z.land inst 0xff000)
                           (Z.land (Z.shiftr inst (20 - 11)) (Z.shiftl 1 11)))
                    (Z.land (Z.shiftr inst 11) (Z.shiftl 1 20)))
             (Z.land (u32 (Z.shiftr (s32 inst) (30 - 10))) 0xffe007fe)).
Definition imm4_b (inst : Z) : Z :=
  s32 (Z.lor (Z.lor (Z.lor (Z.land (u32 (Z.shiftr (s32 inst) (31 - 12))) 0xfffff000)
                           (Z.land (u32 (Z.shiftl inst (11 - 7))) (Z.shiftl 1 11)))
                    (Z.land (Z.shiftr inst (30 - 10)) 0x7e0))
             (Z.land (Z.shiftr inst (11 - 4)) 0x1e)).

Definition imm4 (encoding inst : Z) : Z :=
  let e := Z.land encoding ENC_F_IMM_MASK in
  if e =? ENC_F_IMM_U then imm4_u inst
  else if e =? ENC_F_IMM_I then imm4_i inst
  else if e =? ENC_F_IMM_S then imm4_s inst
  else if e =? ENC_F_IMM_J then imm4_j inst
  else if e =? ENC_F_IMM_B then imm4_b inst
  else if e =? ENC_F_IMM_SHAMT then ubfx inst 20 25
  else if e =? ENC_F_IMM_AMO then ubfx inst 25 26
  else 0.

Definition has (encoding flag : Z) : bool := negb (Z.land encoding flag =? 0).

Definition frv_decode4 (inst : Z) (frv_inst : FrvInst) : Z * FrvInst :=
  let opcode := ubfx inst 2 6 in
  let funct3 := ubfx inst 12 14 in
  let funct7 := ubfx inst 25 31 in
  match frv_switch4 inst opcode funct3 funct7 with
  | None => (FRV_UNDEF, frv_inst)
  | Some (m, encoding) =>
      if m =? 0 then (FRV_UNDEF, frv_inst)
      else
        (4, mkFrv m
              (if has encoding ENC_F_RD then ubfx inst 7 11 else FRV_REG_INV)
              (if has encoding ENC_F_RS1 then ubfx inst 15 19 else FRV_REG_INV)
              (if has encoding ENC_F_RS2 then ubfx inst 20 24 else FRV_REG_INV)
              (if has encoding ENC_F_RS3 then ubfx inst 27 31 else FRV_REG_INV)
              (if has encoding ENC_F_RM then funct3 else misc frv_inst)
              (imm4 encoding inst))
  end.

(** ** Compressed instructions *)

Inductive ImmEnc :=
  | ENC_I_NONE
  | ENC_U_53_76
  | ENC_U_53_26
  | ENC_U_5_42_76
  | ENC_U_5_43_86
  | ENC_U_52_76
  | ENC_U_53_86
  | ENC_I_5_40
  | ENC_I_11_4_98_10_6_7_31_5
  | ENC_I_8_43_76_21_5
  | ENC_I_EBREAK
  | ENC_NZ_START
  | ENC_NZU_54_96_2_3
  | ENC_NZI_5_40
  | ENC_NZU_5_40
  | ENC_NZI_9_4_6_87_5
  | ENC_NZI_17_1612.

(** [imm_enc >= ENC_NZ_START]. *)
Definition nonzero_enc (e : ImmEnc) : bool :=
  match e with
  | ENC_NZ_START | ENC_NZU_54_96_2_3 | ENC_NZI_5_40 | ENC_NZU_5_40 | ENC_NZI_9_4_6_87_5
  | ENC_NZI_17_1612 => true
  | _ => false
  end.

(** What the switch assigns: mnemonic, rd, rs1, rs2 and the immediate. *)
Record Sel2 := mkSel { c_mnem : Z; c_rd : Z; c_rs1 : Z; c_rs2 : Z; c_imm : ImmEnc }.
Definition no_sel : Sel2 := mkSel 0 FRV_REG_INV FRV_REG_INV FRV_REG_INV ENC_I_NONE.

(** [SBFXIZ(val, start, end, shl)]: a signed bit field of [end-start+1+shl]
    bits. *)
Definition SBFXIZ (val start_ end_ shl : Z) : Z :=
  swrap (end_ - start_ + 1 + shl) (Z.shiftl (ubfx val start_ end_) shl).

Definition frv_c_arith (inst rs1c rs2c : Z) : Sel2 :=
  match ubfx inst 10 11 with
  | 0 => mkSel FRV_SRLI rs1c rs1c FRV_REG_INV ENC_NZU_5_40
  | 1 => mkSel FRV_SRAI rs1c rs1c FRV_REG_INV ENC_NZU_5_40
  | 2 => mkSel FRV_ANDI rs1c rs1c FRV_REG_INV ENC_I_5_40
  | 3 =>
      let k := Z.lor (ubfx inst 5 6) (Z.shiftl (ubfx inst 12 12) 2) in
      mkSel (elem [FRV_SUB; FRV_XOR; FRV_OR; FRV_AND; FRV_SUBW; FRV_ADDW] k) rs1c rs1c rs2c ENC_I_NONE
  | _ => no_sel
  end.

Definition frv_c_jr_add (inst rs1f rs2f : Z) : option Sel2 :=
  if Z.land inst 0x1000 =? 0 then
    if rs1f =? 0 then None
    else if rs2f =? 0 then Some (mkSel FRV_JALR 0 rs1f FRV_REG_INV ENC_I_NONE)
    else Some (mkSel FRV_ADD rs1f 0 rs2f ENC_I_NONE)
  else
    if rs1f =? 0 then Some (mkSel FRV_ECALL FRV_REG_INV FRV_REG_INV FRV_REG_INV ENC_I_EBREAK)
    else if rs2f =? 0 then Some (mkSel FRV_JALR 1 rs1f FRV_REG_INV ENC_I_NONE)
    else Some (mkSel FRV_ADD rs1f rs1f rs2f ENC_I_NONE).

(** [switch (inst & 0xe003)]; [None] for [return FRV_UNDEF]. *)
Definition frv_switch2 (inst opt : Z) : option Sel2 :=
  let rs2f := ubfx inst 2 6 in
  let rs2c := ubfx inst 2 4 + 8 in
  let rs1f := ubfx inst 7 11 in
  let rs1c := ubfx inst 7 9 + 8 in
  let xlen := Z.land opt FRV_RVMSK in
  let inv := FRV_REG_INV in
  match Z.land inst 0xe003 with
  | 0x0000 => Some (mkSel FRV_ADDI rs2c 2 inv ENC_NZU_54_96_2_3)
  | 0x2000 => if xlen =? FRV_RV128 then None else Some (mkSel FRV_FLD rs2c rs1c inv ENC_U_53_76)
  | 0x4000 => Some (mkSel FRV_LW rs2c rs1c inv ENC_U_53_26)
  | 0x6000 => Some (if xlen =? FRV_RV32 then mkSel FRV_FLW rs2c rs1c inv ENC_U_53_26
                    else mkSel FRV_LD rs2c rs1c inv ENC_U_53_76)
  | 0xa000 => Some (if negb (xlen =? FRV_RV128) then mkSel FRV_FSD inv rs1c rs2c ENC_U_53_76 else no_sel)
  | 0xc000 => Some (mkSel FRV_SW inv rs1c rs2c ENC_U_53_26)
  | 0xe000 => Some (if xlen =? FRV_RV32 then mkSel FRV_FSW inv rs1c rs2c ENC_U_53_26
                    else mkSel FRV_SD inv rs1c rs2c ENC_U_53_76)
  | 0x0001 => Some (mkSel FRV_ADDI rs1f rs1f inv ENC_NZI_5_40)
  | 0x2001 => if xlen =? FRV_RV32 then Some (mkSel FRV_JAL 1 inv inv ENC_I_11_4_98_10_6_7_31_5)
              else if rs1f =? 0 then None
              else Some (mkSel FRV_ADDIW rs1f rs1f inv ENC_I_5_40)
  | 0x4001 => if rs1f =? 0 then None else Some (mkSel FRV_ADDI rs1f 0 inv ENC_I_5_40)
  | 0x6001 => if rs1f =? 0 then None
              else if rs1f =? 2 then Some (mkSel FRV_ADDI rs1f rs1f inv ENC_NZI_9_4_6_87_5)
              else Some (mkSel FRV_LUI rs1f inv inv ENC_NZI_17_1612)
  | 0x8001 => Some (frv_c_arith inst rs1c rs2c)
  | 0xa001 => Some (mkSel FRV_JAL 0 inv inv ENC_I_11_4_98_10_6_7_31_5)
  | 0xc001 => Some (mkSel FRV_BEQ inv rs1c 0 ENC_I_8_43_76_21_5)
  | 0xe001 => Some (mkSel FRV_BNE inv rs1c 0 ENC_I_8_43_76_21_5)
  | 0x0002 => Some (mkSel FRV_SLLI rs1f rs1f inv ENC_NZU_5_40)
  | 0x2002 => Some (if negb (xlen =? FRV_RV128) then mkSel FRV_FLD rs1f 2 inv ENC_U_5_43_86 else no_sel)
  | 0x4002 => Some (mkSel FRV_LW rs1f 2 inv ENC_U_5_42_76)
  | 0x6002 => Some (if xlen =? FRV_RV32 then mkSel FRV_FLW rs1f 2 inv ENC_U_5_42_76
                    else mkSel FRV_LD rs1f 2 inv ENC_U_5_43_86)
  | 0x8002 => frv_c_jr_add inst rs1f rs2f
  | 0xa002 => Some (if negb (xlen =? FRV_RV128) then mkSel FRV_FSD inv 2 rs2f ENC_U_53_86 else no_sel)
  | 0xc002 => Some (mkSel FRV_SW inv 2 rs2f ENC_U_52_76)
  | 0xe002 => Some (if xlen =? FRV_RV32 then mkSel FRV_FSW inv 2 rs2f ENC_U_52_76
                    else mkSel FRV_SD inv 2 rs2f ENC_U_53_86)
  | _ => Some no_sel
  end.

(** [switch (imm_enc)]; [None] for the default case. *)
Definition imm2 (e : ImmEnc) (inst : Z) : option Z :=
  let f a b k := Z.shiftl (ubfx inst a b) k in
  match e with
  | ENC_I_NONE => Some 0
  | ENC_I_EBREAK => Some 1
  | ENC_I_5_40 => Some (Z.lor (SBFXIZ inst 12 12 5) (ubfx inst 2 6))
  | ENC_NZI_9_4_6_87_5 =>
      Some (Z.lor (Z.lor (Z.lor (Z.lor (SBFXIZ inst 12 12 9) (f 3 4 7)) (f 5 5 6)) (f 2 2 5)) (f 6 6 4))
  | ENC_NZU_54_96_2_3 => Some (Z.lor (Z.lor (Z.lor (f 7 10 6) (f 11 12 4)) (f 5 5 3)) (f 6 6 2))
  | ENC_U_53_76 => Some (Z.lor (f 5 6 6) (f 10 12 3))
  | ENC_U_53_26 => Some (Z.lor (Z.lor (f 5 5 6) (f 10 12 3)) (f 6 6 2))
  | ENC_U_5_43_86 => Some (Z.lor (Z.lor (f 2 4 6) (f 12 12 5)) (f 5 6 3))
  | ENC_U_5_42_76 => Some (Z.lor (Z.lor (f 2 3 6) (f 12 12 5)) (f 4 6 2))
  | ENC_U_52_76 => Some (Z.lor (f 7 8 6) (f 9 12 2))
  | ENC_U_53_86 => Some (Z.lor (f 7 9 6) (f 10 12 3))
  | ENC_NZU_5_40 => Some (Z.lor (f 12 12 5) (ubfx inst 2 6))
  | ENC_NZI_5_40 => Some (Z.lor (SBFXIZ inst 12 12 5) (ubfx inst 2 6))
  | ENC_I_8_43_76_21_5 =>
      Some (Z.lor (Z.lor (Z.lor (Z.lor (SBFXIZ inst 12 12 8) (f 5 6 6)) (f 2 2 5)) (f 10 11 3)) (f 3 4 1))
  | ENC_I_11_4_98_10_6_7_31_5 =>
      Some (Z.lor (Z.lor (Z.lor (Z.lor (Z.lor (Z.lor (Z.lor (SBFXIZ inst 12 12 11) (f 8 8 10)) (f 9 10 8))
              (f 6 6 7)) (f 7 7 6)) (f 2 2 5)) (f 11 11 4)) (f 3 5 1))
  | ENC_NZI_17_1612 => Some (Z.lor (SBFXIZ inst 12 12 17) (f 2 6 12))
  | ENC_NZ_START => None
  end.

Definition frv_decode2 (inst opt : Z) (frv_inst : FrvInst) : Z * FrvInst :=
  match frv_switch2 inst opt with
  | None => (FRV_UNDEF, frv_inst)
  | Some s =>
      if c_mnem s =? 0 then (FRV_UNDEF, frv_inst)
      else
        let with_imm i := mkFrv (c_mnem s) (c_rd s) (c_rs1 s) (c_rs2 s) FRV_REG_INV (misc frv_inst) i in
        match imm2 (c_imm s) inst with
        | None => (FRV_UNDEF, with_imm (imm frv_inst))
        | Some i =>
            if nonzero_enc (c_imm s) && (i =? 0) && (negb (c_rd s =? 0) || negb (c_mnem s =? FRV_ADDI))
            then (FRV_UNDEF, with_imm i)
            else (2, with_imm i)
        end
  end.

(** ** [frv_decode] *)

Definition LOAD_LE_2 (m : memory) (buf : Z) : Z := Z.lor (getb m buf) (Z.shiftl (getb m (buf + 1)) 8).
Definition LOAD_LE_4 (m : memory) (buf : Z) : Z :=
  Z.lor (LOAD_LE_2 m buf) (Z.shiftl (LOAD_LE_2 m (buf + 2)) 16).

Definition frv_decode (m : memory) (bufsz buf opt : Z) (frv_inst : FrvInst) : Z * FrvInst :=
  if bufsz <? 2 then (FRV_PARTIAL, frv_inst)
  else if negb (Z.land (getb m buf) 0x03 =? 0x03) then frv_decode2 (LOAD_LE_2 m buf) opt frv_inst
  else if negb (Z.land (getb m buf) 0x1c =? 0x1c) then
    if bufsz <? 4 then (FRV_PARTIAL, frv_inst) else frv_decode4 (LOAD_LE_4 m buf) frv_inst
  else (FRV_UNDEF, frv_inst).

(** ** [frv_format] *)

Definition mnem_str : list (Z * string) :=
  [(FRV_LB, "lb"%string); (FRV_LH, "lh"%string); (FRV_LW, "lw"%string); (FRV_LD, "ld"%string);
   (FRV_LBU, "lbu"%string); (FRV_LHU, "lhu"%string); (FRV_LWU, "lwu"%string);
   (FRV_SB, "sb"%string); (FRV_SH, "sh"%string); (FRV_SW, "sw"%string); (FRV_SD, "sd"%string);
   (FRV_ADDI, "addi"%string); (FRV_SLLI, "slli"%string); (FRV_SLTI, "slti"%string);
   (FRV_SLTIU, "sltiu"%string); (FRV_XORI, "xori"%string); (FRV_SRAI, "srai"%string);
   (FRV_SRLI, "srli"%string); (FRV_ORI, "ori"%string); (FRV_ANDI, "andi"%string);
   (FRV_ADD, "add"%string); (FRV_SLL, "sll"%string); (FRV_SLT, "slt"%string);
   (FRV_SLTU, "sltu"%string); (FRV_XOR, "xor"%string); (FRV_SRL, "srl"%string);
   (FRV_OR, "or"%string); (FRV_AND, "and"%string); (FRV_SUB, "sub"%string);
   (FRV_SRA, "sra"%string); (FRV_FENCE, "fence"%string); (FRV_FENCEI, "fencei"%string);
   (FRV_AUIPC, "auipc"%string); (FRV_LUI, "lui"%string); (FRV_JAL, "jal"%string);
   (FRV_JALR, "jalr"%string); (FRV_BEQ, "beq"%string); (FRV_BNE, "bne"%string);
   (FRV_BLT, "blt"%string); (FRV_BGE, "bge"%string); (FRV_BLTU, "bltu"%string);
   (FRV_BGEU, "bgeu"%string); (FRV_ECALL, "ecall"%string); (FRV_ADDIW, "addiw"%string);
   (FRV_SLLIW, "slliw"%string); (FRV_SRAIW, "sraiw"%string); (FRV_SRLIW, "srliw"%string);
   (FRV_ADDW, "addw"%string); (FRV_SLLW, "sllw"%string); (FRV_SRLW, "srlw"%string);
   (FRV_SUBW, "subw"%string); (FRV_SRAW, "sraw"%string); (FRV_MUL, "mul"%string);
   (FRV_MULH, "mulh"%string); (FRV_MULHSU, "mulhsu"%string); (FRV_MULHU, "mulhu"%string);
   (FRV_DIV, "div"%string); (FRV_DIVU, "divu"%string); (FRV_REM, "rem"%string);
   (FRV_REMU, "remu"%string); (FRV_MULW, "mulw"%string); (FRV_DIVW, "divw"%string);
   (FRV_DIVUW, "divuw"%string); (FRV_REMW, "remw"%string); (FRV_REMUW, "remuw"%string);
   (FRV_LRW, "lr.w"%string); (FRV_SCW, "sc.w"%string); (FRV_LRD, "lr.d"%string);
   (FRV_SCD, "sc.d"%string); (FRV_AMOADDW, "amoadd.w"%string); (FRV_AMOADDD, "amoadd.d"%string);
   (FRV_AMOSWAPW, "amoswap.w"%string); (FRV_AMOSWAPD, "amoswap.d"%string);
   (FRV_AMOXORW, "amoxor.w"%string); (FRV_AMOXORD, "amoxor.d"%string);
   (FRV_AMOORW, "amoor.w"%string); (FRV_AMOORD, "amoor.d"%string);
   (FRV_AMOANDW, "amoand.w"%string); (FRV_AMOANDD, "amoand.d"%string);
   (FRV_AMOMINW, "amomin.w"%string); (FRV_AMOMIND, "amomin.d"%string);
   (FRV_AMOMAXW, "amomax.w"%string); (FRV_AMOMAXD, "amomax.d"%string);
   (FRV_AMOMINUW, "amominu.w"%string); (FRV_AMOMINUD, "amominu.d"%string);
   (FRV_AMOMAXUW, "amomaxu.w"%string); (FRV_AMOMAXUD, "amomaxu.d"%string);
   (FRV_CSRRW, "csrrw"%string); (FRV_CSRRWI, "csrrwi"%string); (FRV_CSRRS, "csrrs"%string);
   (FRV_CSRRSI, "csrrsi"%string); (FRV_CSRRC, "csrrc"%string); (FRV_CSRRCI, "csrrci"%string);
   (FRV_FLW, "flw"%string); (FRV_FSW, "fsw"%string); (FRV_FMVXW, "fmv.x.w"%string);
   (FRV_FMVWX, "fmv.w.x"%string); (FRV_FCLASSS, "fclass.s"%string); (FRV_FMADDS, "fmadd.s"%string);
   (FRV_FMSUBS, "fmsub.s"%string); (FRV_FNMSUBS, "fnmsub.s"%string);
   (FRV_FNMADDS, "fnmadd.s"%string); (FRV_FADDS, "fadd.s"%string); (FRV_FSUBS, "fsub.s"%string);
   (FRV_FMULS, "fmul.s"%string); (FRV_FDIVS, "fdiv.s"%string); (FRV_FSQRTS, "fsqrt.s"%string);
   (FRV_FSGNJS, "fsgnj.s"%string); (FRV_FSGNJNS, "fsgnjn.s"%string);
   (FRV_FSGNJXS, "fsgnjx.s"%string); (FRV_FMINS, "fmin.s"%string); (FRV_FMAXS, "fmax.s"%string);
   (FRV_FLES, "fle.s"%string); (FRV_FLTS, "flt.s"%string); (FRV_FEQS, "feq.s"%string);
   (FRV_FCVTWS, "fcvt.w.s"%string); (FRV_FCVTWUS, "fcvt.wu.s"%string);
   (FRV_FCVTLS, "fcvt.l.s"%string); (FRV_FCVTLUS, "fcvt.lu.s"%string);
   (FRV_FCVTSW, "fcvt.s.w"%string); (FRV_FCVTSWU, "fcvt.s.wu"%string);
   (FRV_FCVTSL, "fcvt.s.l"%string); (FRV_FCVTSLU, "fcvt.s.lu"%string); (FRV_FLD, "fld"%string);
   (FRV_FSD, "fsd"%string); (FRV_FMVXD, "fmv.x.d"%string); (FRV_FMVDX, "fmv.d.x"%string);
   (FRV_FCLASSD, "fclass.d"%string); (FRV_FMADDD, "fmadd.d"%string);
   (FRV_FMSUBD, "fmsub.d"%string); (FRV_FNMSUBD, "fnmsub.d"%string);
   (FRV_FNMADDD, "fnmadd.d"%string); (FRV_FADDD, "fadd.d"%string); (FRV_FSUBD, "fsub.d"%string);
   (FRV_FMULD, "fmul.d"%string); (FRV_FDIVD, "fdiv.d"%string); (FRV_FSQRTD, "fsqrt.d"%string);
   (FRV_FSGNJD, "fsgnj.d"%string); (FRV_FSGNJND, "fsgnjn.d"%string);
   (FRV_FSGNJXD, "fsgnjx.d"%string); (FRV_FMIND, "fmin.d"%string); (FRV_FMAXD, "fmax.d"%string);
   (FRV_FLED, "fle.d"%string); (FRV_FLTD, "flt.d"%string); (FRV_FEQD, "feq.d"%string);
   (FRV_FCVTSD, "fcvt.s.d"%string); (FRV_FCVTDS, "fcvt.d.s"%string);
   (FRV_FCVTWD, "fcvt.w.d"%string); (FRV_FCVTWUD, "fcvt.wu.d"%string);
   (FRV_FCVTLD, "fcvt.l.d"%string); (FRV_FCVTLUD, "fcvt.lu.d"%string);
   (FRV_FCVTDW, "fcvt.d.w"%string); (FRV_FCVTDWU, "fcvt.d.wu"%string);
   (FRV_FCVTDL, "fcvt.d.l"%string); (FRV_FCVTDLU, "fcvt.d.lu"%string)].

(** The array has no element for [FRV_INVALID] and ends with the last
    mnemonic. *)
Definition mnem_name (n : Z) : option string :=
  snd <$> find (fun e => e.1 =? n) mnem_str.

(** The first loop: skip the string at [dst], at most [size] bytes. *)
Fixpoint cat_skip (size : nat) (m : memory) (dst : Z) : Z * nat :=
  match size with
  | O => (dst, O)
  | S size' => if getb m dst =? 0 then (dst, size) else cat_skip size' m (dst + 1)
  end.

(** The second loop, which copies while [size > 1], and the final NUL. *)
Fixpoint cat_copy (size : nat) (m : memory) (dst : Z) (src : memory -> Z -> Z) (i : Z) : memory :=
  match size with
  | O => m
  | S size' =>
      match size' with
      | O => <[dst := 0]> m
      | S _ =>
          if src m i =? 0 then <[dst := 0]> m
          else cat_copy size' (<[dst := u8 (src m i)]> m) (dst + 1) src (i + 1)
      end
  end.

(** The source is a literal or a buffer in memory: [src m i] is [src[i]]. *)
Definition strlcat (m : memory) (dst : Z) (src : memory -> Z -> Z) (size : Z) : memory :=
  let '(dst, size) := cat_skip (Z.to_nat size) m dst in cat_copy size m dst src 0.
Definition src_lit (s : string) : memory -> Z -> Z := fun _ => lit (bytes_of_string s).
Definition src_mem (a : Z) : memory -> Z -> Z := fun m => mptr m a.

(** The digits, from the right; [absneg] is not positive, and C's division
    truncates.  Ten digits are enough for an [int32_t]. *)
Fixpoint int_loop (fuel : nat) (m : memory) (buf absneg idx : Z) : memory * Z :=
  match fuel with
  | O => (m, idx)
  | S fuel' =>
      let idx := idx - 1 in
      let m := <[buf + idx := u8 (48 - Z.rem absneg 10)]> m in
      let absneg := Z.quot absneg 10 in
      if absneg =? 0 then (m, idx) else int_loop fuel' m buf absneg idx
  end.

Definition frv_format_int (m : memory) (val buf : Z) : memory * Z :=
  let absneg := if val <? 0 then val else - val in
  let idx := 16 - 1 in
  let m := <[buf + idx := 0]> m in
  let '(m, idx) := int_loop 10 m buf absneg idx in
  if val <? 0 then (<[buf + (idx - 1) := 45]> m, buf + (idx - 1)) else (m, buf + idx).

(** A register operand, if present; [tmp] is the local array of 18 bytes. *)
Definition format_reg (m : memory) (r len buf tmp : Z) : memory :=
  if negb (r =? FRV_REG_INV) then
    let '(m, fmt) := frv_format_int m r (tmp + 2) in
    let m := <[fmt - 1 := 114]> m in
    let m := <[fmt - 2 := 32]> m in
    strlcat m buf (src_mem (fmt - 2)) len
  else m.

Definition format_imm (m : memory) (i len buf tmp : Z) : memory :=
  if negb (i =? 0) then
    let '(m, fmt) := frv_format_int m i (tmp + 2) in
    let m := <[fmt - 1 := 32]> m in
    strlcat m buf (src_mem (fmt - 1)) len
  else m.

Definition frv_format (m : memory) (inst : FrvInst) (len buf tmp : Z) : memory :=
  if len =? 0 then m
  else
    let m := <[buf := 0]> m in
    match mnem_name (mnem inst) with
    | None => strlcat m buf (src_lit "<invalid>") len
    | Some s =>
        let m := strlcat m buf (src_lit s) len in
        let m := format_reg m (rd inst) len buf tmp in
        let m := format_reg m (rs1 inst) len buf tmp in
        let m := format_reg m (rs2 inst) len buf tmp in
        let m := format_reg m (rs3 inst) len buf tmp in
        format_imm m (imm inst) len buf tmp
    end.
