(* ===== verification/FrvIsa.v ===== *)
(** * The RISC-V encodings, a reference for the decoder

    The instruction formats of the RISC-V manual, written independently of the
    decoder as an encoder: a table that gives each mnemonic its format and
    fixed fields, and the placement of registers and immediates in the word.
    [FrvdecProofs] shows that [frv_decode] inverts it. *)

From Stdlib Require Import ZArith Lia.
From stdpp Require Import base numbers list list_numbers option gmap.
From S2P Require Import Prelude Frvdec.

(** ** Formats *)

(** Register forms with and without a rounding mode, with two sources and one;
    fused operations; immediates of the I, shift, S, B, U and J kind; atomic
    operations with their ordering bits. *)
Inductive Fmt := FR | FR_rm | FR2 | FR2_rm | FR4 | FI | FSh | FS | FB | FU | FJ | FAmo.

(** Major opcode, and the fixed contents of the fields funct3, funct7 (its
    upper six bits for shifts, upper five for atomics, the precision for fused
    operations) and rs2. *)
Record Row := mkRow { r_mnem : Z; r_fmt : Fmt; r_op : Z; r_f3 : Z; r_f7 : Z; r_rs2 : Z }.

Definition isa : list Row :=
  [mkRow FRV_LB FI 0x0 0 0x0 0; mkRow FRV_LH FI 0x0 1 0x0 0; mkRow FRV_LW FI 0x0 2 0x0 0;
   mkRow FRV_LD FI 0x0 3 0x0 0; mkRow FRV_LBU FI 0x0 4 0x0 0; mkRow FRV_LHU FI 0x0 5 0x0 0;
   mkRow FRV_LWU FI 0x0 6 0x0 0; mkRow FRV_FLW FI 0x1 2 0x0 0; mkRow FRV_FLD FI 0x1 3 0x0 0;
   mkRow FRV_FENCE FI 0x3 0 0x0 0; mkRow FRV_FENCEI FI 0x3 1 0x0 0; mkRow FRV_ADDI FI 0x4 0 0x0 0;
   mkRow FRV_SLTI FI 0x4 2 0x0 0; mkRow FRV_SLTIU FI 0x4 3 0x0 0; mkRow FRV_XORI FI 0x4 4 0x0 0;
   mkRow FRV_ORI FI 0x4 6 0x0 0; mkRow FRV_ANDI FI 0x4 7 0x0 0; mkRow FRV_SLLI FSh 0x4 1 0x0 0;
   mkRow FRV_SRLI FSh 0x4 5 0x0 0; mkRow FRV_SRAI FSh 0x4 5 0x10 0; mkRow FRV_AUIPC FU 0x5 0 0x0 0;
   mkRow FRV_ADDIW FI 0x6 0 0x0 0; mkRow FRV_SLLIW FSh 0x6 1 0x0 0; mkRow FRV_SRLIW FSh 0x6 5 0x0 0;
   mkRow FRV_SRAIW FSh 0x6 5 0x10 0; mkRow FRV_SB FS 0x8 0 0x0 0; mkRow FRV_SH FS 0x8 1 0x0 0;
   mkRow FRV_SW FS 0x8 2 0x0 0; mkRow FRV_SD FS 0x8 3 0x0 0; mkRow FRV_FSW FS 0x9 2 0x0 0;
   mkRow FRV_FSD FS 0x9 3 0x0 0; mkRow FRV_AMOADDW FAmo 0xb 2 0x0 0; mkRow FRV_AMOADDD FAmo 0xb 3 0x0 0;
   mkRow FRV_AMOSWAPW FAmo 0xb 2 0x1 0; mkRow FRV_AMOSWAPD FAmo 0xb 3 0x1 0; mkRow FRV_LRW FAmo 0xb 2 0x2 0;
   mkRow FRV_LRD FAmo 0xb 3 0x2 0; mkRow FRV_SCW FAmo 0xb 2 0x3 0; mkRow FRV_SCD FAmo 0xb 3 0x3 0;
   mkRow FRV_AMOXORW FAmo 0xb 2 0x4 0; mkRow FRV_AMOXORD FAmo 0xb 3 0x4 0; mkRow FRV_AMOORW FAmo 0xb 2 0x8 0;
   mkRow FRV_AMOORD FAmo 0xb 3 0x8 0; mkRow FRV_AMOANDW FAmo 0xb 2 0xc 0; mkRow FRV_AMOANDD FAmo 0xb 3 0xc 0;
   mkRow FRV_AMOMINW FAmo 0xb 2 0x10 0; mkRow FRV_AMOMIND FAmo 0xb 3 0x10 0;
   mkRow FRV_AMOMAXW FAmo 0xb 2 0x14 0; mkRow FRV_AMOMAXD FAmo 0xb 3 0x14 0;
   mkRow FRV_AMOMINUW FAmo 0xb 2 0x18 0; mkRow FRV_AMOMINUD FAmo 0xb 3 0x18 0;
   mkRow FRV_AMOMAXUW FAmo 0xb 2 0x1c 0; mkRow FRV_AMOMAXUD FAmo 0xb 3 0x1c 0; mkRow FRV_ADD FR 0xc 0 0x0 0;
   mkRow FRV_SLL FR 0xc 1 0x0 0; mkRow FRV_SLT FR 0xc 2 0x0 0; mkRow FRV_SLTU FR 0xc 3 0x0 0;
   mkRow FRV_XOR FR 0xc 4 0x0 0; mkRow FRV_SRL FR 0xc 5 0x0 0; mkRow FRV_OR FR 0xc 6 0x0 0;
   mkRow FRV_AND FR 0xc 7 0x0 0; mkRow FRV_MUL FR 0xc 0 0x1 0; mkRow FRV_MULH FR 0xc 1 0x1 0;
   mkRow FRV_MULHSU FR 0xc 2 0x1 0; mkRow FRV_MULHU FR 0xc 3 0x1 0; mkRow FRV_DIV FR 0xc 4 0x1 0;
   mkRow FRV_DIVU FR 0xc 5 0x1 0; mkRow FRV_REM FR 0xc 6 0x1 0; mkRow FRV_REMU FR 0xc 7 0x1 0;
   mkRow FRV_SUB FR 0xc 0 0x20 0; mkRow FRV_SRA FR 0xc 5 0x20 0; mkRow FRV_LUI FU 0xd 0 0x0 0;
   mkRow FRV_ADDW FR 0xe 0 0x0 0; mkRow FRV_SLLW FR 0xe 1 0x0 0; mkRow FRV_SRLW FR 0xe 5 0x0 0;
   mkRow FRV_MULW FR 0xe 0 0x1 0; mkRow FRV_DIVW FR 0xe 4 0x1 0; mkRow FRV_DIVUW FR 0xe 5 0x1 0;
   mkRow FRV_REMW FR 0xe 6 0x1 0; mkRow FRV_REMUW FR 0xe 7 0x1 0; mkRow FRV_SUBW FR 0xe 0 0x20 0;
   mkRow FRV_SRAW FR 0xe 5 0x20 0; mkRow FRV_FMADDS FR4 0x10 0 0x0 0; mkRow FRV_FMADDD FR4 0x10 0 0x1 0;
   mkRow FRV_FMSUBS FR4 0x11 0 0x0 0; mkRow FRV_FMSUBD FR4 0x11 0 0x1 0; mkRow FRV_FNMSUBS FR4 0x12 0 0x0 0;
   mkRow FRV_FNMSUBD FR4 0x12 0 0x1 0; mkRow FRV_FNMADDS FR4 0x13 0 0x0 0;
   mkRow FRV_FNMADDD FR4 0x13 0 0x1 0; mkRow FRV_FADDS FR_rm 0x14 0 0x0 0;
   mkRow FRV_FADDD FR_rm 0x14 0 0x1 0; mkRow FRV_FSUBS FR_rm 0x14 0 0x4 0;
   mkRow FRV_FSUBD FR_rm 0x14 0 0x5 0; mkRow FRV_FMULS FR_rm 0x14 0 0x8 0;
   mkRow FRV_FMULD FR_rm 0x14 0 0x9 0; mkRow FRV_FDIVS FR_rm 0x14 0 0xc 0;
   mkRow FRV_FDIVD FR_rm 0x14 0 0xd 0; mkRow FRV_FCVTSD FR2_rm 0x14 0 0x20 1;
   mkRow FRV_FCVTDS FR2_rm 0x14 0 0x21 0; mkRow FRV_FSQRTS FR2_rm 0x14 0 0x2c 0;
   mkRow FRV_FSQRTD FR2_rm 0x14 0 0x2d 0; mkRow FRV_FSGNJS FR 0x14 0 0x10 0;
   mkRow FRV_FSGNJNS FR 0x14 1 0x10 0; mkRow FRV_FSGNJXS FR 0x14 2 0x10 0; mkRow FRV_FSGNJD FR 0x14 0 0x11 0;
   mkRow FRV_FSGNJND FR 0x14 1 0x11 0; mkRow FRV_FSGNJXD FR 0x14 2 0x11 0; mkRow FRV_FMINS FR 0x14 0 0x14 0;
   mkRow FRV_FMAXS FR 0x14 1 0x14 0; mkRow FRV_FMIND FR 0x14 0 0x15 0; mkRow FRV_FMAXD FR 0x14 1 0x15 0;
   mkRow FRV_FLES FR 0x14 0 0x50 0; mkRow FRV_FLTS FR 0x14 1 0x50 0; mkRow FRV_FEQS FR 0x14 2 0x50 0;
   mkRow FRV_FLED FR 0x14 0 0x51 0; mkRow FRV_FLTD FR 0x14 1 0x51 0; mkRow FRV_FEQD FR 0x14 2 0x51 0;
   mkRow FRV_FCVTWS FR2_rm 0x14 0 0x60 0; mkRow FRV_FCVTWUS FR2_rm 0x14 0 0x60 1;
   mkRow FRV_FCVTLS FR2_rm 0x14 0 0x60 2; mkRow FRV_FCVTLUS FR2_rm 0x14 0 0x60 3;
   mkRow FRV_FCVTWD FR2_rm 0x14 0 0x61 0; mkRow FRV_FCVTWUD FR2_rm 0x14 0 0x61 1;
   mkRow FRV_FCVTLD FR2_rm 0x14 0 0x61 2; mkRow FRV_FCVTLUD FR2_rm 0x14 0 0x61 3;
   mkRow FRV_FCVTSW FR2_rm 0x14 0 0x68 0; mkRow FRV_FCVTSWU FR2_rm 0x14 0 0x68 1;
   mkRow FRV_FCVTSL FR2_rm 0x14 0 0x68 2; mkRow FRV_FCVTSLU FR2_rm 0x14 0 0x68 3;
   mkRow FRV_FCVTDW FR2_rm 0x14 0 0x69 0; mkRow FRV_FCVTDWU FR2_rm 0x14 0 0x69 1;
   mkRow FRV_FCVTDL FR2_rm 0x14 0 0x69 2; mkRow FRV_FCVTDLU FR2_rm 0x14 0 0x69 3;
   mkRow FRV_FMVXW FR2 0x14 0 0x70 0; mkRow FRV_FCLASSS FR2 0x14 1 0x70 0; mkRow FRV_FMVXD FR2 0x14 0 0x71 0;
   mkRow FRV_FCLASSD FR2 0x14 1 0x71 0; mkRow FRV_FMVWX FR2 0x14 0 0x78 0; mkRow FRV_FMVDX FR2 0x14 0 0x79 0;
   mkRow FRV_BEQ FB 0x18 0 0x0 0; mkRow FRV_BNE FB 0x18 1 0x0 0; mkRow FRV_BLT FB 0x18 4 0x0 0;
   mkRow FRV_BGE FB 0x18 5 0x0 0; mkRow FRV_BLTU FB 0x18 6 0x0 0; mkRow FRV_BGEU FB 0x18 7 0x0 0;
   mkRow FRV_JALR FI 0x19 0 0x0 0; mkRow FRV_JAL FJ 0x1b 0 0x0 0; mkRow FRV_ECALL FI 0x1c 0 0x0 0;
   mkRow FRV_CSRRW FI 0x1c 1 0x0 0; mkRow FRV_CSRRS FI 0x1c 2 0x0 0; mkRow FRV_CSRRC FI 0x1c 3 0x0 0;
   mkRow FRV_CSRRWI FI 0x1c 5 0x0 0; mkRow FRV_CSRRSI FI 0x1c 6 0x0 0; mkRow FRV_CSRRCI FI 0x1c 7 0x0 0].

Definition row_of (m : Z) : option Row := find (fun r => r_mnem r =? m) isa.

(** ** The encoder *)

Definition word (op frd f3 frs1 frs2 f7 : Z) : Z :=
  3 + 4 * op + 2 ^ 7 * frd + 2 ^ 12 * f3 + 2 ^ 15 * frs1 + 2 ^ 20 * frs2 + 2 ^ 25 * f7.

(** The contents of the fields rd, funct3, rs1, rs2 and funct7. *)
Definition parts (r : Row) (i : FrvInst) : Z * Z * Z * Z * Z :=
  let '(mkRow _ fmt _ f3 f7 c2) := r in
  let x a b := ubfx (imm i) a b in
  match fmt with
  | FR => (rd i, f3, rs1 i, rs2 i, f7)
  | FR_rm => (rd i, misc i, rs1 i, rs2 i, f7)
  | FR2 => (rd i, f3, rs1 i, c2, f7)
  | FR2_rm => (rd i, misc i, rs1 i, c2, f7)
  | FR4 => (rd i, misc i, rs1 i, rs2 i, f7 + 4 * rs3 i)
  | FI => (rd i, f3, rs1 i, x 0 4, x 5 11)
  | FSh => (rd i, f3, rs1 i, x 0 4, x 5 5 + 2 * f7)
  | FS => (x 0 4, f3, rs1 i, rs2 i, x 5 11)
  | FB => (x 11 11 + 2 * x 1 4, f3, rs1 i, rs2 i, x 5 10 + 64 * x 12 12)
  | FU => (rd i, x 12 14, x 15 19, x 20 24, x 25 31)
  | FJ => (rd i, x 12 14, x 15 19, x 11 11 + 2 * x 1 4, x 5 10 + 64 * x 20 20)
  | FAmo => (rd i, f3, rs1 i, rs2 i, imm i + 4 * f7)
  end.

Definition encode (r : Row) (i : FrvInst) : Z :=
  let '(frd, f3, frs1, frs2, f7) := parts r i in word (r_op r) frd f3 frs1 frs2 f7.

(** ** Well-formed instructions *)

Definition reg_ok (present : bool) (r : Z) : Prop := if present then 0 <= r < 32 else r = FRV_REG_INV.

Definition fmt_rd (f : Fmt) : bool := match f with FS | FB => false | _ => true end.
Definition fmt_rs1 (f : Fmt) : bool := match f with FU | FJ => false | _ => true end.
Definition fmt_rs2 (f : Fmt) : bool :=
  match f with FR | FR_rm | FR4 | FS | FB | FAmo => true | _ => false end.
Definition fmt_rs3 (f : Fmt) : bool := match f with FR4 => true | _ => false end.
Definition fmt_rm (f : Fmt) : bool := match f with FR_rm | FR2_rm | FR4 => true | _ => false end.

Definition imm_ok (f : Fmt) (i : Z) : Prop :=
  match f with
  | FI | FS => in_s 12 i
  | FB => in_s 13 i /\ i `mod` 2 = 0
  | FJ => in_s 21 i /\ i `mod` 2 = 0
  | FU => in_s 32 i /\ i `mod` 2 ^ 12 = 0
  | FSh => 0 <= i < 64
  | FAmo => 0 <= i < 4
  | _ => i = 0
  end.

Definition operands_ok (f : Fmt) (i : FrvInst) : Prop :=
  reg_ok (fmt_rd f) (rd i) /\ reg_ok (fmt_rs1 f) (rs1 i) /\ reg_ok (fmt_rs2 f) (rs2 i) /\
  reg_ok (fmt_rs3 f) (rs3 i) /\ imm_ok f (imm i) /\ (fmt_rm f = true -> 0 <= misc i < 8).

(** The instruction is one of the manual's, with operands of its format. *)
Definition inst_ok (i : FrvInst) : Prop :=
  exists r, row_of (mnem i) = Some r /\ operands_ok (r_fmt r) i.
