(* ===== verification/FrvdecImm.v ===== *)
(** * Bit fields and immediates of the RISC-V decoder

    A tactic that compares two bit patterns position by position, the immediates
    of [Frvdec.v] as the concatenations of the manual, and the fields of a word
    put together by [FrvIsa.word]. *)

From Stdlib Require Import ZArith Lia.
From stdpp Require Import base numbers list list_numbers option gmap.
From S2P Require Import Prelude Frvdec FrvIsa.

(** ** Bits *)

Lemma forall_below (n : nat) (P : Z -> Prop) :
  Forall P (Z.of_nat <$> seq 0 n) -> forall i, 0 <= i < Z.of_nat n -> P i.
Proof.
  intros HP i Hi. rewrite Forall_forall in HP. apply HP.
  apply list_elem_of_fmap. exists (Z.to_nat i). split; [lia|]. apply elem_of_seq. lia.
Qed.

(** Equality of sign-extended values from their low bits. *)
Lemma swrap_ext w1 w2 x y :
  0 < w2 <= w1 ->
  (forall i, 0 <= i < w1 -> Z.testbit x i = Z.testbit y (Z.min i (w2 - 1))) ->
  swrap w1 x = swrap w2 y.
Proof.
  intros Hw H. apply bits_eq. intros i Hi. rewrite !testbit_swrap by lia.
  destruct (Z.ltb_spec i w1).
  - rewrite Z.min_l, H by lia. done.
  - rewrite (Z.min_r i (w1 - 1)), H by lia. f_equal. lia.
Qed.

Lemma wrap_ext w x y :
  0 <= w -> in_u w x -> in_u w y -> (forall i, 0 <= i < w -> Z.testbit x i = Z.testbit y i) -> x = y.
Proof.
  intros Hw Hx Hy H. apply bits_eq. intros i Hi. destruct (Z.ltb_spec i w).
  - apply H. lia.
  - by rewrite !(bits_above w) by (done || lia).
Qed.

#[export] Hint Rewrite testbit_ubfx using lia : bits.

(** Evaluate closed indices and the bits of closed numbers. *)
Ltac is_lit z := lazymatch z with Z0 => idtac | Zpos _ => idtac | Zneg _ => idtac end.
Ltac eval_bits :=
  repeat match goal with
  | |- context [Z.testbit ?x ?e] =>
      tryif is_lit e then
        (tryif is_lit x then let b := eval vm_compute in (Z.testbit x e) in change (Z.testbit x e) with b
         else lazymatch e with Zneg _ => change (Z.testbit x e) with false end)
      else (let e' := eval vm_compute in e in is_lit e'; change (Z.testbit x e) with (Z.testbit x e'))
  | |- context [?a <? ?b] => let b' := eval vm_compute in (a <? b) in
      lazymatch b' with true => idtac | false => idtac end; change (a <? b) with b'
  end.
Ltac bit_blast n :=
  apply (forall_below n); cbn [seq fmap list_fmap Z.of_nat Pos.of_succ_nat Pos.succ];
  repeat (apply Forall_cons; split; [autorewrite with bits; eval_bits; cbn [andb orb negb];
    rewrite ?andb_true_r, ?andb_false_r, ?orb_false_r, ?orb_true_r; try reflexivity|]); try apply Forall_nil_2.

(** ** Immediates of 32-bit instructions *)

Definition cat_i (inst : Z) : Z := Z.lor (ubfx inst 20 24) (Z.shiftl (ubfx inst 25 31) 5).
Definition cat_s (inst : Z) : Z := Z.lor (ubfx inst 7 11) (Z.shiftl (ubfx inst 25 31) 5).
Definition cat_b (inst : Z) : Z :=
  Z.lor (Z.lor (Z.shiftl (ubfx inst 8 11) 1) (Z.shiftl (ubfx inst 25 30) 5))
        (Z.lor (Z.shiftl (ubfx inst 7 7) 11) (Z.shiftl (ubfx inst 31 31) 12)).
Definition cat_j (inst : Z) : Z :=
  Z.lor (Z.lor (Z.shiftl (ubfx inst 21 24) 1) (Z.shiftl (ubfx inst 25 30) 5))
        (Z.lor (Z.shiftl (ubfx inst 20 20) 11)
               (Z.lor (Z.lor (Z.shiftl (ubfx inst 12 14) 12) (Z.shiftl (ubfx inst 15 19) 15))
                      (Z.shiftl (ubfx inst 31 31) 20))).
Definition cat_u (inst : Z) : Z :=
  Z.lor (Z.lor (Z.shiftl (ubfx inst 12 14) 12) (Z.shiftl (ubfx inst 15 19) 15))
        (Z.lor (Z.shiftl (ubfx inst 20 24) 20) (Z.shiftl (ubfx inst 25 31) 25)).

Lemma imm4_b_cat inst : imm4_b inst = swrap 13 (cat_b inst).
Proof. unfold imm4_b, cat_b. apply swrap_ext; [lia|]. bit_blast 32%nat. Qed.

Lemma imm4_j_cat inst : imm4_j inst = swrap 21 (cat_j inst).
Proof. unfold imm4_j, cat_j. apply swrap_ext; [lia|]. bit_blast 32%nat. Qed.

Lemma imm4_u_cat inst : imm4_u inst = swrap 32 (cat_u inst).
Proof.
  unfold imm4_u, cat_u. rewrite swrap_wrap. apply swrap_ext; [lia|]. bit_blast 32%nat.
Qed.

(** [x >> k] of a signed value keeps the sign. *)
Lemma shiftr_swrap w k x : 0 <= k < w -> Z.shiftr (swrap w x) k = swrap (w - k) (Z.shiftr x k).
Proof.
  intros Hk. apply bits_eq. intros i Hi. rewrite Z.shiftr_spec, !testbit_swrap, Z.shiftr_spec by lia.
  f_equal. lia.
Qed.

Lemma imm4_i_cat inst : imm4_i inst = swrap 12 (cat_i inst).
Proof.
  unfold imm4_i, cat_i. rewrite shiftr_swrap by lia. change (32 - 20) with 12.
  apply swrap_ext; [lia|]. bit_blast 12%nat.
Qed.

Lemma imm4_s_cat inst : imm4_s inst = swrap 12 (cat_s inst).
Proof.
  unfold imm4_s, cat_s. apply bits_eq. intros i Hi.
  rewrite shiftr_swrap by lia. change (32 - 20) with 12. revert i Hi.
  assert (forall i, 0 <= i < 12 -> Z.testbit (Z.lor (Z.land (swrap 12 (Z.shiftr inst 20)) (Z.lnot 31)) (ubfx inst 7 11)) i =
    Z.testbit (swrap 12 (Z.lor (ubfx inst 7 11) (Z.shiftl (ubfx inst 25 31) 5))) i) as H by bit_blast 12%nat.
  intros i Hi. destruct (Z.ltb_spec i 12); [by apply H|].
  specialize (H 11 ltac:(lia)). revert H. autorewrite with bits. 
  rewrite (bits_above 5 31 i) by (done || lia). rewrite !(Z.min_r i) by lia.
  eval_bits. rewrite (proj2 (Z.ltb_ge i (11 - 7 + 1))) by lia.
  by rewrite ?andb_false_r, ?andb_true_r, ?orb_false_r.
Qed.

(** ** Fields of an encoded word *)

Definition fields_ok (op frd f3 frs1 frs2 f7 : Z) : Prop :=
  0 <= op < 32 /\ 0 <= frd < 32 /\ 0 <= f3 < 8 /\ 0 <= frs1 < 32 /\ 0 <= frs2 < 32 /\ 0 <= f7 < 128.

(** A field between a lower and a higher part. *)
Lemma ubfx_between lo f hi a n :
  0 <= a -> 0 < n -> 0 <= lo < 2 ^ a -> 0 <= f < 2 ^ n -> ubfx (lo + 2 ^ a * (f + 2 ^ n * hi)) a (a + n - 1) = f.
Proof.
  intros Ha Hn Hlo Hf. rewrite ubfx_div by lia. replace (a + n - 1 - a + 1) with n by lia.
  replace ((lo + 2 ^ a * (f + 2 ^ n * hi)) / 2 ^ a) with (f + 2 ^ n * hi)
    by (rewrite (Z.mul_comm (2 ^ a)), Z.div_add, Z.div_small by lia; lia).
  rewrite (Z.mul_comm (2 ^ n)), Z.mod_add, Z.mod_small by lia. done.
Qed.

(** A field of a field. *)
Lemma ubfx_sub v a b c d : 0 <= a -> 0 <= c <= d -> d <= b - a -> ubfx v (a + c) (a + d) = ubfx (ubfx v a b) c d.
Proof.
  intros Ha Hc Hd. apply bits_eq. intros i Hi. rewrite !testbit_ubfx by lia.
  replace (i + c + a) with (i + (a + c)) by lia. replace (a + d - (a + c) + 1) with (d - c + 1) by lia.
  destruct (Z.ltb_spec i (d - c + 1)); rewrite ?andb_false_r, ?andb_true_r; [|done].
  rewrite (proj2 (Z.ltb_lt _ _)) by lia. by rewrite andb_true_r.
Qed.

Section Word.
Context (op frd f3 frs1 frs2 f7 : Z) (Hf : fields_ok op frd f3 frs1 frs2 f7).
Let w := word op frd f3 frs1 frs2 f7.

Ltac field lo f hi :=
  destruct Hf as (? & ? & ? & ? & ? & ?); unfold w, word;
  match goal with |- ubfx ?x ?a ?b = _ =>
    replace x with (lo + 2 ^ a * (f + 2 ^ (b - a + 1) * hi)) by lia;
    apply (ubfx_between lo f hi a (b - a + 1)); lia end.

Lemma word_op : ubfx w 2 6 = op.
Proof. field 3 op (frd + 2 ^ 5 * f3 + 2 ^ 8 * frs1 + 2 ^ 13 * frs2 + 2 ^ 18 * f7). Qed.
Lemma word_rd : ubfx w 7 11 = frd.
Proof. field (3 + 4 * op) frd (f3 + 2 ^ 3 * frs1 + 2 ^ 8 * frs2 + 2 ^ 13 * f7). Qed.
Lemma word_f3 : ubfx w 12 14 = f3.
Proof. field (3 + 4 * op + 2 ^ 7 * frd) f3 (frs1 + 2 ^ 5 * frs2 + 2 ^ 10 * f7). Qed.
Lemma word_rs1 : ubfx w 15 19 = frs1.
Proof. field (3 + 4 * op + 2 ^ 7 * frd + 2 ^ 12 * f3) frs1 (frs2 + 2 ^ 5 * f7). Qed.
Lemma word_rs2 : ubfx w 20 24 = frs2.
Proof. field (3 + 4 * op + 2 ^ 7 * frd + 2 ^ 12 * f3 + 2 ^ 15 * frs1) frs2 f7. Qed.
Lemma word_f7 : ubfx w 25 31 = f7.
Proof. field (3 + 4 * op + 2 ^ 7 * frd + 2 ^ 12 * f3 + 2 ^ 15 * frs1 + 2 ^ 20 * frs2) f7 0. Qed.

(** Parts of the fields. *)
Lemma word_rd_sub c d : 0 <= c <= d -> d <= 4 -> ubfx w (7 + c) (7 + d) = ubfx frd c d.
Proof. intros. by rewrite (ubfx_sub w 7 11), word_rd by lia. Qed.
Lemma word_rs2_sub c d : 0 <= c <= d -> d <= 4 -> ubfx w (20 + c) (20 + d) = ubfx frs2 c d.
Proof. intros. by rewrite (ubfx_sub w 20 24), word_rs2 by lia. Qed.
Lemma word_f7_sub c d : 0 <= c <= d -> d <= 6 -> ubfx w (25 + c) (25 + d) = ubfx f7 c d.
Proof. intros. by rewrite (ubfx_sub w 25 31), word_f7 by lia. Qed.
End Word.

(** Fields built from two parts. *)
Lemma ubfx_low a b n : 0 < n -> 0 <= a < 2 ^ n -> ubfx (a + 2 ^ n * b) 0 (n - 1) = a.
Proof. intros Hn Ha. pose proof (ubfx_between 0 a b 0 n) as E. rewrite <- E at 2 by lia. f_equal; lia. Qed.
Lemma ubfx_high a b n k : 0 <= n -> 0 < k -> 0 <= a < 2 ^ n -> 0 <= b < 2 ^ k -> ubfx (a + 2 ^ n * b) n (n + k - 1) = b.
Proof. intros Hn Hk Ha Hb. pose proof (ubfx_between a b 0 n k) as E. rewrite <- E at 2 by lia. f_equal; lia. Qed.

Lemma ubfx_bound v a b : 0 <= a <= b -> 0 <= ubfx v a b < 2 ^ (b - a + 1).
Proof. apply ubfx_range. Qed.
(** One bit below four, six bits below one: the split fields of the B and J
    formats. *)
Lemma split_1_4 v a b x :
  0 <= a <= b -> b - a = 3 -> 0 <= x -> let f := ubfx v x x + 2 * ubfx v a b in
  ubfx f 0 0 = ubfx v x x /\ ubfx f 1 4 = ubfx v a b.
Proof.
  intros Hab Hn Hx f. pose proof (ubfx_bound v x x ltac:(lia)) as B1. rewrite Z.sub_diag in B1.
  pose proof (ubfx_bound v a b ltac:(lia)) as B2. rewrite Hn in B2.
  split; [apply (ubfx_low _ _ 1); lia | apply (ubfx_high _ _ 1 4); lia].
Qed.
Lemma split_6_1 v a b x :
  0 <= a <= b -> b - a = 5 -> 0 <= x -> let f := ubfx v a b + 64 * ubfx v x x in
  ubfx f 0 5 = ubfx v a b /\ ubfx f 6 6 = ubfx v x x.
Proof.
  intros Hab Hn Hx f. pose proof (ubfx_bound v x x ltac:(lia)) as B1. rewrite Z.sub_diag in B1.
  pose proof (ubfx_bound v a b ltac:(lia)) as B2. rewrite Hn in B2.
  split; [apply (ubfx_low _ _ 6); lia | apply (ubfx_high _ _ 6 1); lia].
Qed.
Lemma ubfx_snoc v a b : 0 <= a <= b -> ubfx v a (b + 1) = ubfx v a b + 2 ^ (b - a + 1) * ubfx v (b + 1) (b + 1).
Proof.
  intros Hab. rewrite !ubfx_div by lia. rewrite Z.sub_diag, Z.add_0_l, Z.pow_1_r.
  replace (2 ^ (b + 1 - a + 1)) with (2 ^ (b - a + 1) * 2) by (rewrite Z.mul_comm, <- Z.pow_succ_r by lia; f_equal; lia).
  rewrite Z.rem_mul_r by lia. do 3 f_equal. rewrite Z.div_div by lia. f_equal. rewrite <- Z.pow_add_r by lia. f_equal; lia.
Qed.

(** The pieces of an immediate, put together again. *)
Lemma join_sh i : 0 <= i < 64 -> ubfx i 0 4 + 32 * ubfx i 5 5 = i.
Proof. intros. rewrite !ubfx_div by lia. cbn -[Z.div Z.modulo Z.mul Z.add]. zdm. Qed.
Lemma join_i i : in_s 12 i -> swrap 12 (Z.lor (ubfx i 0 4) (Z.shiftl (ubfx i 5 11) 5)) = i.
Proof.
  intros Hi. rewrite <- (swrap_small 12 i) at 3 by (lia || done). apply swrap_ext; [lia|]. bit_blast 12%nat.
Qed.
Lemma even_bit i : i `mod` 2 = 0 -> Z.testbit i 0 = false.
Proof. intros. rewrite Z.bit0_odd. rewrite Zodd_mod. btest; [lia|done]. Qed.
Lemma join_b i : in_s 13 i -> i `mod` 2 = 0 ->
  swrap 13 (Z.lor (Z.lor (Z.shiftl (ubfx i 1 4) 1) (Z.shiftl (ubfx i 5 10) 5))
                  (Z.lor (Z.shiftl (ubfx i 11 11) 11) (Z.shiftl (ubfx i 12 12) 12))) = i.
Proof.
  intros Hi He. apply even_bit in He. rewrite <- (swrap_small 13 i) at 5 by (lia || done).
  apply swrap_ext; [lia|]. bit_blast 13%nat. done.
Qed.
Lemma join_j i : in_s 21 i -> i `mod` 2 = 0 ->
  swrap 21 (Z.lor (Z.lor (Z.shiftl (ubfx i 1 4) 1) (Z.shiftl (ubfx i 5 10) 5))
    (Z.lor (Z.shiftl (ubfx i 11 11) 11)
           (Z.lor (Z.lor (Z.shiftl (ubfx i 12 14) 12) (Z.shiftl (ubfx i 15 19) 15)) (Z.shiftl (ubfx i 20 20) 20)))) = i.
Proof.
  intros Hi He. apply even_bit in He. rewrite <- (swrap_small 21 i) at 7 by (lia || done).
  apply swrap_ext; [lia|]. bit_blast 21%nat. done.
Qed.
Lemma low_bits i k j : 0 <= j < k -> i `mod` 2 ^ k = 0 -> Z.testbit i j = false.
Proof. intros Hj Hi. rewrite <- (Z.mod_pow2_bits_low i k j) by lia. by rewrite Hi, Z.bits_0. Qed.
Lemma join_u i : in_s 32 i -> i `mod` 2 ^ 12 = 0 ->
  swrap 32 (Z.lor (Z.lor (Z.shiftl (ubfx i 12 14) 12) (Z.shiftl (ubfx i 15 19) 15))
                  (Z.lor (Z.shiftl (ubfx i 20 24) 20) (Z.shiftl (ubfx i 25 31) 25))) = i.
Proof.
  intros Hi He. rewrite <- (swrap_small 32 i) at 5 by (lia || done).
  apply swrap_ext; [lia|]. bit_blast 32%nat. all: by rewrite (low_bits i 12) by (lia || done).
Qed.
