(* ===== verification/FrvdecProofs.v ===== *)
(** * The decoder inverts the encoder, for [Frvdec.v]

    Every instruction of the
    table decodes to itself; every decoded instruction is well formed; a
    compressed instruction decodes to what its 32-bit expansion decodes to. *)

From Stdlib Require Import ZArith Lia.
From stdpp Require Import base numbers list list_numbers option gmap.
From S2P Require Import Prelude Machine Minilibc Frvdec FrvIsa FrvdecImm.

(** ** The switch agrees with the table *)

Definition enc_of (f : Fmt) : Z :=
  match f with
  | FR => ENC_R | FR_rm => Z.lor ENC_R ENC_F_RM
  | FR2 => ENC_R2 | FR2_rm => Z.lor ENC_R2 ENC_F_RM | FR4 => Z.lor ENC_R4 ENC_F_RM
  | FI => ENC_I | FSh => ENC_I_SHAMT | FS => ENC_S | FB => ENC_B | FU => ENC_U | FJ => ENC_J
  | FAmo => Z.lor ENC_R ENC_F_IMM_AMO
  end.

(** The fixed fields of the row are found in the word. *)
Definition row_fits (r : Row) (inst f3 f7 : Z) : Prop :=
  match r_fmt r with
  | FR => f3 = r_f3 r /\ f7 = r_f7 r
  | FR_rm => f7 = r_f7 r
  | FR2 => f3 = r_f3 r /\ f7 = r_f7 r
  | FR2_rm => f7 = r_f7 r /\ ubfx inst 20 24 = r_rs2 r
  | FR4 => ubfx inst 25 26 = r_f7 r
  | FI | FS | FB => f3 = r_f3 r
  | FSh => f3 = r_f3 r /\ (f7 = 0 + 2 * r_f7 r \/ f7 = 1 + 2 * r_f7 r)
  | FU | FJ => True
  | FAmo => f3 = r_f3 r /\ Z.shiftr f7 2 = r_f7 r
  end.

Lemma switch4_row r inst f3 f7 :
  In r isa -> row_fits r inst f3 f7 ->
  frv_switch4 inst (r_op r) f3 f7 = Some (r_mnem r, enc_of (r_fmt r)) /\ r_mnem r <> 0 /\ 0 <= r_op r < 32.
Proof.
  revert r inst f3 f7.
  assert (Forall (fun r => forall inst f3 f7, row_fits r inst f3 f7 ->
    frv_switch4 inst (r_op r) f3 f7 = Some (r_mnem r, enc_of (r_fmt r)) /\ r_mnem r <> 0 /\ 0 <= r_op r < 32) isa) as F.
  { unfold isa. repeat (apply Forall_cons; split; [|]); [.. | apply Forall_nil_2]; intros inst f3 f7 Hr;
      (split; [|split; [discriminate | cbn; lia]]); revert Hr; cbv [row_fits r_fmt r_f3 r_f7 r_rs2 r_op r_mnem];
      intros Hr; repeat match goal with H : _ /\ _ |- _ => destruct H end;
      repeat match goal with H : _ \/ _ |- _ => destruct H end;
      repeat match goal with H : _ = _ |- _ =>
        first [rewrite H; clear H | subst] end; try reflexivity.
    all: cbv [frv_switch4 frv_amo frv_fp]; repeat match goal with H : _ = _ |- _ => rewrite H; clear H end; reflexivity. }
  intros r inst f3 f7 Hr. rewrite List.Forall_forall in F. by apply F.
Qed.

(** ** Encoding and decoding *)

Lemma has_enc f :
  has (enc_of f) ENC_F_RD = fmt_rd f /\ has (enc_of f) ENC_F_RS1 = fmt_rs1 f /\
  has (enc_of f) ENC_F_RS2 = fmt_rs2 f /\ has (enc_of f) ENC_F_RS3 = fmt_rs3 f /\
  has (enc_of f) ENC_F_RM = fmt_rm f.
Proof. destruct f; repeat split. Qed.

Definition imm_of (f : Fmt) (w : Z) : Z :=
  match f with
  | FI => imm4_i w | FS => imm4_s w | FB => imm4_b w | FU => imm4_u w | FJ => imm4_j w
  | FSh => ubfx w 20 25 | FAmo => ubfx w 25 26 | _ => 0
  end.

Lemma imm4_enc f w : imm4 (enc_of f) w = imm_of f w.
Proof. by destruct f. Qed.

(** What [frv_decode4] assigns for an encoding of the table. *)
Definition decoded (f : Fmt) (m w : Z) (i0 : FrvInst) : FrvInst :=
  mkFrv m (if fmt_rd f then ubfx w 7 11 else FRV_REG_INV) (if fmt_rs1 f then ubfx w 15 19 else FRV_REG_INV)
    (if fmt_rs2 f then ubfx w 20 24 else FRV_REG_INV) (if fmt_rs3 f then ubfx w 27 31 else FRV_REG_INV)
    (if fmt_rm f then ubfx w 12 14 else misc i0) (imm_of f w).

Lemma decode4_switch w i0 m f :
  frv_switch4 w (ubfx w 2 6) (ubfx w 12 14) (ubfx w 25 31) = Some (m, enc_of f) -> m <> 0 ->
  frv_decode4 w i0 = (4, decoded f m w i0).
Proof.
  intros E Hm. unfold frv_decode4. rewrite E, (proj2 (Z.eqb_neq m 0) Hm).
  destruct (has_enc f) as (-> & -> & -> & -> & ->). by rewrite imm4_enc.
Qed.

Lemma decode4_word r frd f3 frs1 frs2 f7 i0 :
  In r isa -> let w := word (r_op r) frd f3 frs1 frs2 f7 in
  fields_ok 0 frd f3 frs1 frs2 f7 -> row_fits r w f3 f7 ->
  frv_decode4 w i0 = (4, decoded (r_fmt r) (r_mnem r) w i0).
Proof.
  intros Hr w Hf Hfit. destruct (switch4_row r w f3 f7 Hr Hfit) as (E & Hm & Hop).
  assert (fields_ok (r_op r) frd f3 frs1 frs2 f7) as Hf' by (unfold fields_ok in *; tauto).
  apply decode4_switch; [|done]. unfold w at 2 3 4.
  by rewrite word_op, word_f3, word_f7.
Qed.

Lemma row_fixed r : In r isa -> 0 <= r_op r < 32 /\ r_op r `mod` 8 <> 7 /\ 0 <= r_f3 r < 8 /\ 0 <= r_rs2 r < 32 /\
  match r_fmt r with FR4 => 0 <= r_f7 r < 4 | FSh => 0 <= r_f7 r < 64 | FAmo => 0 <= r_f7 r < 32
  | _ => 0 <= r_f7 r < 128 end.
Proof.
  assert (forallb (fun r => (0 <=? r_op r) && (r_op r <? 32) && negb (r_op r `mod` 8 =? 7) && (0 <=? r_f3 r) && (r_f3 r <? 8) &&
    (0 <=? r_rs2 r) && (r_rs2 r <? 32) && (0 <=? r_f7 r) &&
    (r_f7 r <? match r_fmt r with FR4 => 4 | FSh => 64 | FAmo => 32 | _ => 128 end)) isa = true) as H by reflexivity.
  rewrite forallb_forall in H. intros Hr. specialize (H r Hr).
  repeat (apply andb_prop in H; destruct H as [H ?]). apply negb_true_iff in H6.
  repeat split; try lia. destruct (r_fmt r); lia.
Qed.

(** The fields of an encoded instruction are in range, the fixed ones are
    found again, and the decoder reads the operands back. *)
Section Encoded.
Context (r : Row) (i : FrvInst) (Hr : In r isa) (Hok : operands_ok (r_fmt r) i).

Ltac open_row :=
  destruct (row_fixed r Hr) as (Hop & _ & Hf3 & Hc2 & Hf7); destruct Hok as (Hrd & H1 & H2 & H3 & Him & Hrm);
  destruct r as [rm fmt op rf3 rf7 c2], i as [im ird irs1 irs2 irs3 imisc iimm];
  cbn [r_fmt r_op r_f3 r_f7 r_rs2 r_mnem mnem rd rs1 rs2 rs3 misc imm] in *;
  destruct fmt; cbn [fmt_rd fmt_rs1 fmt_rs2 fmt_rs3 fmt_rm reg_ok imm_ok parts imm rd rs1 rs2 rs3 misc] in *.
Ltac bound_parts :=
  repeat match goal with |- context [ubfx ?v ?a ?b] =>
    let y := fresh "y" in pose proof (ubfx_bound v a b ltac:(lia)); set (y := ubfx v a b) in *; clearbody y end.

Lemma parts_ok frd f3 frs1 frs2 f7 : parts r i = (frd, f3, frs1, frs2, f7) -> fields_ok 0 frd f3 frs1 frs2 f7.
Proof.
  intros E. enough (let '(frd, f3, frs1, frs2, f7) := parts r i in fields_ok 0 frd f3 frs1 frs2 f7) as Q
    by (rewrite E in Q; exact Q). clear E.
  open_row; unfold fields_ok; bound_parts; try specialize (Hrm eq_refl); repeat split; lia.
Qed.

Lemma parts_fit frd f3 frs1 frs2 f7 :
  parts r i = (frd, f3, frs1, frs2, f7) -> row_fits r (word (r_op r) frd f3 frs1 frs2 f7) f3 f7.
Proof.
  intros E. pose proof (parts_ok _ _ _ _ _ E) as Hf.
  assert (fields_ok (r_op r) frd f3 frs1 frs2 f7) as Hw
    by (destruct (row_fixed r Hr) as (? & _); unfold fields_ok in *; tauto).
  pose proof (word_rs2 _ _ _ _ _ _ Hw) as W2.
  pose proof (word_f7_sub _ _ _ _ _ _ Hw 0 1) as W7.
  open_row; injection E as <- <- <- <- <-; unfold row_fits; cbn [r_fmt r_f3 r_f7 r_rs2 r_op] in *; auto.
  - change 26 with (25 + 1). change 25 with (25 + 0) at 1. rewrite W7 by lia.
    apply (ubfx_low rf7 irs3 2); lia.
  - split; [done|]. pose proof (ubfx_bound iimm 5 5 ltac:(lia)). lia.
  - split; [done|]. rewrite Z.shiftr_div_pow2 by lia. change (2 ^ 2) with 4. zdm.
Qed.

Lemma imm_of_parts frd f3 frs1 frs2 f7 :
  parts r i = (frd, f3, frs1, frs2, f7) -> imm_of (r_fmt r) (word (r_op r) frd f3 frs1 frs2 f7) = imm i.
Proof.
  intros E. pose proof (parts_ok _ _ _ _ _ E) as Hf.
  assert (fields_ok (r_op r) frd f3 frs1 frs2 f7) as Hw
    by (destruct (row_fixed r Hr) as (? & _); unfold fields_ok in *; tauto).
  set (w := word (r_op r) frd f3 frs1 frs2 f7).
  pose proof (word_rd _ _ _ _ _ _ Hw : ubfx w 7 11 = frd) as Wd.
  pose proof (word_f3 _ _ _ _ _ _ Hw : ubfx w 12 14 = f3) as W3.
  pose proof (word_rs1 _ _ _ _ _ _ Hw : ubfx w 15 19 = frs1) as W1.
  pose proof (word_rs2 _ _ _ _ _ _ Hw : ubfx w 20 24 = frs2) as W2.
  pose proof (word_f7 _ _ _ _ _ _ Hw : ubfx w 25 31 = f7) as W7.
  pose proof (fun c d => ubfx_sub w 7 11 c d ltac:(lia)) as Sd.
  pose proof (fun c d => ubfx_sub w 20 24 c d ltac:(lia)) as S2.
  pose proof (fun c d => ubfx_sub w 25 31 c d ltac:(lia)) as S7.
  rewrite Wd in Sd. rewrite W2 in S2. rewrite W7 in S7.
  clearbody w. open_row; injection E as <- <- <- <- <-; unfold imm_of; auto.
  - rewrite imm4_i_cat. unfold cat_i. rewrite W2, W7. by apply join_i.
  - change (ubfx w 20 25) with (ubfx w 20 (24 + 1)). rewrite ubfx_snoc by lia.
    change (ubfx w (24 + 1) (24 + 1)) with (ubfx w (25 + 0) (25 + 0)). rewrite W2, S7 by lia.
    change (24 - 20 + 1) with 5. change (2 ^ 5) with 32. rewrite <- (join_sh iimm) at 3 by lia. do 2 f_equal.
    pose proof (ubfx_bound iimm 5 5 ltac:(lia)). apply (ubfx_low _ rf7 1); lia.
  - rewrite imm4_s_cat. unfold cat_s. rewrite Wd, W7. by apply join_i.
  - rewrite imm4_b_cat. unfold cat_b.
    destruct (split_1_4 iimm 1 4 11) as [P1 P2]; [lia..|]. destruct (split_6_1 iimm 5 10 12) as [P3 P4]; [lia..|].
    change (ubfx w 8 11) with (ubfx w (7 + 1) (7 + 4)). change (ubfx w 7 7) with (ubfx w (7 + 0) (7 + 0)).
    change (ubfx w 25 30) with (ubfx w (25 + 0) (25 + 5)). change (ubfx w 31 31) with (ubfx w (25 + 6) (25 + 6)).
    rewrite !Sd, !S7, P1, P2, P3, P4 by lia. apply join_b; tauto.
  - rewrite imm4_u_cat. unfold cat_u. rewrite W3, W1, W2, W7. apply join_u; tauto.
  - rewrite imm4_j_cat. unfold cat_j.
    destruct (split_1_4 iimm 1 4 11) as [P1 P2]; [lia..|]. destruct (split_6_1 iimm 5 10 20) as [P3 P4]; [lia..|].
    change (ubfx w 21 24) with (ubfx w (20 + 1) (20 + 4)). change (ubfx w 20 20) with (ubfx w (20 + 0) (20 + 0)).
    change (ubfx w 25 30) with (ubfx w (25 + 0) (25 + 5)). change (ubfx w 31 31) with (ubfx w (25 + 6) (25 + 6)).
    rewrite !S2, !S7, W3, W1, P1, P2, P3, P4 by lia. apply join_j; tauto.
  - change (ubfx w 25 26) with (ubfx w (25 + 0) (25 + 1)). rewrite S7 by lia. apply (ubfx_low iimm rf7 2); lia.
Qed.
End Encoded.

Lemma encode_spec r i :
  In r isa -> operands_ok (r_fmt r) i ->
  exists frd f3 frs1 frs2 f7, parts r i = (frd, f3, frs1, frs2, f7) /\
    encode r i = word (r_op r) frd f3 frs1 frs2 f7 /\ fields_ok (r_op r) frd f3 frs1 frs2 f7.
Proof.
  intros Hr Hok. destruct (parts r i) as [[[[frd f3] frs1] frs2] f7] eqn:E.
  exists frd, f3, frs1, frs2, f7. split; [done|]. unfold encode. rewrite E. split; [done|].
  pose proof (parts_ok r i Hr Hok _ _ _ _ _ E) as Hf. destruct (row_fixed r Hr) as (? & _).
  unfold fields_ok in *; tauto.
Qed.

(** The registers and the rounding mode. *)
Lemma decoded_parts r i i0 frd f3 frs1 frs2 f7 :
  In r isa -> operands_ok (r_fmt r) i -> mnem i = r_mnem r -> (fmt_rm (r_fmt r) = false -> misc i = misc i0) ->
  parts r i = (frd, f3, frs1, frs2, f7) ->
  decoded (r_fmt r) (r_mnem r) (word (r_op r) frd f3 frs1 frs2 f7) i0 = i.
Proof.
  intros Hr Hok Hm Hmisc E. pose proof (imm_of_parts r i Hr Hok _ _ _ _ _ E) as Himm.
  pose proof (parts_ok r i Hr Hok _ _ _ _ _ E) as Hf. destruct (row_fixed r Hr) as (Hop & _ & _ & _ & Hf7).
  assert (fields_ok (r_op r) frd f3 frs1 frs2 f7) as Hw by (unfold fields_ok in *; tauto).
  unfold decoded. rewrite Himm. change (ubfx ?w 27 31) with (ubfx w (25 + 2) (25 + 6)).
  rewrite word_rd, word_rs1, word_rs2, word_f3, word_f7_sub by (lia || done).
  destruct Hok as (Hrd & H1 & H2 & H3 & _ & _), r as [rm fmt op rf3 rf7 c2], i as [im ird irs1 irs2 irs3 imisc iimm].
  cbn [r_fmt r_op r_f3 r_f7 r_rs2 r_mnem mnem rd rs1 rs2 rs3 misc imm] in *. subst im.
  destruct fmt; cbn [fmt_rd fmt_rs1 fmt_rs2 fmt_rs3 fmt_rm reg_ok parts imm rd rs1 rs2 rs3 misc] in *;
    injection E as <- <- <- <- <-; f_equal; auto; try (symmetry; by auto).
  apply (ubfx_high rf7 irs3 2 5); lia.
Qed.

Lemma decode4_encode r i i0 :
  In r isa -> operands_ok (r_fmt r) i -> mnem i = r_mnem r -> (fmt_rm (r_fmt r) = false -> misc i = misc i0) ->
  frv_decode4 (encode r i) i0 = (4, i).
Proof.
  intros Hr Hok Hm Hmisc. destruct (encode_spec r i Hr Hok) as (frd & f3 & frs1 & frs2 & f7 & E & -> & Hf).
  rewrite (decode4_word r); [f_equal; by apply decoded_parts | done | | by apply parts_fit with i].
  unfold fields_ok in *. repeat split; lia.
Qed.

(** ** Bytes *)

Lemma land_3 b : Z.land b 3 = b `mod` 4.
Proof. apply (Z.land_ones b 2). lia. Qed.

Lemma LOAD_LE_loadZ m a : LOAD_LE_2 m a = loadZ m 2 a /\ LOAD_LE_4 m a = loadZ m 4 a.
Proof.
  unfold LOAD_LE_4, LOAD_LE_2, loadZ. cbn [load_bytes little_endian_to_Z].
  rewrite !Z.shiftl_0_l, !Z.lor_0_r, !Z.shiftl_lor, !Z.shiftl_shiftl, !Z.lor_assoc by lia.
  replace (a + 1 + 1) with (a + 2) by lia. replace (a + 2 + 1) with (a + 3) by lia. done.
Qed.

(** The first byte of an instruction. *)
Lemma getb_storeZ4 m a v : getb (storeZ m 4 a v) a = v `mod` 256.
Proof.
  assert (loadZ (storeZ m 4 a v) 1 a = v `mod` 2 ^ 8) as E.
  { unfold loadZ, storeZ. replace a with (a + 0) at 2 by lia. rewrite load_store_inside by (rewrite ?length_le; lia).
    change (Z_to_little_endian (Z.of_nat 4) 8 v) with (Z.land v (Z.ones 8) :: Z_to_little_endian 3 8 (Z.shiftr v 8)).
    change (take 1 (drop (Z.to_nat 0) (?x :: ?l))) with [x]. cbn [little_endian_to_Z].
    by rewrite Z.shiftl_0_l, Z.lor_0_r, Z.land_ones by lia. }
  unfold loadZ in E. cbn [load_bytes little_endian_to_Z] in E. by rewrite Z.shiftl_0_l, Z.lor_0_r in E.
Qed.

Lemma frv_decode_word m buf bufsz opt i0 v :
  4 <= bufsz -> in_u 32 v -> v `mod` 4 = 3 -> ubfx v 2 4 <> 7 ->
  frv_decode (storeZ m 4 buf v) bufsz buf opt i0 = frv_decode4 v i0.
Proof.
  intros Hsz Hv H3 H7. unfold frv_decode.
  rewrite (proj2 (Z.ltb_ge bufsz 2)), (proj2 (Z.ltb_ge bufsz 4)), getb_storeZ4, land_3 by lia.
  replace ((v `mod` 256) `mod` 4) with 3 by zdm. change (negb (3 =? 3)) with false. cbv iota.
  assert (Z.land (v `mod` 256) 28 = 4 * ubfx v 2 4) as ->.
  { rewrite (Z.mul_comm 4). change 4 with (2 ^ 2) at 2. rewrite <- Z.shiftl_mul_pow2 by lia.
    change (v `mod` 256) with (wrap 8 v). apply bits_eq. intros i Hi. destruct (Z.ltb_spec i 8) as [Hlt|Hge].
    - clear - Hlt Hi. pose proof (conj Hi Hlt) as Hi'. clear Hi Hlt. revert i Hi'. bit_blast 8%nat.
    - autorewrite with bits. rewrite (bits_above 5 28 i), (proj2 (Z.ltb_ge (i - 2) _)) by (done || lia).
      by rewrite !andb_false_r. }
  rewrite (proj2 (Z.eqb_neq _ _)) by lia. cbn [negb].
  destruct (LOAD_LE_loadZ (storeZ m 4 buf v) buf) as [_ ->]. rewrite loadZ_storeZ. by rewrite wrap_small.
Qed.

Lemma encode_word r i :
  In r isa -> operands_ok (r_fmt r) i ->
  in_u 32 (encode r i) /\ encode r i `mod` 4 = 3 /\ ubfx (encode r i) 2 4 <> 7.
Proof.
  intros Hr Hok. destruct (encode_spec r i Hr Hok) as (frd & f3 & frs1 & frs2 & f7 & _ & -> & Hf).
  split; [unfold fields_ok, word, in_u in *; lia|]. split; [unfold fields_ok, word in *; zdm|].
  destruct (row_fixed r Hr) as (_ & Hop7 & _).
  pose proof (ubfx_sub (word (r_op r) frd f3 frs1 frs2 f7) 2 6 0 2) as E.
  change (2 + 0) with 2 in E. change (2 + 2) with 4 in E. rewrite E, word_op, ubfx_div by (lia || done). cbn.
  by rewrite Z.div_1_r.
Qed.

(** C6. Round trip with the encoder of the manual: an instruction of the table
    whose operands fit its format, encoded and stored as four bytes, is decoded
    to itself by [frv_decode], whatever the options and the old contents of the
    record (of which only [misc] survives, where the format has no rounding
    mode). *)
Theorem frv_decode_encode m buf bufsz opt r i i0 :
  In r isa -> operands_ok (r_fmt r) i -> mnem i = r_mnem r ->
  (fmt_rm (r_fmt r) = false -> misc i = misc i0) -> 4 <= bufsz ->
  frv_decode (storeZ m 4 buf (encode r i)) bufsz buf opt i0 = (4, i).
Proof.
  intros Hr Hok Hm Hmisc Hsz. destruct (encode_word r i Hr Hok) as (Hu & H3 & H7).
  rewrite frv_decode_word by done. by apply decode4_encode.
Qed.
Lemma frv_decode_encode_witness :
  frv_decode (storeZ ∅ 4 0x1000 (encode (mkRow FRV_BNE FB 0x18 1 0 0) (mkFrv FRV_BNE 255 15 0 255 0 (-20))))
    4 0x1000 FRV_RV64 (mkFrv 0 0 0 0 0 0 0) = (4, mkFrv FRV_BNE 255 15 0 255 0 (-20)).
Proof.
  apply frv_decode_encode; [vm_compute; tauto | | reflexivity | reflexivity | lia].
  unfold operands_ok. cbn. unfold in_s. repeat split; lia || discriminate || reflexivity.
Defined.

(** ** Decoded instructions are well formed *)

Definition fmt_eqb (a b : Fmt) : bool :=
  match a, b with
  | FR, FR | FR_rm, FR_rm | FR2, FR2 | FR2_rm, FR2_rm | FR4, FR4 | FI, FI | FSh, FSh | FS, FS | FB, FB
  | FU, FU | FJ, FJ | FAmo, FAmo => true
  | _, _ => false
  end.

Definition known (m : Z) (f : Fmt) : bool :=
  match row_of m with Some r => fmt_eqb (r_fmt r) f | None => false end.

Lemma known_row m f : known m f = true -> exists r, row_of m = Some r /\ r_fmt r = f.
Proof.
  unfold known. destruct (row_of m) as [r|]; [|done]. intros E. exists r. split; [done|].
  destruct (r_fmt r), f; done || discriminate.
Qed.

Lemma row_of_In m r : row_of m = Some r -> In r isa /\ r_mnem r = m.
Proof. intros E. apply List.find_some in E as [Hin E]. split; [done|]. lia. Qed.

Lemma known_elem l k f :
  forallb (fun m => (m =? 0) || known m f) l = true -> elem l k = 0 \/ known (elem l k) f = true.
Proof.
  intros H. unfold elem. destruct (l !! Z.to_nat k) as [m|] eqn:E; [|by left]. cbn.
  apply list_elem_of_lookup_2, list_elem_of_In in E. rewrite forallb_forall in H. specialize (H m E).
  apply orb_prop in H as [H|H]; [left; lia | by right].
Qed.

(** Every result of the switch is zero or an instruction of the table with the
    encoding of its format. *)
Lemma switch4_known inst opcode funct3 funct7 m enc :
  frv_switch4 inst opcode funct3 funct7 = Some (m, enc) -> m = 0 \/ exists f, enc = enc_of f /\ known m f = true.
Proof.
  assert (forall f x e, (x = 0 \/ known x f = true) -> e = enc_of f -> Some (x, e) = Some (m, enc) ->
    m = 0 \/ exists f, enc = enc_of f /\ known m f = true) as K.
  { intros f x e Hx -> [= -> <-]. destruct Hx; [by left|]. right. by exists f. }
  assert (Some (0, 0) = Some (m, enc) -> m = 0 \/ exists f, enc = enc_of f /\ known m f = true) as K0
    by (intros [= <- _]; by left).
  unfold frv_switch4, frv_imm_op, frv_imm_op32, frv_amo, frv_op, frv_op32, frv_fp.
  repeat case_match; try discriminate; try exact K0.
  all: let leaf f := (apply (K f); [first [right; reflexivity | apply known_elem; reflexivity] | reflexivity]) in
    first [leaf FR | leaf FR_rm | leaf FR2 | leaf FR2_rm | leaf FR4 | leaf FI | leaf FSh | leaf FS | leaf FB
          | leaf FU | leaf FJ | leaf FAmo].
Qed.

Lemma mod_low_bits x k : 0 <= k -> (forall j, 0 <= j < k -> Z.testbit x j = false) -> x `mod` 2 ^ k = 0.
Proof.
  intros Hk H. apply bits_eq. intros j Hj. rewrite Z.bits_0. destruct (Z.ltb_spec j k).
  - rewrite Z.mod_pow2_bits_low by lia. apply H. lia.
  - by rewrite Z.mod_pow2_bits_high by lia.
Qed.

Lemma imm_of_ok f w : imm_ok f (imm_of f w).
Proof.
  destruct f; unfold imm_ok, imm_of; try done.
  - rewrite imm4_i_cat. by apply swrap_range.
  - apply (ubfx_bound w 20 25). lia.
  - rewrite imm4_s_cat. by apply swrap_range.
  - rewrite imm4_b_cat. split; [by apply swrap_range|]. apply (mod_low_bits _ 1); [lia|].
    unfold cat_b. bit_blast 1%nat.
  - rewrite imm4_u_cat. split; [by apply swrap_range|]. apply mod_low_bits; [lia|].
    unfold cat_u. bit_blast 12%nat.
  - rewrite imm4_j_cat. split; [by apply swrap_range|]. apply (mod_low_bits _ 1); [lia|].
    unfold cat_j. bit_blast 1%nat.
  - apply (ubfx_bound w 25 26). lia.
Qed.

Lemma decoded_ok f m w i0 : operands_ok f (decoded f m w i0).
Proof.
  unfold operands_ok, decoded. cbn [rd rs1 rs2 rs3 misc imm].
  pose proof (imm_of_ok f w) as Hi. pose proof (ubfx_bound w 7 11 ltac:(lia)). pose proof (ubfx_bound w 15 19 ltac:(lia)).
  pose proof (ubfx_bound w 20 24 ltac:(lia)). pose proof (ubfx_bound w 27 31 ltac:(lia)).
  pose proof (ubfx_bound w 12 14 ltac:(lia)).
  destruct f; cbn [fmt_rd fmt_rs1 fmt_rs2 fmt_rs3 fmt_rm reg_ok];
    repeat split; try lia; try discriminate; try reflexivity; try exact Hi; apply Hi.
Qed.

Lemma frv_decode4_cases w i0 :
  frv_decode4 w i0 = (FRV_UNDEF, i0) \/
  exists f m, known m f = true /\ m <> 0 /\ frv_decode4 w i0 = (4, decoded f m w i0).
Proof.
  destruct (frv_switch4 w (ubfx w 2 6) (ubfx w 12 14) (ubfx w 25 31)) as [[m enc]|] eqn:E.
  2: { left. unfold frv_decode4. by rewrite E. }
  destruct (switch4_known _ _ _ _ _ _ E) as [->|(f & -> & Hk)].
  { left. unfold frv_decode4. by rewrite E. }
  destruct (Z.eqb_spec m 0) as [->|Hm]; [left; unfold frv_decode4; by rewrite E|].
  right. exists f, m. split; [done|]. split; [done|]. by apply decode4_switch.
Qed.

(** ** Compressed instructions *)

(** A disjunction of fields below a sign bit. *)
Lemma lor_in_s n a b : 0 < n -> in_s n a -> 0 <= b < 2 ^ (n - 1) -> in_s n (Z.lor a b).
Proof.
  intros Hn Ha Hb. rewrite <- (swrap_small n a) by done.
  replace (Z.lor (swrap n a) b) with (swrap n (Z.lor a b)); [by apply swrap_range|].
  apply bits_eq. intros i Hi. autorewrite with bits.
  destruct (Z.ltb_spec i (n - 1)).
  - by rewrite Z.min_l by lia.
  - rewrite Z.min_r, !(bits_above (n - 1) b) by (done || lia). done.
Qed.
Lemma lor_in_u n a b : 0 <= n -> in_u n a -> in_u n b -> in_u n (Z.lor a b).
Proof.
  intros Hn Ha Hb. rewrite <- (wrap_small n a), <- (wrap_small n b) by done.
  replace (Z.lor (wrap n a) (wrap n b)) with (wrap n (Z.lor a b)); [by apply wrap_range|].
  apply bits_eq. intros i Hi. autorewrite with bits. by destruct (Z.testbit a i), (Z.testbit b i), (i <? n).
Qed.
Lemma field_in_u v a b k n : 0 <= a <= b -> 0 <= k -> k + (b - a + 1) <= n -> in_u n (Z.shiftl (ubfx v a b) k).
Proof.
  intros Hab Hk Hn. pose proof (ubfx_bound v a b Hab). rewrite Z.shiftl_mul_pow2 by lia. unfold in_u.
  assert (2 ^ (b - a + 1) * 2 ^ k <= 2 ^ n) by (rewrite <- Z.pow_add_r by lia; apply Z.pow_le_mono_r; lia). nia.
Qed.

Definition fits (e : ImmEnc) (f : Fmt) : bool :=
  match f, e with
  | FR, ENC_I_NONE | FSh, ENC_NZU_5_40 | FJ, ENC_I_11_4_98_10_6_7_31_5 | FB, ENC_I_8_43_76_21_5
  | FU, ENC_NZI_17_1612 => true
  | (FI | FS), (ENC_I_NONE | ENC_U_53_76 | ENC_U_53_26 | ENC_U_5_42_76 | ENC_U_5_43_86 | ENC_U_52_76 | ENC_U_53_86
    | ENC_I_5_40 | ENC_NZU_54_96_2_3 | ENC_NZI_5_40 | ENC_NZI_9_4_6_87_5) => true
  | _, _ => false
  end.

Lemma SBFXIZ_in_s v a shl n : 0 <= a -> 0 <= shl -> shl + 1 <= n -> in_s n (SBFXIZ v a a shl).
Proof.
  intros Ha Hs Hn. unfold SBFXIZ. replace (a - a + 1 + shl) with (shl + 1) by lia.
  pose proof (swrap_range (shl + 1) (Z.shiftl (ubfx v a a) shl) ltac:(lia)) as R. unfold in_s in *.
  assert (2 ^ (shl + 1 - 1) <= 2 ^ (n - 1)) by (apply Z.pow_le_mono_r; lia). lia.
Qed.

Lemma in_u_in_s n x : 0 < n -> in_u (n - 1) x -> in_s n x.
Proof. unfold in_u, in_s. lia. Qed.

(** Bounds of disjunctions of fields, and their low zero bits. *)
Ltac field_range :=
  repeat match goal with
  | |- in_s ?n (Z.lor ?a ?b) => apply (lor_in_s n a b); [lia | | change (in_u (n - 1) b)]
  | |- in_u _ (Z.lor _ _) => apply lor_in_u; [lia | |]
  | |- in_u _ (Z.shiftl (ubfx _ _ _) _) => apply field_in_u; lia
  | |- in_u ?n (ubfx ?v ?a ?b) => apply (field_in_u v a b 0 n); lia
  | |- in_s _ (SBFXIZ _ _ _ _) => apply SBFXIZ_in_s; lia
  | |- in_s ?n (Z.shiftl ?a ?b) => apply in_u_in_s; [lia|]
  | |- in_s ?n 0 => unfold in_s; lia
  end.

Lemma imm2_ok e f inst i : imm2 e inst = Some i -> fits e f = true -> imm_ok f i.
Proof.
  intros E Hf. destruct e, f; try (clear E; discriminate Hf); injection E as <-; cbn [imm_ok]; [reflexivity|..].
  all: lazymatch goal with
    | |- in_s _ _ /\ _ => split; [field_range|]
    | |- in_s _ _ => field_range
    | |- _ => idtac end.
  - apply (mod_low_bits _ 1); [lia|]. unfold SBFXIZ. bit_blast 1%nat.
  - apply (mod_low_bits _ 1); [lia|]. unfold SBFXIZ. bit_blast 1%nat.
  - match goal with |- 0 <= ?x < 64 => change (in_u 6 x) end. field_range.
  - apply mod_low_bits; [lia|]. unfold SBFXIZ. bit_blast 12%nat.
Qed.

Definition sel_ok (s : Sel2) (f : Fmt) : Prop :=
  known (c_mnem s) f = true /\ fits (c_imm s) f = true /\ reg_ok (fmt_rd f) (c_rd s) /\
  reg_ok (fmt_rs1 f) (c_rs1 s) /\ reg_ok (fmt_rs2 f) (c_rs2 s) /\ fmt_rs3 f = false /\ fmt_rm f = false.

Lemma switch2_known inst opt s :
  frv_switch2 inst opt = Some s ->
  c_mnem s = 0 \/ s = mkSel FRV_ECALL FRV_REG_INV FRV_REG_INV FRV_REG_INV ENC_I_EBREAK \/ exists f, sel_ok s f.
Proof.
  pose proof (ubfx_bound inst 2 6 ltac:(lia)) as B1. pose proof (ubfx_bound inst 2 4 ltac:(lia)) as B2.
  pose proof (ubfx_bound inst 7 11 ltac:(lia)) as B3. pose proof (ubfx_bound inst 7 9 ltac:(lia)) as B4.
  unfold frv_switch2, frv_c_jr_add, frv_c_arith. cbv zeta.
  set (rs2f := ubfx inst 2 6) in *. set (rs2c := ubfx inst 2 4) in *. set (rs1f := ubfx inst 7 11) in *.
  set (rs1c := ubfx inst 7 9) in *. clearbody rs2f rs2c rs1f rs1c.
  assert (forall s f, sel_ok s f -> c_mnem s = 0 \/
    s = mkSel FRV_ECALL FRV_REG_INV FRV_REG_INV FRV_REG_INV ENC_I_EBREAK \/ exists f, sel_ok s f) as K
    by (intros s' f' Hs'; right; right; by exists f').
  repeat case_match; try discriminate; intros [= <-]; try (by left); try (by right; left).
  all: try (let leaf f := (apply (K _ f); unfold sel_ok;
              cbn [c_mnem c_imm c_rd c_rs1 c_rs2 fmt_rd fmt_rs1 fmt_rs2 fmt_rs3 fmt_rm reg_ok];
              repeat split; first [reflexivity | lia]) in
    first [leaf FI | leaf FS | leaf FSh | leaf FR | leaf FJ | leaf FB | leaf FU]).
  destruct (known_elem [FRV_SUB; FRV_XOR; FRV_OR; FRV_AND; FRV_SUBW; FRV_ADDW]
    (Z.lor (ubfx inst 5 6) (Z.shiftl (ubfx inst 12 12) 2)) FR) as [E|E]; [reflexivity | by left |].
  apply (K _ FR). split; [exact E|]. cbn. repeat split; lia.
Qed.

(** The outcomes of [frv_decode2]; C.EBREAK is the one result with a mnemonic
    of the table but without its register operands. *)
Lemma frv_decode2_cases inst opt i0 :
  (frv_decode2 inst opt i0).1 = FRV_UNDEF \/
  exists i, frv_decode2 inst opt i0 = (2, i) /\ misc i = misc i0 /\
    (i = mkFrv FRV_ECALL FRV_REG_INV FRV_REG_INV FRV_REG_INV FRV_REG_INV (misc i0) 1 \/
     exists f, known (mnem i) f = true /\ operands_ok f i /\ fmt_rm f = false).
Proof.
  unfold frv_decode2. destruct (frv_switch2 inst opt) as [s|] eqn:Es; [|by left].
  destruct (Z.eqb_spec (c_mnem s) 0) as [H0|H0]; [by left|].
  destruct (imm2 (c_imm s) inst) as [v|] eqn:Ei; [|by left].
  case_match eqn:Hz; [by left|]. clear Hz. right. eexists. split; [reflexivity|]. split; [done|].
  destruct (switch2_known inst opt s Es) as [?|[->|(f & Hk & Hf & Hrd & H1 & H2 & H3 & Hrm)]]; [done| |].
  2: { right. exists f. split; [done|]. split; [|done]. unfold operands_ok. cbn [rd rs1 rs2 rs3 imm misc].
    repeat split; try done; try congruence; [by rewrite H3 | by apply imm2_ok with (c_imm s) inst]. }
  left. by injection Ei as <-.
Qed.

(** ** The decoder *)

Definition c_ebreak (i : FrvInst) : Prop :=
  i = mkFrv FRV_ECALL FRV_REG_INV FRV_REG_INV FRV_REG_INV FRV_REG_INV (misc i) 1.

(** C7. Decoded instructions are well typed: [frv_decode] returns an error or
    the length 2 or 4, which never exceeds the buffer; an instruction it
    returns has a mnemonic of the table, registers below 32 exactly where its
    format has them and [FRV_REG_INV] elsewhere, and an immediate in the range
    and of the alignment of its format.  The one exception is C.EBREAK, which
    has no registers at all. *)
Theorem frv_decode_typed m bufsz buf opt i0 ret i :
  frv_decode m bufsz buf opt i0 = (ret, i) ->
  ret = FRV_UNDEF \/ ret = FRV_PARTIAL /\ i = i0 \/
  (ret = 2 \/ ret = 4) /\ ret <= bufsz /\ (inst_ok i \/ ret = 2 /\ c_ebreak i).
Proof.
  unfold frv_decode. destruct (Z.ltb_spec bufsz 2); [intros [= <- <-]; tauto|].
  destruct (negb (Z.land (getb m buf) 3 =? 3)).
  - intros E. destruct (frv_decode2_cases (LOAD_LE_2 m buf) opt i0) as [H2|(i' & E' & Hm & H2)].
    { rewrite E in H2. by left. }
    rewrite E in E'. injection E' as -> ->. right; right. split; [tauto|]. split; [lia|].
    destruct H2 as [->|(f & Hk & Ho & _)]; [by right|]. left.
    destruct (known_row _ f Hk) as (r & Hr & <-). by exists r.
  - destruct (negb _); [|intros [= <- <-]; tauto]. destruct (Z.ltb_spec bufsz 4); [intros [= <- <-]; tauto|].
    destruct (frv_decode4_cases (LOAD_LE_4 m buf) i0) as [->|(f & mn & Hk & _ & ->)]; intros [= <- <-]; [tauto|].
    right; right. split; [tauto|]. split; [lia|]. left. destruct (known_row mn f Hk) as (r & Hr & <-).
    exists r. split; [done|]. apply decoded_ok.
Qed.
Lemma frv_decode_typed_witness :
  let m := store_bytes ∅ 0x1000 [0x41; 0x11] in
  inst_ok (frv_decode m 2 0x1000 FRV_RV64 (mkFrv 0 0 0 0 0 0 0)).2.
Proof.
  intros m. destruct (frv_decode_typed m 2 0x1000 FRV_RV64 (mkFrv 0 0 0 0 0 0 0) 2
    (mkFrv FRV_ADDI 2 2 255 255 0 (-16))) as [E|[[E _]|(_ & _ & [H|[_ H]])]];
    [vm_compute; reflexivity | discriminate | discriminate | exact H | discriminate].
Defined.

(** What is decoded from a halfword (C.EBREAK apart) is what [frv_decode]
    returns for the 32-bit encoding of the same instruction. *)
Lemma compressed_word c opt i0 i :
  frv_decode2 c opt i0 = (2, i) -> ~ c_ebreak i ->
  exists r, row_of (mnem i) = Some r /\
    forall m buf opt', frv_decode (storeZ m 4 buf (encode r i)) 4 buf opt' i0 = (4, i).
Proof.
  intros E Hne. destruct (frv_decode2_cases c opt i0) as [H|(i' & E' & Hm & H)]; rewrite E in *; [done|].
  injection E' as <-. destruct H as [->|(f & Hk & Ho & Hrm)]; [by destruct Hne|].
  destruct (known_row _ f Hk) as (r & Hr & <-). exists r. split; [done|]. intros m buf opt'.
  destruct (row_of_In _ r Hr) as [Hin Hmn]. destruct (encode_word r i Hin Ho) as (Hu & H3 & H7).
  rewrite frv_decode_word by (done || lia). by apply decode4_encode.
Qed.

(** The first byte starts a 32-bit instruction. *)
Definition long_insn (b : Z) : Prop := Z.land b 0x03 = 0x03 /\ Z.land b 0x1c <> 0x1c.

(** Decoding a prefix: [FRV_PARTIAL] is returned exactly when the bytes of
    the instruction are not all there; otherwise the result does not change
    when more bytes become available, and it depends on no byte outside the
    buffer and none after the fourth. *)
Theorem frv_decode_prefix m m' bufsz bufsz' buf opt i0 :
  (forall x, buf <= x < buf + Z.min bufsz 4 -> getb m' x = getb m x) -> bufsz <= bufsz' ->
  ((frv_decode m bufsz buf opt i0).1 = FRV_PARTIAL <-> bufsz < 2 \/ bufsz < 4 /\ long_insn (getb m buf)) /\
  ((frv_decode m bufsz buf opt i0).1 <> FRV_PARTIAL ->
   frv_decode m' bufsz' buf opt i0 = frv_decode m bufsz buf opt i0).
Proof.
  intros Hm Hle. unfold long_insn.
  assert (forall c, (frv_decode2 c opt i0).1 <> FRV_PARTIAL) as N2.
  { intros c. destruct (frv_decode2_cases c opt i0) as [->|(i & -> & _)]; discriminate. }
  assert (forall c, (frv_decode4 c i0).1 <> FRV_PARTIAL) as N4.
  { intros c. destruct (frv_decode4_cases c i0) as [->|(f & mn & _ & _ & ->)]; discriminate. }
  unfold frv_decode at 1 2 4. destruct (Z.ltb_spec bufsz 2); [cbn; split; [tauto | done]|].
  assert (getb m' buf = getb m buf) as E0 by (apply Hm; lia).
  assert (LOAD_LE_2 m' buf = LOAD_LE_2 m buf) as E2 by (unfold LOAD_LE_2; by rewrite !Hm by lia).
  unfold frv_decode. rewrite (proj2 (Z.ltb_ge bufsz' 2)), E0, E2 by lia.
  destruct (Z.eqb_spec (Z.land (getb m buf) 3) 3); cbn [negb].
  2: { split; [|done]. specialize (N2 (LOAD_LE_2 m buf)). split; [done | lia]. }
  destruct (Z.eqb_spec (Z.land (getb m buf) 28) 28); cbn [negb]; [split; [|done]; split; [discriminate | lia]|].
  destruct (Z.ltb_spec bufsz 4); [cbn; split; [tauto | done]|].
  rewrite (proj2 (Z.ltb_ge bufsz' 4)) by lia. specialize (N4 (LOAD_LE_4 m buf)).
  split; [split; [done | lia]|]. intros _. f_equal. unfold LOAD_LE_4, LOAD_LE_2. by rewrite !Hm by lia.
Qed.
Lemma frv_decode_prefix_witness :
  let m := store_bytes ∅ 0x1000 [0x41; 0x11] in
  frv_decode (store_bytes m 0x1002 [1; 2; 3]) 16 0x1000 FRV_RV64 (mkFrv 0 0 0 0 0 0 0) =
  frv_decode m 2 0x1000 FRV_RV64 (mkFrv 0 0 0 0 0 0 0).
Proof.
  intros m. apply frv_decode_prefix; [|lia|vm_compute; discriminate].
  intros x Hx. apply getb_store_out. lia.
Defined.
