(* ===== verification/FrvRvc.v ===== *)
(** * The compressed instructions of the RISC-V manual

    A reference for the 16-bit instructions, written from the listings of the
    manual: quadrant and funct3 select the instruction, a register is a field of
    five bits or one of three bits that counts from [x8], and an immediate is
    given by the positions its bits have in the manual's diagrams.  [frv_decode]
    is compared with it on every halfword. *)

From Stdlib Require Import ZArith Lia.
From stdpp Require Import base numbers list list_numbers gmap.
From S2P Require Import Prelude Machine Frvdec FrvIsa FrvdecProofs.

(** ** The diagrams *)

(** Bits [hi] to [lo] of the halfword, and bit [i] moved to bit [b]. *)
Definition fld (c hi lo : Z) : Z := Z.land (Z.shiftr c lo) (Z.ones (hi - lo + 1)).
Definition moved (c i b : Z) : Z := Z.shiftl (Z.b2z (Z.testbit c i)) b.

(** [places] is what a diagram shows: from bit [hi] of the halfword downwards,
    the bits of the immediate that are found there. *)
Fixpoint placed (c hi : Z) (bits : list Z) : Z :=
  match bits with
  | [] => 0
  | b :: bits' => moved c hi b + placed c (hi - 1) bits'
  end.
Definition uimm (places : list (Z * list Z)) (c : Z) : Z := foldr (fun '(hi, bits) v => placed c hi bits + v) 0 places.

(** The first bit of the diagram is the sign. *)
Definition simm (places : list (Z * list Z)) (c : Z) : Z :=
  match places with
  | (hi, b :: _) :: _ => uimm places c - moved c hi (b + 1)
  | _ => uimm places c
  end.

Definition addi4spn_places := [(12, [5; 4; 9; 8; 7; 6; 2; 3])].
Definition word_places := [(12, [5; 4; 3]); (6, [2; 6])].
Definition double_places := [(12, [5; 4; 3]); (6, [7; 6])].
Definition imm6_places := [(12, [5]); (6, [4; 3; 2; 1; 0])].
Definition lui_places := [(12, [17]); (6, [16; 15; 14; 13; 12])].
Definition addi16sp_places := [(12, [9]); (6, [4; 6; 8; 7; 5])].
Definition jump_places := [(12, [11; 4; 9; 8; 10; 6; 7; 3; 2; 1; 5])].
Definition branch_places := [(12, [8; 4; 3]); (6, [7; 6; 2; 1; 5])].
Definition lwsp_places := [(12, [5]); (6, [4; 3; 2; 7; 6])].
Definition ldsp_places := [(12, [5]); (6, [4; 3; 8; 7; 6])].
Definition swsp_places := [(12, [5; 4; 3; 2; 7; 6])].
Definition sdsp_places := [(12, [5; 4; 3; 8; 7; 6])].

(** ** The instructions *)

(** What the manual says of a halfword.  A hint has an expansion that changes
    nothing; [near] is the instruction that a reserved encoding would be if the
    restriction that reserves it were dropped, where there is one. *)
Inductive Rvc :=
  | Expands (i : FrvInst)
  | Break
  | Hint (i : FrvInst)
  | Reserved (near : option FrvInst).

Definition none : Z := FRV_REG_INV.
Definition ins (mn d s1 s2 v : Z) : FrvInst := mkFrv mn d s1 s2 none 0 v.
Definition x_zero : Z := 0.
Definition x_ra : Z := 1.
Definition x_sp : Z := 2.

Section Listing.
Context (rv64 : bool) (c : Z).
Let r11_7 := fld c 11 7.
Let r6_2 := fld c 6 2.
Let r9_7 := 8 + fld c 9 7.
Let r4_2 := 8 + fld c 4 2.

Definition quadrant0 : Rvc :=
  match fld c 15 13 with
  | 0 => let v := uimm addi4spn_places c in if v =? 0 then Reserved None else Expands (ins FRV_ADDI r4_2 x_sp none v)
  | 1 => Expands (ins FRV_FLD r4_2 r9_7 none (uimm double_places c))
  | 2 => Expands (ins FRV_LW r4_2 r9_7 none (uimm word_places c))
  | 3 => Expands (if rv64 then ins FRV_LD r4_2 r9_7 none (uimm double_places c)
                  else ins FRV_FLW r4_2 r9_7 none (uimm word_places c))
  | 5 => Expands (ins FRV_FSD none r9_7 r4_2 (uimm double_places c))
  | 6 => Expands (ins FRV_SW none r9_7 r4_2 (uimm word_places c))
  | 7 => Expands (if rv64 then ins FRV_SD none r9_7 r4_2 (uimm double_places c)
                  else ins FRV_FSW none r9_7 r4_2 (uimm word_places c))
  | _ => Reserved None
  end.

(** A shift by an immediate: sixth bit only on RV64, no shift is a hint. *)
Definition shift (mn r : Z) : Rvc :=
  let v := uimm imm6_places c in
  let i := ins mn r r none v in
  if negb rv64 && (32 <=? v) then Reserved (Some i) else if (v =? 0) || (r =? 0) then Hint i else Expands i.

Definition register_op : Rvc :=
  let op mn := ins mn r9_7 r9_7 r4_2 0 in
  match fld c 12 12, fld c 6 5 with
  | 0, 0 => Expands (op FRV_SUB)
  | 0, 1 => Expands (op FRV_XOR)
  | 0, 2 => Expands (op FRV_OR)
  | 0, 3 => Expands (op FRV_AND)
  | 1, 0 => if rv64 then Expands (op FRV_SUBW) else Reserved (Some (op FRV_SUBW))
  | 1, 1 => if rv64 then Expands (op FRV_ADDW) else Reserved (Some (op FRV_ADDW))
  | _, _ => Reserved None
  end.

Definition quadrant1 : Rvc :=
  let v := simm imm6_places c in
  match fld c 15 13 with
  | 0 => let i := ins FRV_ADDI r11_7 r11_7 none v in if Bool.eqb (r11_7 =? 0) (v =? 0) then Expands i else Hint i
  | 1 => if rv64 then if r11_7 =? 0 then Reserved None else Expands (ins FRV_ADDIW r11_7 r11_7 none v)
         else Expands (ins FRV_JAL x_ra none none (simm jump_places c))
  | 2 => let i := ins FRV_ADDI r11_7 x_zero none v in if r11_7 =? 0 then Hint i else Expands i
  | 3 => if r11_7 =? x_sp then
           let v := simm addi16sp_places c in if v =? 0 then Reserved None else Expands (ins FRV_ADDI x_sp x_sp none v)
         else
           let v := simm lui_places c in
           let i := ins FRV_LUI r11_7 none none v in
           if v =? 0 then Reserved None else if r11_7 =? 0 then Hint i else Expands i
  | 4 => match fld c 11 10 with
         | 0 => shift FRV_SRLI r9_7
         | 1 => shift FRV_SRAI r9_7
         | 2 => Expands (ins FRV_ANDI r9_7 r9_7 none v)
         | _ => register_op
         end
  | 5 => Expands (ins FRV_JAL x_zero none none (simm jump_places c))
  | 6 => Expands (ins FRV_BEQ none r9_7 x_zero (simm branch_places c))
  | _ => Expands (ins FRV_BNE none r9_7 x_zero (simm branch_places c))
  end.

(** A load from the stack; [x0] is reserved as the target of an integer load. *)
Definition load_sp (integer : bool) (mn v : Z) : Rvc :=
  let i := ins mn r11_7 x_sp none v in if integer && (r11_7 =? 0) then Reserved (Some i) else Expands i.

Definition quadrant2 : Rvc :=
  match fld c 15 13 with
  | 0 => shift FRV_SLLI r11_7
  | 1 => load_sp false FRV_FLD (uimm ldsp_places c)
  | 2 => load_sp true FRV_LW (uimm lwsp_places c)
  | 3 => if rv64 then load_sp true FRV_LD (uimm ldsp_places c) else load_sp false FRV_FLW (uimm lwsp_places c)
  | 4 =>
      let link := fld c 12 12 in
      if r6_2 =? 0 then
        if r11_7 =? 0 then if link =? 0 then Reserved None else Break else Expands (ins FRV_JALR link r11_7 none 0)
      else
        let i := ins FRV_ADD r11_7 (if link =? 0 then x_zero else r11_7) r6_2 0 in
        if r11_7 =? 0 then Hint i else Expands i
  | 5 => Expands (ins FRV_FSD none x_sp r6_2 (uimm sdsp_places c))
  | 6 => Expands (ins FRV_SW none x_sp r6_2 (uimm swsp_places c))
  | _ => Expands (if rv64 then ins FRV_SD none x_sp r6_2 (uimm sdsp_places c)
                  else ins FRV_FSW none x_sp r6_2 (uimm swsp_places c))
  end.

Definition rvc : Rvc :=
  match fld c 1 0 with 0 => quadrant0 | 1 => quadrant1 | _ => quadrant2 end.
End Listing.

(** ** What the decoder makes of hints *)

(** [C.NOP] with an immediate and a shift of [x0] are decoded, [C.ADD] to [x0]
    is taken for [C.EBREAK], all others are refused. *)
Inductive HintAs := AsWritten | AsBreak | Refused.
Definition hint_as (c : Z) : HintAs :=
  match fld c 1 0, fld c 15 13 with
  | 1, 0 => if fld c 11 7 =? 0 then AsWritten else Refused
  | 2, 0 => if uimm imm6_places c =? 0 then Refused else AsWritten
  | 2, 4 => if fld c 12 12 =? 1 then AsBreak else Refused
  | _, _ => Refused
  end.

Definition ebreak_inst : FrvInst := ins FRV_ECALL none none none 1.

(** The decoder's result on a halfword, [None] for [FRV_UNDEF]. *)
Definition expected (rv64 : bool) (c : Z) : option FrvInst :=
  match rvc rv64 c with
  | Expands i => Some i
  | Break => Some ebreak_inst
  | Hint i => match hint_as c with AsWritten => Some i | AsBreak => Some ebreak_inst | Refused => None end
  | Reserved near => near
  end.

(** ** All halfwords *)

#[global] Instance FrvInst_eq_dec : EqDecision FrvInst.
Proof. solve_decision. Defined.

Definition xlen (rv64 : bool) : Z := if rv64 then FRV_RV64 else FRV_RV32.

Definition agrees (rv64 : bool) (c : Z) : bool :=
  (fld c 1 0 =? 3) ||
  match frv_decode2 c (xlen rv64) (ins 0 0 0 0 0), expected rv64 c with
  | (ret, i), Some i' => (ret =? 2) && bool_decide (i = i')
  | (ret, _), None => ret =? FRV_UNDEF
  end && match rvc rv64 c with Expands i => negb (mnem i =? FRV_ECALL) | _ => true end.

(** The halfwords in blocks. *)
Fixpoint all_from (n : nat) (f : Z -> bool) (c : Z) : bool :=
  match n with O => true | S n' => f c && all_from n' f (c + 1) end.
Lemma all_from_spec n f c x : all_from n f c = true -> c <= x < c + Z.of_nat n -> f x = true.
Proof.
  revert c. induction n as [|n IH]; intros c H Hx; [lia|]. cbn [all_from] in H. apply andb_true_iff in H as [H1 H2].
  destruct (Z.eqb_spec x c) as [->|Hne]; [done|]. apply (IH (c + 1)); [done|lia].
Qed.

Definition blocks (rv64 : bool) : bool := all_from 256 (fun b => all_from 256 (agrees rv64) (256 * b)) 0.
Lemma blocks_true rv64 : blocks rv64 = true.
Proof. destruct rv64; vm_compute; reflexivity. Qed.

Lemma all_agree rv64 c : in_u 16 c -> agrees rv64 c = true.
Proof.
  intros Hc. unfold in_u in Hc. apply (all_from_spec 256 _ (256 * (c / 256))); [|zdm].
  apply (all_from_spec 256 (fun b => all_from 256 (agrees rv64) (256 * b)) 0); [apply blocks_true|zdm].
Qed.

(** The old record shows only where the instruction has no rounding mode. *)
Definition with_misc (v : Z) (i : FrvInst) : FrvInst := mkFrv (mnem i) (rd i) (rs1 i) (rs2 i) (rs3 i) v (imm i).

Lemma decode2_opt c opt rv64 i0 : Z.land opt FRV_RVMSK = xlen rv64 -> frv_decode2 c opt i0 = frv_decode2 c (xlen rv64) i0.
Proof. intros H. unfold frv_decode2, frv_switch2. rewrite H. by destruct rv64. Qed.

Lemma decode2_record c opt i0 i1 :
  (frv_decode2 c opt i0).1 = (frv_decode2 c opt i1).1 /\
  forall i, frv_decode2 c opt i1 = (2, i) -> frv_decode2 c opt i0 = (2, with_misc (misc i0) i).
Proof.
  unfold frv_decode2. destruct (frv_switch2 c opt) as [s|]; [|done]. destruct (c_mnem s =? 0); [done|].
  destruct (imm2 (c_imm s) c) as [v|]; [|done]. destruct (_ && _); [done|]. split; [done|]. by intros i [= <-].
Qed.

(** The result on a halfword under any options of the width. *)
Lemma decode2_expected rv64 c opt i0 :
  in_u 16 c -> c `mod` 4 <> 3 -> Z.land opt FRV_RVMSK = xlen rv64 ->
  (forall i, expected rv64 c = Some i -> frv_decode2 c opt i0 = (2, with_misc (misc i0) i)) /\
  (expected rv64 c = None -> (frv_decode2 c opt i0).1 = FRV_UNDEF) /\
  (forall i, rvc rv64 c = Expands i -> mnem i <> FRV_ECALL).
Proof.
  intros Hc H3 Ho. rewrite (decode2_opt c opt rv64 i0 Ho). pose proof (all_agree rv64 c Hc) as Ha. unfold agrees in Ha.
  assert ((fld c 1 0 =? 3) = false) as E3.
  { unfold fld. rewrite Z.shiftr_0_r, Z.land_ones by lia. by apply Z.eqb_neq. }
  rewrite E3 in Ha. cbn [orb] in Ha. apply andb_true_iff in Ha as [Ha Hx].
  destruct (decode2_record c (xlen rv64) i0 (ins 0 0 0 0 0)) as [H1 H2].
  destruct (frv_decode2 c (xlen rv64) (ins 0 0 0 0 0)) as [ret j]. split_and!.
  - intros i E. rewrite E in Ha. apply andb_true_iff in Ha as [->%Z.eqb_eq ->%bool_decide_eq_true]. by apply H2.
  - intros E. rewrite E in Ha. apply Z.eqb_eq in Ha. by rewrite H1.
  - intros i E. rewrite E in Hx. by apply Z.eqb_neq, negb_true_iff.
Qed.

Lemma frv_decode_half m buf bufsz opt i0 c :
  2 <= bufsz -> in_u 16 c -> c `mod` 4 <> 3 -> frv_decode (storeZ m 2 buf c) bufsz buf opt i0 = frv_decode2 c opt i0.
Proof.
  intros Hsz Hc H3. unfold frv_decode. rewrite (proj2 (Z.ltb_ge bufsz 2)) by lia.
  assert (LOAD_LE_2 (storeZ m 2 buf c) buf = c) as E2.
  { destruct (LOAD_LE_loadZ (storeZ m 2 buf c) buf) as [-> _]. rewrite loadZ_storeZ. by rewrite wrap_small. }
  assert (Z.land (getb (storeZ m 2 buf c) buf) 3 <> 3) as Hb.
  { rewrite <- E2, <- land_3 in H3. unfold LOAD_LE_2 in H3. rewrite Z.land_lor_distr_l, (land_3 (Z.shiftl _ _)), Z.shiftl_mul_pow2 in H3 by lia.
    replace ((_ * 2 ^ 8) `mod` 4) with 0 in H3 by zdm. by rewrite Z.lor_0_r in H3. }
  by rewrite E2, (proj2 (Z.eqb_neq _ _) Hb).
Qed.

(** C33. Compressed instructions expand as the manual says, on RV32 and RV64.
    For every halfword: where the manual defines an instruction, the decoder
    returns the mnemonic, registers and immediate of the manual's expansion and
    length 2, and decoding the 32-bit encoding of the expansion returns the same
    instruction with length 4; C.EBREAK is the environment call with immediate
    1.  Reserved encodings are refused, but for those that break only a
    restriction on an operand or on the width (a load from the stack to [x0]; on
    RV32 a shift by 32 or more and the word operations), which are decoded as if
    it were not there.  Hints are refused as well, but for C.NOP with an
    immediate and a shift of [x0], which are decoded as written, and C.ADD to
    [x0], which is taken for C.EBREAK. *)
Theorem compressed_expands rv64 c opt i0 m buf bufsz :
  in_u 16 c -> c `mod` 4 <> 3 -> Z.land opt FRV_RVMSK = xlen rv64 -> 2 <= bufsz ->
  let decoded := frv_decode (storeZ m 2 buf c) bufsz buf opt i0 in
  let as_ i := (2, with_misc (misc i0) i) in
  match rvc rv64 c with
  | Expands i =>
      decoded = as_ i /\
      exists r, row_of (mnem i) = Some r /\
        forall m' buf' opt', frv_decode (storeZ m' 4 buf' (encode r (with_misc (misc i0) i))) 4 buf' opt' i0 = (4, with_misc (misc i0) i)
  | Break => decoded = as_ ebreak_inst
  | Hint i => match hint_as c with AsWritten => decoded = as_ i | AsBreak => decoded = as_ ebreak_inst | Refused => decoded.1 = FRV_UNDEF end
  | Reserved (Some i) => decoded = as_ i
  | Reserved None => decoded.1 = FRV_UNDEF
  end.
Proof.
  intros Hc H3 Ho Hsz decoded as_. unfold decoded. rewrite frv_decode_half by done.
  destruct (decode2_expected rv64 c opt i0 Hc H3 Ho) as (H1 & H2 & He). unfold expected in H1, H2.
  destruct (rvc rv64 c) as [i| |i|[i|]]; [|by apply H1| |by apply H1|by apply H2].
  - specialize (H1 i eq_refl). split; [done|]. apply (compressed_word c opt i0 (with_misc (misc i0) i) H1).
    intros [= E _]. by apply (He i).
  - destruct (hint_as c); [by apply H1|by apply H1|by apply H2].
Qed.

(** [c.addi16sp sp, -64], [c.sdsp ra, 56(sp)] and [c.add x0, x1], a hint. *)
Lemma compressed_expands_witness :
  let decode c := frv_decode (storeZ ∅ 2 0x1000 c) 2 0x1000 FRV_RV64 (mkFrv 0 0 0 0 0 0 0) in
  decode 0x7139 = (2, mkFrv FRV_ADDI 2 2 255 255 0 (-64)) /\ decode 0xfc06 = (2, mkFrv FRV_SD 255 2 1 255 0 56) /\
  decode 0x9006 = (2, ebreak_inst).
Proof.
  intros decode. pose proof (fun c => compressed_expands true c FRV_RV64 (mkFrv 0 0 0 0 0 0 0) ∅ 0x1000 2) as T. unfold in_u in T. split; [|split].
  - destruct (T 0x7139) as [H _]; [lia | discriminate | reflexivity | lia | exact H].
  - destruct (T 0xfc06) as [H _]; [lia | discriminate | reflexivity | lia | exact H].
  - apply (T 0x9006); [lia | discriminate | reflexivity | lia].
Defined.
