(* ===== verification/FrvdecFormat.v ===== *)
(** * Printing an instruction, for [Frvdec.v]

    [strlcat] and [frv_format] against a reference text: what ends up in the
    buffer, and that nothing else is written. *)

From Stdlib Require Import ZArith Lia String.
From stdpp Require Import base numbers list list_numbers option gmap.
From S2P Require Import Prelude Machine Minilibc Printf Frvdec.

(** ** Stores *)

Lemma store_insert_comm m a bs e b :
  e < a \/ a + Z.of_nat (length bs) <= e -> store_bytes (<[e := b]> m) a bs = <[e := b]> (store_bytes m a bs).
Proof.
  revert m a; induction bs as [|c bs IH]; intros m a He; simpl in *; [done|].
  rewrite insert_insert_ne by lia. apply IH. lia.
Qed.

(** A NUL-terminated string in memory. *)
Definition cstring (m : memory) (a : Z) (bs : list Z) : Prop :=
  (forall i, 0 <= i -> i <= Z.of_nat (length bs) -> getb m (a + i) = default 0 (bs !! Z.to_nat i)) /\
  Forall cchar bs.

Lemma cstring_char m a bs i :
  cstring m a bs -> 0 <= i < Z.of_nat (length bs) -> getb m (a + i) <> 0.
Proof.
  intros [H Hc] Hi. rewrite H by lia. destruct (lookup_lt_is_Some_2 bs (Z.to_nat i)) as [b E]; [lia|].
  rewrite E. rewrite Forall_lookup in Hc. specialize (Hc _ _ E). unfold cchar in Hc. cbn. lia.
Qed.
Lemma cstring_end m a bs : cstring m a bs -> getb m (a + Z.of_nat (length bs)) = 0.
Proof. intros [H _]. rewrite H by lia. rewrite lookup_ge_None_2 by lia. done. Qed.

Lemma cstring_ext m m' a bs :
  cstring m a bs -> (forall x, a <= x <= a + Z.of_nat (length bs) -> getb m' x = getb m x) -> cstring m' a bs.
Proof. intros [H Hc] E. split; [|done]. intros i H0 H1. rewrite E by lia. by apply H. Qed.

(** A string followed by stored bytes and a NUL. *)
Lemma cstring_store m a T bs :
  cstring m a T -> Forall cchar bs ->
  cstring (store_bytes m (a + Z.of_nat (length T)) (bs ++ [0])) a (T ++ bs).
Proof.
  intros [H Hc] Hb. split; [|by apply Forall_app]. intros i H0 H1. rewrite length_app in H1.
  destruct (Z.ltb_spec i (Z.of_nat (length T))).
  - rewrite getb_store_out, H, lookup_app_l by lia. done.
  - rewrite getb_store_in by (rewrite length_app; change (length [0]) with 1%nat; lia). rewrite (lookup_app_r T bs) by lia.
    replace (Z.to_nat (a + i - (a + Z.of_nat (length T)))) with (Z.to_nat i - length T)%nat by lia.
    destruct (decide (Z.to_nat i - length T < length bs)%nat).
    + by rewrite lookup_app_l by lia.
    + rewrite lookup_app_r, (lookup_ge_None_2 bs) by lia.
      by replace (Z.to_nat i - length T - length bs)%nat with 0%nat by lia.
Qed.

(** ** [strlcat] *)

Lemma cat_skip_spec m dst T size :
  cstring m dst T -> (length T < size)%nat ->
  cat_skip size m dst = (dst + Z.of_nat (length T), (size - length T)%nat).
Proof.
  intros HT. assert (forall n k, (k + n = length T)%nat -> forall sz, (n < sz)%nat ->
    cat_skip sz m (dst + Z.of_nat k) = (dst + Z.of_nat (length T), (sz - n)%nat)) as G.
  { induction n as [|n IH]; intros k Hk sz Hsz; (destruct sz as [|sz]; [lia|]); cbn [cat_skip].
    - replace k with (length T) by lia. by rewrite (cstring_end _ _ _ HT).
    - rewrite (proj2 (Z.eqb_neq _ 0)) by (apply (cstring_char _ _ _ _ HT); lia).
      replace (dst + Z.of_nat k + 1) with (dst + Z.of_nat (S k)) by lia. rewrite IH by lia. done. }
  intros Hs. specialize (G (length T) 0%nat ltac:(lia) size Hs). by rewrite Z.add_0_r in G.
Qed.

(** The source yields the bytes of [bs] and a NUL, also after writes to
    [lo .. hi-1]. *)
Definition reads (src : memory -> Z -> Z) (m : memory) (lo hi : Z) (bs : list Z) : Prop :=
  forall m', (forall x, x < lo \/ hi <= x -> getb m' x = getb m x) ->
  forall i, 0 <= i <= Z.of_nat (length bs) -> src m' i = default 0 (bs !! Z.to_nat i).

Lemma reads_lit s m lo hi : reads (src_lit s) m lo hi (bytes_of_string s).
Proof. intros m' _ i Hi. apply lit_at. lia. Qed.

Lemma reads_mem a m lo hi bs :
  cstring m a bs -> a + Z.of_nat (length bs) < lo \/ hi <= a -> reads (src_mem a) m lo hi bs.
Proof. intros [H _] Hd m' Hm i Hi. unfold src_mem, mptr. rewrite Hm by lia. apply H; lia. Qed.

Lemma cat_copy_step n m dst src i :
  cat_copy (S (S n)) m dst src i =
  if src m i =? 0 then <[dst := 0]> m else cat_copy (S n) (<[dst := u8 (src m i)]> m) (dst + 1) src (i + 1).
Proof. done. Qed.

Lemma cat_copy_spec src m lo hi bs size m' dst k :
  reads src m lo hi bs -> Forall cchar bs -> (forall x, x < lo \/ hi <= x -> getb m' x = getb m x) ->
  lo <= dst -> dst + Z.of_nat size <= hi -> (0 < size)%nat -> (k <= length bs)%nat ->
  cat_copy size m' dst src (Z.of_nat k) = store_bytes m' dst (take (size - 1) (drop k bs) ++ [0]).
Proof.
  intros Hr Hb. revert m' dst k. induction size as [|[|n] IH]; intros m' dst k Hm Hlo Hhi Hs Hk; [lia|done|].
  rewrite cat_copy_step, (Hr m' Hm) by lia. rewrite Nat2Z.id. destruct (bs !! k) as [b|] eqn:E.
  - pose proof (Forall_lookup_1 _ _ _ _ Hb E) as Hc. unfold cchar in Hc. change (default 0 (Some b)) with b.
    apply lookup_lt_Some in E as Hl. rewrite (proj2 (Z.eqb_neq b 0)) by lia.
    rewrite wrap_small by (unfold in_u; lia). replace (Z.of_nat k + 1) with (Z.of_nat (S k)) by lia.
    rewrite IH; [|intros x Hx; unfold getb; rewrite lookup_insert_ne by lia; by apply Hm|lia..].
    rewrite (drop_S _ _ _ E). replace (S (S n) - 1)%nat with (S (S n - 1)) by lia. done.
  - apply lookup_ge_None in E. change (default 0 None =? 0) with true. replace k with (length bs) by lia. by rewrite drop_all, take_nil.
Qed.

Lemma strlcat_spec src m dst T bs size :
  cstring m dst T -> Z.of_nat (length T) < size -> reads src m dst (dst + size) bs -> Forall cchar bs ->
  strlcat m dst src size =
  store_bytes m (dst + Z.of_nat (length T)) (take (Z.to_nat size - 1 - length T) bs ++ [0]).
Proof.
  intros HT Hs Hr Hb. unfold strlcat. rewrite (cat_skip_spec _ _ T) by (done || lia).
  change 0 with (Z.of_nat 0) at 1. rewrite (cat_copy_spec src m dst (dst + size) bs); try done; try lia.
  rewrite drop_0. do 3 f_equal. lia.
Qed.

(** ** Integers *)

Definition int_text (v : Z) : list Z := if v <? 0 then 45 :: dec (- v) else dec v.

(** The digits a run of the loop writes. *)
Definition run_digits (fuel : nat) (v : Z) : list Z :=
  (fun d => 48 + d) <$> (if v =? 0 then [0] else digits fuel 10 v []).

Lemma digits_length fuel b v : (length (digits fuel b v []) <= fuel)%nat.
Proof.
  revert v; induction fuel as [|fuel IH]; intros v; simpl; [done|]. btest; simpl; [lia|].
  rewrite digits_acc, length_app. simpl. specialize (IH (v / b)). lia.
Qed.
Lemma run_digits_length fuel v : (0 < fuel)%nat -> (length (run_digits fuel v) <= fuel)%nat.
Proof.
  intros. unfold run_digits. rewrite length_fmap. btest; [simpl; lia | apply digits_length].
Qed.

Lemma digits_chars fuel v : 0 <= v -> Forall (fun d => 0 <= d < 10) (digits fuel 10 v []).
Proof.
  revert v; induction fuel as [|fuel IH]; intros v Hv; simpl; [constructor|]. btest; [constructor|].
  rewrite digits_acc. apply Forall_app. split; [apply IH; zdm | repeat constructor; zdm].
Qed.
Lemma run_digits_chars fuel v : 0 <= v -> Forall cchar (run_digits fuel v).
Proof.
  intros Hv. unfold run_digits, cchar. apply Forall_fmap. btest; [repeat constructor; simpl; lia|].
  eapply Forall_impl; [by apply digits_chars|]. simpl. lia.
Qed.

Lemma int_loop_spec fuel m buf v idx :
  0 <= v < 10 ^ Z.of_nat fuel -> (0 < fuel)%nat ->
  let ds := run_digits fuel v in
  int_loop fuel m buf (- v) idx = (store_bytes m (buf + idx - Z.of_nat (length ds)) ds, idx - Z.of_nat (length ds)).
Proof.
  revert m v idx; induction fuel as [|fuel IH]; intros m v idx Hv Hf; [lia|].
  rewrite Nat2Z.inj_succ, Z.pow_succ_r in Hv by lia. cbn [int_loop].
  rewrite Z.rem_opp_l, Z.quot_opp_l, Z.rem_mod_nonneg, Z.quot_div_nonneg by lia.
  assert (u8 (48 - - (v `mod` 10)) = 48 + v `mod` 10) as -> by (rewrite wrap_small; [lia | unfold in_u; zdm]).
  destruct (Z.eqb_spec (- (v / 10)) 0) as [E|E].
  - assert (run_digits (S fuel) v = [48 + v `mod` 10]) as ->.
    { unfold run_digits. assert (v < 10) by zdm. rewrite (Z.mod_small v 10) by lia.
      destruct (Z.eqb_spec v 0) as [->|]; [done|]. cbn [digits]. rewrite (proj2 (Z.eqb_neq v 0)) by done.
      replace (v / 10) with 0 by lia. rewrite (Z.mod_small v 10) by lia. by destruct fuel. }
    change (length [_]) with 1%nat. cbn [store_bytes]. do 2 f_equal; lia.
  - assert (0 < v / 10) by (pose proof (Z.div_pos v 10); lia).
    assert (v / 10 < 10 ^ Z.of_nat fuel) by (apply Z.div_lt_upper_bound; lia).
    destruct fuel as [|fuel]; [cbn in *; lia|].
    rewrite IH by lia.
    assert (run_digits (S (S fuel)) v = run_digits (S fuel) (v / 10) ++ [48 + v `mod` 10]) as ->.
    { unfold run_digits. assert (v <> 0) as Hv0 by (intros ->; done).
      rewrite (proj2 (Z.eqb_neq v 0)), (proj2 (Z.eqb_neq (v / 10) 0)) by lia.
      change (digits (S (S fuel)) 10 v []) with (if v =? 0 then [] else digits (S fuel) 10 (v / 10) [v `mod` 10]).
      rewrite (proj2 (Z.eqb_neq v 0)) by done. rewrite digits_acc, fmap_app. done. }
    set (ds := run_digits (S fuel) (v / 10)). rewrite length_app. change (length [_]) with 1%nat.
    rewrite store_bytes_app, store_insert_comm by lia. cbn [store_bytes].
    replace (buf + idx - Z.of_nat (length ds + 1)) with (buf + (idx - 1) - Z.of_nat (length ds)) by lia.
    rewrite Z.sub_add. f_equal. lia.
Qed.

Lemma run_digits_dec v : 0 <= v < 10 ^ 10 -> run_digits 10 v = dec v.
Proof.
  intros Hv. unfold run_digits, dec, numeral. btest; [done|]. f_equal. apply digits_fuel; lia.
Qed.

Lemma dec_length_pos v : (0 < length (dec v))%nat.
Proof.
  unfold dec, numeral. rewrite length_fmap. destruct (Z.eqb_spec v 0) as [|Hv]; [simpl; lia|].
  change 64%nat with (S 63). generalize 63%nat. intros n. cbn [digits]. rewrite (proj2 (Z.eqb_neq v 0) Hv).
  rewrite digits_acc, length_app. simpl. lia.
Qed.

(** The text of an integer ends at offset 15 of the buffer and starts at offset
    4 or later. *)
Lemma frv_format_int_spec m v buf :
  in_s 32 v ->
  exists m' p, frv_format_int m v buf = (m', p) /\ buf + 4 <= p < buf + 16 /\ p + Z.of_nat (length (int_text v)) = buf + 15 /\
    cstring m' p (int_text v) /\ (forall x, x < buf + 4 \/ buf + 16 <= x -> getb m' x = getb m x).
Proof.
  intros Hv. unfold in_s in Hv. unfold frv_format_int, int_text.
  set (m1 := <[buf + (16 - 1) := 0]> m).
  assert (forall w, 0 <= w < 10 ^ 10 ->
    let l := Z.of_nat (length (dec w)) in
    int_loop 10 m1 buf (- w) (16 - 1) = (store_bytes m1 (buf + 15 - l) (dec w), 15 - l) /\ 0 < l <= 10 /\
    Forall cchar (dec w)) as L.
  { intros w Hw l. pose proof (int_loop_spec 10 m1 buf w 15 Hw ltac:(lia)) as E. cbn zeta in E.
    pose proof (run_digits_length 10 w ltac:(lia)). pose proof (run_digits_chars 10 w ltac:(lia)).
    rewrite run_digits_dec in * by lia. split; [done|]. split; [|done]. subst l.
    pose proof (dec_length_pos w). lia. }
  assert (forall bs, Forall cchar bs -> (length bs <= 11)%nat ->
    cstring (store_bytes m1 (buf + 15 - Z.of_nat (length bs)) bs) (buf + 15 - Z.of_nat (length bs)) bs /\
    forall x, x < buf + 4 \/ buf + 16 <= x ->
      getb (store_bytes m1 (buf + 15 - Z.of_nat (length bs)) bs) x = getb m x) as C.
  { intros bs Hc Hl. split.
    - split; [|done]. intros i H0 H1. destruct (Z.ltb_spec i (Z.of_nat (length bs))).
      + rewrite getb_store_in by lia. do 2 f_equal. lia.
      + rewrite getb_store_out by lia. rewrite lookup_ge_None_2 by lia. unfold m1, getb.
        replace (buf + 15 - Z.of_nat (length bs) + i) with (buf + (16 - 1)) by lia. by rewrite lookup_insert_eq.
    - intros x Hx. rewrite getb_store_out by lia. unfold m1, getb. by rewrite lookup_insert_ne by lia. }
  destruct (Z.ltb_spec v 0).
  - destruct (L (- v)) as (E & Hl & Hc); [lia|]. rewrite Z.opp_involutive in E. rewrite E. set (l := Z.of_nat (length (dec (- v)))) in *.
    exists (<[buf + (15 - l - 1) := 45]> (store_bytes m1 (buf + 15 - l) (dec (- v)))), (buf + (15 - l - 1)).
    destruct (C (45 :: dec (- v))) as [C1 C2]; [constructor; [unfold cchar; lia | done] | simpl; lia|].
    replace (buf + 15 - Z.of_nat (length (45 :: dec (- v)))) with (buf + (15 - l - 1)) in * by (simpl; lia).
    cbn [store_bytes] in C1, C2. replace (buf + (15 - l - 1) + 1) with (buf + 15 - l) in * by lia.
    rewrite store_insert_comm in C1, C2 by lia. repeat split; try lia; try apply C1; [simpl; lia | exact C2].
  - destruct (L v) as (E & Hl & Hc); [lia|]. rewrite E. set (l := Z.of_nat (length (dec v))) in *.
    exists (store_bytes m1 (buf + 15 - l) (dec v)), (buf + (15 - l)).
    destruct (C (dec v)) as [C1 C2]; [done | lia|]. fold l in C1, C2.
    replace (buf + (15 - l)) with (buf + 15 - l) by lia. repeat split; try lia; [apply C1 | apply C1 | exact C2].
Qed.

(** ** [frv_format] *)

Definition reg_text (r : Z) : list Z := if r =? FRV_REG_INV then [] else [32; 114] ++ int_text r.
Definition imm_text (i : Z) : list Z := if i =? 0 then [] else 32 :: int_text i.
Definition inst_text (i : FrvInst) : list Z :=
  match mnem_name (mnem i) with
  | None => bytes_of_string "<invalid>"
  | Some s =>
      bytes_of_string s ++ reg_text (rd i) ++ reg_text (rs1 i) ++ reg_text (rs2 i) ++ reg_text (rs3 i) ++
      imm_text (imm i)
  end.

Section Format.
Context (m0 : memory) (len buf tmp : Z) (Hlen : 0 < len).
Context (Hd : buf + len <= tmp \/ tmp + 18 <= buf).

(** The buffer holds the text, cut to its size, and nothing else but [tmp] has
    changed. *)
Definition formatted (T : list Z) (m : memory) : Prop :=
  cstring m buf (take (Z.to_nat (len - 1)) T) /\
  forall x, x < buf \/ buf + len <= x -> x < tmp \/ tmp + 18 <= x -> getb m x = getb m0 x.

Lemma take_take_app {A} n (T bs : list A) :
  take n T ++ take (n - length (take n T)) bs = take n (T ++ bs).
Proof. rewrite take_app, length_take. do 2 f_equal. lia. Qed.

Lemma strlcat_formatted src T bs m :
  formatted T m -> reads src m buf (buf + len) bs -> Forall cchar bs ->
  formatted (T ++ bs) (strlcat m buf src len).
Proof.
  intros [HT Hx] Hr Hb.
  set (T' := take (Z.to_nat (len - 1)) T) in *.
  assert (Z.of_nat (length T') <= len - 1) by (subst T'; rewrite length_take; lia).
  rewrite (strlcat_spec src m buf T' bs) by (done || lia). split.
  - rewrite <- take_take_app. fold T'.
    replace (Z.to_nat (len - 1) - length T')%nat with (Z.to_nat len - 1 - length T')%nat by lia.
    apply cstring_store; [done|]. by apply Forall_take.
  - intros x H1 H2. rewrite getb_store_out; [by apply Hx|]. rewrite length_app, length_take. simpl length. lia.
Qed.

Lemma int_text_chars v : in_s 32 v -> Forall cchar (int_text v).
Proof. intros Hv. destruct (frv_format_int_spec ∅ v 0 Hv) as (m' & p & _ & _ & _ & [_ H] & _). exact H. Qed.

(** Text written in front of an integer in the local array. *)
Lemma tmp_piece m v pre p m1 T :
  formatted T m -> frv_format_int m v (tmp + 2) = (m1, p) -> in_s 32 v -> Forall cchar pre ->
  (length pre <= 2)%nat ->
  let m2 := store_bytes m1 (p - Z.of_nat (length pre)) pre in
  formatted (T ++ pre ++ int_text v) (strlcat m2 buf (src_mem (p - Z.of_nat (length pre))) len).
Proof.
  intros [HT Hx] E Hv Hp Hl m2. destruct (frv_format_int_spec m v (tmp + 2) Hv) as (m' & p' & E' & Hr & He & Hc & Hm).
  rewrite E in E'. injection E' as <- <-. set (k := Z.of_nat (length pre)) in *.
  assert (forall x, x < tmp \/ tmp + 18 <= x -> getb m2 x = getb m x) as Hm2
    by (intros x H; unfold m2; rewrite getb_store_out by lia; apply Hm; lia).
  assert (Forall cchar (pre ++ int_text v)) as Hch by (apply Forall_app; split; [done | by apply int_text_chars]).
  apply strlcat_formatted; [split| |done].
  - apply cstring_ext with m; [done|]. intros x H. rewrite length_take in H. apply Hm2. lia.
  - intros x H1 H2. rewrite Hm2 by lia. by apply Hx.
  - apply reads_mem; [|rewrite length_app; lia]. split; [|done]. intros i H0 H1. rewrite length_app in H1.
    destruct (Z.ltb_spec i k).
    + unfold m2. rewrite getb_store_in, lookup_app_l by lia. do 2 f_equal. lia.
    + unfold m2. rewrite getb_store_out, lookup_app_r by lia.
      replace (p - k + i) with (p + (i - k)) by lia. destruct Hc as [Hc _]. rewrite Hc by lia. do 2 f_equal. lia.
Qed.

Lemma format_reg_formatted T m r :
  0 <= r < 256 -> formatted T m -> formatted (T ++ reg_text r) (format_reg m r len buf tmp).
Proof.
  intros Hr HT. unfold format_reg, reg_text. destruct (r =? FRV_REG_INV); cbn [negb]; [by rewrite app_nil_r|].
  destruct (frv_format_int m r (tmp + 2)) as [m1 p] eqn:E.
  pose proof (tmp_piece m r [32; 114] p m1 T HT E) as P. cbn zeta in P.
  change (Z.of_nat (length [32; 114])) with 2 in P. cbn [store_bytes] in P.
  replace (p - 2 + 1) with (p - 1) in P by lia. rewrite insert_insert_ne in P by lia.
  apply P; [unfold in_s; lia | repeat constructor; unfold cchar; lia | simpl; lia].
Qed.

Lemma format_imm_formatted T m i :
  in_s 32 i -> formatted T m -> formatted (T ++ imm_text i) (format_imm m i len buf tmp).
Proof.
  intros Hi HT. unfold format_imm, imm_text. destruct (i =? 0); cbn [negb]; [by rewrite app_nil_r|].
  destruct (frv_format_int m i (tmp + 2)) as [m1 p] eqn:E.
  apply (tmp_piece m i [32] p m1 T HT E Hi); [repeat constructor; unfold cchar; lia | simpl; lia].
Qed.
End Format.

(** Names are plain characters. *)
Lemma mnem_name_chars n s : mnem_name n = Some s -> Forall cchar (bytes_of_string s).
Proof.
  unfold mnem_name. destruct (find _ mnem_str) as [[k t]|] eqn:E; [|done]. intros [= <-].
  apply List.find_some in E as [Hin _].
  assert (forallb (fun e => forallb (fun c => (0 <? c) && (c <? 256)) (bytes_of_string e.2)) mnem_str = true) as F by reflexivity.
  rewrite forallb_forall in F. specialize (F _ Hin). apply Forall_forall. intros c Hc. apply list_elem_of_In in Hc.
  rewrite forallb_forall in F. specialize (F c Hc). unfold cchar. lia.
Qed.

Definition frv_fields (i : FrvInst) : Prop :=
  in_u 8 (rd i) /\ in_u 8 (rs1 i) /\ in_u 8 (rs2 i) /\ in_u 8 (rs3 i) /\ in_s 32 (imm i).

(** Printing: for any contents of the instruction record, [frv_format]
    leaves in the buffer the text of the instruction (mnemonic, present
    registers, non-zero immediate in decimal), cut to [len - 1] characters and
    NUL-terminated, and writes nothing outside the buffer and its own local
    array; with an empty buffer it writes nothing at all. *)
Theorem frv_format_correct m i len buf tmp :
  frv_fields i -> 0 <= len -> buf + len <= tmp \/ tmp + 18 <= buf ->
  let m' := frv_format m i len buf tmp in
  (0 < len -> cstring m' buf (take (Z.to_nat (len - 1)) (inst_text i))) /\
  (len = 0 -> m' = m) /\
  (forall x, x < buf \/ buf + len <= x -> x < tmp \/ tmp + 18 <= x -> getb m' x = getb m x).
Proof.
  intros (H1 & H2 & H3 & H4 & Hi) Hlen Hd m'. subst m'. unfold frv_format.
  destruct (Z.eqb_spec len 0) as [->|Hne]; [split; [lia | done]|].
  assert (0 < len) as Hpos by lia.
  match goal with |- context [cstring ?x _ _] => enough (formatted m len buf tmp (inst_text i) x) as [A B]
    by (split; [done|]; split; [done | exact B]) end.
  set (m1 := <[buf := 0]> m).
  assert (formatted m len buf tmp [] m1) as F.
  { split; [rewrite take_nil; split; [|constructor]|].
    - intros k Hk0 Hk. simpl in Hk. replace k with 0 by lia. unfold m1, getb. by rewrite Z.add_0_r, lookup_insert_eq.
    - intros x Hx _. unfold m1, getb. by rewrite lookup_insert_ne by lia. }
  unfold inst_text. destruct (mnem_name (mnem i)) as [s|] eqn:En.
  - rewrite !app_assoc. apply format_imm_formatted; try done. do 4 (apply format_reg_formatted; try done).
    apply (strlcat_formatted m len buf tmp Hpos Hd _ []); [done | apply reads_lit | by apply mnem_name_chars with (mnem i)].
  - apply (strlcat_formatted m len buf tmp Hpos Hd _ []); [done | apply reads_lit |].
    repeat constructor.
Qed.
Lemma frv_format_correct_witness :
  let i := mkFrv FRV_BNE 255 15 0 255 0 (-20) in
  let m' := frv_format ∅ i 13 0x1000 0x2000 in
  cstring m' 0x1000 (bytes_of_string "bne r15 r0 -").
Proof.
  intros i m'.
  destruct (frv_format_correct ∅ i 13 0x1000 0x2000) as [H _];
    [repeat split; unfold in_u, in_s; cbn; lia | lia | lia | exact (H ltac:(lia))].
Defined.
