(* ===== verification/Farmdec.v ===== *)
(** * The AArch64 decoder, [subprojects/farmdec/decode.c]

    The data of [farmdec.h] and the groups of integer instructions: data
    processing with immediates and with registers, branches and system
    instructions.  Each group decodes a 32-bit word to an [Inst]; the union of
    the operands is a sum, whose initial zero is [UImm 0].  The other groups are
    in FarmdecMem, FarmdecFp and FarmdecSimd, the decoder itself in
    FarmdecDecode. *)

From Stdlib Require Import ZArith Lia String.
From stdpp Require Import base numbers list.
From S2P Require Import Prelude.

(** ** [farmdec.h] *)

Inductive Op :=
  | A64_UNKNOWN | A64_ERROR | A64_UDF | A64_ADR | A64_ADRP | A64_ADD_IMM | A64_CMN_IMM | A64_MOV_SP
  | A64_SUB_IMM | A64_CMP_IMM | A64_AND_IMM | A64_ORR_IMM | A64_EOR_IMM | A64_TST_IMM | A64_MOVK
  | A64_MOV_IMM | A64_SBFM | A64_ASR_IMM | A64_SBFIZ | A64_SBFX | A64_BFM | A64_BFC | A64_BFI | A64_BFXIL
  | A64_UBFM | A64_LSL_IMM | A64_LSR_IMM | A64_UBFIZ | A64_UBFX | A64_EXTEND | A64_EXTR | A64_ROR_IMM
  | A64_BCOND | A64_SVC | A64_HVC | A64_SMC | A64_BRK | A64_HLT | A64_DCPS1 | A64_DCPS2 | A64_DCPS3
  | A64_HINT | A64_CLREX | A64_DMB | A64_ISB | A64_SB | A64_DSB | A64_SSBB | A64_PSSBB | A64_MSR_IMM
  | A64_CFINV | A64_XAFlag | A64_AXFlag | A64_SYS | A64_SYSL | A64_MSR_REG | A64_MRS | A64_BR | A64_BLR
  | A64_RET | A64_B | A64_BL | A64_CBZ | A64_CBNZ | A64_TBZ | A64_TBNZ | A64_UDIV | A64_SDIV | A64_LSLV
  | A64_LSRV | A64_ASRV | A64_RORV | A64_CRC32B | A64_CRC32H | A64_CRC32W | A64_CRC32X | A64_CRC32CB
  | A64_CRC32CH | A64_CRC32CW | A64_CRC32CX | A64_SUBP | A64_RBIT | A64_REV16 | A64_REV | A64_REV32 | A64_CLZ
  | A64_CLS | A64_AND_SHIFTED | A64_TST_SHIFTED | A64_BIC | A64_ORR_SHIFTED | A64_MOV_REG | A64_ORN | A64_MVN
  | A64_EOR_SHIFTED | A64_EON | A64_ADD_SHIFTED | A64_CMN_SHIFTED | A64_SUB_SHIFTED | A64_NEG
  | A64_CMP_SHIFTED | A64_ADD_EXT | A64_CMN_EXT | A64_SUB_EXT | A64_CMP_EXT | A64_ADC | A64_SBC | A64_NGC
  | A64_RMIF | A64_SETF8 | A64_SETF16 | A64_CCMN_REG | A64_CCMP_REG | A64_CCMN_IMM | A64_CCMP_IMM | A64_CSEL
  | A64_CSINC | A64_CINC | A64_CSET | A64_CSINV | A64_CINV | A64_CSETM | A64_CSNEG | A64_CNEG | A64_MADD
  | A64_MUL | A64_MSUB | A64_MNEG | A64_SMADDL | A64_SMULL | A64_SMSUBL | A64_SMNEGL | A64_SMULH | A64_UMADDL
  | A64_UMULL | A64_UMSUBL | A64_UMNEGL | A64_UMULH | A64_LD1_MULT | A64_ST1_MULT | A64_LD2_MULT
  | A64_ST2_MULT | A64_LD3_MULT | A64_ST3_MULT | A64_LD4_MULT | A64_ST4_MULT | A64_LD1_SINGLE
  | A64_ST1_SINGLE | A64_LD2_SINGLE | A64_ST2_SINGLE | A64_LD3_SINGLE | A64_ST3_SINGLE | A64_LD4_SINGLE
  | A64_ST4_SINGLE | A64_LD1R | A64_LD2R | A64_LD3R | A64_LD4R | A64_LDXR | A64_STXR | A64_LDXP | A64_STXP
  | A64_LDAPR | A64_LDNP | A64_STNP | A64_LDNP_FP | A64_STNP_FP | A64_LDP | A64_STP | A64_LDP_FP | A64_STP_FP
  | A64_LDR | A64_STR | A64_LDR_FP | A64_STR_FP | A64_PRFM | A64_LDADD | A64_LDCLR | A64_LDEOR | A64_LDSET
  | A64_LDSMAX | A64_LDSMIN | A64_LDUMAX | A64_LDUMIN | A64_SWP | A64_CAS | A64_CASP | A64_FCVT_GPR
  | A64_FCVT_VEC | A64_CVTF | A64_CVTF_VEC | A64_FJCVTZS | A64_FRINT | A64_FRINT_VEC | A64_FRINTX
  | A64_FRINTX_VEC | A64_FCVT_H | A64_FCVT_S | A64_FCVT_D | A64_FCVTL | A64_FCVTN | A64_FCVTXN | A64_FABS
  | A64_FNEG | A64_FSQRT | A64_FMUL | A64_FMULX | A64_FDIV | A64_FADD | A64_FSUB | A64_FMAX | A64_FMAXNM
  | A64_FMIN | A64_FMINNM | A64_FRECPE | A64_FRECPS | A64_FRECPX | A64_FRSQRTE | A64_FRSQRTS | A64_FNMUL
  | A64_FMADD | A64_FMSUB | A64_FNMADD | A64_FNMSUB | A64_FCMP_REG | A64_FCMP_ZERO | A64_FCMPE_REG
  | A64_FCMPE_ZERO | A64_FCCMP | A64_FCCMPE | A64_FCSEL | A64_FMOV_VEC2GPR | A64_FMOV_GPR2VEC
  | A64_FMOV_TOP2GPR | A64_FMOV_GPR2TOP | A64_FMOV_REG | A64_FMOV_IMM | A64_FMOV_VEC | A64_FCMEQ_REG
  | A64_FCMEQ_ZERO | A64_FCMGE_REG | A64_FCMGE_ZERO | A64_FCMGT_REG | A64_FCMGT_ZERO | A64_FCMLE_ZERO
  | A64_FCMLT_ZERO | A64_FACGE | A64_FACGT | A64_FABS_VEC | A64_FABD_VEC | A64_FNEG_VEC | A64_FSQRT_VEC
  | A64_FMUL_ELEM | A64_FMUL_VEC | A64_FMULX_ELEM | A64_FMULX_VEC | A64_FDIV_VEC | A64_FADD_VEC | A64_FCADD
  | A64_FSUB_VEC | A64_FMAX_VEC | A64_FMAXNM_VEC | A64_FMIN_VEC | A64_FMINNM_VEC | A64_FRECPE_VEC
  | A64_FRECPS_VEC | A64_FRSQRTE_VEC | A64_FRSQRTS_VEC | A64_FMLA_ELEM | A64_FMLA_VEC | A64_FMLAL_ELEM
  | A64_FMLAL_VEC | A64_FMLAL2_ELEM | A64_FMLAL2_VEC | A64_FCMLA_ELEM | A64_FCMLA_VEC | A64_FMLS_ELEM
  | A64_FMLS_VEC | A64_FMLSL_ELEM | A64_FMLSL_VEC | A64_FMLSL2_ELEM | A64_FMLSL2_VEC | A64_FADDP
  | A64_FADDP_VEC | A64_FMAXP | A64_FMAXP_VEC | A64_FMAXV | A64_FMAXNMP | A64_FMAXNMP_VEC | A64_FMAXNMV
  | A64_FMINP | A64_FMINP_VEC | A64_FMINV | A64_FMINNMP | A64_FMINNMP_VEC | A64_FMINNMV | A64_AND_VEC
  | A64_BCAX | A64_BIC_VEC_IMM | A64_BIC_VEC_REG | A64_BIF | A64_BIT | A64_BSL | A64_CLS_VEC | A64_CLZ_VEC
  | A64_CNT | A64_EOR_VEC | A64_EOR3 | A64_NOT_VEC | A64_ORN_VEC | A64_ORR_VEC_IMM | A64_ORR_VEC_REG
  | A64_MOV_VEC | A64_RAX1 | A64_RBIT_VEC | A64_REV16_VEC | A64_REV32_VEC | A64_REV64_VEC | A64_SHL_IMM
  | A64_SHL_REG | A64_SHLL | A64_SHR | A64_SHRN | A64_SRA | A64_SLI | A64_SRI | A64_XAR | A64_DUP_ELEM
  | A64_DUP_GPR | A64_EXT | A64_INS_ELEM | A64_INS_GPR | A64_MOVI | A64_SMOV | A64_UMOV | A64_TBL | A64_TBX
  | A64_TRN1 | A64_TRN2 | A64_UZP1 | A64_UZP2 | A64_XTN | A64_ZIP1 | A64_ZIP2 | A64_CMEQ_REG | A64_CMEQ_ZERO
  | A64_CMGE_REG | A64_CMGE_ZERO | A64_CMGT_REG | A64_CMGT_ZERO | A64_CMHI_REG | A64_CMHS_REG | A64_CMLE_ZERO
  | A64_CMLT_ZERO | A64_CMTST | A64_ABS_VEC | A64_ABD | A64_ABDL | A64_ABA | A64_ABAL | A64_NEG_VEC
  | A64_MUL_ELEM | A64_MUL_VEC | A64_MULL_ELEM | A64_MULL_VEC | A64_ADD_VEC | A64_ADDHN | A64_ADDL | A64_ADDW
  | A64_HADD | A64_SUB_VEC | A64_SUBHN | A64_SUBL | A64_SUBW | A64_HSUB | A64_MAX_VEC | A64_MIN_VEC
  | A64_DOT_ELEM | A64_DOT_VEC | A64_URECPE | A64_URSQRTE | A64_MLA_ELEM | A64_MLA_VEC | A64_MLS_ELEM
  | A64_MLS_VEC | A64_MLAL_ELEM | A64_MLAL_VEC | A64_MLSL_ELEM | A64_MLSL_VEC | A64_ADDP | A64_ADDP_VEC
  | A64_ADDV | A64_ADALP | A64_ADDLP | A64_ADDLV | A64_MAXP | A64_MAXV | A64_MINP | A64_MINV | A64_QADD
  | A64_QABS | A64_SUQADD | A64_USQADD | A64_QSHL_IMM | A64_QSHL_REG | A64_QSHRN | A64_QSUB | A64_QXTN
  | A64_SQABS | A64_SQADD | A64_SQDMLAL_ELEM | A64_SQDMLAL_VEC | A64_SQDMLSL_ELEM | A64_SQDMLSL_VEC
  | A64_SQDMULH_ELEM | A64_SQDMULH_VEC | A64_SQDMULL_ELEM | A64_SQDMULL_VEC | A64_SQNEG | A64_SQRDMLAH_ELEM
  | A64_SQRDMLAH_VEC | A64_SQRDMLSH_ELEM | A64_SQRDMLSH_VEC | A64_SQSHLU | A64_SQSHRUN | A64_SQXTUN
  | A64_PMUL | A64_PMULL.

(** The members of the union; [fimm] is the bit pattern of the double. *)
Inductive Operand :=
  | UImm (imm : Z)
  | UOffset (offset : Z)
  | URa (ra : Z)
  | UError (error : string)
  | UMovk (imm16 lsl : Z)
  | UBfm (lsb width : Z)
  | UCcmp (nzcv imm5 : Z)
  | USys (op1 op2 crn crm : Z)
  | UMsrImm (psfld imm : Z)
  | UTbz (offset bit : Z)
  | UShift (type amount : Z)
  | URmif (mask ror : Z)
  | UExtend (type lsl : Z)
  | UFimm (fimm : Z)
  | ULdstOrder (load store rs : Z)
  | USimdLdst (nreg index offset : Z)
  | UFcvt (mode fbits sgn : Z)
  | UFrint (mode bits : Z)
  | UInsElem (dst src : Z)
  | UFcmlaElem (idx rot : Z).

(** [rd] is also [rt], [rm] also [rt2] and [rs]. *)
Record Inst := mkInst { op : Op; flags : Z; rd : Z; rn : Z; rm : Z; operand : Operand }.

Definition ZERO_REG : Z := 31.
Definition STACK_POINTER : Z := 100.
Definition W32 : Z := 1.
Definition SET_FLAGS : Z := 2.
Definition SIMD_SCALAR : Z := 32.
Definition SIMD_SIGNED : Z := 64.
Definition SIMD_ROUND : Z := 128.
Definition SH_LSL : Z := 0.
Definition AM_SIMPLE : Z := 0.
Definition AM_OFF_IMM : Z := 1.
Definition AM_OFF_REG : Z := 2.
Definition AM_OFF_EXT : Z := 3.
Definition AM_PRE : Z := 4.
Definition AM_POST : Z := 5.
Definition AM_LITERAL : Z := 6.
Definition MO_NONE : Z := 0.
Definition MO_ACQUIRE : Z := 1.
Definition MO_LO_ACQUIRE : Z := 2.
Definition MO_ACQUIRE_PC : Z := 3.
Definition MO_RELEASE : Z := 4.
Definition MO_LO_RELEASE : Z := 5.
Definition SZ_B : Z := 0.
Definition SZ_H : Z := 1.
Definition SZ_W : Z := 2.
Definition SZ_X : Z := 3.
Definition FSZ_B : Z := SZ_B.
Definition FSZ_H : Z := SZ_H.
Definition FSZ_S : Z := SZ_W.
Definition FSZ_D : Z := SZ_X.
Definition FSZ_Q : Z := 7.
Definition VA_8B : Z := 0.
Definition VA_16B : Z := 1.
Definition VA_4H : Z := 2.
Definition VA_8H : Z := 3.
Definition VA_2S : Z := 4.
Definition VA_4S : Z := 5.
Definition VA_1D : Z := 6.
Definition VA_2D : Z := 7.
Definition FPR_CURRENT : Z := 0.
Definition FPR_TIE_EVEN : Z := 1.
Definition FPR_TIE_AWAY : Z := 2.
Definition FPR_NEG_INF : Z := 3.
Definition FPR_ZERO : Z := 4.
Definition FPR_POS_INF : Z := 5.
Definition UXTB : Z := 0.
Definition UXTH : Z := 1.
Definition UXTX : Z := 3.
Definition SXTB : Z := 4.
Definition SXTH : Z := 5.
Definition SXTW : Z := 6.
Definition PSF_UAO : Z := 0.
Definition PSF_PAN : Z := 1.
Definition PSF_SPSel : Z := 2.
Definition PSF_SSBS : Z := 3.
Definition PSF_DIT : Z := 4.
Definition PSF_DAIFSet : Z := 5.
Definition PSF_DAIFClr : Z := 6.

(** ** Helpers *)

Definition UNKNOWN_INST : Inst := mkInst A64_UNKNOWN 0 0 0 0 (UImm 0).
Definition errinst (err : string) : Inst := mkInst A64_ERROR 0 0 0 0 (UError err).

Definition fad_get_cond (flags : Z) : Z := Z.land (Z.shiftr flags 4) 0xf.
Definition set_cond (flags cond : Z) : Z := Z.lor (Z.shiftl (Z.land cond 0xf) 4) (Z.land flags 0x0f).
Definition invert_cond (flags : Z) : Z := set_cond flags (Z.lxor (fad_get_cond flags) 1).

Definition fad_get_addrmode (flags : Z) : Z := Z.land (Z.shiftr flags 5) 7.
Definition set_addrmode (flags mode : Z) : Z := Z.lor (Z.shiftl (Z.land mode 7) 5) (Z.land flags 31).
Definition fad_get_mem_extend (flags : Z) : Z := Z.land (Z.shiftr flags 2) 7.
Definition set_mem_extend (flags memext : Z) : Z := Z.lor (Z.shiftl (Z.land memext 7) 2) (Z.land flags 0xe3).
Definition fad_get_vec_arrangement (flags : Z) : Z := Z.land (Z.shiftr flags 2) 7.
Definition set_vec_arrangement (flags va : Z) : Z := Z.lor (Z.shiftl (Z.land va 7) 2) (Z.land flags 0xe3).
Definition fad_get_prec (flags : Z) : Z := Z.land (Z.shiftr flags 1) 7.
Definition set_prec (flags prec : Z) : Z := Z.lor (Z.shiftl (Z.land prec 7) 1) (Z.land flags 0xf1).
Definition fad_size_from_vec_arrangement (va : Z) : Z := Z.shiftr va 1.

(** [(binst >> lo) & mask]. *)
Definition bits (binst lo mask : Z) : Z := Z.land (Z.shiftr binst lo) mask.
Definition bit (binst i : Z) : bool := negb (bits binst i 1 =? 0).

Definition regRd (binst : Z) : Z := bits binst 0 31.
Definition regRdSP (binst : Z) : Z := if regRd binst =? 31 then STACK_POINTER else regRd binst.
Definition regRn (binst : Z) : Z := bits binst 5 31.
Definition regRnSP (binst : Z) : Z := if regRn binst =? 31 then STACK_POINTER else regRn binst.
Definition regRm (binst : Z) : Z := bits binst 16 31.
Definition regRmSP (binst : Z) : Z := if regRm binst =? 31 then STACK_POINTER else regRm binst.

Definition sext (x b : Z) : Z :=
  let mask := Z.shiftl 1 (b - 1) in Z.lxor x mask - mask.

(** The width flag of most groups, from bit 31, and whether a flag is set. *)
Definition width_flag (top3 : Z) : Z := if Z.land top3 4 =? 0 then W32 else 0.
Definition has_flag (flags f : Z) : bool := negb (Z.land flags f =? 0).

(** ** Bit masks *)

(** [fallback_highest_bit]: [None] if the loop has not ended after [fuel] rounds. *)
Fixpoint fallback_loop (fuel : nat) (x n : Z) : option Z :=
  match fuel with
  | O => None
  | S fuel' =>
      let x := Z.shiftr x 1 in
      let n := n + 1 in
      if negb (x =? 1) then fallback_loop fuel' x n else Some n
  end.
Definition fallback_highest_bit (fuel : nat) (x : Z) : option Z := fallback_loop fuel x 0.

(** The position of the highest bit where the compiler has the builtin,
    [31 - __builtin_clz(x)]; [None] for zero, for which the builtin is undefined. *)
Definition highest_bit (x : Z) : option Z := if x =? 0 then None else Some (Z.log2 x).

(** [levels = (levels << 1) | 1], [n] times. *)
Fixpoint push_ones (n : nat) (x : Z) : Z :=
  match n with O => x | S n' => push_ones n' (Z.lor (Z.shiftl x 1) 1) end.

(** [wmask = (wmask << esize) | welem], [n] times. *)
Fixpoint replicate_elem (n : nat) (esize welem wmask : Z) : Z :=
  match n with
  | O => wmask
  | S n' => replicate_elem n' esize welem (u64 (Z.lor (u64 (Z.shiftl wmask esize)) welem))
  end.

Section Bitmask.
(** What the compiler makes of [x << 64], which C leaves undefined. *)
Context (shl64 : Z -> Z).

Definition shl (x n : Z) : Z := if n <? 64 then u64 (Z.shiftl x n) else shl64 x.
Definition ror (x n len : Z) : Z :=
  let raw := Z.lor (Z.shiftr x n) (shl x (len - n)) in
  if len =? 64 then raw else Z.land raw (Z.shiftl 1 len - 1).

(** With an element of 64 bits the shift of the only round is by 64 too, of
    zero. *)
Definition decode_bitmask (immN imms immr : Z) (w32 : bool) : option Z :=
  let M := if w32 then 32 else 64 in
  let immN := Z.land immN 1 in
  let imms := Z.land imms 63 in
  let immr := Z.land immr 63 in
  match highest_bit (Z.lor (Z.shiftl immN 6) (Z.land (Z.lnot imms) 63)) with
  | None => None
  | Some len =>
      let levels := push_ones (Z.to_nat len) 0 in
      let S_ := Z.land imms levels in
      let R := Z.land immr levels in
      let esize := Z.shiftl 1 len in
      let welem := ror (push_ones (Z.to_nat (S_ + 1)) 0) R esize in
      if esize =? 64 then Some (Z.lor (shl 0 64) welem)
      else Some (replicate_elem (Z.to_nat (M / esize)) esize welem 0)
  end.

(** ** Data processing with immediates *)

Definition dpi_pcrel (binst top3 : Z) : Inst :=
  let adrp := negb (Z.land top3 4 =? 0) in
  let immhi := Z.land binst (Z.shiftl 0x7ffff 5) in
  let immlo := Z.land top3 3 in
  let uimm := Z.lor (Z.shiftr immhi 3) immlo in
  let scale := if adrp then 4096 else 1 in
  mkInst (if adrp then A64_ADRP else A64_ADR) 0 (regRd binst) 0 0 (UOffset (s64 (scale * sext uimm 21))).

Definition dpi_addsub (binst top3 flags : Z) : Inst :=
  let is_add := Z.land top3 2 =? 0 in
  let flags := if Z.land top3 1 =? 0 then flags else Z.lor flags SET_FLAGS in
  let unshifted_imm := bits binst 10 0xfff in
  let shift_by_12 := bit binst 22 in
  let imm := if shift_by_12 then Z.shiftl unshifted_imm 12 else unshifted_imm in
  let rd := if has_flag flags SET_FLAGS then regRd binst else regRdSP binst in
  let rn := regRnSP binst in
  let op :=
    if (rd =? ZERO_REG) && has_flag flags SET_FLAGS then (if is_add then A64_CMN_IMM else A64_CMP_IMM)
    else if is_add && negb shift_by_12 && (unshifted_imm =? 0) && ((rd =? STACK_POINTER) || (rn =? STACK_POINTER))
    then A64_MOV_SP
    else if is_add then A64_ADD_IMM else A64_SUB_IMM in
  mkInst op flags rd rn 0 (UImm imm).

(** [None] where [highest_bit] is undefined. *)
Definition dpi_logic (binst top3 flags : Z) : option Inst :=
  let opc := Z.land top3 3 in
  let op :=
    match opc with
    | 0 => A64_AND_IMM
    | 1 => A64_ORR_IMM
    | 2 => A64_EOR_IMM
    | _ => if regRd binst =? ZERO_REG then A64_TST_IMM else A64_AND_IMM
    end in
  let flags := if opc =? 3 then Z.lor flags SET_FLAGS else flags in
  let immr := bits binst 16 63 in
  let imms := bits binst 10 63 in
  let N := if has_flag flags W32 then 0 else bits binst 22 1 in
  imm ← decode_bitmask N imms immr (has_flag flags W32);
  let rd := if has_flag flags SET_FLAGS then regRd binst else regRdSP binst in
  Some (mkInst op flags rd (regRn binst) 0 (UImm imm)).

Definition dpi_move (binst top3 flags : Z) : Inst :=
  let shift := 16 * bits binst 21 3 in
  let imm16 := bits binst 5 0xffff in
  match Z.land top3 3 with
  | 0 => mkInst A64_MOV_IMM flags (regRd binst) 0 0 (UImm (u64 (Z.lnot (Z.shiftl imm16 shift))))
  | 1 => UNKNOWN_INST
  | 2 => mkInst A64_MOV_IMM flags (regRd binst) 0 0 (UImm (Z.shiftl imm16 shift))
  | _ => mkInst A64_MOVK flags (regRd binst) 0 0 (UMovk imm16 shift)
  end.

(** The base instructions of the bit field group. *)
Inductive BaseOp := SBFM | BFM | UBFM.

Definition find_bfm_alias (op : BaseOp) (w32 : bool) (rd rn immr imms : Z) : Inst :=
  let all_ones := if w32 then 31 else 63 in
  let nbits := if w32 then 32 else 64 in
  let flags := if w32 then W32 else 0 in
  let inst op v := mkInst op flags rd rn 0 v in
  match op with
  | BFM =>
      if immr <=? imms then inst A64_BFXIL (UBfm immr (imms - immr + 1))
      else inst (if rn =? ZERO_REG then A64_BFC else A64_BFI) (UBfm (u32 (nbits - immr)) (imms + 1))
  | _ =>
      let sign := match op with SBFM => true | _ => false end in
      if negb sign && (imms + 1 =? immr) && negb (imms =? all_ones)
      then inst A64_LSL_IMM (UImm (u64 (all_ones - imms)))
      else if imms =? all_ones then inst (if sign then A64_ASR_IMM else A64_LSR_IMM) (UImm immr)
      else if imms <? immr
      then inst (if sign then A64_SBFIZ else A64_UBFIZ) (UBfm (u32 (nbits - immr)) (imms + 1))
      else
        let field := inst (if sign then A64_SBFX else A64_UBFX) (UBfm immr (imms - immr + 1)) in
        if immr =? 0 then
          if imms =? 7 then inst A64_EXTEND (UExtend (if sign then SXTB else UXTB) 0)
          else if imms =? 15 then inst A64_EXTEND (UExtend (if sign then SXTH else UXTH) 0)
          else if imms =? 31 then
            if sign then inst A64_EXTEND (UExtend SXTW 0)
            else errinst "find_bfm_alias: there is no UXTW instruction"
          else field
        else field
  end.

Definition dpi_bitfield (binst top3 flags : Z) : Inst :=
  let go op := find_bfm_alias op (has_flag flags W32) (regRd binst) (regRn binst) (bits binst 16 63) (bits binst 10 63) in
  match Z.land top3 3 with
  | 0 => go SBFM
  | 1 => go BFM
  | 2 => go UBFM
  | _ => errinst "data_proc_imm/Bitfield: neither SBFM, BFM or UBFM"
  end.

Definition dpi_extract (binst flags : Z) : Inst :=
  let imm := UImm (bits binst 10 63) in
  if regRn binst =? regRm binst then mkInst A64_ROR_IMM flags (regRd binst) (regRn binst) 0 imm
  else mkInst A64_EXTR flags (regRd binst) (regRn binst) (regRm binst) imm.

Definition data_proc_imm (binst : Z) : option Inst :=
  let top3 := bits binst 29 7 in
  let flags := width_flag top3 in
  match bits binst 22 15 with
  | 0 | 1 | 2 | 3 => Some (dpi_pcrel binst top3)
  | 6 | 7 => Some (errinst "ADDG, SUBG not supported")
  | 4 | 5 => Some (dpi_addsub binst top3 flags)
  | 8 | 9 => dpi_logic binst top3 flags
  | 10 | 11 => Some (dpi_move binst top3 flags)
  | 12 | 13 => Some (dpi_bitfield binst top3 flags)
  | 14 | 15 => Some (dpi_extract binst flags)
  | _ => Some UNKNOWN_INST
  end.
End Bitmask.

(** ** Branches and system instructions *)

Definition br_exception (binst : Z) : Inst :=
  let opcLL := Z.lor (Z.shiftl (bits binst 21 7) 2) (bits binst 0 3) in
  let inst op := mkInst op 0 0 0 0 (UImm (bits binst 5 0xffff)) in
  match opcLL with
  | 1 => inst A64_SVC
  | 2 => inst A64_HVC
  | 3 => inst A64_SMC
  | 4 => inst A64_BRK
  | 8 => inst A64_HLT
  | 21 => inst A64_DCPS1
  | 22 => inst A64_DCPS2
  | 23 => inst A64_DCPS3
  | _ => errinst "branches/Exceptions: bad instruction"
  end.

Definition br_msr (binst : Z) : Inst :=
  let o0val := if bit binst 19 then 3 else 2 in
  mkInst (if bit binst 21 then A64_MRS else A64_MSR_REG) 0 (regRd binst) 0 0
    (UImm (Z.lor (Z.shiftl o0val 14) (bits binst 5 0x3fff))).

Definition br_sys (binst : Z) : Inst :=
  mkInst (if bit binst 21 then A64_SYSL else A64_SYS) 0 (regRd binst) 0 0
    (USys (bits binst 16 7) (bits binst 5 7) (bits binst 12 15) (bits binst 8 15)).

Definition br_pstate (binst : Z) : Inst :=
  let crm := bits binst 8 15 in
  let plain op := mkInst op 0 0 0 0 (UImm 0) in
  let msr psfld := mkInst A64_MSR_IMM 0 0 0 0 (UMsrImm psfld crm) in
  match Z.lor (Z.shiftl (bits binst 16 7) 3) (bits binst 5 7) with
  | 0 => plain A64_CFINV
  | 1 => plain A64_XAFlag
  | 2 => plain A64_AXFlag
  | 3 => msr PSF_UAO
  | 4 => msr PSF_PAN
  | 5 => msr PSF_SPSel
  | 25 => msr PSF_SSBS
  | 26 => msr PSF_DIT
  | 30 => msr PSF_DAIFSet
  | 31 => msr PSF_DAIFClr
  | _ => errinst "branches/PSTATE: unknown MSR_IMM pstatefield"
  end.

Definition br_barrier (binst : Z) : Inst :=
  let crm := bits binst 8 15 in
  let inst op imm := mkInst op 0 0 0 0 (UImm imm) in
  match bits binst 5 7 with
  | 2 => inst A64_CLREX crm
  | 5 => inst A64_DMB crm
  | 6 => inst A64_ISB crm
  | 7 => if negb (regRd binst =? ZERO_REG) then errinst "branches/Barriers: bad instruction" else inst A64_SB 0
  | 4 =>
      match crm with
      | 0 => inst A64_SSBB 0
      | 4 => inst A64_PSSBB 0
      | _ => inst A64_DSB crm
      end
  | _ => UNKNOWN_INST
  end.

Definition br_system (binst : Z) : Inst :=
  if negb (bit binst 24) then br_exception binst
  else if bit binst 20 then br_msr binst
  else if bit binst 19 then br_sys binst
  else if bit binst 14 then br_pstate binst
  else
    let op1 := bits binst 12 0x3fff in
    if op1 =? 0x1032 then mkInst A64_HINT 0 0 0 0 (UImm 0)
    else if negb (op1 =? 0x1033) then UNKNOWN_INST
    else br_barrier binst.

Definition br_uncond_reg (binst : Z) : Inst :=
  let inst op := mkInst op 0 0 (regRn binst) 0 (UImm 0) in
  match bits binst 21 3 with
  | 0 => inst A64_BR
  | 1 => inst A64_BLR
  | 2 => inst A64_RET
  | _ => UNKNOWN_INST
  end.

Definition br_uncond (binst : Z) : Inst :=
  mkInst (if bit binst 31 then A64_BL else A64_B) 0 0 0 0
    (UOffset (sext (Z.shiftl (bits binst 0 0x3ffffff) 2) (26 + 2))).

Definition br_cond (binst : Z) : Inst :=
  mkInst A64_BCOND (set_cond 0 (bits binst 0 15)) 0 0 0
    (UOffset (sext (Z.shiftl (bits binst 5 0x7ffff) 2) (19 + 2))).

Definition br_cmp (binst top7 : Z) : Inst :=
  mkInst (if bit binst 24 then A64_CBNZ else A64_CBZ) (if Z.land top7 64 =? 0 then W32 else 0)
    (bits binst 0 31) 0 0 (UOffset (sext (Z.shiftl (bits binst 5 0x7ffff) 2) (19 + 2))).

Definition br_test (binst top7 : Z) : Inst :=
  let b40 := bits binst 19 31 in
  let b5 := Z.land binst (Z.shiftl 1 31) in
  mkInst (if bit binst 24 then A64_TBNZ else A64_TBZ) (if Z.land top7 64 =? 0 then W32 else 0)
    (bits binst 0 31) 0 0
    (UTbz (s32 (sext (Z.shiftl (bits binst 5 0x3fff) 2) (14 + 2))) (Z.lor (Z.shiftr b5 (31 - 5)) b40)).

Definition branches (binst : Z) : Inst :=
  let top7 := bits binst 25 127 in
  match top7 with
  | 42 => br_cond binst
  | 106 => br_system binst
  | 107 => br_uncond_reg binst
  | 10 | 11 | 74 | 75 => br_uncond binst
  | 26 | 90 => br_cmp binst top7
  | 27 | 91 => br_test binst top7
  | _ => UNKNOWN_INST
  end.

(** ** Data processing with registers *)

(** [SET_FLAGS] from bit 29. *)
Definition s_flag (top3 flags : Z) : Z := if Z.land top3 1 =? 0 then flags else Z.lor flags SET_FLAGS.

Definition dpr_2 (binst top3 flags : Z) : Inst :=
  let inst op := mkInst op flags (regRd binst) (regRn binst) (regRm binst) (UImm 0) in
  match bits binst 10 63 with
  | 0 => mkInst A64_SUBP (s_flag top3 flags) (regRd binst) (regRnSP binst) (regRmSP binst) (UImm 0)
  | 2 => inst A64_UDIV
  | 3 => inst A64_SDIV
  | 8 => inst A64_LSLV
  | 9 => inst A64_LSRV
  | 10 => inst A64_ASRV
  | 11 => inst A64_RORV
  | 16 => inst A64_CRC32B
  | 17 => inst A64_CRC32H
  | 18 => inst A64_CRC32W
  | 19 => inst A64_CRC32X
  | 20 => inst A64_CRC32CB
  | 21 => inst A64_CRC32CH
  | 22 => inst A64_CRC32CW
  | 23 => inst A64_CRC32CX
  | _ => inst A64_UNKNOWN
  end.

Definition dpr_1 (binst flags : Z) : Inst :=
  let inst op := mkInst op flags (regRd binst) (regRn binst) 0 (UImm 0) in
  match bits binst 10 0x3ff with
  | 0 => inst A64_RBIT
  | 1 => inst A64_REV16
  | 2 => inst (if has_flag flags W32 then A64_REV else A64_REV32)
  | 3 => inst A64_REV
  | 4 => inst A64_CLZ
  | 5 => inst A64_CLS
  | _ => inst A64_UNKNOWN
  end.

Definition dpr_logical (binst top3 flags : Z) : Inst :=
  let negate := bit binst 21 in
  let opc := Z.land top3 3 in
  let flags := if opc =? 3 then Z.lor flags SET_FLAGS else flags in
  let shift := bits binst 22 3 in
  let imm6 := bits binst 10 63 in
  let rd := regRd binst in
  let rn := regRn binst in
  let op :=
    match opc, negate with
    | 0, true => A64_BIC
    | 0, false => A64_AND_SHIFTED
    | 1, true => if rn =? ZERO_REG then A64_MVN else A64_ORN
    | 1, false => if (shift =? 0) && (imm6 =? 0) && (rn =? ZERO_REG) then A64_MOV_REG else A64_ORR_SHIFTED
    | 2, true => A64_EON
    | 2, false => A64_EOR_SHIFTED
    | _, true => A64_BIC
    | _, false => if rd =? ZERO_REG then A64_TST_SHIFTED else A64_AND_SHIFTED
    end in
  mkInst op flags rd rn (regRm binst) (UShift shift imm6).

Definition dpr_addsub_shifted (binst top3 flags : Z) : Inst :=
  let flags := s_flag top3 flags in
  let sub := negb (Z.land top3 2 =? 0) in
  let rd := regRd binst in
  let rn := regRn binst in
  let op :=
    if (rd =? ZERO_REG) && has_flag flags SET_FLAGS then (if sub then A64_CMP_SHIFTED else A64_CMN_SHIFTED)
    else if sub && (rn =? ZERO_REG) then A64_NEG
    else if sub then A64_SUB_SHIFTED else A64_ADD_SHIFTED in
  mkInst op flags rd rn (regRm binst) (UShift (bits binst 22 3) (bits binst 10 63)).

Definition dpr_addsub_ext (binst top3 flags : Z) : Inst :=
  let flags := s_flag top3 flags in
  let sub := negb (Z.land top3 2 =? 0) in
  let rd := if has_flag flags SET_FLAGS then regRd binst else regRdSP binst in
  let op :=
    if (rd =? ZERO_REG) && has_flag flags SET_FLAGS then (if sub then A64_CMP_EXT else A64_CMN_EXT)
    else if sub then A64_SUB_EXT else A64_ADD_EXT in
  mkInst op flags rd (regRnSP binst) (regRm binst) (UExtend (bits binst 13 7) (bits binst 10 7)).

Definition dpr_carry (binst top3 flags : Z) : Inst :=
  let flags := s_flag top3 flags in
  match bits binst 10 63 with
  | 0 =>
      let op := if Z.land top3 2 =? 0 then A64_ADC
                else if regRn binst =? ZERO_REG then A64_NGC else A64_SBC in
      mkInst op flags (regRd binst) (regRn binst) (regRm binst) (UImm 0)
  | 1 | 33 => mkInst A64_RMIF flags 0 (regRn binst) 0 (URmif (bits binst 0 15) (bits binst 15 63))
  | 2 => mkInst A64_SETF8 flags 0 (regRn binst) 0 (UImm 0)
  | 18 => mkInst A64_SETF16 flags 0 (regRn binst) 0 (UImm 0)
  | _ => UNKNOWN_INST
  end.

Definition dpr_ccmp (binst top3 flags : Z) : Inst :=
  let positive := Z.land top3 2 =? 0 in
  let immediate := bit binst 11 in
  let op :=
    if positive then (if immediate then A64_CCMN_IMM else A64_CCMN_REG)
    else (if immediate then A64_CCMP_IMM else A64_CCMP_REG) in
  let flags := set_cond (Z.lor flags SET_FLAGS) (bits binst 12 15) in
  let nzcv := bits binst 0 15 in
  if immediate then mkInst op flags 0 (regRn binst) 0 (UCcmp nzcv (bits binst 16 31))
  else mkInst op flags 0 (regRn binst) (regRm binst) (UCcmp nzcv 0).

(** The aliases of the conditional selects. *)
Definition csel_alias (i : Inst) : Inst :=
  let inv o := mkInst o (invert_cond (flags i)) (rd i) (rn i) (rm i) (operand i) in
  if (rm i =? ZERO_REG) && (rn i =? ZERO_REG) then
    match op i with
    | A64_CSINC => inv A64_CSET
    | A64_CSINV => inv A64_CSETM
    | _ => i
    end
  else if rm i =? rn i then
    match op i with
    | A64_CSNEG => inv A64_CNEG
    | A64_CSINC => inv A64_CINC
    | A64_CSINV => inv A64_CINV
    | _ => i
    end
  else i.

Definition dpr_csel (binst flags : Z) : Inst :=
  let inst op := csel_alias (mkInst op (set_cond flags (bits binst 12 15))
                               (regRd binst) (regRn binst) (regRm binst) (UImm 0)) in
  match Z.lor (Z.shiftl (bits binst 30 1) 2) (bits binst 10 3) with
  | 0 => inst A64_CSEL
  | 1 => inst A64_CSINC
  | 4 => inst A64_CSINV
  | 5 => inst A64_CSNEG
  | _ => UNKNOWN_INST
  end.

(** Multiply-add without an addend. *)
Definition mul_alias (o : Op) : Op :=
  match o with
  | A64_MADD => A64_MUL
  | A64_MSUB => A64_MNEG
  | A64_SMADDL => A64_SMULL
  | A64_SMSUBL => A64_SMNEGL
  | A64_UMADDL => A64_UMULL
  | A64_UMSUBL => A64_UMNEGL
  | _ => o
  end.

Definition dpr_3 (binst top3 flags : Z) : Inst :=
  let sub := bit binst 15 in
  let ra := bits binst 10 31 in
  let inst (wide : bool) op :=
    if (Z.land top3 4 =? 0) && wide
    then errinst "data_proc_reg/DataProc3: no 32-bit variant except for MADD and MSUB"
    else mkInst (if ra =? ZERO_REG then mul_alias op else op) flags
           (regRd binst) (regRn binst) (regRm binst) (URa ra) in
  match bits binst 21 7 with
  | 0 => inst false (if sub then A64_MSUB else A64_MADD)
  | 1 => inst true (if sub then A64_SMSUBL else A64_SMADDL)
  | 2 => inst true A64_SMULH
  | 5 => inst true (if sub then A64_UMSUBL else A64_UMADDL)
  | 6 => inst true A64_UMULH
  | _ => errinst "data_proc_reg/DataProc3: invalid opcode"
  end.

Definition data_proc_reg (binst : Z) : Inst :=
  let top3 := bits binst 29 7 in
  let flags := width_flag top3 in
  match bits binst 21 255 with
  | 214 => if Z.land top3 2 =? 0 then dpr_2 binst top3 flags else dpr_1 binst flags
  | 80 | 81 | 82 | 83 | 84 | 85 | 86 | 87 => dpr_logical binst top3 flags
  | 88 | 90 | 92 | 94 => dpr_addsub_shifted binst top3 flags
  | 89 | 91 | 93 | 95 => dpr_addsub_ext binst top3 flags
  | 208 => dpr_carry binst top3 flags
  | 210 => dpr_ccmp binst top3 flags
  | 212 => dpr_csel binst flags
  | 216 | 217 | 218 | 219 | 220 | 221 | 222 | 223 => dpr_3 binst top3 flags
  | _ => UNKNOWN_INST
  end.
