(* ===== verification/FarmdecProofs.v ===== *)
(** * What the AArch64 decoder's immediates and aliases mean

    The decoder expands bit masks and replaces base instructions by their more
    specific aliases.  Masks are compared with the bit-level definition of the
    architecture, aliases with the operation of the base instruction, for all
    operands. *)

From Stdlib Require Import ZArith Lia String.
From stdpp Require Import base numbers list.
From S2P Require Import Prelude Farmdec.

(** A test that holds on a range of integers, by computation. *)
Lemma seqZ_all (f : Z -> bool) lo n : forallb f (seqZ lo n) = true -> forall x, lo <= x < lo + n -> f x = true.
Proof. intros H x Hx. rewrite forallb_forall in H. apply H, list_elem_of_In, elem_of_seqZ. lia. Qed.

(** ** The highest bit *)

(** Without the builtin: the loop returns the same position within 32 rounds,
    except for 1, for which it never ends. *)
Lemma fallback_loop_log2 fuel x n : 2 <= x < 2 ^ Z.of_nat fuel -> fallback_loop fuel x n = Some (n + Z.log2 x).
Proof.
  revert x n. induction fuel as [|fuel IH]; intros x n Hx; [cbn in Hx; lia|]. cbn [fallback_loop].
  rewrite Z.shiftr_div_pow2, Z.pow_1_r by lia. rewrite Nat2Z.inj_succ, Z.pow_succ_r in Hx by lia.
  assert (Z.log2 x = Z.succ (Z.log2 (x / 2))) as ->.
  { replace (x / 2) with (Z.shiftr x 1) by (by rewrite Z.shiftr_div_pow2). rewrite Z.log2_shiftr by lia.
    pose proof (Z.log2_le_mono 2 x). change (Z.log2 2) with 1 in *. lia. }
  destruct (Z.eqb_spec (x / 2) 1) as [-> |Hne]; cbn [negb]; [f_equal; cbn; lia|].
  rewrite IH by zdm. f_equal. lia.
Qed.

Lemma fallback_loop_zero fuel n : fallback_loop fuel 0 n = None.
Proof. revert n. induction fuel as [|fuel IH]; intros n; [done|]. apply IH. Qed.

Theorem fallback_agrees x :
  in_u 32 x -> x <> 0 ->
  if x =? 1 then highest_bit x = Some 0 /\ forall fuel, fallback_highest_bit fuel x = None
  else fallback_highest_bit 32 x = highest_bit x.
Proof.
  intros Hx H0. unfold in_u in Hx. unfold highest_bit, fallback_highest_bit. destruct (Z.eqb_spec x 1) as [-> |H1].
  - split; [done|]. intros [|fuel]; [done|]. apply fallback_loop_zero.
  - rewrite (proj2 (Z.eqb_neq x 0)) by done. apply (fallback_loop_log2 32). change (Z.of_nat 32) with 32. lia.
Qed.

(** ** Bit masks *)

Lemma land_ones_range x n : 0 <= n -> 0 <= Z.land x (Z.ones n) < 2 ^ n.
Proof. intros Hn. rewrite Z.land_ones by done. apply Z.mod_pos_bound. lia. Qed.

Section Shl.
(** A shift by the full width gives zero or the operand, as processors do. *)
Context (shl64 : Z -> Z) (Hshl : forall x, shl64 x = 0 \/ shl64 x = x).

Lemma ror_defined x n len : 0 <= n -> len <= 64 -> ror shl64 x n len = ror (fun _ => 0) x n len.
Proof.
  intros Hn Hl. unfold ror, shl. destruct (Z.ltb_spec (len - n) 64) as [_|Hge]; [done|].
  assert (n = 0) as -> by lia. rewrite Z.shiftr_0_r.
  assert (Z.lor x (shl64 x) = x) as -> by (destruct (Hshl x) as [-> | ->]; [apply Z.lor_0_r | apply Z.lor_diag]).
  by rewrite Z.lor_0_r.
Qed.

Lemma decode_bitmask_defined immN imms immr w32 :
  decode_bitmask shl64 immN imms immr w32 = decode_bitmask (fun _ => 0) immN imms immr w32.
Proof.
  unfold decode_bitmask. destruct (highest_bit _) as [len|] eqn:E; [|done]. cbv zeta.
  rewrite ror_defined.
  - unfold shl. change (64 <? 64) with false. cbv iota. by destruct (Hshl 0) as [-> | ->].
  - rewrite Z.land_nonneg. right. clear. generalize (Z.to_nat len) as n.
    assert (forall n x, 0 <= x -> 0 <= push_ones n x) as H.
    { induction n as [|n IH]; intros x Hx; [done|]. cbn [push_ones]. apply IH.
      rewrite Z.lor_nonneg, Z.shiftl_nonneg. lia. }
    intros n. by apply H.
  - unfold highest_bit in E. destruct (_ =? 0) in E; [done|]. injection E as <-.
    rewrite Z.shiftl_1_l. change 64 with (2 ^ 6). apply Z.pow_le_mono_r; [lia|].
    assert (0 <= Z.land immN 1 < 2) as H1 by exact (land_ones_range immN 1 ltac:(lia)).
    assert (0 <= Z.land (Z.lnot (Z.land imms 63)) 63 < 64) as H2
      by exact (land_ones_range _ 6 ltac:(lia)).
    rewrite Z.log2_lor by (rewrite ?Z.shiftl_nonneg; lia). apply Z.max_lub.
    + assert (Z.land immN 1 = 0 \/ Z.land immN 1 = 1) as [-> | ->] by lia; by vm_compute.
    + apply (Z.log2_le_mono _ 64). lia.
Qed.
End Shl.

Lemma push_ones_spec n x : push_ones n x = (x + 1) * 2 ^ Z.of_nat n - 1.
Proof.
  revert x; induction n as [|n IH]; intros x; [cbn; lia|]. cbn [push_ones].
  rewrite IH, Nat2Z.inj_succ, Z.pow_succ_r, Z.lor_comm, lor_shiftl_add by lia. ring.
Qed.

Lemma push_ones_0 n : 0 <= n -> push_ones (Z.to_nat n) 0 = Z.ones n.
Proof. intros Hn. rewrite push_ones_spec, Z2Nat.id, Z.ones_equiv by done. lia. Qed.

Lemma ror_bit x n len i :
  0 <= n < len -> len <= 64 -> in_u len x -> 0 <= i < len ->
  Z.testbit (ror (fun _ => 0) x n len) i = Z.testbit x ((i + n) `mod` len).
Proof.
  intros Hn Hl Hx Hi. unfold ror, shl.
  assert (Z.testbit (Z.lor (Z.shiftr x n) (if len - n <? 64 then u64 (Z.shiftl x (len - n)) else 0)) i =
          Z.testbit x ((i + n) `mod` len)) as E.
  { rewrite Z.lor_spec, Z.shiftr_spec by lia. destruct (Z.ltb_spec (i + n) len).
    - rewrite Z.mod_small by lia. destruct (Z.ltb_spec (len - n) 64); [|by rewrite Z.bits_0, orb_false_r].
      rewrite testbit_wrap, Z.shiftl_spec, (Z.testbit_neg_r x (i - (len - n))) by lia. by rewrite orb_false_r.
    - rewrite (bits_above len x (i + n)) by (done || lia).
      replace ((i + n) `mod` len) with (i - (len - n)) by (apply (Zmod_unique _ _ 1); lia).
      destruct (Z.ltb_spec (len - n) 64); [|lia].
      rewrite testbit_wrap, Z.shiftl_spec, (proj2 (Z.ltb_lt i 64)) by lia. by rewrite andb_true_r. }
  destruct (len =? 64); [exact E|].
  rewrite Z.land_spec, E, Z.shiftl_1_l, Z.sub_1_r, <- Z.ones_equiv, Z.testbit_ones_nonneg by lia.
  rewrite (proj2 (Z.ltb_lt i len)) by lia. apply andb_true_r.
Qed.

Lemma ror_range x n len : 0 <= n < len -> len <= 64 -> in_u len x -> in_u len (ror (fun _ => 0) x n len).
Proof.
  intros Hn Hl Hx. unfold ror. destruct (Z.eqb_spec len 64) as [->|Hne].
  - assert (forall a b, in_u 64 a -> in_u 64 b -> in_u 64 (Z.lor a b)) as Hlor.
    { intros a b Ha Hb. assert (Z.lor a b = wrap 64 (Z.lor a b)) as ->; [|apply wrap_range; lia].
      apply bits_eq. intros i Hi. rewrite testbit_wrap, Z.lor_spec by lia. destruct (Z.ltb_spec i 64).
      - by rewrite andb_true_r.
      - by rewrite (bits_above 64 a), (bits_above 64 b) by (done || lia). }
    apply Hlor.
    + unfold in_u in *. rewrite Z.shiftr_div_pow2 by lia. split; [apply Z.div_pos; lia|].
      apply Z.div_lt_upper_bound; nia.
    + unfold shl. destruct (_ <? _); [apply wrap_range; lia | unfold in_u; lia].
  - rewrite Z.shiftl_1_l, Z.sub_1_r, <- Z.ones_equiv. apply land_ones_range. lia.
Qed.

(** [j] copies of the element are in the accumulator. *)
Definition copies (esize e j acc : Z) : Prop :=
  in_u (j * esize) acc /\ forall i, 0 <= i < j * esize -> Z.testbit acc i = Z.testbit e (i `mod` esize).

Lemma replicate_copies k esize e j acc :
  0 < esize -> in_u esize e -> 0 <= j -> (Z.of_nat k + j) * esize <= 64 -> copies esize e j acc ->
  copies esize e (Z.of_nat k + j) (replicate_elem k esize e acc).
Proof.
  intros He Hu. revert j acc; induction k as [|k IH]; intros j acc Hj Hk Hc; [done|]. cbn [replicate_elem].
  replace (Z.of_nat (S k) + j) with (Z.of_nat k + (j + 1)) in * by lia. apply IH; [lia|lia|].
  destruct Hc as [Hr Hb]. unfold in_u in *.
  assert (2 ^ ((j + 1) * esize) = 2 ^ (j * esize) * 2 ^ esize) as Ep by (rewrite <- Z.pow_add_r by nia; f_equal; ring).
  assert (2 ^ ((j + 1) * esize) <= 2 ^ 64) by (apply Z.pow_le_mono_r; nia).
  rewrite (wrap_small 64 (Z.shiftl acc esize)) by (unfold in_u; rewrite Z.shiftl_mul_pow2 by lia; nia).
  rewrite Z.lor_comm, lor_shiftl_add by lia. rewrite wrap_small by (unfold in_u; nia).
  split; [unfold in_u; nia|]. intros i Hi.
  rewrite <- lor_shiftl_add, Z.lor_spec, Z.shiftl_spec by lia. destruct (Z.ltb_spec i esize).
  - rewrite Z.mod_small, (Z.testbit_neg_r acc) by lia. apply orb_false_r.
  - rewrite (bits_above esize e) by (done || lia). cbn [orb]. rewrite Hb by lia. f_equal.
    rewrite <- (Z_mod_plus_full i (-1) esize). f_equal.
Qed.

(** Bit [i] of the mask of the architecture: [S + 1] ones in an element of
    [esize] bits, rotated right by [R], repeated. *)
Definition wmask_bit (esize S_ R i : Z) : bool := (i + R) `mod` esize <=? S_.

Definition mask_len (immN imms : Z) : Z := Z.log2 (64 * immN + (63 - imms)).

(** ** The parts of the encoding *)

Lemma land_63 x : 0 <= x < 64 -> Z.land x 63 = x.
Proof. intros Hx. change 63 with (Z.ones 6). rewrite Z.land_ones by lia. by apply Z.mod_small. Qed.

Lemma concat_mask immN imms :
  immN = 0 \/ immN = 1 -> 0 <= imms < 64 ->
  Z.lor (Z.shiftl (Z.land immN 1) 6) (Z.land (Z.lnot (Z.land imms 63)) 63) = 64 * immN + (63 - imms).
Proof.
  intros HN Hs. rewrite (land_63 imms) by done.
  assert (Z.land (Z.lnot imms) 63 = 63 - imms) as ->.
  { transitivity (Z.land (Z.lnot imms) (Z.ones 6)); [done|]. rewrite Z.land_ones by lia. unfold Z.lnot. symmetry. apply (Zmod_unique _ _ (-1)); lia. }
  rewrite Z.lor_comm, lor_shiftl_add by lia. destruct HN as [-> | ->]; [change (Z.land 0 1) with 0 | change (Z.land 1 1) with 1]; lia.
Qed.

Lemma mask_len_range immN imms w32 :
  immN = 0 \/ immN = 1 /\ w32 = false -> 0 <= imms < 64 -> ~ (immN = 0 /\ imms = 63) ->
  0 <= mask_len immN imms <= 6 /\ (w32 = true -> mask_len immN imms <= 5).
Proof.
  intros HN Hs Hres. unfold mask_len. split; [split; [apply Z.log2_nonneg|]|].
  - apply (Z.log2_le_mono _ 127). lia.
  - intros ->. apply (Z.log2_le_mono _ 63). destruct HN as [-> | [_ ?]]; [lia|done].
Qed.

Lemma mask_divides len (w32 : bool) :
  0 <= len <= 6 -> (w32 = true -> len <= 5) ->
  let M := if w32 then 32 else 64 in M / 2 ^ len * 2 ^ len = M.
Proof.
  intros Hl Hw. assert (len = 0 \/ len = 1 \/ len = 2 \/ len = 3 \/ len = 4 \/ len = 5 \/ len = 6) as H by lia.
  destruct w32; [specialize (Hw eq_refl)|]; repeat destruct H as [->|H]; subst; done || lia.
Qed.

(** C34. The immediate of a logical instruction is the mask the architecture
    defines: for every encoding that is not reserved, bit [i] is set exactly
    if [(i + R) mod esize <= S], and a 32-bit mask fits 32 bits; also when the
    shift by 64 the code performs gives zero or its operand. *)
Theorem decode_bitmask_correct shl64 immN imms immr w32 :
  (forall x, shl64 x = 0 \/ shl64 x = x) -> immN = 0 \/ immN = 1 /\ w32 = false ->
  0 <= imms < 64 -> 0 <= immr < 64 -> ~ (immN = 0 /\ imms = 63) ->
  let esize := 2 ^ mask_len immN imms in
  let M := if w32 then 32 else 64 in
  exists mask, decode_bitmask shl64 immN imms immr w32 = Some mask /\ in_u M mask /\
    forall i, 0 <= i < M -> Z.testbit mask i = wmask_bit esize (imms `mod` esize) (immr `mod` esize) i.
Proof.
  intros Hshl HN Hs Hr Hres. cbv zeta. rewrite (decode_bitmask_defined shl64 Hshl). unfold decode_bitmask.
  assert (immN = 0 \/ immN = 1) as HN' by tauto.
  rewrite concat_mask, (land_63 imms), (land_63 immr) by (done || lia).
  unfold highest_bit. rewrite (proj2 (Z.eqb_neq _ 0)) by lia. cbv iota. fold (mask_len immN imms).
  destruct (mask_len_range immN imms w32 HN Hs Hres) as [Hl Hl'].
  set (len := mask_len immN imms) in *. set (esize := 2 ^ len).
  assert (0 < esize) by (apply Z.pow_pos_nonneg; lia).
  assert (esize <= 64) by (apply (Z.pow_le_mono_r 2 len 6); lia).
  rewrite (push_ones_0 len), Z.shiftl_1_l, !Z.land_ones by lia. fold esize.
  pose proof (Z.mod_pos_bound imms esize ltac:(lia)) as HS. pose proof (Z.mod_pos_bound immr esize ltac:(lia)) as HR.
  rewrite push_ones_0 by lia. set (S_ := imms `mod` esize) in *. set (R := immr `mod` esize) in *.
  assert (in_u esize (Z.ones (S_ + 1))) as Ho
    by (unfold in_u; rewrite Z.ones_equiv; pose proof (Z.pow_le_mono_r 2 (S_ + 1) esize); pose proof (Z.pow_pos_nonneg 2 (S_ + 1)); lia).
  set (e := ror _ _ _ _). assert (in_u esize e) as He by (by apply ror_range).
  assert (forall i, 0 <= i -> Z.testbit e (i `mod` esize) = wmask_bit esize S_ R i) as Hbit.
  { intros i Hi. pose proof (Z.mod_pos_bound i esize ltac:(lia)). unfold e, wmask_bit. rewrite ror_bit by (done || lia).
    rewrite Zplus_mod_idemp_l, Z.testbit_ones_nonneg by (try apply Z.mod_pos_bound; lia).
    destruct (Z.ltb_spec ((i + R) `mod` esize) (S_ + 1)), (Z.leb_spec ((i + R) `mod` esize) S_); lia || done. }
  set (M := if w32 then 32 else 64) in *. destruct (Z.eqb_spec esize 64) as [E64|Hne].
  - assert (M = 64) as EM by (unfold M; destruct w32; [exfalso; specialize (Hl' eq_refl);
      pose proof (Z.pow_le_mono_r 2 len 5); unfold esize in E64; lia | done]).
    exists e. change (shl (fun _ => 0) 0 64) with 0. rewrite Z.lor_0_l, EM. split; [done|]. rewrite <- E64 at 1.
    split; [done|]. intros i Hi. rewrite <- Hbit by lia. f_equal. rewrite Z.mod_small by lia. done.
  - assert (M / esize * esize = M) as Ed by (by apply mask_divides).
    destruct (replicate_copies (Z.to_nat (M / esize)) esize e 0 0) as [C1 C2]; try done.
    + rewrite Z2Nat.id, Z.add_0_r, Ed by (apply Z.div_pos; unfold M; destruct w32; lia). unfold M; destruct w32; lia.
    + split; [unfold in_u; cbn; lia|]. intros i Hi. lia.
    + rewrite Z2Nat.id, Z.add_0_r, Ed in C1, C2 by (apply Z.div_pos; unfold M; destruct w32; lia).
      eexists. split; [reflexivity|]. split; [done|]. intros i Hi. rewrite C2 by done. apply Hbit. lia.
Qed.

(** [and x0, x1, #0xff] and a pattern of bytes. *)
Lemma decode_bitmask_correct_witness :
  decode_bitmask (fun x => x) 1 7 0 false = Some 0xff /\ decode_bitmask (fun x => x) 0 0x33 4 true = Some 0xf0f0f0f0 /\
  exists mask, decode_bitmask (fun x => x) 1 7 0 false = Some mask /\ Z.testbit mask 7 = true.
Proof.
  split; [vm_compute; reflexivity|]. split; [vm_compute; reflexivity|].
  destruct (decode_bitmask_correct (fun x => x) 1 7 0 false) as (mask & E & _ & H).
  - by right.
  - right. done.
  - lia.
  - lia.
  - lia.
  - exists mask. split; [exact E|]. rewrite H by lia. vm_compute. reflexivity.
Defined.

(** ** Bit field aliases *)

(** Bit [i] of the result of the base instructions, as the architecture defines
    them from the rotated source and two masks. *)
Definition base_bit (o : BaseOp) (N dst src immr imms i : Z) : bool :=
  let wmask := (i + immr) `mod` N <=? imms in
  let tmask := i <=? (imms - immr) `mod` N in
  let bot := Z.testbit src ((i + immr) `mod` N) in
  match o with
  | UBFM => wmask && bot && tmask
  | SBFM => if tmask then wmask && bot else Z.testbit src imms
  | BFM => if tmask && wmask then bot else Z.testbit dst i
  end.

(** The [width] low bits of [v] put at [lsb] of [dst]. *)
Definition insert_field (dst lsb width v : Z) : Z :=
  Z.lor (Z.ldiff dst (Z.shiftl (Z.ones width) lsb)) (Z.shiftl (wrap width v) lsb).

(** The operations of the aliases on registers of [N] bits. *)
Definition alias_exec (N dst src : Z) (i : Inst) : option Z :=
  match op i, operand i with
  | A64_LSL_IMM, UImm n => Some (wrap N (Z.shiftl src n))
  | A64_LSR_IMM, UImm n => Some (Z.shiftr src n)
  | A64_ASR_IMM, UImm n => Some (wrap N (Z.shiftr (swrap N src) n))
  | A64_UBFX, UBfm lsb width => Some (wrap width (Z.shiftr src lsb))
  | A64_SBFX, UBfm lsb width => Some (wrap N (swrap width (Z.shiftr src lsb)))
  | A64_UBFIZ, UBfm lsb width => Some (wrap N (Z.shiftl (wrap width src) lsb))
  | A64_SBFIZ, UBfm lsb width => Some (wrap N (Z.shiftl (swrap width src) lsb))
  | A64_BFXIL, UBfm lsb width => Some (insert_field dst 0 width (Z.shiftr src lsb))
  | A64_BFI, UBfm lsb width => Some (insert_field dst lsb width src)
  | A64_BFC, UBfm lsb width => Some (insert_field dst lsb width 0)
  | A64_EXTEND, UExtend 0 _ => Some (wrap 8 src)
  | A64_EXTEND, UExtend 1 _ => Some (wrap 16 src)
  | A64_EXTEND, UExtend 4 _ => Some (wrap N (swrap 8 src))
  | A64_EXTEND, UExtend 5 _ => Some (wrap N (swrap 16 src))
  | A64_EXTEND, UExtend 6 _ => Some (wrap N (swrap 32 src))
  | _, _ => None
  end.

Section Alias.
Context (N dst src immr imms : Z) (HN : N = 32 \/ N = 64) (Hs : in_u N src) (Hd : in_u N dst)
  (Hr : 0 <= immr < N) (Hi : 0 <= imms < N).

Definition agrees (o : BaseOp) (r : Z) : Prop :=
  in_u N r /\ forall i, 0 <= i < N -> Z.testbit r i = base_bit o N dst src immr imms i.

(** The rotation, without the division. *)
Lemma base_bit_split o i : 0 <= i < N ->
  base_bit o N dst src immr imms i =
  let k := if i + immr <? N then i + immr else i + immr - N in
  let t := i <=? (if immr <=? imms then imms - immr else imms - immr + N) in
  let bot := Z.testbit src k in
  match o with
  | UBFM => (k <=? imms) && bot && t
  | SBFM => if t then (k <=? imms) && bot else Z.testbit src imms
  | BFM => if t && (k <=? imms) then bot else Z.testbit dst i
  end.
Proof.
  intros Hx. unfold base_bit. cbv zeta.
  assert ((i + immr) `mod` N = if i + immr <? N then i + immr else i + immr - N) as ->.
  { destruct (Z.ltb_spec (i + immr) N); [apply Z.mod_small; lia | symmetry; apply (Zmod_unique _ _ 1); lia]. }
  assert ((imms - immr) `mod` N = if immr <=? imms then imms - immr else imms - immr + N) as ->; [|done].
  destruct (Z.leb_spec immr imms); [apply Z.mod_small; lia | symmetry; apply (Zmod_unique _ _ (-1)); lia].
Qed.

Lemma src_above k : N <= k -> Z.testbit src k = false.
Proof. intros Hk. apply (bits_above N); done || lia. Qed.
End Alias.

(** Case analysis on the comparisons, then the bits of the same position. *)
Ltac no_if x := lazymatch x with context [if _ then _ else _] => fail | _ => idtac end.
Ltac bit_cases :=
  repeat match goal with
  | |- context [?x <? ?y] => no_if x; no_if y; destruct (Z.ltb_spec x y)
  | |- context [?x <=? ?y] => no_if x; no_if y; destruct (Z.leb_spec x y)
  end; rewrite ?andb_true_r, ?andb_false_r, ?orb_false_r; cbn [andb orb negb];
  try lia; try reflexivity;
  try (f_equal; lia);
  try (symmetry; apply Z.testbit_neg_r; lia); try (apply Z.testbit_neg_r; lia).

Section AliasCases.
Context (N dst src immr imms : Z) (HN : N = 32 \/ N = 64) (Hs : in_u N src) (Hd : in_u N dst)
  (Hr : 0 <= immr < N) (Hi : 0 <= imms < N).
Let agrees := agrees N dst src immr imms.

Lemma lsl_agrees : imms + 1 = immr -> agrees UBFM (wrap N (Z.shiftl src (N - 1 - imms))).
Proof.
  intros E. split; [apply wrap_range; lia|]. intros i Hx. rewrite base_bit_split by done. cbv zeta.
  rewrite testbit_wrap, Z.shiftl_spec by lia. bit_cases.
Qed.
Lemma lsr_agrees : imms = N - 1 -> agrees UBFM (Z.shiftr src immr).
Proof.
  intros E. split.
  - unfold in_u in *. rewrite Z.shiftr_div_pow2 by lia. split; [apply Z.div_pos; lia|]. apply Z.div_lt_upper_bound; nia.
  - intros i Hx. rewrite base_bit_split by done. cbv zeta. rewrite Z.shiftr_spec by lia.
    pose proof (src_above N src HN Hs). bit_cases; auto.
Qed.
Lemma asr_agrees : imms = N - 1 -> agrees SBFM (wrap N (Z.shiftr (swrap N src) immr)).
Proof.
  intros E. split; [apply wrap_range; lia|]. intros i Hx. rewrite base_bit_split by done. cbv zeta.
  rewrite testbit_wrap, Z.shiftr_spec, testbit_swrap by lia. bit_cases.
Qed.
Lemma ubfx_agrees : immr <= imms -> agrees UBFM (wrap (imms - immr + 1) (Z.shiftr src immr)).
Proof.
  intros E. split.
  - pose proof (wrap_range (imms - immr + 1) (Z.shiftr src immr)). pose proof (Z.pow_le_mono_r 2 (imms - immr + 1) N).
    unfold in_u in *. lia.
  - intros i Hx. rewrite base_bit_split by done. cbv zeta. rewrite testbit_wrap, Z.shiftr_spec by lia. bit_cases.
Qed.
Lemma sbfx_agrees : immr <= imms -> agrees SBFM (wrap N (swrap (imms - immr + 1) (Z.shiftr src immr))).
Proof.
  intros E. split; [apply wrap_range; lia|]. intros i Hx. rewrite base_bit_split by done. cbv zeta.
  rewrite testbit_wrap, testbit_swrap, Z.shiftr_spec by lia. bit_cases.
Qed.
Lemma ubfiz_agrees : imms < immr -> agrees UBFM (wrap N (Z.shiftl (wrap (imms + 1) src) (N - immr))).
Proof.
  intros E. split; [apply wrap_range; lia|]. intros i Hx. rewrite base_bit_split by done. cbv zeta.
  rewrite testbit_wrap, Z.shiftl_spec, testbit_wrap by lia. bit_cases.
Qed.
Lemma sbfiz_agrees : imms < immr -> agrees SBFM (wrap N (Z.shiftl (swrap (imms + 1) src) (N - immr))).
Proof.
  intros E. split; [apply wrap_range; lia|]. intros i Hx. rewrite base_bit_split by done. cbv zeta.
  rewrite testbit_wrap, Z.shiftl_spec by lia. destruct (Z.ltb_spec (i - (N - immr)) 0).
  - rewrite Z.testbit_neg_r by lia. bit_cases.
  - rewrite testbit_swrap by lia. bit_cases.
Qed.

Lemma insert_bit lsb width v i :
  0 <= lsb -> 0 <= width -> 0 <= i ->
  Z.testbit (insert_field dst lsb width v) i =
  if (lsb <=? i) && (i <? lsb + width) then Z.testbit v (i - lsb) else Z.testbit dst i.
Proof.
  intros Hl Hw Hx. unfold insert_field. rewrite Z.lor_spec, Z.ldiff_spec, !Z.shiftl_spec, testbit_wrap by lia.
  destruct (Z.leb_spec lsb i); cbn [andb].
  - rewrite Z.testbit_ones_nonneg by lia.
    destruct (Z.ltb_spec (i - lsb) width), (Z.ltb_spec i (lsb + width)); try lia; cbn [negb].
    + by rewrite andb_false_r, andb_true_r.
    + by rewrite andb_true_r, andb_false_r, orb_false_r.
  - rewrite (Z.testbit_neg_r (Z.ones width)), (Z.testbit_neg_r v) by lia. cbn [negb andb]. by rewrite andb_true_r, orb_false_r.
Qed.
Lemma insert_range lsb width v : 0 <= lsb -> 0 <= width -> lsb + width <= N -> in_u N (insert_field dst lsb width v).
Proof.
  intros Hl Hw Hb. assert (insert_field dst lsb width v = wrap N (insert_field dst lsb width v)) as ->; [|apply wrap_range; lia].
  apply bits_eq. intros i Hx. rewrite testbit_wrap, insert_bit by lia. destruct (Z.ltb_spec i N); [by rewrite andb_true_r|].
  rewrite andb_false_r. destruct (Z.ltb_spec i (lsb + width)); [lia|]. rewrite andb_false_r. by apply (bits_above N); [lia| |lia].
Qed.

Lemma bfxil_agrees : immr <= imms -> agrees BFM (insert_field dst 0 (imms - immr + 1) (Z.shiftr src immr)).
Proof.
  intros E. split; [apply insert_range; lia|]. intros i Hx. rewrite base_bit_split, insert_bit by (done || lia). cbv zeta.
  rewrite Z.sub_0_r, Z.shiftr_spec by lia. bit_cases.
Qed.
Lemma bfi_agrees : imms < immr -> agrees BFM (insert_field dst (N - immr) (imms + 1) src).
Proof.
  intros E. split; [apply insert_range; lia|]. intros i Hx. rewrite base_bit_split, insert_bit by (done || lia). cbv zeta.
  bit_cases.
Qed.
End AliasCases.

(** C35. Every bit field instruction is replaced by an alias with the same effect:
    for all register contents and all field positions of its width, the alias
    the decoder chooses (a shift, an extension, an extraction or an insertion)
    computes what the base instruction [SBFM], [BFM] or [UBFM] computes.  The
    one encoding left out is the 64-bit [UBFM] of the low 32 bits, which is
    reported as an error. *)
Theorem bfm_alias_correct o (w32 : bool) rd_ rn_ immr imms dst src :
  let N := if w32 then 32 else 64 in
  0 <= immr < N -> 0 <= imms < N -> in_u N src -> in_u N dst -> (rn_ = ZERO_REG -> src = 0) ->
  ~ (o = UBFM /\ w32 = false /\ immr = 0 /\ imms = 31) ->
  exists r, alias_exec N dst src (find_bfm_alias o w32 rd_ rn_ immr imms) = Some r /\ in_u N r /\
    forall i, 0 <= i < N -> Z.testbit r i = base_bit o N dst src immr imms i.
Proof.
  intros N Hr Hi Hs Hd Hz Hex. assert (N = 32 \/ N = 64) as HN by (unfold N; destruct w32; lia).
  unfold find_bfm_alias. cbv zeta. replace (if w32 then 31 else 63) with (N - 1) by (by destruct w32). fold N.
  assert (u32 (N - immr) = N - immr) as El by (apply wrap_small; unfold in_u; lia).
  assert (u64 (N - 1 - imms) = N - 1 - imms) as Ea by (apply wrap_small; unfold in_u; lia).
  destruct o.
  2: { destruct (Z.leb_spec immr imms).
       - eexists. split; [reflexivity|]. by apply bfxil_agrees.
       - rewrite El. destruct (Z.eqb_spec rn_ ZERO_REG) as [Ez|_]; eexists; (split; [reflexivity|]); [|by apply bfi_agrees].
         rewrite (Hz Ez) in *. by apply bfi_agrees. }
  all: cbn [negb andb].
  2: destruct (Z.eqb_spec (imms + 1) immr), (Z.eqb_spec imms (N - 1)); cbn [negb andb]; try lia.
  2: { rewrite Ea. eexists. split; [reflexivity|]. by apply lsl_agrees. }
  1: destruct (Z.eqb_spec imms (N - 1)).
  1: { eexists. split; [reflexivity|]. by apply asr_agrees. }
  2: { eexists. split; [reflexivity|]. by apply lsr_agrees. }
  all: destruct (Z.ltb_spec imms immr); [rewrite El; eexists; (split; [reflexivity|]);
    first [by apply sbfiz_agrees | by apply ubfiz_agrees]|].
  - pose proof (sbfx_agrees N dst src immr imms HN Hr Hi ltac:(lia)) as F.
    destruct (Z.eqb_spec immr 0) as [->|]; [|eexists; split; [reflexivity | exact F]]. rewrite Z.shiftr_0_r, Z.sub_0_r in F.
    destruct (Z.eqb_spec imms 7) as [->|]; [eexists; split; [reflexivity | exact F]|].
    destruct (Z.eqb_spec imms 15) as [->|]; [eexists; split; [reflexivity | exact F]|].
    destruct (Z.eqb_spec imms 31) as [->|]; [eexists; split; [reflexivity | exact F]|].
    eexists; split; [reflexivity | ]. rewrite Z.sub_0_r. exact F.
  - pose proof (ubfx_agrees N dst src immr imms HN Hr Hi ltac:(lia)) as F.
    destruct (Z.eqb_spec immr 0) as [->|]; [|eexists; split; [reflexivity | exact F]]. rewrite Z.shiftr_0_r, Z.sub_0_r in F.
    destruct (Z.eqb_spec imms 7) as [->|]; [eexists; split; [reflexivity | exact F]|].
    destruct (Z.eqb_spec imms 15) as [->|]; [eexists; split; [reflexivity | exact F]|].
    destruct (Z.eqb_spec imms 31) as [->|]; [|eexists; split; [reflexivity | by rewrite Z.sub_0_r]].
    destruct w32; [unfold N in *; lia | tauto].
Qed.

(** [ubfm x0, x1, #60, #59] is [lsl x0, x1, #4]. *)
Lemma bfm_alias_correct_witness :
  op (find_bfm_alias UBFM false 0 1 60 59) = A64_LSL_IMM /\
  exists r, alias_exec 64 7 3 (find_bfm_alias UBFM false 0 1 60 59) = Some r /\ Z.testbit r 5 = true.
Proof.
  split; [reflexivity|].
  destruct (bfm_alias_correct UBFM false 0 1 60 59 7 3) as (r & E & _ & H).
  - lia.
  - lia.
  - split; vm_compute; [discriminate | reflexivity].
  - split; vm_compute; [discriminate | reflexivity].
  - discriminate.
  - intros (_ & _ & ? & _). discriminate.
  - exists r. split; [exact E|]. rewrite H by lia. vm_compute. reflexivity.
Defined.

(** ** Conditional selects *)

(** [ConditionHolds] of the architecture for the flags [n], [z], [c], [v]. *)
Definition cond_holds (n z c v : bool) (cond : Z) : bool :=
  let base :=
    match Z.shiftr cond 1 with
    | 0 => z
    | 1 => c
    | 2 => n
    | 3 => v
    | 4 => c && negb z
    | 5 => Bool.eqb n v
    | 6 => Bool.eqb n v && negb z
    | _ => true
    end in
  if Z.odd cond && negb (cond =? 15) then negb base else base.

(** The operations on registers of [N] bits with contents [a] (first operand)
    and [b] (second); [None] for other instructions. *)
Definition csel_exec (N a b : Z) (n z c v : bool) (i : Inst) : option Z :=
  let h := cond_holds n z c v (fad_get_cond (flags i)) in
  match op i with
  | A64_CSEL => Some (if h then a else b)
  | A64_CSINC => Some (if h then a else wrap N (b + 1))
  | A64_CSINV => Some (if h then a else wrap N (Z.lnot b))
  | A64_CSNEG => Some (if h then a else wrap N (- b))
  | A64_CSET => Some (if h then 1 else 0)
  | A64_CSETM => Some (if h then 2 ^ N - 1 else 0)
  | A64_CINC => Some (if h then wrap N (a + 1) else a)
  | A64_CINV => Some (if h then wrap N (Z.lnot a) else a)
  | A64_CNEG => Some (if h then wrap N (- a) else a)
  | _ => None
  end.

Lemma get_set_cond fl cond : 0 <= cond < 16 -> fad_get_cond (set_cond fl cond) = cond.
Proof.
  intros Hc. unfold fad_get_cond, set_cond. rewrite Z.shiftr_lor, Z.shiftr_shiftl_l, Z.shiftl_0_r by lia.
  change 0x0f with (Z.ones 4). rewrite (Z.shiftr_div_pow2 (Z.land fl _)), !Z.land_ones by lia.
  rewrite (Z.div_small (fl `mod` 2 ^ 4)), Z.lor_0_r, !(Z.mod_small cond) by (try apply Z.mod_pos_bound; lia). done.
Qed.

Lemma cond_invert n z c v fl cond :
  0 <= cond < 14 ->
  cond_holds n z c v (fad_get_cond (invert_cond (set_cond fl cond))) = negb (cond_holds n z c v cond).
Proof.
  intros Hc. unfold invert_cond. rewrite (get_set_cond fl cond) by lia.
  assert (0 <= Z.lxor cond 1 < 16 /\ cond_holds n z c v (Z.lxor cond 1) = negb (cond_holds n z c v cond)) as [Hx E].
  { assert (forallb (fun k => (0 <=? Z.lxor k 1) && (Z.lxor k 1 <? 16) &&
        Bool.eqb (cond_holds n z c v (Z.lxor k 1)) (negb (cond_holds n z c v k))) (seqZ 0 14) = true) as H
      by (destruct n, z, c, v; vm_compute; reflexivity).
    rewrite forallb_forall in H. specialize (H cond). rewrite !andb_true_iff, Z.leb_le, Z.ltb_lt in H.
    destruct H as [H1 H2]; [apply list_elem_of_In, elem_of_seqZ; lia|]. split; [done | by apply Bool.eqb_prop]. }
  by rewrite get_set_cond.
Qed.

(** A conditional select is replaced by an alias with the same result, for all
    operands and flags, whenever its condition can be inverted (all but the
    two that always hold). *)
Theorem csel_alias_correct o fl cond rd_ rn_ rm_ N a b n z c v :
  In o [A64_CSEL; A64_CSINC; A64_CSINV; A64_CSNEG] -> 0 <= cond < 14 -> N = 32 \/ N = 64 ->
  (rn_ = rm_ -> a = b) -> (rn_ = ZERO_REG -> a = 0) ->
  let i := mkInst o (set_cond fl cond) rd_ rn_ rm_ (UImm 0) in
  csel_exec N a b n z c v (csel_alias i) = csel_exec N a b n z c v i.
Proof.
  intros Ho Hc HN Hab Ha i. subst i. unfold csel_alias. cbn [rm rn].
  pose proof (cond_invert n z c v fl cond Hc) as Hinv. pose proof (get_set_cond fl cond ltac:(lia)) as Hget.
  destruct (Z.eqb_spec rm_ ZERO_REG) as [Hm|], (Z.eqb_spec rn_ ZERO_REG) as [Hn|]; cbn [andb];
    try (destruct (Z.eqb_spec rm_ rn_) as [Emn|]; [|done]).
  all: destruct Ho as [<-|[<-|[<-|[<-|[]]]]]; try done; cbn [op flags rd rn rm operand].
  all: assert (a = b) as <- by (apply Hab; congruence).
  all: try (rewrite (Ha Hn) in * ).
  all: unfold csel_exec; cbn [op flags]; rewrite ?Hinv, ?Hget; destruct (cond_holds n z c v cond);
    destruct HN as [-> | ->]; reflexivity.
Qed.

Lemma csel_alias_correct_witness :
  let i := mkInst A64_CSINC (set_cond 0 0) 3 31 31 (UImm 0) in
  op (csel_alias i) = A64_CSET /\
  csel_exec 64 0 0 false true false false (csel_alias i) = csel_exec 64 0 0 false true false false i.
Proof.
  split; [reflexivity|].
  apply (csel_alias_correct A64_CSINC 0 0 3 31 31 64 0 0 false true false false); try reflexivity; try lia.
  right. left. reflexivity.
Defined.

(** With the condition that always holds the alias gives another result. *)
Lemma csel_alias_always :
  let i := mkInst A64_CSINC (set_cond 0 14) 3 31 31 (UImm 0) in
  csel_exec 64 0 0 false false false false i = Some 0 /\
  csel_exec 64 0 0 false false false false (csel_alias i) = Some 1.
Proof. vm_compute. split; reflexivity. Qed.

(** ** Branch targets *)

Lemma sext_swrap x b : 0 < b -> in_u b x -> sext x b = swrap b x.
Proof.
  intros Hb Hx. unfold sext. cbv zeta. rewrite Z.shiftl_1_l.
  assert (2 ^ b = 2 * 2 ^ (b - 1)) as E by (rewrite <- Z.pow_succ_r by lia; f_equal; lia).
  assert (0 < 2 ^ (b - 1)) by (apply Z.pow_pos_nonneg; lia). unfold in_u, swrap in *.
  destruct (Z.ltb_spec x (2 ^ (b - 1))).
  - rewrite <- Z.add_nocarry_lxor.
    + rewrite Z.mod_small by lia. lia.
    + apply bits_eq. intros i Hi. rewrite Z.land_spec, Z.bits_0, Z.pow2_bits_eqb by lia.
      destruct (Z.eqb_spec (b - 1) i) as [<-|]; [|apply andb_false_r].
      rewrite (bits_above (b - 1) x); [done | lia | unfold in_u; lia | lia].
  - replace x with (x - 2 ^ (b - 1) + 2 ^ (b - 1)) at 1 by lia. rewrite Z.add_nocarry_lxor.
    + rewrite Z.lxor_assoc, Z.lxor_nilpotent, Z.lxor_0_r.
      rewrite <- (Z_mod_plus_full (x + 2 ^ (b - 1)) (-1)), Z.mod_small by lia. lia.
    + apply bits_eq. intros i Hi. rewrite Z.land_spec, Z.bits_0, Z.pow2_bits_eqb by lia.
      destruct (Z.eqb_spec (b - 1) i) as [<-|]; [|apply andb_false_r].
      rewrite (bits_above (b - 1) (x - _)); [done | lia | unfold in_u; lia | lia].
Qed.

Lemma bits_at binst lo mask k :
  mask = Z.ones k -> 0 <= lo -> 0 <= k -> bits binst lo mask = (binst / 2 ^ lo) `mod` 2 ^ k.
Proof. intros -> Hl Hk. unfold bits. by rewrite Z.land_ones, Z.shiftr_div_pow2 by lia. Qed.

Lemma bit_at binst i : 0 <= i -> bit binst i = negb ((binst / 2 ^ i) `mod` 2 =? 0).
Proof. intros Hi. unfold bit. by rewrite (bits_at _ _ _ 1). Qed.

(** A word offset in a field of [k] bits. *)
Lemma offset_decodes k o :
  0 < k -> o `mod` 4 = 0 -> in_s (k + 2) o -> sext (Z.shiftl ((o / 4) `mod` 2 ^ k) 2) (k + 2) = o.
Proof.
  intros Hk H4 Ho. assert (2 ^ (k + 2) = 2 ^ k * 4) as E by (by rewrite Z.pow_add_r by lia).
  pose proof (Z.mod_pos_bound (o / 4) (2 ^ k) ltac:(lia)) as Hm.
  rewrite sext_swrap, Z.shiftl_mul_pow2 by (try (unfold in_u; rewrite Z.shiftl_mul_pow2 by lia); lia).
  change (2 ^ 2) with 4. rewrite <- (swrap_small (k + 2) o) at 2 by (done || lia).
  rewrite <- Z.mul_mod_distr_r by lia. rewrite <- E. fold (wrap (k + 2) (o / 4 * 4)). rewrite swrap_wrap by lia.
  f_equal. zdm.
Qed.

(** The encodings of the branches with an offset [o]. *)
Definition enc_b (link : bool) (o : Z) : Z := Z.b2z link * 2 ^ 31 + 5 * 2 ^ 26 + (o / 4) `mod` 2 ^ 26.
Definition enc_bcond (cond o : Z) : Z := 42 * 2 ^ 25 + (o / 4) `mod` 2 ^ 19 * 2 ^ 5 + cond.
Definition enc_cb (sf nz : bool) (rt o : Z) : Z :=
  Z.b2z sf * 2 ^ 31 + 26 * 2 ^ 25 + Z.b2z nz * 2 ^ 24 + (o / 4) `mod` 2 ^ 19 * 2 ^ 5 + rt.
Definition enc_tb (nz : bool) (b rt o : Z) : Z :=
  b / 32 * 2 ^ 31 + 27 * 2 ^ 25 + Z.b2z nz * 2 ^ 24 + b `mod` 32 * 2 ^ 19 + (o / 4) `mod` 2 ^ 14 * 2 ^ 5 + rt.

Lemma top_bit e : in_u 32 e -> Z.land e (Z.shiftl 1 31) = e / 2 ^ 31 * 2 ^ 31.
Proof.
  intros He. apply bits_eq. intros i Hi.
  rewrite Z.land_spec, Z.shiftl_1_l, Z.pow2_bits_eqb, Z.mul_pow2_bits by lia. destruct (Z.ltb_spec i 31).
  - rewrite (proj2 (Z.eqb_neq 31 i)), (Z.testbit_neg_r (e / 2 ^ 31)) by lia. apply andb_false_r.
  - rewrite Z.div_pow2_bits by lia. replace (i - 31 + 31) with i by lia.
    destruct (Z.eqb_spec 31 i); [apply andb_true_r|]. by rewrite (bits_above 32 e i) by (done || lia).
Qed.

(** A field of an encoding, by linear arithmetic. *)
Ltac enc_field := unfold in_u, enc_b, enc_bcond, enc_cb, enc_tb; rewrite ?Z.div_1_r; cbn [Z.b2z]; zdm.

Lemma branches_b link o :
  o `mod` 4 = 0 -> in_s 28 o -> branches (enc_b link o) = mkInst (if link then A64_BL else A64_B) 0 0 0 0 (UOffset o).
Proof.
  intros H4 Ho. unfold branches, br_uncond. cbv zeta. rewrite (bits_at _ _ _ 7), (bits_at _ _ _ 26), bit_at by done.
  pose proof (offset_decodes 26 o ltac:(lia) H4 Ho) as Hoff. set (e := enc_b link o).
  assert ((e / 2 ^ 0) `mod` 2 ^ 26 = (o / 4) `mod` 2 ^ 26) as -> by (unfold e; destruct link; enc_field).
  change (26 + 2) with 28 in *. rewrite Hoff.
  assert ((e / 2 ^ 31) `mod` 2 = Z.b2z link) as -> by (unfold e; destruct link; enc_field).
  assert ((e / 2 ^ 25) `mod` 2 ^ 7 = 64 * Z.b2z link + 10 \/ (e / 2 ^ 25) `mod` 2 ^ 7 = 64 * Z.b2z link + 11) as [-> | ->]
    by (unfold e; destruct link; enc_field); by destruct link.
Qed.

Lemma branches_bcond cond o :
  o `mod` 4 = 0 -> in_s 21 o -> 0 <= cond < 16 ->
  branches (enc_bcond cond o) = mkInst A64_BCOND (16 * cond) 0 0 0 (UOffset o).
Proof.
  intros H4 Ho Hc. unfold branches, br_cond. cbv zeta.
  rewrite (bits_at _ 25 127 7), (bits_at _ 5 0x7ffff 19), (bits_at _ 0 15 4) by done.
  pose proof (offset_decodes 19 o ltac:(lia) H4 Ho) as Hoff. set (e := enc_bcond cond o).
  assert ((e / 2 ^ 5) `mod` 2 ^ 19 = (o / 4) `mod` 2 ^ 19) as -> by (unfold e; enc_field).
  assert ((e / 2 ^ 0) `mod` 2 ^ 4 = cond) as -> by (unfold e; enc_field).
  assert ((e / 2 ^ 25) `mod` 2 ^ 7 = 42) as -> by (unfold e; enc_field).
  change (19 + 2) with 21 in *. rewrite Hoff. f_equal. unfold set_cond. rewrite Z.land_0_l, Z.lor_0_r.
  change 0xf with (Z.ones 4). rewrite Z.land_ones, Z.mod_small, Z.shiftl_mul_pow2 by lia. lia.
Qed.

Lemma branches_cb sf nz rt o :
  o `mod` 4 = 0 -> in_s 21 o -> 0 <= rt < 32 ->
  branches (enc_cb sf nz rt o) =
  mkInst (if nz then A64_CBNZ else A64_CBZ) (if sf then 0 else W32) rt 0 0 (UOffset o).
Proof.
  intros H4 Ho Hc. unfold branches, br_cmp. cbv zeta.
  rewrite (bits_at _ 25 127 7), (bits_at _ 5 0x7ffff 19), (bits_at _ 0 31 5), bit_at by done.
  pose proof (offset_decodes 19 o ltac:(lia) H4 Ho) as Hoff. set (e := enc_cb sf nz rt o).
  assert ((e / 2 ^ 5) `mod` 2 ^ 19 = (o / 4) `mod` 2 ^ 19) as -> by (unfold e; destruct sf, nz; enc_field).
  assert ((e / 2 ^ 0) `mod` 2 ^ 5 = rt) as -> by (unfold e; destruct sf, nz; enc_field).
  assert ((e / 2 ^ 24) `mod` 2 = Z.b2z nz) as -> by (unfold e; destruct sf, nz; enc_field).
  assert ((e / 2 ^ 25) `mod` 2 ^ 7 = 64 * Z.b2z sf + 26) as -> by (unfold e; destruct sf, nz; enc_field).
  change (19 + 2) with 21 in *. rewrite Hoff. by destruct sf, nz.
Qed.

Lemma branches_tb nz b rt o :
  o `mod` 4 = 0 -> in_s 16 o -> 0 <= rt < 32 -> 0 <= b < 64 ->
  branches (enc_tb nz b rt o) =
  mkInst (if nz then A64_TBNZ else A64_TBZ) (if b <? 32 then W32 else 0) rt 0 0 (UTbz o b).
Proof.
  intros H4 Ho Hc Hb. unfold branches, br_test. cbv zeta.
  rewrite (bits_at _ 25 127 7), (bits_at _ 5 0x3fff 14), (bits_at _ 0 31 5), (bits_at _ 19 31 5), bit_at by done.
  pose proof (offset_decodes 14 o ltac:(lia) H4 Ho) as Hoff. set (e := enc_tb nz b rt o).
  assert (b / 32 = 0 \/ b / 32 = 1) as Hq by zdm.
  assert ((e / 2 ^ 5) `mod` 2 ^ 14 = (o / 4) `mod` 2 ^ 14) as -> by (unfold e; destruct nz; enc_field).
  assert ((e / 2 ^ 0) `mod` 2 ^ 5 = rt) as -> by (unfold e; destruct nz; enc_field).
  assert ((e / 2 ^ 19) `mod` 2 ^ 5 = b `mod` 32) as -> by (unfold e; destruct nz; enc_field).
  assert ((e / 2 ^ 24) `mod` 2 = Z.b2z nz) as -> by (unfold e; destruct nz; enc_field).
  assert ((e / 2 ^ 25) `mod` 2 ^ 7 = 64 * (b / 32) + 27) as -> by (unfold e; destruct nz; enc_field).
  assert (Z.land e (Z.shiftl 1 31) = b / 32 * 2 ^ 31) as ->.
  { rewrite top_bit by (unfold e; destruct nz; enc_field). f_equal. unfold e; destruct nz; enc_field. }
  change (14 + 2) with 16 in *. rewrite Hoff, swrap_small by (try lia; unfold in_s in *; lia).
  assert (Z.lor (Z.shiftr (b / 32 * 2 ^ 31) (31 - 5)) (b `mod` 32) = b) as ->.
  { rewrite Z.lor_comm, Z.shiftr_div_pow2 by lia.
    replace (b / 32 * 2 ^ 31 / 2 ^ (31 - 5)) with (Z.shiftl (b / 32) 5) by (rewrite Z.shiftl_mul_pow2 by lia; destruct Hq as [-> | ->]; done).
    rewrite lor_shiftl_add by (try apply Z.mod_pos_bound; lia). zdm. }
  destruct (Z.ltb_spec b 32); destruct Hq as [Eq|Eq]; rewrite Eq; try (exfalso; zdm); by destruct nz.
Qed.

(** Branches survive encoding and decoding: every byte offset that is a
    multiple of four and in the range of the instruction, with every
    condition, register, register width and tested bit, is decoded to itself
    by [branches]. *)
Theorem branch_roundtrip o :
  o `mod` 4 = 0 ->
  (in_s 28 o -> forall link,
     branches (enc_b link o) = mkInst (if link then A64_BL else A64_B) 0 0 0 0 (UOffset o)) /\
  (in_s 21 o -> forall cond, 0 <= cond < 16 ->
     branches (enc_bcond cond o) = mkInst A64_BCOND (16 * cond) 0 0 0 (UOffset o)) /\
  (in_s 21 o -> forall sf nz rt, 0 <= rt < 32 ->
     branches (enc_cb sf nz rt o) =
     mkInst (if nz then A64_CBNZ else A64_CBZ) (if sf then 0 else W32) rt 0 0 (UOffset o)) /\
  (in_s 16 o -> forall nz b rt, 0 <= rt < 32 -> 0 <= b < 64 ->
     branches (enc_tb nz b rt o) =
     mkInst (if nz then A64_TBNZ else A64_TBZ) (if b <? 32 then W32 else 0) rt 0 0 (UTbz o b)).
Proof.
  intros H4. split_and!; intros Ho *; intros.
  - by apply branches_b.
  - by apply branches_bcond.
  - by apply branches_cb.
  - by apply branches_tb.
Qed.

(** [b.ne .-8] and [tbnz x3, #40, .-8]. *)
Lemma branch_roundtrip_witness :
  enc_bcond 1 (-8) = 0x54ffffc1 /\ branches 0x54ffffc1 = mkInst A64_BCOND 16 0 0 0 (UOffset (-8)) /\
  branches (enc_tb true 40 3 (-8)) = mkInst A64_TBNZ 0 3 0 0 (UTbz (-8) 40).
Proof.
  destruct (branch_roundtrip (-8) eq_refl) as (_ & T & _ & U). split; [reflexivity|]. split.
  - apply (T ltac:(split; vm_compute; [discriminate | reflexivity]) 1). lia.
  - apply (U ltac:(split; vm_compute; [discriminate | reflexivity]) true 40 3); lia.
Defined.
