(* ===== verification/FarmdecMem.v ===== *)
(** * The AArch64 decoder: loads and stores

    [loads_and_stores] of [subprojects/farmdec/decode.c].  The function first
    finds the kind of instruction and its addressing mode, then decodes the
    rest by kind; each kind is a definition of its own. *)

From Stdlib Require Import ZArith Lia String.
From stdpp Require Import base numbers list.
From S2P Require Import Prelude Farmdec.

(** The local enumeration of [loads_and_stores]; its [Unknown] is never left
    after the first switch. *)
Inductive LsKind :=
  | SIMDMult | SIMDSingle | Tags | Exclusive | Literal | PairNoAlloc | Pair
  | UnscaledImm | Register | Unprivileged | Atomic | PAC.

(** [111x00x]: bit 21 and bits 10-11 tell the many things apart. *)
Definition ls_kind_many (binst : Z) : LsKind * Z :=
  let op4 := bits binst 10 3 in
  if bit binst 21 then
    if op4 =? 0 then (Atomic, set_addrmode 0 AM_SIMPLE)
    else if op4 =? 2 then
      (Register, set_addrmode 0 (if bits binst 13 7 =? UXTX then AM_OFF_REG else AM_OFF_EXT))
    else (PAC, 0)
  else if op4 =? 0 then (UnscaledImm, set_addrmode 0 AM_OFF_IMM)
  else if op4 =? 1 then (Register, set_addrmode 0 AM_POST)
  else if op4 =? 2 then (Unprivileged, 0)
  else (Register, set_addrmode 0 AM_PRE).

(** The kind and the flags with the addressing mode; [None] is the default
    case. *)
Definition ls_kind (binst : Z) : option (LsKind * Z) :=
  match bits binst 23 127 with
  | 24 => Some (SIMDMult, set_addrmode 0 AM_SIMPLE)
  | 25 => Some (SIMDMult, set_addrmode 0 AM_POST)
  | 26 => Some (SIMDSingle, set_addrmode 0 AM_SIMPLE)
  | 27 => Some (SIMDSingle, set_addrmode 0 AM_POST)
  | 50 | 51 => Some (Tags, 0)
  | 16 | 17 => Some (Exclusive, 0)
  | 48 | 49 | 56 | 57 => Some (Literal, set_addrmode 0 AM_LITERAL)
  | 80 | 88 => Some (PairNoAlloc, set_addrmode 0 AM_OFF_IMM)
  | 81 | 89 => Some (Pair, set_addrmode 0 AM_POST)
  | 82 | 90 => Some (Pair, set_addrmode 0 AM_OFF_IMM)
  | 83 | 91 => Some (Pair, set_addrmode 0 AM_PRE)
  | 112 | 113 | 120 | 121 => Some (ls_kind_many binst)
  | 114 | 115 | 122 | 123 => Some (Register, set_addrmode 0 AM_OFF_IMM)
  | _ => None
  end.

(** ** LD1 to LD4, ST1 to ST4 *)

(** The operation and the number of registers by the opcode field. *)
Definition simd_mult_op (load : bool) (opcode : Z) : Op * Z :=
  match opcode with
  | 0 => (if load then A64_LD4_MULT else A64_ST4_MULT, 4)
  | 2 => (if load then A64_LD1_MULT else A64_ST1_MULT, 4)
  | 4 => (if load then A64_LD3_MULT else A64_ST3_MULT, 3)
  | 6 => (if load then A64_LD1_MULT else A64_ST1_MULT, 3)
  | 7 => (if load then A64_LD1_MULT else A64_ST1_MULT, 1)
  | 8 => (if load then A64_LD2_MULT else A64_ST2_MULT, 2)
  | 10 => (if load then A64_LD1_MULT else A64_ST1_MULT, 2)
  | _ => (A64_UNKNOWN, 0)
  end.

Definition ls_simd_mult (binst flags : Z) : Inst :=
  let Q := bits binst 30 1 in
  let load := bit binst 22 in
  let va := Z.lor (Z.shiftl (bits binst 10 3) 1) Q in
  let '(op, nreg) := simd_mult_op load (bits binst 12 15) in
  let flags := set_vec_arrangement flags va in
  let rm := regRm binst in
  let offset :=
    if (fad_get_addrmode flags =? AM_POST) && (rm =? ZERO_REG)
    then (if Q =? 0 then nreg * 8 else nreg * 16) else 0 in
  mkInst op flags (regRd binst) (regRnSP binst) rm (USimdLdst nreg 0 offset).

(** The operation and the element size by the opcode field. *)
Definition simd_single_op (load even : bool) (opcode size_field : Z) : Op * Z :=
  let one := if load then (if even then A64_LD2_SINGLE else A64_LD1_SINGLE)
             else (if even then A64_ST2_SINGLE else A64_ST1_SINGLE) in
  let three := if load then (if even then A64_LD4_SINGLE else A64_LD3_SINGLE)
               else (if even then A64_ST4_SINGLE else A64_ST3_SINGLE) in
  let sd := if size_field =? 1 then FSZ_D else FSZ_S in
  match opcode with
  | 0 => (one, FSZ_B)
  | 1 => (three, FSZ_B)
  | 2 => (one, FSZ_H)
  | 3 => (three, FSZ_H)
  | 4 => (one, sd)
  | 5 => (three, sd)
  | 6 => if load then (if even then A64_LD2R else A64_LD1R, size_field) else (A64_UNKNOWN, 0)
  | _ => if load then (if even then A64_LD4R else A64_LD3R, size_field) else (A64_UNKNOWN, 0)
  end.

Definition simd_single_nreg (o : Op) : Z :=
  match o with
  | A64_LD1R | A64_LD1_SINGLE | A64_ST1_SINGLE => 1
  | A64_LD2R | A64_LD2_SINGLE | A64_ST2_SINGLE => 2
  | A64_LD3R | A64_LD3_SINGLE | A64_ST3_SINGLE => 3
  | A64_LD4R | A64_LD4_SINGLE | A64_ST4_SINGLE => 4
  | _ => 0
  end.

Definition ls_simd_single (binst flags : Z) : Inst :=
  let Q := bits binst 30 1 in
  let load := bit binst 22 in
  let even := bit binst 21 in
  let size_field := bits binst 10 3 in
  let '(op, size) := simd_single_op load even (bits binst 13 7) size_field in
  let va := Z.lor (Z.shiftl size 1) Q in
  let nreg := simd_single_nreg op in
  let S_ := bits binst 12 1 in
  let index :=
    if size =? FSZ_B then Z.lor (Z.lor (Z.shiftl Q 3) (Z.shiftl S_ 2)) size_field
    else if size =? FSZ_H then Z.lor (Z.lor (Z.shiftl Q 2) (Z.shiftl S_ 1)) (Z.shiftr size_field 1)
    else if size =? FSZ_S then Z.lor (Z.shiftl Q 1) S_
    else Q in
  let flags := set_vec_arrangement flags va in
  let post := fad_get_addrmode flags =? AM_POST in
  let rm := if post then regRm binst else 0 in
  let offset :=
    if post && (rm =? ZERO_REG) then
      if size =? FSZ_B then nreg * 1
      else if size =? FSZ_H then nreg * 2
      else if size =? FSZ_S then nreg * 4
      else nreg * 8
    else 0 in
  mkInst op flags (regRd binst) (regRnSP binst) rm (USimdLdst nreg index offset).

(** ** Exclusive and ordered accesses, compare and swap *)

Definition ls_exclusive (binst flags : Z) : Inst :=
  let size := bits binst 30 3 in
  let o0 := bit binst 15 in
  let o1 := bit binst 21 in
  let load := bit binst 22 in
  let o2 := bit binst 23 in
  let common op size rm order :=
    let flags := set_mem_extend flags size in
    let flags := if negb (size =? SZ_X) then Z.lor flags W32 else flags in
    mkInst op flags (regRd binst) (regRnSP binst) rm order in
  let acquire (b : bool) := if b then MO_ACQUIRE else MO_NONE in
  let release (b : bool) := if b then MO_RELEASE else MO_NONE in
  if o1 then
    if o2 then common A64_CAS size (regRm binst) (ULdstOrder (acquire load) (release o0) 0)
    else if (size =? SZ_B) || (size =? SZ_H)
    then common A64_CASP (size + 2) (regRm binst) (ULdstOrder (acquire load) (release o0) 0)
    else
      let rt2 := bits binst 10 31 in
      if load then common A64_LDXP size rt2 (ULdstOrder (acquire o0) 0 0)
      else common A64_STXP size rt2 (ULdstOrder 0 (release o0) (regRm binst))
  else
    let exclusive := negb o2 in
    if load then
      common (if exclusive then A64_LDXR else A64_LDR) size 0
        (ULdstOrder (if exclusive then acquire o0 else if o0 then MO_LO_ACQUIRE else MO_ACQUIRE) 0 0)
    else
      common (if exclusive then A64_STXR else A64_STR) size 0
        (ULdstOrder 0 (if exclusive then release o0 else if o0 then MO_LO_RELEASE else MO_RELEASE) (regRm binst)).

(** ** Literals and pairs *)

Definition ls_literal (binst flags : Z) : Inst :=
  let top2 := bits binst 30 3 in
  let inst op flags :=
    mkInst op flags (regRd binst) 0 0 (UOffset (sext (Z.shiftl (bits binst 5 0x7ffff) 2) (19 + 2))) in
  if bit binst 26 then
    if top2 =? 0 then inst A64_LDR_FP (set_prec flags FSZ_S)
    else if top2 =? 1 then inst A64_LDR_FP (set_prec flags FSZ_D)
    else if top2 =? 2 then inst A64_LDR_FP (set_prec flags FSZ_Q)
    else errinst "loads_and_stores/Literal: unallocated instruction"
  else
    if top2 =? 0 then inst A64_LDR (Z.lor W32 (set_mem_extend flags SZ_W))
    else if top2 =? 1 then inst A64_LDR (set_mem_extend flags SZ_X)
    else if top2 =? 2 then inst A64_LDR (set_mem_extend flags SXTW)
    else inst A64_PRFM flags.

(** The hint of [PairNoAlloc] only changes the opcode. *)
Definition ls_pair (noalloc : bool) (binst flags : Z) : Inst :=
  let top2 := bits binst 30 3 in
  let load := bit binst 22 in
  let inst op scale flags :=
    mkInst op flags (regRd binst) (regRnSP binst) (bits binst 10 31)
      (UOffset (scale * sext (bits binst 15 127) 7)) in
  let bad := errinst "loads_and_stores: invalid opc for LDP/STP" in
  if bit binst 26 then
    let op := if noalloc then (if load then A64_LDNP_FP else A64_STNP_FP)
              else (if load then A64_LDP_FP else A64_STP_FP) in
    if top2 =? 0 then inst op 4 (set_prec flags FSZ_S)
    else if top2 =? 1 then inst op 8 (set_prec flags FSZ_D)
    else if top2 =? 2 then inst op 16 (set_prec flags FSZ_Q)
    else bad
  else
    let op := if noalloc then (if load then A64_LDNP else A64_STNP)
              else (if load then A64_LDP else A64_STP) in
    if top2 =? 0 then inst op 4 (Z.lor W32 (set_mem_extend flags SZ_W))
    else if top2 =? 1 then inst op 4 (set_mem_extend flags SXTW)
    else if top2 =? 2 then inst op 8 (set_mem_extend flags SZ_X)
    else bad.

(** ** LDR and STR *)

Definition ls_scale (top2 : Z) : Z :=
  if top2 =? 0 then 1 else if top2 =? 1 then 2 else if top2 =? 2 then 4 else 8.

(** The switch over the addressing mode. *)
Definition ls_address (unscaled : bool) (binst : Z) (op : Op) (flags scale shift : Z) : Inst :=
  let mode := fad_get_addrmode flags in
  let inst rm v := mkInst op flags (regRd binst) (regRnSP binst) rm v in
  let imm9 := sext (bits binst 12 0x1ff) 9 in
  let amount := if bit binst 12 then shift else 0 in
  if (mode =? AM_POST) || (mode =? AM_PRE) then inst 0 (UOffset imm9)
  else if mode =? AM_OFF_IMM then
    inst 0 (UOffset (if unscaled then imm9 else scale * bits binst 10 0xfff))
  else if mode =? AM_OFF_REG then inst (regRm binst) (UShift SH_LSL amount)
  else if mode =? AM_OFF_EXT then inst (regRm binst) (UExtend (bits binst 13 7) amount)
  else UNKNOWN_INST.

Definition ls_prfm (unscaled : bool) (binst flags : Z) : Inst :=
  let inst rm v := mkInst A64_PRFM flags (regRd binst) (regRnSP binst) rm v in
  if fad_get_addrmode flags =? AM_OFF_EXT then
    inst (regRmSP binst) (UExtend (bits binst 13 7) (if bit binst 12 then 3 else 0))
  else if unscaled then inst 0 (UOffset (sext (bits binst 12 0x1ff) 9))
  else inst 0 (UOffset (8 * bits binst 10 0xfff)).

Definition ls_register (unscaled : bool) (binst flags : Z) : Inst :=
  let top2 := bits binst 30 3 in
  let opc := bits binst 22 3 in
  let bad := errinst "loads_and_stores/Register: bad instruction" in
  if bit binst 26 then
    let op := if Z.land opc 1 =? 0 then A64_STR_FP else A64_LDR_FP in
    if opc <? 2 then ls_address unscaled binst op (set_prec flags top2) (ls_scale top2) top2
    else if negb (top2 =? 0) then bad
    else ls_address unscaled binst op (set_prec flags FSZ_Q) 16 4
  else
    let size := top2 in
    let go op (w32 : bool) sign_extend :=
      let flags := if w32 then Z.lor flags W32 else flags in
      let flags := set_mem_extend flags (Z.lor (Z.shiftl sign_extend 2) size) in
      ls_address unscaled binst op flags (ls_scale top2) top2 in
    if opc =? 0 then go A64_STR (negb (size =? SZ_X)) 0
    else if opc =? 1 then go A64_LDR (negb (size =? SZ_X)) 0
    else if opc =? 2 then
      if size =? SZ_X then ls_prfm unscaled binst flags else go A64_LDR false 1
    else if SZ_W <=? size then bad
    else go A64_LDR (negb (size =? SZ_X)) 1.

(** ** Atomics *)

Definition atomic_op (o3opc : Z) : Op :=
  match o3opc with
  | 0 => A64_LDADD
  | 1 => A64_LDCLR
  | 2 => A64_LDEOR
  | 3 => A64_LDSET
  | 4 => A64_LDSMAX
  | 5 => A64_LDSMIN
  | 6 => A64_LDUMAX
  | 7 => A64_LDUMIN
  | 8 => A64_SWP
  | 12 => A64_LDR
  | _ => A64_UNKNOWN
  end.

(** The [MO_ACQUIRE_PC] that the case of LDAPR stores is overwritten. *)
Definition ls_atomic (binst flags : Z) : Inst :=
  let size := bits binst 30 3 in
  let flags := if negb (size =? SZ_X) then Z.lor flags W32 else flags in
  let flags := set_mem_extend flags size in
  mkInst (atomic_op (bits binst 12 15)) flags (regRd binst) (regRnSP binst) (regRm binst)
    (ULdstOrder (if bit binst 23 then MO_ACQUIRE else MO_NONE)
                (if bit binst 22 then MO_RELEASE else MO_NONE) 0).

(** ** The group *)

Definition loads_and_stores (binst : Z) : Inst :=
  match ls_kind binst with
  | None => errinst "loads_and_stores: invalid instruction"
  | Some (kind, flags) =>
      match kind with
      | SIMDMult => ls_simd_mult binst flags
      | SIMDSingle => ls_simd_single binst flags
      | Tags => errinst "loads_and_stores: Tag instructions not supported"
      | Exclusive => ls_exclusive binst flags
      | Literal => ls_literal binst flags
      | PairNoAlloc => ls_pair true binst flags
      | Pair => ls_pair false binst flags
      | UnscaledImm => ls_register true binst flags
      | Register => ls_register false binst flags
      | Unprivileged => errinst "loads_and_stores: Unprivileged instructions not supported"
      | Atomic => ls_atomic binst flags
      | PAC => errinst "loads_and_stores: Pointer Auth instructions not supported"
      end
  end.
