(* ===== verification/FarmdecFp.v ===== *)
(** * The AArch64 decoder: scalar floating point

    [scalar_floating_point] and [vfp_expand_imm] of
    [subprojects/farmdec/decode.c].  The function starts from an instruction
    that already carries the precision, or the error of an unallocated one, and
    every kind overwrites some of its fields; the fields it leaves alone keep
    what they had, which matters for the error. *)

From Stdlib Require Import ZArith Lia String.
From stdpp Require Import base numbers list.
From S2P Require Import Prelude Farmdec.

(** The double of an 8-bit immediate, as its bit pattern. *)
Definition vfp_expand_imm (imm8 : Z) : Z :=
  let sign := Z.land (Z.shiftr imm8 7) 1 in
  let exp := Z.land (Z.shiftr imm8 4) 7 in
  let expsgn := Z.land (Z.shiftr exp 2) 1 in
  let inverted_expsgn := Z.land (Z.lnot expsgn) 1 in
  let dexp :=
    Z.lor (Z.shiftl inverted_expsgn 10)
    (Z.lor (Z.shiftl expsgn 9) (Z.lor (Z.shiftl expsgn 8) (Z.lor (Z.shiftl expsgn 7)
    (Z.lor (Z.shiftl expsgn 6) (Z.lor (Z.shiftl expsgn 5) (Z.lor (Z.shiftl expsgn 4)
    (Z.lor (Z.shiftl expsgn 3) (Z.lor (Z.shiftl expsgn 2) (Z.land exp 3))))))))) in
  let dfrac := Z.shiftl (Z.land imm8 15) (52 - 4) in
  Z.lor (Z.lor (Z.shiftl sign 63) (Z.shiftl (Z.land dexp 0x7ff) 52)) dfrac.

Inductive FpKind :=
  | FpUnknown | DataProc3 | ConvFixed | ConvInt | DataProc1 | Compare
  | Immediate | CondCompare | DataProc2 | CondSelect.

(** [op3] is kept in eight bits. *)
Definition fp_kind (binst : Z) : FpKind :=
  let op3 := u8 (bits binst 10 0x1ff) in
  if bit binst 24 then DataProc3
  else if negb (bit binst 21) then ConvFixed
  else if Z.land op3 63 =? 0 then ConvInt
  else if Z.land op3 31 =? 16 then DataProc1
  else if Z.land op3 15 =? 8 then Compare
  else if Z.land op3 7 =? 4 then Immediate
  else if Z.land op3 3 =? 1 then CondCompare
  else if Z.land op3 3 =? 2 then DataProc2
  else if Z.land op3 3 =? 3 then CondSelect
  else FpUnknown.

(** The precision, from field [type]. *)
Definition fp_start (binst : Z) : Inst :=
  let prec p := mkInst A64_UNKNOWN (set_prec 0 p) 0 0 0 (UImm 0) in
  match bits binst 22 3 with
  | 0 => prec FSZ_S
  | 1 => prec FSZ_D
  | 2 => errinst "scalar_floating_point: bad precision"
  | _ => prec FSZ_H
  end.

Definition fp_dataproc3 (binst : Z) (inst : Inst) : Inst :=
  let op :=
    match Z.lor (Z.shiftl (bits binst 21 1) 1) (bits binst 15 1) with
    | 0 => A64_FMADD
    | 1 => A64_FMSUB
    | 2 => A64_FNMADD
    | _ => A64_FNMSUB
    end in
  mkInst op (flags inst) (regRd binst) (regRn binst) (regRm binst) (URa (bits binst 10 31)).

(** [W32] from the size flag, bit 31. *)
Definition sf_flag (binst flags : Z) : Z := if bit binst 31 then flags else Z.lor flags W32.

Section Literals.
(** The addresses of the string literals, the linker's choice. *)
Context (err_addr : string -> Z).

(** The upper four bytes of the union, when only the lower ones are written:
    zero, or the upper half of the error pointer. *)
Definition union_high (v : Operand) : Z :=
  match v with UError e => Z.shiftr (err_addr e) 32 | _ => 0 end.

(** The operation and signedness by the opcode.  The default case only
    evaluates [errinst]: the operation stays, and so do the two bytes of
    [sgn]. *)
Definition convfixed_op (inst : Inst) (opcode : Z) : Op * Z :=
  match opcode with
  | 0 => (A64_FCVT_GPR, 1)
  | 1 => (A64_FCVT_GPR, 0)
  | 2 => (A64_CVTF, 1)
  | 3 => (A64_CVTF, 0)
  | _ => (op inst, Z.shiftr (union_high (operand inst)) 16)
  end.

Definition fp_convfixed (binst : Z) (inst : Inst) : Inst :=
  let '(o, sgn) := convfixed_op inst (bits binst 16 7) in
  let scale := bits binst 10 63 in
  mkInst o (sf_flag binst (flags inst)) (regRd binst) (regRn binst) (rm inst) (UFcvt FPR_ZERO (64 - scale) sgn).

Definition fp_convint (binst : Z) (inst : Inst) : Inst :=
  let flags := sf_flag binst (flags inst) in
  let rmode := bits binst 19 3 in
  let mode :=
    match rmode with
    | 0 => FPR_TIE_EVEN
    | 1 => FPR_POS_INF
    | 2 => FPR_NEG_INF
    | _ => FPR_ZERO
    end in
  let out op v := mkInst op flags (regRd binst) (regRn binst) (rm inst) v in
  match bits binst 16 7 with
  | 0 => out A64_FCVT_GPR (UFcvt mode 0 1)
  | 1 => out A64_FCVT_GPR (UFcvt mode 0 0)
  | 2 => out A64_CVTF (UFcvt mode 0 1)
  | 3 => out A64_CVTF (UFcvt mode 0 0)
  | 4 => out A64_FCVT_GPR (UFcvt FPR_TIE_AWAY 0 1)
  | 5 => out A64_FCVT_GPR (UFcvt FPR_TIE_AWAY 0 0)
  | 6 =>
      if rmode =? 0 then out A64_FMOV_VEC2GPR (UImm 0)
      else if rmode =? 1 then out A64_FMOV_TOP2GPR (UImm 0)
      else if rmode =? 3 then
        out A64_FJCVTZS (UFcvt FPR_ZERO (Z.land (union_high (operand inst)) 0xffff) 1)
      else errinst "scalar_floating_point/ConvInt: bad rmode for opcode=0b110"
  | _ =>
      if rmode =? 0 then out A64_FMOV_GPR2VEC (UImm 0)
      else if rmode =? 1 then out A64_FMOV_GPR2TOP (UImm 0)
      else errinst "scalar_floating_point/ConvInt: bad rmode for opcode=0b111"
  end.

Definition fp_dataproc1 (binst : Z) (inst : Inst) : Inst :=
  let out op v := mkInst op (flags inst) (regRd binst) (regRn binst) (rm inst) v in
  let same op := out op (operand inst) in
  let rint op mode := out op (UFrint mode (union_high (operand inst))) in
  match bits binst 15 63 with
  | 0 => same A64_FMOV_REG
  | 1 => same A64_FABS
  | 2 => same A64_FNEG
  | 3 => same A64_FSQRT
  | 4 => same A64_FCVT_S
  | 5 => same A64_FCVT_D
  | 7 => same A64_FCVT_H
  | 8 => rint A64_FRINT FPR_TIE_EVEN
  | 9 => rint A64_FRINT FPR_POS_INF
  | 10 => rint A64_FRINT FPR_NEG_INF
  | 11 => rint A64_FRINT FPR_ZERO
  | 12 => rint A64_FRINT FPR_TIE_AWAY
  | 14 => rint A64_FRINTX FPR_CURRENT
  | 15 => rint A64_FRINT FPR_CURRENT
  | 16 => out A64_FRINT (UFrint FPR_ZERO 32)
  | 17 => out A64_FRINTX (UFrint FPR_CURRENT 32)
  | 18 => out A64_FRINT (UFrint FPR_ZERO 64)
  | 19 => out A64_FRINTX (UFrint FPR_CURRENT 64)
  | _ => errinst "scalar_floating_point/DataProc1: bad opcode"
  end.

Definition fp_compare (binst : Z) (inst : Inst) : Inst :=
  let out op rm := mkInst op (flags inst) (rd inst) (regRn binst) rm (operand inst) in
  match Z.land binst 31 with
  | 0 => out A64_FCMP_REG (regRm binst)
  | 8 => out A64_FCMP_ZERO (rm inst)
  | 16 => out A64_FCMPE_REG (regRm binst)
  | 24 => out A64_FCMPE_ZERO (rm inst)
  | _ => errinst "scalar_floating_point/Compare: bad opcode"
  end.

Definition fp_immediate (binst : Z) (inst : Inst) : Inst :=
  mkInst A64_FMOV_IMM (flags inst) (regRd binst) (rn inst) (rm inst)
    (UFimm (vfp_expand_imm (bits binst 13 0xff))).

Definition fp_condcompare (binst : Z) (inst : Inst) : Inst :=
  mkInst (if bit binst 4 then A64_FCCMPE else A64_FCCMP) (set_cond (flags inst) (bits binst 12 15))
    (rd inst) (regRn binst) (regRm binst) (UCcmp (Z.land binst 15) 0).

Definition fp_dataproc2 (binst : Z) (inst : Inst) : Inst :=
  let o :=
    match bits binst 12 15 with
    | 0 => A64_FMUL
    | 1 => A64_FDIV
    | 2 => A64_FADD
    | 3 => A64_FSUB
    | 4 => A64_FMAX
    | 5 => A64_FMIN
    | 6 => A64_FMAXNM
    | 7 => A64_FMINNM
    | 8 => A64_FNMUL
    | _ => op inst
    end in
  mkInst o (flags inst) (regRd binst) (regRn binst) (regRm binst) (operand inst).

Definition fp_condselect (binst : Z) (inst : Inst) : Inst :=
  mkInst A64_FCSEL (set_cond (flags inst) (bits binst 12 15))
    (regRd binst) (regRn binst) (regRm binst) (operand inst).

Definition scalar_floating_point (binst : Z) : Inst :=
  let inst := fp_start binst in
  match fp_kind binst with
  | FpUnknown => UNKNOWN_INST
  | DataProc3 => fp_dataproc3 binst inst
  | ConvFixed => fp_convfixed binst inst
  | ConvInt => fp_convint binst inst
  | DataProc1 => fp_dataproc1 binst inst
  | Compare => fp_compare binst inst
  | Immediate => fp_immediate binst inst
  | CondCompare => fp_condcompare binst inst
  | DataProc2 => fp_dataproc2 binst inst
  | CondSelect => fp_condselect binst inst
  end.
End Literals.
