(* ===== verification/FarmdecSimd.v ===== *)
(** * The AArch64 decoder: vector instructions

    [decode_simd] and [data_proc_float_and_simd] of
    [subprojects/farmdec/decode.c].  [decode_simd] finds the group from a few
    marker bits, each group is a definition.  The fields that all groups read
    are the arguments [size], [scalar], [U] and [Q]; the flags start with the
    arrangement size:Q. *)

From Stdlib Require Import ZArith Lia String.
From stdpp Require Import base numbers list.
From S2P Require Import Prelude Farmdec FarmdecFp.

Inductive SimdKind :=
  | SimdUnknown | TableLookup | Permute | Extract | Copy | ThreeSameExtra
  | TwoRegMisc | Reduce | ThreeDiff | ThreeSame | ModifiedImm | ShiftByImm
  | IndexedElem.

Definition simd_kind (binst : Z) : SimdKind :=
  let U := bit binst 29 in
  let b10 := bit binst 10 in
  let b11 := bit binst 11 in
  let b15 := bit binst 15 in
  let op21 := bits binst 21 15 in
  let op17 := bits binst 17 15 in
  let immh := bits binst 19 15 in
  if op21 <? 8 then
    if Z.land op21 1 =? 0 then
      if (op21 =? 0) && U && negb b15 && negb b10 then Extract
      else if (op21 =? 0) && negb b15 && b10 then Copy
      else if (op21 =? 0) && negb b15 && negb b11 && negb b10 then TableLookup
      else if negb b15 && b11 && negb b10 then Permute
      else if b15 && b10 then ThreeSameExtra
      else SimdUnknown
    else
      if (op17 =? 0) && b11 && negb b10 then TwoRegMisc
      else if (op17 =? 8) && b11 && negb b10 then Reduce
      else if negb b11 && negb b10 then ThreeDiff
      else if b10 then ThreeSame
      else SimdUnknown
  else
    if (immh =? 0) && b10 then ModifiedImm
    else if negb (immh =? 0) && b10 then ShiftByImm
    else if negb b10 then IndexedElem
    else SimdUnknown.

(** Vector arrangement [size:Q]. *)
Definition arrangement (size : Z) (Q : bool) : Z := Z.lor (Z.shiftl size 1) (Z.b2z Q).

(** [flags |= c ? f : 0]. *)
Definition or_flag (c : bool) (f flags : Z) : Z := Z.lor flags (if c then f else 0).

(** The signedness and scalarity that several groups set last. *)
Definition sgn_sca (U scalar set_signedness set_scalarity : bool) (flags : Z) : Z :=
  let flags := if set_signedness then or_flag (negb U) SIMD_SIGNED flags else flags in
  if set_scalarity then or_flag scalar SIMD_SCALAR flags else flags.

(** Single or double precision, by the lower bit of [size]. *)
Definition fp_arrangement (size : Z) (Q : bool) : Z :=
  arrangement (if Z.land size 1 =? 0 then FSZ_S else FSZ_D) Q.

(** ** Table lookup, permutation, extraction *)

Definition simd_table (binst flags : Z) : Inst :=
  mkInst (if bit binst 12 then A64_TBX else A64_TBL) flags (regRd binst) (regRn binst) (regRm binst)
    (UImm (bits binst 13 3 + 1)).

Definition simd_permute (binst flags : Z) : Inst :=
  let inst op := mkInst op flags (regRd binst) (regRn binst) (regRm binst) (UImm 0) in
  match bits binst 12 7 with
  | 1 => inst A64_UZP1
  | 2 => inst A64_TRN1
  | 3 => inst A64_ZIP1
  | 5 => inst A64_UZP2
  | 6 => inst A64_TRN2
  | 7 => inst A64_ZIP2
  | _ => errinst "SIMD/Permute: bad opcode"
  end.

Definition simd_extract (Q : bool) (binst flags : Z) : Inst :=
  let imm4 := bits binst 11 15 in
  mkInst A64_EXT (set_vec_arrangement flags (if Q then VA_16B else VA_8B))
    (regRd binst) (regRn binst) (regRm binst) (UImm (if Q then imm4 else Z.land imm4 7)).

(** ** Copies *)

(** Index and element size, from [imm5]. *)
Definition copy_index (imm5 : Z) : option (Z * Z) :=
  if Z.land imm5 15 =? 8 then Some (Z.shiftr imm5 4, FSZ_D)
  else if Z.land imm5 7 =? 4 then Some (Z.shiftr imm5 3, FSZ_S)
  else if Z.land imm5 3 =? 2 then Some (Z.shiftr imm5 2, FSZ_H)
  else if Z.land imm5 1 =? 1 then Some (Z.shiftr imm5 1, FSZ_B)
  else None.

Definition copy_ins_elem (binst flags imm4 idx prec : Z) : Inst :=
  mkInst A64_INS_ELEM (set_vec_arrangement flags (Z.lor (Z.shiftl prec 1) 1))
    (regRd binst) (regRn binst) 0 (UInsElem idx (Z.shiftr imm4 prec)).

Definition copy_general (scalar Q : bool) (binst flags imm4 imm5 idx prec : Z) : Inst :=
  let inst op flags := mkInst op flags (regRd binst) (regRn binst) 0 (UImm idx) in
  let is_long := 0 <? Z.land imm5 16 in
  match imm4 with
  | 0 => inst A64_DUP_ELEM (or_flag scalar SIMD_SCALAR flags)
  | 1 => inst A64_DUP_GPR (or_flag (negb (prec =? FSZ_D)) W32 flags)
  | 3 =>
      let flags := set_vec_arrangement flags (Z.lor (Z.shiftl prec 1) 1) in
      inst A64_INS_GPR (or_flag (negb (prec =? FSZ_D)) W32 flags)
  | 5 =>
      let flags := set_vec_arrangement flags (arrangement prec is_long) in
      inst A64_SMOV (Z.lor (or_flag (negb Q) W32 flags) SIMD_SIGNED)
  | 7 =>
      let flags := set_vec_arrangement flags (arrangement prec is_long) in
      inst A64_UMOV (or_flag (negb Q) W32 flags)
  | _ => errinst "SIMD/Copy: bad instruction"
  end.

Definition simd_copy (scalar Q : bool) (binst flags : Z) : Inst :=
  let imm4 := bits binst 11 15 in
  let imm5 := bits binst 16 31 in
  match copy_index imm5 with
  | None => errinst "SIMD/Copy: bad imm5 field / destination index"
  | Some (idx, prec) =>
      let flags := set_vec_arrangement flags (arrangement prec Q) in
      if bit binst 29 then copy_ins_elem binst flags imm4 idx prec
      else copy_general scalar Q binst flags imm4 imm5 idx prec
  end.

(** ** Three registers: dot products, complex numbers, ... *)

Definition rotation (r : Z) : Z :=
  if r =? 0 then 0 else if r =? 1 then 90 else if r =? 2 then 180 else 270.

Definition simd_three_same_extra (U scalar : bool) (binst flags : Z) : Inst :=
  let opcode := bits binst 11 15 in
  let inst op flags imm := mkInst op flags (regRd binst) (regRn binst) (regRm binst) (UImm imm) in
  match opcode with
  | 0 => inst A64_SQRDMLAH_VEC (or_flag scalar SIMD_SCALAR flags) 0
  | 1 => inst A64_SQRDMLSH_VEC (or_flag scalar SIMD_SCALAR flags) 0
  | 2 => inst A64_DOT_VEC (or_flag (negb U) SIMD_SIGNED flags) 0
  | 8 | 9 | 10 | 11 => inst A64_FCMLA_VEC flags (rotation (Z.land opcode 3))
  | 12 | 14 => inst A64_FCADD flags (if Z.land (Z.shiftr opcode 1) 1 =? 0 then 90 else 270)
  | _ => inst A64_UNKNOWN flags 0
  end.

(** ** Two registers *)

Definition is_cvt (o : Op) : bool :=
  match o with A64_FCVT_VEC | A64_CVTF_VEC => true | _ => false end.

(** [inst.fcvt.sgn = sgn] over a union that is zero or holds [fcvt]. *)
Definition set_fcvt_sgn (v : Operand) (sgn : bool) : Operand :=
  match v with
  | UFcvt mode fbits _ => UFcvt mode fbits (Z.b2z sgn)
  | _ => UFcvt 0 0 (Z.b2z sgn)
  end.

(** What the switch of a group decides: the operation, the flags and operand so
    far, and whether signedness, scalarity and the arrangement of floating
    point are still to be set. *)
Record Choice := mkChoice {
  c_op : Op; c_flags : Z; c_operand : Operand;
  set_signedness : bool; set_scalarity : bool; is_fp : bool }.

Definition two_reg_misc (U Q : bool) (size opcode flags : Z) : option Choice :=
  let int op sgn sca := Some (mkChoice op flags (UImm 0) sgn sca false) in
  let fp op sgn sca v := Some (mkChoice op flags v sgn sca true) in
  let at_va va op sca := Some (mkChoice op (set_vec_arrangement flags va) (UImm 0) false sca false) in
  let top := negb (Z.land size 2 =? 0) in
  match opcode with
  | 0 => int (if U then A64_REV32_VEC else A64_REV64_VEC) false false
  | 1 => int A64_REV16_VEC false false
  | 2 => int A64_ADDLP true false
  | 3 => int (if U then A64_USQADD else A64_SUQADD) false true
  | 4 => int (if U then A64_CLZ_VEC else A64_CLS_VEC) false false
  | 5 => at_va (arrangement FSZ_B Q)
           (if U then (if size =? 0 then A64_NOT_VEC else A64_RBIT_VEC) else A64_CNT) false
  | 6 => int A64_ADALP true false
  | 7 => Some (mkChoice (if U then A64_SQNEG else A64_SQABS) (Z.lor flags SIMD_SIGNED) (UImm 0) false true false)
  | 8 => int (if U then A64_CMGE_ZERO else A64_CMGT_ZERO) false true
  | 9 => int (if U then A64_CMLE_ZERO else A64_CMEQ_ZERO) false true
  | 10 => int A64_CMLT_ZERO false true
  | 11 => int (if U then A64_NEG_VEC else A64_ABS_VEC) false true
  | 12 => fp (if U then A64_FCMGE_ZERO else A64_FCMGT_ZERO) false true (UImm 0)
  | 13 => fp (if U then A64_FCMLE_ZERO else A64_FCMEQ_ZERO) false true (UImm 0)
  | 14 => fp A64_FCMLT_ZERO false true (UImm 0)
  | 15 => fp (if U then A64_FNEG_VEC else A64_FABS_VEC) false true (UImm 0)
  | 18 => int (if U then A64_SQXTUN else A64_XTN) false true
  | 20 => int A64_QXTN true true
  | 22 => at_va (arrangement (if Z.land size 1 =? 0 then FSZ_H else FSZ_S) Q)
            (if U then A64_FCVTXN else A64_FCVTN) true
  | 23 => at_va (arrangement (if Z.land size 1 =? 0 then FSZ_H else FSZ_S) Q) A64_FCVTL false
  | 24 => fp A64_FRINT_VEC false false
            (UFrint (if U then FPR_TIE_AWAY else if top then FPR_POS_INF else FPR_TIE_EVEN) 0)
  | 25 => if U then fp (if top then A64_FRINT_VEC else A64_FRINTX_VEC) false false (UFrint FPR_CURRENT 0)
          else fp A64_FRINT_VEC false false (UFrint (if top then FPR_ZERO else FPR_NEG_INF) 0)
  | 26 => fp A64_FCVT_VEC true true (UFcvt (if top then FPR_POS_INF else FPR_TIE_EVEN) 0 0)
  | 27 => fp A64_FCVT_VEC true true (UFcvt (if top then FPR_ZERO else FPR_NEG_INF) 0 0)
  | 28 => if top then fp (if U then A64_URSQRTE else A64_URECPE) false false (UImm 0)
          else fp A64_FCVT_VEC true true (UFcvt FPR_TIE_AWAY 0 0)
  | 29 => if top then fp (if U then A64_FRSQRTE else A64_FRECPE) false false (UImm 0)
          else fp A64_CVTF_VEC true true (UImm 0)
  | 30 => fp (if U then A64_FRINTX_VEC else A64_FRINT_VEC) false false
            (UFrint (if U then FPR_CURRENT else FPR_ZERO) 32)
  | 31 => if top then fp (if U then A64_FSQRT_VEC else A64_FRECPX) false true (UImm 0)
          else fp (if U then A64_FRINTX_VEC else A64_FRINT_VEC) false false
                 (UFrint (if U then FPR_CURRENT else FPR_ZERO) 64)
  | _ => None
  end.

(** Signedness, scalarity and arrangement after a switch. *)
Definition finish_flags (U scalar Q : bool) (size : Z) (c : Choice) : Z :=
  let flags := sgn_sca U scalar (set_signedness c) (set_scalarity c) (c_flags c) in
  if is_fp c then set_vec_arrangement flags (fp_arrangement size Q) else flags.

Definition simd_two_reg_misc (U scalar Q : bool) (size binst flags : Z) : Inst :=
  match two_reg_misc U Q size (bits binst 12 31) flags with
  | None => errinst "SIMD/TwoRegMisc: bad opcode"
  | Some c =>
      let v := if set_signedness c && is_cvt (c_op c) then set_fcvt_sgn (c_operand c) (negb U) else c_operand c in
      mkInst (c_op c) (finish_flags U scalar Q size c) (regRd binst) (regRn binst) 0 v
  end.

(** ** Reductions *)

(** [None] stands for the arrangement [-1], which leaves the flags alone. *)
Definition reduce_choice (U scalar Q : bool) (size opcode : Z) : Op * bool * option Z :=
  let is_fmin := negb (Z.land size 2 =? 0) in
  let pair_va := if U then (if Z.land size 1 =? 0 then VA_2S else VA_2D) else VA_4H in
  let lanes_va :=
    arrangement (if U then (if Z.land size 1 =? 0 then FSZ_S else FSZ_D) else FSZ_H) Q in
  match opcode with
  | 3 => (A64_ADDLV, true, None)
  | 10 => (A64_MAXV, true, None)
  | 26 => (A64_MINV, true, None)
  | 27 => (if scalar then A64_ADDP else A64_ADDV, false, None)
  | 12 => if scalar then (if is_fmin then A64_FMINNMP else A64_FMAXNMP, false, Some pair_va)
          else (if is_fmin then A64_FMINNMV else A64_FMAXNMV, false, Some lanes_va)
  | 13 => (A64_FADDP, false, Some pair_va)
  | 15 => if scalar then (if is_fmin then A64_FMINP else A64_FMAXP, false, Some pair_va)
          else (if is_fmin then A64_FMINV else A64_FMAXV, false, Some lanes_va)
  | _ => (A64_UNKNOWN, false, None)
  end.

Definition simd_reduce (U scalar Q : bool) (size binst flags : Z) : Inst :=
  let flags := or_flag scalar SIMD_SCALAR flags in
  let '(op, sgn, va) := reduce_choice U scalar Q size (bits binst 12 31) in
  let flags := if sgn : bool then or_flag (negb U) SIMD_SIGNED flags else flags in
  let flags := match va with Some va => set_vec_arrangement flags va | None => flags end in
  mkInst op flags (regRd binst) (regRn binst) 0 (UImm 0).

(** ** Three registers of different length *)

Definition three_diff (U : bool) (opcode flags : Z) : option Choice :=
  let sgn op := Some (mkChoice op flags (UImm 0) true false false) in
  let sat op := Some (mkChoice op (Z.lor flags SIMD_SIGNED) (UImm 0) false true false) in
  let high op := Some (mkChoice op (or_flag U SIMD_ROUND flags) (UImm 0) false false false) in
  match opcode with
  | 0 => sgn A64_ADDL
  | 1 => sgn A64_ADDW
  | 2 => sgn A64_SUBL
  | 3 => sgn A64_SUBW
  | 4 => high A64_ADDHN
  | 5 => sgn A64_ABAL
  | 6 => high A64_SUBHN
  | 7 => sgn A64_ABDL
  | 8 => sgn A64_MLAL_VEC
  | 9 => sat A64_SQDMLAL_VEC
  | 10 => sgn A64_MLSL_VEC
  | 11 => sat A64_SQDMLAL_VEC
  | 12 => sgn A64_MULL_VEC
  | 13 => sat A64_SQDMULL_VEC
  | 14 => Some (mkChoice A64_PMULL flags (UImm 0) false false false)
  | _ => None
  end.

Definition simd_three_diff (U scalar Q : bool) (size binst flags : Z) : Inst :=
  match three_diff U (bits binst 12 15) flags with
  | None => errinst "SIMD/ThreeDiff: bad obcode"
  | Some c =>
      mkInst (c_op c) (finish_flags U scalar Q size c) (regRd binst) (regRn binst) (regRm binst) (UImm 0)
  end.

(** ** Three registers of the same length *)

(** Opcode 29 leaves its case before it sets the scalarity. *)
Definition three_same (U scalar Q : bool) (size opcode flags : Z) : Choice :=
  let int op sgn sca := mkChoice op flags (UImm 0) sgn sca false in
  let rnd op sca := mkChoice op (Z.lor flags SIMD_ROUND) (UImm 0) true sca false in
  let fp op sca := mkChoice op flags (UImm 0) false sca true in
  let top := negb (Z.land size 2 =? 0) in
  match opcode with
  | 0 => int A64_HADD true false
  | 1 => int A64_QADD true true
  | 2 => rnd A64_HADD false
  | 3 =>
      let op :=
        if size =? 0 then (if U then A64_EOR_VEC else A64_AND_VEC)
        else if size =? 1 then (if U then A64_BSL else A64_BIC_VEC_REG)
        else if size =? 2 then (if U then A64_BIT else A64_ORR_VEC_REG)
        else (if U then A64_BIF else A64_ORN_VEC) in
      mkChoice op (set_vec_arrangement flags (arrangement FSZ_B Q)) (UImm 0) false false false
  | 4 => int A64_HSUB true false
  | 5 => int A64_QSUB true true
  | 6 => int (if U then A64_CMHI_REG else A64_CMGT_REG) false true
  | 7 => int (if U then A64_CMHS_REG else A64_CMGE_REG) false true
  | 8 => int A64_SHL_REG true true
  | 9 => int A64_QSHL_REG true true
  | 10 => rnd A64_SHL_REG true
  | 11 => rnd A64_QSHL_REG true
  | 12 => int A64_MAX_VEC true false
  | 13 => int A64_MIN_VEC true false
  | 14 => int A64_ABD true false
  | 15 => int A64_ABA true false
  | 16 => int (if U then A64_SUB_VEC else A64_ADD_VEC) false true
  | 17 => int (if U then A64_CMEQ_REG else A64_CMTST) false true
  | 18 => int (if U then A64_MLS_VEC else A64_MLA_VEC) false false
  | 19 => int (if U then A64_PMUL else A64_MUL_VEC) false false
  | 20 => int A64_MAXP true false
  | 21 => int A64_MINP true false
  | 22 => mkChoice A64_SQDMULH_VEC (or_flag U SIMD_ROUND flags) (UImm 0) false true false
  | 23 => int A64_ADDP_VEC false false
  | 24 => fp (if U then (if top then A64_FMINNMP_VEC else A64_FMAXNMP_VEC)
              else (if top then A64_FMINNM_VEC else A64_FMAXNM_VEC)) false
  | 25 => fp (if U then (if top then A64_FMLSL2_VEC else A64_FMLAL2_VEC)
              else (if top then A64_FMLS_VEC else A64_FMLA_VEC)) false
  | 26 => fp (if U then (if top then A64_FABD_VEC else A64_FADDP_VEC)
              else (if top then A64_FSUB_VEC else A64_FADD_VEC)) (U && top)
  | 27 => fp (if U then A64_FMUL_VEC else if scalar then A64_FMULX else A64_FMULX_VEC) false
  | 28 => fp (if U then (if top then A64_FCMGT_REG else A64_FCMGE_REG) else A64_FCMEQ_REG) true
  | 29 => fp (if U then (if top then A64_FACGT else A64_FACGE)
              else (if top then A64_FMLSL_VEC else A64_FMLAL_VEC)) false
  | 30 => fp (if U then (if top then A64_FMINP_VEC else A64_FMAXP_VEC)
              else (if top then A64_FMIN_VEC else A64_FMAX_VEC)) false
  | _ => fp (if U then A64_FDIV_VEC else if top then A64_FRSQRTS_VEC else A64_FRECPS_VEC) false
  end.

Definition simd_three_same (U scalar Q : bool) (size binst flags : Z) : Inst :=
  let c := three_same U scalar Q size (bits binst 11 31) flags in
  mkInst (c_op c) (finish_flags U scalar Q size c) (regRd binst) (regRn binst) (regRm binst) (UImm 0).

(** ** Modified immediates *)

(** Every bit of [imm8] eight times. *)
Definition byte_mask (imm8 : Z) : Z :=
  let byte m := if Z.land imm8 m =? 0 then 0 else 0xff in
  Z.lor (Z.lor (Z.lor (Z.lor (Z.lor (Z.lor (Z.lor
    (Z.shiftl (byte 0x80) 56) (Z.shiftl (byte 0x40) 48)) (Z.shiftl (byte 0x20) 40)) (Z.shiftl (byte 0x10) 32))
    (Z.shiftl (byte 0x08) 24)) (Z.shiftl (byte 0x04) 16)) (Z.shiftl (byte 0x02) 8)) (Z.shiftl (byte 0x01) 0).

Definition simd_modified_imm (Q : bool) (binst flags : Z) : Inst :=
  let op := bit binst 29 in
  let cmode := bits binst 12 15 in
  let imm8 := Z.lor (Z.shiftl (bits binst 16 7) 5) (bits binst 5 31) in
  let zlsl := 8 * Z.land (Z.shiftr cmode 1) 3 in
  let olsl := if Z.land cmode 1 =? 0 then 8 else 16 in
  let inst o flags v := mkInst o flags (regRd binst) 0 0 v in
  let at_size size := set_vec_arrangement flags (arrangement size Q) in
  let inv x := if op then u64 (Z.lnot x) else x in
  let logic := if op then A64_BIC_VEC_IMM else A64_ORR_VEC_IMM in
  match cmode with
  | 0 | 2 | 4 | 6 => inst A64_MOVI (at_size FSZ_S) (UImm (inv (Z.shiftl imm8 zlsl)))
  | 8 | 10 => inst A64_MOVI (at_size FSZ_H) (UImm (inv (Z.shiftl imm8 zlsl)))
  | 12 | 13 =>
      let ones := u64 (Z.lnot (u64 (Z.shiftl (u64 (Z.lnot 0)) olsl))) in
      inst A64_MOVI (at_size FSZ_S) (UImm (inv (Z.lor (Z.shiftl imm8 olsl) ones)))
  | 14 =>
      if negb op then inst A64_MOVI (at_size FSZ_B) (UImm imm8)
      else
        inst A64_MOVI (set_vec_arrangement (or_flag (negb Q) SIMD_SCALAR flags) (arrangement FSZ_D Q))
          (UImm (byte_mask imm8))
  | 1 | 3 | 5 | 7 => inst logic (at_size FSZ_S) (UImm (Z.shiftl imm8 zlsl))
  | 9 | 11 => inst logic (at_size FSZ_H) (UImm (Z.shiftl imm8 zlsl))
  | _ =>
      let o2 := bit binst 11 in
      let fmov size := inst A64_FMOV_VEC (at_size size) (UFimm (vfp_expand_imm imm8)) in
      if negb op && negb o2 then fmov FSZ_S
      else if negb op && o2 then fmov FSZ_H
      else if op && negb o2 then fmov FSZ_D
      else errinst "SIMD/ModifiedImm: FMOV_VEC: unknown (op, o2) combination"
  end.

(** ** Shifts by immediates *)

(** Operation, flags so far, signedness, scalarity, left shift. *)
Definition shift_choice (U : bool) (opcode flags : Z) : option (Op * Z * bool * bool * bool) :=
  match opcode with
  | 0 => Some (A64_SHR, flags, true, true, false)
  | 2 => Some (A64_SRA, flags, true, true, false)
  | 4 => Some (A64_SHR, Z.lor flags SIMD_ROUND, true, true, false)
  | 6 => Some (A64_SRA, Z.lor flags SIMD_ROUND, true, true, false)
  | 8 => Some (A64_SRI, flags, true, true, false)
  | 10 => Some (if U then A64_SLI else A64_SHL_IMM, flags, false, true, true)
  | 14 => Some (A64_QSHL_IMM, flags, true, true, true)
  | 16 | 17 =>
      Some (if U then A64_SQSHRUN else A64_SHRN, or_flag (negb (Z.land opcode 1 =? 0)) SIMD_ROUND flags,
            false, false, false)
  | 18 => Some (A64_QSHRN, flags, true, true, false)
  | 19 => Some (A64_QSHRN, Z.lor flags SIMD_ROUND, true, true, false)
  | 20 => Some (A64_SHLL, flags, true, false, true)
  | 28 => Some (A64_CVTF_VEC, flags, true, true, false)
  | 31 => Some (A64_FCVT_VEC, flags, true, true, false)
  | _ => None
  end.

(** The element size by the position of the highest bit of [immh]. *)
Definition shift_size (immh : Z) : option Z :=
  if immh =? 0 then None
  else if Z.land immh 15 =? 1 then Some FSZ_B
  else if Z.land immh 14 =? 2 then Some FSZ_H
  else if Z.land immh 12 =? 4 then Some FSZ_S
  else if Z.land immh 8 =? 8 then Some FSZ_D
  else None.

Definition shift_amount (left_shift : bool) (size immh_immb : Z) : Z :=
  let amount lo := u32 (if left_shift then immh_immb - lo else 2 * lo - immh_immb) in
  if size =? FSZ_B then amount 8
  else if size =? FSZ_H then amount 16
  else if size =? FSZ_S then amount 32
  else amount 64.

Definition simd_shift_imm (U scalar Q : bool) (binst flags : Z) : Inst :=
  match shift_choice U (bits binst 11 31) flags with
  | None => errinst "SIMD/ShiftByImm: bad opcode"
  | Some (op, flags, sgn, sca, left_shift) =>
      let flags := sgn_sca U scalar sgn sca flags in
      let immh := bits binst 19 15 in
      match shift_size immh with
      | None =>
          if immh =? 0
          then errinst "SIMD/ShiftByImm: internal decoding to kind failed: immh=0000 → ModifiedImm"
          else errinst "SIMD/ShiftByImm: bad immediate"
      | Some size =>
          let imm := shift_amount left_shift size (bits binst 16 127) in
          let v := if is_cvt op then UFcvt FPR_ZERO imm (Z.b2z (negb U)) else UImm imm in
          mkInst op (set_vec_arrangement flags (arrangement size Q)) (regRd binst) (regRn binst) 0 v
      end
  end.

(** ** Vector by indexed element *)

(** Bits H:L:M. *)
Definition elem_hlm (binst : Z) : Z := Z.lor (bits binst 9 4) (bits binst 20 3).

(** The index by the size. *)
Definition elem_index (size hlm : Z) : Z :=
  if size =? 1 then hlm else if size =? 2 then Z.shiftr hlm 1 else if size =? 3 then Z.shiftr hlm 2 else 0.

(** The rotation and, for the sizes that have one, the index; the others keep
    the lower word of the index stored before. *)
Definition elem_fcmla (binst flags size opcode idx : Z) : Inst :=
  let hlm := elem_hlm binst in
  let idx := if size =? 1 then Z.shiftr hlm 1 else if size =? 2 then Z.shiftr hlm 2 else idx in
  mkInst A64_FCMLA_ELEM flags (regRd binst) (regRn binst) (regRm binst)
    (UFcmlaElem idx (rotation (Z.land (Z.shiftr opcode 1) 3))).

(** Operation, flags so far, index, short register number, signedness,
    scalarity. *)
Definition elem_choice (U Q : bool) (opcode hlm idx flags : Z) (short_rm : bool) : Op * Z * Z * bool * bool * bool :=
  let plain op sgn sca := (op, flags, idx, short_rm, sgn, sca) in
  let half op := (op, set_vec_arrangement flags (arrangement FSZ_H Q), hlm, true, false, false) in
  let sat op f := (op, Z.lor flags f, idx, short_rm, false, true) in
  match opcode with
  | 0 => if U then plain A64_MLA_ELEM false false else half A64_FMLAL_ELEM
  | 1 => plain A64_FMLA_ELEM false true
  | 2 => plain A64_MLAL_ELEM true false
  | 3 => sat A64_SQDMLAL_ELEM SIMD_SIGNED
  | 4 => if U then plain A64_MLS_ELEM false false else half A64_FMLSL_ELEM
  | 5 => plain A64_FMLS_ELEM false true
  | 6 => plain A64_MLSL_ELEM true false
  | 7 => sat A64_SQDMLSL_ELEM SIMD_SIGNED
  | 8 => if negb U then plain A64_MUL_ELEM false false else half A64_FMLAL2_ELEM
  | 9 => plain (if U then A64_FMULX_ELEM else A64_FMUL_ELEM) false true
  | 10 => plain A64_MULL_ELEM true false
  | 11 => sat A64_SQDMULL_ELEM SIMD_SIGNED
  | 12 => if negb U then sat A64_SQDMULH_ELEM SIMD_SIGNED else half A64_FMLSL2_ELEM
  | 13 => sat (if U then A64_SQRDMLAH_ELEM else A64_SQDMULH_ELEM) (Z.lor SIMD_SIGNED SIMD_ROUND)
  | 14 => (A64_DOT_ELEM, set_vec_arrangement flags (arrangement FSZ_B Q), Z.shiftr hlm 1, short_rm, true, false)
  | _ => sat A64_SQRDMLSH_ELEM (Z.lor SIMD_SIGNED SIMD_ROUND)
  end.

Definition simd_indexed (U scalar Q : bool) (size binst flags : Z) : Inst :=
  let opcode := bits binst 12 15 in
  let hlm := elem_hlm binst in
  let idx := elem_index size hlm in
  if U && (Z.land opcode 9 =? 1) then elem_fcmla binst flags size opcode idx
  else
    let '(op, flags, imm, short_rm, sgn, sca) := elem_choice U Q opcode hlm idx flags (size =? 1) in
    let rm := if short_rm : bool then Z.land (regRm binst) 15 else regRm binst in
    mkInst op (sgn_sca U scalar sgn sca flags) (regRd binst) (regRn binst) rm (UImm imm).

(** ** The group *)

Definition decode_simd (binst : Z) : Inst :=
  let size := bits binst 22 3 in
  let scalar := bit binst 28 in
  let U := bit binst 29 in
  let Q := bit binst 30 in
  let flags := set_vec_arrangement 0 (arrangement size Q) in
  match simd_kind binst with
  | SimdUnknown => errinst "SIMD: bad instruction"
  | TableLookup => simd_table binst flags
  | Permute => simd_permute binst flags
  | Extract => simd_extract Q binst flags
  | Copy => simd_copy scalar Q binst flags
  | ThreeSameExtra => simd_three_same_extra U scalar binst flags
  | TwoRegMisc => simd_two_reg_misc U scalar Q size binst flags
  | Reduce => simd_reduce U scalar Q size binst flags
  | ThreeDiff => simd_three_diff U scalar Q size binst flags
  | ThreeSame => simd_three_same U scalar Q size binst flags
  | ModifiedImm => simd_modified_imm Q binst flags
  | ShiftByImm => simd_shift_imm U scalar Q binst flags
  | IndexedElem => simd_indexed U scalar Q size binst flags
  end.

Definition data_proc_float_and_simd (err_addr : string -> Z) (binst : Z) : Inst :=
  match bits binst 28 15 with
  | 1 | 3 | 9 | 11 => scalar_floating_point err_addr binst
  | 12 => errinst "cryptographic instructions not supported"
  | 8 | 10 | 13 | 14 | 15 => errinst "unknown SIMD instruction"
  | _ => decode_simd binst
  end.
