(* ===== verification/FarmdecDecode.v ===== *)
(** * The AArch64 decoder: [fad_decode]

    The dispatch over the instruction groups and the loop over the buffers, of
    [subprojects/farmdec/decode.c]. *)

From Stdlib Require Import ZArith Lia String.
From stdpp Require Import base numbers list.
From S2P Require Import Prelude Farmdec FarmdecMem FarmdecFp FarmdecSimd.

Section Decode.
Context (shl64 : Z -> Z) (err_addr : string -> Z).

(** [None]: the word needs the number of leading zeros of zero. *)
Definition decode_group (binst : Z) : option Inst :=
  match bits binst 25 15 with
  | 0 => Some (mkInst A64_UDF 0 0 0 0 (UImm 0))
  | 8 | 9 => data_proc_imm shl64 binst
  | 10 | 11 => Some (branches binst)
  | 4 | 6 | 12 | 14 => Some (loads_and_stores binst)
  | 5 | 13 => Some (data_proc_reg binst)
  | 7 | 15 => Some (data_proc_float_and_simd err_addr binst)
  | _ => Some UNKNOWN_INST
  end.

(** The word of an unknown instruction. *)
Definition keep_word (binst : Z) (inst : Inst) : Inst :=
  match op inst with
  | A64_UNKNOWN => mkInst A64_UNKNOWN (flags inst) (rd inst) (rn inst) (rm inst) (UImm binst)
  | _ => inst
  end.

Definition decode_word (binst : Z) : option Inst :=
  inst ← decode_group binst; Some (keep_word binst inst).

(** The loop, with [k] rounds to go at index [i]; [None] also for an access
    outside a buffer.  The index is returned as an [int]. *)
Fixpoint fad_decode_from (k i : nat) (input : list Z) (out : list Inst) : option (Z * list Inst) :=
  match k with
  | O => Some (s32 (Z.of_nat i), out)
  | S k' =>
      binst ← input !! i;
      inst ← decode_word binst;
      if (i <? length out)%nat then fad_decode_from k' (S i) input (<[i := inst]> out) else None
  end.

Definition fad_decode (input : list Z) (n : Z) (out : list Inst) : option (Z * list Inst) :=
  fad_decode_from (Z.to_nat n) 0 input out.
End Decode.
