(* ===== verification/FarmdecWf.v ===== *)
(** * Every decoded AArch64 instruction is well formed

    The members of [struct Inst] are narrow: a byte of flags, registers, and a
    union of small fields.  Nothing the decoder stores is truncated: the flags
    fit their byte, registers are register numbers or the stack pointer, and
    every member of the union fits its C type. *)

From Stdlib Require Import ZArith Lia String.
From stdpp Require Import base numbers list.
From S2P Require Import Prelude Farmdec FarmdecProofs FarmdecMem FarmdecFp FarmdecSimd FarmdecDecode.

(** ** The invariant *)

Definition wf_reg (r : Z) : Prop := 0 <= r < 32 \/ r = STACK_POINTER.

Definition wf_operand (v : Operand) : Prop :=
  match v with
  | UImm x | UFimm x => in_u 64 x
  | UOffset o => in_s 64 o
  | URa r => in_u 5 r
  | UError _ => True
  | UMovk a b | UBfm a b | UCcmp a b | UMsrImm a b | UShift a b | URmif a b | UExtend a b
  | UFrint a b | UInsElem a b | UFcmlaElem a b => in_u 32 a /\ in_u 32 b
  | USys a b c d => in_u 16 a /\ in_u 16 b /\ in_u 16 c /\ in_u 16 d
  | UTbz o b => in_s 32 o /\ in_u 32 b
  | ULdstOrder l s r => in_u 16 l /\ in_u 16 s /\ in_u 8 r
  | USimdLdst n i o => in_u 32 n /\ in_u 16 i /\ in_s 16 o
  | UFcvt m f s => in_u 32 m /\ in_u 16 f /\ in_u 16 s
  end.

Record wf_inst (i : Inst) : Prop := mk_wf {
  wf_flags : in_u 8 (flags i);
  wf_rd : wf_reg (rd i);
  wf_rn : wf_reg (rn i);
  wf_rm : wf_reg (rm i);
  wf_union : wf_operand (operand i) }.

(** ** Ranges *)

Lemma in_u_le w w' x : w <= w' -> in_u w x -> in_u w' x.
Proof. intros Hw [H1 H2]. split; [done|]. pose proof (Z.pow_le_mono_r 2 w w'). lia. Qed.

Lemma in_u_land w x m : in_u w m -> in_u w (Z.land x m).
Proof.
  intros [Hm1 Hm2]. destruct (Z.eq_dec m 0) as [->|Hne]; [rewrite Z.land_0_r; by split|].
  assert (0 < w) by (destruct (Z.lt_trichotomy w 0) as [?|[->|?]]; [rewrite Z.pow_neg_r in Hm2 by done|cbn in Hm2|]; lia).
  assert (Z.land x m = wrap w (Z.land x m)) as ->; [|apply wrap_range; lia].
  apply bits_eq. intros i Hi. rewrite testbit_wrap, Z.land_spec by lia. destruct (Z.ltb_spec i w); [by rewrite andb_true_r|].
  rewrite (bits_above w m) by (done || lia). by rewrite !andb_false_r.
Qed.

Lemma in_u_lor w x y : 0 <= w -> in_u w x -> in_u w y -> in_u w (Z.lor x y).
Proof.
  intros Hw Hx Hy. assert (Z.lor x y = wrap w (Z.lor x y)) as ->; [|by apply wrap_range].
  apply bits_eq. intros i Hi. rewrite testbit_wrap, Z.lor_spec by lia. destruct (Z.ltb_spec i w); [by rewrite andb_true_r|].
  by rewrite (bits_above w x), (bits_above w y) by (done || lia).
Qed.

Lemma in_u_shiftl w n x : 0 <= n <= w -> in_u (w - n) x -> in_u w (Z.shiftl x n).
Proof.
  intros Hn [H1 H2]. rewrite Z.shiftl_mul_pow2 by lia. unfold in_u.
  replace w with ((w - n) + n) by lia. rewrite Z.pow_add_r by lia.
  pose proof (Z.pow_pos_nonneg 2 n). nia.
Qed.

Lemma in_u_shiftr w n x : 0 <= n -> 0 <= w -> in_u (w + n) x -> in_u w (Z.shiftr x n).
Proof.
  intros Hn Hw [H1 H2]. rewrite Z.pow_add_r in H2 by done. pose proof (Z.pow_pos_nonneg 2 n). unfold in_u.
  rewrite Z.shiftr_div_pow2 by done. split; [apply Z.div_pos; lia | apply Z.div_lt_upper_bound; lia].
Qed.

Lemma in_u_bits w b lo m : in_u w m -> in_u w (bits b lo m).
Proof. apply in_u_land. Qed.

Lemma in_u_b2z w b : 0 < w -> in_u w (Z.b2z b).
Proof. intros Hw. pose proof (Z.pow_le_mono_r 2 1 w). destruct b; unfold in_u; cbn [Z.b2z]; lia. Qed.

Lemma in_s_of_u w x : in_u (w - 1) x -> in_s w x.
Proof. unfold in_u, in_s. lia. Qed.

Lemma in_s_sext w b x : 0 < b <= w -> in_u b x -> in_s w (sext x b).
Proof.
  intros Hb Hx. rewrite sext_swrap by (done || lia). pose proof (swrap_range b x) as H.
  unfold in_s in *. pose proof (Z.pow_le_mono_r 2 (b - 1) (w - 1)). lia.
Qed.

Lemma in_s_scale w w' k x : 0 < w -> 0 < k -> k * 2 ^ (w - 1) <= 2 ^ (w' - 1) -> in_s w x -> in_s w' (k * x).
Proof. unfold in_s. generalize (2 ^ (w - 1)) (2 ^ (w' - 1)). intros P P' _ Hk Hle [H1 H2]. nia. Qed.

(** Products of small constants and fields. *)
Lemma in_u_mul w w' k x : in_u w' x -> 0 < k -> k * 2 ^ w' <= 2 ^ w -> in_u w (k * x).
Proof. unfold in_u. generalize (2 ^ w) (2 ^ w'). intros P P' [H1 H2] Hk Hle. nia. Qed.

Lemma in_u_prod a b w x y : 0 <= a -> 0 <= b -> a + b <= w -> in_u a x -> in_u b y -> in_u w (x * y).
Proof.
  intros Ha Hb Hw Hx Hy. apply in_u_le with (a + b); [done|]. unfold in_u in *.
  rewrite Z.pow_add_r by done. nia.
Qed.

(** A range without variables, by computation. *)
Ltac has_var := match goal with |- context [?v] => is_var v end.
Ltac closed_range := tryif has_var then fail else solve [split; vm_compute; (reflexivity || discriminate)].

(** A field that a switch has replaced. *)
Ltac field_of_hyp := match goal with H : bits _ _ _ = ?x |- in_u _ ?x => rewrite <- H end.

(** [in_u w e] by the structure of [e]; a test is split, a field is bounded by
    its mask. *)
Ltac range :=
  lazymatch goal with
  | |- in_u _ (match ?c with _ => _ end) => destruct c; range
  | |- in_s _ (match ?c with _ => _ end) => destruct c; range
  | |- in_u _ (Z.lor _ _) => apply in_u_lor; [lia | range | range]
  | |- in_u _ (Z.land _ _) => apply in_u_land; closed_range
  | |- in_u _ (bits _ _ _) => apply in_u_bits; closed_range
  | |- in_u _ (Z.b2z _) => apply in_u_b2z; lia
  | |- in_u _ (wrap 64 _) => apply wrap_range; lia
  | |- in_u 32 (wrap 32 _) => apply wrap_range; lia
  | |- in_s 64 (swrap 64 _) => apply swrap_range; lia
  | |- in_s 32 (swrap 32 _) => apply swrap_range; lia
  | |- in_u _ (Z.shiftl _ (if ?c then _ else _)) => destruct c; range
  | |- in_u _ (Z.shiftl _ _) => first [closed_range | apply in_u_shiftl; [lia | range]]
  | |- in_u _ (Z.shiftr _ _) => apply in_u_shiftr; [lia | lia | range]
  | |- in_u _ (regRm _) => unfold regRm; range
  | |- in_u _ (_ * _) =>
      first [solve [unfold in_u in *; lia] | apply (in_u_prod 16 16); [lia | lia | lia | range | range]]
  | |- in_s _ (_ * sext _ ?n) => apply (in_s_scale n); [lia | lia | lia | range]
  | |- in_u _ _ => first [closed_range | assumption | field_of_hyp; range | solve [unfold in_u in *; lia]]
  | |- in_s _ (sext _ _) => apply in_s_sext; [lia | range]
  | |- in_s _ _ => first [closed_range | assumption | apply in_s_of_u; range | solve [unfold in_u, in_s in *; lia]]
  end.

(** ** Registers and flags *)

Lemma wf_reg_0 : wf_reg 0.
Proof. left. lia. Qed.

Lemma wf_reg_bits b lo m : 0 <= m < 32 -> wf_reg (bits b lo m).
Proof. intros Hm. left. apply (in_u_bits 5). exact Hm. Qed.

Lemma wf_reg_land b m : 0 <= m < 32 -> wf_reg (Z.land b m).
Proof. intros Hm. left. apply (in_u_land 5). exact Hm. Qed.

Lemma wf_reg_SP r : wf_reg r -> wf_reg (if r =? 31 then STACK_POINTER else r).
Proof. intros Hr. destruct (_ =? _); [by right | done]. Qed.

Lemma wf_regRd b : wf_reg (regRd b).
Proof. by apply wf_reg_bits. Qed.
Lemma wf_regRn b : wf_reg (regRn b).
Proof. by apply wf_reg_bits. Qed.
Lemma wf_regRm b : wf_reg (regRm b).
Proof. by apply wf_reg_bits. Qed.
Lemma wf_regRdSP b : wf_reg (regRdSP b).
Proof. apply wf_reg_SP, wf_regRd. Qed.
Lemma wf_regRnSP b : wf_reg (regRnSP b).
Proof. apply wf_reg_SP, wf_regRn. Qed.
Lemma wf_regRmSP b : wf_reg (regRmSP b).
Proof. apply wf_reg_SP, wf_regRm. Qed.

Lemma in_u_set_cond f c : in_u 8 (set_cond f c).
Proof. unfold set_cond. range. Qed.
Lemma in_u_set_addrmode f m : in_u 8 (set_addrmode f m).
Proof. unfold set_addrmode. range. Qed.
Lemma in_u_set_mem_extend f e : in_u 8 (set_mem_extend f e).
Proof. unfold set_mem_extend. range. Qed.
Lemma in_u_set_vec_arrangement f va : in_u 8 (set_vec_arrangement f va).
Proof. unfold set_vec_arrangement. range. Qed.
Lemma in_u_set_prec f p : in_u 8 (set_prec f p).
Proof. unfold set_prec. range. Qed.
Lemma in_u_flag f g : in_u 8 f -> in_u 8 g -> in_u 8 (Z.lor f g).
Proof. by apply in_u_lor. Qed.

Lemma wf_error e : wf_inst (errinst e).
Proof. split; cbn; try apply wf_reg_0; [closed_range | done]. Qed.

Lemma wf_unknown : wf_inst UNKNOWN_INST.
Proof. split; cbn; try apply wf_reg_0; closed_range. Qed.

Lemma wf_make o f d n m v :
  in_u 8 f -> wf_reg d -> wf_reg n -> wf_reg m -> wf_operand v -> wf_inst (mkInst o f d n m v).
Proof. by split. Qed.

Create HintDb wf discriminated.
#[export] Hint Constants Opaque : wf.
#[export] Hint Resolve wf_reg_0 wf_regRd wf_regRn wf_regRm wf_regRdSP wf_regRnSP wf_regRmSP in_u_set_cond in_u_set_addrmode in_u_set_mem_extend
  in_u_set_vec_arrangement in_u_set_prec in_u_flag wf_error wf_unknown : wf.
#[export] Hint Extern 1 (wf_reg (bits _ _ _)) => apply wf_reg_bits; lia : wf.
#[export] Hint Extern 1 (wf_reg (Z.land _ _)) => apply wf_reg_land; lia : wf.
#[export] Hint Extern 1 (wf_reg (if ?c then _ else _)) => destruct c : wf.
#[export] Hint Extern 1 (in_u 8 (match ?c with _ => _ end)) => destruct c : wf.
#[export] Hint Extern 2 (in_u 8 _) => closed_range : wf.

(** An instruction by its parts: flags and registers by hints, the operand by
    [range]. *)
Ltac wf_parts := cbv zeta; apply wf_make; [auto with wf .. | cbn [wf_operand]; split_and?; try done; try range].

(** The branches of a switch, only where the choice is of the instruction. *)
Ltac wf_switch :=
  cbv beta zeta;
  repeat lazymatch goal with
    |- wf_inst (match ?x with _ => _ end) => let E := fresh "E" in destruct x eqn:E
  end.
Ltac wf_cases := wf_switch; first [apply wf_error | apply wf_unknown | wf_parts].

(** ** The integer groups *)

Lemma in_u_width t : in_u 8 (width_flag t).
Proof. unfold width_flag. range. Qed.
Lemma in_u_s_flag t f : in_u 8 f -> in_u 8 (s_flag t f).
Proof. intros H. unfold s_flag. destruct (_ =? _); [done|]. by apply in_u_flag. Qed.
#[export] Hint Resolve in_u_width in_u_s_flag : wf.

Lemma dpi_pcrel_wf b t : wf_inst (dpi_pcrel b t).
Proof. unfold dpi_pcrel. wf_parts. Qed.

Lemma dpi_addsub_wf b t f : in_u 8 f -> wf_inst (dpi_addsub b t f).
Proof. intros Hf. unfold dpi_addsub. wf_parts. Qed.

Lemma dpi_move_wf b t f : in_u 8 f -> wf_inst (dpi_move b t f).
Proof.
  intros Hf. unfold dpi_move.
  assert (in_u 64 (Z.shiftl (bits b 5 65535) (16 * bits b 21 3))) as Hs.
  { assert (0 <= bits b 21 3 < 4) by (apply (in_u_bits 2); closed_range).
    apply in_u_shiftl; [lia|]. apply in_u_le with 16; [lia | range]. }
  wf_cases; (apply in_u_mul with 2; [range | lia | lia]).
Qed.

Lemma find_bfm_alias_wf o w32 rd_ rn_ immr imms :
  wf_reg rd_ -> wf_reg rn_ -> in_u 6 immr -> in_u 6 imms -> wf_inst (find_bfm_alias o w32 rd_ rn_ immr imms).
Proof.
  intros Hd Hn Hr Hs. unfold find_bfm_alias. cbv zeta.
  assert (in_u 32 (imms + 1)) by (unfold in_u in *; lia).
  repeat case_match; first [apply wf_error | wf_parts]; unfold in_u in *; lia.
Qed.

Lemma dpi_bitfield_wf b t f : wf_inst (dpi_bitfield b t f).
Proof.
  unfold dpi_bitfield. repeat case_match; try apply wf_error; apply find_bfm_alias_wf; auto with wf; range.
Qed.

Lemma dpi_extract_wf b f : in_u 8 f -> wf_inst (dpi_extract b f).
Proof. intros Hf. unfold dpi_extract. wf_cases. Qed.

Lemma br_wf b t :
  wf_inst (br_exception b) /\ wf_inst (br_msr b) /\ wf_inst (br_sys b) /\ wf_inst (br_pstate b) /\
  wf_inst (br_barrier b) /\ wf_inst (br_uncond_reg b) /\ wf_inst (br_uncond b) /\ wf_inst (br_cond b) /\
  wf_inst (br_cmp b t) /\ wf_inst (br_test b t).
Proof.
  unfold br_exception, br_msr, br_sys, br_pstate, br_barrier, br_uncond_reg, br_uncond, br_cond, br_cmp, br_test.
  split_and!; wf_cases.
Qed.

Lemma branches_wf b : wf_inst (branches b).
Proof.
  unfold branches, br_system. cbv zeta. destruct (br_wf b (bits b 25 127)) as (?&?&?&?&?&?&?&?&?&?).
  repeat case_match; try apply wf_unknown; try done. wf_parts.
Qed.

Lemma dpr_wf b t f : in_u 8 f ->
  wf_inst (dpr_2 b t f) /\ wf_inst (dpr_1 b f) /\ wf_inst (dpr_logical b t f) /\
  wf_inst (dpr_addsub_shifted b t f) /\ wf_inst (dpr_addsub_ext b t f) /\ wf_inst (dpr_carry b t f) /\
  wf_inst (dpr_ccmp b t f) /\ wf_inst (dpr_3 b t f).
Proof.
  intros Hf. unfold dpr_2, dpr_1, dpr_logical, dpr_addsub_shifted, dpr_addsub_ext, dpr_carry, dpr_ccmp, dpr_3.
  split_and!; wf_cases.
Qed.

Lemma csel_alias_wf i : wf_inst i -> wf_inst (csel_alias i).
Proof.
  intros H. unfold csel_alias. cbv zeta.
  assert (forall o, wf_inst (mkInst o (invert_cond (flags i)) (rd i) (rn i) (rm i) (operand i))) as Hi
    by (intros o; destruct H; split; try done; apply in_u_set_cond).
  destruct (_ && _); [destruct (op i); auto|]. destruct (_ =? _); [destruct (op i); auto | done].
Qed.

Lemma data_proc_reg_wf b : wf_inst (data_proc_reg b).
Proof.
  unfold data_proc_reg. cbv zeta.
  destruct (dpr_wf b (bits b 29 7) _ (in_u_width (bits b 29 7))) as (?&?&?&?&?&?&?&?).
  assert (wf_inst (dpr_csel b (width_flag (bits b 29 7)))).
  { unfold dpr_csel. repeat case_match; first [apply wf_unknown | apply csel_alias_wf; wf_parts]. }
  repeat case_match; done || apply wf_unknown.
Qed.

(** ** Loads and stores *)

Lemma ls_simd_mult_wf b f : wf_inst (ls_simd_mult b f).
Proof.
  unfold ls_simd_mult. destruct (simd_mult_op _ _) as [o n] eqn:E.
  assert (in_u 3 n) by (unfold simd_mult_op in E; repeat case_match; simplify_eq; closed_range).
  wf_parts.
Qed.

Lemma ls_simd_single_wf b f : wf_inst (ls_simd_single b f).
Proof.
  unfold ls_simd_single. destruct (simd_single_op _ _ _ _) as [o n].
  assert (in_u 3 (simd_single_nreg o)) by (destruct o; split; done).
  wf_parts.
Qed.

Lemma ls_wf b f n : in_u 8 f ->
  wf_inst (ls_exclusive b f) /\ wf_inst (ls_literal b f) /\ wf_inst (ls_pair n b f) /\
  wf_inst (ls_prfm n b f) /\ wf_inst (ls_atomic b f).
Proof.
  intros Hf. unfold ls_exclusive, ls_literal, ls_pair, ls_prfm, ls_atomic. split_and!; wf_cases.
Qed.

Lemma ls_address_wf n b o f k s : in_u 8 f -> in_u 5 k -> in_u 3 s -> wf_inst (ls_address n b o f k s).
Proof. intros Hf Hk Hs. unfold ls_address. wf_cases. Qed.

Lemma ls_register_wf n b f : in_u 8 f -> wf_inst (ls_register n b f).
Proof.
  intros Hf. unfold ls_register, ls_scale.
  wf_switch; first [apply wf_error | apply ls_address_wf; first [range | auto with wf] | by apply ls_wf].
Qed.

Lemma loads_and_stores_wf b : wf_inst (loads_and_stores b).
Proof.
  unfold loads_and_stores. destruct (ls_kind b) as [[k f]|] eqn:E; [|apply wf_error].
  assert (in_u 8 f) as Hf.
  { unfold ls_kind, ls_kind_many in E. clear -E.
    repeat case_match; simplify_eq; first [apply in_u_set_addrmode | closed_range]. }
  destruct (ls_wf b f true Hf) as (?&?&?&?&?), (ls_wf b f false Hf) as (?&?&?&?&?).
  destruct k; auto using ls_simd_mult_wf, ls_simd_single_wf, ls_register_wf with wf.
Qed.

(** ** Floating point *)

Lemma vfp_expand_imm_range x : in_u 64 (vfp_expand_imm x).
Proof. unfold vfp_expand_imm. range. Qed.

Lemma fp_start_wf b : wf_inst (fp_start b).
Proof. unfold fp_start. wf_cases. Qed.

Section Fp.
Context (err_addr : string -> Z) (Herr : forall e, in_u 64 (err_addr e)).

Lemma union_high_range v : in_u 32 (union_high err_addr v).
Proof. destruct v; cbn [union_high]; try closed_range. apply in_u_shiftr; [lia | lia | apply Herr]. Qed.

Section Kinds.
Context (b : Z) (i : Inst) (Hi : wf_inst i).

Lemma fp_convfixed_wf : wf_inst (fp_convfixed err_addr b i).
Proof.
  destruct Hi. unfold fp_convfixed, sf_flag. destruct (convfixed_op _ _ _) as [o s] eqn:E.
  assert (in_u 16 s).
  { pose proof (union_high_range (operand i)) as Hh. unfold convfixed_op in E.
    repeat case_match; simplify_eq; first [closed_range | by apply in_u_shiftr]. }
  assert (in_u 6 (bits b 10 63)) by range. wf_parts.
Qed.

Lemma fp_convint_wf : wf_inst (fp_convint err_addr b i).
Proof. destruct Hi. unfold fp_convint, sf_flag. wf_cases. Qed.

Lemma fp_dataproc1_wf : wf_inst (fp_dataproc1 err_addr b i).
Proof. destruct Hi. pose proof (union_high_range (operand i)). unfold fp_dataproc1. wf_cases. Qed.

Lemma fp_others_wf :
  wf_inst (fp_dataproc3 b i) /\ wf_inst (fp_compare b i) /\ wf_inst (fp_immediate b i) /\
  wf_inst (fp_condcompare b i) /\ wf_inst (fp_dataproc2 b i) /\ wf_inst (fp_condselect b i).
Proof.
  destruct Hi. pose proof (vfp_expand_imm_range (bits b 13 0xff)).
  unfold fp_dataproc3, fp_compare, fp_immediate, fp_condcompare, fp_dataproc2, fp_condselect. split_and!; wf_cases.
Qed.
End Kinds.

Lemma scalar_floating_point_wf b : wf_inst (scalar_floating_point err_addr b).
Proof.
  pose proof (fp_start_wf b) as H. destruct (fp_others_wf b _ H) as (?&?&?&?&?&?).
  unfold scalar_floating_point. destruct (fp_kind b);
    auto using fp_convfixed_wf, fp_convint_wf, fp_dataproc1_wf with wf.
Qed.
End Fp.

(** ** Vectors *)

(** The shift amount: the field less the element size, or twice the element
    size less the field. *)
Definition shift_ok (l : bool) (x : Z) : bool :=
  match shift_size (Z.shiftr x 3) with
  | Some z =>
      bool_decide (0 <= z < 4 /\ 8 * 2 ^ z <= x < 16 * 2 ^ z) &&
      (shift_amount l z x =? (if l then x - 8 * 2 ^ z else 16 * 2 ^ z - x))
  | None => true
  end.

Lemma shift_ok_all l x : 0 <= x < 128 -> shift_ok l x = true.
Proof. apply (seqZ_all (shift_ok l) 0 128). destruct l; vm_compute; reflexivity. Qed.

Lemma shift_field b l z :
  shift_size (bits b 19 15) = Some z ->
  0 <= z < 4 /\ 8 * 2 ^ z <= bits b 16 127 < 16 * 2 ^ z /\
  shift_amount l z (bits b 16 127) = if l then bits b 16 127 - 8 * 2 ^ z else 16 * 2 ^ z - bits b 16 127.
Proof.
  assert (bits b 19 15 = Z.shiftr (bits b 16 127) 3) as ->.
  { rewrite (bits_at _ _ _ 4), (bits_at _ _ _ 7), Z.shiftr_div_pow2 by done.
    change (2 ^ 19) with (2 ^ 16 * 2 ^ 3). rewrite <- Zdiv_Zdiv by done.
    generalize (b / 2 ^ 16). intros y. zdm. }
  intros E. pose proof (shift_ok_all l (bits b 16 127)) as H. unfold shift_ok in H. rewrite E in H.
  apply andb_true_iff in H as [H1 H2]; [|apply (in_u_bits 7); closed_range].
  apply bool_decide_eq_true in H1 as [??]. apply Z.eqb_eq in H2. done.
Qed.

Lemma in_u_or_flag c g f : in_u 8 g -> in_u 8 f -> in_u 8 (or_flag c g f).
Proof. intros. unfold or_flag. apply in_u_flag; [done|]. by destruct c. Qed.
#[export] Hint Resolve in_u_or_flag : wf.

Lemma in_u_sgn_sca U s x y f : in_u 8 f -> in_u 8 (sgn_sca U s x y f).
Proof. intros. unfold sgn_sca. auto 6 with wf. Qed.
#[export] Hint Resolve in_u_sgn_sca : wf.

Lemma in_u_finish U s Q z c : in_u 8 (c_flags c) -> in_u 8 (finish_flags U s Q z c).
Proof. intros. unfold finish_flags. auto with wf. Qed.
#[export] Hint Resolve in_u_finish : wf.

Section Simd.
Context (b f : Z) (Hf : in_u 8 f) (U scalar Q : bool) (size : Z).

Lemma simd_small_wf :
  wf_inst (simd_table b f) /\ wf_inst (simd_permute b f) /\ wf_inst (simd_extract Q b f) /\
  wf_inst (simd_three_same_extra U scalar b f).
Proof.
  unfold simd_table, simd_permute, simd_extract, simd_three_same_extra, rotation.
  assert (in_u 3 (bits b 13 3 + 1)) by (assert (in_u 2 (bits b 13 3)) by range; unfold in_u in *; lia).
  split_and!; wf_cases.
Qed.

Lemma copy_index_range imm5 i p : in_u 5 imm5 -> copy_index imm5 = Some (i, p) -> in_u 5 i /\ in_u 2 p.
Proof.
  intros Hi H. unfold copy_index in H.
  repeat case_match; simplify_eq; (split; [|closed_range]); (apply in_u_shiftr; [lia | lia|]);
    apply in_u_le with 5; (done || lia).
Qed.

Lemma simd_copy_wf : wf_inst (simd_copy scalar Q b f).
Proof.
  unfold simd_copy. destruct (copy_index _) as [[i p]|] eqn:E; [|apply wf_error].
  apply copy_index_range in E as [Hi Hp]; [|range]. unfold copy_ins_elem, copy_general.
  assert (in_u 32 (Z.shiftr (bits b 11 15) p)).
  { apply in_u_shiftr; [apply Hp | lia|]. apply in_u_le with 4; [destruct Hp; lia | range]. }
  wf_switch; first [apply wf_error | wf_parts; auto 7 with wf].
Qed.

Lemma simd_two_reg_misc_wf : wf_inst (simd_two_reg_misc U scalar Q size b f).
Proof.
  unfold simd_two_reg_misc. destruct (two_reg_misc _ _ _ _ _) as [c|] eqn:E; [|apply wf_error].
  assert (in_u 8 (c_flags c) /\ wf_operand (c_operand c)) as [Hc Hv].
  { unfold two_reg_misc in E. clear -E Hf. repeat case_match; simplify_eq; cbn [c_flags c_operand wf_operand];
      split_and?; first [range | auto with wf]. }
  wf_parts. destruct (_ && _); [|done]. unfold set_fcvt_sgn.
  destruct (c_operand c); cbn [wf_operand] in *; split_and?; first [range | tauto].
Qed.

Lemma simd_reduce_wf : wf_inst (simd_reduce U scalar Q size b f).
Proof.
  unfold simd_reduce. destruct (reduce_choice _ _ _ _ _) as [[o sgn] va]. wf_parts.
Qed.

Lemma simd_three_diff_wf : wf_inst (simd_three_diff U scalar Q size b f).
Proof.
  unfold simd_three_diff. destruct (three_diff _ _ _) as [c|] eqn:E; [|apply wf_error].
  assert (in_u 8 (c_flags c)).
  { unfold three_diff in E. clear -E Hf. repeat case_match; simplify_eq; cbn [c_flags]; auto with wf. }
  wf_parts.
Qed.

Lemma simd_three_same_wf : wf_inst (simd_three_same U scalar Q size b f).
Proof.
  unfold simd_three_same. cbv zeta. apply wf_make; auto with wf; [|closed_range].
  apply in_u_finish. unfold three_same. repeat case_match; cbn [c_flags]; auto with wf.
Qed.

Lemma simd_modified_imm_wf : wf_inst (simd_modified_imm Q b f).
Proof.
  unfold simd_modified_imm, byte_mask. cbv zeta.
  set (imm8 := Z.lor _ _). assert (in_u 8 imm8) by (unfold imm8; range). clearbody imm8.
  pose proof (vfp_expand_imm_range imm8).
  assert (in_u 64 (Z.shiftl imm8 (8 * Z.land (Z.shiftr (bits b 12 15) 1) 3))) as Hz.
  { assert (in_u 2 (Z.land (Z.shiftr (bits b 12 15) 1) 3)) as [? ?] by range.
    apply in_u_shiftl; [lia|]. apply in_u_le with 8; [lia | done]. }
  generalize dependent (Z.shiftl imm8 (8 * Z.land (Z.shiftr (bits b 12 15) 1) 3)). intros sh Hz.
  wf_cases.
Qed.

Lemma simd_shift_imm_wf : wf_inst (simd_shift_imm U scalar Q b f).
Proof.
  unfold simd_shift_imm. destruct (shift_choice _ _ _) as [[[[[o f'] sgn] sca] l]|]; [|apply wf_error].
  destruct (shift_size _) as [z|] eqn:E; [|destruct (_ =? _); apply wf_error].
  apply (shift_field b l) in E as (_ & Hx & ->). assert (in_u 16 (if l then bits b 16 127 - 8 * 2 ^ z else 16 * 2 ^ z - bits b 16 127)).
  { assert (in_u 7 (bits b 16 127)) by range. destruct l; unfold in_u in *; lia. }
  wf_parts. destruct (is_cvt o); cbn [wf_operand]; split_and?; range.
Qed.

Lemma elem_hlm_range : in_u 3 (elem_hlm b).
Proof. unfold elem_hlm. range. Qed.

Lemma simd_indexed_wf : wf_inst (simd_indexed U scalar Q size b f).
Proof.
  unfold simd_indexed, elem_fcmla, rotation. pose proof elem_hlm_range as Hh.
  generalize dependent (elem_hlm b). intros hlm Hh. cbv zeta.
  assert (forall n, 0 <= n -> in_u 3 (Z.shiftr hlm n)) as Hs
    by (intros n Hn; apply in_u_shiftr; [done | lia | apply in_u_le with 3; [lia | done]]).
  pose proof (Hs 1 ltac:(lia)) as H1. pose proof (Hs 2 ltac:(lia)) as H2.
  assert (in_u 3 (elem_index size hlm)) as Hi by (unfold elem_index; repeat destruct (_ =? _); done).
  destruct (_ && _); [wf_parts|].
  destruct (elem_choice _ _ _ _ _ _ _) as [[[[[o f'] imm] sh] sgn] sca] eqn:E.
  assert (in_u 8 f' /\ in_u 3 imm) as [Hf' Himm]
    by (clear -E Hf Hi Hh H1 H2; unfold elem_choice in E; repeat case_match; simplify_eq; split; auto with wf).
  wf_parts.
Qed.
End Simd.

Lemma decode_simd_wf b : wf_inst (decode_simd b).
Proof.
  unfold decode_simd. cbv zeta. set (f := set_vec_arrangement _ _).
  assert (in_u 8 f) as Hf by apply in_u_set_vec_arrangement. clearbody f.
  destruct (simd_small_wf b f Hf (bit b 29) (bit b 28) (bit b 30)) as (?&?&?&?).
  destruct (simd_kind b); auto using simd_copy_wf, simd_two_reg_misc_wf, simd_reduce_wf, simd_three_diff_wf,
    simd_three_same_wf, simd_modified_imm_wf, simd_shift_imm_wf, simd_indexed_wf with wf.
Qed.

(** ** The decoder *)

Section Decoder.
Context (shl64 : Z -> Z) (Hshl : forall x, in_u 64 x -> in_u 64 (shl64 x)).
Context (err_addr : string -> Z) (Herr : forall e, in_u 64 (err_addr e)).

Lemma shl_range x n : in_u 64 x -> in_u 64 (shl shl64 x n).
Proof. intros Hx. unfold shl. destruct (_ <? _); [range | by apply Hshl]. Qed.

Lemma replicate_range k z e acc : in_u 64 acc -> in_u 64 (replicate_elem k z e acc).
Proof. revert acc. induction k as [|k IH]; intros acc H; [done|]. cbn [replicate_elem]. apply IH. range. Qed.

Lemma decode_bitmask_range N s r w mask : decode_bitmask shl64 N s r w = Some mask -> in_u 64 mask.
Proof.
  unfold decode_bitmask. destruct (highest_bit _) as [len|]; [|done]. cbv zeta.
  set (lv := push_ones (Z.to_nat len) 0). set (S_ := Z.land (Z.land s 63) lv).
  assert (in_u 6 S_) as HS by (unfold S_; rewrite Z.land_comm, Z.land_assoc; range).
  assert (in_u 6 (Z.land (Z.land r 63) lv)) as HR by (rewrite Z.land_comm, Z.land_assoc; range).
  destruct (Z.eqb_spec (Z.shiftl 1 len) 64) as [E64|_]; intros [= <-].
  - apply in_u_lor; [lia | apply shl_range; closed_range |]. rewrite E64. unfold ror. cbn [Z.eqb Pos.eqb].
    assert (in_u 64 (push_ones (Z.to_nat (S_ + 1)) 0)) as Hx.
    { rewrite push_ones_0 by (unfold in_u in HS; lia). unfold in_u in *. rewrite Z.ones_equiv.
      pose proof (Z.pow_le_mono_r 2 (S_ + 1) 64). pose proof (Z.pow_pos_nonneg 2 (S_ + 1)). lia. }
    apply in_u_lor; [lia | | by apply shl_range]. apply in_u_shiftr; [apply HR | lia |].
    apply in_u_le with 64; [destruct HR; lia | done].
  - apply replicate_range. closed_range.
Qed.

Lemma data_proc_imm_wf b i : data_proc_imm shl64 b = Some i -> wf_inst i.
Proof.
  assert (forall t f, in_u 8 f -> dpi_logic shl64 b t f = Some i -> wf_inst i) as Hl.
  { intros t f Hf H. unfold dpi_logic in H. apply bind_Some in H as (mask & Hm & [= <-]).
    apply decode_bitmask_range in Hm. wf_parts. }
  intros H. unfold data_proc_imm in H. cbv zeta in H.
  repeat case_match; simplify_eq;
    eauto using dpi_pcrel_wf, dpi_addsub_wf, dpi_move_wf, dpi_bitfield_wf, dpi_extract_wf with wf.
Qed.

Lemma decode_group_wf b i : decode_group shl64 err_addr b = Some i -> wf_inst i.
Proof.
  intros H. unfold decode_group in H.
  repeat case_match; simplify_eq;
    eauto using data_proc_imm_wf, branches_wf, loads_and_stores_wf, data_proc_reg_wf with wf; try (wf_parts; fail).
  all: unfold data_proc_float_and_simd; repeat case_match;
    auto using scalar_floating_point_wf, decode_simd_wf with wf.
Qed.
End Decoder.
