(* ===== verification/FarmdecDecodeProofs.v ===== *)
(** * What [fad_decode] returns

    Which words the decoder defines a result for, what the output buffer holds
    afterwards, that every instruction in it is well formed, and when an error
    comes with its text. *)

From Stdlib Require Import ZArith Lia String.
From stdpp Require Import base numbers list.
From S2P Require Import Prelude Farmdec FarmdecProofs FarmdecMem FarmdecFp FarmdecSimd FarmdecDecode FarmdecWf.

(** ** Reserved bit masks *)

(** The logical instructions with immediates whose element would have no size:
    [100100] in bits 23-28, [imms] all ones, and [N] zero or ignored. *)
Definition reserved_mask (b : Z) : bool :=
  (bits b 23 63 =? 36) && (bits b 10 63 =? 63) && negb (bit b 22 && bit b 31).

Section Reserved.
Context (shl64 : Z -> Z) (err_addr : string -> Z).

Lemma decode_bitmask_none N s r w :
  in_u 1 N -> in_u 6 s -> decode_bitmask shl64 N s r w = None <-> N = 0 /\ s = 63.
Proof.
  intros HN Hs. unfold decode_bitmask, highest_bit. cbv zeta. unfold in_u in *.
  rewrite concat_mask by lia. destruct (Z.eqb_spec (64 * N + (63 - s)) 0); [split; [lia | done]|].
  split; [|lia]. destruct (_ =? 64); discriminate.
Qed.

Lemma top3_wide b : (Z.land (bits b 29 7) 4 =? 0) = negb (bit b 31).
Proof.
  rewrite bit_at, negb_involutive by done. rewrite (bits_at b 29 7 3) by done.
  assert ((b / 2 ^ 31) `mod` 2 = (b / 2 ^ 29) `mod` 2 ^ 3 / 4) as ->.
  { change (2 ^ 31) with (2 ^ 29 * 4). rewrite <- Zdiv_Zdiv by done. generalize (b / 2 ^ 29). intros y. zdm. }
  apply Bool.eqb_prop. apply (seqZ_all (fun t => Bool.eqb (Z.land t 4 =? 0) (t / 4 =? 0)) 0 8); [vm_compute; reflexivity|].
  apply Z.mod_pos_bound. lia.
Qed.

Lemma dpi_logic_none b :
  dpi_logic shl64 b (bits b 29 7) (width_flag (bits b 29 7)) = None <->
  bits b 10 63 = 63 /\ bit b 22 && bit b 31 = false.
Proof.
  unfold dpi_logic. cbv zeta.
  lazymatch goal with |- context [has_flag ?fl W32] =>
    assert (has_flag fl W32 = negb (bit b 31)) as -> by (unfold width_flag; rewrite top3_wide; by destruct (_ =? 3), (bit b 31))
  end.
  lazymatch goal with |- context [decode_bitmask shl64 ?n _ ?r' _] => set (N := n); set (r := r') end.
  assert (in_u 1 N) as HN by (unfold N; range).
  assert (N = 0 <-> bit b 22 && bit b 31 = false) as EN.
  { unfold N, bit. destruct (negb (bits b 31 1 =? 0)); cbn [negb]; [|by rewrite andb_false_r].
    rewrite andb_true_r, negb_false_iff, Z.eqb_eq. done. }
  pose proof (decode_bitmask_none N (bits b 10 63) r (negb (bit b 31)) HN ltac:(range)) as H. revert H.
  destruct (decode_bitmask _ _ _ _ _) as [mask|]; intros H; rewrite EN in H; cbn [mbind option_bind] in *.
  - split; [done|]. intros [H1 H2]. by destruct H as [_ H]; discriminate H.
  - split; [|done]. intros _. destruct H as [[??] _]; done.
Qed.

Lemma data_proc_imm_none b :
  data_proc_imm shl64 b = None <->
  (bits b 22 15 = 8 \/ bits b 22 15 = 9) /\ bits b 10 63 = 63 /\ bit b 22 && bit b 31 = false.
Proof.
  unfold data_proc_imm. cbv zeta. pose proof (dpi_logic_none b) as Hl.
  split.
  - intros H. repeat case_match; try discriminate; (split; [lia | tauto]).
  - intros [[-> | ->] H]; tauto.
Qed.

(** A word has no defined decoding exactly if its bit mask is reserved. *)
Lemma decode_word_none b : decode_word shl64 err_addr b = None <-> reserved_mask b = true.
Proof.
  unfold decode_word, decode_group, reserved_mask.
  assert (bits b 23 63 = 36 <-> bits b 25 15 = 9 /\ (bits b 22 15 = 8 \/ bits b 22 15 = 9)) as E.
  { rewrite (bits_at b 23 63 6), (bits_at b 25 15 4), (bits_at b 22 15 4) by done.
    change (2 ^ 23) with (2 ^ 22 * 2). change (2 ^ 25) with (2 ^ 22 * 8). rewrite <- !Zdiv_Zdiv by done.
    generalize (b / 2 ^ 22). intros y. zdm. }
  assert (bits b 25 15 = 8 -> ~ (bits b 22 15 = 8 \/ bits b 22 15 = 9)) as E8.
  { rewrite (bits_at b 25 15 4), (bits_at b 22 15 4) by done.
    change (2 ^ 25) with (2 ^ 22 * 8). rewrite <- !Zdiv_Zdiv by done. generalize (b / 2 ^ 22). intros y. zdm. }
  rewrite !andb_true_iff, !Z.eqb_eq, negb_true_iff, E. pose proof (data_proc_imm_none b) as H. split.
  - repeat case_match; cbn [mbind option_bind]; try discriminate;
      (destruct (data_proc_imm shl64 b) eqn:E'; [discriminate|]); intros _; tauto.
  - intros [[[-> ?] ?] ?]. rewrite (proj2 H) by tauto. done.
Qed.

(** ** The loop *)

Lemma fad_decode_from_spec k i input out :
  (i + k <= length input)%nat -> (i + k <= length out)%nat ->
  Forall (fun b => reserved_mask b = false) (take k (drop i input)) ->
  exists insts,
    Forall2 (fun b inst => decode_word shl64 err_addr b = Some inst) (take k (drop i input)) insts /\
    fad_decode_from shl64 err_addr k i input out =
      Some (s32 (Z.of_nat (i + k)), take i out ++ insts ++ drop (i + k) out).
Proof.
  revert i out; induction k as [|k IH]; intros i out Hi Ho Hres.
  - exists []. rewrite take_0, Nat.add_0_r. split; [done|]. cbn [fad_decode_from app]. by rewrite take_drop.
  - destruct (lookup_lt_is_Some_2 input i) as [b Hb]; [lia|]. rewrite (drop_S _ b) in * by done. cbn [firstn] in *.
    apply Forall_cons in Hres as [Hb' Hres]. destruct (decode_word shl64 err_addr b) as [inst|] eqn:E.
    2: { apply decode_word_none in E. congruence. }
    destruct (IH (S i) (<[i := inst]> out)) as (insts & HF & Hd);
      [lia | rewrite length_insert; lia | done |].
    exists (inst :: insts). split; [by constructor|]. cbn [fad_decode_from]. rewrite Hb. cbn [mbind option_bind]. rewrite E.
    cbn [mbind option_bind]. rewrite (proj2 (Nat.ltb_lt _ _)) by lia. rewrite Hd. do 2 f_equal; [f_equal; lia|].
    rewrite drop_insert_lt, (take_S_r _ i inst), take_insert_ge by (rewrite ?list_lookup_insert_eq; (done || lia)).
    rewrite <- app_assoc. cbn [app]. by replace (S i + k)%nat with (i + S k)%nat by lia.
Qed.
End Reserved.

(** [fad_decode] on [n] words, none of which has a reserved bit mask, returns
    [n], leaves the decoding of each word at its place in the output buffer and
    keeps the rest of the buffer; and the reserved bit masks are the only words
    whose decoding C leaves undefined. *)
Theorem fad_decode_spec shl64 err_addr input n out :
  0 <= n < 2 ^ 31 -> n <= Z.of_nat (length input) -> n <= Z.of_nat (length out) ->
  let ws := take (Z.to_nat n) input in
  (Forall (fun b => reserved_mask b = false) ws ->
   exists insts,
     Forall2 (fun b inst => decode_word shl64 err_addr b = Some inst) ws insts /\
     fad_decode shl64 err_addr input n out = Some (n, insts ++ drop (Z.to_nat n) out)) /\
  (forall b, decode_word shl64 err_addr b = None <-> reserved_mask b = true).
Proof.
  intros Hn Hi Ho ws. split; [|apply decode_word_none]. intros Hres.
  destruct (fad_decode_from_spec shl64 err_addr (Z.to_nat n) 0 input out) as (insts & HF & Hd);
    [lia | lia | by rewrite drop_0 |].
  exists insts. rewrite drop_0 in HF. split; [done|]. unfold fad_decode. rewrite Hd. cbn [Nat.add take app].
  rewrite Z2Nat.id, swrap_small by (unfold in_s; lia). done.
Qed.

(** [ldr x1, [x2, #8]] and [nop] into a buffer of three; the and-immediate with
    all ones is undefined. *)
Lemma fad_decode_spec_witness :
  (exists insts, fad_decode id (fun _ => 0) [0xf9400441; 0xd503201f] 2 (replicate 3 UNKNOWN_INST) =
     Some (2, insts ++ [UNKNOWN_INST]) /\ length insts = 2%nat) /\
  decode_word id (fun _ => 0) 0x9200fc00 = None.
Proof.
  destruct (fad_decode_spec id (fun _ => 0) [0xf9400441; 0xd503201f] 2 (replicate 3 UNKNOWN_INST)) as [H1 H2];
    [lia | vm_compute; discriminate | vm_compute; discriminate |]. split.
  - destruct H1 as (insts & HF & E).
    + repeat constructor.
    + exists insts. split; [exact E|]. apply Forall2_length in HF. by rewrite <- HF.
  - apply H2. vm_compute. reflexivity.
Defined.

(** C37. Every instruction [fad_decode] stores is well formed: flags in their
    byte, register numbers below 32 or the stack pointer, and each member of
    the union within its C type.  Where the decoder computes in 32 bits, as for
    the fields of the bit-field aliases, this is the value after wrapping. *)
Theorem decode_well_formed shl64 err_addr b i :
  (forall x, in_u 64 x -> in_u 64 (shl64 x)) -> (forall e, in_u 64 (err_addr e)) -> in_u 32 b ->
  decode_word shl64 err_addr b = Some i -> wf_inst i.
Proof.
  intros Hshl Herr Hb H. unfold decode_word in H. apply bind_Some in H as (j & Hj & [= <-]).
  pose proof (decode_group_wf shl64 Hshl err_addr Herr b j Hj) as Hw. unfold keep_word.
  destruct (op j) eqn:E; try exact Hw. destruct Hw. apply wf_make; try done. cbn [wf_operand]. unfold in_u in *. lia.
Qed.

Lemma decode_well_formed_witness :
  exists i, decode_word id (fun _ => 0) 0xb9000fe0 = Some i /\ rn i = STACK_POINTER /\ wf_inst i.
Proof.
  eexists. split; [vm_compute; reflexivity|]. split; [reflexivity|].
  apply (decode_well_formed id (fun _ => 0) 0xb9000fe0).
  - intros x Hx. exact Hx.
  - intros e. split; [lia | reflexivity].
  - split; [lia | reflexivity].
  - vm_compute. reflexivity.
Defined.

(** ** Errors and their texts *)

(** A fixed-point conversion with an unallocated opcode and the unallocated
    precision. *)
Definition lost_error (b : Z) : bool :=
  (bits b 25 7 =? 7) && (bits b 28 5 =? 1) && negb (bit b 24) && negb (bit b 21) &&
  (bits b 22 3 =? 2) && (4 <=? bits b 16 7).

Definition has_text (v : Operand) : Prop := match v with UError _ => True | _ => False end.

(** An error has its text. *)
Definition texted (i : Inst) : Prop := op i = A64_ERROR -> has_text (operand i).

Lemma texted_make o f d n m v : o <> A64_ERROR -> texted (mkInst o f d n m v).
Proof. intros Ho H. by destruct Ho. Qed.

Lemma texted_error e : texted (errinst e).
Proof. done. Qed.

Lemma texted_unknown : texted UNKNOWN_INST.
Proof. done. Qed.

(** The operation is one of finitely many constants. *)
Ltac op_cases :=
  repeat lazymatch goal with |- (match ?x with _ => _ end) <> _ => destruct x end; discriminate.
Ltac text_cases :=
  cbv beta zeta;
  repeat lazymatch goal with |- texted (match ?x with _ => _ end) => destruct x end;
  lazymatch goal with
  | |- texted (mkInst _ _ _ _ _ _) => apply texted_make; op_cases
  | |- texted (errinst _) => apply texted_error
  | |- texted UNKNOWN_INST => apply texted_unknown
  end.

Lemma data_proc_imm_texted shl64 b i : data_proc_imm shl64 b = Some i -> texted i.
Proof.
  assert (forall t f, dpi_logic shl64 b t f = Some i -> texted i) as Hl.
  { intros t f H. unfold dpi_logic in H. apply bind_Some in H as (mask & _ & [= <-]). text_cases. }
  assert (forall o w d n r s, texted (find_bfm_alias o w d n r s)) as Hb
    by (intros; unfold find_bfm_alias; text_cases).
  intros H. unfold data_proc_imm in H. cbv zeta in H.
  unfold dpi_pcrel, dpi_addsub, dpi_move, dpi_bitfield, dpi_extract in H.
  repeat case_match; simplify_eq; eauto using texted_unknown, texted_error; apply texted_make; op_cases.
Qed.

Lemma branches_texted b : texted (branches b).
Proof.
  unfold branches, br_system, br_exception, br_msr, br_sys, br_pstate, br_barrier, br_uncond_reg, br_uncond, br_cond,
    br_cmp, br_test. text_cases.
Qed.

Lemma csel_alias_texted i : op i <> A64_ERROR -> texted (csel_alias i).
Proof.
  intros H. unfold csel_alias. cbv zeta. destruct (_ && _); [|destruct (_ =? _)]; destruct (op i) eqn:E;
    first [by apply texted_make | intros ?; congruence].
Qed.

Lemma dpr_3_texted b t f : texted (dpr_3 b t f).
Proof.
  assert (forall o, o <> A64_ERROR -> mul_alias o <> A64_ERROR) as Hm by (intros []; done).
  unfold dpr_3. cbv beta zeta.
  repeat lazymatch goal with |- texted (match ?x with _ => _ end) => destruct x end;
    first [apply texted_error | apply texted_make; destruct (_ =? ZERO_REG); [apply Hm|]; op_cases].
Qed.

Lemma dpr_texted b t f :
  texted (dpr_2 b t f) /\ texted (dpr_1 b f) /\ texted (dpr_logical b t f) /\
  texted (dpr_addsub_shifted b t f) /\ texted (dpr_addsub_ext b t f) /\ texted (dpr_carry b t f) /\
  texted (dpr_ccmp b t f) /\ texted (dpr_csel b f).
Proof.
  split_and!; [unfold dpr_2 | unfold dpr_1 | unfold dpr_logical | unfold dpr_addsub_shifted
    | unfold dpr_addsub_ext | unfold dpr_carry | unfold dpr_ccmp |]; try text_cases.
  unfold dpr_csel. cbv zeta. repeat case_match; first [apply texted_unknown | by apply csel_alias_texted].
Qed.

Lemma data_proc_reg_texted b : texted (data_proc_reg b).
Proof.
  unfold data_proc_reg. cbv zeta.
  destruct (dpr_texted b (bits b 29 7) (width_flag (bits b 29 7))) as (?&?&?&?&?&?&?&?).
  repeat case_match; auto using texted_unknown, dpr_3_texted.
Qed.

Lemma loads_and_stores_texted b : texted (loads_and_stores b).
Proof.
  assert (forall n f, texted (ls_register n b f)) as Hr
    by (intros; unfold ls_register, ls_address, ls_prfm; text_cases).
  unfold loads_and_stores. destruct (ls_kind b) as [[k f]|]; [|apply texted_error].
  destruct k.
  - unfold ls_simd_mult. destruct (simd_mult_op _ _) as [o n] eqn:E. apply texted_make.
    unfold simd_mult_op in E. repeat case_match; simplify_eq; discriminate.
  - unfold ls_simd_single. destruct (simd_single_op _ _ _ _) as [o n] eqn:E. apply texted_make.
    unfold simd_single_op in E. repeat case_match; simplify_eq; discriminate.
  - text_cases.
  - unfold ls_exclusive. text_cases.
  - unfold ls_literal. text_cases.
  - unfold ls_pair. text_cases.
  - unfold ls_pair. text_cases.
  - apply Hr.
  - apply Hr.
  - text_cases.
  - unfold ls_atomic, atomic_op. text_cases.
  - text_cases.
Qed.

Lemma decode_simd_texted b : texted (decode_simd b).
Proof.
  unfold decode_simd. cbv zeta. generalize (set_vec_arrangement 0 (arrangement (bits b 22 3) (bit b 30))). intros f.
  generalize (bits b 22 3). intros z. destruct (simd_kind b).
  - apply texted_error.
  - unfold simd_table. text_cases.
  - unfold simd_permute. text_cases.
  - unfold simd_extract. text_cases.
  - unfold simd_copy, copy_ins_elem, copy_general. text_cases.
  - unfold simd_three_same_extra. text_cases.
  - unfold simd_two_reg_misc. destruct (two_reg_misc _ _ _ _ _) as [c|] eqn:E; [|apply texted_error].
    apply texted_make. unfold two_reg_misc in E. repeat case_match; simplify_eq; discriminate.
  - unfold simd_reduce. destruct (reduce_choice _ _ _ _ _) as [[o sgn] va] eqn:E. apply texted_make.
    unfold reduce_choice in E. repeat case_match; simplify_eq; discriminate.
  - unfold simd_three_diff. destruct (three_diff _ _ _) as [c|] eqn:E; [|apply texted_error].
    apply texted_make. unfold three_diff in E. repeat case_match; simplify_eq; discriminate.
  - unfold simd_three_same. apply texted_make. unfold three_same. repeat case_match; discriminate.
  - unfold simd_modified_imm. text_cases.
  - unfold simd_shift_imm. destruct (shift_choice _ _ _) as [[[[[o f'] sgn] sca] l]|] eqn:E; [|apply texted_error].
    assert (o <> A64_ERROR) by (unfold shift_choice in E; repeat case_match; simplify_eq; discriminate).
    destruct (shift_size _); [by apply texted_make | destruct (_ =? _); apply texted_error].
  - unfold simd_indexed, elem_fcmla. cbv zeta. destruct (_ && _); [by apply texted_make|].
    destruct (elem_choice _ _ _ _ _ _ _) as [[[[[o f'] imm] sh] sgn] sca] eqn:E. apply texted_make.
    unfold elem_choice in E. repeat case_match; simplify_eq; discriminate.
Qed.

Lemma lost_error_group b :
  lost_error b = true ->
  (bits b 25 15 = 7 \/ bits b 25 15 = 15) /\
  (bits b 28 15 = 1 \/ bits b 28 15 = 3 \/ bits b 28 15 = 9 \/ bits b 28 15 = 11).
Proof.
  unfold lost_error. rewrite !andb_true_iff, !Z.eqb_eq. intros (((((H1 & H2) & _) & _) & _) & _). split.
  - rewrite (bits_at b 25 7 3) in H1 by done. rewrite (bits_at b 25 15 4) by done.
    revert H1. generalize (b / 2 ^ 25). intros y H1. zdm.
  - assert (Z.land (bits b 28 15) 5 = bits b 28 5) as E by (unfold bits; by rewrite <- Z.land_assoc).
    rewrite H2 in E. assert (0 <= bits b 28 15 < 16) as Hr by (apply (in_u_bits 4); closed_range).
    revert E Hr. generalize (bits b 28 15). intros y E Hy.
    pose proof (seqZ_all (fun y => implb (Z.land y 5 =? 1) ((y =? 1) || (y =? 3) || (y =? 9) || (y =? 11))) 0 16
      ltac:(vm_compute; reflexivity) y Hy) as H. cbv beta in H. rewrite E in H.
    cbn [Z.eqb Pos.eqb implb] in H. lia.
Qed.

Create HintDb text discriminated.
#[export] Hint Constants Opaque : text.
#[export] Hint Resolve texted_make texted_error texted_unknown data_proc_imm_texted branches_texted
  loads_and_stores_texted data_proc_reg_texted decode_simd_texted : text.
#[export] Hint Extern 1 (_ <> A64_ERROR) => discriminate : text.

Section Texts.
Context (err_addr : string -> Z).

Lemma fp_start_error b : op (fp_start b) = A64_ERROR <-> bits b 22 3 = 2.
Proof. unfold fp_start. split; [repeat case_match; discriminate || done | by intros ->]. Qed.

Lemma fp_kind_convfixed b : fp_kind b = ConvFixed <-> bit b 24 = false /\ bit b 21 = false.
Proof.
  unfold fp_kind. cbv zeta. destruct (bit b 24), (bit b 21); cbn [negb];
    (split; [|tauto || (intros []; discriminate)]); repeat case_match; discriminate || done.
Qed.

(** All kinds but one keep the text of an error. *)
Lemma scalar_fp_texted b : fp_kind b <> ConvFixed -> texted (scalar_floating_point err_addr b).
Proof.
  intros Hk. unfold scalar_floating_point. cbv zeta.
  assert (op (fp_start b) <> A64_ERROR \/ has_text (operand (fp_start b))) as Hs
    by (unfold fp_start; repeat case_match; cbn; (by right) || (by left)).
  generalize dependent (fp_start b). intros s Hs. destruct (fp_kind b).
  - apply texted_unknown.
  - unfold fp_dataproc3. text_cases.
  - by destruct Hk.
  - unfold fp_convint. text_cases.
  - unfold fp_dataproc1. text_cases.
  - unfold fp_compare. text_cases.
  - unfold fp_immediate. text_cases.
  - unfold fp_condcompare. text_cases.
  - unfold fp_dataproc2. intros H. cbn [op operand] in *. destruct Hs as [Hs|Hs]; [exfalso|done].
    repeat case_match; done.
  - unfold fp_condselect. text_cases.
Qed.

(** The kind that does not: the error of an unallocated precision is overwritten
    when the opcode is unallocated too. *)
Lemma convfixed_errors b :
  let i := fp_convfixed err_addr b (fp_start b) in
  (op i = A64_ERROR <-> bits b 22 3 = 2 /\ 4 <= bits b 16 7) /\ ~ has_text (operand i).
Proof.
  cbv zeta. unfold fp_convfixed. destruct (convfixed_op _ _ _) as [o s] eqn:E. cbn [op operand has_text]. split; [|tauto].
  rewrite <- fp_start_error. assert (0 <= bits b 16 7 < 8) as Hr by (apply (in_u_bits 3); closed_range).
  unfold convfixed_op in E. destruct (decide (4 <= bits b 16 7)).
  - repeat case_match; simplify_eq; try lia; tauto.
  - repeat case_match; simplify_eq; try lia; split; (discriminate || lia).
Qed.

(** What is claimed of a decoded instruction and its word. *)
Definition errors_ok (b : Z) (i : Inst) : Prop :=
  (op i = A64_ERROR -> has_text (operand i) <-> lost_error b = false) /\ (lost_error b = true -> op i = A64_ERROR).

Lemma texted_ok b i : texted i -> lost_error b = false -> errors_ok b i.
Proof. intros Ht Hl. unfold errors_ok. rewrite Hl. split; [|done]. intros H. split; [done|]. intros _. by apply Ht. Qed.

Lemma scalar_fp_errors b :
  bits b 25 7 = 7 -> bits b 28 5 = 1 -> errors_ok b (scalar_floating_point err_addr b).
Proof.
  intros H1 H2.
  assert (lost_error b = true <-> fp_kind b = ConvFixed /\ bits b 22 3 = 2 /\ 4 <= bits b 16 7) as Hl.
  { unfold lost_error. rewrite fp_kind_convfixed, H1, H2, !andb_true_iff, !negb_true_iff, Z.leb_le, !Z.eqb_eq. tauto. }
  unfold errors_ok. destruct (decide (bit b 24 = false /\ bit b 21 = false)) as [Hk|Hk]; rewrite <- fp_kind_convfixed in Hk.
  - unfold scalar_floating_point. cbv zeta. rewrite Hk in *. destruct (convfixed_errors b) as [He Hn].
    rewrite <- not_true_iff_false, Hl, He. tauto.
  - pose proof (scalar_fp_texted b Hk) as Ht. rewrite <- not_true_iff_false, Hl. unfold texted in Ht. tauto.
Qed.

Lemma fp_dispatch b n m :
  bits b 25 15 = n -> n = 7 \/ n = 15 -> bits b 28 15 = m -> m = 1 \/ m = 3 \/ m = 9 \/ m = 11 ->
  bits b 25 7 = 7 /\ bits b 28 5 = 1.
Proof.
  intros <- Hn <- Hm. split.
  - revert Hn. rewrite (bits_at b 25 15 4), (bits_at b 25 7 3) by done. generalize (b / 2 ^ 25). intros y Hy. zdm.
  - assert (Z.land (bits b 28 15) 5 = bits b 28 5) as <- by (unfold bits; by rewrite <- Z.land_assoc).
    by destruct Hm as [-> | [-> | [-> | ->]]].
Qed.

Lemma decode_group_errors shl64 b j : decode_group shl64 err_addr b = Some j -> errors_ok b j.
Proof.
  intros Hj. destruct (lost_error b) eqn:E.
  - destruct (lost_error_group b E) as [H1 H2]. destruct (fp_dispatch b _ _ eq_refl H1 eq_refl H2) as [F1 F2].
    assert (j = scalar_floating_point err_addr b) as ->; [|by apply scalar_fp_errors].
    unfold decode_group, data_proc_float_and_simd in Hj.
    by destruct H1 as [H1|H1], H2 as [H2|[H2|[H2|H2]]]; rewrite H1, H2 in Hj; injection Hj as <-.
  - unfold decode_group, data_proc_float_and_simd in Hj. repeat case_match; try injection Hj as <-;
      lazymatch goal with
      | H1 : bits b 25 15 = _, H2 : bits b 28 15 = _ |- errors_ok _ (scalar_floating_point _ _) =>
          destruct (fp_dispatch b _ _ H1 ltac:(lia) H2 ltac:(lia)); by apply scalar_fp_errors
      | |- _ => apply texted_ok; [eauto with text | exact E]
      end.
Qed.
End Texts.

(** C39. An unknown instruction carries its word, and an error its text, except
    for one kind of word: for a fixed-point conversion with unallocated
    precision and unallocated opcode the decoder reports an error whose text
    has been overwritten by the fields of the conversion. *)
Theorem error_has_text shl64 err_addr b i :
  decode_word shl64 err_addr b = Some i ->
  (op i = A64_UNKNOWN -> operand i = UImm b) /\
  (op i = A64_ERROR -> has_text (operand i) <-> lost_error b = false) /\
  (lost_error b = true -> op i = A64_ERROR).
Proof.
  intros H. unfold decode_word in H. apply bind_Some in H as (j & Hj & [= <-]). unfold keep_word.
  split; [by destruct (op j) eqn:E; cbn; rewrite ?E|].
  apply decode_group_errors in Hj. revert Hj. unfold errors_ok.
  destruct (op j) eqn:E; cbn [op operand]; rewrite ?E; intros Hg; first [exact Hg | split; [discriminate | apply Hg]].
Qed.

(** A conversion without precision and opcode: an error, whose text is the
    address [0x40_0000_0004]. *)
Lemma error_has_text_witness :
  exists i, decode_word id (fun _ => 0) 0x1e840000 = Some i /\ op i = A64_ERROR /\ ~ has_text (operand i).
Proof.
  eexists. split; [vm_compute; reflexivity|]. split; [reflexivity|].
  destruct (error_has_text id (fun _ => 0) 0x1e840000 _ ltac:(vm_compute; reflexivity)) as (_ & H & _).
  intros Ht. apply H in Ht; [|reflexivity]. vm_compute in Ht. discriminate.
Defined.
