(* ===== verification/FarmdecSimdProofs.v ===== *)
(** * The immediates of vector instructions

    MOVI, MVNI, ORR, BIC and FMOV encode a constant for all lanes in eight bits
    and a mode.  The decoded immediate is compared, bit by bit, with the
    constant the architecture defines. *)

From Stdlib Require Import ZArith Lia String.
From stdpp Require Import base numbers list.
From S2P Require Import Prelude Farmdec FarmdecProofs FarmdecFp FarmdecSimd FarmdecWf.

(** ** The reference *)

(** Bit [k] of the 64-bit constant: the byte shifted in lanes of 32 or 16 bits,
    shifted with ones from the right, repeated, or each bit repeated; [op]
    inverts the moves. *)
Definition lane_bit (op : bool) (cmode imm8 k : Z) : bool :=
  let shifted w sh := let j := k `mod` w in (sh <=? j) && (j <? sh + 8) && Z.testbit imm8 (j - sh) in
  let ones w sh := let j := k `mod` w in (j <? sh) || ((j <? sh + 8) && Z.testbit imm8 (j - sh)) in
  let move x := xorb (op && Z.even cmode) x in
  if cmode <? 8 then move (shifted 32 (8 * (cmode / 2)))
  else if cmode <? 12 then move (shifted 16 (8 * ((cmode - 8) / 2)))
  else if cmode =? 12 then xorb op (ones 32 8)
  else if cmode =? 13 then xorb op (ones 32 16)
  else if op then Z.testbit imm8 (k / 8) else Z.testbit imm8 (k `mod` 8).

Definition modified_op (op : bool) (cmode : Z) : Op :=
  if (cmode <? 12) && Z.odd cmode then (if op then A64_BIC_VEC_IMM else A64_ORR_VEC_IMM) else A64_MOVI.

(** The floating-point constant of [n] bits with a fraction of [f] bits, and the
    sign, exponent and fraction of a number in a format. *)
Definition expand_fp (n f imm8 : Z) : Z :=
  let b6 := (imm8 / 64) `mod` 2 in
  let e := n - 1 - f in
  imm8 / 128 * 2 ^ (n - 1) + ((1 - b6) * 2 ^ (e - 1) + b6 * (2 ^ (e - 1) - 4) + (imm8 / 16) `mod` 4) * 2 ^ f +
  imm8 `mod` 16 * 2 ^ (f - 4).
Definition fp_parts (n f x : Z) : Z * Z * Z :=
  (x / 2 ^ (n - 1), (x / 2 ^ f) `mod` 2 ^ (n - 1 - f) - (2 ^ (n - 2 - f) - 1), x `mod` 2 ^ f * 2 ^ (52 - f)).

(** The width of a lane, from the flags. *)
Definition lane_width (i : Inst) : Z :=
  8 * 2 ^ fad_size_from_vec_arrangement (fad_get_vec_arrangement (flags i)).
Definition fraction_bits (n : Z) : Z := if n =? 64 then 52 else if n =? 32 then 23 else 10.

Definition enc_modified (Q op o2 : bool) (cmode imm8 rd_ : Z) : Z :=
  Z.b2z Q * 2 ^ 30 + Z.b2z op * 2 ^ 29 + 480 * 2 ^ 19 + imm8 / 32 * 2 ^ 16 + cmode * 2 ^ 12 +
  Z.b2z o2 * 2 ^ 11 + 2 ^ 10 + imm8 `mod` 32 * 2 ^ 5 + rd_.

(** ** The fields *)

Section Fields.
Context (Q op o2 : bool) (cmode imm8 rd_ : Z)
  (Hc : 0 <= cmode < 16) (Hi : in_u 8 imm8) (Hr : 0 <= rd_ < 32).

Lemma modified_fields :
  let b := enc_modified Q op o2 cmode imm8 rd_ in
  bits b 28 15 = 4 * Z.b2z Q + 2 * Z.b2z op /\ bits b 21 15 = 8 /\ bits b 19 15 = 0 /\ bits b 22 3 = 0 /\
  bits b 12 15 = cmode /\ bits b 16 7 = imm8 / 32 /\ bits b 5 31 = imm8 `mod` 32 /\ regRd b = rd_ /\
  bit b 10 = true /\ bit b 11 = o2 /\ bit b 29 = op /\ bit b 30 = Q.
Proof.
  cbv zeta. unfold regRd.
  rewrite (bits_at _ 28 15 4), (bits_at _ 21 15 4), (bits_at _ 19 15 4), (bits_at _ 22 3 2), (bits_at _ 12 15 4),
    (bits_at _ 16 7 3), (bits_at _ 5 31 5), (bits_at _ 0 31 5), !bit_at by done.
  assert (forall x c, x = Z.b2z c -> negb (x =? 0) = c) as Hb by (intros x [] ->; done).
  unfold enc_modified, in_u in *. assert (0 <= imm8 / 32 < 8) as Hh by zdm. assert (0 <= imm8 `mod` 32 < 32) as Hl by zdm.
  generalize dependent (imm8 / 32). intros hi. generalize dependent (imm8 `mod` 32). intros lo. intros.
  split_and!; try apply Hb; destruct Q, op, o2; cbn [Z.b2z]; zdm.
Qed.

(** The word reaches the group of modified immediates, whose byte is [imm8]. *)
Lemma modified_reached err_addr :
  let b := enc_modified Q op o2 cmode imm8 rd_ in
  data_proc_float_and_simd err_addr b = simd_modified_imm Q b (set_vec_arrangement 0 (arrangement 0 Q)) /\
  Z.lor (Z.shiftl (bits b 16 7) 5) (bits b 5 31) = imm8.
Proof.
  destruct modified_fields as (H28 & H21 & H19 & H22 & Hcm & Hhi & Hlo & _ & H10 & _ & H29 & H30). cbv zeta.
  generalize dependent (enc_modified Q op o2 cmode imm8 rd_). intros b. intros. split.
  - assert (simd_kind b = ModifiedImm) as Hk by (unfold simd_kind; rewrite H21, H19, H10; done).
    unfold data_proc_float_and_simd. rewrite H28. unfold decode_simd. rewrite Hk, H22, H30.
    destruct Q, op; done.
  - rewrite Hhi, Hlo, Z.lor_comm, lor_shiftl_add by (try apply Z.mod_pos_bound; lia). unfold in_u in *. zdm.
Qed.
End Fields.

(** ** Bits *)

Lemma shifted_bit imm8 sh j :
  in_u 8 imm8 -> 0 <= sh -> 0 <= j ->
  Z.testbit (Z.shiftl imm8 sh) j = (sh <=? j) && (j <? sh + 8) && Z.testbit imm8 (j - sh).
Proof.
  intros Hi Hs Hj. rewrite Z.shiftl_spec by done. destruct (Z.leb_spec sh j); [|by rewrite Z.testbit_neg_r by lia].
  destruct (Z.ltb_spec j (sh + 8)); [done|]. by rewrite (bits_above 8 imm8) by (done || lia).
Qed.

Lemma inverted_bit x j : 0 <= j < 64 -> Z.testbit (u64 (Z.lnot x)) j = negb (Z.testbit x j).
Proof.
  intros Hj. rewrite testbit_wrap, Z.lnot_spec by lia. rewrite (proj2 (Z.ltb_lt j 64)) by lia. apply andb_true_r.
Qed.

Lemma ones_bit imm8 sh j :
  in_u 8 imm8 -> sh = 8 \/ sh = 16 -> 0 <= j ->
  Z.testbit (Z.lor (Z.shiftl imm8 sh) (u64 (Z.lnot (u64 (Z.shiftl (u64 (Z.lnot 0)) sh))))) j =
  (j <? sh) || ((j <? sh + 8) && Z.testbit imm8 (j - sh)).
Proof.
  intros Hi Hs Hj.
  assert (u64 (Z.lnot (u64 (Z.shiftl (u64 (Z.lnot 0)) sh))) = Z.ones sh) as -> by (destruct Hs as [-> | ->]; reflexivity).
  rewrite Z.lor_spec, shifted_bit, Z.testbit_ones_nonneg by (done || lia).
  destruct (Z.ltb_spec j sh); [by rewrite orb_true_r|]. rewrite (proj2 (Z.leb_le sh j)) by lia. by rewrite orb_false_r.
Qed.

Lemma byte_mask_bit imm8 k : in_u 8 imm8 -> 0 <= k < 64 -> Z.testbit (byte_mask imm8) k = Z.testbit imm8 (k / 8).
Proof.
  intros Hi Hk. apply Bool.eqb_prop.
  apply (seqZ_all (fun k => Bool.eqb (Z.testbit (byte_mask imm8) k) (Z.testbit imm8 (k / 8))) 0 64); [|lia].
  apply (seqZ_all (fun imm8 => let m := byte_mask imm8 in
     forallb (fun k => Bool.eqb (Z.testbit m k) (Z.testbit imm8 (k / 8))) (seqZ 0 64)) 0 256); [|exact Hi].
  vm_compute. reflexivity.
Qed.

(** The double of the decoder has the parts of the constant of the lane. *)
Lemma vfp_expand_parts imm8 n :
  in_u 8 imm8 -> n = 64 \/ n = 32 \/ n = 16 ->
  fp_parts 64 52 (vfp_expand_imm imm8) = fp_parts n (fraction_bits n) (expand_fp n (fraction_bits n) imm8).
Proof.
  intros Hi Hn.
  assert (forall n, forallb (fun x => bool_decide (fp_parts 64 52 (vfp_expand_imm x) =
    fp_parts n (fraction_bits n) (expand_fp n (fraction_bits n) x))) (seqZ 0 256) = true ->
    fp_parts 64 52 (vfp_expand_imm imm8) = fp_parts n (fraction_bits n) (expand_fp n (fraction_bits n) imm8)) as H.
  { intros m Hm. exact (bool_decide_eq_true_1 _ (seqZ_all _ 0 256 Hm imm8 Hi)). }
  destruct Hn as [-> | [-> | ->]]; apply H; vm_compute; reflexivity.
Qed.

(** ** The decoder *)

(** Evaluates the closed parts: the width of a lane, the tests of the mode and
    the distance of a shift. *)
Ltac closed_parts :=
  lazymatch goal with |- context [lane_width ?i] =>
    let w := eval vm_compute in (lane_width i) in change (lane_width i) with w end;
  unfold lane_bit; cbv beta zeta;
  repeat match goal with
  | |- context [if ?c then _ else _] => let v := eval vm_compute in c in change c with v; cbv iota
  | |- context [8 * ?d] => let v := eval vm_compute in (8 * d) in progress change (8 * d) with v
  | |- context [?x && Z.even ?c] => let v := eval vm_compute in (x && Z.even c) in change (x && Z.even c) with v
  end.

(** One bit of a lane, inverted or not. *)
Ltac lane_test :=
  lazymatch goal with |- context [?k `mod` ?w] => pose proof (Z.mod_pos_bound k w ltac:(lia)) end;
  rewrite ?inverted_bit by lia; rewrite ?ones_bit by (done || lia); rewrite ?shifted_bit by (done || lia);
  by rewrite ?xorb_false_l, ?xorb_true_l.

(** The constant of every lane but of FMOV. *)
Lemma modified_bits (Q op : bool) b cmode imm8 rd_ :
  0 <= cmode < 15 -> in_u 8 imm8 ->
  bits b 12 15 = cmode -> Z.lor (Z.shiftl (bits b 16 7) 5) (bits b 5 31) = imm8 -> bit b 29 = op -> regRd b = rd_ ->
  let i := simd_modified_imm Q b (set_vec_arrangement 0 (arrangement 0 Q)) in
  Farmdec.op i = modified_op op cmode /\ rd i = rd_ /\
  exists x, operand i = UImm x /\
    forall k, 0 <= k < 64 -> Z.testbit x (k `mod` lane_width i) = lane_bit op cmode imm8 k.
Proof.
  intros Hc Hi Hcm Himm Hop Hrd. cbv zeta. unfold simd_modified_imm. rewrite Hcm, Himm, Hop, Hrd.
  assert (forall j w, 0 <= w -> 0 <= j `mod` 2 ^ w < 2 ^ w) as Hm by (intros; apply Z.mod_pos_bound; lia).
  assert (cmode = 0 \/ cmode = 1 \/ cmode = 2 \/ cmode = 3 \/ cmode = 4 \/ cmode = 5 \/ cmode = 6 \/ cmode = 7 \/
    cmode = 8 \/ cmode = 9 \/ cmode = 10 \/ cmode = 11 \/ cmode = 12 \/ cmode = 13 \/ cmode = 14 \/ False) as H by lia.
  clear Hcm Hc. repeat destruct H as [->|H]; [..|done].
  all: destruct op, Q; (split; [reflexivity|]); (split; [reflexivity|]); eexists; (split; [reflexivity|]); intros k Hk;
    closed_parts; first [reflexivity | rewrite Z.mod_small by lia; by apply byte_mask_bit | lane_test].
Qed.

(** FMOV. *)
Lemma modified_fp (Q op o2 : bool) b imm8 rd_ :
  in_u 8 imm8 -> op && o2 = false ->
  bits b 12 15 = 15 -> Z.lor (Z.shiftl (bits b 16 7) 5) (bits b 5 31) = imm8 -> bit b 29 = op -> bit b 11 = o2 ->
  regRd b = rd_ ->
  let i := simd_modified_imm Q b (set_vec_arrangement 0 (arrangement 0 Q)) in
  Farmdec.op i = A64_FMOV_VEC /\ rd i = rd_ /\
  exists d, operand i = UFimm d /\ let n := lane_width i in
    fp_parts 64 52 d = fp_parts n (fraction_bits n) (expand_fp n (fraction_bits n) imm8).
Proof.
  intros Hi Ho Hcm Himm Hop H11 Hrd. cbv zeta. unfold simd_modified_imm. rewrite Hcm, Himm, Hop, H11, Hrd.
  destruct op, o2; try discriminate; destruct Q;
    (split; [reflexivity|]); (split; [reflexivity|]); eexists; (split; [reflexivity|]);
    (lazymatch goal with |- context [lane_width ?i] =>
       let w := eval vm_compute in (lane_width i) in change (lane_width i) with w end);
    apply vfp_expand_parts; tauto.
Qed.

(** C38. Vector immediates are expanded as the architecture defines: every bit of
    every lane of MOVI, MVNI, ORR and BIC is the bit of the constant that mode
    and byte encode, for lanes of the width in the flags, and the double of
    FMOV has the sign, exponent and fraction of the constant of the lane. *)
Theorem modified_imm_correct err_addr Q op o2 cmode imm8 rd_ :
  0 <= cmode < 16 -> in_u 8 imm8 -> 0 <= rd_ < 32 -> (cmode = 15 -> op && o2 = false) ->
  let i := data_proc_float_and_simd err_addr (enc_modified Q op o2 cmode imm8 rd_) in
  let n := lane_width i in
  rd i = rd_ /\
  if cmode =? 15
  then Farmdec.op i = A64_FMOV_VEC /\ exists d, operand i = UFimm d /\
         fp_parts 64 52 d = fp_parts n (fraction_bits n) (expand_fp n (fraction_bits n) imm8)
  else Farmdec.op i = modified_op op cmode /\ exists x, operand i = UImm x /\
         forall k, 0 <= k < 64 -> Z.testbit x (k `mod` n) = lane_bit op cmode imm8 k.
Proof.
  intros Hc Hi Hr Ho. destruct (modified_reached Q op o2 cmode imm8 rd_ Hc Hi Hr err_addr) as [-> Himm].
  destruct (modified_fields Q op o2 cmode imm8 rd_ Hc Hi Hr) as (_ & _ & _ & _ & Hcm & _ & _ & Hrd & _ & H11 & H29 & _).
  cbv zeta. destruct (Z.eqb_spec cmode 15) as [->|Hne].
  - destruct (modified_fp Q op o2 _ imm8 rd_ Hi (Ho eq_refl) Hcm Himm H29 H11 Hrd) as (H1 & H2 & H3). done.
  - destruct (modified_bits Q op _ cmode imm8 rd_ ltac:(lia) Hi Hcm Himm H29 Hrd) as (H1 & H2 & H3). done.
Qed.

(** [mvni v3.4s, #0xab, lsl #8] and [fmov v3.2d, #1.0]. *)
Lemma modified_imm_correct_witness :
  (exists x, operand (data_proc_float_and_simd (fun _ => 0) 0x6f052563) = UImm x /\ Z.testbit x 8 = false) /\
  operand (data_proc_float_and_simd (fun _ => 0) (enc_modified true true false 15 0x70 3)) = UFimm 0x3ff0000000000000 /\
  rd (data_proc_float_and_simd (fun _ => 0) (enc_modified true true false 15 0x70 3)) = 3.
Proof.
  split.
  - destruct (modified_imm_correct (fun _ => 0) true true false 2 0xab 3) as (_ & _ & x & E & H);
      [lia | split; [lia | reflexivity] | lia | lia |].
    exists x. split; [exact E|]. specialize (H 8 ltac:(lia)). vm_compute in H. exact H.
  - split; [vm_compute; reflexivity|].
    apply (modified_imm_correct (fun _ => 0) true true false 15 0x70 3); [lia | split; [lia | reflexivity] | lia | done].
Defined.
