(* ===== verification/FarmdecMemProofs.v ===== *)
(** * Loads and stores survive encoding and decoding

    The addressing modes, literals included, access sizes, extensions and offsets of LDR, STR, LDP
    and STP, integer and floating point, are decoded from the encoding of the
    architecture to themselves. *)

From Stdlib Require Import ZArith Lia String.
From stdpp Require Import base numbers list.
From S2P Require Import Prelude Farmdec FarmdecProofs FarmdecMem FarmdecWf.

(** ** The encodings *)

(** The address of a single access, with byte offsets; the register form has an
    extension and may be scaled by the access size. *)
Inductive Addr :=
  | AScaled (o : Z) | AUnscaled (o : Z) | APost (o : Z) | APre (o : Z) | AIndex (rm_ ext : Z) (scaled : bool).

(** The allocated combinations of [V], [size] and [opc], prefetches aside. *)
Definition allocated (V : bool) (size opc : Z) : Prop :=
  0 <= size < 4 /\ 0 <= opc < 4 /\
  if V then opc < 2 \/ size = 0 else opc < 2 \/ opc = 2 /\ size < 3 \/ opc = 3 /\ size < 2.

(** The logarithm of the access size in bytes. *)
Definition log_size (V : bool) (size opc : Z) : Z := if V && (2 <=? opc) then 4 else size.

Definition enc_addr (s : Z) (a : Addr) : Z :=
  match a with
  | AScaled o => 2 ^ 24 + o / 2 ^ s * 2 ^ 10
  | AUnscaled o => o `mod` 512 * 2 ^ 12
  | APost o => o `mod` 512 * 2 ^ 12 + 2 ^ 10
  | APre o => o `mod` 512 * 2 ^ 12 + 3 * 2 ^ 10
  | AIndex rm_ ext sc => 2 ^ 21 + rm_ * 2 ^ 16 + ext * 2 ^ 13 + Z.b2z sc * 2 ^ 12 + 2 * 2 ^ 10
  end.

Definition enc_ldst (V : bool) (size opc : Z) (a : Addr) (rn_ rt : Z) : Z :=
  size * 2 ^ 30 + 7 * 2 ^ 27 + Z.b2z V * 2 ^ 26 + opc * 2 ^ 22 + enc_addr (log_size V size opc) a + rn_ * 2 ^ 5 + rt.

(** Offsets that can be encoded. *)
Definition encodable (s : Z) (a : Addr) : Prop :=
  match a with
  | AScaled o => 0 <= o < 4096 * 2 ^ s /\ o `mod` 2 ^ s = 0
  | AUnscaled o | APost o | APre o => -256 <= o < 256
  | AIndex rm_ ext _ => 0 <= rm_ < 32 /\ 0 <= ext < 8
  end.

(** ** What the decoded instruction says *)

Definition is_load (V : bool) (opc : Z) : bool := if V then Z.odd opc else negb (opc =? 0).

Definition addr_mode (a : Addr) : Z :=
  match a with
  | AScaled _ | AUnscaled _ => AM_OFF_IMM
  | APost _ => AM_POST
  | APre _ => AM_PRE
  | AIndex _ ext _ => if ext =? UXTX then AM_OFF_REG else AM_OFF_EXT
  end.

Definition addr_operand (s : Z) (a : Addr) : Z * Operand :=
  match a with
  | AScaled o | AUnscaled o | APost o | APre o => (0, UOffset o)
  | AIndex rm_ ext sc =>
      let amount := if sc then s else 0 in
      (rm_, if ext =? UXTX then UShift SH_LSL amount else UExtend ext amount)
  end.

(** Precision, or size, signedness and register width of the access. *)
Definition access_flags (V : bool) (size opc mode fl : Z) : Prop :=
  fad_get_addrmode fl = mode /\
  if V then fad_get_prec fl = (if opc <? 2 then size else FSZ_Q)
  else fad_get_mem_extend fl = (if opc <? 2 then 0 else 4) + size /\
       has_flag fl W32 = (if opc =? 2 then false else size <? 3).

Definition access_op (V : bool) (opc : Z) : Op :=
  if V then (if is_load V opc then A64_LDR_FP else A64_STR_FP) else (if is_load V opc then A64_LDR else A64_STR).

(** ** The decoder *)

(** A finite case analysis of a small integer. *)
Lemma below4 x : 0 <= x < 4 -> x = 0 \/ x = 1 \/ x = 2 \/ x = 3.
Proof. lia. Qed.

Lemma ls_register_access unscaled b V size opc mode :
  allocated V size opc -> bits b 30 3 = size -> bits b 22 3 = opc -> bit b 26 = V ->
  mode = AM_OFF_IMM \/ mode = AM_OFF_REG \/ mode = AM_OFF_EXT \/ mode = AM_PRE \/ mode = AM_POST ->
  exists fl, access_flags V size opc mode fl /\
    ls_register unscaled b (set_addrmode 0 mode) =
    let s := log_size V size opc in ls_address unscaled b (access_op V opc) fl (2 ^ s) s.
Proof.
  intros (Hs & Ho & Hal) Hsz Hopc HV Hm. unfold ls_register. rewrite Hsz, Hopc, HV. clear Hsz Hopc HV.
  destruct (below4 _ Hs) as [-> | [-> | [-> | ->]]], (below4 _ Ho) as [-> | [-> | [-> | ->]]], V; try (exfalso; lia);
    eexists; (split; [|reflexivity]); destruct Hm as [-> | [-> | [-> | [-> | ->]]]]; vm_compute; auto.
Qed.

Lemma address_decoded b o fl s a :
  fad_get_addrmode fl = addr_mode a -> 0 <= s -> encodable s a ->
  (match a with
   | AScaled o => bits b 10 0xfff = o / 2 ^ s
   | AUnscaled o | APost o | APre o => bits b 12 0x1ff = o `mod` 512
   | AIndex rm_ ext sc => regRm b = rm_ /\ bits b 13 7 = ext /\ bit b 12 = sc
   end) ->
  ls_address (match a with AUnscaled _ => true | _ => false end) b o fl (2 ^ s) s =
  let '(rm_, v) := addr_operand s a in mkInst o fl (regRd b) (regRnSP b) rm_ v.
Proof.
  intros Hm Hs He Hf. unfold ls_address. rewrite Hm.
  assert (forall o, -256 <= o < 256 -> sext (o `mod` 512) 9 = o) as Hx.
  { intros o' Ho. change 512 with (2 ^ 9). fold (wrap 9 o').
    rewrite sext_swrap, swrap_of_wrap by (try apply wrap_range; unfold in_s; lia). done. }
  destruct a as [o'|o'|o'|o'|r e sc]; cbn [addr_mode addr_operand encodable] in *.
  - rewrite Hf. change ((AM_OFF_IMM =? AM_POST) || (AM_OFF_IMM =? AM_PRE)) with false. change (AM_OFF_IMM =? AM_OFF_IMM) with true.
    cbv iota zeta. do 2 f_equal. destruct He as [_ He]. rewrite Z.mul_comm. assert (2 ^ s <> 0) by lia.
    pose proof (Z.div_mod o' (2 ^ s)). lia.
  - rewrite Hf, Hx by done. reflexivity.
  - rewrite Hf, Hx by done. reflexivity.
  - rewrite Hf, Hx by done. reflexivity.
  - destruct Hf as (-> & -> & ->). destruct (e =? UXTX); reflexivity.
Qed.

(** The fields of an encoding, by linear arithmetic. *)
Ltac ldst_field := unfold enc_ldst, enc_addr in *; zdm.

Section Fields.
Context (V : bool) (size opc : Z) (a : Addr) (rn_ rt : Z)
  (Hal : allocated V size opc) (Ha : encodable (log_size V size opc) a) (Hn : 0 <= rn_ < 32) (Ht : 0 <= rt < 32).

(** The bits of the address lie between 10 and 24, apart from [opc]. *)
Lemma enc_addr_range :
  exists hi lo, enc_addr (log_size V size opc) a = hi * 2 ^ 24 + lo * 2 ^ 10 /\ 0 <= lo < 2 ^ 12 /\
    hi = (match a with AScaled _ => 1 | _ => 0 end).
Proof.
  destruct a as [o|o|o|o|r e sc]; cbn [enc_addr encodable] in *.
  - exists 1, (o / 2 ^ log_size V size opc). split_and!; try lia; [apply Z.div_pos|apply Z.div_lt_upper_bound]; try lia.
    all: assert (0 <= log_size V size opc) by (destruct Hal as (?&?&_); unfold log_size; destruct (_ && _); lia); lia.
  - exists 0, (o `mod` 512 * 4). pose proof (Z.mod_pos_bound o 512). lia.
  - exists 0, (o `mod` 512 * 4 + 1). pose proof (Z.mod_pos_bound o 512). lia.
  - exists 0, (o `mod` 512 * 4 + 3). pose proof (Z.mod_pos_bound o 512). lia.
  - exists 0, (2 ^ 11 + r * 2 ^ 6 + e * 2 ^ 3 + Z.b2z sc * 2 ^ 2 + 2). destruct sc; cbn [Z.b2z]; lia.
Qed.

Lemma ldst_fields :
  let b := enc_ldst V size opc a rn_ rt in
  bits b 30 3 = size /\ bits b 22 3 = opc /\ bit b 26 = V /\ regRd b = rt /\ regRn b = rn_ /\
  bits b 23 127 = 112 + 8 * Z.b2z V + (match a with AScaled _ => 2 | _ => 0 end) + opc / 2.
Proof.
  destruct enc_addr_range as (hi & lo & E & Hlo & Hhi). destruct Hal as (Hs & Ho & _). cbv zeta. unfold enc_ldst, regRd, regRn. rewrite E.
  rewrite (bits_at _ 30 3 2), (bits_at _ 22 3 2), bit_at, (bits_at _ 0 31 5), (bits_at _ 5 31 5), (bits_at _ 23 127 7) by done.
  assert (hi = 0 \/ hi = 1) as Hh by (destruct a; lia).
  assert ((match a with AScaled _ => 2 | _ => 0 end) = 2 * hi) as -> by (destruct a; lia). clear Hhi E Ha.
  assert (forall x c, x = Z.b2z c -> negb (x =? 0) = c) as Hb by (intros x [] ->; done).
  split_and!; try apply Hb; destruct V; cbn [Z.b2z]; zdm.
Qed.

(** The twelve bits from 10, and the fields inside them. *)
Lemma ldst_low :
  let b := enc_ldst V size opc a rn_ rt in
  exists lo, 0 <= lo < 2 ^ 12 /\
    lo * 2 ^ 10 = enc_addr (log_size V size opc) a - (match a with AScaled _ => 2 ^ 24 | _ => 0 end) /\
    forall p k m n, p = 10 + k -> m = Z.ones n -> 0 <= k -> 0 <= n -> k + n <= 12 -> bits b p m = (lo / 2 ^ k) `mod` 2 ^ n.
Proof.
  destruct enc_addr_range as (hi & lo & E & Hlo & Hhi). exists lo. cbv zeta.
  assert ((enc_ldst V size opc a rn_ rt / 2 ^ 10) `mod` 2 ^ 12 = lo) as Hb.
  { destruct Hal as (Hs & Ho & _). unfold enc_ldst. rewrite E.
    assert (hi = 0 \/ hi = 1) as Hh by (destruct a; lia). clear Hhi E Ha. destruct V; cbn [Z.b2z]; zdm. }
  split; [done|]. split; [rewrite E; destruct a; lia|]. intros p k m n -> -> Hk Hn' Hkn.
  rewrite (bits_at _ (10 + k) (Z.ones n) n) by (done || lia). rewrite <- Hb, Z.pow_add_r, <- Z.div_div by lia.
  generalize (enc_ldst V size opc a rn_ rt / 2 ^ 10). intros y. apply bits_eq. intros i Hi.
  rewrite !Z.testbit_mod_pow2, !Z.div_pow2_bits, !Z.testbit_mod_pow2 by lia.
  destruct (Z.ltb_spec i n); [|done]. by rewrite (proj2 (Z.ltb_lt (i + k) 12)) by lia.
Qed.

Lemma ldst_address :
  let b := enc_ldst V size opc a rn_ rt in
  match a with
  | AScaled o => bits b 10 0xfff = o / 2 ^ log_size V size opc
  | AUnscaled o | APost o | APre o => bits b 12 0x1ff = o `mod` 512
  | AIndex r ext sc => regRm b = r /\ bits b 13 7 = ext /\ bit b 12 = sc
  end.
Proof.
  cbv zeta. destruct ldst_low as (lo & Hlo & E & Hf). unfold regRm, bit.
  rewrite (Hf 10 0 0xfff 12), (Hf 12 2 0x1ff 9), (Hf 16 6 31 5), (Hf 13 3 7 3), (Hf 12 2 1 1) by (done || lia).
  destruct a as [o|o|o|o|r e sc]; cbn [enc_addr encodable] in *; clear Hf.
  - rewrite Z.pow_0_r, Z.div_1_r, Z.mod_small by lia. lia.
  - zdm.
  - zdm.
  - zdm.
  - assert (forall x c, x = Z.b2z c -> negb (x =? 0) = c) as Hb by (intros x [] ->; done).
    split_and!; try apply Hb; destruct sc; cbn [Z.b2z] in *; zdm.
Qed.

Lemma ldst_kind :
  ls_kind (enc_ldst V size opc a rn_ rt) =
  Some (match a with AUnscaled _ => UnscaledImm | _ => Register end, set_addrmode 0 (addr_mode a)).
Proof.
  destruct ldst_fields as (_ & _ & _ & _ & _ & Hk). destruct ldst_low as (lo & Hlo & E & Hf).
  unfold ls_kind. rewrite Hk. assert (opc / 2 = 0 \/ opc / 2 = 1) as Ho by (destruct Hal as (_ & ? & _); zdm).
  assert (ls_kind_many (enc_ldst V size opc a rn_ rt) =
    (match a with AUnscaled _ => UnscaledImm | _ => Register end, set_addrmode 0 (addr_mode a)) \/
    match a with AScaled _ => True | _ => False end) as Hm.
  { pose proof ldst_address as Hadr. cbv zeta in Hadr. unfold ls_kind_many, bit. rewrite (Hf 21 11 1 1), (Hf 10 0 3 2) by (done || lia).
    destruct a as [o|o|o|o|r e sc]; [by right|left..]; cbn [enc_addr encodable addr_mode] in *.
    1-3: assert ((lo / 2 ^ 11) `mod` 2 ^ 1 = 0) as -> by zdm.
    - assert ((lo / 2 ^ 0) `mod` 2 ^ 2 = 0) as -> by (rewrite Z.pow_0_r, Z.div_1_r; zdm). done.
    - assert ((lo / 2 ^ 0) `mod` 2 ^ 2 = 1) as -> by (rewrite Z.pow_0_r, Z.div_1_r; zdm). done.
    - assert ((lo / 2 ^ 0) `mod` 2 ^ 2 = 3) as -> by (rewrite Z.pow_0_r, Z.div_1_r; zdm). done.
    - assert ((lo / 2 ^ 11) `mod` 2 ^ 1 = 1) as -> by (destruct sc; cbn [Z.b2z] in *; zdm).
      assert ((lo / 2 ^ 0) `mod` 2 ^ 2 = 2) as -> by (rewrite Z.pow_0_r, Z.div_1_r; destruct sc; cbn [Z.b2z] in *; zdm).
      destruct Hadr as (_ & -> & _). done. }
  destruct Hm as [Hm|Hm]; [rewrite Hm|]; destruct Ho as [-> | ->], a, V; reflexivity || done.
Qed.

(** A decoded single access. *)
Lemma ldst_decoded :
  exists fl, access_flags V size opc (addr_mode a) fl /\
    loads_and_stores (enc_ldst V size opc a rn_ rt) =
    let '(rm_, v) := addr_operand (log_size V size opc) a in
    mkInst (access_op V opc) fl rt (if rn_ =? 31 then STACK_POINTER else rn_) rm_ v.
Proof.
  destruct ldst_fields as (H30 & H22 & H26 & Hd & Hrn & _). pose proof ldst_address as Hadr. cbv zeta in *.
  unfold loads_and_stores. rewrite ldst_kind. set (b := enc_ldst V size opc a rn_ rt) in *.
  destruct (ls_register_access (match a with AUnscaled _ => true | _ => false end) b V size opc (addr_mode a) Hal H30 H22 H26)
    as (fl & Hfl & E).
  { destruct a; cbn [addr_mode]; try tauto. destruct (_ =? _); tauto. }
  exists fl. split; [done|].
  assert (0 <= log_size V size opc) by (destruct Hal as (?&?&_); unfold log_size; destruct (_ && _); lia).
  pose proof (address_decoded b (access_op V opc) fl (log_size V size opc) a (proj1 Hfl) ltac:(done) Ha Hadr) as E'.
  cbv zeta in E. rewrite <- E in E'. rewrite Hd in E'. unfold regRnSP in E'. rewrite Hrn in E'. rewrite <- E'. by destruct a.
Qed.
End Fields.

(** ** Pairs *)

(** [hint] and the addressing modes, in the order of their encoding. *)
Inductive PairMode := PNoAlloc | PPost | POff | PPre.

Definition pair_code (m : PairMode) : Z := match m with PNoAlloc => 0 | PPost => 1 | POff => 2 | PPre => 3 end.
Definition pair_addrmode (m : PairMode) : Z :=
  match m with PNoAlloc | POff => AM_OFF_IMM | PPost => AM_POST | PPre => AM_PRE end.

Definition pair_op (V load : bool) (m : PairMode) : Op :=
  match m with
  | PNoAlloc => if V then (if load then A64_LDNP_FP else A64_STNP_FP) else (if load then A64_LDNP else A64_STNP)
  | _ => if V then (if load then A64_LDP_FP else A64_STP_FP) else (if load then A64_LDP else A64_STP)
  end.

(** Bytes of one register of the pair. *)
Definition pair_scale (V : bool) (opc : Z) : Z := if V then 4 * 2 ^ opc else if opc =? 2 then 8 else 4.

Definition pair_flags (V : bool) (opc mode fl : Z) : Prop :=
  fad_get_addrmode fl = mode /\
  if V then fad_get_prec fl = (if opc =? 2 then FSZ_Q else opc + 2)
  else fad_get_mem_extend fl = (if opc =? 0 then SZ_W else if opc =? 1 then SXTW else SZ_X) /\
       has_flag fl W32 = (opc =? 0).

Definition enc_pair (V load : bool) (opc : Z) (m : PairMode) (o rn_ rt rt2 : Z) : Z :=
  opc * 2 ^ 30 + 5 * 2 ^ 27 + Z.b2z V * 2 ^ 26 + pair_code m * 2 ^ 23 + Z.b2z load * 2 ^ 22 +
  (o / pair_scale V opc) `mod` 128 * 2 ^ 15 + rt2 * 2 ^ 10 + rn_ * 2 ^ 5 + rt.

Section Pair.
Context (V load : bool) (opc : Z) (m : PairMode) (o rn_ rt rt2 : Z) (Hopc : 0 <= opc < 3)
  (Hn : 0 <= rn_ < 32) (Ht : 0 <= rt < 32) (Ht2 : 0 <= rt2 < 32).

Lemma pair_fields :
  let b := enc_pair V load opc m o rn_ rt rt2 in
  bits b 30 3 = opc /\ bit b 26 = V /\ bit b 22 = load /\ bits b 15 127 = (o / pair_scale V opc) `mod` 128 /\
  bits b 10 31 = rt2 /\ regRn b = rn_ /\ regRd b = rt /\ bits b 23 127 = 80 + 8 * Z.b2z V + pair_code m.
Proof.
  cbv zeta. unfold enc_pair, regRn, regRd. pose proof (Z.mod_pos_bound (o / pair_scale V opc) 128 ltac:(lia)) as Hi.
  generalize dependent ((o / pair_scale V opc) `mod` 128). intros i Hi.
  rewrite (bits_at _ 30 3 2), !bit_at, (bits_at _ 15 127 7), (bits_at _ 10 31 5), (bits_at _ 5 31 5), (bits_at _ 0 31 5),
    (bits_at _ 23 127 7) by done.
  assert (0 <= pair_code m < 4) by (destruct m; cbn; lia).
  assert (forall x c, x = Z.b2z c -> negb (x =? 0) = c) as Hb by (intros x [] ->; done).
  split_and!; try apply Hb; destruct V, load; cbn [Z.b2z]; zdm.
Qed.

Lemma pair_decoded :
  let k := pair_scale V opc in
  o `mod` k = 0 -> -64 * k <= o < 64 * k ->
  exists fl, pair_flags V opc (pair_addrmode m) fl /\
    loads_and_stores (enc_pair V load opc m o rn_ rt rt2) =
    mkInst (pair_op V load m) fl rt (if rn_ =? 31 then STACK_POINTER else rn_) rt2 (UOffset o).
Proof.
  intros k Hk Ho. destruct pair_fields as (H30 & H26 & H22 & H15 & H10 & Hrn & Hrd & H23). cbv zeta in *.
  set (b := enc_pair V load opc m o rn_ rt rt2) in *.
  assert (0 < k) as Hk0 by (unfold k, pair_scale; destruct V; [lia | destruct (_ =? _); lia]).
  assert (k * sext ((o / k) `mod` 128) 7 = o) as Hoff.
  { change 128 with (2 ^ 7). fold (wrap 7 (o / k)).
    assert (in_s 7 (o / k)) by (split; [apply Z.div_le_lower_bound | apply Z.div_lt_upper_bound]; lia).
    rewrite sext_swrap, swrap_of_wrap by (try apply wrap_range; done || lia).
    pose proof (Z.div_mod o k). lia. }
  assert (loads_and_stores b = ls_pair (match m with PNoAlloc => true | _ => false end) b (set_addrmode 0 (pair_addrmode m))) as ->.
  { unfold loads_and_stores, ls_kind. rewrite H23. by destruct m, V. }
  unfold ls_pair. rewrite H30, H26, H22, H15, H10, Hrd. unfold regRnSP. rewrite Hrn. fold k. 
  assert (opc = 0 \/ opc = 1 \/ opc = 2) as Hc by lia.
  destruct Hc as [-> | [-> | ->]], V; eexists;
    (split; [|cbn [Z.eqb Pos.eqb]; cbv iota; f_equal; [destruct m; reflexivity | f_equal; exact Hoff]]);
    destruct m; vm_compute; auto.
Qed.
End Pair.

(** ** Literals *)

(** Addresses relative to the program counter: [LDR], [LDRSW] and, at the last
    [opc] of the integer forms, [PRFM]. *)
Definition literal_ok (V : bool) (opc : Z) : Prop := 0 <= opc < (if V then 3 else 4).
Definition literal_op (V : bool) (opc : Z) : Op := if V then A64_LDR_FP else if opc =? 3 then A64_PRFM else A64_LDR.
Definition literal_flags (V : bool) (opc fl : Z) : Prop :=
  fad_get_addrmode fl = AM_LITERAL /\
  if V then fad_get_prec fl = (if opc =? 2 then FSZ_Q else opc + 2)
  else opc < 3 ->
    fad_get_mem_extend fl = (if opc =? 0 then SZ_W else if opc =? 1 then SZ_X else SXTW) /\ has_flag fl W32 = (opc =? 0).
Definition enc_literal (V : bool) (opc o rt : Z) : Z :=
  opc * 2 ^ 30 + 3 * 2 ^ 27 + Z.b2z V * 2 ^ 26 + (o / 4) `mod` 2 ^ 19 * 2 ^ 5 + rt.

Lemma literal_fields V opc o rt :
  0 <= opc < 4 -> 0 <= rt < 32 ->
  let b := enc_literal V opc o rt in
  bits b 30 3 = opc /\ bit b 26 = V /\ bits b 5 0x7ffff = (o / 4) `mod` 2 ^ 19 /\ regRd b = rt /\
  exists k, 0 <= k < 2 /\ bits b 23 127 = 48 + 8 * Z.b2z V + k.
Proof.
  intros Ho Ht. cbv zeta. unfold enc_literal, regRd. pose proof (Z.mod_pos_bound (o / 4) (2 ^ 19) ltac:(lia)) as Hi.
  generalize dependent ((o / 4) `mod` 2 ^ 19). intros i Hi.
  rewrite (bits_at _ 30 3 2), bit_at, (bits_at _ 5 0x7ffff 19), (bits_at _ 0 31 5), (bits_at _ 23 127 7) by done.
  assert (forall x c, x = Z.b2z c -> negb (x =? 0) = c) as Hb by (intros x [] ->; done).
  split_and!; try apply Hb; try (destruct V; cbn [Z.b2z]; zdm).
  exists (i / 2 ^ 18). destruct V; cbn [Z.b2z]; zdm.
Qed.

Lemma literal_decoded V opc o rt :
  literal_ok V opc -> 0 <= rt < 32 -> o `mod` 4 = 0 -> in_s 21 o ->
  exists fl, literal_flags V opc fl /\
    loads_and_stores (enc_literal V opc o rt) = mkInst (literal_op V opc) fl rt 0 0 (UOffset o).
Proof.
  intros Hc Ht H4 Ho. assert (0 <= opc < 4) as Hc4 by (unfold literal_ok in Hc; destruct V; lia).
  destruct (literal_fields V opc o rt Hc4 Ht) as (H30 & H26 & H5 & Hrd & k & Hk & H23). cbv zeta in *. set (b := enc_literal V opc o rt) in *.
  pose proof (offset_decodes 19 o ltac:(lia) H4 Ho) as Hoff. change (19 + 2) with 21 in Hoff.
  assert (loads_and_stores b = ls_literal b (set_addrmode 0 AM_LITERAL)) as ->.
  { unfold loads_and_stores, ls_kind. rewrite H23. assert (k = 0 \/ k = 1) as [-> | ->] by lia; by destruct V. }
  unfold ls_literal. rewrite H30, H26, H5, Hrd. change (19 + 2) with 21. rewrite Hoff.
  destruct (below4 opc Hc4) as [-> | [-> | [-> | ->]]], V; unfold literal_ok in Hc; try lia;
    eexists; (split; [|reflexivity]); vm_compute; repeat split; intros; discriminate.
Qed.

(** C36. Loads and stores survive encoding and decoding.  Every allocated LDR and
    STR, integer or floating point, with every base-register address (scaled,
    unscaled, pre- and post-indexed offset, register with extension and
    scaling), every LDP, STP, LDNP and STNP, and every load of a literal
    (LDR and LDRSW relative to the program counter, and its PRFM) is decoded to
    its operation, registers, byte offset, addressing mode and, the prefetch
    aside, access size, signedness and register width. *)
Theorem ldst_roundtrip V rn_ rt :
  0 <= rn_ < 32 -> 0 <= rt < 32 ->
  let base := if rn_ =? 31 then STACK_POINTER else rn_ in
  (forall size opc a, allocated V size opc -> encodable (log_size V size opc) a ->
     exists fl, access_flags V size opc (addr_mode a) fl /\
       loads_and_stores (enc_ldst V size opc a rn_ rt) =
       let '(rm_, v) := addr_operand (log_size V size opc) a in mkInst (access_op V opc) fl rt base rm_ v) /\
  (forall load opc m o rt2, 0 <= opc < 3 -> 0 <= rt2 < 32 ->
     o `mod` pair_scale V opc = 0 -> -64 * pair_scale V opc <= o < 64 * pair_scale V opc ->
     exists fl, pair_flags V opc (pair_addrmode m) fl /\
       loads_and_stores (enc_pair V load opc m o rn_ rt rt2) = mkInst (pair_op V load m) fl rt base rt2 (UOffset o)) /\
  (forall opc o, literal_ok V opc -> o `mod` 4 = 0 -> in_s 21 o ->
     exists fl, literal_flags V opc fl /\
       loads_and_stores (enc_literal V opc o rt) = mkInst (literal_op V opc) fl rt 0 0 (UOffset o)).
Proof. intros Hn Ht base. split_and!; intros; [by apply ldst_decoded | by apply pair_decoded | by apply literal_decoded]. Qed.

(** [ldrsw x3, [sp], #-4], [stp x3, x4, [sp, #-16]!] and [ldrsw x3, .-4]. *)
Lemma ldst_roundtrip_witness :
  enc_ldst false 2 2 (APost (-4)) 31 3 = 0xb89fc7e3 /\
  (exists fl, fad_get_addrmode fl = AM_POST /\
     loads_and_stores 0xb89fc7e3 = mkInst A64_LDR fl 3 STACK_POINTER 0 (UOffset (-4))) /\
  (exists fl, fad_get_addrmode fl = AM_PRE /\
     loads_and_stores 0xa9bf13e3 = mkInst A64_STP fl 3 STACK_POINTER 4 (UOffset (-16))) /\
  exists fl, fad_get_addrmode fl = AM_LITERAL /\ fad_get_mem_extend fl = SXTW /\
     loads_and_stores 0x98ffffe3 = mkInst A64_LDR fl 3 0 0 (UOffset (-4)).
Proof.
  destruct (ldst_roundtrip false 31 3) as (H1 & H2 & H3); [lia | lia |]. split; [reflexivity|]. split; [|split].
  - destruct (H1 2 2 (APost (-4))) as (fl & [Hfl _] & E).
    + split; [lia|]. split; [lia|]. right. left. lia.
    + cbn [encodable]. lia.
    + exists fl. split; [exact Hfl | exact E].
  - destruct (H2 false 2 PPre (-16) 4) as (fl & [Hfl _] & E); [lia | lia | reflexivity | split; [discriminate | reflexivity] |].
    exists fl. split; [exact Hfl | exact E].
  - destruct (H3 2 (-4)) as (fl & [Hfl Hx] & E); [split; [discriminate | reflexivity] | reflexivity | split; vm_compute; [discriminate | reflexivity] |].
    exists fl. split; [exact Hfl|]. split; [apply Hx; reflexivity | exact E].
Defined.
