(* ===== verification/Main.v ===== *)
(** * Start-up, [client/main.c] and [__start_main] of [client/minilibc.c]

    The client starts without a dynamic loader: [__start_main] finds the
    auxiliary vector on the initial stack and applies the relocations of its own
    image.  [main] then brings up the other components in order, loads the guest
    program, builds the guest's initial stack and enters the dispatch loop. *)

From Stdlib Require Import ZArith Lia String.
From stdpp Require Import base numbers list list_numbers option gmap.
From S2P Require Import Prelude Machine Minilibc Memory Printf RtldTable RtldReloc RtldElf Translator State Dispatch ElfLoader Signals.

(** ** Constants *)

Definition AT_PHDR : Z := 3.
Definition AT_PHENT : Z := 4.
Definition AT_PHNUM : Z := 5.
Definition AT_PAGESZ : Z := 6.
Definition AT_ENTRY : Z := 9.
Definition AT_UID : Z := 11.
Definition AT_EUID : Z := 12.
Definition AT_GID : Z := 13.
Definition AT_EGID : Z := 14.
Definition AT_PLATFORM : Z := 15.
Definition AT_HWCAP : Z := 16.
Definition AT_CLKTCK : Z := 17.
Definition AT_SECURE : Z := 23.
Definition AT_RANDOM : Z := 25.
Definition AT_HWCAP2 : Z := 26.
Definition DT_RELA : Z := 7.
Definition DT_RELASZ : Z := 8.
Definition DT_REL : Z := 17.
Definition DT_RELSZ : Z := 18.
Definition EM_X86_64 : Z := 62.
Definition EM_AARCH64 : Z := 183.
Definition EM_RISCV : Z := 243.
Definition STACK_SIZE : Z := 0x1000000.
Definition MAP_GROWSDOWN : Z := 0x100.
Definition MAP_STACK : Z := 0x20000.
Definition ARCH_SET_FS : Z := 0x1002.
Definition R_RELATIVE (arch : Arch) : Z := match arch with X86_64 => 8 | AARCH64 => 1027 end.

(** ** Relocation of the client itself *)

(** A loop over the relocations ends, finds a type it does not support, or runs
    past the table because its size is no multiple of the entry size. *)
Inductive relocation := Relocated (m : memory) | Unsupported (m : memory) | Runaway (m : memory).

Definition ELF_R_TYPE (info : Z) : Z := Z.land info 0xffffffff.

(** [for (; relsz; rel += 2, relsz -= 2*sizeof(size_t))]. *)
Fixpoint rel_loop (fuel : nat) (arch : Arch) (base rel relsz : Z) (m : memory) : relocation :=
  if relsz =? 0 then Relocated m
  else
    match fuel with
    | O => Runaway m
    | S fuel' =>
        if negb (ELF_R_TYPE (loadZ m 8 (rel + 8)) =? R_RELATIVE arch) then Unsupported m
        else
          let tgt := u64 (base + loadZ m 8 rel) in
          rel_loop fuel' arch base (rel + 16) (u64 (relsz - 16))
            (storeZ m 8 tgt (u64 (loadZ m 8 tgt + base)))
    end.

(** [for (; relasz; rela += 3, relasz -= 3*sizeof(size_t))]. *)
Fixpoint rela_loop (fuel : nat) (arch : Arch) (base rela relasz : Z) (m : memory) : relocation :=
  if relasz =? 0 then Relocated m
  else
    match fuel with
    | O => Runaway m
    | S fuel' =>
        if negb (ELF_R_TYPE (loadZ m 8 (rela + 8)) =? R_RELATIVE arch) then Unsupported m
        else
          rela_loop fuel' arch base (rela + 24) (u64 (relasz - 24))
            (storeZ m 8 (u64 (base + loadZ m 8 rela)) (u64 (base + loadZ m 8 (rela + 16))))
    end.

(** The dynamic section. *)
Record Dyn := mkDyn { d_rel : Z; d_rela : Z; d_relsz : Z; d_relasz : Z }.
Fixpoint dyn_loop (fuel : nat) (m : memory) (base dynv : Z) (d : Dyn) : Dyn :=
  match fuel with
  | O => d
  | S fuel' =>
      let tag := loadZ m 8 dynv in
      let val := loadZ m 8 (dynv + 8) in
      if tag =? 0 then d
      else
        dyn_loop fuel' m base (dynv + 16)
          (if tag =? DT_REL then mkDyn (u64 (base + val)) (d_rela d) (d_relsz d) (d_relasz d)
           else if tag =? DT_RELA then mkDyn (d_rel d) (u64 (base + val)) (d_relsz d) (d_relasz d)
           else if tag =? DT_RELSZ then mkDyn (d_rel d) (d_rela d) val (d_relasz d)
           else if tag =? DT_RELASZ then mkDyn (d_rel d) (d_rela d) (d_relsz d) val
           else d)
  end.

(** [for (unsigned i = 0; i != phnum; i++)]: the base from [PT_DYNAMIC]. *)
Fixpoint dynamic_base (n : nat) (m : memory) (phdr dynv : Z) : Z :=
  match n with
  | O => 0
  | S n' =>
      if p_type m phdr =? PT_DYNAMIC then u64 (dynv - p_vaddr m phdr)
      else dynamic_base n' m (phdr + SIZEOF_PHDR) dynv
  end.

(** [if (dynv) ...]; the fuel of the loops is the number of entries that fit
    the size. *)
Definition relocate (arch : Arch) (m : memory) (auxvptr dynv : Z) : relocation :=
  if dynv =? 0 then Relocated m
  else
    let phnum := getauxval m auxvptr AT_PHNUM in
    let phent := getauxval m auxvptr AT_PHENT in
    let phdr := getauxval m auxvptr AT_PHDR in
    if negb (SIZEOF_PHDR =? phent) then Unsupported m
    else
      let base := dynamic_base (Z.to_nat phnum) m phdr dynv in
      let d := dyn_loop (S (base.size m)) m base dynv (mkDyn 0 0 0 0) in
      match rel_loop (Z.to_nat (d_relsz d / 16)) arch base (d_rel d) (d_relsz d) m with
      | Relocated m => rela_loop (Z.to_nat (d_relasz d / 24)) arch base (d_rela d) (d_relasz d) m
      | r => r
      end.

(** ** The guest's initial stack *)

(** [*(--stack_top) = v]. *)
Definition push (v : Z) (st : Z * memory) : Z * memory :=
  (st.1 - 8, storeZ st.2 8 (st.1 - 8) v).

(** [while (environ[envc]) envc++]. *)
Fixpoint count_env (fuel : nat) (m : memory) (environ : Z) (envc : Z) : Z :=
  match fuel with
  | O => envc
  | S fuel' => if loadZ m 8 (environ + 8 * envc) =? 0 then envc else count_env fuel' m environ (envc + 1)
  end.

(** [for (i = 0; i < n; i++) stack_top[i] = src[i]]. *)
Fixpoint copy_ptrs (n : nat) (i src stack_top : Z) (m : memory) : memory :=
  match n with
  | O => m
  | S n' => copy_ptrs n' (i + 1) src stack_top (storeZ m 8 (stack_top + 8 * i) (loadZ m 8 (src + 8 * i)))
  end.

(** The pairs of the auxiliary vector, each pushed value first. *)
Definition push_aux (type v : Z) (st : Z * memory) : Z * memory := push type (push v st).
Definition push_host (auxvptr type : Z) (st : Z * memory) : Z * memory :=
  push_aux type (getauxval st.2 auxvptr type) st.

Definition guest_auxv (info : BinaryInfo) (platform auxvptr : Z) (st : Z * memory) : Z * memory :=
  let st := push 0 st in
  let st := push_aux AT_ENTRY (elf_entry info) st in
  let st := push_aux AT_PHDR (phdr info) st in
  let st := push_aux AT_PHENT (phent info) st in
  let st := push_aux AT_PHNUM (phnum info) st in
  let st := push_aux AT_PLATFORM platform st in
  let st := push_host auxvptr AT_RANDOM st in
  let st := push_host auxvptr AT_UID st in
  let st := push_host auxvptr AT_EUID st in
  let st := push_host auxvptr AT_GID st in
  let st := push_host auxvptr AT_EGID st in
  let st := push_host auxvptr AT_CLKTCK st in
  let st := push_host auxvptr AT_PAGESZ st in
  let st := push_aux AT_HWCAP 0x8001 st in
  let st := push_aux AT_HWCAP2 0 st in
  push_aux AT_SECURE 0 st.

(** A block of pointers below the top, as [stack_top -= n] and the loop. *)
Definition push_ptrs (n src : Z) (st : Z * memory) : Z * memory :=
  let stack_top := st.1 - 8 * n in
  (stack_top, copy_ptrs (Z.to_nat n) 0 src stack_top st.2).

(** [stack_top] and the memory when the stack is complete. *)
Definition guest_stack (info : BinaryInfo) (platform auxvptr environ argc argv stack : Z) (m : memory)
    : Z * memory :=
  let stack_top := stack + STACK_SIZE in
  let envc := count_env (S (base.size m)) m environ 0 in
  let st := (stack_top - 8 * Z.land (argc + envc) 1, m) in
  let st := guest_auxv info platform auxvptr st in
  let st := push 0 st in
  let st := push_ptrs envc environ st in
  let st := push 0 st in
  let st := push_ptrs argc argv st in
  push argc st.

(** ** [main] *)

Section Main.
Context {W : Type} `{Kernel W}.
Context (arch : Arch) (link : string -> Z).

(** The address of [PLATFORM_STRING], and the globals of [minilibc.c]. *)
Context (platform auxvptr environ : Z).

(** The code at an address: [disp_info->loop_func]. *)
Context (run : Z -> CM W unit).

Definition set_thread_area (tp : Z) : ST (Proc W) Z :=
  match arch with
  | X86_64 => r ← syscall NR_arch_prctl [ARCH_SET_FS; tp]; mret (s32 r)
  | AARCH64 => mret 0
  end.

Definition set_tsc (t : TranslatorServerConfig) (s : State) : State :=
  mkState (rtld s) (translator s) (rew_time s) (sigact s) t (tc s).
Definition set_tc (t : TranslatorConfig) (s : State) : State :=
  mkState (rtld s) (translator s) (rew_time s) (sigact s) (tsc s) t.

(** [struct State state = {0}]. *)
Definition state0 : State :=
  mkState (mkRtld 0 0 (mkDisp 0 0 0 0) 0 ∅ 0) (mkTr 0 0 0 0 0 0 0) 0 ∅ (mkTsc 0 0 0 0 0) (mkTc 0 0 0 0 0).

Definition host_config (machine : Z) : TranslatorServerConfig :=
  match arch with
  | X86_64 => mkTsc machine EM_X86_64 0 0 8
  | AARCH64 => mkTsc machine EM_AARCH64 0 0 0
  end.

(** A C string in memory. *)
Definition cstr (m : memory) (a : Z) : list Z := load_bytes m a (Z.to_nat (strlen (S (base.size m)) (mptr m a))).

(** [return retval] before the dispatch loop, or what the loop starts from. *)
Definition started : Type := Z + State * CpuState * DispatcherInfo.
Definition fail (msg : string) (retval : Z) : ST (Proc W) started := message msg;; mret (inl retval).

(** The register the guest architecture uses as stack pointer. *)
Definition sp_reg (guest_arch : Z) : option Z :=
  if guest_arch =? EM_X86_64 then Some 5
  else if guest_arch =? EM_RISCV then Some 3
  else if guest_arch =? EM_AARCH64 then Some 33
  else None.

(** [sizeof(struct CpuState)], aligned to 64. *)
Definition SIZEOF_CPU : Z := 0x4500.

(** From the CPU state on. *)
Definition start_cpu (s : State) (d : DispatcherInfo) (info : BinaryInfo) (stack_top : Z) : ST (Proc W) started :=
  cpu_state ← mem_alloc_data SIZEOF_CPU 64;
  memset cpu_state 0 SIZEOF_CPU;;
  retval ← set_thread_area cpu_state;
  if negb (retval =? 0) then fail "error: could not set thread area" retval
  else
    let cpu := set_reg 0 (exec_entry info) (cpu0 cpu_state) in
    match sp_reg (tsc_guest_arch (tsc s)) with
    | Some r => mret (inr (s, set_reg r stack_top cpu, d))
    | None => fail "error: unsupported architecture" (- ENOEXEC)
    end.

(** From the runtime linker on. *)
Definition start_rtld (s : State) (d : DispatcherInfo) (info : BinaryInfo) (stack_top : Z) : ST (Proc W) started :=
  '(retval, r) ← rtld_init arch link (rtld s) d;
  if retval <? 0 then fail "error: could not initialize runtime linker" retval
  else
    '(retval, r) ← rtld_perf_init arch r (tc_perf (tc s));
    (if retval <? 0 then message "warning: could not initialize perf support";; mret tt else mret tt);;
    '(retval, t, obj) ← translator_get_object (translator s);
    if retval <? 0 then fail "error: could not get initial object" retval
    else
      let '(initobj, initobj_size) := default (0, 0) obj in
      '(retval, r) ←
        (if 0 <? initobj_size then rtld_add_object arch link r initobj initobj_size 0 else mret (retval, r));
      if retval <? 0 then fail "error: could not get initial object" retval
      else start_cpu (set_rtld r (set_translator t s)) d info stack_top.

(** From the allocation of the guest stack on. *)
Definition start_stack (s : State) (d : DispatcherInfo) (info : BinaryInfo) (argc argv : Z) : ST (Proc W) started :=
  stack ← mmap 0 STACK_SIZE (Z.lor PROT_READ PROT_WRITE)
            (Z.lor (Z.lor (Z.lor MAP_PRIVATE MAP_ANONYMOUS) MAP_GROWSDOWN) MAP_STACK) (-1) 0;
  if BAD_ADDR stack then fail "error: failed to allocate stack" (s32 stack)
  else
    mprotect stack 0x1000 PROT_NONE;;
    m ← gets mem;
    let '(stack_top, m) := guest_stack info platform auxvptr environ argc argv stack m in
    modify (set_mem m);;
    start_rtld s d info stack_top.

(** The whole of [main] up to the dispatch loop. *)
Definition main_setup (argc argv : Z) : ST (Proc W) started :=
  if argc <? 3 then fail "usage: CONFSTR EXECUTABLE [ARGS...]" 1
  else
    m ← gets mem;
    let server_config := loadZ m 8 (argv + 8) in
    let argc := argc - 2 in
    let argv := argv + 16 in
    signal_init link;;
    retval ← mem_init;
    if retval <? 0 then fail "error: failed to initialize heap" retval
    else
      m ← gets mem;
      '(retval, info) ← load_elf_binary (loadZ m 8 argv);
      if negb (retval =? 0) then fail "error: could not load file" retval
      else
        let info := default (mkInfo 0 0 0 0 0 0) info in
        let conf := host_config (machine info) in
        m ← gets mem;
        '(retval, t) ← translator_init (cstr m server_config) conf;
        if negb (retval =? 0) then fail "error: could not spawn rewriting server" retval
        else
          '(retval, t, c) ←
            with_local SIZEOF_TC (fun cfg =>
              '(retval, t) ← translator_config_fetch t cfg;
              m ← gets mem;
              mret (retval, t, load_tc m cfg));
          if negb (retval =? 0) then fail "error: could not fetch client configuration" 1
          else
            let s := set_tc c (set_translator t (set_tsc conf state0)) in
            match dispatch_get arch link s with
            | None => fail "error: unsupported calling convention" (- EOPNOTSUPP)
            | Some d =>
                if loop_func d =? 0 then fail "error: unsupported calling convention" (- EOPNOTSUPP)
                else start_stack s d info argc argv
            end.

(** [main]: the loop only returns to its caller when the model's rounds are
    used up; [retval] is zero by then. *)
Definition main (argc argv : Z) : Proc W -> outcome Z * Proc W :=
  fun p =>
    match main_setup argc argv p with
    | (inl retval, p) => (Done retval, p)
    | (inr (s, cpu, d), p) =>
        let '(o, c) := run (loop_func d) (mkClient p s cpu ∅) in
        (match o with Done _ => Done 0 | Exit e => Exit e | Killed k => Killed k | Waiting => Waiting end, proc c)
    end.

End Main.

(** ** [__start_main] *)

(** [for (; *aux != 0; ++aux) {}]. *)
Fixpoint skip_words (fuel : nat) (m : memory) (aux : Z) : Z :=
  match fuel with
  | O => aux
  | S fuel' => if loadZ m 8 aux =? 0 then aux else skip_words fuel' m (aux + 8)
  end.

Section Start.
Context {W : Type} `{Kernel W}.
Context (arch : Arch) (link : string -> Z) (platform : Z) (run : Z -> CM W unit).

Definition set_pagesize (n : Z) (p : Proc W) : Proc W :=
  mkProc (mem p) (kst p) (main_arena_code p) (main_arena_data p) n (sp p).

(** The function does not return: [_exit(retval)]. *)
Definition start_main (initial_stack dynv : Z) : Proc W -> outcome Z * Proc W :=
  fun p =>
    let argc := s32 (loadZ (mem p) 8 initial_stack) in
    let environ := initial_stack + 8 * (argc + 2) in
    let auxvptr := skip_words (S (base.size (mem p))) (mem p) environ + 8 in
    let p := set_pagesize (getauxval (mem p) auxvptr AT_PAGESZ) p in
    match relocate arch (mem p) auxvptr dynv with
    | Unsupported m => (Exit (- ENOEXEC), set_mem m p)
    | Runaway m => (Waiting, set_mem m p)
    | Relocated m =>
        let '(o, p) := main arch link platform auxvptr environ run argc (initial_stack + 8) (set_mem m p) in
        (match o with Done retval => Exit retval | o => o end, p)
    end.

End Start.
