(* ===== verification/MainProofs.v ===== *)
(** * Start-up: the guest's stack, self-relocation, and what the loop starts from

    Proofs for [Main.v]. *)

From Stdlib Require Import ZArith Lia String.
From stdpp Require Import base numbers list list_numbers option gmap.
From S2P Require Import Prelude Machine Loopback Minilibc Memory Printf RtldTable RtldReloc RtldElf Translator State Dispatch DispatchProofs ElfLoader Signals Main.

(** ** Words in memory *)

Definition words_at (m : memory) (a : Z) (ws : list Z) : Prop :=
  forall i w, ws !! i = Some w -> loadZ m 8 (a + 8 * Z.of_nat i) = w.

Lemma words_at_ext m m' a ws :
  words_at m a ws -> (forall x, a <= x < a + 8 * Z.of_nat (length ws) -> getb m' x = getb m x) -> words_at m' a ws.
Proof.
  intros H E i w Hi. apply lookup_lt_Some in Hi as Hl. rewrite <- (H i w Hi). apply loadZ_ext.
  intros x Hx. apply E. lia.
Qed.

Lemma words_at_app m a ws1 ws2 :
  words_at m a ws1 -> words_at m (a + 8 * Z.of_nat (length ws1)) ws2 -> words_at m a (ws1 ++ ws2).
Proof.
  intros H1 H2 i w Hi. apply lookup_app_Some in Hi as [Hi|[Hl Hi]]; [by apply H1|].
  rewrite <- (H2 _ _ Hi). f_equal. lia.
Qed.

(** A word that is not zero has a byte that is stored. *)
Lemma loadZ_nonzero m n a :
  loadZ m n a <> 0 -> exists x, a <= x < a + Z.of_nat n /\ is_Some (m !! x).
Proof.
  unfold loadZ. revert a; induction n as [|n IH]; intros a Hl; cbn [load_bytes little_endian_to_Z] in Hl; [done|].
  unfold getb in Hl at 1. destruct (m !! a) as [b|] eqn:E.
  - exists a. split; [lia | by rewrite E].
  - destruct (IH (a + 1)) as (x & Hx & Hs).
    + intros E0. apply Hl. by rewrite E0.
    + exists x. split; [lia | done].
Qed.

(** Hence the non-zero words of an array are no more than the cells stored. *)
Lemma nonzero_words_size n (m : memory) a k :
  8 <= k -> (forall i, 0 <= i < Z.of_nat n -> loadZ m 8 (a + k * i) <> 0) -> (n <= base.size m)%nat.
Proof.
  intros Hk. revert m; induction n as [|n IH]; intros m Hw; [lia|].
  destruct (loadZ_nonzero m 8 (a + k * Z.of_nat n)) as (x & Hx & [b Hb]); [apply Hw; lia|].
  assert (n <= base.size (delete x m))%nat as Hd.
  { apply IH. intros i Hi. rewrite (loadZ_ext _ m); [apply Hw; lia|].
    intros y Hy. unfold getb. rewrite lookup_delete_ne; [done|]. nia. }
  assert (base.size m <> 0%nat) by (intros E; apply map_size_empty_inv in E; by rewrite E in Hb).
  rewrite map_size_delete_Some in Hd by (by exists b). lia.
Qed.

(** ** The host's auxiliary vector *)

(** The entries [es] and the terminating type zero. *)
Definition auxv_at (m : memory) (a : Z) (es : list (Z * Z)) : Prop :=
  words_at m a (es ≫= (fun e => [e.1; e.2])) /\ loadZ m 8 (a + 16 * Z.of_nat (length es)) = 0 /\
  Forall (fun e => e.1 <> 0) es.
Definition aux_value (es : list (Z * Z)) (t : Z) : Z := default 0 (snd <$> find (fun e => e.1 =? t) es).

Lemma auxv_cons m a e es : auxv_at m a (e :: es) -> loadZ m 8 a = e.1 /\ loadZ m 8 (a + 8) = e.2 /\ auxv_at m (a + 16) es.
Proof.
  intros (H1 & H2 & H3). split; [rewrite <- (Z.add_0_r a); by apply (H1 0%nat)|].
  split; [by apply (H1 1%nat)|]. split; [|split].
  - intros i w Hi. rewrite <- (H1 (S (S i)) w Hi). f_equal. lia.
  - rewrite <- H2. f_equal. cbn [length]. lia.
  - by apply Forall_cons in H3 as [_ H3].
Qed.

Lemma getauxval_loop_spec fuel m a es t :
  auxv_at m a es -> (length es < fuel)%nat -> getauxval_loop fuel m a t = aux_value es t.
Proof.
  revert a es; induction fuel as [|fuel IH]; intros a es He Hf; [lia|]. cbn [getauxval_loop].
  destruct es as [|e es].
  - destruct He as (_ & He & _). change (16 * Z.of_nat (length [])) with 0 in He. rewrite Z.add_0_r in He. by rewrite He.
  - destruct (auxv_cons _ _ _ _ He) as (E1 & E2 & E3). destruct He as (_ & _ & Hn). apply Forall_cons in Hn as [Hn _].
    rewrite E1, (proj2 (Z.eqb_neq _ 0) Hn). unfold aux_value. cbn [find].
    destruct (e.1 =? t); [by rewrite E2|]. rewrite IH with (es := es); [done | done | cbn in Hf; lia].
Qed.

Lemma auxv_size m a es : auxv_at m a es -> (length es <= base.size m)%nat.
Proof.
  intros He. apply (nonzero_words_size _ m a 16); [lia|]. revert a He.
  induction es as [|e es IH]; intros a He i Hi; [cbn in Hi; lia|].
  destruct (auxv_cons _ _ _ _ He) as (E1 & E2 & E3). destruct (decide (i = 0)) as [->|Hn].
  - rewrite Z.mul_0_r, Z.add_0_r, E1. destruct He as (_ & _ & Hn). by apply Forall_cons in Hn as [Hn _].
  - replace (a + 16 * i) with (a + 16 + 16 * (i - 1)) by lia. apply IH; [done|]. cbn in Hi. lia.
Qed.

Lemma getauxval_spec m a es t : auxv_at m a es -> getauxval m a t = aux_value es t.
Proof. intros He. apply getauxval_loop_spec; [done|]. pose proof (auxv_size m a es He). lia. Qed.

Lemma auxv_ext m m' a es :
  auxv_at m a es -> (forall x, a <= x < a + 16 * Z.of_nat (length es) + 8 -> getb m' x = getb m x) -> auxv_at m' a es.
Proof.
  intros (H1 & H2 & H3) E. split; [|split; [|done]].
  - apply (words_at_ext m); [done|]. intros x Hx. apply E.
    assert (length (es ≫= (fun e => [e.1; e.2])) = 2 * length es)%nat as L
      by (clear; induction es as [|e es IH]; cbn; lia). lia.
  - rewrite (loadZ_ext _ m); [done|]. intros x Hx. apply E. lia.
Qed.

(** ** The guest's stack *)

Section Stack.
Context (m0 : memory) (T0 : Z).

(** [ws] has been pushed below [T0], and nothing else has changed. *)
Definition built (ws : list Z) (st : Z * memory) : Prop :=
  st.1 + 8 * Z.of_nat (length ws) = T0 /\ words_at st.2 st.1 ws /\
  forall x, x < st.1 \/ T0 <= x -> getb st.2 x = getb m0 x.

Lemma built_nil : built [] (T0, m0).
Proof. split; [cbn; lia|]. split; [by intros [|i] w Hi|done]. Qed.

Lemma push_built ws st v : in_u 64 v -> built ws st -> built (v :: ws) (push v st).
Proof.
  intros Hv (Hl & Hw & Hx). unfold push. split; [cbn [fst length]; lia|]. cbn [fst snd]. split.
  - intros [|i] w Hi; cbn in Hi.
    + injection Hi as <-. rewrite Z.mul_0_r, Z.add_0_r, loadZ_storeZ. apply wrap_small, Hv.
    + rewrite loadZ_storeZ_disjoint by lia. rewrite <- (Hw i w Hi). f_equal. lia.
  - intros x Hx'. unfold storeZ. rewrite getb_store_out by (rewrite length_le; lia). apply Hx. lia.
Qed.
Lemma push_aux_built ws st t v : in_u 64 t -> in_u 64 v -> built ws st -> built (t :: v :: ws) (push_aux t v st).
Proof. intros Ht Hv Hb. by apply push_built, push_built. Qed.

Lemma copy_ptrs_spec n i src top ws m :
  (forall k, (k < n)%nat -> loadZ m 8 (src + 8 * (i + Z.of_nat k)) = default 0 (ws !! k)) ->
  length ws = n -> Forall (in_u 64) ws ->
  src + 8 * (i + Z.of_nat n) <= top + 8 * i \/ top + 8 * (i + Z.of_nat n) <= src + 8 * i ->
  words_at (copy_ptrs n i src top m) (top + 8 * i) ws /\
  forall x, x < top + 8 * i \/ top + 8 * (i + Z.of_nat n) <= x -> getb (copy_ptrs n i src top m) x = getb m x.
Proof.
  revert i ws m; induction n as [|n IH]; intros i ws m Hs Hl Hu Hd; cbn [copy_ptrs].
  - apply nil_length_inv in Hl as ->. split; [by intros [|k] w Hk | done].
  - destruct ws as [|v ws]; [done|]. apply Forall_cons in Hu as [Hv Hu].
    pose proof (Hs 0%nat ltac:(lia)) as H0. change (default 0 ((v :: ws) !! 0%nat)) with v in H0.
    change (Z.of_nat 0) with 0 in H0. rewrite Z.add_0_r in H0. rewrite H0.
    destruct (IH (i + 1) ws (storeZ m 8 (top + 8 * i) v)) as [IH1 IH2]; try done; try lia.
    + intros k Hk. rewrite loadZ_storeZ_disjoint by lia. specialize (Hs (S k) ltac:(lia)).
      change ((v :: ws) !! S k) with (ws !! k) in Hs.
      rewrite <- Hs. f_equal. lia.
    + cbn in Hl. lia.
    + split.
      * intros [|k] w Hk; cbn in Hk.
        -- injection Hk as <-. rewrite (loadZ_ext _ (storeZ m 8 (top + 8 * i) v));
             [|intros x Hx; apply IH2; lia].
           rewrite Z.mul_0_r, Z.add_0_r, loadZ_storeZ. by apply wrap_small.
        -- rewrite <- (IH1 k w Hk). f_equal. lia.
      * intros x Hx. rewrite IH2 by lia. unfold storeZ. apply getb_store_out. rewrite length_le. lia.
Qed.

Lemma push_ptrs_built ws st src ptrs lo :
  built ws st -> words_at m0 src ptrs -> Forall (in_u 64) ptrs ->
  lo <= st.1 - 8 * Z.of_nat (length ptrs) ->
  src + 8 * Z.of_nat (length ptrs) <= lo \/ T0 <= src ->
  built (ptrs ++ ws) (push_ptrs (Z.of_nat (length ptrs)) src st).
Proof.
  intros (Hl & Hw & Hx) Hp Hu Hlo Hd. unfold push_ptrs. cbn zeta. rewrite Nat2Z.id.
  set (n := length ptrs) in *. set (top := st.1 - 8 * Z.of_nat n).
  destruct (copy_ptrs_spec n 0 src top ptrs st.2) as [C1 C2]; try done; try lia.
  { intros k Hk. destruct (lookup_lt_is_Some_2 ptrs k) as [w Hw']; [lia|]. rewrite Hw'. change (default 0 (Some w)) with w.
    rewrite (loadZ_ext _ m0); [by apply Hp|]. intros x Hx'. apply Hx. lia. }
  rewrite Z.mul_0_r, Z.add_0_r, ?Z.add_0_l in *. split; [|split]; cbn [fst snd].
  - rewrite length_app. fold n. lia.
  - apply words_at_app; [done|]. replace (top + 8 * Z.of_nat (length ptrs)) with st.1 by (fold n; lia).
    apply (words_at_ext st.2); [done|]. intros x Hx'. apply C2. lia.
  - intros x Hx'. rewrite C2 by lia. apply Hx. lia.
Qed.

Lemma count_env_spec fuel m environ (envs : list Z) k :
  words_at m environ (envs ++ [0]) -> Forall (fun e => e <> 0) envs -> (k <= length envs)%nat ->
  (length envs < fuel + k)%nat -> count_env fuel m environ (Z.of_nat k) = Z.of_nat (length envs).
Proof.
  intros Hw Hn. revert k; induction fuel as [|fuel IH]; intros k Hk Hf; [lia|]. cbn [count_env].
  destruct (decide (k = length envs)) as [->|Hne].
  - rewrite (Hw (length envs) 0); [done|]. by rewrite lookup_app_r, Nat.sub_diag by lia.
  - destruct (lookup_lt_is_Some_2 envs k) as [e He]; [lia|].
    rewrite (Hw k e) by (rewrite lookup_app_l by lia; done).
    rewrite (proj2 (Z.eqb_neq e 0)) by (by apply (Forall_lookup_1 _ _ _ _ Hn He)).
    replace (Z.of_nat k + 1) with (Z.of_nat (S k)) by lia. apply IH; lia.
Qed.

Lemma env_size m environ (envs : list Z) :
  words_at m environ (envs ++ [0]) -> Forall (fun e => e <> 0) envs -> (length envs <= base.size m)%nat.
Proof.
  intros Hw Hn. apply (nonzero_words_size _ m environ 8); [lia|]. intros i Hi.
  destruct (lookup_lt_is_Some_2 envs (Z.to_nat i)) as [e He]; [lia|].
  pose proof (Hw (Z.to_nat i) e ltac:(rewrite lookup_app_l by lia; done)) as E.
  rewrite Z2Nat.id in E by lia. rewrite E. by apply (Forall_lookup_1 _ _ _ _ Hn He).
Qed.
End Stack.

(** The auxiliary vector the guest sees, from low to high addresses. *)
Definition guest_aux (info : BinaryInfo) (platform : Z) (es : list (Z * Z)) : list Z :=
  let host t := [t; aux_value es t] in
  [AT_SECURE; 0; AT_HWCAP2; 0; AT_HWCAP; 0x8001] ++ host AT_PAGESZ ++ host AT_CLKTCK ++ host AT_EGID ++
  host AT_GID ++ host AT_EUID ++ host AT_UID ++ host AT_RANDOM ++
  [AT_PLATFORM; platform; AT_PHNUM; phnum info; AT_PHENT; phent info; AT_PHDR; phdr info;
   AT_ENTRY; elf_entry info; 0].

Lemma guest_aux_length info platform es : length (guest_aux info platform es) = 31%nat.
Proof. done. Qed.

Definition info_ok (info : BinaryInfo) : Prop :=
  in_u 64 (elf_entry info) /\ in_u 64 (phdr info) /\ in_u 64 (phent info) /\ in_u 64 (phnum info).

Lemma aux_value_range es t : Forall (fun e => in_u 64 e.2) es -> in_u 64 (aux_value es t).
Proof.
  intros He. unfold aux_value. destruct (find _ es) as [e|] eqn:E; cbn; [|unfold in_u; lia].
  apply List.find_some in E as [Hin _]. rewrite List.Forall_forall in He. by apply He.
Qed.

(** The guest's vector, pushed below [T0]. *)
Lemma guest_auxv_built m0 T0 lo info platform auxvptr es :
  info_ok info -> in_u 64 platform -> auxv_at m0 auxvptr es -> Forall (fun e => in_u 64 e.2) es ->
  auxvptr + 16 * Z.of_nat (length es) + 8 <= lo \/ T0 <= auxvptr -> lo + 8 * 31 <= T0 ->
  built m0 T0 (guest_aux info platform es) (guest_auxv info platform auxvptr (T0, m0)).
Proof.
  intros (I1 & I2 & I3 & I4) Hp Ha He Hd Hlo. unfold guest_auxv.
  assert (forall ws st t, built m0 T0 ws st -> (length ws <= 29)%nat -> in_u 64 t ->
    built m0 T0 (t :: aux_value es t :: ws) (push_host auxvptr t st)) as Hh.
  { intros ws st t Hb Hl Ht. unfold push_host.
    rewrite (getauxval_spec st.2 auxvptr es).
    - apply push_aux_built; [done | by apply aux_value_range | done].
    - apply (auxv_ext m0); [done|]. intros x Hx. destruct Hb as (Hb1 & _ & Hb3). apply Hb3. lia. }
  assert (forall k, 0 <= k < 0x10000 -> in_u 64 k) as Hk by (unfold in_u; lia).
  unfold guest_aux. cbv zeta. cbn [app].
  repeat lazymatch goal with
  | |- built _ _ _ (push_host _ _ _) =>
      apply Hh; [| cbn [length]; lia | apply Hk; vm_compute; split; [discriminate | reflexivity]]
  | |- built _ _ _ (push_aux _ _ _) =>
      apply push_aux_built;
        [apply Hk; vm_compute; split; [discriminate | reflexivity] | first [assumption | apply Hk; lia] |]
  end.
  apply push_built; [apply Hk; lia | apply built_nil].
Qed.

(** C24. The guest's initial stack is the one its ABI prescribes: the argument
    count, the argument pointers, a null pointer, the environment pointers, a
    null pointer and the auxiliary vector follow each other from [stack_top]
    up, which is aligned to 16 bytes and lies inside the allocated block;
    nothing below it and nothing outside the block has changed. *)
Theorem guest_stack_layout info platform auxvptr environ argv stack m es envs args :
  info_ok info -> in_u 64 platform -> Forall (fun e => in_u 64 e.2) es ->
  Forall (in_u 64) envs -> Forall (in_u 64) args -> stack `mod` 16 = 0 ->
  auxv_at m auxvptr es -> words_at m environ (envs ++ [0]) -> Forall (fun e => e <> 0) envs -> words_at m argv args ->
  let outside a n := a + n <= stack \/ stack + STACK_SIZE <= a in
  outside auxvptr (16 * Z.of_nat (length es) + 8) -> outside environ (8 * Z.of_nat (length envs)) ->
  outside argv (8 * Z.of_nat (length args)) ->
  8 * (Z.of_nat (length args + length envs) + 35) <= STACK_SIZE ->
  let argc := Z.of_nat (length args) in
  let '(top, m') := guest_stack info platform auxvptr environ argc argv stack m in
  words_at m' top ([argc] ++ args ++ [0] ++ envs ++ [0] ++ guest_aux info platform es) /\
  top `mod` 16 = 0 /\ stack <= top < stack + STACK_SIZE /\
  forall x, x < top \/ stack + STACK_SIZE <= x -> getb m' x = getb m x.
Proof.
  intros Hi Hp Hes Henv Harg Hal Haux Hwe Hne Hwa outside Oa Oe Og Hfit argc.
  unfold outside in *. clear outside. unfold guest_stack.
  rewrite (count_env_spec _ m environ envs 0) by (done || pose proof (env_size m environ envs Hwe Hne); lia).
  set (envc := Z.of_nat (length envs)). set (pad := Z.land (argc + envc) 1).
  assert (pad = (argc + envc) `mod` 2) as Hpad by apply (Z.land_ones (argc + envc) 1 ltac:(lia)).
  set (T0 := stack + STACK_SIZE - 8 * pad).
  assert (0 <= pad < 2) by (rewrite Hpad; apply Z.mod_pos_bound; lia).
  pose proof (guest_auxv_built m T0 stack info platform auxvptr es Hi Hp Haux Hes) as B.
  specialize (B ltac:(unfold T0; lia) ltac:(unfold T0; lia)).
  assert (in_u 64 0) as H0 by (unfold in_u; lia).
  apply (push_built m T0 _ _ 0 H0) in B. set (st1 := push 0 _) in *.
  assert (st1.1 = T0 - 8 * 32) as E1 by (destruct B as (B1 & _); cbn [length] in B1; rewrite guest_aux_length in B1; lia).
  apply (push_ptrs_built m T0 _ _ environ envs stack) in B; [| |done|unfold T0, envc, argc in *; lia|unfold T0, envc, argc in *; lia].
  2: { intros i w Hi'. apply Hwe. apply lookup_lt_Some in Hi' as ?. by rewrite lookup_app_l by lia. }
  fold envc in B. apply (push_built m T0 _ _ 0 H0) in B. set (st2 := push 0 (push_ptrs envc environ st1)) in *.
  assert (st2.1 = T0 - 8 * (33 + envc)) as E2 by (destruct B as (B1 & _); cbn [length] in B1;
    rewrite length_app in B1; cbn [length] in B1; rewrite guest_aux_length in B1; unfold envc; lia).
  apply (push_ptrs_built m T0 _ _ argv args stack) in B; [|done|done|unfold T0, envc, argc in *; lia|unfold T0, envc, argc in *; lia].
  fold argc in B. apply (push_built m T0 _ _ argc) in B; [|unfold in_u, argc, STACK_SIZE in *; lia].
  destruct (push argc (push_ptrs argc argv st2)) as [top m'] eqn:E. destruct B as (B1 & B2 & B3). cbn [fst snd] in *.
  assert (top = T0 - 8 * (34 + envc + argc)) as Et.
  { cbn [length] in B1. rewrite length_app in B1. cbn [length] in B1. rewrite length_app in B1.
    cbn [length] in B1. rewrite guest_aux_length in B1. unfold envc, argc. lia. }
  split; [exact B2|]. unfold STACK_SIZE in *. split; [|split].
  - rewrite Et. unfold T0. zdm.
  - unfold T0, envc, argc in *. lia.
  - intros x Hx. apply B3. unfold T0, envc, argc in *. lia.
Qed.

Lemma guest_stack_layout_witness :
  let m := store_bytes ∅ 0x8000 (le8 0x9000 ++ le8 0 ++ le8 0x9100 ++ le8 0 ++ le8 AT_PAGESZ ++ le8 4096) in
  let info := mkInfo 0x401000 0x401000 62 0x400040 4 56 in
  let '(top, m') := guest_stack info 0x7000 0x8020 0x8010 1 0x8000 0x100000 m in
  words_at m' top ([1; 0x9000; 0; 0x9100; 0] ++ guest_aux info 0x7000 [(AT_PAGESZ, 4096)]).
Proof.
  intros m info.
  pose proof (guest_stack_layout info 0x7000 0x8020 0x8010 0x8000 0x100000 m [(AT_PAGESZ, 4096)] [0x9100] [0x9000]) as T.
  cbv zeta in T. cbn [length] in T.
  destruct (guest_stack info 0x7000 0x8020 0x8010 (Z.of_nat 1) 0x8000 0x100000 m) as [top m'] eqn:E.
  change (Z.of_nat 1) with 1 in E. rewrite E. apply T; clear T E.
  - repeat split; vm_compute; discriminate || reflexivity.
  - split; vm_compute; discriminate || reflexivity.
  - repeat constructor; vm_compute; discriminate || reflexivity.
  - repeat constructor; vm_compute; discriminate || reflexivity.
  - repeat constructor; vm_compute; discriminate || reflexivity.
  - reflexivity.
  - split; [|split; [vm_compute; reflexivity | repeat constructor; discriminate]].
    intros [|[|i]] w Hi; try discriminate Hi; injection Hi as <-; vm_compute; reflexivity.
  - intros [|[|i]] w Hi; try discriminate Hi; injection Hi as <-; vm_compute; reflexivity.
  - repeat constructor; discriminate.
  - intros [|i] w Hi; try discriminate Hi; injection Hi as <-; vm_compute; reflexivity.
  - left. vm_compute. discriminate.
  - left. vm_compute. discriminate.
  - left. vm_compute. discriminate.
  - vm_compute. discriminate.
Defined.
