(* ===== verification/MainReloc.v ===== *)
(** * Self-relocation of the client

    [__start_main] applies the relocations of the client's own image before
    anything else runs: every word the relocation table names ends up holding
    the load address plus its addend, and nothing else changes. *)

From Stdlib Require Import ZArith Lia String.
From stdpp Require Import base numbers list list_numbers option gmap.
From S2P Require Import Prelude Machine Minilibc Memory Printf RtldTable RtldReloc RtldElf ElfLoader Main MainProofs.

(** An entry of the table: offset, info word, addend. *)
Record Rela := mkRela { r_off : Z; r_inf : Z; r_add : Z }.
Definition rela_words (rs : list Rela) : list Z := rs ≫= (fun r => [r_off r; r_inf r; r_add r]).

Section Rela.
Context (arch : Arch) (base : Z).

Definition target (r : Rela) : Z := u64 (base + r_off r).
Definition value (r : Rela) : Z := u64 (base + r_add r).

(** The targets are pairwise disjoint words. *)
Definition disjoint_words (a b : Z) : Prop := a + 8 <= b \/ b + 8 <= a.
Fixpoint separate (rs : list Rela) : Prop :=
  match rs with
  | [] => True
  | r :: rs => Forall (fun r' => disjoint_words (target r) (target r')) rs /\ separate rs
  end.

Definition hits (rs : list Rela) (x : Z) : Prop := exists r, In r rs /\ target r <= x < target r + 8.

(** What the loop leaves behind. *)
Definition relocated (rs : list Rela) (m m' : memory) : Prop :=
  (forall r, In r rs -> loadZ m' 8 (target r) = value r) /\ forall x, ~ hits rs x -> getb m' x = getb m x.

Lemma rela_loop_correct rs rela m fuel :
  words_at m rela (rela_words rs) -> Forall (fun r => ELF_R_TYPE (r_inf r) = R_RELATIVE arch) rs ->
  separate rs -> Forall (fun r => target r + 8 <= rela \/ rela + 24 * Z.of_nat (length rs) <= target r) rs ->
  (length rs <= fuel)%nat -> 24 * Z.of_nat (length rs) < 2 ^ 64 ->
  exists m', rela_loop fuel arch base rela (24 * Z.of_nat (length rs)) m = Relocated m' /\ relocated rs m m'.
Proof.
  revert rela m fuel; induction rs as [|r rs IH]; intros rela m fuel Hw Ht Hs Hd Hf Hz.
  { exists m. split; [by destruct fuel|]. split; [by intros r []|done]. }
  destruct fuel as [|fuel]; [cbn in Hf; lia|]. cbn [rela_loop].
  destruct (Z.eqb_spec (24 * Z.of_nat (length (r :: rs))) 0) as [E|_]; [cbn in E; lia|].
  pose proof (Hw 0%nat _ eq_refl) as W0. pose proof (Hw 1%nat _ eq_refl) as W1. pose proof (Hw 2%nat _ eq_refl) as W2.
  change (8 * Z.of_nat 0) with 0 in W0. change (8 * Z.of_nat 1) with 8 in W1. change (8 * Z.of_nat 2) with 16 in W2.
  rewrite Z.add_0_r in W0. apply Forall_cons in Ht as [Ht1 Ht]. apply Forall_cons in Hd as [Hd1 Hd].
  destruct Hs as [Hs1 Hs]. rewrite W0, W1, W2, Ht1, Z.eqb_refl. cbn [negb]. fold (target r) (value r).
  cbn [length] in Hd1, Hd, Hz, Hf |- *.
  replace (u64 (24 * Z.of_nat (S (length rs)) - 24)) with (24 * Z.of_nat (length rs))
    by (rewrite u64_small; lia).
  destruct (IH (rela + 24) (storeZ m 8 (target r) (value r)) fuel) as (m' & E & IH1 & IH2); try done; try lia.
  - intros i w Hi. apply lookup_lt_Some in Hi as Hl.
    assert (length (rela_words rs) = 3 * length rs)%nat as L by (clear; unfold rela_words; induction rs as [|e rs IH]; cbn; lia).
    rewrite loadZ_storeZ_disjoint by lia. rewrite <- (Hw (S (S (S i))) w Hi). f_equal. lia.
  - eapply Forall_impl; [exact Hd|]. cbn beta. intros x Hx. lia.
  - exists m'. split; [exact E|]. split.
    + intros x [<-|Hx]; [|by apply IH1]. rewrite (loadZ_ext _ (storeZ m 8 (target r) (value r))).
      * rewrite loadZ_storeZ. unfold value. apply wrap_wrap. lia.
      * intros x Hx. apply IH2. intros (r' & Hr' & Hx'). rewrite List.Forall_forall in Hs1.
        specialize (Hs1 r' Hr'). unfold disjoint_words in Hs1. lia.
    + intros x Hx. rewrite IH2.
      * unfold storeZ. apply getb_store_out. rewrite length_le.
        destruct (decide (target r <= x < target r + 8)) as [Hin|]; [|lia].
        exfalso. apply Hx. exists r. split; [by left|done].
      * intros (r' & Hr' & Hx'). apply Hx. exists r'. split; [by right|done].
Qed.

End Rela.

(** ** The dynamic section *)

Definition dyn_step (base : Z) (d : Dyn) (e : Z * Z) : Dyn :=
  if e.1 =? DT_REL then mkDyn (u64 (base + e.2)) (d_rela d) (d_relsz d) (d_relasz d)
  else if e.1 =? DT_RELA then mkDyn (d_rel d) (u64 (base + e.2)) (d_relsz d) (d_relasz d)
  else if e.1 =? DT_RELSZ then mkDyn (d_rel d) (d_rela d) e.2 (d_relasz d)
  else if e.1 =? DT_RELASZ then mkDyn (d_rel d) (d_rela d) (d_relsz d) e.2
  else d.

Lemma dyn_loop_spec fuel m base dynv ds d :
  auxv_at m dynv ds -> (length ds < fuel)%nat -> dyn_loop fuel m base dynv d = foldl (dyn_step base) d ds.
Proof.
  revert dynv ds d; induction fuel as [|fuel IH]; intros dynv ds d Hd Hf; [lia|]. cbn [dyn_loop].
  destruct ds as [|e ds].
  - destruct Hd as (_ & Hd & _). change (16 * Z.of_nat (length [])) with 0 in Hd. rewrite Z.add_0_r in Hd. by rewrite Hd.
  - destruct (auxv_cons _ _ _ _ Hd) as (E1 & E2 & E3). destruct Hd as (_ & _ & Hn). apply Forall_cons in Hn as [Hn _].
    rewrite E1, E2, (proj2 (Z.eqb_neq _ 0) Hn). cbn [foldl]. fold (dyn_step base d e).
    apply IH; [done | cbn in Hf; lia].
Qed.

(** The last entry of a type counts. *)
Definition dyn_last (ds : list (Z * Z)) (t : Z) : option Z := snd <$> find (fun e => e.1 =? t) (reverse ds).

Lemma dyn_last_snoc ds e t : dyn_last (ds ++ [e]) t = if e.1 =? t then Some e.2 else dyn_last ds t.
Proof. unfold dyn_last. rewrite reverse_snoc. cbn [find]. by destruct (_ =? _). Qed.

Lemma dyn_fold base ds :
  let d := foldl (dyn_step base) (mkDyn 0 0 0 0) ds in
  d_rela d = from_option (fun v => u64 (base + v)) 0 (dyn_last ds DT_RELA) /\
  d_relsz d = default 0 (dyn_last ds DT_RELSZ) /\ d_relasz d = default 0 (dyn_last ds DT_RELASZ).
Proof.
  cbv zeta. induction ds as [|e ds IH] using rev_ind; [done|]. rewrite foldl_snoc, !dyn_last_snoc.
  destruct IH as (I1 & I2 & I3). set (d := foldl _ _ ds) in *. destruct e as [t v]. unfold dyn_step. cbn [fst snd].
  destruct (Z.eqb_spec t DT_REL) as [->|_]; [by repeat split|].
  destruct (Z.eqb_spec t DT_RELA) as [->|_]; [by repeat split|].
  destruct (Z.eqb_spec t DT_RELSZ) as [->|_]; [by repeat split|].
  by destruct (Z.eqb_spec t DT_RELASZ) as [->|_]; repeat split.
Qed.

Lemma dynamic_base_first n m phdr dynv k :
  (k < n)%nat -> (forall j, (j < k)%nat -> p_type m (phdr + SIZEOF_PHDR * Z.of_nat j) <> PT_DYNAMIC) ->
  p_type m (phdr + SIZEOF_PHDR * Z.of_nat k) = PT_DYNAMIC ->
  dynamic_base n m phdr dynv = u64 (dynv - p_vaddr m (phdr + SIZEOF_PHDR * Z.of_nat k)).
Proof.
  revert phdr k; induction n as [|n IH]; intros phdr k Hk Hj Hp; [lia|]. cbn [dynamic_base]. destruct k as [|k].
  - rewrite Z.mul_0_r, Z.add_0_r in *. by rewrite Hp.
  - pose proof (Hj 0%nat ltac:(lia)) as H0. rewrite Z.mul_0_r, Z.add_0_r in H0. rewrite (proj2 (Z.eqb_neq _ _) H0).
    assert (forall j, phdr + SIZEOF_PHDR + SIZEOF_PHDR * Z.of_nat j = phdr + SIZEOF_PHDR * Z.of_nat (S j)) as E by lia.
    rewrite (IH (phdr + SIZEOF_PHDR) k), E; [done | lia | | by rewrite E].
    intros j Hlt. rewrite E. apply Hj. lia.
Qed.

(** ** The whole pass *)

(** C32. The client relocates itself: given an auxiliary vector that describes its
    program headers, a dynamic section and a table of relative relocations
    whose targets do not overlap each other or the table, the pass ends, every
    target word holds the load address plus the addend, and every other byte
    of memory is unchanged. *)
Theorem self_relocation arch m auxvptr dynv es ds rs k off :
  dynv <> 0 -> auxv_at m auxvptr es -> aux_value es AT_PHENT = SIZEOF_PHDR ->
  let ph (j : nat) := aux_value es AT_PHDR + SIZEOF_PHDR * Z.of_nat j in
  Z.of_nat k < aux_value es AT_PHNUM -> (forall j, (j < k)%nat -> p_type m (ph j) <> PT_DYNAMIC) ->
  p_type m (ph k) = PT_DYNAMIC ->
  let base := u64 (dynv - p_vaddr m (ph k)) in
  auxv_at m dynv ds -> dyn_last ds DT_RELSZ = None -> dyn_last ds DT_RELA = Some off ->
  dyn_last ds DT_RELASZ = Some (24 * Z.of_nat (length rs)) -> 24 * Z.of_nat (length rs) < 2 ^ 64 ->
  let rela := u64 (base + off) in
  words_at m rela (rela_words rs) -> Forall (fun r => ELF_R_TYPE (r_inf r) = R_RELATIVE arch) rs ->
  separate base rs ->
  Forall (fun r => target base r + 8 <= rela \/ rela + 24 * Z.of_nat (length rs) <= target base r) rs ->
  exists m', relocate arch m auxvptr dynv = Relocated m' /\ relocated base rs m m'.
Proof.
  intros Hd Ha He ph Hk Hj Hp base Hds Dn Dr Dz Hz rela Hw Ht Hs Ho. unfold relocate.
  rewrite (proj2 (Z.eqb_neq _ _) Hd), !(getauxval_spec m auxvptr es) by done. rewrite He, Z.eqb_refl. cbn [negb].
  rewrite (dynamic_base_first _ m _ dynv k) by (done || lia). fold (ph k). fold base.
  rewrite (dyn_loop_spec _ m base dynv ds) by (done || pose proof (auxv_size m dynv ds Hds); lia).
  destruct (dyn_fold base ds) as (F1 & F2 & F3). set (d := foldl _ _ ds) in *.
  rewrite Dr in F1. rewrite Dn in F2. rewrite Dz in F3. cbn [from_option default id] in F1, F2, F3. fold rela in F1.
  rewrite F1, F2, F3. change (rel_loop (Z.to_nat (0 / 16)) arch base (d_rel d) 0 m) with (Relocated m). cbv iota.
  apply rela_loop_correct; try done.
  rewrite (Z.mul_comm 24), Z.div_mul, Nat2Z.id by lia. lia.
Qed.

(** An image at 0x700000: program headers at 0x40, the table at 0x200, the
    dynamic section at 0x300, two words to relocate. *)
Definition image : memory :=
  let phdrs := le4 PT_LOAD ++ replicate 52 0 ++ le4 PT_DYNAMIC ++ replicate 12 0 ++ le8 0x300 ++ replicate 32 0 in
  let table := le8 0x400 ++ le8 8 ++ le8 0x1234 ++ le8 0x408 ++ le8 8 ++ le8 0x5678 in
  let dyn := le8 DT_RELA ++ le8 0x200 ++ le8 DT_RELASZ ++ le8 48 ++ le8 9 ++ le8 24 in
  store_bytes (store_bytes (store_bytes (store_bytes ∅ 0x700040 phdrs) 0x700200 table) 0x700300 dyn)
    0x8000 (le8 AT_PHDR ++ le8 0x700040 ++ le8 AT_PHENT ++ le8 56 ++ le8 AT_PHNUM ++ le8 2).

Lemma self_relocation_witness :
  exists m', relocate X86_64 image 0x8000 0x700300 = Relocated m' /\
    loadZ m' 8 0x700400 = 0x701234 /\ loadZ m' 8 0x700408 = 0x705678.
Proof.
  destruct (self_relocation X86_64 image 0x8000 0x700300
    [(AT_PHDR, 0x700040); (AT_PHENT, 56); (AT_PHNUM, 2)] [(DT_RELA, 0x200); (DT_RELASZ, 48); (9, 24)]
    [mkRela 0x400 8 0x1234; mkRela 0x408 8 0x5678] 1 0x200) as (m' & E & R & _).
  - done.
  - split; [|split; [vm_compute; reflexivity | repeat constructor; discriminate]].
    intros i w Hi. do 6 (destruct i as [|i]; [injection Hi as <-; vm_compute; reflexivity|]). discriminate Hi.
  - reflexivity.
  - vm_compute. reflexivity.
  - intros [|j] Hj; [vm_compute; discriminate | lia].
  - vm_compute. reflexivity.
  - split; [|split; [vm_compute; reflexivity | repeat constructor; discriminate]].
    intros i w Hi. do 6 (destruct i as [|i]; [injection Hi as <-; vm_compute; reflexivity|]). discriminate Hi.
  - reflexivity.
  - reflexivity.
  - reflexivity.
  - reflexivity.
  - intros i w Hi. do 6 (destruct i as [|i]; [injection Hi as <-; vm_compute; reflexivity|]). discriminate Hi.
  - repeat constructor.
  - split; [|by repeat constructor]. constructor; [|constructor]. left. vm_compute. discriminate.
  - constructor; [right; vm_compute; discriminate | constructor; [right; vm_compute; discriminate | constructor]].
  - exists m'. split; [exact E|]. split.
    + exact (R (mkRela 0x400 8 0x1234) (or_introl eq_refl)).
    + exact (R (mkRela 0x408 8 0x5678) (or_intror (or_introl eq_refl))).
Defined.
