(* ===== verification/MainReady.v ===== *)
(** * Start-up brings the client into the state the dispatcher needs

    What [main] has established when it enters the dispatch loop: the
    precondition of the theorems on the dispatcher.  A complete start-up is run
    on a small host with one program file and a server. *)

From Stdlib Require Import ZArith Lia String.
From stdpp Require Import base numbers list list_numbers option gmap.
From S2P Require Import Prelude Machine Loopback Minilibc Memory Printf RtldTable RtldReloc RtldElf Translator State Dispatch DispatchProofs ElfLoader Signals Main.

(** ** Results of stateful code, whatever the state *)

Definition yields {S A} (Q : A -> Prop) (c : ST S A) : Prop := forall s, Q (c s).1.

Section Yields.
Context {S : Type}.

Lemma yields_bind {A B} (R : A -> Prop) (Q : B -> Prop) (c : ST S A) f :
  yields R c -> (forall a, R a -> yields Q (f a)) -> yields Q (c ≫= f).
Proof. intros Hc Hf s. unfold mbind, ST_bind. specialize (Hc s). destruct (c s) as [a s']. by apply Hf. Qed.
Lemma yields_any {A} (c : ST S A) : yields (fun _ => True) c.
Proof. done. Qed.
Lemma yields_then {A B} (Q : B -> Prop) (c : ST S A) f : (forall a, yields Q (f a)) -> yields Q (c ≫= f).
Proof. intros Hf. eapply yields_bind; [apply yields_any | intros a _; apply Hf]. Qed.
Lemma yields_ret {A} (Q : A -> Prop) a : Q a -> yields Q (mret a : ST S A).
Proof. by intros Ha s. Qed.
End Yields.

Lemma yields_local {W A} n (Q : A -> Prop) (f : Z -> ST (Proc W) A) :
  (forall a, yields Q (f a)) -> yields Q (with_local n f).
Proof.
  intros Hf. unfold with_local. apply yields_then. intros a. apply yields_then. intros _.
  eapply yields_bind; [apply Hf|]. intros r Hr. apply yields_then. intros _. by apply yields_ret.
Qed.

(** One step through a bind, a local, a branch or a return. *)
Ltac yields_step :=
  cbv zeta; lazymatch goal with
  | |- yields _ (_ ≫= _) => apply yields_then; intros ?
  | |- yields _ (with_local _ _) => apply yields_local; intros ?
  | |- yields _ (mret _) => apply yields_ret
  | |- yields _ (if ?b then _ else _) => destruct b eqn:?
  | |- yields _ (let '(_, _) := ?x in _) => destruct x
  end.

Section Ready.
Context {W : Type} `{Kernel W}.
Context (arch : Arch) (link : string -> Z).

(** ** The runtime linker *)

Lemma rtld_init_objects r d :
  objects r = ∅ -> yields (fun x => objects x.2 = ∅) (rtld_init (W := W) arch link r d).
Proof. intros Hr. unfold rtld_init. by repeat yields_step. Qed.

Lemma perf_init_objects r mode :
  yields (fun x => objects x.2 = objects r) (rtld_perf_init (W := W) arch r mode).
Proof. unfold rtld_perf_init. by repeat yields_step. Qed.

Lemma add_initobj_objects r b sz ret :
  yields (fun x => extends r x.2)
    (if 0 <? sz then rtld_add_object (W := W) arch link r b sz 0 else mret (ret, r)).
Proof. destruct (0 <? sz); [intros p; apply add_object_extends | apply yields_ret, extends_refl]. Qed.

(** ** What the loop starts from *)

(** The dispatcher is one of the host's; the index is well formed and the
    quick TLB empty; no signal is pending or blocked; of the guest registers
    only the program counter [pc] and the stack pointer are set. *)
Definition ready (x : started) : Prop :=
  match x with
  | inl _ => True
  | inr (s, u, d) =>
      In d (infos arch link) /\ loop_func d <> 0 /\ dispatch_get arch link s = Some d /\
      (exists m, refines (objects (rtld s)) m) /\ quick_tlb u = ∅ /\ sigpending u = 0 /\ sigmask u = 0 /\
      exists r pc top, sp_reg (tsc_guest_arch (tsc s)) = Some r /\ regs u = <[r := top]> {[0 := pc]}
  end.

Lemma fail_ready msg retval : yields ready (fail (W := W) msg retval).
Proof. unfold fail. by repeat yields_step. Qed.

Lemma start_cpu_ready s d info top :
  In d (infos arch link) -> loop_func d <> 0 -> dispatch_get arch link s = Some d ->
  (exists m, refines (objects (rtld s)) m) -> yields ready (start_cpu (W := W) arch s d info top).
Proof.
  intros Hd Hl Hg Hr. unfold start_cpu. do 3 yields_step. yields_step; [apply fail_ready|]. cbv zeta.
  destruct (sp_reg _) as [r|] eqn:E; [|apply fail_ready]. apply yields_ret.
  repeat (split; [done|]). by exists r, (exec_entry info), top.
Qed.

Lemma start_rtld_ready s d info top :
  In d (infos arch link) -> loop_func d <> 0 -> dispatch_get arch link s = Some d ->
  objects (rtld s) = ∅ -> yields ready (start_rtld (W := W) arch link s d info top).
Proof.
  intros Hd Hl Hg Ho. unfold start_rtld.
  eapply yields_bind; [by apply rtld_init_objects|]. intros [ret r] Hr. cbn [fst snd] in Hr.
  yields_step; [apply fail_ready|].
  eapply yields_bind; [by apply perf_init_objects|]. intros [ret' r'] Hr'. cbn [fst snd] in Hr'.
  yields_step. apply yields_then. intros [[ret2 t] obj]. yields_step; [apply fail_ready|].
  destruct (default (0, 0) obj) as [b sz].
  eapply yields_bind; [apply add_initobj_objects|]. intros [ret3 r''] Hx. cbn [fst snd] in Hx.
  yields_step; [apply fail_ready|]. apply start_cpu_ready; [done|done|done|].
  destruct (Hx ∅) as (m & Hm & _); [|by exists m]. rewrite Hr', Hr. apply table_empty_refines.
Qed.

Lemma main_setup_ready platform auxvptr environ argc argv :
  yields ready (main_setup (W := W) arch link platform auxvptr environ argc argv).
Proof.
  unfold main_setup. yields_step; [apply fail_ready|]. do 3 yields_step.
  yields_step; [apply fail_ready|]. yields_step. apply yields_then. intros [ret info].
  yields_step; [apply fail_ready|]. yields_step. apply yields_then. intros [ret' t].
  yields_step; [apply fail_ready|]. apply yields_then. intros [[ret2 t'] c].
  yields_step; [apply fail_ready|]. cbv zeta.
  destruct (dispatch_get _ _ _) as [d|] eqn:Ed; [|apply fail_ready].
  destruct (loop_func d =? 0) eqn:El; [apply fail_ready|]. apply Z.eqb_neq in El.
  unfold start_stack. yields_step. yields_step; [apply fail_ready|]. do 2 yields_step.
  destruct (guest_stack _ _ _ _ _ _ _ _) as [top m]. yields_step. apply start_rtld_ready; [|done|done|done].
  unfold dispatch_get in Ed. destruct (_ <? _) in Ed; [|done]. by apply list_elem_of_In, (list_elem_of_lookup_2 _ _ _ Ed).
Qed.
End Ready.

(** C23. Whenever [main] gets as far as the dispatch loop, whatever the arguments,
    the file, the server and the kernel did, the client is in a state the
    dispatcher is correct from: the code cache index is well formed and agrees
    with the (empty) quick TLB, the chosen dispatcher is one of the host's and
    has a loop, no signal is pending or blocked, and of the guest's registers
    only register 0, the program counter, and the stack pointer of its
    architecture are set, to values that are not determined here; all others
    are zero. *)
Theorem main_ready {W} `{Kernel W} arch link platform auxvptr environ argc argv (p : Proc W) :
  match main_setup arch link platform auxvptr environ argc argv p with
  | (inl _, _) => True
  | (inr (s, u, d), p') =>
      In d (infos arch link) /\ loop_func d <> 0 /\ dispatch_ok ∅ (mkClient p' s u ∅) /\
      sigpending u = 0 /\ sigmask u = 0 /\
      exists r pc top, sp_reg (tsc_guest_arch (tsc s)) = Some r /\
        reg u 0 = pc /\ reg u r = top /\ forall i, i <> 0 -> i <> r -> reg u i = 0
  end.
Proof.
  pose proof (main_setup_ready (W := W) arch link platform auxvptr environ argc argv p) as Hr.
  destruct (main_setup _ _ _ _ _ _ _ p) as [[ret|[[s u] d]] p']; [done|].
  destruct Hr as (Hd & Hl & _ & [m Hm] & Ht & Hp & Hk & r & pc & top & Er & Eg).
  split; [done|]. split; [done|]. split; [|split; [done|split; [done|]]].
  - exists m. split; [apply map_empty_subseteq|]. split; [done|]. split; [|done].
    intros h. unfold tlb. cbn [cpu]. by rewrite Ht, lookup_empty.
  - exists r, pc, top. unfold reg. rewrite Eg. split; [done|].
    assert (r <> 0) as Hr0 by (unfold sp_reg in Er; repeat case_match; congruence).
    rewrite lookup_insert_ne, lookup_singleton_eq, lookup_insert_eq by done. split; [done|]. split; [done|].
    intros i Hi Hir. by rewrite lookup_insert_ne, lookup_singleton_ne by done.
Qed.

(** ** A complete start-up *)

(** A host with one file, opened as descriptor 5, and the server behind 3. *)
Record Host := mkHost { h_in : gmap Z (list Z); h_next : Z }.
Definition host_read (fd buf n : Z) (st : memory * Host) : Z * (memory * Host) :=
  let bs := default [] (h_in st.2 !! fd) in
  let r := Nat.min (Z.to_nat n) (length bs) in
  (Z.of_nat r, (store_bytes st.1 buf (take r bs), mkHost (<[fd := drop r bs]> (h_in st.2)) (h_next st.2))).
#[global] Instance host : Kernel Host := fun nr args st =>
  match nr, args with
  | NR_read, [fd; buf; n] => host_read fd buf n st
  | NR_write, [_; _; n] => (n, st)
  | NR_lseek, [_; off; _] => (off, st)
  | NR_openat, _ => (5, st)
  | NR_mmap, [addr; len; _; _; _; _] =>
      if addr =? 0 then (h_next st.2, (st.1, mkHost (h_in st.2) (h_next st.2 + ALIGN_UP len 4096)))
      else (addr, st)
  | _, _ => (0, st)
  end.

Definition le2 (x : Z) : list Z := Z_to_little_endian 2 8 x.

(** A static x86-64 executable with one segment and entry point 0x401000. *)
Definition guest_elf : list Z :=
  ELFMAG ++ [2; 1; 1] ++ replicate 9 0 ++ le2 ET_EXEC ++ le2 EM_X86_64 ++ le4 1 ++ le8 0x401000 ++ le8 64 ++
  le8 0 ++ le4 0 ++ le2 64 ++ le2 56 ++ le2 1 ++ replicate 6 0 ++
  le4 PT_LOAD ++ le4 5 ++ le8 0 ++ le8 0x400000 ++ le8 0 ++ le8 0x2000 ++ le8 0x2000 ++ le8 0x1000.

(** The configuration, and an empty initial object. *)
Definition server_bytes : list Z :=
  le4 MSGID_S_INIT ++ le4 20 ++ replicate 20 0 ++ le4 MSGID_S_OBJECT ++ le4 0.

(** [instrew 300000000002 prog]: descriptors 3 and 4. *)
Definition host_proc : Proc Host :=
  mkProc
    (store_bytes (store_bytes ∅ 0x8000 (le8 0x9000 ++ le8 0x9000 ++ le8 0x9100)) 0x9000
       (bytes_of_string "300000000002"))
    (mkHost {[3 := server_bytes; 5 := guest_elf]} 0x7f0000000000)
    (mkArena 0 0 0 0) (mkArena 0 0 0 0) 4096 0x10000.

Lemma main_ready_witness :
  match main_setup X86_64 (fun _ => 0x5000) 0x7000 0x8200 0x8100 3 0x8000 host_proc with
  | (inl _, _) => False
  | (inr (s, u, d), p') => dispatch_ok ∅ (mkClient p' s u ∅) /\ reg u 0 = 0x401000 /\ reg u 5 `mod` 16 = 0
  end.
Proof.
  pose proof (main_ready X86_64 (fun _ => 0x5000) 0x7000 0x8200 0x8100 3 0x8000 host_proc) as T.
  assert (match (main_setup X86_64 (fun _ => 0x5000) 0x7000 0x8200 0x8100 3 0x8000 host_proc).1 with
          | inl _ => False
          | inr (s, u, d) => reg u 0 = 0x401000 /\ reg u 5 `mod` 16 = 0
          end) as C by (vm_compute; split; reflexivity).
  destruct (main_setup _ _ _ _ _ _ _ host_proc) as [[ret|[[s u] d]] p']; [done|].
  destruct T as (_ & _ & T & _). exact (conj T C).
Defined.
