(* ===== verification/ServerCache.v ===== *)
(** * The object cache of the server, [server/cache.cc]

    Translated objects are kept in files named by the hash of the code.  An
    object is written to a temporary file that is then renamed, so that a
    reader, another server or a server after a crash never finds a part of it.
    The file system is a small one with inodes, open files with offsets, and an
    outcome for every call that the environment chooses; it records what is
    visible after every call. *)

From Stdlib Require Import ZArith Lia String Ascii.
From stdpp Require Import base numbers list strings gmap.
From S2P Require Import Prelude Machine.

(** ** The file system *)

(** File names and their inodes; the contents of the inodes. *)
Record View := mkView { names : gmap string Z; inodes : gmap Z (list Z) }.
Definition contents (v : View) (path : string) : option (list Z) := names v !! path ≫= (fun i => inodes v !! i).

Record Fs := mkFs {
  view : View;
  opened : gmap Z (Z * nat);     (* inode and offset by descriptor *)
  fresh : Z;                     (* the next inode and descriptor number *)
  calls : nat;                   (* system calls so far *)
  history : list View }.         (* what was visible after each of them *)

(** Overwriting from an offset. *)
Definition file_write (c : list Z) (off : nat) (bs : list Z) : list Z :=
  take off c ++ bs ++ drop (off + length bs) c.

Section Cache.
(** The outcome of the n-th call: negative for an error, for a transfer the
    number of bytes the system is ready to move. *)
Context (sys : nat -> Z).

Definition finish {A} (v : View) (o : gmap Z (Z * nat)) (n : Z) (fs : Fs) (a : A) : A * Fs :=
  (a, mkFs v o n (S (calls fs)) (history fs ++ [v])).

Definition failing (fs : Fs) : bool := sys (calls fs) <? 0.

(** [open] for reading. *)
Definition fs_open (path : string) : ST Fs Z := fun fs =>
  match names (view fs) !! path with
  | Some i =>
      if failing fs then finish (view fs) (opened fs) (fresh fs) fs (-1)
      else finish (view fs) (<[fresh fs := (i, O)]> (opened fs)) (fresh fs + 1) fs (fresh fs)
  | None => finish (view fs) (opened fs) (fresh fs) fs (-1)
  end.

(** [open] with [O_CREAT]. *)
Definition fs_open_creat (path : string) : ST Fs Z := fun fs =>
  if failing fs then finish (view fs) (opened fs) (fresh fs) fs (-1)
  else
    match names (view fs) !! path with
    | Some i => finish (view fs) (<[fresh fs := (i, O)]> (opened fs)) (fresh fs + 1) fs (fresh fs)
    | None =>
        let i := fresh fs in
        finish (mkView (<[path := i]> (names (view fs))) (<[i := []]> (inodes (view fs))))
          (<[fresh fs := (i, O)]> (opened fs)) (fresh fs + 1) fs (fresh fs)
    end.

(** [fcntl] with [F_SETLK]: the lock is granted or not. *)
Definition fs_setlk (fd : Z) : ST Fs Z := fun fs =>
  finish (view fs) (opened fs) (fresh fs) fs (if failing fs then -1 else 0).

(** [close] gives the descriptor back even when it reports an error. *)
Definition fs_close (fd : Z) : ST Fs Z := fun fs =>
  finish (view fs) (delete fd (opened fs)) (fresh fs) fs (if failing fs then -1 else 0).

Definition fs_unlink (path : string) : ST Fs Z := fun fs =>
  if failing fs then finish (view fs) (opened fs) (fresh fs) fs (-1)
  else finish (mkView (delete path (names (view fs))) (inodes (view fs))) (opened fs) (fresh fs) fs 0.

Definition fs_rename (from to : string) : ST Fs Z := fun fs =>
  match names (view fs) !! from with
  | Some i =>
      if failing fs then finish (view fs) (opened fs) (fresh fs) fs (-1)
      else finish (mkView (<[to := i]> (delete from (names (view fs)))) (inodes (view fs))) (opened fs) (fresh fs) fs 0
  | None => finish (view fs) (opened fs) (fresh fs) fs (-1)
  end.

Definition fs_write (fd : Z) (buf : list Z) : ST Fs Z := fun fs =>
  match opened fs !! fd with
  | Some (i, off) =>
      if failing fs then finish (view fs) (opened fs) (fresh fs) fs (-1)
      else
        let bs := take (Z.to_nat (sys (calls fs))) buf in
        let c := default [] (inodes (view fs) !! i) in
        finish (mkView (names (view fs)) (<[i := file_write c off bs]> (inodes (view fs))))
          (<[fd := (i, (off + length bs)%nat)]> (opened fs)) (fresh fs) fs (Z.of_nat (length bs))
  | None => finish (view fs) (opened fs) (fresh fs) fs (-1)
  end.

(** [fstat]: the size. *)
Definition fs_size (fd : Z) : ST Fs Z := fun fs =>
  match opened fs !! fd with
  | Some (i, _) =>
      finish (view fs) (opened fs) (fresh fs) fs
        (if failing fs then -1 else Z.of_nat (length (default [] (inodes (view fs) !! i))))
  | None => finish (view fs) (opened fs) (fresh fs) fs (-1)
  end.

(** [sendfile] from an open file: how many bytes, and which. *)
Definition fs_sendfile (fd n : Z) : ST Fs (Z * list Z) := fun fs =>
  match opened fs !! fd with
  | Some (i, off) =>
      if failing fs then finish (view fs) (opened fs) (fresh fs) fs (-1, [])
      else
        let bs := take (Z.to_nat (Z.min n (sys (calls fs)))) (drop off (default [] (inodes (view fs) !! i))) in
        finish (view fs) (<[fd := (i, (off + length bs)%nat)]> (opened fs)) (fresh fs) fs (Z.of_nat (length bs), bs)
  | None => finish (view fs) (opened fs) (fresh fs) fs (-1, [])
  end.

(** ** File names *)

Definition HASH_SIZE : nat := 20.

Definition hex_digit (d : Z) : string :=
  String (ascii_of_N (Z.to_N (if d <? 10 then 48 + d else 87 + d))) EmptyString.

(** [HexBuffer]: two digits for every byte. *)
Fixpoint hex_buffer (bs : list Z) : string :=
  match bs with
  | [] => EmptyString
  | b :: bs => (hex_digit (b / 16) ++ hex_digit (b `mod` 16) ++ hex_buffer bs)%string
  end.

(** [operator/] of paths: a separator unless there is one. *)
Definition path_join (p x : string) : string :=
  if (p =? "")%string then x
  else match String.get (String.length p - 1) p with
       | Some "/"%char => (p ++ x)%string
       | _ => (p ++ "/" ++ x)%string
       end.

(** ** The cache *)

Record Cache := mkCache { allow_read : bool; allow_write : bool; path : string }.

(** The configuration of the server, as far as the cache reads it. *)
Record CacheConfig := mkCacheConfig { cfg_cache : bool; cfg_cachedir : string; cfg_cachemode : string }.

(** The constructor: whether the effective user is the user, the home directory,
    and what [create_directories] returns (created anything, error). *)
Definition cache_init (cfg : CacheConfig) (same_user : bool) (home : string) (create : string -> bool * bool) : Cache :=
  let off p := mkCache false false p in
  if negb (cfg_cache cfg) then off ""%string
  else if negb same_user then off ""%string
  else
    let path := if negb (cfg_cachedir cfg =? "")%string then cfg_cachedir cfg
                else path_join (path_join home ".cache") "instrew" in
    let '(created, err) := create path in
    if created || err then off path
    else if (cfg_cachemode cfg =? "rw")%string then mkCache true true path
    else if (cfg_cachemode cfg =? "r")%string then mkCache true false path
    else if (cfg_cachemode cfg =? "w")%string then mkCache false true path
    else off path.

Definition FileName (c : Cache) (hash : list Z) (suffix : string) : string :=
  path_join (path c) (hex_buffer (take HASH_SIZE hash) ++ suffix).

(** Descriptor and size, or -1. *)
Definition cache_get (c : Cache) (hash : list Z) : ST Fs (Z * Z) :=
  if negb (allow_read c) then mret (-1, 0)
  else
    fd ← fs_open (FileName c hash "");
    if fd =? -1 then mret (-1, 0)
    else
      size ← fs_size fd;
      if size =? -1 then fs_close fd;; mret (-1, 0)
      else mret (fd, size).

(** [write_full]; every round but the last moves at least one byte, so the
    length of the buffer is enough fuel. *)
Fixpoint cache_write_full (fuel : nat) (fd : Z) (buf : list Z) (total : Z) : ST Fs Z :=
  match buf, fuel with
  | [], _ => mret total
  | _, O => mret total
  | _, S fuel' =>
      n ← fs_write fd buf;
      if n <? 0 then mret n
      else if n =? 0 then mret (- EIO)
      else cache_write_full fuel' fd (drop (Z.to_nat n) buf) (total + n)
  end.

(** The label [close_fds]. *)
Definition close_fds (fd_real fd : Z) : ST Fs unit :=
  (if negb (fd_real =? -1) then fs_close fd_real;; mret tt else mret tt);;
  (if negb (fd =? -1) then fs_close fd;; mret tt else mret tt).

(** The rest of [Put] once the temporary file is open and locked. *)
Definition put_locked (tmp file : string) (fd : Z) (buf : list Z) : ST Fs unit :=
  fd_real ← fs_open file;
  if 0 <=? fd_real then fs_unlink tmp;; close_fds fd_real fd
  else
    n ← cache_write_full (length buf) fd buf 0;
    if n <? 0 then fs_unlink tmp;; close_fds fd_real fd
    else
      r ← fs_rename tmp file;
      if r <? 0 then fs_unlink tmp;; close_fds fd_real fd
      else close_fds fd_real fd.

Definition cache_put (c : Cache) (hash buf : list Z) : ST Fs unit :=
  if negb (allow_write c) then mret tt
  else
    let tmp := FileName c hash ".tmp" in
    let file := FileName c hash "" in
    fd ← fs_open_creat tmp;
    if fd =? -1 then close_fds (-1) fd
    else
      lock ← fs_setlk fd;
      if lock <? 0 then close_fds (-1) fd
      else put_locked tmp file fd buf.
End Cache.
