(* ===== verification/ServerCacheProofs.v ===== *)
(** * The object cache is atomic

    Whatever fails, and wherever the server stops, the file of a hash holds
    what it held before or the complete object; and an object that was put is
    found under its hash, and under no other. *)

From Stdlib Require Import ZArith Lia String Ascii.
From stdpp Require Import base numbers list strings gmap.
From S2P Require Import Prelude Machine ServerCache.

(** ** File names *)

Lemma append_inj (q x y : string) : (q ++ x)%string = (q ++ y)%string -> x = y.
Proof. induction q as [|a q IH]; cbn; [done|]. intros [= E]. by apply IH. Qed.

Lemma path_join_inj p x y : path_join p x = path_join p y -> x = y.
Proof.
  assert ((p ++ "/" ++ x)%string = (p ++ "/" ++ y)%string -> x = y) as Hsep
    by (intros E; apply append_inj in E; by injection E).
  unfold path_join. repeat case_match; eauto using append_inj.
Qed.

Lemma hex_digit_inj a b : 0 <= a < 16 -> 0 <= b < 16 -> hex_digit a = hex_digit b -> a = b.
Proof.
  intros Ha Hb E. assert (forallb (fun a => forallb (fun b => implb (hex_digit a =? hex_digit b)%string (a =? b)) (seqZ 0 16))
    (seqZ 0 16) = true) as H by (vm_compute; reflexivity).
  rewrite forallb_forall in H. specialize (H a). rewrite forallb_forall in H.
  specialize (H ltac:(apply list_elem_of_In, elem_of_seqZ; lia) b ltac:(apply list_elem_of_In, elem_of_seqZ; lia)).
  rewrite E, String.eqb_refl in H. cbn in H. lia.
Qed.

Lemma hex_digit_app a b s t :
  (hex_digit a ++ s)%string = (hex_digit b ++ t)%string -> hex_digit a = hex_digit b /\ s = t.
Proof. unfold hex_digit. cbn. intros [= E1 E2]. by rewrite E1. Qed.

Lemma hex_buffer_inj h1 h2 :
  Forall (in_u 8) h1 -> Forall (in_u 8) h2 -> length h1 = length h2 ->
  hex_buffer h1 = hex_buffer h2 -> h1 = h2.
Proof.
  revert h2. induction h1 as [|a h1 IH]; intros [|b h2] F1 F2 Hl E; try done.
  apply Forall_cons in F1 as [Ha F1]. apply Forall_cons in F2 as [Hb F2]. unfold in_u in *. cbn [hex_buffer] in E.
  apply hex_digit_app in E as [E1 E]. apply hex_digit_app in E as [E2 E].
  apply hex_digit_inj in E1; [|zdm|zdm]. apply hex_digit_inj in E2; [|zdm|zdm]. f_equal; [zdm|].
  injection Hl as Hl. by apply IH.
Qed.

(** The files of different hashes differ, and so do a file and its temporary. *)
Lemma FileName_inj c h1 h2 :
  Forall (in_u 8) h1 -> Forall (in_u 8) h2 -> length h1 = HASH_SIZE -> length h2 = HASH_SIZE ->
  FileName c h1 "" = FileName c h2 "" -> h1 = h2.
Proof.
  intros F1 F2 L1 L2 E. apply path_join_inj in E. rewrite !take_ge in E by lia. apply hex_buffer_inj; [done..|lia|].
  revert E. generalize (hex_buffer h1) (hex_buffer h2). intros x y.
  assert (forall z : string, (z ++ "")%string = z) as Hz by (intros z; induction z as [|a z IH]; [done|]; exact (f_equal (String a) IH)).
  by rewrite !Hz.
Qed.

Lemma FileName_tmp c h : FileName c h ".tmp" <> FileName c h "".
Proof. unfold FileName. intros E. apply path_join_inj, append_inj in E. done. Qed.

Lemma append_length (x y : string) : String.length (x ++ y) = (String.length x + String.length y)%nat.
Proof. induction x as [|a x IH]; [done|]. exact (f_equal S IH). Qed.

Lemma hex_buffer_length bs : String.length (hex_buffer bs) = (2 * length bs)%nat.
Proof. induction bs as [|b bs IH]; [done|]. cbn [hex_buffer length]. rewrite !append_length, IH. cbn. lia. Qed.

Lemma FileName_not_tmp c h1 h2 : length h1 = length h2 -> FileName c h1 "" <> FileName c h2 ".tmp".
Proof.
  unfold FileName. intros Hl E. apply path_join_inj in E. apply (f_equal String.length) in E.
  rewrite !append_length, !hex_buffer_length, !length_take, Hl in E. cbn [String.length] in E. lia.
Qed.

(** ** Calls that leave all files but one alone *)

(** Same names, and the same contents but for inode [i]. *)
Definition same_but (i : Z) (v v' : View) : Prop :=
  names v' = names v /\ forall j, j <> i -> inodes v' !! j = inodes v !! j.

Lemma same_but_refl i v : same_but i v v.
Proof. done. Qed.

Lemma same_but_trans i v1 v2 v3 : same_but i v1 v2 -> same_but i v2 v3 -> same_but i v1 v3.
Proof. intros [A1 A2] [B1 B2]. split; [congruence|]. intros j Hj. by rewrite B2, A2. Qed.

(** A run that stays within [P] as far as anybody can see. *)
Definition shows (P : View -> Prop) (fs fs' : Fs) : Prop :=
  exists hs, history fs' = history fs ++ hs /\ Forall P hs.

Lemma shows_refl P fs : shows P fs fs.
Proof. exists []. by rewrite app_nil_r. Qed.

Lemma shows_trans P fs1 fs2 fs3 : shows P fs1 fs2 -> shows P fs2 fs3 -> shows P fs1 fs3.
Proof.
  intros (h1 & E1 & F1) (h2 & E2 & F2). exists (h1 ++ h2). split; [by rewrite E2, E1, app_assoc|]. by apply Forall_app.
Qed.

Lemma shows_one (P : View -> Prop) fs fs' v : history fs' = history fs ++ [v] -> P v -> shows P fs fs'.
Proof. intros E Hv. exists [v]. split; [done|]. by constructor. Qed.

Lemma shows_mono (P Q : View -> Prop) fs fs' : (forall v, P v -> Q v) -> shows P fs fs' -> shows Q fs fs'.
Proof. intros H (hs & E & F). exists hs. split; [done|]. by eapply Forall_impl. Qed.

Lemma file_write_app c off b1 b2 :
  (off <= length c)%nat ->
  file_write (file_write c off b1) (off + length b1) b2 = file_write c off (b1 ++ b2).
Proof.
  intros Hl. unfold file_write. rewrite length_app.
  assert (length (take off c) = off) as Ht by (rewrite length_take; lia).
  rewrite (app_assoc (take off c)), take_app_le by (rewrite length_app; lia).
  rewrite take_ge by (rewrite length_app; lia). rewrite <- !app_assoc. do 3 f_equal.
  rewrite (app_assoc (take off c)), drop_app_ge by (rewrite length_app; lia). rewrite drop_drop, length_app, Ht. f_equal. lia.
Qed.

Lemma file_write_nil c off : file_write c off [] = c.
Proof. unfold file_write. cbn [length app]. by rewrite Nat.add_0_r, take_drop. Qed.

Lemma take_rest {A} n (l : list A) : l = take n l ++ drop (length (take n l)) l.
Proof.
  rewrite length_take. rewrite <- (take_drop n l) at 1. f_equal. destruct (Nat.le_ge_cases n (length l)).
  - by rewrite Nat.min_l by lia.
  - rewrite Nat.min_r, !drop_ge by lia. done.
Qed.

Section Sys.
Context (sys : nat -> Z).

(** Writing all of a buffer: only the file changes, and on success the buffer is
    in it. *)
Lemma write_full_spec fuel fd buf total fs i off c :
  (length buf <= fuel)%nat -> 0 <= total -> opened fs !! fd = Some (i, off) -> inodes (view fs) !! i = Some c ->
  (off <= length c)%nat ->
  exists n fs' off', cache_write_full sys fuel fd buf total fs = (n, fs') /\
    shows (same_but i (view fs)) fs fs' /\ same_but i (view fs) (view fs') /\
    opened fs' !! fd = Some (i, off') /\ fresh fs' = fresh fs /\ is_Some (inodes (view fs') !! i) /\
    (0 <= n -> inodes (view fs') !! i = Some (file_write c off buf)) /\ ((forall k, 0 < sys k) -> 0 <= n).
Proof.
  revert buf total fs off c. induction fuel as [|fuel IH]; intros buf total fs off c Hf Ht Ho Hc Hl.
  - destruct buf; [|simpl in Hf; lia]. exists total, fs, off. split_and!; try done; [apply shows_refl|].
    intros _. by rewrite file_write_nil.
  - destruct buf as [|b buf].
    + exists total, fs, off. split_and!; try done; [apply shows_refl|].
      intros _. by rewrite file_write_nil.
    + cbn [cache_write_full]. destruct (fs_write sys fd (b :: buf) fs) as [n fs1] eqn:Hw.
      rewrite (bind_unfold _ _ _ _ _ Hw). unfold fs_write in Hw. rewrite Ho in Hw.
      destruct (failing sys fs) eqn:Hfail.
      * unfold finish in Hw. injection Hw as <- <-. cbn [Z.ltb Z.compare].
        exists (-1). eexists. exists off. split_and!; try done; [eapply shows_one; done|].
        intros Hs. unfold failing in Hfail. specialize (Hs (calls fs)). lia.
      * unfold finish in Hw. rewrite Hc in Hw. cbn [default from_option] in Hw.
        set (bs := take _ (b :: buf)) in *. injection Hw as <- <-.
        rewrite (proj2 (Z.ltb_ge _ 0)) by lia. assert (same_but i (view fs) (mkView (names (view fs)) (<[i := file_write c off bs]> (inodes (view fs))))) as Hsb
          by (split; [done|]; intros j Hj; cbn [inodes]; by rewrite lookup_insert_ne).
        match goal with |- context [mkFs ?v ?o ?f ?n ?h] => set (fs1 := mkFs v o f n h) end.
        assert (shows (same_but i (view fs)) fs fs1) as Hsh by (by eapply shows_one).
        assert (opened fs1 !! fd = Some (i, (off + length bs)%nat)) as Ho1 by (cbn; apply lookup_insert_eq).
        assert (inodes (view fs1) !! i = Some (file_write c off bs)) as Hc1 by (cbn; apply lookup_insert_eq).
        destruct (Z.eqb_spec (Z.of_nat (length bs)) 0) as [E0|Hne].
        -- exists (- EIO), fs1. eexists. split_and!; [done|done|done|exact Ho1|done|by eexists| |]; [intros H; by vm_compute in H|].
           intros Hs. exfalso. specialize (Hs (calls fs)). unfold bs in E0. rewrite length_take in E0. cbn [length] in E0. lia.
        -- assert (b :: buf = bs ++ drop (length bs) (b :: buf)) as Hsplit by apply take_rest. rewrite Nat2Z.id.
           destruct (IH (drop (length bs) (b :: buf)) (total + Z.of_nat (length bs)) fs1 (off + length bs)%nat (file_write c off bs))
             as (n & fs' & off' & E & H1 & H2 & H3 & H4 & H5 & H6 & H7); [|lia|done|done| |].
           ++ rewrite length_drop. cbn [length] in *. lia.
           ++ unfold file_write. rewrite !length_app, length_take. lia.
           ++ exists n, fs', off'. split_and!; try done.
              ** eapply shows_trans; [exact Hsh|]. eapply shows_mono; [|exact H1]. intros v Hv. by eapply same_but_trans.
              ** by eapply same_but_trans.
              ** intros Hn. rewrite (H6 Hn), file_write_app, <- Hsplit by done. done.
Qed.

(** ** Putting an object *)

Lemma contents_eq v v' p :
  names v' !! p = names v !! p -> (forall i, names v !! p = Some i -> inodes v' !! i = inodes v !! i) ->
  contents v' p = contents v p.
Proof. intros En Ei. unfold contents. rewrite En. destruct (names v !! p) as [i|]; [|done]. cbn. by apply Ei. Qed.

Lemma close_fds_spec a b fs :
  exists fs', close_fds sys a b fs = (tt, fs') /\ view fs' = view fs /\ shows (eq (view fs)) fs fs'.
Proof.
  unfold close_fds. destruct (a =? -1), (b =? -1); cbn [negb]; (eexists; split; [reflexivity|]; split; [reflexivity|]);
    first [apply shows_refl | exists [view fs; view fs]; cbn; rewrite <- app_assoc; by repeat constructor
          | by eapply shows_one].
Qed.

Section Put.
Context (tmp file : string) (Hne : tmp <> file) (buf : list Z) (v0 : View).

(** The file holds what it held in [v0], or the object; every other file but
    the temporary one is as in [v0]. *)
Definition intact (v : View) : Prop :=
  (contents v file = contents v0 file \/ contents v file = Some buf) /\
  forall q, q <> tmp -> q <> file -> contents v q = contents v0 q.

Lemma intact_same v v' :
  (forall q, q <> tmp -> contents v' q = contents v q) -> intact v -> intact v'.
Proof. intros H [Hf Ho]. split; [by rewrite !H|]. intros q Hq Hq'. rewrite H by done. by apply Ho. Qed.

(** What the end of [Put] guarantees of a state [fs'] reached from [fs]. *)
Definition put_ends (fs fs' : Fs) : Prop :=
  shows intact fs fs' /\ intact (view fs') /\
  ((forall k, 0 < sys k) -> (contents v0 file = None -> names v0 !! file = None) ->
   contents (view fs') file = Some (default buf (contents v0 file))).

(** Removing the temporary file and closing. *)
Lemma give_up_spec a b fs :
  intact (view fs) ->
  exists fs', (fs_unlink sys tmp;; close_fds sys a b) fs = (tt, fs') /\ shows intact fs fs' /\ intact (view fs') /\
    contents (view fs') file = contents (view fs) file.
Proof.
  intros Hi. destruct (fs_unlink sys tmp fs) as [r fs1] eqn:E. rewrite (bind_unfold _ _ _ _ _ E).
  assert ((forall q, q <> tmp -> contents (view fs1) q = contents (view fs) q) /\ history fs1 = history fs ++ [view fs1]) as [Hc Hh].
  { unfold fs_unlink, finish in E. destruct (failing sys fs); injection E as <- <-; [done|]. split; [|done].
    intros q Hq. apply contents_eq; [|done]. cbn. by rewrite lookup_delete_ne. }
  destruct (close_fds_spec a b fs1) as (fs2 & E2 & Hv & Hs). exists fs2. split; [done|]. rewrite Hv.
  assert (intact (view fs1)) as Hi1 by (by eapply intact_same). split; [|split; [done|by apply Hc]].
  eapply shows_trans; [by eapply shows_one|]. eapply shows_mono; [|exact Hs]. by intros v <-.
Qed.

(** The object is in the temporary file: it is renamed, or given up. *)
Lemma publish_spec a b fs i :
  names (view fs) !! tmp = Some i -> inodes (view fs) !! i = Some buf -> intact (view fs) ->
  exists fs', (r ← fs_rename sys tmp file; if r <? 0 then fs_unlink sys tmp;; close_fds sys a b else close_fds sys a b) fs = (tt, fs') /\
    shows intact fs fs' /\ intact (view fs') /\ ((forall k, 0 < sys k) -> contents (view fs') file = Some buf).
Proof.
  intros Hn Hc Hi. destruct (fs_rename sys tmp file fs) as [r fs3] eqn:E3. rewrite (bind_unfold _ _ _ _ _ E3).
  unfold fs_rename, finish in E3. rewrite Hn in E3. unfold failing in E3.
  destruct (Z.ltb_spec (sys (calls fs)) 0) as [Hf|Hf]; injection E3 as <- <-; cbn [Z.ltb Z.compare];
    match goal with |- context [mkFs ?v ?o ?f ?n ?h] => set (fs3 := mkFs v o f n h) end.
  - destruct (give_up_spec a b fs3) as (fs4 & E4 & Hs4 & Hi4 & Hc4); [done|]. exists fs4. split; [done|]. split; [|split; [done|]].
    + eapply shows_trans; [apply (shows_one _ fs fs3 (view fs3)); done|done].
    + intros Hk. specialize (Hk (calls fs)). lia.
  - assert (contents (view fs3) file = Some buf) as Hdone.
    { unfold contents. cbn [view fs3 names inodes]. rewrite lookup_insert_eq. done. }
    assert (intact (view fs3)) as Hi3.
    { split; [by right|]. intros q Hq Hq'. rewrite <- (proj2 Hi q Hq Hq'). apply contents_eq; [|done].
      cbn. by rewrite lookup_insert_ne, lookup_delete_ne by done. }
    destruct (close_fds_spec a b fs3) as (fs4 & E4 & Hv4 & Hs4). exists fs4. split; [done|]. rewrite Hv4. split; [|done].
    eapply shows_trans; [apply (shows_one _ fs fs3 (view fs3)); done|]. eapply shows_mono; [|exact Hs4]. by intros v <-.
Qed.

Lemma put_locked_spec fs fd i c0 :
  names (view fs) !! tmp = Some i -> opened fs !! fd = Some (i, O) -> inodes (view fs) !! i = Some c0 ->
  (length c0 <= length buf)%nat -> (forall q, q <> tmp -> names (view fs) !! q <> Some i) ->
  (forall q, q <> tmp -> contents (view fs) q = contents v0 q) -> names (view fs) !! file = names v0 !! file -> 0 <= fresh fs ->
  exists fs', put_locked sys tmp file fd buf fs = (tt, fs') /\ put_ends fs fs'.
Proof.
  intros Hn Ho Hc Hl Hlink Hold Hnm Hfr. unfold put_locked, put_ends.
  destruct (fs_open sys file fs) as [fdr fs1] eqn:E1. rewrite (bind_unfold _ _ _ _ _ E1).
  assert (view fs1 = view fs /\ history fs1 = history fs ++ [view fs]) as [Hv1 Hh1].
  { unfold fs_open, finish in E1. repeat case_match; by injection E1 as <- <-. }
  assert (intact (view fs)) as Hi0 by (split; [left; by apply Hold|]; intros q Hq _; by apply Hold).
  assert (shows intact fs fs1) as Hs1 by (by eapply shows_one).
  destruct (Z.leb_spec 0 fdr) as [Hge|Hlt].
  - destruct (give_up_spec fdr fd fs1) as (fs2 & E2 & Hs2 & Hi2 & Hc2); [by rewrite Hv1|]. exists fs2. split; [done|].
    split; [by eapply shows_trans|]. split; [done|]. intros _ Hno. rewrite Hc2, Hv1, Hold by done.
    unfold fs_open, finish in E1. destruct (names (view fs) !! file) as [j|] eqn:Ej; [|injection E1 as <- <-; lia].
    destruct (contents v0 file) as [o|] eqn:Eo; [done|]. specialize (Hno eq_refl). congruence.
  - assert (opened fs1 !! fd = Some (i, O) /\ ((forall k, 0 < sys k) -> names v0 !! file = None)) as [Ho1 Hnone].
    { unfold fs_open, finish in E1. rewrite <- Hnm. destruct (names (view fs) !! file) as [j|] eqn:Ej; [|by injection E1 as <- <-].
      unfold failing in E1. destruct (Z.ltb_spec (sys (calls fs)) 0); injection E1 as <- <-; [|lia].
      split; [done|]. intros Hk. specialize (Hk (calls fs)). lia. }
    destruct (write_full_spec (length buf) fd buf 0 fs1 i O c0) as (n & fs2 & off' & E2 & Hs2 & Hsb & _ & _ & _ & Hw & Hpos);
      [done | done | done | by rewrite Hv1 | lia |].
    rewrite (bind_unfold _ _ _ _ _ E2). rewrite Hv1 in *.
    assert (forall v, same_but i (view fs) v -> intact v) as Hsame.
    { intros v [S1 S2]. apply (intact_same (view fs)); [|done]. intros q Hq. apply contents_eq; [by rewrite S1|].
      intros j Hj. apply S2. intros ->. by apply (Hlink q). }
    assert (shows intact fs fs2) as Hs02.
    { eapply shows_trans; [exact Hs1|]. by eapply shows_mono. }
    destruct (Z.ltb_spec n 0) as [Hneg|Hnn].
    + destruct (give_up_spec fdr fd fs2) as (fs4 & E4 & Hs4 & Hi4 & _); [by apply Hsame|].
      exists fs4. split; [done|]. split; [by eapply shows_trans|]. split; [done|]. intros Hk. specialize (Hpos Hk). lia.
    + assert (file_write c0 0 buf = buf) as Hfw
        by (unfold file_write; rewrite drop_ge by lia; cbn; by rewrite app_nil_r).
      destruct (publish_spec fdr fd fs2 i) as (fs4 & E4 & Hs4 & Hi4 & Hc4);
        [by rewrite (proj1 Hsb) | by rewrite (Hw Hnn), Hfw | by apply Hsame |].
      exists fs4. split; [done|]. split; [by eapply shows_trans|]. split; [done|]. intros Hk _. rewrite (Hc4 Hk).
      unfold contents. by rewrite (Hnone Hk).
Qed.
End Put.

(** Names lead to inodes in use, and two names to two inodes. *)
Record fs_ok (fs : Fs) : Prop := mkFsOk {
  ok_fresh : 0 <= fresh fs;
  ok_names : forall p i, names (view fs) !! p = Some i -> i < fresh fs /\ is_Some (inodes (view fs) !! i);
  ok_links : forall p q i, names (view fs) !! p = Some i -> names (view fs) !! q = Some i -> p = q }.

Lemma ok_contents fs p : fs_ok fs -> contents (view fs) p = None -> names (view fs) !! p = None.
Proof.
  intros Hok H. unfold contents in H. destruct (names (view fs) !! p) as [i|] eqn:E; [|done].
  destruct (proj2 (ok_names _ Hok p i E)) as [c Hc]. cbn in H. congruence.
Qed.

(** Opening the temporary file: it exists then, with what it held or empty. *)
Lemma open_creat_spec tmp fs :
  fs_ok fs ->
  exists fd fs', fs_open_creat sys tmp fs = (fd, fs') /\ history fs' = history fs ++ [view fs'] /\
    (forall q, q <> tmp -> contents (view fs') q = contents (view fs) q /\ names (view fs') !! q = names (view fs) !! q) /\
    (fd = -1 /\ ~ (forall k, 0 < sys k) \/
     exists i, fd = fresh fs /\ names (view fs') !! tmp = Some i /\ opened fs' !! fd = Some (i, O) /\
       inodes (view fs') !! i = Some (default [] (contents (view fs) tmp)) /\
       (forall q, q <> tmp -> names (view fs') !! q <> Some i) /\ 0 <= fresh fs').
Proof.
  intros Hok. pose proof (ok_fresh _ Hok) as Hfr. unfold fs_open_creat, finish, failing. destruct (Z.ltb_spec (sys (calls fs)) 0) as [Hf|Hf].
  - do 2 eexists. split_and!; [reflexivity|done|done|]. left. split; [done|]. intros Hk. specialize (Hk (calls fs)). lia.
  - destruct (names (view fs) !! tmp) as [i|] eqn:Hi.
    + destruct (ok_names _ Hok _ _ Hi) as [Hlt [c Hc]]. do 2 eexists. split_and!; [reflexivity|done|done|]. right. exists i. cbn.
      rewrite lookup_insert_eq. unfold contents. rewrite Hi. cbn. rewrite Hc. split_and!; try done; [|lia].
      intros q Hq Hqi. by rewrite (ok_links _ Hok _ _ _ Hqi Hi) in Hq.
    + do 2 eexists. split_and!; [reflexivity|done| |].
      * intros q Hq. cbn. rewrite lookup_insert_ne by done. split; [|done]. apply contents_eq; cbn; [by rewrite lookup_insert_ne|].
        intros j Hj. pose proof (ok_names _ Hok _ _ Hj). rewrite lookup_insert_ne by lia. done.
      * right. exists (fresh fs). cbn. rewrite !lookup_insert_eq. unfold contents. rewrite Hi. split_and!; try done; [|lia].
        intros q Hq. rewrite lookup_insert_ne by done. intros Hj. pose proof (ok_names _ Hok _ _ Hj). lia.
Qed.

Definition tmp_of (c : Cache) (hash : list Z) : string := FileName c hash ".tmp".
Definition file_of (c : Cache) (hash : list Z) : string := FileName c hash "".

Lemma cache_put_spec c hash buf fs :
  fs_ok fs -> (length (default [] (contents (view fs) (tmp_of c hash))) <= length buf)%nat ->
  exists fs', cache_put sys c hash buf fs = (tt, fs') /\
    shows (intact (tmp_of c hash) (file_of c hash) buf (view fs)) fs fs' /\
    intact (tmp_of c hash) (file_of c hash) buf (view fs) (view fs') /\
    (allow_write c = true -> (forall k, 0 < sys k) ->
     contents (view fs') (file_of c hash) = Some (default buf (contents (view fs) (file_of c hash)))).
Proof.
  intros Hok Hl. unfold cache_put. fold (tmp_of c hash) (file_of c hash). set (tmp := tmp_of c hash) in *. set (file := file_of c hash) in *.
  assert (tmp <> file) as Hne by apply FileName_tmp.
  assert (forall v, (forall q, q <> tmp -> contents v q = contents (view fs) q) -> intact tmp file buf (view fs) v) as Hin.
  { intros v Hv. split; [left; by apply Hv|]. intros q Hq _. by apply Hv. }
  destruct (allow_write c); cbn [negb]; [|exists fs; split_and!; [done|apply shows_refl|by apply Hin|done]].
  destruct (open_creat_spec tmp fs Hok) as (fd & fs1 & E1 & Hh1 & Hq1 & Hfd). rewrite (bind_unfold _ _ _ _ _ E1).
  assert (intact tmp file buf (view fs) (view fs1)) as Hi1 by (apply Hin; intros q Hq; by apply Hq1).
  assert (shows (intact tmp file buf (view fs)) fs fs1) as Hs1 by (by eapply shows_one).
  assert (forall fs2, shows (intact tmp file buf (view fs)) fs fs2 -> view fs2 = view fs1 ->
    exists fs', close_fds sys (-1) fd fs2 = (tt, fs') /\ shows (intact tmp file buf (view fs)) fs fs' /\
      intact tmp file buf (view fs) (view fs')) as Hclose.
  { intros fs2 Hs2 Hv2. destruct (close_fds_spec (-1) fd fs2) as (fs3 & E3 & Hv3 & Hs3). exists fs3. split; [done|].
    rewrite Hv3, Hv2. split; [|done]. eapply shows_trans; [exact Hs2|]. eapply shows_mono; [|exact Hs3]. intros v <-. by rewrite Hv2. }
  destruct Hfd as [[-> Hno]|(i & -> & Hn & Ho & Hc & Hlink & Hfr)].
  { cbn [Z.eqb]. destruct (Hclose fs1) as (fs' & E & Hs & Hi); [done..|]. exists fs'. split_and!; [done..|]. intros _ Hk. by destruct Hno. }
  rewrite (proj2 (Z.eqb_neq (fresh fs) (-1))) by (pose proof (ok_fresh _ Hok); lia).
  destruct (fs_setlk sys (fresh fs) fs1) as [lk fs2] eqn:E2. rewrite (bind_unfold _ _ _ _ _ E2).
  unfold fs_setlk, finish, failing in E2. injection E2 as <- <-. set (fs2 := mkFs _ _ _ _ _).
  assert (shows (intact tmp file buf (view fs)) fs fs2) as Hs2.
  { eapply shows_trans; [exact Hs1|]. apply (shows_one _ fs1 fs2 (view fs1)); done. }
  destruct (Z.ltb_spec (sys (calls fs1)) 0) as [Hf|Hf]; cbn [Z.ltb Z.compare].
  - destruct (Hclose fs2) as (fs' & E & Hs & Hi); [done..|]. exists fs'. split_and!; [done..|]. intros _ Hk. specialize (Hk (calls fs1)). lia.
  - destruct (put_locked_spec tmp file Hne buf (view fs) fs2 (fresh fs) i (default [] (contents (view fs) tmp)))
      as (fs' & E & Hs & Hi & Hdone); try done; [intros q Hq; by apply Hq1 | by apply Hq1 |].
    exists fs'. split_and!; [done|by eapply shows_trans|done|]. intros _ Hk. apply Hdone; [done|]. by apply ok_contents.
Qed.
(** A file that is there is opened at its start and its size found. *)
Lemma cache_get_spec c hash fs obj :
  (forall k, 0 < sys k) -> allow_read c = true -> contents (view fs) (file_of c hash) = Some obj -> 0 <= fresh fs ->
  exists fd i fs', cache_get sys c hash fs = ((fd, Z.of_nat (length obj)), fs') /\ view fs' = view fs /\
    0 <= fd /\ opened fs' !! fd = Some (i, O) /\ inodes (view fs) !! i = Some obj.
Proof.
  intros Hk Hr Hc Hfr. unfold cache_get. rewrite Hr. cbn [negb]. fold (file_of c hash). unfold contents in Hc.
  destruct (names (view fs) !! file_of c hash) as [i|] eqn:Hi; [|done]. cbn in Hc.
  assert (forall fs, failing sys fs = false) as Hfail by (intros fs0; unfold failing; specialize (Hk (calls fs0)); lia).
  destruct (fs_open sys (file_of c hash) fs) as [fd fs1] eqn:E1. rewrite (bind_unfold _ _ _ _ _ E1).
  unfold fs_open, finish in E1. rewrite Hi, Hfail in E1. injection E1 as <- <-.
  rewrite (proj2 (Z.eqb_neq _ _)) by lia. match goal with |- context [mkFs ?v ?o ?f ?n ?h] => set (fs1 := mkFs v o f n h) end.
  destruct (fs_size sys (fresh fs) fs1) as [sz fs2] eqn:E2. rewrite (bind_unfold _ _ _ _ _ E2).
  unfold fs_size, finish in E2. rewrite Hfail in E2. cbn [opened fs1] in E2. rewrite lookup_insert_eq in E2. cbn in E2. rewrite Hc in E2.
  injection E2 as <- <-. cbn [default from_option]. rewrite (proj2 (Z.eqb_neq _ _)) by (cbn; lia).
  exists (fresh fs), i. eexists. split_and!; [reflexivity|done|done| |done]. cbn. apply lookup_insert_eq.
Qed.

(** Numbers are not used twice. *)
Definition growing {A} (m : ST Fs A) : Prop := forall fs, fresh fs <= fresh (m fs).2.

Lemma growing_ret {A} (a : A) : growing (mret a).
Proof. intros fs. done. Qed.

Lemma growing_bind {A B} (m : ST Fs A) (f : A -> ST Fs B) : growing m -> (forall a, growing (f a)) -> growing (a ← m; f a).
Proof.
  intros Hm Hf fs. specialize (Hm fs). destruct (m fs) as [a fs1] eqn:E. rewrite (bind_unfold _ _ _ _ _ E).
  specialize (Hf a fs1). cbn in Hm. lia.
Qed.

Ltac grow := repeat first [progress intros | apply growing_ret | apply growing_bind | case_match].

Lemma growing_write_full fuel fd buf total : growing (cache_write_full sys fuel fd buf total).
Proof.
  revert buf total. induction fuel as [|fuel IH]; intros buf total; destruct buf; cbn [cache_write_full]; try apply growing_ret.
  apply growing_bind; [|grow; apply IH]. intros fs. unfold fs_write, finish. repeat case_match; cbn; lia.
Qed.

Lemma growing_put c hash buf : growing (cache_put sys c hash buf).
Proof.
  unfold cache_put, put_locked, close_fds. grow; try apply growing_write_full;
    intros fs; unfold fs_open_creat, fs_setlk, fs_open, fs_unlink, fs_rename, fs_close, finish; repeat case_match; cbn; lia.
Qed.

(** ** The properties *)

(** C14. Putting an object is atomic, whatever the calls return: in every state
    that a reader or a crash can see, during the call and after it, the file of
    the hash holds what it held before or the complete object, and no other
    file but the temporary one has changed.  When the calls succeed the file
    ends with the object, unless it was there already.  The temporary file of
    an earlier attempt must not be longer than the object. *)
Theorem cache_put_atomic (c : Cache) (hash buf : list Z) (fs : Fs) :
  fs_ok fs -> (length (default [] (contents (view fs) (FileName c hash ".tmp"))) <= length buf)%nat ->
  exists fs' hs, cache_put sys c hash buf fs = (tt, fs') /\ history fs' = history fs ++ hs /\
    Forall (fun v =>
      (contents v (FileName c hash "") = contents (view fs) (FileName c hash "") \/ contents v (FileName c hash "") = Some buf) /\
      forall q, q <> FileName c hash ".tmp" -> q <> FileName c hash "" -> contents v q = contents (view fs) q) (view fs' :: hs) /\
    (allow_write c = true -> (forall k, 0 < sys k) ->
     contents (view fs') (FileName c hash "") = Some (default buf (contents (view fs) (FileName c hash "")))).
Proof.
  intros Hok Hl. destruct (cache_put_spec c hash buf fs Hok Hl) as (fs' & E & (hs & Hh & Hall) & Hi & Hdone).
  exists fs', hs. split_and!; [done|done| |done]. constructor; [exact Hi|exact Hall].
Qed.

(** C18. An object that is put is what a later look-up of the hash delivers:
    a descriptor at the start of a file that holds the object (or the object
    that was there before), and its size; and look-ups of any other hash are
    not affected. *)
Theorem cache_put_get (c : Cache) (hash buf : list Z) (fs : Fs) :
  fs_ok fs -> (length (default [] (contents (view fs) (FileName c hash ".tmp"))) <= length buf)%nat ->
  (forall k, 0 < sys k) -> allow_read c = true -> allow_write c = true -> length hash = HASH_SIZE -> Forall (in_u 8) hash ->
  exists fd i fs', (cache_put sys c hash buf;; cache_get sys c hash) fs = ((fd, Z.of_nat (length (default buf (contents (view fs) (FileName c hash ""))))), fs') /\
    0 <= fd /\ opened fs' !! fd = Some (i, O) /\
    inodes (view fs') !! i = Some (default buf (contents (view fs) (FileName c hash ""))) /\
    forall hash', length hash' = HASH_SIZE -> Forall (in_u 8) hash' -> hash' <> hash ->
      contents (view fs') (FileName c hash' "") = contents (view fs) (FileName c hash' "").
Proof.
  intros Hok Hl Hk Hr Hw Hlen Hb. destruct (cache_put_spec c hash buf fs Hok Hl) as (fs1 & E1 & _ & [_ Hoth] & Hdone).
  rewrite (bind_unfold _ _ _ _ _ E1). specialize (Hdone Hw Hk).
  destruct (cache_get_spec c hash fs1 _ Hk Hr Hdone) as (fd & i & fs2 & E2 & Hv & Hfd & Ho & Hi);
    [pose proof (growing_put c hash buf fs) as Hg; rewrite E1 in Hg; cbn in Hg; pose proof (ok_fresh _ Hok); lia|].
  exists fd, i, fs2. rewrite Hv. split_and!; [done..|]. intros h' Hl' Hb' Hne. apply Hoth.
  - apply FileName_not_tmp. congruence.
  - intros E. apply FileName_inj in E; [done..|congruence].
Qed.
End Sys.

(** ** Examples *)

Definition fs_empty : Fs := mkFs (mkView ∅ ∅) ∅ 3 0 [].
Definition cache_ex : Cache := mkCache true true "/home/u/.cache/instrew".
Definition hash_ex : list Z := repeat 171 20.

Lemma fs_empty_ok : fs_ok fs_empty.
Proof. constructor; [done|..]; intros p; intros *; unfold fs_empty; cbn; rewrite lookup_empty; done. Qed.

(** A cache whose disk is full after two bytes. *)
Definition full_disk (k : nat) : Z := if (k =? 4)%nat then -1 else 2.

Lemma cache_put_atomic_witness :
  exists fs' hs, cache_put full_disk cache_ex hash_ex [1; 2; 3; 4] fs_empty = (tt, fs') /\ history fs' = hs /\ (4 < length hs)%nat /\
    Forall (fun v => contents v (FileName cache_ex hash_ex "") = None \/ contents v (FileName cache_ex hash_ex "") = Some [1; 2; 3; 4]) hs.
Proof.
  destruct (cache_put_atomic full_disk cache_ex hash_ex [1; 2; 3; 4] fs_empty) as (fs' & hs & E & Hh & Hall & _);
    [apply fs_empty_ok | vm_compute; lia |].
  exists fs', hs. split; [exact E|]. split; [exact Hh|]. split.
  - assert (length (history (cache_put full_disk cache_ex hash_ex [1; 2; 3; 4] fs_empty).2) = 7%nat) as H7 by (vm_compute; reflexivity).
    rewrite E in H7. cbn [snd] in H7. rewrite Hh in H7. cbn [history fs_empty app] in H7. lia.
  - apply Forall_cons in Hall as [_ Hall]. eapply Forall_impl; [exact Hall|]. intros v [Hv _]. exact Hv.
Defined.

Lemma cache_put_get_witness :
  exists fd i fs', (cache_put (fun _ => 3) cache_ex hash_ex [1; 2; 3; 4];; cache_get (fun _ => 3) cache_ex hash_ex) fs_empty = ((fd, 4), fs') /\
    opened fs' !! fd = Some (i, O) /\ inodes (view fs') !! i = Some [1; 2; 3; 4].
Proof.
  destruct (cache_put_get (fun _ => 3) cache_ex hash_ex [1; 2; 3; 4] fs_empty) as (fd & i & fs' & E & _ & Ho & Hi & _);
    [apply fs_empty_ok | vm_compute; lia | lia | done | done | done | unfold hash_ex, in_u; cbn [repeat]; repeat (apply Forall_cons; split; [lia|]); apply Forall_nil; done |].
  exists fd, i, fs'. split; [exact E|]. split; [exact Ho|exact Hi].
Defined.

(** A temporary file that is longer than the object leaves its tail behind it:
    it is opened without [O_TRUNC]. *)
Definition fs_stale : Fs :=
  mkFs (mkView {[FileName cache_ex hash_ex ".tmp" := 1]} {[1 := [9; 9; 9; 9; 9; 9]]}) ∅ 3 0 [].

Example cache_put_stale :
  contents (view (cache_put (fun _ => 3) cache_ex hash_ex [1; 2; 3; 4] fs_stale).2) (FileName cache_ex hash_ex "") = Some [1; 2; 3; 4; 9; 9].
Proof. vm_compute. reflexivity. Qed.

(** The first run of the server creates the directory, and leaves the cache off. *)
Example cache_init_first (home : string) :
  allow_write (cache_init (mkCacheConfig true "" "rw") true home (fun _ => (true, false))) = false /\
  allow_write (cache_init (mkCacheConfig true "" "rw") true home (fun _ => (false, false))) = true.
Proof. done. Qed.
