(* ===== verification/ServerConn.v ===== *)
(** * The server's end of the connection, [server/connection.cc]

    The server answers the client's translation requests.  While it translates
    it reads the client's memory page by page over the same connection, and
    keeps the pages.  Output goes through a buffered stream that must be flushed
    before the server waits for an answer; cached objects bypass the stream.  An
    assertion of the source that fails ends the server. *)

From Stdlib Require Import ZArith Lia String.
From stdpp Require Import base numbers list list_numbers strings gmap.
From S2P Require Import Prelude Machine Printf RtldElf Translator ServerCache.

(** ** State *)

(** [Conn]: what the client will have sent and is not read yet, what has left,
    what is in the buffer of [file_wr], and the two headers. *)
Record Conn := mkConn {
  inp : list Z; out : list Z; buffered : list Z; wr_sz : Z; recv_id : Z; recv_sz : Z }.

(** The options [IWConnection] reads itself. *)
Record ServerConfig := mkServerConfig { cfg_dumpobj : bool; cfg_cachecfg : CacheConfig }.

(** [IWConnection] with its [RemoteMemory], its [Cache] and the file system;
    objects that were dumped for debugging. *)
Record Server := mkServer {
  conn : Conn; iwsc : TranslatorServerConfig; iwcc : TranslatorConfig; need_iwcc : bool;
  page_cache : gmap Z (list Z); cache : Cache; files : Fs; dumps : list (Z * list Z) }.

Definition set_conn (c : Conn) (s : Server) : Server :=
  mkServer c (iwsc s) (iwcc s) (need_iwcc s) (page_cache s) (cache s) (files s) (dumps s).
Definition set_iwsc (c : TranslatorServerConfig) (s : Server) : Server :=
  mkServer (conn s) c (iwcc s) (need_iwcc s) (page_cache s) (cache s) (files s) (dumps s).
Definition set_iwcc (c : TranslatorConfig) (s : Server) : Server :=
  mkServer (conn s) (iwsc s) c (need_iwcc s) (page_cache s) (cache s) (files s) (dumps s).
Definition set_need (b : bool) (s : Server) : Server :=
  mkServer (conn s) (iwsc s) (iwcc s) b (page_cache s) (cache s) (files s) (dumps s).
Definition set_pages (p : gmap Z (list Z)) (s : Server) : Server :=
  mkServer (conn s) (iwsc s) (iwcc s) (need_iwcc s) p (cache s) (files s) (dumps s).
Definition set_cache (c : Cache) (s : Server) : Server :=
  mkServer (conn s) (iwsc s) (iwcc s) (need_iwcc s) (page_cache s) c (files s) (dumps s).
Definition set_files (f : Fs) (s : Server) : Server :=
  mkServer (conn s) (iwsc s) (iwcc s) (need_iwcc s) (page_cache s) (cache s) f (dumps s).
Definition set_dumps (d : list (Z * list Z)) (s : Server) : Server :=
  mkServer (conn s) (iwsc s) (iwcc s) (need_iwcc s) (page_cache s) (cache s) (files s) d.

(** ** The monad

    A run ends with a value, with [exit], with a failed assertion, or is stuck:
    it does not end within the fuel, or the source has no behaviour. *)
Inductive Outcome (A : Type) := Done (a : A) (s : Server) | Exited (code : Z) (s : Server) | Aborted | Stuck.
Arguments Done {A}.
Arguments Exited {A}.
Arguments Aborted {A}.
Arguments Stuck {A}.

Definition SM (A : Type) : Type := Server -> Outcome A.
#[global] Instance SM_ret : MRet SM := fun A a s => Done a s.
#[global] Instance SM_bind : MBind SM := fun A B f m s =>
  match m s with Done a s' => f a s' | Exited c s' => Exited c s' | Aborted => Aborted | Stuck => Stuck end.

Definition sget {A} (f : Server -> A) : SM A := fun s => Done (f s) s.
Definition smodify (f : Server -> Server) : SM unit := fun s => Done tt (f s).
Definition abort {A} : SM A := fun _ => Aborted.
Definition exit {A} (code : Z) : SM A := fun s => Exited code s.
Definition stuck {A} : SM A := fun _ => Stuck.
Definition on_files {A} (m : ST Fs A) : SM A := fun s => let '(a, f) := m (files s) in Done a (set_files f s).

(** ** [class Conn] *)

Definition le_Z (bs : list Z) : Z := little_endian_to_Z 8 bs.

Definition RecvMsg : SM Z :=
  c ← sget conn;
  if negb (recv_sz c =? 0) then abort
  else
    let got := take 8 (inp c) in
    let hdr := got ++ drop (length got) (le4 (recv_id c) ++ le4 (recv_sz c)) in
    let c' := mkConn (drop 8 (inp c)) (out c) (buffered c) (wr_sz c) (le_Z (take 4 hdr)) (s32 (le_Z (drop 4 hdr))) in
    smodify (set_conn c');;
    if (length got =? 8)%nat then mret (recv_id c') else mret MSGID_C_EXIT.

(** [fread] of no bytes returns 0 as at the end of the stream. *)
Definition Read (size : nat) : SM (list Z) :=
  c ← sget conn;
  if u64 (recv_sz c) <? Z.of_nat size then abort
  else if (size =? 0)%nat || (length (inp c) <? size)%nat then abort
  else
    smodify (set_conn (mkConn (drop size (inp c)) (out c) (buffered c) (wr_sz c) (recv_id c) (s32 (recv_sz c - Z.of_nat size))));;
    mret (take size (inp c)).

Definition INT32_MAX : Z := 2 ^ 31 - 1.

Definition SendMsgHdr (id size : Z) : SM unit :=
  if INT32_MAX <? size then abort
  else smodify (fun s => let c := conn s in
    set_conn (mkConn (inp c) (out c) (buffered c ++ le4 id ++ le4 size) (s32 size) (recv_id c) (recv_sz c)) s).

Definition fflush : SM unit := smodify (fun s => let c := conn s in
  set_conn (mkConn (inp c) (out c ++ buffered c) [] (wr_sz c) (recv_id c) (recv_sz c)) s).

Definition Write (buf : list Z) : SM unit :=
  smodify (fun s => let c := conn s in
    set_conn (mkConn (inp c) (out c) (buffered c ++ buf) (s32 (wr_sz c - Z.of_nat (length buf))) (recv_id c) (recv_sz c)) s);;
  c ← sget conn;
  if wr_sz c =? 0 then fflush else mret tt.

(** Bytes that do not pass through the buffer. *)
Definition put_raw (bs : list Z) : SM unit := smodify (fun s => let c := conn s in
  set_conn (mkConn (inp c) (out c ++ bs) (buffered c) (wr_sz c) (recv_id c) (recv_sz c)) s).

Definition SendMsg (id : Z) (val : list Z) : SM unit := SendMsgHdr id (Z.of_nat (length val));; Write val.

Section Connection.
(** The outcomes of the file system calls; whether a dump file can be created. *)
Context (sys : nat -> Z) (fopen_ok : Z -> bool).

(** [while (size)]; no fuel is left only when [sendfile] delivers nothing for a
    file that is shorter than announced. *)
Fixpoint sendfile_loop (fuel : nat) (fd size : Z) : SM unit :=
  if size =? 0 then mret tt
  else match fuel with
       | O => stuck
       | S fuel' =>
           '(cnt, bs) ← on_files (fs_sendfile sys fd size);
           if cnt <? 0 then abort
           else put_raw bs;; sendfile_loop fuel' fd (u64 (size - cnt))
       end.

Definition Sendfile (fd size : Z) : SM unit := fflush;; sendfile_loop (Z.to_nat size) fd size.

(** ** [class RemoteMemory] *)

Definition PG_SIZE : Z := 0x1000.

Definition GetPage (page_addr : Z) : SM (option (list Z)) :=
  pages ← sget page_cache;
  match pages !! page_addr with
  | Some page => mret (Some page)
  | None =>
      SendMsg MSGID_S_MEMREQ (le8 page_addr ++ le8 PG_SIZE);;
      msgid ← RecvMsg;
      if negb (msgid =? MSGID_C_MEMBUF) then mret None
      else
        page ← Read (Z.to_nat PG_SIZE);
        failed ← Read 1;
        if negb (le_Z failed =? 0) then mret None
        else
          smodify (fun s => set_pages (<[page_addr := page]> (page_cache s)) s);;
          mret (Some page)
  end.

(** The loop over the pages; [acc] is what was copied to [buf].  A page is only
    passed twice when the addresses wrap around. *)
Fixpoint Get_loop (fuel : nat) (cur end_page start end_ : Z) (acc : list Z) : SM (list Z) :=
  if negb (cur <=? end_page) then mret acc
  else match fuel with
       | O => stuck
       | S fuel' =>
           page ← GetPage cur;
           match page with
           | None => mret acc
           | Some page =>
               let start_off := if cur <? start then Z.land start (PG_SIZE - 1) else 0 in
               let end_off := if end_ <? u64 (cur + PG_SIZE) then Z.land end_ (PG_SIZE - 1) else PG_SIZE in
               if end_off <? start_off then stuck
               else Get_loop fuel' (u64 (cur + PG_SIZE)) end_page start end_
                      (acc ++ take (Z.to_nat (end_off - start_off)) (drop (Z.to_nat start_off) page))
           end
       end.

Definition page_of (a : Z) : Z := Z.land a (Z.lxor (2 ^ 64 - 1) (PG_SIZE - 1)).

(** The bytes that were read. *)
Definition Get (start end_ : Z) : SM (list Z) :=
  let start_page := page_of start in
  let end_page := page_of end_ in
  Get_loop (Z.to_nat ((end_page - start_page) / PG_SIZE + 1)) start_page end_page start end_ [].

(** ** [struct IWConnection] *)

Definition CacheProbe (addr : Z) (hash : list Z) : SM bool :=
  c ← sget cache;
  '(fd, size) ← on_files (cache_get sys c hash);
  if fd <? 0 then mret false
  else
    SendMsgHdr MSGID_S_OBJECT size;;
    Sendfile fd size;;
    on_files (fs_close sys fd);;
    mret true.

(** [struct IWClientConfig], packed. *)
Definition tc_bytes (c : TranslatorConfig) : list Z :=
  le4 (tc_callconv c) ++ le4 (tc_profile c) ++ le4 (tc_perf c) ++ le4 (tc_print_trace c) ++ le4 (tc_print_regs c).

Definition SendObject (cfg : ServerConfig) (addr : Z) (data : list Z) (hash : option (list Z)) : SM unit :=
  need ← sget need_iwcc;
  (if (need : bool) then cc ← sget iwcc; SendMsg MSGID_S_INIT (tc_bytes cc);; smodify (set_need false) else mret tt);;
  SendMsgHdr MSGID_S_OBJECT (Z.of_nat (length data));;
  Write data;;
  (if cfg_dumpobj cfg && fopen_ok addr then smodify (fun s => set_dumps (dumps s ++ [(addr, data)]) s) else mret tt);;
  match hash with
  | Some hash => c ← sget cache; on_files (cache_put sys c hash data)
  | None => mret tt
  end.

Definition load_tsc (bs : list Z) : TranslatorServerConfig :=
  let f i := s32 (le_Z (take 4 (drop i bs))) in mkTsc (f 0%nat) (f 4%nat) (f 8%nat) (f 12%nat) (f 16%nat).
End Connection.

(** [struct IWFunctions]: the translator behind the connection. *)
Record IWFunctions := mkFns {
  IWState : Type;
  init : SM IWState;
  translate : IWState -> Z -> SM IWState;
  finalize : IWState -> SM unit }.

Section Run.
Context (sys : nat -> Z) (fopen_ok : Z -> bool) (fns : IWFunctions) (cfg : ServerConfig).
(** What the constructor of the cache asks the system. *)
Context (same_user : bool) (home : string) (create : string -> bool * bool).

(** [while (true)]: one unit of fuel per message. *)
Fixpoint Run_loop (fuel : nat) (state : IWState fns) : SM Z :=
  match fuel with
  | O => stuck
  | S fuel' =>
      msgid ← RecvMsg;
      if msgid =? MSGID_C_EXIT then finalize fns state;; mret 0
      else if msgid =? MSGID_C_TRANSLATE then
        addr ← Read 8;
        state ← translate fns state (le_Z addr);
        Run_loop fuel' state
      else mret 1
  end.

Definition Run (fuel : nat) : SM Z :=
  msgid ← RecvMsg;
  if negb (msgid =? MSGID_C_INIT) then mret 1
  else
    bs ← Read 20;
    smodify (set_iwsc (load_tsc bs));;
    smodify (set_need (tsc_server_mode (load_tsc bs) =? 0));;
    smodify (set_cache (cache_init (cfg_cachecfg cfg) same_user home create));;
    state ← init fns;
    need ← sget need_iwcc;
    (if (need : bool) then SendObject sys fopen_ok cfg 0 [] None else mret tt);;
    Run_loop fuel state.
End Run.

(** [CreateFork]: the descriptors of the client on its command line. *)
Fixpoint config_digits (fuel : nat) (raw_fds : Z) : list Z :=
  match fuel with
  | O => []
  | S fuel' => if raw_fds =? 0 then [] else chr "0" + Z.land raw_fds 7 :: config_digits fuel' (Z.shiftr raw_fds 3)
  end.

(** 64 bits are shifted out within 22 rounds. *)
Definition client_config (pipe0 pipe3 : Z) : list Z :=
  config_digits 22 (Z.lor (u64 pipe0) (u64 (Z.shiftl (u64 pipe3) 32))).
