(* ===== verification/ServerConnProofs.v ===== *)
(** * The two ends of the connection fit together

    The server reads the client's memory through the connection: what it gets
    is what the memory holds, it asks for a page at most once, and everything it
    has to say is on its way before it waits.  With the client's theorem on
    translation sessions: the object that arrives is the one the server made. *)

From Stdlib Require Import ZArith Lia String.
From stdpp Require Import base numbers list list_numbers strings gmap.
From S2P Require Import Prelude Machine Printf StreamIO RtldElf Translator TranslatorProofs ServerCache ServerCacheProofs ServerConn.

(** ** Lists and pages *)

Lemma sm_bind {A B} (m : SM A) (f : A -> SM B) s a s' : m s = Done a s' -> (m ≫= f) s = f a s'.
Proof. intros H. unfold mbind, SM_bind. by rewrite H. Qed.

Lemma load_bytes_sub m a n off k :
  (off + k <= n)%nat -> take k (drop off (load_bytes m a n)) = load_bytes m (a + Z.of_nat off) k.
Proof.
  intros H. replace n with (off + (k + (n - off - k)))%nat by lia. rewrite !load_bytes_app.
  rewrite drop_app_length' by (by rewrite length_load_bytes). by rewrite take_app_length' by (by rewrite length_load_bytes).
Qed.

Lemma load_bytes_join m a n1 n2 b :
  b = a + Z.of_nat n1 -> load_bytes m a n1 ++ load_bytes m b n2 = load_bytes m a (n1 + n2).
Proof. intros ->. by rewrite load_bytes_app. Qed.

Lemma page_of_div a : in_u 64 a -> page_of a = 4096 * (a / 4096).
Proof.
  intros Ha. unfold page_of, PG_SIZE. change (Z.lxor (2 ^ 64 - 1) (4096 - 1)) with (Z.shiftl (Z.ones 52) 12).
  change 4096 with (2 ^ 12). rewrite <- Z.shiftr_div_pow2, Z.mul_comm, <- Z.shiftl_mul_pow2 by lia.
  apply bits_eq. intros n Hn0. rewrite Z.land_spec. destruct (Z.ltb_spec n 12) as [Hn|Hn].
  - rewrite !Z.shiftl_spec_low by lia. apply andb_false_r.
  - rewrite !Z.shiftl_spec, Z.shiftr_spec by lia. replace (n - 12 + 12) with n by lia.
    destruct (Z.ltb_spec n 64) as [H64|H64].
    + rewrite Z.ones_spec_low by lia. apply andb_true_r.
    + replace (Z.testbit a n) with false; [done|]. symmetry. apply (bits_above 64); done || lia.
Qed.

Lemma land_pg a : Z.land a (PG_SIZE - 1) = a `mod` 4096.
Proof. change (PG_SIZE - 1) with (Z.ones 12). by rewrite Z.land_ones by lia. Qed.

(** The size of a page as a [nat] that is never written out. *)
Definition page_bytes : nat := Z.to_nat PG_SIZE.
Lemma page_bytes_Z : Z.of_nat page_bytes = 4096.
Proof. done. Qed.
#[local] Opaque page_bytes.

(** ** Messages *)

(** Nothing is half read, and nothing waits in the buffer. *)
Definition quiet (s : Server) : Prop := recv_sz (conn s) = 0 /\ buffered (conn s) = [].

Lemma le_Z_le4 v : le_Z (le4 v) = u32 v.
Proof. unfold le_Z, le4. rewrite little_endian_to_Z_to_little_endian by lia. done. Qed.
Lemma le_Z_le8 v : le_Z (le8 v) = u64 v.
Proof. unfold le_Z, le8. rewrite little_endian_to_Z_to_little_endian by lia. done. Qed.

Lemma recv_msg_ok id sz rest s :
  in_u 32 id -> in_s 32 sz -> recv_sz (conn s) = 0 -> inp (conn s) = le4 id ++ le4 sz ++ rest ->
  RecvMsg s = Done id (set_conn (mkConn rest (out (conn s)) (buffered (conn s)) (wr_sz (conn s)) id sz) s).
Proof.
  intros Hid Hsz H0 Hin. unfold RecvMsg. rewrite (sm_bind _ _ _ (conn s) s) by done. rewrite H0, Hin. cbn [Z.eqb negb]. cbv zeta.
  rewrite app_assoc. assert (length (le4 id ++ le4 sz) = 8%nat) as H8 by (by rewrite length_app, !length_le4).
  rewrite take_app_length', drop_app_length', H8 by done. rewrite (drop_ge (le4 _ ++ le4 _)) by (by rewrite length_app, !length_le4).
  rewrite app_nil_r, take_app_length', drop_app_length', !le_Z_le4 by (by rewrite length_le4).
  rewrite swrap_wrap, swrap_small by done. rewrite (wrap_small 32 id) by done. done.
Qed.

Lemma read_msg_ok n bs rest s :
  length bs = n -> (0 < n)%nat -> Z.of_nat n <= recv_sz (conn s) < 2 ^ 31 -> inp (conn s) = bs ++ rest ->
  Read n s = Done bs (set_conn (mkConn rest (out (conn s)) (buffered (conn s)) (wr_sz (conn s)) (recv_id (conn s))
    (recv_sz (conn s) - Z.of_nat n)) s).
Proof.
  intros Hl Hn Hsz Hin. unfold Read. rewrite (sm_bind _ _ _ (conn s) s) by done.
  rewrite wrap_small by (unfold in_u; lia). rewrite (proj2 (Z.ltb_ge _ _)) by lia.
  rewrite (proj2 (Nat.eqb_neq n 0)) by lia. rewrite Hin, length_app, (proj2 (Nat.ltb_ge _ _)) by lia. cbn [orb].
  rewrite take_app_length', drop_app_length', swrap_small by (done || unfold in_s; lia). done.
Qed.

Lemma send_msg_ok id val s :
  buffered (conn s) = [] -> Z.of_nat (length val) <= INT32_MAX ->
  SendMsg id val s = Done tt (set_conn (mkConn (inp (conn s)) (out (conn s) ++ le4 id ++ le4 (Z.of_nat (length val)) ++ val) []
    0 (recv_id (conn s)) (recv_sz (conn s))) s).
Proof.
  intros Hb Hlen. unfold SendMsg, SendMsgHdr, INT32_MAX in *. rewrite (proj2 (Z.ltb_ge _ _)) by lia.
  erewrite sm_bind by reflexivity. unfold Write. erewrite sm_bind by reflexivity. erewrite sm_bind by reflexivity. cbn.
  rewrite (swrap_small 32 (Z.of_nat (length val))) by (unfold in_s; lia). rewrite Z.sub_diag. change (s32 0) with 0. cbn.
  rewrite Hb. cbn. by rewrite <- app_assoc.
Qed.

(** ** Reading the client's memory *)

Section Memory.
(** The client's memory, and which pages it can read. *)
Context (m : memory) (ok : Z -> bool).

Definition page_rq (a : Z) : request := (a, PG_SIZE, ok a).
Definition asks (pages : list Z) : list Z := pages ≫= (fun a => request_msg (page_rq a)).
Definition answers (pages : list Z) : list Z := pages ≫= (fun a => reply_msg m (page_rq a)).

(** The pages the server keeps are those of the client. *)
Definition coherent (known : gmap Z (list Z)) : Prop :=
  forall a p, known !! a = Some p -> ok a = true /\ p = load_bytes m a page_bytes.

(** The server keeps everything but the connection and the pages. *)
Definition kept (s s' : Server) : Prop :=
  iwsc s' = iwsc s /\ iwcc s' = iwcc s /\ need_iwcc s' = need_iwcc s /\ cache s' = cache s /\ files s' = files s /\ dumps s' = dumps s.

(** [mm] computes [a] when the client answers the requests for [pages], which
    are sent; and nothing is left unread or unsent. *)
Definition talks {A} (mm : SM A) (a : A) (known known' : gmap Z (list Z)) (pages : list Z) : Prop :=
  forall s rest, quiet s -> page_cache s = known -> inp (conn s) = answers pages ++ rest ->
  exists s', mm s = Done a s' /\ quiet s' /\ page_cache s' = known' /\ inp (conn s') = rest /\
    out (conn s') = out (conn s) ++ asks pages /\ kept s s'.

Lemma kept_refl s : kept s s.
Proof. done. Qed.

Lemma kept_trans s1 s2 s3 : kept s1 s2 -> kept s2 s3 -> kept s1 s3.
Proof. intros (A1 & A2 & A3 & A4 & A5 & A6) (B1 & B2 & B3 & B4 & B5 & B6). repeat split; congruence. Qed.

Lemma asks_app p1 p2 : asks (p1 ++ p2) = asks p1 ++ asks p2.
Proof. apply bind_app. Qed.
Lemma answers_app p1 p2 : answers (p1 ++ p2) = answers p1 ++ answers p2.
Proof. apply bind_app. Qed.

Lemma talks_ret {A} (a : A) known : talks (mret a) a known known [].
Proof. intros s rest Hq Hp Hin. exists s. split_and!; try done. by rewrite app_nil_r. Qed.

Lemma talks_bind {A B} (mm : SM A) (f : A -> SM B) a b k1 k2 k3 p1 p2 :
  talks mm a k1 k2 p1 -> talks (f a) b k2 k3 p2 -> talks (mm ≫= f) b k1 k3 (p1 ++ p2).
Proof.
  intros H1 H2 s rest Hq Hp Hin. rewrite answers_app, <- app_assoc in Hin.
  destruct (H1 s _ Hq Hp Hin) as (s1 & E1 & Hq1 & Hp1 & Hin1 & Ho1 & Hk1).
  destruct (H2 s1 _ Hq1 Hp1 Hin1) as (s2 & E2 & Hq2 & Hp2 & Hin2 & Ho2 & Hk2).
  exists s2. rewrite (sm_bind _ _ _ _ _ E1). split_and!; try done; [|by eapply kept_trans].
  by rewrite Ho2, Ho1, asks_app, app_assoc.
Qed.

Lemma talks_get {A} (f : Server -> A) (known : gmap Z (list Z)) a :
  (forall s, page_cache s = known -> f s = a) -> talks (sget f) a known known [].
Proof.
  intros Hf s rest Hq Hp Hin. exists s. unfold sget. rewrite (Hf s Hp). split_and!; try done. by rewrite app_nil_r.
Qed.

(** The page, what is known then, and what was asked. *)
Definition page_val (a : Z) : option (list Z) := if ok a then Some (load_bytes m a page_bytes) else None.
Definition page_learn (known : gmap Z (list Z)) (a : Z) : gmap Z (list Z) :=
  match known !! a with Some _ => known | None => if ok a then <[a := load_bytes m a page_bytes]> known else known end.
Definition page_asked (known : gmap Z (list Z)) (a : Z) : list Z :=
  match known !! a with Some _ => [] | None => [a] end.

Lemma page_learn_coherent known a : coherent known -> coherent (page_learn known a).
Proof.
  intros Hc. unfold page_learn. destruct (known !! a); [done|]. destruct (ok a) eqn:Ha; [|done].
  intros b p Hb. destruct (decide (b = a)) as [->|Hne].
  - rewrite lookup_insert_eq in Hb. split; [done|]. congruence.
  - rewrite lookup_insert_ne in Hb by done. by apply Hc.
Qed.

(** The answer to one request, as the server sees it. *)
Lemma answer_one a : exists page flag, answers [a] = le4 MSGID_C_MEMBUF ++ le4 4097 ++ page ++ [flag] /\
  length page = page_bytes /\ (if ok a then page = load_bytes m a page_bytes /\ flag = 0 else flag = 1).
Proof.
  unfold answers, page_rq, reply_msg. cbn [mbind list_bind]. rewrite app_nil_r. change (clip PG_SIZE) with 4096.
  change (Z.to_nat 4096) with page_bytes. change (4096 + 1) with 4097. destruct (ok a).
  - exists (load_bytes m a page_bytes), 0. split; [done|]. split; [apply length_load_bytes|done].
  - exists (replicate page_bytes 0), 1. split; [done|]. split; [apply length_replicate|done].
Qed.

Lemma ask_one a : asks [a] = le4 MSGID_S_MEMREQ ++ le4 16 ++ le8 a ++ le8 PG_SIZE.
Proof. unfold asks, page_rq, request_msg. cbn [mbind list_bind]. by rewrite app_nil_r. Qed.

Lemma GetPage_talks known a :
  coherent known -> talks (GetPage a) (page_val a) known (page_learn known a) (page_asked known a).
Proof.
  intros Hc s rest Hq Hp Hin. unfold GetPage. rewrite (sm_bind _ _ _ (page_cache s) s) by done. rewrite Hp.
  unfold page_learn, page_asked in *. destruct (known !! a) as [p|] eqn:Hk.
  { exists s. destruct (Hc _ _ Hk) as [Ho ->]. unfold page_val. rewrite Ho. split_and!; try done. by rewrite app_nil_r. }
  destruct Hq as [Hq0 Hq1]. destruct (answer_one a) as (page & flag & Ea & Hl & Hflag). rewrite Ea, <- !app_assoc in Hin.
  erewrite sm_bind by (apply send_msg_ok; [done|]; rewrite length_app, !length_le8; done).
  erewrite sm_bind by (apply (recv_msg_ok MSGID_C_MEMBUF 4097 (page ++ [flag] ++ rest)); done).
  rewrite Z.eqb_refl. cbn [negb]. change (Z.to_nat PG_SIZE) with page_bytes. pose proof page_bytes_Z as HPZ.
  erewrite sm_bind by (apply (read_msg_ok page_bytes page ([flag] ++ rest)); [done|lia|cbn; lia|done]).
  erewrite sm_bind by (apply (read_msg_ok 1 [flag] rest); [done|lia|cbn; lia|done]).
  rewrite length_app, !length_le8. change (Z.of_nat (8 + 8)) with 16. unfold page_val. rewrite ask_one.
  destruct (ok a); [destruct Hflag as [-> ->]|subst flag].
  - change (le_Z [0] =? 0) with true. cbn [negb]. erewrite sm_bind by reflexivity. eexists. split; [reflexivity|].
    cbn. rewrite Hp. split; [split; cbn; [lia|done]|]. unfold kept. split_and!; reflexivity.
  - change (le_Z [1] =? 0) with false. cbn [negb]. eexists. split; [reflexivity|]. cbn. rewrite Hp. split; [split; cbn; [lia|done]|]. unfold kept. split_and!; reflexivity.
Qed.

(** Pages in a row that can be read. *)
Fixpoint ok_run (n : nat) (cur : Z) : Z :=
  match n with
  | O => 0
  | S n' => if ok cur then 1 + ok_run n' (cur + PG_SIZE) else 0
  end.

Lemma ok_run_range n cur : 0 <= ok_run n cur <= Z.of_nat n.
Proof. revert cur. induction n as [|n IH]; intros cur; cbn [ok_run]; [lia|]. specialize (IH (cur + PG_SIZE)). destruct (ok cur); lia. Qed.

(** How many bytes of a range can be read. *)
Definition pages_between (start end_ : Z) : nat := Z.to_nat (end_ / 4096 - start / 4096 + 1).
Definition count (start end_ : Z) : nat :=
  Z.to_nat (Z.min end_ (4096 * (start / 4096 + ok_run (pages_between start end_) (4096 * (start / 4096)))) - start).

(** What the loop has learned and asked after the pages from [cur] on. *)
Fixpoint get_learn (n : nat) (known : gmap Z (list Z)) (cur : Z) : gmap Z (list Z) :=
  match n with
  | O => known
  | S n' => if ok cur then get_learn n' (page_learn known cur) (cur + PG_SIZE) else page_learn known cur
  end.
Fixpoint get_asked (n : nat) (known : gmap Z (list Z)) (cur : Z) : list Z :=
  match n with
  | O => []
  | S n' => page_asked known cur ++ if ok cur then get_asked n' (page_learn known cur) (cur + PG_SIZE) else []
  end.

Lemma get_learn_coherent n known cur : coherent known -> coherent (get_learn n known cur).
Proof.
  revert known cur. induction n as [|n IH]; intros known cur Hc; cbn [get_learn]; [done|].
  destruct (ok cur); [apply IH|]; by apply page_learn_coherent.
Qed.

(** One page of the range. *)
Lemma page_slice start end_ c :
  0 <= start <= end_ -> start / 4096 <= c <= end_ / 4096 -> end_ < 2 ^ 64 - 4096 ->
  let cur := 4096 * c in
  let start_off := if cur <? start then Z.land start (PG_SIZE - 1) else 0 in
  let end_off := if end_ <? u64 (cur + PG_SIZE) then Z.land end_ (PG_SIZE - 1) else PG_SIZE in
  (end_off <? start_off) = false /\
  load_bytes m start (Z.to_nat (cur - start)) ++
    take (Z.to_nat (end_off - start_off)) (drop (Z.to_nat start_off) (load_bytes m cur page_bytes)) =
  load_bytes m start (Z.to_nat (Z.min end_ (cur + 4096) - start)).
Proof.
  intros Hr Hc He cur start_off end_off. pose proof page_bytes_Z as HPZ.
  assert (start_off = Z.max 0 (start - cur)) as Es.
  { unfold start_off. rewrite land_pg. destruct (Z.ltb_spec cur start); unfold cur in *; zdm. }
  assert (end_off = Z.min 4096 (end_ - cur)) as Ee.
  { unfold end_off. rewrite land_pg, wrap_small by (unfold in_u, PG_SIZE, cur; zdm). unfold PG_SIZE.
    destruct (Z.ltb_spec end_ (cur + 4096)); unfold cur in *; zdm. }
  assert (start < cur + 4096) as Hlt by (unfold cur; zdm). assert (cur <= end_) as Hle by (unfold cur; zdm).
  clearbody start_off end_off cur. subst. split; [lia|]. rewrite load_bytes_sub by lia.
  destruct (Z.leb_spec start cur) as [Hsc|Hsc].
  - rewrite load_bytes_join by lia. f_equal. lia.
  - replace (Z.to_nat (cur - start)) with O by lia. cbn [load_bytes app]. f_equal; lia.
Qed.

Lemma Get_loop_talks start end_ n c known :
  0 <= start <= end_ -> end_ < 2 ^ 64 - 4096 -> start / 4096 <= c -> c + Z.of_nat n = end_ / 4096 + 1 -> coherent known ->
  talks (Get_loop n (4096 * c) (4096 * (end_ / 4096)) start end_ (load_bytes m start (Z.to_nat (Z.min end_ (4096 * c) - start))))
    (load_bytes m start (Z.to_nat (Z.min end_ (4096 * (c + ok_run n (4096 * c))) - start)))
    known (get_learn n known (4096 * c)) (get_asked n known (4096 * c)).
Proof.
  intros Hr He. revert c known. induction n as [|n IH]; intros c known Hc Hn Hk; cbn [Get_loop].
  - rewrite (proj2 (Z.leb_gt _ _)) by lia. cbn [negb ok_run]. rewrite Z.add_0_r. apply talks_ret.
  - rewrite (proj2 (Z.leb_le _ _)) by lia. cbn [negb get_asked].
    eapply talks_bind; [by apply GetPage_talks|]. unfold page_val. cbn [ok_run get_learn].
    assert (Z.min end_ (4096 * c) = 4096 * c) as Hmin by zdm.
    destruct (ok (4096 * c)); [|rewrite Z.add_0_r; apply talks_ret].
    destruct (page_slice start end_ c Hr) as [-> Hsl]; [lia|done|]. rewrite Hmin, Hsl.
    rewrite (wrap_small 64) by (unfold in_u, PG_SIZE; zdm). unfold PG_SIZE. replace (4096 * c + 4096) with (4096 * (c + 1)) by lia.
    specialize (IH (c + 1) (page_learn known (4096 * c))).
    replace (c + (1 + ok_run n (4096 * (c + 1)))) with (c + 1 + ok_run n (4096 * (c + 1))) by lia.
    apply IH; [lia|lia|by apply page_learn_coherent].
Qed.

(** Reading a range through the connection. *)
Lemma Get_talks start end_ known :
  0 <= start <= end_ -> end_ < 2 ^ 64 - 4096 -> coherent known ->
  talks (Get start end_) (load_bytes m start (count start end_)) known
    (get_learn (pages_between start end_) known (4096 * (start / 4096)))
    (get_asked (pages_between start end_) known (4096 * (start / 4096))).
Proof.
  intros Hr He Hk. unfold Get. rewrite !page_of_div by (unfold in_u; lia).
  replace ((4096 * (end_ / 4096) - 4096 * (start / 4096)) / PG_SIZE + 1) with (end_ / 4096 - start / 4096 + 1)
    by (unfold PG_SIZE; zdm). fold (pages_between start end_).
  pose proof (Get_loop_talks start end_ (pages_between start end_) (start / 4096) known Hr He) as H.
  replace (Z.to_nat (Z.min end_ (4096 * (start / 4096)) - start)) with O in H by zdm. apply H; [lia| |done].
  unfold pages_between. zdm.
Qed.

(** [count] is the length of the longest prefix in readable pages. *)
Lemma ok_run_spec n c :
  (forall j, 0 <= j < ok_run n (4096 * c) -> ok (4096 * (c + j)) = true) /\
  (ok_run n (4096 * c) < Z.of_nat n -> ok (4096 * (c + ok_run n (4096 * c))) = false).
Proof.
  revert c. induction n as [|n IH]; intros c; cbn [ok_run]; [split; lia|]. unfold PG_SIZE. replace (4096 * c + 4096) with (4096 * (c + 1)) by lia.
  destruct (IH (c + 1)) as [H1 H2]. destruct (ok (4096 * c)) eqn:E.
  - split.
    + intros j Hj. destruct (Z.eqb_spec j 0) as [->|Hne]; [by rewrite Z.add_0_r|]. replace (c + j) with (c + 1 + (j - 1)) by lia. apply H1. lia.
    + intros Hlt. rewrite Z.add_assoc. apply H2. lia.
  - split; [lia|]. intros _. by rewrite Z.add_0_r.
Qed.

Lemma count_spec start end_ :
  0 <= start <= end_ ->
  Z.of_nat (count start end_) <= end_ - start /\
  (forall x, start <= x < start + Z.of_nat (count start end_) -> ok (4096 * (x / 4096)) = true) /\
  (Z.of_nat (count start end_) < end_ - start -> ok (4096 * ((start + Z.of_nat (count start end_)) / 4096)) = false).
Proof.
  intros Hr. unfold count. set (n := pages_between start end_). set (c := start / 4096).
  assert (Z.of_nat n = end_ / 4096 - c + 1) as Hn by (unfold n, pages_between, c; zdm).
  pose proof (ok_run_range n (4096 * c)) as Hk. destruct (ok_run_spec n c) as [H1 H2]. set (k := ok_run n (4096 * c)) in *.
  assert (4096 * c <= start < 4096 * c + 4096) as Hc by (unfold c; zdm). split_and!; [lia| |].
  - intros x Hx. replace (x / 4096) with (c + (x / 4096 - c)) by lia. apply H1. zdm.
  - intros Hlt. destruct (Z.eqb_spec k 0) as [E0|Hne].
    + rewrite E0 in *. replace (Z.to_nat _) with O by lia. rewrite Z.add_0_r in *. apply H2. zdm.
    + replace ((start + _) / 4096) with (c + k) by zdm. apply H2. zdm.
Qed.

(** The pages that a range needs from the client: those from the page of
    [start] to the page of [end_], no further than the first that cannot be
    read, less the ones that the server holds. *)
Definition range_pages (start end_ : Z) : list Z :=
  (fun c => 4096 * c) <$> seqZ (start / 4096) (end_ / 4096 - start / 4096 + 1).
Fixpoint until_fault (pages : list Z) : list Z :=
  match pages with
  | [] => []
  | a :: pages' => a :: if ok a then until_fault pages' else []
  end.
Definition needed (known : gmap Z (list Z)) (start end_ : Z) : list Z :=
  filter (fun a => known !! a = None) (until_fault (range_pages start end_)).

(** The pages asked for are decided before the loop starts: what it learns
    concerns only pages behind it. *)
Lemma get_asked_filter n (known now : gmap Z (list Z)) c :
  (forall a, 4096 * c <= a -> now !! a = known !! a) ->
  get_asked n now (4096 * c) =
  filter (fun a => known !! a = None) (until_fault ((fun c => 4096 * c) <$> seqZ c (Z.of_nat n))).
Proof.
  revert now c. induction n as [|n IH]; intros now c Hn; [done|].
  rewrite seqZ_cons by lia. replace (Z.pred (Z.of_nat (S n))) with (Z.of_nat n) by lia.
  cbn [get_asked fmap list_fmap until_fault]. rewrite filter_cons. unfold page_asked. rewrite (Hn (4096 * c)) by lia.
  unfold PG_SIZE. replace (4096 * c + 4096) with (4096 * Z.succ c) by lia.
  assert (forall a, 4096 * Z.succ c <= a -> page_learn now (4096 * c) !! a = known !! a) as Hl.
  { intros a Ha. rewrite <- Hn by lia. unfold page_learn. destruct (now !! (4096 * c)); [done|]. destruct (ok _); [|done].
    by rewrite lookup_insert_ne by lia. }
  specialize (IH _ _ Hl). destruct (known !! (4096 * c)) as [p|] eqn:E.
  - rewrite decide_False by done. by destruct (ok (4096 * c)).
  - rewrite decide_True by done. by destruct (ok (4096 * c)); [rewrite IH|].
Qed.

Lemma get_asked_needed start end_ known :
  start <= end_ -> get_asked (pages_between start end_) known (4096 * (start / 4096)) = needed known start end_.
Proof.
  intros Hr. rewrite (get_asked_filter _ known) by done. unfold needed, range_pages, pages_between. do 4 f_equal. zdm.
Qed.

(** C15. Reading the client's memory through the connection: when the client
    answers the requests for the pages that the range needs ([needed], fixed by
    the range, by which pages can be read and by those the server holds
    already), [Get] returns exactly the bytes of the client's memory from
    [start], up to [end_] or the first page that cannot be read; it has then
    sent one request for each of these pages, in order and for no others, and
    read all of the answers, with nothing left in its buffer; and the pages it
    keeps are those of the client's memory. *)
Theorem remote_memory_correct start end_ s rest :
  0 <= start <= end_ -> end_ < 2 ^ 64 - 4096 -> quiet s -> coherent (page_cache s) ->
  inp (conn s) = answers (needed (page_cache s) start end_) ++ rest ->
  exists n s',
    0 <= n <= end_ - start /\ (forall x, start <= x < start + n -> ok (4096 * (x / 4096)) = true) /\
    (n < end_ - start -> ok (4096 * ((start + n) / 4096)) = false) /\
    Get start end_ s = Done (load_bytes m start (Z.to_nat n)) s' /\ inp (conn s') = rest /\
    out (conn s') = out (conn s) ++ asks (needed (page_cache s) start end_) /\ quiet s' /\ coherent (page_cache s').
Proof.
  intros Hr He Hq Hc Hin. destruct (count_spec start end_ Hr) as (H1 & H2 & H3). pose proof (Get_talks start end_ _ Hr He Hc) as T.
  rewrite get_asked_needed in T by lia. destruct (T s rest Hq eq_refl Hin) as (s' & E & Hq' & Hp' & Hin' & Ho & _).
  exists (Z.of_nat (count start end_)), s'. rewrite Nat2Z.id. split_and!; try done; [lia|].
  rewrite Hp'. by apply get_learn_coherent.
Qed.
End Memory.

(** A page that is there and one that is not: the client's answers to the two
    requests, and a server that has just started. *)
Definition client_bytes : memory := store_bytes ∅ 0x1ff8 [1; 2; 3; 4; 5; 6; 7; 8].
Definition client_page (a : Z) : bool := a =? 0x1000.
Definition server_idle : Server :=
  mkServer (mkConn [] [] [] 0 0 0) (mkTsc 0 0 0 0 0) (mkTc 0 0 0 0 0) false ∅ (mkCache false false "") fs_empty [].
Definition server_answered : Server :=
  mkServer (mkConn (answers client_bytes client_page [0x1000; 0x2000]) [] [] 0 0 0) (mkTsc 0 0 0 0 0) (mkTc 0 0 0 0 0) false ∅
    (mkCache false false "") fs_empty [].

Lemma remote_memory_correct_witness :
  exists s', Get 0x1ff8 (0x1ff8 + 15) server_answered = Done [1; 2; 3; 4; 5; 6; 7; 8] s' /\ inp (conn s') = [] /\
    out (conn s') = asks client_page [0x1000; 0x2000].
Proof.
  destruct (remote_memory_correct client_bytes client_page 0x1ff8 (0x1ff8 + 15) server_answered [])
    as (n & s' & H1 & H2 & H3 & E & Hin & Ho & _); [lia | lia | done | | |].
  - intros a p Hp. unfold server_answered in Hp. cbn in Hp. by rewrite lookup_empty in Hp.
  - vm_compute. reflexivity.
  - assert (n = 8) as ->.
    { destruct (Z.ltb_spec n 8) as [Hlt|Hge].
      - specialize (H3 ltac:(lia)). unfold client_page in H3. apply Z.eqb_neq in H3. zdm.
      - destruct (Z.eqb_spec n 8) as [|Hne]; [done|]. specialize (H2 0x2000 ltac:(lia)). vm_compute in H2. discriminate H2. }
    exists s'. split; [exact E|]. split; [exact Hin|exact Ho].
Defined.

(** ** The command line of the client *)

Lemma config_digits_encode fuel raw : 0 <= raw -> config_digits fuel raw = encode_fds fuel raw.
Proof.
  revert raw. induction fuel as [|fuel IH]; intros raw Hr; cbn [config_digits encode_fds]; [done|].
  destruct (raw =? 0); [done|]. change 7 with (Z.ones 3). rewrite Z.land_ones, Z.shiftr_div_pow2 by lia. f_equal. apply IH. zdm.
Qed.

(** The descriptors survive the command line: the client recovers from the
    digits that the server puts there the two descriptors of its pipes. *)
Theorem client_config_roundtrip pipe0 pipe3 :
  0 <= pipe0 < 2 ^ 31 -> 0 <= pipe3 < 2 ^ 31 ->
  let raw := fds_raw (client_config pipe0 pipe3) 0 0 in
  s32 (Z.land raw 0xffffffff) = pipe0 /\ s32 (Z.shiftr raw 32) = pipe3.
Proof.
  intros H0 H3 raw. unfold raw, client_config. rewrite (wrap_small 64 pipe0), (wrap_small 64 pipe3) by (unfold in_u; lia).
  rewrite (wrap_small 64) by (unfold in_u; rewrite Z.shiftl_mul_pow2 by lia; lia).
  rewrite lor_shiftl_add, config_digits_encode by lia. by apply fds_roundtrip.
Qed.

Lemma client_config_roundtrip_witness :
  let raw := fds_raw (client_config 5 8) 0 0 in s32 (Z.land raw 0xffffffff) = 5 /\ s32 (Z.shiftr raw 32) = 8.
Proof. apply (client_config_roundtrip 5 8); lia. Defined.
