(* ===== verification/Fadec.v ===== *)
(** * The x86 decoder, [subprojects/fadec/decode.c]

    [fd_decode] reads prefixes, walks tables that the build generates from the
    list of instructions, and fills in the operands as the description of the
    instruction says.  The tables and the numbers of the mnemonics are
    parameters.  Of the buffer only the first 15 bytes count; a read outside of
    them has an outcome of its own, which the theorems exclude.  What an error
    leaves in the instruction record is undefined, and not modelled. *)

From Stdlib Require Import ZArith Lia String.
From stdpp Require Import base numbers list strings.
From S2P Require Import Prelude.

(** ** Data *)

Record InstrDesc := mkDesc { d_type : Z; operand_indices : Z; operand_sizes : Z; reg_types : Z }.

(** [_decode_table], [descs], the roots for the two modes, and the value of
    [FDI_x] for a mnemonic [x]. *)
Record FdTables := mkTables {
  decode_table : Z -> Z; descs : Z -> InstrDesc; FD_TABLE_OFFSET_32 : option Z; FD_TABLE_OFFSET_64 : option Z; FDI : string -> Z }.

Record FdOp := mkOp { o_type : Z; o_size : Z; o_reg : Z; o_misc : Z }.

Record FdInstr := mkInstr {
  f_type : Z; f_flags : Z; f_segment : Z; f_addrsz : Z; f_operandsz : Z; f_size : Z; f_operands : list FdOp;
  f_disp : Z; f_imm : Z; f_address : Z }.

Definition FD_REG_IP : Z := 0x10.
Definition FD_REG_NONE : Z := 0x3f.
Definition FD_FLAG_LOCK : Z := 1.
Definition FD_FLAG_REP : Z := 2.
Definition FD_FLAG_REPNZ : Z := 4.
Definition FD_FLAG_64 : Z := 128.
Definition FD_OT_NONE : Z := 0.
Definition FD_OT_REG : Z := 1.
Definition FD_OT_IMM : Z := 2.
Definition FD_OT_MEM : Z := 3.
Definition FD_OT_OFF : Z := 4.
Definition FD_RT_GPL : Z := 1.
Definition FD_RT_GPH : Z := 2.
Definition FD_RT_VEC : Z := 6.
Definition FD_RT_CR : Z := 9.
Definition FD_RT_DR : Z := 10.
Definition FD_ERR_UD : Z := -1.
Definition FD_ERR_INTERNAL : Z := -2.
Definition FD_ERR_PARTIAL : Z := -3.

Inductive DecodeMode := DECODE_64 | DECODE_32.
Definition is_64 (mode : DecodeMode) : bool := match mode with DECODE_64 => true | DECODE_32 => false end.

Definition ENTRY_INSTR : Z := 1.
Definition ENTRY_TABLE256 : Z := 2.
Definition ENTRY_TABLE16 : Z := 3.
Definition ENTRY_TABLE8E : Z := 4.
Definition ENTRY_TABLE_PREFIX : Z := 5.
Definition ENTRY_TABLE_VEX : Z := 6.
Definition ENTRY_TABLE_ROOT : Z := 8.
Definition ENTRY_MASK : Z := 7.

Definition PREFIX_REXB : Z := 0x01.
Definition PREFIX_REXX : Z := 0x02.
Definition PREFIX_REXR : Z := 0x04.
Definition PREFIX_REXW : Z := 0x08.
Definition PREFIX_REX : Z := 0x40.
Definition PREFIX_VEXL : Z := 0x10.

(** Whether any bit of a mask is set. *)
Definition has (x mask : Z) : bool := negb (Z.land x mask =? 0).

Definition DESC_HAS_MODRM (d : InstrDesc) : bool := has (operand_indices d) (Z.shiftl 3 0).
Definition DESC_MODRM_IDX (d : InstrDesc) : Z := Z.lxor (Z.land (Z.shiftr (operand_indices d) 0) 3) 3.
Definition DESC_HAS_MODREG (d : InstrDesc) : bool := has (operand_indices d) (Z.shiftl 3 2).
Definition DESC_MODREG_IDX (d : InstrDesc) : Z := Z.lxor (Z.land (Z.shiftr (operand_indices d) 2) 3) 3.
Definition DESC_HAS_VEXREG (d : InstrDesc) : bool := has (operand_indices d) (Z.shiftl 3 4).
Definition DESC_VEXREG_IDX (d : InstrDesc) : Z := Z.lxor (Z.land (Z.shiftr (operand_indices d) 4) 3) 3.
Definition DESC_IMM_CONTROL (d : InstrDesc) : Z := Z.land (Z.shiftr (operand_indices d) 12) 0x7.
Definition DESC_IMM_IDX (d : InstrDesc) : Z := Z.lxor (Z.land (Z.shiftr (operand_indices d) 6) 3) 3.
Definition DESC_ZEROREG_VAL (d : InstrDesc) : Z := Z.land (Z.shiftr (operand_indices d) 10) 1.
Definition DESC_LOCK (d : InstrDesc) : bool := has (Z.shiftr (operand_indices d) 11) 1.
Definition DESC_VSIB (d : InstrDesc) : bool := has (Z.shiftr (operand_indices d) 15) 1.
Definition DESC_OPSIZE (d : InstrDesc) : Z := Z.land (Z.shiftr (reg_types d) 11) 7.
Definition DESC_SIZE_FIX1 (d : InstrDesc) : Z := Z.land (Z.shiftr (operand_sizes d) 10) 7.
Definition DESC_SIZE_FIX2 (d : InstrDesc) : Z := Z.land (Z.shiftr (operand_sizes d) 13) 3.
Definition DESC_INSTR_WIDTH (d : InstrDesc) : bool := has (Z.shiftr (operand_sizes d) 15) 1.
Definition DESC_MODRM (d : InstrDesc) : bool := has (Z.shiftr (reg_types d) 14) 1.
Definition DESC_IGN66 (d : InstrDesc) : bool := has (Z.shiftr (reg_types d) 15) 1.
Definition DESC_REGTY_MODRM (d : InstrDesc) : Z := Z.land (Z.shiftr (reg_types d) 0) 7.
Definition DESC_REGTY_MODREG (d : InstrDesc) : Z := Z.land (Z.shiftr (reg_types d) 3) 7.
Definition DESC_REGTY_VEXREG (d : InstrDesc) : Z := Z.land (Z.shiftr (reg_types d) 6) 3.

(** ** Outcomes *)

(** A value, a return with an error code, or a read outside the buffer. *)
Inductive Rd (A : Type) := RVal (a : A) | RErr (code : Z) | ROob.
Arguments RVal {A}.
Arguments RErr {A}.
Arguments ROob {A}.

#[global] Instance Rd_ret : MRet Rd := fun A a => RVal a.
#[global] Instance Rd_bind : MBind Rd := fun A B f r =>
  match r with RVal a => f a | RErr c => RErr c | ROob => ROob end.

(** [buffer[off]] *)
Definition byte_at (b : list Z) (off : Z) : Rd Z :=
  match b !! Z.to_nat off with
  | Some x => if 0 <=? off then RVal x else ROob
  | None => ROob
  end.

(** [if (off + n > len) return FD_ERR_PARTIAL;] *)
Definition need (b : list Z) (off n : Z) : Rd unit := if Z.of_nat (length b) <? off + n then RErr FD_ERR_PARTIAL else RVal tt.

(** [LOAD_LE_n]: the bytes from [off], lowest first. *)
Fixpoint load_le (n : nat) (b : list Z) (off : Z) : Rd Z :=
  match n with
  | O => mret 0
  | S n' => x ← byte_at b off; y ← load_le n' b (off + 1); mret (Z.lor x (Z.shiftl y 8))
  end.

(** ** Prefixes *)

Record Prefixes := mkPfx {
  segment : Z; prefix_66 : bool; addr_size : Z; prefix_lock : bool; prefix_rep : Z; prefix_rex : Z; rex_off : Z }.

Definition set_segment (s : Z) (p : Prefixes) := mkPfx s (prefix_66 p) (addr_size p) (prefix_lock p) (prefix_rep p) (prefix_rex p) (rex_off p).
Definition set_66 (p : Prefixes) := mkPfx (segment p) true (addr_size p) (prefix_lock p) (prefix_rep p) (prefix_rex p) (rex_off p).
Definition set_addr_size (a : Z) (p : Prefixes) := mkPfx (segment p) (prefix_66 p) a (prefix_lock p) (prefix_rep p) (prefix_rex p) (rex_off p).
Definition set_lock (p : Prefixes) := mkPfx (segment p) (prefix_66 p) (addr_size p) true (prefix_rep p) (prefix_rex p) (rex_off p).
Definition set_rep (r : Z) (p : Prefixes) := mkPfx (segment p) (prefix_66 p) (addr_size p) (prefix_lock p) r (prefix_rex p) (rex_off p).
Definition set_rex (r off : Z) (p : Prefixes) := mkPfx (segment p) (prefix_66 p) (addr_size p) (prefix_lock p) (prefix_rep p) r off.

(** One prefix; [None] for any other byte. *)
Definition prefix_32 (c off : Z) (p : Prefixes) : option Prefixes :=
  match c with
  | 0x26 => Some (set_segment 0 p)
  | 0x2e => Some (set_segment 1 p)
  | 0x36 => Some (set_segment 2 p)
  | 0x3e => Some (set_segment 3 p)
  | 0x64 => Some (set_segment 4 p)
  | 0x65 => Some (set_segment 5 p)
  | 0x66 => Some (set_66 p)
  | 0x67 => Some (set_addr_size 1 p)
  | 0xf0 => Some (set_lock p)
  | 0xf3 => Some (set_rep 2 p)
  | 0xf2 => Some (set_rep 3 p)
  | _ => None
  end.

Definition prefix_64 (c off : Z) (p : Prefixes) : option Prefixes :=
  match c with
  | 0x26 | 0x2e | 0x36 | 0x3e => Some p
  | 0x64 => Some (set_segment 4 p)
  | 0x65 => Some (set_segment 5 p)
  | 0x66 => Some (set_66 p)
  | 0x67 => Some (set_addr_size 2 p)
  | 0xf0 => Some (set_lock p)
  | 0xf3 => Some (set_rep 2 p)
  | 0xf2 => Some (set_rep 3 p)
  | 0x40 | 0x41 | 0x42 | 0x43 | 0x44 | 0x45 | 0x46 | 0x47 | 0x48 | 0x49 | 0x4a | 0x4b | 0x4c | 0x4d | 0x4e | 0x4f =>
      Some (set_rex c off p)
  | _ => None
  end.

(** The loop, over the bytes from [off] on. *)
Fixpoint prefix_loop (mode : DecodeMode) (bs : list Z) (off : Z) (p : Prefixes) : Prefixes * Z :=
  match bs with
  | [] => (p, off)
  | c :: bs' =>
      match (if is_64 mode then prefix_64 c off p else prefix_32 c off p) with
      | Some p' => prefix_loop mode bs' (off + 1) p'
      | None => (p, off)
      end
  end.

(** ** Opcode escapes and VEX *)

(** [opcode_escape], the offset behind it, and what VEX changes of the prefixes. *)
Record Escape := mkEsc { e_escape : Z; e_off : Z; e_rex : Z; e_rep : Z; e_66 : bool; vex_operand : Z }.

Definition bit_if (c : bool) (v : Z) : Z := if c then v else 0.

(** A VEX prefix at [off], with its second byte. *)
Definition vex_prefix (mode : DecodeMode) (b : list Z) (off c byte : Z) : Rd Escape :=
  let rex := bit_if (negb (has byte 0x80)) PREFIX_REXR in
  '(escape, rex, byte) ←
    (if c =? 0xc4 then
       let rex := Z.lor rex (bit_if (negb (has byte 0x40)) PREFIX_REXX) in
       let rex := Z.lor rex (bit_if (negb (negb (is_64 mode) || has byte 0x20)) PREFIX_REXB) in
       if has byte 0x1c then RErr FD_ERR_UD
       else
         let escape := Z.lor (Z.land byte 0x03) 4 in
         need b (off + 2) 1;;
         byte ← byte_at b (off + 2);
         mret (escape, Z.lor rex (bit_if (has byte 0x80) PREFIX_REXW), byte)
     else mret (5, rex, byte));
  mret (mkEsc escape (off + (if c =? 0xc4 then 3 else 2)) (Z.lor rex (bit_if (has byte 0x04) PREFIX_VEXL))
          (if has byte 2 then Z.land byte 3 else 0) (Z.land byte 3 =? 1) (Z.lxor (Z.shiftr (Z.land byte 0x78) 3) 0xf)).

Definition opcode_escape (mode : DecodeMode) (b : list Z) (p : Prefixes) (off : Z) : Rd Escape :=
  let plain escape off := mkEsc escape off (prefix_rex p) (prefix_rep p) (prefix_66 p) 0 in
  c ← byte_at b off;
  if c =? 0x0f then
    need b (off + 1) 1;;
    c1 ← byte_at b (off + 1);
    let escape := if c1 =? 0x38 then 2 else if c1 =? 0x3a then 3 else 1 in
    mret (plain escape (off + (if 2 <=? escape then 2 else 1)))
  else if Z.land c 0xfe =? 0xc4 then
    need b (off + 1) 1;;
    byte ← byte_at b (off + 1);
    if negb (is_64 mode) && negb (Z.land byte 0xc0 =? 0xc0) then mret (plain 0 off)
    else if prefix_66 p || negb (prefix_rep p =? 0) || negb (prefix_rex p =? 0) then RErr FD_ERR_UD
    else vex_prefix mode b off c byte
  else mret (plain 0 off).

(** ** The tables *)

Section Tables.
Context (T : FdTables).

(** The index and the kind of an entry. *)
Definition table_walk (cur_idx entry_idx : Z) : Z * Z :=
  let entry := decode_table T (cur_idx + entry_idx) in
  (Z.shiftr (Z.land entry (Z.lnot ENTRY_MASK)) 1, Z.land entry ENTRY_MASK).

(** The description of the opcode and the offset behind the opcode. *)
Definition find_desc (b : list Z) (root : Z) (e : Escape) : Rd (InstrDesc * Z) :=
  let len := Z.of_nat (length b) in
  let '(table_idx, kind) := table_walk root (e_escape e) in
  let off := e_off e in
  '(table_idx, kind, off) ←
    (if (kind =? ENTRY_TABLE256) && (off <? len) then
       c ← byte_at b off; mret (table_walk table_idx c, off + 1)
     else mret (table_idx, kind, off));
  let '(table_idx, kind) :=
    if kind =? ENTRY_TABLE_PREFIX
    then table_walk table_idx (if negb (e_rep e =? 0) then e_rep e else Z.b2z (e_66 e))
    else (table_idx, kind) in
  '(table_idx, kind) ←
    (if (kind =? ENTRY_TABLE16) && (off <? len) then
       c ← byte_at b off;
       let isreg := if Z.land c 0xc0 =? 0xc0 then 8 else 0 in
       let '(table_idx, kind) := table_walk table_idx (Z.lor (Z.land (Z.shiftr c 3) 7) isreg) in
       mret (if kind =? ENTRY_TABLE8E then table_walk table_idx (Z.land c 7) else (table_idx, kind))
     else mret (table_idx, kind));
  let '(table_idx, kind) :=
    if kind =? ENTRY_TABLE_VEX
    then table_walk table_idx (Z.lor (bit_if (has (e_rex e) PREFIX_REXW) 1) (bit_if (has (e_rex e) PREFIX_VEXL) 2))
    else (table_idx, kind) in
  if negb (kind =? ENTRY_INSTR) then RErr (if kind =? 0 then FD_ERR_UD else FD_ERR_PARTIAL)
  else mret (descs T (Z.shiftr table_idx 2), off).

(** ** Operands *)

(** [op_size] and [op_size_alt]. *)
Definition op_sizes (mode : DecodeMode) (e : Escape) (d : InstrDesc) : Z * Z :=
  if negb (has (DESC_OPSIZE d) 4) then
    (if DESC_OPSIZE d =? 1 then 1
     else if is_64 mode then
       if has (e_rex e) PREFIX_REXW || (DESC_OPSIZE d =? 3) then 4
       else if e_66 e && negb (DESC_IGN66 d) then 2
       else if negb (DESC_OPSIZE d =? 0) then 4 else 3
     else if e_66 e && negb (DESC_IGN66 d) then 2 else 3, 0)
  else
    let op_size := 5 + Z.b2z (has (e_rex e) PREFIX_VEXL) in
    (op_size, op_size - Z.land (DESC_OPSIZE d) 3).

(** [operand_sizes[i]] *)
Definition sized (d : InstrDesc) (sizes : Z * Z) (i : Z) : Z :=
  match i with
  | 0 => DESC_SIZE_FIX1 d
  | 1 => DESC_SIZE_FIX2 d + 1
  | 2 => sizes.1
  | _ => sizes.2
  end.

Definition set_op (i : Z) (op : FdOp) (ops : list FdOp) : list FdOp := <[Z.to_nat i := op]> ops.

(** Moves to and from control and debug registers. *)
Definition mov_special (e : Escape) (d : InstrDesc) (op_byte op_size : Z) (ops : list FdOp) : Rd (list FdOp) :=
  let cr := d_type d =? FDI T "MOV_CR" in
  let modreg := Z.land (Z.shiftr op_byte 3) 0x7 in
  let modrm := Z.land op_byte 0x7 in
  let reg := Z.lor modreg (bit_if (has (e_rex e) PREFIX_REXR) 8) in
  let ops := set_op (DESC_MODREG_IDX d) (mkOp FD_OT_REG op_size reg (if cr then FD_RT_CR else FD_RT_DR)) ops in
  if cr && has (Z.shiftr (Z.lnot 0x011d) reg) 1 then RErr FD_ERR_UD
  else if (d_type d =? FDI T "MOV_DR") && has (e_rex e) PREFIX_REXR then RErr FD_ERR_UD
  else mret (set_op (DESC_MODRM_IDX d) (mkOp FD_OT_REG op_size (Z.lor modrm (bit_if (has (e_rex e) PREFIX_REXB) 8)) FD_RT_GPL) ops).

(** The register of the field [reg]. *)
Definition modreg_op (e : Escape) (d : InstrDesc) (op_byte : Z) (sizes : Z * Z) : FdOp :=
  let reg_idx := Z.shiftr (Z.land op_byte 0x38) 3 in
  let reg_ty := DESC_REGTY_MODREG d in
  mkOp FD_OT_REG (sized d sizes (Z.land (Z.shiftr (operand_sizes d) 2) 3))
    (reg_idx + (if negb (has reg_ty 4) then bit_if (has (e_rex e) PREFIX_REXR) 8 else 0))
    (Z.land (Z.shiftr 0x1d1f1 (3 * reg_ty)) 0x7).

(** The register of the field [rm]. *)
Definition modrm_reg (e : Escape) (d : InstrDesc) (op_byte size : Z) : FdOp :=
  let reg_ty := DESC_REGTY_MODRM d in
  mkOp FD_OT_REG size (Z.land op_byte 7 + (if negb (has reg_ty 4) then bit_if (has (e_rex e) PREFIX_REXB) 8 else 0))
    (Z.land (Z.shiftr 0x1e5031 (3 * reg_ty)) 0x7).

(** The memory operand of the field [rm]: the operand, the displacement and the
    offset behind it. *)
Definition modrm_mem (mode : DecodeMode) (b : list Z) (e : Escape) (d : InstrDesc) (op_byte size off : Z) : Rd (FdOp * Z * Z) :=
  let mod_ := Z.land op_byte 0xc0 in
  let rm := Z.land op_byte 0x07 in
  let vsib := DESC_VSIB d in
  '(base, misc, off) ←
    (if rm =? 4 then
       need b off 1;;
       sib ← byte_at b off;
       let idx := Z.shiftr (Z.land sib 0x38) 3 + bit_if (has (e_rex e) PREFIX_REXX) 8 in
       let idx := if negb vsib && (idx =? 4) then FD_REG_NONE else idx in
       mret (Z.land sib 0x07, Z.lor (Z.land sib 0xc0) idx, off + 1)
     else if vsib then RErr FD_ERR_UD
     else mret (rm, FD_REG_NONE, off));
  let reg :=
    if (mod_ =? 0) && (rm =? 5) && is_64 mode then FD_REG_IP
    else if (mod_ =? 0) && (base =? 5) then FD_REG_NONE
    else base + bit_if (has (e_rex e) PREFIX_REXB) 8 in
  '(disp, off) ←
    (if mod_ =? 0x40 then need b off 1;; v ← load_le 1 b off; mret (swrap 8 v, off + 1)
     else if (mod_ =? 0x80) || ((mod_ =? 0) && (base =? 5)) then need b off 4;; v ← load_le 4 b off; mret (s32 v, off + 4)
     else mret (0, off));
  mret (mkOp FD_OT_MEM size reg misc, disp, off).

(** The register of the VEX prefix, or an implicit one. *)
Definition vexreg_op (mode : DecodeMode) (e : Escape) (d : InstrDesc) (sizes : Z * Z) : FdOp :=
  let vex := if is_64 mode then vex_operand e else Z.land (vex_operand e) 0x7 in
  mkOp FD_OT_REG (sized d sizes (Z.land (Z.shiftr (operand_sizes d) 4) 3)) (Z.lor vex (DESC_ZEROREG_VAL d))
    (Z.land (Z.shiftr 0x9f1 (3 * DESC_REGTY_VEXREG d)) 0x7).

(** The number of bytes of an operand-sized immediate. *)
Definition imm_size_of (ty op_size : Z) : Z :=
  if (ty =? FDI T "RET") || (ty =? FDI T "RETF") || (ty =? FDI T "SSE_EXTRQ") || (ty =? FDI T "SSE_INSERTQ") then 2
  else if (ty =? FDI T "JMPF") || (ty =? FDI T "CALLF") then Z.shiftr (Z.shiftl 1 op_size) 1 + 2
  else if ty =? FDI T "ENTER" then 3
  else if ty =? FDI T "MOVABS" then Z.shiftr (Z.shiftl 1 op_size) 1
  else if op_size =? 2 then 2 else 4.

(** What the operands and immediates write. *)
Record Filled := mkFilled { ops : list FdOp; disp : Z; imm : Z; off : Z }.

(** The immediate of [size] bytes; other sizes leave the old one. *)
Definition load_imm (b : list Z) (size off old : Z) : Rd Z :=
  match size with
  | 2 => v ← load_le 2 b off; mret (swrap 16 v)
  | 3 => load_le 3 b off
  | 4 => v ← load_le 4 b off; mret (s32 v)
  | 6 => v ← load_le 4 b off; w ← load_le 2 b (off + 4); mret (Z.lor v (Z.shiftl w 32))
  | 8 => v ← load_le 8 b off; mret (s64 v)
  | _ => mret old
  end.

Definition immediate (mode : DecodeMode) (b : list Z) (p : Prefixes) (d : InstrDesc) (sizes : Z * Z) (address : Z) (f : Filled) : Rd Filled :=
  let op_size := sizes.1 in
  let control := DESC_IMM_CONTROL d in
  let idx := DESC_IMM_IDX d in
  let old := default (mkOp 0 0 0 0) (ops f !! Z.to_nat idx) in
  if control =? 1 then mret (mkFilled (set_op idx (mkOp FD_OT_IMM 1 (o_reg old) (o_misc old)) (ops f)) (disp f) 1 (off f))
  else if control =? 2 then
    let moffsz := Z.shiftl 1 (addr_size p) in
    need b (off f) moffsz;;
    v ← (if moffsz =? 2 then load_le 2 b (off f)
         else if moffsz =? 4 then load_le 4 b (off f)
         else if moffsz =? 8 then v ← load_le 8 b (off f); mret (s64 v)
         else mret (disp f));
    mret (mkFilled (set_op idx (mkOp FD_OT_MEM op_size FD_REG_NONE FD_REG_NONE) (ops f)) v (imm f) (off f + moffsz))
  else if control =? 3 then
    need b (off f) 1;;
    v ← load_le 1 b (off f);
    let reg := if is_64 mode then v else Z.land v 0x7f in
    mret (mkFilled (set_op idx (mkOp FD_OT_REG op_size (Z.shiftr reg 4) FD_RT_VEC) (ops f)) (disp f) (Z.land reg 0x0f) (off f + 1))
  else if negb (control =? 0) then
    '(size, v, off) ←
      (if has control 1 then
         need b (off f) 1;;
         v ← load_le 1 b (off f);
         mret (if has (operand_sizes d) 0x40 then 1 else op_size, swrap 8 v, off f + 1)
       else
         let n := imm_size_of (d_type d) op_size in
         need b (off f) n;;
         v ← load_imm b n (off f) (imm f);
         mret (sized d sizes (Z.land (Z.shiftr (operand_sizes d) 6) 3), v, off f + n));
    let '(type, v) :=
      if has control 2 then if negb (address =? 0) then (FD_OT_IMM, s64 (v + (address + off))) else (FD_OT_OFF, v)
      else (FD_OT_IMM, v) in
    mret (mkFilled (set_op idx (mkOp type size (o_reg old) (o_misc old)) (ops f)) (disp f) v off)
  else mret f.

(** ** The end *)

Definition op_at (ops : list FdOp) (i : nat) : FdOp := default (mkOp 0 0 0 0) (ops !! i).

(** Byte registers 4 to 7 without REX are the high bytes. *)
Definition high_byte (op : FdOp) : FdOp :=
  if (o_type op =? FD_OT_REG) && (o_misc op =? FD_RT_GPL) && (o_size op =? 1) && (4 <=? o_reg op)
  then mkOp (o_type op) (o_size op) (o_reg op) FD_RT_GPH else op.

Definition high_bytes (ops : list FdOp) : list FdOp :=
  if o_type (op_at ops 0) =? FD_OT_NONE then ops
  else
    let ops := <[0%nat := high_byte (op_at ops 0)]> ops in
    if o_type (op_at ops 1) =? FD_OT_NONE then ops else <[1%nat := high_byte (op_at ops 1)]> ops.

Definition clear_type (op : FdOp) : FdOp := mkOp FD_OT_NONE (o_size op) (o_reg op) (o_misc op).

(** [xchg] of the accumulator with itself is [nop]. *)
Definition xchg_nop (ty : Z) (ops : list FdOp) : Z * list FdOp :=
  if ty =? FDI T "XCHG_NOP" then
    if (o_reg (op_at ops 0) =? 0) && (o_reg (op_at ops 1) =? 0)
    then (FDI T "NOP", <[1%nat := clear_type (op_at ops 1)]> (<[0%nat := clear_type (op_at ops 0)]> ops))
    else (FDI T "XCHG", ops)
  else (ty, ops).

Definition check_3dnow (ty imm : Z) : Rd unit :=
  if ty =? FDI T "3DNOW" then
    let opc3dn := u32 imm in
    if has opc3dn 0x40 then RErr FD_ERR_UD
    else
      let msk := if has opc3dn 0x80 then 0x88d144d144d14400 else 0x30003000 in
      if negb (has (Z.shiftr msk (Z.land opc3dn 0x3f)) 1) then RErr FD_ERR_UD else mret tt
  else mret tt.

Definition start_flags (mode : DecodeMode) (e : Escape) : Z :=
  Z.lor (if e_rep e =? 2 then FD_FLAG_REP else if e_rep e =? 3 then FD_FLAG_REPNZ else 0) (bit_if (is_64 mode) FD_FLAG_64).

(** ModR/M, VEX register and immediates, in this order. *)
Definition operands (mode : DecodeMode) (b : list Z) (p : Prefixes) (e : Escape) (d : InstrDesc) (sizes : Z * Z)
    (op_byte address : Z) (f : Filled) : Rd Filled :=
  f ←
    (if (d_type d =? FDI T "MOV_CR") || (d_type d =? FDI T "MOV_DR") then
       ops ← mov_special e d op_byte sizes.1 (ops f); mret (mkFilled ops (disp f) (imm f) (off f))
     else
       let o := if DESC_HAS_MODREG d then set_op (DESC_MODREG_IDX d) (modreg_op e d op_byte sizes) (ops f) else ops f in
       if DESC_HAS_MODRM d then
         let size := sized d sizes (Z.land (Z.shiftr (operand_sizes d) 0) 3) in
         if Z.land op_byte 0xc0 =? 0xc0
         then mret (mkFilled (set_op (DESC_MODRM_IDX d) (modrm_reg e d op_byte size) o) (disp f) (imm f) (off f))
         else
           '(op, v, off) ← modrm_mem mode b e d op_byte size (off f);
           mret (mkFilled (set_op (DESC_MODRM_IDX d) op o) v (imm f) off)
       else mret (mkFilled o (disp f) (imm f) (off f)));
  f ←
    (if DESC_HAS_VEXREG d then mret (mkFilled (set_op (DESC_VEXREG_IDX d) (vexreg_op mode e d sizes) (ops f)) (disp f) (imm f) (off f))
     else if negb (vex_operand e =? 0) then RErr FD_ERR_UD
     else mret f);
  immediate mode b p d sizes address f.

(** From the description on. *)
Definition decode_desc (mode : DecodeMode) (b : list Z) (p : Prefixes) (e : Escape) (d : InstrDesc) (off0 address : Z) (i0 : FdInstr)
    : Rd FdInstr :=
  let len := Z.of_nat (length b) in
  off1 ← (if DESC_MODRM d then if len <=? off0 then RErr FD_ERR_PARTIAL else mret (off0 + 1) else mret off0);
  c ← byte_at b (off1 - 1);
  let op_byte := Z.lor c (bit_if (negb (DESC_MODRM d)) 0xc0) in
  let sizes := op_sizes mode e d in
  f ← operands mode b p e d sizes op_byte address (mkFilled (replicate 4 (mkOp 0 0 0 0)) (f_disp i0) (f_imm i0) off1);
  let '(ty, o) := xchg_nop (d_type d) (ops f) in
  check_3dnow ty (imm f);;
  flags ←
    (if prefix_lock p then
       if negb (DESC_LOCK d) || negb (o_type (op_at o 0) =? FD_OT_MEM) then RErr FD_ERR_UD
       else mret (Z.lor (start_flags mode e) FD_FLAG_LOCK)
     else mret (start_flags mode e));
  let o :=
    if ((sizes.1 =? 1) || (ty =? FDI T "MOVSX") || (ty =? FDI T "MOVZX")) && negb (has (e_rex e) PREFIX_REX)
    then high_bytes o else o in
  mret (mkInstr ty flags (segment p) (addr_size p) (if DESC_INSTR_WIDTH d then u8 (sizes.1 - 1) else 0) (u8 (off f)) o
          (disp f) (imm f) address).

(** The number of bytes and the instruction. *)
Definition fd_decode (buffer : list Z) (mode_int address : Z) (i0 : FdInstr) : Rd (Z * FdInstr) :=
  let b := take 15 buffer in
  let len := Z.of_nat (length b) in
  match (if mode_int =? 32 then o ← FD_TABLE_OFFSET_32 T; Some (o, DECODE_32)
         else if mode_int =? 64 then o ← FD_TABLE_OFFSET_64 T; Some (o, DECODE_64) else None) with
  | None => RErr FD_ERR_INTERNAL
  | Some (root, mode) =>
      let '(p, off) := prefix_loop mode b 0 (mkPfx FD_REG_NONE false (if is_64 mode then 3 else 2) false 0 0 (-1)) in
      let p := if negb (rex_off p =? off - 1) then set_rex 0 (rex_off p) p else p in
      if len <=? off then RErr FD_ERR_PARTIAL
      else
        e ← opcode_escape mode b p off;
        '(d, off) ← find_desc b root e;
        i ← decode_desc mode b p e d off address i0;
        mret (f_size i, i)
  end.
End Tables.
