(* ===== verification/FadecProofs.v ===== *)
(** * The x86 decoder stays within its buffer

    Whatever the generated tables contain, as long as their roots are tables of
    opcodes: [fd_decode] reads only the first 15 bytes of its buffer, returns an
    error or a length within it, does not change its mind when more bytes
    become available, and decodes every memory operand to what was encoded. *)

From Stdlib Require Import ZArith Lia String.
From stdpp Require Import base numbers list strings.
From S2P Require Import Prelude Fadec.

(** ** Outcomes *)

Definition fd_error (c : Z) : Prop := c = FD_ERR_UD \/ c = FD_ERR_INTERNAL \/ c = FD_ERR_PARTIAL.

(** A value with [P], or an error. *)
Definition within {A} (P : A -> Prop) (r : Rd A) : Prop :=
  match r with RVal a => P a | RErr c => fd_error c | ROob => False end.

Lemma within_ret {A} (P : A -> Prop) a : P a -> within P (mret a).
Proof. done. Qed.

Lemma within_bind {A B} (P : A -> Prop) (Q : B -> Prop) (r : Rd A) (f : A -> Rd B) :
  within P r -> (forall a, P a -> within Q (f a)) -> within Q (r ≫= f).
Proof. destruct r; cbn; auto. Qed.

Lemma within_mono {A} (P Q : A -> Prop) r : within P r -> (forall a, P a -> Q a) -> within Q r.
Proof. destruct r; cbn; auto. Qed.

Section Buffer.
Context (b : list Z).
Abbreviation len := (Z.of_nat (length b)).

Lemma byte_within off : 0 <= off < len -> within (fun _ => True) (byte_at b off).
Proof.
  intros H. unfold byte_at. destruct (lookup_lt_is_Some_2 b (Z.to_nat off)) as [x ->]; [lia|].
  by rewrite (proj2 (Z.leb_le 0 off)) by lia.
Qed.

Lemma need_within off n : within (fun _ => off + n <= len) (need b off n).
Proof. unfold need. destruct (Z.ltb_spec len (off + n)); [right; by right|done]. Qed.

Lemma load_within n off : 0 <= off -> off + Z.of_nat n <= len -> within (fun _ => True) (load_le n b off).
Proof.
  revert off. induction n as [|n IH]; intros off H0 Hl; [done|]. cbn [load_le].
  eapply within_bind; [apply byte_within; lia|]. intros x _. eapply within_bind; [apply IH; lia|]. done.
Qed.
End Buffer.

Create HintDb fd discriminated.
#[export] Hint Resolve byte_within need_within load_within : fd.

(** One step of a computation, with the fact it establishes. *)
Ltac fd_step := eapply within_bind; [first [apply need_within | apply byte_within; lia | apply load_within; lia] | intros ? ?; cbv beta in *].

(** ** Prefixes and escapes *)

Lemma prefix_loop_off mode bs off p p' off' :
  prefix_loop mode bs off p = (p', off') -> 1 <= addr_size p <= 3 ->
  off <= off' <= off + Z.of_nat (length bs) /\ 1 <= addr_size p' <= 3.
Proof.
  revert off p. induction bs as [|c bs IH]; intros off p; cbn [prefix_loop length]; [intros [= <- <-]; lia|].
  destruct (if is_64 mode then _ else _) as [q|] eqn:E; [|intros [= <- <-]; lia].
  assert (1 <= addr_size p <= 3 -> 1 <= addr_size q <= 3) as Hq.
  { intros Hp. destruct (is_64 mode); unfold prefix_64, prefix_32 in E; repeat case_match; try discriminate; injection E as <-; cbn; lia. }
  intros H Hp. destruct (IH (off + 1) q H (Hq Hp)). lia.
Qed.

Lemma vex_escape_range byte : 0 <= Z.lor (Z.land byte 3) 4 < 8.
Proof.
  assert (0 <= Z.land byte 3 < 4) as Hr by (change 3 with (Z.ones 2); rewrite Z.land_ones by lia; apply Z.mod_pos_bound; lia).
  pose proof (lor_shiftl_add (Z.land byte 3) 1 2) as E. change (Z.shiftl 1 2) with 4 in E. rewrite E; lia.
Qed.

Lemma escape_within mode b p off :
  0 <= off < Z.of_nat (length b) -> within (fun e => off <= e_off e <= Z.of_nat (length b) /\ 0 <= e_escape e < 8) (opcode_escape mode b p off).
Proof.
  intros Ho. unfold opcode_escape. cbv zeta. fd_step. destruct (a =? 15).
  - fd_step. fd_step. apply within_ret. cbn. repeat case_match; lia.
  - destruct (_ =? 0xc4); [|apply within_ret; cbn; lia]. fd_step. fd_step.
    destruct (_ && _); [apply within_ret; cbn; lia|]. destruct (_ || _); [by left|]. unfold vex_prefix. cbv zeta.
    eapply (within_bind (fun x => (if a =? 0xc4 then off + 3 <= Z.of_nat (length b) else True) /\ 0 <= x.1.1 < 8)).
    + destruct (a =? 0xc4); [|by apply within_ret; cbn]. destruct (has _ _); [by left|]. fd_step. fd_step. apply within_ret. split; [lia|].
      apply vex_escape_range.
    + intros [[escape rex] byte] [H' He]. apply within_ret. cbn in *. destruct (a =? 0xc4); lia.
Qed.

(** ** Tables *)

(** The root tables lead to tables of opcodes, or to nothing. *)
Definition root_ok (T : FdTables) (root : Z) : Prop :=
  forall i, 0 <= i < 8 -> (table_walk T root i).2 = ENTRY_TABLE256 \/ (table_walk T root i).2 = 0.

(** An opcode byte is read, and the offset is behind it. *)
Lemma find_desc_within T root b e :
  root_ok T root -> 0 <= e_escape e < 8 -> 0 <= e_off e <= Z.of_nat (length b) ->
  within (fun x => x.2 = e_off e + 1 /\ x.2 <= Z.of_nat (length b)) (find_desc T b root e).
Proof.
  intros Hroot He Hoff. unfold find_desc. destruct (table_walk T root (e_escape e)) as [idx kind] eqn:Ew.
  assert (kind = ENTRY_TABLE256 \/ kind = 0) as Hk by (specialize (Hroot _ He); by rewrite Ew in Hroot).
  destruct Hk as [-> | ->]; cbn [Z.eqb ENTRY_TABLE256 ENTRY_TABLE16 ENTRY_TABLE_PREFIX ENTRY_TABLE_VEX ENTRY_INSTR Pos.eqb andb];
    [|by left].
  destruct (Z.ltb_spec (e_off e) (Z.of_nat (length b))) as [Hlt|Hge]; [|right; by right].
  eapply (within_bind (fun x => x.2 = e_off e + 1)); [fd_step; apply within_ret; done|]. intros [[idx1 kind1] off1] E. cbn [snd] in E. subst off1.
  destruct (if kind1 =? ENTRY_TABLE_PREFIX then _ else _) as [idx2 kind2].
  eapply (within_bind (fun _ => True)).
  - destruct ((kind2 =? ENTRY_TABLE16) && _) eqn:E16; [|done]. apply andb_prop in E16 as [_ E16]. fd_step.
    destruct (table_walk T idx2 _). done.
  - intros [idx3 kind3] _. destruct (if kind3 =? ENTRY_TABLE_VEX then _ else _) as [idx4 kind4].
    destruct (negb _); [destruct (kind4 =? 0); [by left|right; by right]|]. apply within_ret. cbn. lia.
Qed.

(** ** Operands *)

Section Operands.
Context (T : FdTables) (b : list Z).
Abbreviation len := (Z.of_nat (length b)).

Lemma mem_within mode e d op_byte size off :
  0 <= off <= len -> within (fun x => off <= x.2 <= len) (modrm_mem mode b e d op_byte size off).
Proof.
  intros Ho. unfold modrm_mem. cbv zeta. eapply (within_bind (fun x => off <= x.2 <= len)).
  - destruct (_ =? 4); [|destruct (DESC_VSIB d); [by left|apply within_ret; cbn; lia]]. fd_step. fd_step. apply within_ret. cbn. lia.
  - intros [[base misc] off1] Ho1. cbn [snd] in Ho1. eapply (within_bind (fun x => off1 <= x.2 <= len)).
    + destruct (_ =? 64); [fd_step; fd_step; apply within_ret; cbn; lia|].
      destruct (_ || _); [fd_step; fd_step; apply within_ret; cbn; lia|apply within_ret; cbn; lia].
    + intros [v off2] Ho2. apply within_ret. cbn in *. lia.
Qed.

Lemma op_sizes_range mode e d : 1 <= (op_sizes mode e d).1 <= 6.
Proof. unfold op_sizes. repeat case_match; cbn; try lia. destruct (has _ PREFIX_VEXL); cbn; lia. Qed.

Lemma imm_size_pos ty n : 1 <= n <= 6 -> 1 <= imm_size_of T ty n.
Proof.
  intros Hn. assert (1 <= Z.shiftr (Z.shiftl 1 n) 1).
  { rewrite Z.shiftl_1_l, Z.shiftr_div_pow2 by lia. assert (2 ^ 1 <= 2 ^ n) by (apply Z.pow_le_mono_r; lia). zdm. }
  unfold imm_size_of. repeat case_match; lia.
Qed.

Lemma load_imm_within n off old : 0 <= off -> off + n <= len -> within (fun _ => True) (load_imm b n off old).
Proof.
  intros H0 Hl. unfold load_imm. repeat case_match; first [by apply within_ret | apply load_within; lia | repeat fd_step; by apply within_ret].
Qed.

Lemma immediate_within mode p d sizes address f :
  1 <= addr_size p <= 3 -> 1 <= sizes.1 <= 6 -> 0 <= off f <= len ->
  within (fun x => off f <= off x <= len) (immediate T mode b p d sizes address f).
Proof.
  intros Hp Hs Ho. unfold immediate. cbv zeta. destruct (_ =? 1); [apply within_ret; cbn; lia|]. destruct (_ =? 2).
  { assert (1 <= Z.shiftl 1 (addr_size p)) by (rewrite Z.shiftl_1_l; assert (2 ^ 0 <= 2 ^ addr_size p) by (apply Z.pow_le_mono_r; lia); lia).
    fd_step. eapply (within_bind (fun _ => True)); [|intros v _; apply within_ret; cbn; lia].
    destruct (Z.eqb_spec (Z.shiftl 1 (addr_size p)) 2); [apply load_within; lia|].
    destruct (Z.eqb_spec (Z.shiftl 1 (addr_size p)) 4); [apply load_within; lia|].
    destruct (Z.eqb_spec (Z.shiftl 1 (addr_size p)) 8); [|done]. eapply within_bind; [apply load_within; lia|done]. }
  destruct (_ =? 3); [fd_step; fd_step; apply within_ret; cbn; lia|]. destruct (negb _); [|apply within_ret; cbn; lia].
  eapply (within_bind (fun x => off f <= x.2 <= len)).
  - destruct (has _ 1); [fd_step; fd_step; apply within_ret; cbn; lia|]. pose proof (imm_size_pos (d_type d) sizes.1 Hs).
    fd_step. eapply within_bind; [apply load_imm_within; lia|]. intros v _. apply within_ret. cbn. lia.
  - intros [[size v] off1] Ho1. cbn [snd] in Ho1. destruct (if has (DESC_IMM_CONTROL d) 2 then _ else _) as [type v'].
    apply within_ret. cbn. lia.
Qed.

Lemma operands_within mode p e d sizes op_byte address f :
  1 <= addr_size p <= 3 -> 1 <= sizes.1 <= 6 -> 0 <= off f <= len ->
  within (fun x => off f <= off x <= len) (operands T mode b p e d sizes op_byte address f).
Proof.
  intros Hp Hs Ho. unfold operands. eapply (within_bind (fun x => off f <= off x <= len)).
  { destruct (_ || _).
    - eapply (within_bind (fun _ => True)); [|intros o _; apply within_ret; cbn; lia].
      unfold mov_special. cbv zeta. destruct (_ && _); [by left|]. destruct (_ && _); [by left|done].
    - cbv zeta. destruct (DESC_HAS_MODRM d); [|apply within_ret; cbn; lia]. destruct (_ =? 0xc0); [apply within_ret; cbn; lia|].
      eapply within_bind; [apply mem_within; lia|]. intros [[op v] off1] H. apply within_ret. done. }
  intros f1 H1. eapply (within_bind (fun x => off f <= off x <= len)).
  { destruct (DESC_HAS_VEXREG d); [apply within_ret; cbn; lia|]. destruct (negb _); [by left|apply within_ret; cbn; lia]. }
  intros f2 H2. eapply within_mono; [apply immediate_within; (done || lia)|]. intros x Hx. cbn in *. lia.
Qed.

Lemma desc_within mode p e d off0 address i0 :
  1 <= addr_size p <= 3 -> 1 <= off0 <= len -> len <= 15 ->
  within (fun i => off0 <= f_size i <= len) (decode_desc T mode b p e d off0 address i0).
Proof.
  intros Hp Ho H15. unfold decode_desc. cbv zeta. eapply (within_bind (fun o => off0 <= o <= len)).
  { destruct (DESC_MODRM d); [|apply within_ret; lia]. destruct (Z.leb_spec len off0); [right; by right|apply within_ret; lia]. }
  intros off1 H1. fd_step. eapply within_bind; [apply operands_within; [done|apply op_sizes_range|cbn; lia]|]. intros f Hf. cbn [off] in Hf.
  destruct (xchg_nop T (d_type d) (ops f)) as [ty o]. eapply (within_bind (fun _ => True)).
  { unfold check_3dnow. cbv zeta. repeat case_match; try done; by left. }
  intros _ _. eapply (within_bind (fun _ => True)).
  { destruct (prefix_lock p); [|done]. destruct (_ || _); [by left|done]. }
  intros flags _. apply within_ret. cbn. rewrite wrap_small by (unfold in_u; lia). lia.
Qed.
End Operands.

Definition tables_ok (T : FdTables) : Prop :=
  (forall root, FD_TABLE_OFFSET_32 T = Some root -> root_ok T root) /\ (forall root, FD_TABLE_OFFSET_64 T = Some root -> root_ok T root).

(** What the decoder promises about its length, or an error. *)
Lemma decode_within T buffer mode_int address i0 :
  tables_ok T ->
  within (fun x => 1 <= x.1 <= 15 /\ x.1 <= Z.of_nat (length buffer) /\ f_size x.2 = x.1) (fd_decode T buffer mode_int address i0).
Proof.
  intros [H32 H64]. unfold fd_decode. set (b := take 15 buffer).
  assert (Z.of_nat (length b) <= 15 /\ Z.of_nat (length b) <= Z.of_nat (length buffer)) as [Hb15 Hbl] by (unfold b; rewrite length_take; lia).
  destruct (if mode_int =? 32 then _ else _) as [[root mode]|] eqn:Em; [|right; by left].
  assert (root_ok T root) as Hroot.
  { destruct (mode_int =? 32); [|destruct (mode_int =? 64); [|done]]; apply bind_Some in Em as (o & Ho & [= <- <-]); auto. }
  destruct (prefix_loop mode b 0 _) as [p off] eqn:Ep. apply prefix_loop_off in Ep as [Ho Hp]; [|destruct mode; cbn; lia].
  destruct (Z.leb_spec (Z.of_nat (length b)) off); [right; by right|].
  set (p' := if negb (rex_off p =? off - 1) then _ else _). assert (1 <= addr_size p' <= 3) as Hp' by (unfold p'; by destruct (negb _)).
  eapply within_bind; [apply (escape_within mode b p' off); lia|]. intros e [He Hesc].
  eapply within_bind; [apply find_desc_within; [done|done|lia]|]. intros [d off'] [Hd Hd']. cbn [snd] in *.
  eapply within_bind; [apply desc_within; [done|lia|done]|]. intros i Hi. cbv beta in Hi. apply within_ret. cbn. lia.
Qed.

Lemma fd_decode_no_oob T buffer mode_int address i0 : tables_ok T -> fd_decode T buffer mode_int address i0 <> ROob.
Proof. intros HT E. pose proof (decode_within T buffer mode_int address i0 HT) as H. by rewrite E in H. Qed.

(** C19. The decoder is safe: for any tables whose roots are tables of opcodes,
    [fd_decode] reads no byte outside the first 15 of the buffer and none
    before it, and returns one of its three errors or a length of at least one
    byte, at most 15, that is within the buffer. *)
Theorem fd_decode_safe T buffer mode_int address i0 :
  tables_ok T ->
  match fd_decode T buffer mode_int address i0 with
  | RVal (n, i) => 1 <= n <= 15 /\ n <= Z.of_nat (length buffer) /\ f_size i = n
  | RErr c => c = FD_ERR_UD \/ c = FD_ERR_INTERNAL \/ c = FD_ERR_PARTIAL
  | ROob => False
  end.
Proof.
  intros HT. pose proof (decode_within T buffer mode_int address i0 HT) as H.
  by destruct (fd_decode T buffer mode_int address i0) as [[n i]| |].
Qed.


(** ** More bytes *)

(** [r'] is the outcome of [r] with more bytes: the same, unless bytes were missing. *)
Definition stable {A} (r r' : Rd A) : Prop := r = RErr FD_ERR_PARTIAL \/ r = ROob \/ r' = r.

Lemma stable_refl {A} (r : Rd A) : stable r r.
Proof. by right; right. Qed.

Lemma stable_bind {A B} (r r' : Rd A) (f f' : A -> Rd B) :
  stable r r' -> (forall a, stable (f a) (f' a)) -> stable (r ≫= f) (r' ≫= f').
Proof. intros [-> | [-> | ->]] H; [by left|by right; left|]. destruct r; [apply H|apply stable_refl..]. Qed.

Section More.
Context (T : FdTables) (b s : list Z).

Lemma byte_stable off : stable (byte_at b off) (byte_at (b ++ s) off).
Proof.
  unfold byte_at. destruct (b !! Z.to_nat off) eqn:E; [|by right; left]. rewrite (lookup_app_l_Some _ _ _ _ E). apply stable_refl.
Qed.

Lemma need_stable off n : stable (need b off n) (need (b ++ s) off n).
Proof.
  unfold need. rewrite length_app. destruct (Z.ltb_spec (Z.of_nat (length b)) (off + n)); [by left|].
  destruct (Z.ltb_spec (Z.of_nat (length b + length s)) (off + n)); [lia|apply stable_refl].
Qed.

Lemma load_stable n off : stable (load_le n b off) (load_le n (b ++ s) off).
Proof.
  revert off. induction n as [|n IH]; intros off; [apply stable_refl|]. cbn [load_le].
  apply stable_bind; [apply byte_stable|]. intros x. apply stable_bind; [apply IH|]. intros y. apply stable_refl.
Qed.

(** Through binds and conditions, to reads of the buffer. *)
Ltac stab :=
  repeat first
    [ apply stable_refl | apply need_stable | apply byte_stable | apply load_stable
    | apply stable_bind; [|intros ?]
    | match goal with |- stable (if ?c then _ else _) _ => destruct c end
    | match goal with |- stable (let '(_, _) := ?x in _) _ => destruct x end
    | match goal with |- stable (match ?x with _ => _ end) (match ?x with _ => _ end) => destruct x end ].

Lemma escape_stable mode p off : stable (opcode_escape mode b p off) (opcode_escape mode (b ++ s) p off).
Proof. unfold opcode_escape, vex_prefix. cbv zeta. stab. Qed.

Lemma mem_stable mode e d op_byte size off : stable (modrm_mem mode b e d op_byte size off) (modrm_mem mode (b ++ s) e d op_byte size off).
Proof. unfold modrm_mem. cbv zeta. stab. Qed.

Lemma imm_stable mode p d sizes address f : stable (immediate T mode b p d sizes address f) (immediate T mode (b ++ s) p d sizes address f).
Proof. unfold immediate, load_imm. cbv zeta. stab. Qed.

Lemma operands_stable mode p e d sizes op_byte address f :
  stable (operands T mode b p e d sizes op_byte address f) (operands T mode (b ++ s) p e d sizes op_byte address f).
Proof. unfold operands. cbv zeta. stab; first [apply mem_stable | apply imm_stable]. Qed.

(** A table that needs a byte that is missing makes the instruction partial. *)
Lemma find_desc_stable root e : stable (find_desc T b root e) (find_desc T (b ++ s) root e).
Proof.
  assert (forall o, (o <? Z.of_nat (length b)) = true -> (o <? Z.of_nat (length (b ++ s))) = true) as Hlt.
  { intros o H. apply Z.ltb_lt in H. apply Z.ltb_lt. rewrite length_app. lia. }
  unfold find_desc. destruct (table_walk T root (e_escape e)) as [idx kind].
  destruct (Z.eqb_spec kind ENTRY_TABLE256) as [->|H256].
  - cbn [andb]. destruct (e_off e <? Z.of_nat (length b)) eqn:E; [rewrite (Hlt _ E)|by left].
    apply stable_bind; [stab|]. intros [[idx1 kind1] off1]. destruct (if kind1 =? ENTRY_TABLE_PREFIX then _ else _) as [idx2 kind2].
    destruct (Z.eqb_spec kind2 ENTRY_TABLE16) as [->|H16]; [|cbn [andb]; stab].
    cbn [andb]. destruct (off1 <? Z.of_nat (length b)) eqn:E1; [rewrite (Hlt _ E1); stab|by left].
  - cbn [andb]. apply stable_bind; [stab|]. intros [[idx1 kind1] off1]. destruct (if kind1 =? ENTRY_TABLE_PREFIX then _ else _) as [idx2 kind2].
    destruct (Z.eqb_spec kind2 ENTRY_TABLE16) as [->|H16]; [|cbn [andb]; stab].
    cbn [andb]. destruct (off1 <? Z.of_nat (length b)) eqn:E1; [rewrite (Hlt _ E1); stab|by left].
Qed.

Lemma desc_stable mode p e d off0 address i0 :
  stable (decode_desc T mode b p e d off0 address i0) (decode_desc T mode (b ++ s) p e d off0 address i0).
Proof.
  unfold decode_desc. cbv zeta. apply stable_bind.
  { destruct (DESC_MODRM d); [|apply stable_refl]. destruct (Z.leb_spec (Z.of_nat (length b)) off0); [by left|].
    rewrite length_app. destruct (Z.leb_spec (Z.of_nat (length b + length s)) off0); [lia|apply stable_refl]. }
  intros off1. apply stable_bind; [stab|]. intros c. apply stable_bind; [apply operands_stable|]. intros f. stab.
Qed.

(** The loop over the prefixes stops within the buffer, or uses all of it. *)
Lemma prefix_loop_app mode off p :
  (prefix_loop mode b off p).2 < off + Z.of_nat (length b) -> prefix_loop mode (b ++ s) off p = prefix_loop mode b off p.
Proof.
  revert off p. induction b as [|c b' IH]; intros off p; cbn [prefix_loop length app snd]; [lia|].
  destruct (if is_64 mode then _ else _) as [q|]; [|done]. intros H. apply IH. lia.
Qed.
End More.

(** More bytes do not change the decoder's mind: whatever [fd_decode]
    answers for a buffer, except that bytes are missing, it answers for every
    longer buffer that starts with it, so a block of code can be decoded as its
    bytes arrive. *)
Theorem fd_decode_extends T buffer more mode_int address i0 :
  tables_ok T -> fd_decode T buffer mode_int address i0 <> RErr FD_ERR_PARTIAL ->
  fd_decode T (buffer ++ more) mode_int address i0 = fd_decode T buffer mode_int address i0.
Proof.
  intros HT Hp. pose proof (fd_decode_no_oob T buffer mode_int address i0 HT) as Hoob.
  enough (stable (fd_decode T buffer mode_int address i0) (fd_decode T (buffer ++ more) mode_int address i0)) as [H | [H | H]] by done.
  clear Hp Hoob. unfold fd_decode. rewrite take_app. set (b := take 15 buffer). set (s := take _ more).
  destruct (if mode_int =? 32 then _ else _) as [[root mode]|]; [|apply stable_refl].
  set (p0 := mkPfx _ _ _ _ _ _ _). pose proof (prefix_loop_app b s mode 0 p0) as Hl.
  destruct (prefix_loop mode b 0 p0) as [p off]. cbn [snd] in Hl.
  destruct (Z.leb_spec (Z.of_nat (length b)) off); [by left|]. rewrite Hl by lia.
  rewrite length_app. destruct (Z.leb_spec (Z.of_nat (length b + length s)) off); [lia|].
  apply stable_bind; [apply escape_stable|]. intros e. apply stable_bind; [apply find_desc_stable|]. intros [d off'].
  apply stable_bind; [apply desc_stable|]. intros i. apply stable_refl.
Qed.

(** ** Concrete tables *)

(** Two opcodes: [90], and [8b /r], a move to a register. *)
Definition two_opcodes : FdTables := mkTables
  (fun i => if i =? 0 then 18 else if i =? 8 + 0x90 then 1 else if i =? 8 + 0x8b then 9 else 0)
  (fun i => if i =? 0 then mkDesc 1 0 0 0 else mkDesc 2 14 10 0x4000)
  None (Some 0) (fun name => 1000 + Z.of_nat (String.length name)).

Definition zero_instr : FdInstr := mkInstr 0 0 0 0 0 0 [] 0 0 0.

(** [mov rax, [rbx + 4 * rcx + 16]] *)
Definition mov_bytes : list Z := [0x48; 0x8b; 0x44; 0x8b; 0x10].

Definition mov_decoded : FdInstr :=
  mkInstr 2 FD_FLAG_64 FD_REG_NONE 3 0 5 [mkOp FD_OT_REG 4 0 FD_RT_GPL; mkOp FD_OT_MEM 4 3 (2 * 64 + 1); mkOp 0 0 0 0; mkOp 0 0 0 0] 16 0 0.

Lemma two_opcodes_ok : tables_ok two_opcodes.
Proof.
  split; intros root [=]. subst root. intros i Hi. unfold table_walk. cbn [two_opcodes decode_table].
  destruct (Z.eqb_spec (0 + i) 0); [by left|]. rewrite !(proj2 (Z.eqb_neq _ _)) by lia. by right.
Qed.

Lemma fd_decode_safe_witness :
  tables_ok two_opcodes /\ fd_decode two_opcodes mov_bytes 64 0 zero_instr = RVal (5, mov_decoded) /\ 1 <= 5 <= 15 /\ 5 <= 5.
Proof.
  split; [exact two_opcodes_ok|]. split; [vm_compute; reflexivity|].
  pose proof (fd_decode_safe two_opcodes mov_bytes 64 0 zero_instr two_opcodes_ok) as H. vm_compute fd_decode in H. destruct H as (H1 & H2 & _).
  split; [exact H1|exact H2].
Defined.

Lemma fd_decode_extends_witness :
  fd_decode two_opcodes (mov_bytes ++ [0x90; 0x90]) 64 0 zero_instr = RVal (5, mov_decoded) /\
  fd_decode two_opcodes [0x48; 0x8b; 0x44] 64 0 zero_instr = RErr FD_ERR_PARTIAL.
Proof.
  split; [|vm_compute; reflexivity].
  rewrite (fd_decode_extends two_opcodes mov_bytes [0x90; 0x90] 64 0 zero_instr two_opcodes_ok); [vm_compute; reflexivity|].
  intros H. vm_compute in H. discriminate H.
Defined.
