(* ===== verification/FadecEnc.v ===== *)
(** * The x86 encoder, [subprojects/fadec/encode.c]

    [fe_enc64_impl] tries the descriptions of a mnemonic in turn, from a table
    the build generates, and writes the first that fits the operands.  The
    buffer is the list of the bytes written so far; an operand is a signed 64-bit
    number, negative for a memory operand.  [opc] carries the opcode and, as
    flags above bit 15, everything that goes into prefixes. *)

From Stdlib Require Import ZArith Lia.
From stdpp Require Import base numbers list.
From S2P Require Import Prelude Fadec.

(** ** Flags *)

Definition OPC_0F : Z := Z.shiftl 1 16.
Definition OPC_0F38 : Z := Z.shiftl 2 16.
Definition OPC_0F3A : Z := Z.shiftl 3 16.
Definition OPC_ESCAPE_MSK : Z := Z.shiftl 3 16.
Definition OPC_VSIB : Z := Z.shiftl 1 18.
Definition OPC_66 : Z := Z.shiftl 1 19.
Definition OPC_F2 : Z := Z.shiftl 1 20.
Definition OPC_F3 : Z := Z.shiftl 1 21.
Definition OPC_REXW : Z := Z.shiftl 1 22.
Definition OPC_LOCK : Z := Z.shiftl 1 23.
Definition OPC_VEX : Z := Z.shiftl 1 24.
Definition OPC_VEXL : Z := Z.shiftl 1 25.
Definition OPC_REXR : Z := Z.shiftl 1 28.
Definition OPC_REXX : Z := Z.shiftl 1 27.
Definition OPC_REXB : Z := Z.shiftl 1 26.
Definition OPC_REX : Z := Z.shiftl 1 29.
Definition OPC_67 : Z := Z.shiftl 1 30.
Definition OPC_SEG_IDX : Z := 31.
Definition OPC_SEG_MSK : Z := Z.shiftl 0x7 OPC_SEG_IDX.
Definition OPC_VEXOP_IDX : Z := 34.
Definition OPC_VEXOP_MSK : Z := Z.shiftl 0xf OPC_VEXOP_IDX.

(** The flags that force a REX prefix, and those that force a long VEX prefix. *)
Definition OPC_ANY_REX : Z := Z.lor (Z.lor (Z.lor (Z.lor OPC_REX OPC_REXW) OPC_REXR) OPC_REXX) OPC_REXB.
Definition OPC_LONG_VEX : Z := Z.lor (Z.lor (Z.lor OPC_REXW OPC_REXX) OPC_REXB) OPC_ESCAPE_MSK.

Definition FE_AX : Z := 0x100.
Definition FE_SP : Z := 0x104.
Definition FE_IP : Z := 0x110.
Definition FE_SEG_MASK : Z := 0x70000.
Definition FE_ADDR32 : Z := 0x80000.
Definition FE_JMPL : Z := 0x100000.
Definition FE_MNEM_MASK : Z := 0xffff.

(** [FE_MEM]: the fields of a memory operand below the sign. *)
Definition FE_MEM (base sc idx off : Z) : Z :=
  Z.lor (Z.lor (Z.lor (Z.lor (- 2 ^ 63) (Z.shiftl (Z.land base 0xfff) 32)) (Z.shiftl (Z.land idx 0xfff) 44)) (Z.shiftl (Z.land sc 0xf) 56))
    (Z.land off 0xffffffff).

(** ** Operands *)

Definition op_mem (op : Z) : bool := op <? 0.
Definition op_reg (op : Z) : bool := 0 <=? op.
Definition op_reg_gpl (op : Z) : bool := Z.land op (Z.lnot 0xf) =? 0x100.
Definition op_reg_gph (op : Z) : bool := Z.land op (Z.lnot 0x3) =? 0x204.
Definition op_reg_seg (op : Z) : bool := (Z.land op (Z.lnot 0x7) =? 0x300) && (Z.land op 7 <? 6).
Definition op_reg_fpu (op : Z) : bool := Z.land op (Z.lnot 0x7) =? 0x400.
Definition op_reg_mmx (op : Z) : bool := Z.land op (Z.lnot 0x7) =? 0x500.
Definition op_reg_xmm (op : Z) : bool := Z.land op (Z.lnot 0xf) =? 0x600.
Definition op_mem_offset (op : Z) : Z := s32 op.
Definition op_mem_base (op : Z) : Z := Z.land (Z.shiftr op 32) 0xfff.
Definition op_mem_idx (op : Z) : Z := Z.land (Z.shiftr op 44) 0xfff.
Definition op_mem_scale (op : Z) : Z := Z.land (Z.shiftr op 56) 0xf.
Definition op_reg_idx (op : Z) : Z := Z.land op 0xff.

Definition op_imm_n (imm immsz : Z) : bool :=
  ((immsz =? 0) && (imm =? 0)) || ((immsz =? 1) && (swrap 8 imm =? imm)) || ((immsz =? 2) && (swrap 16 imm =? imm)) ||
  ((immsz =? 3) && (Z.land imm 0xffffff =? imm)) || ((immsz =? 4) && (s32 imm =? imm)) || ((immsz =? 8) && (s64 imm =? imm)).

(** ** Prefixes and opcode *)

Definition is_vex3 (opc : Z) : bool := negb (Z.land opc OPC_LONG_VEX =? OPC_0F).

Definition opc_size (opc : Z) : Z :=
  1 +
  (if has opc OPC_VEX then if is_vex3 opc then 3 else 2
   else
     Z.b2z (has opc OPC_LOCK) + Z.b2z (has opc OPC_66) + Z.b2z (has opc OPC_F2) + Z.b2z (has opc OPC_F3) + Z.b2z (has opc OPC_ANY_REX) +
     Z.b2z (has opc OPC_ESCAPE_MSK) +
     Z.b2z ((Z.land opc OPC_ESCAPE_MSK =? OPC_0F38) || (Z.land opc OPC_ESCAPE_MSK =? OPC_0F3A))) +
  Z.b2z (has opc OPC_SEG_MSK) + Z.b2z (has opc OPC_67) + Z.b2z (Z.land opc 0xc000 =? 0xc000).

(** A byte that is only there under a condition. *)
Definition emit (c : bool) (x : Z) : list Z := if c then [x] else [].

Definition vex_pp (opc : Z) : Z := if has opc OPC_F2 then 3 else if has opc OPC_F3 then 2 else if has opc OPC_66 then 1 else 0.

Definition vex_b1 (opc : Z) : Z :=
  Z.lor (Z.lor (Z.lor (Z.shiftr (Z.land opc OPC_ESCAPE_MSK) 16) (bit_if (negb (has opc OPC_REXR)) 0x80))
           (bit_if (negb (has opc OPC_REXX)) 0x40)) (bit_if (negb (has opc OPC_REXB)) 0x20).

Definition vex_b2 (opc : Z) : Z :=
  let b2 := Z.lor (vex_pp opc) (bit_if (has opc OPC_VEXL) 0x4) in
  let b2 := if is_vex3 opc then Z.lor b2 (bit_if (has opc OPC_REXW) 0x80) else Z.lor b2 (bit_if (negb (has opc OPC_REXR)) 0x80) in
  Z.lor b2 (Z.shiftl (Z.land (Z.lnot (Z.shiftr (Z.land opc OPC_VEXOP_MSK) OPC_VEXOP_IDX)) 0xf) 3).

Definition vex_bytes (opc : Z) : list Z :=
  let vex3 := is_vex3 opc in [Z.lor 0xc4 (Z.b2z (negb vex3))] ++ emit vex3 (vex_b1 opc) ++ [vex_b2 opc].

Definition rex_byte (opc : Z) : Z :=
  Z.lor (Z.lor (Z.lor (Z.lor 0x40 (bit_if (has opc OPC_REXW) 8)) (bit_if (has opc OPC_REXR) 4)) (bit_if (has opc OPC_REXX) 2))
    (bit_if (has opc OPC_REXB) 1).

Definition legacy_bytes (opc : Z) : list Z :=
  emit (has opc OPC_LOCK) 0xf0 ++ emit (has opc OPC_66) 0x66 ++ emit (has opc OPC_F2) 0xf2 ++ emit (has opc OPC_F3) 0xf3 ++
  emit (has opc OPC_ANY_REX) (rex_byte opc) ++ emit (has opc OPC_ESCAPE_MSK) 0x0f ++
  emit (Z.land opc OPC_ESCAPE_MSK =? OPC_0F38) 0x38 ++ emit (Z.land opc OPC_ESCAPE_MSK =? OPC_0F3A) 0x3a.

(** The buffer behind the prefixes and the opcode; never an error. *)
Definition enc_opc (buf : list Z) (opc : Z) : Z * list Z :=
  (0, buf ++ emit (has opc OPC_SEG_MSK) (Z.land (Z.shiftr 0x65643e362e2600 (8 * Z.land (Z.shiftr opc OPC_SEG_IDX) 7)) 0xff) ++
        emit (has opc OPC_67) 0x67 ++ (if has opc OPC_VEX then vex_bytes opc else legacy_bytes opc) ++ [Z.land opc 0xff] ++
        emit (Z.land opc 0xc000 =? 0xc000) (Z.land (Z.shiftr opc 8) 0xff)).

Definition enc_imm (buf : list Z) (imm immsz : Z) : Z * list Z :=
  if negb (op_imm_n imm immsz) then (-1, buf)
  else (0, buf ++ map (fun i => u8 (Z.shiftr imm (8 * Z.of_nat i))) (seq 0 (Z.to_nat immsz))).

(** The register goes into the last byte. *)
Definition enc_o (buf : list Z) (opc op0 : Z) : Z * list Z :=
  let opc := if has (op_reg_idx op0) 0x8 then Z.lor opc OPC_REXB else opc in
  if has opc OPC_ANY_REX && op_reg_gph op0 then (-1, buf)
  else
    let '(ret, buf) := enc_opc buf opc in
    if negb (ret =? 0) then (-1, buf)
    else (0, alter (fun x => Z.lor (Z.land x 0xf8) (Z.land (op_reg_idx op0) 0x7)) (length buf - 1)%nat buf).

(** ** ModR/M *)

(** What the operand puts into the ModR/M and SIB bytes. *)
Record Form := mkForm { m_mod : Z; m_rm : Z; m_scale : Z; m_idx : Z; m_base : Z; m_off : Z; mod0off : bool }.

(** The index register: [idx], [scale] and whether there is an SIB byte. *)
Definition mem_index (opc op0 : Z) : option (Z * Z * bool) :=
  let idx := op_mem_idx op0 in
  let scalabs := op_mem_scale op0 in
  if negb (eqb (negb (idx =? 0)) (negb (scalabs =? 0))) then None
  else if (idx =? 0) && has opc OPC_VSIB then None
  else if negb (idx =? 0) then
    if has opc OPC_VSIB && negb (op_reg_xmm idx) then None
    else if negb (has opc OPC_VSIB) && (negb (op_reg_gpl idx) || (op_reg_idx idx =? 4)) then None
    else if has scalabs (scalabs - 1) then None
    else Some (Z.land idx 7, Z.lor (bit_if (has scalabs 0xa) 1) (bit_if (has scalabs 0xc) 2), true)
  else Some (4, 0, false).

(** The base register: [rm], [mod], [off], [mod0off] and [withsib]. *)
Definition mem_base (opcsz immsz op0 : Z) (withsib : bool) : option (Z * Z * Z * bool * bool) :=
  let base := op_mem_base op0 in
  let off := op_mem_offset op0 in
  if base =? 0 then Some (5, 0, off, true, true)
  else if base =? FE_IP then if withsib then None else Some (5, 0, s32 (off - (opcsz + 5 + immsz)), true, false)
  else if negb (op_reg_gpl base) then None
  else let rm := Z.land (op_reg_idx base) 7 in Some (rm, if rm =? 5 then 1 else 0, off, false, withsib).

Definition mem_form (opc opcsz immsz op0 : Z) : option Form :=
  '(idx, scale, withsib) ← mem_index opc op0;
  '(rm, mod_, off, mod0off, withsib) ← mem_base opcsz immsz op0 withsib;
  let mod_ :=
    if negb (off =? 0) && op_imm_n off 1 && negb mod0off then 1 else if negb (off =? 0) && negb mod0off then 2 else mod_ in
  if withsib || (rm =? 4) then Some (mkForm mod_ 4 scale idx rm off mod0off) else Some (mkForm mod_ rm scale idx 0 off mod0off).

(** The flags for the high halves of the registers. *)
Definition mr_opc (opc op0 op1 : Z) : Z :=
  let opc := if op_reg op0 && has (op_reg_idx op0) 0x8 then Z.lor opc OPC_REXB else opc in
  let opc := if op_mem op0 && has (op_mem_base op0) 0x8 then Z.lor opc OPC_REXB else opc in
  let opc := if op_mem op0 && has (op_mem_idx op0) 0x8 then Z.lor opc OPC_REXX else opc in
  if op_reg op1 && has (op_reg_idx op1) 0x8 then Z.lor opc OPC_REXR else opc.

Definition has_sib (f : Form) : bool := negb (m_mod f =? 3) && (m_rm f =? 4).
Definition disp_size (f : Form) : Z := if m_mod f =? 1 then 1 else if (m_mod f =? 2) || mod0off f then 4 else 0.

Definition enc_mr (buf : list Z) (opc op0 op1 immsz : Z) : Z * list Z :=
  let opc := mr_opc opc op0 op1 in
  if has opc OPC_ANY_REX && (op_reg_gph op0 || op_reg_gph op1) then (-1, buf)
  else
    let opcsz := opc_size opc in
    let reg := Z.land op1 7 in
    match (if op_reg op0 then Some (mkForm 3 (Z.land (op_reg_idx op0) 7) 0 4 0 0 false) else mem_form opc opcsz immsz op0) with
    | None => (-1, buf)
    | Some f =>
        if 15 <? opcsz + 1 + Z.b2z (has_sib f) + disp_size f + immsz then (-1, buf)
        else
          let '(ret, buf) := enc_opc buf opc in
          if negb (ret =? 0) then (-1, buf)
          else
            let buf := buf ++ [Z.lor (Z.lor (Z.shiftl (m_mod f) 6) (Z.shiftl reg 3)) (m_rm f)] in
            let buf := buf ++ emit (has_sib f) (Z.lor (Z.lor (Z.shiftl (m_scale f) 6) (Z.shiftl (m_idx f) 3)) (m_base f)) in
            enc_imm buf (m_off f) (disp_size f)
    end.

(** ** Descriptions *)

Inductive Encoding :=
  | ENC_INVALID | ENC_NP | ENC_M | ENC_M1 | ENC_MI | ENC_MC | ENC_MR | ENC_RM | ENC_RMA | ENC_MRI | ENC_RMI | ENC_MRC | ENC_AM | ENC_MA
  | ENC_I | ENC_IA | ENC_O | ENC_OI | ENC_OA | ENC_S | ENC_A | ENC_D | ENC_FD | ENC_TD
  | ENC_RVM | ENC_RVMI | ENC_RVMR | ENC_RMV | ENC_VM | ENC_VMI | ENC_MVR | ENC_MRV.
#[global] Instance Encoding_eq_dec : EqDecision Encoding.
Proof. solve_decision. Defined.

Record EncodingInfo := mkInfo {
  i_modrm : Z; i_modreg : Z; i_vexreg : Z; i_immidx : Z; i_immctl : Z; i_zregidx : Z; i_zregval : Z }.

(** Indices of operands are stored inverted, 0 for none; not those of immediates. *)
Definition encoding_infos (e : Encoding) : EncodingInfo :=
  match e with
  | ENC_INVALID | ENC_NP | ENC_S => mkInfo 0 0 0 0 0 0 0
  | ENC_M => mkInfo 3 0 0 0 0 0 0
  | ENC_M1 => mkInfo 3 0 0 1 1 0 0
  | ENC_MI => mkInfo 3 0 0 1 4 0 0
  | ENC_MC => mkInfo 3 0 0 0 0 2 1
  | ENC_MR => mkInfo 3 2 0 0 0 0 0
  | ENC_RM => mkInfo 2 3 0 0 0 0 0
  | ENC_RMA => mkInfo 2 3 0 0 0 1 0
  | ENC_MRI => mkInfo 3 2 0 2 4 0 0
  | ENC_RMI => mkInfo 2 3 0 2 4 0 0
  | ENC_MRC => mkInfo 3 2 0 0 0 1 1
  | ENC_AM => mkInfo 2 0 0 0 0 3 0
  | ENC_MA => mkInfo 3 0 0 0 0 2 0
  | ENC_I => mkInfo 0 0 0 0 4 0 0
  | ENC_IA => mkInfo 0 0 0 1 4 3 0
  | ENC_O => mkInfo 0 3 0 0 0 0 0
  | ENC_OI => mkInfo 0 3 0 1 4 0 0
  | ENC_OA => mkInfo 0 3 0 0 0 2 0
  | ENC_A => mkInfo 0 0 0 0 0 3 0
  | ENC_D => mkInfo 0 0 0 0 6 0 0
  | ENC_FD => mkInfo 0 0 0 1 2 3 0
  | ENC_TD => mkInfo 0 0 0 0 2 2 0
  | ENC_RVM => mkInfo 1 3 2 0 0 0 0
  | ENC_RVMI => mkInfo 1 3 2 3 4 0 0
  | ENC_RVMR => mkInfo 1 3 2 3 3 0 0
  | ENC_RMV => mkInfo 2 3 1 0 0 0 0
  | ENC_VM => mkInfo 2 0 3 0 0 0 0
  | ENC_VMI => mkInfo 2 0 3 2 4 0 0
  | ENC_MVR => mkInfo 3 1 2 0 0 0 0
  | ENC_MRV => mkInfo 3 2 1 0 0 0 0
  end.

Record EncodeDesc := mkEDesc { d_opc : Z; d_enc : Encoding; d_immsz : Z; d_alt : Z; d_tys : Z }.

(** The generated table, and the number of mnemonics. *)
Record FeTables := mkFe { enc_descs : Z -> EncodeDesc; FE_MNEM_MAX : Z }.

(** ** Trying a description *)

(** [goto next], [goto fail] with what was written, or success. *)
Inductive Attempt := Next | Fail (buf : list Z) | Done (buf : list Z).

(** One operand against the type the description asks for; it may need REX. *)
Definition check_op (ty op opc : Z) : option Z :=
  if ty =? 0x0 then Some opc
  else if (ty =? 0xf) && negb (op_mem op) then None
  else if (ty =? 0x1) && negb (op_reg_gpl op) then None
  else if (ty =? 0x2) && negb (op_reg_gpl op) && negb (op_reg_gph op) then None
  else
    let opc := if (ty =? 0x2) && op_reg_gpl op && (FE_SP <=? op) then Z.lor opc OPC_REX else opc in
    if (ty =? 0x3) && negb (op_reg_seg op) then None
    else if (ty =? 0x4) && negb (op_reg_fpu op) then None
    else if (ty =? 0x5) && negb (op_reg_mmx op) then None
    else if (ty =? 0x6) && negb (op_reg_xmm op) then None
    else if (7 <=? ty) && (ty <? 0xf) then None
    else Some opc.

Fixpoint check_ops (tys i : Z) (ops : list Z) (opc : Z) : option Z :=
  match ops with
  | [] => Some opc
  | op :: ops' => opc ← check_op (Z.land (Z.shiftr tys (4 * i)) 0xf) op opc; check_ops tys (i + 1) ops' opc
  end.

Definition nth_op (ops : list Z) (i : Z) : Z := default 0 (ops !! Z.to_nat i).

(** The immediate and its size. *)
Definition fe_imm (desc : EncodeDesc) (ei : EncodingInfo) (mnem buf opc : Z) (ops : list Z) : option (Z * Z) :=
  let immsz := d_immsz desc in
  if 0 <? i_immctl ei then
    let imm := nth_op ops (i_immidx ei) in
    let immsz := if i_immctl ei =? 2 then if has mnem FE_ADDR32 then 4 else 8 else immsz in
    let imm := if (i_immctl ei =? 2) && (immsz =? 4) then s32 imm else imm in
    let imm := if i_immctl ei =? 3 then Z.shiftl (op_reg_idx imm) 4 else imm in
    if (i_immctl ei =? 6) && has mnem FE_JMPL && negb (d_alt desc =? 0) then None
    else
      let imm := if i_immctl ei =? 6 then s64 (imm - (buf + opc_size opc + immsz)) else imm in
      if (i_immctl ei =? 1) && negb (imm =? 1) then None
      else if (2 <=? i_immctl ei) && negb (op_imm_n imm immsz) then None
      else Some (imm, immsz)
  else Some (0xcc, immsz).

(** The flags from the mnemonic, and the segment register of [push] and [pop]. *)
Definition fe_flags (desc : EncodeDesc) (mnem op0 opc : Z) : option Z :=
  let opc := if has mnem FE_ADDR32 then Z.lor opc OPC_67 else opc in
  let opc := if has mnem FE_SEG_MASK then Z.lor opc (Z.shiftl (Z.land mnem FE_SEG_MASK) (OPC_SEG_IDX - 16)) else opc in
  if bool_decide (d_enc desc = ENC_S) then
    if negb (Z.land (Z.shiftl (op_reg_idx op0) 3) 0x20 =? Z.land opc 0x20) then None else Some (Z.lor opc (Z.shiftl (op_reg_idx op0) 3))
  else Some opc.

(** The bytes of the instruction at address [buf], for a description that fits. *)
Definition fe_write (ei : EncodingInfo) (opc imm immsz : Z) (ops : list Z) : Attempt :=
  let '(ret, out) :=
    if negb (i_modrm ei =? 0) then
      let modreg := if negb (i_modreg ei =? 0) then nth_op ops (Z.lxor (i_modreg ei) 3) else Z.shiftr (Z.land opc 0xff00) 8 in
      enc_mr [] opc (nth_op ops (Z.lxor (i_modrm ei) 3)) modreg immsz
    else if negb (i_modreg ei =? 0) then enc_o [] opc (nth_op ops (Z.lxor (i_modreg ei) 3))
    else enc_opc [] opc in
  if negb (ret =? 0) then Fail out
  else if 2 <=? i_immctl ei then
    let '(ret, out) := enc_imm out imm immsz in if negb (ret =? 0) then Fail out else Done out
  else Done out.

(** One turn of the loop, at the address [buf]. *)
Definition fe_attempt (desc : EncodeDesc) (mnem buf : Z) (ops : list Z) : Attempt :=
  let ei := encoding_infos (d_enc desc) in
  if bool_decide (d_enc desc = ENC_INVALID) then Fail []
  else if negb (i_zregidx ei =? 0) && negb (op_reg_idx (nth_op ops (Z.lxor (i_zregidx ei) 3)) =? i_zregval ei) then Next
  else
    match (opc ← check_ops (d_tys desc) 0 ops (d_opc desc);
           opc ← fe_flags desc mnem (nth_op ops 0) opc;
           '(imm, immsz) ← fe_imm desc ei mnem buf opc ops;
           Some (opc, imm, immsz)) with
    | None => Next
    | Some (opc, imm, immsz) =>
        if (Z.land (d_opc desc) (Z.lnot 7) =? 0x90) && (nth_op ops 0 =? FE_AX) then Next
        else
          let opc := if negb (i_vexreg ei =? 0) then Z.lor opc (Z.shiftl (op_reg_idx (nth_op ops (Z.lxor (i_vexreg ei) 3))) OPC_VEXOP_IDX) else opc in
          fe_write ei opc imm immsz ops
    end.

(** The return value, the new [*buf], and the bytes written from the old one. *)
Record EncResult := mkEnc { e_ret : Z; e_buf : Z; e_out : list Z }.

Section Encode.
Context (T : FeTables) (mnem buf : Z) (ops : list Z).

(** The loop over the alternatives; [None] when the fuel runs out. *)
Fixpoint fe_loop (fuel : nat) (desc_idx : Z) : option EncResult :=
  match fuel with
  | O => None
  | S fuel =>
      let desc := enc_descs T desc_idx in
      match fe_attempt desc mnem buf ops with
      | Done out => Some (mkEnc 0 (buf + Z.of_nat (length out)) out)
      | Fail out => Some (mkEnc (-1) buf out)
      | Next => if negb (d_alt desc =? 0) then fe_loop fuel (d_alt desc) else Some (mkEnc (-1) buf [])
      end
  end.

Definition fe_enc64_impl (fuel : nat) : option EncResult :=
  let desc_idx := Z.land mnem FE_MNEM_MASK in
  if FE_MNEM_MAX T <=? desc_idx then Some (mkEnc (-1) buf []) else fe_loop fuel desc_idx.
End Encode.
