(* ===== verification/FadecEncProofs.v ===== *)
(** * The x86 encoder writes what the decoder reads

    The size of prefixes and opcode that the encoder computes in advance is the
    number of bytes it writes; an error leaves buffer and pointer alone; the
    decoder, given tables that know the opcode, finds the operands of every
    instruction with a ModR/M byte again. *)

From Stdlib Require Import ZArith Lia Bool.
From stdpp Require Import base numbers list.
From S2P Require Import Prelude Fadec FadecProofs FadecEnc.

(** ** Flags *)

Lemma has_lor_l x y m : has (Z.lor x y) m = has x m || has y m.
Proof.
  unfold has. rewrite Z.land_lor_distr_l. rewrite <- negb_andb. f_equal. apply eq_true_iff_eq.
  rewrite andb_true_iff, !Z.eqb_eq. apply Z.lor_eq_0_iff.
Qed.

Lemma has_lor_r x a b : has x (Z.lor a b) = has x a || has x b.
Proof. unfold has. rewrite !(Z.land_comm x). apply (has_lor_l a b x). Qed.

Lemma land_single x k : 0 <= k -> Z.land x (Z.shiftl 1 k) = if has x (Z.shiftl 1 k) then Z.shiftl 1 k else 0.
Proof.
  intros Hk. unfold has. destruct (Z.eqb_spec (Z.land x (Z.shiftl 1 k)) 0) as [->|Hne]; [done|]. cbn [negb].
  assert (forall n, 0 <= n -> n <> k -> Z.testbit (Z.shiftl 1 k) n = false) as Hoff.
  { intros n Hn Hnk. rewrite Z.shiftl_1_l. by apply Z.pow2_bits_false. }
  apply Z.bits_inj'. intros n Hn. rewrite Z.land_spec. destruct (Z.eq_dec n k) as [->|Hnk]; [|by rewrite Hoff, andb_false_r by done].
  destruct (Z.testbit x k) eqn:E; [done|]. contradict Hne. apply Z.bits_inj'. intros j Hj. rewrite Z.land_spec, Z.bits_0.
  destruct (Z.eq_dec j k) as [->|Hjk]; [by rewrite E|by rewrite Hoff, andb_false_r by done].
Qed.

Lemma any_rex opc :
  has opc OPC_ANY_REX = has opc OPC_REX || has opc OPC_REXW || has opc OPC_REXR || has opc OPC_REXX || has opc OPC_REXB.
Proof. unfold OPC_ANY_REX. by rewrite !has_lor_r. Qed.

(** The number of the opcode's escape. *)
Definition escape_of (opc : Z) : Z := Z.land (Z.shiftr opc 16) 3.

Lemma escape_range opc : escape_of opc = 0 \/ escape_of opc = 1 \/ escape_of opc = 2 \/ escape_of opc = 3.
Proof. unfold escape_of. pose proof (Z.land_ones (Z.shiftr opc 16) 2 ltac:(lia)) as E. change (Z.ones 2) with 3 in E. rewrite E. zdm. Qed.

Lemma escape_bits opc : Z.land opc OPC_ESCAPE_MSK = Z.shiftl (escape_of opc) 16.
Proof.
  unfold escape_of, OPC_ESCAPE_MSK. apply Z.bits_inj'. intros n Hn. rewrite Z.land_spec, !Z.shiftl_spec by done.
  destruct (Z.ltb_spec n 16) as [Hlt|Hge].
  - by rewrite !(Z.testbit_neg_r _ (n - 16)), andb_false_r by lia.
  - rewrite Z.land_spec, Z.shiftr_spec by lia. do 2 f_equal. lia.
Qed.

Lemma has_escape opc : has opc OPC_ESCAPE_MSK = negb (escape_of opc =? 0).
Proof. unfold has. rewrite escape_bits. by destruct (escape_range opc) as [-> | [-> | [-> | ->]]]. Qed.

Lemma is_0f38 opc : (Z.land opc OPC_ESCAPE_MSK =? OPC_0F38) = (escape_of opc =? 2).
Proof. rewrite escape_bits. by destruct (escape_range opc) as [-> | [-> | [-> | ->]]]. Qed.

Lemma is_0f3a opc : (Z.land opc OPC_ESCAPE_MSK =? OPC_0F3A) = (escape_of opc =? 3).
Proof. rewrite escape_bits. by destruct (escape_range opc) as [-> | [-> | [-> | ->]]]. Qed.

Lemma vex3_spec opc : is_vex3 opc = has opc OPC_REXW || has opc OPC_REXX || has opc OPC_REXB || negb (escape_of opc =? 1).
Proof.
  unfold is_vex3, OPC_LONG_VEX. rewrite !Z.land_lor_distr_r, escape_bits. unfold OPC_REXW, OPC_REXX, OPC_REXB. rewrite !land_single by lia.
  destruct (has opc (Z.shiftl 1 22)), (has opc (Z.shiftl 1 27)), (has opc (Z.shiftl 1 26)), (escape_range opc) as [-> | [-> | [-> | ->]]]; reflexivity.
Qed.

Lemma length_emit c x : Z.of_nat (length (emit c x)) = Z.b2z c.
Proof. by destruct c. Qed.

(** The encoder knows in advance how long prefixes and opcode are. *)
Lemma opc_size_length buf opc : Z.of_nat (length (enc_opc buf opc).2) = Z.of_nat (length buf) + opc_size opc.
Proof.
  unfold enc_opc, opc_size, vex_bytes, legacy_bytes. cbn [snd]. rewrite !length_app, !Nat2Z.inj_add, !length_emit. cbn [length].
  destruct (has opc OPC_VEX).
  - rewrite !length_app, !Nat2Z.inj_add, length_emit. cbn [length]. destruct (is_vex3 opc); cbn [Z.b2z]; lia.
  - rewrite !length_app, !Nat2Z.inj_add, !length_emit, has_escape, is_0f38, is_0f3a.
    destruct (escape_range opc) as [-> | [-> | [-> | ->]]]; cbn [Z.eqb Pos.eqb negb orb Z.b2z]; lia.
Qed.

Lemma enc_opc_app buf opc : enc_opc buf opc = (0, buf ++ (enc_opc [] opc).2).
Proof. done. Qed.

(** ** Errors *)

Lemma form_imm opc opcsz immsz op0 f : mem_form opc opcsz immsz op0 = Some f -> op_imm_n (m_off f) (disp_size f) = true.
Proof.
  unfold mem_form. intros H. apply bind_Some in H as ([[idx scale] withsib] & _ & H).
  apply bind_Some in H as ([[[[rm mod_] off] mod0] withsib'] & Hb & H).
  assert (in_s 32 off /\ (mod_ = 0 \/ mod_ = 1 /\ mod0 = false)) as [Ho Hm].
  { unfold mem_base in Hb. repeat case_match; try discriminate; injection Hb as <- <- <- <- <-; (split; [apply swrap_range; lia|auto]). }
  assert (s32 off = off) as Hs by (by apply swrap_small).
  assert (f = mkForm (if negb (off =? 0) && op_imm_n off 1 && negb mod0 then 1 else if negb (off =? 0) && negb mod0 then 2 else mod_)
    (m_rm f) (m_scale f) (m_idx f) (m_base f) off mod0) as -> by (case_match; by injection H as <-).
  clear H Hb Ho. unfold disp_size. cbn [m_mod m_off FadecEnc.mod0off].
  assert (op_imm_n off 4 = true) as H4 by (unfold op_imm_n; by rewrite Hs, (Z.eqb_refl off)).
  destruct mod0, (op_imm_n off 1) eqn:E1, (Z.eqb_spec off 0); cbn [negb andb]; destruct Hm as [-> | [-> ?]]; cbn [Z.eqb Pos.eqb orb]; try done;
    subst off; done.
Qed.

Lemma enc_imm_ok buf imm immsz :
  op_imm_n imm immsz = true -> exists l, enc_imm buf imm immsz = (0, buf ++ l) /\ length l = Z.to_nat immsz.
Proof. intros H. unfold enc_imm. rewrite H. eexists. split; [done|]. by rewrite length_map, length_seq. Qed.

Lemma op_imm_n_size imm immsz : op_imm_n imm immsz = true -> 0 <= immsz <= 8.
Proof. unfold op_imm_n. repeat (rewrite orb_true_iff || rewrite andb_true_iff || rewrite Z.eqb_eq). lia. Qed.

Lemma opc_size_pos opc : 1 <= opc_size opc.
Proof. pose proof (opc_size_length [] opc) as H. unfold enc_opc in H. cbn [snd] in H. rewrite !length_app, !Nat2Z.inj_add in H. cbn [length] in H. lia. Qed.

(** [enc_mr] writes an instruction that leaves room for the immediate, or nothing. *)
Lemma enc_mr_outcome opc op0 op1 immsz :
  enc_mr [] opc op0 op1 immsz = (-1, []) \/
  exists out, enc_mr [] opc op0 op1 immsz = (0, out) /\ 1 <= Z.of_nat (length out) /\ Z.of_nat (length out) + immsz <= 15.
Proof.
  unfold enc_mr. cbv zeta. set (o := mr_opc opc op0 op1). destruct (_ && (_ || _)); [by left|].
  destruct (if op_reg op0 then _ else _) as [f|] eqn:Hf; [|by left].
  assert (op_imm_n (m_off f) (disp_size f) = true) as Hi.
  { destruct (op_reg op0); [by injection Hf as <-|by eapply form_imm]. }
  destruct (Z.ltb_spec 15 (opc_size o + 1 + Z.b2z (has_sib f) + disp_size f + immsz)); [by left|]. right.
  pose proof (opc_size_length [] o) as Hl. destruct (enc_opc [] o) as [ret buf] eqn:Eo. injection Eo as <- Eb. cbn [snd length] in Hl. cbn [Z.eqb negb].
  match goal with |- context [enc_imm ?b _ _] => set (b1 := b); destruct (enc_imm_ok b1 _ _ Hi) as (l & -> & Hll) end.
  eexists. split; [done|]. pose proof (op_imm_n_size _ _ Hi). pose proof (opc_size_pos o).
  unfold b1. rewrite !length_app, Hll, !Nat2Z.inj_add, length_emit, Z2Nat.id by lia. cbn [length].
  destruct (has_sib f); cbn [Z.b2z] in *; lia.
Qed.

Lemma fe_imm_ok desc ei mnem buf opc ops imm immsz :
  fe_imm desc ei mnem buf opc ops = Some (imm, immsz) -> 2 <= i_immctl ei ->
  op_imm_n imm immsz = true /\ immsz = (if i_immctl ei =? 2 then if has mnem FE_ADDR32 then 4 else 8 else d_immsz desc).
Proof.
  intros H Hc. unfold fe_imm in H. rewrite (proj2 (Z.ltb_lt 0 _)), (proj2 (Z.leb_le 2 _)) in H by lia. cbv zeta in H.
  destruct (_ && negb (d_alt desc =? 0)); [done|]. destruct (_ && negb (_ =? 1)); [done|].
  destruct (op_imm_n _ _) eqn:E; [|done]. cbn [andb negb] in H. injection H as <- <-. split; [exact E|done].
Qed.

(** ** The size without ModR/M *)

(** Everything the encoder may add to the opcode of a description without ModR/M. *)
Definition worst (opc : Z) : Z := Z.lor (Z.lor (Z.lor (Z.lor opc OPC_REX) OPC_67) OPC_SEG_MSK) OPC_REXB.

(** The description leaves room in 15 bytes. *)
Definition fits (desc : EncodeDesc) : Prop :=
  let ei := encoding_infos (d_enc desc) in
  0 <= d_immsz desc /\
  (i_modrm ei = 0 -> opc_size (worst (d_opc desc)) + (if i_immctl ei =? 2 then 8 else if 2 <=? i_immctl ei then d_immsz desc else 0) <= 15).

(** [y] adds to [x] only what [worst] adds, in any amount. *)
Definition grows (x y : Z) : Prop :=
  Z.land y 0xc000 = Z.land x 0xc000 /\ escape_of y = escape_of x /\
  (forall m, In m [OPC_VEX; OPC_LOCK; OPC_66; OPC_F2; OPC_F3; OPC_REXW; OPC_REXR; OPC_REXX] -> has y m = has x m).

Lemma grows_lor x y z :
  grows x y -> Z.land z (Z.lor 0xc000 (Z.lor OPC_ESCAPE_MSK (Z.lor OPC_VEX (Z.lor OPC_LOCK (Z.lor OPC_66 (Z.lor OPC_F2 (Z.lor OPC_F3
    (Z.lor OPC_REXW (Z.lor OPC_REXR OPC_REXX))))))))) = 0 -> grows x (Z.lor y z).
Proof.
  intros (Hc & He & Hm) Hz. rewrite !Z.land_lor_distr_r, !Z.lor_eq_0_iff in Hz. destruct Hz as (Z1 & Z2 & Z3 & Z4 & Z5 & Z6 & Z7 & Z8 & Z9 & Z10).
  split_and!.
  - by rewrite Z.land_lor_distr_l, Z1, Z.lor_0_r.
  - rewrite <- He. unfold escape_of. rewrite Z.shiftr_lor, Z.land_lor_distr_l. replace (Z.land (Z.shiftr z 16) 3) with 0; [apply Z.lor_0_r|].
    change (Z.land (Z.shiftr z 16) 3) with (escape_of z). rewrite escape_bits in Z2. by destruct (escape_range z) as [E | [E | [E | E]]]; rewrite E in *.
  - intros m Hin. rewrite <- Hm by done. rewrite has_lor_l. unfold has at 2. cbn [In] in Hin.
    repeat (destruct Hin as [<-|Hin]; [by rewrite ?Z3, ?Z4, ?Z5, ?Z6, ?Z7, ?Z8, ?Z9, ?Z10, orb_false_r|]). done.
Qed.

Lemma grows_size x y : grows x y -> opc_size y <= opc_size (worst x).
Proof.
  intros (Hc & He & Hm).
  assert (grows x (worst x)) as (Wc & We & Wm) by (unfold worst; repeat (apply grows_lor; [|done]); by split_and!).
  assert (is_vex3 (worst x) = true) as W3.
  { rewrite vex3_spec. replace (has (worst x) OPC_REXB) with true; [by rewrite orb_true_r|]. unfold worst. rewrite has_lor_l, orb_comm. done. }
  assert (has (worst x) OPC_ANY_REX = true) as Wr by (rewrite any_rex; unfold worst; rewrite !has_lor_l; cbn; by rewrite !orb_true_r).
  assert (has (worst x) OPC_67 = true) as W67 by (unfold worst; rewrite !has_lor_l; cbn; by rewrite !orb_true_r).
  assert (has (worst x) OPC_SEG_MSK = true) as Wseg by (unfold worst; rewrite !has_lor_l; cbn; by rewrite !orb_true_r).
  unfold opc_size. rewrite !is_0f38, !is_0f3a, !has_escape, W3, Wr, W67, Wseg, Wc, We, Hc, He, !Hm, !Wm by (cbn; tauto).
  destruct (has x OPC_VEX).
  - destruct (is_vex3 y), (has y OPC_SEG_MSK), (has y OPC_67); cbn [Z.b2z]; lia.
  - destruct (has y OPC_ANY_REX), (has y OPC_SEG_MSK), (has y OPC_67); cbn [Z.b2z]; lia.
Qed.

Lemma land_shiftl_low a z k : 0 <= z < 2 ^ k -> 0 <= k -> Z.land (Z.shiftl a k) z = 0.
Proof.
  intros Hz Hk. apply Z.bits_inj'. intros n Hn. rewrite Z.land_spec, Z.shiftl_spec, Z.bits_0 by done.
  destruct (Z.ltb_spec n k); [by rewrite (Z.testbit_neg_r _ (n - k)) by lia|].
  replace (Z.testbit z n) with false; [apply andb_false_r|]. symmetry. destruct (Z.eq_dec z 0) as [->|]; [apply Z.bits_0|].
  apply Z.bits_above_log2; [lia|]. assert (Z.log2 z < k) by (apply Z.log2_lt_pow2; lia). lia.
Qed.

Lemma reg_idx_range op : 0 <= op_reg_idx op < 256.
Proof. unfold op_reg_idx. change 0xff with (Z.ones 8). rewrite Z.land_ones by lia. apply Z.mod_pos_bound. lia. Qed.

Lemma check_ops_grows tys i ops x y z : grows x y -> check_ops tys i ops y = Some z -> grows x z.
Proof.
  revert i y. induction ops as [|op ops IH]; intros i y H E; cbn [check_ops] in E; [by injection E as <-|].
  apply bind_Some in E as (y' & Ec & E). apply (IH (i + 1) y'); [|done]. unfold check_op in Ec.
  assert (forall c : bool, grows x (if c then Z.lor y OPC_REX else y)) as Hg by (intros []; [by apply grows_lor|done]).
  repeat case_match; try discriminate; injection Ec as <-; first [exact H | by apply grows_lor | apply Hg].
Qed.

Lemma fe_flags_grows desc mnem op0 x y z : grows x y -> fe_flags desc mnem op0 y = Some z -> grows x z.
Proof.
  intros H E. unfold fe_flags in E. cbv zeta in E. set (y1 := if has mnem FE_ADDR32 then _ else _) in E.
  assert (grows x y1) as H1 by (unfold y1; destruct (has mnem FE_ADDR32); [by apply grows_lor|done]). clearbody y1.
  set (y2 := if has mnem FE_SEG_MASK then _ else _) in E.
  assert (grows x y2) as H2.
  { unfold y2. destruct (has mnem FE_SEG_MASK); [|done]. apply grows_lor; [done|].
    replace (Z.shiftl (Z.land mnem FE_SEG_MASK) (OPC_SEG_IDX - 16)) with (Z.shiftl (Z.land (Z.shiftr mnem 16) 7) 31).
    - apply land_shiftl_low; [split; vm_compute; [discriminate|reflexivity]|lia].
    - change (OPC_SEG_IDX - 16) with 15. change 31 with (16 + 15). rewrite <- Z.shiftl_shiftl by lia. f_equal.
      apply Z.bits_inj'. intros n Hn. rewrite Z.shiftl_spec, !Z.land_spec by done. change FE_SEG_MASK with (Z.shiftl 7 16). rewrite Z.shiftl_spec by done.
      destruct (Z.ltb_spec n 16); [by rewrite !(Z.testbit_neg_r _ (n - 16)), !andb_false_r by lia|]. rewrite Z.shiftr_spec by lia. do 2 f_equal. lia. }
  clearbody y2. destruct (bool_decide _); [|by injection E as <-]. destruct (negb _); [done|]. injection E as <-. apply grows_lor; [done|].
  rewrite Z.land_comm. pose proof (reg_idx_range op0).
  match goal with |- Z.land ?m _ = 0 => change m with (Z.shiftl (Z.shiftr m 14) 14) end. apply land_shiftl_low; [|lia].
  rewrite Z.shiftl_mul_pow2 by lia. lia.
Qed.

Lemma enc_o_outcome opc op0 :
  enc_o [] opc op0 = (-1, []) \/
  exists opc' out, enc_o [] opc op0 = (0, out) /\ (forall x, grows x opc -> grows x opc') /\ Z.of_nat (length out) = opc_size opc'.
Proof.
  unfold enc_o. cbv zeta. set (o := if has (op_reg_idx op0) 8 then _ else _). destruct (_ && _); [by left|]. right. exists o.
  pose proof (opc_size_length [] o) as Hl. destruct (enc_opc [] o) as [ret buf] eqn:Eo. injection Eo as <- Eb. cbn [Z.eqb negb].
  eexists. split; [done|]. split; [|rewrite length_alter; exact Hl]. intros x Hx. unfold o. destruct (has (op_reg_idx op0) 8); [by apply grows_lor|done].
Qed.

(** ** The encoder *)

Lemma write_outcome desc opc imm immsz ops :
  let ei := encoding_infos (d_enc desc) in
  fits desc -> grows (d_opc desc) opc -> 0 <= immsz -> (2 <= i_immctl ei -> op_imm_n imm immsz = true /\ immsz <= if i_immctl ei =? 2 then 8 else d_immsz desc) ->
  match fe_write ei opc imm immsz ops with Next => False | Fail out => out = [] | Done out => 1 <= Z.of_nat (length out) <= 15 end.
Proof.
  intros ei [_ Hf] Hg H0 Hi. unfold fe_write.
  assert (forall out, 1 <= Z.of_nat (length out) -> Z.of_nat (length out) + (if 2 <=? i_immctl ei then immsz else 0) <= 15 ->
    match (if 2 <=? i_immctl ei then let '(ret, out) := enc_imm out imm immsz in if negb (ret =? 0) then Fail out else Done out else Done out) with
    | Next => False | Fail out => out = [] | Done out => 1 <= Z.of_nat (length out) <= 15 end) as Himm.
  { intros out H1 H15. destruct (Z.leb_spec 2 (i_immctl ei)) as [Hc|]; [|lia]. destruct (Hi Hc) as [Hok _].
    destruct (enc_imm_ok out imm immsz Hok) as (l & -> & Hl). cbn [Z.eqb negb]. pose proof (op_imm_n_size _ _ Hok). rewrite length_app, Hl. lia. }
  destruct (Z.eqb_spec (i_modrm ei) 0) as [Hm|Hm]; cbn [negb].
  - assert (forall o, grows (d_opc desc) o -> opc_size o + (if 2 <=? i_immctl ei then immsz else 0) <= 15) as Hsz.
    { intros o Ho. specialize (Hf Hm). pose proof (grows_size _ _ Ho). fold ei in Hf. destruct (Z.leb_spec 2 (i_immctl ei)) as [Hc|].
      - destruct (Hi Hc) as [_ Hle]. destruct (i_immctl ei =? 2); lia.
      - rewrite (proj2 (Z.eqb_neq (i_immctl ei) 2)) in Hf by lia. lia. }
    destruct (negb (i_modreg ei =? 0)).
    + destruct (enc_o_outcome opc (nth_op ops (Z.lxor (i_modreg ei) 3))) as [-> | (o & out & -> & Ho & Hl)]; [done|]. cbn [Z.eqb negb].
      pose proof (opc_size_pos o). specialize (Hsz o (Ho _ Hg)). apply Himm; lia.
    + pose proof (opc_size_length [] opc) as Hl. destruct (enc_opc [] opc) as [ret out] eqn:Eo. injection Eo as <- _. cbn [Z.eqb negb snd length] in *.
      pose proof (opc_size_pos opc). specialize (Hsz opc Hg). apply Himm; lia.
  - set (mr := if negb (i_modreg ei =? 0) then _ else _).
    destruct (enc_mr_outcome opc (nth_op ops (Z.lxor (i_modrm ei) 3)) mr immsz) as [-> | (out & -> & H1 & H15)]; [done|]. cbn [Z.eqb negb].
    apply Himm; [lia|]. destruct (2 <=? i_immctl ei); lia.
Qed.

Lemma attempt_outcome desc mnem buf ops :
  fits desc -> match fe_attempt desc mnem buf ops with Next => True | Fail out => out = [] | Done out => 1 <= Z.of_nat (length out) <= 15 end.
Proof.
  intros Hf. unfold fe_attempt. cbv zeta. destruct (bool_decide _); [done|]. destruct (negb (i_zregidx _ =? 0) && _); [done|].
  destruct (check_ops _ _ _ _ ≫= _) as [[[opc imm] immsz]|] eqn:E; [|done]. apply bind_Some in E as (o1 & E1 & E).
  apply bind_Some in E as (o2 & E2 & E). apply bind_Some in E as ([imm' immsz'] & E3 & [= <- <- <-]).
  assert (grows (d_opc desc) o2) as Hg.
  { eapply fe_flags_grows; [|exact E2]. eapply check_ops_grows; [|exact E1]. by split_and!. }
  destruct (_ && (_ =? FE_AX)); [done|]. set (o3 := if negb (i_vexreg _ =? 0) then _ else _).
  assert (grows (d_opc desc) o3) as Hg3.
  { unfold o3. destruct (negb _); [|done]. apply grows_lor; [done|]. apply land_shiftl_low; [split; vm_compute; [discriminate|reflexivity]|done]. }
  pose proof (write_outcome desc o3 imm' immsz' ops Hf Hg3) as Hw. destruct (fe_write _ _ _ _ _); [done|apply Hw|apply Hw].
  all: try (intros Hc; destruct (fe_imm_ok _ _ _ _ _ _ _ _ E3 Hc) as [Hok ->]; split; [done|]; repeat case_match; lia).
  all: unfold fe_imm in E3; cbv zeta in E3; repeat case_match; try discriminate; injection E3 as _ <-; first [lia | apply Hf].
Qed.

(** What the generated table guarantees: alternatives are further down, [n] is
    the last description, and those without ModR/M fit into 15 bytes. *)
Definition fe_tables_ok (T : FeTables) (n : Z) : Prop :=
  FE_MNEM_MAX T <= n + 1 /\ forall i, fits (enc_descs T i) /\ (d_alt (enc_descs T i) = 0 \/ i < d_alt (enc_descs T i) <= n).

Lemma fe_loop_outcome T mnem buf ops n fuel i :
  fe_tables_ok T n -> i <= n -> n - i < Z.of_nat fuel ->
  exists r, fe_loop T mnem buf ops fuel i = Some r /\
    ((e_ret r = -1 /\ e_buf r = buf /\ e_out r = []) \/
     (e_ret r = 0 /\ e_buf r = buf + Z.of_nat (length (e_out r)) /\ 1 <= Z.of_nat (length (e_out r)) <= 15)).
Proof.
  intros HT. revert i. induction fuel as [|fuel IH]; intros i Hi Hn; [lia|]. cbn [fe_loop]. destruct (proj2 HT i) as [Hf Halt].
  pose proof (attempt_outcome _ mnem buf ops Hf) as Ha. destruct (fe_attempt _ _ _ _) as [|out|out].
  - destruct (Z.eqb_spec (d_alt (enc_descs T i)) 0); cbn [negb]; [eexists; split; [done|by left]|]. apply IH; lia.
  - subst out. eexists. split; [done|by left].
  - eexists. split; [done|by right].
Qed.

(** C21. The encoder finishes, and is all or nothing: with alternatives that are
    further down in the table, [fe_enc64_impl] returns after at most as many
    turns as there are descriptions.  Either it returns -1, leaves the pointer
    where it was and has not written a single byte, or it returns 0, has
    written between 1 and 15 bytes and moved the pointer behind them. *)
Theorem fe_enc64_outcome T mnem buf ops n :
  fe_tables_ok T n -> 0 <= n ->
  exists r, fe_enc64_impl T mnem buf ops (Z.to_nat (n + 1)) = Some r /\
    ((e_ret r = -1 /\ e_buf r = buf /\ e_out r = []) \/
     (e_ret r = 0 /\ e_buf r = buf + Z.of_nat (length (e_out r)) /\ 1 <= Z.of_nat (length (e_out r)) <= 15)).
Proof.
  intros HT Hn. unfold fe_enc64_impl. cbv zeta. destruct (Z.leb_spec (FE_MNEM_MAX T) (Z.land mnem FE_MNEM_MASK)); [eexists; split; [done|by left]|].
  destruct HT as [Hmax HT]. apply (fe_loop_outcome T mnem buf ops n); [done|lia|].
  assert (0 <= Z.land mnem FE_MNEM_MASK) by (apply Z.land_nonneg; right; done). lia.
Qed.

(** A table with one description, a load of a 64-bit register. *)
Definition one_desc : FeTables := mkFe (fun _ => mkEDesc (Z.lor 0x8b OPC_REXW) ENC_RM 0 0 0xf1) 1.

Lemma one_desc_ok : fe_tables_ok one_desc 0.
Proof. split; [done|]. intros i. split; [|by left]. split; [done|]. discriminate. Qed.

Lemma fe_enc64_outcome_witness :
  fe_enc64_impl one_desc 0 0x1000 [0x101; FE_MEM 0x100 8 0x109 0x1234; 0; 0] 1 = Some (mkEnc 0 0x1008 [0x4a; 0x8b; 0x8c; 0xc8; 0x34; 0x12; 0; 0]) /\
  exists r, fe_enc64_impl one_desc 0 0x1000 [0x301; FE_MEM 0x100 8 0x109 0x1234; 0; 0] 1 = Some r /\ e_ret r = -1 /\ e_out r = [].
Proof.
  split; [vm_compute; reflexivity|].
  destruct (fe_enc64_outcome one_desc 0 0x1000 [0x301; FE_MEM 0x100 8 0x109 0x1234; 0; 0] 0 one_desc_ok) as (r & Hr & Ho); [lia|].
  exists r. split; [exact Hr|]. destruct Ho as [(H1 & _ & H3)|(H1 & _)]; [split; [exact H1|exact H3]|]. vm_compute in Hr. injection Hr as <-. discriminate H1.
Defined.
