(* ===== verification/FadecRoundtrip.v ===== *)
(** * Encoding and decoding x86 instructions with a ModR/M byte

    [fd_decode] reads back what [enc_mr] wrote: prefixes or VEX, escape and
    opcode, and then the two operands, for every register and every memory
    operand the encoder accepts. *)

From Stdlib Require Import ZArith Lia Bool String.
From stdpp Require Import base numbers list.
From S2P Require Import Prelude Fadec FadecProofs FadecEnc FadecEncProofs.

Lemma rd_ret_bind {A B} (a : A) (f : A -> Rd B) : (mret a : Rd A) ≫= f = f a.
Proof. done. Qed.

Lemma rd_val_bind {A B} (a : A) (f : A -> Rd B) : RVal a ≫= f = f a.
Proof. done. Qed.

(** ** Bytes behind a known part of the buffer *)

Lemma byte_here pre x r k : k = Z.of_nat (length pre) -> byte_at (pre ++ x :: r) k = RVal x.
Proof.
  intros ->. unfold byte_at. rewrite Nat2Z.id, lookup_app_r, Nat.sub_diag by lia. cbn. by rewrite (proj2 (Z.leb_le 0 _)) by lia.
Qed.

Lemma need_here pre l r k n : k = Z.of_nat (length pre) -> n = Z.of_nat (length l) -> need (pre ++ l ++ r) k n = RVal tt.
Proof. intros -> ->. unfold need. rewrite (proj2 (Z.ltb_ge _ _)); [done|]. rewrite !length_app. lia. Qed.

Lemma need_one pre x r k : k = Z.of_nat (length pre) -> need (pre ++ x :: r) k 1 = RVal tt.
Proof. intros Hk. by apply (need_here pre [x] r). Qed.

Fixpoint le_val (l : list Z) : Z := match l with [] => 0 | x :: l' => Z.lor x (Z.shiftl (le_val l') 8) end.

Lemma load_here pre l r k : k = Z.of_nat (length pre) -> load_le (length l) (pre ++ l ++ r) k = RVal (le_val l).
Proof.
  revert pre k. induction l as [|x l IH]; intros pre k Hk; [done|]. cbn [length load_le app le_val]. rewrite (byte_here pre x (l ++ r)) by done. cbn [mbind Rd_bind].
  replace (pre ++ x :: l ++ r) with ((pre ++ [x]) ++ l ++ r) by (by rewrite <- app_assoc).
  rewrite IH; [done|]. rewrite length_app. cbn. lia.
Qed.

(** The bytes of an immediate, lowest first. *)
Definition le_bytes (v : Z) (n : nat) : list Z := map (fun i => u8 (Z.shiftr v (8 * Z.of_nat i))) (seq 0 n).

Lemma le_val_bytes v n : le_val (le_bytes v n) = wrap (8 * Z.of_nat n) v.
Proof.
  unfold le_bytes. enough (forall j, le_val (map (fun i => u8 (Z.shiftr v (8 * Z.of_nat i))) (seq j n)) = wrap (8 * Z.of_nat n) (Z.shiftr v (8 * Z.of_nat j))) as H.
  { by rewrite H, Z.shiftr_0_r. }
  induction n as [|n IH]; intros j; [cbn; unfold wrap; by rewrite Z.mod_1_r|]. cbn [seq map le_val]. rewrite IH.
  apply Z.bits_inj'. intros i Hi. rewrite Z.lor_spec, Z.shiftl_spec, !testbit_wrap, !Z.shiftr_spec by lia.
  destruct (Z.ltb_spec i 8) as [H8|H8].
  - rewrite (Z.testbit_neg_r _ (i - 8)) by lia. rewrite orb_false_r. rewrite (proj2 (Z.ltb_lt i (8 * Z.of_nat (S n)))) by lia. done.
  - rewrite andb_false_r, Z.shiftr_spec by lia. cbn [orb]. f_equal; [f_equal; lia|].
    destruct (Z.ltb_spec (i - 8) (8 * Z.of_nat n)), (Z.ltb_spec i (8 * Z.of_nat (S n))); (done || lia).
Qed.

Lemma swrap_le_val v n : (0 < n)%nat -> in_s (8 * Z.of_nat n) v -> swrap (8 * Z.of_nat n) (le_val (le_bytes v n)) = v.
Proof. intros Hn Hv. rewrite le_val_bytes. apply swrap_of_wrap; [lia|done]. Qed.

(** ** Fields of ModR/M and SIB *)

Definition three (a b c : Z) : Z := Z.lor (Z.lor (Z.shiftl a 6) (Z.shiftl b 3)) c.

Lemma three_fields a b c :
  0 <= a < 4 -> 0 <= b < 8 -> 0 <= c < 8 ->
  Z.land (three a b c) 0xc0 = Z.shiftl a 6 /\ Z.shiftr (Z.land (three a b c) 0x38) 3 = b /\ Z.land (three a b c) 7 = c.
Proof.
  intros Ha Hb Hc. 
  assert (forallb (fun a => forallb (fun b => forallb (fun c =>
      (Z.land (three a b c) 0xc0 =? Z.shiftl a 6) && (Z.shiftr (Z.land (three a b c) 0x38) 3 =? b) && (Z.land (three a b c) 7 =? c))
      [0; 1; 2; 3; 4; 5; 6; 7]) [0; 1; 2; 3; 4; 5; 6; 7]) [0; 1; 2; 3] = true) as H by (vm_compute; reflexivity).
  rewrite forallb_forall in H. specialize (H a ltac:(cbn; lia)). rewrite forallb_forall in H. specialize (H b ltac:(cbn; lia)).
  rewrite forallb_forall in H. specialize (H c ltac:(cbn; lia)). rewrite !andb_true_iff, !Z.eqb_eq in H. tauto.
Qed.

(** ** Registers *)

Lemma gpl_range x : 0 <= x -> op_reg_gpl x = true -> 0x100 <= x < 0x110.
Proof.
  unfold op_reg_gpl. intros H0 H. apply Z.eqb_eq in H. change 0xf with (Z.ones 4) in H. rewrite <- Z.ldiff_land, Z.ldiff_ones_r, Z.shiftl_mul_pow2, Z.shiftr_div_pow2 in H by lia.
  change (2 ^ 4) with 16 in H. zdm.
Qed.

(** The two parts of a register's number, and what the decoder makes of them. *)
Lemma gpl_parts x :
  0 <= x -> op_reg_gpl x = true ->
  0 <= op_reg_idx x < 16 /\ Z.land (op_reg_idx x) 7 = Z.land x 7 /\ 0 <= Z.land x 7 < 8 /\
  Z.land x 7 + bit_if (has x 8) 8 = op_reg_idx x /\ has (op_reg_idx x) 8 = has x 8.
Proof.
  intros H0 Hg. apply gpl_range in Hg; [|done].
  assert (forallb (fun x => (op_reg_idx x <? 16) && (Z.land (op_reg_idx x) 7 =? Z.land x 7) && (Z.land x 7 <? 8) &&
    (Z.land x 7 + bit_if (has x 8) 8 =? op_reg_idx x) && eqb (has (op_reg_idx x) 8) (has x 8)) (map (fun i => 0x100 + Z.of_nat i) (seq 0 16)) = true) as H
    by (vm_compute; reflexivity).
  rewrite forallb_forall in H. specialize (H x). rewrite in_map_iff in H.
  assert (exists i, 0x100 + Z.of_nat i = x /\ In i (seq 0 16)) as Hx by (exists (Z.to_nat (x - 0x100)); rewrite in_seq; lia). specialize (H Hx).
  rewrite !andb_true_iff, !Z.ltb_lt, !Z.eqb_eq, eqb_true_iff in H.
  assert (0 <= Z.land x 7) by (apply Z.land_nonneg; by right). pose proof (reg_idx_range x). tauto || lia.
Qed.

(** ** Memory operands *)

(** The operand the decoder is to report. *)
Definition base_of (op : Z) : Z :=
  if op_mem_base op =? 0 then FD_REG_NONE else if op_mem_base op =? FE_IP then FD_REG_IP else op_reg_idx (op_mem_base op).
Definition misc_of (op : Z) : Z :=
  if op_mem_idx op =? 0 then FD_REG_NONE else Z.lor (Z.shiftl (Z.log2 (op_mem_scale op)) 6) (op_reg_idx (op_mem_idx op)).

Lemma field_range x k n : 0 <= n -> 0 <= Z.land (Z.shiftr x k) (Z.ones n) < 2 ^ n.
Proof. intros Hn. rewrite Z.land_ones by done. apply Z.mod_pos_bound. lia. Qed.

Lemma scale_log s :
  0 <= s < 16 -> s <> 0 -> has s (s - 1) = false -> Z.lor (bit_if (has s 0xa) 1) (bit_if (has s 0xc) 2) = Z.log2 s /\ 0 <= Z.log2 s < 4.
Proof.
  intros Hs H0 Hp. assert (forallb (fun s => (s =? 0) || has s (s - 1) ||
    ((Z.lor (bit_if (has s 0xa) 1) (bit_if (has s 0xc) 2) =? Z.log2 s) && (Z.log2 s <? 4))) (map Z.of_nat (seq 0 16)) = true) as H by (vm_compute; reflexivity).
  rewrite forallb_forall in H. specialize (H s). rewrite in_map_iff in H.
  assert (exists i, Z.of_nat i = s /\ In i (seq 0 16)) as Hx by (exists (Z.to_nat s); rewrite in_seq; lia). specialize (H Hx).
  rewrite Hp, orb_false_r, orb_true_iff, Z.eqb_eq, andb_true_iff, Z.eqb_eq, Z.ltb_lt in H. pose proof (Z.log2_nonneg s). destruct H as [H|[Ha Hb]]; [done|]. by split; [|lia].
Qed.

(** The SIB byte's index field, seen by the decoder. *)
Lemma index_decodes opc op idx scale withsib :
  has opc OPC_VSIB = false -> mem_index opc op = Some (idx, scale, withsib) ->
  0 <= idx < 8 /\ 0 <= scale < 4 /\ (withsib = false -> op_mem_idx op = 0) /\
  let i := idx + bit_if (has (op_mem_idx op) 8) 8 in
  Z.lor (Z.shiftl scale 6) (if i =? 4 then FD_REG_NONE else i) = misc_of op.
Proof.
  intros Hv H. unfold mem_index in H. rewrite Hv in H. cbn [andb negb] in H. unfold misc_of.
  pose proof (field_range op 44 12 ltac:(lia)) as Hi. change (Z.land _ (Z.ones 12)) with (op_mem_idx op) in Hi.
  pose proof (field_range op 56 4 ltac:(lia)) as Hs. change (Z.land _ (Z.ones 4)) with (op_mem_scale op) in Hs.
  destruct (Z.eqb_spec (op_mem_idx op) 0) as [->|Hne]; cbn [negb andb eqb] in H.
  - destruct (negb _); [done|]. injection H as <- <- <-. done.
  - destruct (Z.eqb_spec (op_mem_scale op) 0) as [|Hs0]; [done|]. cbn [negb eqb] in H. destruct (op_reg_gpl (op_mem_idx op)) eqn:Hg; [|done].
    destruct (Z.eqb_spec (op_reg_idx (op_mem_idx op)) 4) as [|H4]; [done|]. cbn [negb orb] in H. destruct (has _ (_ - 1)) eqn:Hp; [done|].
    apply (inj Some) in H. apply pair_equal_spec in H as [H <-]. apply pair_equal_spec in H as [<- <-].
    destruct (gpl_parts _ (proj1 Hi) Hg) as (_ & _ & Hr & Hsum & _). destruct (scale_log _ Hs Hs0 Hp) as [-> Hl].
    split_and!; try done; try lia. cbv zeta. rewrite Hsum. by rewrite (proj2 (Z.eqb_neq _ _) H4).
Qed.

Lemma op_imm_0 v : op_imm_n v 0 = true -> v = 0.
Proof. unfold op_imm_n. cbn [Z.eqb Pos.eqb andb orb]. rewrite !orb_false_r. apply Z.eqb_eq. Qed.

Lemma op_imm_1 v : op_imm_n v 1 = true -> swrap 8 v = v.
Proof. unfold op_imm_n. cbn [Z.eqb Pos.eqb andb orb]. rewrite !orb_false_r. apply Z.eqb_eq. Qed.

Lemma disp_decodes f pre rest k base :
  k = Z.of_nat (length pre) -> op_imm_n (m_off f) (disp_size f) = true -> in_s 32 (m_off f) -> 0 <= m_mod f <= 2 ->
  mod0off f = (m_mod f =? 0) && (base =? 5) ->
  let b := pre ++ le_bytes (m_off f) (Z.to_nat (disp_size f)) ++ rest in
  (if Z.shiftl (m_mod f) 6 =? 0x40 then need b k 1;; v ← load_le 1 b k; mret (swrap 8 v, k + 1)
   else if (Z.shiftl (m_mod f) 6 =? 0x80) || ((Z.shiftl (m_mod f) 6 =? 0) && (base =? 5)) then need b k 4;; v ← load_le 4 b k; mret (s32 v, k + 4)
   else mret (0, k)) = RVal (m_off f, k + disp_size f).
Proof.
  intros Hk Hi H32 Hm Hb. cbv zeta. unfold disp_size in *. rewrite Hb in *.
  assert (forall n : nat, load_le n (pre ++ le_bytes (m_off f) n ++ rest) k = RVal (le_val (le_bytes (m_off f) n)) /\
    need (pre ++ le_bytes (m_off f) n ++ rest) k (Z.of_nat n) = RVal tt) as Hl.
  { intros n. assert (length (le_bytes (m_off f) n) = n) as Hn by (unfold le_bytes; by rewrite length_map, length_seq). split.
    - pose proof (load_here pre (le_bytes (m_off f) n) rest k Hk) as E. by rewrite Hn in E.
    - apply need_here; [done|by rewrite Hn]. }
  assert (swrap (8 * 4) (le_val (le_bytes (m_off f) 4)) = m_off f) as H4 by (apply (swrap_le_val _ 4); [lia|done]).
  assert (m_mod f = 0 \/ m_mod f = 1 \/ m_mod f = 2) as [Em | [Em | Em]] by lia; rewrite Em in *; cbn [Z.eqb Pos.eqb andb orb] in *; clear Em.
  - destruct (base =? 5).
    + change (Z.to_nat 4) with 4%nat. destruct (Hl 4%nat) as [-> E]. change (Z.of_nat 4) with 4 in E. rewrite E. cbn [Z.shiftl Pos.iter Z.eqb mbind Rd_bind orb andb].
      change (8 * 4) with 32 in H4. by rewrite H4.
    + rewrite (op_imm_0 _ Hi). cbn. by rewrite Z.add_0_r.
  - change (Z.to_nat 1) with 1%nat. destruct (Hl 1%nat) as [-> E]. change (Z.of_nat 1) with 1 in E. rewrite E.
    rewrite le_val_bytes. change (8 * Z.of_nat 1) with 8. cbn [Z.shiftl Pos.iter Z.eqb Pos.eqb Z.mul mbind Rd_bind mret Rd_ret]. by rewrite swrap_wrap, (op_imm_1 _ Hi).
  - change (Z.to_nat 4) with 4%nat. destruct (Hl 4%nat) as [-> E]. change (Z.of_nat 4) with 4 in E. rewrite E. cbn [Z.shiftl Pos.iter Z.eqb Pos.eqb Z.mul mbind Rd_bind orb mret Rd_ret].
    change (8 * 4) with 32 in H4. by rewrite H4.
Qed.

(** The offset the encoder uses: relative to the end of the instruction for [rip]. *)
Definition off_of (op len : Z) : Z := if op_mem_base op =? FE_IP then s32 (op_mem_offset op - len) else op_mem_offset op.

(** The base field: what stands in [rm], or in the SIB byte's base. *)
Definition base_field (f : Form) : Z := if m_rm f =? 4 then m_base f else m_rm f.

(** The forms of a memory operand, by what the decoder looks at. *)
Lemma form_spec opc opcsz immsz op f :
  mem_form opc opcsz immsz op = Some f ->
  (exists withsib, mem_index opc op = Some (m_idx f, m_scale f, withsib) /\ (withsib = true -> m_rm f = 4)) /\
  m_off f = off_of op (opcsz + 5 + immsz) /\ in_s 32 (m_off f) /\ 0 <= m_mod f <= 2 /\ 0 <= m_rm f < 8 /\ 0 <= m_base f < 8 /\
  mod0off f = (m_mod f =? 0) && (base_field f =? 5) /\
  (if (m_mod f =? 0) && (m_rm f =? 5) then FD_REG_IP
   else if (m_mod f =? 0) && (base_field f =? 5) then FD_REG_NONE
   else base_field f + bit_if (has (op_mem_base op) 8) 8) = base_of op.
Proof.
  unfold mem_form. intros H. apply bind_Some in H as ([[idx scale] withsib] & Hidx & H).
  apply bind_Some in H as ([[[[rm mod_] off] mod0] withsib'] & Hb & H).
  pose proof (field_range op 32 12 ltac:(lia)) as Hr. change (Z.land _ (Z.ones 12)) with (op_mem_base op) in Hr.
  assert (in_s 32 (op_mem_offset op)) as Ho by (apply swrap_range; lia).
  unfold mem_base in Hb. unfold off_of, base_of. destruct (Z.eqb_spec (op_mem_base op) 0) as [E0|H0]; [|destruct (Z.eqb_spec (op_mem_base op) FE_IP) as [Eip|Hip]].
  - injection Hb as <- <- <- <- <-. cbn [negb andb orb] in H. rewrite !andb_false_r in H. injection H as <-. rewrite E0. cbn. split_and!; try done; try lia. by exists withsib.
  - destruct withsib; [done|]. injection Hb as <- <- <- <- <-. cbn [negb andb orb Z.eqb Pos.eqb] in H. rewrite !andb_false_r in H. injection H as <-. cbn.
    split_and!; try done; try lia; [by exists false|apply swrap_range; lia].
  - destruct (op_reg_gpl _) eqn:Hg; [|done]. cbn [negb] in Hb. apply (inj Some) in Hb. rewrite !pair_equal_spec in Hb. destruct Hb as ((((Erm & Emod) & Eoff) & Em0) & Ews).
    subst mod0 off withsib'. destruct (gpl_parts _ (proj1 Hr) Hg) as (_ & Hrm' & Hrm7 & Hsum & _). rewrite Hrm' in Erm, Emod. rewrite Erm in Emod, Hrm7, Hsum.
    set (md := if negb (op_mem_offset op =? 0) && _ && _ then 1 else _) in H.
    assert (0 <= md <= 2 /\ (rm = 5 -> md <> 0)) as [Hmd Hmd5].
    { unfold md. destruct (op_mem_offset op =? 0), (op_imm_n (op_mem_offset op) 1), (Z.eqb_spec rm 5); cbn [negb andb]; lia. }
    assert ((md =? 0) && (rm =? 5) = false) as H5 by (destruct (Z.eqb_spec md 0), (Z.eqb_spec rm 5); tauto || done).
    destruct (withsib || (rm =? 4)) eqn:Ew; injection H as <-; cbn [m_idx m_scale m_rm m_off m_mod m_base FadecEnc.mod0off base_field Z.eqb Pos.eqb].
    + unfold base_field. cbn [m_rm m_base Z.eqb Pos.eqb]. rewrite H5, andb_false_r. split_and!; try done; try lia. by exists withsib.
    + apply orb_false_iff in Ew as [-> E4]. unfold base_field. cbn [m_rm m_base]. rewrite E4, H5. split_and!; try done; try lia. by exists false.
Qed.

(** The decoder reads back a memory operand behind the ModR/M byte. *)
Lemma mem_decodes opc opcsz immsz op f e d size reg pre rest k :
  has opc OPC_VSIB = false -> mem_form opc opcsz immsz op = Some f -> DESC_VSIB d = false -> 0 <= reg < 8 ->
  has (e_rex e) PREFIX_REXB = has (op_mem_base op) 8 -> has (e_rex e) PREFIX_REXX = has (op_mem_idx op) 8 -> k = Z.of_nat (length pre) ->
  modrm_mem DECODE_64
    (pre ++ emit (has_sib f) (three (m_scale f) (m_idx f) (m_base f)) ++ le_bytes (m_off f) (Z.to_nat (disp_size f)) ++ rest)
    e d (three (m_mod f) reg (m_rm f)) size k =
  RVal (mkOp FD_OT_MEM size (base_of op) (misc_of op), off_of op (opcsz + 5 + immsz), k + Z.b2z (has_sib f) + disp_size f).
Proof.
  intros Hv Hf Hvs Hreg HB HX Hk. pose proof (form_imm _ _ _ _ _ Hf) as Himm.
  destruct (form_spec _ _ _ _ _ Hf) as ((ws & Hidx & Hws) & Hoff & H32 & Hmod & Hrm & Hbase & Hm0 & Hreg').
  destruct (index_decodes _ _ _ _ _ Hv Hidx) as (Hi8 & Hs4 & Hnoidx & Hmisc). cbv zeta in Hmisc.
  destruct (three_fields (m_mod f) reg (m_rm f)) as (F1 & _ & F3); [lia..|]. unfold modrm_mem. cbv zeta. rewrite F1, F3, Hvs, HB, HX.
  assert (forall x, (Z.shiftl (m_mod f) 6 =? 0) && x = (m_mod f =? 0) && x) as Hz.
  { intros x. assert (m_mod f = 0 \/ m_mod f = 1 \/ m_mod f = 2) as [-> | [-> | ->]] by lia; done. }
  rewrite <- Hreg', <- Hmisc, <- Hoff.
  assert (has_sib f = (m_rm f =? 4)) as Hsib by (unfold has_sib; by rewrite (proj2 (Z.eqb_neq (m_mod f) 3)) by lia).
  rewrite Hsib. unfold base_field in *. destruct (Z.eqb_spec (m_rm f) 4) as [E4|H4]; cbn [emit app Z.b2z] in *.
  - rewrite need_one, byte_here by done. rewrite rd_val_bind. cbv beta. rewrite rd_val_bind. cbv beta. cbn [negb andb].
    destruct (three_fields (m_scale f) (m_idx f) (m_base f)) as (S1 & S2 & S3); [lia..|]. rewrite S1, S2, S3, rd_ret_bind.
    replace (pre ++ three (m_scale f) (m_idx f) (m_base f) :: le_bytes (m_off f) (Z.to_nat (disp_size f)) ++ rest)
      with ((pre ++ [three (m_scale f) (m_idx f) (m_base f)]) ++ le_bytes (m_off f) (Z.to_nat (disp_size f)) ++ rest) by (by rewrite <- app_assoc).
    pose proof (disp_decodes f (pre ++ [three (m_scale f) (m_idx f) (m_base f)]) rest (k + 1) (m_base f)) as D. cbv zeta in D.
    rewrite D; try done; [|rewrite length_app; cbn; lia]. rewrite rd_val_bind, !Hz, E4. by rewrite !andb_false_r.
  - assert (ws = false) as Ews by (destruct ws; [by rewrite Hws in H4|done]). rewrite Hmisc, rd_ret_bind. unfold misc_of. rewrite (Hnoidx Ews).
    pose proof (disp_decodes f pre rest k (m_rm f)) as D. cbv zeta in D. rewrite D by done. rewrite rd_val_bind, !Hz, andb_true_r, Z.add_0_r. done.
Qed.

(** ** Prefixes *)

(** What the decoder is to find in front of the opcode byte. *)
Definition seg_of (opc : Z) : Z := Z.land (Z.shiftr opc OPC_SEG_IDX) 7.

Definition rex_of (opc : Z) : Z :=
  if has opc OPC_VEX then
    Z.lor (Z.lor (Z.lor (Z.lor (bit_if (has opc OPC_REXR) PREFIX_REXR) (bit_if (has opc OPC_REXX) PREFIX_REXX)) (bit_if (has opc OPC_REXB) PREFIX_REXB))
             (bit_if (has opc OPC_REXW) PREFIX_REXW)) (bit_if (has opc OPC_VEXL) PREFIX_VEXL)
  else if has opc OPC_ANY_REX then rex_byte opc else 0.

Definition escape_found (opc : Z) : Escape :=
  mkEsc (if has opc OPC_VEX then 4 + escape_of opc else escape_of opc) (opc_size opc - 1) (rex_of opc)
    (if has opc OPC_F2 then 3 else if has opc OPC_F3 then 2 else 0) (has opc OPC_66) 0.

(** The opcodes the round trip is about: no lock, at most one mandatory prefix,
    no second opcode byte, no VEX operand, and a first byte that is not taken
    for a prefix. *)
Definition plain_opc (opc : Z) : Prop :=
  has opc OPC_LOCK = false /\ (has opc OPC_F2 = true -> has opc OPC_F3 = false /\ has opc OPC_66 = false) /\
  (has opc OPC_F3 = true -> has opc OPC_66 = false) /\ (Z.land opc 0xc000 =? 0xc000) = false /\ Z.land opc OPC_VEXOP_MSK = 0 /\ seg_of opc <= 6 /\
  (has opc OPC_VEX = false ->
    (escape_of opc = 0 -> (forall off p, prefix_64 (Z.land opc 0xff) off p = None) /\ Z.land opc 0xff <> 0x0f /\ Z.land (Z.land opc 0xff) 0xfe <> 0xc4) /\
    (escape_of opc = 1 -> Z.land opc 0xff <> 0x38 /\ Z.land opc 0xff <> 0x3a)).

Definition pfx0 : Prefixes := mkPfx FD_REG_NONE false 3 false 0 0 (-1).

Lemma loop_emit c x f rest off p :
  (forall off p, prefix_64 x off p = Some (f off p)) ->
  prefix_loop DECODE_64 (emit c x ++ rest) off p = prefix_loop DECODE_64 rest (off + Z.b2z c) (if c then f off p else p).
Proof. intros H. destruct c; cbn [emit app prefix_loop is_64 Z.b2z]; [by rewrite H|by rewrite Z.add_0_r]. Qed.

Lemma loop_stop x rest off p : (forall off p, prefix_64 x off p = None) -> prefix_loop DECODE_64 (x :: rest) off p = (p, off).
Proof. intros H. cbn [prefix_loop is_64]. by rewrite H. Qed.

Lemma rex_byte_prefix opc off p : prefix_64 (rex_byte opc) off p = Some (set_rex (rex_byte opc) off p).
Proof. unfold rex_byte. by destruct (has opc OPC_REXW), (has opc OPC_REXR), (has opc OPC_REXX), (has opc OPC_REXB). Qed.

Lemma has_seg opc : has opc OPC_SEG_MSK = negb (seg_of opc =? 0).
Proof.
  unfold has, seg_of, OPC_SEG_MSK. f_equal. apply eq_true_iff_eq. rewrite !Z.eqb_eq. change OPC_SEG_IDX with 31. split; intros H.
  - apply (f_equal (fun x => Z.shiftr x 31)) in H. rewrite Z.shiftr_land, Z.shiftr_shiftl_l in H by lia. exact H.
  - apply (f_equal (fun x => Z.shiftl x 31)) in H. rewrite Z.shiftl_land, Z.shiftl_0_l in H.
    rewrite <- H. apply Z.bits_inj'. intros n Hn. rewrite !Z.land_spec, !Z.shiftl_spec by done.
    destruct (Z.ltb_spec n 31); [by rewrite !(Z.testbit_neg_r _ (n - 31)), !andb_false_r by lia|]. rewrite Z.shiftr_spec by lia. do 2 f_equal. lia.
Qed.

(** A segment prefix changes the segment, or nothing. *)
Definition seg_prefix (opc off : Z) (p : Prefixes) : Prefixes :=
  if seg_of opc =? 5 then set_segment 4 p else if seg_of opc =? 6 then set_segment 5 p else p.

Lemma seg_byte_prefix opc :
  1 <= seg_of opc <= 6 -> forall off p,
  prefix_64 (Z.land (Z.shiftr 0x65643e362e2600 (8 * Z.land (Z.shiftr opc OPC_SEG_IDX) 7)) 0xff) off p = Some (seg_prefix opc off p).
Proof.
  fold (seg_of opc). unfold seg_prefix. intros H off p.
  assert (seg_of opc = 1 \/ seg_of opc = 2 \/ seg_of opc = 3 \/ seg_of opc = 4 \/ seg_of opc = 5 \/ seg_of opc = 6)
    as [-> | [-> | [-> | [-> | [-> | ->]]]]] by lia; reflexivity.
Qed.

(** Segment and address size. *)
Lemma loop_head opc rest :
  seg_of opc <= 6 -> exists head s a,
  emit (has opc OPC_SEG_MSK) (Z.land (Z.shiftr 0x65643e362e2600 (8 * Z.land (Z.shiftr opc OPC_SEG_IDX) 7)) 0xff) ++ emit (has opc OPC_67) 0x67 = head /\
  prefix_loop DECODE_64 (head ++ rest) 0 pfx0 = prefix_loop DECODE_64 rest (Z.of_nat (length head)) (mkPfx s false a false 0 0 (-1)) /\
  Z.of_nat (length head) = Z.b2z (has opc OPC_SEG_MSK) + Z.b2z (has opc OPC_67).
Proof.
  intros Hs. assert (0 <= seg_of opc) by (apply Z.land_nonneg; by right).
  eexists _, (if has opc OPC_SEG_MSK then segment (seg_prefix opc 0 pfx0) else FD_REG_NONE), (if has opc OPC_67 then 2 else 3). split; [done|].
  rewrite length_app, Nat2Z.inj_add, !length_emit. split; [|done]. rewrite <- app_assoc. rewrite has_seg.
  destruct (Z.eqb_spec (seg_of opc) 0) as [E|E]; cbn [negb].
  - cbn [emit app Z.b2z]. rewrite (loop_emit _ 0x67 (fun _ => set_addr_size 2)) by done. by destruct (has opc OPC_67).
  - rewrite (loop_emit true _ (seg_prefix opc)) by (apply seg_byte_prefix; lia).
    rewrite (loop_emit _ 0x67 (fun _ => set_addr_size 2)) by done. unfold seg_prefix.
    destruct (seg_of opc =? 5), (seg_of opc =? 6), (has opc OPC_67); done.
Qed.

(** The escape of the opcode, behind the prefixes. *)
Lemma escape_here pre opc tail p k :
  k = Z.of_nat (length pre) -> has opc OPC_VEX = false -> plain_opc opc ->
  opcode_escape DECODE_64
    (pre ++ emit (has opc OPC_ESCAPE_MSK) 0x0f ++ emit (Z.land opc OPC_ESCAPE_MSK =? OPC_0F38) 0x38 ++
       emit (Z.land opc OPC_ESCAPE_MSK =? OPC_0F3A) 0x3a ++ Z.land opc 0xff :: tail) p k =
  RVal (mkEsc (escape_of opc)
    (k + Z.b2z (has opc OPC_ESCAPE_MSK) + Z.b2z (Z.land opc OPC_ESCAPE_MSK =? OPC_0F38) + Z.b2z (Z.land opc OPC_ESCAPE_MSK =? OPC_0F3A))
    (prefix_rex p) (prefix_rep p) (prefix_66 p) 0).
Proof.
  intros Hk Hv (_ & _ & _ & _ & _ & _ & Hb). destruct (Hb Hv) as [H0 H1]. rewrite has_escape, is_0f38, is_0f3a. unfold opcode_escape. cbv zeta.
  assert (forall x y r, byte_at (pre ++ x :: y :: r) (k + 1) = RVal y) as Hnext.
  { intros x y r. change (pre ++ x :: y :: r) with (pre ++ [x] ++ y :: r). rewrite app_assoc. apply byte_here. rewrite length_app. cbn. lia. }
  assert (forall x y r, need (pre ++ x :: y :: r) (k + 1) 1 = RVal tt) as Hneed.
  { intros x y r. change (pre ++ x :: y :: r) with (pre ++ [x] ++ y :: r). rewrite app_assoc. apply need_one. rewrite length_app. cbn. lia. }
  destruct (escape_range opc) as [E | [E | [E | E]]]; rewrite E in *; cbn [Z.eqb Pos.eqb negb emit app Z.b2z]; rewrite (byte_here pre _ _ k) by done; rewrite rd_val_bind.
  - destruct (H0 eq_refl) as (_ & Hf & Hc4). rewrite (proj2 (Z.eqb_neq _ _) Hf), (proj2 (Z.eqb_neq _ _) Hc4). by rewrite !Z.add_0_r.
  - destruct (H1 eq_refl) as [H38 H3a]. cbn [Z.eqb Pos.eqb]. rewrite Hneed, rd_val_bind, Hnext, rd_val_bind.
    rewrite (proj2 (Z.eqb_neq _ _) H38), (proj2 (Z.eqb_neq _ _) H3a). cbn [Z.leb Z.compare Pos.compare Pos.compare_cont]. by rewrite !Z.add_0_r.
  - cbn [Z.eqb Pos.eqb]. rewrite Hneed, rd_val_bind, Hnext, rd_val_bind. cbn [Z.eqb Pos.eqb Z.leb Z.compare Pos.compare Pos.compare_cont].
    do 2 f_equal. lia.
  - cbn [Z.eqb Pos.eqb]. rewrite Hneed, rd_val_bind, Hnext, rd_val_bind. cbn [Z.eqb Pos.eqb Z.leb Z.compare Pos.compare Pos.compare_cont].
    do 2 f_equal. lia.
Qed.

(** ** VEX *)

Lemma vex_b1_bits opc :
  has (vex_b1 opc) 0x80 = negb (has opc OPC_REXR) /\ has (vex_b1 opc) 0x40 = negb (has opc OPC_REXX) /\
  has (vex_b1 opc) 0x20 = negb (has opc OPC_REXB) /\ has (vex_b1 opc) 0x1c = false /\ Z.lor (Z.land (vex_b1 opc) 3) 4 = 4 + escape_of opc.
Proof.
  unfold vex_b1. rewrite escape_bits. destruct (escape_range opc) as [-> | [-> | [-> | ->]]], (has opc OPC_REXR), (has opc OPC_REXX), (has opc OPC_REXB); by vm_compute.
Qed.

Lemma vex_b2_bits opc :
  plain_opc opc ->
  has (vex_b2 opc) 0x80 = (if is_vex3 opc then has opc OPC_REXW else negb (has opc OPC_REXR)) /\ has (vex_b2 opc) 0x04 = has opc OPC_VEXL /\
  (if has (vex_b2 opc) 2 then Z.land (vex_b2 opc) 3 else 0) = (if has opc OPC_F2 then 3 else if has opc OPC_F3 then 2 else 0) /\
  (Z.land (vex_b2 opc) 3 =? 1) = has opc OPC_66 /\ Z.lxor (Z.shiftr (Z.land (vex_b2 opc) 0x78) 3) 0xf = 0.
Proof.
  intros (_ & H2 & H3 & _ & Hop & _). unfold vex_b2, vex_pp. rewrite Hop.
  destruct (has opc OPC_F2); [destruct (H2 eq_refl) as [_ ->]|destruct (has opc OPC_F3); [rewrite (H3 eq_refl)|destruct (has opc OPC_66)]];
    destruct (is_vex3 opc), (has opc OPC_VEXL), (has opc OPC_REXW), (has opc OPC_REXR); by vm_compute.
Qed.

Lemma vex_here pre opc tail p k :
  k = Z.of_nat (length pre) -> has opc OPC_VEX = true -> plain_opc opc -> prefix_66 p = false -> prefix_rep p = 0 -> prefix_rex p = 0 ->
  opcode_escape DECODE_64 (pre ++ vex_bytes opc ++ Z.land opc 0xff :: tail) p k =
  RVal (mkEsc (4 + escape_of opc) (k + (if is_vex3 opc then 3 else 2)) (rex_of opc)
    (if has opc OPC_F2 then 3 else if has opc OPC_F3 then 2 else 0) (has opc OPC_66) 0).
Proof.
  intros Hk Hv Hp E66 Erep Erex. destruct (vex_b1_bits opc) as (A1 & A2 & A3 & A4 & A5). destruct (vex_b2_bits opc Hp) as (B1 & B2 & B3 & B4 & B5).
  assert (forall l x r n, n = k + Z.of_nat (length l) -> byte_at (pre ++ l ++ x :: r) n = RVal x /\ need (pre ++ l ++ x :: r) n 1 = RVal tt) as Hat.
  { intros l x r n ->. rewrite app_assoc. split; [apply byte_here|apply need_one]; rewrite length_app; lia. }
  pose proof (vex3_spec opc) as H3. unfold opcode_escape, vex_prefix, vex_bytes. cbv zeta. rewrite E66, Erep, Erex.
  unfold rex_of. rewrite Hv. destruct (is_vex3 opc) eqn:E3; cbn [negb Z.b2z emit app is_64 orb andb].
  - change (Z.lor 0xc4 0) with 0xc4. destruct (Hat [] 0xc4 (vex_b1 opc :: vex_b2 opc :: Z.land opc 0xff :: tail) k) as [R0 _]; [cbn; lia|].
    destruct (Hat [0xc4] (vex_b1 opc) (vex_b2 opc :: Z.land opc 0xff :: tail) (k + 1)) as [R1 N1]; [cbn; lia|].
    destruct (Hat [0xc4; vex_b1 opc] (vex_b2 opc) (Z.land opc 0xff :: tail) (k + 2)) as [R2 N2]; [cbn; lia|]. cbn [app] in *.
    rewrite R0, rd_val_bind. cbn [Z.eqb Pos.eqb]. change (Z.land 0xc4 0xfe =? 0xc4) with true. cbv iota. rewrite N1, rd_val_bind. cbv beta. rewrite R1, rd_val_bind. cbv beta.
    rewrite A4. cbv iota. rewrite N2, rd_val_bind. cbv beta. rewrite R2, rd_val_bind. cbv beta. rewrite rd_ret_bind. cbv beta iota.
    rewrite A1, A2, A3, A5, B1, B2, B3, B4, B5, !negb_involutive. done.
  - symmetry in H3. rewrite !orb_false_iff, negb_false_iff, Z.eqb_eq in H3. destruct H3 as [[[HW HX] HB] He]. rewrite HW, HX, HB, He.
    change (Z.lor 0xc4 1) with 0xc5. destruct (Hat [] 0xc5 (vex_b2 opc :: Z.land opc 0xff :: tail) k) as [R0 _]; [cbn; lia|].
    destruct (Hat [0xc5] (vex_b2 opc) (Z.land opc 0xff :: tail) (k + 1)) as [R1 N1]; [cbn; lia|]. cbn [app] in *.
    rewrite R0, rd_val_bind. cbn [Z.eqb Pos.eqb]. change (Z.land 0xc5 0xfe =? 0xc4) with true. cbv iota. rewrite N1, rd_val_bind. cbv beta. rewrite R1, rd_val_bind. cbv beta.
    rewrite rd_ret_bind. cbv beta iota. rewrite B1, B2, B3, B4, B5, !negb_involutive. cbn [bit_if]. by rewrite !Z.lor_0_r.
Qed.

(** ** In front of the operands *)

(** The decoder ignores a REX prefix that is not the last one. *)
Definition last_rex (p : Prefixes) (off : Z) : Prefixes := if negb (rex_off p =? off - 1) then set_rex 0 (rex_off p) p else p.

Lemma legacy_front opc head tail s a :
  plain_opc opc -> has opc OPC_VEX = false -> Z.of_nat (length head) = Z.b2z (has opc OPC_SEG_MSK) + Z.b2z (has opc OPC_67) ->
  let rest := legacy_bytes opc ++ Z.land opc 0xff :: tail in
  exists p k, prefix_loop DECODE_64 rest (Z.of_nat (length head)) (mkPfx s false a false 0 0 (-1)) = (p, k) /\
    0 <= k < Z.of_nat (length (head ++ rest)) /\ prefix_lock (last_rex p k) = false /\
    opcode_escape DECODE_64 (head ++ rest) (last_rex p k) k = RVal (escape_found opc).
Proof.
  intros Hp Hv Hh. pose proof Hp as (Hlk & H2 & H3 & Hext & _ & _ & Hb). destruct (Hb Hv) as [H0 _]. cbv zeta. unfold legacy_bytes. rewrite Hlk. cbn [emit app].
  rewrite <- !app_assoc. set (esc := emit (has opc OPC_ESCAPE_MSK) 0x0f ++ _).
  set (pfx := emit (has opc OPC_66) 0x66 ++ emit (has opc OPC_F2) 0xf2 ++ emit (has opc OPC_F3) 0xf3 ++ emit (has opc OPC_ANY_REX) (rex_byte opc)).
  assert (Z.of_nat (length pfx) = Z.b2z (has opc OPC_66) + Z.b2z (has opc OPC_F2) + Z.b2z (has opc OPC_F3) + Z.b2z (has opc OPC_ANY_REX)) as Hlen
    by (unfold pfx; rewrite !length_app, !Nat2Z.inj_add, !length_emit; lia).
  rewrite (loop_emit _ 0x66 (fun _ => set_66)), (loop_emit _ 0xf2 (fun _ => set_rep 3)), (loop_emit _ 0xf3 (fun _ => set_rep 2)) by done.
  rewrite (loop_emit _ (rex_byte opc) (fun off => set_rex (rex_byte opc) off)) by apply rex_byte_prefix.
  assert (forall off p, prefix_loop DECODE_64 esc off p = (p, off)) as Hstop.
  { intros off p. unfold esc. rewrite has_escape, is_0f38, is_0f3a. destruct (escape_range opc) as [E | [E | [E | E]]]; rewrite E in *; cbn [Z.eqb Pos.eqb negb emit app]; apply loop_stop; try done.
    by apply H0. }
  rewrite Hstop. eexists _, _. split; [done|].
  set (p := if has opc OPC_ANY_REX then _ else _). set (k := _ + Z.b2z (has opc OPC_ANY_REX)).
  assert (k = Z.of_nat (length (head ++ pfx))) as Hk by (rewrite length_app; unfold k; lia).
  assert (prefix_lock (last_rex p k) = false /\ prefix_rex (last_rex p k) = rex_of opc /\
    prefix_rep (last_rex p k) = (if has opc OPC_F2 then 3 else if has opc OPC_F3 then 2 else 0) /\ prefix_66 (last_rex p k) = has opc OPC_66) as (E1 & E2 & E3 & E4).
  { unfold rex_of, last_rex. rewrite Hv. unfold p. destruct (has opc OPC_ANY_REX) eqn:Erex; cbn [rex_off set_rex].
    - rewrite (proj2 (Z.eqb_eq _ _)) by (unfold k; cbn [Z.b2z]; lia). cbn [negb].
      destruct (has opc OPC_66), (has opc OPC_F2), (has opc OPC_F3); try (by destruct (H2 eq_refl)); try (by specialize (H3 eq_refl)); done.
    - destruct (has opc OPC_66), (has opc OPC_F2), (has opc OPC_F3); try (by destruct (H2 eq_refl)); try (by specialize (H3 eq_refl)); destruct (negb _); done. }
  replace (head ++ emit (has opc OPC_66) 0x66 ++ emit (has opc OPC_F2) 0xf2 ++ emit (has opc OPC_F3) 0xf3 ++ emit (has opc OPC_ANY_REX) (rex_byte opc) ++ esc)
    with ((head ++ pfx) ++ esc) by (unfold pfx; by rewrite <- !app_assoc).
  split_and!; [lia| |done|].
  - rewrite length_app. assert (0 < length esc)%nat; [|lia]. unfold esc. rewrite !length_app. cbn [length]. lia.
  - unfold esc. rewrite escape_here by done. rewrite E2, E3, E4. unfold escape_found. rewrite Hv. do 2 f_equal.
    unfold opc_size. rewrite Hv, Hlk, Hext, is_0f38, is_0f3a, Hk, length_app, Nat2Z.inj_add, Hlen, Hh. cbn [Z.b2z].
    destruct (escape_of opc =? 2) eqn:Ea, (escape_of opc =? 3) eqn:Eb; cbn [orb Z.b2z]; try lia.
Qed.

Lemma front opc tail :
  plain_opc opc ->
  let b := (enc_opc [] opc).2 ++ tail in
  exists p k, prefix_loop DECODE_64 b 0 pfx0 = (p, k) /\ 0 <= k < Z.of_nat (length b) /\ prefix_lock (last_rex p k) = false /\
    opcode_escape DECODE_64 b (last_rex p k) k = RVal (escape_found opc).
Proof.
  intros Hp. pose proof Hp as (_ & _ & _ & Hext & _ & Hseg & _).
  assert ((enc_opc [] opc).2 ++ tail =
    (emit (has opc OPC_SEG_MSK) (Z.land (Z.shiftr 0x65643e362e2600 (8 * Z.land (Z.shiftr opc OPC_SEG_IDX) 7)) 0xff) ++ emit (has opc OPC_67) 0x67) ++
    (if has opc OPC_VEX then vex_bytes opc else legacy_bytes opc) ++ Z.land opc 0xff :: tail) as Eb.
  { unfold enc_opc. cbn [snd]. rewrite Hext. cbn [emit app]. by rewrite <- !app_assoc. }
  cbv zeta. rewrite Eb. destruct (loop_head opc ((if has opc OPC_VEX then vex_bytes opc else legacy_bytes opc) ++ Z.land opc 0xff :: tail) Hseg) as (head & s & a & -> & Hl & Hlen).
  rewrite Hl. destruct (has opc OPC_VEX) eqn:Hv; [|by apply legacy_front].
  set (p := mkPfx s false a false 0 0 (-1)). exists p, (Z.of_nat (length head)).
  assert (last_rex p (Z.of_nat (length head)) = p) as -> by (unfold last_rex; by destruct (negb _)). split_and!; try done; try lia.
  - unfold vex_bytes. cbn [app]. apply loop_stop. intros off q. by destruct (negb (is_vex3 opc)).
  - rewrite !length_app. cbn [length]. lia.
  - rewrite vex_here by done. unfold escape_found. rewrite Hv. do 2 f_equal. unfold opc_size. rewrite Hv, Hext, Hlen. cbn [Z.b2z]. destruct (is_vex3 opc); lia.
Qed.

(** The opcode byte is the last one. *)
Lemma opc_last opc : (Z.land opc 0xc000 =? 0xc000) = false ->
  exists pre, (enc_opc [] opc).2 = pre ++ [Z.land opc 0xff] /\ Z.of_nat (length pre) = opc_size opc - 1.
Proof.
  intros Hext. pose proof (opc_size_length [] opc) as Hl. unfold enc_opc in *. cbn [snd] in *. rewrite Hext in *. cbn [emit app] in *.
  eexists. split; [by rewrite !app_assoc|]. rewrite !length_app in *. cbn [length] in *. lia.
Qed.

(** ** The round trip *)

(** The tables have [d] for the opcode, with two operands in ModR/M and no
    immediate, of more than a byte. *)
Record knows (T : FdTables) (root opc : Z) (d : InstrDesc) : Prop := {
  k_root : FD_TABLE_OFFSET_64 T = Some root;
  k_desc : forall b o, byte_at b (opc_size o - 1) = RVal (Z.land opc 0xff) -> (forall m, In m [OPC_VEX; OPC_F2; OPC_F3; OPC_66; OPC_REXW; OPC_VEXL] -> has o m = has opc m) ->
    escape_of o = escape_of opc -> find_desc T b root (escape_found o) = RVal (d, opc_size o);
  k_modrm : DESC_MODRM d = true; k_rm : DESC_HAS_MODRM d = true; k_reg : DESC_HAS_MODREG d = true; k_vex : DESC_HAS_VEXREG d = false;
  k_imm : DESC_IMM_CONTROL d = 0; k_vsib : DESC_VSIB d = false; k_idx : DESC_MODRM_IDX d <> DESC_MODREG_IDX d;
  k_gpl : DESC_REGTY_MODRM d = 0 /\ DESC_REGTY_MODREG d = 0; k_size : forall e, (op_sizes DECODE_64 e d).1 <> 1;
  k_type : Forall (fun name => (d_type d =? FDI T name) = false) ["MOV_CR"; "MOV_DR"; "XCHG_NOP"; "3DNOW"; "MOVSX"; "MOVZX"]%string }.

(** What [enc_mr] adds to the opcode. *)
Definition add_b (op0 : Z) : bool := if op_reg op0 then has (op_reg_idx op0) 8 else has (op_mem_base op0) 8.
Definition add_x (op0 : Z) : bool := negb (op_reg op0) && has (op_mem_idx op0) 8.
Definition add_r (op1 : Z) : bool := op_reg op1 && has (op_reg_idx op1) 8.

Lemma mr_opc_adds opc op0 op1 :
  mr_opc opc op0 op1 = Z.lor (Z.lor (Z.lor opc (bit_if (add_b op0) OPC_REXB)) (bit_if (add_x op0) OPC_REXX)) (bit_if (add_r op1) OPC_REXR).
Proof.
  unfold mr_opc, add_b, add_x, add_r. assert (op_mem op0 = negb (op_reg op0)) as ->.
  { unfold op_mem, op_reg. destruct (Z.ltb_spec op0 0), (Z.leb_spec 0 op0); (done || lia). }
  destruct (op_reg op0); cbn [negb andb].
  - destruct (has (op_reg_idx op0) 8), (op_reg op1 && has (op_reg_idx op1) 8); cbn [bit_if]; by rewrite ?Z.lor_0_r.
  - destruct (has (op_mem_base op0) 8), (has (op_mem_idx op0) 8), (op_reg op1 && has (op_reg_idx op1) 8); cbn [bit_if]; by rewrite ?Z.lor_0_r.
Qed.

Lemma mr_opc_keeps opc op0 op1 m :
  Z.land OPC_REXB m = 0 -> Z.land OPC_REXX m = 0 -> Z.land OPC_REXR m = 0 -> Z.land (mr_opc opc op0 op1) m = Z.land opc m.
Proof.
  intros HB HX HR. rewrite mr_opc_adds, !Z.land_lor_distr_l.
  destruct (add_b op0), (add_x op0), (add_r op1); cbn [bit_if]; by rewrite ?HB, ?HX, ?HR, ?Z.land_0_l, !Z.lor_0_r.
Qed.

Lemma mr_opc_shift opc op0 op1 k m : 29 <= k -> Z.land (Z.shiftr (mr_opc opc op0 op1) k) m = Z.land (Z.shiftr opc k) m.
Proof.
  intros Hk. rewrite mr_opc_adds, !Z.shiftr_lor.
  assert (forall c x, 0 <= x < 2 ^ 29 -> Z.shiftr (bit_if c x) k = 0) as H.
  { intros c x Hx. rewrite Z.shiftr_div_pow2 by lia. apply Z.div_small. assert (2 ^ 29 <= 2 ^ k) by (apply Z.pow_le_mono_r; lia). destruct c; cbn [bit_if]; lia. }
  rewrite !H by (split; vm_compute; (discriminate || reflexivity)). by rewrite !Z.lor_0_r.
Qed.

Lemma mr_opc_plain opc op0 op1 : plain_opc opc -> plain_opc (mr_opc opc op0 op1).
Proof.
  assert (forall m, Z.land OPC_REXB m = 0 -> Z.land OPC_REXX m = 0 -> Z.land OPC_REXR m = 0 -> has (mr_opc opc op0 op1) m = has opc m) as Hm
    by (intros; unfold has; by rewrite mr_opc_keeps).
  assert (escape_of (mr_opc opc op0 op1) = escape_of opc) as He.
  { pose proof (escape_bits (mr_opc opc op0 op1)) as E. rewrite mr_opc_keeps, escape_bits in E by done. rewrite !Z.shiftl_mul_pow2 in E by lia. lia. }
  intros (H1 & H2 & H3 & H4 & H5 & H6 & H7). unfold plain_opc. rewrite !Hm, !mr_opc_keeps, He by done. unfold seg_of in *. rewrite mr_opc_shift by done. done.
Qed.

Lemma mr_opc_rex opc op0 op1 :
  has opc OPC_REXB = false -> has opc OPC_REXX = false -> has opc OPC_REXR = false ->
  has (mr_opc opc op0 op1) OPC_REXB = add_b op0 /\ has (mr_opc opc op0 op1) OPC_REXX = add_x op0 /\ has (mr_opc opc op0 op1) OPC_REXR = add_r op1.
Proof.
  intros HB HX HR. rewrite mr_opc_adds, !has_lor_l, HB, HX, HR. destruct (add_b op0), (add_x op0), (add_r op1); done.
Qed.

Lemma rex_of_bits opc :
  has (rex_of opc) PREFIX_REXB = has opc OPC_REXB /\ has (rex_of opc) PREFIX_REXX = has opc OPC_REXX /\ has (rex_of opc) PREFIX_REXR = has opc OPC_REXR.
Proof.
  unfold rex_of. pose proof (any_rex opc) as Hany. destruct (has opc OPC_VEX).
  - destruct (has opc OPC_REXR), (has opc OPC_REXX), (has opc OPC_REXB), (has opc OPC_REXW), (has opc OPC_VEXL); by vm_compute.
  - unfold rex_byte. destruct (has opc OPC_ANY_REX).
    + destruct (has opc OPC_REXR), (has opc OPC_REXX), (has opc OPC_REXB), (has opc OPC_REXW); by vm_compute.
    + symmetry in Hany. rewrite !orb_false_iff in Hany. destruct Hany as [[[[_ _] ->] ->] ->]. done.
Qed.

Definition reg_form (op0 : Z) : Form := mkForm 3 (Z.land (op_reg_idx op0) 7) 0 4 0 0 false.

Lemma enc_mr_shape opc op0 op1 immsz out :
  let o := mr_opc opc op0 op1 in
  enc_mr [] opc op0 op1 immsz = (0, out) ->
  exists f, (if op_reg op0 then f = reg_form op0 else mem_form o (opc_size o) immsz op0 = Some f) /\
    out = (enc_opc [] o).2 ++ three (m_mod f) (Z.land op1 7) (m_rm f) :: emit (has_sib f) (three (m_scale f) (m_idx f) (m_base f)) ++
      le_bytes (m_off f) (Z.to_nat (disp_size f)) /\
    opc_size o + 1 + Z.b2z (has_sib f) + disp_size f + immsz <= 15.
Proof.
  intros o H. unfold enc_mr in H. fold o in H. cbv zeta in H. destruct (_ && (_ || _)) in H; [done|].
  destruct (if op_reg op0 then _ else _) as [f|] eqn:Hf in H; [|done].
  destruct (Z.ltb_spec 15 (opc_size o + 1 + Z.b2z (has_sib f) + disp_size f + immsz)); [done|]. rewrite enc_opc_app in H.
  generalize dependent ((enc_opc [] o).2). intros e H. cbn [app Z.eqb negb] in H.
  exists f. split; [destruct (op_reg op0); [by injection Hf as <-|done]|]. split; [|done].
  unfold enc_imm in H. destruct (negb (op_imm_n (m_off f) (disp_size f))); [done|]. injection H as <-.
  rewrite <- !app_assoc. done.
Qed.

(** From the description on, with the operands as they come out of ModR/M. *)
Lemma desc_decodes T root opc o d b p modrm size0 rest1 i0 op v k :
  knows T root opc d -> has o OPC_VEX = has opc OPC_VEX -> prefix_lock p = false -> b = (enc_opc [] o).2 ++ modrm :: rest1 -> in_u 8 modrm ->
  size0 = sized d (op_sizes DECODE_64 (escape_found o) d) (Z.land (Z.shiftr (operand_sizes d) 0) 3) ->
  (if Z.land modrm 0xc0 =? 0xc0 then op = modrm_reg (escape_found o) d modrm size0 /\ v = f_disp i0 /\ k = opc_size o + 1
   else modrm_mem DECODE_64 b (escape_found o) d modrm size0 (opc_size o + 1) = RVal (op, v, k)) -> 0 <= k < 256 ->
  exists i, decode_desc T DECODE_64 b p (escape_found o) d (opc_size o) 0 i0 = RVal i /\ f_size i = k /\ f_disp i = v /\
    op_at (f_operands i) (Z.to_nat (DESC_MODRM_IDX d)) = op /\
    op_at (f_operands i) (Z.to_nat (DESC_MODREG_IDX d)) = modreg_op (escape_found o) d modrm (op_sizes DECODE_64 (escape_found o) d).
Proof.
  intros K Hv Hlk Hb Hm Hsz Hop Hk. destruct K as [_ _ Kmod Krm Kreg Kvex Kimm _ Kidx _ Ksize Kty].
  do 5 (apply Forall_cons in Kty as [? Kty]). apply Forall_cons in Kty as [? _].
  pose proof (opc_size_length [] o) as Hl. cbn [length] in Hl. unfold decode_desc. cbv zeta. rewrite Kmod.
  assert ((Z.of_nat (length b) <=? opc_size o) = false) as -> by (apply Z.leb_gt; rewrite Hb, length_app; cbn [length]; lia). rewrite rd_ret_bind. cbv beta.
  replace (opc_size o + 1 - 1) with (opc_size o) by lia. assert (byte_at b (opc_size o) = RVal modrm) as -> by (rewrite Hb; apply byte_here; lia). rewrite rd_val_bind. cbv beta. cbn [negb bit_if]. rewrite Z.lor_0_r.
  set (f1 := mkFilled _ _ _ _). set (modreg := modreg_op _ _ _ _). set (sizes := op_sizes _ _ _) in *.
  assert (operands T DECODE_64 b p (escape_found o) d sizes modrm 0 f1 =
    RVal (mkFilled (set_op (DESC_MODRM_IDX d) op (set_op (DESC_MODREG_IDX d) modreg (replicate 4 (mkOp 0 0 0 0)))) v (f_imm i0) k)) as ->.
  { unfold operands. rewrite H, H0, Kreg, Krm, Kvex. cbn [orb]. cbv zeta. cbn [ops f1 off disp imm]. rewrite <- Hsz.
    assert (vex_operand (escape_found o) = 0) as -> by done. cbn [Z.eqb negb].
    destruct (Z.land modrm 0xc0 =? 0xc0).
    - destruct Hop as (-> & -> & ->). rewrite rd_ret_bind. cbv beta. rewrite rd_ret_bind. unfold immediate. rewrite Kimm. done.
    - rewrite Hop, rd_val_bind. cbv beta iota. rewrite rd_ret_bind. cbv beta. rewrite rd_ret_bind. unfold immediate. rewrite Kimm. done. }
  rewrite rd_val_bind. cbv beta. cbn [ops imm disp off]. unfold xchg_nop, check_3dnow. rewrite H1, H2, H3, H4, Hlk.
  rewrite rd_ret_bind. cbv beta. rewrite rd_ret_bind. cbv beta. rewrite (proj2 (Z.eqb_neq sizes.1 1)) by apply Ksize. cbn [orb andb].
  eexists. split; [reflexivity|]. cbn [f_size f_disp f_operands]. split; [apply wrap_small; done|]. split; [done|].
  assert (0 <= DESC_MODRM_IDX d < 4 /\ 0 <= DESC_MODREG_IDX d < 4) as [Hi1 Hi2].
  { assert (forall x, 0 <= Z.lxor (Z.land x 3) 3 < 4) as Hx; [|split; apply Hx].
    intros x. pose proof (Z.land_ones x 2 ltac:(lia)) as E. change (Z.ones 2) with 3 in E. rewrite E.
    assert (x `mod` 2 ^ 2 = 0 \/ x `mod` 2 ^ 2 = 1 \/ x `mod` 2 ^ 2 = 2 \/ x `mod` 2 ^ 2 = 3) as [-> | [-> | [-> | ->]]] by zdm; done. }
  assert (forall l i x, length l = 4%nat -> 0 <= i < 4 -> op_at (set_op i x l) (Z.to_nat i) = x) as Hset.
  { intros l i x Hl4 Hi. unfold op_at, set_op. by rewrite list_lookup_insert_eq by lia. }
  split; [apply Hset; [unfold set_op; by rewrite length_insert|done]|].
  unfold op_at, set_op at 1. rewrite list_lookup_insert_ne by lia. by apply Hset.
Qed.

(** The operand the decoder is to report for [op]. *)
Definition reported (op size : Z) : FdOp :=
  if op_reg op then mkOp FD_OT_REG size (op_reg_idx op) FD_RT_GPL else mkOp FD_OT_MEM size (base_of op) (misc_of op).

Lemma three_byte a b c : 0 <= a < 4 -> 0 <= b < 8 -> 0 <= c < 8 -> in_u 8 (three a b c).
Proof.
  intros Ha Hb Hc. unfold three. rewrite Z.lor_comm. rewrite (Z.lor_comm (Z.shiftl a 6)).
  replace (Z.shiftl a 6) with (Z.shiftl (Z.shiftl a 3) 3) by (by rewrite Z.shiftl_shiftl by lia). rewrite <- Z.shiftl_lor. rewrite !lor_shiftl_add by lia. unfold in_u. lia.
Qed.

(** The ModR/M byte and what follows, in front of any bytes. *)
Lemma operand_decodes opc op0 op1 f d rest e size pre :
  let o := mr_opc opc op0 op1 in
  let modrm := three (m_mod f) (Z.land op1 7) (m_rm f) in
  has opc OPC_VSIB = false -> DESC_VSIB d = false -> DESC_REGTY_MODRM d = 0 -> (op_reg op0 = true -> op_reg_gpl op0 = true) ->
  (if op_reg op0 then f = reg_form op0 else mem_form o (opc_size o) 0 op0 = Some f) ->
  has (e_rex e) PREFIX_REXB = add_b op0 -> has (e_rex e) PREFIX_REXX = add_x op0 -> Z.of_nat (length pre) = opc_size o ->
  0 <= m_mod f < 4 /\ 0 <= m_rm f < 8 /\
  let b := pre ++ modrm :: emit (has_sib f) (three (m_scale f) (m_idx f) (m_base f)) ++ le_bytes (m_off f) (Z.to_nat (disp_size f)) ++ rest in
  if Z.land modrm 0xc0 =? 0xc0 then op_reg op0 = true /\ reported op0 size = modrm_reg e d modrm size /\ has_sib f = false /\ disp_size f = 0
  else op_reg op0 = false /\
    modrm_mem DECODE_64 b e d modrm size (opc_size o + 1) =
    RVal (reported op0 size, off_of op0 (opc_size o + 5), opc_size o + 1 + Z.b2z (has_sib f) + disp_size f).
Proof.
  intros o modrm Hv Hvs Hty Hg Hf HB HX Hlen. assert (0 <= Z.land op1 7 < 8) as Hreg.
  { pose proof (Z.land_ones op1 3 ltac:(lia)) as E. change (Z.ones 3) with 7 in E. rewrite E. apply Z.mod_pos_bound. lia. }
  unfold add_b, add_x, reported in *. destruct (op_reg op0) eqn:Eop; cbn [negb andb] in *.
  - subst f. assert (0 <= op0) as H0 by (unfold op_reg in Eop; lia). destruct (gpl_parts op0 H0 (Hg eq_refl)) as (Hr & H7 & Hb7 & Hsum & H8).
    unfold modrm, has_sib, disp_size, reg_form. cbn [m_mod m_rm negb andb Z.eqb Pos.eqb orb FadecEnc.mod0off]. split; [lia|]. split; [lia|].
    destruct (three_fields 3 (Z.land op1 7) (Z.land (op_reg_idx op0) 7)) as (F1 & F2 & F3); [lia..|]. rewrite F1. change (Z.shiftl 3 6 =? 0xc0) with true.
    unfold modrm_reg. cbv iota zeta. split_and!; try done. rewrite F3, Hty, HB, H7, H8. change (negb (has 0 4)) with true. cbv iota. by rewrite Hsum.
  - destruct (form_spec _ _ _ _ _ Hf) as (_ & _ & _ & Hmod & Hrm & _). split; [lia|]. split; [lia|]. cbv zeta.
    destruct (three_fields (m_mod f) (Z.land op1 7) (m_rm f)) as (F1 & F2 & F3); [lia..|]. unfold modrm. rewrite F1.
    assert ((Z.shiftl (m_mod f) 6 =? 0xc0) = false) as ->.
    { assert (m_mod f = 0 \/ m_mod f = 1 \/ m_mod f = 2) as [-> | [-> | ->]] by lia; done. }
    split; [done|]. assert (has o OPC_VSIB = false) as Hvo by (unfold o, has; rewrite mr_opc_keeps by done; exact Hv).
    pose proof (mem_decodes o (opc_size o) 0 op0 f e d size (Z.land op1 7) (pre ++ [three (m_mod f) (Z.land op1 7) (m_rm f)]) rest (opc_size o + 1)
      Hvo Hf Hvs Hreg HB HX) as D. rewrite <- app_assoc, Z.add_0_r in D. cbn [app] in D.
    apply D. rewrite length_app. cbn. lia.
Qed.

(** An operand relative to [rip] has no SIB byte and a 32-bit offset. *)
Lemma off_length opc opcsz op f :
  mem_form opc opcsz 0 op = Some f -> off_of op (opcsz + 5) = off_of op (opcsz + 1 + Z.b2z (has_sib f) + disp_size f).
Proof.
  intros Hf. destruct (form_spec _ _ _ _ _ Hf) as (_ & _ & _ & Hmod & Hrm & Hbase & Hm0 & Hreg). unfold off_of, base_of in *.
  destruct (Z.eqb_spec (op_mem_base op) FE_IP) as [E|]; [|done]. rewrite E in Hreg. change (bit_if (has FE_IP 8) 8) with 0 in Hreg. change (FE_IP =? 0) with false in Hreg.
  unfold base_field, FD_REG_IP, FD_REG_NONE in *.
  destruct (Z.eqb_spec (m_mod f) 0) as [Em|], (Z.eqb_spec (m_rm f) 5) as [Er|]; cbn [andb] in *.
  - unfold has_sib, disp_size. rewrite Hm0, Em, Er. cbn [Z.eqb Pos.eqb negb andb orb Z.b2z]. do 2 f_equal. lia.
  - repeat case_match; lia.
  - repeat case_match; lia.
  - repeat case_match; lia.
Qed.

Lemma modreg_reported e d modrm sizes op1 a c :
  0 <= op1 -> op_reg_gpl op1 = true -> DESC_REGTY_MODREG d = 0 -> has (e_rex e) PREFIX_REXR = add_r op1 -> 0 <= a < 4 -> 0 <= c < 8 ->
  modrm = three a (Z.land op1 7) c -> exists size, modreg_op e d modrm sizes = reported op1 size.
Proof.
  intros H0 Hg Hty HR Ha Hc ->. destruct (gpl_parts op1 H0 Hg) as (Hr & H7 & Hb7 & Hsum & H8).
  destruct (three_fields a (Z.land op1 7) c) as (_ & F2 & _); [lia..|]. unfold modreg_op, reported, add_r in *.
  assert (op_reg op1 = true) as E by (unfold op_reg; lia). rewrite E in *. cbn [andb] in HR. rewrite F2, Hty, HR, H8. change (negb (has 0 4)) with true. cbv iota.
  rewrite Hsum. eexists. done.
Qed.

(** Up to the opcode: the decoder finds the description. *)
Lemma fd_decode_front T root opc d op0 op1 mid rest i0 :
  let o := mr_opc opc op0 op1 in
  knows T root opc d -> plain_opc opc -> Z.of_nat (length ((enc_opc [] o).2 ++ mid)) <= 15 ->
  exists p rest', prefix_lock p = false /\
    fd_decode T (((enc_opc [] o).2 ++ mid) ++ rest) 64 0 i0 =
    (i ← decode_desc T DECODE_64 ((enc_opc [] o).2 ++ mid ++ rest') p (escape_found o) d (opc_size o) 0 i0; mret (f_size i, i)).
Proof.
  intros o K Hp H15. pose proof (mr_opc_plain _ op0 op1 Hp) as Hpo. fold o in Hpo. pose proof (opc_size_pos o) as Hpos.
  unfold fd_decode. rewrite take_app_ge, <- app_assoc by lia. set (rest' := take _ rest). rewrite (k_root _ _ _ _ K).
  change (64 =? 32) with false. change (64 =? 64) with true. cbv iota. cbn [mbind option_bind is_64]. fold pfx0.
  destruct (front o (mid ++ rest') Hpo) as (p & k & -> & Hk & Hlk & He). fold (last_rex p k). cbv zeta in He. exists (last_rex p k), rest'. split; [done|].
  rewrite (proj2 (Z.leb_gt _ _)) by lia. rewrite He, rd_val_bind. cbv beta. set (b := (enc_opc [] o).2 ++ mid ++ rest') in *.
  destruct (opc_last o (proj1 (proj2 (proj2 (proj2 Hpo))))) as (pre & Epre & Hpre).
  assert (forall m, Z.land OPC_REXB m = 0 -> Z.land OPC_REXX m = 0 -> Z.land OPC_REXR m = 0 -> Z.land o m = Z.land opc m) as Hkeep by (intros; by apply mr_opc_keeps).
  rewrite (k_desc _ _ _ _ K b o); [done|..].
  - rewrite <- (Hkeep 0xff) by done. unfold b. rewrite Epre, <- app_assoc. apply byte_here. lia.
  - intros m Hin. unfold has. rewrite Hkeep; [done|..]; cbn [In] in Hin; intuition (subst; done).
  - pose proof (escape_bits o) as E. rewrite Hkeep, escape_bits in E by done. rewrite !Z.shiftl_mul_pow2 in E by lia. lia.
Qed.

(** C20. Encoding and decoding are inverse for instructions with a ModR/M byte:
    for decoder tables that know the opcode, whatever [enc_mr] writes for a
    register operand and a register or memory operand - with legacy prefixes
    and REX or with VEX, any base, index, scale and offset the encoder accepts,
    [rip] included - [fd_decode] reads as an instruction of exactly that length
    with these two operands, no matter what follows.  An offset from [rip] comes
    back relative to the end of the instruction. *)
Theorem modrm_roundtrip T root opc d op0 op1 out rest i0 :
  knows T root opc d -> plain_opc opc -> has opc OPC_REXB = false -> has opc OPC_REXX = false -> has opc OPC_REXR = false ->
  has opc OPC_VSIB = false -> 0 <= op1 -> op_reg_gpl op1 = true -> (op_reg op0 = true -> op_reg_gpl op0 = true) ->
  enc_mr [] opc op0 op1 0 = (0, out) ->
  exists i size0 size1, fd_decode T (out ++ rest) 64 0 i0 = RVal (Z.of_nat (length out), i) /\
    op_at (f_operands i) (Z.to_nat (DESC_MODRM_IDX d)) = reported op0 size0 /\
    op_at (f_operands i) (Z.to_nat (DESC_MODREG_IDX d)) = reported op1 size1 /\
    (op_mem op0 = true -> f_disp i = off_of op0 (Z.of_nat (length out))).
Proof.
  intros K Hp HB HX HR Hv H1 Hg1 Hg0 Henc. set (o := mr_opc opc op0 op1) in *.
  destruct (enc_mr_shape _ _ _ _ _ Henc) as (f & Hf & -> & H15). fold o in Hf, H15 |- *.
  destruct (mr_opc_rex opc op0 op1 HB HX HR) as (RB & RX & RR). fold o in RB, RX, RR. destruct (rex_of_bits o) as (XB & XX & XR).
  assert (length (le_bytes (m_off f) (Z.to_nat (disp_size f))) = Z.to_nat (disp_size f)) as Hle by (unfold le_bytes; by rewrite length_map, length_seq).
  assert (0 <= disp_size f <= 4) as Hds by (unfold disp_size; repeat case_match; lia).
  pose proof (opc_size_length [] o) as Hsz. cbn [length] in Hsz. pose proof (opc_size_pos o) as Hpos.
  set (modrm := three (m_mod f) (Z.land op1 7) (m_rm f)). set (sib := emit (has_sib f) _). set (dsp := le_bytes _ _) in *.
  set (len := opc_size o + 1 + Z.b2z (has_sib f) + disp_size f) in *.
  assert (Z.of_nat (length ((enc_opc [] o).2 ++ modrm :: sib ++ dsp)) = len) as Hlen.
  { rewrite length_app. cbn [length]. rewrite length_app, Hle. unfold sib, len. pose proof (length_emit (has_sib f) (three (m_scale f) (m_idx f) (m_base f))). lia. }
  destruct (fd_decode_front T root opc d op0 op1 (modrm :: sib ++ dsp) rest i0 K Hp) as (p & rest' & Hlk & Hfd); [fold o; lia|]. fold o in Hfd. rewrite Hfd. cbn [app].
  rewrite <- app_assoc. set (b := (enc_opc [] o).2 ++ modrm :: sib ++ dsp ++ rest'). set (sizes := op_sizes DECODE_64 (escape_found o) d).
  set (size0 := sized d sizes (Z.land (Z.shiftr (operand_sizes d) 0) 3)).
  destruct (operand_decodes opc op0 op1 f d rest' (escape_found o) size0 (enc_opc [] o).2 Hv (k_vsib _ _ _ _ K) (proj1 (k_gpl _ _ _ _ K)) Hg0 Hf) as (Ham & Hac & Hdec);
    [by rewrite <- RB, <- XB|by rewrite <- RX, <- XX|done|]. fold o modrm sib dsp b len in Hdec. cbv zeta in Hdec.
  assert (0 <= Z.land op1 7 < 8) as H7 by apply (gpl_parts op1 H1 Hg1).
  destruct (modreg_reported (escape_found o) d modrm sizes op1 (m_mod f) (m_rm f) H1 Hg1 (proj2 (k_gpl _ _ _ _ K))) as (size1 & Hr1); [by rewrite <- RR, <- XR|done|done|done|].
  assert (exists v, (if Z.land modrm 0xc0 =? 0xc0 then reported op0 size0 = modrm_reg (escape_found o) d modrm size0 /\ v = f_disp i0 /\ len = opc_size o + 1
      else modrm_mem DECODE_64 b (escape_found o) d modrm size0 (opc_size o + 1) = RVal (reported op0 size0, v, len)) /\ (op_mem op0 = true -> v = off_of op0 len)) as (v & Hop & Hoff).
  { assert (op_mem op0 = negb (op_reg op0)) as Emem by (unfold op_mem, op_reg; destruct (Z.ltb_spec op0 0), (Z.leb_spec 0 op0); (done || lia)). rewrite Emem.
    destruct (Z.land modrm 0xc0 =? 0xc0).
    - destruct Hdec as (-> & Hr & Hs & Hd). exists (f_disp i0). split; [|done]. split_and!; try done. unfold len. rewrite Hs, Hd. cbn [Z.b2z]. lia.
    - destruct Hdec as (Er & Hr). exists (off_of op0 (opc_size o + 5)). split; [done|]. intros _. rewrite Er in Hf. by apply (off_length o). }
  destruct (desc_decodes T root opc o d b p modrm size0 (sib ++ dsp ++ rest') i0 (reported op0 size0) v len K) as (i & -> & Hi1 & Hi2 & Hi3 & Hi4); try done.
  { unfold o, has. by rewrite mr_opc_keeps. }
  { by apply three_byte. }
  { unfold len. destruct (has_sib f); cbn [Z.b2z] in *; lia. }
  exists i, size0, size1. rewrite rd_val_bind, Hlen, Hi1. split_and!; try done; [by rewrite Hi4|intros Em; rewrite Hi2; by apply Hoff].
Qed.

(** [mov rcx, [rax + 8 * r9 + 0x1234]] with the tables of [two_opcodes]. *)
Definition mov_opc : Z := Z.lor 0x8b OPC_REXW.
Definition mov_mem : Z := FE_MEM 0x100 8 0x109 0x1234.
Definition mov_enc : list Z := [0x4a; 0x8b; 0x8c; 0xc8; 0x34; 0x12; 0; 0].

Lemma two_opcodes_knows : knows two_opcodes 0 mov_opc (mkDesc 2 14 10 0x4000).
Proof.
  split; try reflexivity; try discriminate.
  - intros b o Hb Hm He. unfold find_desc, escape_found. cbn [e_escape e_off]. rewrite (Hm OPC_VEX) by (cbn; tauto). change (has mov_opc OPC_VEX) with false. cbv iota.
    rewrite He. change (escape_of mov_opc) with 0. change (table_walk two_opcodes 0 0) with (8, ENTRY_TABLE256). change (Z.land mov_opc 0xff) with 0x8b in Hb.
    assert ((opc_size o - 1 <? Z.of_nat (length b)) = true) as ->.
    { apply Z.ltb_lt. unfold byte_at in Hb. destruct (b !! Z.to_nat (opc_size o - 1)) eqn:E; [|discriminate]. apply lookup_lt_Some in E. pose proof (opc_size_pos o). lia. }
    rewrite Hb. change (ENTRY_TABLE256 =? ENTRY_TABLE256) with true. cbn [andb]. rewrite rd_val_bind. cbv beta.
    change (table_walk two_opcodes 8 0x8b) with (4, ENTRY_INSTR). rewrite rd_ret_bind. cbn. do 2 f_equal. lia.
  - by split.
  - intros e. change ((op_sizes DECODE_64 e (mkDesc 2 14 10 0x4000)).1) with (if has (e_rex e) PREFIX_REXW || false then 4 else if e_66 e && true then 2 else 3).
    destruct (has (e_rex e) PREFIX_REXW), (e_66 e); discriminate.
  - repeat (apply Forall_cons; split; [reflexivity|]). by apply Forall_nil.
Qed.

Lemma mov_opc_plain : plain_opc mov_opc.
Proof. repeat split; try discriminate; reflexivity. Qed.

Lemma modrm_roundtrip_witness :
  enc_mr [] mov_opc mov_mem 0x101 0 = (0, mov_enc) /\
  exists i, fd_decode two_opcodes (mov_enc ++ [0x90]) 64 0 zero_instr = RVal (8, i) /\
    op_at (f_operands i) 1 = mkOp FD_OT_MEM 4 0 (3 * 64 + 9) /\ f_disp i = 0x1234.
Proof.
  split; [vm_compute; reflexivity|].
  destruct (modrm_roundtrip two_opcodes 0 mov_opc (mkDesc 2 14 10 0x4000) mov_mem 0x101 mov_enc [0x90] zero_instr two_opcodes_knows mov_opc_plain)
    as (i & size0 & size1 & Hd & H0 & H1 & H2); [vm_compute; (reflexivity || discriminate)..|].
  exists i. split; [exact Hd|]. split; [|exact (H2 eq_refl)].
  assert (fd_decode two_opcodes (mov_enc ++ [0x90]) 64 0 zero_instr = RVal (8, i)) as E by exact Hd. vm_compute in E. injection E as <-. vm_compute. reflexivity.
Defined.
