(* ===== verification/ServerDecode.v ===== *)
(** * Classifying guest instructions, [server/decode.cc]

    The server decodes the guest's code once before it lifts it, to find the
    extent of a function.  Three decoders stand behind one result type:
    [Fadec], whose tables are parameters, [Frvdec] and [FarmdecDecode]. *)

From Stdlib Require Import ZArith Lia String.
From stdpp Require Import base numbers list gmap.
From S2P Require Import Prelude Machine Fadec Frvdec Farmdec FarmdecDecode.

Inductive DecodeKind := FAILED | NORMAL | BRANCH | COND_BRANCH | CALL | UNKNOWN_TGT.
#[global] Instance DecodeKind_eq_dec : EqDecision DecodeKind.
Proof. solve_decision. Defined.

(** [size] is a byte, [branch_target] a 64-bit address. *)
Record DecodeResult := mkRes { result : DecodeKind; size : Z; branch_target : Z }.
Definition failed : DecodeResult := mkRes FAILED 0 0.

(** ** x86-64 *)

Section X86.
(** The decoder's tables and the uninitialised record on the stack. *)
Context (T : FdTables) (fd0 : FdInstr).

(** The conditional jumps the switch names, and the instructions without a known target. *)
Definition cond_jumps : list string :=
  ["JO"; "JNO"; "JC"; "JNC"; "JZ"; "JNZ"; "JBE"; "JA"; "JS"; "JNS"; "JP"; "JNP"; "JL"; "JGE"; "JLE"; "JG"; "JCXZ"; "LOOP"; "LOOPZ"; "LOOPNZ"]%string.
Definition no_target : list string := ["RET"; "SYSCALL"; "INT"; "INT3"; "INTO"; "UD0"; "UD1"; "UD2"; "HLT"]%string.

Definition is_type (ty : Z) (names : list string) : bool := existsb (fun name => ty =? FDI T name) names.

Definition x86_kind (addr size : Z) (fd : FdInstr) : DecodeResult :=
  let target := u64 (addr + size + f_imm fd) in
  if is_type (f_type fd) cond_jumps then mkRes COND_BRANCH size target
  else if is_type (f_type fd) ["JMP"%string] then
    if o_type (op_at (f_operands fd) 0) =? FD_OT_OFF then mkRes BRANCH size target else mkRes UNKNOWN_TGT size 0
  else if is_type (f_type fd) ["CALL"%string] then mkRes CALL size 0
  else if is_type (f_type fd) no_target then mkRes UNKNOWN_TGT size 0
  else mkRes NORMAL size 0.

(** The decoder does not read outside the buffer ([fd_decode_safe]); the case is arbitrary. *)
Definition DecodeX86_64 (addr : Z) (buf : list Z) : DecodeResult :=
  match fd_decode T buf 64 0 fd0 with
  | RVal (ret, fd) => if ret <? 0 then failed else x86_kind addr (u8 ret) fd
  | RErr _ | ROob => failed
  end.
End X86.

(** ** RISC-V *)

Section RV64.
(** The uninitialised record on the stack. *)
Context (frv0 : FrvInst).

Definition rv64_kind (addr size : Z) (frv : FrvInst) : DecodeResult :=
  let m := mnem frv in
  let target := u64 (addr + Frvdec.imm frv) in
  if (m =? FRV_BEQ) || (m =? FRV_BNE) || (m =? FRV_BLT) || (m =? FRV_BGE) || (m =? FRV_BLTU) || (m =? FRV_BGEU) then
    mkRes COND_BRANCH size target
  else if m =? FRV_JAL then mkRes (if negb (Frvdec.rd frv =? 0) then CALL else BRANCH) size target
  else if m =? FRV_JALR then mkRes (if negb (Frvdec.rd frv =? 0) then CALL else UNKNOWN_TGT) size 0
  else if m =? FRV_ECALL then mkRes UNKNOWN_TGT size 0
  else mkRes NORMAL size 0.

Definition DecodeRV64 (addr : Z) (buf : list Z) : DecodeResult :=
  let '(ret, frv) := frv_decode (store_bytes ∅ 0 buf) (Z.of_nat (length buf)) 0 FRV_RV64 frv0 in
  if ret <? 0 then failed else rv64_kind addr (u8 ret) frv.
End RV64.

(** ** AArch64 *)

Section AArch64.
Context (shl64 : Z -> Z) (err_addr : string -> Z).
(** The record before decoding, and what is left in it by a word whose decoding
    is undefined. *)
Context (fad0 undefined : Inst).

Definition fad_offset (i : Inst) : Z :=
  match operand i with UOffset o => o | UTbz o _ => o | _ => 0 end.

Definition a64_kind (addr : Z) (fad : Inst) : DecodeResult :=
  let target := u64 (addr + fad_offset fad) in
  match op fad with
  | A64_ERROR | A64_UNKNOWN => failed
  | A64_BCOND | A64_CBZ | A64_CBNZ | A64_TBZ | A64_TBNZ => mkRes COND_BRANCH 4 target
  | A64_B => mkRes BRANCH 4 target
  | A64_BL | A64_BLR => mkRes CALL 4 0
  | A64_BR | A64_RET | A64_SVC | A64_HVC | A64_SMC | A64_BRK | A64_HLT | A64_DCPS1 | A64_DCPS2 | A64_DCPS3 => mkRes UNKNOWN_TGT 4 0
  | _ => mkRes NORMAL 4 0
  end.

Definition DecodeAArch64 (addr : Z) (buf : list Z) : DecodeResult :=
  match buf with
  | b0 :: b1 :: b2 :: b3 :: _ =>
      let binst := Z.lor (Z.lor (Z.lor b0 (Z.shiftl b1 8)) (Z.shiftl b2 16)) (Z.shiftl b3 24) in
      match fad_decode shl64 err_addr [binst] 1 [fad0] with
      | Some (_, fad :: _) => a64_kind addr fad
      | _ => a64_kind addr undefined
      end
  | _ => failed
  end.
End AArch64.
