(* ===== verification/ServerDecodeProofs.v ===== *)
(** * The classification of guest instructions is right

    For every 32-bit instruction of the RISC-V manual, the AArch64 branches and
    the x86 jumps with an 8-bit offset, given by independent encoders, the server sees
    the control flow that the architecture defines; sizes never exceed the bytes
    that were read. *)

From Stdlib Require Import ZArith Lia String.
From stdpp Require Import base numbers list gmap.
From S2P Require Import Prelude Machine RtldElf Fadec Frvdec FrvIsa FrvdecProofs Farmdec FarmdecProofs FarmdecDecode FarmdecWf FarmdecDecodeProofs ServerDecode.

(** ** Targets are addresses, sizes are within the buffer *)

Lemma x86_target T fd0 addr buf : in_u 64 (branch_target (DecodeX86_64 T fd0 addr buf)).
Proof.
  unfold DecodeX86_64. destruct (fd_decode _ _ _ _ _) as [[ret fd]| |]; [|done..]. destruct (ret <? 0); [done|]. unfold x86_kind. cbv zeta.
  repeat (case_match; cbn [branch_target]); first [apply wrap_range; lia | done].
Qed.

Lemma rv64_target frv0 addr buf : in_u 64 (branch_target (DecodeRV64 frv0 addr buf)).
Proof.
  unfold DecodeRV64. destruct (frv_decode _ _ _ _ _) as [ret frv]. destruct (ret <? 0); [done|]. unfold rv64_kind. cbv zeta.
  repeat (case_match; cbn [branch_target]); first [apply wrap_range; lia | done].
Qed.

Lemma a64_kind_target addr i : in_u 64 (branch_target (a64_kind addr i)).
Proof. unfold a64_kind. cbv zeta. destruct (op i); cbn [branch_target]; first [apply wrap_range; lia | done]. Qed.

Lemma a64_target shl64 err_addr fad0 undefined addr buf : in_u 64 (branch_target (DecodeAArch64 shl64 err_addr fad0 undefined addr buf)).
Proof.
  unfold DecodeAArch64. destruct buf as [|b0 [|b1 [|b2 [|b3 rest]]]]; try done. cbv zeta.
  destruct (fad_decode _ _ _ _ _) as [[n [|fad out]]|]; apply a64_kind_target.
Qed.

(** ** RISC-V *)

(** The decoder reads four bytes at most. *)
Lemma frv_decode_ext m m' bufsz opt i0 :
  (forall x, 0 <= x < 4 -> getb m x = getb m' x) -> frv_decode m bufsz 0 opt i0 = frv_decode m' bufsz 0 opt i0.
Proof.
  intros H. unfold frv_decode, LOAD_LE_4, LOAD_LE_2. by rewrite !H by lia.
Qed.

(** What the manual says of the control flow, by the major opcode and funct3. *)
Definition rv_flow (r : Row) (i : FrvInst) (addr : Z) : DecodeResult :=
  let target := u64 (addr + Frvdec.imm i) in
  if r_op r =? 0x18 then mkRes COND_BRANCH 4 target
  else if r_op r =? 0x1b then mkRes (if Frvdec.rd i =? 0 then BRANCH else CALL) 4 target
  else if r_op r =? 0x19 then mkRes (if Frvdec.rd i =? 0 then UNKNOWN_TGT else CALL) 4 0
  else if (r_op r =? 0x1c) && (r_f3 r =? 0) then mkRes UNKNOWN_TGT 4 0
  else mkRes NORMAL 4 0.

Lemma isa_flow r i addr : In r isa -> mnem i = r_mnem r -> rv64_kind addr 4 i = rv_flow r i addr.
Proof.
  intros Hr Hm. unfold rv64_kind, rv_flow. rewrite Hm. clear Hm.
  assert (forall j, (if negb (j =? 0) then CALL else BRANCH) = (if j =? 0 then BRANCH else CALL)) as E1 by (intros j; by destruct (j =? 0)).
  assert (forall j, (if negb (j =? 0) then CALL else UNKNOWN_TGT) = (if j =? 0 then UNKNOWN_TGT else CALL)) as E2 by (intros j; by destruct (j =? 0)).
  rewrite E1, E2. generalize (u64 (addr + Frvdec.imm i)) (Frvdec.rd i). intros x y. unfold isa in Hr. cbn [In] in Hr.
  repeat (destruct Hr as [<-|Hr]; [reflexivity|]). done.
Qed.

Lemma rv64_word frv0 addr r i rest :
  In r isa -> operands_ok (r_fmt r) i -> mnem i = r_mnem r -> (fmt_rm (r_fmt r) = false -> misc i = misc frv0) ->
  DecodeRV64 frv0 addr (le4 (encode r i) ++ rest) = rv_flow r i addr.
Proof.
  intros Hr Hok Hm Hmisc. unfold DecodeRV64. destruct (encode_word r i Hr Hok) as (Hu & H3 & H7).
  rewrite (frv_decode_ext _ (storeZ ∅ 4 0 (encode r i))).
  - assert (length (le4 (encode r i)) = 4%nat) as H4 by apply (length_le 4).
    rewrite frv_decode_word by (try done; rewrite length_app, H4; lia). rewrite (decode4_encode r i) by done. cbn [Z.ltb Z.compare].
    change (u8 4) with 4. by apply isa_flow.
  - intros x Hx. rewrite store_bytes_app. unfold storeZ. apply getb_store_out. unfold le4. rewrite (length_le 4). lia.
Qed.

(** ** AArch64 *)

Lemma le4_bytes w : in_u 32 w -> exists b0 b1 b2 b3, le4 w = [b0; b1; b2; b3] /\
  Z.lor (Z.lor (Z.lor b0 (Z.shiftl b1 8)) (Z.shiftl b2 16)) (Z.shiftl b3 24) = w.
Proof.
  intros Hw. assert (le_Z' : little_endian_to_Z 8 (le4 w) = w).
  { unfold le4. rewrite little_endian_to_Z_to_little_endian by lia. apply Z.mod_small. exact Hw. }
  assert (length (le4 w) = 4%nat) as Hl by apply (length_le 4).
  destruct (le4 w) as [|b0 [|b1 [|b2 [|b3 [|]]]]]; try done. exists b0, b1, b2, b3. split; [done|]. rewrite <- le_Z' at 1. cbn [little_endian_to_Z].
  rewrite !Z.shiftl_0_l, !Z.lor_0_r, !Z.shiftl_lor, !Z.shiftl_shiftl, !Z.lor_assoc by lia. done.
Qed.

(** A branch in the buffer. *)
Lemma a64_branch shl64 err_addr fad0 undefined addr w i rest :
  in_u 32 w -> (w / 2 ^ 25) `mod` 2 ^ 4 = 10 \/ (w / 2 ^ 25) `mod` 2 ^ 4 = 11 -> branches w = i -> op i <> A64_UNKNOWN ->
  DecodeAArch64 shl64 err_addr fad0 undefined addr (le4 w ++ rest) = a64_kind addr i.
Proof.
  intros Hw Hg Hb Hop. destruct (le4_bytes w Hw) as (b0 & b1 & b2 & b3 & -> & E). unfold DecodeAArch64. cbn [app]. rewrite E.
  assert (decode_word shl64 err_addr w = Some i) as Hd.
  { unfold decode_word, decode_group. rewrite (bits_at w 25 15 4) by done. rewrite Hb.
    destruct Hg as [-> | ->]; cbn [mbind option_bind]; unfold keep_word; by destruct (op i). }
  unfold fad_decode. change (Z.to_nat 1) with 1%nat. cbn [fad_decode_from lookup list_lookup mbind option_bind]. rewrite Hd. done.
Qed.

(** Branches to a register: [BR], [BLR] and [RET], by the field [opc]. *)
Definition enc_br (opc rn : Z) : Z := 107 * 2 ^ 25 + opc * 2 ^ 21 + 31 * 2 ^ 16 + rn * 2 ^ 5.
Lemma branches_reg opc rn : 0 <= opc < 3 -> 0 <= rn < 32 ->
  op (branches (enc_br opc rn)) = (if opc =? 0 then A64_BR else if opc =? 1 then A64_BLR else A64_RET).
Proof.
  intros Ho Hr. unfold branches, br_uncond_reg. cbv zeta. rewrite (bits_at _ 25 127 7), (bits_at _ 21 3 2) by done.
  assert (((enc_br opc rn) / 2 ^ 25) `mod` 2 ^ 7 = 107) as -> by (unfold enc_br; zdm).
  assert (((enc_br opc rn) / 2 ^ 21) `mod` 2 ^ 2 = opc) as -> by (unfold enc_br; zdm).
  assert (opc = 0 \/ opc = 1 \/ opc = 2) as [-> | [-> | ->]] by lia; done.
Qed.

Lemma a64_reg_branch shl64 err_addr fad0 undefined addr opc rn rest k :
  0 <= opc < 3 -> 0 <= rn < 32 -> k = (if opc =? 1 then CALL else UNKNOWN_TGT) ->
  DecodeAArch64 shl64 err_addr fad0 undefined addr (le4 (enc_br opc rn) ++ rest) = mkRes k 4 0.
Proof.
  intros Ho Hr ->. pose proof (branches_reg opc rn Ho Hr) as Hb.
  erewrite a64_branch; [|unfold in_u, enc_br; zdm|right; unfold enc_br; zdm|reflexivity|].
  - unfold a64_kind. rewrite Hb. assert (opc = 0 \/ opc = 1 \/ opc = 2) as [-> | [-> | ->]] by lia; done.
  - rewrite Hb. by destruct (opc =? 0), (opc =? 1).
Qed.

(** Exceptions: [SVC], [HVC], [SMC], [BRK], [HLT] and [DCPS1] to [DCPS3], by the
    fields [opc] and [LL]. *)
Definition exceptions : list (Z * Z) := [(0, 1); (0, 2); (0, 3); (1, 0); (2, 0); (5, 1); (5, 2); (5, 3)].
Definition enc_exc (opc ll imm : Z) : Z := 212 * 2 ^ 24 + opc * 2 ^ 21 + imm * 2 ^ 5 + ll.
Definition exception_ops : list Op := [A64_SVC; A64_HVC; A64_SMC; A64_BRK; A64_HLT; A64_DCPS1; A64_DCPS2; A64_DCPS3].
Lemma branches_exc opc ll imm : In (opc, ll) exceptions -> 0 <= imm < 2 ^ 16 ->
  In (op (branches (enc_exc opc ll imm))) exception_ops /\ in_u 32 (enc_exc opc ll imm) /\ (enc_exc opc ll imm / 2 ^ 25) `mod` 2 ^ 4 = 10.
Proof.
  intros Hin Hi. unfold branches, br_system, br_exception. cbv zeta. rewrite (bits_at _ 25 127 7), bit_at, (bits_at _ 21 7 3), (bits_at _ 0 3 2) by done.
  assert (0 <= opc < 8 /\ 0 <= ll < 4) as [Ho Hl].
  { unfold exceptions in Hin. cbn [In] in Hin. repeat (destruct Hin as [E|Hin]; [apply pair_equal_spec in E as [<- <-]; lia|]). done. }
  assert ((enc_exc opc ll imm / 2 ^ 25) `mod` 2 ^ 7 = 106) as -> by (unfold enc_exc; zdm).
  assert ((enc_exc opc ll imm / 2 ^ 24) `mod` 2 = 0) as -> by (unfold enc_exc; zdm).
  assert ((enc_exc opc ll imm / 2 ^ 21) `mod` 2 ^ 3 = opc) as -> by (unfold enc_exc; zdm).
  assert ((enc_exc opc ll imm / 2 ^ 0) `mod` 2 ^ 2 = ll) as -> by (unfold enc_exc; zdm).
  split_and!; [|unfold in_u, enc_exc; zdm|unfold enc_exc; zdm].
  unfold exceptions in Hin. cbn [In] in Hin.
  repeat (destruct Hin as [E|Hin]; [apply pair_equal_spec in E as [<- <-]; cbn; tauto|]). done.
Qed.

Lemma exception_stops addr i : In (op i) exception_ops -> a64_kind addr i = mkRes UNKNOWN_TGT 4 0 /\ op i <> A64_UNKNOWN.
Proof.
  unfold a64_kind, exception_ops. cbn [In]. intros H. repeat (destruct H as [<-|H]; [done|]). done.
Qed.

(** ** x86 *)

(** The jumps with an 8-bit offset, by opcode. *)
Definition jumps8 : list (Z * string) :=
  [(0x70, "JO"); (0x71, "JNO"); (0x72, "JC"); (0x73, "JNC"); (0x74, "JZ"); (0x75, "JNZ"); (0x76, "JBE"); (0x77, "JA");
   (0x78, "JS"); (0x79, "JNS"); (0x7a, "JP"); (0x7b, "JNP"); (0x7c, "JL"); (0x7d, "JGE"); (0x7e, "JLE"); (0x7f, "JG");
   (0xe0, "LOOPNZ"); (0xe1, "LOOPZ"); (0xe2, "LOOP"); (0xe3, "JCXZ"); (0xeb, "JMP")]%string.

(** The tables have a jump with an 8-bit offset at the one-byte opcode [op]. *)
Definition jump8 (T : FdTables) (op ty : Z) : Prop :=
  exists root t k, FD_TABLE_OFFSET_64 T = Some root /\ table_walk T root 0 = (t, ENTRY_TABLE256) /\ table_walk T t op = (k, ENTRY_INSTR) /\
  let d := descs T (Z.shiftr k 2) in
  d_type d = ty /\ DESC_MODRM d = false /\ DESC_HAS_MODRM d = false /\ DESC_HAS_MODREG d = false /\ DESC_HAS_VEXREG d = false /\
  DESC_IMM_CONTROL d = 7 /\ DESC_IMM_IDX d = 0 /\
  Forall (fun name => (ty =? FDI T name) = false) ["MOV_CR"; "MOV_DR"; "XCHG_NOP"; "3DNOW"]%string.

(** What the opcodes of these jumps are not: a prefix, an escape or VEX. *)
Lemma jumps8_op op name off p : In (op, name) jumps8 ->
  prefix_64 op off p = None /\ (op =? 15) = false /\ (Z.land op 0xfe =? 0xc4) = false.
Proof.
  unfold jumps8. cbn [In]. intros H.
  repeat (destruct H as [E|H]; [apply pair_equal_spec in E as [<- <-]; done|]). done.
Qed.

(** [JMP], and only it, is not conditional. *)
Definition jmp_distinct (T : FdTables) : Prop := Forall (fun name => (FDI T "JMP" =? FDI T name) = false) cond_jumps.
Lemma jumps8_kind T op name : jmp_distinct T -> In (op, name) jumps8 ->
  is_type T (FDI T name) cond_jumps = negb (String.eqb name "JMP").
Proof.
  intros Hj Hin. destruct (String.eqb_spec name "JMP") as [->|Hne]; cbn [negb].
  - unfold is_type. destruct (existsb _ _) eqn:E; [|done]. apply existsb_exists in E as (n & Hn & E).
    apply list_elem_of_In in Hn. unfold jmp_distinct in Hj. rewrite Forall_forall in Hj. by rewrite (Hj _ Hn) in E.
  - unfold is_type. apply existsb_exists. exists name. split; [|apply Z.eqb_refl]. unfold jumps8 in Hin. cbn [In] in Hin.
    repeat (destruct Hin as [E|Hin]; [apply pair_equal_spec in E as [_ <-]; vm_compute; tauto || done|]). done.
Qed.

Definition plain_escape (p : Prefixes) : Escape := mkEsc 0 0 (prefix_rex p) (prefix_rep p) (prefix_66 p) 0.

Lemma jump8_escape op name bs p : In (op, name) jumps8 -> opcode_escape DECODE_64 (op :: bs) p 0 = RVal (plain_escape p).
Proof.
  intros H. unfold opcode_escape. change (byte_at (op :: bs) 0) with (RVal op). cbv zeta. unfold mbind, Rd_bind.
  by destruct (jumps8_op _ _ 0 p H) as (_ & -> & ->).
Qed.

Lemma jump8_desc T op bs p (root t k : Z) :
  table_walk T root 0 = (t, ENTRY_TABLE256) -> table_walk T t op = (k, ENTRY_INSTR) ->
  find_desc T (op :: bs) root (plain_escape p) = RVal (descs T (Z.shiftr k 2), 1).
Proof.
  intros Ht Hk. unfold find_desc, plain_escape. cbn [e_escape e_off]. rewrite Ht.
  assert ((0 <? Z.of_nat (length (op :: bs))) = true) as -> by (apply Z.ltb_lt; cbn; lia).
  change (byte_at (op :: bs) 0) with (RVal op). change (ENTRY_TABLE256 =? ENTRY_TABLE256) with true. cbn [andb]. unfold mbind, Rd_bind. rewrite Hk. done.
Qed.

Lemma jump8_operands T op b1 bs p d fd0 :
  DESC_MODRM d = false -> DESC_HAS_MODRM d = false -> DESC_HAS_MODREG d = false -> DESC_HAS_VEXREG d = false ->
  DESC_IMM_CONTROL d = 7 -> DESC_IMM_IDX d = 0 -> prefix_lock p = false ->
  Forall (fun name => (d_type d =? FDI T name) = false) ["MOV_CR"; "MOV_DR"; "XCHG_NOP"; "3DNOW"]%string ->
  exists i, decode_desc T DECODE_64 (op :: b1 :: bs) p (plain_escape p) d 1 0 fd0 = RVal i /\
    f_size i = 2 /\ f_type i = d_type d /\ f_imm i = swrap 8 b1 /\ o_type (op_at (f_operands i) 0) = FD_OT_OFF.
Proof.
  intros Hm Hrm Hreg Hvex Hctl Hidx Hlk Hne.
  apply Forall_cons in Hne as [Hcr Hne]. apply Forall_cons in Hne as [Hdr Hne]. apply Forall_cons in Hne as [Hx Hne]. apply Forall_cons in Hne as [H3d _].
  unfold decode_desc. rewrite Hm. cbn [mret Rd_ret mbind Rd_bind]. change (byte_at (op :: b1 :: bs) (1 - 1)) with (RVal op). cbn [mbind Rd_bind].
  unfold operands. rewrite Hcr, Hdr, Hrm, Hreg, Hvex. cbn [orb mret Rd_ret mbind Rd_bind plain_escape vex_operand Z.eqb negb].
  unfold immediate. rewrite Hctl, Hidx. cbn [Z.eqb Pos.eqb negb off].
  change (has 7 1) with true. change (has 7 2) with true. cbv iota.
  assert (need (op :: b1 :: bs) 1 1 = RVal tt) as ->.
  { unfold need. rewrite (proj2 (Z.ltb_ge _ _)); [done|]. cbn [length]. lia. }
  change (load_le 1 (op :: b1 :: bs) 1) with (RVal (Z.lor b1 0)). rewrite Z.lor_0_r. cbn [mbind Rd_bind mret Rd_ret Z.eqb negb ops imm off disp].
  unfold xchg_nop. rewrite Hx. unfold check_3dnow. rewrite H3d. rewrite Hlk. cbn [mbind Rd_bind mret Rd_ret imm off disp ops].
  eexists. split; [reflexivity|]. split_and!; [done..|]. cbn [f_operands]. by destruct (_ && _).
Qed.

(** A jump with an 8-bit offset, whatever follows it. *)
Lemma x86_jump8 T fd0 addr op name o rest :
  In (op, name) jumps8 -> jump8 T op (FDI T name) -> jmp_distinct T -> in_s 8 o ->
  DecodeX86_64 T fd0 addr (op :: wrap 8 o :: rest) =
  mkRes (if String.eqb name "JMP" then BRANCH else COND_BRANCH) 2 (u64 (addr + 2 + o)).
Proof.
  intros Hop (root & t & k & Hroot & Ht & Hk & Hty & Hm & Hrm & Hreg & Hvex & Hctl & Hidx & Hne) Hd Ho. rewrite <- Hty in Hne.
  unfold DecodeX86_64, fd_decode. change (take 15 (op :: wrap 8 o :: rest)) with (op :: wrap 8 o :: take 13 rest). set (tl := take 13 rest).
  cbn [Z.eqb Pos.eqb]. rewrite Hroot. cbn [mbind option_bind prefix_loop is_64]. rewrite (proj1 (jumps8_op op name _ _ Hop)).
  set (p := if negb _ then _ else _). rewrite (proj2 (Z.leb_gt _ _)) by (cbn [length]; lia).
  change (@mbind Rd Rd_bind) with (fun A B (f : A -> Rd B) r => Rd_bind A B f r). cbv beta. rewrite (jump8_escape op name) by done. cbn [Rd_bind].
  rewrite (jump8_desc T op _ _ root t k) by done. cbn [Rd_bind].
  destruct (jump8_operands T op (wrap 8 o) tl p _ fd0 Hm Hrm Hreg Hvex Hctl Hidx) as (i & -> & Hs & Hi & Him & Hot); [done|done|]. cbn [Rd_bind mret Rd_ret].
  rewrite Hs. cbn [Z.ltb Z.compare]. unfold x86_kind. rewrite Hi, Hty, Him, Hot, (jumps8_kind T op) by done. rewrite swrap_of_wrap by done.
  destruct (String.eqb_spec name "JMP") as [->|Hnj]; [|done]. cbn [negb is_type existsb]. by rewrite Z.eqb_refl.
Qed.

(** C17. The server sees the control flow of the guest.  RISC-V: for every
    32-bit instruction of the reference table with operands of its format,
    encoded at [addr], the kind and the target are those the major opcode stands
    for.  AArch64: [B], [B.cond], [CBZ], [CBNZ], [TBZ] and [TBNZ] with any offset
    in range are branches to [addr] plus the offset, all but the first
    conditional; [BL] and [BLR] are calls; [BR], [RET] and the instructions that
    raise an exception have no known target.  x86: for any decoder tables that
    describe the opcode and do not number [JMP] like a conditional jump, a jump with an 8-bit offset ([0x70] to [0x7f], [LOOP],
    [LOOPZ], [LOOPNZ], [JCXZ], and [JMP] at [0xeb], which alone is not
    conditional) goes to the end of the instruction plus the offset.  The bytes
    behind the instruction do not matter. *)
Theorem guest_flow addr rest :
  (forall frv0 r i, In r isa -> operands_ok (r_fmt r) i -> mnem i = r_mnem r -> (fmt_rm (r_fmt r) = false -> misc i = misc frv0) ->
     DecodeRV64 frv0 addr (le4 (encode r i) ++ rest) = rv_flow r i addr) /\
  (forall shl64 err_addr fad0 undefined o, o `mod` 4 = 0 ->
     let decode w := DecodeAArch64 shl64 err_addr fad0 undefined addr (le4 w ++ rest) in
     (in_s 28 o -> decode (enc_b false o) = mkRes BRANCH 4 (u64 (addr + o)) /\ decode (enc_b true o) = mkRes CALL 4 0) /\
     (in_s 21 o -> forall cond, 0 <= cond < 16 -> decode (enc_bcond cond o) = mkRes COND_BRANCH 4 (u64 (addr + o))) /\
     (in_s 21 o -> forall sf nz rt, 0 <= rt < 32 -> decode (enc_cb sf nz rt o) = mkRes COND_BRANCH 4 (u64 (addr + o))) /\
     (in_s 16 o -> forall nz b rt, 0 <= rt < 32 -> 0 <= b < 64 -> decode (enc_tb nz b rt o) = mkRes COND_BRANCH 4 (u64 (addr + o))) /\
     (forall rn, 0 <= rn < 32 ->
        decode (enc_br 0 rn) = mkRes UNKNOWN_TGT 4 0 /\ decode (enc_br 1 rn) = mkRes CALL 4 0 /\ decode (enc_br 2 rn) = mkRes UNKNOWN_TGT 4 0) /\
     (forall opc ll imm, In (opc, ll) exceptions -> 0 <= imm < 2 ^ 16 -> decode (enc_exc opc ll imm) = mkRes UNKNOWN_TGT 4 0)) /\
  (forall T fd0 op name o, In (op, name) jumps8 -> jump8 T op (FDI T name) -> jmp_distinct T -> in_s 8 o ->
     DecodeX86_64 T fd0 addr (op :: wrap 8 o :: rest) =
     mkRes (if String.eqb name "JMP" then BRANCH else COND_BRANCH) 2 (u64 (addr + 2 + o))).
Proof.
  split_and!; [intros; by apply rv64_word| |intros; by apply x86_jump8]. intros shl64 err_addr fad0 undefined o H4 decode. unfold decode. split_and!.
  - intros Ho. split; (erewrite a64_branch; [|enc_field|enc_field|by apply branches_b|done]); reflexivity.
  - intros Ho cond Hc. erewrite a64_branch; [|enc_field|enc_field|by apply branches_bcond|done]. reflexivity.
  - intros Ho sf nz rt Hrt. erewrite a64_branch; [|destruct sf, nz; enc_field|destruct sf, nz; enc_field|by apply branches_cb|by destruct nz].
    by destruct nz.
  - intros Ho nz b rt Hrt Hb. assert (b / 32 = 0 \/ b / 32 = 1) as Hq by zdm.
    erewrite a64_branch; [|destruct nz; enc_field|destruct nz; enc_field|by apply branches_tb|by destruct nz]. by destruct nz.
  - intros rn Hrn. split_and!; by apply a64_reg_branch.
  - intros opc ll imm Hin Hi. destruct (branches_exc opc ll imm Hin Hi) as (Ho & Hw & Hg). destruct (exception_stops addr _ Ho) as [Hk Hu].
    erewrite a64_branch; [exact Hk|done|by left|reflexivity|done].
Qed.

(** Tables with two instructions, [jnz] and [jmp] with an 8-bit offset. *)
Definition jumps_only : FdTables := mkTables
  (fun i => if i =? 0 then 18 else if i =? 8 + 0x75 then 1 else if i =? 8 + 0xeb then 9 else 0)
  (fun i => mkDesc (if i =? 1 then 8 else 7) 0x70c0 0 0)
  None (Some 0) (fun name => if String.eqb name "JNZ" then 7 else if String.eqb name "JMP" then 8 else 1000).

Lemma guest_flow_witness :
  DecodeRV64 (mkFrv 0 0 0 0 0 0 0) 0x1004 (le4 0xfe051ee3 ++ []) = mkRes COND_BRANCH 4 0x1000 /\
  DecodeAArch64 id (fun _ => 0) UNKNOWN_INST UNKNOWN_INST 0x1008 (le4 (enc_bcond 1 (-8)) ++ []) = mkRes COND_BRANCH 4 0x1000 /\
  enc_br 2 30 = 0xd65f03c0 /\ DecodeAArch64 id (fun _ => 0) UNKNOWN_INST UNKNOWN_INST 0x1008 (le4 0xd65f03c0 ++ []) = mkRes UNKNOWN_TGT 4 0 /\
  DecodeX86_64 jumps_only (mkInstr 0 0 0 0 0 0 [] 0 0 0) 0x1008 [0x75; 0xf6] = mkRes COND_BRANCH 2 0x1000 /\
  DecodeX86_64 jumps_only (mkInstr 0 0 0 0 0 0 [] 0 0 0) 0x1008 [0xeb; 0xf6] = mkRes BRANCH 2 0x1000.
Proof.
  assert (jmp_distinct jumps_only) as Hd by (repeat (apply Forall_cons; split; [reflexivity|]); apply Forall_nil; exact I).
  split; [|destruct (guest_flow 0x1008 []) as (_ & H & X); destruct (H id (fun _ => 0) UNKNOWN_INST UNKNOWN_INST (-8) eq_refl) as (_ & Hc & _ & _ & Hr & _);
    split; [|split; [reflexivity|split; [|split]]]].
  - destruct (guest_flow 0x1004 []) as [H _].
    apply (H (mkFrv 0 0 0 0 0 0 0) (mkRow FRV_BNE FB 0x18 1 0 0) (mkFrv FRV_BNE 255 10 0 255 0 (-4)));
      [vm_compute; tauto | | reflexivity | reflexivity].
    unfold operands_ok. cbn. unfold in_s. repeat split; lia || discriminate || reflexivity.
  - apply (Hc ltac:(split; vm_compute; [discriminate | reflexivity]) 1). lia.
  - apply (Hr 30). lia.
  - apply (X jumps_only (mkInstr 0 0 0 0 0 0 [] 0 0 0) 0x75 "JNZ"%string (-10)); [vm_compute; tauto | | exact Hd | split; vm_compute; [discriminate | reflexivity]].
    exists 0, 8, 0. repeat split; try reflexivity. repeat (apply Forall_cons; split; [reflexivity|]). apply Forall_nil. exact I.
  - apply (X jumps_only (mkInstr 0 0 0 0 0 0 [] 0 0 0) 0xeb "JMP"%string (-10)); [vm_compute; tauto | | exact Hd | split; vm_compute; [discriminate | reflexivity]].
    exists 0, 8, 4. repeat split; try reflexivity. repeat (apply Forall_cons; split; [reflexivity|]). apply Forall_nil. exact I.
Defined.
