(* ===== verification/ServerTranslate.v ===== *)
(** * Translating a function, [server/rewriteserver.cc]

    [Predecode] walks the guest's code from the requested address, reading it
    through the connection; [Lift] hands the instructions it found to the lifter;
    [Translate] looks the hash of the code up in the cache and sends an object.
    The lifter, the optimiser and the code generator rest on LLVM and are
    parameters, and so is the hash function.

    [Predecode] and [Lift] are written over any monad with an operation that
    reads memory, so that the same text runs over the connection and, in the
    proofs, on a memory directly. *)

From Stdlib Require Import ZArith Lia String.
From stdpp Require Import base numbers list gmap.
From S2P Require Import Prelude Machine RtldElf ServerCache ServerConn ServerDecode.

(** ** Predecoding *)

Record DecodedInst := mkDI { i_addr : Z; i_size : Z; new_block : bool }.

(** The vector of instructions, [addr_map], [addr_queue], and the bytes that
    were hashed. *)
Record Pre := mkPre { insts : list DecodedInst; addr_map : gmap Z nat; addr_queue : list Z; sha : list Z }.

Definition set_queue (q : list Z) (st : Pre) : Pre := mkPre (insts st) (addr_map st) q (sha st).
Definition push_back (a : Z) (st : Pre) : Pre := set_queue (addr_queue st ++ [a]) st.

(** [insts[idx].new_block = true]. *)
Definition mark_block (idx : nat) (st : Pre) : Pre :=
  mkPre (alter (fun i => mkDI (i_addr i) (i_size i) true) idx (insts st)) (addr_map st) (addr_queue st) (sha st).

(** The instruction is entered into the vector, the map and the hash. *)
Definition enter_inst (addr cur : Z) (nb : bool) (size : Z) (buf : list Z) (st : Pre) : Pre :=
  mkPre (insts st ++ [mkDI cur size nb]) (<[cur := length (insts st)]> (addr_map st)) (addr_queue st)
    (sha st ++ (if nb then le8 (cur - addr) else []) ++ take (Z.to_nat size) buf).

Record TransConfig := mkTransConfig { cfg_granularity : Z; cfg_callret : bool; cfg_pic : bool }.

Definition INST_BUF : Z := 15.

Section Walk.
Context {M : Type -> Type} `{MRet M, MBind M}.
Context (readmem : Z -> Z -> M (list Z)).

Section Predecode.
Context (decode_fn : Z -> list Z -> DecodeResult) (cfg : TransConfig).

(** The inner loop; [None] when the fuel is used up. *)
Fixpoint pre_block (fuel : nat) (addr cur : Z) (nb : bool) (st : Pre) : M (option Pre) :=
  match fuel with
  | O => mret None
  | S fuel' =>
      match addr_map st !! cur with
      | Some idx => mret (Some (mark_block idx st))
      | None =>
          buf ← readmem cur (u64 (cur + INST_BUF));
          let res := decode_fn cur buf in
          match result res with
          | FAILED => mret (Some st)
          | k =>
              let st := enter_inst addr cur nb (size res) buf st in
              let cur := u64 (cur + size res) in
              if cfg_granularity cfg <=? 0 then mret (Some st)
              else match k with
                   | BRANCH => mret (Some (push_back (branch_target res) st))
                   | COND_BRANCH => mret (Some (push_back cur (push_back (branch_target res) st)))
                   | CALL => mret (Some (if cfg_callret cfg then push_back cur st else st))
                   | UNKNOWN_TGT => mret (Some st)
                   | _ => pre_block fuel' addr cur false st
                   end
          end
      end
  end.

(** The outer loop; [limit] is the fuel of the inner one. *)
Fixpoint pre_loop (fuel limit : nat) (addr : Z) (st : Pre) : M (option Pre) :=
  match addr_queue st with
  | [] => mret (Some st)
  | cur :: queue =>
      match fuel with
      | O => mret None
      | S fuel' =>
          r ← pre_block limit addr cur true (set_queue queue st);
          match r with
          | None => mret None
          | Some st => if cfg_granularity cfg <=? 1 then mret (Some st) else pre_loop fuel' limit addr st
          end
      end
  end.

Definition Predecode (fuel : nat) (addr : Z) (hashed : list Z) : M (option Pre) :=
  pre_loop fuel fuel addr (mkPre [] ∅ [addr] hashed).
End Predecode.

(** ** Lifting *)

Section Lift.
(** The function under construction of the lifter, and adding an instruction of
    a block to it, which returns the size the lifter decoded. *)
Context {LLFunc : Type} (ll_func_add_instr : LLFunc -> Z -> Z -> list Z -> Z * LLFunc).

(** The loop over the instructions: [first] at index 0, [skip] while the rest of
    a block is skipped. *)
Fixpoint Lift_loop (first skip : bool) (block_addr : Z) (rlfn : LLFunc) (l : list DecodedInst) : M (option LLFunc) :=
  match l with
  | [] => mret (Some rlfn)
  | inst :: rest =>
      if skip && negb (new_block inst) then Lift_loop false true block_addr rlfn rest
      else
        let block_addr := if new_block inst then i_addr inst else block_addr in
        buf ← readmem (i_addr inst) (u64 (i_addr inst + INST_BUF));
        let '(ret, rlfn) := ll_func_add_instr rlfn block_addr (i_addr inst) buf in
        if negb (ret =? i_size inst) then
          if first then mret None else Lift_loop false true block_addr rlfn rest
        else Lift_loop false false block_addr rlfn rest
  end.

Context {Fn : Type} (ll_func_new : Z -> LLFunc) (ll_func_lift : LLFunc -> option Fn).

Definition Lift (addr : Z) (l : list DecodedInst) : M (option Fn) :=
  r ← Lift_loop true false 0 (ll_func_new addr) l;
  mret (match r with None => None | Some rlfn => ll_func_lift rlfn end).
End Lift.
End Walk.

(** ** Translating *)

Record RewriteState := mkRewriteState { config_hash : list Z; pre_addr : Z }.

Section Translate.
Context (sys : nat -> Z) (fopen_ok : Z -> bool) (scfg : ServerConfig).
Context (decode_fn : Z -> list Z -> DecodeResult) (cfg : TransConfig) (fuel : nat).
(** SHA-1, the lifter, and everything from the lifted function to the object. *)
Context (SHA1 : list Z -> list Z).
Context {LLFunc Fn : Type} (ll_func_new : Z -> LLFunc) (ll_func_add_instr : LLFunc -> Z -> Z -> list Z -> Z * LLFunc)
  (ll_func_lift : LLFunc -> option Fn) (generate : Fn -> list Z).

(** [addr - pre_addr == 0x4018a0 - 0x401a7a], the test for a kernel function. *)
Definition is_kernel (addr pre : Z) : bool := u64 (addr - pre) =? u64 (0x4018a0 - 0x401a7a).

Definition Translate (state : RewriteState) (addr : Z) : SM RewriteState :=
  let isKernel := is_kernel addr (pre_addr state) in
  let state := mkRewriteState (config_hash state) addr in
  let hash_addr := if cfg_pic cfg then 0 else addr in
  r ← Predecode Get decode_fn cfg fuel addr (config_hash state ++ le8 hash_addr);
  match r with
  | None => stuck
  | Some st =>
      let hash := SHA1 (sha st) in
      hit ← CacheProbe sys addr hash;
      if (hit : bool) then mret state
      else
        fn ← Lift Get ll_func_add_instr ll_func_new ll_func_lift addr (insts st);
        match fn with
        | None => SendObject sys fopen_ok scfg addr [] None;; mret state
        | Some fn =>
            if isKernel then exit 0
            else SendObject sys fopen_ok scfg addr (generate fn) (Some hash);; mret state
        end
  end.
End Translate.
