(* ===== verification/ServerTranslateProofs.v ===== *)
(** * Predecoding finds the code of a function

    On a memory, [Predecode] collects exactly the decodable instructions that
    control flow reaches from the requested address, each once, in runs of
    consecutive instructions that start at every jump target; and it ends. *)

From Stdlib Require Import ZArith Lia String.
From stdpp Require Import base numbers list gmap sets.
From S2P Require Import Prelude Machine RtldElf ServerDecode ServerTranslate.

(** ** Running on a memory *)

Definition Pure (A : Type) : Type := A.
#[global] Instance Pure_ret : MRet Pure := fun A a => a.
#[global] Instance Pure_bind : MBind Pure := fun A B f a => f a.

Section Walk.
Context (rd : Z -> Z -> list Z) (decode_fn : Z -> list Z -> DecodeResult) (cfg : TransConfig) (addr : Z).

(** The instruction at an address. *)
Definition code (a : Z) : list Z := rd a (u64 (a + INST_BUF)).
Definition dec (a : Z) : DecodeResult := decode_fn a (code a).
Definition valid (a : Z) : Prop := result (dec a) <> FAILED.
Definition next (a : Z) : Z := u64 (a + size (dec a)).

(** Where control goes by a jump, or by returning from a call, or past a
    conditional branch: the start of a block. *)
Definition jumps (a : Z) : list Z :=
  match result (dec a) with
  | BRANCH => [branch_target (dec a)]
  | COND_BRANCH => [branch_target (dec a); next a]
  | CALL => if cfg_callret cfg then [next a] else []
  | _ => []
  end.

(** Where control goes. *)
Definition succs (a : Z) : list Z :=
  match result (dec a) with NORMAL => [next a] | _ => jumps a end.

(** The code of the function. *)
Inductive reach : Z -> Prop :=
  | reach_start : valid addr -> reach addr
  | reach_step a b : reach a -> b ∈ succs a -> valid b -> reach b.

Definition present (st : Pre) (a : Z) : Prop := is_Some (addr_map st !! a).
Definition starts (st : Pre) (a : Z) : Prop :=
  exists k i, addr_map st !! a = Some k /\ insts st !! k = Some i /\ new_block i = true.

(** What every step keeps, with the addresses [pend] still to be looked at. *)
Record Inv (st : Pre) (pend : list Z) : Prop := mkInv {
  inv_to : forall k i, insts st !! k = Some i -> addr_map st !! i_addr i = Some k;
  inv_from : forall a k, addr_map st !! a = Some k -> exists i, insts st !! k = Some i /\ i_addr i = a;
  inv_inst : forall k i, insts st !! k = Some i -> reach (i_addr i) /\ i_size i = size (dec (i_addr i));
  inv_pend : forall b, b ∈ pend -> valid b -> reach b;
  inv_chain : forall k i, insts st !! k = Some i -> new_block i = false ->
    exists k' j, k = S k' /\ insts st !! k' = Some j /\ result (dec (i_addr j)) = NORMAL /\ i_addr i = next (i_addr j) }.

(** Nothing reachable is forgotten, and the addresses that control jumps to
    start blocks, or are among [jp] and will. *)
Record Full (st : Pre) (pend jp : list Z) : Prop := mkFull {
  full_start : valid addr -> starts st addr \/ addr ∈ jp;
  full_succ : forall a b, present st a -> b ∈ succs a -> valid b -> present st b \/ b ∈ pend;
  full_jump : forall a b, present st a -> b ∈ jumps a -> valid b -> starts st b \/ b ∈ jp }.

(** ** The steps *)

Lemma inv_mono st st' pend pend' :
  insts st' = insts st -> addr_map st' = addr_map st -> (forall b, b ∈ pend' -> b ∈ pend) -> Inv st pend -> Inv st' pend'.
Proof. intros Ei Em Hp [A B C D E]. split; rewrite ?Ei, ?Em; eauto. Qed.

Lemma full_mono st st' pend pend' jp jp' :
  insts st' = insts st -> addr_map st' = addr_map st ->
  (forall b, b ∈ pend -> valid b -> b ∈ pend') -> (forall b, b ∈ jp -> valid b -> b ∈ jp') -> Full st pend jp -> Full st' pend' jp'.
Proof.
  intros Ei Em Hp Hj [A B C]. unfold present, starts in *. split; unfold present, starts; rewrite ?Ei, ?Em.
  - intros Hv. destruct (A Hv); auto.
  - intros a b Ha Hb Hv. destruct (B a b Ha Hb Hv); auto.
  - intros a b Ha Hb Hv. destruct (C a b Ha Hb Hv); auto.
Qed.

Lemma insts_snoc st cur nb sz buf k i :
  insts (enter_inst addr cur nb sz buf st) !! k = Some i ->
  insts st !! k = Some i \/ k = length (insts st) /\ i = mkDI cur sz nb.
Proof.
  cbn. intros Hk. apply lookup_app_Some in Hk as [Hk|[Hge Hk]]; [by left|]. right.
  destruct (k - length (insts st))%nat eqn:E; cbn in Hk; [|done]. injection Hk as <-. split; [lia|done].
Qed.

(** The last instruction falls through to [cur]. *)
Definition falls_to (st : Pre) (cur : Z) : Prop :=
  exists j, last (insts st) = Some j /\ result (dec (i_addr j)) = NORMAL /\ cur = next (i_addr j).

Lemma enter_inv st cur nb q buf :
  Inv st (cur :: q) -> addr_map st !! cur = None -> valid cur -> (nb = false -> falls_to st cur) ->
  Inv (enter_inst addr cur nb (size (dec cur)) buf st) (succs cur ++ q).
Proof.
  intros [A B C D E] Hn Hv Hf. assert (reach cur) as Hr by (apply D; [by left|done]). split.
  - intros k i Hk. apply insts_snoc in Hk as [Hk|[-> ->]]; cbn; [|apply lookup_insert_eq].
    rewrite lookup_insert_ne; [by apply A|]. intros ->. by rewrite (A _ _ Hk) in Hn.
  - intros a k Ha. cbn in Ha. apply lookup_insert_Some in Ha as [[<- <-]|[Hne Ha]].
    + eexists. split; [cbn; by apply list_lookup_middle|done].
    + destruct (B a k Ha) as (i & Hi & Ea). exists i. split; [cbn; by apply lookup_app_l_Some|done].
  - intros k i Hk. apply insts_snoc in Hk as [Hk|[-> ->]]; [by apply (C k)|done].
  - intros b Hb Hvb. apply elem_of_app in Hb as [Hb|Hb]; [by eapply reach_step|]. apply D; [by right|done].
  - intros k i Hk Hnb. apply insts_snoc in Hk as [Hk|[-> ->]].
    + destruct (E k i Hk Hnb) as (k' & j & -> & Hj & H1 & H2). exists k', j. split; [done|]. split; [|done].
      cbn. by apply lookup_app_l_Some.
    + destruct (Hf Hnb) as (j & Hl & H1 & H2). rewrite last_lookup in Hl.
      assert (0 < length (insts st))%nat as Hpos by (apply lookup_lt_Some in Hl; lia).
      exists (pred (length (insts st))), j. split; [lia|]. split; [|done]. cbn. by apply lookup_app_l_Some.
Qed.

Lemma enter_starts st cur nb sz buf b :
  addr_map st !! cur = None -> starts st b \/ b = cur /\ nb = true -> starts (enter_inst addr cur nb sz buf st) b.
Proof.
  intros Hn [(k & i & Hk & Hi & Hb)|[-> ->]]; unfold starts; cbn.
  - exists k, i. rewrite lookup_insert_ne by congruence. split; [done|]. split; [by apply lookup_app_l_Some|done].
  - exists (length (insts st)), (mkDI cur sz true). rewrite lookup_insert_eq. split; [done|]. split; [by apply list_lookup_middle|done].
Qed.

Lemma enter_present st cur nb sz buf b : present (enter_inst addr cur nb sz buf st) b <-> b = cur \/ present st b.
Proof.
  unfold present. cbn. destruct (decide (b = cur)) as [->|Hne]; [rewrite lookup_insert_eq; split; [by left|by eexists]|].
  rewrite lookup_insert_ne by done. tauto.
Qed.

Lemma enter_full st cur (nb : bool) q sz buf :
  Full st (cur :: q) (if nb then cur :: q else q) -> addr_map st !! cur = None ->
  Full (enter_inst addr cur nb sz buf st) (succs cur ++ q) (jumps cur ++ q).
Proof.
  intros [A B C] Hn.
  assert (forall b, starts st b \/ b ∈ (if nb then cur :: q else q) ->
    starts (enter_inst addr cur nb sz buf st) b \/ b ∈ jumps cur ++ q) as Hs.
  { intros b [Hb|Hb]; [left; apply enter_starts; [done|by left]|]. destruct nb; [|right; apply elem_of_app; by right].
    apply elem_of_cons in Hb as [->|Hb]; [left; apply enter_starts; [done|by right]|right; apply elem_of_app; by right]. }
  split.
  - intros Hv. by apply Hs, A.
  - intros a b Ha Hb Hv. rewrite enter_present, elem_of_app. apply enter_present in Ha as [->|Ha]; [tauto|].
    destruct (B a b Ha Hb Hv) as [?|Hin]; [tauto|]. apply elem_of_cons in Hin. tauto.
  - intros a b Ha Hb Hv. apply enter_present in Ha as [->|Ha]; [right; apply elem_of_app; by left|]. by apply Hs, (C a b).
Qed.

Lemma mark_insts idx st k i' :
  insts (mark_block idx st) !! k = Some i' ->
  exists i, insts st !! k = Some i /\ i_addr i' = i_addr i /\ i_size i' = i_size i /\ (new_block i' = false -> new_block i = false).
Proof.
  cbn. rewrite list_lookup_alter. destruct (decide (k = idx)) as [->|Hne].
  - rewrite decide_True by done. intros Hk. apply fmap_Some in Hk as (i & Hi & ->). by exists i.
  - rewrite decide_False by done. intros Hk. by exists i'.
Qed.

Lemma mark_lookup idx st k i :
  insts st !! k = Some i -> exists i', insts (mark_block idx st) !! k = Some i' /\ i_addr i' = i_addr i /\
    (new_block i = true \/ k = idx -> new_block i' = true).
Proof.
  intros Hk. cbn. rewrite list_lookup_alter. destruct (decide (k = idx)) as [->|Hne].
  - rewrite decide_True by done. rewrite Hk. eexists. split; [done|]. done.
  - rewrite decide_False by done. exists i. split; [done|]. split; [done|]. intros [?|?]; done.
Qed.

Lemma mark_inv st cur q idx : Inv st (cur :: q) -> Inv (mark_block idx st) q.
Proof.
  intros [A B C D E]. split.
  - intros k i' Hk. apply mark_insts in Hk as (i & Hi & -> & _). by apply A.
  - intros a k Ha. destruct (B a k Ha) as (i & Hi & <-). destruct (mark_lookup idx st k i Hi) as (i' & Hi' & Ea & _). by exists i'.
  - intros k i' Hk. apply mark_insts in Hk as (i & Hi & -> & -> & _). by apply (C k).
  - intros b Hb. apply D. by right.
  - intros k i' Hk Hnb. apply mark_insts in Hk as (i & Hi & -> & _ & Hnb'). destruct (E k i Hi (Hnb' Hnb)) as (k' & j & -> & Hj & H1 & H2).
    destruct (mark_lookup idx st k' j Hj) as (j' & Hj' & Ea & _). exists k', j'. by rewrite Ea.
Qed.

Lemma mark_full st cur (nb : bool) q idx :
  Inv st (cur :: q) -> addr_map st !! cur = Some idx -> Full st (cur :: q) (if nb then cur :: q else q) -> Full (mark_block idx st) q q.
Proof.
  intros HI Hidx [A B C].
  assert (forall b, starts st b \/ b ∈ (if nb then cur :: q else q) -> starts (mark_block idx st) b \/ b ∈ q) as Hs.
  { intros b [(k & i & Hk & Hi & Hb)|Hb].
    - left. destruct (mark_lookup idx st k i Hi) as (i' & Hi' & _ & Hn). exists k, i'. split; [done|]. split; [done|]. apply Hn. by left.
    - assert (b = cur \/ b ∈ q) as [->|?] by (destruct nb; [by apply elem_of_cons|by right]); [|by right]. left.
      destruct (inv_from _ _ HI _ _ Hidx) as (i & Hi & _). destruct (mark_lookup idx st idx i Hi) as (i' & Hi' & _ & Hn).
      exists idx, i'. split; [done|]. split; [done|]. apply Hn. by right. }
  split.
  - intros Hv. by apply Hs, A.
  - intros a b Ha Hb Hv. destruct (B a b Ha Hb Hv) as [?|Hin]; [by left|]. apply elem_of_cons in Hin as [->|?]; [|by right].
    left. by exists idx.
  - intros a b Ha Hb Hv. by apply Hs, (C a b).
Qed.

(** ** The loops *)

(** The same instructions, with other addresses pending. *)
Ltac from_inv H := eapply inv_mono; [| | |exact H]; [done|done|].
Ltac from_full H := eapply full_mono; [| | | |exact H]; [done|done| |].

Abbreviation block := (pre_block (M := Pure) rd decode_fn cfg).
Abbreviation loop := (pre_loop (M := Pure) rd decode_fn cfg).

(** One round of the inner loop. *)
Lemma block_step fuel cur nb st :
  block (S fuel) addr cur nb st =
  match addr_map st !! cur with
  | Some idx => Some (mark_block idx st)
  | None =>
      if decide (result (dec cur) = FAILED) then Some st
      else
        let st' := enter_inst addr cur nb (size (dec cur)) (code cur) st in
        if cfg_granularity cfg <=? 0 then Some st'
        else if decide (result (dec cur) = NORMAL) then block fuel addr (next cur) false st'
        else Some (set_queue (addr_queue st ++ jumps cur) st')
  end.
Proof.
  cbn [pre_block]. unfold mret, Pure_ret, mbind, Pure_bind. fold (code cur) (dec cur) (next cur).
  destruct (addr_map st !! cur); [done|]. unfold jumps, push_back, set_queue, enter_inst.
  destruct (result (dec cur)) eqn:E; destruct (cfg_granularity cfg <=? 0), (cfg_callret cfg); cbn; rewrite ?app_nil_r, <- ?app_assoc; done.
Qed.

Lemma falls_enter st cur nb :
  result (dec cur) = NORMAL -> falls_to (enter_inst addr cur nb (size (dec cur)) (code cur) st) (next cur).
Proof. intros E. exists (mkDI cur (size (dec cur)) nb). cbn. split; [apply last_snoc|]. done. Qed.

Lemma succs_jumps a : result (dec a) <> NORMAL -> succs a = jumps a.
Proof. unfold succs. by destruct (result (dec a)). Qed.
Lemma succs_normal a : result (dec a) = NORMAL -> succs a = [next a] /\ jumps a = [].
Proof. unfold succs, jumps. intros ->. done. Qed.

Lemma block_inv fuel cur nb st st' :
  Inv st (cur :: addr_queue st) -> (nb = false -> falls_to st cur) -> block fuel addr cur nb st = Some st' -> Inv st' (addr_queue st').
Proof.
  revert cur nb st. induction fuel as [|fuel IH]; intros cur nb st HI Hf; [done|]. rewrite block_step.
  destruct (addr_map st !! cur) as [idx|] eqn:Hm; [intros [= <-]; by eapply mark_inv|].
  destruct (decide _) as [Hfail|Hv]; [intros [= <-]; from_inv HI; intros b Hb; by right|].
  cbv zeta. pose proof (enter_inv st cur nb _ (code cur) HI Hm Hv Hf) as HI'.
  destruct (cfg_granularity cfg <=? 0).
  - intros [= <-]. from_inv HI'. intros b Hb. apply elem_of_app. by right.
  - destruct (decide _) as [Hn|Hn].
    + apply IH; [|by intros _; apply falls_enter]. rewrite (proj1 (succs_normal _ Hn)) in HI'. exact HI'.
    + intros [= <-]. from_inv HI'. intros b. cbn. rewrite !elem_of_app, succs_jumps by done. tauto.
Qed.

Lemma block_full fuel cur (nb : bool) st st' :
  0 < cfg_granularity cfg -> Inv st (cur :: addr_queue st) -> (nb = false -> falls_to st cur) ->
  Full st (cur :: addr_queue st) (if nb then cur :: addr_queue st else addr_queue st) ->
  block fuel addr cur nb st = Some st' -> Full st' (addr_queue st') (addr_queue st').
Proof.
  intros Hg. revert cur nb st. induction fuel as [|fuel IH]; intros cur nb st HI Hf HF; [done|]. rewrite block_step.
  destruct (addr_map st !! cur) as [idx|] eqn:Hm; [intros [= <-]; by eapply mark_full|].
  destruct (decide _) as [Hfail|Hv].
  { intros [= <-]. from_full HF; intros b Hb Hvb; [|destruct nb; [|done]];
      apply elem_of_cons in Hb as [->|?]; done. }
  cbv zeta. pose proof (enter_inv st cur nb _ (code cur) HI Hm Hv Hf) as HI'.
  pose proof (enter_full st cur nb _ (size (dec cur)) (code cur) HF Hm) as HF'.
  rewrite (proj2 (Z.leb_gt _ _)) by done. destruct (decide _) as [Hn|Hn].
  - destruct (succs_normal _ Hn) as [Es Ej]. rewrite Es, ?Ej in *. apply IH; [exact HI'|by intros _; apply falls_enter|exact HF'].
  - intros [= <-]. rewrite succs_jumps in HF' by done.
    from_full HF'; intros b Hb _; cbn; rewrite elem_of_app in *; tauto.
Qed.

(** ** Termination *)

Section Bound.
(** The code of the function is within [D]. *)
Context (D : list Z) (HD : forall a, reach a -> a ∈ D).

Lemma inv_count st pend : Inv st pend -> (length (insts st) <= length D)%nat.
Proof.
  intros HI. rewrite <- (length_map i_addr). apply submseteq_length, NoDup_submseteq.
  - apply NoDup_alt. intros k1 k2 a H1 H2. rewrite list_lookup_fmap in H1, H2.
    apply fmap_Some in H1 as (i1 & Hi1 & E1). apply fmap_Some in H2 as (i2 & Hi2 & E2).
    apply (inv_to _ _ HI) in Hi1. apply (inv_to _ _ HI) in Hi2. congruence.
  - intros a Ha. apply list_elem_of_fmap in Ha as (i & -> & Hi). apply list_elem_of_lookup in Hi as (k & Hk). by apply HD, (inv_inst _ _ HI k).
Qed.

(** The inner loop ends: every round but the last enters an instruction; and at
    most two addresses are queued, after an instruction was entered. *)
Lemma block_ends fuel cur nb st :
  Inv st (cur :: addr_queue st) -> (nb = false -> falls_to st cur) -> (length D < fuel + length (insts st))%nat ->
  exists st', block fuel addr cur nb st = Some st' /\ (length (insts st) <= length (insts st'))%nat /\
    (length (addr_queue st') + 2 * length (insts st) <= length (addr_queue st) + 2 * length (insts st'))%nat.
Proof.
  revert cur nb st. induction fuel as [|fuel IH]; intros cur nb st HI Hf Hfuel; [pose proof (inv_count _ _ HI); lia|].
  rewrite block_step. destruct (addr_map st !! cur) as [idx|] eqn:Hm.
  { eexists. split; [done|]. cbn. rewrite length_alter. lia. }
  destruct (decide _) as [Hfail|Hv]; [eexists; split; [done|]; lia|]. cbv zeta.
  pose proof (enter_inv st cur nb _ (code cur) HI Hm Hv Hf) as HI'.
  assert (forall buf, length (insts (enter_inst addr cur nb (size (dec cur)) buf st)) = S (length (insts st))) as Hlen
    by (intros buf; cbn; rewrite length_app; cbn; lia).
  destruct (cfg_granularity cfg <=? 0); [eexists; split; [done|]; rewrite Hlen; cbn; lia|].
  destruct (decide _) as [Hn|Hn].
  - rewrite (proj1 (succs_normal _ Hn)) in HI'.
    destruct (IH (next cur) false _ HI') as (st' & E & H1 & H2); [by intros _; apply falls_enter|rewrite Hlen; lia|].
    exists st'. split; [done|]. rewrite Hlen in *. cbn [addr_queue enter_inst] in H2. lia.
  - eexists. split; [done|]. cbn [set_queue insts addr_queue]. rewrite Hlen, length_app.
    assert (length (jumps cur) <= 2)%nat by (unfold jumps; repeat case_match; cbn; lia). lia.
Qed.

Lemma loop_ends fuel limit st :
  Inv st (addr_queue st) -> (length D < limit)%nat ->
  (length (addr_queue st) + 2 * length D <= fuel + 2 * length (insts st))%nat ->
  exists st', loop fuel limit addr st = Some st' /\ Inv st' (addr_queue st') /\
    (1 < cfg_granularity cfg -> Full st (addr_queue st) (addr_queue st) -> Full st' [] []).
Proof.
  revert st. induction fuel as [|fuel IH]; intros st HI Hl Hf; pose proof (inv_count _ _ HI) as Hc; cbn [pre_loop];
    destruct (addr_queue st) as [|cur q] eqn:Hq; try (exists st; split; [done|]; split; [by rewrite Hq|by intros _ ?]).
  - cbn [length] in Hf. lia.
  - cbn [length] in Hf.
    assert (Inv (set_queue q st) (cur :: addr_queue (set_queue q st))) as HI' by (from_inv HI; done).
    destruct (block_ends limit cur true (set_queue q st) HI') as (st1 & E & H1 & H2); [done|cbn; lia|].
    match goal with |- context [@mbind Pure _ _ _ ?f ?m] => change (@mbind Pure _ _ _ f m) with (f m) end. rewrite E.
    assert (Inv st1 (addr_queue st1)) as HI1 by (eapply (block_inv limit cur true); [exact HI'|done|exact E]).
    assert (1 < cfg_granularity cfg -> Full st (cur :: q) (cur :: q) -> Full st1 (addr_queue st1) (addr_queue st1)) as HF1.
    { intros Hg HF. eapply (block_full limit cur true); [lia|exact HI'|done| |exact E]. from_full HF; done. }
    destruct (Z.leb_spec (cfg_granularity cfg) 1); [exists st1; split; [done|]; split; [done|lia]|].
    cbn [set_queue insts addr_queue] in H1, H2. destruct (IH st1 HI1 Hl) as (st' & E' & HI2 & HF2); [lia|].
    exists st'. split; [done|]. split; [done|]. eauto.
Qed.
End Bound.
End Walk.

(** ** The properties *)

Section Properties.
Context (rd : Z -> Z -> list Z) (decode_fn : Z -> list Z -> DecodeResult) (cfg : TransConfig) (addr : Z).
Context (hashed : list Z) (fuel : nat) (D : list Z).
Context (HD : forall a, reach rd decode_fn cfg addr a -> a ∈ D) (Hf : (2 * length D < fuel)%nat).

Lemma predecode_run :
  exists st, Predecode (M := Pure) rd decode_fn cfg fuel addr hashed = Some st /\ Inv rd decode_fn cfg addr st (addr_queue st) /\
    (1 < cfg_granularity cfg -> Full rd decode_fn cfg addr st [] []).
Proof.
  set (st0 := mkPre [] ∅ [addr] hashed).
  destruct (loop_ends rd decode_fn cfg addr D HD fuel fuel st0) as (st & E & HI & HF); [|lia|cbn; lia|].
  { split; cbn; try done. intros b Hb Hv. apply list_elem_of_singleton in Hb as ->. by constructor. }
  exists st. split; [exact E|]. split; [done|]. intros Hg. apply HF; [done|].
  split; cbn; [intros _; right; by left|..]; intros a' b [k Hk]; cbn in Hk; by rewrite lookup_empty in Hk.
Qed.

Lemma full_reach st :
  Full rd decode_fn cfg addr st [] [] -> forall a, reach rd decode_fn cfg addr a -> present st a.
Proof.
  intros [F1 F2 _] a Ha. induction Ha as [Hv|a b Ha IH Hb Hv].
  - destruct (F1 Hv) as [(k & i & Hk & _)|Hin]; [by exists k|by apply not_elem_of_nil in Hin].
  - destruct (F2 a b IH Hb Hv) as [?|Hin]; [done|by apply not_elem_of_nil in Hin].
Qed.

(** C13. Predecoding ends and finds the code of the function: with more rounds of
    fuel than twice the number of its instructions, [Predecode] returns; it
    lists no address twice, every address it lists is reached from [addr] by
    control flow and decodes, with the size listed; and at the granularity of
    functions (2 and more) every decodable address that control flow reaches
    is listed. *)
Theorem predecode_finds_code :
  exists st, Predecode (M := Pure) rd decode_fn cfg fuel addr hashed = Some st /\
    NoDup (map i_addr (insts st)) /\
    (forall i, i ∈ insts st -> reach rd decode_fn cfg addr (i_addr i) /\ i_size i = size (dec rd decode_fn (i_addr i))) /\
    (1 < cfg_granularity cfg -> forall a, reach rd decode_fn cfg addr a -> a ∈ map i_addr (insts st)).
Proof.
  destruct predecode_run as (st & E & HI & HF). exists st. split; [exact E|]. split_and!.
  - apply NoDup_alt. intros k1 k2 a H1 H2. rewrite list_lookup_fmap in H1, H2.
    apply fmap_Some in H1 as (i1 & Hi1 & E1). apply fmap_Some in H2 as (i2 & Hi2 & E2).
    apply (inv_to _ _ _ _ _ _ HI) in Hi1. apply (inv_to _ _ _ _ _ _ HI) in Hi2. congruence.
  - intros i Hi. apply list_elem_of_lookup in Hi as (k & Hk). by apply (inv_inst _ _ _ _ _ _ HI k).
  - intros Hg a Ha. destruct (full_reach st (HF Hg) a Ha) as [k Hk].
    destruct (inv_from _ _ _ _ _ _ HI a k Hk) as (i & Hi & <-). apply list_elem_of_fmap. exists i. split; [done|].
    by eapply list_elem_of_lookup_2.
Qed.

(** C16. The instructions form blocks: one that does not start a block follows, in
    the list and in memory, a normal instruction; and at the granularity of
    functions the entry and every decodable target of a jump, return address of
    a call that is followed, and address after a conditional branch starts a
    block. *)
Theorem predecode_blocks :
  exists st, Predecode (M := Pure) rd decode_fn cfg fuel addr hashed = Some st /\
    (forall k i, insts st !! k = Some i -> new_block i = false ->
       exists k' j, k = S k' /\ insts st !! k' = Some j /\ result (dec rd decode_fn (i_addr j)) = NORMAL /\
         i_addr i = u64 (i_addr j + i_size j)) /\
    (1 < cfg_granularity cfg ->
     forall b, (b = addr \/ exists a, reach rd decode_fn cfg addr a /\ b ∈ jumps rd decode_fn cfg a) -> valid rd decode_fn b ->
       exists i, i ∈ insts st /\ i_addr i = b /\ new_block i = true).
Proof.
  destruct predecode_run as (st & E & HI & HF). exists st. split; [exact E|]. split.
  - intros k i Hk Hn. destruct (inv_chain _ _ _ _ _ _ HI k i Hk Hn) as (k' & j & -> & Hj & H1 & H2). exists k', j.
    destruct (inv_inst _ _ _ _ _ _ HI k' j Hj) as [_ ->]. done.
  - intros Hg b Hb Hv. specialize (HF Hg).
    assert (starts st b) as (k & i & Hk & Hi & Hn).
    { destruct HF as [F1 F2 F3] eqn:EF. destruct Hb as [->|(a & Ha & Hb)].
      - destruct (F1 Hv) as [?|Hin]; [done|by apply not_elem_of_nil in Hin].
      - destruct (F3 a b (full_reach st HF a Ha) Hb Hv) as [?|Hin]; [done|by apply not_elem_of_nil in Hin]. }
    exists i. split; [by eapply list_elem_of_lookup_2|]. split; [|done].
    destruct (inv_from _ _ _ _ _ _ HI b k Hk) as (i' & Hi' & <-). congruence.
Qed.
End Properties.

(** ** Examples *)

(** A loop: [addi a0, a0, -1; bne a0, zero, .-4; ret]. *)
Definition loop_mem : memory := store_bytes ∅ 0x1000 (le4 0xfff50513 ++ le4 0xfe051ee3 ++ le4 0x00008067).
Definition reads_of (m : memory) (a _ : Z) : list Z := load_bytes m a 15.
Definition rv_ex : Z -> list Z -> DecodeResult := DecodeRV64 (Frvdec.mkFrv 0 0 0 0 0 0 0).
Definition cfg_ex : TransConfig := mkTransConfig 2 false false.

Lemma loop_reach a : reach (reads_of loop_mem) rv_ex cfg_ex 0x1000 a -> a ∈ [0x1000; 0x1004; 0x1008].
Proof.
  intros H. induction H as [_|a b _ IH Hb _]; [by left|].
  rewrite !elem_of_cons in IH. destruct IH as [->|[->|[->|IH]]]; [| | |by apply not_elem_of_nil in IH].
  - replace (succs _ _ _ _) with [0x1004] in Hb by (vm_compute; reflexivity). set_solver.
  - replace (succs _ _ _ _) with [0x1000; 0x1008] in Hb by (vm_compute; reflexivity). set_solver.
  - replace (succs _ _ _ _) with (@nil Z) in Hb by (vm_compute; reflexivity). set_solver.
Qed.

Lemma predecode_finds_code_witness :
  exists st, Predecode (M := Pure) (reads_of loop_mem) rv_ex cfg_ex 7 0x1000 [] = Some st /\ NoDup (map i_addr (insts st)) /\
    forall a, reach (reads_of loop_mem) rv_ex cfg_ex 0x1000 a -> a ∈ map i_addr (insts st).
Proof.
  destruct (predecode_finds_code (reads_of loop_mem) rv_ex cfg_ex 0x1000 [] 7 [0x1000; 0x1004; 0x1008] loop_reach)
    as (st & E & Hn & _ & Hr); [cbn; lia|].
  exists st. split; [exact E|]. split; [exact Hn|]. apply Hr. reflexivity.
Defined.

Lemma predecode_blocks_witness :
  exists st, Predecode (M := Pure) (reads_of loop_mem) rv_ex cfg_ex 7 0x1000 [] = Some st /\
    exists i, i ∈ insts st /\ i_addr i = 0x1000 /\ new_block i = true.
Proof.
  destruct (predecode_blocks (reads_of loop_mem) rv_ex cfg_ex 0x1000 [] 7 [0x1000; 0x1004; 0x1008] loop_reach)
    as (st & E & _ & Hb); [cbn; lia|].
  exists st. split; [exact E|]. apply Hb; [reflexivity|by left|vm_compute; discriminate].
Defined.

(** The hashed bytes do not determine the code: the offset of a block looks like
    instructions.  In the first function the branch goes to a [nop] before an
    undefined word, and falls through to [ret]; in the second the fall-through
    is undefined, and the [nop] is followed by two words that spell the offset,
    and [ret]. *)
Definition a64_ex : Z -> list Z -> DecodeResult :=
  DecodeAArch64 id (fun _ => 0) Farmdec.UNKNOWN_INST Farmdec.UNKNOWN_INST.
Definition code_one : memory :=
  store_bytes ∅ 0x1000 (le4 0x54000080 ++ le4 0xd65f03c0 ++ le4 0xffffffff ++ le4 0xffffffff ++ le4 0xd503201f ++ le4 0xffffffff).
Definition code_two : memory :=
  store_bytes ∅ 0x1000 (le4 0x54000080 ++ le4 0xffffffff ++ le4 0xffffffff ++ le4 0xffffffff ++ le4 0xd503201f ++ le4 4 ++ le4 0 ++
    le4 0xd65f03c0).

Theorem predecode_hash_ambiguous :
  exists st1 st2, Predecode (M := Pure) (reads_of code_one) a64_ex cfg_ex 17 0x1000 [] = Some st1 /\
    Predecode (M := Pure) (reads_of code_two) a64_ex cfg_ex 17 0x1000 [] = Some st2 /\
    sha st1 = sha st2 /\ map i_addr (insts st1) = [0x1000; 0x1010; 0x1004] /\
    map i_addr (insts st2) = [0x1000; 0x1010; 0x1014; 0x1018; 0x101c].
Proof. do 2 eexists. split; [vm_compute; reflexivity|]. split; [vm_compute; reflexivity|]. split_and!; reflexivity. Qed.
