(* ===== verification/ServerSession.v ===== *)
(** * A translation, end to end

    [Translate] over the connection sends exactly one object: the one in the
    cache under the hash of the code, or the one generated from the code in the
    client's memory.  Together with the client's side of the protocol: each end
    sends what the other one reads, and the object arrives. *)

From Stdlib Require Import ZArith Lia String.
From stdpp Require Import base numbers list list_numbers strings gmap.
From S2P Require Import Prelude Machine Loopback Minilibc StreamIO Memory Printf RtldElf Translator TranslatorProofs ServerCache ServerCacheProofs ServerConn ServerConnProofs ServerDecode ServerDecodeProofs ServerTranslate ServerTranslateProofs.

(** ** Sending objects *)

Definition object_msg (obj : list Z) : list Z := le4 MSGID_S_OBJECT ++ le4 (Z.of_nat (length obj)) ++ obj.

(** What sending leaves alone: the input, the pages and the configuration. *)
Definition sent_only (bs : list Z) (s s' : Server) : Prop :=
  quiet s' /\ inp (conn s') = inp (conn s) /\ out (conn s') = out (conn s) ++ bs /\ page_cache s' = page_cache s /\
  need_iwcc s' = false /\ cache s' = cache s /\ iwsc s' = iwsc s.

Section Send.
Context (sys : nat -> Z) (fopen_ok : Z -> bool) (scfg : ServerConfig).

Lemma SendObject_ok addr data hash s :
  quiet s -> need_iwcc s = false -> Z.of_nat (length data) <= INT32_MAX ->
  exists s', SendObject sys fopen_ok scfg addr data hash s = Done tt s' /\ sent_only (object_msg data) s s'.
Proof.
  intros [Hq Hb] Hn Hl. unfold SendObject. rewrite (sm_bind _ _ _ false s) by (unfold sget; by rewrite Hn).
  rewrite (sm_bind _ _ _ tt s) by done.
  assert (SendMsg MSGID_S_OBJECT data s = Done tt _) as E by (by apply send_msg_ok). unfold SendMsg in E.
  destruct (SendMsgHdr MSGID_S_OBJECT (Z.of_nat (length data)) s) as [[] s1| | |] eqn:E1;
    try (unfold mbind, SM_bind in E; rewrite E1 in E; discriminate).
  rewrite (sm_bind _ _ _ _ _ E1) in E. rewrite (sm_bind _ _ _ _ _ E1). rewrite (sm_bind _ _ _ _ _ E).
  set (s2 := set_conn _ s). assert (sent_only (object_msg data) s s2) as Hs by done.
  assert (exists s3, (if cfg_dumpobj scfg && fopen_ok addr then smodify (fun s => set_dumps (dumps s ++ [(addr, data)]) s) else mret tt) s2
    = Done tt s3 /\ sent_only (object_msg data) s s3) as (s3 & E3 & Hs3).
  { destruct (cfg_dumpobj scfg && fopen_ok addr); eexists; (split; [reflexivity|done]). }
  rewrite (sm_bind _ _ _ _ _ E3). destruct hash as [hash|]; [|by exists s3].
  rewrite (sm_bind _ _ _ (cache s3) s3) by done. unfold on_files.
  destruct (cache_put sys (cache s3) hash data (files s3)) as [[] f]. eexists. split; [reflexivity|done].
Qed.

(** [sendfile] moves the rest of a file to the connection. *)
Lemma sendfile_ok fuel fd size s i off c :
  (forall k, 0 < sys k) -> opened (files s) !! fd = Some (i, off) -> inodes (view (files s)) !! i = Some c ->
  (off <= length c)%nat -> size = Z.of_nat (length c - off) -> size < 2 ^ 64 -> (length c - off <= fuel)%nat ->
  exists f, view f = view (files s) /\
    sendfile_loop sys fuel fd size s = Done tt (set_files f (set_conn (mkConn (inp (conn s)) (out (conn s) ++ drop off c)
      (buffered (conn s)) (wr_sz (conn s)) (recv_id (conn s)) (recv_sz (conn s))) s)).
Proof.
  intros Hk. revert s off size. induction fuel as [|fuel IH]; intros s off size Ho Hc Hl -> H64 Hf; cbn [sendfile_loop];
    (destruct (Z.eqb_spec (Z.of_nat (length c - off)) 0) as [E0|Hne];
      [exists (files s); split; [done|]; rewrite drop_ge, app_nil_r by lia; destruct s as [[] ? ? ? ? ? ? ?]; reflexivity|]); [lia|].
  assert (0 < sys (calls (files s))) as Hpos by apply Hk. set (n := Z.of_nat (length c - off)) in *.
  set (bs := take (Z.to_nat (Z.min n (sys (calls (files s))))) (drop off c)).
  assert (0 < length bs <= length c - off)%nat as Hbs by (unfold bs; rewrite length_take, length_drop; lia).
  assert (exists f1, on_files (fs_sendfile sys fd n) s = Done (Z.of_nat (length bs), bs) (set_files f1 s) /\
    view f1 = view (files s) /\ opened f1 !! fd = Some (i, (off + length bs)%nat)) as (f1 & E & Hv1 & Ho1).
  { unfold on_files, fs_sendfile, finish, failing. rewrite Ho, Hc, (proj2 (Z.ltb_ge _ 0)) by lia. cbn [default from_option]. fold bs.
    eexists. split; [reflexivity|]. split; [done|]. cbn. apply lookup_insert_eq. }
  rewrite (sm_bind _ _ _ _ _ E). cbv beta iota. rewrite (proj2 (Z.ltb_ge _ 0)) by lia. erewrite sm_bind by reflexivity.
  rewrite wrap_small by (unfold in_u; lia).
  match goal with |- context [sendfile_loop _ _ _ _ ?x] => set (s1 := x) end.
  destruct (IH s1 (off + length bs)%nat (n - Z.of_nat (length bs))) as (f & Hv & E2); [exact Ho1|cbn; by rewrite Hv1|lia|lia|lia|lia|].
  assert (bs ++ drop (off + length bs) c = drop off c) as Hbd by (unfold bs; rewrite <- drop_drop; symmetry; apply take_rest).
  exists f. split; [by rewrite Hv|]. rewrite E2. cbn. by rewrite <- app_assoc, Hbd.
Qed.

(** What a look-up finds: nothing, or a file with its size, open at its start. *)
Lemma cache_get_cases c hash f :
  0 <= fresh f -> exists r f', cache_get sys c hash f = (r, f') /\ view f' = view f /\
    (r.1 = -1 \/ exists i, 0 <= r.1 /\ opened f' !! r.1 = Some (i, O) /\ r.2 = Z.of_nat (length (default [] (inodes (view f) !! i))) /\
       names (view f) !! file_of c hash = Some i /\ allow_read c = true).
Proof.
  intros Hf. unfold cache_get. destruct (allow_read c); cbn [negb]; [|by exists (-1, 0), f; auto].
  unfold mbind, ST_bind, mret, ST_ret, fs_open, fs_size, fs_close, finish. fold (file_of c hash).
  destruct (names (view f) !! file_of c hash) as [i|] eqn:Hi; [|do 2 eexists; split; [reflexivity|]; auto].
  destruct (failing sys f); [do 2 eexists; split; [reflexivity|]; auto|].
  rewrite (proj2 (Z.eqb_neq (fresh f) (-1))) by lia. cbn [opened view]. rewrite lookup_insert_eq.
  destruct (failing sys _); cbn [Z.eqb]; [do 2 eexists; split; [reflexivity|]; auto|].
  rewrite (proj2 (Z.eqb_neq _ (-1))) by lia. do 2 eexists. split; [reflexivity|]. split; [done|]. right. exists i. cbn.
  rewrite lookup_insert_eq. auto.
Qed.

(** The object of a hash in the cache. *)
Definition cached (s : Server) (hash : list Z) : option (list Z) :=
  if allow_read (cache s) then contents (view (files s)) (file_of (cache s) hash) else None.

Lemma CacheProbe_ok addr hash s :
  (forall k, 0 < sys k) -> quiet s -> need_iwcc s = false -> fs_ok (files s) ->
  (forall obj, cached s hash = Some obj -> Z.of_nat (length obj) <= INT32_MAX) ->
  match cached s hash with
  | Some obj => exists s', CacheProbe sys addr hash s = Done true s' /\ sent_only (object_msg obj) s s'
  | None => exists f, view f = view (files s) /\ CacheProbe sys addr hash s = Done false (set_files f s)
  end.
Proof.
  intros Hk [Hq Hb] Hn Hok Hlen. unfold CacheProbe. rewrite (sm_bind _ _ _ (cache s) s) by done. unfold cached in *.
  destruct (if allow_read (cache s) then _ else None) as [obj|] eqn:Eo.
  - destruct (allow_read (cache s)) eqn:Ha; [|done]. specialize (Hlen obj eq_refl). unfold INT32_MAX in Hlen.
    destruct (cache_get_spec sys (cache s) hash (files s) obj Hk Ha Eo (ok_fresh _ Hok)) as (fd & i & f & E & Hv & Hfd & Ho & Hi).
    erewrite sm_bind by (unfold on_files; rewrite E; reflexivity). cbv beta iota. rewrite (proj2 (Z.ltb_ge fd 0)) by done.
    erewrite sm_bind by (unfold SendMsgHdr, INT32_MAX; rewrite (proj2 (Z.ltb_ge _ _)) by lia; reflexivity).
    unfold Sendfile, fflush. match goal with |- context [smodify ?g;; sendfile_loop _ ?n ?d ?z] =>
      assert (forall x, (smodify g;; sendfile_loop sys n d z) x = sendfile_loop sys n d z (g x)) as Hfl by reflexivity end.
    match goal with |- exists s', ((smodify ?g;; ?l) ≫= ?k) ?x = _ /\ _ =>
      destruct (sendfile_ok (Z.to_nat (Z.of_nat (length obj))) fd (Z.of_nat (length obj)) (g x) i 0 obj) as (f2 & Hv2 & E2) end;
      [done | exact Ho | cbn; by rewrite Hv | lia | lia | lia | lia |].
    erewrite sm_bind by (rewrite Hfl; exact E2). erewrite sm_bind by reflexivity. eexists. split; [reflexivity|].
    unfold sent_only, quiet. cbn. rewrite Hb. cbn. split_and!; try done. unfold object_msg. by rewrite <- !app_assoc.
  - destruct (cache_get_cases (cache s) hash (files s) (ok_fresh _ Hok)) as ([fd size] & f & E & Hv & [Hfd|(i & _ & _ & _ & Hi & Ha)]).
    + cbn in Hfd. subst fd. exists f. split; [done|]. by erewrite sm_bind by (unfold on_files; rewrite E; reflexivity).
    + exfalso. rewrite Ha in Eo. pose proof (ok_contents _ _ Hok Eo). congruence.
Qed.
End Send.

(** ** Walking the code over the connection *)

Section Fetch.
(** The client's memory; its readable pages are below the top of the address
    space, which belongs to the kernel. *)
Context (m : memory) (ok : Z -> bool) (Hok : forall a, ok a = true -> a < 2 ^ 64 - 8192).

(** [x] computes [a], reading memory from the client where it has to. *)
Definition fetches {A} (x : SM A) (a : A) : Prop :=
  forall known, coherent m ok known -> exists known' pages, coherent m ok known' /\ talks m ok x a known known' pages.

Lemma fetches_ret {A} (a : A) : fetches (mret a) a.
Proof. intros known Hc. exists known, []. split; [done|]. apply talks_ret. Qed.

Lemma fetches_bind {A B} (x : SM A) (f : A -> SM B) a b : fetches x a -> fetches (f a) b -> fetches (x ≫= f) b.
Proof.
  intros Hx Hf k1 Hc. destruct (Hx k1 Hc) as (k2 & p1 & Hc2 & H1). destruct (Hf k2 Hc2) as (k3 & p2 & Hc3 & H2).
  exists k3, (p1 ++ p2). split; [done|]. by eapply talks_bind.
Qed.

(** What reading an instruction delivers. *)
Definition mem_read (a e : Z) : list Z := load_bytes m a (count ok a e).

Lemma Get_fetches a : in_u 64 a -> fetches (Get a (u64 (a + INST_BUF))) (mem_read a (u64 (a + INST_BUF))).
Proof.
  intros Ha known Hc. unfold INST_BUF, mem_read. destruct (Z.ltb_spec (a + 15) (2 ^ 64)) as [Hlt|Hge].
  - rewrite (wrap_small 64 (a + 15)) by (unfold in_u in *; lia). destruct (Z.ltb_spec (a + 15) (2 ^ 64 - 4096)) as [Hl|Hg].
    + eexists _, _. split; [|apply Get_talks; try done; unfold in_u in Ha; lia]. by apply get_learn_coherent.
    + assert (ok (4096 * (a / 4096)) = false) as Hno.
      { destruct (ok (4096 * (a / 4096))) eqn:E; [|done]. apply Hok in E. unfold in_u in *. zdm. }
      assert (exists n, pages_between a (a + 15) = S n) as [n Hn] by (exists (pred (pages_between a (a + 15))); unfold pages_between; zdm).
      unfold count. rewrite Hn. cbn [ok_run]. rewrite Hno. replace (Z.to_nat _) with O by zdm. cbn [load_bytes].
      exists (page_learn m ok known (4096 * (a / 4096))), (page_asked known (4096 * (a / 4096)) ++ []).
      split; [by apply page_learn_coherent|]. unfold Get. rewrite !page_of_div by (unfold in_u in *; lia).
      replace ((4096 * ((a + 15) / 4096) - 4096 * (a / 4096)) / PG_SIZE + 1) with ((a + 15) / 4096 - a / 4096 + 1) by (unfold PG_SIZE; zdm).
      fold (pages_between a (a + 15)). rewrite Hn. cbn [Get_loop]. rewrite (proj2 (Z.leb_le _ _)) by zdm. cbn [negb].
      eapply talks_bind; [by apply GetPage_talks|]. unfold page_val. rewrite Hno. apply talks_ret.
  - assert (u64 (a + 15) = a + 15 - 2 ^ 64) as -> by (symmetry; unfold wrap; apply Z.mod_unique with 1; unfold in_u in *; lia).
    unfold count. replace (Z.to_nat _) with O by (unfold in_u in *; zdm). cbn [load_bytes].
    exists known, []. split; [done|]. unfold Get. rewrite !page_of_div by (unfold in_u in *; lia).
    assert (4096 * ((a + 15 - 2 ^ 64) / 4096) < 4096 * (a / 4096)) by (unfold in_u in *; zdm).
    destruct (Z.to_nat _); cbn [Get_loop]; rewrite (proj2 (Z.leb_gt _ _)) by lia; apply talks_ret.
Qed.

Section Code.
Context (decode_fn : Z -> list Z -> DecodeResult) (cfg : TransConfig).
(** The decoders deliver 64-bit targets. *)
Context (Htgt : forall a buf, in_u 64 (branch_target (decode_fn a buf))).

Lemma block_fetches fuel addr cur nb st :
  in_u 64 cur -> fetches (pre_block Get decode_fn cfg fuel addr cur nb st) (pre_block (M := Pure) mem_read decode_fn cfg fuel addr cur nb st).
Proof.
  revert cur nb st. induction fuel as [|fuel IH]; intros cur nb st Hcur; cbn [pre_block]; [apply fetches_ret|].
  destruct (addr_map st !! cur); [apply fetches_ret|]. eapply fetches_bind; [by apply Get_fetches|].
  change (@mbind Pure Pure_bind _ _ ?f ?x) with (f x). cbv beta zeta.
  pose proof (wrap_range 64 (cur + size (decode_fn cur (mem_read cur (u64 (cur + INST_BUF))))) ltac:(lia)) as Hnext.
  destruct (result _); [apply fetches_ret|..]; (destruct (cfg_granularity cfg <=? 0); [apply fetches_ret|]); try apply fetches_ret.
  by apply IH.
Qed.

(** Addresses in the queue are addresses. *)
Lemma block_queue fuel addr cur nb st st' :
  Forall (in_u 64) (addr_queue st) -> pre_block (M := Pure) mem_read decode_fn cfg fuel addr cur nb st = Some st' ->
  Forall (in_u 64) (addr_queue st').
Proof.
  revert cur nb st. induction fuel as [|fuel IH]; intros cur nb st Hq; [done|]. rewrite block_step.
  destruct (addr_map st !! cur); [by intros [= <-]|]. destruct (decide _); [by intros [= <-]|]. cbv zeta.
  destruct (cfg_granularity cfg <=? 0); [by intros [= <-]|]. destruct (decide _); [by apply IH|]. intros [= <-]. cbn.
  apply Forall_app. split; [done|]. unfold jumps, next, dec. repeat case_match; repeat (apply Forall_cons; split); first [apply Forall_nil; done | apply Htgt | apply wrap_range; lia].
Qed.

Lemma loop_fetches fuel limit addr st :
  Forall (in_u 64) (addr_queue st) ->
  fetches (pre_loop Get decode_fn cfg fuel limit addr st) (pre_loop (M := Pure) mem_read decode_fn cfg fuel limit addr st).
Proof.
  revert st. induction fuel as [|fuel IH]; intros st Hq; cbn [pre_loop]; (destruct (addr_queue st) as [|cur q]; [apply fetches_ret|]).
  - apply fetches_ret.
  - apply Forall_cons in Hq as [Hcur Hq]. eapply fetches_bind; [by apply block_fetches|].
    change (@mbind Pure Pure_bind _ _ ?f ?x) with (f x). cbv beta.
    destruct (pre_block (M := Pure) _ _ _ _ _ _ _ _) as [st'|] eqn:E; [|apply fetches_ret].
    destruct (cfg_granularity cfg <=? 1); [apply fetches_ret|]. apply IH. by eapply block_queue; [|exact E].
Qed.

Lemma Predecode_fetches fuel addr hashed :
  in_u 64 addr -> fetches (Predecode Get decode_fn cfg fuel addr hashed) (Predecode (M := Pure) mem_read decode_fn cfg fuel addr hashed).
Proof. intros Ha. apply loop_fetches. apply Forall_cons. split; [done|]. by apply Forall_nil. Qed.
End Code.

Lemma Lift_loop_fetches {LLFunc} (add : LLFunc -> Z -> Z -> list Z -> Z * LLFunc) first skip ba rlfn l :
  Forall (fun i => in_u 64 (i_addr i)) l ->
  fetches (Lift_loop Get add first skip ba rlfn l) (Lift_loop (M := Pure) mem_read add first skip ba rlfn l).
Proof.
  intros Hl. revert first skip ba rlfn. induction Hl as [|i l Hi Hl IH]; intros first skip ba rlfn; cbn [Lift_loop]; [apply fetches_ret|].
  destruct (skip && negb (new_block i)); [apply IH|]. cbv zeta. eapply fetches_bind; [by apply Get_fetches|].
  change (@mbind Pure Pure_bind _ _ ?f ?x) with (f x). cbv beta. destruct (add _ _ _ _) as [ret rlfn'].
  destruct (negb (ret =? i_size i)); [|apply IH]. destruct first; [apply fetches_ret|apply IH].
Qed.

Lemma Lift_fetches {LLFunc Fn} (add : LLFunc -> Z -> Z -> list Z -> Z * LLFunc) new (lift : LLFunc -> option Fn) addr l :
  Forall (fun i => in_u 64 (i_addr i)) l ->
  fetches (Lift Get add new lift addr l) (Lift (M := Pure) mem_read add new lift addr l).
Proof. intros Hl. unfold Lift. eapply fetches_bind; [by apply Lift_loop_fetches|]. apply fetches_ret. Qed.
End Fetch.

(** ** One translation *)

Definition with_inp (bs : list Z) (s : Server) : Server :=
  let c := conn s in set_conn (mkConn bs (out c) (buffered c) (wr_sz c) (recv_id c) (recv_sz c)) s.

(** A server between two requests, with the pages of this memory. *)
Record ready (m : memory) (ok : Z -> bool) (s : Server) : Prop := mkReady {
  rdy_quiet : quiet s; rdy_pages : coherent m ok (page_cache s); rdy_need : need_iwcc s = false }.

(** Two servers that differ in the connection only. *)
Definition alike (s s0 : Server) : Prop :=
  page_cache s0 = page_cache s /\ need_iwcc s0 = need_iwcc s /\ cache s0 = cache s /\ files s0 = files s.

Section EndToEnd.
Context (m : memory) (ok : Z -> bool) (Hok : forall a, ok a = true -> a < 2 ^ 64 - 8192).
Context (sys : nat -> Z) (Hsys : forall k, 0 < sys k) (fopen_ok : Z -> bool) (scfg : ServerConfig).
Context (decode_fn : Z -> list Z -> DecodeResult) (Htgt : forall a buf, in_u 64 (branch_target (decode_fn a buf))).
Context (cfg : TransConfig) (fuel : nat) (SHA1 : list Z -> list Z).
Context {LLFunc Fn : Type} (ll_func_new : Z -> LLFunc) (ll_func_add_instr : LLFunc -> Z -> Z -> list Z -> Z * LLFunc)
  (ll_func_lift : LLFunc -> option Fn) (generate : Fn -> list Z).

Abbreviation rdmem := (mem_read m ok).
Abbreviation translate_fn := (Translate sys fopen_ok scfg decode_fn cfg fuel SHA1 ll_func_new ll_func_add_instr ll_func_lift generate).

(** The bytes that are hashed before the code. *)
Definition hash_prefix (state : RewriteState) (addr : Z) : list Z := config_hash state ++ le8 (if cfg_pic cfg then 0 else addr).

(** The object made of the code in memory; none if it cannot be lifted. *)
Definition generated (addr : Z) (st : Pre) : list Z :=
  match Lift (M := Pure) rdmem ll_func_add_instr ll_func_new ll_func_lift addr (insts st) with
  | Some fn => generate fn
  | None => []
  end.

(** The object of an address: from the cache, or made. *)
Definition object_for (s : Server) (addr : Z) (st : Pre) : list Z :=
  match cached s (SHA1 (sha st)) with Some obj => obj | None => generated addr st end.

Lemma reach_in_u addr a : in_u 64 addr -> reach rdmem decode_fn cfg addr a -> in_u 64 a.
Proof.
  intros Ha H. induction H as [_|a b _ _ Hb _]; [done|]. unfold succs, jumps, next in Hb.
  repeat case_match; rewrite ?elem_of_cons, ?elem_of_nil in Hb;
    repeat match type of Hb with _ \/ _ => destruct Hb as [->|Hb] end; try done; first [apply Htgt | apply wrap_range; lia].
Qed.

Context (addr : Z) (Haddr : in_u 64 addr) (D : list Z).
Context (HD : forall a, reach rdmem decode_fn cfg addr a -> a ∈ D) (Hfuel : (2 * length D < fuel)%nat).

Lemma translate_ok state s :
  ready m ok s -> fs_ok (files s) -> is_kernel addr (pre_addr state) = false ->
  exists st, Predecode (M := Pure) rdmem decode_fn cfg fuel addr (hash_prefix state addr) = Some st /\
  (Z.of_nat (length (object_for s addr st)) <= INT32_MAX ->
   exists pages, forall s0 rest, alike s s0 -> quiet s0 -> inp (conn s0) = answers m ok pages ++ rest ->
     exists s', translate_fn state addr s0 = Done (mkRewriteState (config_hash state) addr) s' /\
     ready m ok s' /\ inp (conn s') = rest /\ out (conn s') = out (conn s0) ++ asks ok pages ++ object_msg (object_for s addr st)).
Proof.
  intros [Hq Hc Hn] Hfs Hkern.
  destruct (predecode_run rdmem decode_fn cfg addr (hash_prefix state addr) fuel D HD Hfuel) as (st & E & HI & _).
  exists st. split; [exact E|]. intros Hlen. unfold object_for in *.
  destruct (Predecode_fetches m ok Hok decode_fn cfg Htgt fuel addr (hash_prefix state addr) Haddr _ Hc) as (k1 & p1 & Hc1 & T1).
  rewrite E in T1.
  assert (Forall (fun i => in_u 64 (i_addr i)) (insts st)) as Hin.
  { apply Forall_lookup. intros k i Hi. eapply reach_in_u; [exact Haddr|]. by apply (inv_inst _ _ _ _ _ _ HI k). }
  destruct (Lift_fetches m ok Hok ll_func_add_instr ll_func_new ll_func_lift addr (insts st) Hin _ Hc1) as (k2 & p2 & Hc2 & T2).
  exists (match cached s (SHA1 (sha st)) with Some _ => p1 | None => p1 ++ p2 end).
  intros s0 rest (A1 & A2 & A3 & A4) Hq0 Hin0.
  assert (exists p', (match cached s (SHA1 (sha st)) with Some _ => p1 | None => p1 ++ p2 end) = p1 ++ p') as [p' Hp']
    by (destruct (cached s _); [exists []; by rewrite app_nil_r|by exists p2]).
  rewrite Hp', answers_app, <- app_assoc in Hin0.
  destruct (T1 s0 _ Hq0 A1 Hin0) as (s1 & E1 & Hq1 & Hp1 & Hi1 & Ho1 & (_ & _ & K3 & K4 & K5 & _)).
  assert (cached s1 (SHA1 (sha st)) = cached s (SHA1 (sha st))) as Ec1 by (unfold cached; by rewrite K4, K5, A3, A4).
  pose proof (CacheProbe_ok sys addr (SHA1 (sha st)) s1 Hsys Hq1 ltac:(congruence) ltac:(by rewrite K5, A4)) as P.
  unfold Translate. cbn [config_hash pre_addr]. fold (hash_prefix state addr). rewrite (sm_bind _ _ _ _ _ E1). rewrite Ec1 in P.
  destruct (cached s (SHA1 (sha st))) as [obj|] eqn:Ecache.
  - destruct P as (s2 & E2 & Hq2 & Hi2 & Ho2 & Hp2 & Hn2 & _); [intros o [= <-]; exact Hlen|].
    assert (p' = []) as -> by (by rewrite <- (app_nil_r p1), <- app_assoc in Hp'; apply app_inv_head in Hp').
    exists s2. rewrite (sm_bind _ _ _ _ _ E2). split; [reflexivity|].
    rewrite Ho2, Ho1, Hi2, Hi1, <- app_assoc. split; [|done]. split; [done|by rewrite Hp2, Hp1|done].
  - destruct P as (f & _ & E2); [done|]. apply app_inv_head in Hp' as <-. rewrite (sm_bind _ _ _ _ _ E2).
    destruct (T2 (set_files f s1) rest Hq1 Hp1 Hi1) as (s3 & E3 & Hq3 & Hp3 & Hi3 & Ho3 & (_ & _ & L3 & _)).
    rewrite (sm_bind _ _ _ _ _ E3). cbn [set_files conn need_iwcc] in Ho3, L3.
    assert (forall hash, exists s', SendObject sys fopen_ok scfg addr (generated addr st) hash s3 = Done tt s' /\
      ready m ok s' /\ inp (conn s') = rest /\ out (conn s') = out (conn s0) ++ asks ok (p1 ++ p2) ++ object_msg (generated addr st)) as Hsend.
    { intros hash. destruct (SendObject_ok sys fopen_ok scfg addr (generated addr st) hash s3 Hq3) as (s4 & E4 & Hq4 & Hi4 & Ho4 & Hp4 & Hn4 & _);
        [congruence|done|]. exists s4. split; [done|]. split; [split; [done|by rewrite Hp4, Hp3|done]|]. split; [congruence|].
      by rewrite Ho4, Ho3, Ho1, asks_app, <- !app_assoc. }
    unfold generated in *. rewrite Hkern. destruct (Lift (M := Pure) rdmem ll_func_add_instr ll_func_new ll_func_lift addr (insts st)) as [fn|];
      [destruct (Hsend (Some (SHA1 (sha st)))) as (s' & E4 & Hres)|destruct (Hsend None) as (s' & E4 & Hres)];
      exists s'; (split; [|exact Hres]); by rewrite (sm_bind _ _ _ _ _ E4).
Qed.
End EndToEnd.

(** ** Both ends *)

Definition request_of (addr : Z) : list Z := le4 MSGID_C_TRANSLATE ++ le4 8 ++ le8 addr.

Section BothEnds.
Context {W : Type} `{StreamKernel W} (t : Translator) (p : Proc W).
Context (ok : Z -> bool) (Hok : forall a, ok a = true -> a < 2 ^ 64 - 8192).
Context (sys : nat -> Z) (Hsys : forall k, 0 < sys k) (fopen_ok : Z -> bool) (scfg : ServerConfig).
Context (decode_fn : Z -> list Z -> DecodeResult) (Htgt : forall a buf, in_u 64 (branch_target (decode_fn a buf))).
Context (cfg : TransConfig) (fuel : nat) (SHA1 : list Z -> list Z).
Context {LLFunc Fn : Type} (ll_func_new : Z -> LLFunc) (ll_func_add_instr : LLFunc -> Z -> Z -> list Z -> Z * LLFunc)
  (ll_func_lift : LLFunc -> option Fn) (generate : Fn -> list Z).
Context (init_fn : SM RewriteState) (finalize_fn : RewriteState -> SM unit).

Abbreviation m := (mem p).
Definition rewriter : IWFunctions :=
  mkFns RewriteState init_fn (Translate sys fopen_ok scfg decode_fn cfg fuel SHA1 ll_func_new ll_func_add_instr ll_func_lift generate) finalize_fn.

Lemma asks_script pages : asks ok pages = map (page_rq ok) pages ≫= request_msg.
Proof. unfold asks. induction pages as [|a pages IH]; [done|]. cbn [map]. rewrite !bind_cons. by rewrite IH. Qed.
Lemma answers_script pages : answers m ok pages = map (page_rq ok) pages ≫= reply_msg m.
Proof. unfold answers. induction pages as [|a pages IH]; [done|]. cbn [map]. rewrite !bind_cons. by rewrite IH. Qed.

(** The server takes a request and hands it to the translator. *)
Lemma run_request n state addr bs s :
  in_u 64 addr -> quiet s -> inp (conn s) = request_of addr ++ bs ->
  exists s', Run_loop rewriter (S n) state s = (state' ← translate rewriter state addr; Run_loop rewriter n state') (with_inp bs s') /\
    quiet s' /\ out (conn s') = out (conn s) /\ page_cache s' = page_cache s /\ need_iwcc s' = need_iwcc s /\ cache s' = cache s /\ files s' = files s.
Proof.
  intros Ha [Hq Hb] Hin. unfold request_of in Hin. rewrite <- !app_assoc in Hin. cbn [Run_loop].
  erewrite sm_bind by (apply (recv_msg_ok MSGID_C_TRANSLATE 8 (le8 addr ++ bs)); done).
  change (MSGID_C_TRANSLATE =? MSGID_C_EXIT) with false. rewrite Z.eqb_refl. cbv iota.
  erewrite sm_bind by (apply (read_msg_ok 8 (le8 addr) bs); [apply length_le8|lia|cbn; lia|done]).
  rewrite le_Z_le8, wrap_small by done. eexists (set_conn (mkConn bs (out (conn s)) [] (wr_sz (conn s)) MSGID_C_TRANSLATE 0) s).
  split; [unfold with_inp; cbn; by rewrite Hb|]. done.
Qed.

(** C5. A translation, end to end, for the client's process [p] and a server
    [s] between two requests: predecoding the code in the client's memory ends;
    and there is a list of pages such that
    - the server, when it reads the request and then the client's answers for
      these pages, has sent the requests for these pages and then the object,
      has read all of the input, and waits for the next request; and
    - the client, when it reads these requests and the object, has sent the
      translation request and these answers, and ends with the bytes of the
      object in its buffer, or without memory for it.
    The object is the one the cache holds for the hash of the code, or else the
    one that is generated from the code in the client's memory. *)
Theorem translation_end_to_end addr state s (D : list Z) :
  session_ok t p -> recv_ok t p -> last_id t = MSGID_UNKNOWN ->
  ready m ok s -> fs_ok (files s) -> in_u 64 addr -> is_kernel addr (pre_addr state) = false ->
  (forall a, reach (mem_read m ok) decode_fn cfg addr a -> a ∈ D) -> (2 * length D < fuel)%nat ->
  exists st, Predecode (M := Pure) (mem_read m ok) decode_fn cfg fuel addr (hash_prefix cfg state addr) = Some st /\
  let obj := object_for m ok SHA1 ll_func_new ll_func_add_instr ll_func_lift generate s addr st in
  (Z.of_nat (length obj) <= INT32_MAX ->
   exists pages,
     (forall n rest, exists s',
        Run_loop rewriter (S n) state (with_inp (request_of addr ++ answers m ok pages ++ rest) s) =
          Run_loop rewriter n (mkRewriteState (config_hash state) addr) s' /\
        ready m ok s' /\ inp (conn s') = rest /\ out (conn s') = out (conn s) ++ asks ok pages ++ object_msg obj) /\
     (forall n rest, (length pages < n)%nat -> Forall (fun a => request_fits (kst p) (sp p) (page_rq ok a)) pages ->
        incoming (kst p) (rd_fd t) = (asks ok pages ++ object_msg obj) ++ rest ->
        exists ret t' o p', translator_get n t addr p = (Some (ret, t', o), p') /\
          outgoing (kst p') (wr_fd t) = outgoing (kst p) (wr_fd t) ++ request_of addr ++ answers m ok pages /\
          (ret = 0 /\ o = Some (recvbuf t', Z.of_nat (length obj)) /\ load_bytes (mem p') (recvbuf t') (length obj) = obj /\
             incoming (kst p') (rd_fd t) = rest \/
           ret < 0 /\ o = None /\ recvbuf_sz t <= Z.of_nat (length obj)))).
Proof.
  intros Hs Hr Hl [Hq Hc Hn] Hfs Ha Hk HD Hf.
  destruct (translate_ok m ok Hok sys Hsys fopen_ok scfg decode_fn Htgt cfg fuel SHA1 ll_func_new ll_func_add_instr ll_func_lift generate
    addr Ha D HD Hf state s (mkReady _ _ _ Hq Hc Hn) Hfs Hk) as (st & E & Hrun).
  exists st. split; [exact E|]. intros obj Hlen. destruct (Hrun Hlen) as (pages & Hpages). exists pages. split.
  - intros n rest. destruct (run_request n state addr (answers m ok pages ++ rest) (with_inp (request_of addr ++ answers m ok pages ++ rest) s)
      Ha Hq eq_refl) as (s1 & E1 & Hq1 & Ho1 & Hp1 & Hn1 & Hc1 & Hf1). cbn in Ho1, Hp1, Hn1, Hc1, Hf1.
    destruct (Hpages (with_inp (answers m ok pages ++ rest) s1) rest) as (s2 & E2 & Hr2 & Hi2 & Ho2); [done|done|done|].
    exists s2. rewrite E1. cbn [rewriter translate]. rewrite (sm_bind _ _ _ _ _ E2). split; [done|]. split; [done|]. split; [done|].
    rewrite Ho2. cbn. by rewrite Ho1.
  - intros n rest Hn' Hfit Hin. unfold object_msg in Hin. rewrite <- !app_assoc, asks_script in Hin.
    destruct (get_session (map (page_rq ok) pages) n t addr obj rest p) as (ret & t' & o & p' & E2 & Ho & Hres); try done.
    + unfold INT32_MAX in Hlen. lia.
    + by apply Forall_map.
    + by rewrite length_map.
    + exists ret, t', o, p'. split; [done|]. split; [by rewrite Ho, answers_script|]. destruct Hres as [(R1 & R2 & _ & R3 & R4)|Hres]; tauto.
Qed.
End BothEnds.

(** ** The start *)

Definition tsc_ok (c : TranslatorServerConfig) : Prop :=
  in_s 32 (tsc_guest_arch c) /\ in_s 32 (tsc_host_arch c) /\ in_s 32 (tsc_host_cpu_features c) /\ in_s 32 (tsc_server_mode c) /\
  in_s 32 (tsc_stack_alignment c).
Definition tc_ok (c : TranslatorConfig) : Prop :=
  in_s 32 (tc_callconv c) /\ in_s 32 (tc_profile c) /\ in_s 32 (tc_perf c) /\ in_s 32 (tc_print_trace c) /\ in_s 32 (tc_print_regs c).

(** A field behind [pre]. *)
Lemma field_at pre v rest k : length pre = k -> in_s 32 v -> s32 (le_Z (take 4 (drop k (pre ++ le4 v ++ rest)))) = v.
Proof.
  intros <- Hv. rewrite drop_app_length, take_app_length' by (by rewrite length_le4). rewrite le_Z_le4, swrap_wrap. by apply swrap_small.
Qed.

Lemma load_tsc_bytes c : tsc_ok c -> load_tsc (tsc_bytes c) = c.
Proof.
  intros (H1 & H2 & H3 & H4 & H5). destruct c as [a b d e f]. unfold load_tsc, tsc_bytes. cbn [tsc_guest_arch tsc_host_arch
    tsc_host_cpu_features tsc_server_mode tsc_stack_alignment] in *. f_equal.
  - by apply (field_at [] a).
  - by apply (field_at (le4 a) b (le4 d ++ le4 e ++ le4 f) 4).
  - rewrite (app_assoc (le4 a)). apply field_at; [by rewrite !length_app, !length_le4|done].
  - rewrite (app_assoc (le4 a)), (app_assoc (le4 a ++ le4 b)). apply field_at; [by rewrite !length_app, !length_le4|done].
  - rewrite (app_assoc (le4 a)), (app_assoc (le4 a ++ le4 b)), (app_assoc ((le4 a ++ le4 b) ++ le4 d)), <- (app_nil_r (le4 f)).
    apply field_at; [by rewrite !length_app, !length_le4|done].
Qed.

Lemma load_field m a pre v rest k :
  Z.of_nat (length pre) = k -> in_s 32 v -> s32 (loadZ (store_bytes m a (pre ++ le4 v ++ rest)) 4 (a + k)) = v.
Proof.
  intros <- Hv. transitivity (s32 (u32 v)); [f_equal; exact (load_behind m a pre 4 v rest)|]. rewrite swrap_wrap. by apply swrap_small.
Qed.

Lemma load_tc_bytes m a c : tc_ok c -> load_tc (store_bytes m a (tc_bytes c)) a = c.
Proof.
  intros (H1 & H2 & H3 & H4 & H5). destruct c as [x b d e f]. unfold load_tc, tc_bytes. cbn [tc_callconv tc_profile tc_perf tc_print_trace tc_print_regs] in *.
  f_equal.
  - rewrite <- (Z.add_0_r a) at 2. by apply (load_field m a [] x).
  - by apply (load_field m a (le4 x) b (le4 d ++ le4 e ++ le4 f) 4).
  - rewrite (app_assoc (le4 x)). apply load_field; [by rewrite !length_app, !length_le4|done].
  - rewrite (app_assoc (le4 x)), (app_assoc (le4 x ++ le4 b)). apply load_field; [by rewrite !length_app, !length_le4|done].
  - rewrite (app_assoc (le4 x)), (app_assoc (le4 x ++ le4 b)), (app_assoc ((le4 x ++ le4 b) ++ le4 d)), <- (app_nil_r (le4 f)).
    apply load_field; [by rewrite !length_app, !length_le4|done].
Qed.

(** The first object, with the configuration before it. *)
Lemma SendObject_first sys fopen_ok scfg addr data s :
  quiet s -> need_iwcc s = true -> Z.of_nat (length data) <= INT32_MAX ->
  exists s', SendObject sys fopen_ok scfg addr data None s = Done tt s' /\
    sent_only ((le4 MSGID_S_INIT ++ le4 20 ++ tc_bytes (iwcc s)) ++ object_msg data) s s'.
Proof.
  intros [Hq Hb] Hn Hl. set (s1 := set_need false (set_conn (mkConn (inp (conn s))
    (out (conn s) ++ le4 MSGID_S_INIT ++ le4 20 ++ tc_bytes (iwcc s)) [] 0 (recv_id (conn s)) (recv_sz (conn s))) s)).
  assert (SendObject sys fopen_ok scfg addr data None s = SendObject sys fopen_ok scfg addr data None s1) as E.
  { assert (length (tc_bytes (iwcc s)) = 20%nat) as H20 by (unfold tc_bytes; by rewrite !length_app, !length_le4).
    assert ((cc ← sget iwcc; SendMsg MSGID_S_INIT (tc_bytes cc);; smodify (set_need false)) s = Done tt s1) as E1.
    { erewrite sm_bind by reflexivity. erewrite sm_bind by (apply send_msg_ok; [done|by rewrite H20]). by rewrite H20. }
    unfold SendObject. rewrite (sm_bind _ _ _ true s) by (unfold sget; by rewrite Hn). rewrite (sm_bind _ _ s tt s1 E1).
    symmetry. erewrite sm_bind by reflexivity. erewrite sm_bind by reflexivity. done. }
  rewrite E. destruct (SendObject_ok sys fopen_ok scfg addr data None s1) as (s' & E' & H1 & H2 & H3 & H4 & H5 & H6 & H7); [done|done|done|].
  exists s'. split; [done|]. split_and!; try done. rewrite H3. cbn. by rewrite <- !app_assoc.
Qed.

Section Start.
Context (sys : nat -> Z) (fopen_ok : Z -> bool) (scfg : ServerConfig) (same_user : bool) (home : string) (create : string -> bool * bool).
Context (translate_fn : RewriteState -> Z -> SM RewriteState) (finalize_fn : RewriteState -> SM unit).

(** The constructor of the translator, as far as the connection sees it: it sets
    the client's configuration and sends an object. *)
Definition init_sending (cc : TranslatorConfig) (obj : list Z) (state : RewriteState) : SM RewriteState :=
  smodify (set_iwcc cc);; SendObject sys fopen_ok scfg 0 obj None;; mret state.

(** C22. The start of the server: from the client's first message it reads the
    configuration the client sent; in mode 0 it answers with the configuration
    of the client, which the client reads back as it was set; then comes the
    first object, and the server waits for requests, with nothing unsent. *)
Theorem server_start tsc cc obj state rest n s :
  tsc_ok tsc -> tc_ok cc -> Z.of_nat (length obj) <= INT32_MAX -> quiet s ->
  inp (conn s) = le4 MSGID_C_INIT ++ le4 20 ++ tsc_bytes tsc ++ rest ->
  let fns := mkFns RewriteState (init_sending cc obj state) translate_fn finalize_fn in
  exists s', Run sys fopen_ok fns scfg same_user home create n s = Run_loop fns n state s' /\
    iwsc s' = tsc /\ inp (conn s') = rest /\ quiet s' /\ need_iwcc s' = false /\
    out (conn s') = out (conn s) ++
      (if tsc_server_mode tsc =? 0 then le4 MSGID_S_INIT ++ le4 SIZEOF_TC ++ tc_bytes cc else []) ++ object_msg obj /\
    forall m a, load_tc (store_bytes m a (tc_bytes cc)) a = cc.
Proof.
  intros Htsc Htc Hl [Hq Hb] Hin fns. unfold Run.
  erewrite sm_bind by (apply (recv_msg_ok MSGID_C_INIT 20 (tsc_bytes tsc ++ rest)); done). rewrite Z.eqb_refl. cbn [negb].
  assert (length (tsc_bytes tsc) = 20%nat) as H20 by (unfold tsc_bytes; by rewrite !length_app, !length_le4).
  erewrite sm_bind by (apply (read_msg_ok 20 (tsc_bytes tsc) rest); [done|lia|cbn; lia|done]).
  do 3 (erewrite sm_bind by reflexivity). rewrite load_tsc_bytes by done. cbn [init fns init_sending].
  match goal with |- context [(_ ≫= _) ?x] => set (s1 := set_iwcc cc x) end.
  assert (exists s2, SendObject sys fopen_ok scfg 0 obj None s1 = Done tt s2 /\
    sent_only ((if tsc_server_mode tsc =? 0 then le4 MSGID_S_INIT ++ le4 SIZEOF_TC ++ tc_bytes cc else []) ++ object_msg obj) s1 s2)
    as (s2 & E2 & Hq2 & Hi2 & Ho2 & _ & Hn2 & _ & Hs2).
  { destruct (tsc_server_mode tsc =? 0) eqn:Em; [apply SendObject_first|apply SendObject_ok]; done. }
  unfold init_sending. erewrite sm_bind; [|erewrite sm_bind by reflexivity; erewrite sm_bind by exact E2; reflexivity].
  rewrite (sm_bind _ _ _ false s2) by (unfold sget; by rewrite Hn2). rewrite (sm_bind _ _ _ tt s2) by done.
  exists s2. split_and!; try done. intros m a. by apply load_tc_bytes.
Qed.
End Start.

(** ** Examples *)

(** A lifter that keeps what it is given; its code is the bytes in order. *)
Definition add_ex (fn : list (list Z)) (_ _ : Z) (buf : list Z) : Z * list (list Z) := (4, fn ++ [take 4 buf]).
Definition guest_page (a : Z) : bool := a =? 0x1000.
Definition scfg_ex : ServerConfig := mkServerConfig false (mkCacheConfig false "" "rw").

Definition guest_proc : Proc Pipes :=
  mkProc loop_mem (mkPipes ∅ ∅ 2 0x10000) (mkArena 0 0 0 0) (mkArena 0x2000 0x4000 0x2000 0x2000) 4096 0x8000.

Lemma guest_reach a : reach (mem_read (mem guest_proc) guest_page) rv_ex cfg_ex 0x1000 a -> a ∈ [0x1000; 0x1004; 0x1008].
Proof.
  intros H. induction H as [_|a b _ IH Hb _]; [by left|].
  rewrite !elem_of_cons in IH. destruct IH as [->|[->|[->|IH]]]; [| | |by apply not_elem_of_nil in IH].
  - replace (succs _ _ _ _) with [0x1004] in Hb by (vm_compute; reflexivity). apply list_elem_of_singleton in Hb as ->. by right; left.
  - replace (succs _ _ _ _) with [0x1000; 0x1008] in Hb by (vm_compute; reflexivity).
    rewrite !elem_of_cons in Hb. destruct Hb as [->|[->|Hb]]; [by left|by do 2 right; left|by apply not_elem_of_nil in Hb].
  - replace (succs _ _ _ _) with (@nil Z) in Hb by (vm_compute; reflexivity). by apply not_elem_of_nil in Hb.
Qed.

Lemma guest_session : session_ok tr0 guest_proc /\ recv_ok tr0 guest_proc.
Proof.
  split.
  - split; [unfold fd_ok; simpl; lia | unfold fd_ok; simpl; lia | simpl; lia | intros n Hn _; simpl; lia].
  - split; [simpl; lia | constructor; simpl; try lia; try reflexivity; exists 12; lia | simpl; lia | apply loopback_abi].
Qed.

Lemma translation_end_to_end_witness :
  exists st pages s',
    Predecode (M := Pure) (mem_read (mem guest_proc) guest_page) rv_ex cfg_ex 7 0x1000 (hash_prefix cfg_ex (mkRewriteState [] 0) 0x1000) = Some st /\
    Run_loop (rewriter (fun _ => 3) (fun _ => true) scfg_ex rv_ex cfg_ex 7 (take 20) (fun _ => []) add_ex Some (@concat Z)
        (mret (mkRewriteState [] 0)) (fun _ => mret tt)) 1 (mkRewriteState [] 0)
      (with_inp (request_of 0x1000 ++ answers (mem guest_proc) guest_page pages ++ []) server_idle) =
    Run_loop (rewriter (fun _ => 3) (fun _ => true) scfg_ex rv_ex cfg_ex 7 (take 20) (fun _ => []) add_ex Some (@concat Z)
        (mret (mkRewriteState [] 0)) (fun _ => mret tt)) 0 (mkRewriteState [] 0x1000) s' /\
    out (conn s') = asks guest_page pages ++ object_msg (le4 0xfff50513 ++ le4 0xfe051ee3 ++ le4 0x00008067).
Proof.
  destruct (translation_end_to_end tr0 guest_proc guest_page ltac:(unfold guest_page; intros a Ha; lia) (fun _ => 3) ltac:(lia)
    (fun _ => true) scfg_ex rv_ex (rv64_target _) cfg_ex 7 (take 20) (fun _ => []) add_ex Some (@concat Z) (mret (mkRewriteState [] 0)) (fun _ => mret tt)
    0x1000 (mkRewriteState [] 0) server_idle [0x1000; 0x1004; 0x1008] (proj1 guest_session) (proj2 guest_session) eq_refl)
    as (st & E & H); [| apply fs_empty_ok | split; [lia | reflexivity] | reflexivity | apply guest_reach | cbn; lia |].
  { split; [done| |done]. intros a p Hp. unfold server_idle in Hp. cbn in Hp. by rewrite lookup_empty in Hp. }
  assert (object_for (mem guest_proc) guest_page (take 20) (fun _ => []) add_ex Some (@concat Z) server_idle 0x1000 st =
    le4 0xfff50513 ++ le4 0xfe051ee3 ++ le4 0x00008067) as Eo.
  { assert (insts st = [mkDI 0x1000 4 true; mkDI 0x1004 4 false; mkDI 0x1008 4 true]) as Ei.
    { assert (option_map insts (Predecode (M := Pure) (mem_read (mem guest_proc) guest_page) rv_ex cfg_ex 7 0x1000
        (hash_prefix cfg_ex (mkRewriteState [] 0) 0x1000)) = Some [mkDI 0x1000 4 true; mkDI 0x1004 4 false; mkDI 0x1008 4 true]) as E'
        by (vm_compute; reflexivity). rewrite E in E'. by injection E'. }
    unfold object_for, generated, cached. cbn [server_idle cache allow_read]. rewrite Ei. vm_compute. reflexivity. }
  cbv zeta in H. rewrite Eo in H. destruct H as (pages & Hs & _); [vm_compute; discriminate|].
  destruct (Hs 0%nat []) as (s' & E1 & _ & _ & Ho). exists st, pages, s'. split; [exact E|]. split; [exact E1|exact Ho].
Defined.

(** A function 0x1da bytes below the last one that was requested ends the
    server, without an object. *)
Definition server_page : Server := set_pages {[0x1000 := load_bytes loop_mem 0x1000 page_bytes]} server_idle.

Theorem kernel_function_exits :
  exists s', Translate (fun _ => 3) (fun _ => true) scfg_ex rv_ex cfg_ex 7 (take 20) (fun _ => []) add_ex Some (@concat Z)
    (mkRewriteState [] (0x1000 + 0x1da)) 0x1000 server_page = Exited 0 s' /\ out (conn s') = [] /\ buffered (conn s') = [].
Proof. eexists. split; [vm_compute; reflexivity|]. split; reflexivity. Qed.

Lemma server_start_witness :
  let fns := mkFns RewriteState (init_sending (fun _ => 3) (fun _ => true) scfg_ex (mkTc 1 0 0 0 0) [7; 8] (mkRewriteState [] 0))
    (fun st _ => mret st) (fun _ => mret tt) in
  exists s', Run (fun _ => 3) (fun _ => true) fns scfg_ex true "" (fun _ => (false, false)) 1
      (with_inp (le4 MSGID_C_INIT ++ le4 20 ++ tsc_bytes (mkTsc 62 62 0 0 0) ++ []) server_idle) = Run_loop fns 1 (mkRewriteState [] 0) s' /\
    out (conn s') = [] ++ (le4 MSGID_S_INIT ++ le4 SIZEOF_TC ++ tc_bytes (mkTc 1 0 0 0 0)) ++ object_msg [7; 8].
Proof.
  intros fns. destruct (server_start (fun _ => 3) (fun _ => true) scfg_ex true "" (fun _ => (false, false)) (fun st _ => mret st) (fun _ => mret tt)
    (mkTsc 62 62 0 0 0) (mkTc 1 0 0 0 0) [7; 8] (mkRewriteState [] 0) [] 1
    (with_inp (le4 MSGID_C_INIT ++ le4 20 ++ tsc_bytes (mkTsc 62 62 0 0 0) ++ []) server_idle)) as (s' & E & _ & _ & _ & _ & Ho & _).
  - unfold tsc_ok, in_s. cbn. lia.
  - unfold tc_ok, in_s. cbn. lia.
  - vm_compute. discriminate.
  - done.
  - reflexivity.
  - exists s'. split; [exact E|exact Ho].
Defined.
