(* ===== verification/RvSem.v ===== *)
(** * What RISC-V instructions do, a reference for the lifter

    The effect of the instructions of RV64I and of its extensions for
    multiplication, atomic memory operations and the moves of floating-point
    registers, as the RISC-V manual describes them and independent of the
    lifter: a register is a number, an operation a function on numbers.
    [RellumeRv64Proofs] compares the lifted code with it. *)

From Stdlib Require Import ZArith Lia.
From stdpp Require Import base numbers list option gmap.
From S2P Require Import Prelude Machine Frvdec.

(** The registers, the program counter and memory of a hart. *)
Record Hart := mkHart { hx : Z -> Z; hf : Z -> Z; hpc : Z; hmem : memory }.

(** [x0] reads as zero, and writes to it are lost. *)
Definition xr (h : Hart) (r : Z) : Z := if r =? 0 then 0 else hx h r.
Definition set_x (h : Hart) (r v : Z) : Hart :=
  if r =? 0 then h else mkHart (fun i => if i =? r then v else hx h i) (hf h) (hpc h) (hmem h).
Definition set_f (h : Hart) (r v : Z) : Hart := mkHart (hx h) (fun i => if i =? r then v else hf h i) (hpc h) (hmem h).
Definition set_pc (h : Hart) (v : Z) : Hart := mkHart (hx h) (hf h) v (hmem h).
Definition set_hmem (h : Hart) (m : memory) : Hart := mkHart (hx h) (hf h) (hpc h) m.

(** ** Arithmetic *)

(** A result of 32 bits is sign-extended. *)
Definition sext32 (v : Z) : Z := u64 (s32 v).

(** Division never traps: by zero it gives all ones, and the dividend as remainder. *)
Definition div_by (a b : Z) : Z := if b =? 0 then -1 else Z.quot a b.
Definition rem_by (a b : Z) : Z := if b =? 0 then a else Z.rem a b.

Definition alu_table : list (Z * (Z -> Z -> Z)) := [
  (FRV_ADD, fun a b => u64 (a + b)); (FRV_SUB, fun a b => u64 (a - b));
  (FRV_AND, Z.land); (FRV_OR, Z.lor); (FRV_XOR, Z.lxor);
  (FRV_SLL, fun a b => u64 (a * 2 ^ (b `mod` 64))); (FRV_SRL, fun a b => a / 2 ^ (b `mod` 64));
  (FRV_SRA, fun a b => u64 (s64 a / 2 ^ (b `mod` 64)));
  (FRV_SLT, fun a b => Z.b2z (s64 a <? s64 b)); (FRV_SLTU, fun a b => Z.b2z (a <? b));
  (FRV_ADDW, fun a b => sext32 (a + b)); (FRV_SUBW, fun a b => sext32 (a - b));
  (FRV_SLLW, fun a b => sext32 (a * 2 ^ (b `mod` 32))); (FRV_SRLW, fun a b => sext32 (u32 a / 2 ^ (b `mod` 32)));
  (FRV_SRAW, fun a b => sext32 (s32 a / 2 ^ (b `mod` 32)));
  (FRV_MUL, fun a b => u64 (a * b)); (FRV_MULW, fun a b => sext32 (a * b));
  (FRV_MULH, fun a b => u64 (s64 a * s64 b / 2 ^ 64)); (FRV_MULHSU, fun a b => u64 (s64 a * b / 2 ^ 64));
  (FRV_MULHU, fun a b => a * b / 2 ^ 64);
  (FRV_DIV, fun a b => u64 (div_by (s64 a) (s64 b))); (FRV_DIVU, fun a b => u64 (div_by a b));
  (FRV_REM, fun a b => u64 (rem_by (s64 a) (s64 b))); (FRV_REMU, fun a b => rem_by a b);
  (FRV_DIVW, fun a b => sext32 (div_by (s32 a) (s32 b))); (FRV_DIVUW, fun a b => sext32 (div_by (u32 a) (u32 b)));
  (FRV_REMW, fun a b => sext32 (rem_by (s32 a) (s32 b))); (FRV_REMUW, fun a b => sext32 (rem_by (u32 a) (u32 b)))].

(** The operations with an immediate operand. *)
Definition alu_imm_table : list (Z * Z) := [
  (FRV_ADDI, FRV_ADD); (FRV_ANDI, FRV_AND); (FRV_ORI, FRV_OR); (FRV_XORI, FRV_XOR); (FRV_SLTI, FRV_SLT); (FRV_SLTIU, FRV_SLTU);
  (FRV_SLLI, FRV_SLL); (FRV_SRLI, FRV_SRL); (FRV_SRAI, FRV_SRA);
  (FRV_ADDIW, FRV_ADDW); (FRV_SLLIW, FRV_SLLW); (FRV_SRLIW, FRV_SRLW); (FRV_SRAIW, FRV_SRAW)].

(** ** Memory, control flow and atomic operations *)

(** Width in bytes, and whether the value is sign-extended. *)
Definition load_table : list (Z * (nat * bool)) := [
  (FRV_LB, (1%nat, true)); (FRV_LH, (2%nat, true)); (FRV_LW, (4%nat, true)); (FRV_LD, (8%nat, true));
  (FRV_LBU, (1%nat, false)); (FRV_LHU, (2%nat, false)); (FRV_LWU, (4%nat, false))].
Definition store_table : list (Z * nat) := [(FRV_SB, 1%nat); (FRV_SH, 2%nat); (FRV_SW, 4%nat); (FRV_SD, 8%nat)].

Definition cond_table : list (Z * (Z -> Z -> bool)) := [
  (FRV_BEQ, Z.eqb); (FRV_BNE, fun a b => negb (a =? b)); (FRV_BLT, fun a b => s64 a <? s64 b); (FRV_BGE, fun a b => s64 b <=? s64 a);
  (FRV_BLTU, Z.ltb); (FRV_BGEU, fun a b => b <=? a)].

(** Width in bytes, and the new contents from the old and the operand, both as
    unsigned numbers of the width. *)
Definition amo_ops (n : nat) : list (Z -> Z -> Z) :=
  let w := 8 * Z.of_nat n in
  [(fun _ v => v); (fun old v => wrap w (old + v)); Z.land; Z.lor; Z.lxor;
   (fun old v => wrap w (Z.max (swrap w old) (swrap w v))); Z.max; (fun old v => wrap w (Z.min (swrap w old) (swrap w v))); Z.min].
Definition isa_amo_table : list (Z * (nat * (Z -> Z -> Z))) :=
  zip [FRV_AMOSWAPW; FRV_AMOADDW; FRV_AMOANDW; FRV_AMOORW; FRV_AMOXORW; FRV_AMOMAXW; FRV_AMOMAXUW; FRV_AMOMINW; FRV_AMOMINUW]
    (pair 4%nat <$> amo_ops 4) ++
  zip [FRV_AMOSWAPD; FRV_AMOADDD; FRV_AMOANDD; FRV_AMOORD; FRV_AMOXORD; FRV_AMOMAXD; FRV_AMOMAXUD; FRV_AMOMIND; FRV_AMOMINUD]
    (pair 8%nat <$> amo_ops 8).

(** ** One instruction *)

Section Exec.
Context (i : FrvInst) (len : Z) (h : Hart).

Definition ea : Z := u64 (xr h (rs1 i) + imm i).
Definition next (h' : Hart) : Hart := set_pc h' (u64 (hpc h + len)).
Definition opd2 : Z := u64 (imm i).

Definition exec_alu : option Hart :=
  f ← assocZ (mnem i) alu_table; Some (next (set_x h (rd i) (f (xr h (rs1 i)) (xr h (rs2 i))))).
Definition exec_imm : option Hart :=
  m ← assocZ (mnem i) alu_imm_table; f ← assocZ m alu_table; Some (next (set_x h (rd i) (f (xr h (rs1 i)) opd2))).
Definition exec_load : option Hart :=
  '(n, signed) ← assocZ (mnem i) load_table;
  let v := loadZ (hmem h) n ea in
  Some (next (set_x h (rd i) (if signed : bool then u64 (swrap (8 * Z.of_nat n) v) else v))).
Definition exec_store : option Hart :=
  n ← assocZ (mnem i) store_table;
  Some (next (set_hmem h (storeZ (hmem h) n ea (wrap (8 * Z.of_nat n) (xr h (rs2 i)))))).
Definition exec_branch : option Hart :=
  c ← assocZ (mnem i) cond_table;
  Some (if c (xr h (rs1 i)) (xr h (rs2 i)) : bool then set_pc h (u64 (hpc h + imm i)) else next h).
Definition exec_amo : option Hart :=
  '(n, f) ← assocZ (mnem i) isa_amo_table;
  let w := 8 * Z.of_nat n in
  let old := loadZ (hmem h) n (xr h (rs1 i)) in
  Some (next (set_x (set_hmem h (storeZ (hmem h) n (xr h (rs1 i)) (f old (wrap w (xr h (rs2 i)))))) (rd i) (u64 (swrap w old)))).

(** The target of [jalr] has its lowest bit cleared. *)
Definition exec_other : option Hart :=
  let m := mnem i in
  if m =? FRV_LUI then Some (next (set_x h (rd i) opd2))
  else if m =? FRV_AUIPC then Some (next (set_x h (rd i) (u64 (hpc h + imm i))))
  else if m =? FRV_JAL then Some (set_pc (set_x h (rd i) (u64 (hpc h + len))) (u64 (hpc h + imm i)))
  else if m =? FRV_JALR then Some (set_pc (set_x h (rd i) (u64 (hpc h + len))) (ea - ea `mod` 2))
  else if m =? FRV_FENCE then Some (next h)
  else if m =? FRV_LRW then Some (next (set_x h (rd i) (sext32 (loadZ (hmem h) 4 (xr h (rs1 i))))))
  else if m =? FRV_FLD then Some (next (set_f h (rd i) (loadZ (hmem h) 8 ea)))
  else if m =? FRV_FSD then Some (next (set_hmem h (storeZ (hmem h) 8 ea (hf h (rs2 i)))))
  else if m =? FRV_FSW then Some (next (set_hmem h (storeZ (hmem h) 4 ea (u32 (hf h (rs2 i))))))
  else if m =? FRV_FMVXD then Some (next (set_x h (rd i) (hf h (rs1 i))))
  else if m =? FRV_FMVDX then Some (next (set_f h (rd i) (xr h (rs1 i))))
  else if m =? FRV_FMVXW then Some (next (set_x h (rd i) (sext32 (hf h (rs1 i)))))
  else None.

(** [None]: an instruction this file does not describe. *)
Definition exec : option Hart :=
  match exec_alu, exec_imm, exec_load, exec_store, exec_branch, exec_amo with
  | Some h', _, _, _, _, _ | None, Some h', _, _, _, _ | None, None, Some h', _, _, _ | None, None, None, Some h', _, _
  | None, None, None, None, Some h', _ | None, None, None, None, None, Some h' => Some h'
  | _, _, _, _, _, _ => exec_other
  end.
End Exec.
