(* ===== verification/Rellume.v ===== *)
(** * The lifter's register file and its base, [subprojects/rellume/src]

    Rellume turns guest instructions into LLVM IR.  LLVM is a library, of which
    this file states the part the lifter uses, by the language reference: a
    value has a type and bits, an instruction computes its result from values,
    and undefined behaviour or a failed assertion is an outcome of its own
    ([None]).  Emitting an instruction and running it are one step here: a
    builder call returns the value the emitted instruction computes, memory
    accesses take effect in the order they are emitted, and entering a basic
    block gives the register file the values its phi nodes receive; the option
    of full facets is off, which is its default.  What
    floating-point instructions compute is a parameter.

    Modelled: facets ([facet.cc]), the register file with its facets
    ([regfile.cc]), packing registers into the CPU struct ([callconv.cc]) and
    the base class of the lifters ([lifter-base.cc]). *)

From Stdlib Require Import ZArith Lia.
From stdpp Require Import base numbers list option gmap.
From S2P Require Import Prelude Machine.

(** ** Types and values *)

Inductive Ty := TInt (w : Z) | TFloat | TDouble | TPtr | TVec (n : Z) (elem : Ty).
#[global] Instance Ty_eq_dec : EqDecision Ty.
Proof. solve_decision. Defined.

Fixpoint ty_bits (t : Ty) : Z :=
  match t with TInt w => w | TFloat => 32 | TDouble => 64 | TPtr => 64 | TVec n t => n * ty_bits t end.

(** What the builder's constant folding made of a value. *)
Inductive Constness := NotConst | ConstInt | ConstExpr.

Record Value := mkVal { v_ty : Ty; v_bits : Z; v_const : Constness }.

Definition is_constant (v : Value) : bool := match v_const v with NotConst => false | _ => true end.

Definition fold2 (a b : Value) : Constness :=
  match v_const a, v_const b with
  | ConstInt, ConstInt => ConstInt
  | NotConst, _ | _, NotConst => NotConst
  | _, _ => ConstExpr
  end.

(** ** Instructions *)

Inductive BinOp := Add | Sub | Mul | UDiv | SDiv | URem | SRem | Shl | LShr | AShr | And | Or | Xor.

(** Division by zero, signed overflow of a division and too large a shift are undefined. *)
Definition bin_sem (op : BinOp) (w a b : Z) : option Z :=
  match op with
  | Add => Some (wrap w (a + b))
  | Sub => Some (wrap w (a - b))
  | Mul => Some (wrap w (a * b))
  | UDiv => if b =? 0 then None else Some (a / b)
  | URem => if b =? 0 then None else Some (a `mod` b)
  | SDiv => if (b =? 0) || ((swrap w a =? - 2 ^ (w - 1)) && (swrap w b =? -1)) then None else Some (wrap w (Z.quot (swrap w a) (swrap w b)))
  | SRem => if (b =? 0) || ((swrap w a =? - 2 ^ (w - 1)) && (swrap w b =? -1)) then None else Some (wrap w (Z.rem (swrap w a) (swrap w b)))
  | Shl => if w <=? b then None else Some (wrap w (Z.shiftl a b))
  | LShr => if w <=? b then None else Some (Z.shiftr a b)
  | AShr => if w <=? b then None else Some (wrap w (Z.shiftr (swrap w a) b))
  | And => Some (Z.land a b)
  | Or => Some (Z.lor a b)
  | Xor => Some (Z.lxor a b)
  end.

Definition CreateBinOp (op : BinOp) (a b : Value) : option Value :=
  match v_ty a with
  | TInt w => if decide (v_ty b = TInt w) then r ← bin_sem op w (v_bits a) (v_bits b); Some (mkVal (TInt w) r (fold2 a b)) else None
  | _ => None
  end.

Inductive CastOp := Trunc | ZExt | SExt | BitCast | IntToPtr | PtrToInt.

Definition fold1 (a : Value) (op : CastOp) : Constness :=
  match v_const a, op with
  | NotConst, _ => NotConst
  | ConstInt, (Trunc | ZExt | SExt) => ConstInt
  | _, _ => ConstExpr
  end.

(** A cast to the same type is the value itself. *)
Definition CreateCast (op : CastOp) (a : Value) (ty : Ty) : option Value :=
  if decide (v_ty a = ty) then Some a
  else
    let res bits := Some (mkVal ty bits (fold1 a op)) in
    match op, v_ty a, ty with
    | Trunc, TInt w, TInt w' => if w' <? w then res (wrap w' (v_bits a)) else None
    | ZExt, TInt w, TInt w' => if w <? w' then res (v_bits a) else None
    | SExt, TInt w, TInt w' => if w <? w' then res (wrap w' (swrap w (v_bits a))) else None
    | BitCast, t, t' => if ty_bits t =? ty_bits t' then res (v_bits a) else None
    | IntToPtr, TInt 64, TPtr => res (v_bits a)
    | PtrToInt, TPtr, TInt 64 => res (v_bits a)
    | _, _, _ => None
    end.

Inductive Pred := ICMP_EQ | ICMP_NE | ICMP_ULT | ICMP_UGE | ICMP_SLT | ICMP_SGE.

Definition icmp_sem (p : Pred) (w a b : Z) : bool :=
  match p with
  | ICMP_EQ => a =? b
  | ICMP_NE => negb (a =? b)
  | ICMP_ULT => a <? b
  | ICMP_UGE => b <=? a
  | ICMP_SLT => swrap w a <? swrap w b
  | ICMP_SGE => swrap w b <=? swrap w a
  end.

Definition CreateICmp (p : Pred) (a b : Value) : option Value :=
  match v_ty a with
  | TInt w => if decide (v_ty b = TInt w) then Some (mkVal (TInt 1) (Z.b2z (icmp_sem p w (v_bits a) (v_bits b))) (fold2 a b)) else None
  | _ => None
  end.

Definition CreateSelect (c a b : Value) : option Value :=
  if decide (v_ty c = TInt 1 /\ v_ty a = v_ty b) then
    Some (mkVal (v_ty a) (if v_bits c =? 0 then v_bits b else v_bits a) (if is_constant c then fold2 a b else NotConst))
  else None.

(** [CreateNot] and [CreateNeg] *)
Definition CreateNot (v : Value) : option Value :=
  match v_ty v with TInt w => CreateBinOp Xor v (mkVal (TInt w) (wrap w (-1)) ConstInt) | _ => None end.
Definition CreateNeg (v : Value) : option Value :=
  match v_ty v with TInt w => CreateBinOp Sub (mkVal (TInt w) 0 ConstInt) v | _ => None end.

(** [CreateTruncOrBitCast], by the sizes. *)
Definition CreateTruncOrBitCast (v : Value) (t : Ty) : option Value :=
  CreateCast (if ty_bits (v_ty v) =? ty_bits t then BitCast else Trunc) v t.

(** [getelementptr] over elements of type [t]. *)
Definition CreateElemGEP (t : Ty) (p idx : Value) : option Value :=
  if decide (v_ty p = TPtr /\ v_ty idx = TInt 64) then
    Some (mkVal TPtr (wrap 64 (v_bits p + ty_bits t / 8 * v_bits idx)) (match fold2 p idx with NotConst => NotConst | _ => ConstExpr end))
  else None.

(** [CreatePointerCast] *)
Definition CreatePointerCast (p : Value) : option Value := if decide (v_ty p = TPtr) then Some p else None.

(** [getelementptr i8] *)
Definition CreateGEP (p off : Value) : option Value :=
  if decide (v_ty p = TPtr /\ v_ty off = TInt 64) then
    Some (mkVal TPtr (wrap 64 (v_bits p + v_bits off)) (match fold2 p off with NotConst => NotConst | _ => ConstExpr end))
  else None.

Definition getIntN (w v : Z) : Value := mkVal (TInt w) (wrap w v) ConstInt.
Definition getInt64 (v : Z) : Value := getIntN 64 v.
Definition getInt32 (v : Z) : Value := getIntN 32 v.

(** [Constant::getNullValue] *)
Definition getNullValue (t : Ty) : Value := mkVal t 0 (match t with TInt _ => ConstInt | _ => ConstExpr end).

(** Whole bytes only. *)
Definition load_val (m : memory) (t : Ty) (p : Value) : option Value :=
  if decide (v_ty p = TPtr) then Some (mkVal t (loadZ m (Z.to_nat (ty_bits t / 8)) (v_bits p)) NotConst) else None.
Definition store_val (m : memory) (v p : Value) : option memory :=
  if decide (v_ty p = TPtr) then Some (storeZ m (Z.to_nat (ty_bits (v_ty v) / 8)) (v_bits p) (v_bits v)) else None.

(** ** Floating point *)

Inductive FBinOp := FAdd | FSub | FMul | FDiv | FMinNum | FMaxNum.
Inductive FUnOp := FNeg | FSqrt | FFloor | FCeil | FRound | FTrunc | FRint | FNearbyInt | FRoundEven | FAbs.
Inductive FPred := FCMP_OEQ | FCMP_OLT | FCMP_OLE | FCMP_OGT | FCMP_OGE | FCMP_UNO.

(** What LLVM's instructions compute on bit patterns of [w] bits; a conversion
    to an integer that does not fit has no defined result. *)
Record FpSem := mkFp {
  fp_bin : FBinOp -> Z -> Z -> Z -> Z; fp_un : FUnOp -> Z -> Z -> Z; fp_cmp : FPred -> Z -> Z -> Z -> bool;
  int_to_fp : bool -> Z -> Z -> Z -> Z; fp_to_int : bool -> Z -> Z -> Z -> option Z; fp_to_fp : Z -> Z -> Z -> Z }.

Definition is_fp (t : Ty) : bool := match t with TFloat | TDouble => true | _ => false end.

Section Float.
Context (fp : FpSem).

Definition CreateFBin (op : FBinOp) (a b : Value) : option Value :=
  if decide (is_fp (v_ty a) /\ v_ty b = v_ty a) then Some (mkVal (v_ty a) (fp_bin fp op (ty_bits (v_ty a)) (v_bits a) (v_bits b)) NotConst) else None.
Definition CreateFUn (op : FUnOp) (a : Value) : option Value :=
  if is_fp (v_ty a) then Some (mkVal (v_ty a) (fp_un fp op (ty_bits (v_ty a)) (v_bits a)) NotConst) else None.
Definition CreateFCmp (p : FPred) (a b : Value) : option Value :=
  if decide (is_fp (v_ty a) /\ v_ty b = v_ty a) then Some (mkVal (TInt 1) (Z.b2z (fp_cmp fp p (ty_bits (v_ty a)) (v_bits a) (v_bits b))) NotConst) else None.
Definition CreateIToFP (signed : bool) (a : Value) (t : Ty) : option Value :=
  match v_ty a with TInt w => if is_fp t then Some (mkVal t (int_to_fp fp signed w (ty_bits t) (v_bits a)) NotConst) else None | _ => None end.
Definition CreateFPToI (signed : bool) (a : Value) (t : Ty) : option Value :=
  match t with TInt w => if is_fp (v_ty a) then r ← fp_to_int fp signed (ty_bits (v_ty a)) w (v_bits a); Some (mkVal t r NotConst) else None | _ => None end.
Definition CreateFPCast (a : Value) (t : Ty) : option Value :=
  if decide (v_ty a = t) then Some a
  else if is_fp (v_ty a) && is_fp t then Some (mkVal t (fp_to_fp fp (ty_bits (v_ty a)) (ty_bits t) (v_bits a)) NotConst) else None.

End Float.

(** ** Vectors *)

(** Element [i] of elements of [w] bits; all of them, lowest first, and back. *)
Definition lane (w x i : Z) : Z := wrap w (Z.shiftr x (w * i)).
Definition lanes (n : nat) (w x : Z) : list Z := (fun i => lane w x (Z.of_nat i)) <$> seq 0 n.
Fixpoint of_lanes (w : Z) (l : list Z) : Z := match l with [] => 0 | x :: l => x + 2 ^ w * of_lanes w l end.

Definition CreateExtractElement (v : Value) (i : Z) : option Value :=
  match v_ty v with
  | TVec n t => if (0 <=? i) && (i <? n) then Some (mkVal t (lane (ty_bits t) (v_bits v) i) NotConst) else None
  | _ => None
  end.
Definition CreateInsertElement (v e : Value) (i : Z) : option Value :=
  match v_ty v with
  | TVec n t =>
      if decide (v_ty e = t /\ 0 <= i < n) then
        Some (mkVal (v_ty v) (of_lanes (ty_bits t) (<[Z.to_nat i := v_bits e]> (lanes (Z.to_nat n) (ty_bits t) (v_bits v)))) NotConst)
      else None
  | _ => None
  end.

(** ** Intrinsics on integers *)

Inductive IntrOp := Bswap | Bitreverse | Ctlz.

(** The bytes, or the bits, in reverse order; the zeros above the highest bit. *)
Definition intr_sem (op : IntrOp) (w x : Z) : Z :=
  match op with
  | Bswap => of_lanes 8 (reverse (lanes (Z.to_nat (w / 8)) 8 x))
  | Bitreverse => of_lanes 1 (reverse (lanes (Z.to_nat w) 1 x))
  | Ctlz => if x =? 0 then w else w - 1 - Z.log2 x
  end.

(** Element by element on vectors. *)
Definition CreateIntrinsic (op : IntrOp) (v : Value) : option Value :=
  match v_ty v with
  | TInt w => Some (mkVal (TInt w) (intr_sem op w (v_bits v)) NotConst)
  | TVec n (TInt w) => Some (mkVal (v_ty v) (of_lanes w (intr_sem op w <$> lanes (Z.to_nat n) w (v_bits v))) NotConst)
  | _ => None
  end.

(** [llvm.fshr] of a value with itself, a rotation. *)
Definition CreateFshr (v n : Value) : option Value :=
  match v_ty v with
  | TInt w =>
      if decide (v_ty n = TInt w) then
        let n := v_bits n `mod` w in
        Some (mkVal (TInt w) (wrap w (Z.shiftr (v_bits v + 2 ^ w * v_bits v) n)) NotConst)
      else None
  | _ => None
  end.

(** The overflow bit of [llvm.sadd.with.overflow]. *)
Definition CreateSAddOverflow (a b : Value) : option Value :=
  match v_ty a with
  | TInt w =>
      if decide (v_ty b = TInt w) then
        let sum := swrap w (v_bits a) + swrap w (v_bits b) in
        Some (mkVal (TInt 1) (Z.b2z (negb ((- 2 ^ (w - 1) <=? sum) && (sum <? 2 ^ (w - 1))))) NotConst)
      else None
  | _ => None
  end.

(** ** Facets, [facet.cc] *)

Inductive Facet :=
  | FI8 | FI16 | FI32 | FI64 | FI128 | FF32 | FF64
  | FV1I8 | FV2I8 | FV4I8 | FV8I8 | FV16I8 | FV1I16 | FV2I16 | FV4I16 | FV8I16 | FV1I32 | FV2I32 | FV4I32 | FV1I64 | FV2I64
  | FV1F32 | FV2F32 | FV4F32 | FV1F64 | FV2F64
  | FPTR | FI8H | FZF | FSF | FPF | FCF | FOF | FAF | FDF
  | FI | FVI8 | FVI16 | FVI32 | FVI64 | FVF32 | FVF64.
#[global] Instance Facet_eq_dec : EqDecision Facet.
Proof. solve_decision. Defined.

(** [VECTOR_FACET] *)
Definition facet_vector (f : Facet) : option (Z * Facet) :=
  match f with
  | FV1I8 => Some (1, FI8) | FV2I8 => Some (2, FI8) | FV4I8 => Some (4, FI8) | FV8I8 => Some (8, FI8) | FV16I8 => Some (16, FI8)
  | FV1I16 => Some (1, FI16) | FV2I16 => Some (2, FI16) | FV4I16 => Some (4, FI16) | FV8I16 => Some (8, FI16)
  | FV1I32 => Some (1, FI32) | FV2I32 => Some (2, FI32) | FV4I32 => Some (4, FI32) | FV1I64 => Some (1, FI64) | FV2I64 => Some (2, FI64)
  | FV1F32 => Some (1, FF32) | FV2F32 => Some (2, FF32) | FV4F32 => Some (4, FF32) | FV1F64 => Some (1, FF64) | FV2F64 => Some (2, FF64)
  | _ => None
  end.

Definition facet_In (size : Z) : option Facet :=
  match size with 8 => Some FI8 | 16 => Some FI16 | 32 => Some FI32 | 64 => Some FI64 | 128 => Some FI128 | _ => None end.

Definition vector_facets : list Facet :=
  [FV1I8; FV2I8; FV4I8; FV8I8; FV16I8; FV1I16; FV2I16; FV4I16; FV8I16; FV1I32; FV2I32; FV4I32; FV1I64; FV2I64; FV1F32; FV2F32; FV4F32; FV1F64; FV2F64].

Definition facet_Vnt (num : Z) (scalar : Facet) : option Facet :=
  List.find (fun f => bool_decide (facet_vector f = Some (num, scalar))) vector_facets.

Definition scalar_type (f : Facet) : option Ty :=
  match f with
  | FI8 => Some (TInt 8) | FI16 => Some (TInt 16) | FI32 => Some (TInt 32) | FI64 => Some (TInt 64) | FI128 => Some (TInt 128)
  | FF32 => Some TFloat | FF64 => Some TDouble
  | FPTR => Some TPtr | FI8H | FPF => Some (TInt 8)
  | FZF | FSF | FCF | FOF | FAF | FDF => Some (TInt 1)
  | _ => None
  end.

(** No type for the pseudo facets. *)
Definition facet_Type (f : Facet) : option Ty :=
  match facet_vector f with Some (n, sc) => TVec n <$> scalar_type sc | None => scalar_type f end.

Definition facet_Size (f : Facet) : option Z :=
  match f with FPF => Some 1 | _ => ty_bits <$> facet_Type f end.

Definition facet_Resolve (f : Facet) (bits : Z) : option Facet :=
  match f with
  | FI => facet_In bits
  | FVI8 => facet_Vnt (bits / 8) FI8
  | FVI16 => facet_Vnt (bits / 16) FI16
  | FVI32 => facet_Vnt (bits / 32) FI32
  | FVI64 => facet_Vnt (bits / 64) FI64
  | FVF32 => facet_Vnt (bits / 32) FF32
  | FVF64 => facet_Vnt (bits / 64) FF64
  | _ => Some f
  end.

Definition facet_FromType (t : Ty) : option Facet :=
  let scalar t := match t with TInt w => facet_In w | TFloat => Some FF32 | TDouble => Some FF64 | _ => None end in
  match t with TVec n t' => sc ← scalar t'; facet_Vnt n sc | _ => scalar t end.

(** ** The register file, [regfile.cc] *)

Inductive ArchReg := RINVALID | RGP (idx : Z) | RIP | REFLAGS | RVEC (idx : Z).
#[global] Instance ArchReg_eq_dec : EqDecision ArchReg.
Proof. solve_decision. Defined.

Definition RegisterSetBitIdx (reg : ArchReg) (facet : Facet) : Z :=
  match reg with
  | RIP => 0
  | REFLAGS => match facet with FOF => 1 | FSF => 2 | FZF => 3 | FAF => 4 | FPF => 5 | FCF => 6 | FDF => 7 | _ => 8 end
  | RGP idx => 8 + idx
  | RVEC idx => 40 + idx
  | RINVALID => 0xffffffff
  end.

Definition gp_facets : list Facet := [FI64; FI32; FI16; FI8; FI8H; FPTR].
Definition sse_facets : list Facet :=
  [FI128; FI8; FV16I8; FI16; FV8I16; FI32; FV4I32; FI64; FV2I64; FF32; FV4F32; FF64; FV2F64].
Definition flag_facets : list Facet := [FZF; FSF; FPF; FCF; FOF; FAF; FDF].

(** Whether the register file has a place for the facet. *)
Definition AccessRegFacet (reg : ArchReg) (facet : Facet) : bool :=
  match reg with
  | RGP _ => bool_decide (facet ∈ gp_facets)
  | RIP => bool_decide (facet = FI64)
  | REFLAGS => bool_decide (facet ∈ flag_facets)
  | RVEC _ => bool_decide (facet ∈ sse_facets)
  | RINVALID => false
  end.

Inductive Arch := X86_64 | RV64 | AArch64.

(** The number of registers of either kind, and the native facet of a vector register. *)
Definition arch_regs (arch : Arch) : Z := match arch with X86_64 => 16 | RV64 | AArch64 => 32 end.
Definition ivec_facet (arch : Arch) : Facet := match arch with RV64 => FI64 | _ => FV2I64 end.

(** The values by register and facet, and the registers modified since they
    were last packed, and those packed. *)
Record RegFile := mkRF { rf_vals : ArchReg -> Facet -> option Value; rf_arch : Arch; dirty_regs : gset Z; cleaned_regs : gset Z }.

(** An index behind the end of the vectors of registers is undefined. *)
Definition reg_exists (arch : Arch) (reg : ArchReg) : bool :=
  match reg with RGP i | RVEC i => (0 <=? i) && (i <? arch_regs arch) | _ => true end.

Definition set_val (reg : ArchReg) (facet : Facet) (v : Value) (rf : RegFile) : RegFile :=
  mkRF (fun r f => if decide (r = reg /\ f = facet) then Some v else rf_vals rf r f) (rf_arch rf) (dirty_regs rf) (cleaned_regs rf).

Definition clear_reg (reg : ArchReg) (rf : RegFile) : RegFile :=
  mkRF (fun r f => if decide (r = reg) then None else rf_vals rf r f) (rf_arch rf) (dirty_regs rf) (cleaned_regs rf).

(** [RegFile::Clear] *)
Definition rf_clear (rf : RegFile) : RegFile := mkRF (fun _ _ => None) (rf_arch rf) (dirty_regs rf) (cleaned_regs rf).

Definition GetRegFacet (rf : RegFile) (reg : ArchReg) (facet : Facet) : option Value :=
  if AccessRegFacet reg facet then rf_vals rf reg facet else None.

(** Keeps a derived facet. *)
Definition cache (reg : ArchReg) (facet : Facet) (v : Value) (rf : RegFile) : Value * RegFile :=
  (v, if AccessRegFacet reg facet then set_val reg facet v rf else rf).

(** A facet of a general-purpose register from the native one. *)
Definition derive_gp (native : Value) (facet : Facet) : option Value :=
  match facet with
  | FI64 | FI32 | FI16 | FI8 => ty ← facet_Type facet; CreateCast Trunc native ty
  | FI8H => r ← CreateBinOp LShr native (getInt64 8); CreateCast Trunc r (TInt 8)
  | FPTR => CreateCast IntToPtr native TPtr
  | _ => None
  end.

(** A vector facet: the low elements of the native value, or of the 128-bit facet. *)
Definition GetRegVector (rf : RegFile) (reg : ArchReg) (facet : Facet) : option (Value * RegFile) :=
  match GetRegFacet rf reg facet with
  | Some v => Some (v, rf)
  | None =>
      native ← GetRegFacet rf reg (ivec_facet (rf_arch rf));
      '(targetCnt, sc) ← facet_vector facet;
      elem_ty ← scalar_type sc;
      let native := if targetCnt * ty_bits elem_ty <=? 128 then default native (GetRegFacet rf reg FI128) else native in
      let nativeCnt := ty_bits (v_ty native) / ty_bits elem_ty in
      res ← CreateCast BitCast native (TVec nativeCnt elem_ty);
      (* shufflevector with the first elements *)
      let res := if targetCnt <? nativeCnt
                 then mkVal (TVec targetCnt elem_ty) (wrap (targetCnt * ty_bits elem_ty) (v_bits res)) (v_const res) else res in
      Some (cache reg facet res rf)
  end.

(** A scalar facet of a vector register. *)
Definition GetRegScalar (rf : RegFile) (reg : ArchReg) (facet : Facet) : option (Value * RegFile) :=
  native ← GetRegFacet rf reg (ivec_facet (rf_arch rf));
  ty ← facet_Type facet;
  let nativeCnt := ty_bits (v_ty native) / ty_bits ty in
  if nativeCnt =? 1 then res ← CreateCast BitCast native ty; Some (cache reg facet res rf)
  else
    vec_facet ← facet_Vnt nativeCnt facet;
    '(vec, rf) ← GetRegVector rf reg vec_facet;
    (* extractelement 0 *)
    Some (cache reg facet (mkVal ty (wrap (ty_bits ty) (v_bits vec)) (v_const vec)) rf).

Definition GetReg (rf : RegFile) (reg : ArchReg) (facet : Facet) : option (Value * RegFile) :=
  if negb (reg_exists (rf_arch rf) reg) then None
  else
  match GetRegFacet rf reg facet with
  | Some v => Some (v, rf)
  | None =>
      match reg with
      | RGP _ => native ← GetRegFacet rf reg FI64; res ← derive_gp native facet; Some (cache reg facet res rf)
      | RIP =>
          native ← GetRegFacet rf reg FI64;
          match facet with FI64 => Some (native, rf) | FPTR => (fun v => (v, rf)) <$> CreateCast IntToPtr native TPtr | _ => None end
      | RVEC _ => match facet_vector facet with Some _ => GetRegVector rf reg facet | None => GetRegScalar rf reg facet end
      | _ => None
      end
  end.

(** [clearOthers] sets the native facet and forgets the others. *)
Definition SetReg (rf : RegFile) (reg : ArchReg) (facet : Facet) (value : Value) (clearOthers : bool) : option RegFile :=
  if decide (reg_exists (rf_arch rf) reg /\ Some (v_ty value) = facet_Type facet) then
    rf ← (if clearOthers then
            match reg with
            | RGP _ => if decide (facet = FI64) then Some (clear_reg reg rf) else None
            | RVEC _ => if decide (facet = ivec_facet (rf_arch rf)) then Some (clear_reg reg rf) else None
            | _ => Some rf
            end
          else Some rf);
    if negb clearOthers && negb (AccessRegFacet reg facet) then Some rf
    else if AccessRegFacet reg facet then
      let rf := set_val reg facet value rf in
      Some (mkRF (rf_vals rf) (rf_arch rf) ({[RegisterSetBitIdx reg facet]} ∪ dirty_regs rf) (cleaned_regs rf))
    else None
  else None.

(** [InitWithPHIs]: a new block's register file, whose phi nodes get the values
    of the predecessor ([FillPhis]); only native facets, flags and the
    instruction pointer have one, as full facets are off. *)
Definition phi_facet (arch : Arch) (reg : ArchReg) (facet : Facet) : bool :=
  AccessRegFacet reg facet &&
  match reg with RGP _ => bool_decide (facet = FI64) | RVEC _ => bool_decide (facet = ivec_facet arch) | _ => true end.

Definition enter_block (pred : RegFile) : RegFile :=
  mkRF (fun reg facet => if phi_facet (rf_arch pred) reg facet
                         then (fun x => mkVal (v_ty x.1) (v_bits x.1) NotConst) <$> GetReg pred reg facet else None)
    (rf_arch pred) ∅ ∅.

(** ** The state of a lifter, [lifter-base.cc] *)

(** The CPU struct, one number per entry; the registers it holds are generated
    from a table by the build. *)
Abbreviation Cpu := (list Z).

(** An external function: what it does to the CPU struct and to memory. *)
Abbreviation Fn := (Cpu -> memory -> option (Cpu * memory)).

Record LLConfig := mkCfg {
  instr_marker : option (Z -> memory -> memory); instr_overrides : Z -> option Fn; call_function : option Fn; syscall_implementation : option Fn;
  global_base : option (Z * Value); cpu_entries : list (ArchReg * Facet);
  enableOverflowIntrinsics : bool; call_ret_clobber_flags : bool }.

Record FunctionInfo := mkFi { pc_base_addr : Z; pc_base_value : Value }.

(** The register file, memory, the CPU struct, and whether the function returned. *)
Record LState := mkL { l_rf : RegFile; l_mem : memory; l_cpu : Cpu; l_ret : bool }.

Definition L (A : Type) : Type := LState -> option (A * LState).
#[global] Instance L_ret : MRet L := fun A a s => Some (a, s).
#[global] Instance L_bind : MBind L := fun A B f m s => '(a, s') ← m s; f a s'.

(** An instruction without effect. *)
Definition pure {A} (o : option A) : L A := fun s => (fun a => (a, s)) <$> o.

Definition get_reg (reg : ArchReg) (facet : Facet) : L Value := fun s =>
  '(v, rf) ← GetReg (l_rf s) reg facet; Some (v, mkL rf (l_mem s) (l_cpu s) (l_ret s)).
Definition set_reg_with (clear : bool) (reg : ArchReg) (facet : Facet) (v : Value) : L unit := fun s =>
  rf ← SetReg (l_rf s) reg facet v clear; Some (tt, mkL rf (l_mem s) (l_cpu s) (l_ret s)).
Definition set_reg : ArchReg -> Facet -> Value -> L unit := set_reg_with true.
Definition set_reg_facet : ArchReg -> Facet -> Value -> L unit := set_reg_with false.

Definition CreateLoad (t : Ty) (p : Value) : L Value := fun s => v ← load_val (l_mem s) t p; Some (v, s).
Definition CreateStore (v p : Value) : L unit := fun s => m ← store_val (l_mem s) v p; Some (tt, mkL (l_rf s) m (l_cpu s) (l_ret s)).

Inductive RmwOp := RXchg | RAdd | RAnd | ROr | RXor | RMax | RUMax | RMin | RUMin.

Definition rmw_sem (op : RmwOp) (w old v : Z) : Z :=
  match op with
  | RXchg => v
  | RAdd => wrap w (old + v)
  | RAnd => Z.land old v
  | ROr => Z.lor old v
  | RXor => Z.lxor old v
  | RMax => if swrap w v <? swrap w old then old else v
  | RUMax => if v <? old then old else v
  | RMin => if swrap w old <? swrap w v then old else v
  | RUMin => if old <? v then old else v
  end.

Definition CreateAtomicRMW (op : RmwOp) (p v : Value) : L Value := fun s =>
  old ← load_val (l_mem s) (v_ty v) p;
  m ← store_val (l_mem s) (mkVal (v_ty v) (rmw_sem op (ty_bits (v_ty v)) (v_bits old) (v_bits v)) NotConst) p;
  Some (old, mkL (l_rf s) m (l_cpu s) (l_ret s)).

(** [SetInsertBlock] of a block that is entered from here. *)
Definition goto_block : L unit := fun s => Some (tt, mkL (enter_block (l_rf s)) (l_mem s) (l_cpu s) (l_ret s)).

(** [instr_marker] gets the instruction pointer and may change memory. *)
Definition CallMarker (f : Z -> memory -> memory) (rip : Value) : L unit := fun s =>
  Some (tt, mkL (l_rf s) (f (v_bits rip) (l_mem s)) (l_cpu s) (l_ret s)).

Section Base.
Context (fi : FunctionInfo) (cfg : LLConfig).

(** [nofold] keeps the sum from being recognised as a constant. *)
Definition SetIP (inst_addr : Z) (nofold : bool) : L unit :=
  rip ← pure (CreateBinOp Add (pc_base_value fi) (getInt64 (inst_addr - pc_base_addr fi)));
  set_reg RIP FI64 (if nofold then mkVal (v_ty rip) (v_bits rip) NotConst else rip).

Definition AddrConst (addr : Z) : option Value :=
  if addr =? 0 then Some (getNullValue TPtr)
  else
    match global_base cfg with
    | Some (base, v) => CreateGEP v (getInt64 (addr - base))
    | None => CreateCast IntToPtr (getInt64 addr) TPtr
    end.

(** ** The CPU struct, [callconv.cc] *)

Definition mark (keep cleaned : bool) (i : Z) (rf : RegFile) : RegFile :=
  mkRF (rf_vals rf) (rf_arch rf) (if keep then dirty_regs rf else dirty_regs rf ∖ {[i]})
    (if cleaned then {[i]} ∪ cleaned_regs rf else cleaned_regs rf).

(** The registers go to their places; places without a register keep what they have. *)
Fixpoint Pack (entries : list (ArchReg * Facet)) (rf : RegFile) (cpu : Cpu) : option (RegFile * Cpu) :=
  match entries, cpu with
  | [], _ => Some (rf, cpu)
  | (reg, facet) :: entries, x :: cpu =>
      '(rf, x) ← (match reg with
                  | RINVALID => Some (rf, x)
                  | _ => '(v, rf) ← GetReg rf reg facet; Some (mark false true (RegisterSetBitIdx reg facet) rf, v_bits v)
                  end);
      '(rf, cpu) ← Pack entries rf cpu;
      Some (rf, x :: cpu)
  | _ :: _, [] => None
  end.

Fixpoint Unpack (entries : list (ArchReg * Facet)) (cpu : Cpu) (rf : RegFile) : option RegFile :=
  match entries, cpu with
  | [], _ => Some rf
  | (reg, facet) :: entries, x :: cpu =>
      rf ← (match reg with
            | RINVALID => Some rf
            | _ =>
                ty ← facet_Type facet;
                rf ← SetReg rf reg facet (mkVal ty x NotConst) false;
                Some (mark false false (RegisterSetBitIdx reg facet) rf)
            end);
      Unpack entries cpu rf
  | _ :: _, [] => None
  end.

(** [CallConv::Return] *)
Definition ForceReturn : L unit := fun s =>
  '(rf, cpu) ← Pack (cpu_entries cfg) (l_rf s) (l_cpu s); Some (tt, mkL rf (l_mem s) cpu true).

(** [CallConv::Call], not as a tail call. *)
Definition CallExternalFunction (fn : Fn) : L unit := fun s =>
  '(rf, cpu) ← Pack (cpu_entries cfg) (l_rf s) (l_cpu s);
  '(cpu, m) ← fn cpu (l_mem s);
  rf ← Unpack (cpu_entries cfg) cpu (rf_clear rf);
  Some (tt, mkL rf m cpu (l_ret s)).
End Base.
