(* ===== verification/RellumeProofs.v ===== *)
(** * The register file keeps a hart's registers

    The relation between the state of the lifted code and a hart of [RvSem], a
    calculus for the lifter's monad, and its rules: reading a register gives the
    facet of the hart's register, whether it was stored or has to be derived,
    and writing one updates the hart's. *)

From Stdlib Require Import ZArith Lia.
From stdpp Require Import base numbers list option gmap.
From S2P Require Import Prelude Machine RvSem Rellume.

(** ** Weakest preconditions *)

Definition wp {A} (c : L A) (s : LState) (Q : A -> LState -> Prop) : Prop := exists a s', c s = Some (a, s') /\ Q a s'.

Lemma wp_bind {A B} (c : L A) (f : A -> L B) s Q : wp c s (fun a s' => wp (f a) s' Q) -> wp (c ≫= f) s Q.
Proof. intros (a & s' & E & b & s'' & E' & HQ). exists b, s''. split; [|done]. unfold mbind, L_bind. by rewrite E. Qed.

Lemma wp_ret {A} (a : A) s (Q : A -> LState -> Prop) : Q a s -> wp (mret a) s Q.
Proof. intros. by exists a, s. Qed.

Lemma wp_pure {A} (o : option A) a s (Q : A -> LState -> Prop) : o = Some a -> Q a s -> wp (pure o) s Q.
Proof. intros -> ?. by exists a, s. Qed.

Lemma wp_mono {A} (c : L A) s (P Q : A -> LState -> Prop) : wp c s P -> (forall a s', P a s' -> Q a s') -> wp c s Q.
Proof. intros (a & s' & E & H) HPQ. exists a, s'. auto. Qed.

(** ** Values *)

Definition is_val (t : Ty) (x : Z) (v : Value) : Prop := v_ty v = t /\ v_bits v = x.

Lemma wp_pure_val o t x c s (Q : Value -> LState -> Prop) :
  o = Some (mkVal t x c) -> (forall v, is_val t x v -> Q v s) -> wp (pure o) s Q.
Proof. intros -> HQ. eapply wp_pure; [done|]. by apply HQ. Qed.

Lemma is_val_intN w z : is_val (TInt w) (wrap w z) (getIntN w z).
Proof. done. Qed.

Lemma wp_binop op w a b r va vb s (Q : Value -> LState -> Prop) :
  is_val (TInt w) a va -> is_val (TInt w) b vb -> bin_sem op w a b = Some r ->
  (forall v, is_val (TInt w) r v -> Q v s) -> wp (pure (CreateBinOp op va vb)) s Q.
Proof.
  intros [Ta <-] [Tb <-] Hr HQ. eapply wp_pure_val; [|exact HQ].
  unfold CreateBinOp. by rewrite Ta, decide_True, Hr by done.
Qed.

Lemma wp_icmp p w a b va vb s (Q : Value -> LState -> Prop) :
  is_val (TInt w) a va -> is_val (TInt w) b vb ->
  (forall v, is_val (TInt 1) (Z.b2z (icmp_sem p w a b)) v -> Q v s) -> wp (pure (CreateICmp p va vb)) s Q.
Proof.
  intros [Ta <-] [Tb <-] HQ. eapply wp_pure_val; [|exact HQ]. unfold CreateICmp. by rewrite Ta, decide_True.
Qed.

Lemma wp_select t c a b vc va vb s (Q : Value -> LState -> Prop) :
  is_val (TInt 1) (Z.b2z c) vc -> is_val t a va -> is_val t b vb ->
  (forall v, is_val t (if c then a else b) v -> Q v s) -> wp (pure (CreateSelect vc va vb)) s Q.
Proof.
  intros [Tc Hc] [Ta <-] [Tb <-] HQ. eapply wp_pure_val; [|exact HQ].
  unfold CreateSelect. rewrite decide_True by (by rewrite Tc, Ta, Tb). rewrite Hc, Ta. by destruct c.
Qed.

Lemma wp_ext (signed : bool) w w' a va s (Q : Value -> LState -> Prop) :
  0 < w <= w' -> in_u w a -> is_val (TInt w) a va ->
  (forall v, is_val (TInt w') (if signed then wrap w' (swrap w a) else a) v -> Q v s) ->
  wp (pure (CreateCast (if signed then SExt else ZExt) va (TInt w'))) s Q.
Proof.
  intros Hw Ha [Ta Hb] HQ. unfold CreateCast. destruct (decide (v_ty va = TInt w')) as [E|Hne].
  - rewrite Ta in E. injection E as ->. eapply wp_pure; [done|]. apply HQ. split; [done|].
    destruct signed; [|done]. by rewrite wrap_swrap, wrap_small.
  - eapply wp_pure_val; [|exact HQ]. rewrite Ta. assert ((w <? w') = true) as El.
    { apply Z.ltb_lt. assert (w <> w') by congruence. lia. }
    destruct signed; rewrite El; by rewrite Hb.
Qed.

Lemma wp_trunc w w' a va s (Q : Value -> LState -> Prop) :
  w' < w -> is_val (TInt w) a va -> (forall v, is_val (TInt w') (wrap w' a) v -> Q v s) ->
  wp (pure (CreateCast Trunc va (TInt w'))) s Q.
Proof.
  intros Hw [Ta <-] HQ. eapply wp_pure_val; [|exact HQ]. unfold CreateCast.
  rewrite decide_False by (rewrite Ta; intros [= ->]; lia). rewrite Ta. apply Z.ltb_lt in Hw. by rewrite Hw.
Qed.

Lemma wp_bitcast t t' a va s (Q : Value -> LState -> Prop) :
  t <> t' -> ty_bits t = ty_bits t' -> is_val t a va -> (forall v, is_val t' a v -> Q v s) ->
  wp (pure (CreateCast BitCast va t')) s Q.
Proof.
  intros Hne Hb [Ta <-] HQ. eapply wp_pure_val; [|exact HQ]. unfold CreateCast.
  rewrite decide_False by (by rewrite Ta). rewrite Ta. apply Z.eqb_eq in Hb. by rewrite Hb.
Qed.

(** ** The relation *)

(** The facet of a general-purpose register with contents [x]; of a
    floating-point register, of 64 bits on RISC-V. *)
Definition gproj (f : Facet) (x : Z) : option (Ty * Z) :=
  match f with
  | FI64 => Some (TInt 64, x)
  | FI32 => Some (TInt 32, wrap 32 x)
  | FI16 => Some (TInt 16, wrap 16 x)
  | FI8 => Some (TInt 8, wrap 8 x)
  | FI8H => Some (TInt 8, wrap 8 (Z.shiftr x 8))
  | FPTR => Some (TPtr, x)
  | _ => None
  end.

Definition vproj (f : Facet) (x : Z) : option (Ty * Z) :=
  t ← facet_Type f; if ty_bits t <=? 64 then Some (t, wrap (ty_bits t) x) else None.

Section Refines.
Context (cpu0 : Cpu) (ret0 : bool).

(** Every facet the register file holds is that of the hart's register, and the
    native ones are there. *)
Record refines (s : LState) (h : Hart) : Prop := mkRefines {
  r_arch : rf_arch (l_rf s) = RV64;
  r_gp : forall i, 0 < i < 32 -> is_Some (rf_vals (l_rf s) (RGP i) FI64);
  r_gpv : forall i f v, 0 < i < 32 -> rf_vals (l_rf s) (RGP i) f = Some v -> gproj f (hx h i) = Some (v_ty v, v_bits v);
  r_fp : forall i, 0 <= i < 32 -> is_Some (rf_vals (l_rf s) (RVEC i) FI64);
  r_fpv : forall i f v, 0 <= i < 32 -> rf_vals (l_rf s) (RVEC i) f = Some v -> vproj f (hf h i) = Some (v_ty v, v_bits v);
  r_pc : exists v, rf_vals (l_rf s) RIP FI64 = Some v /\ is_val (TInt 64) (hpc h) v;
  r_x : forall i, 0 < i < 32 -> in_u 64 (hx h i);
  r_f : forall i, 0 <= i < 32 -> in_u 64 (hf h i);
  r_pcr : in_u 64 (hpc h);
  r_mem : l_mem s = hmem h;
  r_memok : mem_ok (hmem h);
  r_cpu : l_cpu s = cpu0;
  r_ret : l_ret s = ret0 }.

Lemma xr_range s h r : refines s h -> 0 <= r < 32 -> in_u 64 (xr h r).
Proof. intros H Hr. unfold xr. destruct (Z.eqb_spec r 0); [done|]. apply (r_x _ _ H). lia. Qed.

Lemma r_gp_native s h i : refines s h -> 0 < i < 32 -> exists n, rf_vals (l_rf s) (RGP i) FI64 = Some n /\ is_val (TInt 64) (hx h i) n.
Proof.
  intros H Hi. destruct (r_gp _ _ H i Hi) as [n E]. exists n. split; [done|].
  pose proof (r_gpv _ _ H i FI64 n Hi E) as [= E1 E2]. done.
Qed.

Lemma r_fp_native s h i : refines s h -> 0 <= i < 32 -> exists n, rf_vals (l_rf s) (RVEC i) FI64 = Some n /\ is_val (TInt 64) (hf h i) n.
Proof.
  intros H Hi. destruct (r_fp _ _ H i Hi) as [n E]. exists n. split; [done|].
  pose proof (r_fpv _ _ H i FI64 n Hi E) as Hp. cbn in Hp. apply (inj Some), pair_equal_spec in Hp as [E1 E2].
  split; [done|]. rewrite <- E2. apply wrap_small, (r_f _ _ H i Hi).
Qed.

(** ** Reading and writing registers *)

(** Another register, or another facet. *)
Ltac other_reg := solve [intros [? ?]; congruence | congruence | intros ?; by match goal with N : ~ (_ /\ _) |- _ => apply N end].

(** Storing a facet that is the hart's keeps the relation. *)
Lemma refines_cache_gp s h i f v :
  refines s h -> 0 < i < 32 -> gproj f (hx h i) = Some (v_ty v, v_bits v) ->
  refines (mkL (set_val (RGP i) f v (l_rf s)) (l_mem s) (l_cpu s) (l_ret s)) h.
Proof.
  intros H Hi Hp. destruct H; constructor; cbn; try done.
  - intros j Hj. destruct (decide _); [done|auto].
  - intros j g w Hj. destruct (decide _) as [[[= ->] ->]|]; [by intros [= <-]|auto].
Qed.

Lemma refines_cache_fp s h i f v :
  refines s h -> 0 <= i < 32 -> vproj f (hf h i) = Some (v_ty v, v_bits v) ->
  refines (mkL (set_val (RVEC i) f v (l_rf s)) (l_mem s) (l_cpu s) (l_ret s)) h.
Proof.
  intros H Hi Hp. destruct H; constructor; cbn; try done.
  - intros j Hj. destruct (decide _); [done|auto].
  - intros j g w Hj. destruct (decide _) as [[[= ->] ->]|]; [by intros [= <-]|auto].
Qed.

(** A facet derived from the native one. *)
Lemma derive_gp_ok n x f t y :
  is_val (TInt 64) x n -> in_u 64 x -> gproj f x = Some (t, y) -> exists v, derive_gp n f = Some v /\ is_val t y v.
Proof.
  destruct n as [ty b c]. unfold is_val. cbn. intros [-> <-] Hx Hf.
  destruct f; cbn in Hf; try done; injection Hf as <- <-; cbn; eexists; (split; [reflexivity|]); done.
Qed.

Lemma gproj_access f x t y i : gproj f x = Some (t, y) -> AccessRegFacet (RGP i) f = true.
Proof. by destruct f. Qed.

Lemma reg_exists_gp i : 0 <= i < 32 -> reg_exists RV64 (RGP i) = true.
Proof. intros. cbn. apply andb_true_iff. rewrite Z.leb_le, Z.ltb_lt. lia. Qed.
Lemma reg_exists_vec i : 0 <= i < 32 -> reg_exists RV64 (RVEC i) = true.
Proof. apply reg_exists_gp. Qed.

Lemma wp_get_gp s h i f t y (Q : Value -> LState -> Prop) :
  refines s h -> 0 < i < 32 -> gproj f (hx h i) = Some (t, y) ->
  (forall v s', refines s' h -> is_val t y v -> Q v s') -> wp (get_reg (RGP i) f) s Q.
Proof.
  intros H Hi Hf HQ. unfold wp, get_reg, GetReg. rewrite (r_arch _ _ H), reg_exists_gp by lia. cbn [negb].
  unfold GetRegFacet. rewrite (gproj_access _ _ _ _ i Hf).
  destruct (rf_vals (l_rf s) (RGP i) f) as [v|] eqn:Ev.
  - exists v, s. split; [by destruct s|]. apply HQ; [done|].
    rewrite (r_gpv _ _ H i f v Hi Ev) in Hf. by injection Hf as <- <-.
  - destruct (r_gp_native s h i H Hi) as (n & En & Hn). change (AccessRegFacet (RGP i) FI64) with true. rewrite En. cbn [mbind option_bind].
    destruct (derive_gp_ok n _ f t y Hn (r_x _ _ H i Hi) Hf) as (v & Ed & Hv). rewrite Ed.
    unfold cache. rewrite (gproj_access _ _ _ _ i Hf). exists v. eexists. split; [reflexivity|]. apply HQ; [|done].
    apply refines_cache_gp; [done..|]. rewrite Hf. by destruct Hv as [<- <-].
Qed.

Lemma wp_get_ip s h (Q : Value -> LState -> Prop) :
  refines s h -> (forall v, is_val (TInt 64) (hpc h) v -> Q v s) -> wp (get_reg RIP FI64) s Q.
Proof.
  intros H HQ. destruct (r_pc _ _ H) as (v & E & Hv). exists v, s. split; [|by apply HQ].
  unfold get_reg, GetReg, GetRegFacet. cbn. rewrite E. by destruct s.
Qed.

Lemma wp_set_ip s h v x (Q : unit -> LState -> Prop) :
  refines s h -> is_val (TInt 64) x v -> in_u 64 x -> (forall s', refines s' (set_pc h x) -> Q tt s') -> wp (set_reg RIP FI64 v) s Q.
Proof.
  intros H [Tv Hv] Hx HQ. unfold wp, set_reg, set_reg_with, SetReg. rewrite decide_True by (by rewrite Tv). cbn.
  exists tt. eexists. split; [reflexivity|]. apply HQ.
  destruct H; constructor; cbn; try done; try (intros *; rewrite decide_False by other_reg; eauto).
  rewrite decide_True by done. by exists v.
Qed.

Lemma refines_set_gp s h i v x :
  refines s h -> 0 < i < 32 -> is_val (TInt 64) x v -> in_u 64 x ->
  exists rf, SetReg (l_rf s) (RGP i) FI64 v true = Some rf /\ refines (mkL rf (l_mem s) (l_cpu s) (l_ret s)) (set_x h i x).
Proof.
  intros H Hi [Tv Hv] Hx. unfold SetReg. rewrite decide_True by (rewrite (r_arch _ _ H), reg_exists_gp, Tv by lia; done).
  cbn. eexists. split; [reflexivity|]. unfold set_x. rewrite (proj2 (Z.eqb_neq i 0)) by lia.
  destruct H; constructor; cbn; try done; try (intros *; rewrite !decide_False by other_reg; eauto).
  - intros j Hj. destruct (decide _); [done|]. rewrite decide_False by other_reg. auto.
  - intros j f w Hj. destruct (Z.eqb_spec j i) as [->|Hne].
    + destruct (decide _) as [[_ ->]|]; [intros [= <-]; cbn; by rewrite Tv, Hv|]. by rewrite decide_True.
    + rewrite !decide_False by other_reg. auto.
  - intros j Hj. destruct (Z.eqb_spec j i) as [->|Hne]; auto.
Qed.

(** A further facet of a register just written; it marks the register dirty again. *)
Lemma refines_set_facet_gp s h i f v :
  refines s h -> 0 < i < 32 -> gproj f (hx h i) = Some (v_ty v, v_bits v) -> facet_Type f = Some (v_ty v) ->
  exists rf, SetReg (l_rf s) (RGP i) f v false = Some rf /\ refines (mkL rf (l_mem s) (l_cpu s) (l_ret s)) h.
Proof.
  intros H Hi Hf Ht. unfold SetReg. rewrite decide_True by (rewrite (r_arch _ _ H), reg_exists_gp, Ht by lia; done).
  cbn. pose proof (gproj_access _ _ _ _ i Hf) as Ha. cbn in Ha. rewrite Ha. cbn. eexists. split; [reflexivity|].
  pose proof (refines_cache_gp s h i f v H Hi Hf) as [??????? ? ? ? ? ? ?]. constructor; cbn in *; done.
Qed.

Lemma vproj_type f x t y : vproj f x = Some (t, y) -> facet_Type f = Some t /\ y = wrap (ty_bits t) x /\ ty_bits t <= 64.
Proof.
  unfold vproj. destruct (facet_Type f) as [t'|] eqn:Et; [|done]. cbn. destruct (Z.leb_spec (ty_bits t') 64); [|done].
  intros E. apply (inj Some), pair_equal_spec in E as [-> <-]. done.
Qed.

Lemma no_facet_128 s h i : refines s h -> 0 <= i < 32 -> rf_vals (l_rf s) (RVEC i) FI128 = None.
Proof.
  intros H Hi. destruct (rf_vals _ _ _) as [v|] eqn:E; [|done]. exfalso.
  pose proof (r_fpv _ _ H i FI128 v Hi E) as Hp. apply vproj_type in Hp as ([= <-] & _ & ?). cbn in *. lia.
Qed.

(** The scalar facets of a floating-point register. *)
Lemma GetRegScalar_ok s h i f t :
  refines s h -> 0 <= i < 32 -> f ∈ [FF32; FF64; FI32] -> facet_Type f = Some t ->
  exists v rf, GetRegScalar (l_rf s) (RVEC i) f = Some (v, rf) /\ is_val t (wrap (ty_bits t) (hf h i)) v /\
  refines (mkL rf (l_mem s) (l_cpu s) (l_ret s)) h.
Proof.
  intros H Hi Hf Ht. destruct (r_fp_native s h i H Hi) as ([ty b c] & En & Tn & Hn). cbn in Tn, Hn. subst ty b.
  assert (GetRegFacet (l_rf s) (RVEC i) FI64 = Some (mkVal (TInt 64) (hf h i) c)) as Eg by (by rewrite <- En).
  assert (GetRegFacet (l_rf s) (RVEC i) FI128 = None) as E1 by (apply (no_facet_128 s h i H Hi)).
  assert (forall v, is_val t (wrap (ty_bits t) (hf h i)) v -> ty_bits t <= 64 ->
            refines (mkL (set_val (RVEC i) f v (l_rf s)) (l_mem s) (l_cpu s) (l_ret s)) h) as Hc.
  { intros v [Tv Hv] Hb. apply refines_cache_fp; [done..|]. unfold vproj. rewrite Ht. cbn.
    apply Z.leb_le in Hb. rewrite Hb. by rewrite Tv, Hv. }
  assert (forall vf et, facet_vector vf = Some (2, if decide (et = TFloat) then FF32 else FI32) -> et ∈ [TFloat; TInt 32] ->
            exists v, GetRegVector (l_rf s) (RVEC i) vf = Some (v, l_rf s) /\ v_bits v = hf h i) as Vec.
  { intros vf et Hvf Het. rewrite !elem_of_cons, elem_of_nil in Het.
    assert (AccessRegFacet (RVEC i) vf = false) as Ea by (destruct Het as [->|[->|[]]]; by destruct vf).
    unfold GetRegVector. unfold GetRegFacet at 1. rewrite Ea, Hvf, (r_arch _ _ H). cbn [ivec_facet]. rewrite Eg. unfold cache. rewrite Ea.
    destruct Het as [->|[->|[]]]; cbn -[GetRegFacet]; rewrite E1; cbn; by eexists. }
  unfold GetRegScalar. rewrite (r_arch _ _ H). cbn [ivec_facet]. rewrite Eg. cbn [mbind option_bind]. rewrite Ht. cbn [mbind option_bind v_ty].
  rewrite !elem_of_cons, elem_of_nil in Hf. destruct Hf as [->|[->|[->|[]]]]; injection Ht as <-.
  - destruct (Vec FV2F32 TFloat) as (v & Ev & Hv); [done|rewrite !elem_of_cons; auto|]. cbv zeta. change (ty_bits (TInt 64) / ty_bits TFloat) with 2. change (facet_Vnt 2 FF32) with (Some FV2F32).
    change (2 =? 1) with false. cbn [mbind option_bind]. rewrite Ev. cbn -[wrap cache].
    eexists _, _. split; [reflexivity|]. split; [|apply Hc; [|done]]; (split; [done|]); cbn; by rewrite Hv.
  - cbn. eexists _, _. split; [reflexivity|]. split; [|apply Hc; [|done]]; split; cbn; done || by rewrite wrap_small by apply (r_f _ _ H i Hi).
  - destruct (Vec FV2I32 (TInt 32)) as (v & Ev & Hv); [done|rewrite !elem_of_cons; auto|]. cbv zeta. change (ty_bits (TInt 64) / ty_bits (TInt 32)) with 2. change (facet_Vnt 2 FI32) with (Some FV2I32).
    change (2 =? 1) with false. cbn [mbind option_bind]. rewrite Ev. cbn -[wrap cache].
    eexists _, _. split; [reflexivity|]. split; [|apply Hc; [|done]]; (split; [done|]); cbn; by rewrite Hv.
Qed.

Lemma wp_get_fp s h i f t (Q : Value -> LState -> Prop) :
  refines s h -> 0 <= i < 32 -> f ∈ [FF32; FF64; FI32] -> facet_Type f = Some t ->
  (forall v s', refines s' h -> is_val t (wrap (ty_bits t) (hf h i)) v -> Q v s') -> wp (get_reg (RVEC i) f) s Q.
Proof.
  intros H Hi Hf Ht HQ. unfold wp, get_reg, GetReg. rewrite (r_arch _ _ H), reg_exists_vec by lia. cbn [negb].
  destruct (GetRegFacet (l_rf s) (RVEC i) f) as [v|] eqn:Ev.
  - exists v, s. split; [by destruct s|]. apply HQ; [done|]. unfold GetRegFacet in Ev. destruct (AccessRegFacet _ _); [|done].
    apply (r_fpv _ _ H i f v Hi), vproj_type in Ev as (Et & Hv & _). rewrite Ht in Et. injection Et as ->. done.
  - destruct (GetRegScalar_ok s h i f t H Hi Hf Ht) as (v & rf & E & Hv & Hr).
    assert (facet_vector f = None) as -> by (rewrite !elem_of_cons, elem_of_nil in Hf; by destruct Hf as [->|[->|[->|[]]]]).
    rewrite E. cbn. eexists _, _. split; [reflexivity|]. by apply HQ.
Qed.

Lemma refines_set_fp s h i v x :
  refines s h -> 0 <= i < 32 -> is_val (TInt 64) x v -> in_u 64 x ->
  exists rf, SetReg (l_rf s) (RVEC i) FI64 v true = Some rf /\ refines (mkL rf (l_mem s) (l_cpu s) (l_ret s)) (set_f h i x).
Proof.
  intros H Hi [Tv Hv] Hx. unfold SetReg. rewrite decide_True by (rewrite (r_arch _ _ H), reg_exists_vec, Tv by lia; done).
  rewrite (r_arch _ _ H). cbn. eexists. split; [reflexivity|].
  destruct H; constructor; cbn; try done; try (intros *; rewrite !decide_False by other_reg; eauto).
  - intros j Hj. destruct (decide _); [done|]. rewrite decide_False by other_reg. auto.
  - intros j f w Hj. destruct (Z.eqb_spec j i) as [->|Hne].
    + destruct (decide _) as [[_ ->]|]; [intros [= <-]; unfold vproj; cbn; by rewrite Tv, Hv, wrap_small|]. by rewrite decide_True.
    + rewrite !decide_False by other_reg. auto.
  - intros j Hj. destruct (Z.eqb_spec j i) as [->|Hne]; auto.
Qed.

Lemma refines_set_facet_fp s h i f v :
  refines s h -> 0 <= i < 32 -> f ∈ [FF32; FF64] -> vproj f (hf h i) = Some (v_ty v, v_bits v) ->
  exists rf, SetReg (l_rf s) (RVEC i) f v false = Some rf /\ refines (mkL rf (l_mem s) (l_cpu s) (l_ret s)) h.
Proof.
  intros H Hi Hf Hv. destruct (vproj_type _ _ _ _ Hv) as (Ht & _).
  unfold SetReg. rewrite decide_True by (rewrite (r_arch _ _ H), reg_exists_vec, Ht by lia; done).
  assert (AccessRegFacet (RVEC i) f = true) as Ha by (rewrite !elem_of_cons, elem_of_nil in Hf; by destruct Hf as [->|[->|[]]]).
  rewrite Ha. cbn. eexists. split; [reflexivity|].
  pose proof (refines_cache_fp s h i f v H Hi Hv) as [??????? ? ? ? ? ? ?]. constructor; cbn in *; done.
Qed.

(** ** Blocks and memory *)

(** The phi nodes of a new block carry the registers over. *)
Lemma enter_block_reg s reg f v :
  phi_facet (rf_arch (l_rf s)) reg f = true -> reg_exists (rf_arch (l_rf s)) reg = true -> rf_vals (l_rf s) reg f = Some v ->
  rf_vals (enter_block (l_rf s)) reg f = Some (mkVal (v_ty v) (v_bits v) NotConst).
Proof.
  intros Hp He Hv. cbn. rewrite Hp. unfold GetReg. rewrite He. cbn [negb].
  unfold phi_facet in Hp. apply andb_true_iff in Hp as [Ha _]. unfold GetRegFacet at 1. by rewrite Ha, Hv.
Qed.

Lemma enter_block_only rf reg f v : rf_vals (enter_block rf) reg f = Some v -> phi_facet (rf_arch rf) reg f = true.
Proof. cbn. by destruct (phi_facet _ _ _). Qed.

Lemma refines_enter s h : refines s h -> refines (mkL (enter_block (l_rf s)) (l_mem s) (l_cpu s) (l_ret s)) h.
Proof.
  intros H. constructor; cbn [l_rf l_mem l_cpu l_ret]; try apply H.
  - intros i Hi. destruct (r_gp_native s h i H Hi) as (n & En & _). eexists. apply enter_block_reg; [| |exact En]; rewrite (r_arch _ _ H); [done|].
    by apply reg_exists_gp; lia.
  - intros i f v Hi Hv. destruct (r_gp_native s h i H Hi) as (n & En & Tn & Hn). pose proof (enter_block_only _ _ _ _ Hv) as Hp.
    assert (f = FI64) as -> by (rewrite (r_arch _ _ H) in Hp; by destruct f).
    rewrite (enter_block_reg s _ _ n) in Hv; [|rewrite (r_arch _ _ H); done || by apply reg_exists_gp; lia..|done].
    injection Hv as <-. cbn. by rewrite Tn, Hn.
  - intros i Hi. destruct (r_fp_native s h i H Hi) as (n & En & _). eexists. apply enter_block_reg; [| |exact En]; rewrite (r_arch _ _ H); [done|].
    by apply reg_exists_gp; lia.
  - intros i f v Hi Hv. destruct (r_fp_native s h i H Hi) as (n & En & Tn & Hn). pose proof (enter_block_only _ _ _ _ Hv) as Hp.
    assert (f = FI64) as -> by (rewrite (r_arch _ _ H) in Hp; by destruct f).
    rewrite (enter_block_reg s _ _ n) in Hv; [|rewrite (r_arch _ _ H); done || by apply reg_exists_gp; lia..|done].
    injection Hv as <-. unfold vproj. cbn. rewrite Tn, Hn, wrap_small; [done|]. by apply (r_f _ _ H i Hi).
  - destruct (r_pc _ _ H) as (n & En & Hn). eexists. split; [apply enter_block_reg; [done|done|exact En]|done].
Qed.

Lemma wp_goto s h (Q : unit -> LState -> Prop) : refines s h -> (forall s', refines s' h -> Q tt s') -> wp goto_block s Q.
Proof. intros H HQ. eexists _, _. split; [reflexivity|]. by apply HQ, refines_enter. Qed.

Lemma wp_load s h t a p (Q : Value -> LState -> Prop) :
  refines s h -> is_val TPtr a p -> (forall v, is_val t (loadZ (hmem h) (Z.to_nat (ty_bits t / 8)) a) v -> Q v s) -> wp (CreateLoad t p) s Q.
Proof.
  intros H [Tp Hp] HQ. unfold wp, CreateLoad, load_val. rewrite decide_True by done. eexists _, _. split; [reflexivity|].
  apply HQ. split; [done|]. cbn. by rewrite Hp, (r_mem _ _ H).
Qed.

Lemma refines_mem s h m : refines s h -> mem_ok m -> refines (mkL (l_rf s) m (l_cpu s) (l_ret s)) (set_hmem h m).
Proof. intros [] Hm. by constructor. Qed.

Lemma wp_store s h t a x v p (Q : unit -> LState -> Prop) :
  refines s h -> is_val TPtr a p -> is_val t x v ->
  (forall s', refines s' (set_hmem h (storeZ (hmem h) (Z.to_nat (ty_bits t / 8)) a x)) -> Q tt s') -> wp (CreateStore v p) s Q.
Proof.
  intros H [Tp Hp] [Tv Hv] HQ. unfold wp, CreateStore, store_val. rewrite decide_True by done. eexists _, _. split; [reflexivity|].
  apply HQ. rewrite Tv, Hv, Hp, (r_mem _ _ H). apply refines_mem; [done|]. apply mem_ok_storeZ, (r_memok _ _ H).
Qed.

Lemma wp_rmw s h op t a x v p (Q : Value -> LState -> Prop) :
  let n := Z.to_nat (ty_bits t / 8) in
  let old := loadZ (hmem h) n a in
  refines s h -> is_val TPtr a p -> is_val t x v ->
  (forall s' o, refines s' (set_hmem h (storeZ (hmem h) n a (rmw_sem op (ty_bits t) old x))) -> is_val t old o -> Q o s') ->
  wp (CreateAtomicRMW op p v) s Q.
Proof.
  intros n old H [Tp Hp] [Tv Hv] HQ. unfold wp, CreateAtomicRMW, load_val, store_val. rewrite decide_True by done. cbn [mbind option_bind v_ty v_bits].
  rewrite decide_True by done.
  eexists _, _. split; [reflexivity|]. rewrite Tv, Hv, Hp, (r_mem _ _ H). apply HQ; [|done].
  apply refines_mem; [done|]. apply mem_ok_storeZ, (r_memok _ _ H).
Qed.
End Refines.
