(* ===== verification/RellumeRv64.v ===== *)
(** * The RISC-V lifter, [subprojects/rellume/src/rv64/lifter.cc]

    One definition per method of the class, and [Lift], the switch over the
    mnemonics of [Frvdec]. *)

From Stdlib Require Import ZArith Lia.
From stdpp Require Import base numbers list option gmap.
From S2P Require Import Prelude Machine Frvdec Rellume.

(** An instruction with its address and length. *)
Record Instr := mkInst { i_rv : FrvInst; i_start : Z; i_len : Z }.

Section Rv64.
Context (fp : FpSem) (fi : FunctionInfo) (cfg : LLConfig).

(** ** Registers *)

Definition LoadGp (reg : Z) (facet : Facet) : L Value :=
  if reg =? 0 then ty ← pure (facet_Type facet); mret (getNullValue ty) else get_reg (RGP reg) facet.

Definition LoadFp (reg : Z) (facet : Facet) : L Value := get_reg (RVEC reg) facet.

Definition StoreGp (reg : Z) (v : Value) : L unit :=
  match v_ty v with
  | TInt w =>
      if reg =? 0 then mret tt
      else
        v64 ← pure (CreateCast SExt v (TInt 64));
        set_reg (RGP reg) FI64 v64;;
        if w =? 32 then set_reg_facet (RGP reg) FI32 v else mret tt
  | _ => pure None
  end.

(** The value in element 0 of a vector of zeros that fills 64 bits. *)
Definition StoreFp (reg : Z) (v : Value) : L unit :=
  let full_num := 64 / ty_bits (v_ty v) in
  let full := mkVal (TVec full_num (v_ty v)) (v_bits v) (v_const v) in
  ivec ← pure (CreateCast BitCast full (TInt 64));
  set_reg (RVEC reg) FI64 ivec;;
  f ← pure (facet_FromType (v_ty v));
  set_reg_facet (RVEC reg) f v.

Definition Addr (rvi : FrvInst) : L Value :=
  base ← LoadGp (rs1 rvi) FPTR;
  if is_constant base then
    base_int ← LoadGp (rs1 rvi) FI64;
    base_int ← pure (CreateBinOp Add base_int (getInt64 (imm rvi)));
    match v_const base_int with
    | ConstInt => pure (AddrConst cfg (v_bits base_int))
    | _ => pure (CreateCast IntToPtr base_int TPtr)
    end
  else if negb (imm rvi =? 0) then pure (CreateGEP base (getInt64 (imm rvi)))
  else mret base.

(** ** Groups of instructions *)

Definition LiftBinOpR (rvi : FrvInst) (op : BinOp) (f : Facet) : L unit :=
  a ← LoadGp (rs1 rvi) f; b ← LoadGp (rs2 rvi) f;
  res ← pure (CreateBinOp op a b);
  StoreGp (rd rvi) res.

Definition LiftBinOpI (rvi : FrvInst) (op : BinOp) (f : Facet) : L unit :=
  sz ← pure (facet_Size f);
  a ← LoadGp (rs1 rvi) f;
  res ← pure (CreateBinOp op a (getIntN sz (imm rvi)));
  StoreGp (rd rvi) res.

Definition LiftShift (rvi : FrvInst) (op : BinOp) (shiftop : Value) : L unit :=
  let width := ty_bits (v_ty shiftop) in
  shiftop ← pure (CreateBinOp And shiftop (getIntN width (width - 1)));
  f ← pure (facet_In width);
  src ← LoadGp (rs1 rvi) f;
  res ← pure (CreateBinOp op src shiftop);
  StoreGp (rd rvi) res.

Definition LiftMulh (rvi : FrvInst) (ext1 ext2 : CastOp) : L unit :=
  a ← LoadGp (rs1 rvi) FI64; a ← pure (CreateCast ext1 a (TInt 128));
  b ← LoadGp (rs2 rvi) FI64; b ← pure (CreateCast ext2 b (TInt 128));
  res ← pure (CreateBinOp Mul a b);
  res ← pure (CreateBinOp LShr res (getIntN 128 64));
  res ← pure (CreateCast Trunc res (TInt 64));
  StoreGp (rd rvi) res.

Definition LiftLoad (rvi : FrvInst) (ext : CastOp) (f : Facet) : L unit :=
  ty ← pure (facet_Type f);
  p ← Addr rvi; ld ← CreateLoad ty p;
  v ← pure (CreateCast ext ld (TInt 64));
  StoreGp (rd rvi) v.

Definition LiftLoadFp (rvi : FrvInst) (f : Facet) : L unit :=
  ty ← pure (facet_Type f); p ← Addr rvi; ld ← CreateLoad ty p; StoreFp (rd rvi) ld.

Definition LiftStore (rvi : FrvInst) (f : Facet) : L unit :=
  v ← LoadGp (rs2 rvi) f; p ← Addr rvi; CreateStore v p.

Definition LiftStoreFp (rvi : FrvInst) (f : Facet) : L unit :=
  v ← LoadFp (rs2 rvi) f; p ← Addr rvi; CreateStore v p.

Definition LiftBranch (inst : Instr) (p : Pred) : L unit :=
  let rvi := i_rv inst in
  a ← LoadGp (rs1 rvi) FI64; b ← LoadGp (rs2 rvi) FI64;
  cond ← pure (CreateICmp p a b);
  ip ← get_reg RIP FI64; taken ← pure (CreateBinOp Add ip (getInt64 (imm rvi)));
  ip ← get_reg RIP FI64; next ← pure (CreateBinOp Add ip (getInt64 (i_len inst)));
  sel ← pure (CreateSelect cond taken next);
  set_reg RIP FI64 sel.

(** The special cases have a block of their own; both blocks go on in a third. *)
Definition LiftDivRem (rvi : FrvInst) (op : BinOp) (f : Facet) : L unit :=
  sz ← pure (facet_Size f);
  let zero := getIntN sz 0 in
  let minusone := getIntN sz (-1) in
  dividend ← LoadGp (rs1 rvi) f; divisor ← LoadGp (rs2 rvi) f;
  is_zero ← pure (CreateICmp ICMP_EQ divisor zero);
  is_minusone ← pure (CreateICmp ICMP_EQ divisor minusone);
  is_spc ← (match op with SDiv | SRem => pure (CreateBinOp Or is_zero is_minusone) | _ => mret is_zero end);
  goto_block;;
  (if v_bits is_spc =? 0 then
     res ← pure (CreateBinOp op dividend divisor); StoreGp (rd rvi) res
   else
     match op with
     | UDiv => StoreGp (rd rvi) minusone
     | URem => StoreGp (rd rvi) dividend
     | SDiv => v ← pure (CreateSelect is_minusone dividend minusone); StoreGp (rd rvi) v
     | SRem => v ← pure (CreateSelect is_minusone zero dividend); StoreGp (rd rvi) v
     | _ => pure None
     end);;
  goto_block.

(** The memory ordering is one of four; the operation is atomic in any. *)
Definition LiftAmo (rvi : FrvInst) (op : RmwOp) (f : Facet) : L unit :=
  if (0 <=? imm rvi) && (imm rvi <=? 3) then
    v ← LoadGp (rs2 rvi) f; p ← LoadGp (rs1 rvi) FPTR;
    old ← CreateAtomicRMW op p v;
    StoreGp (rd rvi) old
  else pure None.

Definition LiftFpArith (rvi : FrvInst) (op : FBinOp) (f : Facet) : L unit :=
  if misc rvi =? 7 then
    a ← LoadFp (rs1 rvi) f; b ← LoadFp (rs2 rvi) f; res ← pure (CreateFBin fp op a b); StoreFp (rd rvi) res
  else pure None.

Definition LiftFcvtIToF (rvi : FrvInst) (df sf : Facet) (signed : bool) : L unit :=
  ty ← pure (facet_Type df); a ← LoadGp (rs1 rvi) sf; v ← pure (CreateIToFP fp signed a ty); StoreFp (rd rvi) v.

Definition LiftFcvtFToI (rvi : FrvInst) (df sf : Facet) (signed : bool) : L unit :=
  v ← LoadFp (rs1 rvi) sf;
  v ← (match misc rvi with
       | 1 | 7 => mret v
       | 2 => pure (CreateFUn fp FFloor v)
       | 3 => pure (CreateFUn fp FCeil v)
       | 4 => pure (CreateFUn fp FRound v)
       | _ => pure None
       end);
  ty ← pure (facet_Type df); v ← pure (CreateFPToI fp signed v ty); StoreGp (rd rvi) v.

Definition LiftFcmp (rvi : FrvInst) (p : FPred) (f : Facet) : L unit :=
  a ← LoadFp (rs1 rvi) f; b ← LoadFp (rs2 rvi) f;
  res ← pure (CreateFCmp fp p a b); res ← pure (CreateCast ZExt res (TInt 64)); StoreGp (rd rvi) res.

Definition LiftFsgn (rvi : FrvInst) (f : Facet) (keep zero : bool) : L unit :=
  let sz := if decide (f = FF32) then 32 else 64 in
  a ← LoadFp (rs1 rvi) f; abs_op ← pure (CreateCast BitCast a (TInt sz));
  b ← LoadFp (rs2 rvi) f; sign_op ← pure (CreateCast BitCast b (TInt sz));
  abs_op ← (if negb keep && zero then pure (CreateBinOp And abs_op (getIntN sz (Z.shiftl 1 (sz - 1) - 1)))
            else if negb keep && negb zero then pure (CreateBinOp Or abs_op (getIntN sz (Z.shiftl 1 (sz - 1))))
            else mret abs_op);
  sign_op ← pure (CreateBinOp And sign_op (getIntN sz (Z.shiftl 1 (sz - 1))));
  abs_op ← pure (CreateBinOp Xor abs_op sign_op);
  ty ← pure (facet_Type f); v ← pure (CreateCast BitCast abs_op ty); StoreFp (rd rvi) v.

Definition LiftFminmax (rvi : FrvInst) (op : FBinOp) (f : Facet) : L unit :=
  a ← LoadFp (rs1 rvi) f; b ← LoadFp (rs2 rvi) f; res ← pure (CreateFBin fp op a b); StoreFp (rd rvi) res.

(** The number of the class, in the IR's own words. *)
Definition fclass_val (v : Value) (sz : Z) : option Value :=
  let expmsk := if sz =? 32 then 0x7f800000 else 0x7ff0000000000000 in
  let mantmsk := if sz =? 32 then 0x007fffff else 0x000fffffffffffff in
  let nanidx := if sz =? 32 then 22 else 51 in
  let c := getIntN sz in
  sign ← CreateBinOp And v (c (Z.shiftl 1 (sz - 1)));
  exp ← CreateBinOp And v (c expmsk);
  expzero ← CreateICmp ICMP_EQ exp (c 0);
  expmax ← CreateICmp ICMP_EQ exp (c expmsk);
  mant ← CreateBinOp And v (c mantmsk);
  mantnotzero ← CreateICmp ICMP_NE mant (c 0);
  mze ← CreateCast ZExt mantnotzero (TInt sz); mze ← CreateBinOp Or mze (c 4);
  mme ← CreateCast ZExt expmax (TInt sz); mme ← CreateBinOp Or mme (c 6);
  res ← CreateSelect expzero mze mme;
  resneg ← CreateBinOp Xor res (c 7);
  pos ← CreateICmp ICMP_EQ sign (c 0);
  res ← CreateSelect pos res resneg;
  signaling ← CreateBinOp LShr mant (c nanidx); signaling ← CreateBinOp Or signaling (c 8);
  isnan ← CreateBinOp And expmax mantnotzero;
  CreateSelect isnan signaling res.

Definition LiftFclass (rvi : FrvInst) (f : Facet) : L unit :=
  v ← LoadFp (rs1 rvi) f; sz ← pure (facet_Size f); res ← pure (fclass_val v sz); StoreGp (rd rvi) res.

Definition LiftFmadd (rvi : FrvInst) (sub negprod : bool) (f : Facet) : L unit :=
  a ← LoadFp (rs1 rvi) f; b ← LoadFp (rs2 rvi) f; op ← pure (CreateFBin fp FMul a b);
  op ← (if negprod then pure (CreateFUn fp FNeg op) else mret op);
  c ← LoadFp (rs3 rvi) f; res ← pure (CreateFBin fp (if sub then FSub else FAdd) op c); StoreFp (rd rvi) res.

(** Comparison into a register. *)
Definition LiftSlt (rvi : FrvInst) (p : Pred) (b : L Value) : L unit :=
  a ← LoadGp (rs1 rvi) FI64; b ← b;
  c ← pure (CreateICmp p a b); v ← pure (CreateCast ZExt c (TInt 64)); StoreGp (rd rvi) v.

(** [jal] and [jalr] *)
Definition LiftJump (inst : Instr) : L unit :=
  let rvi := i_rv inst in
  pc ← get_reg RIP FI64;
  base ← (if negb (rs1 rvi =? FRV_REG_INV) then LoadGp (rs1 rvi) FI64 else mret pc);
  target ← pure (CreateBinOp Add base (getInt64 (imm rvi)));
  set_reg RIP FI64 target;;
  ret_addr ← pure (CreateBinOp Add pc (getInt64 (i_len inst)));
  StoreGp (rd rvi) ret_addr;;
  match call_function cfg with
  | None => mret tt
  | Some fn =>
      let rdl := (rd rvi =? 1) || (rd rvi =? 5) in
      let rs1l := (rs1 rvi =? 1) || (rs1 rvi =? 5) in
      if negb rdl && rs1l then ForceReturn cfg
      else if rdl && (negb rs1l || (rs1 rvi =? rd rvi)) then
        CallExternalFunction cfg fn;;
        cont_addr ← get_reg RIP FI64;
        eq ← pure (CreateICmp ICMP_EQ cont_addr ret_addr);
        sel ← pure (CreateSelect eq ret_addr cont_addr);
        set_reg RIP FI64 sel
      else mret tt
  end.

(** ** The switch *)

(** Instructions after which the instruction pointer is set to the end. *)
Definition int_table : list (Z * (FrvInst -> L unit)) := [
  (FRV_LB, fun r => LiftLoad r SExt FI8); (FRV_LBU, fun r => LiftLoad r ZExt FI8); (FRV_LH, fun r => LiftLoad r SExt FI16);
  (FRV_LHU, fun r => LiftLoad r ZExt FI16); (FRV_LW, fun r => LiftLoad r SExt FI32); (FRV_LWU, fun r => LiftLoad r ZExt FI32);
  (FRV_LD, fun r => LiftLoad r SExt FI64);
  (FRV_SB, fun r => LiftStore r FI8); (FRV_SH, fun r => LiftStore r FI16); (FRV_SW, fun r => LiftStore r FI32); (FRV_SD, fun r => LiftStore r FI64);
  (FRV_ADDI, fun r => LiftBinOpI r Add FI64); (FRV_ADD, fun r => LiftBinOpR r Add FI64); (FRV_ADDIW, fun r => LiftBinOpI r Add FI32);
  (FRV_ADDW, fun r => LiftBinOpR r Add FI32); (FRV_SUB, fun r => LiftBinOpR r Sub FI64); (FRV_SUBW, fun r => LiftBinOpR r Sub FI32);
  (FRV_ANDI, fun r => LiftBinOpI r And FI64); (FRV_AND, fun r => LiftBinOpR r And FI64); (FRV_ORI, fun r => LiftBinOpI r Or FI64);
  (FRV_OR, fun r => LiftBinOpR r Or FI64); (FRV_XORI, fun r => LiftBinOpI r Xor FI64); (FRV_XOR, fun r => LiftBinOpR r Xor FI64);
  (FRV_SLLI, fun r => LiftShift r Shl (getInt64 (imm r))); (FRV_SLL, fun r => b ← LoadGp (rs2 r) FI64; LiftShift r Shl b);
  (FRV_SLLIW, fun r => LiftShift r Shl (getInt32 (imm r))); (FRV_SLLW, fun r => b ← LoadGp (rs2 r) FI32; LiftShift r Shl b);
  (FRV_SRLI, fun r => LiftShift r LShr (getInt64 (imm r))); (FRV_SRL, fun r => b ← LoadGp (rs2 r) FI64; LiftShift r LShr b);
  (FRV_SRLIW, fun r => LiftShift r LShr (getInt32 (imm r))); (FRV_SRLW, fun r => b ← LoadGp (rs2 r) FI32; LiftShift r LShr b);
  (FRV_SRAI, fun r => LiftShift r AShr (getInt64 (imm r))); (FRV_SRA, fun r => b ← LoadGp (rs2 r) FI64; LiftShift r AShr b);
  (FRV_SRAIW, fun r => LiftShift r AShr (getInt32 (imm r))); (FRV_SRAW, fun r => b ← LoadGp (rs2 r) FI32; LiftShift r AShr b);
  (FRV_SLT, fun r => LiftSlt r ICMP_SLT (LoadGp (rs2 r) FI64)); (FRV_SLTI, fun r => LiftSlt r ICMP_SLT (mret (getInt64 (imm r))));
  (FRV_SLTU, fun r => LiftSlt r ICMP_ULT (LoadGp (rs2 r) FI64)); (FRV_SLTIU, fun r => LiftSlt r ICMP_ULT (mret (getInt64 (imm r))));
  (FRV_MUL, fun r => LiftBinOpR r Mul FI64); (FRV_MULW, fun r => LiftBinOpR r Mul FI32);
  (FRV_MULH, fun r => LiftMulh r SExt SExt); (FRV_MULHSU, fun r => LiftMulh r SExt ZExt); (FRV_MULHU, fun r => LiftMulh r ZExt ZExt);
  (FRV_DIV, fun r => LiftDivRem r SDiv FI64); (FRV_DIVU, fun r => LiftDivRem r UDiv FI64); (FRV_DIVW, fun r => LiftDivRem r SDiv FI32);
  (FRV_DIVUW, fun r => LiftDivRem r UDiv FI32); (FRV_REM, fun r => LiftDivRem r SRem FI64); (FRV_REMU, fun r => LiftDivRem r URem FI64);
  (FRV_REMW, fun r => LiftDivRem r SRem FI32); (FRV_REMUW, fun r => LiftDivRem r URem FI32)].

Definition amo_table : list (Z * (FrvInst -> L unit)) := [
  (FRV_LRW, fun r => p ← LoadGp (rs1 r) FPTR; v ← CreateLoad (TInt 32) p; StoreGp (rd r) v);
  (FRV_SCW, fun r => StoreGp (rd r) (getInt32 0);; v ← LoadGp (rs2 r) FI32; p ← LoadGp (rs1 r) FPTR; CreateStore v p);
  (FRV_FENCE, fun r => mret tt);
  (FRV_AMOSWAPW, fun r => LiftAmo r RXchg FI32); (FRV_AMOSWAPD, fun r => LiftAmo r RXchg FI64);
  (FRV_AMOADDW, fun r => LiftAmo r RAdd FI32); (FRV_AMOADDD, fun r => LiftAmo r RAdd FI64);
  (FRV_AMOANDW, fun r => LiftAmo r RAnd FI32); (FRV_AMOANDD, fun r => LiftAmo r RAnd FI64);
  (FRV_AMOORW, fun r => LiftAmo r ROr FI32); (FRV_AMOORD, fun r => LiftAmo r ROr FI64);
  (FRV_AMOXORW, fun r => LiftAmo r RXor FI32); (FRV_AMOXORD, fun r => LiftAmo r RXor FI64);
  (FRV_AMOMAXW, fun r => LiftAmo r RMax FI32); (FRV_AMOMAXD, fun r => LiftAmo r RMax FI64);
  (FRV_AMOMAXUW, fun r => LiftAmo r RUMax FI32); (FRV_AMOMAXUD, fun r => LiftAmo r RUMax FI64);
  (FRV_AMOMINW, fun r => LiftAmo r RMin FI32); (FRV_AMOMIND, fun r => LiftAmo r RMin FI64);
  (FRV_AMOMINUW, fun r => LiftAmo r RUMin FI32); (FRV_AMOMINUD, fun r => LiftAmo r RUMin FI64)].

Definition fp32_table : list (Z * (FrvInst -> L unit)) := [
  (FRV_FLW, fun r => LiftLoadFp r FF32); (FRV_FSW, fun r => LiftStoreFp r FF32);
  (FRV_FCVTSL, fun r => LiftFcvtIToF r FF32 FI64 true); (FRV_FCVTSW, fun r => LiftFcvtIToF r FF32 FI32 true);
  (FRV_FCVTSLU, fun r => LiftFcvtIToF r FF32 FI64 false); (FRV_FCVTSWU, fun r => LiftFcvtIToF r FF32 FI32 false);
  (FRV_FCVTLS, fun r => LiftFcvtFToI r FI64 FF32 true); (FRV_FCVTWS, fun r => LiftFcvtFToI r FI32 FF32 true);
  (FRV_FCVTLUS, fun r => LiftFcvtFToI r FI64 FF32 false); (FRV_FCVTWUS, fun r => LiftFcvtFToI r FI32 FF32 false);
  (FRV_FMVXW, fun r => a ← LoadFp (rs1 r) FF32; v ← pure (CreateCast BitCast a (TInt 32)); StoreGp (rd r) v);
  (FRV_FMVWX, fun r => a ← LoadGp (rs1 r) FI32; v ← pure (CreateCast BitCast a TFloat); StoreFp (rd r) v);
  (FRV_FADDS, fun r => LiftFpArith r FAdd FF32); (FRV_FSUBS, fun r => LiftFpArith r FSub FF32);
  (FRV_FMULS, fun r => LiftFpArith r FMul FF32); (FRV_FDIVS, fun r => LiftFpArith r FDiv FF32);
  (FRV_FMINS, fun r => LiftFminmax r FMinNum FF32); (FRV_FMAXS, fun r => LiftFminmax r FMaxNum FF32);
  (FRV_FMADDS, fun r => LiftFmadd r false false FF32); (FRV_FMSUBS, fun r => LiftFmadd r true false FF32);
  (FRV_FNMSUBS, fun r => LiftFmadd r false true FF32); (FRV_FNMADDS, fun r => LiftFmadd r true true FF32);
  (FRV_FSQRTS, fun r => a ← LoadFp (rs1 r) FF32; v ← pure (CreateFUn fp FSqrt a); StoreFp (rd r) v);
  (FRV_FSGNJS, fun r => LiftFsgn r FF32 false true); (FRV_FSGNJNS, fun r => LiftFsgn r FF32 false false); (FRV_FSGNJXS, fun r => LiftFsgn r FF32 true false);
  (FRV_FEQS, fun r => LiftFcmp r FCMP_OEQ FF32); (FRV_FLTS, fun r => LiftFcmp r FCMP_OLT FF32); (FRV_FLES, fun r => LiftFcmp r FCMP_OLE FF32);
  (FRV_FCLASSS, fun r => LiftFclass r FI32)].

Definition fp64_table : list (Z * (FrvInst -> L unit)) := [
  (FRV_FLD, fun r => LiftLoadFp r FF64); (FRV_FSD, fun r => LiftStoreFp r FF64);
  (FRV_FCVTDL, fun r => LiftFcvtIToF r FF64 FI64 true); (FRV_FCVTDW, fun r => LiftFcvtIToF r FF64 FI32 true);
  (FRV_FCVTDLU, fun r => LiftFcvtIToF r FF64 FI64 false); (FRV_FCVTDWU, fun r => LiftFcvtIToF r FF64 FI32 false);
  (FRV_FCVTLD, fun r => LiftFcvtFToI r FI64 FF64 true); (FRV_FCVTWD, fun r => LiftFcvtFToI r FI32 FF64 true);
  (FRV_FCVTLUD, fun r => LiftFcvtFToI r FI64 FF64 false); (FRV_FCVTWUD, fun r => LiftFcvtFToI r FI32 FF64 false);
  (FRV_FMVXD, fun r => a ← LoadFp (rs1 r) FF64; v ← pure (CreateCast BitCast a (TInt 64)); StoreGp (rd r) v);
  (FRV_FMVDX, fun r => a ← LoadGp (rs1 r) FI64; v ← pure (CreateCast BitCast a TDouble); StoreFp (rd r) v);
  (FRV_FADDD, fun r => LiftFpArith r FAdd FF64); (FRV_FSUBD, fun r => LiftFpArith r FSub FF64);
  (FRV_FMULD, fun r => LiftFpArith r FMul FF64); (FRV_FDIVD, fun r => LiftFpArith r FDiv FF64);
  (FRV_FMIND, fun r => LiftFminmax r FMinNum FF64); (FRV_FMAXD, fun r => LiftFminmax r FMaxNum FF64);
  (FRV_FMADDD, fun r => LiftFmadd r false false FF64); (FRV_FMSUBD, fun r => LiftFmadd r true false FF64);
  (FRV_FNMSUBD, fun r => LiftFmadd r false true FF64); (FRV_FNMADDD, fun r => LiftFmadd r true true FF64);
  (FRV_FSQRTD, fun r => a ← LoadFp (rs1 r) FF64; v ← pure (CreateFUn fp FSqrt a); StoreFp (rd r) v);
  (FRV_FSGNJD, fun r => LiftFsgn r FF64 false true); (FRV_FSGNJND, fun r => LiftFsgn r FF64 false false); (FRV_FSGNJXD, fun r => LiftFsgn r FF64 true false);
  (FRV_FEQD, fun r => LiftFcmp r FCMP_OEQ FF64); (FRV_FLTD, fun r => LiftFcmp r FCMP_OLT FF64); (FRV_FLED, fun r => LiftFcmp r FCMP_OLE FF64);
  (FRV_FCVTSD, fun r => a ← LoadFp (rs1 r) FF64; v ← pure (CreateFPCast fp a TFloat); StoreFp (rd r) v);
  (FRV_FCVTDS, fun r => a ← LoadFp (rs1 r) FF32; v ← pure (CreateFPCast fp a TDouble); StoreFp (rd r) v);
  (FRV_FCLASSD, fun r => LiftFclass r FI64)].

Definition branch_table : list (Z * Pred) :=
  [(FRV_BEQ, ICMP_EQ); (FRV_BNE, ICMP_NE); (FRV_BLT, ICMP_SLT); (FRV_BLTU, ICMP_ULT); (FRV_BGE, ICMP_SGE); (FRV_BGEU, ICMP_UGE)].

Definition csr_mnems : list Z := [FRV_CSRRW; FRV_CSRRS; FRV_CSRRC; FRV_CSRRWI; FRV_CSRRSI; FRV_CSRRCI].

Definition op_table : list (Z * (FrvInst -> L unit)) := int_table ++ amo_table ++ fp32_table ++ fp64_table.

(** Not lifted: the instruction pointer stays at the instruction. *)
Definition unhandled (inst : Instr) : L bool := SetIP fi (i_start inst) true;; mret false.

Definition fall_through (inst : Instr) (body : L unit) : L bool := body;; SetIP fi (i_start inst + i_len inst) false;; mret true.

Definition lift_mnem (inst : Instr) : L bool :=
  let rvi := i_rv inst in
  let m := mnem rvi in
  if (m =? FRV_JAL) || (m =? FRV_JALR) then LiftJump inst;; mret true
  else
    match assocZ m branch_table with
    | Some p => LiftBranch inst p;; mret true
    | None =>
        if m =? FRV_ECALL then
          if imm rvi =? 0 then
            fall_through inst (match syscall_implementation cfg with Some fn => CallExternalFunction cfg fn | None => mret tt end)
          else unhandled inst
        else if m =? FRV_LUI then fall_through inst (StoreGp (rd rvi) (getInt64 (imm rvi)))
        else if m =? FRV_AUIPC then
          fall_through inst (ip ← get_reg RIP FI64; v ← pure (CreateBinOp Add ip (getInt64 (imm rvi))); StoreGp (rd rvi) v)
        else if existsb (Z.eqb m) csr_mnems then
          if (imm rvi =? 1) || (imm rvi =? 2) || (imm rvi =? 3) then fall_through inst (StoreGp (rd rvi) (getInt32 0)) else unhandled inst
        else
          match assocZ m op_table with
          | Some body => fall_through inst (body rvi)
          | None => unhandled inst
          end
    end.

Definition Lift (inst : Instr) : L bool :=
  SetIP fi (i_start inst) false;;
  (match instr_marker cfg with
   | None => mret tt
   | Some f => rip ← get_reg RIP FI64; CallMarker f rip
   end);;
  match instr_overrides cfg (mnem (i_rv inst)) with
  | Some fn => CallExternalFunction cfg fn;; mret true
  | None => lift_mnem inst
  end.
End Rv64.
