(* ===== verification/RellumeRv64Proofs.v ===== *)
(** * The lifted code does what the instruction does

    The rules of [RellumeProofs] applied to the methods of the RISC-V lifter, and
    the theorem over its switch: the code lifted from an instruction takes the
    registers and memory to where [RvSem.exec] takes them. *)

From Stdlib Require Import ZArith Lia.
From stdpp Require Import base numbers list option gmap.
From S2P Require Import Prelude Machine Frvdec FrvIsa RvSem Rellume RellumeRv64 RellumeProofs.

(** ** Results of operations *)

Definition int_facet (f : Facet) : option Z :=
  match f with FI64 => Some 64 | FI32 => Some 32 | FI16 => Some 16 | FI8 => Some 8 | _ => None end.

Lemma int_facet_width f w : int_facet f = Some w -> w = 64 \/ w = 32 \/ w = 16 \/ w = 8.
Proof. destruct f; cbn; try done; intros [= <-]; auto. Qed.

Lemma in_u_wrap w x y : 0 <= w -> in_u w x -> y = x -> wrap w x = y.
Proof. intros _ H ->. by apply wrap_small. Qed.

Lemma in_u_testbit w x : 0 <= w -> 0 <= x -> (forall i, w <= i -> Z.testbit x i = false) -> in_u w x.
Proof.
  intros Hw Hx Hb. split; [done|]. destruct (Z.eqb_spec x 0) as [->|Hne]; [lia|].
  apply Z.log2_lt_pow2; [lia|]. destruct (Z.ltb_spec (Z.log2 x) w) as [|Hge]; [done|].
  specialize (Hb _ Hge). rewrite Z.bit_log2 in Hb by lia. done.
Qed.

Lemma in_u_binop (op : Z -> Z -> Z) (ob : bool -> bool -> bool) w a b :
  (forall x y i, 0 <= i -> Z.testbit (op x y) i = ob (Z.testbit x i) (Z.testbit y i)) -> ob false false = false ->
  0 <= w -> in_u w a -> in_u w b -> 0 <= op a b -> in_u w (op a b).
Proof.
  intros Hop H0 Hw Ha Hb Hpos. apply in_u_testbit; [done..|]. intros i Hi. rewrite Hop by lia.
  by rewrite !(bits_above w) by done.
Qed.

Lemma bin_sem_range op w a b r : 0 < w -> in_u w a -> in_u w b -> bin_sem op w a b = Some r -> in_u w r.
Proof.
  intros Hw Ha Hb E. assert (0 <= w) as Hw' by lia.
  destruct op; cbn in E; repeat (case_match; try done); simplify_eq; try by apply wrap_range.
  - split; [apply Z.div_pos; unfold in_u in *; lia|]. apply Z.eqb_neq in H. unfold in_u in *.
    apply Z.le_lt_trans with a; [|lia]. apply Z.div_le_upper_bound; nia.
  - apply Z.eqb_neq in H. pose proof (Z.mod_pos_bound a b). unfold in_u in *. lia.
  - apply Z.leb_gt in H. unfold in_u in *. rewrite Z.shiftr_div_pow2 by lia. pose proof (Z.pow_pos_nonneg 2 b).
    split; [apply Z.div_pos; lia|]. apply Z.le_lt_trans with a; [|lia]. apply Z.div_le_upper_bound; nia.
  - apply (in_u_binop Z.land andb); try done; [intros; apply Z.land_spec|]. apply Z.land_nonneg. unfold in_u in *. lia.
  - apply (in_u_binop Z.lor orb); try done; [intros; apply Z.lor_spec|]. apply Z.lor_nonneg. unfold in_u in *. lia.
  - apply (in_u_binop Z.lxor xorb); try done; [intros; apply Z.lxor_spec|]. apply Z.lxor_nonneg. unfold in_u in *. lia.
Qed.

Lemma sext_64 r : in_u 64 r -> u64 (swrap 64 r) = r.
Proof. intros. by rewrite wrap_swrap, wrap_small. Qed.

Section Rv64.
Context (fp : FpSem) (fi : FunctionInfo) (cfg : LLConfig) (cpu0 : Cpu) (ret0 : bool).

(** The address of the code and the base of the program's globals are passed as
    what they are. *)
Definition base_ok : Prop :=
  is_val (TInt 64) (u64 (pc_base_addr fi)) (pc_base_value fi) /\
  match global_base cfg with Some (base, v) => is_val TPtr (u64 base) v | None => True end.

Local Abbreviation refines := (refines cpu0 ret0).
Context (Hbase : base_ok).

(** ** Registers and addresses *)

Lemma gproj_type f x t y : gproj f x = Some (t, y) -> facet_Type f = Some t.
Proof. by destruct f; intros [= <- _]. Qed.

Lemma wp_LoadGp s h r f t y (Q : Value -> LState -> Prop) :
  refines s h -> 0 <= r < 32 -> gproj f (xr h r) = Some (t, y) ->
  (forall v s', refines s' h -> is_val t y v -> Q v s') -> wp (LoadGp r f) s Q.
Proof.
  intros H Hr Hf HQ. unfold LoadGp, xr in *. destruct (Z.eqb_spec r 0) as [->|Hne].
  - rewrite (gproj_type _ _ _ _ Hf). apply wp_bind, (wp_pure _ t); [done|]. apply wp_ret, HQ; [done|].
    split; [done|]. by destruct f; cbn in Hf; simplify_eq.
  - eapply wp_get_gp; [done|lia|done|done].
Qed.

Lemma wp_LoadInt s h r f w (Q : Value -> LState -> Prop) :
  refines s h -> 0 <= r < 32 -> int_facet f = Some w ->
  (forall v s', refines s' h -> is_val (TInt w) (wrap w (xr h r)) v -> Q v s') -> wp (LoadGp r f) s Q.
Proof.
  intros H Hr Hf. apply (wp_LoadGp s h); [done..|]. pose proof (xr_range _ _ _ _ _ H Hr).
  destruct f; try done; injection Hf as <-; cbn; by rewrite ?(wrap_small 64).
Qed.

Lemma wp_LoadPtr s h r (Q : Value -> LState -> Prop) :
  refines s h -> 0 <= r < 32 -> (forall v s', refines s' h -> is_val TPtr (xr h r) v -> Q v s') -> wp (LoadGp r FPTR) s Q.
Proof. intros H Hr. by apply (wp_LoadGp s h). Qed.

Lemma wp_StoreGp s h r w x v (Q : unit -> LState -> Prop) :
  refines s h -> 0 <= r < 32 -> 0 < w <= 64 -> in_u w x -> is_val (TInt w) x v ->
  (forall s', refines s' (set_x h r (u64 (swrap w x))) -> Q tt s') -> wp (StoreGp r v) s Q.
Proof.
  intros H Hr Hw Hx [Tv Hv] HQ. unfold StoreGp. rewrite Tv. destruct (Z.eqb_spec r 0) as [->|Hne]; [by apply wp_ret, HQ|].
  apply wp_bind. apply (wp_ext true w 64 x); [done..|]. intros v64 H64.
  apply wp_bind. destruct (refines_set_gp _ _ s h r v64 _ H ltac:(lia) H64 (wrap_range 64 _ ltac:(lia))) as (rf & E & Hrf).
  exists tt. eexists. split; [unfold set_reg, set_reg_with; by rewrite E|].
  destruct (Z.eqb_spec w 32) as [->|]; [|by apply wp_ret, HQ].
  destruct (refines_set_facet_gp _ _ _ _ r FI32 v Hrf) as (rf' & E' & Hrf'); [lia| |by rewrite Tv|].
  { unfold set_x. rewrite (proj2 (Z.eqb_neq r 0)) by done. cbn. rewrite Z.eqb_refl, Tv, Hv, wrap_wrap_le by lia.
    by rewrite wrap_swrap, wrap_small. }
  exists tt. eexists. split; [unfold set_reg_facet, set_reg_with; by rewrite E'|]. by apply HQ.
Qed.

Lemma AddrConst_ok a : in_u 64 a -> exists v, AddrConst cfg a = Some v /\ is_val TPtr a v.
Proof.
  intros Ha. unfold AddrConst. destruct (Z.eqb_spec a 0) as [->|]; [by eexists|]. destruct Hbase as [_ Hg].
  destruct (global_base cfg) as [[base g]|].
  - destruct Hg as [Tg Hg]. unfold CreateGEP. rewrite decide_True by done. eexists. split; [done|]. split; [done|]. cbn.
    rewrite Hg, wrap_add_l, wrap_add_r. apply in_u_wrap; [done| |lia]. by replace (base + (a - base)) with a by lia.
  - eexists. split; [done|]. split; [done|]. cbn. by rewrite wrap_small.
Qed.

Lemma wp_Addr s h i (Q : Value -> LState -> Prop) :
  refines s h -> 0 <= rs1 i < 32 -> (forall v s', refines s' h -> is_val TPtr (ea i h) v -> Q v s') -> wp (Addr cfg i) s Q.
Proof.
  intros H Hr HQ. unfold Addr. apply wp_bind, (wp_LoadPtr s h); [done..|]. intros p s1 H1 [Tp Hp].
  pose proof (xr_range _ _ _ _ _ H1 Hr) as Hx. destruct (is_constant p).
  - apply wp_bind, (wp_LoadInt s1 h _ FI64 64); [done..|]. intros b s2 H2 Hb. rewrite wrap_small in Hb by done.
    apply wp_bind, (wp_binop Add 64 (xr h (rs1 i)) (u64 (imm i)) (ea i h)); [done..| |].
    { cbn. by rewrite wrap_add_r. }
    intros v [Tv Hv]. assert (in_u 64 (v_bits v)) as Hr64 by (rewrite Hv; apply wrap_range; lia).
    destruct (v_const v); [|destruct (AddrConst_ok _ Hr64) as (q & E & Hq); rewrite E; apply (wp_pure _ q); [done|]; apply HQ; [done|]; by rewrite <- Hv|];
      apply (wp_pure_val _ TPtr (ea i h) (fold1 v IntToPtr)); try (intros; by apply HQ);
      unfold CreateCast; rewrite Tv; cbn; by rewrite Hv.
  - destruct (Z.eqb_spec (imm i) 0) as [E|_]; cbn [negb].
    + apply wp_ret, HQ; [done|]. split; [done|]. unfold ea. by rewrite Hp, E, Z.add_0_r, wrap_small.
    + eapply (wp_pure_val _ TPtr (ea i h)); [|intros; by apply HQ]. unfold CreateGEP. rewrite decide_True by done.
      cbn [v_bits getInt64 getIntN]. by rewrite Hp, wrap_add_r.
Qed.

(** ** Groups of instructions *)

(** After the instruction [rd] holds [z], and nothing else has changed. *)
Local Abbreviation rd_is i h z := (fun _ s' => refines s' (set_x h (rd i) z)).

Definition regs2 (i : FrvInst) : Prop := 0 <= rd i < 32 /\ 0 <= rs1 i < 32.
Definition regs3 (i : FrvInst) : Prop := regs2 i /\ 0 <= rs2 i < 32.

Lemma wp_BinOpR s h i op f w r z :
  refines s h -> regs3 i -> int_facet f = Some w -> bin_sem op w (wrap w (xr h (rs1 i))) (wrap w (xr h (rs2 i))) = Some r ->
  u64 (swrap w r) = z -> wp (LiftBinOpR i op f) s (rd_is i h z).
Proof.
  intros H [[Hd H1] H2] Hf Hr <-. pose proof (int_facet_width _ _ Hf) as Hw. unfold LiftBinOpR.
  apply wp_bind, (wp_LoadInt s h _ f w); [done..|]. intros a s1 Hs1 Ha.
  apply wp_bind, (wp_LoadInt s1 h _ f w); [done..|]. intros b s2 Hs2 Hb.
  apply wp_bind, (wp_binop op w _ _ r _ _ _ _ Ha Hb Hr). intros v Hv.
  apply (wp_StoreGp s2 h _ w r); [done|done|lia| |done|done].
  by apply (bin_sem_range op w _ _ r) in Hr; [|lia|apply wrap_range; lia..].
Qed.

Lemma wp_BinOpI s h i op f w r z :
  refines s h -> regs2 i -> int_facet f = Some w -> bin_sem op w (wrap w (xr h (rs1 i))) (wrap w (imm i)) = Some r ->
  u64 (swrap w r) = z -> wp (LiftBinOpI i op f) s (rd_is i h z).
Proof.
  intros H [Hd H1] Hf Hr <-. pose proof (int_facet_width _ _ Hf) as Hw. unfold LiftBinOpI.
  apply wp_bind, (wp_pure _ w); [by destruct f; simplify_eq/=|].
  apply wp_bind, (wp_LoadInt s h _ f w); [done..|]. intros a s1 Hs1 Ha.
  apply wp_bind, (wp_binop op w _ _ r _ _ _ _ Ha (is_val_intN w (imm i)) Hr). intros v Hv.
  apply (wp_StoreGp s1 h _ w r); [done|done|lia| |done|done].
  by apply (bin_sem_range op w _ _ r) in Hr; [|lia|apply wrap_range; lia..].
Qed.

(** The amount is taken modulo the width. *)
Lemma wp_Shift s h i op w y sv r z :
  refines s h -> regs2 i -> w = 64 \/ w = 32 -> is_val (TInt w) y sv -> in_u w y ->
  bin_sem op w (wrap w (xr h (rs1 i))) (y `mod` w) = Some r -> u64 (swrap w r) = z -> wp (LiftShift i op sv) s (rd_is i h z).
Proof.
  intros H [Hd H1] Hw Hs Hy Hr <-. unfold LiftShift. destruct Hs as [Ts Hsv] eqn:Es. clear Es. rewrite Ts. cbn [ty_bits].
  assert (Z.land y (wrap w (w - 1)) = y `mod` w) as Hm.
  { destruct Hw as [-> | ->]; [change (wrap 64 (64 - 1)) with (Z.ones 6)|change (wrap 32 (32 - 1)) with (Z.ones 5)]; by rewrite Z.land_ones. }
  apply wp_bind, (wp_binop And w y (wrap w (w - 1)) (y `mod` w)); [done|done|by rewrite <- Hm|]. intros b Hb.
  set (f := if decide (w = 64) then FI64 else FI32).
  assert (facet_In w = Some f /\ int_facet f = Some w) as [Ef Hf] by (by destruct Hw as [-> | ->]).
  apply wp_bind, (wp_pure _ f); [done|]. apply wp_bind, (wp_LoadInt s h _ f w); [done..|]. intros a s1 Hs1 Ha.
  apply wp_bind, (wp_binop op w _ _ r _ _ _ _ Ha Hb Hr). intros v Hv.
  apply (wp_StoreGp s1 h _ w r); [done|done|lia| |done|done].
  assert (in_u w (y `mod` w)). { pose proof (Z.mod_pos_bound y w). destruct Hw as [-> | ->]; unfold in_u; lia. }
  by apply (bin_sem_range op w _ _ r) in Hr; [|lia|apply wrap_range; lia|].
Qed.

Lemma wp_ShiftR s h i op f w r z :
  refines s h -> regs3 i -> (f = FI64 /\ w = 64) \/ (f = FI32 /\ w = 32) ->
  bin_sem op w (wrap w (xr h (rs1 i))) (wrap w (xr h (rs2 i)) `mod` w) = Some r -> u64 (swrap w r) = z ->
  wp (b ← LoadGp (rs2 i) f; LiftShift i op b) s (rd_is i h z).
Proof.
  intros H [H12 H2] Hw Hr Hz. apply wp_bind, (wp_LoadInt s h _ f w); [done|done|by destruct Hw as [[-> ->]|[-> ->]]|].
  intros b s1 Hs1 Hb. eapply (wp_Shift s1 h i op w); [done|done|tauto|exact Hb|apply wrap_range; lia|exact Hr|done].
Qed.

Lemma wp_Slt s h i p cb b z :
  refines s h -> regs2 i -> (forall s1 Q, refines s1 h -> (forall v s2, refines s2 h -> is_val (TInt 64) b v -> Q v s2) -> wp cb s1 Q) ->
  Z.b2z (icmp_sem p 64 (xr h (rs1 i)) b) = z -> wp (LiftSlt i p cb) s (rd_is i h z).
Proof.
  intros H [Hd H1] Hcb <-. pose proof (xr_range _ _ _ _ _ H H1) as Hx. unfold LiftSlt.
  apply wp_bind, (wp_LoadInt s h _ FI64 64); [done..|]. intros a s1 Hs1 Ha. rewrite wrap_small in Ha by done.
  apply wp_bind, Hcb; [done|]. intros bv s2 Hs2 Hb.
  apply wp_bind, (wp_icmp p 64 _ _ _ _ _ _ Ha Hb). intros c Hc.
  apply wp_bind, (wp_ext false 1 64 (Z.b2z (icmp_sem p 64 (xr h (rs1 i)) b))); [lia|by destruct (icmp_sem _ _ _ _)|done|]. intros v Hv.
  eapply (wp_StoreGp s2 h _ 64); [done|done|lia| |exact Hv|]; [by destruct (icmp_sem _ _ _ _)|].
  intros s' Hs'. rewrite sext_64 in Hs' by (by destruct (icmp_sem _ _ _ _)). done.
Qed.

(** The operands extended to 128 bits, signed or not. *)
Definition ext_of (signed : bool) (x : Z) : Z := if signed then s64 x else x.

Lemma mulh_bits a b : wrap 64 (Z.shiftr (wrap 128 (wrap 128 a * wrap 128 b)) 64) = wrap 64 (a * b / 2 ^ 64).
Proof.
  replace (wrap 128 (wrap 128 a * wrap 128 b)) with (wrap 128 (a * b)) by (unfold wrap; by rewrite <- Zmult_mod).
  rewrite <- Z.shiftr_div_pow2 by lia. apply Z.bits_inj'. intros i Hi. rewrite !testbit_wrap, !Z.shiftr_spec, testbit_wrap by lia.
  destruct (Z.ltb_spec i 64); [|by rewrite !andb_false_r]. rewrite (proj2 (Z.ltb_lt (i + 64) 128)) by lia. by rewrite !andb_true_r.
Qed.

Lemma wp_Mulh s h i (g1 g2 : bool) :
  refines s h -> regs3 i ->
  wp (LiftMulh i (if g1 then SExt else ZExt) (if g2 then SExt else ZExt)) s
    (rd_is i h (u64 (ext_of g1 (xr h (rs1 i)) * ext_of g2 (xr h (rs2 i)) / 2 ^ 64))).
Proof.
  intros H [[Hd H1] H2]. pose proof (xr_range _ _ _ _ _ H H1) as Hx1. pose proof (xr_range _ _ _ _ _ H H2) as Hx2.
  assert (forall g x, in_u 64 x -> (if g : bool then wrap 128 (swrap 64 x) else x) = wrap 128 (ext_of g x)) as Hext.
  { intros [] x Hx; [done|]. cbn. symmetry. apply wrap_small. unfold in_u in *. lia. }
  unfold LiftMulh. apply wp_bind, (wp_LoadInt s h _ FI64 64); [done..|]. intros a0 s1 Hs1 Ha0. rewrite wrap_small in Ha0 by done.
  apply wp_bind, (wp_ext g1 64 128 (xr h (rs1 i))); [lia|done..|]. intros a Ha. rewrite Hext in Ha by done.
  apply wp_bind, (wp_LoadInt s1 h _ FI64 64); [done..|]. intros b0 s2 Hs2 Hb0. rewrite wrap_small in Hb0 by done.
  apply wp_bind, (wp_ext g2 64 128 (xr h (rs2 i))); [lia|done..|]. intros b Hb. rewrite Hext in Hb by done.
  apply wp_bind. eapply (wp_binop Mul 128); [exact Ha|exact Hb|reflexivity|]. intros m Hm.
  apply wp_bind. eapply (wp_binop LShr 128); [exact Hm|apply is_val_intN|reflexivity|]. intros l Hl.
  apply wp_bind, (wp_trunc 128 64 _ _ _ _ ltac:(lia) Hl). intros v Hv. change (wrap 128 64) with 64 in Hv. rewrite mulh_bits in Hv.
  eapply (wp_StoreGp s2 h _ 64); [done|done|lia|apply wrap_range; lia|exact Hv|].
  intros s' Hs'. by rewrite sext_64 in Hs' by (apply wrap_range; lia).
Qed.

Lemma facet_bytes f w : int_facet f = Some w -> facet_Type f = Some (TInt w) /\ 8 * Z.of_nat (Z.to_nat (w / 8)) = w.
Proof. destruct f; cbn; try done; by intros [= <-]. Qed.

Lemma wp_Load s h i (signed : bool) f w n :
  refines s h -> regs2 i -> int_facet f = Some w -> n = Z.to_nat (w / 8) ->
  wp (LiftLoad cfg i (if signed then SExt else ZExt) f) s
    (rd_is i h (let v := loadZ (hmem h) n (ea i h) in if signed then u64 (swrap w v) else v)).
Proof.
  intros H [Hd H1] Hf ->. destruct (facet_bytes f w Hf) as [Ht Hn]. pose proof (int_facet_width _ _ Hf) as Hw. unfold LiftLoad.
  apply wp_bind, (wp_pure _ (TInt w)); [done|]. apply wp_bind, (wp_Addr s h); [done..|]. intros p s1 Hs1 Hp.
  apply wp_bind, (wp_load cpu0 ret0 s1 h (TInt w) (ea i h)); [done..|]. intros ld Hld.
  assert (in_u w (loadZ (hmem h) (Z.to_nat (w / 8)) (ea i h))) as Hr.
  { rewrite <- Hn at 1. apply loadZ_range, (r_memok _ _ _ _ Hs1). }
  apply wp_bind, (wp_ext signed w 64 _ _ _ _ ltac:(lia) Hr Hld). intros v Hv.
  assert (in_u 64 (if signed then u64 (swrap w (loadZ (hmem h) (Z.to_nat (w / 8)) (ea i h))) else loadZ (hmem h) (Z.to_nat (w / 8)) (ea i h))) as Hr'.
  { destruct signed; [apply wrap_range; lia|]. unfold in_u in *. destruct Hw as [-> |[-> |[-> | ->]]]; lia. }
  eapply (wp_StoreGp s1 h _ 64); [done|done|lia|exact Hr'|exact Hv|]. intros s' Hs'. by rewrite sext_64 in Hs' by done.
Qed.

Lemma wp_Store s h i f w n :
  refines s h -> 0 <= rs1 i < 32 -> 0 <= rs2 i < 32 -> int_facet f = Some w -> n = Z.to_nat (w / 8) ->
  wp (LiftStore cfg i f) s (fun _ s' => refines s' (set_hmem h (storeZ (hmem h) n (ea i h) (wrap w (xr h (rs2 i)))))).
Proof.
  intros H H1 H2 Hf ->. unfold LiftStore. apply wp_bind, (wp_LoadInt s h _ f w); [done..|]. intros v s1 Hs1 Hv.
  apply wp_bind, (wp_Addr s1 h); [done..|]. intros p s2 Hs2 Hp. by eapply (wp_store cpu0 ret0 s2 h (TInt w)).
Qed.

(** ** Floating-point moves *)

Lemma wp_StoreFp s h r t v x (Q : unit -> LState -> Prop) :
  refines s h -> 0 <= r < 32 -> t ∈ [TFloat; TDouble] -> is_val t x v -> in_u (ty_bits t) x ->
  (forall s', refines s' (set_f h r x) -> Q tt s') -> wp (StoreFp r v) s Q.
Proof.
  intros H Hr Ht [Tv Hv] Hx HQ. unfold StoreFp. rewrite Tv.
  assert (in_u 64 x) as Hx64 by (rewrite !elem_of_cons, elem_of_nil in Ht; destruct Ht as [->|[->|[]]]; cbn in Hx; unfold in_u in *; lia).
  apply wp_bind, (wp_bitcast (TVec (64 / ty_bits t) t) (TInt 64) x); [done| |by rewrite <- Hv|].
  { rewrite !elem_of_cons, elem_of_nil in Ht. by destruct Ht as [->|[->|[]]]. }
  intros iv Hiv. destruct (refines_set_fp _ _ s h r iv x H Hr Hiv Hx64) as (rf & E & Hrf).
  apply wp_bind. exists tt. eexists. split; [unfold set_reg, set_reg_with; by rewrite E|].
  set (f := if decide (t = TFloat) then FF32 else FF64).
  assert (facet_FromType t = Some f /\ facet_Type f = Some t /\ f ∈ [FF32; FF64] /\ ty_bits t <= 64) as (Ef & Et & Hf & Hb).
  { rewrite !elem_of_cons, elem_of_nil in Ht. destruct Ht as [->|[->|[]]]; cbn; (split; [done|]); (split; [done|]); (split; [rewrite !elem_of_cons; auto|lia]). }
  apply wp_bind, (wp_pure _ f); [done|]. destruct (refines_set_facet_fp _ _ _ _ r f v Hrf Hr Hf) as (rf' & E' & Hrf').
  { unfold vproj. rewrite Et. cbn. apply Z.leb_le in Hb. by rewrite Hb, Z.eqb_refl, Tv, Hv, wrap_small. }
  exists tt. eexists. split; [unfold set_reg_facet, set_reg_with; by rewrite E'|]. by apply HQ.
Qed.

Lemma wp_LoadFp64 s h i :
  refines s h -> 0 <= rd i < 32 -> 0 <= rs1 i < 32 ->
  wp (LiftLoadFp cfg i FF64) s (fun _ s' => refines s' (set_f h (rd i) (loadZ (hmem h) 8 (ea i h)))).
Proof.
  intros H Hd H1. unfold LiftLoadFp. apply wp_bind, (wp_pure _ TDouble); [done|].
  apply wp_bind, (wp_Addr s h); [done..|]. intros p s1 Hs1 Hp.
  apply wp_bind, (wp_load cpu0 ret0 s1 h TDouble (ea i h)); [done..|]. intros v Hv.
  eapply (wp_StoreFp s1 h _ TDouble); [done|done|rewrite !elem_of_cons; auto|exact Hv| |done].
  apply (loadZ_range _ 8), (r_memok _ _ _ _ Hs1).
Qed.

Lemma wp_StoreFpMem s h i f t n :
  refines s h -> 0 <= rs1 i < 32 -> 0 <= rs2 i < 32 -> (f, t, n) ∈ [(FF32, TFloat, 4%nat); (FF64, TDouble, 8%nat)] ->
  wp (LiftStoreFp cfg i f) s (fun _ s' => refines s' (set_hmem h (storeZ (hmem h) n (ea i h) (wrap (ty_bits t) (hf h (rs2 i)))))).
Proof.
  intros H H1 H2 Hf. assert (f ∈ [FF32; FF64; FI32] /\ facet_Type f = Some t /\ n = Z.to_nat (ty_bits t / 8)) as (Hin & Ht & ->).
  { rewrite !elem_of_cons, elem_of_nil in Hf. destruct Hf as [[= -> -> ->]|[[= -> -> ->]|[]]]; rewrite !elem_of_cons; auto. }
  unfold LiftStoreFp. apply wp_bind. eapply (wp_get_fp cpu0 ret0 s h); [done..|]. intros v s1 Hs1 Hv.
  apply wp_bind, (wp_Addr s1 h); [done..|]. intros p s2 Hs2 Hp. by eapply (wp_store cpu0 ret0 s2 h t).
Qed.

(** ** Division *)

(** What the lifted code computes from operands of [w] bits: a signed division
    by minus one gives the dividend. *)
Definition divrem_res (op : BinOp) (w a b : Z) : Z :=
  let m := b =? wrap w (-1) in
  if b =? 0 then match op with UDiv | SDiv => wrap w (-1) | _ => a end
  else
    match op with
    | UDiv => a / b
    | URem => a `mod` b
    | SDiv => if m then a else wrap w (Z.quot (swrap w a) (swrap w b))
    | _ => if m then 0 else wrap w (Z.rem (swrap w a) (swrap w b))
    end.

Definition is_divrem (op : BinOp) : bool := match op with UDiv | URem | SDiv | SRem => true | _ => false end.
Definition is_signed (op : BinOp) : bool := match op with SDiv | SRem => true | _ => false end.
Definition special (op : BinOp) (w b : Z) : bool := (b =? 0) || (is_signed op && (b =? wrap w (-1))).

Lemma minus_one w b : 0 < w -> in_u w b -> swrap w b = -1 <-> b = wrap w (-1).
Proof.
  intros Hw Hb. split.
  - intros E. by rewrite <- E, wrap_swrap, wrap_small.
  - intros ->. rewrite swrap_wrap. apply swrap_small; [done|]. unfold in_s. pose proof (Z.pow_pos_nonneg 2 (w - 1)). lia.
Qed.

Lemma divrem_plain op w a b :
  0 < w -> is_divrem op = true -> in_u w b -> special op w b = false -> bin_sem op w a b = Some (divrem_res op w a b).
Proof.
  intros Hw Hop Hb Hs. unfold special in Hs. apply orb_false_iff in Hs as [Hz Hm]. unfold divrem_res.
  destruct op; try done; cbn [bin_sem]; rewrite Hz; try done; cbn in Hm; rewrite Hm; cbn [orb];
    (rewrite (proj2 (Z.eqb_neq (swrap w b) (-1))), andb_false_r; [done|]); apply Z.eqb_neq in Hm; by rewrite minus_one.
Qed.

Lemma divrem_range op w a b : 0 < w -> is_divrem op = true -> in_u w a -> in_u w b -> in_u w (divrem_res op w a b).
Proof.
  intros Hw Hop Ha Hb. destruct (special op w b) eqn:Es.
  - assert (in_u w 0) by (unfold in_u in *; lia). assert (in_u w (wrap w (-1))) by (apply wrap_range; lia).
    unfold special in Es. unfold divrem_res. destruct (b =? 0); [by destruct op|]. destruct op; try done; cbn in Es; by rewrite Es.
  - by eapply bin_sem_range, divrem_plain.
Qed.

(** The block of the special cases. *)
Lemma wp_special s h i op w a b dividend zero minusone is_m :
  refines s h -> 0 <= rd i < 32 -> 0 < w <= 64 -> in_u w a -> in_u w b -> is_divrem op = true -> special op w b = true ->
  is_val (TInt w) a dividend -> is_val (TInt w) 0 zero -> is_val (TInt w) (wrap w (-1)) minusone -> is_val (TInt 1) (Z.b2z (b =? wrap w (-1))) is_m ->
  wp (match op with
      | UDiv => StoreGp (rd i) minusone
      | URem => StoreGp (rd i) dividend
      | SDiv => v ← pure (CreateSelect is_m dividend minusone); StoreGp (rd i) v
      | SRem => v ← pure (CreateSelect is_m zero dividend); StoreGp (rd i) v
      | _ => pure None
      end) s (rd_is i h (u64 (swrap w (divrem_res op w a b)))).
Proof.
  intros H Hd Hw Ha Hb Hop Hs Hdv Hz Hm Him. pose proof (divrem_range op w a b ltac:(lia) Hop Ha Hb) as Hr.
  assert (forall x y : Z, (if b =? wrap w (-1) then x else y) = if b =? 0 then y else x) as Hsel.
  { intros x y. unfold special in Hs. destruct (Z.eqb_spec b 0) as [->|]; cbn in Hs.
    - rewrite (proj2 (Z.eqb_neq 0 (wrap w (-1)))); [done|]. intros E. apply minus_one in E; [|lia|done].
      rewrite swrap_small in E; [done|lia|]. unfold in_s. pose proof (Z.pow_pos_nonneg 2 (w - 1)). lia.
    - destruct op; try done; cbn in Hs; by rewrite Hs. }
  destruct op; try done.
  - unfold special in Hs. cbn in Hs. rewrite orb_false_r in Hs. unfold divrem_res in *. rewrite Hs in *. by eapply (wp_StoreGp s h).
  - apply wp_bind, (wp_select (TInt w) _ _ _ _ _ _ _ _ Him Hdv Hm). intros v Hv. rewrite Hsel in Hv.
    eapply (wp_StoreGp s h); [done..| |exact Hv|]; unfold divrem_res in *; rewrite Hsel in *; by destruct (b =? 0).
  - unfold special in Hs. cbn in Hs. rewrite orb_false_r in Hs. unfold divrem_res in *. rewrite Hs in *. by eapply (wp_StoreGp s h).
  - apply wp_bind, (wp_select (TInt w) _ _ _ _ _ _ _ _ Him Hz Hdv). intros v Hv. rewrite Hsel in Hv.
    eapply (wp_StoreGp s h); [done..| |exact Hv|]; unfold divrem_res in *; rewrite Hsel in *; by destruct (b =? 0).
Qed.

Lemma wp_is_spc op w b is_z is_m s (Q : Value -> LState -> Prop) :
  is_val (TInt 1) (Z.b2z (b =? 0)) is_z -> is_val (TInt 1) (Z.b2z (b =? wrap w (-1))) is_m ->
  (forall v, is_val (TInt 1) (Z.b2z (special op w b)) v -> Q v s) ->
  wp (match op with SDiv | SRem => pure (CreateBinOp Or is_z is_m) | _ => mret is_z end) s Q.
Proof.
  intros Hz Hm HQ. assert (is_signed op = false -> wp (mret is_z) s Q) as Hu.
  { intros E. apply wp_ret, HQ. unfold special. by rewrite E, orb_false_r. }
  assert (is_signed op = true -> wp (pure (CreateBinOp Or is_z is_m)) s Q) as Hsg.
  { intros E. eapply (wp_binop Or 1); [done|done|reflexivity|]. intros v Hv. apply HQ. unfold special. rewrite E. cbn [andb].
    by destruct (b =? 0), (b =? wrap w (-1)). }
  destruct op; auto.
Qed.

Lemma wp_DivRem s h i op f w :
  refines s h -> regs3 i -> int_facet f = Some w -> is_divrem op = true ->
  wp (LiftDivRem i op f) s (rd_is i h (u64 (swrap w (divrem_res op w (wrap w (xr h (rs1 i))) (wrap w (xr h (rs2 i))))))).
Proof.
  intros H [[Hd H1] H2] Hf Hop. pose proof (int_facet_width _ _ Hf) as Hw.
  set (a := wrap w (xr h (rs1 i))). set (b := wrap w (xr h (rs2 i))).
  assert (in_u w a) as Ha by (apply wrap_range; lia). assert (in_u w b) as Hb by (apply wrap_range; lia).
  unfold LiftDivRem. apply wp_bind, (wp_pure _ w); [by destruct f; simplify_eq/=|].
  apply wp_bind, (wp_LoadInt s h _ f w); [done..|]. intros dv s1 Hs1 Hdv.
  apply wp_bind, (wp_LoadInt s1 h _ f w); [done..|]. intros ds s2 Hs2 Hds. fold a in Hdv. fold b in Hds.
  apply wp_bind, (wp_icmp ICMP_EQ w b (wrap w 0)); [done..|]. intros is_z Hiz. change (wrap w 0) with (0 `mod` 2 ^ w) in Hiz. rewrite Zmod_0_l in Hiz.
  apply wp_bind, (wp_icmp ICMP_EQ w b (wrap w (-1))); [done..|]. intros is_m Him.
  apply wp_bind, (wp_is_spc op w b _ _ _ _ Hiz Him). intros spc [Tspc Hspc].
  apply wp_bind, (wp_goto cpu0 ret0 s2 h); [done|]. intros s3 Hs3. apply wp_bind. rewrite Hspc.
  apply (wp_mono _ _ (rd_is i h (u64 (swrap w (divrem_res op w a b))))); [|intros [] s' Hs'; apply (wp_goto cpu0 ret0 s' _ _ Hs'); intros s'' Hs''; exact Hs''].
  destruct (special op w b) eqn:Es; cbn [Z.b2z Z.eqb].
  - apply wp_special; try done. lia.
  - apply wp_bind. eapply (wp_binop op w); [exact Hdv|exact Hds|apply divrem_plain; try done; lia|]. intros v Hv.
    eapply (wp_StoreGp s3 h _ w (divrem_res op w a b)); [done|done|lia|apply divrem_range; try done; lia|exact Hv|done].
Qed.

(** ** Atomic operations *)

Lemma wp_Amo s h i op f w n :
  refines s h -> regs3 i -> 0 <= imm i < 4 -> int_facet f = Some w -> n = Z.to_nat (w / 8) ->
  wp (LiftAmo i op f) s (fun _ s' =>
    let old := loadZ (hmem h) n (xr h (rs1 i)) in
    refines s' (set_x (set_hmem h (storeZ (hmem h) n (xr h (rs1 i)) (rmw_sem op w old (wrap w (xr h (rs2 i)))))) (rd i) (u64 (swrap w old)))).
Proof.
  intros H [[Hd H1] H2] Hi Hf ->. destruct (facet_bytes f w Hf) as [Ht Hn]. pose proof (int_facet_width _ _ Hf) as Hw.
  unfold LiftAmo. rewrite (proj2 (Z.leb_le 0 (imm i))), (proj2 (Z.leb_le (imm i) 3)) by lia. cbn [andb].
  apply wp_bind, (wp_LoadInt s h _ f w); [done..|]. intros v s1 Hs1 Hv.
  apply wp_bind, (wp_LoadPtr s1 h); [done..|]. intros p s2 Hs2 Hp.
  apply wp_bind. eapply (wp_rmw cpu0 ret0 s2 h op (TInt w)); [done|exact Hp|exact Hv|]. intros s3 o Hs3 Ho.
  eapply (wp_StoreGp s3 _ _ w); [exact Hs3|done|lia| |exact Ho|by intros s' Hs'].
  cbn [ty_bits]. rewrite <- Hn at 1. apply loadZ_range, (r_memok _ _ _ _ Hs2).
Qed.

(** ** Control flow *)

Lemma wp_SetIP s h a nofold (Q : unit -> LState -> Prop) :
  refines s h -> (forall s', refines s' (set_pc h (u64 a)) -> Q tt s') -> wp (SetIP fi a nofold) s Q.
Proof.
  intros H HQ. unfold SetIP. destruct Hbase as [Hpc _]. apply wp_bind. eapply (wp_binop Add 64); [exact Hpc|apply is_val_intN|reflexivity|].
  intros v Hv. rewrite wrap_add_l, wrap_add_r in Hv. replace (pc_base_addr fi + (a - pc_base_addr fi)) with a in Hv by lia.
  eapply (wp_set_ip cpu0 ret0 s h); [done| |apply (wrap_range 64 a); lia|done]. destruct nofold; by destruct Hv.
Qed.

Lemma wp_Branch s h inst p :
  refines s h -> 0 <= rs1 (i_rv inst) < 32 -> 0 <= rs2 (i_rv inst) < 32 ->
  wp (LiftBranch inst p) s (fun _ s' =>
    refines s' (set_pc h (u64 (hpc h + if icmp_sem p 64 (xr h (rs1 (i_rv inst))) (xr h (rs2 (i_rv inst))) then imm (i_rv inst) else i_len inst)))).
Proof.
  intros H H1 H2. pose proof (xr_range _ _ _ _ _ H H1) as Hx1. pose proof (xr_range _ _ _ _ _ H H2) as Hx2. unfold LiftBranch.
  apply wp_bind, (wp_LoadInt s h _ FI64 64); [done..|]. intros a s1 Hs1 Ha. rewrite wrap_small in Ha by done.
  apply wp_bind, (wp_LoadInt s1 h _ FI64 64); [done..|]. intros b s2 Hs2 Hb. rewrite wrap_small in Hb by done.
  apply wp_bind, (wp_icmp p 64 _ _ _ _ _ _ Ha Hb). intros c Hc.
  apply wp_bind, (wp_get_ip cpu0 ret0 s2 h); [done|]. intros ip Hip.
  apply wp_bind. eapply (wp_binop Add 64); [exact Hip|apply is_val_intN|reflexivity|]. intros tk Htk.
  apply wp_bind, (wp_get_ip cpu0 ret0 s2 h); [done|]. intros ip' Hip'.
  apply wp_bind. eapply (wp_binop Add 64); [exact Hip'|apply is_val_intN|reflexivity|]. intros nx Hnx. rewrite wrap_add_r in Htk, Hnx.
  apply wp_bind, (wp_select (TInt 64) _ _ _ _ _ _ _ _ Hc Htk Hnx). intros v Hv.
  eapply (wp_set_ip cpu0 ret0 s2 h); [done|exact Hv|destruct (icmp_sem _ _ _ _); apply wrap_range; lia|].
  intros s' Hs'. by destruct (icmp_sem _ _ _ _).
Qed.

(** Jumps; without a function for calls. *)
Lemma wp_Jump s h inst base :
  call_function cfg = None -> refines s h -> 0 <= rd (i_rv inst) < 32 ->
  (rs1 (i_rv inst) = FRV_REG_INV /\ base = hpc h) \/ (0 <= rs1 (i_rv inst) < 32 /\ base = xr h (rs1 (i_rv inst))) ->
  wp (LiftJump cfg inst) s (fun _ s' =>
    refines s' (set_pc (set_x h (rd (i_rv inst)) (u64 (hpc h + i_len inst))) (u64 (base + imm (i_rv inst))))).
Proof.
  intros Hcf H Hd Hb. unfold LiftJump. rewrite Hcf. apply wp_bind, (wp_get_ip cpu0 ret0 s h); [done|]. intros pc Hpc.
  apply wp_bind. apply wp_mono with (P := fun v s' => refines s' h /\ is_val (TInt 64) base v).
  { destruct Hb as [[Hi ->]|[Hi ->]].
    - rewrite Hi. by apply wp_ret.
    - rewrite (proj2 (Z.eqb_neq _ _)) by (unfold FRV_REG_INV; lia). apply (wp_LoadGp s h _ FI64 (TInt 64) (xr h (rs1 (i_rv inst)))); [done..|].
      by intros v s' ? ?. }
  intros bv s1 [Hs1 Hbv]. apply wp_bind. eapply (wp_binop Add 64); [exact Hbv|apply is_val_intN|reflexivity|]. intros tg Htg.
  rewrite wrap_add_r in Htg. apply wp_bind. eapply (wp_set_ip cpu0 ret0 s1 h); [done|exact Htg|apply wrap_range; lia|]. intros s2 Hs2.
  apply wp_bind. eapply (wp_binop Add 64); [exact Hpc|apply is_val_intN|reflexivity|]. intros ra Hra. rewrite wrap_add_r in Hra.
  apply wp_bind. eapply (wp_StoreGp s2 _ _ 64); [exact Hs2|done|lia|apply wrap_range; lia|exact Hra|]. intros s3 Hs3.
  rewrite sext_64 in Hs3 by (apply wrap_range; lia). apply wp_ret. unfold set_x in *. by destruct (rd (i_rv inst) =? 0).
Qed.
End Rv64.
