(* ===== verification/RellumeRv64Refine.v ===== *)
(** * The lifter against the manual

    The operations of the lifter's tables compute the functions of [RvSem]'s
    tables, and so the code lifted from an instruction refines the
    instruction. *)

From Stdlib Require Import ZArith Lia.
From stdpp Require Import base numbers list option gmap.
From S2P Require Import Prelude Machine Frvdec FrvIsa RvSem Rellume RellumeRv64 RellumeProofs RellumeRv64Proofs.

(** ** Arithmetic *)

(** The instruction on the low [w] bits, sign-extended, is [g]. *)
Definition op_ok (op : BinOp) (w : Z) (g : Z -> Z -> Z) : Prop :=
  forall a b, in_u 64 a -> in_u 64 b -> exists r, bin_sem op w (wrap w a) (wrap w b) = Some r /\ u64 (swrap w r) = g a b.
Definition shift_ok (op : BinOp) (w : Z) (g : Z -> Z -> Z) : Prop :=
  forall a b, in_u 64 a -> in_u 64 b -> exists r, bin_sem op w (wrap w a) (wrap w b `mod` w) = Some r /\ u64 (swrap w r) = g a b.

Lemma wrap_mul_l w x y : wrap w (wrap w x * y) = wrap w (x * y).
Proof. apply Zmult_mod_idemp_l. Qed.
Lemma wrap_mul_r w x y : wrap w (x * wrap w y) = wrap w (x * y).
Proof. apply Zmult_mod_idemp_r. Qed.
Lemma u64_s32_wrap x : u64 (s32 (wrap 32 x)) = sext32 x.
Proof. unfold sext32. by rewrite swrap_wrap. Qed.

Lemma op_64 op g :
  (forall a b, in_u 64 a -> in_u 64 b -> bin_sem op 64 a b = Some (g a b)) -> op_ok op 64 g.
Proof.
  intros H a b Ha Hb. rewrite !(wrap_small 64) by done. exists (g a b). split; [by apply H|].
  apply sext_64. by apply (bin_sem_range op 64 a b); [lia|..|apply H].
Qed.

Lemma op_32 op g :
  (forall a b, bin_sem op 32 (wrap 32 a) (wrap 32 b) = Some (wrap 32 (g a b))) -> op_ok op 32 (fun a b => sext32 (g a b)).
Proof. intros H a b _ _. eexists. split; [apply H|]. apply u64_s32_wrap. Qed.

Lemma add_64 : op_ok Add 64 (fun a b => u64 (a + b)). Proof. by apply op_64. Qed.
Lemma sub_64 : op_ok Sub 64 (fun a b => u64 (a - b)). Proof. by apply op_64. Qed.
Lemma mul_64 : op_ok Mul 64 (fun a b => u64 (a * b)). Proof. by apply op_64. Qed.
Lemma and_64 : op_ok And 64 Z.land. Proof. by apply op_64. Qed.
Lemma or_64 : op_ok Or 64 Z.lor. Proof. by apply op_64. Qed.
Lemma xor_64 : op_ok Xor 64 Z.lxor. Proof. by apply op_64. Qed.
Lemma add_32 : op_ok Add 32 (fun a b => sext32 (a + b)).
Proof. apply (op_32 _ Z.add). intros. cbn [bin_sem]. by rewrite wrap_add_l, wrap_add_r. Qed.
Lemma sub_32 : op_ok Sub 32 (fun a b => sext32 (a - b)).
Proof. apply (op_32 _ Z.sub). intros. cbn [bin_sem]. by rewrite wrap_sub_l, wrap_sub_r. Qed.
Lemma mul_32 : op_ok Mul 32 (fun a b => sext32 (a * b)).
Proof. apply (op_32 _ Z.mul). intros. cbn [bin_sem]. by rewrite wrap_mul_l, wrap_mul_r. Qed.

(** Shifts by less than the width. *)
Lemma shift_sem op w a k :
  0 <= k < w -> bin_sem op w a k = match op with
    | Shl => Some (wrap w (a * 2 ^ k)) | LShr => Some (a / 2 ^ k) | AShr => Some (wrap w (swrap w a / 2 ^ k)) | _ => bin_sem op w a k end.
Proof.
  intros Hk. destruct op; try done; cbn [bin_sem]; rewrite (proj2 (Z.leb_gt w k)) by lia;
    by rewrite ?Z.shiftl_mul_pow2, ?Z.shiftr_div_pow2 by lia.
Qed.

Lemma amount_64 b : in_u 64 b -> wrap 64 b `mod` 64 = b `mod` 64.
Proof. intros. by rewrite wrap_small. Qed.
Lemma amount_32 b : wrap 32 b `mod` 32 = b `mod` 32.
Proof. unfold wrap. apply Z.mod_mod_divide. by exists (2 ^ 27). Qed.

Lemma div_pow_range w a k : 0 <= k -> in_u w a -> in_u w (a / 2 ^ k).
Proof.
  intros Hk [Ha0 Ha]. pose proof (Z.pow_pos_nonneg 2 k). split; [apply Z.div_pos; lia|].
  apply Z.le_lt_trans with a; [|done]. apply Z.div_le_upper_bound; nia.
Qed.

Lemma sll_64 : shift_ok Shl 64 (fun a b => u64 (a * 2 ^ (b `mod` 64))).
Proof.
  intros a b Ha Hb. rewrite amount_64, shift_sem, wrap_mul_l by (done || apply Z.mod_pos_bound; lia). eexists. split; [done|].
  apply sext_64, wrap_range. lia.
Qed.
Lemma srl_64 : shift_ok LShr 64 (fun a b => a / 2 ^ (b `mod` 64)).
Proof.
  intros a b Ha Hb. rewrite amount_64, shift_sem, wrap_small by (done || apply Z.mod_pos_bound; lia). eexists. split; [done|].
  apply sext_64, div_pow_range; [apply Z.mod_pos_bound; lia|done].
Qed.
Lemma sra_64 : shift_ok AShr 64 (fun a b => u64 (s64 a / 2 ^ (b `mod` 64))).
Proof.
  intros a b Ha Hb. rewrite amount_64, shift_sem, (wrap_small 64 a) by (done || apply Z.mod_pos_bound; lia). eexists. split; [done|].
  apply sext_64, wrap_range. lia.
Qed.
Lemma sll_32 : shift_ok Shl 32 (fun a b => sext32 (a * 2 ^ (b `mod` 32))).
Proof.
  intros a b _ _. rewrite amount_32, shift_sem, wrap_mul_l by (apply Z.mod_pos_bound; lia). eexists. split; [done|]. apply u64_s32_wrap.
Qed.
Lemma srl_32 : shift_ok LShr 32 (fun a b => sext32 (u32 a / 2 ^ (b `mod` 32))).
Proof. intros a b _ _. rewrite amount_32, shift_sem by (apply Z.mod_pos_bound; lia). by eexists. Qed.
Lemma sra_32 : shift_ok AShr 32 (fun a b => sext32 (s32 a / 2 ^ (b `mod` 32))).
Proof.
  intros a b _ _. rewrite amount_32, shift_sem, swrap_wrap by (apply Z.mod_pos_bound; lia). eexists. split; [done|]. apply u64_s32_wrap.
Qed.

(** ** Division *)

(** The quotient by minus one is the dividend only where that is its own negative. *)
Definition alu_exact (m a b : Z) : Prop :=
  (m = FRV_DIV -> s64 b = -1 -> u64 a = u64 (- a)) /\ (m = FRV_DIVW -> s32 b = -1 -> u32 a = u32 (- a)).

Lemma swrap_zero w b : 0 < w -> in_u w b -> (swrap w b =? 0) = (b =? 0).
Proof.
  intros Hw Hb. destruct (Z.eqb_spec b 0) as [->|Hne].
  - rewrite swrap_small; [done|done|]. unfold in_s. pose proof (Z.pow_pos_nonneg 2 (w - 1)). lia.
  - apply Z.eqb_neq. intros E. apply Hne. by rewrite <- (wrap_small w b), <- wrap_swrap, E by done.
Qed.

Lemma divrem_signed op w a b :
  0 < w -> in_u w a -> in_u w b -> (op = SDiv -> swrap w b = -1 -> a = wrap w (- a)) -> op = SDiv \/ op = SRem ->
  wrap w (divrem_res op w a b) =
  wrap w (match op with SDiv => div_by (swrap w a) (swrap w b) | _ => rem_by (swrap w a) (swrap w b) end).
Proof.
  intros Hw Ha Hb Hx Hop. unfold divrem_res, div_by, rem_by. rewrite swrap_zero by done.
  destruct (Z.eqb_spec b 0) as [->|Hnz]; [destruct Hop as [-> | ->]; [by rewrite wrap_wrap by lia|by rewrite wrap_swrap]|].
  destruct (Z.eqb_spec b (wrap w (-1))) as [E|Hne].
  - apply minus_one in E; [|done..]. rewrite E. destruct Hop as [-> | ->].
    + replace (Z.quot (swrap w a) (-1)) with (0 - swrap w a) by (change (-1) with (- (1)); rewrite Z.quot_opp_r, Z.quot_1_r; lia).
      rewrite <- wrap_sub_r, wrap_swrap, wrap_sub_r. rewrite (Hx eq_refl E) at 1. by rewrite wrap_wrap by lia.
    + change (-1) with (- (1)). by rewrite Z.rem_opp_r, Z.rem_1_r by lia.
  - by destruct Hop as [-> | ->]; rewrite wrap_wrap by lia.
Qed.

Lemma div_64 a b : in_u 64 a -> in_u 64 b -> alu_exact FRV_DIV a b -> u64 (s64 (divrem_res SDiv 64 (u64 a) (u64 b))) = u64 (div_by (s64 a) (s64 b)).
Proof.
  intros Ha Hb [Hx _]. rewrite wrap_swrap, !(wrap_small 64 a), !(wrap_small 64 b) by done. apply (divrem_signed SDiv 64); try done; [|by left].
  intros _ E. rewrite <- (Hx eq_refl E). by rewrite wrap_small.
Qed.
Lemma rem_64 a b : in_u 64 a -> in_u 64 b -> u64 (s64 (divrem_res SRem 64 (u64 a) (u64 b))) = u64 (rem_by (s64 a) (s64 b)).
Proof. intros Ha Hb. rewrite wrap_swrap, !(wrap_small 64 a), !(wrap_small 64 b) by done. by apply (divrem_signed SRem 64); [..|right]. Qed.

Lemma sext_s32 x y : u32 x = u32 y -> u64 (s32 x) = sext32 y.
Proof. intros E. unfold sext32. by rewrite <- (swrap_wrap 32 x), E, swrap_wrap. Qed.

Lemma div_32 a b : alu_exact FRV_DIVW a b -> u64 (s32 (divrem_res SDiv 32 (u32 a) (u32 b))) = sext32 (div_by (s32 a) (s32 b)).
Proof.
  intros [_ Hx]. apply sext_s32. rewrite (divrem_signed SDiv 32), !swrap_wrap; try done; try (apply wrap_range; lia); [|by left].
  intros _ E. rewrite swrap_wrap in E. replace (- u32 a) with (0 - u32 a) by lia. rewrite wrap_sub_r. exact (Hx eq_refl E).
Qed.
Lemma rem_32 a b : u64 (s32 (divrem_res SRem 32 (u32 a) (u32 b))) = sext32 (rem_by (s32 a) (s32 b)).
Proof. apply sext_s32. rewrite (divrem_signed SRem 32), !swrap_wrap; try done; try (apply wrap_range; lia). by right. Qed.

Lemma divrem_unsigned op w a b :
  0 < w -> in_u w a -> in_u w b -> op = UDiv \/ op = URem ->
  wrap w (divrem_res op w a b) = wrap w (match op with UDiv => div_by a b | _ => rem_by a b end).
Proof.
  intros Hw Ha Hb Hop. unfold in_u, divrem_res, div_by, rem_by in *.
  destruct (Z.eqb_spec b 0); destruct Hop as [-> | ->]; try done; [by rewrite wrap_wrap by lia| |].
  - by rewrite Z.quot_div_nonneg by lia.
  - by rewrite Z.rem_mod_nonneg by lia.
Qed.

Lemma divu_64 a b : in_u 64 a -> in_u 64 b -> u64 (s64 (divrem_res UDiv 64 (u64 a) (u64 b))) = u64 (div_by a b).
Proof. intros Ha Hb. rewrite wrap_swrap, !(wrap_small 64 a), !(wrap_small 64 b) by done. by apply (divrem_unsigned UDiv 64); [..|left]. Qed.
Lemma remu_64 a b : in_u 64 a -> in_u 64 b -> u64 (s64 (divrem_res URem 64 (u64 a) (u64 b))) = rem_by a b.
Proof.
  intros Ha Hb. rewrite wrap_swrap, !(wrap_small 64 a), !(wrap_small 64 b), (divrem_unsigned URem 64) by (done || by right).
  apply wrap_small. unfold rem_by. destruct (Z.eqb_spec b 0); [done|]. unfold in_u in *. rewrite Z.rem_mod_nonneg by lia.
  pose proof (Z.mod_pos_bound a b). lia.
Qed.
Lemma divu_32 a b : u64 (s32 (divrem_res UDiv 32 (u32 a) (u32 b))) = sext32 (div_by (u32 a) (u32 b)).
Proof. apply sext_s32. apply (divrem_unsigned UDiv 32); [done|apply wrap_range; lia..|by left]. Qed.
Lemma remu_32 a b : u64 (s32 (divrem_res URem 32 (u32 a) (u32 b))) = sext32 (rem_by (u32 a) (u32 b)).
Proof. apply sext_s32. apply (divrem_unsigned URem 32); [done|apply wrap_range; lia..|by right]. Qed.

(** ** The tables *)

Section Tables.
Context (fp : FpSem) (fi : FunctionInfo) (cfg : LLConfig) (cpu0 : Cpu) (ret0 : bool) (Hbase : base_ok fi cfg).
Local Abbreviation refines := (refines cpu0 ret0).

(** The lifter has an entry for the mnemonic, whose code takes [h] to [post i h]. *)
Definition lifts (m : Z) (pre : FrvInst -> Hart -> Prop) (post : FrvInst -> Hart -> Hart) : Prop :=
  exists body, assocZ m (op_table fp cfg) = Some body /\
  forall i s h, refines s h -> pre i h -> wp (body i) s (fun _ s' => refines s' (post i h)).

Definition alu_pre (m : Z) (i : FrvInst) (h : Hart) : Prop := regs3 i /\ alu_exact m (xr h (rs1 i)) (xr h (rs2 i)).
Definition alu_post (g : Z -> Z -> Z) (i : FrvInst) (h : Hart) : Hart := set_x h (rd i) (g (xr h (rs1 i)) (xr h (rs2 i))).


Lemma op_R s h i op f w g :
  int_facet f = Some w -> op_ok op w g -> refines s h -> regs3 i -> wp (LiftBinOpR i op f) s (fun _ s' => refines s' (alu_post g i h)).
Proof.
  intros Hf Hop Hs Hr. destruct (Hop (xr h (rs1 i)) (xr h (rs2 i))) as (r & E & Ez);
    [eapply xr_range; [exact Hs|apply Hr]..|]. by eapply (wp_BinOpR _ _ s h i op f w r).
Qed.

Lemma shift_R s h i op f w g :
  (f = FI64 /\ w = 64) \/ (f = FI32 /\ w = 32) -> shift_ok op w g -> refines s h -> regs3 i ->
  wp (b ← LoadGp (rs2 i) f; LiftShift i op b) s (fun _ s' => refines s' (alu_post g i h)).
Proof.
  intros Hf Hop Hs Hr. destruct (Hop (xr h (rs1 i)) (xr h (rs2 i))) as (r & E & Ez);
    [eapply xr_range; [exact Hs|apply Hr]..|]. by eapply (wp_ShiftR _ _ s h i op f w r).
Qed.

Lemma slt_R s h i p :
  refines s h -> regs3 i ->
  wp (LiftSlt i p (LoadGp (rs2 i) FI64)) s (fun _ s' => refines s' (alu_post (fun a b => Z.b2z (icmp_sem p 64 a b)) i h)).
Proof.
  intros Hs Hr. eapply (wp_Slt _ _ s h i p _ (xr h (rs2 i))); [done|apply Hr| |done].
  intros s1 Q Hs1. by apply (wp_LoadGp _ _ s1 h); [|apply Hr|].
Qed.

Definition imm_post (g : Z -> Z -> Z) (i : FrvInst) (h : Hart) : Hart := set_x h (rd i) (g (xr h (rs1 i)) (opd2 i)).

Lemma opd2_wrap i w : 0 <= w <= 64 -> wrap w (opd2 i) = wrap w (imm i).
Proof. apply wrap_wrap_le. Qed.
Lemma opd2_range i : in_u 64 (opd2 i).
Proof. apply wrap_range. lia. Qed.

Lemma op_I s h i op f w g :
  int_facet f = Some w -> op_ok op w g -> refines s h -> regs2 i -> wp (LiftBinOpI i op f) s (fun _ s' => refines s' (imm_post g i h)).
Proof.
  intros Hf Hop Hs Hr. destruct (Hop (xr h (rs1 i)) (opd2 i)) as (r & E & Ez);
    [eapply xr_range; [exact Hs|apply Hr]|apply opd2_range|]. pose proof (int_facet_width _ _ Hf).
  rewrite opd2_wrap in E by lia. by eapply (wp_BinOpI _ _ s h i op f w r).
Qed.

Lemma shift_I s h i op w g :
  w = 64 \/ w = 32 -> shift_ok op w g -> refines s h -> regs2 i ->
  wp (LiftShift i op (getIntN w (imm i))) s (fun _ s' => refines s' (imm_post g i h)).
Proof.
  intros Hw Hop Hs Hr. destruct (Hop (xr h (rs1 i)) (opd2 i)) as (r & E & Ez);
    [eapply xr_range; [exact Hs|apply Hr]|apply opd2_range|].
  rewrite opd2_wrap in E by lia. eapply (wp_Shift _ _ s h i op w); [done..|apply is_val_intN|apply wrap_range; lia|exact E|done].
Qed.

Lemma slt_I s h i p :
  refines s h -> regs2 i ->
  wp (LiftSlt i p (mret (getInt64 (imm i)))) s (fun _ s' => refines s' (imm_post (fun a b => Z.b2z (icmp_sem p 64 a b)) i h)).
Proof. intros Hs Hr. eapply (wp_Slt _ _ s h i p _ (opd2 i)); [done|done| |done]. intros s1 Q Hs1 HQ. by apply wp_ret, HQ. Qed.

Lemma mulhu_range a b : in_u 64 a -> in_u 64 b -> u64 (a * b / 2 ^ 64) = a * b / 2 ^ 64.
Proof. intros Ha Hb. apply wrap_small. unfold in_u in *. split; [apply Z.div_pos; nia|]. apply Z.div_lt_upper_bound; nia. Qed.

Lemma mulhu_R s h i :
  refines s h -> regs3 i -> wp (LiftMulh i ZExt ZExt) s (fun _ s' => refines s' (alu_post (fun a b => a * b / 2 ^ 64) i h)).
Proof.
  intros Hs Hr. pose proof (wp_Mulh _ _ s h i false false Hs Hr) as Hm. cbn [ext_of] in Hm.
  rewrite mulhu_range in Hm; [done|eapply xr_range; [exact Hs|apply Hr]..].
Qed.

Create HintDb rv.
#[local] Hint Resolve add_64 sub_64 mul_64 and_64 or_64 xor_64 add_32 sub_32 mul_32 sll_64 srl_64 sra_64 sll_32 srl_32 sra_32 : rv.

Lemma lift_alu m g body :
  assocZ m (op_table fp cfg) = Some body ->
  (forall i s h, refines s h -> regs3 i -> wp (body i) s (fun _ s' => refines s' (alu_post g i h))) -> lifts m (alu_pre m) (alu_post g).
Proof. intros E H. exists body. split; [done|]. intros i s h Hs [Hr _]. by apply H. Qed.

Lemma lift_div m op f w g :
  assocZ m (op_table fp cfg) = Some (fun r => LiftDivRem r op f) -> int_facet f = Some w -> is_divrem op = true ->
  (forall a b, in_u 64 a -> in_u 64 b -> alu_exact m a b -> u64 (swrap w (divrem_res op w (wrap w a) (wrap w b))) = g a b) ->
  lifts m (alu_pre m) (alu_post g).
Proof.
  intros E Hf Hop Hg. eexists. split; [exact E|]. intros i s h Hs [Hr Hx]. unfold alu_post.
  rewrite <- Hg; [by apply wp_DivRem|eapply xr_range; [exact Hs|apply Hr]..|done].
Qed.

(** Every operation of the manual's table between registers is lifted, and computes what it should. *)
Lemma alu_lifted : Forall (fun e => lifts e.1 (alu_pre e.1) (alu_post e.2)) alu_table.
Proof.
  do 20 (apply Forall_cons; split; [eapply lift_alu; [reflexivity|]; intros i s h Hs Hr; cbv beta;
    first [solve [eapply op_R; eauto with rv] | solve [eapply shift_R; eauto with rv] | solve [by apply slt_R]
    | by apply (wp_Mulh _ _ s h i true true) | by apply (wp_Mulh _ _ s h i true false) | by apply mulhu_R]|]).
  do 8 (apply Forall_cons; split; [eapply lift_div; [reflexivity..|]; intros a b Ha Hb Hx; cbv beta;
    first [by apply div_64 | by apply divu_64 | by apply rem_64 | by apply remu_64 | by apply div_32 | apply divu_32 | apply rem_32 | apply remu_32]|]).
  constructor.
Qed.

Lemma imm_lifted :
  Forall (fun e => exists g, assocZ e.2 alu_table = Some g /\ lifts e.1 (fun i _ => regs2 i) (imm_post g)) alu_imm_table.
Proof.
  repeat (apply Forall_cons; split; [eexists; split; [reflexivity|]; eexists; split; [reflexivity|]; intros i s h Hs Hr; cbv beta;
    lazymatch goal with
    | |- wp (LiftBinOpI _ _ _) _ _ => eapply op_I; eauto with rv
    | |- wp (LiftShift _ _ (getInt64 _)) _ _ => eapply (shift_I _ _ _ _ 64); eauto with rv
    | |- wp (LiftShift _ _ (getInt32 _)) _ _ => eapply (shift_I _ _ _ _ 32); eauto with rv
    | |- wp (LiftSlt _ _ _) _ _ => by apply slt_I
    end|]).
  constructor.
Qed.

Definition load_post (e : nat * bool) (i : FrvInst) (h : Hart) : Hart :=
  let v := loadZ (hmem h) e.1 (ea i h) in set_x h (rd i) (if e.2 then u64 (swrap (8 * Z.of_nat e.1) v) else v).

Lemma load_lifted : Forall (fun e => lifts e.1 (fun i _ => regs2 i) (load_post e.2)) load_table.
Proof.
  repeat (apply Forall_cons; split; [eexists; split; [reflexivity|]; intros i s h Hs Hr; cbv beta;
    first [by eapply (wp_Load fi cfg _ _ Hbase s h i true) | by eapply (wp_Load fi cfg _ _ Hbase s h i false)]|]).
  constructor.
Qed.

Definition store_post (n : nat) (i : FrvInst) (h : Hart) : Hart :=
  set_hmem h (storeZ (hmem h) n (ea i h) (wrap (8 * Z.of_nat n) (xr h (rs2 i)))).

Lemma store_lifted : Forall (fun e => lifts e.1 (fun i _ => 0 <= rs1 i < 32 /\ 0 <= rs2 i < 32) (store_post e.2)) store_table.
Proof.
  repeat (apply Forall_cons; split; [eexists; split; [reflexivity|]; intros i s h Hs [H1 H2]; cbv beta;
    by eapply (wp_Store fi cfg _ _ Hbase s h i)|]).
  constructor.
Qed.

Lemma branch_lifted : Forall (fun e => exists p, assocZ e.1 branch_table = Some p /\ icmp_sem p 64 = e.2) cond_table.
Proof. repeat (apply Forall_cons; split; [by eexists; split|]). constructor. Qed.

(** The read-modify-write operations of LLVM and of the manual agree. *)
Lemma rmw_max w a b : 0 < w -> in_u w a -> in_u w b -> (if swrap w b <? swrap w a then a else b) = wrap w (Z.max (swrap w a) (swrap w b)).
Proof.
  intros Hw Ha Hb. destruct (Z.ltb_spec (swrap w b) (swrap w a)).
  - rewrite Z.max_l, wrap_swrap, wrap_small by (done || lia). done.
  - rewrite Z.max_r, wrap_swrap, wrap_small by (done || lia). done.
Qed.
Lemma rmw_min w a b : 0 < w -> in_u w a -> in_u w b -> (if swrap w a <? swrap w b then a else b) = wrap w (Z.min (swrap w a) (swrap w b)).
Proof.
  intros Hw Ha Hb. destruct (Z.ltb_spec (swrap w a) (swrap w b)).
  - rewrite Z.min_l, wrap_swrap, wrap_small by (done || lia). done.
  - rewrite Z.min_r, wrap_swrap, wrap_small by (done || lia). done.
Qed.

Definition rmw_ops : list RmwOp := [RXchg; RAdd; RAnd; ROr; RXor; RMax; RUMax; RMin; RUMin].

Lemma rmw_agree n : (0 < n)%nat ->
  Forall2 (fun op g => forall a b, in_u (8 * Z.of_nat n) a -> in_u (8 * Z.of_nat n) b -> rmw_sem op (8 * Z.of_nat n) a b = g a b) rmw_ops (amo_ops n).
Proof.
  intros Hn. repeat (apply Forall2_cons; split; [intros a b Ha Hb; cbn [rmw_sem]|]); try done; try (by apply rmw_max; [lia|..]); try (by apply rmw_min; [lia|..]).
  - destruct (Z.ltb_spec b a); lia.
  - destruct (Z.ltb_spec a b); lia.
Qed.

Definition amo_post (e : nat * (Z -> Z -> Z)) (i : FrvInst) (h : Hart) : Hart :=
  let w := 8 * Z.of_nat e.1 in
  let old := loadZ (hmem h) e.1 (xr h (rs1 i)) in
  set_x (set_hmem h (storeZ (hmem h) e.1 (xr h (rs1 i)) (e.2 old (wrap w (xr h (rs2 i)))))) (rd i) (u64 (swrap w old)).

Definition amo_pre (i : FrvInst) (_ : Hart) : Prop := regs3 i /\ 0 <= imm i < 4.

Lemma lift_amo m op f n g :
  assocZ m (op_table fp cfg) = Some (fun r => LiftAmo r op f) -> int_facet f = Some (8 * Z.of_nat n) ->
  (forall a b, in_u (8 * Z.of_nat n) a -> in_u (8 * Z.of_nat n) b -> rmw_sem op (8 * Z.of_nat n) a b = g a b) ->
  lifts m amo_pre (amo_post (n, g)).
Proof.
  intros E Hf Hg. eexists. split; [exact E|]. intros i s h Hs [Hr Hi]. unfold amo_post. cbn [fst snd].
  rewrite <- Hg; [|apply loadZ_range, (r_memok _ _ _ _ Hs)|apply wrap_range; lia].
  apply (wp_Amo _ _ s h i op f); [done..|]. rewrite Z.mul_comm, Z.div_mul by lia. by rewrite Nat2Z.id.
Qed.

Lemma amo_lifted : Forall (fun e => lifts e.1 amo_pre (amo_post e.2)) isa_amo_table.
Proof.
  pose proof (rmw_agree 4 ltac:(lia)) as H4. pose proof (rmw_agree 8 ltac:(lia)) as H8.
  unfold rmw_ops, amo_ops in H4, H8. repeat match goal with H : Forall2 _ (_ :: _) (_ :: _) |- _ => apply Forall2_cons_1 in H as [? H] end.
  unfold isa_amo_table, amo_ops. cbn [zip zip_with fmap list_fmap app].
  repeat (apply Forall_cons; split; [eapply lift_amo; [reflexivity|reflexivity|eassumption]|]). constructor.
Qed.

(** Instructions without a table of their own. *)

Lemma lrw_lifted : lifts FRV_LRW (fun i _ => regs2 i) (fun i h => set_x h (rd i) (sext32 (loadZ (hmem h) 4 (xr h (rs1 i))))).
Proof.
  eexists. split; [reflexivity|]. intros i s h Hs [Hd H1]. cbv beta.
  apply wp_bind, (wp_LoadPtr cpu0 ret0 s h); [done..|]. intros p s1 Hs1 Hp.
  apply wp_bind, (wp_load cpu0 ret0 s1 h (TInt 32) _ _ _ Hs1 Hp). intros v Hv.
  eapply (wp_StoreGp _ _ s1 h _ 32); [done|done|lia| |exact Hv|done]. apply (loadZ_range _ 4), (r_memok _ _ _ _ Hs).
Qed.

Lemma fmvxd_lifted : lifts FRV_FMVXD (fun i _ => regs2 i) (fun i h => set_x h (rd i) (hf h (rs1 i))).
Proof.
  eexists. split; [reflexivity|]. intros i s h Hs [Hd H1]. cbv beta. pose proof (r_f _ _ _ _ Hs _ H1) as Hf.
  apply wp_bind, (wp_get_fp cpu0 ret0 s h _ FF64 TDouble); [done|done|rewrite !elem_of_cons; auto|done|]. intros a s1 Hs1 Ha.
  apply wp_bind, (wp_bitcast TDouble (TInt 64) _ _ _ _ ltac:(done) ltac:(done) Ha). intros v Hv. cbn [ty_bits] in Hv. rewrite wrap_small in Hv by done.
  eapply (wp_StoreGp _ _ s1 h _ 64); [done|done|lia|exact Hf|exact Hv|]. intros s' Hs'. by rewrite sext_64 in Hs'.
Qed.

Lemma fmvxw_lifted : lifts FRV_FMVXW (fun i _ => regs2 i) (fun i h => set_x h (rd i) (sext32 (hf h (rs1 i)))).
Proof.
  eexists. split; [reflexivity|]. intros i s h Hs [Hd H1]. cbv beta.
  apply wp_bind, (wp_get_fp cpu0 ret0 s h _ FF32 TFloat); [done|done|rewrite !elem_of_cons; auto|done|]. intros a s1 Hs1 Ha.
  apply wp_bind, (wp_bitcast TFloat (TInt 32) _ _ _ _ ltac:(done) ltac:(done) Ha). intros v Hv. cbn [ty_bits] in Hv.
  eapply (wp_StoreGp _ _ s1 h _ 32); [done|done|lia|apply wrap_range; lia|exact Hv|]. intros s' Hs'. by rewrite u64_s32_wrap in Hs'.
Qed.

Lemma fmvdx_lifted : lifts FRV_FMVDX (fun i _ => regs2 i) (fun i h => set_f h (rd i) (xr h (rs1 i))).
Proof.
  eexists. split; [reflexivity|]. intros i s h Hs [Hd H1]. cbv beta.
  apply wp_bind, (wp_LoadGp cpu0 ret0 s h _ FI64 (TInt 64) (xr h (rs1 i))); [done..|]. intros a s1 Hs1 Ha.
  apply wp_bind, (wp_bitcast (TInt 64) TDouble _ _ _ _ ltac:(done) ltac:(done) Ha). intros v Hv.
  eapply (wp_StoreFp _ _ s1 h _ TDouble); [done|done|rewrite !elem_of_cons; auto|exact Hv|by eapply xr_range|done].
Qed.

Definition fp_mem_pre (i : FrvInst) (_ : Hart) : Prop := 0 <= rs1 i < 32 /\ 0 <= rs2 i < 32.

Lemma fsd_lifted : lifts FRV_FSD fp_mem_pre (fun i h => set_hmem h (storeZ (hmem h) 8 (ea i h) (hf h (rs2 i)))).
Proof.
  eexists. split; [reflexivity|]. intros i s h Hs [H1 H2]. cbv beta.
  pose proof (wp_StoreFpMem fi cfg _ _ Hbase s h i FF64 TDouble 8 Hs H1 H2) as Hm. cbn [ty_bits] in Hm. rewrite (wrap_small 64) in Hm by apply (r_f _ _ _ _ Hs _ H2).
  apply Hm. rewrite !elem_of_cons. auto.
Qed.

Lemma fsw_lifted : lifts FRV_FSW fp_mem_pre (fun i h => set_hmem h (storeZ (hmem h) 4 (ea i h) (u32 (hf h (rs2 i))))).
Proof.
  eexists. split; [reflexivity|]. intros i s h Hs [H1 H2]. cbv beta.
  apply (wp_StoreFpMem fi cfg _ _ Hbase s h i FF32 TFloat 4 Hs H1 H2). rewrite !elem_of_cons. auto.
Qed.

Lemma fld_lifted : lifts FRV_FLD (fun i _ => regs2 i) (fun i h => set_f h (rd i) (loadZ (hmem h) 8 (ea i h))).
Proof. eexists. split; [reflexivity|]. intros i s h Hs [Hd H1]. cbv beta. by eapply (wp_LoadFp64 fi cfg _ _ Hbase). Qed.

Lemma fence_lifted : lifts FRV_FENCE (fun _ _ => True) (fun _ h => h).
Proof. eexists. split; [reflexivity|]. intros i s h Hs _. by apply wp_ret. Qed.
End Tables.
