(* ===== verification/RellumeRv64Step.v ===== *)
(** * A lifted instruction refines the instruction

    The theorem over the switch of the RISC-V lifter, from the tables of
    [RellumeRv64Refine], and the two places where the lifted code differs from
    the manual. *)

From Stdlib Require Import ZArith Lia.
From stdpp Require Import base numbers list option gmap.
From S2P Require Import Prelude Machine Frvdec FrvIsa RvSem Rellume RellumeRv64 RellumeProofs RellumeRv64Proofs RellumeRv64Refine.

(** ** Well-formed operands *)

Definition fmt_of (m : Z) : option Fmt := r_fmt <$> row_of m.

Lemma fmts_alu : Forall (fun e => fmt_of e.1 = Some FR) alu_table.
Proof. repeat (apply Forall_cons; split; [reflexivity|]). constructor. Qed.
Lemma fmts_imm : Forall (fun e => fmt_of e.1 = Some FrvIsa.FI \/ fmt_of e.1 = Some FSh) alu_imm_table.
Proof. repeat (apply Forall_cons; split; [(left; reflexivity) || (right; reflexivity)|]). constructor. Qed.
Lemma fmts_load : Forall (fun e => fmt_of e.1 = Some FrvIsa.FI) load_table.
Proof. repeat (apply Forall_cons; split; [reflexivity|]). constructor. Qed.
Lemma fmts_store : Forall (fun e => fmt_of e.1 = Some FS) store_table.
Proof. repeat (apply Forall_cons; split; [reflexivity|]). constructor. Qed.
Lemma fmts_cond : Forall (fun e => fmt_of e.1 = Some FB) cond_table.
Proof. repeat (apply Forall_cons; split; [reflexivity|]). constructor. Qed.
Lemma fmts_amo : Forall (fun e => fmt_of e.1 = Some FAmo) isa_amo_table.
Proof. repeat (apply Forall_cons; split; [reflexivity|]). constructor. Qed.

Lemma inst_fmt i f : inst_ok i -> fmt_of (mnem i) = Some f -> operands_ok f i.
Proof. intros (r & E & Hops) Hf. unfold fmt_of in Hf. rewrite E in Hf. by injection Hf as <-. Qed.

Ltac operands H := destruct H as (Od & O1 & O2 & O3 & Oi & Om); cbn in Od, O1, O2, O3, Oi.

(** ** The switch *)

(** Mnemonics the switch looks up in the tables. *)
Definition in_tables (m : Z) : bool :=
  negb ((m =? FRV_JAL) || (m =? FRV_JALR) || (m =? FRV_ECALL) || (m =? FRV_LUI) || (m =? FRV_AUIPC) || existsb (Z.eqb m) csr_mnems) &&
  match assocZ m branch_table with Some _ => false | None => true end.

(** Where the lifted code does what the manual says: not in a signed division by
    minus one, and not at a [jalr] to an odd address. *)
Definition exact (i : FrvInst) (h : Hart) : Prop :=
  alu_exact (mnem i) (xr h (rs1 i)) (xr h (rs2 i)) /\ (mnem i = FRV_JALR -> ea i h `mod` 2 = 0).

Section Step.
Context (fp : FpSem) (fi : FunctionInfo) (cfg : LLConfig) (cpu0 : Cpu) (ret0 : bool) (Hbase : base_ok fi cfg).
Local Abbreviation refines := (refines cpu0 ret0).
Local Abbreviation done_at h := (fun (ok : bool) s' => ok = true /\ refines s' h).

Lemma wp_fall_through inst body s h h' :
  hpc h' = u64 (i_start inst) -> wp body s (fun _ s' => refines s' h) ->
  wp (fall_through fi inst body) s (done_at (set_pc h (u64 (hpc h' + i_len inst)))).
Proof.
  intros Hpc Hb. apply wp_bind. eapply wp_mono; [exact Hb|]. intros [] s' Hs'.
  apply wp_bind. eapply (wp_SetIP fi cfg cpu0 ret0 Hbase s' h); [done|]. intros s'' Hs''. apply wp_ret. split; [done|]. by rewrite Hpc, wrap_add_l.
Qed.

Lemma lift_table inst s h pre post :
  in_tables (mnem (i_rv inst)) = true -> lifts fp cfg cpu0 ret0 (mnem (i_rv inst)) pre post ->
  refines s h -> hpc h = u64 (i_start inst) -> pre (i_rv inst) h ->
  wp (lift_mnem fp fi cfg inst) s (done_at (next (i_len inst) h (post (i_rv inst) h))).
Proof.
  intros Ht (body & E & Hb) Hs Hpc Hpre. unfold in_tables in Ht. apply andb_true_iff in Ht as [Hn Hbr].
  apply negb_true_iff in Hn. rewrite !orb_false_iff in Hn. destruct Hn as [[[[[N1 N2] N3] N4] N5] N6].
  unfold lift_mnem. rewrite N1, N2, N3, N4, N5, N6, E. cbn [orb]. destruct (assocZ _ branch_table); [done|].
  apply wp_fall_through; [done|]. by apply Hb.
Qed.

Lemma all_in_tables {A} (l : list (Z * A)) m a : forallb (fun e => in_tables e.1) l = true -> assocZ m l = Some a -> in_tables m = true.
Proof.
  intros Hl. apply (assocZ_Forall (fun e => in_tables e.1 = true)). apply Forall_forall. intros e He. rewrite forallb_forall in Hl.
  apply Hl. by apply list_elem_of_In.
Qed.

Context (inst : Instr) (s : LState) (h h' : Hart) (Hs : refines s h) (Hpc : hpc h = u64 (i_start inst)) (Hok : inst_ok (i_rv inst)).
Local Abbreviation i := (i_rv inst).
Local Abbreviation refined := (wp (lift_mnem fp fi cfg inst) s (done_at h')).

Lemma step_alu : alu_exact (mnem i) (xr h (rs1 i)) (xr h (rs2 i)) -> exec_alu i (i_len inst) h = Some h' -> refined.
Proof.
  intros Hx E. unfold exec_alu in E. destruct (assocZ _ _) as [g|] eqn:Ea; [|done]. injection E as <-.
  pose proof (assocZ_Forall _ _ _ _ (alu_lifted fp cfg cpu0 ret0) Ea) as Hl. pose proof (assocZ_Forall _ _ _ _ fmts_alu Ea) as Hf.
  apply (lift_table inst s h _ _ (all_in_tables alu_table _ _ eq_refl Ea) Hl Hs Hpc). pose proof (inst_fmt _ _ Hok Hf) as Ho. by operands Ho.
Qed.

Lemma step_imm : exec_imm i (i_len inst) h = Some h' -> refined.
Proof.
  intros E. unfold exec_imm in E. destruct (assocZ (mnem i) alu_imm_table) as [m|] eqn:Ea; [|done]. cbn [mbind option_bind] in E.
  destruct (assocZ_Forall _ _ _ _ (imm_lifted fp cfg cpu0 ret0) Ea) as (g & Eg & Hl). cbn [snd] in Eg. rewrite Eg in E. injection E as <-.
  apply (lift_table inst s h _ _ (all_in_tables alu_imm_table _ _ eq_refl Ea) Hl Hs Hpc).
  destruct (assocZ_Forall _ _ _ _ fmts_imm Ea) as [Hf|Hf]; pose proof (inst_fmt _ _ Hok Hf) as Ho; by operands Ho.
Qed.

Lemma step_load : exec_load i (i_len inst) h = Some h' -> refined.
Proof.
  intros E. unfold exec_load in E. destruct (assocZ _ _) as [[n sg]|] eqn:Ea; [|done]. injection E as <-.
  pose proof (assocZ_Forall _ _ _ _ (load_lifted fp fi cfg cpu0 ret0 Hbase) Ea) as Hl. pose proof (assocZ_Forall _ _ _ _ fmts_load Ea) as Hf.
  apply (lift_table inst s h _ _ (all_in_tables load_table _ _ eq_refl Ea) Hl Hs Hpc). pose proof (inst_fmt _ _ Hok Hf) as Ho. by operands Ho.
Qed.

Lemma step_store : exec_store i (i_len inst) h = Some h' -> refined.
Proof.
  intros E. unfold exec_store in E. destruct (assocZ _ _) as [n|] eqn:Ea; [|done]. injection E as <-.
  pose proof (assocZ_Forall _ _ _ _ (store_lifted fp fi cfg cpu0 ret0 Hbase) Ea) as Hl. pose proof (assocZ_Forall _ _ _ _ fmts_store Ea) as Hf.
  apply (lift_table inst s h _ _ (all_in_tables store_table _ _ eq_refl Ea) Hl Hs Hpc). pose proof (inst_fmt _ _ Hok Hf) as Ho. by operands Ho.
Qed.

Lemma step_amo : exec_amo i (i_len inst) h = Some h' -> refined.
Proof.
  intros E. unfold exec_amo in E. destruct (assocZ _ _) as [[n g]|] eqn:Ea; [|done]. injection E as <-.
  pose proof (assocZ_Forall _ _ _ _ (amo_lifted fp cfg cpu0 ret0) Ea) as Hl. pose proof (assocZ_Forall _ _ _ _ fmts_amo Ea) as Hf.
  apply (lift_table inst s h _ _ (all_in_tables isa_amo_table _ _ eq_refl Ea) Hl Hs Hpc). pose proof (inst_fmt _ _ Hok Hf) as Ho. by operands Ho.
Qed.

Lemma no_jumps : Forall (fun e => (e.1 =? FRV_JAL) || (e.1 =? FRV_JALR) = false) cond_table.
Proof. repeat (apply Forall_cons; split; [reflexivity|]). constructor. Qed.

Lemma step_branch : exec_branch i (i_len inst) h = Some h' -> refined.
Proof.
  intros E. unfold exec_branch in E. destruct (assocZ _ _) as [c|] eqn:Ea; [|done]. injection E as <-.
  destruct (assocZ_Forall _ _ _ _ branch_lifted Ea) as (p & Ep & Hc). pose proof (assocZ_Forall _ _ _ _ fmts_cond Ea) as Hf.
  cbn [fst snd] in Ep, Hc. pose proof (inst_fmt _ _ Hok Hf) as Ho. operands Ho.
  assert ((mnem i =? FRV_JAL) || (mnem i =? FRV_JALR) = false) as Ej.
  { apply (assocZ_Forall (fun e => (e.1 =? FRV_JAL) || (e.1 =? FRV_JALR) = false) _ _ _ no_jumps Ea). }
  unfold lift_mnem. rewrite Ej, Ep. apply wp_bind. eapply wp_mono; [by apply (wp_Branch cpu0 ret0 s h inst p)|].
  intros [] s' Hs'. apply wp_ret. split; [done|]. rewrite <- Hc. by destruct (icmp_sem _ _ _ _).
Qed.

Lemma lift_mnem_jump : mnem i = FRV_JAL \/ mnem i = FRV_JALR -> lift_mnem fp fi cfg inst = (LiftJump cfg inst;; mret true).
Proof. intros [E|E]; unfold lift_mnem; rewrite E; reflexivity. Qed.
Lemma lift_mnem_lui : mnem i = FRV_LUI -> lift_mnem fp fi cfg inst = fall_through fi inst (StoreGp (rd i) (getInt64 (imm i))).
Proof. intros E. unfold lift_mnem. rewrite E. reflexivity. Qed.
Lemma lift_mnem_auipc : mnem i = FRV_AUIPC ->
  lift_mnem fp fi cfg inst = fall_through fi inst (ip ← get_reg RIP FI64; v ← pure (CreateBinOp Add ip (getInt64 (imm i))); StoreGp (rd i) v).
Proof. intros E. unfold lift_mnem. rewrite E. reflexivity. Qed.

Lemma step_jump :
  call_function cfg = None -> mnem i = FRV_JAL \/ mnem i = FRV_JALR -> (mnem i = FRV_JALR -> ea i h `mod` 2 = 0) ->
  exec_other i (i_len inst) h = Some h' -> refined.
Proof.
  intros Hcf Hm Hx E. rewrite lift_mnem_jump by done. unfold exec_other in E. destruct Hm as [Hm|Hm]; rewrite Hm in E; cbn in E; injection E as <-.
  - pose proof (inst_fmt i FJ Hok ltac:(rewrite Hm; reflexivity)) as Ho. operands Ho. apply wp_bind.
    eapply wp_mono; [apply (wp_Jump cfg cpu0 ret0 s h inst (hpc h)); try done; by left|]. intros [] s' Hs'. by apply wp_ret.
  - pose proof (inst_fmt i FrvIsa.FI Hok ltac:(rewrite Hm; reflexivity)) as Ho. operands Ho. apply wp_bind.
    eapply wp_mono; [apply (wp_Jump cfg cpu0 ret0 s h inst (xr h (rs1 i))); try done; by right|]. intros [] s' Hs'. apply wp_ret.
    split; [done|]. rewrite (Hx Hm), Z.sub_0_r. done.
Qed.

Lemma step_lui : mnem i = FRV_LUI -> exec_other i (i_len inst) h = Some h' -> refined.
Proof.
  intros Hm E. rewrite lift_mnem_lui by done. unfold exec_other in E. rewrite Hm in E. cbn in E. injection E as <-.
  pose proof (inst_fmt i FU Hok ltac:(rewrite Hm; reflexivity)) as Ho. operands Ho. apply wp_fall_through; [done|].
  eapply (wp_StoreGp cpu0 ret0 s h _ 64); [done|done|lia|apply opd2_range|done|]. intros s' Hs'. by rewrite sext_64 in Hs' by apply opd2_range.
Qed.

Lemma step_auipc : mnem i = FRV_AUIPC -> exec_other i (i_len inst) h = Some h' -> refined.
Proof.
  intros Hm E. rewrite lift_mnem_auipc by done. unfold exec_other in E. rewrite Hm in E. cbn in E. injection E as <-.
  pose proof (inst_fmt i FU Hok ltac:(rewrite Hm; reflexivity)) as Ho. operands Ho. apply wp_fall_through; [done|].
  apply wp_bind, (wp_get_ip cpu0 ret0 s h); [done|]. intros ip Hip.
  apply wp_bind. eapply (wp_binop Add 64); [exact Hip|apply is_val_intN|reflexivity|]. intros v Hv. rewrite wrap_add_r in Hv.
  eapply (wp_StoreGp cpu0 ret0 s h _ 64); [done|done|lia|apply wrap_range; lia|exact Hv|].
  intros s' Hs'. by rewrite sext_64 in Hs' by (apply wrap_range; lia).
Qed.

(** The instructions of the tables that have no group. *)
Lemma step_single m f pre post :
  mnem i = m -> in_tables m = true -> fmt_of m = Some f -> (operands_ok f i -> pre i h) ->
  lifts fp cfg cpu0 ret0 m pre post -> h' = next (i_len inst) h (post i h) -> refined.
Proof.
  intros Hm Ht Hf Hpre Hl ->. rewrite <- Hm in *. eapply lift_table; [done..|]. by apply Hpre, inst_fmt.
Qed.

Ltac single Hm E f lem :=
  eapply (step_single _ f _ _ Hm eq_refl eq_refl); [|exact lem|symmetry; exact (inj Some _ _ E)]; intros Ho; by operands Ho.

Lemma step_other :
  call_function cfg = None -> (mnem i = FRV_JALR -> ea i h `mod` 2 = 0) -> exec_other i (i_len inst) h = Some h' -> refined.
Proof.
  intros Hcf Hx E. pose proof E as E0. unfold exec_other in E0.
  destruct (Z.eqb_spec (mnem i) FRV_LUI) as [Hm|_]; [by apply step_lui|].
  destruct (Z.eqb_spec (mnem i) FRV_AUIPC) as [Hm|_]; [by apply step_auipc|].
  destruct (Z.eqb_spec (mnem i) FRV_JAL) as [Hm|_]; [by apply step_jump; auto|].
  destruct (Z.eqb_spec (mnem i) FRV_JALR) as [Hm|_]; [by apply step_jump; auto|]. clear E.
  destruct (Z.eqb_spec (mnem i) FRV_FENCE) as [Hm|_]; [single Hm E0 FrvIsa.FI (fence_lifted fp cfg cpu0 ret0)|].
  destruct (Z.eqb_spec (mnem i) FRV_LRW) as [Hm|_]; [single Hm E0 FAmo (lrw_lifted fp cfg cpu0 ret0)|].
  destruct (Z.eqb_spec (mnem i) FRV_FLD) as [Hm|_]; [single Hm E0 FrvIsa.FI (fld_lifted fp fi cfg cpu0 ret0 Hbase)|].
  destruct (Z.eqb_spec (mnem i) FRV_FSD) as [Hm|_]; [single Hm E0 FS (fsd_lifted fp fi cfg cpu0 ret0 Hbase)|].
  destruct (Z.eqb_spec (mnem i) FRV_FSW) as [Hm|_]; [single Hm E0 FS (fsw_lifted fp fi cfg cpu0 ret0 Hbase)|].
  destruct (Z.eqb_spec (mnem i) FRV_FMVXD) as [Hm|_]; [single Hm E0 FR2 (fmvxd_lifted fp cfg cpu0 ret0)|].
  destruct (Z.eqb_spec (mnem i) FRV_FMVDX) as [Hm|_]; [single Hm E0 FR2 (fmvdx_lifted fp cfg cpu0 ret0)|].
  destruct (Z.eqb_spec (mnem i) FRV_FMVXW) as [Hm|_]; [single Hm E0 FR2 (fmvxw_lifted fp cfg cpu0 ret0)|].
  done.
Qed.
End Step.

(** ** One instruction *)

(** No marker, no replacement for the instruction and no function for calls. *)
Definition plain_config (cfg : LLConfig) (m : Z) : Prop :=
  instr_marker cfg = None /\ instr_overrides cfg m = None /\ call_function cfg = None.

Section Lift.
Context (fp : FpSem) (fi : FunctionInfo) (cfg : LLConfig) (cpu0 : Cpu) (ret0 : bool).
Local Abbreviation refines := (refines cpu0 ret0).

(** [Lift] starts with the instruction pointer at the instruction. *)
Lemma wp_Lift inst s h (Q : bool -> LState -> Prop) :
  base_ok fi cfg -> plain_config cfg (mnem (i_rv inst)) -> refines s h -> hpc h = u64 (i_start inst) ->
  (forall s', refines s' h -> wp (lift_mnem fp fi cfg inst) s' Q) -> wp (Lift fp fi cfg inst) s Q.
Proof.
  intros Hb (Hm & Ho & _) Hs Hpc HQ. unfold Lift. rewrite Hm, Ho.
  apply wp_bind, (wp_SetIP fi cfg cpu0 ret0 Hb s h); [done|]. intros s1 Hs1. apply wp_bind, wp_ret, HQ.
  rewrite <- Hpc in Hs1. by destruct h.
Qed.

Lemma exec_cases i len h h' :
  exec i len h = Some h' ->
  exec_alu i len h = Some h' \/ exec_imm i len h = Some h' \/ exec_load i len h = Some h' \/ exec_store i len h = Some h' \/
  exec_branch i len h = Some h' \/ exec_amo i len h = Some h' \/ exec_other i len h = Some h'.
Proof.
  unfold exec. destruct (exec_alu i len h), (exec_imm i len h), (exec_load i len h), (exec_store i len h), (exec_branch i len h), (exec_amo i len h); auto 8.
Qed.

Lemma lift_step inst s h h' :
  base_ok fi cfg -> plain_config cfg (mnem (i_rv inst)) -> refines s h -> hpc h = u64 (i_start inst) ->
  inst_ok (i_rv inst) -> exact (i_rv inst) h -> exec (i_rv inst) (i_len inst) h = Some h' ->
  wp (Lift fp fi cfg inst) s (fun ok s' => ok = true /\ refines s' h').
Proof.
  intros Hb Hc Hs Hpc Hok [Hx Hj] E. eapply wp_Lift; [done..|]. intros s1 Hs1.
  apply exec_cases in E as [E|[E|[E|[E|[E|[E|E]]]]]];
    [by eapply step_alu|by eapply step_imm|by eapply step_load|by eapply step_store|by eapply step_branch|by eapply step_amo|].
  destruct Hc as (_ & _ & Hcf). by eapply step_other.
Qed.

(** C8. The code lifted from a RISC-V instruction refines the instruction: when
    the register file and memory hold a hart's state at the instruction, lifting
    succeeds and the code leaves them in the state the manual's semantics gives,
    for the integer, multiplication, division, load, store, branch, jump, atomic
    and floating-point move instructions; the exceptions, a signed division by
    minus one and a [jalr] to an odd address, are in [exact]. *)
Theorem lift_refines inst s h h' :
  base_ok fi cfg -> plain_config cfg (mnem (i_rv inst)) -> refines s h -> hpc h = u64 (i_start inst) ->
  inst_ok (i_rv inst) -> exact (i_rv inst) h -> exec (i_rv inst) (i_len inst) h = Some h' ->
  exists s', Lift fp fi cfg inst s = Some (true, s') /\ refines s' h'.
Proof.
  intros Hb Hc Hs Hpc Hok Hx E. destruct (lift_step inst s h h' Hb Hc Hs Hpc Hok Hx E) as (ok & s' & El & -> & Hs'). eauto.
Qed.

(** ** A block of instructions *)

(** [AddInst] for each instruction of a block. *)
Fixpoint lift_block (l : list Instr) : L bool :=
  match l with [] => mret true | inst :: l => Lift fp fi cfg inst ≫= fun ok : bool => if ok then lift_block l else mret false end.

(** The hart executes the instructions, each at the address it is at. *)
Fixpoint exec_block (l : list Instr) (h : Hart) : option Hart :=
  match l with
  | [] => Some h
  | inst :: l => if decide (hpc h = u64 (i_start inst)) then exec (i_rv inst) (i_len inst) h ≫= exec_block l else None
  end.

Fixpoint exact_block (l : list Instr) (h : Hart) : Prop :=
  match l with
  | [] => True
  | inst :: l => inst_ok (i_rv inst) /\ plain_config cfg (mnem (i_rv inst)) /\ exact (i_rv inst) h /\
      match exec (i_rv inst) (i_len inst) h with Some h' => exact_block l h' | None => False end
  end.

(** C9. A block of instructions is lifted to code that takes the registers and
    memory where executing the instructions one after the other takes them. *)
Theorem lift_block_refines l s h h' :
  base_ok fi cfg -> refines s h -> exact_block l h -> exec_block l h = Some h' ->
  exists s', lift_block l s = Some (true, s') /\ refines s' h'.
Proof.
  intros Hb. revert s h. induction l as [|inst l IH]; intros s h Hs Hx E; [injection E as <-; by exists s|].
  destruct Hx as (Hok & Hc & Hx & Hr). cbn [exec_block] in E. case_decide as Hpc; [|done].
  destruct (exec _ _ h) as [h1|] eqn:E1; [|done].
  destruct (lift_step inst s h h1 Hb Hc Hs Hpc Hok Hx E1) as (ok & s1 & El & -> & Hs1).
  destruct (IH s1 h1 Hs1 Hr E) as (s' & Es & Hs'). exists s'. split; [|done]. cbn. unfold mbind, L_bind. by rewrite El.
Qed.

(** ** Where the lifted code differs *)

(** A signed division by minus one leaves the dividend itself in the
    destination, not its negative. *)
Theorem lift_div_minus_one inst s h :
  base_ok fi cfg -> plain_config cfg FRV_DIV -> refines s h -> hpc h = u64 (i_start inst) ->
  inst_ok (i_rv inst) -> mnem (i_rv inst) = FRV_DIV -> s64 (xr h (rs2 (i_rv inst))) = -1 ->
  exists s', Lift fp fi cfg inst s = Some (true, s') /\
             refines s' (next (i_len inst) h (set_x h (rd (i_rv inst)) (xr h (rs1 (i_rv inst))))).
Proof.
  intros Hb Hc Hs Hpc Hok Hm Hd. pose proof (inst_fmt _ FR Hok ltac:(rewrite Hm; reflexivity)) as Ho. operands Ho.
  cut (wp (Lift fp fi cfg inst) s (fun ok s' => ok = true /\ refines s' (next (i_len inst) h (set_x h (rd (i_rv inst)) (xr h (rs1 (i_rv inst))))))).
  { intros (ok & s' & E & -> & Hs'). eauto. }
  rewrite <- Hm in Hc. eapply wp_Lift; [done..|]. intros s1 Hs1. pose proof (xr_range _ _ _ _ _ Hs O1) as H1. pose proof (xr_range _ _ _ _ _ Hs O2) as H2.
  replace (lift_mnem fp fi cfg inst) with (fall_through fi inst (LiftDivRem (i_rv inst) SDiv FI64)) by (unfold lift_mnem; rewrite Hm; reflexivity).
  eapply wp_fall_through; [done..|]. eapply wp_mono; [by apply (wp_DivRem cpu0 ret0 s1 h (i_rv inst) SDiv FI64 64)|].
  intros ? s' Hs'. rewrite (wrap_small 64 (xr h (rs1 _))), (wrap_small 64 (xr h (rs2 _))) in Hs' by done. apply minus_one in Hd; [|lia|done]. unfold divrem_res in Hs'.
  rewrite Hd in Hs'. cbn in Hs'. by rewrite sext_64 in Hs'.
Qed.
End Lift.

(** ** A concrete hart *)

(** A register file that holds a hart's registers. *)
Definition hart_rf (h : Hart) : RegFile :=
  mkRF (fun reg f => match reg, f with
                     | RGP i, FI64 => Some (mkVal (TInt 64) (hx h i) NotConst)
                     | RVEC i, FI64 => Some (mkVal (TInt 64) (hf h i) NotConst)
                     | RIP, FI64 => Some (mkVal (TInt 64) (hpc h) NotConst)
                     | _, _ => None
                     end) RV64 ∅ ∅.
Definition hart_state (h : Hart) : LState := mkL (hart_rf h) (hmem h) [] false.

Definition hart_ok (h : Hart) : Prop := (forall i, in_u 64 (hx h i)) /\ (forall i, in_u 64 (hf h i)) /\ in_u 64 (hpc h) /\ mem_ok (hmem h).

Lemma hart_refines h : hart_ok h -> refines [] false (hart_state h) h.
Proof.
  intros (Hx & Hf & Hp & Hm). constructor; cbn; try done; try (by eexists).
  - intros i f v _. by destruct f; intros [= <-].
  - intros i f v _. destruct f; try done. intros [= <-]. unfold vproj. cbn. by rewrite wrap_small.
Qed.

(** [x1 = 5], [x2] is minus one, [x3] is an address; the instruction is at [0x1000]. *)
Definition hart0 : Hart :=
  mkHart (fun i => if i =? 1 then 5 else if i =? 2 then 0xffffffffffffffff else if i =? 3 then 0x2000 else 0) (fun i => if i =? 4 then 0x3ff0000000000000 else 0)
    0x1000 (storeZ ∅ 8 0x2000 0x1122334455667788).
Definition fp0 : FpSem :=
  mkFp (fun _ _ _ _ => 0) (fun _ _ _ => 0) (fun _ _ _ _ => false) (fun _ _ _ _ => 0) (fun _ _ _ _ => None) (fun _ _ _ => 0).
Definition fi0 : FunctionInfo := mkFi 0x1000 (getInt64 0x1000).
Definition cfg0 : LLConfig := mkCfg None (fun _ => None) None None None [] false false.

Lemma hart0_ok : hart_ok hart0.
Proof.
  split; [|split; [|split; [done|]]].
  - intros i. cbn. by repeat case_match.
  - intros i. cbn. by case_match.
  - apply mem_ok_storeZ. apply map_Forall_empty.
Qed.
Lemma base0_ok : base_ok fi0 cfg0.
Proof. done. Qed.

(** [sub x5, x1, x2], [ld x6, 0(x3)], [bltu x1, x2, +16] and [div x7, x1, x2] *)
Definition sub_inst : Instr := mkInst (mkFrv FRV_SUB 5 1 2 FRV_REG_INV 0 0) 0x1000 4.
Definition ld_inst : Instr := mkInst (mkFrv FRV_LD 6 3 FRV_REG_INV FRV_REG_INV 0 0) 0x1004 4.
Definition bltu_inst : Instr := mkInst (mkFrv FRV_BLTU FRV_REG_INV 1 2 FRV_REG_INV 0 16) 0x1008 4.
Definition div_inst : Instr := mkInst (mkFrv FRV_DIV 7 1 2 FRV_REG_INV 0 0) 0x1000 4.

Ltac inst_ok_tac := eexists; split; [reflexivity|]; repeat split; cbn; done || (unfold in_s; lia).

Lemma sub_ok : inst_ok (i_rv sub_inst). Proof. inst_ok_tac. Qed.
Lemma ld_ok : inst_ok (i_rv ld_inst). Proof. inst_ok_tac. Qed.
Lemma bltu_ok : inst_ok (i_rv bltu_inst). Proof. inst_ok_tac. Qed.
Lemma div_ok : inst_ok (i_rv div_inst). Proof. inst_ok_tac. Qed.

Lemma lift_refines_witness : exists s' h',
  exec (i_rv sub_inst) 4 hart0 = Some h' /\ Lift fp0 fi0 cfg0 sub_inst (hart_state hart0) = Some (true, s') /\ refines [] false s' h' /\ xr h' 5 = 6.
Proof.
  destruct (exec (i_rv sub_inst) 4 hart0) as [h'|] eqn:E; [|discriminate E].
  destruct (lift_refines fp0 fi0 cfg0 [] false sub_inst (hart_state hart0) hart0 h') as (s' & El & Hs');
    [exact base0_ok|done|exact (hart_refines _ hart0_ok)|done|exact sub_ok|done|exact E|].
  exists s', h'. split; [done|]. split; [exact El|]. split; [exact Hs'|]. injection E as <-. reflexivity.
Defined.

Lemma lift_block_refines_witness : exists s' h',
  lift_block fp0 fi0 cfg0 [sub_inst; ld_inst; bltu_inst] (hart_state hart0) = Some (true, s') /\ refines [] false s' h' /\ hpc h' = 0x1018.
Proof.
  destruct (exec_block [sub_inst; ld_inst; bltu_inst] hart0) as [h'|] eqn:E; [|vm_compute in E; discriminate E].
  destruct (lift_block_refines fp0 fi0 cfg0 [] false [sub_inst; ld_inst; bltu_inst] (hart_state hart0) hart0 h') as (s' & El & Hs');
    [exact base0_ok|exact (hart_refines _ hart0_ok)| |exact E|].
  { split; [exact sub_ok|]. split; [done|]. split; [done|]. split; [exact ld_ok|]. split; [done|]. split; [done|].
    split; [exact bltu_ok|]. split; [done|]. by split. }
  exists s', h'. split; [exact El|]. split; [exact Hs'|].
  assert (hpc <$> exec_block [sub_inst; ld_inst; bltu_inst] hart0 = Some 0x1018) as Ep by (vm_compute; reflexivity).
  rewrite E in Ep. by injection Ep.
Defined.

(** Five divided by minus one is five. *)
Lemma lift_div_minus_one_witness : exists s',
  Lift fp0 fi0 cfg0 div_inst (hart_state hart0) = Some (true, s') /\ refines [] false s' (next 4 hart0 (set_x hart0 7 5)) /\
  exec (i_rv div_inst) 4 hart0 = Some (next 4 hart0 (set_x hart0 7 (u64 (-5)))).
Proof.
  destruct (lift_div_minus_one fp0 fi0 cfg0 [] false div_inst (hart_state hart0) hart0) as (s' & El & Hs');
    [exact base0_ok|done|exact (hart_refines _ hart0_ok)|done|exact div_ok|done|done|].
  exists s'. split; [exact El|]. split; [exact Hs'|reflexivity].
Defined.

(** ** Examples of other differences *)

Definition lift0 (i : FrvInst) : option LState := snd <$> Lift fp0 fi0 cfg0 (mkInst i 0x1000 4) (hart_state hart0).
Definition reg_of (r : ArchReg) (s : LState) : option Z := v_bits <$> rf_vals (l_rf s) r FI64.

(** [sc.w x1, x1, (x3)] clears the register before it stores it: not 5. *)
Example scw_same_register : (fun s => loadZ (l_mem s) 4 0x2000) <$> lift0 (mkFrv FRV_SCW 1 3 1 FRV_REG_INV 0 0) = Some 0.
Proof. vm_compute. reflexivity. Qed.

(** [jalr x0, 1(x3)] goes to an odd address. *)
Example jalr_odd : lift0 (mkFrv FRV_JALR 0 3 FRV_REG_INV FRV_REG_INV 0 1) ≫= reg_of RIP = Some 0x2001.
Proof. vm_compute. reflexivity. Qed.

(** [fclass.d x5, f4] of [1.0] gives the number 6 of the class, not the bit [2 ^ 6]. *)
Example fclass_number : lift0 (mkFrv FRV_FCLASSD 5 4 FRV_REG_INV FRV_REG_INV 0 0) ≫= reg_of (RGP 5) = Some 6.
Proof. vm_compute. reflexivity. Qed.

(** [flw f5, 0(x3)] fills the upper half with zeros, not with ones. *)
Example flw_not_boxed : lift0 (mkFrv FRV_FLW 5 3 FRV_REG_INV FRV_REG_INV 0 0) ≫= reg_of (RVEC 5) = Some 0x55667788.
Proof. vm_compute. reflexivity. Qed.
