(* ===== verification/RellumePacks.v ===== *)
(** * Which registers are stored at calls and returns, [callconv.cc]

    Before a call and at a return the lifter stores all registers to the CPU
    struct; [OptimizePacks] then removes the stores of registers that have not
    changed, by a data flow analysis over the basic blocks.  The blocks and their
    edges, the sets the register files keep, the analysis with its work list,
    and the removal. *)

From Stdlib Require Import ZArith Lia.
From stdpp Require Import base numbers list option gmap sets.
From S2P Require Import Prelude.

Abbreviation RegSet := (gset Z).

(** What a block does to its registers: sets one to a value computed from the
    registers, stores them all to the CPU struct, or calls a function on the
    struct and loads them all again. *)
Inductive Event := ESet (r : Z) (f : (Z -> Z) -> Z) | EPack | ECall (fn : (Z -> Z) -> Z -> Z).

Record Block := mkBlock { b_events : list Event; predecessors : list nat; successors : list nat }.
Definition no_block : Block := mkBlock [] [] [].
Definition block (bs : list Block) (i : nat) : Block := default no_block (bs !! i).

(** [BasicBlock::BranchTo] *)
Definition add_succ (next : nat) (b : Block) : Block := mkBlock (b_events b) (predecessors b) (successors b ++ [next]).
Definition add_pred (from : nat) (b : Block) : Block := mkBlock (b_events b) (predecessors b ++ [from]) (successors b).
Definition BranchTo (bs : list Block) (from next : nat) : list Block := alter (add_succ next) from (alter (add_pred from) next bs).

(** With a condition; one edge when both blocks are the same. *)
Definition BranchTo_cond (bs : list Block) (from then_ other : nat) : list Block :=
  if decide (then_ = other) then BranchTo bs from then_ else BranchTo (BranchTo bs from then_) from other.

Section Packs.
(** The registers of the CPU struct. *)
Context (entries : RegSet).

(** ** The sets of a register file *)

(** Registers changed since they were last stored, and registers stored in the block. *)
Definition ev_sets (e : Event) (ds : RegSet * RegSet) : RegSet * RegSet :=
  let '(dirty, cleaned) := ds in
  match e with
  | ESet r _ => ({[r]} ∪ dirty, cleaned)
  | EPack => (dirty ∖ entries, entries ∪ cleaned)
  | ECall _ => (dirty ∖ entries, cleaned)
  end.

Definition sets_after (es : list Event) (ds : RegSet * RegSet) : RegSet * RegSet := fold_left (fun ds e => ev_sets e ds) es ds.

Definition DirtyRegs (b : Block) : RegSet := (sets_after (b_events b) (∅, ∅)).1.
Definition CleanedRegs (b : Block) : RegSet := (sets_after (b_events b) (∅, ∅)).2.

(** The packs of a block: the dirty registers at each. *)
Fixpoint block_packs (es : list Event) (ds : RegSet * RegSet) : list RegSet :=
  match es with
  | [] => []
  | EPack :: es => ds.1 :: block_packs es (ev_sets EPack ds)
  | e :: es => block_packs es (ev_sets e ds)
  end.

(** ** The analysis *)

Abbreviation BbMap := (gmap nat (RegSet * RegSet)).

(** [DenseMap::lookup]: empty sets for a block not seen. *)
Definition pre_of (m : BbMap) (i : nat) : RegSet := (default (∅, ∅) (m !! i)).1.
Definition post_of (m : BbMap) (i : nat) : RegSet := (default (∅, ∅) (m !! i)).2.

Record Work := mkWork { bb_map : BbMap; queue : gset nat; new_vec : list nat }.

Definition push (w : Work) (succ : nat) : Work :=
  if decide (succ ∈ queue w) then w else mkWork (bb_map w) ({[succ]} ∪ queue w) (new_vec w ++ [succ]).

Definition flow (b : Block) (pre : RegSet) : RegSet := (pre ∖ CleanedRegs b) ∪ DirtyRegs b.

Definition visit (bs : list Block) (w : Work) (bb : nat) : Work :=
  let b := block bs bb in
  let m := bb_map w in
  let w := mkWork m (queue w ∖ {[bb]}) (new_vec w) in
  let pre := ⋃ (post_of m <$> predecessors b) in
  let post := flow b pre in
  let changed := match m !! bb with None => true | Some (_, old) => negb (bool_decide (old = post)) end in
  let w := if changed then fold_left push (successors b) w else w in
  mkWork (<[bb := (pre, post)]> (bb_map w)) (queue w) (new_vec w).

Fixpoint opt_loop (fuel : nat) (bs : list Block) (vec : list nat) (w : Work) : option BbMap :=
  if decide (queue w = ∅) then Some (bb_map w)
  else
    match fuel with
    | O => None
    | S fuel =>
        let w := fold_left (visit bs) vec (mkWork (bb_map w) (queue w) []) in
        opt_loop fuel bs (new_vec w) w
    end.

Definition analyse (fuel : nat) (bs : list Block) (entry : nat) : option BbMap :=
  opt_loop fuel bs [entry] (mkWork ∅ {[entry]} []).

(** Whether the store of register [r] survives at a pack of block [bb] with the
    dirty registers [d]. *)
Definition kept (m : BbMap) (bb : nat) (d : RegSet) (r : Z) : bool := bool_decide (r ∈ pre_of m bb ∪ d).

(** ** Running the blocks *)

(** The registers and their places in the CPU struct. *)
Record Regs := mkRegs { cur : Z -> Z; slot : Z -> Z }.

Definition run_event (keep : RegSet -> Z -> bool) (e : Event) (s : Regs * (RegSet * RegSet)) : Regs * (RegSet * RegSet) :=
  let '(x, ds) := s in
  (match e with
   | ESet r f => mkRegs (fun i => if i =? r then f (cur x) else cur x i) (slot x)
   | EPack => mkRegs (cur x) (fun i => if bool_decide (i ∈ entries) && keep ds.1 i then cur x i else slot x i)
   | ECall fn => let s' := fn (slot x) in mkRegs (fun i => if decide (i ∈ entries) then s' i else cur x i) s'
   end, ev_sets e ds).

Definition run_block (keep : RegSet -> Z -> bool) (b : Block) (x : Regs) : Regs :=
  (fold_left (fun s e => run_event keep e s) (b_events b) (x, (∅, ∅))).1.

(** A path through the function. *)
Fixpoint run_path (keep : nat -> RegSet -> Z -> bool) (bs : list Block) (path : list nat) (x : Regs) : Regs :=
  match path with [] => x | bb :: path => run_path keep bs path (run_block (keep bb) (block bs bb) x) end.

Fixpoint is_path (bs : list Block) (from : nat) (path : list nat) : Prop :=
  match path with [] => True | next :: path => next ∈ successors (block bs from) /\ is_path bs next path end.
End Packs.
