(* ===== verification/RellumePacksProofs.v ===== *)
(** * The removed stores are not missed

    The analysis of [RellumePacks] ends, and the stores it keeps are enough: on
    every path through the function, the registers and the CPU struct are what
    they are when all registers are stored. *)

From Stdlib Require Import ZArith Lia FunctionalExtensionality.
From stdpp Require Import base numbers list option gmap sets.
From S2P Require Import Prelude Rellume RellumePacks.

Section Packs.
Context (entries : RegSet).
Local Abbreviation flow := (flow entries).
Local Abbreviation visit := (visit entries).
Local Abbreviation opt_loop := (opt_loop entries).

(** ** A fixed point is enough *)

(** Registers outside of [D] are in their places. *)
Definition clean (D : RegSet) (x : Regs) : Prop := forall r, r ∈ entries -> r ∉ D -> cur x r = slot x r.

Definition out_of (pre : RegSet) (ds : RegSet * RegSet) : RegSet := (pre ∖ ds.2) ∪ ds.1.

(** A pack that stores the registers of [pre] and those dirty stores all that
    differ from their place. *)
Lemma pack_same pre ds x keep :
  clean (out_of pre ds) x -> (forall r, r ∈ pre ∪ ds.1 -> keep ds.1 r = true) ->
  run_event entries keep EPack (x, ds) = run_event entries (fun _ _ => true) EPack (x, ds).
Proof.
  intros Hc Hk. cbn. f_equal. f_equal. apply functional_extensionality. intros i. rewrite andb_true_r.
  case_bool_decide as Hi; [|done]. cbn. destruct (keep ds.1 i) eqn:E; [done|]. symmetry. apply Hc; [done|].
  intros Hin. rewrite Hk in E; [done|]. unfold out_of in Hin. set_solver.
Qed.

Lemma event_clean pre ds x e :
  clean (out_of pre ds) x -> clean (out_of pre (ev_sets entries e ds)) (run_event entries (fun _ _ => true) e (x, ds)).1.
Proof.
  destruct ds as [d c]. intros Hc r Hr Hout. unfold out_of in *. destruct e as [r' f| |fn]; cbn in *.
  - destruct (Z.eqb_spec r r') as [->|]; [set_solver|]. apply Hc; [done|set_solver].
  - by rewrite bool_decide_true.
  - by rewrite decide_True.
Qed.

Lemma block_same pre keep es x ds :
  clean (out_of pre ds) x -> (forall d r, r ∈ pre ∪ d -> keep d r = true) ->
  let run k := fold_left (fun s e => run_event entries k e s) es (x, ds) in
  run keep = run (fun _ _ => true) /\ clean (out_of pre (sets_after entries es ds)) (run (fun _ _ => true)).1.
Proof.
  revert x ds. induction es as [|e es IH]; intros x ds Hc Hk; [done|]. cbv zeta. cbn [fold_left sets_after].
  assert (run_event entries keep e (x, ds) = run_event entries (fun _ _ => true) e (x, ds)) as ->.
  { destruct e; [done| |done]. apply (pack_same pre); [done|]. intros. by apply Hk. }
  pose proof (event_clean pre ds x e Hc) as Hc'.
  assert ((run_event entries (fun _ _ => true) e (x, ds)).2 = ev_sets entries e ds) as E2 by done.
  destruct (run_event entries (fun _ _ => true) e (x, ds)) as [x' ds']. cbn in E2, Hc'. subst ds'. by apply IH.
Qed.

(** The sets of the map are those of the analysis' equations, for every block of
    a path. *)
Definition fixpoint_at (bs : list Block) (m : gmap nat (RegSet * RegSet)) (bb : nat) : Prop :=
  post_of m bb = flow (block bs bb) (pre_of m bb) /\
  forall succ, succ ∈ successors (block bs bb) -> post_of m bb ⊆ pre_of m succ.

Lemma run_block_same bs m bb x :
  clean (pre_of m bb) x ->
  run_block entries (kept m bb) (block bs bb) x = run_block entries (fun _ _ => true) (block bs bb) x /\
  clean (flow (block bs bb) (pre_of m bb)) (run_block entries (fun _ _ => true) (block bs bb) x).
Proof.
  intros Hc. unfold run_block.
  destruct (block_same (pre_of m bb) (kept m bb) (b_events (block bs bb)) x (∅, ∅)) as [E Hc'].
  - intros r Hr Hout. apply Hc; [done|]. unfold out_of in Hout. cbn in Hout. set_solver.
  - intros d r Hr. unfold kept. by apply bool_decide_true.
  - split; [by rewrite E|]. exact Hc'.
Qed.

Lemma run_path_same bs m bb path x :
  (forall i, i ∈ bb :: path -> fixpoint_at bs m i) -> is_path bs bb path -> clean (pre_of m bb) x ->
  run_path entries (fun bb => kept m bb) bs (bb :: path) x = run_path entries (fun _ _ _ => true) bs (bb :: path) x.
Proof.
  revert bb x. induction path as [|next path IH]; intros bb x Hf Hp Hc; destruct (run_block_same bs m bb x Hc) as [E Hc'].
  - cbn. by rewrite E.
  - cbn [run_path]. rewrite E. apply IH; [intros i Hi; apply Hf; by right|by destruct Hp|].
    intros r Hr Hout. apply Hc'; [done|]. destruct (Hf bb) as [Ef Hs]; [by left|]. rewrite <- Ef.
    destruct Hp as [Hn _]. specialize (Hs next Hn). set_solver.
Qed.

(** ** The work list *)

(** Edges are recorded at both ends and lead to blocks of the function. *)
Definition edges_ok (bs : list Block) : Prop :=
  (forall a b, b ∈ successors (block bs a) <-> a ∈ predecessors (block bs b)) /\
  (forall a b, b ∈ successors (block bs a) -> (b < length bs)%nat).

Definition incoming (bs : list Block) (m : gmap nat (RegSet * RegSet)) (bb : nat) : RegSet := ⋃ (post_of m <$> predecessors (block bs bb)).

Lemma elem_incoming bs m bb r : r ∈ incoming bs m bb <-> exists p, p ∈ predecessors (block bs bb) /\ r ∈ post_of m p.
Proof. unfold incoming. rewrite elem_of_union_list. setoid_rewrite list_elem_of_fmap. naive_solver. Qed.

Lemma incoming_mono bs m m' bb : (forall i, post_of m i ⊆ post_of m' i) -> incoming bs m bb ⊆ incoming bs m' bb.
Proof. intros H r. rewrite !elem_incoming. intros (p & Hp & Hr). exists p. split; [done|]. by apply H. Qed.

Lemma flow_mono b x y : x ⊆ y -> flow b x ⊆ flow b y.
Proof. unfold RellumePacks.flow. set_solver. Qed.

Record inv (bs : list Block) (w : Work) : Prop := mkInv {
  i_flow : forall bb p, bb_map w !! bb = Some p -> p.2 = flow (block bs bb) p.1;
  i_sub : forall bb p, bb_map w !! bb = Some p -> p.1 ⊆ incoming bs (bb_map w) bb;
  i_eq : forall bb p, bb_map w !! bb = Some p -> bb ∉ queue w -> p.1 = incoming bs (bb_map w) bb;
  i_succ : forall bb succ, is_Some (bb_map w !! bb) -> succ ∈ successors (block bs bb) -> is_Some (bb_map w !! succ) \/ succ ∈ queue w }.

Lemma push_all ss w :
  let w' := fold_left push ss w in
  bb_map w' = bb_map w /\ queue w' = queue w ∪ list_to_set ss /\
  exists added, new_vec w' = new_vec w ++ added /\ NoDup added /\ (forall i, i ∈ added <-> i ∈ ss /\ i ∉ queue w).
Proof.
  cbv zeta. revert w. induction ss as [|x ss IH]; intros w; cbn [fold_left].
  - split; [done|]. split; [set_solver|]. exists []. rewrite app_nil_r. split; [done|]. split; [constructor|]. set_solver.
  - destruct (IH (push w x)) as (Em & Eq & added & En & Hnd & Ha). rewrite Em, Eq, En. unfold push in *. case_decide as Hx; cbn in *.
    + split; [done|]. split; [set_solver|]. exists added. split; [done|]. split; [done|]. intros i. rewrite Ha, elem_of_cons. naive_solver.
    + split; [done|]. split; [set_solver|]. exists (x :: added). split; [by rewrite <- app_assoc|]. split.
      * constructor; [|done]. rewrite Ha. set_solver.
      * intros i. rewrite !elem_of_cons, Ha. destruct (decide (i = x)); set_solver.
Qed.

Definition changed (bs : list Block) (w : Work) (bb : nat) : bool :=
  match bb_map w !! bb with None => true | Some (_, old) => negb (bool_decide (old = flow (block bs bb) (incoming bs (bb_map w) bb))) end.

Definition entry_of (bs : list Block) (w : Work) (bb : nat) : RegSet * RegSet :=
  (incoming bs (bb_map w) bb, flow (block bs bb) (incoming bs (bb_map w) bb)).

(** What one visit does. *)
Lemma visit_spec bs w bb :
  let w' := visit bs w bb in
  let pushed := if changed bs w bb then successors (block bs bb) else [] in
  bb_map w' = <[bb := entry_of bs w bb]> (bb_map w) /\ queue w' = (queue w ∖ {[bb]}) ∪ list_to_set pushed /\
  exists added, new_vec w' = new_vec w ++ added /\ NoDup added /\ (forall i, i ∈ added <-> i ∈ pushed /\ i ∉ queue w ∖ {[bb]}).
Proof.
  cbv zeta. unfold RellumePacks.visit. fold (incoming bs (bb_map w) bb).
  change (match bb_map w !! bb with None => true | Some (_, old) => negb (bool_decide (old = flow (block bs bb) (incoming bs (bb_map w) bb))) end)
    with (changed bs w bb).
  destruct (changed bs w bb); cbn [bb_map queue new_vec].
  - destruct (push_all (successors (block bs bb)) (mkWork (bb_map w) (queue w ∖ {[bb]}) (new_vec w))) as (Em & Eq & Hn).
    cbn [bb_map queue new_vec] in *. by rewrite Em, Eq.
  - split; [done|]. split; [set_solver|]. exists []. rewrite app_nil_r. split; [done|]. split; [constructor|]. set_solver.
Qed.

(** The sets only grow. *)
Lemma visit_grows bs w bb i : inv bs w -> post_of (bb_map w) i ⊆ post_of (bb_map (visit bs w bb)) i.
Proof.
  intros Hi. destruct (visit_spec bs w bb) as (Em & _). rewrite Em. unfold post_of. destruct (decide (i = bb)) as [->|Hne].
  - rewrite lookup_insert_eq. cbn. destruct (bb_map w !! bb) as [p|] eqn:E; cbn; [|set_solver].
    rewrite (i_flow _ _ Hi _ _ E). apply flow_mono, (i_sub _ _ Hi _ _ E).
  - by rewrite lookup_insert_ne.
Qed.

(** An unchanged block leaves the sets of all blocks as they are. *)
Lemma visit_unchanged bs w bb i : changed bs w bb = false -> post_of (bb_map (visit bs w bb)) i = post_of (bb_map w) i.
Proof.
  intros Hc. destruct (visit_spec bs w bb) as (Em & _). rewrite Em. unfold post_of. destruct (decide (i = bb)) as [->|Hne].
  - rewrite lookup_insert_eq. unfold changed in Hc. destruct (bb_map w !! bb) as [[? old]|]; [|done]. apply negb_false_iff, bool_decide_eq_true in Hc. by rewrite Hc.
  - by rewrite lookup_insert_ne.
Qed.

Lemma visit_inv bs w bb : edges_ok bs -> inv bs w -> inv bs (visit bs w bb).
Proof.
  intros [He _] Hi. pose proof (fun i => visit_grows bs w bb i Hi) as Hg. pose proof (visit_unchanged bs w bb) as Hu.
  destruct (visit_spec bs w bb) as (Em & Eq & _). set (w' := visit bs w bb) in *.
  assert (forall c, incoming bs (bb_map w) c ⊆ incoming bs (bb_map w') c) as Hin by (intros; by apply incoming_mono).
  assert (forall c, c ∉ queue w' -> incoming bs (bb_map w') c = incoming bs (bb_map w) c) as Hsame.
  { intros c Hc. apply set_eq. intros r. split; [|apply Hin]. rewrite !elem_incoming. intros (p & Hp & Hr). exists p. split; [done|].
    destruct (changed bs w bb) eqn:Ec; [|by rewrite <- Hu]. rewrite Em in Hr. unfold post_of in *. destruct (decide (p = bb)) as [->|Hne].
    - exfalso. apply Hc. rewrite Eq. apply He in Hp. set_solver.
    - by rewrite lookup_insert_ne in Hr. }
  constructor.
  - intros c p. rewrite Em. destruct (decide (c = bb)) as [->|Hne]; [rewrite lookup_insert_eq; by intros [= <-]|].
    rewrite lookup_insert_ne by done. apply (i_flow _ _ Hi).
  - intros c p Hp. rewrite Em in Hp. destruct (decide (c = bb)) as [->|Hne].
    + rewrite lookup_insert_eq in Hp. injection Hp as <-. apply Hin.
    + rewrite lookup_insert_ne in Hp by done. etrans; [apply (i_sub _ _ Hi _ _ Hp)|apply Hin].
  - intros c p Hp Hc. rewrite Hsame by done. rewrite Em in Hp. destruct (decide (c = bb)) as [->|Hne].
    + rewrite lookup_insert_eq in Hp. by injection Hp as <-.
    + rewrite lookup_insert_ne in Hp by done. apply (i_eq _ _ Hi _ _ Hp). rewrite Eq in Hc. set_solver.
  - intros c succ Hc Hs. rewrite Em. destruct (decide (succ = bb)) as [->|Hn]; [left; rewrite lookup_insert_eq; eauto|].
    rewrite lookup_insert_ne by done. rewrite Em in Hc. rewrite Eq.
    destruct (decide (c = bb)) as [->|Hne].
    + destruct (changed bs w bb) eqn:Ec; [right; set_solver|]. destruct (bb_map w !! bb) as [q|] eqn:E; [|unfold changed in Ec; by rewrite E in Ec].
      destruct (i_succ _ _ Hi bb succ) as [|]; [by eexists|done|by left|right; set_solver].
    + rewrite lookup_insert_ne in Hc by done. destruct (i_succ _ _ Hi c succ Hc Hs); [by left|right; set_solver].
Qed.

(** ** Termination *)

Definition all_dirty (bs : list Block) : RegSet := ⋃ (DirtyRegs entries <$> bs).

Definition weight (m : gmap nat (RegSet * RegSet)) (bb : nat) : nat := match m !! bb with Some p => S (size p.2) | None => 0 end.
Definition measure (bs : list Block) (m : gmap nat (RegSet * RegSet)) : nat := sum_list (weight m <$> seq 0 (length bs)).

Lemma sum_le {A} (f g : A -> nat) l : (forall x, x ∈ l -> (f x <= g x)%nat) -> (sum_list (f <$> l) <= sum_list (g <$> l))%nat.
Proof.
  induction l as [|x l IH]; intros H; cbn; [lia|]. pose proof (H x ltac:(by left)). pose proof (IH ltac:(intros; apply H; by right)). unfold fmap in *. lia.
Qed.

Lemma sum_lt {A} (f g : A -> nat) l x :
  (forall y, y ∈ l -> (f y <= g y)%nat) -> x ∈ l -> (f x < g x)%nat -> (sum_list (f <$> l) < sum_list (g <$> l))%nat.
Proof.
  intros H Hx Hlt. induction l as [|y l IH]; [by apply elem_of_nil in Hx|]. cbn. pose proof (H y ltac:(by left)) as Hy.
  pose proof (sum_le f g l ltac:(intros; apply H; by right)). apply elem_of_cons in Hx as [->|Hx]; unfold fmap in *; [lia|].
  pose proof (IH ltac:(intros; apply H; by right) Hx). lia.
Qed.

Lemma weight_grows bs w bb i : inv bs w -> (weight (bb_map w) i <= weight (bb_map (visit bs w bb)) i)%nat.
Proof.
  intros Hi. pose proof (visit_grows bs w bb i Hi) as Hg. destruct (visit_spec bs w bb) as (Em & _). unfold weight, post_of in *.
  rewrite Em in *. destruct (decide (i = bb)) as [->|Hne].
  - rewrite lookup_insert_eq in *. destruct (bb_map w !! bb); cbn in *; [|lia]. apply le_n_S, subseteq_size, Hg.
  - by rewrite lookup_insert_ne.
Qed.

Lemma weight_changed bs w bb : inv bs w -> changed bs w bb = true -> (weight (bb_map w) bb < weight (bb_map (visit bs w bb)) bb)%nat.
Proof.
  intros Hi Hc. pose proof (visit_grows bs w bb bb Hi) as Hg. destruct (visit_spec bs w bb) as (Em & _). unfold weight, post_of in *.
  rewrite Em in *. rewrite lookup_insert_eq in *. unfold changed in Hc. destruct (bb_map w !! bb) as [[pre old]|]; cbn in *; [|lia].
  apply negb_true_iff, bool_decide_eq_false in Hc. apply -> Nat.succ_lt_mono. apply subset_size. split; [done|].
  intros Hsub. apply Hc. by apply set_eq_subseteq.
Qed.

Definition bounded (bs : list Block) (w : Work) : Prop := forall bb p, bb_map w !! bb = Some p -> p.2 ⊆ all_dirty bs.

Lemma block_dirty bs bb : DirtyRegs entries (block bs bb) ⊆ all_dirty bs.
Proof.
  unfold block, all_dirty. destruct (bs !! bb) as [b|] eqn:E; cbn; [|set_solver].
  intros r Hr. apply elem_of_union_list. exists (DirtyRegs entries b). split; [|done]. apply list_elem_of_fmap. exists b. split; [done|].
  by eapply list_elem_of_lookup_2.
Qed.

Lemma visit_bounded bs w bb : bounded bs w -> bounded bs (visit bs w bb).
Proof.
  intros Hb c p. destruct (visit_spec bs w bb) as (Em & _). rewrite Em. destruct (decide (c = bb)) as [->|Hne].
  - rewrite lookup_insert_eq. intros [= <-]. cbn. unfold RellumePacks.flow. pose proof (block_dirty bs bb).
    assert (incoming bs (bb_map w) bb ⊆ all_dirty bs); [|set_solver]. intros r. rewrite elem_incoming. intros (q & _ & Hq).
    unfold post_of in Hq. destruct (bb_map w !! q) as [x|] eqn:E; cbn in Hq; [|set_solver]. by apply (Hb q x E).
  - rewrite lookup_insert_ne by done. apply Hb.
Qed.

Definition bound (bs : list Block) : nat := length bs * S (size (all_dirty bs)).

Lemma measure_bound bs w : bounded bs w -> (measure bs (bb_map w) <= bound bs)%nat.
Proof.
  intros Hb. unfold measure, bound. etrans; [apply (sum_le _ (fun _ => S (size (all_dirty bs))))|].
  - intros x _. unfold weight. destruct (bb_map w !! x) as [p|] eqn:E; [|lia]. apply le_n_S, subseteq_size, (Hb x p E).
  - clear. rewrite <- (length_seq (length bs) 0) at 2. induction (seq 0 (length bs)) as [|y l IH]; cbn; [lia|]. unfold fmap in *. lia.
Qed.

(** ** Rounds *)

(** The queue is what is left of the round's vector and what the next round has. *)
Record round_inv (bs : list Block) (rest : list nat) (w : Work) : Prop := mkRound {
  ro_inv : inv bs w; ro_bounded : bounded bs w;
  ro_queue : queue w = list_to_set (rest ++ new_vec w); ro_nodup : NoDup (rest ++ new_vec w);
  ro_range : forall i, i ∈ rest ++ new_vec w -> (i < length bs)%nat }.

Lemma visit_round bs bb rest w : edges_ok bs -> round_inv bs (bb :: rest) w -> round_inv bs rest (visit bs w bb).
Proof.
  intros He [Hi Hb Hq Hn Hr]. destruct (visit_spec bs w bb) as (_ & Eq & added & En & Hna & Ha).
  cbn in Hn. apply NoDup_cons in Hn as [Hbb Hn].
  assert (queue w ∖ {[bb]} = list_to_set (rest ++ new_vec w)) as Eq'.
  { rewrite Hq. cbn. apply set_eq. intros i. rewrite elem_of_difference, elem_of_union, elem_of_singleton, elem_of_list_to_set.
    split; [naive_solver|]. intros Hin. split; [by right|]. by intros ->. }
  rewrite Eq' in Eq, Ha. setoid_rewrite elem_of_list_to_set in Ha. constructor.
  - by apply visit_inv.
  - by apply visit_bounded.
  - rewrite Eq, En. apply set_eq. intros i. rewrite app_assoc, elem_of_union, !elem_of_list_to_set, (elem_of_app (rest ++ _) added), Ha.
    destruct (decide (i ∈ rest ++ new_vec w)); naive_solver.
  - rewrite En, app_assoc. apply NoDup_app. split; [done|]. split; [|done]. intros i Hin Hadd. by apply Ha in Hadd as [_ ?].
  - intros i. rewrite En, app_assoc, (elem_of_app (rest ++ _) added), Ha. intros [Hin|[Hin _]]; [apply Hr; by right|].
    destruct (changed bs w bb); [|by apply elem_of_nil in Hin]. by apply (proj2 He bb i).
Qed.

(** A round that queues something has changed something. *)
Lemma visit_progress bs bb rest w :
  round_inv bs (bb :: rest) w ->
  (measure bs (bb_map w) <= measure bs (bb_map (visit bs w bb)))%nat /\
  (new_vec (visit bs w bb) <> new_vec w -> (measure bs (bb_map w) < measure bs (bb_map (visit bs w bb)))%nat).
Proof.
  intros [Hi _ _ _ Hr]. split.
  - apply sum_le. intros i _. by apply weight_grows.
  - intros Hne. destruct (changed bs w bb) eqn:Ec.
    + apply (sum_lt _ _ _ bb); [intros i _; by apply weight_grows| |by apply weight_changed]. apply elem_of_seq. split; [lia|]. apply Hr. by left.
    + exfalso. apply Hne. destruct (visit_spec bs w bb) as (_ & _ & added & En & _ & Ha). rewrite Ec in Ha. rewrite En.
      destruct added as [|x added]; [by rewrite app_nil_r|]. exfalso. destruct (Ha x) as [Hx _]. destruct Hx as [Hx _]; [by left|]. by apply elem_of_nil in Hx.
Qed.

Lemma round bs vec w :
  edges_ok bs -> round_inv bs vec w ->
  let w' := fold_left (visit bs) vec w in
  round_inv bs [] w' /\ (measure bs (bb_map w) <= measure bs (bb_map w'))%nat /\
  (new_vec w' <> new_vec w -> (measure bs (bb_map w) < measure bs (bb_map w'))%nat) /\
  (forall i, is_Some (bb_map w !! i) \/ i ∈ vec -> is_Some (bb_map w' !! i)).
Proof.
  intros He. cbv zeta. revert w. induction vec as [|bb vec IH]; intros w Hw; cbn [fold_left].
  - split; [done|]. split; [lia|]. split; [done|]. intros i [|Hi]; [done|by apply elem_of_nil in Hi].
  - destruct (IH _ (visit_round bs bb vec w He Hw)) as (Hr & Hle & Hlt & Hd). destruct (visit_progress bs bb vec w Hw) as [Hle1 Hlt1].
    split; [done|]. split; [lia|]. split.
    + intros Hne. destruct (decide (new_vec (visit bs w bb) = new_vec w)) as [E|E]; [rewrite <- E in Hne; specialize (Hlt Hne); lia|specialize (Hlt1 E); lia].
    + intros i Hi. apply Hd. destruct (visit_spec bs w bb) as (Em & _). rewrite Em. destruct (decide (i = bb)) as [->|Hne].
      * left. rewrite lookup_insert_eq. eauto.
      * rewrite lookup_insert_ne by done. rewrite elem_of_cons in Hi. naive_solver.
Qed.

Lemma round_again bs w : round_inv bs [] w -> round_inv bs (new_vec w) (mkWork (bb_map w) (queue w) []).
Proof. intros [[] Hb Hq Hn Hr]. constructor; cbn in *; rewrite ?app_nil_r; done. Qed.

Lemma opt_loop_ends bs fuel vec w i0 :
  edges_ok bs -> round_inv bs vec (mkWork (bb_map w) (queue w) []) -> (is_Some (bb_map w !! i0) \/ i0 ∈ vec) ->
  (bound bs - measure bs (bb_map w) < fuel)%nat ->
  exists m, opt_loop fuel bs vec w = Some m /\ inv bs (mkWork m ∅ []) /\ is_Some (m !! i0).
Proof.
  intros He. revert vec w. induction fuel as [|fuel IH]; intros vec w Hw H0 Hf; [lia|]. cbn [RellumePacks.opt_loop].
  case_decide as Hq.
  - eexists. split; [done|]. destruct Hw as [Hi _ Hqv _ _]. cbn in Hqv. rewrite app_nil_r in Hqv. rewrite <- Hq. split; [by destruct Hi|].
    destruct H0 as [|H0]; [done|]. exfalso. rewrite Hq in Hqv. assert (i0 ∈ (∅ : gset nat)) by (rewrite Hqv; by apply elem_of_list_to_set). set_solver.
  - destruct (round bs vec _ He Hw) as (Hr & Hle & Hlt & Hd). set (w' := fold_left _ _ _) in *. cbn [new_vec bb_map] in *.
    destruct (decide (new_vec w' = [])) as [E|E].
    + assert (queue w' = ∅) as Eq by (rewrite (ro_queue _ _ _ Hr), E; done).
      exists (bb_map w'). split; [|split; [|by apply Hd]].
      * destruct fuel; cbn; by rewrite decide_True.
      * destruct Hr as [[] _ _ _ _]. rewrite Eq in *. by constructor.
    + apply IH; [|left; by apply Hd|specialize (Hlt E); pose proof (measure_bound bs w' (ro_bounded _ _ _ Hr)); lia].
      by apply round_again.
Qed.

(** ** The theorem *)

Lemma reached bs m bb : edges_ok bs -> inv bs (mkWork m ∅ []) -> is_Some (m !! bb) -> fixpoint_at bs m bb /\ forall succ, succ ∈ successors (block bs bb) -> is_Some (m !! succ).
Proof.
  intros He Hi [p Hp]. assert (forall succ, succ ∈ successors (block bs bb) -> is_Some (m !! succ)) as Hs.
  { intros succ Hs. destruct (i_succ _ _ Hi bb succ) as [|Hin]; [by eexists|done|done|]. cbn in Hin. set_solver. }
  split; [|done]. unfold fixpoint_at, post_of, pre_of. rewrite Hp. cbn. split; [apply (i_flow _ _ Hi _ _ Hp)|].
  intros succ Hin. destruct (Hs succ Hin) as [q Hq]. rewrite Hq. cbn.
  rewrite (i_eq _ _ Hi _ _ Hq) by set_solver. cbn [bb_map]. intros r Hr. apply elem_incoming. exists bb.
  split; [by apply (proj1 He)|]. unfold post_of. by rewrite Hp.
Qed.

Lemma path_reached bs m bb path :
  edges_ok bs -> inv bs (mkWork m ∅ []) -> is_Some (m !! bb) -> is_path bs bb path -> forall i, i ∈ bb :: path -> fixpoint_at bs m i.
Proof.
  intros He Hi. revert bb. induction path as [|next path IH]; intros bb Hb Hp i Hin; destruct (reached bs m bb He Hi Hb) as [Hf Hs].
  - apply elem_of_cons in Hin as [->|Hin]; [done|by apply elem_of_nil in Hin].
  - destruct Hp as [Hn Hp]. apply elem_of_cons in Hin as [->|Hin]; [done|]. by apply (IH next); [apply Hs|..].
Qed.

Lemma inv_start bs q : inv bs (mkWork ∅ q []).
Proof. constructor; cbn; [by intros ? ? ?%lookup_empty_Some..|]. by intros ? ? [? ?%lookup_empty_Some]. Qed.

(** C12. The analysis of [OptimizePacks] ends, and the stores it leaves are
    enough: along every path from the entry, whatever the blocks compute and the
    functions they call do, registers and CPU struct are the same as when every
    register is stored at every call and return. *)
Theorem optimize_packs_sound bs entry :
  edges_ok bs -> (entry < length bs)%nat ->
  exists m, analyse entries (S (bound bs)) bs entry = Some m /\
  forall path x, is_path bs entry path -> clean ∅ x ->
    run_path entries (fun bb => kept m bb) bs (entry :: path) x = run_path entries (fun _ _ _ => true) bs (entry :: path) x.
Proof.
  intros He Hlt. destruct (opt_loop_ends bs (S (bound bs)) [entry] (mkWork ∅ {[entry]} []) entry He) as (m & Em & Hi & H0).
  - constructor; [by apply inv_start|intros ? ? H; cbn [bb_map] in H; by rewrite lookup_empty in H|cbn; set_solver| |]; cbn.
    + apply NoDup_singleton.
    + intros i Hi. apply list_elem_of_singleton in Hi as ->. done.
  - right. by left.
  - lia.
  - exists m. split; [exact Em|]. intros path x Hp Hc. apply run_path_same; [by apply path_reached|done|].
    intros r Hr _. apply Hc; [done|set_solver].
Qed.
End Packs.

(** ** The register files keep these sets *)

Definition reg_bits (es : list (ArchReg * Facet)) : RegSet :=
  ⋃ ((fun e => match e.1 with RINVALID => ∅ | _ => {[RegisterSetBitIdx e.1 e.2]} end) <$> es).
Definition rf_sets (rf : RegFile) : RegSet * RegSet := (dirty_regs rf, cleaned_regs rf).

Lemma cache_sets reg f v rf : rf_sets (cache reg f v rf).2 = rf_sets rf.
Proof. unfold cache. by destruct (AccessRegFacet reg f). Qed.

Lemma GetRegVector_sets rf reg f v rf' : GetRegVector rf reg f = Some (v, rf') -> rf_sets rf' = rf_sets rf.
Proof.
  unfold GetRegVector. intros H. destruct (GetRegFacet rf reg f); [by simplify_eq|].
  apply bind_Some in H as (n & _ & H). apply bind_Some in H as ([cnt sc] & _ & H). apply bind_Some in H as (t & _ & H). cbv zeta in H.
  apply bind_Some in H as (res & _ & H). apply (inj Some), (f_equal snd) in H. cbn [snd] in H. rewrite <- H. apply cache_sets.
Qed.

Lemma GetReg_sets rf reg f v rf' : GetReg rf reg f = Some (v, rf') -> rf_sets rf' = rf_sets rf.
Proof.
  unfold GetReg. intros H. destruct (negb _); [done|]. destruct (GetRegFacet rf reg f); [by simplify_eq|].
  destruct reg; try done.
  - apply bind_Some in H as (n & _ & H). apply bind_Some in H as (r & _ & H). apply (inj Some), (f_equal snd) in H. cbn [snd] in H. rewrite <- H. apply cache_sets.
  - apply bind_Some in H as (n & _ & H). destruct f; try done; [by simplify_eq|]. apply fmap_Some in H as (? & _ & H). by simplify_eq.
  - destruct (facet_vector f); [by apply GetRegVector_sets in H|]. unfold GetRegScalar in H.
    apply bind_Some in H as (n & _ & H). apply bind_Some in H as (t & _ & H). case_match.
    + apply bind_Some in H as (r & _ & H). apply (inj Some), (f_equal snd) in H. cbn [snd] in H. rewrite <- H. apply cache_sets.
    + apply bind_Some in H as (vf & _ & H). apply bind_Some in H as ([vec rf1] & E & H). apply GetRegVector_sets in E.
      apply (inj Some), (f_equal snd) in H. cbn [snd] in H. rewrite <- H, cache_sets. done.
Qed.

(** Storing and loading the registers changes the sets as the events do. *)
Lemma Pack_sets es rf cpu rf' cpu' : Pack es rf cpu = Some (rf', cpu') -> rf_sets rf' = ev_sets (reg_bits es) EPack (rf_sets rf).
Proof.
  revert rf cpu cpu'. induction es as [|[reg f] es IH]; intros rf cpu cpu' H; cbn [Pack] in H.
  - simplify_eq. unfold rf_sets, reg_bits. cbn. f_equal; set_solver.
  - destruct cpu as [|x cpu]; [done|]. apply bind_Some in H as ([rf1 y] & E1 & H). apply bind_Some in H as ([rf2 c2] & E2 & H).
    injection H as -> <-. apply IH in E2. rewrite E2.
    assert (rf_sets rf1 = ev_sets (reg_bits [(reg, f)]) EPack (rf_sets rf)) as E.
    { unfold reg_bits. cbn. destruct reg; [simplify_eq; unfold rf_sets; cbn; f_equal; set_solver|..];
        (apply bind_Some in E1 as ([v rf3] & Eg & E1); apply GetReg_sets in Eg; injection E1 as <- _; unfold rf_sets, mark in *; cbn in *;
         injection Eg as -> ->; f_equal; set_solver). }
    rewrite E. unfold rf_sets, reg_bits. cbn. f_equal; set_solver.
Qed.

Lemma SetReg_sets rf reg f v clear rf' :
  SetReg rf reg f v clear = Some rf' ->
  cleaned_regs rf' = cleaned_regs rf /\ (dirty_regs rf' = dirty_regs rf \/ dirty_regs rf' = {[RegisterSetBitIdx reg f]} ∪ dirty_regs rf).
Proof.
  unfold SetReg. case_decide as Hd; [|done]. clear Hd. intros H. apply bind_Some in H as (rf1 & E1 & H).
  assert (rf_sets rf1 = rf_sets rf) as Es by (repeat case_match; by simplify_eq). injection Es as Ed Ec. rewrite <- Ed, <- Ec.
  repeat case_match; simplify_eq; cbn; auto.
Qed.

Lemma Unpack_sets es cpu rf rf' fn : Unpack es cpu rf = Some rf' -> rf_sets rf' = ev_sets (reg_bits es) (ECall fn) (rf_sets rf).
Proof.
  revert rf cpu. induction es as [|[reg f] es IH]; intros rf cpu H; cbn [Unpack] in H.
  - simplify_eq. unfold rf_sets, reg_bits. cbn. f_equal; set_solver.
  - destruct cpu as [|x cpu]; [done|]. apply bind_Some in H as (rf1 & E1 & H). apply IH in H. rewrite H.
    assert (rf_sets rf1 = ev_sets (reg_bits [(reg, f)]) (ECall fn) (rf_sets rf)) as E.
    { unfold reg_bits. cbn. destruct reg; [simplify_eq; unfold rf_sets; cbn; f_equal; set_solver|..];
        (apply bind_Some in E1 as (t & _ & E1); apply bind_Some in E1 as (rf3 & Eg & E1); apply SetReg_sets in Eg as [Ec Ed]; injection E1 as <-;
         unfold rf_sets, mark; cbn; rewrite Ec; f_equal; destruct Ed as [-> | ->]; set_solver). }
    rewrite E. unfold rf_sets, reg_bits. cbn. f_equal; set_solver.
Qed.

(** ** Edges *)

Lemma block_alter f bs i j : (i < length bs)%nat -> block (alter f i bs) j = if decide (i = j) then f (block bs j) else block bs j.
Proof.
  intros Hi. unfold block. case_decide as E; [subst; rewrite list_lookup_alter_eq|by rewrite list_lookup_alter_ne].
  destruct (lookup_lt_is_Some_2 bs j Hi) as [b ->]. done.
Qed.

Lemma BranchTo_succ bs a b x : (a < length bs)%nat -> (b < length bs)%nat ->
  successors (block (BranchTo bs a b) x) = successors (block bs x) ++ if decide (a = x) then [b] else [].
Proof.
  intros. unfold BranchTo. rewrite !block_alter by (rewrite ?length_alter; done). by repeat case_decide; cbn; rewrite ?app_nil_r.
Qed.
Lemma BranchTo_pred bs a b x : (a < length bs)%nat -> (b < length bs)%nat ->
  predecessors (block (BranchTo bs a b) x) = predecessors (block bs x) ++ if decide (b = x) then [a] else [].
Proof.
  intros. unfold BranchTo. rewrite !block_alter by (rewrite ?length_alter; done). by repeat case_decide; cbn; rewrite ?app_nil_r.
Qed.

(** A branch is recorded at both ends. *)
Lemma BranchTo_edges bs a b : edges_ok bs -> (a < length bs)%nat -> (b < length bs)%nat -> edges_ok (BranchTo bs a b).
Proof.
  intros [He Hr] Ha Hb. split.
  - intros x y. rewrite BranchTo_succ, BranchTo_pred, !elem_of_app, He by done.
    repeat case_decide; rewrite ?list_elem_of_singleton, ?elem_of_nil; naive_solver.
  - intros x y. rewrite BranchTo_succ, elem_of_app by done. unfold BranchTo. rewrite !length_alter. intros [Hin|Hin]; [by eapply Hr|].
    case_decide; [|by apply elem_of_nil in Hin]. by apply list_elem_of_singleton in Hin as ->.
Qed.

Lemma BranchTo_cond_edges bs a t o :
  edges_ok bs -> (a < length bs)%nat -> (t < length bs)%nat -> (o < length bs)%nat -> edges_ok (BranchTo_cond bs a t o).
Proof.
  intros. unfold BranchTo_cond. assert (length (BranchTo bs a t) = length bs) as E by (unfold BranchTo; by rewrite !length_alter).
  case_decide; repeat apply BranchTo_edges; rewrite ?E; done.
Qed.

Lemma fresh_edges bs : Forall (fun b => predecessors b = [] /\ successors b = []) bs -> edges_ok bs.
Proof.
  intros Hb. assert (forall i, predecessors (block bs i) = [] /\ successors (block bs i) = []) as H.
  { intros i. unfold block. destruct (bs !! i) as [b|] eqn:E; [|done]. by eapply Forall_lookup_1 in Hb. }
  split; intros a b; rewrite (proj2 (H a)); [by rewrite (proj1 (H b)), !elem_of_nil|]. by intros ?%elem_of_nil.
Qed.

(** A loop: the entry branches to a block that changes register 8, calls a
    function and branches to itself or to the exit, which returns. *)
Definition loop_blocks : list Block :=
  let b es := mkBlock es [] [] in
  BranchTo_cond (BranchTo [b [ESet 9 (fun _ => 1)]; b [ESet 8 (fun cur => cur 8 + cur 9); EPack; ECall (fun slot i => if i =? 9 then 3 else slot i)]; b [EPack]] 0 1) 1 1 2.

Lemma loop_edges : edges_ok loop_blocks.
Proof.
  unfold loop_blocks. apply BranchTo_cond_edges; [|unfold BranchTo; rewrite !length_alter; cbn; lia..]. apply BranchTo_edges; [|cbn; lia..].
  apply fresh_edges. repeat (apply Forall_cons; split; [done|]). constructor.
Qed.

(** On the path entry, loop, loop, exit: register 10 is never stored, 8 and 9
    are where they changed. *)
Lemma optimize_packs_sound_witness :
  exists m, analyse {[8; 9; 10]} 100 loop_blocks 0 = Some m /\
  kept m 1 {[8]} 10 = false /\ kept m 1 {[8]} 9 = true /\ kept m 2 ∅ 8 = false /\
  forall x, clean {[8; 9; 10]} ∅ x ->
    run_path {[8; 9; 10]} (fun bb => kept m bb) loop_blocks [0%nat; 1%nat; 1%nat; 2%nat] x =
    run_path {[8; 9; 10]} (fun _ _ _ => true) loop_blocks [0%nat; 1%nat; 1%nat; 2%nat] x.
Proof.
  destruct (optimize_packs_sound {[8; 9; 10]} loop_blocks 0 loop_edges ltac:(vm_compute; lia)) as (m & Em & Hm).
  assert (analyse {[8; 9; 10]} 100 loop_blocks 0 = analyse {[8; 9; 10]} (S (bound {[8; 9; 10]} loop_blocks)) loop_blocks 0) as E by (vm_compute; reflexivity).
  exists m. rewrite E. split; [exact Em|]. rewrite <- E in Em. vm_compute in Em. injection Em as <-.
  split; [vm_compute; reflexivity|]. split; [vm_compute; reflexivity|]. split; [vm_compute; reflexivity|].
  intros x Hx. apply Hm; [|exact Hx]. split; [|split; [|split; [|exact I]]]; apply (bool_decide_eq_true_1 _); vm_compute; reflexivity.
Defined.
