(* ===== verification/RellumeA64.v ===== *)
(** * The AArch64 lifter, [subprojects/rellume/src/a64/main.cc]

    One definition per method of the class and one per group of cases of [Lift],
    over the instructions of [Farmdec].  The vector instructions
    ([LiftSIMD]) are a parameter, with the helpers on vectors that scalar code
    uses modelled here. *)

From Stdlib Require Import ZArith Lia.
From stdpp Require Import base numbers list option gmap.
From S2P Require Import Prelude Machine Farmdec Rellume.

(** The number of an operation, the key of [instr_overrides]. *)
Definition op_num (o : Op) : Z :=
  match o with
  | A64_UNKNOWN => 0 | A64_ERROR => 1 | A64_UDF => 2 | A64_ADR => 3 | A64_ADRP => 4 | A64_ADD_IMM => 5 | A64_CMN_IMM => 6 | A64_MOV_SP => 7
  | A64_SUB_IMM => 8 | A64_CMP_IMM => 9 | A64_AND_IMM => 10 | A64_ORR_IMM => 11 | A64_EOR_IMM => 12 | A64_TST_IMM => 13 | A64_MOVK => 14
  | A64_MOV_IMM => 15 | A64_SBFM => 16 | A64_ASR_IMM => 17 | A64_SBFIZ => 18 | A64_SBFX => 19 | A64_BFM => 20 | A64_BFC => 21
  | A64_BFI => 22 | A64_BFXIL => 23 | A64_UBFM => 24 | A64_LSL_IMM => 25 | A64_LSR_IMM => 26 | A64_UBFIZ => 27 | A64_UBFX => 28
  | A64_EXTEND => 29 | A64_EXTR => 30 | A64_ROR_IMM => 31 | A64_BCOND => 32 | A64_SVC => 33 | A64_HVC => 34 | A64_SMC => 35 | A64_BRK => 36
  | A64_HLT => 37 | A64_DCPS1 => 38 | A64_DCPS2 => 39 | A64_DCPS3 => 40 | A64_HINT => 41 | A64_CLREX => 42 | A64_DMB => 43 | A64_ISB => 44
  | A64_SB => 45 | A64_DSB => 46 | A64_SSBB => 47 | A64_PSSBB => 48 | A64_MSR_IMM => 49 | A64_CFINV => 50 | A64_XAFlag => 51
  | A64_AXFlag => 52 | A64_SYS => 53 | A64_SYSL => 54 | A64_MSR_REG => 55 | A64_MRS => 56 | A64_BR => 57 | A64_BLR => 58 | A64_RET => 59
  | A64_B => 60 | A64_BL => 61 | A64_CBZ => 62 | A64_CBNZ => 63 | A64_TBZ => 64 | A64_TBNZ => 65 | A64_UDIV => 66 | A64_SDIV => 67
  | A64_LSLV => 68 | A64_LSRV => 69 | A64_ASRV => 70 | A64_RORV => 71 | A64_CRC32B => 72 | A64_CRC32H => 73 | A64_CRC32W => 74
  | A64_CRC32X => 75 | A64_CRC32CB => 76 | A64_CRC32CH => 77 | A64_CRC32CW => 78 | A64_CRC32CX => 79 | A64_SUBP => 80 | A64_RBIT => 81
  | A64_REV16 => 82 | A64_REV => 83 | A64_REV32 => 84 | A64_CLZ => 85 | A64_CLS => 86 | A64_AND_SHIFTED => 87 | A64_TST_SHIFTED => 88
  | A64_BIC => 89 | A64_ORR_SHIFTED => 90 | A64_MOV_REG => 91 | A64_ORN => 92 | A64_MVN => 93 | A64_EOR_SHIFTED => 94 | A64_EON => 95
  | A64_ADD_SHIFTED => 96 | A64_CMN_SHIFTED => 97 | A64_SUB_SHIFTED => 98 | A64_NEG => 99 | A64_CMP_SHIFTED => 100 | A64_ADD_EXT => 101
  | A64_CMN_EXT => 102 | A64_SUB_EXT => 103 | A64_CMP_EXT => 104 | A64_ADC => 105 | A64_SBC => 106 | A64_NGC => 107 | A64_RMIF => 108
  | A64_SETF8 => 109 | A64_SETF16 => 110 | A64_CCMN_REG => 111 | A64_CCMP_REG => 112 | A64_CCMN_IMM => 113 | A64_CCMP_IMM => 114
  | A64_CSEL => 115 | A64_CSINC => 116 | A64_CINC => 117 | A64_CSET => 118 | A64_CSINV => 119 | A64_CINV => 120 | A64_CSETM => 121
  | A64_CSNEG => 122 | A64_CNEG => 123 | A64_MADD => 124 | A64_MUL => 125 | A64_MSUB => 126 | A64_MNEG => 127 | A64_SMADDL => 128
  | A64_SMULL => 129 | A64_SMSUBL => 130 | A64_SMNEGL => 131 | A64_SMULH => 132 | A64_UMADDL => 133 | A64_UMULL => 134 | A64_UMSUBL => 135
  | A64_UMNEGL => 136 | A64_UMULH => 137 | A64_LD1_MULT => 138 | A64_ST1_MULT => 139 | A64_LD2_MULT => 140 | A64_ST2_MULT => 141
  | A64_LD3_MULT => 142 | A64_ST3_MULT => 143 | A64_LD4_MULT => 144 | A64_ST4_MULT => 145 | A64_LD1_SINGLE => 146 | A64_ST1_SINGLE => 147
  | A64_LD2_SINGLE => 148 | A64_ST2_SINGLE => 149 | A64_LD3_SINGLE => 150 | A64_ST3_SINGLE => 151 | A64_LD4_SINGLE => 152
  | A64_ST4_SINGLE => 153 | A64_LD1R => 154 | A64_LD2R => 155 | A64_LD3R => 156 | A64_LD4R => 157 | A64_LDXR => 158 | A64_STXR => 159
  | A64_LDXP => 160 | A64_STXP => 161 | A64_LDAPR => 162 | A64_LDNP => 163 | A64_STNP => 164 | A64_LDNP_FP => 165 | A64_STNP_FP => 166
  | A64_LDP => 167 | A64_STP => 168 | A64_LDP_FP => 169 | A64_STP_FP => 170 | A64_LDR => 171 | A64_STR => 172 | A64_LDR_FP => 173
  | A64_STR_FP => 174 | A64_PRFM => 175 | A64_LDADD => 176 | A64_LDCLR => 177 | A64_LDEOR => 178 | A64_LDSET => 179 | A64_LDSMAX => 180
  | A64_LDSMIN => 181 | A64_LDUMAX => 182 | A64_LDUMIN => 183 | A64_SWP => 184 | A64_CAS => 185 | A64_CASP => 186 | A64_FCVT_GPR => 187
  | A64_FCVT_VEC => 188 | A64_CVTF => 189 | A64_CVTF_VEC => 190 | A64_FJCVTZS => 191 | A64_FRINT => 192 | A64_FRINT_VEC => 193
  | A64_FRINTX => 194 | A64_FRINTX_VEC => 195 | A64_FCVT_H => 196 | A64_FCVT_S => 197 | A64_FCVT_D => 198 | A64_FCVTL => 199
  | A64_FCVTN => 200 | A64_FCVTXN => 201 | A64_FABS => 202 | A64_FNEG => 203 | A64_FSQRT => 204 | A64_FMUL => 205 | A64_FMULX => 206
  | A64_FDIV => 207 | A64_FADD => 208 | A64_FSUB => 209 | A64_FMAX => 210 | A64_FMAXNM => 211 | A64_FMIN => 212 | A64_FMINNM => 213
  | A64_FRECPE => 214 | A64_FRECPS => 215 | A64_FRECPX => 216 | A64_FRSQRTE => 217 | A64_FRSQRTS => 218 | A64_FNMUL => 219
  | A64_FMADD => 220 | A64_FMSUB => 221 | A64_FNMADD => 222 | A64_FNMSUB => 223 | A64_FCMP_REG => 224 | A64_FCMP_ZERO => 225
  | A64_FCMPE_REG => 226 | A64_FCMPE_ZERO => 227 | A64_FCCMP => 228 | A64_FCCMPE => 229 | A64_FCSEL => 230 | A64_FMOV_VEC2GPR => 231
  | A64_FMOV_GPR2VEC => 232 | A64_FMOV_TOP2GPR => 233 | A64_FMOV_GPR2TOP => 234 | A64_FMOV_REG => 235 | A64_FMOV_IMM => 236
  | A64_FMOV_VEC => 237 | A64_FCMEQ_REG => 238 | A64_FCMEQ_ZERO => 239 | A64_FCMGE_REG => 240 | A64_FCMGE_ZERO => 241 | A64_FCMGT_REG => 242
  | A64_FCMGT_ZERO => 243 | A64_FCMLE_ZERO => 244 | A64_FCMLT_ZERO => 245 | A64_FACGE => 246 | A64_FACGT => 247 | A64_FABS_VEC => 248
  | A64_FABD_VEC => 249 | A64_FNEG_VEC => 250 | A64_FSQRT_VEC => 251 | A64_FMUL_ELEM => 252 | A64_FMUL_VEC => 253 | A64_FMULX_ELEM => 254
  | A64_FMULX_VEC => 255 | A64_FDIV_VEC => 256 | A64_FADD_VEC => 257 | A64_FCADD => 258 | A64_FSUB_VEC => 259 | A64_FMAX_VEC => 260
  | A64_FMAXNM_VEC => 261 | A64_FMIN_VEC => 262 | A64_FMINNM_VEC => 263 | A64_FRECPE_VEC => 264 | A64_FRECPS_VEC => 265
  | A64_FRSQRTE_VEC => 266 | A64_FRSQRTS_VEC => 267 | A64_FMLA_ELEM => 268 | A64_FMLA_VEC => 269 | A64_FMLAL_ELEM => 270
  | A64_FMLAL_VEC => 271 | A64_FMLAL2_ELEM => 272 | A64_FMLAL2_VEC => 273 | A64_FCMLA_ELEM => 274 | A64_FCMLA_VEC => 275
  | A64_FMLS_ELEM => 276 | A64_FMLS_VEC => 277 | A64_FMLSL_ELEM => 278 | A64_FMLSL_VEC => 279 | A64_FMLSL2_ELEM => 280
  | A64_FMLSL2_VEC => 281 | A64_FADDP => 282 | A64_FADDP_VEC => 283 | A64_FMAXP => 284 | A64_FMAXP_VEC => 285 | A64_FMAXV => 286
  | A64_FMAXNMP => 287 | A64_FMAXNMP_VEC => 288 | A64_FMAXNMV => 289 | A64_FMINP => 290 | A64_FMINP_VEC => 291 | A64_FMINV => 292
  | A64_FMINNMP => 293 | A64_FMINNMP_VEC => 294 | A64_FMINNMV => 295 | A64_AND_VEC => 296 | A64_BCAX => 297 | A64_BIC_VEC_IMM => 298
  | A64_BIC_VEC_REG => 299 | A64_BIF => 300 | A64_BIT => 301 | A64_BSL => 302 | A64_CLS_VEC => 303 | A64_CLZ_VEC => 304 | A64_CNT => 305
  | A64_EOR_VEC => 306 | A64_EOR3 => 307 | A64_NOT_VEC => 308 | A64_ORN_VEC => 309 | A64_ORR_VEC_IMM => 310 | A64_ORR_VEC_REG => 311
  | A64_MOV_VEC => 312 | A64_RAX1 => 313 | A64_RBIT_VEC => 314 | A64_REV16_VEC => 315 | A64_REV32_VEC => 316 | A64_REV64_VEC => 317
  | A64_SHL_IMM => 318 | A64_SHL_REG => 319 | A64_SHLL => 320 | A64_SHR => 321 | A64_SHRN => 322 | A64_SRA => 323 | A64_SLI => 324
  | A64_SRI => 325 | A64_XAR => 326 | A64_DUP_ELEM => 327 | A64_DUP_GPR => 328 | A64_EXT => 329 | A64_INS_ELEM => 330 | A64_INS_GPR => 331
  | A64_MOVI => 332 | A64_SMOV => 333 | A64_UMOV => 334 | A64_TBL => 335 | A64_TBX => 336 | A64_TRN1 => 337 | A64_TRN2 => 338
  | A64_UZP1 => 339 | A64_UZP2 => 340 | A64_XTN => 341 | A64_ZIP1 => 342 | A64_ZIP2 => 343 | A64_CMEQ_REG => 344 | A64_CMEQ_ZERO => 345
  | A64_CMGE_REG => 346 | A64_CMGE_ZERO => 347 | A64_CMGT_REG => 348 | A64_CMGT_ZERO => 349 | A64_CMHI_REG => 350 | A64_CMHS_REG => 351
  | A64_CMLE_ZERO => 352 | A64_CMLT_ZERO => 353 | A64_CMTST => 354 | A64_ABS_VEC => 355 | A64_ABD => 356 | A64_ABDL => 357 | A64_ABA => 358
  | A64_ABAL => 359 | A64_NEG_VEC => 360 | A64_MUL_ELEM => 361 | A64_MUL_VEC => 362 | A64_MULL_ELEM => 363 | A64_MULL_VEC => 364
  | A64_ADD_VEC => 365 | A64_ADDHN => 366 | A64_ADDL => 367 | A64_ADDW => 368 | A64_HADD => 369 | A64_SUB_VEC => 370 | A64_SUBHN => 371
  | A64_SUBL => 372 | A64_SUBW => 373 | A64_HSUB => 374 | A64_MAX_VEC => 375 | A64_MIN_VEC => 376 | A64_DOT_ELEM => 377 | A64_DOT_VEC => 378
  | A64_URECPE => 379 | A64_URSQRTE => 380 | A64_MLA_ELEM => 381 | A64_MLA_VEC => 382 | A64_MLS_ELEM => 383 | A64_MLS_VEC => 384
  | A64_MLAL_ELEM => 385 | A64_MLAL_VEC => 386 | A64_MLSL_ELEM => 387 | A64_MLSL_VEC => 388 | A64_ADDP => 389 | A64_ADDP_VEC => 390
  | A64_ADDV => 391 | A64_ADALP => 392 | A64_ADDLP => 393 | A64_ADDLV => 394 | A64_MAXP => 395 | A64_MAXV => 396 | A64_MINP => 397
  | A64_MINV => 398 | A64_QADD => 399 | A64_QABS => 400 | A64_SUQADD => 401 | A64_USQADD => 402 | A64_QSHL_IMM => 403 | A64_QSHL_REG => 404
  | A64_QSHRN => 405 | A64_QSUB => 406 | A64_QXTN => 407 | A64_SQABS => 408 | A64_SQADD => 409 | A64_SQDMLAL_ELEM => 410
  | A64_SQDMLAL_VEC => 411 | A64_SQDMLSL_ELEM => 412 | A64_SQDMLSL_VEC => 413 | A64_SQDMULH_ELEM => 414 | A64_SQDMULH_VEC => 415
  | A64_SQDMULL_ELEM => 416 | A64_SQDMULL_VEC => 417 | A64_SQNEG => 418 | A64_SQRDMLAH_ELEM => 419 | A64_SQRDMLAH_VEC => 420
  | A64_SQRDMLSH_ELEM => 421 | A64_SQRDMLSH_VEC => 422 | A64_SQSHLU => 423 | A64_SQSHRUN => 424 | A64_SQXTUN => 425 | A64_PMUL => 426
  | A64_PMULL => 427
  end.

(** ** The union of operands *)

(** A member that was not stored, and does not share its representation with the
    one that was, has no value here. *)
Definition imm_of (u : Operand) : option Z := match u with UImm x => Some x | UOffset o => Some (u64 o) | _ => None end.
Definition offset_of (u : Operand) : option Z := match u with UOffset o => Some o | UImm x => Some (s64 x) | _ => None end.
Definition ra_of (u : Operand) : option Z := match u with URa r => Some r | _ => None end.
Definition movk_of (u : Operand) : option (Z * Z) := match u with UMovk i l => Some (i, l) | _ => None end.
Definition bfm_of (u : Operand) : option (Z * Z) := match u with UBfm l w => Some (l, w) | _ => None end.
Definition ccmp_of (u : Operand) : option (Z * Z) := match u with UCcmp n i => Some (n, i) | _ => None end.
Definition sys_of (u : Operand) : option (Z * Z * Z * Z) := match u with USys a b c d => Some (a, b, c, d) | _ => None end.
Definition tbz_of (u : Operand) : option (Z * Z) := match u with UTbz o b => Some (o, b) | _ => None end.
Definition shift_of (u : Operand) : option (Z * Z) := match u with UShift t a => Some (t, a) | _ => None end.
Definition extend_of (u : Operand) : option (Z * Z) := match u with UExtend t l => Some (t, l) | _ => None end.
Definition fimm_of (u : Operand) : option Z := match u with UFimm x => Some x | _ => None end.
Definition ldst_of (u : Operand) : option (Z * Z * Z) := match u with ULdstOrder l s r => Some (l, s, r) | _ => None end.
Definition fcvt_of (u : Operand) : option (Z * Z * Z) := match u with UFcvt m f s => Some (m, f, s) | _ => None end.
Definition frint_of (u : Operand) : option (Z * Z) := match u with UFrint m b => Some (m, b) | _ => None end.

(** An instruction with its address and length. *)
Record Instr := mkAInst { i_a64 : Inst; i_start : Z; i_len : Z }.

(** How a case of the switch ends: it goes on behind it, or returns. *)
Inductive Next := Break | Unhandled | Return (ok : bool).

Definition brk (c : L unit) : L Next := c;; mret Break.

Definition is_w32 (a64 : Inst) : bool := has_flag (flags a64) W32.
Definition wbits (w32 : bool) : Z := if w32 then 32 else 64.

(** Up to 64 ones. *)
Definition ones (n : Z) : Z := if 64 <=? n then u64 (Z.lnot 0) else u64 (Z.shiftl 1 n) - 1.

Section A64.
Context (fp : FpSem) (fi : FunctionInfo) (cfg : LLConfig).
(** The place of [TPIDR_EL0] in the CPU struct, which the build generates; what
    an undefined value turns out to be; the vector instructions. *)
Context (TPIDR_EL0 : nat) (undef : Ty -> Z) (LiftSIMD : Inst -> L bool).

(** ** Registers *)

(** The zero register as a pointer is an integer all the same. *)
Definition GetGp (r : Z) (w32 ptr : bool) : L Value :=
  let fc := if ptr then FPTR else if w32 then FI32 else FI64 in
  if r =? ZERO_REG then mret (getIntN (if ptr then 64 else wbits w32) 0)
  else if r =? STACK_POINTER then get_reg (RGP 31) fc
  else get_reg (RGP r) fc.

Definition SetGp (r : Z) (w32 : bool) (val : Value) : L unit :=
  let fc := if w32 then FI32 else FI64 in
  if r =? ZERO_REG then mret tt
  else
    let reg := if r =? STACK_POINTER then RGP 31 else RGP r in
    v64 ← pure (CreateCast ZExt val (TInt 64));
    set_reg reg FI64 v64;;
    set_reg_facet reg fc val.

(** No flag here is the parity flag, which has another form. *)
Definition GetFlag (f : Facet) : L Value := get_reg REFLAGS f.
Definition SetFlag (f : Facet) (v : Value) : L unit := set_reg_facet REFLAGS f v.
Definition SetFlagUndef (l : list Facet) : L unit :=
  foldr (fun f c => SetFlag f (mkVal (TInt 1) (undef (TInt 1)) ConstExpr);; c) (mret tt) l.

(** ** Flags *)

Definition FlagCalcAdd (res lhs rhs : Value) : L unit :=
  let zero := getNullValue (v_ty res) in
  z ← pure (CreateICmp ICMP_EQ res zero); SetFlag FZF z;;
  n ← pure (CreateICmp ICMP_SLT res zero); SetFlag FSF n;;
  c ← pure (CreateICmp ICMP_ULT res lhs); SetFlag FCF c;;
  if enableOverflowIntrinsics cfg then o ← pure (CreateSAddOverflow lhs rhs); SetFlag FOF o
  else
    x ← pure (CreateBinOp Xor lhs rhs); tmp1 ← pure (CreateNot x);
    y ← pure (CreateBinOp Xor res lhs); tmp2 ← pure (CreateBinOp And tmp1 y);
    o ← pure (CreateICmp ICMP_SLT tmp2 zero); SetFlag FOF o.

Definition FlagCalcSub (res lhs rhs : Value) : L unit :=
  let zero := getNullValue (v_ty res) in
  sf ← pure (CreateICmp ICMP_SLT res zero);
  z ← pure (CreateICmp ICMP_EQ lhs rhs); SetFlag FZF z;;
  SetFlag FSF sf;;
  c ← pure (CreateICmp ICMP_UGE lhs rhs); SetFlag FCF c;;
  l ← pure (CreateICmp ICMP_SLT lhs rhs); o ← pure (CreateICmp ICMP_NE sf l); SetFlag FOF o.

Definition FlagCalcLogic (res : Value) : L unit :=
  let zero := getNullValue (v_ty res) in
  z ← pure (CreateICmp ICMP_EQ res zero); SetFlag FZF z;;
  n ← pure (CreateICmp ICMP_SLT res zero); SetFlag FSF n;;
  SetFlag FCF (getIntN 1 0);; SetFlag FOF (getIntN 1 0).

Definition FlagCalcFP (lhs rhs : Value) : L unit :=
  is_unordered ← pure (CreateFCmp fp FCMP_UNO lhs rhs);
  is_equal ← pure (CreateFCmp fp FCMP_OEQ lhs rhs);
  is_less ← pure (CreateFCmp fp FCMP_OLT lhs rhs);
  SetFlag FSF is_less;; SetFlag FZF is_equal;;
  c ← pure (CreateNot is_less); SetFlag FCF c;;
  SetFlag FOF is_unordered.

(** Inverted when the lowest bit of the condition is set. *)
Definition IsTrue (cond : Z) : L Value :=
  let res : option (L Value) :=
    match cond with
    | 0 | 1 => Some (GetFlag FZF)
    | 2 | 3 => Some (GetFlag FCF)
    | 4 | 5 => Some (GetFlag FSF)
    | 6 | 7 => Some (GetFlag FOF)
    | 8 | 9 => Some (c ← GetFlag FCF; z ← GetFlag FZF; nz ← pure (CreateNot z); pure (CreateBinOp And c nz))
    | 10 | 11 => Some (n ← GetFlag FSF; v ← GetFlag FOF; pure (CreateICmp ICMP_EQ n v))
    | 12 | 13 => Some (z ← GetFlag FZF; nz ← pure (CreateNot z); n ← GetFlag FSF; v ← GetFlag FOF;
                       ge ← pure (CreateICmp ICMP_EQ n v); pure (CreateBinOp And nz ge))
    | _ => None
    end in
  match res with
  | Some r => res ← r; if negb (Z.land cond 1 =? 0) then pure (CreateNot res) else mret res
  | None => if (cond =? 14) || (cond =? 15) then mret (getIntN 1 1) else pure None
  end.

(** ** Scalars in vector registers *)

Definition GetScalar (r fsz : Z) (float : bool) : L Value :=
  f ← pure (if fsz =? FSZ_B then Some FI8 else if fsz =? FSZ_H then Some FI16
            else if fsz =? FSZ_S then Some (if float then FF32 else FI32)
            else if fsz =? FSZ_D then Some (if float then FF64 else FI64)
            else if fsz =? FSZ_Q then Some FI128 else None);
  get_reg (RVEC r) f.

(** The value in element 0 of a vector of zeros, or all of the register. *)
Definition SetScalar (r : Z) (val : Value) : L unit :=
  let elemty := v_ty val in
  fc ← pure (facet_FromType elemty);
  let bits := ty_bits elemty in
  let fullvec := if bits =? 128 then val else mkVal (TVec (128 / bits) elemty) (v_bits val) (v_const val) in
  ivec ← pure (CreateCast BitCast fullvec (TVec 2 (TInt 64)));
  set_reg (RVEC r) FV2I64 ivec;;
  set_reg_facet (RVEC r) fc val.

(** ** Shifts, extensions, fields *)

Definition Shift (v : Value) (sh amount : Z) : option Value :=
  if negb (amount <? ty_bits (v_ty v)) then None
  else if amount =? 0 then Some v
  else
    let by_ := getIntN (ty_bits (v_ty v)) amount in
    match sh with
    | 0 => CreateBinOp Shl v by_
    | 1 => CreateBinOp LShr v by_
    | 2 => CreateBinOp AShr v by_
    | 3 => CreateFshr v by_
    | _ => Some v
    end.

Definition Extend (v : Value) (w32 : bool) (ext lsl : Z) : option Value :=
  srcbits ← (match ext with 0 | 4 => Some 8 | 1 | 5 => Some 16 | 2 | 6 => Some 32 | 3 | 7 => Some 64 | _ => None end);
  v ← CreateTruncOrBitCast v (TInt srcbits);
  extended ← CreateCast (if 4 <=? ext then SExt else ZExt) v (TInt (wbits w32));
  Shift extended SH_LSL lsl.

Definition Extract (v : Value) (w32 : bool) (lsb width : Z) : option Value :=
  v ← CreateBinOp LShr v (getIntN (wbits w32) lsb);
  CreateBinOp And v (getIntN (wbits w32) (ones width)).

Definition MoveField (v : Value) (w32 : bool) (lsb width : Z) : option Value :=
  v ← CreateBinOp And v (getIntN (wbits w32) (ones width));
  CreateBinOp Shl v (getIntN (wbits w32) lsb).

(** The sign bit of a field, found by a mask, decides whether the bits above are set. *)
Definition sext_field (field : Value) (w32 : bool) (sext_mask : Z) : option Value :=
  let m := getIntN (wbits w32) sext_mask in
  a ← CreateBinOp And field m;
  msb_set ← CreateICmp ICMP_NE a (getIntN (wbits w32) 0);
  extended ← CreateBinOp Or field m;
  CreateSelect msb_set extended field.

Definition MulAddSub (base : Value) (addsub : BinOp) (lhs rhs : Value) (extend : CastOp) : option Value :=
  match v_ty lhs with
  | TInt n =>
      let long_ty := TInt (n * 2) in
      long_base ← CreateCast extend base long_ty;
      long_lhs ← CreateCast extend lhs long_ty;
      long_rhs ← CreateCast extend rhs long_ty;
      long_prod ← CreateBinOp Mul long_lhs long_rhs;
      CreateBinOp addsub long_base long_prod
  | _ => None
  end.

(** [exact] tells [rint], which may signal, from [nearbyint]. *)
Definition Round (v : Value) (mode : Z) (exact : bool) : option Value :=
  match mode with
  | 0 => CreateFUn fp (if exact then FRint else FNearbyInt) v
  | 1 => CreateFUn fp FRoundEven v
  | 2 => CreateFUn fp FRound v
  | 3 => CreateFUn fp FFloor v
  | 4 => CreateFUn fp FTrunc v
  | 5 => CreateFUn fp FCeil v
  | _ => None
  end.

Definition TypeOf (sz : Z) : option Ty :=
  match sz with 0 => Some (TInt 8) | 1 => Some (TInt 16) | 2 => Some (TInt 32) | 3 => Some (TInt 64) | _ => None end.
Definition TypeOfFP (fsz : Z) : option Ty :=
  match fsz with 0 => Some (TInt 8) | 1 => Some (TInt 16) | 2 => Some TFloat | 3 => Some TDouble | 7 => Some (TInt 128) | _ => None end.

(** ** Addresses *)

Definition PCRel (off : Z) : L Value := ip ← get_reg RIP FI64; pure (CreateBinOp Add ip (getInt64 off)).

Definition addr_simple (base : Z) : L Value := p ← GetGp base false true; pure (CreatePointerCast p).

Definition addr_imm (base off : Z) : L Value :=
  ptr ← GetGp base false true; byteaddr ← pure (CreateGEP ptr (getInt64 off)); pure (CreatePointerCast byteaddr).

(** A byte offset, or an index into an array of elements of type [elemty]. *)
Definition addr_index (elemty : Ty) (base : Z) (off : Value) (lsl : Z) : L Value :=
  if (lsl =? 0) && negb (bool_decide (elemty = TInt 8)) then
    baseval ← GetGp base false false;
    byteaddr ← pure (CreateBinOp Add baseval off);
    pure (CreateCast IntToPtr byteaddr TPtr)
  else
    p ← GetGp base false true;
    elemptr ← pure (CreatePointerCast p);
    pure (CreateElemGEP elemty elemptr off).

Definition addr_reg (elemty : Ty) (base off lsl : Z) : L Value :=
  o ← GetGp off false false; addr_index elemty base o lsl.

Definition addr_ext (elemty : Ty) (base off ext lsl : Z) : L Value :=
  o ← GetGp off true false;
  o ← pure (match ext with 2 => CreateCast ZExt o (TInt 64) | 6 => CreateCast SExt o (TInt 64) | _ => None end);
  addr_index elemty base o lsl.

(** The base register plus the immediate, written back. *)
Definition write_back (inst : Inst) : L unit :=
  imm ← pure (imm_of (operand inst));
  base ← GetGp (rn inst) false false;
  sum ← pure (CreateBinOp Add base (getInt64 imm));
  SetGp (rn inst) false sum.

Definition Addr (elemty : Ty) (inst : Inst) : L Value :=
  match fad_get_addrmode (flags inst) with
  | 0 => addr_simple (rn inst)
  | 1 => off ← pure (offset_of (operand inst)); addr_imm (rn inst) off
  | 2 => '(_, amount) ← pure (shift_of (operand inst)); addr_reg elemty (rn inst) (rm inst) amount
  | 3 => '(ty, lsl) ← pure (extend_of (operand inst)); addr_ext elemty (rn inst) (rm inst) ty lsl
  | 4 => write_back inst;; addr_simple (rn inst)
  | 5 => addr ← addr_simple (rn inst); write_back inst;; mret addr
  | 6 => off ← pure (offset_of (operand inst)); a ← PCRel off; pure (CreateCast IntToPtr a TPtr)
  | _ => pure None
  end.

(** ** Loads and stores *)

(** An access with an ordering must be aligned, and the ordering must suit it:
    acquire for loads, release for stores. *)
Definition is_acquire (mo : Z) : bool := (mo =? MO_ACQUIRE) || (mo =? MO_LO_ACQUIRE) || (mo =? MO_ACQUIRE_PC).
Definition is_release (mo : Z) : bool := (mo =? MO_RELEASE) || (mo =? MO_LO_RELEASE).
Definition ordered (suits : bool) (mo : Z) (t : Ty) (p : Value) : option unit :=
  if mo =? MO_NONE then Some tt
  else if suits && (v_bits p `mod` (ty_bits t / 8) =? 0) then Some tt else None.

Definition load_from (srcty : Ty) (ptr : Value) (mo : Z) : L Value :=
  pure (ordered (is_acquire mo) mo srcty ptr);; CreateLoad srcty ptr.

Definition Load (rt : Z) (w32 : bool) (srcty : Ty) (ptr : Value) (ext mo : Z) : L unit :=
  load ← load_from srcty ptr mo; v ← pure (Extend load w32 ext 0); SetGp rt w32 v.

Definition LoadFP (rt : Z) (srcty : Ty) (ptr : Value) (mo : Z) : L unit :=
  load ← load_from srcty ptr mo; SetScalar rt load.

Definition Store (ptr val : Value) (mo : Z) : L unit :=
  pure (ordered (is_release mo) mo (v_ty val) ptr);; CreateStore val ptr.

(** [rt] is [rd], [rt2] is [rm]; the second of a pair goes first. *)
Definition LiftLoadStore (a64 : Inst) (w32 float : bool) : L unit :=
  let ext := fad_get_mem_extend (flags a64) in
  let fsz := fad_get_prec (flags a64) in
  mo ← pure (if fad_get_addrmode (flags a64) =? AM_SIMPLE then
               '(load, store, _) ← ldst_of (operand a64); Some (if load =? MO_NONE then store else load)
             else Some MO_NONE);
  memty ← pure (if float then TypeOfFP fsz else TypeOf (Z.land ext 3));
  ptr ← Addr memty a64;
  let second : L Value := pure (CreateElemGEP memty ptr (getInt64 1)) in
  let load r p := Load r w32 memty p ext mo in
  let store r p := x ← GetGp r w32 false; v ← pure (CreateTruncOrBitCast x memty); Store p v mo in
  let store_fp r p := v ← GetScalar r fsz true; Store p v mo in
  match op a64 with
  | A64_LDP | A64_LDXP => p ← second; load (rm a64) p;; load (rd a64) ptr
  | A64_LDR | A64_LDXR => load (rd a64) ptr
  | A64_STP | A64_STXP => p ← second; store (rm a64) p;; store (rd a64) ptr
  | A64_STR | A64_STXR => store (rd a64) ptr
  | A64_LDP_FP => p ← second; LoadFP (rm a64) memty p mo;; LoadFP (rd a64) memty ptr mo
  | A64_LDR_FP => LoadFP (rd a64) memty ptr mo
  | A64_STP_FP => p ← second; store_fp (rm a64) p;; store_fp (rd a64) ptr
  | A64_STR_FP => store_fp (rd a64) ptr
  | _ => pure None
  end.

(** ** Groups of instructions *)

Inductive BinOpKind := SHIFT | EXT | IMM.

Definition LiftBinOp (a64 : Inst) (o : BinOp) (kind : BinOpKind) (invert_rhs : bool) : L unit :=
  let w32 := is_w32 a64 in
  lhs ← GetGp (rn a64) w32 false;
  rhs ← (match kind with
         | SHIFT => x ← GetGp (rm a64) w32 false; '(ty, amount) ← pure (shift_of (operand a64)); pure (Shift x ty amount)
         | EXT => x ← GetGp (rm a64) w32 false; '(ty, lsl) ← pure (extend_of (operand a64)); pure (Extend x w32 ty lsl)
         | IMM => imm ← pure (imm_of (operand a64)); mret (getIntN (wbits w32) imm)
         end : L Value);
  rhs ← (if invert_rhs then pure (CreateNot rhs) else mret rhs);
  val ← pure (CreateBinOp o lhs rhs);
  SetGp (rd a64) w32 val;;
  if has_flag (flags a64) SET_FLAGS then
    match o with
    | Add => FlagCalcAdd val lhs rhs
    | Sub => FlagCalcSub val lhs rhs
    | And => FlagCalcLogic val
    | _ => pure None
    end
  else mret tt.

(** How the two values are compared. *)
Inductive Compare := CmpFP | CmpAdd | CmpSub.

Definition LiftCCmp (lhs rhs : Value) (cond nzcv : Z) (how : Compare) : L unit :=
  cond_holds ← IsTrue cond;
  (match how with
   | CmpFP => FlagCalcFP lhs rhs
   | CmpAdd => res ← pure (CreateBinOp Add lhs rhs); FlagCalcAdd res lhs rhs
   | CmpSub => res ← pure (CreateBinOp Sub lhs rhs); FlagCalcSub res lhs rhs
   end);;
  let sel f bit :=
    x ← GetFlag f; y ← pure (CreateSelect cond_holds x (getIntN 1 (Z.b2z (negb (Z.land nzcv bit =? 0))))); SetFlag f y in
  sel FSF 8;; sel FZF 4;; sel FCF 2;; sel FOF 1.

Definition LiftBinOpFP (o : FBinOp) (a64 : Inst) : L unit :=
  let prec := fad_get_prec (flags a64) in
  lhs ← GetScalar (rn a64) prec true; rhs ← GetScalar (rm a64) prec true;
  v ← pure (CreateFBin fp o lhs rhs); SetScalar (rd a64) v.

(** Not fused. *)
Definition LiftFMA (a64 : Inst) (neg_mult sub : bool) : L unit :=
  let prec := fad_get_prec (flags a64) in
  ra ← pure (ra_of (operand a64));
  x ← GetScalar (rn a64) prec true; y ← GetScalar (rm a64) prec true;
  mul ← pure (CreateFBin fp FMul x y);
  mul ← (if neg_mult then pure (CreateFUn fp FNeg mul) else mret mul);
  z ← GetScalar ra prec true;
  v ← pure (CreateFBin fp (if sub then FSub else FAdd) mul z); SetScalar (rd a64) v.

Definition LiftIntrinsicFP (o : FUnOp) (a64 : Inst) : L unit :=
  val ← GetScalar (rn a64) (fad_get_prec (flags a64)) true; v ← pure (CreateFUn fp o val); SetScalar (rd a64) v.

(** ** The cases of [Lift], in their order *)

(** A result computed from one register. *)
Definition unary (a64 : Inst) (f : Value -> option Value) : L Next :=
  let w32 := is_w32 a64 in
  brk (x ← GetGp (rn a64) w32 false; v ← pure (f x); SetGp (rd a64) w32 v).

(** From two. *)
Definition binary (a64 : Inst) (f : Value -> Value -> option Value) : L Next :=
  let w32 := is_w32 a64 in
  brk (x ← GetGp (rn a64) w32 false; y ← GetGp (rm a64) w32 false; v ← pure (f x y); SetGp (rd a64) w32 v).

(** A bit field of the source goes into the destination, whose bits under
    [clrmask] are cleared. *)
Definition lift_insert (a64 : Inst) (f : Value -> option Value) (clrmask : Z) : L Next :=
  let w32 := is_w32 a64 in
  brk (x ← GetGp (rn a64) w32 false; src ← pure (f x);
       d ← GetGp (rd a64) w32 false; dst ← pure (CreateBinOp And d (getIntN (wbits w32) clrmask));
       v ← pure (CreateBinOp Or src dst); SetGp (rd a64) w32 v).

Definition lift_imm (a64 : Inst) : option (L Next) :=
  let w32 := is_w32 a64 in
  let bits := wbits w32 in
  let u := operand a64 in
  match op a64 with
  | A64_ADR => Some (brk (off ← pure (offset_of u); v ← PCRel off; SetGp (rd a64) false v))
  | A64_ADRP =>
      Some (brk (off ← pure (offset_of u);
                 ip ← get_reg RIP FI64; masked_pc ← pure (CreateBinOp And ip (getInt64 (Z.lnot 4095)));
                 v ← pure (CreateBinOp Add masked_pc (getInt64 off)); SetGp (rd a64) false v))
  | A64_AND_IMM | A64_TST_IMM => Some (brk (LiftBinOp a64 And IMM false))
  | A64_ORR_IMM => Some (brk (LiftBinOp a64 Or IMM false))
  | A64_EOR_IMM => Some (brk (LiftBinOp a64 Xor IMM false))
  | A64_ADD_IMM | A64_MOV_SP | A64_CMN_IMM => Some (brk (LiftBinOp a64 Add IMM false))
  | A64_SUB_IMM | A64_CMP_IMM => Some (brk (LiftBinOp a64 Sub IMM false))
  | A64_MOVK =>
      Some (brk ('(imm16, lsl) ← pure (movk_of u);
                 val ← GetGp (rd a64) w32 false;
                 val ← pure (CreateBinOp And val (getIntN bits (u64 (Z.lnot (Z.shiftl 0xffff lsl)))));
                 val ← pure (CreateBinOp Or val (getIntN bits (u64 (Z.shiftl imm16 lsl))));
                 SetGp (rd a64) w32 val))
  | A64_MOV_IMM => Some (brk (imm ← pure (imm_of u); SetGp (rd a64) w32 (getIntN bits imm)))
  | A64_SBFM | A64_BFM | A64_UBFM => Some (pure None)
  | A64_ASR_IMM => Some (imm ← pure (imm_of u); unary a64 (fun x => Shift x 2 (u32 imm)))
  | A64_SBFIZ =>
      Some ('(lsb, width) ← pure (bfm_of u);
            unary a64 (fun x => field ← MoveField x w32 lsb width; sext_field field w32 (u64 (Z.shiftl (u64 (-1)) (lsb + width - 1)))))
  | A64_SBFX =>
      Some ('(lsb, width) ← pure (bfm_of u);
            unary a64 (fun x => field ← Extract x w32 lsb width; sext_field field w32 (u64 (Z.shiftl (u64 (-1)) (width - 1)))))
  | A64_BFC =>
      Some (brk ('(lsb, width) ← pure (bfm_of u);
                 d ← GetGp (rd a64) w32 false;
                 v ← pure (CreateBinOp And d (getIntN bits (u64 (Z.lnot (u64 (Z.shiftl (ones width) lsb)))))); SetGp (rd a64) w32 v))
  | A64_BFI =>
      Some ('(lsb, width) ← pure (bfm_of u);
            lift_insert a64 (fun x => MoveField x w32 lsb width) (u64 (Z.lnot (u64 (Z.shiftl (ones width) lsb)))))
  | A64_BFXIL =>
      Some ('(lsb, width) ← pure (bfm_of u);
            lift_insert a64 (fun x => Extract x w32 lsb width) (u64 (Z.lnot (ones width))))
  | A64_LSL_IMM => Some (imm ← pure (imm_of u); unary a64 (fun x => Shift x 0 (u32 imm)))
  | A64_LSR_IMM => Some (imm ← pure (imm_of u); unary a64 (fun x => Shift x 1 (u32 imm)))
  | A64_UBFIZ => Some ('(lsb, width) ← pure (bfm_of u); unary a64 (fun x => MoveField x w32 lsb width))
  | A64_UBFX => Some ('(lsb, width) ← pure (bfm_of u); unary a64 (fun x => Extract x w32 lsb width))
  | A64_EXTEND => Some ('(ty, _) ← pure (extend_of u); unary a64 (fun x => Extend x w32 ty 0))
  | A64_EXTR =>
      Some (imm ← pure (imm_of u);
            binary a64 (fun x y =>
              xl ← CreateCast ZExt x (TInt (bits * 2)); high ← CreateBinOp Shl xl (getIntN (bits * 2) bits);
              low ← CreateCast ZExt y (TInt (bits * 2));
              long_val ← CreateBinOp Or high low;
              long_val ← CreateBinOp LShr long_val (getIntN (bits * 2) imm);
              long_val ← CreateBinOp And long_val (getIntN (bits * 2) (ones bits));
              CreateCast Trunc long_val (TInt bits)))
  | A64_ROR_IMM => Some (imm ← pure (imm_of u); unary a64 (fun x => Shift x 3 (u32 imm)))
  | _ => None
  end.

(** Reading and writing [TPIDR_EL0] in the CPU struct. *)
Definition store_sptr (i : nat) (v : Value) : L unit := fun s =>
  _ ← l_cpu s !! i; Some (tt, mkL (l_rf s) (l_mem s) (<[i := v_bits v]> (l_cpu s)) (l_ret s)).
Definition load_sptr (i : nat) : L Value := fun s => x ← l_cpu s !! i; Some (mkVal (TInt 64) x NotConst, s).

(** One bit of a register. *)
Definition bit_of (v : Value) (i : Z) : option Value := x ← CreateBinOp LShr v (getInt64 i); CreateCast Trunc x (TInt 1).

Definition lift_msr (a64 : Inst) (imm : Z) : L Next :=
  match imm with
  | 0xde82 => brk (x ← GetGp (rd a64) false false; store_sptr TPIDR_EL0 x)
  | 0xda10 =>
      brk (nzcv ← GetGp (rd a64) false false;
           n ← pure (bit_of nzcv 31); SetFlag FSF n;; z ← pure (bit_of nzcv 30); SetFlag FZF z;;
           c ← pure (bit_of nzcv 29); SetFlag FCF c;; v ← pure (bit_of nzcv 28); SetFlag FOF v)
  | 0xda20 | 0xda21 => mret Break
  | _ => mret (Return false)
  end.

Definition or_flag (nzcv : Value) (f : Facet) (i : Z) : L Value :=
  x ← GetFlag f; x ← pure (CreateCast ZExt x (TInt 64)); x ← pure (CreateBinOp Shl x (getInt64 i)); pure (CreateBinOp Or nzcv x).

Definition lift_mrs (a64 : Inst) (imm : Z) : L Next :=
  let const x := brk (SetGp (rd a64) false (getIntN 64 x)) in
  match imm with
  | 0xde82 => brk (res ← load_sptr TPIDR_EL0; SetGp (rd a64) false res)
  | 0xda10 =>
      brk (nzcv ← or_flag (getIntN 64 0) FSF 31; nzcv ← or_flag nzcv FZF 30; nzcv ← or_flag nzcv FCF 29; nzcv ← or_flag nzcv FOF 28;
           SetGp (rd a64) false nzcv)
  | 0xda20 | 0xda21 => const 0
  | 0xd807 => const 4
  | 0xc000 => const (Z.shiftl 0xf 16)
  | _ => mret (Return false)
  end.

(** [CreateMemSet] with zero. *)
Definition clear_bytes (n : nat) (ptr : Value) : L unit := CreateStore (mkVal (TInt (8 * Z.of_nat n)) 0 ConstInt) ptr.

(** Barriers order accesses, of which there is one thread here. *)
Definition lift_system (a64 : Inst) : option (L Next) :=
  let u := operand a64 in
  match op a64 with
  | A64_SVC => Some (brk (match syscall_implementation cfg with Some fn => CallExternalFunction cfg fn | None => mret tt end))
  | A64_HINT => Some (mret Break)
  | A64_DMB => Some (imm ← pure (imm_of u); if (1 <=? imm) && (imm <=? 15) && negb (Z.land imm 3 =? 0) then mret Break else pure None)
  | A64_MSR_REG => Some (imm ← pure (imm_of u); lift_msr a64 imm)
  | A64_CFINV => Some (brk (c ← GetFlag FCF; nc ← pure (CreateNot c); SetFlag FCF nc))
  | A64_SYS =>
      Some ('(op1, op2, crn, crm) ← pure (sys_of u);
            if (op1 =? 3) && (op2 =? 1) && (crn =? 7) && (crm =? 4) then
              brk (addr ← GetGp (rd a64) false false;
                   start ← pure (CreateBinOp And addr (getInt64 (Z.lnot 0x3f)));
                   ptr ← pure (CreateCast IntToPtr start TPtr);
                   clear_bytes 64 ptr)
            else mret (Return false))
  | A64_MRS => Some (imm ← pure (imm_of u); lift_mrs a64 imm)
  | _ => None
  end.

Definition clobber_flags : L unit := if call_ret_clobber_flags cfg then SetFlagUndef [FOF; FSF; FZF; FCF] else mret tt.

(** The address of the next instruction, or the target when [c] holds. *)
Definition branch_if (c : Value) (off len : Z) : L Next :=
  on_true ← PCRel off; on_false ← PCRel len;
  sel ← pure (CreateSelect c on_true on_false);
  set_reg RIP FI64 sel;; mret (Return true).

Definition lift_call (inst : Instr) : L Next :=
  let a64 := i_a64 inst in
  clobber_flags;;
  ret_addr ← PCRel (i_len inst);
  SetGp 30 false ret_addr;;
  (match op a64 with
   | A64_BLR => t ← GetGp (rn a64) false false; set_reg RIP FI64 t
   | _ => off ← pure (offset_of (operand a64)); SetIP fi (i_start inst + off) false
   end);;
  (match call_function cfg with
   | None => mret tt
   | Some fn =>
       CallExternalFunction cfg fn;;
       cont_addr ← get_reg RIP FI64;
       eq ← pure (CreateICmp ICMP_EQ cont_addr ret_addr);
       sel ← pure (CreateSelect eq ret_addr cont_addr);
       set_reg RIP FI64 sel
   end);;
  mret (Return true).

Definition lift_branch (inst : Instr) : option (L Next) :=
  let a64 := i_a64 inst in
  let u := operand a64 in
  let w32 := is_w32 a64 in
  let bits := wbits w32 in
  let compare (p : Pred) := (
    off ← pure (offset_of u); x ← GetGp (rd a64) w32 false; c ← pure (CreateICmp p x (getIntN bits 0)); branch_if c off (i_len inst)) in
  let test (p : Pred) := (
    '(off, b) ← pure (tbz_of u);
    if negb (b <? bits) then pure None
    else
      x ← GetGp (rd a64) w32 false;
      bit ← pure (CreateBinOp And x (getIntN bits (u64 (Z.shiftl 1 b))));
      c ← pure (CreateICmp p bit (getIntN bits 0)); branch_if c off (i_len inst)) in
  match op a64 with
  | A64_BCOND => Some (off ← pure (offset_of u); c ← IsTrue (fad_get_cond (flags a64)); branch_if c off (i_len inst))
  | A64_B => Some (off ← pure (offset_of u); SetIP fi (i_start inst + off) false;; mret (Return true))
  | A64_BR => Some (t ← GetGp (rn a64) false false; set_reg RIP FI64 t;; mret (Return true))
  | A64_BL | A64_BLR => Some (lift_call inst)
  | A64_RET =>
      Some (clobber_flags;;
            t ← GetGp (rn a64) false false; set_reg RIP FI64 t;;
            (match call_function cfg with Some _ => ForceReturn cfg | None => mret tt end);;
            mret (Return true))
  | A64_CBZ => Some (compare ICMP_EQ)
  | A64_CBNZ => Some (compare ICMP_NE)
  | A64_TBZ => Some (test ICMP_EQ)
  | A64_TBNZ => Some (test ICMP_NE)
  | _ => None
  end.

(** Division by zero gives zero; a divisor that would trap is replaced. *)
Definition lift_udiv (bits : Z) (lhs rhs : Value) : option Value :=
  is_zero ← CreateICmp ICMP_EQ rhs (getIntN bits 0);
  safe_rhs ← CreateSelect is_zero (getIntN bits 1) rhs;
  q ← CreateBinOp UDiv lhs safe_rhs;
  CreateSelect is_zero (getIntN bits 0) q.

Definition lift_sdiv (bits : Z) (lhs rhs : Value) : option Value :=
  is_zero ← CreateICmp ICMP_EQ rhs (getIntN bits 0);
  safe_rhs ← CreateSelect is_zero (getIntN bits 1) rhs;
  let int_min := getIntN bits (- 2 ^ (bits - 1)) in
  m ← CreateICmp ICMP_EQ lhs int_min;
  o ← CreateICmp ICMP_EQ rhs (getIntN bits (-1));
  is_min ← CreateBinOp And m o;
  safe_rhs ← CreateSelect is_min (getIntN bits 1) safe_rhs;
  q ← CreateBinOp SDiv lhs safe_rhs;
  val ← CreateSelect is_min int_min q;
  CreateSelect is_zero (getIntN bits 0) val.

(** The amount is taken modulo the width. *)
Definition lift_shiftv (bits : Z) (f : Value -> Value -> option Value) (lhs rhs : Value) : option Value :=
  amount ← CreateBinOp And rhs (getIntN bits (bits - 1)); f lhs amount.

(** Bytes swapped in every element of [esize] bits. *)
Definition lift_rev (bits esize : Z) (v : Value) : option Value :=
  invec ← CreateCast BitCast v (TVec (bits / esize) (TInt esize));
  outvec ← CreateIntrinsic Bswap invec;
  CreateCast BitCast outvec (TInt bits).

(** The carry is added to the second operand first, and the flags computed from that. *)
Definition lift_carry (a64 : Inst) (add : bool) : L Next :=
  let w32 := is_w32 a64 in
  brk (lhs ← GetGp (rn a64) w32 false; rhs ← GetGp (rm a64) w32 false;
       cf ← GetFlag FCF;
       cf ← (if add then mret cf else pure (CreateNot cf));
       cfx ← pure (CreateCast ZExt cf (TInt (wbits w32)));
       rhs ← pure (CreateBinOp Add rhs cfx);
       val ← pure (CreateBinOp (if add then Add else Sub) lhs rhs);
       SetGp (rd a64) w32 val;;
       if has_flag (flags a64) SET_FLAGS then (if add then FlagCalcAdd val lhs rhs else FlagCalcSub val lhs rhs) else mret tt).

(** The values for a condition that holds and one that does not, from [rn] and [rm]. *)
Definition lift_csel (a64 : Inst) (f : Value -> Value -> option (Value * Value)) : L Next :=
  let w32 := is_w32 a64 in
  brk (x ← GetGp (rn a64) w32 false; y ← GetGp (rm a64) w32 false;
       '(on_true, on_false) ← pure (f x y);
       c ← IsTrue (fad_get_cond (flags a64));
       v ← pure (CreateSelect c on_true on_false); SetGp (rd a64) w32 v).

(** The same from [rn] alone. *)
Definition lift_cinc (a64 : Inst) (f : Value -> option Value) : L Next :=
  let w32 := is_w32 a64 in
  brk (val ← GetGp (rn a64) w32 false; on_true ← pure (f val);
       c ← IsTrue (fad_get_cond (flags a64));
       v ← pure (CreateSelect c on_true val); SetGp (rd a64) w32 v).

Definition lift_mull (a64 : Inst) (addsub : BinOp) (ext : CastOp) : L Next :=
  brk (ra ← pure (ra_of (operand a64));
       base ← GetGp ra false false; lhs ← GetGp (rn a64) true false; rhs ← GetGp (rm a64) true false;
       v ← pure (MulAddSub base addsub lhs rhs ext); SetGp (rd a64) false v).

Definition lift_mulh (a64 : Inst) (ext : CastOp) : L Next :=
  brk (lhs ← GetGp (rn a64) false false; rhs ← GetGp (rm a64) false false;
       long_val ← pure (MulAddSub (getIntN 64 0) Add lhs rhs ext);
       high_half ← pure (CreateBinOp LShr long_val (getIntN 128 64));
       v ← pure (CreateCast Trunc high_half (TInt 64)); SetGp (rd a64) false v).

Definition lift_madd (a64 : Inst) (sub : bool) : L Next :=
  let w32 := is_w32 a64 in
  brk (lhs ← GetGp (rn a64) w32 false; rhs ← GetGp (rm a64) w32 false;
       ra ← pure (ra_of (operand a64)); base ← GetGp ra w32 false;
       prod ← pure (CreateBinOp Mul lhs rhs);
       v ← pure (CreateBinOp (if sub then Sub else Add) base prod); SetGp (rd a64) w32 v).

Definition lift_ccmp (a64 : Inst) (imm : bool) (how : Compare) : L Next :=
  let w32 := is_w32 a64 in
  brk ('(nzcv, imm5) ← pure (ccmp_of (operand a64));
       lhs ← GetGp (rn a64) w32 false;
       rhs ← (if imm then mret (getIntN (wbits w32) imm5) else GetGp (rm a64) w32 false);
       LiftCCmp lhs rhs (fad_get_cond (flags a64)) nzcv how).

Definition lift_reg (a64 : Inst) : option (L Next) :=
  let w32 := is_w32 a64 in
  let bits := wbits w32 in
  let one := getIntN bits 1 in
  match op a64 with
  | A64_UDIV => Some (binary a64 (lift_udiv bits))
  | A64_SDIV => Some (binary a64 (lift_sdiv bits))
  | A64_LSLV => Some (binary a64 (lift_shiftv bits (CreateBinOp Shl)))
  | A64_LSRV => Some (binary a64 (lift_shiftv bits (CreateBinOp LShr)))
  | A64_ASRV => Some (binary a64 (lift_shiftv bits (CreateBinOp AShr)))
  | A64_RORV => Some (binary a64 (lift_shiftv bits CreateFshr))
  | A64_RBIT => Some (unary a64 (CreateIntrinsic Bitreverse))
  | A64_REV16 => Some (unary a64 (lift_rev bits 16))
  | A64_REV => Some (unary a64 (CreateIntrinsic Bswap))
  | A64_REV32 => Some (unary a64 (lift_rev bits 32))
  | A64_CLZ => Some (unary a64 (CreateIntrinsic Ctlz))
  | A64_CLS =>
      Some (unary a64 (fun val =>
        sgnext ← CreateBinOp AShr val (getIntN bits (bits - 1));
        x ← CreateBinOp Xor val sgnext; lz ← CreateIntrinsic Ctlz x; CreateBinOp Sub lz one))
  | A64_AND_SHIFTED | A64_TST_SHIFTED => Some (brk (LiftBinOp a64 And SHIFT false))
  | A64_BIC => Some (brk (LiftBinOp a64 And SHIFT true))
  | A64_ORR_SHIFTED => Some (brk (LiftBinOp a64 Or SHIFT false))
  | A64_ORN | A64_MVN => Some (brk (LiftBinOp a64 Or SHIFT true))
  | A64_MOV_REG => Some (brk (x ← GetGp (rm a64) w32 false; SetGp (rd a64) w32 x))
  | A64_EOR_SHIFTED => Some (brk (LiftBinOp a64 Xor SHIFT false))
  | A64_EON => Some (brk (LiftBinOp a64 Xor SHIFT true))
  | A64_ADD_SHIFTED | A64_CMN_SHIFTED => Some (brk (LiftBinOp a64 Add SHIFT false))
  | A64_SUB_SHIFTED | A64_NEG | A64_CMP_SHIFTED => Some (brk (LiftBinOp a64 Sub SHIFT false))
  | A64_ADD_EXT | A64_CMN_EXT => Some (brk (LiftBinOp a64 Add EXT false))
  | A64_SUB_EXT | A64_CMP_EXT => Some (brk (LiftBinOp a64 Sub EXT false))
  | A64_ADC => Some (lift_carry a64 true)
  | A64_SBC | A64_NGC => Some (lift_carry a64 false)
  | A64_CCMN_REG => Some (lift_ccmp a64 false CmpAdd)
  | A64_CCMP_REG => Some (lift_ccmp a64 false CmpSub)
  | A64_CCMN_IMM => Some (lift_ccmp a64 true CmpAdd)
  | A64_CCMP_IMM => Some (lift_ccmp a64 true CmpSub)
  | A64_CSEL => Some (lift_csel a64 (fun x y => Some (x, y)))
  | A64_CSINC => Some (lift_csel a64 (fun x y => y ← CreateBinOp Add y one; Some (x, y)))
  | A64_CINC => Some (lift_cinc a64 (fun v => CreateBinOp Add v one))
  | A64_CSET => Some (brk (c ← IsTrue (fad_get_cond (flags a64)); v ← pure (CreateCast ZExt c (TInt bits)); SetGp (rd a64) w32 v))
  | A64_CSINV => Some (lift_csel a64 (fun x y => y ← CreateNot y; Some (x, y)))
  | A64_CINV => Some (lift_cinc a64 CreateNot)
  | A64_CSETM =>
      Some (brk (c ← IsTrue (fad_get_cond (flags a64));
                 v ← pure (CreateSelect c (getIntN bits (-1)) (getIntN bits 0)); SetGp (rd a64) w32 v))
  | A64_CSNEG => Some (lift_csel a64 (fun x y => y ← CreateNeg y; Some (x, y)))
  | A64_CNEG => Some (lift_cinc a64 CreateNeg)
  | A64_MUL => Some (binary a64 (CreateBinOp Mul))
  | A64_MADD => Some (lift_madd a64 false)
  | A64_MSUB | A64_MNEG => Some (lift_madd a64 true)
  | A64_SMADDL | A64_SMULL => Some (lift_mull a64 Add SExt)
  | A64_SMSUBL | A64_SMNEGL => Some (lift_mull a64 Sub SExt)
  | A64_SMULH => Some (lift_mulh a64 SExt)
  | A64_UMADDL | A64_UMULL => Some (lift_mull a64 Add ZExt)
  | A64_UMSUBL | A64_UMNEGL => Some (lift_mull a64 Sub ZExt)
  | A64_UMULH => Some (lift_mulh a64 ZExt)
  | _ => None
  end.

Definition lift_prefetch (a64 : Inst) : L unit :=
  Addr (TInt 8) a64;;
  if Z.land (Z.shiftr (rd a64) 3) 3 =? 3 then pure None else mret tt.

(** A store that is exclusive always succeeds, as there is one thread. *)
Definition lift_mem (a64 : Inst) : option (L Next) :=
  let w32 := is_w32 a64 in
  match op a64 with
  | A64_LDXR | A64_LDXP | A64_LDP | A64_STP | A64_LDR | A64_STR => Some (brk (LiftLoadStore a64 w32 false))
  | A64_STXR | A64_STXP =>
      Some (brk (LiftLoadStore a64 w32 false;;
                 '(_, _, rs) ← pure (ldst_of (operand a64)); SetGp rs w32 (getIntN (wbits w32) 0)))
  | A64_PRFM => Some (brk (lift_prefetch a64))
  | A64_LDP_FP | A64_STP_FP | A64_LDR_FP | A64_STR_FP => Some (brk (LiftLoadStore a64 w32 true))
  | _ => None
  end.

(** ** Floating point *)

(** [ConstantFP::get], of a power of two and of a double. *)
Definition fp_pow2 (t : Ty) (n : Z) : option Value :=
  match t with
  | TFloat => Some (mkVal TFloat (Z.shiftl (127 + n) 23) ConstExpr)
  | TDouble => Some (mkVal TDouble (Z.shiftl (1023 + n) 52) ConstExpr)
  | _ => None
  end.
Definition fp_const (t : Ty) (x : Z) : option Value :=
  match t with
  | TFloat => Some (mkVal TFloat (fp_to_fp fp 64 32 x) ConstExpr)
  | TDouble => Some (mkVal TDouble x ConstExpr)
  | _ => None
  end.

(** Fixed-point numbers are scaled. *)
Definition lift_fcvt_gpr (a64 : Inst) : L unit :=
  let prec := fad_get_prec (flags a64) in
  let w32 := is_w32 a64 in
  x ← GetScalar (rn a64) prec true;
  '(mode, fbits, sgn) ← pure (fcvt_of (operand a64));
  x ← (if 0 <? fbits then t ← pure (TypeOfFP prec); scale ← pure (fp_pow2 t fbits); pure (CreateFBin fp FMul x scale) else mret x);
  rounded ← pure (Round x mode false);
  ival ← pure (CreateFPToI fp (negb (sgn =? 0)) rounded (TInt (wbits w32)));
  SetGp (rd a64) w32 ival.

Definition lift_cvtf (a64 : Inst) : L unit :=
  let prec := fad_get_prec (flags a64) in
  ival ← GetGp (rn a64) (is_w32 a64) false;
  '(_, fbits, sgn) ← pure (fcvt_of (operand a64));
  t ← pure (TypeOfFP prec);
  x ← pure (CreateIToFP fp (negb (sgn =? 0)) ival t);
  x ← (if 0 <? fbits then scale ← pure (fp_pow2 t fbits); pure (CreateFBin fp FDiv x scale) else mret x);
  SetScalar (rd a64) x.

Definition lift_fcvt (a64 : Inst) (t : Ty) : L Next :=
  let prec := fad_get_prec (flags a64) in
  if prec =? FSZ_H then mret Unhandled
  else brk (val ← GetScalar (rn a64) prec true; v ← pure (CreateFPCast fp val t); SetScalar (rd a64) v).

(** [VA_2D] and its like, in the order of their numbers. *)
Definition FacetOf (va : Z) (float : bool) : option Facet :=
  match va with
  | 0 => Some FV8I8 | 1 => Some FV16I8 | 2 => Some FV4I16 | 3 => Some FV8I16
  | 4 => Some (if float then FV2F32 else FV2I32) | 5 => Some (if float then FV4F32 else FV4I32)
  | 6 => Some (if float then FV1F64 else FV1I64) | 7 => Some (if float then FV2F64 else FV2I64)
  | _ => None
  end.
Definition GetVec (r va : Z) (float : bool) : L Value := f ← pure (FacetOf va float); get_reg (RVEC r) f.

(** Always from the full vector, whose arrangement has the next number. *)
Definition GetElem (r va i : Z) (float : bool) : L Value :=
  v ← GetVec r (if Z.land va 1 =? 0 then va + 1 else va) float; pure (CreateExtractElement v i).

Definition SetVec (r : Z) (vec : Value) : L unit :=
  match v_ty vec with
  | TVec n t =>
      fc ← pure (facet_FromType (v_ty vec));
      if ty_bits (v_ty vec) =? 128 then
        ivec ← pure (CreateCast BitCast vec (TVec 2 (TInt 64)));
        set_reg (RVEC r) FV2I64 ivec;; set_reg_facet (RVEC r) fc vec
      else
        (* followed by as many zeros *)
        let fullvec := mkVal (TVec (2 * n) t) (v_bits vec) NotConst in
        ivec ← pure (CreateCast BitCast fullvec (TVec 2 (TInt 64)));
        set_reg (RVEC r) FV2I64 ivec;;
        full ← pure (facet_FromType (v_ty fullvec));
        set_reg_facet (RVEC r) full fullvec;; set_reg_facet (RVEC r) fc vec
  | _ => pure None
  end.

Definition InsertElem (r i : Z) (elem : Value) : L unit :=
  va ← pure (match ty_bits (v_ty elem) with 8 => Some VA_16B | 16 => Some VA_8H | 32 => Some VA_4S | 64 => Some VA_2D | _ => None end);
  oldvec ← GetVec r va (is_fp (v_ty elem));
  newvec ← pure (CreateInsertElement oldvec elem i);
  SetVec r newvec.

Definition lift_fp (a64 : Inst) : option (L Next) :=
  let w32 := is_w32 a64 in
  let prec := fad_get_prec (flags a64) in
  let u := operand a64 in
  let round (exact : bool) := (
    '(mode, bits) ← pure (frint_of u);
    if negb (bits =? 0) || (prec =? FSZ_H) then mret Unhandled
    else brk (x ← GetScalar (rn a64) prec true; v ← pure (Round x mode exact); SetScalar (rd a64) v)) in
  match op a64 with
  | A64_FCVT_GPR => Some (brk (lift_fcvt_gpr a64))
  | A64_CVTF => Some (brk (lift_cvtf a64))
  | A64_FRINT => Some (round false)
  | A64_FRINTX => Some (round true)
  | A64_FCVT_S => Some (lift_fcvt a64 TFloat)
  | A64_FCVT_D => Some (lift_fcvt a64 TDouble)
  | A64_FABS => Some (brk (LiftIntrinsicFP FAbs a64))
  | A64_FNEG => Some (brk (LiftIntrinsicFP FNeg a64))
  | A64_FSQRT => Some (brk (LiftIntrinsicFP FSqrt a64))
  | A64_FMUL => Some (brk (LiftBinOpFP FMul a64))
  | A64_FDIV => Some (brk (LiftBinOpFP FDiv a64))
  | A64_FADD => Some (brk (LiftBinOpFP FAdd a64))
  | A64_FSUB => Some (brk (LiftBinOpFP FSub a64))
  | A64_FMAX | A64_FMAXNM => Some (brk (LiftBinOpFP FMaxNum a64))
  | A64_FMIN | A64_FMINNM => Some (brk (LiftBinOpFP FMinNum a64))
  | A64_FNMUL =>
      Some (brk (lhs ← GetScalar (rn a64) prec true; rhs ← GetScalar (rm a64) prec true;
                 m ← pure (CreateFBin fp FMul lhs rhs); v ← pure (CreateFUn fp FNeg m); SetScalar (rd a64) v))
  | A64_FMADD => Some (brk (LiftFMA a64 false false))
  | A64_FMSUB => Some (brk (LiftFMA a64 true false))
  | A64_FNMADD => Some (brk (LiftFMA a64 true true))
  | A64_FNMSUB => Some (brk (LiftFMA a64 false true))
  | A64_FCMP_REG | A64_FCMPE_REG =>
      Some (brk (lhs ← GetScalar (rn a64) prec true; rhs ← GetScalar (rm a64) prec true; FlagCalcFP lhs rhs))
  | A64_FCMP_ZERO | A64_FCMPE_ZERO =>
      Some (brk (lhs ← GetScalar (rn a64) prec true; t ← pure (TypeOfFP prec); rhs ← pure (fp_const t 0); FlagCalcFP lhs rhs))
  | A64_FCCMP | A64_FCCMPE =>
      Some (brk (lhs ← GetScalar (rn a64) prec true; rhs ← GetScalar (rm a64) prec true;
                 '(nzcv, _) ← pure (ccmp_of u); LiftCCmp lhs rhs (fad_get_cond (flags a64)) nzcv CmpFP))
  | A64_FCSEL =>
      Some (brk (on_true ← GetScalar (rn a64) prec true; on_false ← GetScalar (rm a64) prec true;
                 c ← IsTrue (fad_get_cond (flags a64)); v ← pure (CreateSelect c on_true on_false); SetScalar (rd a64) v))
  | A64_FMOV_VEC2GPR => Some (brk (v ← GetScalar (rn a64) prec false; SetGp (rd a64) w32 v))
  | A64_FMOV_GPR2VEC => Some (brk (v ← GetGp (rn a64) w32 false; SetScalar (rd a64) v))
  | A64_FMOV_TOP2GPR => Some (brk (v ← GetElem (rn a64) VA_2D 1 false; SetGp (rd a64) w32 v))
  | A64_FMOV_GPR2TOP => Some (brk (v ← GetGp (rn a64) false false; InsertElem (rd a64) 1 v))
  | A64_FMOV_REG => Some (brk (v ← GetScalar (rn a64) prec true; SetScalar (rd a64) v))
  | A64_FMOV_IMM => Some (brk (x ← pure (fimm_of u); t ← pure (TypeOfFP prec); v ← pure (fp_const t x); SetScalar (rd a64) v))
  | _ => None
  end.

(** ** [Lift] *)

(** Operations without a case of their own may be vector instructions. *)
Definition lift_op (inst : Instr) : L Next :=
  let a64 := i_a64 inst in
  match lift_imm a64, lift_branch inst, lift_system a64, lift_reg a64, lift_mem a64, lift_fp a64 with
  | Some c, _, _, _, _, _ | None, Some c, _, _, _, _ | None, None, Some c, _, _, _ | None, None, None, Some c, _, _
  | None, None, None, None, Some c, _ | None, None, None, None, None, Some c => c
  | _, _, _, _, _, _ => ok ← LiftSIMD a64; mret (if ok : bool then Break else Unhandled)
  end.

Definition finish (inst : Instr) (n : Next) : L bool :=
  match n with
  | Break => SetIP fi (i_start inst + i_len inst) false;; mret true
  | Unhandled => SetIP fi (i_start inst) true;; mret false
  | Return ok => mret ok
  end.

Definition Lift (inst : Instr) : L bool :=
  SetIP fi (i_start inst) false;;
  (match instr_marker cfg with
   | None => mret tt
   | Some f => rip ← get_reg RIP FI64; CallMarker f rip
   end);;
  match instr_overrides cfg (op_num (op (i_a64 inst))) with
  | Some fn => CallExternalFunction cfg fn;; mret true
  | None => n ← lift_op inst; finish inst n
  end.
End A64.
