(* ===== verification/A64Sem.v ===== *)
(** * What AArch64 instructions do, a reference for the lifter

    The effect of integer, branch, load and store instructions and of the moves
    of floating-point registers, as the pseudocode of the architecture manual
    describes them: a register is a number, an operation a function on numbers.
    Instructions are those of [Farmdec], aliases included; what the aliases of
    bit fields and selects do is stated in [FarmdecProofs].  [RellumeA64Step]
    compares the lifted code with it. *)

From Stdlib Require Import ZArith Lia.
From stdpp Require Import base numbers list option gmap.
From S2P Require Import Prelude Machine Farmdec FarmdecProofs.

(** The registers of a processing element: [px] with the stack pointer as
    number 31, the vector registers, the flags, the program counter, the thread
    pointer, and memory. *)
Record Flags := mkFlags { fN : bool; fZ : bool; fC : bool; fV : bool }.
Record Pe := mkPe { px : Z -> Z; pv : Z -> Z; pf : Flags; ppc : Z; ptp : Z; pmem : memory }.

(** Register 31 reads as zero and ignores writes; the stack pointer is [STACK_POINTER]. *)
Definition reg_no (r : Z) : Z := if r =? STACK_POINTER then 31 else r.
Definition rX (p : Pe) (r : Z) : Z := if r =? ZERO_REG then 0 else px p (reg_no r).
Definition rW (N : Z) (p : Pe) (r : Z) : Z := wrap N (rX p r).
Definition wX (p : Pe) (r v : Z) : Pe :=
  if r =? ZERO_REG then p
  else mkPe (fun i => if i =? reg_no r then v else px p i) (pv p) (pf p) (ppc p) (ptp p) (pmem p).
Definition wV (p : Pe) (r v : Z) : Pe := mkPe (px p) (fun i => if i =? r then v else pv p i) (pf p) (ppc p) (ptp p) (pmem p).
Definition wF (p : Pe) (f : Flags) : Pe := mkPe (px p) (pv p) f (ppc p) (ptp p) (pmem p).
Definition wPC (p : Pe) (v : Z) : Pe := mkPe (px p) (pv p) (pf p) v (ptp p) (pmem p).
Definition wTP (p : Pe) (v : Z) : Pe := mkPe (px p) (pv p) (pf p) (ppc p) v (pmem p).
Definition wM (p : Pe) (m : memory) : Pe := mkPe (px p) (pv p) (pf p) (ppc p) (ptp p) m.

Definition holds (p : Pe) (cond : Z) : bool := cond_holds (fN (pf p)) (fZ (pf p)) (fC (pf p)) (fV (pf p)) cond.

(** ** Arithmetic *)

(** [AddWithCarry] of the manual. *)
Definition add_with_carry (N x y : Z) (carry : bool) : Z * Flags :=
  let unsigned_sum := x + y + Z.b2z carry in
  let signed_sum := swrap N x + swrap N y + Z.b2z carry in
  let result := wrap N unsigned_sum in
  (result, mkFlags (swrap N result <? 0) (result =? 0) (negb (result =? unsigned_sum)) (negb (swrap N result =? signed_sum))).

(** Subtraction adds the complement, with carry. *)
Definition add_or_sub (N : Z) (sub : bool) (x y : Z) (carry : bool) : Z * Flags :=
  add_with_carry N x (if sub then wrap N (- y - 1) else y) carry.

Definition logic_flags (N r : Z) : Flags := mkFlags (swrap N r <? 0) (r =? 0) false false.

(** [ShiftReg]; amounts beyond the width are unallocated. *)
Definition rotate (N n x : Z) : Z := x / 2 ^ n + x `mod` 2 ^ n * 2 ^ (N - n).
Definition shift_reg (N type amount x : Z) : option Z :=
  if (0 <=? amount) && (amount <? N) then
    match type with
    | 0 => Some (wrap N (x * 2 ^ amount))
    | 1 => Some (x / 2 ^ amount)
    | 2 => Some (wrap N (swrap N x / 2 ^ amount))
    | 3 => Some (rotate N amount x)
    | _ => None
    end
  else None.

(** [ExtendReg]: the low bits with or without sign, shifted left by at most four. *)
Definition extend_len (type : Z) : Z := 8 * 2 ^ (type `mod` 4).
Definition extend_val (type x : Z) : Z := if 4 <=? type then swrap (extend_len type) x else wrap (extend_len type) x.
Definition extend_reg (N type shift x : Z) : option Z :=
  if (0 <=? type) && (type <? 8) && (0 <=? shift) && (shift <? 5) then Some (wrap N (extend_val type x * 2 ^ shift)) else None.

Definition clz (N x : Z) : Z := if x =? 0 then N else N - 1 - Z.log2 x.
(** The bits below the sign bit that equal it. *)
Definition cls (N x : Z) : Z := clz N (if swrap N x <? 0 then wrap N (- x - 1) else x) - 1.

(** The number whose bits are given. *)
Fixpoint from_bits (n : nat) (f : Z -> bool) : Z :=
  match n with O => 0 | S n => from_bits n f + Z.b2z (f (Z.of_nat n)) * 2 ^ Z.of_nat n end.
Definition rbit (N x : Z) : Z := from_bits (Z.to_nat N) (fun i => Z.testbit x (N - 1 - i)).
(** Bytes in reverse order in every container of [c] bits. *)
Definition rev (c N x : Z) : Z :=
  from_bits (Z.to_nat N) (fun i => Z.testbit x (i / c * c + (c / 8 - 1 - i `mod` c / 8) * 8 + i `mod` 8)).

(** ** Groups of instructions *)

Inductive Kind := KImm | KShift | KExt.

(** Whether it subtracts, and the form of the second operand. *)
Definition addsub_of (o : Op) : option (bool * Kind) :=
  match o with
  | A64_ADD_IMM | A64_MOV_SP | A64_CMN_IMM => Some (false, KImm)
  | A64_SUB_IMM | A64_CMP_IMM => Some (true, KImm)
  | A64_ADD_SHIFTED | A64_CMN_SHIFTED => Some (false, KShift)
  | A64_SUB_SHIFTED | A64_NEG | A64_CMP_SHIFTED => Some (true, KShift)
  | A64_ADD_EXT | A64_CMN_EXT => Some (false, KExt)
  | A64_SUB_EXT | A64_CMP_EXT => Some (true, KExt)
  | _ => None
  end.

(** The operation, whether the second operand is complemented, and its form. *)
Definition logic_of (o : Op) : option ((Z -> Z -> Z) * bool * Kind) :=
  match o with
  | A64_AND_IMM | A64_TST_IMM => Some (Z.land, false, KImm)
  | A64_ORR_IMM => Some (Z.lor, false, KImm)
  | A64_EOR_IMM => Some (Z.lxor, false, KImm)
  | A64_AND_SHIFTED | A64_TST_SHIFTED => Some (Z.land, false, KShift)
  | A64_BIC => Some (Z.land, true, KShift)
  | A64_ORR_SHIFTED => Some (Z.lor, false, KShift)
  | A64_ORN | A64_MVN => Some (Z.lor, true, KShift)
  | A64_EOR_SHIFTED => Some (Z.lxor, false, KShift)
  | A64_EON => Some (Z.lxor, true, KShift)
  | _ => None
  end.

(** Only [AND] and [BIC] have a form that sets the flags. *)
Definition sets_logic (o : Op) : bool :=
  match o with A64_AND_IMM | A64_TST_IMM | A64_AND_SHIFTED | A64_TST_SHIFTED | A64_BIC => true | _ => false end.

Definition dp2_of (o : Op) : option (Z -> Z -> Z -> Z) :=
  match o with
  | A64_UDIV => Some (fun N a b => if b =? 0 then 0 else a / b)
  | A64_SDIV => Some (fun N a b => if b =? 0 then 0 else wrap N (Z.quot (swrap N a) (swrap N b)))
  | A64_LSLV => Some (fun N a b => wrap N (a * 2 ^ (b `mod` N)))
  | A64_LSRV => Some (fun N a b => a / 2 ^ (b `mod` N))
  | A64_ASRV => Some (fun N a b => wrap N (swrap N a / 2 ^ (b `mod` N)))
  | A64_RORV => Some (fun N a b => rotate N (b `mod` N) a)
  | A64_MUL => Some (fun N a b => wrap N (a * b))
  | _ => None
  end.

Definition dp1_of (o : Op) : option (Z -> Z -> Z) :=
  match o with
  | A64_RBIT => Some rbit
  | A64_REV16 => Some (rev 16)
  | A64_REV32 => Some (rev 32)
  | A64_REV => Some (fun N => rev N N)
  | A64_CLZ => Some clz
  | A64_CLS => Some cls
  | _ => None
  end.

(** With immediate operands: shifts, fields and extensions by [alias_exec], and the rest. *)
Definition imm_exec (N dst x y : Z) (i : Inst) : option Z :=
  match op i, operand i with
  | A64_MOV_IMM, UImm v => Some (wrap N v)
  | A64_MOVK, UMovk v lsl => if (0 <=? lsl) && (lsl + 16 <=? N) && (0 <=? v) && (v <? 65536) then Some (insert_field dst lsl 16 v) else None
  | A64_ROR_IMM, UImm n => if (0 <=? n) && (n <? N) then Some (rotate N n x) else None
  | A64_EXTR, UImm n => if (0 <=? n) && (n <? N) then Some (wrap N ((x * 2 ^ N + y) / 2 ^ n)) else None
  | (A64_LSL_IMM | A64_LSR_IMM | A64_ASR_IMM), UImm n => if (0 <=? n) && (n <? N) then alias_exec N dst x i else None
  | (A64_UBFX | A64_SBFX | A64_UBFIZ | A64_SBFIZ | A64_BFXIL | A64_BFI | A64_BFC), UBfm lsb width =>
      if (0 <=? lsb) && (0 <? width) && (lsb + width <=? N) then alias_exec N dst x i else None
  | A64_EXTEND, UExtend t _ => if extend_len t <=? N then alias_exec N dst x i else None
  | _, _ => None
  end.

(** ** One instruction *)

Section Exec.
Context (i : Inst) (len : Z) (p : Pe).

Definition width : Z := if has_flag (flags i) W32 then 32 else 64.
Definition next (p' : Pe) : Pe := wPC p' (u64 (ppc p + len)).
Definition src (r : Z) : Z := rW width p r.

Definition operand2 (k : Kind) : option Z :=
  match k, operand i with
  | KImm, UImm v => Some (wrap width v)
  | KShift, UShift type amount => shift_reg width type amount (src (rm i))
  | KExt, UExtend type lsl => extend_reg width type lsl (src (rm i))
  | _, _ => None
  end.

Definition set_flags (f : Flags) (p' : Pe) : Pe := if has_flag (flags i) SET_FLAGS then wF p' f else p'.

Definition exec_addsub : option Pe :=
  '(sub, k) ← addsub_of (op i);
  y ← operand2 k;
  let '(r, f) := add_or_sub width sub (src (rn i)) y sub in
  Some (next (set_flags f (wX p (rd i) r))).

Definition exec_logic : option Pe :=
  '(f, inv, k) ← logic_of (op i);
  y ← operand2 k;
  let r := f (src (rn i)) (if inv : bool then wrap width (- y - 1) else y) in
  if has_flag (flags i) SET_FLAGS && negb (sets_logic (op i)) then None
  else Some (next (set_flags (logic_flags width r) (wX p (rd i) r))).

Definition exec_carry : option Pe :=
  sub ← (match op i with A64_ADC => Some false | A64_SBC | A64_NGC => Some true | _ => None end);
  let '(r, f) := add_or_sub width sub (src (rn i)) (src (rm i)) (fC (pf p)) in
  Some (next (set_flags f (wX p (rd i) r))).

Definition exec_dp : option Pe :=
  r ← (match dp2_of (op i), dp1_of (op i), op i with
       | Some f, _, _ => Some (f width (src (rn i)) (src (rm i)))
       | None, Some f, _ => Some (f width (src (rn i)))
       | None, None, A64_MOV_REG => Some (src (rm i))
       | _, _, _ => imm_exec width (src (rd i)) (src (rn i)) (src (rm i)) i
       end);
  Some (next (wX p (rd i) r)).

Definition exec_csel : option Pe :=
  let f := pf p in
  r ← csel_exec width (src (rn i)) (src (rm i)) (fN f) (fZ f) (fC f) (fV f) i;
  Some (next (wX p (rd i) r)).

(** The comparison, or the flags of the instruction. *)
Definition exec_ccmp : option Pe :=
  '(sub, imm) ← (match op i with
                 | A64_CCMN_REG => Some (false, false) | A64_CCMP_REG => Some (true, false)
                 | A64_CCMN_IMM => Some (false, true) | A64_CCMP_IMM => Some (true, true) | _ => None end);
  match operand i with
  | UCcmp nzcv imm5 =>
      let y := if imm : bool then wrap width imm5 else src (rm i) in
      Some (next (wF p (if holds p (fad_get_cond (flags i)) then (add_or_sub width sub (src (rn i)) y sub).2
                        else mkFlags (Z.testbit nzcv 3) (Z.testbit nzcv 2) (Z.testbit nzcv 1) (Z.testbit nzcv 0))))
  | _ => None
  end.

(** Without an addend it is the zero register. *)
Definition exec_mul : option Pe :=
  match operand i with
  | URa ra =>
      let a := src (rn i) in let b := src (rm i) in
      let a32 := rW 32 p (rn i) in let b32 := rW 32 p (rm i) in
      let r := match op i with
               | A64_MADD => Some (wrap width (src ra + a * b))
               | A64_MSUB | A64_MNEG => Some (wrap width (src ra - a * b))
               | A64_SMADDL | A64_SMULL => Some (u64 (rX p ra + s32 a32 * s32 b32))
               | A64_SMSUBL | A64_SMNEGL => Some (u64 (rX p ra - s32 a32 * s32 b32))
               | A64_UMADDL | A64_UMULL => Some (u64 (rX p ra + a32 * b32))
               | A64_UMSUBL | A64_UMNEGL => Some (u64 (rX p ra - a32 * b32))
               | A64_SMULH => Some (u64 (s64 (rX p (rn i)) * s64 (rX p (rm i)) / 2 ^ 64))
               | A64_UMULH => Some (rX p (rn i) * rX p (rm i) / 2 ^ 64)
               | _ => None
               end in
      r ← r; Some (next (wX p (rd i) r))
  | _ => None
  end.

Definition jump_if (c : bool) (off : Z) : Pe := if c then wPC p (u64 (ppc p + off)) else next p.

Definition exec_branch : option Pe :=
  match op i, operand i with
  | A64_BCOND, UOffset off => Some (jump_if (holds p (fad_get_cond (flags i))) off)
  | A64_CBZ, UOffset off => Some (jump_if (src (rd i) =? 0) off)
  | A64_CBNZ, UOffset off => Some (jump_if (negb (src (rd i) =? 0)) off)
  | A64_TBZ, UTbz off b => if (0 <=? b) && (b <? width) then Some (jump_if (negb (Z.testbit (src (rd i)) b)) off) else None
  | A64_TBNZ, UTbz off b => if (0 <=? b) && (b <? width) then Some (jump_if (Z.testbit (src (rd i)) b) off) else None
  | A64_B, UOffset off => Some (wPC p (u64 (ppc p + off)))
  | A64_BL, UOffset off => Some (wPC (wX p 30 (u64 (ppc p + len))) (u64 (ppc p + off)))
  | (A64_BR | A64_RET), _ => Some (wPC p (rX p (rn i)))
  | A64_BLR, _ => Some (wPC (wX p 30 (u64 (ppc p + len))) (rX p (rn i)))
  | _, _ => None
  end.

Definition nzcv_of (f : Flags) : Z :=
  Z.b2z (fN f) * 2 ^ 31 + Z.b2z (fZ f) * 2 ^ 30 + Z.b2z (fC f) * 2 ^ 29 + Z.b2z (fV f) * 2 ^ 28.

(** Hints and barriers, the flags and the thread pointer as system registers,
    clearing a block of 64 bytes, and addresses relative to the program counter. *)
Definition exec_system : option Pe :=
  match op i, operand i with
  | A64_HINT, _ => Some (next p)
  | A64_DMB, UImm v => if (0 <? v) && (v <? 16) && negb (v `mod` 4 =? 0) then Some (next p) else None
  | A64_CFINV, _ => let f := pf p in Some (next (wF p (mkFlags (fN f) (fZ f) (negb (fC f)) (fV f))))
  | A64_MRS, UImm v =>
      if v =? 0xde82 then Some (next (wX p (rd i) (ptp p)))
      else if v =? 0xda10 then Some (next (wX p (rd i) (nzcv_of (pf p)))) else None
  | A64_MSR_REG, UImm v =>
      let x := rX p (rd i) in
      if v =? 0xde82 then Some (next (wTP p x))
      else if v =? 0xda10 then Some (next (wF p (mkFlags (Z.testbit x 31) (Z.testbit x 30) (Z.testbit x 29) (Z.testbit x 28)))) else None
  | A64_SYS, USys 3 1 7 4 => let a := rX p (rd i) in Some (next (wM p (storeZ (pmem p) 64 (a - a `mod` 64) 0)))
  | A64_ADR, UOffset off => Some (next (wX p (rd i) (u64 (ppc p + off))))
  | A64_ADRP, UOffset off => Some (next (wX p (rd i) (u64 (ppc p - ppc p `mod` 4096 + off))))
  | _, _ => None
  end.

(** ** Memory *)

(** The address and, with write-back, the new value of the base register.  An
    index is shifted by the size of the access, or not. *)
Definition address (log : Z) : option (Z * option Z) :=
  let base := rX p (rn i) in
  let index x s := if (s =? 0) || (s =? log) then Some (u64 (base + x * 2 ^ s), None) else None in
  match fad_get_addrmode (flags i), operand i with
  | 0, ULdstOrder _ _ _ => Some (base, None)
  | 1, UOffset off => Some (u64 (base + off), None)
  | 2, UShift _ s => index (rX p (rm i)) s
  | 3, UExtend 2 s => index (u32 (rX p (rm i))) s
  | 3, UExtend 6 s => index (s32 (rX p (rm i))) s
  | 3, UExtend 7 s => index (rX p (rm i)) s
  | 4, UOffset off => Some (u64 (base + off), Some (u64 (base + off)))
  | 5, UOffset off => Some (base, Some (u64 (base + off)))
  | 6, UOffset off => Some (u64 (ppc p + off), None)
  | _, _ => None
  end.

Definition wback (w : option Z) (p' : Pe) : Pe := match w with Some a => wX p' (rn i) a | None => p' end.

(** Accesses that are exclusive or ordered must be aligned; the ordering is one
    of loads or of stores. *)
Definition access_ok (load : bool) (log a : Z) : bool :=
  match operand i with
  | ULdstOrder l s _ =>
      (a `mod` 2 ^ log =? 0) && (if load then (0 <=? l) && (l <? 4) && (s =? 0) else (l =? 0) && ((s =? 0) || (s =? 4) || (s =? 5)))
  | _ => true
  end.

(** A register that is transferred must not be the base that is written back. *)
Definition transfer_ok (two load : bool) (w : option Z) : bool :=
  match w with
  | Some _ => negb (rd i =? rn i) && negb (two && (rm i =? rn i))
  | None => true
  end && negb (two && load && (rd i =? rm i)).

Definition mem_ext : Z := fad_get_mem_extend (flags i).
Definition mem_log : Z := mem_ext `mod` 4.
Definition mem_bytes : nat := Z.to_nat (2 ^ mem_log).

Definition loaded (a : Z) : Z := wrap width (extend_val mem_ext (loadZ (pmem p) mem_bytes a)).

Definition exec_load : option Pe :=
  two ← (match op i with A64_LDR | A64_LDXR => Some false | A64_LDP | A64_LDXP => Some true | _ => None end);
  '(a, w) ← address mem_log;
  let b := u64 (a + 2 ^ mem_log) in
  if access_ok true mem_log a && transfer_ok two true w && (8 * 2 ^ mem_log <=? width) then
    let p' := wback w p in
    let p' := if two : bool then wX p' (rm i) (loaded b) else p' in
    Some (next (wX p' (rd i) (loaded a)))
  else None.

(** An exclusive store succeeds, which a zero reports. *)
Definition exec_store : option Pe :=
  '(two, excl) ← (match op i with
                   | A64_STR => Some (false, false) | A64_STP => Some (true, false)
                   | A64_STXR => Some (false, true) | A64_STXP => Some (true, true) | _ => None end);
  '(a, w) ← address mem_log;
  let b := u64 (a + 2 ^ mem_log) in
  let v r := wrap (8 * 2 ^ mem_log) (rX p r) in
  if access_ok false mem_log a && transfer_ok two false w && (8 * 2 ^ mem_log <=? width) then
    let m := if two : bool then storeZ (pmem p) mem_bytes b (v (rm i)) else pmem p in
    let m := storeZ m mem_bytes a (v (rd i)) in
    let p' := wM (wback w p) m in
    match operand i with
    | ULdstOrder _ _ rs => Some (next (if excl : bool then wX p' rs 0 else p'))
    | _ => if excl : bool then None else Some (next p')
    end
  else None.

(** ** Vector registers *)

Definition fp_log : option Z :=
  match fad_get_prec (flags i) with 0 => Some 0 | 1 => Some 1 | 2 => Some 2 | 3 => Some 3 | 7 => Some 4 | _ => None end.

Definition exec_fpmem : option Pe :=
  '(two, load) ← (match op i with
                   | A64_LDR_FP => Some (false, true) | A64_LDP_FP => Some (true, true)
                   | A64_STR_FP => Some (false, false) | A64_STP_FP => Some (true, false) | _ => None end);
  log ← fp_log;
  let n := Z.to_nat (2 ^ log) in
  '(a, w) ← address log;
  let b := u64 (a + 2 ^ log) in
  match operand i with
  | ULdstOrder _ _ _ => None
  | _ =>
      let p' := wback w p in
      if load : bool then
        let p' := if two : bool then wV p' (rm i) (loadZ (pmem p) n b) else p' in
        Some (next (wV p' (rd i) (loadZ (pmem p) n a)))
      else
        let v r := wrap (8 * 2 ^ log) (pv p r) in
        let m := if two : bool then storeZ (pmem p) n b (v (rm i)) else pmem p in
        Some (next (wM p' (storeZ m n a (v (rd i)))))
  end.

(** A scalar clears the rest of the register. *)
Definition exec_fmov : option Pe :=
  let prec := fad_get_prec (flags i) in
  let fbits := if prec =? 2 then Some 32 else if prec =? 3 then Some 64 else None in
  match op i with
  | A64_FMOV_REG => n ← fbits; Some (next (wV p (rd i) (wrap n (pv p (rn i)))))
  | A64_FMOV_GPR2VEC => Some (next (wV p (rd i) (src (rn i))))
  | A64_FMOV_VEC2GPR => n ← fbits; if n =? width then Some (next (wX p (rd i) (wrap n (pv p (rn i))))) else None
  | A64_FMOV_TOP2GPR => if width =? 64 then Some (next (wX p (rd i) (u64 (pv p (rn i) / 2 ^ 64)))) else None
  | A64_FMOV_GPR2TOP => Some (next (wV p (rd i) (u64 (pv p (rd i)) + rX p (rn i) * 2 ^ 64)))
  | A64_FCSEL => n ← fbits; Some (next (wV p (rd i) (wrap n (pv p (if holds p (fad_get_cond (flags i)) then rn i else rm i)))))
  | _ => None
  end.

(** [None]: an instruction this file does not describe. *)
Definition exec : option Pe :=
  match exec_addsub, exec_logic, exec_carry, exec_dp, exec_csel, exec_ccmp with
  | Some p', _, _, _, _, _ | None, Some p', _, _, _, _ | None, None, Some p', _, _, _ | None, None, None, Some p', _, _
  | None, None, None, None, Some p', _ | None, None, None, None, None, Some p' => Some p'
  | None, None, None, None, None, None =>
      match exec_mul, exec_branch, exec_system, exec_load, exec_store, exec_fpmem with
      | Some p', _, _, _, _, _ | None, Some p', _, _, _, _ | None, None, Some p', _, _, _ | None, None, None, Some p', _, _
      | None, None, None, None, Some p', _ | None, None, None, None, None, Some p' => Some p'
      | None, None, None, None, None, None => exec_fmov
      end
  end.
End Exec.
