(* ===== verification/RellumeA64Proofs.v ===== *)
(** * The register file keeps the registers of a processing element

    The relation between the state of the lifted code and a [Pe] of [A64Sem],
    and the rules for reading and writing general-purpose registers, flags,
    vector registers, the instruction pointer and memory, on top of the calculus
    of [RellumeProofs]. *)

From Stdlib Require Import ZArith Lia.
From stdpp Require Import base numbers list option gmap.
From S2P Require Import Prelude Machine Farmdec FarmdecProofs FarmdecWf Rellume RellumeProofs RellumeA64 A64Sem.

(** The facet of a vector register with contents [x]. *)
Definition vproj128 (f : Facet) (x : Z) : option (Ty * Z) :=
  t ← facet_Type f; if ty_bits t <=? 128 then Some (t, wrap (ty_bits t) x) else None.

Definition flag_of (fl : Flags) (f : Facet) : option bool :=
  match f with FSF => Some (fN fl) | FZF => Some (fZ fl) | FCF => Some (fC fl) | FOF => Some (fV fl) | _ => None end.
Definition upd_flag (f : Facet) (b : bool) (fl : Flags) : Flags :=
  match f with
  | FSF => mkFlags b (fZ fl) (fC fl) (fV fl)
  | FZF => mkFlags (fN fl) b (fC fl) (fV fl)
  | FCF => mkFlags (fN fl) (fZ fl) b (fV fl)
  | FOF => mkFlags (fN fl) (fZ fl) (fC fl) b
  | _ => fl
  end.

Section Refines.
Context (TP : nat) (cpu0 : Cpu) (ret0 : bool).

(** Every facet the register file holds is that of the register, the native
    ones and the four flags are there, and the CPU struct has the thread pointer. *)
Record arefines (s : LState) (p : Pe) : Prop := mkAR {
  ar_arch : rf_arch (l_rf s) = AArch64;
  ar_gp : forall i, 0 <= i < 32 -> is_Some (rf_vals (l_rf s) (RGP i) FI64);
  ar_gpv : forall i f v, 0 <= i < 32 -> rf_vals (l_rf s) (RGP i) f = Some v -> gproj f (px p i) = Some (v_ty v, v_bits v);
  ar_v : forall i, 0 <= i < 32 -> is_Some (rf_vals (l_rf s) (RVEC i) FV2I64);
  ar_vv : forall i f v, 0 <= i < 32 -> rf_vals (l_rf s) (RVEC i) f = Some v -> vproj128 f (pv p i) = Some (v_ty v, v_bits v);
  ar_flag : forall f b, flag_of (pf p) f = Some b -> exists v, rf_vals (l_rf s) REFLAGS f = Some v /\ is_val (TInt 1) (Z.b2z b) v;
  ar_pc : exists v, rf_vals (l_rf s) RIP FI64 = Some v /\ is_val (TInt 64) (ppc p) v;
  ar_x : forall i, 0 <= i < 32 -> in_u 64 (px p i);
  ar_vr : forall i, 0 <= i < 32 -> in_u 128 (pv p i);
  ar_pcr : in_u 64 (ppc p);
  ar_mem : l_mem s = pmem p;
  ar_memok : mem_ok (pmem p);
  ar_tp : in_u 64 (ptp p);
  ar_cpu : l_cpu s = <[TP := ptp p]> cpu0;
  ar_ret : l_ret s = ret0 }.

(** ** General-purpose registers *)

Lemma reg_no_range r : wf_reg r -> 0 <= reg_no r < 32.
Proof. unfold wf_reg, reg_no, STACK_POINTER. destruct (Z.eqb_spec r 100); lia. Qed.

Lemma rX_range s p r : arefines s p -> wf_reg r -> in_u 64 (rX p r).
Proof. intros H Hr. unfold rX. destruct (Z.eqb_spec r ZERO_REG); [done|]. by apply (ar_x _ _ H), reg_no_range. Qed.

Lemma rW_range s p r w32 : arefines s p -> wf_reg r -> in_u (wbits w32) (rW (wbits w32) p r).
Proof. intros. apply wrap_range. by destruct w32. Qed.

Lemma ar_native s p i : arefines s p -> 0 <= i < 32 -> exists n, rf_vals (l_rf s) (RGP i) FI64 = Some n /\ is_val (TInt 64) (px p i) n.
Proof.
  intros H Hi. destruct (ar_gp _ _ H i Hi) as [n E]. exists n. split; [done|].
  pose proof (ar_gpv _ _ H i FI64 n Hi E) as [= E1 E2]. done.
Qed.

Ltac other_reg := solve [intros [? ?]; congruence | congruence | intros ?; by match goal with N : ~ (_ /\ _) |- _ => apply N end].

(** Setting a facet to what it is keeps the relation, whatever happens to the
    record of changed registers. *)
Lemma arefines_vals s p rf :
  arefines s p -> rf_arch rf = AArch64 -> (forall r f, rf_vals rf r f = rf_vals (l_rf s) r f) ->
  arefines (mkL rf (l_mem s) (l_cpu s) (l_ret s)) p.
Proof.
  intros H Ha Hv. destruct H. constructor; cbn; try done.
  all: intros *; rewrite ?Hv; eauto.
Qed.

Lemma arefines_cache_gp s p i f v :
  arefines s p -> 0 <= i < 32 -> gproj f (px p i) = Some (v_ty v, v_bits v) ->
  arefines (mkL (set_val (RGP i) f v (l_rf s)) (l_mem s) (l_cpu s) (l_ret s)) p.
Proof.
  intros H Hi Hp. destruct H; constructor; cbn; try done; try (intros *; rewrite decide_False by other_reg; eauto).
  - intros j Hj. destruct (decide _); [done|auto].
  - intros j g w Hj. destruct (decide _) as [[[= ->] ->]|]; [by intros [= <-]|auto].
Qed.

Lemma arefines_cache_vec s p i f v :
  arefines s p -> 0 <= i < 32 -> vproj128 f (pv p i) = Some (v_ty v, v_bits v) ->
  arefines (mkL (set_val (RVEC i) f v (l_rf s)) (l_mem s) (l_cpu s) (l_ret s)) p.
Proof.
  intros H Hi Hp. destruct H; constructor; cbn; try done; try (intros *; rewrite decide_False by other_reg; eauto).
  - intros j Hj. destruct (decide _); [done|auto].
  - intros j g w Hj. destruct (decide _) as [[[= ->] ->]|]; [by intros [= <-]|auto].
Qed.

Lemma areg_exists_gp i : 0 <= i < 32 -> reg_exists AArch64 (RGP i) = true.
Proof. intros. cbn. apply andb_true_iff. rewrite Z.leb_le, Z.ltb_lt. lia. Qed.

Lemma wp_get_agp s p i f t y (Q : Value -> LState -> Prop) :
  arefines s p -> 0 <= i < 32 -> gproj f (px p i) = Some (t, y) ->
  (forall v s', arefines s' p -> is_val t y v -> Q v s') -> wp (get_reg (RGP i) f) s Q.
Proof.
  intros H Hi Hf HQ. unfold wp, get_reg, GetReg. rewrite (ar_arch _ _ H), areg_exists_gp by lia. cbn [negb].
  unfold GetRegFacet. rewrite (gproj_access _ _ _ _ i Hf).
  destruct (rf_vals (l_rf s) (RGP i) f) as [v|] eqn:Ev.
  - exists v, s. split; [by destruct s|]. apply HQ; [done|].
    rewrite (ar_gpv _ _ H i f v Hi Ev) in Hf. by injection Hf as <- <-.
  - destruct (ar_native s p i H Hi) as (n & En & Hn). change (AccessRegFacet (RGP i) FI64) with true. rewrite En. cbn [mbind option_bind].
    destruct (derive_gp_ok n _ f t y Hn (ar_x _ _ H i Hi) Hf) as (v & Ed & Hv). rewrite Ed.
    unfold cache. rewrite (gproj_access _ _ _ _ i Hf). exists v. eexists. split; [reflexivity|]. apply HQ; [|done].
    apply arefines_cache_gp; [done..|]. rewrite Hf. by destruct Hv as [<- <-].
Qed.

Lemma wp_GetGp s p r w32 (Q : Value -> LState -> Prop) :
  arefines s p -> wf_reg r ->
  (forall v s', arefines s' p -> is_val (TInt (wbits w32)) (rW (wbits w32) p r) v -> Q v s') -> wp (GetGp r w32 false) s Q.
Proof.
  intros H Hr HQ. unfold GetGp. destruct (Z.eqb_spec r ZERO_REG) as [->|Hz]; [apply wp_ret, HQ; [done|]; by destruct w32|].
  assert (wp (get_reg (RGP (reg_no r)) (if w32 then FI32 else FI64)) s Q) as W.
  { apply (wp_get_agp s p _ _ (TInt (wbits w32)) (wrap (wbits w32) (px p (reg_no r)))); [done|by apply reg_no_range| |].
    - destruct w32; [done|]. cbn. by rewrite (wrap_small 64) by (apply (ar_x _ _ H), reg_no_range, Hr).
    - intros v s' Hs Hv. apply HQ; [done|]. unfold rW, rX. by rewrite (proj2 (Z.eqb_neq _ _) Hz). }
  unfold reg_no in W. destruct (Z.eqb_spec r STACK_POINTER); exact W.
Qed.

Lemma wp_GetGp_ptr s p r (Q : Value -> LState -> Prop) :
  arefines s p -> wf_reg r -> r <> ZERO_REG ->
  (forall v s', arefines s' p -> is_val TPtr (rX p r) v -> Q v s') -> wp (GetGp r false true) s Q.
Proof.
  intros H Hr Hz HQ. unfold GetGp. rewrite (proj2 (Z.eqb_neq _ _) Hz).
  assert (wp (get_reg (RGP (reg_no r)) FPTR) s Q) as W.
  { eapply wp_get_agp; [done|by apply reg_no_range|done|]. intros v s' Hs Hv. apply HQ; [done|]. unfold rX. by rewrite (proj2 (Z.eqb_neq _ _) Hz). }
  unfold reg_no in W. destruct (Z.eqb_spec r STACK_POINTER); exact W.
Qed.

(** Writing the native facet. *)
Lemma arefines_set_gp s p i v x :
  arefines s p -> 0 <= i < 32 -> is_val (TInt 64) x v -> in_u 64 x ->
  exists rf, SetReg (l_rf s) (RGP i) FI64 v true = Some rf /\
    arefines (mkL rf (l_mem s) (l_cpu s) (l_ret s)) (mkPe (fun j => if j =? i then x else px p j) (pv p) (pf p) (ppc p) (ptp p) (pmem p)).
Proof.
  intros H Hi [Tv Hv] Hx. unfold SetReg. rewrite decide_True by (rewrite (ar_arch _ _ H), areg_exists_gp, Tv by lia; done).
  cbn. eexists. split; [reflexivity|].
  destruct H; constructor; cbn; try done; try (intros *; rewrite !decide_False by other_reg; eauto).
  - intros j Hj. destruct (decide _); [done|]. rewrite decide_False by other_reg. auto.
  - intros j f w Hj. destruct (Z.eqb_spec j i) as [->|Hne].
    + destruct (decide _) as [[_ ->]|]; [intros [= <-]; cbn; by rewrite Tv, Hv|]. by rewrite decide_True.
    + rewrite !decide_False by other_reg. auto.
  - intros j Hj. destruct (Z.eqb_spec j i) as [->|Hne]; auto.
Qed.

(** A further facet. *)
Lemma arefines_set_facet s p i f v :
  arefines s p -> 0 <= i < 32 -> gproj f (px p i) = Some (v_ty v, v_bits v) -> facet_Type f = Some (v_ty v) ->
  exists rf, SetReg (l_rf s) (RGP i) f v false = Some rf /\ arefines (mkL rf (l_mem s) (l_cpu s) (l_ret s)) p.
Proof.
  intros H Hi Hf Ht. unfold SetReg. rewrite decide_True by (rewrite (ar_arch _ _ H), areg_exists_gp, Ht by lia; done).
  cbn. pose proof (gproj_access _ _ _ _ i Hf) as Ha. cbn in Ha. rewrite Ha. cbn. eexists. split; [reflexivity|].
  apply (arefines_vals (mkL (set_val (RGP i) f v (l_rf s)) (l_mem s) (l_cpu s) (l_ret s))); [by apply arefines_cache_gp|by apply H|done].
Qed.

Lemma wp_set_facet s p i f v (Q : unit -> LState -> Prop) :
  arefines s p -> 0 <= i < 32 -> gproj f (px p i) = Some (v_ty v, v_bits v) -> facet_Type f = Some (v_ty v) ->
  (forall s', arefines s' p -> Q tt s') -> wp (set_reg_facet (RGP i) f v) s Q.
Proof.
  intros H Hi Hf Ht HQ. destruct (arefines_set_facet s p i f v H Hi Hf Ht) as (rf & E & Hs).
  unfold wp, set_reg_facet, set_reg_with. rewrite E. eexists _, _. split; [reflexivity|]. by apply HQ.
Qed.

Lemma wp_SetGp s p r w32 v x (Q : unit -> LState -> Prop) :
  arefines s p -> wf_reg r -> is_val (TInt (wbits w32)) x v -> in_u (wbits w32) x ->
  (forall s', arefines s' (wX p r x) -> Q tt s') -> wp (SetGp r w32 v) s Q.
Proof.
  intros H Hr Hv Hx HQ. unfold SetGp, wX in *. destruct (Z.eqb_spec r ZERO_REG); [by apply wp_ret, HQ|].
  apply wp_bind. apply (wp_ext false (wbits w32) 64 x); [by destruct w32|done|done|]. intros v64 H64.
  assert (in_u 64 x) as Hx64 by (destruct w32; unfold in_u, wbits in *; lia).
  assert ((if r =? STACK_POINTER then RGP 31 else RGP r) = RGP (reg_no r)) as -> by (unfold reg_no; by destruct (_ =? _)).
  apply wp_bind. destruct (arefines_set_gp s p (reg_no r) v64 x H) as (rf & E & Hs); [by apply reg_no_range|done|done|].
  unfold set_reg, set_reg_with. eexists _, _. split; [rewrite E; reflexivity|].
  destruct Hv as [Tv Hb]. eapply wp_set_facet; [exact Hs|by apply reg_no_range| | |done]; cbn; rewrite ?Z.eqb_refl, Tv.
  - destruct w32; cbn; rewrite Hb; [|done]. by rewrite (wrap_small 32).
  - by destruct w32.
Qed.

(** ** Flags *)

Lemma wp_GetFlag s p f b (Q : Value -> LState -> Prop) :
  arefines s p -> flag_of (pf p) f = Some b -> (forall v, is_val (TInt 1) (Z.b2z b) v -> Q v s) -> wp (GetFlag f) s Q.
Proof.
  intros H Hf HQ. destruct (ar_flag _ _ H f b Hf) as (v & E & Hv). exists v, s. split; [|by apply HQ].
  unfold GetFlag, get_reg, GetReg, GetRegFacet. cbn [reg_exists negb].
  assert (AccessRegFacet REFLAGS f = true) as -> by (by destruct f). rewrite E. by destruct s.
Qed.

Lemma flag_upd f b fl g : is_Some (flag_of fl f) -> flag_of (upd_flag f b fl) g = if decide (g = f) then Some b else flag_of fl g.
Proof. intros [? Hf]. destruct f; try done; by destruct g. Qed.

Lemma wp_SetFlag s p f b v (Q : unit -> LState -> Prop) :
  arefines s p -> is_Some (flag_of (pf p) f) -> is_val (TInt 1) (Z.b2z b) v ->
  (forall s', arefines s' (wF p (upd_flag f b (pf p))) -> Q tt s') -> wp (SetFlag f v) s Q.
Proof.
  intros H Hf [Tv Hv] HQ. unfold wp, SetFlag, set_reg_facet, set_reg_with, SetReg.
  assert (facet_Type f = Some (TInt 1) /\ AccessRegFacet REFLAGS f = true) as [Ht Ha] by (destruct Hf as [? Hf]; by destruct f).
  rewrite decide_True by (by rewrite Tv, Ht). rewrite Ha. cbn. eexists _, _. split; [reflexivity|]. apply HQ.
  destruct H; constructor; cbn; try done; try (intros *; rewrite decide_False by other_reg; eauto).
  intros g c. rewrite flag_upd by done. destruct (decide (g = f)) as [->|Hne].
  - intros [= <-]. rewrite decide_True by done. by exists v.
  - rewrite decide_False by other_reg. auto.
Qed.

(** ** The instruction pointer *)

Lemma wp_get_aip s p (Q : Value -> LState -> Prop) :
  arefines s p -> (forall v, is_val (TInt 64) (ppc p) v -> Q v s) -> wp (get_reg RIP FI64) s Q.
Proof.
  intros H HQ. destruct (ar_pc _ _ H) as (v & E & Hv). exists v, s. split; [|by apply HQ].
  unfold get_reg, GetReg, GetRegFacet. cbn. rewrite E. by destruct s.
Qed.

Lemma wp_set_aip s p v x (Q : unit -> LState -> Prop) :
  arefines s p -> is_val (TInt 64) x v -> in_u 64 x -> (forall s', arefines s' (wPC p x) -> Q tt s') -> wp (set_reg RIP FI64 v) s Q.
Proof.
  intros H [Tv Hv] Hx HQ. unfold wp, set_reg, set_reg_with, SetReg. rewrite decide_True by (by rewrite Tv). cbn.
  exists tt. eexists. split; [reflexivity|]. apply HQ.
  destruct H; constructor; cbn; try done; try (intros *; rewrite decide_False by other_reg; eauto).
  rewrite decide_True by done. by exists v.
Qed.

Lemma wp_PCRel s p off (Q : Value -> LState -> Prop) :
  arefines s p -> (forall v, is_val (TInt 64) (u64 (ppc p + off)) v -> Q v s) -> wp (PCRel off) s Q.
Proof.
  intros H HQ. apply wp_bind. apply (wp_get_aip s p); [done|]. intros v Hv.
  apply (wp_binop Add 64 (ppc p) (u64 off) (u64 (ppc p + off))); [done|done|cbn; by rewrite wrap_add_r|done].
Qed.

Lemma wp_ASetIP fi s p addr nofold (Q : unit -> LState -> Prop) :
  arefines s p -> pc_base_value fi = getInt64 (pc_base_addr fi) \/ is_val (TInt 64) (u64 (pc_base_addr fi)) (pc_base_value fi) ->
  (forall s', arefines s' (wPC p (u64 addr)) -> Q tt s') -> wp (SetIP fi addr nofold) s Q.
Proof.
  intros H Hb HQ. assert (is_val (TInt 64) (u64 (pc_base_addr fi)) (pc_base_value fi)) as Hv by (by destruct Hb as [->|]).
  apply wp_bind. apply (wp_binop Add 64 (u64 (pc_base_addr fi)) (u64 (addr - pc_base_addr fi)) (u64 addr)); [done|done| |].
  - cbn. rewrite wrap_add_l, wrap_add_r. do 2 f_equal. lia.
  - intros v [Tv Hx]. eapply (wp_set_aip s p _ (u64 addr)); [done| |apply wrap_range; lia|done]. by destruct nofold.
Qed.

(** ** Memory and the CPU struct *)

Lemma wp_aload s p t a ptr (Q : Value -> LState -> Prop) :
  arefines s p -> is_val TPtr a ptr -> (forall v, is_val t (loadZ (pmem p) (Z.to_nat (ty_bits t / 8)) a) v -> Q v s) -> wp (CreateLoad t ptr) s Q.
Proof.
  intros H [Tp Hp] HQ. unfold wp, CreateLoad, load_val. rewrite decide_True by done. eexists _, _. split; [reflexivity|].
  apply HQ. split; [done|]. cbn. by rewrite Hp, (ar_mem _ _ H).
Qed.

Lemma wp_astore s p t a x v ptr (Q : unit -> LState -> Prop) :
  arefines s p -> is_val TPtr a ptr -> is_val t x v ->
  (forall s', arefines s' (wM p (storeZ (pmem p) (Z.to_nat (ty_bits t / 8)) a x)) -> Q tt s') -> wp (CreateStore v ptr) s Q.
Proof.
  intros H [Tp Hp] [Tv Hv] HQ. unfold wp, CreateStore, store_val. rewrite decide_True by done. eexists _, _. split; [reflexivity|].
  apply HQ. rewrite Tv, Hv, Hp, (ar_mem _ _ H). destruct H; constructor; cbn; try done. by apply mem_ok_storeZ.
Qed.

Lemma wp_store_tp s p v x (Q : unit -> LState -> Prop) :
  (TP < length cpu0)%nat -> arefines s p -> is_val (TInt 64) x v -> in_u 64 x ->
  (forall s', arefines s' (wTP p x) -> Q tt s') -> wp (store_sptr TP v) s Q.
Proof.
  intros Hl H [Tv Hv] Hx HQ. unfold wp, store_sptr. rewrite (ar_cpu _ _ H), list_lookup_insert_eq by done.
  eexists _, _. split; [reflexivity|]. apply HQ. rewrite list_insert_insert_eq, Hv. destruct H; constructor; cbn; done.
Qed.

Lemma wp_load_tp s p (Q : Value -> LState -> Prop) :
  (TP < length cpu0)%nat -> arefines s p -> (forall v, is_val (TInt 64) (ptp p) v -> Q v s) -> wp (load_sptr TP) s Q.
Proof.
  intros Hl H HQ. unfold wp, load_sptr. rewrite (ar_cpu _ _ H), list_lookup_insert_eq by done.
  eexists _, _. split; [reflexivity|]. by apply HQ.
Qed.

(** ** Vector registers *)

Lemma vproj128_type f x t y : vproj128 f x = Some (t, y) -> facet_Type f = Some t /\ y = wrap (ty_bits t) x /\ ty_bits t <= 128.
Proof.
  unfold vproj128. destruct (facet_Type f) as [t'|] eqn:Et; [|done]. cbn. destruct (Z.leb_spec (ty_bits t') 128); [|done].
  intros E. apply (inj Some), pair_equal_spec in E as [-> <-]. done.
Qed.

Lemma vproj128_of f t x : facet_Type f = Some t -> ty_bits t <= 128 -> vproj128 f x = Some (t, wrap (ty_bits t) x).
Proof. intros Ht Hb. unfold vproj128. rewrite Ht. cbn. apply Z.leb_le in Hb. by rewrite Hb. Qed.

Lemma ar_vnative s p i : arefines s p -> 0 <= i < 32 ->
  exists n, rf_vals (l_rf s) (RVEC i) FV2I64 = Some n /\ is_val (TVec 2 (TInt 64)) (pv p i) n.
Proof.
  intros H Hi. destruct (ar_v _ _ H i Hi) as [n E]. exists n. split; [done|].
  pose proof (ar_vv _ _ H i FV2I64 n Hi E) as Hp. apply vproj128_type in Hp as ([= Et] & Hv & _).
  split; [done|]. rewrite Hv, <- Et. apply wrap_small. apply (ar_vr _ _ H i Hi).
Qed.

(** A full vector facet, stored or derived. *)
Lemma GetRegVector_full s p i vf n sc t :
  arefines s p -> 0 <= i < 32 -> AccessRegFacet (RVEC i) vf = true -> facet_vector vf = Some (n, sc) -> scalar_type sc = Some t ->
  n * ty_bits t = 128 -> 128 / ty_bits t = n ->
  exists v rf, GetRegVector (l_rf s) (RVEC i) vf = Some (v, rf) /\ is_val (TVec n t) (pv p i) v /\
  arefines (mkL rf (l_mem s) (l_cpu s) (l_ret s)) p.
Proof.
  intros H Hi Ha Hvf Hsc Hn Hd. assert (facet_Type vf = Some (TVec n t)) as Ht by (unfold facet_Type; rewrite Hvf; cbn; by rewrite Hsc).
  assert (vproj128 vf (pv p i) = Some (TVec n t, pv p i)) as Hproj.
  { rewrite (vproj128_of vf (TVec n t)) by (cbn; lia || done). cbn. rewrite Hn. by rewrite wrap_small by apply (ar_vr _ _ H i Hi). }
  unfold GetRegVector. destruct (GetRegFacet (l_rf s) (RVEC i) vf) as [v|] eqn:Ev.
  { unfold GetRegFacet in Ev. rewrite Ha in Ev. exists v, (l_rf s). split; [done|]. split; [|by destruct s].
    rewrite (ar_vv _ _ H i vf v Hi Ev) in Hproj. by injection Hproj as <- <-. }
  destruct (ar_vnative s p i H Hi) as ([ty b c] & En & Tn & Hb). cbn in Tn, Hb. subst ty b.
  rewrite (ar_arch _ _ H). cbn [ivec_facet].
  assert (GetRegFacet (l_rf s) (RVEC i) FV2I64 = Some (mkVal (TVec 2 (TInt 64)) (pv p i) c)) as -> by (by rewrite <- En).
  cbn [mbind option_bind]. rewrite Hvf. cbn [mbind option_bind]. rewrite Hsc. cbn [mbind option_bind].
  assert ((n * ty_bits t <=? 128) = true) as -> by (apply Z.leb_le; lia).
  assert (exists t' c', default (mkVal (TVec 2 (TInt 64)) (pv p i) c) (GetRegFacet (l_rf s) (RVEC i) FI128) = mkVal t' (pv p i) c' /\ ty_bits t' = 128)
    as (t' & c' & Hdef & Ht').
  { change (GetRegFacet (l_rf s) (RVEC i) FI128) with (rf_vals (l_rf s) (RVEC i) FI128).
    destruct (rf_vals (l_rf s) (RVEC i) FI128) as [[t' b' c']|] eqn:E1; [|by exists (TVec 2 (TInt 64)), c].
    pose proof (ar_vv _ _ H i FI128 _ Hi E1) as Hp. apply vproj128_type in Hp as ([= <-] & Hv & _). cbn in Hv.
    rewrite (wrap_small 128) in Hv by apply (ar_vr _ _ H i Hi). subst b'. by exists (TInt 128), c'. }
  rewrite Hdef. cbn [v_ty]. rewrite Ht', Hd.
  assert (exists c'', CreateCast BitCast (mkVal t' (pv p i) c') (TVec n t) = Some (mkVal (TVec n t) (pv p i) c'')) as (c'' & Ec).
  { unfold CreateCast. cbn [v_ty v_bits]. destruct (decide (t' = TVec n t)) as [->|_]; [by exists c'|].
    cbn [ty_bits]. assert ((ty_bits t' =? n * ty_bits t) = true) as -> by (apply Z.eqb_eq; lia). eauto. }
  rewrite Ec. cbn [mbind option_bind]. rewrite Z.ltb_irrefl. unfold cache. rewrite Ha.
  eexists _, _. split; [reflexivity|]. split; [done|]. by apply arefines_cache_vec.
Qed.

(** The scalar facets, each the first element of a full vector, but the widest. *)
Definition scalar_facets : list (Facet * (Facet * Z)) :=
  [(FI8, (FV16I8, 16)); (FI16, (FV8I16, 8)); (FI32, (FV4I32, 4)); (FI64, (FV2I64, 2)); (FF32, (FV4F32, 4)); (FF64, (FV2F64, 2))].

Lemma GetRegScalar_full s p i f t :
  arefines s p -> 0 <= i < 32 -> f = FI128 \/ f ∈ scalar_facets.*1 -> facet_Type f = Some t ->
  exists v rf, GetRegScalar (l_rf s) (RVEC i) f = Some (v, rf) /\ is_val t (wrap (ty_bits t) (pv p i)) v /\
  arefines (mkL rf (l_mem s) (l_cpu s) (l_ret s)) p.
Proof.
  intros H Hi Hf Ht. destruct (ar_vnative s p i H Hi) as ([ty b c] & En & Tn & Hb). cbn in Tn, Hb. subst ty b.
  assert (GetRegFacet (l_rf s) (RVEC i) FV2I64 = Some (mkVal (TVec 2 (TInt 64)) (pv p i) c)) as Eg by (by rewrite <- En).
  unfold GetRegScalar. rewrite (ar_arch _ _ H). cbn [ivec_facet]. rewrite Eg. cbn [mbind option_bind]. rewrite Ht. cbn [mbind option_bind v_ty].
  destruct Hf as [->|Hf].
  { injection Ht as <-. cbn -[wrap cache]. eexists _, _. split; [reflexivity|]. rewrite (wrap_small 128) by apply (ar_vr _ _ H i Hi).
    split; [done|]. apply arefines_cache_vec; [done..|]. rewrite (vproj128_of FI128 (TInt 128)) by done. cbn.
    by rewrite (wrap_small 128) by apply (ar_vr _ _ H i Hi). }
  assert (exists vf n, (f, (vf, n)) ∈ scalar_facets) as (vf & n & Hin).
  { apply list_elem_of_fmap in Hf as ([f' [vf n]] & -> & Hin). by exists vf, n. }
  assert (facet_vector vf = Some (n, f) /\ scalar_type f = Some t /\ n * ty_bits t = 128 /\ AccessRegFacet (RVEC i) vf = true /\
          AccessRegFacet (RVEC i) f = true /\ facet_Vnt n f = Some vf /\ 128 / ty_bits t = n /\ n <> 1 /\ ty_bits t <= 128) as (V1 & V2 & V3 & V4 & V5 & V6 & V7 & V8 & V9).
  { unfold scalar_facets in Hin. rewrite !elem_of_cons, elem_of_nil in Hin.
    repeat (destruct Hin as [Hin|Hin]; [apply pair_equal_spec in Hin as [-> [-> ->]%pair_equal_spec]; injection Ht as <-; by vm_compute|]). done. }
  change (ty_bits (TVec 2 (TInt 64))) with 128. rewrite V7. rewrite (proj2 (Z.eqb_neq n 1) V8), V6. cbn [mbind option_bind].
  destruct (GetRegVector_full s p i vf n f t H Hi V4 V1 V2 V3 V7) as (v & rf & Ev & [Tv Hv] & Hr). rewrite Ev. cbn [mbind option_bind].
  unfold cache. rewrite V5. eexists _, _. split; [reflexivity|]. rewrite Hv. split; [done|].
  apply (arefines_cache_vec (mkL rf (l_mem s) (l_cpu s) (l_ret s))); [done..|]. cbn. by apply vproj128_of.
Qed.

Lemma facet_access_scalar i f : f = FI128 \/ f ∈ scalar_facets.*1 -> AccessRegFacet (RVEC i) f = true /\ facet_vector f = None.
Proof. cbn. rewrite !elem_of_cons, elem_of_nil. by intros [->|[->|[->|[->|[->|[->|[->|[]]]]]]]]. Qed.

Lemma wp_get_scalar s p i f t (Q : Value -> LState -> Prop) :
  arefines s p -> 0 <= i < 32 -> f = FI128 \/ f ∈ scalar_facets.*1 -> facet_Type f = Some t ->
  (forall v s', arefines s' p -> is_val t (wrap (ty_bits t) (pv p i)) v -> Q v s') -> wp (get_reg (RVEC i) f) s Q.
Proof.
  intros H Hi Hf Ht HQ. unfold wp, get_reg, GetReg. rewrite (ar_arch _ _ H). change (reg_exists AArch64 (RVEC i)) with (reg_exists AArch64 (RGP i)).
  rewrite areg_exists_gp by lia. cbn [negb]. destruct (facet_access_scalar i f Hf) as [Ha Hv].
  destruct (GetRegFacet (l_rf s) (RVEC i) f) as [v|] eqn:Ev.
  - exists v, s. split; [by destruct s|]. apply HQ; [done|]. unfold GetRegFacet in Ev. rewrite Ha in Ev.
    apply (ar_vv _ _ H i f v Hi), vproj128_type in Ev as (Et & Hx & _). rewrite Ht in Et. injection Et as ->. done.
  - destruct (GetRegScalar_full s p i f t H Hi Hf Ht) as (v & rf & E & Hx & Hr). rewrite Hv, E.
    eexists _, _. split; [reflexivity|]. by apply HQ.
Qed.

(** The two double words. *)
Lemma wp_get_2d s p i (Q : Value -> LState -> Prop) :
  arefines s p -> 0 <= i < 32 -> (forall v, is_val (TVec 2 (TInt 64)) (pv p i) v -> Q v s) -> wp (get_reg (RVEC i) FV2I64) s Q.
Proof.
  intros H Hi HQ. destruct (ar_vnative s p i H Hi) as (n & En & Hn). exists n, s. split; [|by apply HQ].
  unfold get_reg, GetReg. rewrite (ar_arch _ _ H). change (reg_exists AArch64 (RVEC i)) with (reg_exists AArch64 (RGP i)).
  rewrite areg_exists_gp by lia. cbn [negb]. unfold GetRegFacet. change (AccessRegFacet (RVEC i) FV2I64) with true. cbn iota. rewrite En. by destruct s.
Qed.

Lemma arefines_set_vec s p i v x :
  arefines s p -> 0 <= i < 32 -> is_val (TVec 2 (TInt 64)) x v -> in_u 128 x ->
  exists rf, SetReg (l_rf s) (RVEC i) FV2I64 v true = Some rf /\ arefines (mkL rf (l_mem s) (l_cpu s) (l_ret s)) (wV p i x).
Proof.
  intros H Hi [Tv Hv] Hx. unfold SetReg. change (reg_exists (rf_arch (l_rf s)) (RVEC i)) with (reg_exists (rf_arch (l_rf s)) (RGP i)).
  rewrite decide_True by (rewrite (ar_arch _ _ H), areg_exists_gp, Tv by lia; done).
  rewrite (ar_arch _ _ H). cbn. eexists. split; [reflexivity|].
  destruct H; constructor; cbn; try done; try (intros *; rewrite !decide_False by other_reg; eauto).
  - intros j Hj. destruct (decide _); [done|]. rewrite decide_False by other_reg. auto.
  - intros j f w Hj. destruct (Z.eqb_spec j i) as [->|Hne].
    + destruct (decide _) as [[_ ->]|]; [intros [= <-]; unfold vproj128; cbn; by rewrite Tv, Hv, wrap_small|]. by rewrite decide_True.
    + rewrite !decide_False by other_reg. auto.
  - intros j Hj. destruct (Z.eqb_spec j i) as [->|Hne]; auto.
Qed.

Lemma wp_set_vec_facet s p i f v (Q : unit -> LState -> Prop) :
  arefines s p -> 0 <= i < 32 -> AccessRegFacet (RVEC i) f = true -> vproj128 f (pv p i) = Some (v_ty v, v_bits v) ->
  (forall s', arefines s' p -> Q tt s') -> wp (set_reg_facet (RVEC i) f v) s Q.
Proof.
  intros H Hi Ha Hv HQ. destruct (vproj128_type _ _ _ _ Hv) as (Ht & _). unfold wp, set_reg_facet, set_reg_with, SetReg.
  change (reg_exists (rf_arch (l_rf s)) (RVEC i)) with (reg_exists (rf_arch (l_rf s)) (RGP i)).
  rewrite decide_True by (rewrite (ar_arch _ _ H), areg_exists_gp, Ht by lia; done). rewrite Ha. cbn. eexists _, _. split; [reflexivity|].
  apply HQ. apply (arefines_vals (mkL (set_val (RVEC i) f v (l_rf s)) (l_mem s) (l_cpu s) (l_ret s))); [by apply arefines_cache_vec|by apply H|done].
Qed.

(** The types of scalars, each with its facet. *)
Lemma scalar_type_cases t : t ∈ [TInt 8; TInt 16; TInt 32; TInt 64; TInt 128; TFloat; TDouble] ->
  exists f, facet_FromType t = Some f /\ facet_Type f = Some t /\ (f = FI128 \/ f ∈ scalar_facets.*1) /\ 0 < ty_bits t <= 128.
Proof.
  rewrite !elem_of_cons, elem_of_nil.
  intros [->|[->|[->|[->|[->|[->|[->|[]]]]]]]]; eexists; (split; [reflexivity|]); (split; [reflexivity|]); (split; [|cbn; lia]);
    try (by left); right; cbn; rewrite !elem_of_cons; tauto.
Qed.

Lemma wp_SetScalar s p r t x v (Q : unit -> LState -> Prop) :
  arefines s p -> 0 <= r < 32 -> t ∈ [TInt 8; TInt 16; TInt 32; TInt 64; TInt 128; TFloat; TDouble] -> is_val t x v -> in_u (ty_bits t) x ->
  (forall s', arefines s' (wV p r x) -> Q tt s') -> wp (SetScalar r v) s Q.
Proof.
  intros H Hr Ht [Tv Hv] Hx HQ. destruct (scalar_type_cases t Ht) as (f & Ef & Et & Hf & Hb).
  assert (in_u 128 x) as Hx128 by (unfold in_u in *; pose proof (Z.pow_le_mono_r 2 (ty_bits t) 128); lia).
  unfold SetScalar. rewrite Tv, Ef. apply wp_bind. eapply wp_pure; [reflexivity|]. apply wp_bind.
  set (fullvec := if ty_bits t =? 128 then v else _).
  assert (exists c, CreateCast BitCast fullvec (TVec 2 (TInt 64)) = Some (mkVal (TVec 2 (TInt 64)) x c)) as (c & Ec).
  { unfold fullvec, CreateCast. rewrite !elem_of_cons, elem_of_nil in Ht.
    destruct Ht as [->|[->|[->|[->|[->|[->|[->|[]]]]]]]]; cbn; rewrite ?Tv, ?Hv; by eexists. }
  eapply wp_pure; [exact Ec|]. apply wp_bind. destruct (arefines_set_vec s p r (mkVal (TVec 2 (TInt 64)) x c) x H Hr) as (rf & E & Hs); [done|done|].
  unfold set_reg, set_reg_with. eexists _, _. split; [rewrite E; reflexivity|].
  eapply wp_set_vec_facet; [exact Hs|done|by apply facet_access_scalar| |done]. cbn. rewrite Z.eqb_refl, Tv, Hv.
  rewrite (vproj128_of f t) by (done || lia). by rewrite wrap_small.
Qed.
End Refines.
