(* ===== verification/RellumeA64Alu.v ===== *)
(** * What the expressions of the AArch64 lifter compute

    The values built from builder calls are the results of the operations of
    [A64Sem]: shifts and extensions, bit fields, divisions, reversals, flags. *)

From Stdlib Require Import ZArith Lia.
From stdpp Require Import base numbers list option gmap.
From S2P Require Import Prelude Machine Farmdec FarmdecProofs FarmdecWf Rellume RellumeProofs RellumeA64 A64Sem.

(** ** Expressions *)

Definition evals (o : option Value) (t : Ty) (x : Z) : Prop := exists v, o = Some v /\ is_val t x v.

Lemma evals_some t x v : is_val t x v -> evals (Some v) t x.
Proof. by exists v. Qed.

Lemma evals_bind o t x f t' y : evals o t x -> (forall v, is_val t x v -> evals (f v) t' y) -> evals (o ≫= f) t' y.
Proof. intros (v & -> & Hv) Hf. by apply Hf. Qed.

Lemma evals_mk o t x c : o = Some (mkVal t x c) -> evals o t x.
Proof. intros ->. by eexists. Qed.

Lemma evals_eq o t x y : evals o t x -> x = y -> evals o t y.
Proof. by intros ? <-. Qed.

Lemma wp_evals o t x s (Q : Value -> LState -> Prop) : evals o t x -> (forall v, is_val t x v -> Q v s) -> wp (pure o) s Q.
Proof. intros (v & -> & Hv) HQ. eapply wp_pure; [done|]. by apply HQ. Qed.

Lemma evals_intN w z : evals (Some (getIntN w z)) (TInt w) (wrap w z).
Proof. by eexists. Qed.

Lemma evals_binop op w a b r va vb : is_val (TInt w) a va -> is_val (TInt w) b vb -> bin_sem op w a b = Some r -> evals (CreateBinOp op va vb) (TInt w) r.
Proof. intros [Ta <-] [Tb <-] Hr. eapply evals_mk. unfold CreateBinOp. by rewrite Ta, decide_True, Hr by done. Qed.

Lemma evals_icmp p w a b va vb : is_val (TInt w) a va -> is_val (TInt w) b vb -> evals (CreateICmp p va vb) (TInt 1) (Z.b2z (icmp_sem p w a b)).
Proof. intros [Ta <-] [Tb <-]. eapply evals_mk. unfold CreateICmp. by rewrite Ta, decide_True. Qed.

Lemma evals_select t (c : bool) a b vc va vb :
  is_val (TInt 1) (Z.b2z c) vc -> is_val t a va -> is_val t b vb -> evals (CreateSelect vc va vb) t (if c then a else b).
Proof.
  intros [Tc Hc] [Ta <-] [Tb <-]. eapply evals_mk. unfold CreateSelect. rewrite decide_True by (by rewrite Tc, Ta, Tb).
  rewrite Hc, Ta. by destruct c.
Qed.

Lemma evals_ext (signed : bool) w w' a va :
  0 < w <= w' -> in_u w a -> is_val (TInt w) a va ->
  evals (CreateCast (if signed then SExt else ZExt) va (TInt w')) (TInt w') (if signed then wrap w' (swrap w a) else a).
Proof.
  intros Hw Ha Hv. destruct (wp_ext signed w w' a va (mkL (mkRF (fun _ _ => None) AArch64 ∅ ∅) ∅ [] false)
    (fun v _ => is_val (TInt w') (if signed then wrap w' (swrap w a) else a) v) Hw Ha Hv) as (v & s' & E & Hr); [done|].
  exists v. split; [|done]. unfold pure in E. destruct (CreateCast _ _ _); [|done]. by injection E as <- _.
Qed.

Lemma evals_trunc w w' a va : w' <= w -> in_u w a -> is_val (TInt w) a va -> evals (CreateCast Trunc va (TInt w')) (TInt w') (wrap w' a).
Proof.
  intros Hw Ha [Ta Hb]. unfold CreateCast. rewrite Ta, Hb. destruct (decide (TInt w = TInt w')) as [[= ->]|Hne].
  - rewrite wrap_small by done. by exists va.
  - assert ((w' <? w) = true) as ->; [|by eexists]. apply Z.ltb_lt. assert (w <> w') by congruence. lia.
Qed.

Lemma evals_bitcast t t' a va : ty_bits t = ty_bits t' -> is_val t a va -> evals (CreateCast BitCast va t') t' a.
Proof.
  intros Hb [Ta Ha]. unfold CreateCast. rewrite Ta. destruct (decide (t = t')) as [->|Hne]; [by exists va|].
  rewrite Hb, Z.eqb_refl, Ha. by eexists.
Qed.

Lemma evals_trunc_or_bitcast w w' a va :
  w' <= w -> in_u w a -> is_val (TInt w) a va -> evals (CreateTruncOrBitCast va (TInt w')) (TInt w') (wrap w' a).
Proof.
  intros Hw Ha Hv. pose proof Hv as [Ta Hb]. unfold CreateTruncOrBitCast. rewrite Ta. cbn [ty_bits]. destruct (Z.eqb_spec w w') as [->|].
  - rewrite wrap_small by done. by apply (evals_bitcast (TInt w')).
  - by apply (evals_trunc w).
Qed.

(** The complement and the negative. *)
Lemma lxor_ones N x : 0 <= N -> in_u N x -> Z.lxor x (wrap N (-1)) = wrap N (- x - 1).
Proof.
  intros HN Hx. replace (- x - 1) with (Z.lnot x) by (unfold Z.lnot; lia). apply bits_eq. intros i Hi.
  assert (Z.testbit (-1) i = true) as E by (by apply Z.bits_m1). rewrite Z.lxor_spec, !testbit_wrap, Z.lnot_spec, E by lia. destruct (Z.ltb_spec i N); [by destruct (Z.testbit x i)|].
  rewrite (bits_above N x) by done. done.
Qed.

Lemma evals_not N x v : 0 <= N -> in_u N x -> is_val (TInt N) x v -> evals (CreateNot v) (TInt N) (wrap N (- x - 1)).
Proof.
  intros HN Hx Hv. pose proof Hv as [Tv _]. unfold CreateNot. rewrite Tv. eapply evals_binop; [done|done|]. cbn. by rewrite lxor_ones.
Qed.

Lemma evals_not1 (b : bool) v : is_val (TInt 1) (Z.b2z b) v -> evals (CreateNot v) (TInt 1) (Z.b2z (negb b)).
Proof. intros Hv. eapply evals_eq; [eapply (evals_not 1); [lia| |exact Hv]|]; by destruct b. Qed.

Lemma evals_neg N x v : is_val (TInt N) x v -> evals (CreateNeg v) (TInt N) (wrap N (- x)).
Proof. intros Hv. pose proof Hv as [Tv _]. unfold CreateNeg. rewrite Tv. by eapply evals_binop. Qed.

Section Width.
Context (N : Z) (HN : N = 32 \/ N = 64).

Lemma N_pos : 0 < N.
Proof. destruct HN; lia. Qed.

(** ** Shifts and extensions *)

Lemma rotate_eq x n : 0 <= n < N -> in_u N x -> wrap N (Z.shiftr (x + 2 ^ N * x) n) = rotate N n x.
Proof.
  intros Hn Hx. unfold rotate, in_u, wrap in *. rewrite Z.shiftr_div_pow2 by lia.
  assert (2 ^ N = 2 ^ n * 2 ^ (N - n)) as E by (rewrite <- Z.pow_add_r by lia; f_equal; lia).
  pose proof (Z.pow_pos_nonneg 2 n). pose proof (Z.pow_pos_nonneg 2 (N - n)).
  replace (x + 2 ^ N * x) with (x + 2 ^ (N - n) * x * 2 ^ n) by (rewrite E; ring). rewrite Z.div_add by lia.
  pose proof (Z.div_mod x (2 ^ n) ltac:(lia)) as D. pose proof (Z.mod_pos_bound x (2 ^ n) ltac:(lia)).
  replace (2 ^ (N - n) * x) with (x `mod` 2 ^ n * 2 ^ (N - n) + x / 2 ^ n * 2 ^ N) by (rewrite E; nia).
  rewrite Z.add_assoc, Z.mod_add by lia. apply Z.mod_small.
  assert (0 <= x / 2 ^ n < 2 ^ (N - n)) by (split; [apply Z.div_pos; lia|apply Z.div_lt_upper_bound; lia]). nia.
Qed.

Lemma evals_fshr x n v vn : in_u N x -> 0 <= n -> is_val (TInt N) x v -> is_val (TInt N) n vn -> evals (CreateFshr v vn) (TInt N) (rotate N (n `mod` N) x).
Proof.
  intros Hx Hn [Tv Hv] [Tn Hb]. unfold CreateFshr. rewrite Tv, decide_True by done. eapply evals_mk. rewrite Hv, Hb.
  rewrite rotate_eq; [done| |done]. apply Z.mod_pos_bound, N_pos.
Qed.

Lemma evals_shift v x ty n y : in_u N x -> is_val (TInt N) x v -> shift_reg N ty n x = Some y -> evals (Shift v ty n) (TInt N) y.
Proof.
  intros Hx Hv Hs. pose proof Hv as [Tv _]. unfold Shift, shift_reg in *. rewrite Tv. cbn [ty_bits].
  destruct (Z.leb_spec 0 n), (Z.ltb_spec n N); cbn [andb negb] in *; try done.
  pose proof N_pos. assert (in_u N n) as Hn by (unfold in_u; pose proof (Z.pow_gt_lin_r 2 N); lia).
  assert (is_val (TInt N) n (getIntN N n)) as Hvn by (split; [done|]; cbn; by rewrite wrap_small).
  assert ((N <=? n) = false) as E by (apply Z.leb_gt; lia).
  destruct (Z.eqb_spec n 0) as [->|Hne].
  { exists v. split; [done|]. replace y with x; [done|].
    destruct ty as [|[[]|[]|]|]; cbn in Hs; rewrite ?Z.mul_1_r, ?Z.div_1_r in Hs; try done; injection Hs as <-.
    - by rewrite wrap_small.
    - unfold rotate. cbn. rewrite Z.div_1_r, Z.mod_1_r. lia.
    - by rewrite wrap_swrap, wrap_small.
    - done. }
  destruct ty as [|[[]|[]|]|]; try done; injection Hs as <-.
  - eapply evals_binop; [done|done|]. cbn. by rewrite E, Z.shiftl_mul_pow2.
  - eapply evals_eq; [by apply (evals_fshr x n)|]. by rewrite Z.mod_small.
  - eapply evals_binop; [done|done|]. cbn. by rewrite E, Z.shiftr_div_pow2.
  - eapply evals_binop; [done|done|]. cbn. by rewrite E, Z.shiftr_div_pow2.
Qed.

Lemma evals_extend m w32 v x ty l :
  N = wbits w32 -> 0 <= ty < 8 -> extend_len ty <= m -> extend_len ty <= N -> 0 <= l < 5 -> in_u m x -> is_val (TInt m) x v ->
  evals (Extend v w32 ty l) (TInt N) (wrap N (extend_val ty x * 2 ^ l)).
Proof.
  intros EN Ht Hm Hl Hs Hx Hv. pose proof N_pos. unfold Extend. rewrite <- EN.
  assert ((match ty with 0 | 4 => Some 8 | 1 | 5 => Some 16 | 2 | 6 => Some 32 | 3 | 7 => Some 64 | _ => None end) = Some (extend_len ty) /\ 0 < extend_len ty)
    as [-> Hpos] by (assert (ty = 0 \/ ty = 1 \/ ty = 2 \/ ty = 3 \/ ty = 4 \/ ty = 5 \/ ty = 6 \/ ty = 7) as D by lia;
                     destruct D as [->|[->|[->|[->|[->|[->|[->| ->]]]]]]]; by vm_compute).
  change (Some (extend_len ty) ≫= ?f) with (f (extend_len ty)). cbv beta.
  eapply evals_bind; [by eapply (evals_trunc_or_bitcast m)|]. intros v1 H1.
  set (e := wrap N (extend_val ty x)).
  eapply (evals_bind _ (TInt N) e).
  - eapply evals_eq; [apply (evals_ext (4 <=? ty) (extend_len ty)); [lia|apply wrap_range; lia|exact H1]|].
    unfold e, extend_val. destruct (4 <=? ty); [by rewrite swrap_wrap|]. symmetry. apply wrap_small.
    pose proof (wrap_range (extend_len ty) x ltac:(lia)) as [? ?]. unfold in_u. pose proof (Z.pow_le_mono_r 2 (extend_len ty) N). lia.
  - intros v2 H2. eapply (evals_shift v2 e 0 l); [apply wrap_range; lia|done|]. unfold shift_reg.
    assert ((0 <=? l) && (l <? N) = true) as -> by (rewrite andb_true_iff, Z.leb_le, Z.ltb_lt; lia). f_equal.
    unfold e, wrap. by rewrite Z.mul_mod_idemp_l by (apply Z.pow_nonzero; lia).
Qed.

(** ** Bit fields *)

Lemma ones_eq w : 0 <= w <= 64 -> ones w = Z.ones w.
Proof.
  intros Hw. unfold ones. destruct (Z.leb_spec 64 w); [by replace w with 64 by lia|].
  rewrite Z.shiftl_1_l, wrap_small, Z.ones_equiv by (unfold in_u; pose proof (Z.pow_lt_mono_r 2 w 64); lia). lia.
Qed.

Lemma wrap_ones w : 0 <= w <= N -> wrap N (ones w) = Z.ones w.
Proof.
  intros Hw. pose proof N_pos. rewrite ones_eq by lia. apply wrap_small. rewrite Z.ones_equiv. unfold in_u.
  pose proof (Z.pow_le_mono_r 2 w N). pose proof (Z.pow_pos_nonneg 2 w). lia.
Qed.

Lemma is_val_small z : in_u N z -> is_val (TInt N) z (getIntN N z).
Proof. intros. split; [done|]. by apply wrap_small. Qed.

Lemma amount_ok n : 0 <= n < N -> in_u N n.
Proof. intros. unfold in_u. pose proof (Z.pow_gt_lin_r 2 N). lia. Qed.

Lemma evals_Extract w32 v x lsb width :
  N = wbits w32 -> 0 <= lsb < N -> 0 <= width -> lsb + width <= N -> is_val (TInt N) x v ->
  evals (Extract v w32 lsb width) (TInt N) (wrap width (Z.shiftr x lsb)).
Proof.
  intros EN Hl Hw Hb Hv. unfold Extract. rewrite <- EN. eapply evals_bind.
  - eapply (evals_binop LShr); [done|by apply is_val_small, amount_ok|]. cbn. by rewrite (proj2 (Z.leb_gt N lsb)) by lia.
  - intros v1 H1. eapply (evals_binop And); [done|apply is_val_intN|]. cbn. by rewrite wrap_ones, Z.land_ones by lia.
Qed.

Lemma evals_MoveField w32 v x lsb width :
  N = wbits w32 -> 0 <= lsb < N -> 0 <= width -> lsb + width <= N -> is_val (TInt N) x v ->
  evals (MoveField v w32 lsb width) (TInt N) (wrap N (Z.shiftl (wrap width x) lsb)).
Proof.
  intros EN Hl Hw Hb Hv. unfold MoveField. rewrite <- EN. eapply evals_bind.
  - eapply (evals_binop And); [done|apply is_val_intN|]. cbn. by rewrite wrap_ones, Z.land_ones by lia.
  - intros v1 H1. eapply (evals_binop Shl); [done|by apply is_val_small, amount_ok|]. cbn. by rewrite (proj2 (Z.leb_gt N lsb)) by lia.
Qed.

(** The mask of the bits from [k]. *)
Definition high_mask (k : Z) : Z := u64 (Z.shiftl (u64 (-1)) k).
Lemma high_mask_bit k i : 0 <= k -> 0 <= i -> Z.testbit (high_mask k) i = (k <=? i) && (i <? 64).
Proof.
  intros Hk Hi. unfold high_mask. rewrite testbit_wrap, Z.shiftl_spec by lia.
  destruct (Z.leb_spec k i); [|by rewrite Z.testbit_neg_r by lia].
  rewrite testbit_wrap by lia. assert (Z.testbit (-1) (i - k) = true) as -> by (apply Z.bits_m1; lia).
  destruct (Z.ltb_spec (i - k) 64), (Z.ltb_spec i 64); try lia; done.
Qed.

Lemma evals_sext_field w32 v y k :
  N = wbits w32 -> 0 <= k < N -> in_u (k + 1) y -> is_val (TInt N) y v ->
  evals (sext_field v w32 (high_mask k)) (TInt N) (wrap N (swrap (k + 1) y)).
Proof.
  intros EN Hk Hy Hv. pose proof N_pos. unfold sext_field. rewrite <- EN. set (m := getIntN N (high_mask k)).
  assert (forall i, 0 <= i -> Z.testbit (wrap N (high_mask k)) i = (k <=? i) && (i <? N)) as Hm.
  { intros i Hi. rewrite testbit_wrap, high_mask_bit by lia. destruct (Z.leb_spec k i), (Z.ltb_spec i 64), (Z.ltb_spec i N); try lia; done. }
  assert (forall i, k < i -> Z.testbit y i = false) as Hhi by (intros; apply (bits_above (k + 1)); [lia|done|lia]).
  assert (negb (Z.land y (wrap N (high_mask k)) =? 0) = Z.testbit y k) as Hb.
  { destruct (Z.testbit y k) eqn:Ek.
    - apply negb_true_iff, Z.eqb_neq. intros E. apply (f_equal (fun z => Z.testbit z k)) in E.
      rewrite Z.land_spec, Ek, Hm, Z.bits_0 in E by lia. destruct (Z.leb_spec k k), (Z.ltb_spec k N); cbn in E; lia || done.
    - apply negb_false_iff, Z.eqb_eq, bits_eq. intros i Hi. rewrite Z.land_spec, Hm, Z.bits_0 by lia.
      destruct (Z.leb_spec k i); cbn; [|apply andb_false_r]. destruct (Z.eq_dec i k) as [->|]; [by rewrite Ek|]. by rewrite Hhi by lia. }
  eapply evals_bind; [eapply (evals_binop And); [exact Hv|apply is_val_intN|reflexivity]|]. intros a Ha.
  eapply evals_bind; [eapply (evals_icmp ICMP_NE N); [exact Ha|apply is_val_intN]|]. intros c Hc.
  eapply evals_bind; [eapply (evals_binop Or); [exact Hv|apply is_val_intN|reflexivity]|]. intros e He.
  eapply evals_eq; [eapply evals_select; [exact Hc|exact He|exact Hv]|].
  cbn [icmp_sem]. rewrite (wrap_small N 0), Hb by (apply amount_ok; lia). apply bits_eq. intros i Hi.
  rewrite testbit_wrap, testbit_swrap by lia. replace (k + 1 - 1) with k by lia.
  destruct (Z.testbit y k) eqn:Ek; rewrite ?Z.lor_spec, ?Hm by lia; destruct (Z.leb_spec k i), (Z.ltb_spec i N); cbn; try lia;
    rewrite ?andb_true_r, ?andb_false_r, ?orb_true_r, ?orb_false_r; rewrite ?Z.min_r, ?Z.min_l by lia; try done; try (by apply Hhi; lia).
  destruct (Z.eq_dec i k) as [->|]; [done|]. by rewrite Ek, Hhi by lia.
Qed.

Lemma swrap_shiftl w l x : 0 < w -> 0 <= l -> swrap (l + w) (x * 2 ^ l) = swrap w x * 2 ^ l.
Proof.
  intros Hw Hl. unfold swrap. replace (l + w - 1) with (l + (w - 1)) by lia. rewrite !Z.pow_add_r by lia.
  replace (x * 2 ^ l + 2 ^ l * 2 ^ (w - 1)) with ((x + 2 ^ (w - 1)) * 2 ^ l) by ring.
  rewrite (Z.mul_comm (2 ^ l) (2 ^ w)), Z.mul_mod_distr_r by (apply Z.pow_nonzero; lia). ring.
Qed.

(** Clearing the bits under a mask. *)
Lemma land_clear d M : in_u N d -> Z.land d (wrap N (u64 (Z.lnot (u64 M)))) = Z.ldiff d M.
Proof.
  intros Hd. pose proof N_pos. apply bits_eq. intros i Hi. rewrite Z.land_spec, Z.ldiff_spec, !testbit_wrap, Z.lnot_spec, testbit_wrap by lia.
  destruct (Z.ltb_spec i N); [|by rewrite (bits_above N d) by (done || lia)].
  rewrite (proj2 (Z.ltb_lt i 64)) by lia. by rewrite !andb_true_r.
Qed.

Lemma land_clear' d M : in_u N d -> Z.land d (wrap N (u64 (Z.lnot M))) = Z.ldiff d M.
Proof.
  intros Hd. rewrite <- land_clear by done. f_equal. f_equal. apply bits_eq. intros i Hi.
  rewrite !testbit_wrap, !Z.lnot_spec, testbit_wrap by lia. destruct (Z.ltb_spec i 64); [by rewrite !andb_true_r|by rewrite !andb_false_r].
Qed.

Lemma field_small x lsb width : 0 <= lsb -> 0 <= width -> lsb + width <= N -> in_u N (Z.shiftl (wrap width x) lsb).
Proof.
  intros. pose proof N_pos. apply in_u_shiftl; [lia|]. pose proof (wrap_range width x ltac:(lia)). unfold in_u in *.
  pose proof (Z.pow_le_mono_r 2 width (N - lsb)). lia.
Qed.

Lemma insert_field_eq d x lsb width clr :
  in_u N d -> 0 <= lsb -> 0 <= width -> lsb + width <= N -> Z.land d clr = Z.ldiff d (Z.shiftl (Z.ones width) lsb) ->
  Z.lor (wrap N (Z.shiftl (wrap width x) lsb)) (Z.land d clr) = insert_field d lsb width x.
Proof. intros Hd Hl Hw Hb ->. unfold insert_field. rewrite wrap_small by by apply field_small. apply Z.lor_comm. Qed.

(** Two registers side by side. *)
Lemma evals_extr w32 x y n vx vy :
  N = wbits w32 -> 0 <= n < N -> in_u N x -> in_u N y -> is_val (TInt N) x vx -> is_val (TInt N) y vy ->
  evals (xl ← CreateCast ZExt vx (TInt (N * 2)); high ← CreateBinOp Shl xl (getIntN (N * 2) N);
         low ← CreateCast ZExt vy (TInt (N * 2)); long_val ← CreateBinOp Or high low;
         long_val ← CreateBinOp LShr long_val (getIntN (N * 2) n); long_val ← CreateBinOp And long_val (getIntN (N * 2) (ones N));
         CreateCast Trunc long_val (TInt N)) (TInt N) (wrap N ((x * 2 ^ N + y) / 2 ^ n)).
Proof.
  intros EN Hn Hx Hy Hvx Hvy. pose proof N_pos.
  assert (forall z, 0 <= z < N * 2 -> is_val (TInt (N * 2)) z (getIntN (N * 2) z)) as Hc.
  { intros z Hz. split; [done|]. apply wrap_small. unfold in_u. pose proof (Z.pow_gt_lin_r 2 (N * 2)). lia. }
  assert (2 ^ (N * 2) = 2 ^ N * 2 ^ N) as E2 by (rewrite <- Z.pow_add_r by lia; f_equal; lia).
  eapply evals_bind; [apply (evals_ext false N (N * 2) x); [lia|done|done]|]. intros v1 H1.
  eapply evals_bind.
  { eapply (evals_binop Shl _ _ N (x * 2 ^ N)); [done|apply Hc; lia|]. cbn. rewrite (proj2 (Z.leb_gt (N * 2) N)) by lia.
    rewrite Z.shiftl_mul_pow2 by lia. f_equal. apply wrap_small. unfold in_u in *. nia. }
  intros v2 H2. eapply evals_bind; [apply (evals_ext false N (N * 2) y); [lia|done|done]|]. intros v3 H3.
  eapply evals_bind.
  { eapply (evals_binop Or _ _ _ (x * 2 ^ N + y)); [done|done|]. cbn. f_equal. rewrite Z.lor_comm, <- Z.shiftl_mul_pow2 by lia.
    rewrite lor_shiftl_add by (done || lia). by rewrite Z.add_comm, Z.shiftl_mul_pow2 by lia. }
  intros v4 H4. eapply evals_bind.
  { eapply (evals_binop LShr _ _ n ((x * 2 ^ N + y) / 2 ^ n)); [done|apply Hc; lia|]. cbn. rewrite (proj2 (Z.leb_gt (N * 2) n)) by lia.
    by rewrite Z.shiftr_div_pow2 by lia. }
  intros v5 H5. eapply evals_bind.
  { eapply (evals_binop And _ _ _ (wrap N ((x * 2 ^ N + y) / 2 ^ n))); [done|apply is_val_intN|]. cbn. rewrite ones_eq by lia.
    rewrite wrap_small, Z.land_ones by (try lia; rewrite Z.ones_equiv; unfold in_u; rewrite E2; nia). done. }
  intros v6 H6. eapply evals_eq; [eapply (evals_trunc (N * 2)); [lia| |exact H6]|by apply wrap_wrap; lia].
  pose proof (wrap_range N ((x * 2 ^ N + y) / 2 ^ n) ltac:(lia)). unfold in_u in *. rewrite E2. nia.
Qed.

(** ** Division and shifts by a register *)

Lemma evals_udiv x y vx vy : in_u N x -> in_u N y -> is_val (TInt N) x vx -> is_val (TInt N) y vy ->
  evals (lift_udiv N vx vy) (TInt N) (if y =? 0 then 0 else x / y).
Proof.
  intros Hx Hy Hvx Hvy. pose proof N_pos. unfold lift_udiv. assert (in_u N 0 /\ in_u N 1) as [H0 H1] by (split; apply amount_ok; lia).
  eapply evals_bind; [eapply (evals_icmp ICMP_EQ N); [exact Hvy|by apply is_val_small]|]. intros c Hc.
  eapply evals_bind; [eapply evals_select; [exact Hc|by apply is_val_small|exact Hvy]|]. intros d Hd.
  eapply evals_bind; [eapply (evals_binop UDiv _ _ _ (x / (if y =? 0 then 1 else y))); [exact Hvx|exact Hd|]|].
  { cbn. destruct (Z.eqb_spec y 0) as [->|Hne]; cbn; [done|]. by rewrite (proj2 (Z.eqb_neq y 0)) by done. }
  intros q Hq. cbn [icmp_sem] in *. eapply evals_eq; [eapply evals_select; [exact Hc|by apply is_val_small|exact Hq]|]. by destruct (y =? 0).
Qed.

(** The signed number, and the unsigned one, by cases; [H] is half the range. *)
Lemma swrap_cases x : in_u N x -> swrap N x = if x <? 2 ^ (N - 1) then x else x - 2 ^ N.
Proof.
  intros [H1 H2]. pose proof N_pos. assert (2 ^ N = 2 * 2 ^ (N - 1)) as E by (rewrite <- Z.pow_succ_r by lia; f_equal; lia).
  pose proof (Z.pow_pos_nonneg 2 (N - 1)). unfold swrap. rewrite E in *. destruct (Z.ltb_spec x (2 ^ (N - 1))).
  - rewrite Z.mod_small by lia. lia.
  - replace (x + 2 ^ (N - 1)) with (x - 2 ^ (N - 1) + 1 * (2 * 2 ^ (N - 1))) by lia. rewrite Z.mod_add, Z.mod_small by lia. lia.
Qed.

Lemma swrap_eq_0 x : in_u N x -> swrap N x = 0 -> x = 0.
Proof.
  intros Hx. rewrite swrap_cases by done. unfold in_u in Hx. destruct (x <? 2 ^ (N - 1)); lia.
Qed.

Lemma evals_sdiv x y vx vy : in_u N x -> in_u N y -> is_val (TInt N) x vx -> is_val (TInt N) y vy ->
  evals (lift_sdiv N vx vy) (TInt N) (if y =? 0 then 0 else wrap N (Z.quot (swrap N x) (swrap N y))).
Proof.
  intros Hx Hy Hvx Hvy. pose proof N_pos. unfold lift_sdiv. assert (in_u N 0 /\ in_u N 1) as [H0 H1] by (split; apply amount_ok; lia).
  set (MIN := wrap N (- 2 ^ (N - 1))). set (M1 := wrap N (-1)).
  assert (2 ^ N = 2 * 2 ^ (N - 1)) as E2 by (rewrite <- Z.pow_succ_r by lia; f_equal; lia). pose proof (Z.pow_pos_nonneg 2 (N - 1)).
  assert (MIN = 2 ^ (N - 1)) as EM by (unfold MIN, wrap; symmetry; apply (Zmod_unique _ _ (-1)); lia).
  assert (M1 = 2 ^ N - 1) as E1 by (unfold M1, wrap; symmetry; apply (Zmod_unique _ _ (-1)); lia).
  set (ovf := (x =? MIN) && (y =? M1)). set (safe := if ovf then 1 else if y =? 0 then 1 else y).
  eapply evals_bind; [eapply (evals_icmp ICMP_EQ N); [exact Hvy|by apply is_val_small]|]. intros c Hc.
  eapply evals_bind; [eapply evals_select; [exact Hc|by apply is_val_small|exact Hvy]|]. intros d Hd.
  eapply evals_bind; [eapply (evals_icmp ICMP_EQ N); [exact Hvx|apply is_val_intN]|]. intros m Hm.
  eapply evals_bind; [eapply (evals_icmp ICMP_EQ N); [exact Hvy|apply is_val_intN]|]. intros o Ho.
  eapply evals_bind; [eapply (evals_binop And 1 _ _ (Z.b2z ovf)); [exact Hm|exact Ho|]|]; [cbn; by destruct (x =? _), (y =? _)|]. intros k Hk.
  eapply evals_bind; [eapply evals_select; [exact Hk|by apply is_val_small|exact Hd]|]. intros e He. cbn [icmp_sem] in *. fold safe in He.
  eapply evals_bind; [eapply (evals_binop SDiv _ _ _ (wrap N (Z.quot (swrap N x) (swrap N safe)))); [exact Hvx|exact He|]|].
  { cbn [bin_sem]. assert ((safe =? 0) = false) as -> by (apply Z.eqb_neq; unfold safe; destruct ovf; [lia|]; destruct (Z.eqb_spec y 0); lia).
    cbn [orb]. replace ((swrap N x =? - 2 ^ (N - 1)) && (swrap N safe =? -1)) with false; [done|].
    symmetry. apply andb_false_iff. destruct (Z.eqb_spec (swrap N x) (- 2 ^ (N - 1))) as [Ex|]; [right|by left]. apply Z.eqb_neq. intros Es.
    assert (x = MIN) as -> by (rewrite swrap_cases in Ex by done; unfold in_u in Hx; destruct (Z.ltb_spec x (2 ^ (N - 1))); lia).
    unfold safe, ovf in Es. rewrite Z.eqb_refl in Es. cbn [andb] in Es. assert (swrap N 1 = 1) as S1 by (apply swrap_small; [lia|]; unfold in_s; destruct HN as [->| ->]; lia).
    destruct (Z.eqb_spec y M1) as [|Hy1]; [lia|]. destruct (Z.eqb_spec y 0); [lia|]. rewrite swrap_cases in Es by done. unfold in_u in Hy.
    destruct (Z.ltb_spec y (2 ^ (N - 1))); lia. }
  intros q Hq. eapply evals_bind; [eapply evals_select; [exact Hk|apply is_val_intN|exact Hq]|]. intros w Hw.
  eapply evals_eq; [eapply evals_select; [exact Hc|by apply is_val_small|exact Hw]|].
  destruct (Z.eqb_spec y 0) as [->|Hne]; [done|]. fold MIN. unfold safe, ovf. destruct (Z.eqb_spec x MIN) as [->|]; cbn [andb].
  - destruct (Z.eqb_spec y M1) as [->|]; [|done].
    assert (swrap N M1 = -1) as -> by (unfold M1; apply swrap_of_wrap; [lia|]; unfold in_s; destruct HN as [->| ->]; lia).
    assert (swrap N MIN = - 2 ^ (N - 1)) as -> by (unfold MIN; apply swrap_of_wrap; [lia|]; unfold in_s; lia).
    rewrite <- (Z.quot_unique_exact (- 2 ^ (N - 1)) (-1) (2 ^ (N - 1))), EM by lia. symmetry. apply wrap_small. unfold in_u. lia.
  - done.
Qed.

(** The amount is the register modulo the width. *)
Lemma land_amount y : Z.land y (wrap N (N - 1)) = y `mod` N.
Proof. destruct HN as [->| ->]; [exact (Z.land_ones y 5 ltac:(lia))|exact (Z.land_ones y 6 ltac:(lia))]. Qed.

Lemma evals_shiftv f g y vx vy :
  (forall n vn, 0 <= n < N -> is_val (TInt N) n vn -> evals (f vx vn) (TInt N) (g n)) ->
  is_val (TInt N) y vy -> evals (lift_shiftv N f vx vy) (TInt N) (g (y `mod` N)).
Proof.
  intros Hf Hvy. pose proof N_pos. unfold lift_shiftv. eapply evals_bind; [eapply (evals_binop And); [exact Hvy|apply is_val_intN|reflexivity]|].
  rewrite land_amount. intros v Hv. apply Hf; [apply Z.mod_pos_bound; lia|done].
Qed.
End Width.

(** ** Reversals *)

Lemma of_lanes_range w l : 0 <= w -> Forall (in_u w) l -> in_u (w * Z.of_nat (length l)) (of_lanes w l).
Proof.
  intros Hw. induction l as [|x l IH]; intros Hl; [by rewrite Z.mul_0_r|]. apply Forall_cons in Hl as [[? Hx] Hl].
  destruct (IH Hl) as [? Hr]. cbn [length of_lanes]. rewrite Nat2Z.inj_succ, <- Z.add_1_r, Z.mul_add_distr_l, Z.mul_1_r.
  unfold in_u. rewrite Z.pow_add_r by lia. nia.
Qed.

Lemma of_lanes_bit w l i : 0 < w -> Forall (in_u w) l -> 0 <= i ->
  Z.testbit (of_lanes w l) i = match l !! Z.to_nat (i / w) with Some x => Z.testbit x (i `mod` w) | None => false end.
Proof.
  intros Hw. revert i. induction l as [|x l IH]; intros i Hl Hi; [by rewrite Z.bits_0|]. apply Forall_cons in Hl as [Hx Hl]. cbn [of_lanes].
  assert (x + 2 ^ w * of_lanes w l = Z.lor x (Z.shiftl (of_lanes w l) w)) as ->.
  { rewrite lor_shiftl_add by (done || lia). lia. }
  rewrite Z.lor_spec, Z.shiftl_spec by lia. destruct (Z.ltb_spec i w).
  - rewrite (Z.testbit_neg_r _ (i - w)), orb_false_r by lia. rewrite Z.div_small, Z.mod_small by lia. done.
  - rewrite (bits_above w x) by (done || lia). cbn [orb]. rewrite IH by (done || lia).
    assert (i / w = (i - w) / w + 1 /\ i `mod` w = (i - w) `mod` w) as [-> ->].
    { replace i with ((i - w) + 1 * w) at 1 3 by lia. by rewrite Z.div_add, Z.mod_add by lia. }
    rewrite Z2Nat.inj_add, Nat.add_comm by (try apply Z.div_pos; lia). done.
Qed.

Lemma lanes_lookup n w x k : (k < n)%nat -> lanes n w x !! k = Some (lane w x (Z.of_nat k)).
Proof. intros Hk. unfold lanes. rewrite list_lookup_fmap, lookup_seq_lt by done. done. Qed.

Lemma length_lanes n w x : length (lanes n w x) = n.
Proof. unfold lanes. by rewrite length_fmap, length_seq. Qed.

Lemma lanes_range n w x : 0 <= w -> Forall (in_u w) (lanes n w x).
Proof. intros. apply Forall_fmap, Forall_true. intros ?. by apply wrap_range. Qed.

Lemma lane_bit w x k i : 0 < w -> 0 <= k -> 0 <= i < w -> Z.testbit (lane w x k) i = Z.testbit x (w * k + i).
Proof.
  intros. unfold lane. rewrite testbit_wrap, Z.shiftr_spec, (proj2 (Z.ltb_lt i w)), andb_true_r by lia. f_equal. lia.
Qed.

(** The elements in reverse order. *)
Lemma reverse_lanes_bit w m x i : 0 < w -> 0 <= i < w * m ->
  Z.testbit (of_lanes w (reverse (lanes (Z.to_nat m) w x))) i = Z.testbit x (w * (m - 1 - i / w) + i `mod` w).
Proof.
  intros Hw Hi. assert (0 <= i / w < m) as Hk by (split; [apply Z.div_pos; lia|apply Z.div_lt_upper_bound; lia]).
  pose proof (Z.mod_pos_bound i w Hw). rewrite of_lanes_bit by (try apply Forall_reverse, lanes_range; lia).
  rewrite reverse_lookup by (rewrite length_lanes; lia). rewrite length_lanes, lanes_lookup by lia.
  rewrite lane_bit by lia. f_equal. f_equal. f_equal. lia.
Qed.

Lemma from_bits_spec n f : in_u (Z.of_nat n) (from_bits n f) /\ forall i, 0 <= i -> Z.testbit (from_bits n f) i = (i <? Z.of_nat n) && f i.
Proof.
  induction n as [|n [[IH1 IH2] IHb]]; [split; [done|]; intros i Hi; change (Z.of_nat 0) with 0; rewrite (proj2 (Z.ltb_ge i 0)) by done; by rewrite Z.bits_0|].
  cbn [from_bits]. set (b := f (Z.of_nat n)). assert (0 <= Z.b2z b <= 1) by (destruct b; cbn; lia). rewrite Nat2Z.inj_succ. split.
  { unfold in_u. rewrite Z.pow_succ_r by lia. nia. }
  intros i Hi. rewrite <- lor_shiftl_add by (done || lia). rewrite Z.lor_spec, Z.shiftl_spec, IHb by lia.
  destruct (Z.ltb_spec i (Z.of_nat n)), (Z.ltb_spec i (Z.succ (Z.of_nat n))); try lia; cbn [andb orb].
  - rewrite Z.testbit_neg_r by lia. by rewrite orb_false_r.
  - replace i with (Z.of_nat n) by lia. rewrite Z.sub_diag, Z.b2z_bit0. done.
  - destruct b; cbn [Z.b2z]; [|by rewrite Z.bits_0]. apply (bits_above 1); [lia|done|lia].
Qed.

(** A number of [N] bits that has the given ones. *)
Lemma from_bits_eq N f x : 0 <= N -> in_u N x -> (forall i, 0 <= i < N -> Z.testbit x i = f i) -> x = from_bits (Z.to_nat N) f.
Proof.
  intros HN Hx Hf. destruct (from_bits_spec (Z.to_nat N) f) as [_ Hb]. apply bits_eq. intros i Hi. rewrite Hb, Z2Nat.id by lia.
  destruct (Z.ltb_spec i N); [by apply Hf|]. by apply (bits_above N).
Qed.

Lemma bswap_bit c y j : 0 < c -> c `mod` 8 = 0 -> 0 <= j < c -> Z.testbit (intr_sem Bswap c y) j = Z.testbit y ((c / 8 - 1 - j / 8) * 8 + j `mod` 8).
Proof.
  intros Hc H8 Hj. pose proof (Z.div_mod c 8 ltac:(lia)). cbn [intr_sem]. rewrite reverse_lanes_bit by lia. f_equal. lia.
Qed.

Lemma bswap_range c y : 0 < c -> c `mod` 8 = 0 -> in_u c (intr_sem Bswap c y).
Proof.
  intros Hc H8. pose proof (Z.div_mod c 8 ltac:(lia)). cbn [intr_sem]. pose proof (of_lanes_range 8 (reverse (lanes (Z.to_nat (c / 8)) 8 y)) ltac:(lia)) as H'.
  rewrite length_reverse, length_lanes, Z2Nat.id in H' by (apply Z.div_pos; lia). replace (8 * (c / 8)) with c in H' by lia.
  apply H', Forall_reverse, lanes_range. lia.
Qed.

Section Unary.
Context (N : Z) (HN : N = 32 \/ N = 64).

Lemma evals_intrinsic o x v : is_val (TInt N) x v -> evals (CreateIntrinsic o v) (TInt N) (intr_sem o N x).
Proof. intros [Tv <-]. unfold CreateIntrinsic. rewrite Tv. by eexists. Qed.

Lemma rbit_eq x : intr_sem Bitreverse N x = rbit N x.
Proof.
  pose proof (N_pos N HN). apply from_bits_eq; [lia| |].
  - pose proof (of_lanes_range 1 (reverse (lanes (Z.to_nat N) 1 x)) ltac:(lia)) as H'.
    rewrite length_reverse, length_lanes, Z2Nat.id, Z.mul_1_l in H' by lia. apply H', Forall_reverse, lanes_range. lia.
  - intros i Hi. cbn [intr_sem]. rewrite reverse_lanes_bit by lia. rewrite Z.div_1_r, Z.mod_1_r. f_equal. lia.
Qed.

Lemma rev_eq x : intr_sem Bswap N x = rev N N x.
Proof.
  pose proof (N_pos N HN). assert (N `mod` 8 = 0) by (by destruct HN as [->| ->]). apply from_bits_eq; [lia|by apply bswap_range|].
  intros i Hi. rewrite bswap_bit by lia. rewrite (Z.div_small i N), (Z.mod_small i N) by lia. done.
Qed.

Lemma evals_rev c x v : (c = 16 \/ c = 32) -> is_val (TInt N) x v -> evals (lift_rev N c v) (TInt N) (rev c N x).
Proof.
  intros Hc Hv. pose proof (N_pos N HN). unfold lift_rev.
  assert (N / c * c = N /\ c `mod` 8 = 0 /\ 0 < N / c) as (Ec & H8 & Hq) by (by destruct HN as [->| ->], Hc as [->| ->]).
  eapply evals_bind; [eapply (evals_bitcast _ (TVec (N / c) (TInt c))); [|exact Hv]; cbn; lia|]. intros v1 [T1 H1].
  eapply (evals_bind _ (TVec (N / c) (TInt c)) (of_lanes c (intr_sem Bswap c <$> lanes (Z.to_nat (N / c)) c x))).
  { unfold CreateIntrinsic. rewrite T1, H1. by eexists. }
  intros v2 H2. eapply evals_eq; [eapply (evals_bitcast _ (TInt N)); [|exact H2]; cbn; lia|].
  assert (Forall (in_u c) (intr_sem Bswap c <$> lanes (Z.to_nat (N / c)) c x)) as Hf.
  { apply Forall_fmap, Forall_true. intros y. apply bswap_range; lia. }
  apply from_bits_eq; [lia| |].
  - pose proof (of_lanes_range c _ ltac:(lia) Hf) as H'. rewrite length_fmap, length_lanes, Z2Nat.id in H' by lia.
    by replace (c * (N / c)) with N in H' by lia.
  - intros i Hi. assert (0 <= i / c < N / c) as Hk by (split; [apply Z.div_pos; lia|apply Z.div_lt_upper_bound; lia]).
    pose proof (Z.mod_pos_bound i c ltac:(lia)). rewrite of_lanes_bit by (done || lia). rewrite list_lookup_fmap, lanes_lookup by lia. cbn [fmap option_fmap option_map].
    rewrite bswap_bit by lia. rewrite Z2Nat.id by lia.
    assert ((i `mod` c) `mod` 8 = i `mod` 8) as E8 by (destruct Hc as [->| ->]; clear; Z.div_mod_to_equations; lia). rewrite E8.
    assert (0 <= (c / 8 - 1 - i `mod` c / 8) * 8 + i `mod` 8 < c) by (destruct Hc as [->| ->]; clear -Hi; Z.div_mod_to_equations; lia).
    rewrite lane_bit by lia. f_equal. lia.
Qed.

Lemma clz_range x : in_u N x -> 0 <= clz N x <= N.
Proof.
  intros [? Hx]. pose proof (N_pos N HN). unfold clz. destruct (Z.eqb_spec x 0); [lia|]. pose proof (Z.log2_nonneg x).
  assert (Z.log2 x < N) by (apply Z.log2_lt_pow2; lia). lia.
Qed.

Lemma clz_in_u x : in_u N x -> in_u N (clz N x).
Proof. intros Hx. pose proof (clz_range x Hx). unfold in_u. pose proof (Z.pow_gt_lin_r 2 N). pose proof (N_pos N HN). lia. Qed.

Lemma clz_below x : 0 <= x < 2 ^ (N - 1) -> 1 <= clz N x.
Proof.
  intros Hx. pose proof (N_pos N HN). unfold clz. destruct (Z.eqb_spec x 0); [lia|].
  assert (Z.log2 x < N - 1) by (apply Z.log2_lt_pow2; lia). lia.
Qed.

Lemma evals_cls x v : in_u N x -> is_val (TInt N) x v ->
  evals (sgnext ← CreateBinOp AShr v (getIntN N (N - 1)); y ← CreateBinOp Xor v sgnext; lz ← CreateIntrinsic Ctlz y; CreateBinOp Sub lz (getIntN N 1))
    (TInt N) (cls N x) /\ in_u N (cls N x).
Proof.
  intros Hx Hv. pose proof (N_pos N HN). set (y := if swrap N x <? 0 then wrap N (- x - 1) else x).
  assert (2 ^ N = 2 * 2 ^ (N - 1)) as E2 by (rewrite <- Z.pow_succ_r by lia; f_equal; lia). pose proof (Z.pow_pos_nonneg 2 (N - 1)).
  pose proof (swrap_cases N HN x Hx) as Sx. assert (0 <= y < 2 ^ (N - 1)) as Hy.
  { unfold y. rewrite Sx. unfold in_u in Hx. destruct (Z.ltb_spec x (2 ^ (N - 1))); [rewrite (proj2 (Z.ltb_ge x 0)) by lia; lia|].
    rewrite (proj2 (Z.ltb_lt (x - 2 ^ N) 0)) by lia. unfold wrap. rewrite <- (Zmod_unique (- x - 1) (2 ^ N) (-1) (2 ^ N - x - 1)) by lia. lia. }
  assert (in_u N y) as Hyu by (unfold in_u; lia). pose proof (clz_below y Hy). pose proof (clz_range y Hyu).
  assert (cls N x = clz N y - 1) as Ecls by done.
  assert (in_u N (cls N x)) as Hc by (rewrite Ecls; unfold in_u; pose proof (Z.pow_gt_lin_r 2 N); lia). split; [|done].
  eapply evals_bind; [eapply (evals_binop AShr _ _ (N - 1)); [exact Hv|by apply is_val_small, amount_ok; [done|lia]|]|].
  { cbn. rewrite (proj2 (Z.leb_gt N (N - 1))) by lia. reflexivity. }
  intros v1 Hv1. eapply (evals_bind _ _ y).
  { eapply (evals_binop Xor); [exact Hv|exact Hv1|]. cbn. f_equal. rewrite Z.shiftr_div_pow2 by lia. unfold y. rewrite Sx. unfold in_u in Hx.
    destruct (Z.ltb_spec x (2 ^ (N - 1))).
    - rewrite (proj2 (Z.ltb_ge x 0)), (Z.div_small x), (wrap_small N 0), Z.lxor_0_r by (unfold in_u; lia). done.
    - rewrite (proj2 (Z.ltb_lt (x - 2 ^ N) 0)) by lia. rewrite <- (Z.div_unique (x - 2 ^ N) (2 ^ (N - 1)) (-1) (x - 2 ^ (N - 1))) by lia.
      apply lxor_ones; [lia|done]. }
  intros v2 Hv2. eapply evals_bind; [apply (evals_intrinsic Ctlz y v2 Hv2)|]. intros v3 Hv3.
  eapply (evals_binop Sub); [exact Hv3|apply is_val_intN|]. cbn -[wrap]. f_equal. rewrite wrap_sub_r. fold (clz N y). rewrite <- Ecls. by apply wrap_small.
Qed.
End Unary.

(** ** Flags *)

Section FlagFacts.
Context (N : Z) (HN : N = 32 \/ N = 64).

Lemma half : 2 ^ N = 2 * 2 ^ (N - 1) /\ 0 < 2 ^ (N - 1).
Proof. pose proof (N_pos N HN). split; [rewrite <- Z.pow_succ_r by lia; f_equal; lia|apply Z.pow_pos_nonneg; lia]. Qed.

Lemma wrap_sum x y : in_u N x -> in_u N y -> wrap N (x + y) = if x + y <? 2 ^ N then x + y else x + y - 2 ^ N.
Proof.
  intros [] []. unfold wrap. destruct (Z.ltb_spec (x + y) (2 ^ N)); [apply Z.mod_small; lia|].
  symmetry. apply (Zmod_unique _ _ 1); lia.
Qed.

Lemma wrap_diff x y : in_u N x -> in_u N y -> wrap N (x - y) = if y <=? x then x - y else x - y + 2 ^ N.
Proof.
  intros [] []. unfold wrap. destruct (Z.leb_spec y x); [apply Z.mod_small; lia|]. symmetry. apply (Zmod_unique _ _ (-1)); lia.
Qed.

Lemma compl_eq y : in_u N y -> wrap N (- y - 1) = 2 ^ N - 1 - y.
Proof. intros []. unfold wrap. symmetry. apply (Zmod_unique _ _ (-1)); lia. Qed.

Lemma swrap_split x : in_u N x -> (swrap N x = x /\ x < 2 ^ (N - 1)) \/ (swrap N x = x - 2 ^ N /\ 2 ^ (N - 1) <= x).
Proof. intros Hx. rewrite swrap_cases by done. destruct (Z.ltb_spec x (2 ^ (N - 1))); [left|right]; done. Qed.

(** The flags of an addition, and of a subtraction. *)
Lemma add_flags x y : in_u N x -> in_u N y ->
  let r := wrap N (x + y) in
  add_with_carry N x y false =
    (r, mkFlags (swrap N r <? 0) (r =? 0) (r <? x) (negb ((- 2 ^ (N - 1) <=? swrap N x + swrap N y) && (swrap N x + swrap N y <? 2 ^ (N - 1))))).
Proof.
  intros Hx Hy r. pose proof half as [E2 HH]. pose proof (wrap_range N (x + y) ltac:(pose proof (N_pos N HN); lia)) as Hr. fold r in Hr.
  unfold add_with_carry. cbn [Z.b2z]. rewrite !Z.add_0_r. fold r. f_equal. f_equal.
  - unfold r. rewrite wrap_sum by done. unfold in_u in *. destruct (Z.ltb_spec (x + y) (2 ^ N)).
    + rewrite Z.eqb_refl. symmetry. apply Z.ltb_ge. lia.
    + rewrite (proj2 (Z.eqb_neq _ _)) by lia. symmetry. apply Z.ltb_lt. lia.
  - f_equal. pose proof (swrap_split x Hx). pose proof (swrap_split y Hy). pose proof (swrap_split r Hr). pose proof (wrap_sum x y Hx Hy) as Er. fold r in Er.
    unfold in_u in *. apply eq_true_iff_eq. rewrite Z.eqb_eq, andb_true_iff, Z.leb_le, Z.ltb_lt. destruct (Z.ltb_spec (x + y) (2 ^ N)); lia.
Qed.

Lemma sub_flags x y : in_u N x -> in_u N y ->
  let r := wrap N (x - y) in
  add_or_sub N true x y true =
    (r, mkFlags (swrap N r <? 0) (x =? y) (y <=? x) (negb (Bool.eqb (swrap N r <? 0) (swrap N x <? swrap N y)))).
Proof.
  intros Hx Hy r. pose proof half as [E2 HH]. pose proof (wrap_range N (x - y) ltac:(pose proof (N_pos N HN); lia)) as Hr. fold r in Hr.
  unfold add_or_sub, add_with_carry. cbn [Z.b2z]. rewrite compl_eq by done.
  assert (wrap N (x + (2 ^ N - 1 - y) + 1) = r) as -> by (unfold r, wrap; replace (x + (2 ^ N - 1 - y) + 1) with (x - y + 1 * 2 ^ N) by lia; apply Z.mod_add; lia).
  pose proof (wrap_diff x y Hx Hy) as Er. fold r in Er. assert (in_u N (2 ^ N - 1 - y)) as Hc by (unfold in_u in *; lia).
  pose proof (swrap_split x Hx). pose proof (swrap_split y Hy). pose proof (swrap_split r Hr). pose proof (swrap_split _ Hc). unfold in_u in *.
  f_equal. f_equal; [..|f_equal]; apply eq_true_iff_eq; rewrite ?negb_true_iff, ?Z.eqb_eq, ?Z.eqb_neq, ?Z.leb_le.
  - destruct (Z.leb_spec y x); lia.
  - destruct (Z.leb_spec y x); lia.
  - rewrite Bool.eqb_true_iff. destruct (Z.leb_spec y x), (Z.ltb_spec (swrap N r) 0), (Z.ltb_spec (swrap N x) (swrap N y));
      split; intros; try done; try lia.
Qed.

(** The overflow of an addition as a sign bit. *)
Lemma overflow_bit x y : in_u N x -> in_u N y ->
  let r := wrap N (x + y) in
  (swrap N (Z.land (wrap N (- Z.lxor x y - 1)) (Z.lxor r x)) <? 0) =
  negb ((- 2 ^ (N - 1) <=? swrap N x + swrap N y) && (swrap N x + swrap N y <? 2 ^ (N - 1))).
Proof.
  intros Hx Hy r. pose proof half as [E2 HH]. pose proof (N_pos N HN) as HN0. pose proof (wrap_range N (x + y) ltac:(lia)) as Hr. fold r in Hr.
  assert (forall z, in_u N z -> (swrap N z <? 0) = Z.testbit z (N - 1)) as Hsign.
  { intros z Hz. destruct (swrap_split z Hz) as [[-> Hz']|[-> Hz']]; unfold in_u in Hz.
    - rewrite (bits_above (N - 1) z) by (unfold in_u; lia). apply Z.ltb_ge. lia.
    - rewrite (proj2 (Z.ltb_lt _ _)) by lia. symmetry. apply Z.testbit_true; [lia|]. rewrite <- (Z.div_unique z (2 ^ (N - 1)) 1 (z - 2 ^ (N - 1))) by lia. done. }
  assert (in_u N (Z.lxor r x)) as Hrx.
  { split; [apply Z.lxor_nonneg; unfold in_u in *; lia|]. assert (Z.lxor r x = wrap N (Z.lxor r x)) as ->; [|apply wrap_range; lia].
    apply bits_eq. intros i Hi. rewrite testbit_wrap, Z.lxor_spec by lia. destruct (Z.ltb_spec i N); [by rewrite andb_true_r|].
    by rewrite (bits_above N r), (bits_above N x) by (done || lia). }
  rewrite Hsign by (by apply in_u_land).
  replace (- Z.lxor x y - 1) with (Z.lnot (Z.lxor x y)) by (unfold Z.lnot; lia).
  rewrite Z.land_spec, testbit_wrap, Z.lnot_spec, !Z.lxor_spec, (proj2 (Z.ltb_lt (N - 1) N)), andb_true_r by lia.
  rewrite <- !Hsign by done. pose proof (swrap_split x Hx). pose proof (swrap_split y Hy). pose proof (swrap_split r Hr). pose proof (wrap_sum x y Hx Hy) as Er. fold r in Er.
  unfold in_u in *.
  destruct (Z.ltb_spec (x + y) (2 ^ N)), (Z.ltb_spec (swrap N x) 0), (Z.ltb_spec (swrap N y) 0), (Z.ltb_spec (swrap N r) 0); cbn;
    symmetry; rewrite ?negb_true_iff, ?negb_false_iff, ?andb_true_iff, ?andb_false_iff, ?Z.leb_le, ?Z.ltb_lt, ?Z.leb_gt, ?Z.ltb_ge; lia.
Qed.

(** A carry may be added to the second operand first, unless that changes its sign or wraps. *)
Lemma carry_in x y : in_u N x -> in_u N y -> y <> 2 ^ N - 1 -> y <> 2 ^ (N - 1) - 1 -> add_with_carry N x y true = add_with_carry N x (y + 1) false.
Proof.
  intros Hx Hy H1 H2. pose proof half as [E2 HH]. assert (in_u N (y + 1)) as Hy1 by (unfold in_u in *; lia).
  assert (swrap N (y + 1) = swrap N y + 1) as E by (pose proof (swrap_split y Hy); pose proof (swrap_split _ Hy1); lia).
  unfold add_with_carry. rewrite E. cbn [Z.b2z]. by rewrite !Z.add_0_r, !Z.add_assoc.
Qed.
End FlagFacts.
