(* ===== verification/RellumeA64Refine.v ===== *)
(** * The groups of the AArch64 lifter refine the architecture

    For each group of instructions: when the state of the lifted code stands for
    a processing element, the code of the group leaves it standing for what
    [A64Sem] makes of it. *)

From Stdlib Require Import ZArith Lia.
From stdpp Require Import base numbers list option gmap.
From S2P Require Import Prelude Machine Farmdec FarmdecProofs FarmdecWf Rellume RellumeProofs RellumeA64 A64Sem RellumeA64Proofs RellumeA64Alu.

(** One builder call, then the rest. *)
Ltac ev := apply wp_bind; eapply wp_evals; [|intros ? ?].

Lemma wbits_cases w32 : wbits w32 = 32 \/ wbits w32 = 64.
Proof. destruct w32; [by left|by right]. Qed.

Lemma width_wbits i : width i = wbits (is_w32 i).
Proof. done. Qed.

Section Groups.
Context (fp : FpSem) (fi : FunctionInfo) (cfg : LLConfig) (TP : nat) (undef : Ty -> Z) (LiftSIMD : Inst -> L bool) (cpu0 : Cpu) (ret0 : bool).
Let refines := arefines TP cpu0 ret0.

(** ** Flags *)

Lemma wp_setflag s p f b v (Q : unit -> LState -> Prop) :
  refines s p -> f ∈ [FSF; FZF; FCF; FOF] -> is_val (TInt 1) (Z.b2z b) v ->
  (forall s', refines s' (wF p (upd_flag f b (pf p))) -> Q tt s') -> wp (SetFlag f v) s Q.
Proof.
  intros H Hf. apply wp_SetFlag; [done|]. rewrite !elem_of_cons, elem_of_nil in Hf. destruct Hf as [->|[->|[->|[->|[]]]]]; by eexists.
Qed.

(** A flag is set; the rest follows. *)
Ltac flag H' := apply wp_bind; eapply wp_setflag; [eassumption|rewrite !elem_of_cons; tauto|eassumption|let st := fresh "st" in intros st H'].

Lemma wp_FlagCalcAdd s p N r x y vr vx vy (Q : unit -> LState -> Prop) :
  N = 32 \/ N = 64 -> refines s p -> in_u N x -> in_u N y -> r = wrap N (x + y) ->
  is_val (TInt N) r vr -> is_val (TInt N) x vx -> is_val (TInt N) y vy ->
  (forall s', refines s' (wF p (add_with_carry N x y false).2) -> Q tt s') -> wp (FlagCalcAdd cfg vr vx vy) s Q.
Proof.
  intros HN H Hx Hy -> Hr Hvx Hvy HQ. pose proof Hr as [Tr _]. unfold FlagCalcAdd. rewrite Tr. set (zero := getNullValue (TInt N)).
  assert (is_val (TInt N) 0 zero) as Hz by done. pose proof (add_flags N HN x y Hx Hy) as E. cbv zeta in E. rewrite E in HQ. clear E. cbn [snd] in HQ.
  ev; [by eapply (evals_icmp ICMP_EQ N)|]. flag K1.
  ev; [by eapply (evals_icmp ICMP_SLT N)|]. flag K2.
  ev; [by eapply (evals_icmp ICMP_ULT N)|]. flag K3.
  assert (swrap N 0 = 0) as S0 by (apply swrap_small; [|unfold in_s]; destruct HN as [->| ->]; lia).
  destruct (enableOverflowIntrinsics cfg).
  - ev; [|eapply wp_setflag; [exact K3|rewrite !elem_of_cons; tauto|eassumption|]].
    { destruct Hvx as [Tx Ex], Hvy as [Ty_ Ey]. eapply evals_mk. unfold CreateSAddOverflow. rewrite Tx, decide_True by done. rewrite Ex, Ey. reflexivity. }
    intros s' Hs'. apply HQ. cbn in Hs'. by rewrite S0 in Hs'.
  - ev; [by eapply (evals_binop Xor)|]. ev; [eapply (evals_not N); [destruct HN; lia| |eassumption]|].
    { assert (Z.lxor x y = wrap N (Z.lxor x y)) as ->; [|apply wrap_range; destruct HN; lia]. apply bits_eq. intros i Hi.
      rewrite testbit_wrap, Z.lxor_spec by (destruct HN; lia). destruct (Z.ltb_spec i N); [by rewrite andb_true_r|].
      by rewrite (bits_above N x), (bits_above N y) by (done || destruct HN; lia). }
    ev; [by eapply (evals_binop Xor)|]. ev; [by eapply (evals_binop And)|]. ev; [by eapply (evals_icmp ICMP_SLT N)|].
    eapply wp_setflag; [exact K3|rewrite !elem_of_cons; tauto|eassumption|]. intros s' Hs'. apply HQ. cbn [icmp_sem] in Hs'. rewrite S0 in Hs'.
    rewrite (overflow_bit N HN x y Hx Hy) in Hs'. exact Hs'.
Qed.

Lemma wp_FlagCalcSub s p N r x y vr vx vy (Q : unit -> LState -> Prop) :
  N = 32 \/ N = 64 -> refines s p -> in_u N x -> in_u N y -> r = wrap N (x - y) ->
  is_val (TInt N) r vr -> is_val (TInt N) x vx -> is_val (TInt N) y vy ->
  (forall s', refines s' (wF p (add_or_sub N true x y true).2) -> Q tt s') -> wp (FlagCalcSub vr vx vy) s Q.
Proof.
  intros HN H Hx Hy -> Hr Hvx Hvy HQ. pose proof Hr as [Tr _]. unfold FlagCalcSub. rewrite Tr. set (zero := getNullValue (TInt N)).
  assert (is_val (TInt N) 0 zero) as Hz by done. pose proof (sub_flags N HN x y Hx Hy) as E. cbv zeta in E. rewrite E in HQ. clear E. cbn [snd] in HQ.
  assert (swrap N 0 = 0) as S0 by (apply swrap_small; [|unfold in_s]; destruct HN as [->| ->]; lia).
  ev; [by eapply (evals_icmp ICMP_SLT N)|]. ev; [by eapply (evals_icmp ICMP_EQ N)|]. flag K1. flag K2.
  ev; [by eapply (evals_icmp ICMP_UGE N)|]. flag K3. ev; [by eapply (evals_icmp ICMP_SLT N)|]. ev; [by eapply (evals_icmp ICMP_NE 1)|].
  eapply (wp_setflag _ _ _ (negb (Bool.eqb (swrap N (wrap N (x - y)) <? 0) (swrap N x <? swrap N y)))); [exact K3|rewrite !elem_of_cons; tauto| |].
  - cbn [icmp_sem] in *. rewrite S0 in *. destruct (swrap N (wrap N (x - y)) <? 0), (swrap N x <? swrap N y); assumption.
  - intros s' Hs'. apply HQ. cbn in Hs'. by rewrite S0 in Hs'.
Qed.

Lemma wp_FlagCalcLogic s p N r vr (Q : unit -> LState -> Prop) :
  N = 32 \/ N = 64 -> refines s p -> is_val (TInt N) r vr -> (forall s', refines s' (wF p (logic_flags N r)) -> Q tt s') -> wp (FlagCalcLogic vr) s Q.
Proof.
  intros HN H Hr HQ. pose proof Hr as [Tr _]. unfold FlagCalcLogic. rewrite Tr. set (zero := getNullValue (TInt N)).
  assert (is_val (TInt N) 0 zero) as Hz by done. assert (swrap N 0 = 0) as S0 by (apply swrap_small; [|unfold in_s]; destruct HN as [->| ->]; lia).
  ev; [by eapply (evals_icmp ICMP_EQ N)|]. flag K1. ev; [by eapply (evals_icmp ICMP_SLT N)|]. flag K2.
  apply wp_bind. eapply (wp_setflag _ _ FCF false); [exact K2|rewrite !elem_of_cons; tauto|done|]. intros s3 K3.
  eapply (wp_setflag _ _ FOF false); [exact K3|rewrite !elem_of_cons; tauto|done|]. intros s' Hs'. apply HQ. cbn in Hs'. by rewrite S0 in Hs'.
Qed.

Lemma wp_getflag s p f b (Q : Value -> LState -> Prop) :
  refines s p -> flag_of (pf p) f = Some b -> (forall v, is_val (TInt 1) (Z.b2z b) v -> Q v s) -> wp (GetFlag f) s Q.
Proof. apply wp_GetFlag. Qed.

Ltac getf := apply wp_bind; eapply wp_getflag; [eassumption|reflexivity|intros ? ?].

(** A condition without its lowest bit, which inverts it. *)
Lemma wp_cond_base s cond (b : bool) c (Q : Value -> LState -> Prop) :
  (forall P : Value -> LState -> Prop, (forall v, is_val (TInt 1) (Z.b2z b) v -> P v s) -> wp c s P) ->
  (forall v, is_val (TInt 1) (Z.b2z (if Z.odd cond then negb b else b)) v -> Q v s) ->
  wp (res ← c; if negb (Z.land cond 1 =? 0) then pure (CreateNot res) else mret res) s Q.
Proof.
  intros Hc HQ. apply wp_bind. apply Hc. intros v Hv. rewrite <- Z.bit0_odd in HQ.
  assert (negb (Z.land cond 1 =? 0) = Z.testbit cond 0) as ->.
  { change 1 with (Z.ones 1). rewrite Z.land_ones, Z.bit0_odd, Zmod_odd by lia. by destruct (Z.odd cond). }
  destruct (Z.testbit cond 0); [|by apply wp_ret, HQ]. eapply wp_evals; [by apply evals_not1|done].
Qed.

Lemma wp_IsTrue s p cond (Q : Value -> LState -> Prop) :
  refines s p -> 0 <= cond < 16 -> (forall v, is_val (TInt 1) (Z.b2z (holds p cond)) v -> Q v s) -> wp (IsTrue cond) s Q.
Proof.
  intros H Hc HQ.
  assert (cond = 0 \/ cond = 1 \/ cond = 2 \/ cond = 3 \/ cond = 4 \/ cond = 5 \/ cond = 6 \/ cond = 7 \/ cond = 8 \/ cond = 9 \/
          cond = 10 \/ cond = 11 \/ cond = 12 \/ cond = 13 \/ cond = 14 \/ cond = 15) as D by lia.
  unfold holds, cond_holds in HQ. unfold IsTrue.
  destruct D as [->|[->|[->|[->|[->|[->|[->|[->|[->|[->|[->|[->|[->|[->|[->| ->]]]]]]]]]]]]]]];
    try (apply wp_ret; by apply HQ);
    eapply wp_cond_base; try exact HQ; intros P HP.
  all: try (eapply wp_getflag; [exact H|reflexivity|exact HP]).
  all: repeat first [getf | ev; [by apply evals_not1|]].
  all: try (ev; [by eapply (evals_icmp ICMP_EQ 1)|]).
  all: eapply wp_evals; [first [by eapply (evals_icmp ICMP_EQ 1) | by eapply (evals_binop And 1)]|].
  all: intros ? Hlast; apply HP; destruct p as [? ? [fn fz fc fv] ? ? ?]; cbn in *; destruct fn, fz, fc, fv; exact Hlast.
Qed.

(** ** Reading and writing registers *)

Lemma wp_gp s p r w32 (Q : Value -> LState -> Prop) :
  refines s p -> wf_reg r -> (forall v s', refines s' p -> is_val (TInt (wbits w32)) (rW (wbits w32) p r) v -> Q v s') -> wp (GetGp r w32 false) s Q.
Proof. apply wp_GetGp. Qed.

Lemma wp_gp64 s p r (Q : Value -> LState -> Prop) :
  refines s p -> wf_reg r -> (forall v s', refines s' p -> is_val (TInt 64) (rX p r) v -> Q v s') -> wp (GetGp r false false) s Q.
Proof.
  intros H Hr HQ. eapply wp_gp; [done..|]. intros v s' Hs Hv. apply HQ; [done|]. cbn in Hv. unfold rW in Hv.
  rewrite wrap_small in Hv by (by apply (rX_range _ _ _ _ _ _ H)). done.
Qed.

Lemma wp_setgp s p r w32 v x (Q : unit -> LState -> Prop) :
  refines s p -> wf_reg r -> is_val (TInt (wbits w32)) x v -> in_u (wbits w32) x ->
  (forall s', refines s' (wX p r x) -> Q tt s') -> wp (SetGp r w32 v) s Q.
Proof. apply wp_SetGp. Qed.

(** The register, then the rest. *)
Ltac gp := apply wp_bind; eapply wp_gp; [eassumption|assumption|let st := fresh "st" in intros ? st ? ?].

(** ** Additions, subtractions and logical operations *)

Definition kind_of (k : Kind) : BinOpKind := match k with KImm => IMM | KShift => SHIFT | KExt => EXT end.

(** A 64-bit extension of a 32-bit register has no lifted code. *)
Definition ext_exact (i : Inst) (k : Kind) : Prop :=
  match k, operand i with KExt, UExtend type _ => is_w32 i = true -> extend_len type <= 32 | _, _ => True end.

Lemma extend_len_le type : 0 <= type < 8 -> 0 < extend_len type <= 64.
Proof.
  intros H. unfold extend_len. pose proof (Z.mod_pos_bound type 4). pose proof (Z.pow_le_mono_r 2 (type `mod` 4) 3).
  pose proof (Z.pow_pos_nonneg 2 (type `mod` 4)). lia.
Qed.

(** Whatever the form of the second operand, its value is there, and in range. *)
Lemma operand2_range i p k y : operand2 i p k = Some y -> in_u (width i) y.
Proof.
  rewrite width_wbits. assert (0 <= wbits (is_w32 i)) by (by destruct (is_w32 i)). unfold operand2. rewrite width_wbits.
  destruct k, (operand i); try done; intros E.
  - injection E as <-. by apply wrap_range.
  - unfold shift_reg, src in E. rewrite width_wbits in E. set (N := wbits (is_w32 i)) in *. pose proof (wrap_range N (rX p (rm i)) ltac:(done)) as Hx.
    fold (rW N p (rm i)) in Hx. destruct (Z.leb_spec 0 amount), (Z.ltb_spec amount N); try done. cbn [andb] in E. pose proof (Z.pow_pos_nonneg 2 amount).
    destruct type as [|[[]|[]|]|]; try done; injection E as <-; try by apply wrap_range.
    + unfold rotate, in_u in *. set (x := rW N p (rm i)) in *.
      assert (2 ^ N = 2 ^ amount * 2 ^ (N - amount)) as E by (rewrite <- Z.pow_add_r by lia; f_equal; lia). pose proof (Z.pow_pos_nonneg 2 (N - amount)).
      pose proof (Z.mod_pos_bound x (2 ^ amount) ltac:(lia)).
      assert (0 <= x / 2 ^ amount < 2 ^ (N - amount)) by (split; [apply Z.div_pos; lia|apply Z.div_lt_upper_bound; lia]). nia.
    + unfold in_u in *. split; [apply Z.div_pos; lia|]. apply Z.div_lt_upper_bound; nia.
  - unfold extend_reg in E. destruct (_ && _); [|done]. injection E as <-. by apply wrap_range.
Qed.

Lemma wp_operand2 s p i k y (Q : Value -> LState -> Prop) :
  refines s p -> wf_reg (rm i) -> operand2 i p k = Some y -> ext_exact i k ->
  (forall v s', refines s' p -> is_val (TInt (wbits (is_w32 i))) y v -> Q v s') ->
  wp (match kind_of k with
      | SHIFT => x ← GetGp (rm i) (is_w32 i) false; '(ty, amount) ← pure (shift_of (operand i)); pure (Shift x ty amount)
      | EXT => x ← GetGp (rm i) (is_w32 i) false; '(ty, lsl) ← pure (extend_of (operand i)); pure (Extend x (is_w32 i) ty lsl)
      | IMM => imm ← pure (imm_of (operand i)); mret (getIntN (wbits (is_w32 i)) imm)
      end) s Q.
Proof.
  intros H Hr Hy Hx HQ. unfold operand2, ext_exact, src in *. rewrite width_wbits in Hy. pose proof (wbits_cases (is_w32 i)) as HN.
  destruct k; cbn [kind_of]; destruct (operand i) as [| | | | | | | | | |ty n| |ty l| | | | | | |]; try done; cbn [shift_of extend_of imm_of].
  - injection Hy as <-. apply wp_bind. eapply wp_pure; [done|]. by apply wp_ret, HQ.
  - gp. apply wp_bind. eapply wp_pure; [done|]. eapply wp_evals; [eapply evals_shift; [exact HN| |eassumption|exact Hy]; by eapply rW_range|]. auto.
  - gp. apply wp_bind. eapply wp_pure; [done|]. unfold extend_reg in Hy.
    destruct (Z.leb_spec 0 ty), (Z.ltb_spec ty 8), (Z.leb_spec 0 l), (Z.ltb_spec l 5); try done. cbn [andb] in Hy. injection Hy as <-.
    pose proof (extend_len_le ty ltac:(lia)). assert (extend_len ty <= wbits (is_w32 i)) by (destruct (is_w32 i); cbn; [by apply Hx|lia]).
    eapply wp_evals; [eapply evals_extend; [exact HN|done|lia|eassumption|lia|lia| |eassumption]; by eapply rW_range|]. auto.
Qed.

Definition addsub_op (sub : bool) : BinOp := if sub then Sub else Add.

Lemma wp_LiftBinOp_addsub s p i sub k y (Q : unit -> LState -> Prop) :
  refines s p -> wf_reg (rd i) -> wf_reg (rn i) -> wf_reg (rm i) -> operand2 i p k = Some y -> ext_exact i k ->
  (let '(r, f) := add_or_sub (width i) sub (src i p (rn i)) y sub in
   forall s', refines s' (set_flags i f (wX p (rd i) r)) -> Q tt s') ->
  wp (LiftBinOp cfg i (addsub_op sub) (kind_of k) false) s Q.
Proof.
  intros H Hd Hn Hm Hy Hx HQ. pose proof (operand2_range _ _ _ _ Hy) as Ry. unfold src in *. rewrite !width_wbits in *.
  pose proof (wbits_cases (is_w32 i)) as HN. pose proof (rW_range _ _ _ _ _ _ (is_w32 i) H Hn) as Rx.
  set (N := wbits (is_w32 i)) in *. unfold LiftBinOp. gp. apply wp_bind. eapply wp_operand2; [eassumption|done|exact Hy|done|]. intros vy s2 H2 Hvy. fold N in Hvy.
  apply wp_bind, wp_ret. set (x := rW N p (rn i)) in *.
  assert (exists r, bin_sem (addsub_op sub) N x y = Some r /\ r = wrap N (if sub then x - y else x + y)) as (r & Er & Hr) by (destruct sub; by eexists).
  ev; [by eapply (evals_binop (addsub_op sub) N x y r)|].
  assert ((add_or_sub N sub x y sub).1 = r) as E1.
  { rewrite Hr. destruct sub; [by rewrite sub_flags|]. unfold add_or_sub. by rewrite add_flags. }
  destruct (add_or_sub N sub x y sub) as [r' f] eqn:E. cbn in E1. subst r'.
  apply wp_bind. eapply wp_setgp; [exact H2|done|eassumption|rewrite Hr; apply wrap_range; destruct HN; lia|]. intros s3 K3. unfold set_flags in HQ.
  destruct (has_flag (flags i) SET_FLAGS); [|by apply wp_ret, HQ]. destruct sub; cbn [addsub_op].
  - eapply (wp_FlagCalcSub _ _ N _ x y); [done|exact K3|done|done|exact Hr|eassumption..|]. rewrite E. exact HQ.
  - eapply (wp_FlagCalcAdd _ _ N _ x y); [done|exact K3|done|done|exact Hr|eassumption..|]. unfold add_or_sub in E. rewrite E. exact HQ.
Qed.

Definition logic_op (o : BinOp) : option (Z -> Z -> Z) := match o with And => Some Z.land | Or => Some Z.lor | Xor => Some Z.lxor | _ => None end.

Lemma logic_range o f N x y : 0 <= N -> logic_op o = Some f -> in_u N x -> in_u N y -> in_u N (f x y).
Proof.
  intros HN Ho Hx Hy. assert (f x y = wrap N (f x y)) as ->; [|by apply wrap_range]. apply bits_eq. intros i Hi. rewrite testbit_wrap by done.
  destruct o; try done; injection Ho as <-; autorewrite with bits; destruct (Z.ltb_spec i N); rewrite ?andb_true_r; try done;
    by rewrite (bits_above N x), (bits_above N y) by done.
Qed.

Lemma wp_LiftBinOp_logic s p i o f inv k y (Q : unit -> LState -> Prop) :
  refines s p -> wf_reg (rd i) -> wf_reg (rn i) -> wf_reg (rm i) -> operand2 i p k = Some y -> ext_exact i k -> logic_op o = Some f ->
  (has_flag (flags i) SET_FLAGS = true -> o = And) ->
  (let r := f (src i p (rn i)) (if inv : bool then wrap (width i) (- y - 1) else y) in
   forall s', refines s' (set_flags i (logic_flags (width i) r) (wX p (rd i) r)) -> Q tt s') ->
  wp (LiftBinOp cfg i o (kind_of k) inv) s Q.
Proof.
  intros H Hd Hn Hm Hy Hx Ho Hs HQ. pose proof (operand2_range _ _ _ _ Hy) as Ry. unfold src in *. rewrite !width_wbits in *.
  pose proof (wbits_cases (is_w32 i)) as HN. pose proof (rW_range _ _ _ _ _ _ (is_w32 i) H Hn) as Rx.
  set (N := wbits (is_w32 i)) in *. assert (0 <= N) as HN0 by (destruct HN; lia). unfold LiftBinOp.
  gp. apply wp_bind. eapply wp_operand2; [eassumption|done|exact Hy|done|]. intros vy s2 K2 Hvy. fold N in Hvy.
  set (x := rW N p (rn i)) in *. set (z := if inv then wrap N (- y - 1) else y) in *.
  assert (in_u N z) as Rz by (unfold z; destruct inv; [by apply wrap_range|done]).
  apply wp_bind. apply (wp_mono _ _ (fun v s' => s' = s2 /\ is_val (TInt N) z v)).
  { unfold z. destruct inv; [eapply wp_evals; [eapply (evals_not N y); done|done]|by apply wp_ret]. }
  intros vz sz [-> Hvz]. assert (bin_sem o N x z = Some (f x z)) as Er by (destruct o; try done; by injection Ho as <-).
  ev; [by eapply (evals_binop o N x z)|]. pose proof (logic_range o f N x z HN0 Ho Rx Rz) as Rr.
  apply wp_bind. eapply wp_setgp; [exact K2|done|eassumption|done|]. intros s3 K3. unfold set_flags in HQ.
  destruct (has_flag (flags i) SET_FLAGS); [|by apply wp_ret, HQ]. rewrite Hs by done. by eapply wp_FlagCalcLogic.
Qed.

(** ** Cases that go on behind the switch *)

Definition brk_to (p : Pe) (n : Next) (s : LState) : Prop := n = Break /\ refines s p.

Lemma wp_brk c s p : wp c s (fun _ s' => refines s' p) -> wp (brk c) s (brk_to p).
Proof. intros Hc. apply wp_bind. eapply wp_mono; [exact Hc|]. intros [] s' Hs. by apply wp_ret. Qed.

Lemma wp_unary s p i f y :
  refines s p -> wf_reg (rd i) -> wf_reg (rn i) -> in_u (width i) y ->
  (forall v, is_val (TInt (width i)) (src i p (rn i)) v -> evals (f v) (TInt (width i)) y) ->
  wp (unary i f) s (brk_to (wX p (rd i) y)).
Proof.
  intros H Hd Hn Hy Hf. apply wp_brk. gp. ev; [by apply Hf|]. by eapply wp_setgp.
Qed.

Lemma wp_binary s p i f y :
  refines s p -> wf_reg (rd i) -> wf_reg (rn i) -> wf_reg (rm i) -> in_u (width i) y ->
  (forall v w, is_val (TInt (width i)) (src i p (rn i)) v -> is_val (TInt (width i)) (src i p (rm i)) w -> evals (f v w) (TInt (width i)) y) ->
  wp (binary i f) s (brk_to (wX p (rd i) y)).
Proof.
  intros H Hd Hn Hm Hy Hf. apply wp_brk. gp. gp. ev; [by apply Hf|]. by eapply wp_setgp.
Qed.

(** ** With carry *)

(** The flags are right unless adding the carry to the second operand wraps or
    changes its sign. *)
Definition carry_exact (i : Inst) (p : Pe) (sub : bool) : Prop :=
  has_flag (flags i) SET_FLAGS = true -> fC (pf p) = negb sub ->
  src i p (rm i) <> 2 ^ width i - 1 /\ src i p (rm i) <> 2 ^ (width i - 1) - 1.

Lemma wp_carry s p i sub :
  refines s p -> wf_reg (rd i) -> wf_reg (rn i) -> wf_reg (rm i) -> carry_exact i p sub ->
  let '(r, f) := add_or_sub (width i) sub (src i p (rn i)) (src i p (rm i)) (fC (pf p)) in
  wp (lift_carry cfg i (negb sub)) s (brk_to (set_flags i f (wX p (rd i) r))).
Proof.
  intros H Hd Hn Hm Hx. unfold carry_exact, src in *. rewrite !width_wbits in *. pose proof (wbits_cases (is_w32 i)) as HN.
  pose proof (rW_range _ _ _ _ _ _ (is_w32 i) H Hn) as Rx. pose proof (rW_range _ _ _ _ _ _ (is_w32 i) H Hm) as Ry.
  unfold lift_carry. set (N := wbits (is_w32 i)) in *. set (x := rW N p (rn i)) in *. set (y := rW N p (rm i)) in *. assert (0 < N) as HN0 by (destruct HN; lia).
  destruct (add_or_sub N sub x y (fC (pf p))) as [r f] eqn:E. apply wp_brk.
  apply wp_bind. eapply wp_gp; [eassumption|assumption|intros vx s1 K1 Hvx]. apply wp_bind. eapply wp_gp; [eassumption|assumption|intros vy s2 K2 Hvy]. getf.
  set (c := if sub then negb (fC (pf p)) else fC (pf p)).
  apply wp_bind. apply (wp_mono _ _ (fun v s' => s' = s2 /\ is_val (TInt 1) (Z.b2z c) v)).
  { unfold c. destruct sub; cbn [negb]; [eapply wp_evals; [eapply evals_not1; eassumption|done]|by apply wp_ret]. }
  intros vc sc [-> Hc]. assert (in_u 1 (Z.b2z c)) as Rc by (by destruct c).
  ev; [apply (evals_ext false 1 N (Z.b2z c)); [lia|done|done]|]. ev; [by eapply (evals_binop Add N)|].
  set (y' := wrap N (y + Z.b2z c)) in *. assert (in_u N y') as Ry' by (apply wrap_range; lia).
  assert (r = wrap N (if sub then x - y' else x + y')) as Er.
  { apply (f_equal fst) in E. cbn [fst] in E. subst r. unfold add_or_sub, add_with_carry, y', c. cbn [fst].
    destruct sub, (fC (pf p)); cbn [negb Z.b2z]; rewrite ?wrap_add_r, ?wrap_sub_r; [rewrite compl_eq by done..| |];
      rewrite ?wrap_sub_r, ?wrap_add_r; unfold wrap; try (f_equal; lia).
    - replace (x + (2 ^ N - 1 - y) + 1) with (x - (y + 0) + 1 * 2 ^ N) by lia. apply Z.mod_add. lia.
    - replace (x + (2 ^ N - 1 - y) + 0) with (x - (y + 1) + 1 * 2 ^ N) by lia. apply Z.mod_add. lia. }
  assert (exists o, (if negb sub then Add else Sub) = o /\ bin_sem o N x y' = Some r) as (o & Eo & Ho) by (destruct sub; rewrite Er; by eexists).
  rewrite Eo. ev; [by eapply (evals_binop o N)|].
  apply wp_bind. eapply wp_setgp; [eassumption|done|eassumption|rewrite Er; apply wrap_range; lia|]. intros s3 K3. unfold set_flags.
  destruct (has_flag (flags i) SET_FLAGS); [|by apply wp_ret]. specialize (Hx eq_refl).
  assert (f = (if sub then add_or_sub N true x y' true else add_with_carry N x y' false).2) as Ef.
  { apply (f_equal snd) in E. cbn [snd] in E. subst f. f_equal. pose proof (half N HN) as [E2 HH]. unfold y', c. destruct sub, (fC (pf p)) eqn:Efc; cbn [negb Z.b2z].
    - by rewrite Z.add_0_r, wrap_small.
    - destruct Hx as [X1 X2]; [done|]. unfold in_u in Ry. rewrite (wrap_small N (y + 1)) by (unfold in_u; lia). unfold add_or_sub. rewrite !compl_eq by (unfold in_u; lia).
      symmetry. rewrite carry_in by (unfold in_u in *; lia). f_equal. lia.
    - destruct Hx as [X1 X2]; [done|]. unfold in_u in Ry. rewrite (wrap_small N (y + 1)) by (unfold in_u; lia). unfold add_or_sub. by apply carry_in; unfold in_u in *; lia.
    - unfold add_or_sub. by rewrite Z.add_0_r, wrap_small. }
  destruct sub; cbn [negb]; [eapply (wp_FlagCalcSub _ _ N _ x y')|eapply (wp_FlagCalcAdd _ _ N _ x y')]; try eassumption; try done; intros s4 K4; by rewrite Ef.
Qed.

(** ** Conditional compares and selects *)

Lemma nzcv_bit nzcv k : 0 <= k -> negb (Z.land nzcv (2 ^ k) =? 0) = Z.testbit nzcv k.
Proof.
  intros Hk. destruct (Z.testbit nzcv k) eqn:E.
  - apply negb_true_iff, Z.eqb_neq. intros F. apply (f_equal (fun z => Z.testbit z k)) in F. rewrite Z.land_spec, E, Z.pow2_bits_true, Z.bits_0 in F by done. done.
  - apply negb_false_iff, Z.eqb_eq, bits_eq. intros i Hi. rewrite Z.land_spec, Z.bits_0. destruct (Z.eq_dec i k) as [->|]; [by rewrite E|].
    by rewrite Z.pow2_bits_false, andb_false_r by lia.
Qed.

Lemma wp_select_flag s p f (c b : bool) vc k nzcv (Q : unit -> LState -> Prop) :
  refines s p -> f ∈ [FSF; FZF; FCF; FOF] -> flag_of (pf p) f = Some b -> is_val (TInt 1) (Z.b2z c) vc -> 0 <= k ->
  (forall s', refines s' (wF p (upd_flag f (if c then b else Z.testbit nzcv k) (pf p))) -> Q tt s') ->
  wp (x ← GetFlag f; y ← pure (CreateSelect vc x (getIntN 1 (Z.b2z (negb (Z.land nzcv (2 ^ k) =? 0))))); SetFlag f y) s Q.
Proof.
  intros H Hf Hb Hc Hk HQ. apply wp_bind. eapply wp_getflag; [exact H|exact Hb|]. intros v Hv. rewrite nzcv_bit by done.
  ev; [eapply (evals_select _ c (Z.b2z b) (Z.b2z (Z.testbit nzcv k))); [done|done|]; split; [done|]; by destruct (Z.testbit nzcv k)|].
  eapply (wp_setflag _ _ _ (if c then b else Z.testbit nzcv k)); [exact H|done| |exact HQ]. by destruct c.
Qed.

Lemma wp_LiftCCmp s p N sub x y vx vy cond nzcv (Q : unit -> LState -> Prop) :
  N = 32 \/ N = 64 -> refines s p -> 0 <= cond < 16 -> in_u N x -> in_u N y -> is_val (TInt N) x vx -> is_val (TInt N) y vy ->
  (forall s', refines s' (wF p (if holds p cond then (add_or_sub N sub x y sub).2
                                else mkFlags (Z.testbit nzcv 3) (Z.testbit nzcv 2) (Z.testbit nzcv 1) (Z.testbit nzcv 0))) -> Q tt s') ->
  wp (LiftCCmp fp cfg vx vy cond nzcv (if sub then CmpSub else CmpAdd)) s Q.
Proof.
  intros HN H Hc Rx Ry Hvx Hvy HQ. unfold LiftCCmp. apply wp_bind. eapply wp_IsTrue; [exact H|done|]. intros vc Hvc.
  apply wp_bind. eapply (wp_mono _ _ (fun _ s' => refines s' (wF p (add_or_sub N sub x y sub).2))).
  { destruct sub; (ev; [by eapply evals_binop|]).
    - eapply (wp_FlagCalcSub _ _ N _ x y); try eassumption; done.
    - eapply (wp_FlagCalcAdd _ _ N _ x y); try eassumption; done. }
  intros [] s1 K1. set (fl := (add_or_sub N sub x y sub).2) in *. clearbody fl.
  apply wp_bind. eapply (wp_select_flag _ _ FSF _ _ _ 3); [exact K1|rewrite !elem_of_cons; tauto|reflexivity|exact Hvc|lia|]. intros s2 K2.
  apply wp_bind. eapply (wp_select_flag _ _ FZF _ _ _ 2); [exact K2|rewrite !elem_of_cons; tauto|reflexivity|exact Hvc|lia|]. intros s3 K3.
  apply wp_bind. eapply (wp_select_flag _ _ FCF _ _ _ 1); [exact K3|rewrite !elem_of_cons; tauto|reflexivity|exact Hvc|lia|]. intros s4 K4.
  eapply (wp_select_flag _ _ FOF _ _ _ 0); [exact K4|rewrite !elem_of_cons; tauto|reflexivity|exact Hvc|lia|]. intros s5 K5.
  apply HQ. cbn in K5. destruct (holds p cond); [|exact K5]. destruct fl. exact K5.
Qed.

Lemma cond_range i : 0 <= fad_get_cond (flags i) < 16.
Proof. unfold fad_get_cond. change 0xf with (Z.ones 4). rewrite Z.land_ones by lia. apply Z.mod_pos_bound. lia. Qed.

Lemma wp_ccmp s p i (sub imm : bool) nzcv imm5 :
  refines s p -> wf_reg (rn i) -> wf_reg (rm i) -> operand i = UCcmp nzcv imm5 ->
  let y := if imm then wrap (width i) imm5 else src i p (rm i) in
  wp (lift_ccmp fp cfg i imm (if sub then CmpSub else CmpAdd)) s
    (brk_to (wF p (if holds p (fad_get_cond (flags i)) then (add_or_sub (width i) sub (src i p (rn i)) y sub).2
                   else mkFlags (Z.testbit nzcv 3) (Z.testbit nzcv 2) (Z.testbit nzcv 1) (Z.testbit nzcv 0)))).
Proof.
  intros H Hn Hm Ho y. unfold src in *. rewrite !width_wbits in *. pose proof (wbits_cases (is_w32 i)) as HN. unfold lift_ccmp. rewrite Ho.
  assert (in_u (wbits (is_w32 i)) y) as Ry by (unfold y, src; rewrite ?width_wbits; destruct imm; apply wrap_range; destruct HN; lia).
  apply wp_brk. apply wp_bind. eapply wp_pure; [reflexivity|]. apply wp_bind. eapply wp_gp; [eassumption|done|]. intros vx s1 K1 Hvx.
  apply wp_bind. eapply (wp_mono _ _ (fun v s' => refines s' p /\ is_val (TInt (wbits (is_w32 i))) y v)).
  { unfold y. destruct imm; [by apply wp_ret|]. by eapply wp_gp. }
  intros vy s2 [K2 Hvy]. eapply wp_LiftCCmp; [exact HN|exact K2|apply cond_range| |exact Ry|exact Hvx|exact Hvy|done]. by eapply rW_range.
Qed.

Lemma wp_csel s p i f a b :
  refines s p -> wf_reg (rd i) -> wf_reg (rn i) -> wf_reg (rm i) -> in_u (width i) a -> in_u (width i) b ->
  (forall v w, is_val (TInt (width i)) (src i p (rn i)) v -> is_val (TInt (width i)) (src i p (rm i)) w ->
     exists va vb, f v w = Some (va, vb) /\ is_val (TInt (width i)) a va /\ is_val (TInt (width i)) b vb) ->
  wp (lift_csel i f) s (brk_to (wX p (rd i) (if holds p (fad_get_cond (flags i)) then a else b))).
Proof.
  intros H Hd Hn Hm Ra Rb Hf. apply wp_brk. apply wp_bind. eapply wp_gp; [eassumption|done|]. intros vx s1 K1 Hvx.
  apply wp_bind. eapply wp_gp; [eassumption|done|]. intros vy s2 K2 Hvy. destruct (Hf vx vy Hvx Hvy) as (va & vb & E & Ha & Hb).
  apply wp_bind. eapply wp_pure; [exact E|]. apply wp_bind. eapply wp_IsTrue; [exact K2|apply cond_range|]. intros vc Hvc.
  ev; [eapply evals_select; [exact Hvc|exact Ha|exact Hb]|]. eapply wp_setgp; [exact K2|done|eassumption| |done]. by destruct (holds _ _).
Qed.

Lemma wp_cinc s p i f a :
  refines s p -> wf_reg (rd i) -> wf_reg (rn i) -> in_u (width i) a ->
  (forall v, is_val (TInt (width i)) (src i p (rn i)) v -> evals (f v) (TInt (width i)) a) ->
  wp (lift_cinc i f) s (brk_to (wX p (rd i) (if holds p (fad_get_cond (flags i)) then a else src i p (rn i)))).
Proof.
  intros H Hd Hn Ra Hf. apply wp_brk. apply wp_bind. eapply wp_gp; [eassumption|done|]. intros vx s1 K1 Hvx.
  ev; [by apply Hf|]. apply wp_bind. eapply wp_IsTrue; [exact K1|apply cond_range|]. intros vc Hvc.
  ev; [eapply evals_select; [exact Hvc|eassumption|exact Hvx]|]. eapply wp_setgp; [exact K1|done|eassumption| |done].
  destruct (holds _ _); [done|]. by eapply rW_range.
Qed.

(** ** Multiplication *)

Lemma wrap_mul_mod N x y : 0 <= N -> wrap N (wrap N x * wrap N y) = wrap N (x * y).
Proof. intros. unfold wrap. symmetry. apply Z.mul_mod. apply Z.pow_nonzero; lia. Qed.

Lemma ext_val_range (signed : bool) w w' x : 0 <= w <= w' -> in_u w x -> in_u w' (if signed then wrap w' (swrap w x) else x).
Proof.
  intros Hw Hx. destruct signed; [apply wrap_range; lia|]. unfold in_u in *. pose proof (Z.pow_le_mono_r 2 w w'). lia.
Qed.

(** Widening, a multiplication and an addition: modulo the double width the
    numbers are those with or without sign. *)
Lemma evals_MulAddSub (signed sub : bool) n m b x y vb vx vy :
  0 < n -> 0 < m <= n * 2 -> in_u m b -> in_u n x -> in_u n y -> is_val (TInt m) b vb -> is_val (TInt n) x vx -> is_val (TInt n) y vy ->
  let sg w v := if signed then swrap w v else v in
  evals (MulAddSub vb (addsub_op sub) vx vy (if signed then SExt else ZExt)) (TInt (n * 2))
    (wrap (n * 2) (if sub then sg m b - sg n x * sg n y else sg m b + sg n x * sg n y)).
Proof.
  intros Hn Hm Rb Rx Ry Hvb Hvx Hvy sg. pose proof Hvx as [Tx _]. unfold MulAddSub. rewrite Tx.
  assert (forall w v, 0 < w <= n * 2 -> in_u w v -> wrap (n * 2) (if signed then wrap (n * 2) (swrap w v) else v) = wrap (n * 2) (sg w v)) as Hsg.
  { intros w v Hw Hv. unfold sg. destruct signed; [apply wrap_wrap; lia|done]. }
  eapply evals_bind; [by apply (evals_ext signed m (n * 2) b)|]. intros v1 H1.
  eapply evals_bind; [apply (evals_ext signed n (n * 2) x); [lia|done|done]|]. intros v2 H2.
  eapply evals_bind; [apply (evals_ext signed n (n * 2) y); [lia|done|done]|]. intros v3 H3.
  eapply evals_bind; [by eapply (evals_binop Mul)|]. intros v4 H4.
  eapply (evals_binop (addsub_op sub)); [exact H1|exact H4|].
  rewrite <- wrap_mul_mod, !Hsg, wrap_mul_mod by (lia || done).
  destruct sub; cbn; f_equal; rewrite ?wrap_sub_r, ?wrap_add_r, <- ?(wrap_sub_l _ (if signed then _ else _)), <- ?(wrap_add_l _ (if signed then _ else _)), !Hsg by (lia || done);
    by rewrite ?wrap_sub_l, ?wrap_add_l.
Qed.

Lemma wp_mull s p i (signed sub : bool) ra :
  refines s p -> wf_reg (rd i) -> wf_reg (rn i) -> wf_reg (rm i) -> wf_reg ra -> operand i = URa ra ->
  let sg v := if signed then s32 v else v in
  let prod := sg (rW 32 p (rn i)) * sg (rW 32 p (rm i)) in
  wp (lift_mull i (addsub_op sub) (if signed then SExt else ZExt)) s (brk_to (wX p (rd i) (u64 (if sub then rX p ra - prod else rX p ra + prod)))).
Proof.
  intros H Hd Hn Hm Ha Ho sg prod. apply wp_brk. rewrite Ho. apply wp_bind. eapply wp_pure; [reflexivity|].
  apply wp_bind. eapply wp_gp64; [eassumption|done|]. intros vb s1 K1 Hvb.
  apply wp_bind. eapply wp_gp; [eassumption|done|]. intros vx s2 K2 Hvx. apply wp_bind. eapply wp_gp; [eassumption|done|]. intros vy s3 K3 Hvy.
  ev; [eapply (evals_MulAddSub signed sub 32 64); [lia|lia| | | |exact Hvb|exact Hvx|exact Hvy]; [by eapply rX_range|by eapply (rW_range _ _ _ _ _ _ true)..]|].
  assert (forall z, u64 (if sub then (if signed then s64 (rX p ra) else rX p ra) - z else (if signed then s64 (rX p ra) else rX p ra) + z) =
                    u64 (if sub then rX p ra - z else rX p ra + z)) as E.
  { intros z. destruct signed, sub; try done; [rewrite <- wrap_sub_l, wrap_swrap, wrap_sub_l|rewrite <- wrap_add_l, wrap_swrap, wrap_add_l]; done. }
  eapply wp_setgp; [exact K3|done|eassumption|apply wrap_range; lia|]. intros s4 K4. change (32 * 2) with 64 in K4. rewrite E in K4. exact K4.
Qed.

Lemma high_half P : wrap 64 (Z.shiftr (wrap 128 P) 64) = wrap 64 (P / 2 ^ 64).
Proof.
  apply bits_eq. intros i Hi. rewrite !testbit_wrap, Z.shiftr_spec, testbit_wrap, <- Z.shiftr_div_pow2, Z.shiftr_spec by lia.
  destruct (Z.ltb_spec i 64); [|by rewrite !andb_false_r]. rewrite (proj2 (Z.ltb_lt (i + 64) 128)) by lia. by rewrite andb_true_r.
Qed.

Lemma wp_mulh s p i (signed : bool) :
  refines s p -> wf_reg (rd i) -> wf_reg (rn i) -> wf_reg (rm i) ->
  let sg v := if signed then s64 v else v in
  wp (lift_mulh i (if signed then SExt else ZExt)) s (brk_to (wX p (rd i) (u64 (sg (rX p (rn i)) * sg (rX p (rm i)) / 2 ^ 64)))).
Proof.
  intros H Hd Hn Hm sg. apply wp_brk. apply wp_bind. eapply wp_gp64; [eassumption|done|]. intros vx s1 K1 Hvx.
  apply wp_bind. eapply wp_gp64; [eassumption|done|]. intros vy s2 K2 Hvy.
  ev; [eapply (evals_MulAddSub signed false 64 64 0 (rX p (rn i)) (rX p (rm i))); [lia|lia|done|by eapply rX_range|by eapply rX_range|done|exact Hvx|exact Hvy]|].
  ev; [eapply (evals_binop LShr 128 _ 64); [eassumption|done|reflexivity]|].
  ev; [eapply (evals_trunc 128 64); [lia| |eassumption]|].
  { apply (in_u_shiftr 128 64); [lia|lia|]. apply (in_u_le 128); [lia|]. apply (wrap_range 128). lia. }
  eapply wp_setgp; [exact K2|done|eassumption|apply wrap_range; lia|]. intros s3 K3. rewrite high_half in K3.
  destruct signed; exact K3.
Qed.

Lemma wp_madd s p i (sub : bool) ra :
  refines s p -> wf_reg (rd i) -> wf_reg (rn i) -> wf_reg (rm i) -> wf_reg ra -> operand i = URa ra ->
  let prod := src i p (rn i) * src i p (rm i) in
  wp (lift_madd i sub) s (brk_to (wX p (rd i) (wrap (width i) (if sub then src i p ra - prod else src i p ra + prod)))).
Proof.
  intros H Hd Hn Hm Ha Ho prod. apply wp_brk. apply wp_bind. eapply wp_gp; [eassumption|done|]. intros vx s1 K1 Hvx.
  apply wp_bind. eapply wp_gp; [eassumption|done|]. intros vy s2 K2 Hvy. rewrite Ho. apply wp_bind. eapply wp_pure; [reflexivity|].
  apply wp_bind. eapply wp_gp; [eassumption|done|]. intros va s3 K3 Hva. ev; [by eapply (evals_binop Mul)|].
  ev; [eapply (evals_binop (addsub_op sub) _ _ _ (wrap (width i) (if sub then src i p ra - prod else src i p ra + prod))); [exact Hva|eassumption|]|].
  { unfold prod, src. rewrite !width_wbits. destruct sub; cbn; f_equal; by rewrite ?wrap_sub_r, ?wrap_add_r. }
  eapply wp_setgp; [exact K3|done|eassumption| |done]. apply wrap_range. rewrite width_wbits. destruct (wbits_cases (is_w32 i)); lia.
Qed.
End Groups.
