(* ===== verification/RellumeA64Data.v ===== *)
(** * Data processing with immediates, one and two registers, and selects

    The cases of the AArch64 lifter that compute one register: what the lifted
    code writes is what [imm_exec], [dp1_of], [dp2_of] and [csel_exec] say. *)

From Stdlib Require Import ZArith Lia.
From stdpp Require Import base numbers list option gmap.
From S2P Require Import Prelude Machine Farmdec FarmdecProofs FarmdecWf Rellume RellumeProofs RellumeA64 A64Sem RellumeA64Proofs RellumeA64Alu RellumeA64Refine.

Section Data.
Context (fp : FpSem) (fi : FunctionInfo) (cfg : LLConfig) (TP : nat) (undef : Ty -> Z) (LiftSIMD : Inst -> L bool) (cpu0 : Cpu) (ret0 : bool).
Let refines := arefines TP cpu0 ret0.
Let to := brk_to TP cpu0 ret0.

Lemma src_range s p i r : refines s p -> wf_reg r -> in_u (width i) (src i p r).
Proof. intros H Hr. unfold src. rewrite width_wbits. by eapply rW_range. Qed.

Lemma width_pos i : 0 < width i <= 64.
Proof. rewrite width_wbits. destruct (is_w32 i); cbn; lia. Qed.

Lemma width_cases i : width i = 32 \/ width i = 64.
Proof. rewrite width_wbits. apply wbits_cases. Qed.

(** ** Immediates *)

Lemma wp_insert s p i f clr y d :
  refines s p -> wf_reg (rd i) -> wf_reg (rn i) ->
  (forall v, is_val (TInt (width i)) (src i p (rn i)) v -> evals (f v) (TInt (width i)) y) ->
  d = Z.lor y (Z.land (src i p (rd i)) (wrap (width i) clr)) -> in_u (width i) d ->
  wp (lift_insert i f clr) s (to (wX p (rd i) d)).
Proof.
  intros H Hd Hn Hf -> Ry. apply wp_brk. apply wp_bind. eapply wp_gp; [eassumption|done|]. intros vx s1 K1 Hvx.
  ev; [by apply Hf|]. apply wp_bind. eapply wp_gp; [eassumption|done|]. intros vd s2 K2 Hvd.
  ev; [eapply (evals_binop And); [exact Hvd|apply is_val_intN|reflexivity]|].
  ev; [eapply (evals_binop Or); [eassumption|eassumption|reflexivity]|]. eapply wp_setgp; [exact K2|done|eassumption|exact Ry|done].
Qed.

Lemma insert_field_range N d lsb w x : 0 <= N -> in_u N d -> 0 <= lsb -> 0 <= w -> lsb + w <= N -> in_u N (insert_field d lsb w x).
Proof.
  intros HN Hd Hl Hw Hb. unfold insert_field. eapply (logic_range Or); [done|reflexivity| |].
  - assert (Z.ldiff d (Z.shiftl (Z.ones w) lsb) = wrap N (Z.ldiff d (Z.shiftl (Z.ones w) lsb))) as ->; [|by apply wrap_range].
    apply bits_eq. intros i Hi. rewrite testbit_wrap by lia. destruct (Z.ltb_spec i N); [by rewrite andb_true_r|].
    by rewrite Z.ldiff_spec, (bits_above N d) by done.
  - apply in_u_shiftl; [lia|]. pose proof (wrap_range w x Hw). unfold in_u in *. pose proof (Z.pow_le_mono_r 2 w (N - lsb)). lia.
Qed.

Lemma wp_shift_imm s p i ty n y :
  refines s p -> wf_reg (rd i) -> wf_reg (rn i) -> operand i = UImm n -> shift_reg (width i) ty n (src i p (rn i)) = Some y -> in_u (width i) y ->
  wp (imm ← pure (imm_of (operand i)); unary i (fun x => Shift x ty (u32 imm))) s (to (wX p (rd i) y)).
Proof.
  intros H Hd Hn Ho Hy Ry. rewrite Ho. apply wp_bind. eapply wp_pure; [reflexivity|]. eapply wp_unary; [exact H|done|done|done|]. intros v Hv.
  assert (0 <= n < width i) as Hr by (unfold shift_reg in Hy; destruct (Z.leb_spec 0 n), (Z.ltb_spec n (width i)); try done; lia).
  pose proof (width_pos i). rewrite (wrap_small 32 n) by (unfold in_u; lia).
  eapply (evals_shift (width i) (width_cases i)); [by eapply src_range|exact Hv|exact Hy].
Qed.

Lemma wp_mov_imm s p i v : refines s p -> wf_reg (rd i) -> operand i = UImm v -> op i = A64_MOV_IMM ->
  exists c, lift_imm cfg i = Some c /\ wp c s (to (wX p (rd i) (wrap (width i) v))).
Proof.
  intros H Hd Ho Eo. unfold lift_imm. rewrite Eo, Ho. eexists. split; [reflexivity|]. apply wp_brk. apply wp_bind. eapply wp_pure; [reflexivity|].
  eapply wp_setgp; [exact H|done|apply is_val_intN| |done]. apply wrap_range. pose proof (width_pos i). rewrite <- width_wbits. lia.
Qed.

Lemma wp_movk s p i v lsl : refines s p -> wf_reg (rd i) -> operand i = UMovk v lsl -> op i = A64_MOVK ->
  0 <= lsl -> lsl + 16 <= width i -> 0 <= v < 65536 ->
  exists c, lift_imm cfg i = Some c /\ wp c s (to (wX p (rd i) (insert_field (src i p (rd i)) lsl 16 v))).
Proof.
  intros H Hd Ho Eo Hl Hb Hv. unfold lift_imm. rewrite Eo, Ho. eexists. split; [reflexivity|]. apply wp_brk. pose proof (width_pos i). pose proof (width_cases i) as HN.
  pose proof (src_range s p i (rd i) H Hd) as Rd.
  apply wp_bind. eapply wp_pure; [reflexivity|]. apply wp_bind. eapply wp_gp; [exact H|done|]. intros vd s1 K1 Hvd.
  ev; [eapply (evals_binop And); [exact Hvd|apply is_val_intN|reflexivity]|].
  ev; [eapply (evals_binop Or); [eassumption|apply is_val_intN|reflexivity]|].
  rewrite <- !width_wbits in *. fold (src i p (rd i)) in *. change 0xffff with (Z.ones 16) in *. rewrite (land_clear' (width i) HN) in * by done.
  assert (wrap (width i) (u64 (Z.shiftl v lsl)) = Z.shiftl (wrap 16 v) lsl) as E.
  { rewrite (wrap_small 16 v) by (unfold in_u; lia). pose proof (field_small (width i) HN v lsl 16) as Hf. rewrite (wrap_small 16 v) in Hf by (unfold in_u; lia).
    specialize (Hf Hl ltac:(lia) Hb). rewrite (wrap_small 64) by (eapply in_u_le; [|exact Hf]; lia). by apply wrap_small. }
  rewrite E in *. eapply wp_setgp; [exact K1|done| | |]; rewrite <- ?width_wbits; [eassumption| |done].
  by apply (insert_field_range (width i)); try lia.
Qed.

Lemma wp_bfc s p i lsb w : refines s p -> wf_reg (rd i) -> operand i = UBfm lsb w -> op i = A64_BFC ->
  0 <= lsb -> 0 < w -> lsb + w <= width i ->
  exists c, lift_imm cfg i = Some c /\ wp c s (to (wX p (rd i) (insert_field (src i p (rd i)) lsb w 0))).
Proof.
  intros H Hd Ho Eo Hl Hw Hb. unfold lift_imm. rewrite Eo, Ho. eexists. split; [reflexivity|]. apply wp_brk. pose proof (width_pos i). pose proof (width_cases i) as HN.
  pose proof (src_range s p i (rd i) H Hd) as Rd.
  apply wp_bind. eapply wp_pure; [reflexivity|]. apply wp_bind. eapply wp_gp; [exact H|done|]. intros vd s1 K1 Hvd.
  ev; [eapply (evals_binop And); [exact Hvd|apply is_val_intN|reflexivity]|].
  rewrite <- !width_wbits in *. fold (src i p (rd i)) in *. rewrite (land_clear (width i) HN), ones_eq in * by (lia || done).
  assert (insert_field (src i p (rd i)) lsb w 0 = Z.ldiff (src i p (rd i)) (Z.shiftl (Z.ones w) lsb)) as E.
  { unfold insert_field. unfold wrap. rewrite Z.mod_0_l by (apply Z.pow_nonzero; lia). by rewrite Z.shiftl_0_l, Z.lor_0_r. }
  pose proof (insert_field_range (width i) (src i p (rd i)) lsb w 0 ltac:(lia) Rd Hl ltac:(lia) Hb) as Ry. rewrite E in *.
  eapply wp_setgp; [exact K1|done| | |]; rewrite <- ?width_wbits; [eassumption|exact Ry|done].
Qed.

Lemma wp_bfi s p i lsb w : refines s p -> wf_reg (rd i) -> wf_reg (rn i) -> operand i = UBfm lsb w -> op i = A64_BFI ->
  0 <= lsb -> 0 < w -> lsb + w <= width i ->
  exists c, lift_imm cfg i = Some c /\ wp c s (to (wX p (rd i) (insert_field (src i p (rd i)) lsb w (src i p (rn i))))).
Proof.
  intros H Hd Hn Ho Eo Hl Hw Hb. unfold lift_imm. rewrite Eo, Ho. eexists. split; [reflexivity|]. pose proof (width_pos i). pose proof (width_cases i) as HN.
  pose proof (src_range s p i (rd i) H Hd) as Rd. apply wp_bind. eapply wp_pure; [reflexivity|]. eapply wp_insert; [exact H|done|done| | |].
  - intros v Hv. eapply (evals_MoveField (width i) HN); [done|lia|lia|done|exact Hv].
  - symmetry. eapply (insert_field_eq (width i) HN); [done|lia|lia|done|]. by rewrite (land_clear (width i) HN), ones_eq by (lia || done).
  - by apply (insert_field_range (width i)); try lia.
Qed.

Lemma wp_bfxil s p i lsb w : refines s p -> wf_reg (rd i) -> wf_reg (rn i) -> operand i = UBfm lsb w -> op i = A64_BFXIL ->
  0 <= lsb -> 0 < w -> lsb + w <= width i ->
  exists c, lift_imm cfg i = Some c /\ wp c s (to (wX p (rd i) (insert_field (src i p (rd i)) 0 w (Z.shiftr (src i p (rn i)) lsb)))).
Proof.
  intros H Hd Hn Ho Eo Hl Hw Hb. unfold lift_imm. rewrite Eo, Ho. eexists. split; [reflexivity|]. pose proof (width_pos i). pose proof (width_cases i) as HN.
  pose proof (src_range s p i (rd i) H Hd) as Rd. apply wp_bind. eapply wp_pure; [reflexivity|]. eapply wp_insert; [exact H|done|done| | |].
  - intros v Hv. eapply (evals_Extract (width i) HN); [done|lia|lia|done|exact Hv].
  - symmetry. set (x := Z.shiftr (src i p (rn i)) lsb).
    pose proof (field_small (width i) HN x 0 w ltac:(lia) ltac:(lia) ltac:(lia)) as Hf. rewrite Z.shiftl_0_r in Hf.
    rewrite <- (insert_field_eq (width i) HN _ x 0 w (wrap (width i) (u64 (Z.lnot (ones w))))); [|done|lia|lia|lia|].
    + by rewrite Z.shiftl_0_r, (wrap_small (width i) (wrap w x)).
    + by rewrite (land_clear' (width i) HN), ones_eq, Z.shiftl_0_r by (lia || done).
  - by apply (insert_field_range (width i)); try lia.
Qed.

Lemma sbfiz_value N lsb w x : N = 32 \/ N = 64 -> 0 <= lsb -> 0 < w -> lsb + w <= N ->
  wrap N (swrap (lsb + w - 1 + 1) (wrap N (Z.shiftl (wrap w x) lsb))) = wrap N (Z.shiftl (swrap w x) lsb).
Proof.
  intros HN Hl Hw Hb. rewrite (wrap_small N (Z.shiftl (wrap w x) lsb)) by (by apply field_small; lia).
  rewrite !Z.shiftl_mul_pow2 by lia. replace (lsb + w - 1 + 1) with (lsb + w) by lia. rewrite swrap_shiftl by lia. by rewrite swrap_wrap by lia.
Qed.

Lemma wp_sbfiz s p i lsb w : refines s p -> wf_reg (rd i) -> wf_reg (rn i) -> operand i = UBfm lsb w -> op i = A64_SBFIZ ->
  0 <= lsb -> 0 < w -> lsb + w <= width i ->
  exists c, lift_imm cfg i = Some c /\ wp c s (to (wX p (rd i) (wrap (width i) (Z.shiftl (swrap w (src i p (rn i))) lsb)))).
Proof.
  intros H Hd Hn Ho Eo Hl Hw Hb. unfold lift_imm. rewrite Eo, Ho. eexists. split; [reflexivity|]. pose proof (width_pos i). pose proof (width_cases i) as HN.
  apply wp_bind. eapply wp_pure; [reflexivity|]. eapply wp_unary; [exact H|done|done|apply wrap_range; lia|]. intros v Hv. eapply evals_bind.
  - eapply (evals_MoveField (width i) HN); [done|lia|lia|done|exact Hv].
  - intros v1 H1. eapply evals_eq; [eapply (evals_sext_field (width i) HN _ _ _ (lsb + w - 1)); [done|lia| |exact H1]|by apply sbfiz_value].
    rewrite wrap_small by (by apply field_small; lia). apply in_u_shiftl; [lia|]. replace (lsb + w - 1 + 1 - lsb) with w by lia. apply wrap_range. lia.
Qed.

Lemma wp_sbfx s p i lsb w : refines s p -> wf_reg (rd i) -> wf_reg (rn i) -> operand i = UBfm lsb w -> op i = A64_SBFX ->
  0 <= lsb -> 0 < w -> lsb + w <= width i ->
  exists c, lift_imm cfg i = Some c /\ wp c s (to (wX p (rd i) (wrap (width i) (swrap w (Z.shiftr (src i p (rn i)) lsb))))).
Proof.
  intros H Hd Hn Ho Eo Hl Hw Hb. unfold lift_imm. rewrite Eo, Ho. eexists. split; [reflexivity|]. pose proof (width_pos i). pose proof (width_cases i) as HN.
  apply wp_bind. eapply wp_pure; [reflexivity|]. eapply wp_unary; [exact H|done|done|apply wrap_range; lia|]. intros v Hv. eapply evals_bind.
  - eapply (evals_Extract (width i) HN); [done|lia|lia|done|exact Hv].
  - intros v1 H1. eapply evals_eq; [eapply (evals_sext_field (width i) HN _ _ _ (w - 1)); [done|lia| |exact H1]|].
    + replace (w - 1 + 1) with w by lia. apply wrap_range. lia.
    + replace (w - 1 + 1) with w by lia. by rewrite swrap_wrap by lia.
Qed.

Lemma wp_ubfx s p i lsb w : refines s p -> wf_reg (rd i) -> wf_reg (rn i) -> operand i = UBfm lsb w -> op i = A64_UBFX ->
  0 <= lsb -> 0 < w -> lsb + w <= width i ->
  exists c, lift_imm cfg i = Some c /\ wp c s (to (wX p (rd i) (wrap w (Z.shiftr (src i p (rn i)) lsb)))).
Proof.
  intros H Hd Hn Ho Eo Hl Hw Hb. unfold lift_imm. rewrite Eo, Ho. eexists. split; [reflexivity|]. pose proof (width_pos i). pose proof (width_cases i) as HN.
  apply wp_bind. eapply wp_pure; [reflexivity|]. eapply wp_unary; [exact H|done|done| |].
  - apply (in_u_le w); [lia|]. apply wrap_range. lia.
  - intros v Hv. eapply (evals_Extract (width i) HN); [done|lia|lia|done|exact Hv].
Qed.

Lemma wp_ubfiz s p i lsb w : refines s p -> wf_reg (rd i) -> wf_reg (rn i) -> operand i = UBfm lsb w -> op i = A64_UBFIZ ->
  0 <= lsb -> 0 < w -> lsb + w <= width i ->
  exists c, lift_imm cfg i = Some c /\ wp c s (to (wX p (rd i) (wrap (width i) (Z.shiftl (wrap w (src i p (rn i))) lsb)))).
Proof.
  intros H Hd Hn Ho Eo Hl Hw Hb. unfold lift_imm. rewrite Eo, Ho. eexists. split; [reflexivity|]. pose proof (width_pos i). pose proof (width_cases i) as HN.
  apply wp_bind. eapply wp_pure; [reflexivity|]. eapply wp_unary; [exact H|done|done|apply wrap_range; lia|].
  intros v Hv. eapply (evals_MoveField (width i) HN); [done|lia|lia|done|exact Hv].
Qed.

Lemma wp_extend s p i ty l : refines s p -> wf_reg (rd i) -> wf_reg (rn i) -> operand i = UExtend ty l -> op i = A64_EXTEND ->
  0 <= ty < 8 -> extend_len ty <= width i ->
  exists c, lift_imm cfg i = Some c /\ wp c s (to (wX p (rd i) (wrap (width i) (extend_val ty (src i p (rn i)))))).
Proof.
  intros H Hd Hn Ho Eo Ht Hb. unfold lift_imm. rewrite Eo, Ho. eexists. split; [reflexivity|]. pose proof (width_pos i). pose proof (width_cases i) as HN.
  apply wp_bind. eapply wp_pure; [reflexivity|]. eapply wp_unary; [exact H|done|done|apply wrap_range; lia|].
  intros v Hv. eapply evals_eq; [eapply (evals_extend (width i) HN (width i)); [done|done|done|done|lia| |exact Hv]|].
  - by eapply src_range.
  - by rewrite Z.mul_1_r.
Qed.

Lemma wp_extr s p i n : refines s p -> wf_reg (rd i) -> wf_reg (rn i) -> wf_reg (rm i) -> operand i = UImm n -> op i = A64_EXTR -> 0 <= n < width i ->
  exists c, lift_imm cfg i = Some c /\ wp c s (to (wX p (rd i) (wrap (width i) ((src i p (rn i) * 2 ^ width i + src i p (rm i)) / 2 ^ n)))).
Proof.
  intros H Hd Hn Hm Ho Eo Hb. unfold lift_imm. rewrite Eo, Ho. eexists. split; [reflexivity|]. pose proof (width_pos i). pose proof (width_cases i) as HN.
  apply wp_bind. eapply wp_pure; [reflexivity|]. eapply wp_binary; [exact H|done|done|done|apply wrap_range; lia|].
  intros v w Hv Hw. apply (evals_extr (width i) HN (is_w32 i)); [done|done| | |done|done]; by eapply src_range.
Qed.

Lemma shift_reg_range N ty n x y : N = 32 \/ N = 64 -> in_u N x -> shift_reg N ty n x = Some y -> in_u N y.
Proof.
  intros HN Hx E. assert (0 < N) by (destruct HN; lia). unfold shift_reg in E. destruct (Z.leb_spec 0 n), (Z.ltb_spec n N); try done. cbn [andb] in E.
  pose proof (Z.pow_pos_nonneg 2 n). destruct ty as [|[[]|[]|]|]; try done; injection E as <-; try (apply wrap_range; lia).
  - rewrite <- rotate_eq by done. apply wrap_range. lia.
  - unfold in_u in *. split; [apply Z.div_pos; lia|]. apply Z.div_lt_upper_bound; nia.
Qed.

Lemma wp_imm_shift s p i ty n y : refines s p -> wf_reg (rd i) -> wf_reg (rn i) -> operand i = UImm n ->
  op i = match ty with 0 => A64_LSL_IMM | 1 => A64_LSR_IMM | 2 => A64_ASR_IMM | _ => A64_ROR_IMM end -> 0 <= ty < 4 ->
  shift_reg (width i) ty n (src i p (rn i)) = Some y ->
  exists c, lift_imm cfg i = Some c /\ wp c s (to (wX p (rd i) y)).
Proof.
  intros H Hd Hn Ho Eo Ht Hy. pose proof (shift_reg_range _ _ _ _ _ (width_cases i) (src_range s p i _ H Hn) Hy) as Ry.
  assert (lift_imm cfg i = Some (imm ← pure (imm_of (operand i)); unary i (fun x => Shift x ty (u32 imm)))) as E.
  { unfold lift_imm. rewrite Eo. assert (ty = 0 \/ ty = 1 \/ ty = 2 \/ ty = 3) as [->|[->|[->| ->]]] by lia; reflexivity. }
  rewrite E. eexists. split; [reflexivity|]. by eapply wp_shift_imm.
Qed.

Lemma wp_imm_group s p i r : refines s p -> wf_reg (rd i) -> wf_reg (rn i) -> wf_reg (rm i) ->
  imm_exec (width i) (src i p (rd i)) (src i p (rn i)) (src i p (rm i)) i = Some r ->
  exists c, lift_imm cfg i = Some c /\ wp c s (to (wX p (rd i) r)).
Proof.
  intros H Hd Hn Hm E. unfold imm_exec, alias_exec in E. pose proof (width_pos i) as HW.
  destruct (op i) eqn:Eo; try done; destruct (operand i) as [v| | | |v lsl|lsb w| | | | | | |ty l| | | | | | |] eqn:Ho; try done.
  all: try (injection E as <-; by apply wp_mov_imm).
  all: match type of E with (if ?b then _ else _) = _ => destruct b eqn:G; [|done] end; rewrite ?andb_true_iff, ?Z.leb_le, ?Z.ltb_lt in G.
  all: try (destruct G as [[G1 G2] G3]; injection E as <-; eauto using wp_bfc, wp_bfi, wp_bfxil, wp_sbfiz, wp_sbfx, wp_ubfx, wp_ubfiz; fail).
  - injection E as <-. apply wp_movk; try done; lia.
  - eapply (wp_imm_shift _ _ _ 2); [done..|]. unfold shift_reg. injection E as <-.
    rewrite (proj2 (Z.leb_le 0 v)), (proj2 (Z.ltb_lt v (width i))), Z.shiftr_div_pow2 by lia. done.
  - eapply (wp_imm_shift _ _ _ 0); [done..|]. unfold shift_reg. injection E as <-.
    rewrite (proj2 (Z.leb_le 0 v)), (proj2 (Z.ltb_lt v (width i))), Z.shiftl_mul_pow2 by lia. done.
  - eapply (wp_imm_shift _ _ _ 1); [done..|]. unfold shift_reg. injection E as <-.
    rewrite (proj2 (Z.leb_le 0 v)), (proj2 (Z.ltb_lt v (width i))), Z.shiftr_div_pow2 by lia. done.
  - assert (0 <= ty < 8 /\ r = wrap (width i) (extend_val ty (src i p (rn i)))) as [Ht ->]; [|by eapply wp_extend].
    assert (forall k, 0 <= k <= width i -> wrap (width i) (wrap k (src i p (rn i))) = wrap k (src i p (rn i))) as W.
    { intros k Hk. apply wrap_small. apply (in_u_le k); [lia|]. apply wrap_range. lia. }
    destruct (width_cases i) as [HN|HN]; rewrite HN in *;
      destruct ty as [|[[[]|[]|]|[[]|[]|]|]|]; try done; injection E as <-; (split; [lia|]); unfold extend_val;
      match goal with |- context [extend_len ?t] => let k := eval vm_compute in (extend_len t) in change (extend_len t) with k end;
      cbn -[wrap swrap]; rewrite ?W by lia; done.
  - injection E as <-. by apply wp_extr.
  - eapply (wp_imm_shift _ _ _ 3); [done..|]. unfold shift_reg. by rewrite (proj2 (Z.leb_le 0 v)), (proj2 (Z.ltb_lt v (width i))) by lia.
Qed.

(** ** One and two registers *)

Abbreviation lift i start len := (lift_op fp fi cfg TP undef LiftSIMD (mkAInst i start len)).

(** The case of an operation. *)
Ltac case_of Eo := unfold lift_op, lift_imm, lift_branch, lift_system, lift_reg, lift_mem, lift_fp; cbn [i_a64]; rewrite Eo; cbn iota.

Lemma lift_op_imm i start len c : lift_imm cfg i = Some c -> lift i start len = c.
Proof. intros E. unfold lift_op. cbn [i_a64]. by rewrite E. Qed.

Lemma div_range N a b : in_u N a -> 0 <= b -> in_u N (if b =? 0 then 0 else a / b).
Proof.
  intros [H1 H2] Hb. destruct (Z.eqb_spec b 0); [split; lia|]. split; [apply Z.div_pos; lia|]. apply Z.div_lt_upper_bound; nia.
Qed.

(** By a register: as by an immediate. *)
Lemma shiftv_case N ty f g x y vx vy :
  N = 32 \/ N = 64 -> in_u N x -> is_val (TInt N) x vx -> is_val (TInt N) y vy ->
  (forall n vn, 0 <= n < N -> is_val (TInt N) n vn -> evals (f vx vn) (TInt N) (g n)) ->
  (forall n, 0 <= n < N -> shift_reg N ty n x = Some (g n)) ->
  evals (lift_shiftv N f vx vy) (TInt N) (g (y `mod` N)) /\ in_u N (g (y `mod` N)).
Proof.
  intros HN Hx Hvx Hvy Hf Hg. assert (0 <= y `mod` N < N) as Hr by (apply Z.mod_pos_bound; destruct HN; lia).
  split; [by apply evals_shiftv|]. by eapply (shift_reg_range N ty), Hg.
Qed.

Lemma shift_in N ty n x r : 0 <= n < N ->
  match ty with 0 => Some (wrap N (x * 2 ^ n)) | 1 => Some (x / 2 ^ n) | 2 => Some (wrap N (swrap N x / 2 ^ n)) | 3 => Some (rotate N n x) | _ => None end = Some r ->
  shift_reg N ty n x = Some r.
Proof. intros Hn. unfold shift_reg. by rewrite (proj2 (Z.leb_le 0 n)), (proj2 (Z.ltb_lt n N)) by lia. Qed.

Lemma dp2_case i f start len : dp2_of (op i) = Some f ->
  exists g, lift i start len = binary i g /\
  forall x y vx vy, in_u (width i) x -> in_u (width i) y -> is_val (TInt (width i)) x vx -> is_val (TInt (width i)) y vy ->
    evals (g vx vy) (TInt (width i)) (f (width i) x y) /\ in_u (width i) (f (width i) x y).
Proof.
  pose proof (width_cases i) as HN. pose proof (width_pos i). unfold dp2_of.
  destruct (op i) eqn:Eo; try done; intros E; injection E as <-; case_of Eo; (eexists; split; [reflexivity|]); intros x y vx vy Hx Hy Hvx Hvy.
  - split; [by apply evals_udiv|]. apply div_range; [done|]. apply Hy.
  - split; [by apply evals_sdiv|]. destruct (y =? 0); [by apply amount_ok; try lia|]. apply wrap_range. lia.
  - apply (shiftv_case (width i) 0 _ (fun n => wrap (width i) (x * 2 ^ n)) x); [done..| |intros; by apply shift_in].
    intros n vn Hn Hvn. eapply (evals_binop Shl); [exact Hvx|exact Hvn|]. cbn. by rewrite (proj2 (Z.leb_gt _ n)), Z.shiftl_mul_pow2 by lia.
  - apply (shiftv_case (width i) 1 _ (fun n => x / 2 ^ n) x); [done..| |intros; by apply shift_in].
    intros n vn Hn Hvn. eapply (evals_binop LShr); [exact Hvx|exact Hvn|]. cbn. by rewrite (proj2 (Z.leb_gt _ n)), Z.shiftr_div_pow2 by lia.
  - apply (shiftv_case (width i) 2 _ (fun n => wrap (width i) (swrap (width i) x / 2 ^ n)) x); [done..| |intros; by apply shift_in].
    intros n vn Hn Hvn. eapply (evals_binop AShr); [exact Hvx|exact Hvn|]. cbn. by rewrite (proj2 (Z.leb_gt _ n)), Z.shiftr_div_pow2 by lia.
  - apply (shiftv_case (width i) 3 _ (fun n => rotate (width i) n x) x); [done..| |intros; by apply shift_in].
    intros n vn Hn Hvn. eapply evals_eq; [apply (evals_fshr (width i) HN x n); [done|lia|done|done]|]. by rewrite Z.mod_small.
  - split; [by eapply (evals_binop Mul)|]. apply wrap_range. lia.
Qed.

Lemma from_bits_range N f : 0 <= N -> in_u N (from_bits (Z.to_nat N) f).
Proof. intros. pose proof (proj1 (from_bits_spec (Z.to_nat N) f)) as Hr. by rewrite Z2Nat.id in Hr. Qed.

Lemma dp1_case i f start len : dp1_of (op i) = Some f ->
  exists g, lift i start len = unary i g /\
  forall x vx, in_u (width i) x -> is_val (TInt (width i)) x vx -> evals (g vx) (TInt (width i)) (f (width i) x) /\ in_u (width i) (f (width i) x).
Proof.
  pose proof (width_cases i) as HN. pose proof (width_pos i). unfold dp1_of.
  destruct (op i) eqn:Eo; try done; intros E; injection E as <-; case_of Eo; (eexists; split; [reflexivity|]); intros x vx Hx Hvx.
  - split; [|apply from_bits_range; lia]. rewrite <- rbit_eq by done. by apply evals_intrinsic.
  - split; [|apply from_bits_range; lia]. apply evals_rev; [done|by left|done].
  - split; [|apply from_bits_range; lia]. rewrite <- rev_eq by done. by apply evals_intrinsic.
  - split; [|apply from_bits_range; lia]. apply evals_rev; [done|by right|done].
  - split; [by apply evals_intrinsic|by apply clz_in_u].
  - by apply evals_cls.
Qed.

Lemma wp_exec_dp s p i start len p' :
  refines s p -> wf_reg (rd i) -> wf_reg (rn i) -> wf_reg (rm i) -> exec_dp i len p = Some p' ->
  exists q, p' = next len p q /\ wp (lift i start len) s (to q).
Proof.
  intros H Hd Hn Hm E. unfold exec_dp in E. pose proof (src_range s p i _ H Hn) as Rn. pose proof (src_range s p i _ H Hm) as Rm.
  destruct (dp2_of (op i)) as [f|] eqn:E2.
  { injection E as <-. eexists. split; [reflexivity|]. destruct (dp2_case i f start len E2) as (g & -> & Hg).
    eapply wp_binary; [exact H|done|done|done| |].
    - by apply (Hg _ _ (mkVal (TInt (width i)) (src i p (rn i)) NotConst) (mkVal (TInt (width i)) (src i p (rm i)) NotConst)).
    - intros v w Hv Hw. by apply Hg. }
  destruct (dp1_of (op i)) as [f|] eqn:E1.
  { injection E as <-. eexists. split; [reflexivity|]. destruct (dp1_case i f start len E1) as (g & -> & Hg).
    eapply wp_unary; [exact H|done|done| |].
    - by apply (Hg _ (mkVal (TInt (width i)) (src i p (rn i)) NotConst)).
    - intros v Hv. by apply Hg. }
  destruct (op i) eqn:Eo;
    try (destruct (imm_exec _ _ _ _ i) as [r|] eqn:Ei in E; [|done]; injection E as <-; eexists; split; [reflexivity|];
         destruct (wp_imm_group s p i r H Hd Hn Hm Ei) as (c & Ec & Hc); by rewrite (lift_op_imm i start len c Ec)).
  injection E as <-. eexists. split; [reflexivity|]. case_of Eo. apply wp_brk. apply wp_bind. eapply wp_gp; [exact H|done|]. intros v s1 K1 Hv.
  eapply wp_setgp; [exact K1|done|exact Hv|exact Rm|done].
Qed.

(** ** Selects *)

Lemma wp_exec_csel s p i start len p' :
  refines s p -> wf_reg (rd i) -> wf_reg (rn i) -> wf_reg (rm i) -> exec_csel i len p = Some p' ->
  exists q, p' = next len p q /\ wp (lift i start len) s (to q).
Proof.
  intros H Hd Hn Hm E. unfold exec_csel, csel_exec in E. pose proof (src_range s p i _ H Hn) as Rn. pose proof (src_range s p i _ H Hm) as Rm.
  pose proof (width_pos i). pose proof (width_cases i) as HN. fold (holds p (fad_get_cond (flags i))) in E. cbv zeta in E.
  assert (forall z, in_u (width i) (wrap (width i) z)) as Rw by (intros; apply wrap_range; lia).
  assert (forall x v, is_val (TInt (width i)) x v -> exists v', CreateBinOp Add v (getIntN (wbits (is_w32 i)) 1) = Some v' /\ is_val (TInt (width i)) (wrap (width i) (x + 1)) v') as HA.
  { intros x v Hv. eapply (evals_binop Add); [exact Hv|by apply (is_val_small (width i)), (amount_ok _ HN); lia|done]. }
  assert (forall x v, in_u (width i) x -> is_val (TInt (width i)) x v -> exists v', CreateNot v = Some v' /\ is_val (TInt (width i)) (wrap (width i) (Z.lnot x)) v') as HI.
  { intros x v Hx Hv. replace (Z.lnot x) with (- x - 1) by (unfold Z.lnot; lia). apply evals_not; [lia|done|done]. }
  assert (forall x v, is_val (TInt (width i)) x v -> exists v', CreateNeg v = Some v' /\ is_val (TInt (width i)) (wrap (width i) (- x)) v') as HG by apply evals_neg.
  destruct (op i) eqn:Eo; try done; injection E as <-; (eexists; split; [reflexivity|]); case_of Eo.
  1: by eapply wp_csel; eauto.
  1,4,7: eapply wp_csel; eauto; intros v w Hv Hw;
         first [destruct (HA _ w Hw) as (v' & -> & ?) | destruct (HI _ w Rm Hw) as (v' & -> & ?) | destruct (HG _ w Hw) as (v' & -> & ?)];
         by eexists _, _.
  1,3,5: eapply wp_cinc; eauto; intros v Hv; first [apply HA | apply HI | apply HG]; done.
  all: apply wp_brk; apply wp_bind; (eapply wp_IsTrue; [exact H|apply cond_range|]); intros vc Hvc.
  - ev; [apply (evals_ext false 1 (width i) (Z.b2z (holds p (fad_get_cond (flags i))))); [lia|by destruct (holds _ _)|exact Hvc]|].
    eapply wp_setgp; [exact H|done|eassumption| |by destruct (holds _ _)]. rewrite <- width_wbits. destruct (holds _ _); apply (amount_ok _ HN); cbn; lia.
  - ev; [eapply (evals_select (TInt (width i))); [exact Hvc|apply is_val_intN|apply is_val_intN]|].
    assert (wrap (width i) (-1) = 2 ^ width i - 1 /\ wrap (width i) 0 = 0) as [E1 E0] by (by destruct HN as [->| ->]). pose proof (Rw (-1)) as R1. pose proof (Rw 0) as R0. change (wbits (is_w32 i)) with (width i) in *. rewrite E1, E0 in *.
    eapply wp_setgp; [exact H|done|eassumption| |by destruct (holds _ _)]. by destruct (holds _ _).
Qed.

(** ** The other groups *)

Lemma wp_exec_addsub s p i start len p' :
  refines s p -> wf_reg (rd i) -> wf_reg (rn i) -> wf_reg (rm i) -> (forall sub k, addsub_of (op i) = Some (sub, k) -> ext_exact i k) ->
  exec_addsub i len p = Some p' -> exists q, p' = next len p q /\ wp (lift i start len) s (to q).
Proof.
  intros H Hd Hn Hm Hx E. unfold exec_addsub in E. destruct (addsub_of (op i)) as [[sub k]|] eqn:Ea; [|done]. cbn [mbind option_bind] in E.
  destruct (operand2 i p k) as [y|] eqn:Ey; [|done]. cbn [mbind option_bind] in E.
  assert (lift i start len = brk (LiftBinOp cfg i (addsub_op sub) (kind_of k) false)) as ->.
  { unfold addsub_of in Ea. destruct (op i) eqn:Eo; try done; injection Ea as <- <-; case_of Eo; reflexivity. }
  destruct (add_or_sub (width i) sub (src i p (rn i)) y sub) as [r f] eqn:Er. injection E as <-. eexists. split; [reflexivity|].
  apply wp_brk. eapply wp_LiftBinOp_addsub; [exact H|done|done|done|exact Ey|by eapply Hx|]. by rewrite Er.
Qed.

Lemma wp_exec_logic s p i start len p' :
  refines s p -> wf_reg (rd i) -> wf_reg (rn i) -> wf_reg (rm i) -> exec_logic i len p = Some p' ->
  exists q, p' = next len p q /\ wp (lift i start len) s (to q).
Proof.
  intros H Hd Hn Hm E. unfold exec_logic in E. destruct (logic_of (op i)) as [[[f inv] k]|] eqn:Ea; [|done]. cbn [mbind option_bind] in E.
  destruct (operand2 i p k) as [y|] eqn:Ey; [|done]. cbn [mbind option_bind] in E.
  destruct (has_flag (flags i) SET_FLAGS && negb (sets_logic (op i))) eqn:Es; [done|]. injection E as <-. eexists. split; [reflexivity|].
  assert (exists o, lift i start len = brk (LiftBinOp cfg i o (kind_of k) inv) /\ logic_op o = Some f /\ (sets_logic (op i) = true -> o = And) /\ ext_exact i k)
    as (o & -> & Ho & Hs & Hx).
  { unfold logic_of in Ea. destruct (op i) eqn:Eo; try done; injection Ea as <- <- <-; case_of Eo; (eexists; split; [reflexivity|]); split; [done|done|done|done..]. }
  apply wp_brk. eapply wp_LiftBinOp_logic; [exact H|done|done|done|exact Ey|exact Hx|exact Ho| |done].
  intros F. apply Hs. by rewrite F in Es; apply negb_false_iff in Es.
Qed.

Definition carry_sub (o : Op) : option bool := match o with A64_ADC => Some false | A64_SBC | A64_NGC => Some true | _ => None end.

Lemma wp_exec_carry s p i start len p' :
  refines s p -> wf_reg (rd i) -> wf_reg (rn i) -> wf_reg (rm i) -> (forall sub, carry_sub (op i) = Some sub -> carry_exact i p sub) ->
  exec_carry i len p = Some p' -> exists q, p' = next len p q /\ wp (lift i start len) s (to q).
Proof.
  intros H Hd Hn Hm Hx E. unfold exec_carry in E. fold (carry_sub (op i)) in E. destruct (carry_sub (op i)) as [sub|] eqn:Ea; [|done]. cbn [mbind option_bind] in E.
  assert (lift i start len = lift_carry cfg i (negb sub)) as -> by (unfold carry_sub in Ea; destruct (op i) eqn:Eo; try done; injection Ea as <-; case_of Eo; reflexivity).
  pose proof (wp_carry cfg TP cpu0 ret0 s p i sub H Hd Hn Hm (Hx sub eq_refl)) as W.
  destruct (add_or_sub (width i) sub (src i p (rn i)) (src i p (rm i)) (fC (pf p))) as [r f]. injection E as <-. by eexists.
Qed.

Lemma wp_exec_ccmp s p i start len p' :
  refines s p -> wf_reg (rn i) -> wf_reg (rm i) -> exec_ccmp i len p = Some p' ->
  exists q, p' = next len p q /\ wp (lift i start len) s (to q).
Proof.
  intros H Hn Hm E. unfold exec_ccmp in E.
  destruct (operand i) as [| | | | | |nzcv imm5| | | | | | | | | | | | |] eqn:Ho; try (by destruct (op i)).
  destruct (op i) eqn:Eo; try done; injection E as <-; (eexists; split; [reflexivity|]); case_of Eo;
    first [exact (wp_ccmp fp cfg TP cpu0 ret0 s p i false false nzcv imm5 H Hn Hm Ho) | exact (wp_ccmp fp cfg TP cpu0 ret0 s p i true false nzcv imm5 H Hn Hm Ho)
          | exact (wp_ccmp fp cfg TP cpu0 ret0 s p i false true nzcv imm5 H Hn Hm Ho) | exact (wp_ccmp fp cfg TP cpu0 ret0 s p i true true nzcv imm5 H Hn Hm Ho)].
Qed.

Lemma wp_exec_mul s p i start len p' :
  refines s p -> wf_inst i -> exec_mul i len p = Some p' -> exists q, p' = next len p q /\ wp (lift i start len) s (to q).
Proof.
  intros H [_ Hd Hn Hm Hu] E. unfold exec_mul in E. destruct (operand i) as [| |ra| | | | | | | | | | | | | | | | |] eqn:Ho; try done.
  assert (wf_reg ra) as Ha by (left; unfold in_u in Hu; cbn in Hu; unfold in_u in Hu; lia).
  destruct (op i) eqn:Eo; try done; injection E as <-; (eexists; split; [reflexivity|]); case_of Eo.
  all: try (eapply (wp_madd TP cpu0 ret0 s p i false ra); done); try (eapply (wp_madd TP cpu0 ret0 s p i true ra); done).
  all: try (eapply (wp_mull TP cpu0 ret0 s p i true false ra); done); try (eapply (wp_mull TP cpu0 ret0 s p i true true ra); done).
  all: try (eapply (wp_mull TP cpu0 ret0 s p i false false ra); done); try (eapply (wp_mull TP cpu0 ret0 s p i false true ra); done).
  all: try (eapply (wp_mulh TP cpu0 ret0 s p i true); done).
  pose proof (wp_mulh TP cpu0 ret0 s p i false H Hd Hn Hm) as W. cbv beta zeta iota in W. rewrite wrap_small in W; [exact W|].
  pose proof (rX_range _ _ _ _ _ _ H Hn). pose proof (rX_range _ _ _ _ _ _ H Hm). unfold in_u in *. split; [apply Z.div_pos; nia|]. apply Z.div_lt_upper_bound; nia.
Qed.
End Data.
