(* ===== verification/RellumeA64Mem.v ===== *)
(** * Branches, system instructions, memory and moves of vector registers

    The cases of the AArch64 lifter that change the program counter, memory, the
    thread pointer or a vector register, against [A64Sem]. *)

From Stdlib Require Import ZArith Lia.
From stdpp Require Import base numbers list option gmap.
From S2P Require Import Prelude Machine Farmdec FarmdecProofs FarmdecWf Rellume RellumeProofs RellumeA64 A64Sem RellumeA64Proofs RellumeA64Alu RellumeA64Refine RellumeA64Data.

Lemma evals_gep p off vp vo : is_val TPtr p vp -> is_val (TInt 64) off vo -> evals (CreateGEP vp vo) TPtr (u64 (p + off)).
Proof. intros [Tp Ep] [To Eo]. unfold CreateGEP. rewrite decide_True by done. eapply evals_mk. by rewrite Ep, Eo. Qed.

Lemma evals_elem_gep t p off vp vo : is_val TPtr p vp -> is_val (TInt 64) off vo -> evals (CreateElemGEP t vp vo) TPtr (u64 (p + ty_bits t / 8 * off)).
Proof. intros [Tp Ep] [To Eo]. unfold CreateElemGEP. rewrite decide_True by done. eapply evals_mk. by rewrite Ep, Eo. Qed.

Lemma evals_pointer_cast p vp : is_val TPtr p vp -> evals (CreatePointerCast vp) TPtr p.
Proof. intros [Tp Ep]. unfold CreatePointerCast. rewrite decide_True by done. by exists vp. Qed.

Lemma evals_inttoptr x v : is_val (TInt 64) x v -> evals (CreateCast IntToPtr v TPtr) TPtr x.
Proof. intros [Tv Ev]. unfold CreateCast. rewrite Tv, decide_False by done. eapply evals_mk. by rewrite Ev. Qed.

(** Writing one register does not change what another reads. *)
Lemma rX_wX_ne p r r' v : wf_reg r -> wf_reg r' -> r <> r' -> rX (wX p r' v) r = rX p r.
Proof.
  unfold wf_reg, rX, wX, reg_no, ZERO_REG, STACK_POINTER. intros Hr Hr' Hne. destruct (Z.eqb_spec r' 31); [done|]. destruct (Z.eqb_spec r 31); [done|]. cbn [px].
  destruct (Z.eqb_spec r 100), (Z.eqb_spec r' 100); try lia; rewrite (proj2 (Z.eqb_neq _ _)) by lia; done.
Qed.

Lemma rX_wX_eq p r v : r <> ZERO_REG -> rX (wX p r v) r = v.
Proof. intros Hz. unfold rX, wX. rewrite (proj2 (Z.eqb_neq _ _) Hz). cbn [px]. by rewrite Z.eqb_refl. Qed.

Lemma wX_mem p r v : pmem (wX p r v) = pmem p.
Proof. unfold wX. by destruct (r =? ZERO_REG). Qed.

Lemma wX_pv p r v : pv (wX p r v) = pv p.
Proof. unfold wX. by destruct (r =? ZERO_REG). Qed.

Lemma wX_pc p r v : ppc (wX p r v) = ppc p.
Proof. unfold wX. by destruct (r =? ZERO_REG). Qed.

(** A lifter without hooks: calls and returns are jumps. *)
Record plain (cfg : LLConfig) (fi : FunctionInfo) : Prop := mk_plain {
  plain_call : call_function cfg = None;
  plain_flags : call_ret_clobber_flags cfg = false;
  plain_marker : instr_marker cfg = None;
  plain_base : is_val (TInt 64) (u64 (pc_base_addr fi)) (pc_base_value fi) }.

Section Mem.
Context (fp : FpSem) (fi : FunctionInfo) (cfg : LLConfig) (TP : nat) (undef : Ty -> Z) (LiftSIMD : Inst -> L bool) (cpu0 : Cpu) (ret0 : bool)
  (Hcfg : plain cfg fi) (HTP : (TP < length cpu0)%nat).
Let refines := arefines TP cpu0 ret0.
Let to := brk_to TP cpu0 ret0.

Abbreviation lift i start len := (lift_op fp fi cfg TP undef LiftSIMD (mkAInst i start len)).
Ltac case_of Eo := unfold lift_op, lift_imm, lift_branch, lift_system, lift_reg, lift_mem, lift_fp; cbn [i_a64]; rewrite Eo; cbn iota.

(** ** Branches *)

Definition return_to (p : Pe) (n : Next) (s : LState) : Prop := n = Return true /\ refines s p.

Lemma wp_branch_if s p (c : bool) vc off len :
  refines s p -> is_val (TInt 1) (Z.b2z c) vc -> wp (branch_if vc off len) s (return_to (jump_if len p c off)).
Proof.
  intros H Hc. apply wp_bind. eapply wp_PCRel; [exact H|]. intros v1 H1. apply wp_bind. eapply wp_PCRel; [exact H|]. intros v2 H2.
  ev; [eapply evals_select; [exact Hc|exact H1|exact H2]|]. apply wp_bind. eapply wp_set_aip; [exact H|eassumption| |].
  - destruct c; apply wrap_range; lia.
  - intros s' Hs. apply wp_ret. split; [done|]. by destruct c.
Qed.

Lemma wp_jump s p r : refines s p -> wf_reg r -> wp (t ← GetGp r false false; set_reg RIP FI64 t;; mret (Return true)) s (return_to (wPC p (rX p r))).
Proof.
  intros H Hr. apply wp_bind. eapply wp_gp64; [exact H|done|]. intros v s1 K1 Hv. apply wp_bind. eapply wp_set_aip; [exact K1|exact Hv|by eapply rX_range|].
  intros s2 K2. by apply wp_ret.
Qed.

Lemma pc_plus p start k : ppc p = u64 start -> u64 (start + k) = u64 (ppc p + k).
Proof. intros ->. by rewrite wrap_add_l. Qed.

Lemma wp_setip s p start k (Q : unit -> LState -> Prop) :
  refines s p -> (forall s', refines s' (wPC p (u64 (start + k))) -> Q tt s') -> wp (SetIP fi (start + k) false) s Q.
Proof. intros H HQ. eapply wp_ASetIP; [exact H|right; apply Hcfg|exact HQ]. Qed.

(** Compare and branch, test and branch. *)
Definition eq_pred (eq : bool) : Pred := if eq then ICMP_EQ else ICMP_NE.

Lemma wp_compare s p i (eq : bool) off len :
  refines s p -> wf_reg (rd i) ->
  wp (x ← GetGp (rd i) (is_w32 i) false; c ← pure (CreateICmp (eq_pred eq) x (getIntN (wbits (is_w32 i)) 0)); branch_if c off len) s
    (return_to (jump_if len p (Bool.eqb eq (src i p (rd i) =? 0)) off)).
Proof.
  intros H Hd. apply wp_bind. eapply wp_gp; [exact H|done|]. intros v s1 K1 Hv. ev; [eapply (evals_icmp (eq_pred eq)); [exact Hv|apply is_val_intN]|].
  change (wbits (is_w32 i)) with (width i) in *. fold (src i p (rd i)) in *. assert (wrap (width i) 0 = 0) as E0 by (by destruct (width_cases i) as [->| ->]). rewrite E0 in *.
  eapply wp_branch_if; [exact K1|]. destruct eq, (src i p (rd i) =? 0) eqn:F; cbn in *; by rewrite F in *.
Qed.

Lemma test_bit N x b : N = 32 \/ N = 64 -> 0 <= b < N -> (Z.land x (wrap N (u64 (Z.shiftl 1 b))) =? 0) = negb (Z.testbit x b).
Proof.
  intros HN Hb. rewrite Z.shiftl_mul_pow2, Z.mul_1_l by lia. pose proof (Z.pow_lt_mono_r 2 b N). pose proof (Z.pow_le_mono_r 2 N 64). pose proof (Z.pow_pos_nonneg 2 b).
  rewrite (wrap_small 64), (wrap_small N) by (unfold in_u; lia). rewrite <- nzcv_bit by lia. by rewrite negb_involutive.
Qed.

Lemma wp_test s p i (eq : bool) off b len :
  refines s p -> wf_reg (rd i) -> 0 <= b < width i ->
  wp (if negb (b <? wbits (is_w32 i)) then pure None
      else x ← GetGp (rd i) (is_w32 i) false; bit ← pure (CreateBinOp And x (getIntN (wbits (is_w32 i)) (u64 (Z.shiftl 1 b))));
           c ← pure (CreateICmp (eq_pred eq) bit (getIntN (wbits (is_w32 i)) 0)); branch_if c off len) s
    (return_to (jump_if len p (if eq then negb (Z.testbit (src i p (rd i)) b) else Z.testbit (src i p (rd i)) b) off)).
Proof.
  intros H Hd Hb. change (wbits (is_w32 i)) with (width i). rewrite (proj2 (Z.ltb_lt _ _)) by lia. cbn [negb].
  apply wp_bind. eapply wp_gp; [exact H|done|]. intros v s1 K1 Hv. change (wbits (is_w32 i)) with (width i) in *. fold (src i p (rd i)) in *.
  ev; [eapply (evals_binop And); [exact Hv|apply is_val_intN|reflexivity]|]. ev; [eapply (evals_icmp (eq_pred eq)); [eassumption|apply is_val_intN]|].
  assert (wrap (width i) 0 = 0) as E0 by (by destruct (width_cases i) as [->| ->]). rewrite E0 in *. pose proof (test_bit (width i) (src i p (rd i)) b (width_cases i) Hb) as T.
  eapply wp_branch_if; [exact K1|]. destruct eq; cbn [eq_pred icmp_sem] in *; rewrite T, ?negb_involutive in *; done.
Qed.

Lemma wp_exec_branch s p i start len p' :
  refines s p -> ppc p = u64 start -> wf_inst i -> (op i = A64_BLR -> rn i <> 30) -> exec_branch i len p = Some p' ->
  wp (lift i start len) s (return_to p').
Proof.
  intros H Hpc [_ Hd Hn Hm Hu] Hblr E. unfold exec_branch in E. pose proof (width_pos i) as HW. pose proof (width_cases i) as HN.
  assert (wf_reg 30) as W30 by (left; lia). pose proof (src_range _ _ _ s p i _ H Hd) as Rd.
  destruct (op i) eqn:Eo; try done; try (injection E as <-).
  all: try (revert E; destruct (operand i) as [|off| | | | | | | |off b| | | | | | | | | |] eqn:Ho; intros E; try done; try (injection E as <-)); case_of Eo; rewrite ?Ho; cbn [offset_of tbz_of i_len i_start].
  - apply wp_bind. eapply wp_pure; [reflexivity|]. apply wp_bind. eapply wp_IsTrue; [exact H|apply cond_range|]. intros vc Hvc. by apply wp_branch_if.
  - by apply wp_jump.
  - unfold lift_call. cbn [i_a64 i_len i_start]. rewrite Eo, (plain_call _ _ Hcfg). unfold clobber_flags. rewrite (plain_flags _ _ Hcfg).
    apply wp_bind, wp_ret, wp_bind. eapply wp_PCRel; [exact H|]. intros vr Hvr. apply wp_bind.
    eapply wp_setgp; [exact H|done|exact Hvr|apply wrap_range; cbn; lia|]. intros s1 K1. apply wp_bind, wp_bind.
    eapply wp_gp64; [exact K1|done|]. intros vt s2 K2 Hvt. rewrite (rX_wX_ne p (rn i) 30) in Hvt by (by try apply Hblr).
    eapply wp_set_aip; [exact K2|exact Hvt|by eapply rX_range|]. intros s3 K3. apply wp_bind, wp_ret, wp_ret. done.
  - unfold clobber_flags. rewrite (plain_flags _ _ Hcfg), (plain_call _ _ Hcfg). apply wp_bind, wp_ret, wp_bind.
    eapply wp_gp64; [exact H|done|]. intros v s1 K1 Hv. apply wp_bind. eapply wp_set_aip; [exact K1|exact Hv|by eapply rX_range|].
    intros s2 K2. apply wp_bind, wp_ret, wp_ret. done.
  - apply wp_bind. eapply wp_pure; [reflexivity|]. apply wp_bind. eapply wp_setip; [exact H|]. intros s1 K1. apply wp_ret. split; [done|].
    by rewrite <- (pc_plus p start).
  - unfold lift_call. cbn [i_a64 i_len i_start]. rewrite Eo, Ho, (plain_call _ _ Hcfg). unfold clobber_flags. rewrite (plain_flags _ _ Hcfg).
    apply wp_bind, wp_ret, wp_bind. eapply wp_PCRel; [exact H|]. intros vr Hvr. apply wp_bind.
    eapply wp_setgp; [exact H|done|exact Hvr|apply wrap_range; cbn; lia|]. intros s1 K1. apply wp_bind, wp_bind. eapply wp_pure; [reflexivity|].
    eapply wp_setip; [exact K1|]. intros s2 K2. apply wp_bind, wp_ret, wp_ret. split; [done|]. by rewrite <- (pc_plus p start off).
  - apply wp_bind. eapply wp_pure; [reflexivity|]. pose proof (wp_compare s p i true off len H Hd) as W. by destruct (src i p (rd i) =? 0).
  - apply wp_bind. eapply wp_pure; [reflexivity|]. pose proof (wp_compare s p i false off len H Hd) as W. by destruct (src i p (rd i) =? 0).
  - destruct ((0 <=? b) && (b <? width i)) eqn:G; [|done]. apply andb_true_iff in G as [G1%Z.leb_le G2%Z.ltb_lt]. injection E as <-.
    apply wp_bind. eapply wp_pure; [reflexivity|]. by apply (wp_test s p i true).
  - destruct ((0 <=? b) && (b <? width i)) eqn:G; [|done]. apply andb_true_iff in G as [G1%Z.leb_le G2%Z.ltb_lt]. injection E as <-.
    apply wp_bind. eapply wp_pure; [reflexivity|]. by apply (wp_test s p i false).
Qed.

(** ** System instructions *)

Lemma evals_bit_of x v k : in_u 64 x -> 0 <= k < 64 -> is_val (TInt 64) x v -> evals (bit_of v k) (TInt 1) (Z.b2z (Z.testbit x k)).
Proof.
  intros Hx Hk Hv. eapply evals_bind.
  - eapply (evals_binop LShr 64 _ k (Z.shiftr x k)); [exact Hv|split; [done|apply wrap_small; unfold in_u; lia]|]. cbn. by rewrite (proj2 (Z.leb_gt 64 k)) by lia.
  - intros v1 H1. eapply evals_eq; [apply (evals_trunc 64 1 (Z.shiftr x k)); [lia| |done]|].
    + rewrite Z.shiftr_div_pow2 by lia. unfold in_u in *. split; [apply Z.div_pos; lia|]. apply Z.div_lt_upper_bound; [lia|]. pose proof (Z.pow_pos_nonneg 2 k). nia.
    + unfold wrap. rewrite <- (Z.shiftr_spec x k 0) at 1 by lia. by rewrite Z.bit0_mod.
Qed.

Lemma wp_or_flag s p f b x v k (Q : Value -> LState -> Prop) :
  refines s p -> flag_of (pf p) f = Some b -> is_val (TInt 64) x v -> 0 <= k < 64 ->
  (forall v', is_val (TInt 64) (Z.lor x (wrap 64 (Z.shiftl (Z.b2z b) k))) v' -> Q v' s) -> wp (or_flag v f k) s Q.
Proof.
  intros H Hf Hv Hk HQ. apply wp_bind. eapply wp_getflag; [exact H|exact Hf|]. intros vf Hvf. ev; [apply (evals_ext false 1 64 (Z.b2z b)); [lia|by destruct b|done]|].
  ev; [eapply (evals_binop Shl 64 (Z.b2z b) k (wrap 64 (Z.shiftl (Z.b2z b) k))); [eassumption|split; [done|apply wrap_small; unfold in_u; lia]|]|].
  { cbn. by rewrite (proj2 (Z.leb_gt 64 k)) by lia. }
  eapply wp_evals; [eapply (evals_binop Or); [exact Hv|eassumption|reflexivity]|exact HQ].
Qed.

Lemma wp_mrs s p i v len p' :
  refines s p -> wf_reg (rd i) -> (if v =? 0xde82 then Some (next len p (wX p (rd i) (ptp p)))
      else if v =? 0xda10 then Some (next len p (wX p (rd i) (nzcv_of (pf p)))) else None) = Some p' ->
  exists q, p' = next len p q /\ wp (lift_mrs TP i v) s (to q).
Proof.
  intros H Hd E. destruct (Z.eqb_spec v 0xde82) as [->|].
  - injection E as <-. eexists. split; [reflexivity|]. apply wp_brk. apply wp_bind. eapply wp_load_tp; [done|exact H|]. intros vt Hvt.
    eapply wp_setgp; [exact H|done|exact Hvt|apply (ar_tp _ _ _ _ _ H)|done].
  - destruct (Z.eqb_spec v 0xda10) as [->|]; [|done]. injection E as <-. eexists. split; [reflexivity|]. apply wp_brk.
    apply wp_bind. eapply (wp_or_flag _ _ FSF); [exact H|reflexivity|apply is_val_intN|lia|]. intros v1 H1.
    apply wp_bind. eapply (wp_or_flag _ _ FZF); [exact H|reflexivity|exact H1|lia|]. intros v2 H2.
    apply wp_bind. eapply (wp_or_flag _ _ FCF); [exact H|reflexivity|exact H2|lia|]. intros v3 H3.
    apply wp_bind. eapply (wp_or_flag _ _ FOF); [exact H|reflexivity|exact H3|lia|]. intros v4 H4.
    eapply (wp_setgp _ _ _ _ _ _ _ _ (nzcv_of (pf p))); [exact H|done| | |done].
    + destruct (pf p) as [fn fz fc fv]. cbn in H4 |- *. destruct fn, fz, fc, fv; exact H4.
    + destruct (pf p) as [fn fz fc fv]. destruct fn, fz, fc, fv; by vm_compute.
Qed.

Lemma wp_msr s p i v len p' :
  refines s p -> wf_reg (rd i) ->
  (let x := rX p (rd i) in
   if v =? 0xde82 then Some (next len p (wTP p x))
   else if v =? 0xda10 then Some (next len p (wF p (mkFlags (Z.testbit x 31) (Z.testbit x 30) (Z.testbit x 29) (Z.testbit x 28)))) else None) = Some p' ->
  exists q, p' = next len p q /\ wp (lift_msr TP i v) s (to q).
Proof.
  intros H Hd E. cbv zeta in E. pose proof (rX_range _ _ _ _ _ _ H Hd) as Rx. destruct (Z.eqb_spec v 0xde82) as [->|].
  - injection E as <-. eexists. split; [reflexivity|]. apply wp_brk. apply wp_bind. eapply wp_gp64; [exact H|done|]. intros vt s1 K1 Hvt.
    eapply wp_store_tp; [done|exact K1|exact Hvt|exact Rx|done].
  - destruct (Z.eqb_spec v 0xda10) as [->|]; [|done]. injection E as <-. eexists. split; [reflexivity|]. apply wp_brk.
    apply wp_bind. eapply wp_gp64; [exact H|done|]. intros vx s1 K1 Hvx.
    ev; [by apply (evals_bit_of (rX p (rd i)))|]. apply wp_bind. eapply wp_setflag; [exact K1|rewrite !elem_of_cons; tauto|eassumption|]. intros s2 K2.
    ev; [by apply (evals_bit_of (rX p (rd i)))|]. apply wp_bind. eapply wp_setflag; [exact K2|rewrite !elem_of_cons; tauto|eassumption|]. intros s3 K3.
    ev; [by apply (evals_bit_of (rX p (rd i)))|]. apply wp_bind. eapply wp_setflag; [exact K3|rewrite !elem_of_cons; tauto|eassumption|]. intros s4 K4.
    ev; [by apply (evals_bit_of (rX p (rd i)))|]. eapply wp_setflag; [exact K4|rewrite !elem_of_cons; tauto|eassumption|]. done.
Qed.

(** Clearing the low bits of an address. *)
Lemma land_align k x : 0 <= k < 64 -> in_u 64 x -> Z.land x (u64 (Z.lnot (Z.ones k))) = x - x `mod` 2 ^ k.
Proof.
  intros Hk Hx. transitivity (Z.ldiff x (Z.ones k)).
  - apply bits_eq. intros j Hj. rewrite Z.land_spec, Z.ldiff_spec, testbit_wrap, Z.lnot_spec by lia.
    destruct (Z.ltb_spec j 64); [by rewrite andb_true_r|]. by rewrite (bits_above 64 x) by done.
  - rewrite Z.ldiff_ones_r, Z.shiftl_mul_pow2, Z.shiftr_div_pow2 by lia. pose proof (Z.div_mod x (2 ^ k)). pose proof (Z.pow_pos_nonneg 2 k). lia.
Qed.

Lemma wp_exec_system s p i start len p' :
  refines s p -> wf_reg (rd i) -> exec_system i len p = Some p' -> exists q, p' = next len p q /\ wp (lift i start len) s (to q).
Proof.
  intros H Hd E. unfold exec_system in E. pose proof (rX_range _ _ _ _ _ _ H Hd) as Rx. pose proof (ar_pcr _ _ _ _ _ H) as Rpc.
  destruct (op i) eqn:Eo; try done; try (injection E as <-).
  all: try (revert E; destruct (operand i) as [v|off| | | | | |op1 op2 crn crm| | | | | | | | | | | |] eqn:Ho; intros E; try done; try (injection E as <-)).
  all: case_of Eo; rewrite ?Ho; cbn [offset_of sys_of imm_of].
  - eexists. split; [reflexivity|]. apply wp_brk. apply wp_bind. eapply wp_pure; [reflexivity|]. apply wp_bind. eapply wp_PCRel; [exact H|]. intros v Hv.
    eapply wp_setgp; [exact H|done|exact Hv|apply wrap_range; cbn; lia|done].
  - eexists. split; [reflexivity|]. apply wp_brk. apply wp_bind. eapply wp_pure; [reflexivity|]. apply wp_bind. eapply wp_get_aip; [exact H|]. intros v Hv.
    ev; [eapply (evals_binop And); [exact Hv|apply is_val_intN|reflexivity]|]. change 4095 with (Z.ones 12) in *. rewrite land_align in * by (lia || done).
    ev; [eapply (evals_binop Add); [eassumption|apply is_val_intN|reflexivity]|]. rewrite wrap_add_r in *.
    eapply wp_setgp; [exact H|done|eassumption|apply wrap_range; cbn; lia|done].
  - eexists. split; [reflexivity|]. by apply wp_ret.
  - destruct ((0 <? v) && (v <? 16) && negb (v `mod` 4 =? 0)) eqn:G; [|done]. injection E as <-. eexists. split; [reflexivity|].
    apply wp_bind. eapply wp_pure; [reflexivity|]. rewrite !andb_true_iff, negb_true_iff, !Z.ltb_lt, Z.eqb_neq in G.
    change 3 with (Z.ones 2). rewrite Z.land_ones by lia. rewrite (proj2 (Z.leb_le 1 v)), (proj2 (Z.leb_le v 15)) by lia. change (2 ^ 2) with 4.
    rewrite (proj2 (Z.eqb_neq (v `mod` 4) 0)) by tauto. by apply wp_ret.
  - eexists. split; [reflexivity|]. apply wp_brk. apply wp_bind. eapply wp_getflag; [exact H|reflexivity|]. intros vc Hvc.
    ev; [by apply evals_not1|]. eapply wp_setflag; [exact H|rewrite !elem_of_cons; tauto|eassumption|done].
  - assert (op1 = 3 /\ op2 = 1 /\ crn = 7 /\ crm = 4) as (-> & -> & -> & ->) by (repeat case_match; done). injection E as <-. eexists. split; [reflexivity|].
    apply wp_bind. eapply wp_pure; [reflexivity|]. apply wp_brk. apply wp_bind. eapply wp_gp64; [exact H|done|]. intros v s1 K1 Hv.
    ev; [eapply (evals_binop And); [exact Hv|apply is_val_intN|reflexivity]|]. change 63 with (Z.ones 6) in *. rewrite land_align in * by (lia || done).
    ev; [by apply evals_inttoptr|]. eapply (wp_astore _ _ _ _ _ (TInt 512)); [exact K1|eassumption|done|done].
  - apply wp_msr; [done|done|exact E].
  - apply wp_mrs; [done|done|exact E].
Qed.

(** ** Addresses *)

(** The type of an access of [2 ^ log] bytes. *)
Definition mem_ty (t : Ty) (log : Z) : Prop := 0 <= log /\ ty_bits t = 8 * 2 ^ log /\ (t = TInt 8 <-> log = 0).

Lemma mem_ty_bytes t log : mem_ty t log -> ty_bits t / 8 = 2 ^ log.
Proof. intros (_ & -> & _). rewrite Z.mul_comm. apply Z.div_mul. lia. Qed.

Lemma wp_base_ptr s p r (Q : Value -> LState -> Prop) :
  refines s p -> wf_reg r -> r <> ZERO_REG -> (forall v s', refines s' p -> is_val TPtr (rX p r) v -> Q v s') -> wp (GetGp r false true) s Q.
Proof. apply wp_GetGp_ptr. Qed.

Lemma wp_addr_simple s p r (Q : Value -> LState -> Prop) :
  refines s p -> wf_reg r -> r <> ZERO_REG -> (forall v s', refines s' p -> is_val TPtr (rX p r) v -> Q v s') -> wp (addr_simple r) s Q.
Proof.
  intros H Hr Hz HQ. apply wp_bind. eapply wp_base_ptr; [exact H|done|done|]. intros v s' Hs Hv. eapply wp_evals; [by apply evals_pointer_cast|]. auto.
Qed.

Lemma wp_addr_index s p t log r x v lsl (Q : Value -> LState -> Prop) :
  refines s p -> wf_reg r -> r <> ZERO_REG -> mem_ty t log -> is_val (TInt 64) (u64 x) v -> (lsl = 0 \/ lsl = log) ->
  (forall v s', refines s' p -> is_val TPtr (u64 (rX p r + x * 2 ^ lsl)) v -> Q v s') -> wp (addr_index t r v lsl) s Q.
Proof.
  intros H Hr Hz Ht Hv Hl HQ. pose proof (mem_ty_bytes t log Ht) as Hb. destruct Ht as (Hlog & _ & Ht8). unfold addr_index.
  destruct ((lsl =? 0) && negb (bool_decide (t = TInt 8))) eqn:G.
  - apply andb_true_iff in G as [->%Z.eqb_eq _]. apply wp_bind. eapply wp_gp64; [exact H|done|]. intros vb s1 K1 Hvb.
    ev; [eapply (evals_binop Add); [exact Hvb|exact Hv|reflexivity]|]. rewrite wrap_add_r in *. eapply wp_evals; [by apply evals_inttoptr|].
    intros vp Hvp. apply HQ; [done|]. by rewrite Z.pow_0_r, Z.mul_1_r.
  - assert (lsl = log) as ->.
    { destruct Hl as [->|]; [|done]. cbn in G. apply negb_false_iff, bool_decide_eq_true in G. symmetry. by apply Ht8. }
    apply wp_bind. eapply wp_base_ptr; [exact H|done|done|]. intros vp s1 K1 Hvp. ev; [by apply evals_pointer_cast|].
    eapply wp_evals; [by eapply (evals_elem_gep t)|]. intros va Hva. apply HQ; [done|]. rewrite Hb in Hva.
    rewrite <- wrap_add_r, <- wrap_mul_mod, wrap_wrap, wrap_mul_mod, wrap_add_r, (Z.mul_comm (2 ^ log)) in Hva by lia. exact Hva.
Qed.

Lemma wp_write_back s p i off (Q : unit -> LState -> Prop) :
  refines s p -> wf_reg (rn i) -> operand i = UOffset off -> (forall s', refines s' (wX p (rn i) (u64 (rX p (rn i) + off))) -> Q tt s') ->
  wp (write_back i) s Q.
Proof.
  intros H Hn Ho HQ. unfold write_back. rewrite Ho. apply wp_bind. eapply wp_pure; [reflexivity|]. apply wp_bind. eapply wp_gp64; [exact H|done|]. intros v s1 K1 Hv.
  ev; [eapply (evals_binop Add); [exact Hv|apply is_val_intN|reflexivity]|]. rewrite wrap_wrap, wrap_add_r in * by lia.
  eapply wp_setgp; [exact K1|done|eassumption|apply wrap_range; cbn; lia|done].
Qed.

(** A sign-extended 64-bit index has no lifted code. *)
Definition index_exact (i : Inst) : Prop := match fad_get_addrmode (flags i), operand i with 3, UExtend 7 _ => False | _, _ => True end.

Lemma wp_address s p i t log a w (Q : Value -> LState -> Prop) :
  refines s p -> wf_reg (rn i) -> wf_reg (rm i) -> rn i <> ZERO_REG -> mem_ty t log -> index_exact i -> address i p log = Some (a, w) ->
  (forall v s', refines s' (wback i w p) -> is_val TPtr a v -> Q v s') -> wp (Addr t i) s Q.
Proof.
  intros H Hn Hm Hz Ht Hx E HQ. unfold address, index_exact in *. unfold Addr. pose proof (rX_range _ _ _ _ _ _ H Hm) as Rm.
  assert (forall x lsl, (if (lsl =? 0) || (lsl =? log) then Some (u64 (rX p (rn i) + x * 2 ^ lsl), None) else None) = Some (a, w) ->
          (lsl = 0 \/ lsl = log) /\ a = u64 (rX p (rn i) + x * 2 ^ lsl) /\ w = None) as HI.
  { intros x lsl F. destruct ((lsl =? 0) || (lsl =? log)) eqn:G; [|done]. apply orb_true_iff in G as [G|G]; apply Z.eqb_eq in G; injection F as <- <-; auto. }
  assert (forall x v s' lsl, refines s' p -> is_val (TInt 64) (u64 x) v -> (lsl = 0 \/ lsl = log) -> a = u64 (rX p (rn i) + x * 2 ^ lsl) -> w = None ->
          wp (addr_index t (rn i) v lsl) s' Q) as HJ.
  { intros x v s' lsl Hs Hv Hl -> ->. by eapply wp_addr_index. }
  destruct (fad_get_addrmode (flags i)) as [|[[[]|[]|]|[[]|[]|]|]|]; try done;
    destruct (operand i) as [| off| | | | | | | | |ty sh| |ty sh| |lo st rs| | | | |] eqn:Ho; try done; cbn [offset_of extend_of shift_of].
  - injection E as <- <-. by eapply wp_addr_simple.
  - injection E as <- <-. apply wp_bind. eapply wp_addr_simple; [exact H|done|done|]. intros v s1 K1 Hv. apply wp_bind.
    eapply wp_write_back; [exact K1|done|exact Ho|]. intros s2 K2. by apply wp_ret, HQ.
  - apply wp_bind. eapply wp_pure; [reflexivity|]. apply wp_bind. eapply wp_gp; [exact H|done|]. intros v s1 K1 Hv. cbn in Hv.
    destruct ty as [|[[[]|[]|]|[[]|[]|]|]|]; try done; apply HI in E as (Hl & Ha & Hw); apply wp_bind.
    + eapply wp_evals; [apply (evals_ext true 32 64 (u32 (rX p (rm i)))); [lia|apply wrap_range; lia|exact Hv]|]. intros vx Hvx. apply (HJ (s32 (rX p (rm i)))); auto.
      cbn in Hvx. rewrite swrap_wrap in Hvx by lia. exact Hvx.
    + eapply wp_evals; [apply (evals_ext false 32 64 (u32 (rX p (rm i)))); [lia|apply wrap_range; lia|exact Hv]|]. intros vx Hvx. apply (HJ (u32 (rX p (rm i)))); auto.
      rewrite wrap_small; [exact Hvx|]. apply (in_u_le 32); [lia|]. apply wrap_range. lia.
  - injection E as <- <-. apply wp_bind. eapply wp_pure; [reflexivity|]. apply wp_bind. eapply wp_PCRel; [exact H|]. intros v Hv.
    eapply wp_evals; [by apply evals_inttoptr|]. auto.
  - injection E as <- <-. apply wp_bind. eapply wp_write_back; [exact H|done|exact Ho|]. intros s1 K1. eapply wp_addr_simple; [exact K1|done|done|].
    intros v s2 K2 Hv. rewrite rX_wX_eq in Hv by done. by apply HQ.
  - apply HI in E as (Hl & Ha & Hw). apply wp_bind. eapply wp_pure; [reflexivity|]. apply wp_bind. eapply wp_gp64; [exact H|done|]. intros v s1 K1 Hv.
    apply (HJ (rX p (rm i))); auto. by rewrite wrap_small.
  - injection E as <- <-. apply wp_bind. eapply wp_pure; [reflexivity|]. apply wp_bind. eapply wp_base_ptr; [exact H|done|done|]. intros v s1 K1 Hv.
    ev; [eapply evals_gep; [exact Hv|apply is_val_intN]|]. rewrite wrap_add_r in *. eapply wp_evals; [by apply evals_pointer_cast|]. auto.
Qed.

(** ** Loads and stores *)

(** The ordering of the access, and that it suits the access. *)
Definition order_of (i : Inst) : option Z :=
  if fad_get_addrmode (flags i) =? AM_SIMPLE then
    '(load, store, _) ← ldst_of (operand i); Some (if load =? MO_NONE then store else load)
  else Some MO_NONE.

Definition order_ok (suits : Z -> bool) (mo log a : Z) : Prop := mo = MO_NONE \/ suits mo = true /\ a `mod` 2 ^ log = 0.

Lemma order_of_ok i p (load : bool) log a w :
  address i p log = Some (a, w) -> access_ok i load log a = true ->
  exists mo, order_of i = Some mo /\ order_ok (if load then is_acquire else is_release) mo log a.
Proof.
  intros E Hok. unfold address, access_ok, order_of in *. change AM_SIMPLE with 0.
  destruct (fad_get_addrmode (flags i)) as [|q|q]; [| |done]; cbn [Z.eqb]; [|exists MO_NONE; split; [done|by left]].
  destruct (operand i) as [| | | | | | | | | | | | | |l st rs| | | | |]; try done. cbn [ldst_of mbind option_bind].
  apply andb_true_iff in Hok as [Ha Ho]. apply Z.eqb_eq in Ha. exists (if l =? MO_NONE then st else l). split; [done|]. unfold MO_NONE in *.
  destruct load; rewrite !andb_true_iff in Ho.
  - destruct Ho as [[H1%Z.leb_le H2%Z.ltb_lt] ->%Z.eqb_eq]. destruct (Z.eqb_spec l 0); [by left|]. right. split; [|done].
    assert (l = 1 \/ l = 2 \/ l = 3) as [->|[->| ->]] by lia; done.
  - destruct Ho as [->%Z.eqb_eq Hs]. rewrite !orb_true_iff, !Z.eqb_eq in Hs. cbn. destruct Hs as [[->| ->]| ->]; [by left|by right..].
Qed.

Lemma order_ok_second suits mo log a : 0 <= log <= 64 -> order_ok suits mo log a -> order_ok suits mo log (u64 (a + 2 ^ log)).
Proof.
  intros Hl [->|[Hs Ha]]; [by left|]. right. split; [done|]. unfold wrap.
  assert (2 ^ 64 = 2 ^ (64 - log) * 2 ^ log) as -> by (rewrite <- Z.pow_add_r by lia; f_equal; lia).
  pose proof (Z.pow_pos_nonneg 2 log). pose proof (Z.pow_pos_nonneg 2 (64 - log)).
  rewrite (Z.mul_comm (2 ^ (64 - log))), Z.rem_mul_r by lia.
  rewrite (Z.mul_comm (2 ^ log) (_ `mod` _)), Z.mod_add, Z.mod_mod by lia. replace (a + 2 ^ log) with (a + 1 * 2 ^ log) by lia. by rewrite Z.mod_add by lia.
Qed.

Lemma ordered_ok suits mo t log a v : mem_ty t log -> order_ok suits mo log a -> is_val TPtr a v -> ordered (suits mo) mo t v = Some tt.
Proof.
  intros Ht [->|[Hs Ha]] [_ Hv]; unfold ordered; [done|]. destruct (mo =? MO_NONE); [done|]. by rewrite Hs, Hv, (mem_ty_bytes t log Ht), Ha.
Qed.

Lemma wp_load_from s p t log a v mo (Q : Value -> LState -> Prop) :
  refines s p -> mem_ty t log -> order_ok is_acquire mo log a -> is_val TPtr a v ->
  (forall x, is_val t (loadZ (pmem p) (Z.to_nat (2 ^ log)) a) x -> Q x s) -> wp (load_from t v mo) s Q.
Proof.
  intros H Ht Ho Hv HQ. apply wp_bind. eapply wp_pure; [by eapply ordered_ok|]. eapply wp_aload; [exact H|exact Hv|]. by rewrite (mem_ty_bytes t log Ht).
Qed.

Lemma wp_store_to s p t log a x v vx mo (Q : unit -> LState -> Prop) :
  refines s p -> mem_ty t log -> order_ok is_release mo log a -> is_val TPtr a v -> is_val t x vx ->
  (forall s', refines s' (wM p (storeZ (pmem p) (Z.to_nat (2 ^ log)) a x)) -> Q tt s') -> wp (Store v vx mo) s Q.
Proof.
  intros H Ht Ho Hv Hvx HQ. apply wp_bind. pose proof Hvx as [-> _]. eapply wp_pure; [by eapply ordered_ok|].
  eapply wp_astore; [exact H|exact Hv|exact Hvx|]. by rewrite (mem_ty_bytes t log Ht).
Qed.

Lemma wp_second s p t log a v (Q : Value -> LState -> Prop) :
  refines s p -> mem_ty t log -> is_val TPtr a v -> (forall v', is_val TPtr (u64 (a + 2 ^ log)) v' -> Q v' s) ->
  wp (pure (CreateElemGEP t v (getInt64 1))) s Q.
Proof.
  intros H Ht Hv HQ. eapply wp_evals; [eapply (evals_elem_gep t); [exact Hv|apply (is_val_intN 64 1)]|]. intros v' Hv'. apply HQ.
  rewrite (mem_ty_bytes t log Ht), Z.mul_1_r in Hv'. exact Hv'.
Qed.

Lemma mem_ext_range i : 0 <= mem_ext i < 8.
Proof. unfold mem_ext, fad_get_mem_extend. change 7 with (Z.ones 3). rewrite Z.land_ones by lia. apply Z.mod_pos_bound. lia. Qed.

Lemma mem_log_range i : 0 <= mem_log i < 4.
Proof. apply Z.mod_pos_bound. lia. Qed.

Lemma mem_type i : TypeOf (Z.land (mem_ext i) 3) = Some (TInt (8 * 2 ^ mem_log i)) /\ mem_ty (TInt (8 * 2 ^ mem_log i)) (mem_log i).
Proof.
  change 3 with (Z.ones 2). rewrite Z.land_ones by lia. change (mem_ext i `mod` 2 ^ 2) with (mem_log i). pose proof (mem_log_range i).
  assert (mem_log i = 0 \/ mem_log i = 1 \/ mem_log i = 2 \/ mem_log i = 3) as [E|[E|[E|E]]] by lia; rewrite E; (split; [done|]); (split; [lia|]); (split; [done|]); split; (intros F; try lia; try done).
Qed.

(** One register. *)
Lemma wp_load_gp s p q i r a v mo (Q : unit -> LState -> Prop) :
  refines s q -> pmem q = pmem p -> wf_reg r -> 8 * 2 ^ mem_log i <= width i -> order_ok is_acquire mo (mem_log i) a -> is_val TPtr a v ->
  (forall s', refines s' (wX q r (loaded i p a)) -> Q tt s') ->
  wp (Load r (is_w32 i) (TInt (8 * 2 ^ mem_log i)) v (mem_ext i) mo) s Q.
Proof.
  intros H Hpm Hr Hw Ho Hv HQ. destruct (mem_type i) as [_ Ht]. pose proof (mem_ext_range i). pose proof (mem_log_range i). pose proof (width_pos i). pose proof (width_cases i) as HN.
  apply wp_bind. eapply wp_load_from; [exact H|exact Ht|exact Ho|exact Hv|]. intros x Hx. rewrite Hpm in Hx. fold (mem_bytes i) in Hx.
  assert (extend_len (mem_ext i) = 8 * 2 ^ mem_log i) as El by done.
  ev; [eapply (evals_extend (width i) HN (8 * 2 ^ mem_log i)); [done|lia|lia|lia|lia| |exact Hx]|].
  - pose proof (loadZ_range (pmem p) (mem_bytes i) a) as R. unfold mem_bytes in *. rewrite Z2Nat.id in R by (apply Z.pow_nonneg; lia). apply R. rewrite <- Hpm. apply (ar_memok _ _ _ _ _ H).
  - rewrite Z.mul_1_r in *. eapply wp_setgp; [exact H|done|eassumption|apply wrap_range; cbn; lia|done].
Qed.

Lemma wp_store_gp s p q i r a v mo (Q : unit -> LState -> Prop) :
  refines s q -> rX q r = rX p r -> wf_reg r -> 8 * 2 ^ mem_log i <= width i -> order_ok is_release mo (mem_log i) a -> is_val TPtr a v ->
  (forall s', refines s' (wM q (storeZ (pmem q) (mem_bytes i) a (wrap (8 * 2 ^ mem_log i) (rX p r)))) -> Q tt s') ->
  wp (x ← GetGp r (is_w32 i) false; v' ← pure (CreateTruncOrBitCast x (TInt (8 * 2 ^ mem_log i))); Store v v' mo) s Q.
Proof.
  intros H Hq Hr Hw Ho Hv HQ. destruct (mem_type i) as [_ Ht]. pose proof (mem_log_range i). pose proof (Z.pow_pos_nonneg 2 (mem_log i)). pose proof (src_range _ _ _ s q i r H Hr) as Rx.
  apply wp_bind. eapply wp_gp; [exact H|done|]. intros x s1 K1 Hx. change (wbits (is_w32 i)) with (width i) in Hx. fold (src i q r) in Hx.
  ev; [by apply (evals_trunc_or_bitcast (width i))|]. unfold src, rW in *. rewrite wrap_wrap_le, Hq in * by lia.
  eapply wp_store_to; [exact K1|exact Ht|exact Ho|exact Hv|eassumption|exact HQ].
Qed.

Lemma wback_mem i w p : pmem (wback i w p) = pmem p.
Proof. destruct w; [apply wX_mem|done]. Qed.

Lemma wback_pv i w p : pv (wback i w p) = pv p.
Proof. destruct w; [apply wX_pv|done]. Qed.

Lemma wback_reg i w p r : wf_reg r -> wf_reg (rn i) -> (is_Some w -> r <> rn i) -> rX (wback i w p) r = rX p r.
Proof. intros Hr Hn Hne. destruct w; [|done]. cbn. apply rX_wX_ne; [done|done|]. by apply Hne. Qed.

Definition two_op (o : Op) : bool := match o with A64_LDP | A64_LDXP | A64_STP | A64_STXP | A64_LDP_FP | A64_STP_FP => true | _ => false end.

(** What a load or store needs of its operands, beyond being well-formed. *)
Record wf_access (i : Inst) : Prop := mk_wfa {
  wa_base : rn i <> ZERO_REG;
  wa_index : index_exact i;
  wa_status : forall l st rs, operand i = ULdstOrder l st rs -> wf_reg rs }.

Lemma wp_access_head s p i mt t log a w (load : bool) (f : Z -> Ty -> Value -> L unit) Q :
  refines s p -> wf_inst i -> wf_access i -> mt = Some t -> mem_ty t log -> address i p log = Some (a, w) -> access_ok i load log a = true ->
  (forall mo v s', refines s' (wback i w p) -> is_val TPtr a v -> order_ok (if load then is_acquire else is_release) mo log a -> wp (f mo t v) s' Q) ->
  wp (mo ← pure (order_of i); memty ← pure mt; ptr ← Addr memty i; f mo memty ptr) s Q.
Proof.
  intros H [_ Hd Hn Hm Hu] [Hz Hx _] Et Ht Ea Hok HQ. destruct (order_of_ok _ _ _ _ _ _ Ea Hok) as (mo & Emo & Ho).
  apply wp_bind. eapply wp_pure; [exact Emo|]. apply wp_bind. eapply wp_pure; [exact Et|]. apply wp_bind.
  eapply wp_address; [exact H|done|done|done|exact Ht|done|exact Ea|]. intros v s1 K1 Hv. by apply HQ.
Qed.

(** Loads, of one or two registers. *)
Lemma wp_load_case s p i a w (two : bool) :
  refines s p -> wf_inst i -> wf_access i -> address i p (mem_log i) = Some (a, w) -> access_ok i true (mem_log i) a = true -> 8 * 2 ^ mem_log i <= width i ->
  match op i with A64_LDR | A64_LDXR => Some false | A64_LDP | A64_LDXP => Some true | _ => None end = Some two ->
  wp (LiftLoadStore i (is_w32 i) false) s (fun _ s' => refines s'
    (wX (if two then wX (wback i w p) (rm i) (loaded i p (u64 (a + 2 ^ mem_log i))) else wback i w p) (rd i) (loaded i p a))).
Proof.
  intros H Hwf Hwa Ea Gok Gw E2. pose proof Hwf as [_ Hd Hn Hm Hu]. destruct (mem_type i) as [Et Ht]. pose proof (mem_log_range i) as Hlog.
  eapply (wp_access_head _ _ _ _ _ _ _ _ true (fun mo t ptr => _)); [exact H|done|done|exact Et|exact Ht|exact Ea|exact Gok|]. intros mo v s1 K1 Hv Ho. cbv zeta.
  destruct two.
  - assert (op i = A64_LDP \/ op i = A64_LDXP) as Eo by (destruct (op i); try done; auto).
    destruct Eo as [-> | ->]; apply wp_bind; (eapply wp_second; [exact K1|exact Ht|exact Hv|]); intros v2 Hv2; apply wp_bind;
      (eapply wp_load_gp; [exact K1|apply wback_mem|done|done|apply order_ok_second; [lia|exact Ho]|exact Hv2|]); intros s2 K2;
      (eapply wp_load_gp; [exact K2|by rewrite wX_mem, wback_mem|done|done|exact Ho|exact Hv|done]).
  - assert (op i = A64_LDR \/ op i = A64_LDXR) as Eo by (destruct (op i); try done; auto).
    destruct Eo as [-> | ->]; (eapply wp_load_gp; [exact K1|apply wback_mem|done|done|exact Ho|exact Hv|done]).
Qed.

Lemma wp_exec_load s p i start len p' :
  refines s p -> wf_inst i -> (is_Some (exec_load i len p) -> wf_access i) -> exec_load i len p = Some p' ->
  exists q, p' = next len p q /\ wp (lift i start len) s (to q).
Proof.
  intros H Hwf Hwa E. specialize (Hwa ltac:(by rewrite E)). unfold exec_load in E.
  destruct (match op i with A64_LDR | A64_LDXR => Some false | A64_LDP | A64_LDXP => Some true | _ => None end) as [two|] eqn:E2; [|done].
  cbn [mbind option_bind] in E. destruct (address i p (mem_log i)) as [[a w]|] eqn:Ea; [|done]. cbn [mbind option_bind] in E.
  destruct (access_ok i true (mem_log i) a && transfer_ok i two true w && (8 * 2 ^ mem_log i <=? width i)) eqn:G; [|done].
  apply andb_true_iff in G as [[Gok Gt]%andb_true_iff Gw%Z.leb_le]. apply (inj Some) in E. subst p'. eexists. split; [reflexivity|].
  assert (lift i start len = brk (LiftLoadStore i (is_w32 i) false)) as -> by (destruct (op i) eqn:Eo; try done; case_of Eo; reflexivity).
  apply wp_brk. by apply wp_load_case.
Qed.

Definition store_op (o : Op) : option (bool * bool) :=
  match o with A64_STR => Some (false, false) | A64_STP => Some (true, false) | A64_STXR => Some (false, true) | A64_STXP => Some (true, true) | _ => None end.

Lemma wp_store_case s p i a w (two excl : bool) :
  refines s p -> wf_inst i -> wf_access i -> address i p (mem_log i) = Some (a, w) -> access_ok i false (mem_log i) a = true -> transfer_ok i two false w = true ->
  8 * 2 ^ mem_log i <= width i -> store_op (op i) = Some (two, excl) ->
  let v r := wrap (8 * 2 ^ mem_log i) (rX p r) in
  wp (LiftLoadStore i (is_w32 i) false) s (fun _ s' => refines s' (wM (wback i w p)
    (storeZ (if two then storeZ (pmem p) (mem_bytes i) (u64 (a + 2 ^ mem_log i)) (v (rm i)) else pmem p) (mem_bytes i) a (v (rd i))))).
Proof.
  intros H Hwf Hwa Ea Gok Gt Gw E2 v. pose proof Hwf as [_ Hd Hn Hm Hu]. destruct (mem_type i) as [Et Ht]. pose proof (mem_log_range i) as Hlog.
  assert (rX (wback i w p) (rd i) = rX p (rd i) /\ (two = true -> rX (wback i w p) (rm i) = rX p (rm i))) as [Rd Rm].
  { unfold transfer_ok in Gt. apply andb_true_iff in Gt as [Gt _]. split; [|intros ->]; (apply wback_reg; [done|done|]); intros [z ->];
      apply andb_true_iff in Gt as [G1%negb_true_iff%Z.eqb_neq G2]; [done|]. cbn in G2. by apply negb_true_iff, Z.eqb_neq in G2. }
  eapply (wp_access_head _ _ _ _ _ _ _ _ false (fun mo t ptr => _)); [exact H|done|done|exact Et|exact Ht|exact Ea|exact Gok|]. intros mo vp s1 K1 Hv Ho. cbv zeta.
  destruct two.
  - assert (op i = A64_STP \/ op i = A64_STXP) as Eo by (destruct (op i); try done; auto).
    destruct Eo as [-> | ->]; apply wp_bind; (eapply wp_second; [exact K1|exact Ht|exact Hv|]); intros v2 Hv2; apply wp_bind;
      (eapply (wp_store_gp _ p); [exact K1|by apply Rm|done|done|apply order_ok_second; [lia|exact Ho]|exact Hv2|]); intros s2 K2; rewrite wback_mem in K2;
      (eapply (wp_store_gp _ p); [exact K2|exact Rd|done|done|exact Ho|exact Hv|]); intros s3 K3; exact K3.
  - assert (op i = A64_STR \/ op i = A64_STXR) as Eo by (destruct (op i); try done; auto).
    destruct Eo as [-> | ->]; (eapply (wp_store_gp _ p); [exact K1|exact Rd|done|done|exact Ho|exact Hv|]); intros s3 K3; rewrite wback_mem in K3; exact K3.
Qed.

Lemma wp_exec_store s p i start len p' :
  refines s p -> wf_inst i -> (is_Some (exec_store i len p) -> wf_access i) -> exec_store i len p = Some p' ->
  exists q, p' = next len p q /\ wp (lift i start len) s (to q).
Proof.
  intros H Hwf Hwa E. specialize (Hwa ltac:(by rewrite E)). unfold exec_store in E. fold (store_op (op i)) in E.
  destruct (store_op (op i)) as [[two excl]|] eqn:E2; [|done].
  cbn [mbind option_bind] in E. destruct (address i p (mem_log i)) as [[a w]|] eqn:Ea; [|done]. cbn [mbind option_bind] in E.
  destruct (access_ok i false (mem_log i) a && transfer_ok i two false w && (8 * 2 ^ mem_log i <=? width i)) eqn:G; [|done].
  apply andb_true_iff in G as [[Gok Gt]%andb_true_iff Gw%Z.leb_le].
  pose proof (wp_store_case s p i a w two excl H Hwf Hwa Ea Gok Gt Gw E2) as W. cbv zeta in W.
  destruct excl.
  - destruct (operand i) as [| | | | | | | | | | | | | |l st rs| | | | |] eqn:Ho; try done. apply (inj Some) in E. subst p'. eexists. split; [reflexivity|].
    assert (lift i start len = brk (LiftLoadStore i (is_w32 i) false;; '(_, _, rs) ← pure (ldst_of (operand i)); SetGp rs (is_w32 i) (getIntN (wbits (is_w32 i)) 0))) as ->
      by (unfold store_op in E2; destruct (op i) eqn:Eo; try done; case_of Eo; reflexivity).
    apply wp_brk, wp_bind. eapply wp_mono; [exact W|]. intros [] s1 K1. rewrite Ho. apply wp_bind. eapply wp_pure; [reflexivity|].
    pose proof (is_val_intN (wbits (is_w32 i)) 0) as V0. assert (wrap (wbits (is_w32 i)) 0 = 0) as E0 by (by destruct (wbits_cases (is_w32 i)) as [->| ->]). rewrite E0 in V0.
    eapply wp_setgp; [exact K1|by apply (wa_status _ Hwa _ _ _ Ho)|exact V0|by apply amount_ok; [apply wbits_cases|destruct (is_w32 i); cbn; lia]|done].
  - assert (lift i start len = brk (LiftLoadStore i (is_w32 i) false)) as -> by (unfold store_op in E2; destruct (op i) eqn:Eo; try done; case_of Eo; reflexivity).
    eexists. split; [|apply wp_brk; exact W]. destruct (operand i); by apply (inj Some) in E.
Qed.

(** ** Vector registers *)

(** The type and the facet of a scalar. *)
Definition fp_case (prec log : Z) (t : Ty) (f : Facet) : Prop :=
  (prec, log, t, f) ∈ [(0, 0, TInt 8, FI8); (1, 1, TInt 16, FI16); (2, 2, TFloat, FF32); (3, 3, TDouble, FF64); (7, 4, TInt 128, FI128)].

Lemma fp_log_case i log : fp_log i = Some log -> exists t f, fp_case (fad_get_prec (flags i)) log t f.
Proof.
  unfold fp_log, fp_case. destruct (fad_get_prec (flags i)) as [|[[[]|[]|]|[[]|[]|]|]|]; intros E; try done; injection E as <-; do 2 eexists; rewrite !elem_of_cons; eauto 9.
Qed.

Lemma fp_case_facts prec log t f : fp_case prec log t f ->
  TypeOfFP prec = Some t /\ mem_ty t log /\ t ∈ [TInt 8; TInt 16; TInt 32; TInt 64; TInt 128; TFloat; TDouble] /\
  (f = FI128 \/ f ∈ scalar_facets.*1) /\ facet_Type f = Some t /\ 0 <= log <= 4 /\ forall r, GetScalar r prec true = get_reg (RVEC r) f.
Proof.
  intros Hc. unfold fp_case in Hc. rewrite !elem_of_cons, elem_of_nil in Hc. destruct Hc as [E|[E|[E|[E|[E|[]]]]]]; injection E as -> -> -> ->.
  all: split; [done|]; split; [split; [lia|]; split; [done|]; split; intros; (lia || done)|]; split; [rewrite !elem_of_cons; tauto|].
  all: split; [first [by left | right; cbn; rewrite !elem_of_cons; tauto]|]; split; [done|]; split; [lia|done].
Qed.

Lemma wp_LoadFP s p q r log t f prec a v mo (Q : unit -> LState -> Prop) :
  refines s q -> pmem q = pmem p -> 0 <= r < 32 -> fp_case prec log t f -> order_ok is_acquire mo log a -> is_val TPtr a v ->
  (forall s', refines s' (wV q r (loadZ (pmem p) (Z.to_nat (2 ^ log)) a)) -> Q tt s') -> wp (LoadFP r t v mo) s Q.
Proof.
  intros H Hpm Hr Hc Ho Hv HQ. destruct (fp_case_facts _ _ _ _ Hc) as (_ & Ht & Hin & _ & _ & Hl & _). apply wp_bind.
  eapply wp_load_from; [exact H|exact Ht|exact Ho|exact Hv|]. intros x Hx. rewrite Hpm in Hx. eapply wp_SetScalar; [exact H|done|exact Hin|exact Hx| |exact HQ].
  pose proof (loadZ_range (pmem p) (Z.to_nat (2 ^ log)) a) as R. rewrite Z2Nat.id in R by (apply Z.pow_nonneg; lia). destruct Ht as (_ & -> & _). apply R.
  rewrite <- Hpm. apply (ar_memok _ _ _ _ _ H).
Qed.

Lemma wp_store_fp s p q r log t f prec a v mo (Q : unit -> LState -> Prop) :
  refines s q -> pv q = pv p -> 0 <= r < 32 -> fp_case prec log t f -> order_ok is_release mo log a -> is_val TPtr a v ->
  (forall s', refines s' (wM q (storeZ (pmem q) (Z.to_nat (2 ^ log)) a (wrap (8 * 2 ^ log) (pv p r)))) -> Q tt s') ->
  wp (x ← GetScalar r prec true; Store v x mo) s Q.
Proof.
  intros H Hpv Hr Hc Ho Hv HQ. destruct (fp_case_facts _ _ _ _ Hc) as (_ & Ht & _ & Hf & Hft & Hl & ->). apply wp_bind.
  eapply wp_get_scalar; [exact H|done|exact Hf|exact Hft|]. intros x s1 K1 Hx. rewrite Hpv in Hx. pose proof Ht as (_ & Hb & _). rewrite Hb in Hx.
  eapply wp_store_to; [exact K1|exact Ht|exact Ho|exact Hv|exact Hx|exact HQ].
Qed.

Definition fpmem_op (o : Op) : option (bool * bool) :=
  match o with A64_LDR_FP => Some (false, true) | A64_LDP_FP => Some (true, true) | A64_STR_FP => Some (false, false) | A64_STP_FP => Some (true, false) | _ => None end.

Definition wf_vreg (r : Z) : Prop := 0 <= r < 32.

Lemma wp_fpmem_case s p i log a w (two load : bool) :
  refines s p -> wf_inst i -> wf_access i -> wf_vreg (rd i) -> wf_vreg (rm i) -> fp_log i = Some log -> address i p log = Some (a, w) ->
  (forall l st rs, operand i <> ULdstOrder l st rs) -> fpmem_op (op i) = Some (two, load) ->
  let n := Z.to_nat (2 ^ log) in let b := u64 (a + 2 ^ log) in let q := wback i w p in let v r := wrap (8 * 2 ^ log) (pv p r) in
  wp (LiftLoadStore i (is_w32 i) true) s (fun _ s' => refines s'
    (if load then wV (if two then wV q (rm i) (loadZ (pmem p) n b) else q) (rd i) (loadZ (pmem p) n a)
     else wM q (storeZ (if two then storeZ (pmem p) n b (v (rm i)) else pmem p) n a (v (rd i))))).
Proof.
  intros H Hwf Hwa Vd Vm El Ea Hno Eop n b q v. destruct (fp_log_case i log El) as (t & f & Hc). destruct (fp_case_facts _ _ _ _ Hc) as (Et & Ht & _ & _ & _ & Hl & _).
  assert (access_ok i load log a = true) as Gok by (unfold access_ok; destruct (operand i) eqn:Ho; try done; by edestruct Hno).
  eapply (wp_access_head _ _ _ _ _ _ _ _ load (fun mo t ptr => _)); [exact H|done|done|exact Et|exact Ht|exact Ea|exact Gok|]. intros mo vp s1 K1 Hv Ho. cbv zeta.
  assert (order_ok (if load then is_acquire else is_release) mo log b) as Ho2 by (apply order_ok_second; [lia|exact Ho]).
  unfold fpmem_op in Eop. destruct (op i) eqn:Eo; try done; injection Eop as <- <-.
  - apply wp_bind. eapply wp_second; [exact K1|exact Ht|exact Hv|]. intros v2 Hv2. apply wp_bind.
    eapply (wp_LoadFP _ p); [exact K1|apply wback_mem|done|exact Hc|exact Ho2|exact Hv2|]. intros s2 K2.
    eapply (wp_LoadFP _ p); [exact K2|apply wback_mem|done|exact Hc|exact Ho|exact Hv|done].
  - apply wp_bind. eapply wp_second; [exact K1|exact Ht|exact Hv|]. intros v2 Hv2. apply wp_bind.
    eapply (wp_store_fp _ p); [exact K1|apply wback_pv|done|exact Hc|exact Ho2|exact Hv2|]. intros s2 K2. rewrite wback_mem in K2.
    eapply (wp_store_fp _ p); [exact K2|apply wback_pv|done|exact Hc|exact Ho|exact Hv|]. intros s3 K3. exact K3.
  - eapply (wp_LoadFP _ p); [exact K1|apply wback_mem|done|exact Hc|exact Ho|exact Hv|done].
  - eapply (wp_store_fp _ p); [exact K1|apply wback_pv|done|exact Hc|exact Ho|exact Hv|]. intros s3 K3. rewrite wback_mem in K3. exact K3.
Qed.

Lemma wp_exec_fpmem s p i start len p' :
  refines s p -> wf_inst i -> (is_Some (exec_fpmem i len p) -> wf_access i /\ wf_vreg (rd i) /\ wf_vreg (rm i)) -> exec_fpmem i len p = Some p' ->
  exists q, p' = next len p q /\ wp (lift i start len) s (to q).
Proof.
  intros H Hwf Hwa E. specialize (Hwa ltac:(by rewrite E)) as (Hwa & Vd & Vm). unfold exec_fpmem in E. fold (fpmem_op (op i)) in E.
  destruct (fpmem_op (op i)) as [[two load]|] eqn:E2; [|done]. cbn [mbind option_bind] in E.
  destruct (fp_log i) as [log|] eqn:El; [|done]. cbn [mbind option_bind] in E.
  destruct (address i p log) as [[a w]|] eqn:Ea; [|done]. cbn [mbind option_bind] in E.
  assert (forall l st rs, operand i <> ULdstOrder l st rs) as Hno by (intros l st rs Ho; by rewrite Ho in E).
  pose proof (wp_fpmem_case s p i log a w two load H Hwf Hwa Vd Vm El Ea Hno E2) as W. cbv zeta in W.
  assert (lift i start len = brk (LiftLoadStore i (is_w32 i) true)) as -> by (unfold fpmem_op in E2; destruct (op i) eqn:Eo; try done; case_of Eo; reflexivity).
  eexists. split; [|apply wp_brk; exact W]. destruct (operand i) eqn:Ho; try (by edestruct Hno); by destruct load; apply (inj Some) in E.
Qed.

(** ** Moves *)

Definition fbits_of (prec : Z) : option Z := if prec =? 2 then Some 32 else if prec =? 3 then Some 64 else None.

(** Reading a scalar of 32 or 64 bits. *)
Lemma wp_GetScalar s p r prec n (float : bool) (Q : Value -> LState -> Prop) :
  refines s p -> wf_vreg r -> fbits_of prec = Some n ->
  (forall v s' t, refines s' p -> t = (if float then (if n =? 32 then TFloat else TDouble) else TInt n) -> is_val t (wrap n (pv p r)) v -> Q v s') ->
  wp (GetScalar r prec float) s Q.
Proof.
  intros H Hr Hn HQ. unfold fbits_of in Hn.
  assert (prec = 2 /\ n = 32 \/ prec = 3 /\ n = 64) as [[-> ->]|[-> ->]]
    by (destruct (Z.eqb_spec prec 2); [injection Hn as <-; auto|]; destruct (Z.eqb_spec prec 3); [injection Hn as <-; auto|done]).
  all: apply wp_bind; (eapply wp_pure; [reflexivity|]); destruct float;
    (eapply wp_get_scalar; [exact H|exact Hr|right; cbn; rewrite !elem_of_cons; tauto|reflexivity|]); intros v s1 K1 Hv; by eapply HQ.
Qed.

Lemma wp_set_scalar s p r n t x v (Q : unit -> LState -> Prop) :
  refines s p -> wf_vreg r -> n = 32 \/ n = 64 -> t = TInt n \/ t = (if n =? 32 then TFloat else TDouble) -> is_val t x v -> in_u n x ->
  (forall s', refines s' (wV p r x) -> Q tt s') -> wp (SetScalar r v) s Q.
Proof.
  intros H Hr Hn Ht Hv Hx HQ. eapply (wp_SetScalar _ _ _ _ _ _ t); [exact H|exact Hr| |exact Hv| |exact HQ].
  - destruct Hn as [-> | ->], Ht as [-> | ->]; cbn; rewrite !elem_of_cons; tauto.
  - destruct Hn as [-> | ->], Ht as [-> | ->]; exact Hx.
Qed.

Lemma fbits_cases prec n : fbits_of prec = Some n -> n = 32 \/ n = 64.
Proof. unfold fbits_of. destruct (prec =? 2), (prec =? 3); intros E; try done; injection E as <-; auto. Qed.

Lemma wp_insert_top s p r x v : refines s p -> wf_vreg r -> is_val (TInt 64) x v -> in_u 64 x ->
  wp (InsertElem r 1 v) s (fun _ s' => refines s' (wV p r (u64 (pv p r) + x * 2 ^ 64))).
Proof.
  intros H Hr [Tv Hv] Hx. unfold InsertElem. rewrite Tv. apply wp_bind. eapply wp_pure; [reflexivity|]. apply wp_bind.
  unfold GetVec. apply wp_bind. eapply wp_pure; [reflexivity|]. eapply wp_get_2d; [exact H|exact Hr|]. intros vo [To Ho].
  set (y := u64 (pv p r) + x * 2 ^ 64).
  assert (exists c, CreateInsertElement vo v 1 = Some (mkVal (TVec 2 (TInt 64)) y c)) as (c & Ec).
  { unfold CreateInsertElement. rewrite To, Tv, decide_True by (split; [done|lia]). eexists. do 2 f_equal. rewrite Ho, Hv. unfold y. cbn [ty_bits].
    change (lanes (Z.to_nat 2) 64 (pv p r)) with [lane 64 (pv p r) 0; lane 64 (pv p r) 1]. change (<[Z.to_nat 1:=x]> [?a; _]) with [a; x].
    cbn [of_lanes]. unfold lane. rewrite Z.mul_0_r, Z.shiftr_0_r. lia. }
  apply wp_bind. eapply wp_pure; [exact Ec|]. unfold SetVec. cbn [v_ty]. apply wp_bind. eapply (wp_pure _ FV2I64); [reflexivity|]. cbn [ty_bits].
  change (2 * 64 =? 128) with true. cbn iota. apply wp_bind. eapply (wp_pure _ (mkVal (TVec 2 (TInt 64)) y c)); [reflexivity|]. apply wp_bind.
  assert (in_u 128 y) as Ry by (unfold y; pose proof (wrap_range 64 (pv p r) ltac:(lia)); unfold in_u in *; lia).
  destruct (arefines_set_vec _ _ _ s p r (mkVal (TVec 2 (TInt 64)) y c) y H Hr) as (rf & E & Hs); [done|done|].
  unfold set_reg, set_reg_with. eexists _, _. split; [rewrite E; reflexivity|].
  eapply wp_set_vec_facet; [exact Hs|exact Hr|done| |done]. cbn [pv wV v_ty v_bits]. rewrite Z.eqb_refl.
  rewrite (vproj128_of FV2I64 (TVec 2 (TInt 64))) by done. cbn [ty_bits]. by rewrite wrap_small.
Qed.

Lemma wp_exec_fmov s p i start len p' :
  refines s p -> wf_inst i -> (is_Some (exec_fmov i len p) -> wf_vreg (rd i) /\ wf_vreg (rn i) /\ wf_vreg (rm i)) -> exec_fmov i len p = Some p' ->
  exists q, p' = next len p q /\ wp (lift i start len) s (to q).
Proof.
  intros H [_ Hd Hn Hm Hu] Hwa E. specialize (Hwa ltac:(by rewrite E)) as (Vd & Vn & Vm). unfold exec_fmov in E. fold (fbits_of (fad_get_prec (flags i))) in E. cbv zeta in E.
  set (prec := fad_get_prec (flags i)) in *. pose proof (width_cases i) as HN.
  destruct (op i) eqn:Eo; try done.
  - destruct (fbits_of prec) as [n|] eqn:Ef; [|done]. injection E as <-. eexists. split; [reflexivity|]. case_of Eo. apply wp_brk.
    apply wp_bind. eapply wp_GetScalar; [exact H|exact Vn|exact Ef|]. intros v1 s1 t K1 Ht Hv1.
    apply wp_bind. eapply wp_GetScalar; [exact K1|exact Vm|exact Ef|]. intros v2 s2 t' K2 Ht' Hv2. rewrite <- Ht in Ht'. subst t'.
    apply wp_bind. eapply wp_IsTrue; [exact K2|apply cond_range|]. intros vc Hvc. ev; [eapply (evals_select t); [exact Hvc|exact Hv1|exact Hv2]|].
    pose proof (fbits_cases _ _ Ef) as Hnc. eapply (wp_set_scalar _ _ _ n t); [exact K2|done|done|by right|eassumption| |by destruct (holds _ _)].
    destruct (holds _ _); apply wrap_range; lia.
  - destruct (fbits_of prec) as [n|] eqn:Ef; [|done]. cbn [mbind option_bind] in E. destruct (Z.eqb_spec n (width i)) as [->|]; [|done]. injection E as <-.
    eexists. split; [reflexivity|]. case_of Eo. apply wp_brk. apply wp_bind. eapply wp_GetScalar; [exact H|exact Vn|exact Ef|]. intros v1 s1 t K1 -> Hv1.
    eapply wp_setgp; [exact K1|done|exact Hv1| |done]. apply wrap_range. destruct (wbits_cases (is_w32 i)); lia.
  - injection E as <-. eexists. split; [reflexivity|]. case_of Eo. apply wp_brk. apply wp_bind. eapply wp_gp; [exact H|done|]. intros v s1 K1 Hv.
    eapply (wp_set_scalar _ _ _ (width i)); [exact K1|done|done|by left|exact Hv|by eapply src_range|done].
  - destruct (Z.eqb_spec (width i) 64) as [Ew|]; [|done]. injection E as <-. eexists. split; [reflexivity|]. case_of Eo. apply wp_brk. apply wp_bind.
    unfold GetElem, GetVec. apply wp_bind, wp_bind. eapply wp_pure; [reflexivity|]. eapply wp_get_2d; [exact H|exact Vn|]. intros v [Tv Hv].
    eapply (wp_pure _ (mkVal (TInt 64) (u64 (pv p (rn i) / 2 ^ 64)) NotConst)).
    { unfold CreateExtractElement. rewrite Tv. cbn -[lane u64 wrap]. unfold lane. rewrite Hv. cbn [ty_bits]. by rewrite Z.shiftr_div_pow2. }
    rewrite width_wbits in Ew. eapply wp_setgp; [exact H|done| | |done]; rewrite Ew; [done|apply wrap_range; lia].
  - injection E as <-. eexists. split; [reflexivity|]. case_of Eo. apply wp_brk. apply wp_bind. eapply wp_gp64; [exact H|done|]. intros v s1 K1 Hv.
    apply wp_insert_top; [exact K1|done|exact Hv|by eapply rX_range].
  - destruct (fbits_of prec) as [n|] eqn:Ef; [|done]. injection E as <-. eexists. split; [reflexivity|]. case_of Eo. apply wp_brk.
    apply wp_bind. eapply wp_GetScalar; [exact H|exact Vn|exact Ef|]. intros v1 s1 t K1 Ht Hv1. pose proof (fbits_cases _ _ Ef) as Hnc.
    eapply (wp_set_scalar _ _ _ n t); [exact K1|done|done|by right|exact Hv1|apply wrap_range; lia|done].
Qed.
End Mem.
