(* ===== verification/RellumeA64Step.v ===== *)
(** * Lifting AArch64 code is correct

    [Lift] of an instruction, and of a block of them, takes the state of the
    lifted code where the processing element of [A64Sem] goes, under the
    conditions of [exact]; and what it does outside of them. *)

From Stdlib Require Import ZArith Lia.
From stdpp Require Import base numbers list option gmap.
From S2P Require Import Prelude Machine Farmdec FarmdecProofs FarmdecWf FarmdecDecode Rellume RellumeProofs RellumeA64 A64Sem RellumeA64Proofs RellumeA64Alu RellumeA64Refine RellumeA64Data RellumeA64Mem.

(** ** Where the lifted code is right *)

Definition mem_op (o : Op) : bool :=
  match o with
  | A64_LDR | A64_STR | A64_LDP | A64_STP | A64_LDXR | A64_STXR | A64_LDXP | A64_STXP | A64_LDR_FP | A64_STR_FP | A64_LDP_FP | A64_STP_FP => true
  | _ => false
  end.

(** The vector registers of moves, and of loads and stores. *)
Definition wf_vregs (i : Inst) : Prop :=
  match op i with
  | A64_LDR_FP | A64_STR_FP | A64_LDP_FP | A64_STP_FP => wf_vreg (rd i) /\ wf_vreg (rm i)
  | A64_FMOV_REG | A64_FMOV_GPR2VEC | A64_FMOV_VEC2GPR | A64_FMOV_TOP2GPR | A64_FMOV_GPR2TOP | A64_FCSEL =>
      wf_vreg (rd i) /\ wf_vreg (rn i) /\ wf_vreg (rm i)
  | _ => True
  end.

(** No 64-bit extension of a 32-bit register; no carry that changes the sign of
    the second operand or wraps it, where flags are set; no call through the link
    register; a base register that is not the zero register and an index that is
    not sign-extended from 64 bits. *)
Record exact (i : Inst) (p : Pe) : Prop := mk_exact {
  ex_ext : forall sub k, addsub_of (op i) = Some (sub, k) -> ext_exact i k;
  ex_carry : forall sub, carry_sub (op i) = Some sub -> carry_exact i p sub;
  ex_blr : op i = A64_BLR -> rn i <> 30;
  ex_mem : mem_op (op i) = true -> wf_access i;
  ex_vec : wf_vregs i }.

Lemma exec_groups i len p p' : exec i len p = Some p' ->
  exec_addsub i len p = Some p' \/ exec_logic i len p = Some p' \/ exec_carry i len p = Some p' \/ exec_dp i len p = Some p' \/
  exec_csel i len p = Some p' \/ exec_ccmp i len p = Some p' \/ exec_mul i len p = Some p' \/ exec_branch i len p = Some p' \/
  exec_system i len p = Some p' \/ exec_load i len p = Some p' \/ exec_store i len p = Some p' \/ exec_fpmem i len p = Some p' \/
  exec_fmov i len p = Some p'.
Proof.
  unfold exec.
  destruct (exec_addsub i len p); [auto|]. destruct (exec_logic i len p); [auto|]. destruct (exec_carry i len p); [auto|].
  destruct (exec_dp i len p); [auto 6|]. destruct (exec_csel i len p); [auto 8|]. destruct (exec_ccmp i len p); [auto 8|].
  destruct (exec_mul i len p); [auto 9|]. destruct (exec_branch i len p); [auto 10|]. destruct (exec_system i len p); [auto 11|].
  destruct (exec_load i len p); [auto 12|]. destruct (exec_store i len p); [auto 13|]. destruct (exec_fpmem i len p); auto 15.
Qed.

(** The instructions of a group. *)
Lemma load_is_mem i len p : is_Some (exec_load i len p) -> mem_op (op i) = true.
Proof. unfold exec_load, mem_op. intros [p' E]. by destruct (op i). Qed.
Lemma store_is_mem i len p : is_Some (exec_store i len p) -> mem_op (op i) = true.
Proof. unfold exec_store, mem_op. intros [p' E]. by destruct (op i). Qed.
Lemma fpmem_is_mem i len p : wf_vregs i -> is_Some (exec_fpmem i len p) -> mem_op (op i) = true /\ wf_vreg (rd i) /\ wf_vreg (rm i).
Proof. unfold exec_fpmem, mem_op, wf_vregs. intros Hv [p' E]. by destruct (op i). Qed.
Lemma fmov_is_vec i len p : wf_vregs i -> is_Some (exec_fmov i len p) -> wf_vreg (rd i) /\ wf_vreg (rn i) /\ wf_vreg (rm i).
Proof. unfold exec_fmov, wf_vregs. intros Hv [p' E]. by destruct (op i). Qed.

Section Step.
Context (fp : FpSem) (fi : FunctionInfo) (cfg : LLConfig) (TP : nat) (undef : Ty -> Z) (LiftSIMD : Inst -> L bool) (cpu0 : Cpu) (ret0 : bool).

(** What it takes for an instruction to be lifted as it is. *)
Record liftable (inst : Instr) (p : Pe) : Prop := mk_liftable {
  lb_wf : wf_inst (i_a64 inst);
  lb_exact : exact (i_a64 inst) p;
  lb_plain : instr_overrides cfg (op_num (op (i_a64 inst))) = None }.

Lemma wp_lift_op inst s p p' :
  plain cfg fi -> (TP < length cpu0)%nat -> wf_inst (i_a64 inst) -> exact (i_a64 inst) p -> ppc p = u64 (i_start inst) -> arefines TP cpu0 ret0 s p ->
  exec (i_a64 inst) (i_len inst) p = Some p' ->
  (exists q, p' = next (i_len inst) p q /\ wp (lift_op fp fi cfg TP undef LiftSIMD inst) s (brk_to TP cpu0 ret0 q)) \/
  wp (lift_op fp fi cfg TP undef LiftSIMD inst) s (return_to TP cpu0 ret0 p').
Proof.
  intros Hc HTP Hwf [X1 X2 X3 X4 X5] Hpc H E. destruct inst as [i start len]. cbn [i_a64 i_start i_len] in *. pose proof Hwf as [_ Hd Hn Hm _].
  apply exec_groups in E as [E|[E|[E|[E|[E|[E|[E|[E|[E|[E|[E|[E|E]]]]]]]]]]]].
  - left. by eapply wp_exec_addsub.
  - left. by eapply wp_exec_logic.
  - left. by eapply wp_exec_carry.
  - left. by eapply wp_exec_dp.
  - left. by eapply wp_exec_csel.
  - left. by eapply wp_exec_ccmp.
  - left. by eapply wp_exec_mul.
  - right. by eapply wp_exec_branch.
  - left. by eapply wp_exec_system.
  - left. eapply wp_exec_load; [exact HTP|exact H|done| |exact E]. intros F. by eapply X4, load_is_mem.
  - left. eapply wp_exec_store; [exact HTP|exact H|done| |exact E]. intros F. by eapply X4, store_is_mem.
  - left. eapply wp_exec_fpmem; [exact HTP|exact H|done| |exact E]. intros F. destruct (fpmem_is_mem _ _ _ X5 F) as (M & V). by split; [apply X4|].
  - left. eapply wp_exec_fmov; [exact HTP|exact H|done| |exact E]. intros F. by eapply fmov_is_vec.
Qed.

Lemma wPC_id p v : ppc p = v -> wPC p v = p.
Proof. intros <-. by destruct p. Qed.

Lemma a64_lift_step inst s p p' :
  plain cfg fi -> (TP < length cpu0)%nat -> arefines TP cpu0 ret0 s p -> ppc p = u64 (i_start inst) -> liftable inst p ->
  exec (i_a64 inst) (i_len inst) p = Some p' ->
  exists s', Lift fp fi cfg TP undef LiftSIMD inst s = Some (true, s') /\ arefines TP cpu0 ret0 s' p'.
Proof.
  intros Hc HTP H Hpc [Hwf Hx Ho] E.
  cut (wp (Lift fp fi cfg TP undef LiftSIMD inst) s (fun ok s' => ok = true /\ arefines TP cpu0 ret0 s' p')).
  { intros (ok & s' & El & -> & Hs'). eauto. }
  unfold Lift. apply wp_bind. eapply wp_ASetIP; [exact H|right; apply Hc|]. intros s1 K1. rewrite (wPC_id p _ Hpc) in K1.
  rewrite (plain_marker _ _ Hc), Ho. apply wp_bind, wp_ret, wp_bind.
  destruct (wp_lift_op inst s1 p p' Hc HTP Hwf Hx Hpc K1 E) as [(q & -> & W)|W]; eapply wp_mono; try exact W; intros n s2 [-> K2]; cbn [finish].
  - apply wp_bind. eapply wp_ASetIP; [exact K2|right; apply Hc|]. intros s3 K3. apply wp_ret. split; [done|]. unfold next. by rewrite <- (pc_plus p (i_start inst)).
  - by apply wp_ret.
Qed.

(** C10. An AArch64 instruction is lifted to code that takes registers, flags, memory
    and the thread pointer where the architecture takes them. *)
Theorem a64_lift_refines inst s p p' :
  plain cfg fi -> (TP < length cpu0)%nat -> arefines TP cpu0 ret0 s p -> ppc p = u64 (i_start inst) -> liftable inst p ->
  exec (i_a64 inst) (i_len inst) p = Some p' ->
  exists s', Lift fp fi cfg TP undef LiftSIMD inst s = Some (true, s') /\ arefines TP cpu0 ret0 s' p'.
Proof. apply a64_lift_step. Qed.

(** ** A block of instructions *)

Fixpoint a64_lift_block (l : list Instr) : L bool :=
  match l with [] => mret true | inst :: l => Lift fp fi cfg TP undef LiftSIMD inst ≫= fun ok : bool => if ok then a64_lift_block l else mret false end.

(** The processing element executes the instructions, each at the address it is at. *)
Fixpoint a64_exec_block (l : list Instr) (p : Pe) : option Pe :=
  match l with
  | [] => Some p
  | inst :: l => if decide (ppc p = u64 (i_start inst)) then exec (i_a64 inst) (i_len inst) p ≫= a64_exec_block l else None
  end.

Fixpoint a64_liftable_block (l : list Instr) (p : Pe) : Prop :=
  match l with
  | [] => True
  | inst :: l => liftable inst p /\ match exec (i_a64 inst) (i_len inst) p with Some p' => a64_liftable_block l p' | None => False end
  end.

(** C11. A block of AArch64 instructions is lifted to code that takes the state where
    executing the instructions one after the other takes it. *)
Theorem a64_lift_block_refines l s p p' :
  plain cfg fi -> (TP < length cpu0)%nat -> arefines TP cpu0 ret0 s p -> a64_liftable_block l p -> a64_exec_block l p = Some p' ->
  exists s', a64_lift_block l s = Some (true, s') /\ arefines TP cpu0 ret0 s' p'.
Proof.
  intros Hc HTP. revert s p. induction l as [|inst l IH]; intros s p Hs Hx E; [injection E as <-; by exists s|].
  destruct Hx as (Hok & Hr). cbn [a64_exec_block] in E. case_decide as Hpc; [|done].
  destruct (exec _ _ p) as [p1|] eqn:E1; [|done].
  destruct (a64_lift_step inst s p p1 Hc HTP Hs Hpc Hok E1) as (s1 & El & Hs1).
  destruct (IH s1 p1 Hs1 Hr E) as (s' & Es & Hs'). exists s'. split; [|done]. cbn. unfold mbind, L_bind. by rewrite El.
Qed.
End Step.

(** ** A concrete processing element *)

Definition pe_rf (p : Pe) : RegFile :=
  mkRF (fun reg f => match reg, f with
                     | RGP i, FI64 => Some (mkVal (TInt 64) (px p i) NotConst)
                     | RVEC i, FV2I64 => Some (mkVal (TVec 2 (TInt 64)) (pv p i) NotConst)
                     | RIP, FI64 => Some (mkVal (TInt 64) (ppc p) NotConst)
                     | REFLAGS, _ => b ← flag_of (pf p) f; Some (mkVal (TInt 1) (Z.b2z b) NotConst)
                     | _, _ => None
                     end) AArch64 ∅ ∅.
Definition pe_state (p : Pe) : LState := mkL (pe_rf p) (pmem p) [ptp p] false.

Definition pe_ok (p : Pe) : Prop :=
  (forall i, in_u 64 (px p i)) /\ (forall i, in_u 128 (pv p i)) /\ in_u 64 (ppc p) /\ in_u 64 (ptp p) /\ mem_ok (pmem p).

Lemma pe_refines p : pe_ok p -> arefines 0 [0] false (pe_state p) p.
Proof.
  intros (Hx & Hv & Hp & Ht & Hm). constructor; cbn; try done; try (by eexists).
  - intros i f v _. by destruct f; intros [= <-].
  - intros i f v _. destruct f; try done. intros [= <-]. rewrite (vproj128_of FV2I64 (TVec 2 (TInt 64))) by done. cbn. by rewrite wrap_small.
  - intros f b ->. by eexists.
Qed.

(** [x1 = 5], [x2] is all ones, [x4 = 0x2000], [x30 = 0x4000]; the carry is set. *)
Definition pe0 : Pe :=
  mkPe (fun i => if i =? 1 then 5 else if i =? 2 then 0xffffffffffffffff else if i =? 4 then 0x2000 else if i =? 30 then 0x4000 else 0) (fun _ => 0)
    (mkFlags false false true false) 0x1000 0x7000 (storeZ ∅ 8 0x2008 0x1122334455667788).
Definition a64_fp0 : FpSem :=
  mkFp (fun _ _ _ _ => 0) (fun _ _ _ => 0) (fun _ _ _ _ => false) (fun _ _ _ _ => 0) (fun _ _ _ _ => None) (fun _ _ _ => 0).
Definition a64_fi0 : FunctionInfo := mkFi 0x1000 (getInt64 0x1000).
Definition a64_cfg0 : LLConfig := mkCfg None (fun _ => None) None None None [] false false.
Definition no_simd (_ : Inst) : L bool := mret false.

Lemma pe0_ok : pe_ok pe0.
Proof.
  split; [|split; [done|split; [done|split; [done|]]]].
  - intros i. cbn. by repeat case_match.
  - apply mem_ok_storeZ. apply map_Forall_empty.
Qed.
Lemma a64_plain0 : plain a64_cfg0 a64_fi0.
Proof. done. Qed.

Lemma wf_small r : 0 <= r < 32 -> wf_reg r.
Proof. by left. Qed.

(** The words of [adds x0, x1, x2], [ldr x3, [x4, #8]] and [b.cs +16]. *)
Definition decoded (w : Z) : Inst := default UNKNOWN_INST (decode_word id (fun _ => 0) w).
Definition adds_inst : Instr := mkAInst (decoded 0xab020020) 0x1000 4.
Definition ldr_inst : Instr := mkAInst (decoded 0xf9400483) 0x1004 4.
Definition bcs_inst : Instr := mkAInst (decoded 0x54000082) 0x1008 4.

(** Instructions that are not among those [exact] restricts, or are loads. *)
Lemma simple_liftable i start p :
  wf_inst i -> addsub_of (op i) <> None \/ mem_op (op i) = true \/ op i = A64_BCOND ->
  (forall t l, operand i <> UExtend t l) -> (forall l st rs, operand i <> ULdstOrder l st rs) -> rn i <> ZERO_REG -> wf_vregs i ->
  liftable a64_cfg0 (mkAInst i start 4) p.
Proof.
  intros Hwf Hop Hne Hno Hz Hv. constructor; [done| |done]. cbn [i_a64]. constructor; [| | | |done].
  - intros sub k _. unfold ext_exact. destruct k; try done. destruct (operand i) eqn:E; try done. by edestruct Hne.
  - intros sub E. unfold carry_sub in E. destruct (op i); try done; destruct Hop as [?|[?|?]]; done.
  - intros E. rewrite E in Hop. by destruct Hop as [?|[?|?]].
  - intros _. split; [done| |].
    + unfold index_exact. destruct (operand i) eqn:E; try by repeat case_match. by edestruct Hne.
    + intros l st rs E. by edestruct Hno.
Qed.

Ltac wf_tac := constructor; vm_compute; try done; try (by left); split; done.
Ltac liftable_tac := apply simple_liftable; [wf_tac | first [left; vm_compute; discriminate | right; left; reflexivity | right; right; reflexivity] | vm_compute; done..].

Lemma adds_liftable p : liftable a64_cfg0 adds_inst p.
Proof. liftable_tac. Qed.
Lemma ldr_liftable p : liftable a64_cfg0 ldr_inst p.
Proof. liftable_tac. Qed.
Lemma bcs_liftable p : liftable a64_cfg0 bcs_inst p.
Proof. liftable_tac. Qed.

Lemma a64_lift_refines_witness : exists s' p',
  exec (i_a64 adds_inst) 4 pe0 = Some p' /\ Lift a64_fp0 a64_fi0 a64_cfg0 0 (fun _ => 0) no_simd adds_inst (pe_state pe0) = Some (true, s') /\
  arefines 0 [0] false s' p' /\ rX p' 0 = 4 /\ pf p' = mkFlags false false true false.
Proof.
  destruct (exec (i_a64 adds_inst) 4 pe0) as [p'|] eqn:E; [|vm_compute in E; discriminate E].
  destruct (a64_lift_refines a64_fp0 a64_fi0 a64_cfg0 0 (fun _ => 0) no_simd [0] false adds_inst (pe_state pe0) pe0 p') as (s' & El & Hs');
    [exact a64_plain0|cbn; lia|exact (pe_refines _ pe0_ok)|done|apply adds_liftable|exact E|].
  exists s', p'. split; [done|]. split; [exact El|]. split; [exact Hs'|].
  assert ((fun p => (rX p 0, pf p)) <$> exec (i_a64 adds_inst) 4 pe0 = Some (4, mkFlags false false true false)) as Ep by (vm_compute; reflexivity).
  rewrite E in Ep. apply (inj Some), pair_equal_spec in Ep. exact Ep.
Defined.

Lemma a64_lift_block_refines_witness : exists s' p',
  a64_lift_block a64_fp0 a64_fi0 a64_cfg0 0 (fun _ => 0) no_simd [adds_inst; ldr_inst; bcs_inst] (pe_state pe0) = Some (true, s') /\
  arefines 0 [0] false s' p' /\ ppc p' = 0x1018 /\ rX p' 3 = 0x1122334455667788.
Proof.
  destruct (a64_exec_block [adds_inst; ldr_inst; bcs_inst] pe0) as [p'|] eqn:E; [|vm_compute in E; discriminate E].
  destruct (a64_lift_block_refines a64_fp0 a64_fi0 a64_cfg0 0 (fun _ => 0) no_simd [0] false [adds_inst; ldr_inst; bcs_inst] (pe_state pe0) pe0 p')
    as (s' & El & Hs'); [exact a64_plain0|cbn; lia|exact (pe_refines _ pe0_ok)| |exact E|].
  { split; [apply adds_liftable|]. split; [apply ldr_liftable|]. by split; [apply bcs_liftable|]. }
  exists s', p'. split; [exact El|]. split; [exact Hs'|].
  assert ((fun p => (ppc p, rX p 3)) <$> a64_exec_block [adds_inst; ldr_inst; bcs_inst] pe0 = Some (0x1018, 0x1122334455667788)) as Ep by (vm_compute; reflexivity).
  rewrite E in Ep. apply (inj Some), pair_equal_spec in Ep. exact Ep.
Defined.

(** ** Where the lifted code differs *)

Definition a64_lift0 (w : Z) : option LState :=
  snd <$> Lift a64_fp0 a64_fi0 a64_cfg0 0 (fun _ => 0) no_simd (mkAInst (decoded w) 0x1000 4) (pe_state pe0).
Definition facet_of (r : ArchReg) (f : Facet) (s : LState) : option Z := v_bits <$> rf_vals (l_rf s) r f.

(** [adcs x0, xzr, x2] with carry, a sum of two to the 64: no carry comes out. *)
Example adcs_carry_lost :
  a64_lift0 0xba0203e0 ≫= facet_of REFLAGS FCF = Some 0 /\ (fun p => fC (pf p)) <$> exec (decoded 0xba0203e0) 4 pe0 = Some true.
Proof. vm_compute. done. Qed.

(** [blr x30] goes to the instruction after it. *)
Example blr_link_register :
  a64_lift0 0xd63f03c0 ≫= facet_of RIP FI64 = Some 0x1004 /\ ppc <$> exec (decoded 0xd63f03c0) 4 pe0 = Some 0x4000.
Proof. vm_compute. done. Qed.

(** [add w0, w1, w2, uxtx] and [ldr x0, [x4, x1, sxtx]] have no lifted code. *)
Example add_uxtx_w : a64_lift0 0x0b226020 = None /\ (fun p => rX p 0) <$> exec (decoded 0x0b226020) 4 pe0 = Some 4.
Proof. vm_compute. done. Qed.
Example ldr_sxtx : a64_lift0 0xf861e880 = None /\ is_Some (exec (decoded 0xf861e880) 4 pe0).
Proof. split; [vm_compute; done|]. eexists. vm_compute. reflexivity. Qed.
